(* ===== verification/_CoqProject ===== *)
-Q . S2P
Prelude.v
Spinlock.v
Kalloc.v
ProcData.v
Proc.v
Gates.v
Asm.v
AsmThm.v
ProcInv.v
ProcSafe.v
ProcThm.v
ProcTotal.v
ProcSched.v
Mutex.v
Tournament.v
Strings.v
Printf.v
UserProgs.v
UserThm.v
Pipe.v
Log.v
Grep.v
GrepMain.v
Sh.v
ShRun.v
Vm.v
VmInv.v
VmThm.v
VmUser.v
Fs.v
FsInv.v
FsAlloc.v
FsFile.v
FsWrite.v
FsTrunc.v
FsCache.v
FsDir.v
FsPath.v
FsDemo.v
FsThm.v
Mkfs.v
MkfsSim.v
MkfsImage.v
MkfsThm.v
Umalloc.v
UmallocThm.v
Console.v
Kbd.v
Syscall.v
Bio.v
BioThm.v
Ide.v
IdeThm.v
Mp.v
Boot.v
BootThm.v
Lapic.v
LapicThm.v
Main.v
Ioapic.v
Uart.v
File.v
Exec.v
ExecImage.v
ExecStack.v
ExecThm.v
Kernel.v
ExecProc.v
ExecDemo.v
Sysfile.v
FileRefs.v
FileSafe.v
FileLog.v
FileThm.v
