(* ===== verification/Prelude.v ===== *)
(** * xv6 with kernel threads: a verification library

    The program is the xv6 kernel for x86, extended with kernel threads (several
    threads per process), kernel mutexes and a tournament-tree lock of the user
    library, together with its boot loader, shell, user programs and user library and
    the program that builds its file system.  This library translates its C code and
    its short assembly routines into Rocq definitions and proves theorems about them.

    ** How the code is translated

    C code that changes state is a function of the monad [M S A] of this file: from
    a state it returns a value and a state ([Ok]), calls [panic] ([Panic]), does
    what the language or the machine leaves undefined ([Undef]: a null or stale
    pointer, an index out of range, a page fault), or does not return ([Spin]: it
    spins, or sleeps for an event that the caller itself would have to cause).
    [wp], [wpt] and the predicates of the single files are weakest
    preconditions; [wpt] and its kin include that the code returns.  Integers are
    [Z] with their wrap-around written out ([u32], [s32], [u8]); a pointer to an
    entry of a table is the index of the entry.  Loops that are not structural
    have fuel; running out of fuel is [Spin], so a theorem that code returns also
    says that the fuel given by the definition (a bound on the length of the list
    or the table, or a number that the theorem names) is enough.  Concurrency is by
    interleaving: code that runs under a lock is one step where the lock protects
    all it touches, and a step of its own between two points where it can sleep
    or be preempted where it does not.

    ** The parts and the files

    - Spinlocks and interrupt nesting ([src/spinlock.c]): Spinlock.v, with every
      operation on a machine of CPUs and, in [Smp], the single memory operations of
      [acquire] and [release].  Mutual exclusion of CPUs in any interleaving.
    - The page allocator ([src/kalloc.c]): Kalloc.v.  The list threaded through
      the free pages is the list of free pages; no page is given out twice.
    - Processes, threads and the scheduler ([src/proc.c], [src/proc.h]):
      ProcData.v has the records, Proc.v the operations, ProcInv.v the invariant,
      ProcSafe.v its preservation, ProcThm.v what holds in every reachable state,
      ProcTotal.v and ProcSched.v total correctness of operations.  [swtch] stores
      the point to resume at in the context of the thread.  The file system and the
      memory of processes are an interface, the class [World], which Kernel.v
      implements with the file system and the page tables below, so that the theorems
      hold of the kernel put together.
    - Kernel mutexes and tournament trees ([src/proc.c],
      [src/tournament_tree.c]): Mutex.v and Tournament.v, the tree against an
      interface of mutexes.  The theorems show what the code does, which is not
      to exclude (see the findings).
    - Strings, output ([src/string.c], [src/ulib.c], [src/printf.c], [cprintf] of
      [src/console.c]): Strings.v, Printf.v.
    - Pipes ([src/pipe.c]): Pipe.v.  A FIFO for any interleaving of
      readers, writers, closers and wakeups of [kill]; no wakeup is lost as long as
      nobody is killed and the read end stays open under its readers.
    - The log ([src/log.c]): Log.v.  A commit is atomic under crashes at every
      write, those of a recovery included; the space reserved by [begin_op] is
      enough.
    - The buffer cache ([src/bio.c], [src/sleeplock.c], [src/memide.c]): Bio.v,
      BioThm.v.  Processes that use it in any interleaving see one copy of each
      block, and the cache refines the disk with dirty buffers that Log.v is
      written on.
    - The file system ([src/fs.c]): Fs.v has the operations; FsInv.v the invariant
      that relates bitmap, inodes, indirect blocks and the inode cache; FsAlloc.v,
      FsFile.v, FsWrite.v, FsTrunc.v, FsCache.v, FsDir.v and FsPath.v the
      specifications; FsDemo.v a small disk; FsThm.v the theorems.  Blocks belong
      to one file, contents are lists of bytes, paths are walks over directories.
    - Open files and their system calls ([src/file.c], [src/sysfile.c],
      [pipealloc]): File.v, Sysfile.v.  FileRefs.v and FileSafe.v have the
      invariant of reference counts and its preservation by every call, FileLog.v
      the size of the transactions of [filewrite], FileThm.v the theorems.
    - Traps and system calls ([src/trap.c], [src/syscall.c], [src/sysproc.c]):
      Syscall.v.  The checks of arguments, dispatch and what a trap does to
      killed threads; the rest of the kernel is the classes [Kernel] and [Traps].
    - Address spaces ([src/vm.c]): Vm.v, VmInv.v, VmThm.v.  Creating, growing,
      copying and freeing an address space, with the pages of the allocator of
      Kalloc.v accounted for.  VmUser.v: the memory that a program sees through its
      page table.
    - Running a program ([src/exec.c]): Exec.v, on the state of Kernel.v; ExecImage.v
      and ExecStack.v follow the loading of the segments and the stack with the
      arguments, ExecThm.v and ExecProc.v have the theorems, ExecDemo.v a program.
      When [exec] succeeds the process runs exactly the image of the file.
    - The console, keyboard and serial port ([src/console.c], [src/kbd.c],
      [src/uart.c]): Console.v, Kbd.v, Uart.v.  The screen shows the text, the input
      buffer is a line discipline, and keys and received bytes reach it as the
      characters they stand for: the keys under the modifiers held, for keyboards on
      which the two keys of a modifier are not held together.
    - The disk driver ([src/ide.c]): Ide.v, IdeThm.v.  With a disk that follows its
      documentation and does not fail the driver goes through the same requests,
      interrupts and changes of buffers as the memory disk of Bio.v, with the same
      buffers and sectors, in the order of the requests; and every request is served
      after as many interrupts as there are requests up to it.
    - Boot and other processors ([src/bootmain.c], [src/mp.c], [startothers] of
      [src/main.c], [src/lapic.c], [src/ioapic.c], [src/picirq.c]): Boot.v and
      BootThm.v load the kernel from the disk of Ide.v, Mp.v reads the tables of the
      firmware, Lapic.v and LapicThm.v have the local interrupt controller and the
      clock chip in its four forms, of which [cmostime] reads the 24-hour ones, Ioapic.v the routing of interrupts, Main.v the start of the other
      processors, [kvmalloc] and the first page table.
    - Descriptors and assembly ([src/mmu.h], [tvinit] of [src/trap.c], [seginit] of
      [src/vm.c], [src/vectors.pl], [src/trapasm.S], [src/swtch.S], [src/usys.S],
      [src/initcode.S]): Gates.v has the descriptors, Asm.v the instructions that the
      routines use and the way the processor enters a trap, AsmThm.v the round trips
      through a trap and through [swtch].
    - The file system image ([src/mkfs.c]): Mkfs.v has the program, MkfsSim.v relates
      its image to the file system of Fs.v, MkfsImage.v and MkfsThm.v show that the
      kernel boots from it and finds the files.
    - User code: umalloc ([src/umalloc.c]) in Umalloc.v and UmallocThm.v; the shell
      ([src/sh.c]) in Sh.v, the parser, and ShRun.v, what a command does; grep
      ([src/grep.c]) in Grep.v, the matcher, and GrepMain.v, the program with its
      buffer, for files of which a read is as long as asked for; the small programs, the first process and the loop of the shell in
      UserProgs.v, with UserThm.v on what they print.

    ** Devices and other code that is not in the repository

    A device is a class of accesses to its registers, with any state, and a class of
    laws that say what its documentation promises: [Ide.Ata], [Lapic.LocalApic],
    [Lapic.Cmos], [Ioapic.IoApic], [Uart.Com].  Each has an instance, a small model of
    the device, on which the theorems are evaluated.  One law, [Ide.outsl_data], says
    more than the documentation: [idestart] writes the data of a sector without
    waiting until the disk asks for it.  The laws leave open what the
    documentation leaves open: how long a disk is busy, what the clock chip shows
    while it updates its registers, how many bytes a read of a file returns.  User
    programs are written over the class [UserProgs.Sys] of system calls.

    ** What is simplified

    - [fork] and [exit_process] of Proc.v take the file system and memory
      operations of [World] as atomic, and the two critical sections of [fork]
      are one transition.
    - Fs.v is run by one process at a time and for one device: an inode's sleep
      lock is a flag, [icache.lock] is left out, and [log_write] and [bread] are
      their effect on the contents of the blocks, which Log.v and BioThm.v
      justify.  File.v and Sysfile.v inherit this; [begin_op] and [end_op] are
      there the boundaries of the list of logged blocks.  The panics of [log_write] are
      in Log.v; that [filewrite] stays below the limit of a transaction is in
      FileLog.v.
    - The calls of Sysfile.v run one at a time; [FileThm.open_window_panics] is a case
      in which two that overlap panic.
    - What [acquire] of Spinlock.v prints before it panics on a lock that the
      processor holds is left out.
    - A page fault of user memory is a state of the model only where the code looks
      at it.
    - Asm.v runs straight sequences of instructions on aligned words; [call] and
      [jmp] are the points where one sequence ends and the next begins, and the C
      function [trap] is any change of the machine that returns on the same stack.
    - [startothers] waits for a processor that is any environment that sets its flag
      after a bounded number of turns and leaves the memory of the boot processor
      alone.
    - [fork] of UserProgs.v gives its result in the process that is followed.

    ** Bounds and fuel

    - Waiting for a device is a loop with fuel; the theorems take any fuel above the
      bound [delay] that the laws give for the device and show that the loop ends.
    - [mpinit] needs a turn for each entry of the table; [cmostime] returns with the
      turn that finds the chip quiet for its 26 accesses; a program that reads a file
      needs a turn for each byte at most.
    - [mpinit] with an entry of an unknown type is [Spin] for every fuel.

    ** Not modelled

    - The code before and between the stages of the boot ([src/bootasm.S],
      [src/entry.S], [src/entryother.S]): it switches the modes of the processor and
      turns paging on, which needs a model of the processor in which the address of
      the next instruction changes its meaning; the data it uses ([entrypgdir], the
      words below the entry code) is in Main.v.
    - [main], [mpmain] and [mpenter] of [src/main.c]: each of the initialisations they
      call in turn is a definition, on the state of its own file.
    - The test programs ([src/usertests.c], [src/sanity.c], [src/forktest.c],
      [src/stressfs.c]): they exercise the system calls and have no contract of
      their own.
    - [src/tournamet_tree.c]: an empty skeleton that is not compiled.
*)

From stdpp Require Export base list numbers strings functions fin_maps gmap.
From Stdlib Require Export ZArith Lia.

#[global] Open Scope Z_scope.

(** ** Outcomes of kernel code

    A C function of the kernel either returns, calls [panic], performs an
    access whose behaviour the language leaves undefined, or spins on the CPU
    without returning.  The state carried by each constructor is the one
    reached at that point. *)

Inductive outcome (S A : Type) : Type :=
| Ok (a : A) (s : S)
| Panic (msg : string) (s : S)
| Undef (why : string) (s : S)
| Spin (s : S).

Arguments Ok {S A} a s.
Arguments Panic {S A} msg s.
Arguments Undef {S A} why s.
Arguments Spin {S A} s.

(** The state-and-outcome monad in which stateful C code is written. *)
Definition M (S A : Type) : Type := S → outcome S A.

#[global] Instance M_ret {S} : MRet (M S) := λ A a s, Ok a s.

#[global] Instance M_bind {S} : MBind (M S) := λ A B f m s,
  match m s with
  | Ok a s' => f a s'
  | Panic msg s' => Panic msg s'
  | Undef why s' => Undef why s'
  | Spin s' => Spin s'
  end.

Definition get {S} : M S S := λ s, Ok s s.
Definition gets {S A} (f : S → A) : M S A := λ s, Ok (f s) s.
Definition modify {S} (f : S → S) : M S unit := λ s, Ok tt (f s).
Definition panic {S A} (msg : string) : M S A := λ s, Panic msg s.
Definition undefined {S A} (why : string) : M S A := λ s, Undef why s.
Definition spin {S A} : M S A := λ s, Spin s.

(** Run an operation of one component on its part of a larger state. *)
Definition zoom {S T A} (prj : S → T) (put : T → S → S) (m : M T A) : M S A :=
  λ s, match m (prj s) with
       | Ok a t => Ok a (put t s)
       | Panic msg t => Panic msg (put t s)
       | Undef why t => Undef why (put t s)
       | Spin t => Spin (put t s)
       end.

(** A bounded [for] loop that threads the state: the body runs on [i], [i+1],
    up to [i+n-1] in that order. *)
Fixpoint for_range {S} (i n : nat) (body : nat → M S unit) : M S unit :=
  match n with
  | O => mret tt
  | Datatypes.S n' => body i ;; for_range (Datatypes.S i) n' body
  end.

(** ** Weakest preconditions

    [wp m Q s] says that if [m] returns from [s] then [Q] holds of the result;
    [wpt m Q s] says moreover that [m] does return. *)
Definition wp {S A} (m : M S A) (Q : A → S → Prop) (s : S) : Prop :=
  match m s with Ok a s' => Q a s' | _ => True end.

Definition wpt {S A} (m : M S A) (Q : A → S → Prop) (s : S) : Prop :=
  match m s with Ok a s' => Q a s' | _ => False end.

(** ** Machine integers *)

Definition u32 (z : Z) : Z := z mod 2 ^ 32.
Definition s32 (z : Z) : Z := (z + 2 ^ 31) mod 2 ^ 32 - 2 ^ 31.
Definition u8 (z : Z) : Z := z mod 2 ^ 8.

(** ** Lists addressed by C indices *)

(** [l[i] = f(l[i])] for an index in range; the callers check the range. *)
Definition upd {A} (i : nat) (f : A → A) (l : list A) : list A := alter f i l.

(** ** Proof automation *)

Create HintDb xv6.

(** Split a hypothesis [(m ≫= f) s = Ok a s'] into its two halves. *)
Lemma bind_Ok {S A B} (m : M S A) (f : A → M S B) s b s' :
  (m ≫= f) s = Ok b s' ↔ ∃ a s1, m s = Ok a s1 ∧ f a s1 = Ok b s'.
Proof.
  unfold mbind, M_bind. destruct (m s) eqn:E; naive_solver.
Qed.

Lemma bind_step {S A B} (m : M S A) (f : A → M S B) s a s1 :
  m s = Ok a s1 → (m ≫= f) s = f a s1.
Proof. intros E. unfold mbind, M_bind. by rewrite E. Qed.

Lemma bind_panic {S A B} (m : M S A) (f : A → M S B) s msg s1 :
  m s = Panic msg s1 → (m ≫= f) s = Panic msg s1.
Proof. intros E. unfold mbind, M_bind. by rewrite E. Qed.

Lemma zoom_Ok {S T A} (prj : S → T) put (m : M T A) s a s' :
  zoom prj put m s = Ok a s' ↔ ∃ t, m (prj s) = Ok a t ∧ s' = put t s.
Proof. unfold zoom. destruct (m (prj s)); naive_solver. Qed.

(** *** Rules of [wp] *)

Lemma wp_ret {S A} (a : A) (Q : A → S → Prop) s : Q a s → wp (mret a) Q s.
Proof. done. Qed.

Lemma wp_bind {S A B} (m : M S A) (f : A → M S B) Q s :
  wp m (λ a s', wp (f a) Q s') s → wp (m ≫= f) Q s.
Proof. unfold wp, mbind, M_bind. by destruct (m s). Qed.

Lemma wp_mono {S A} (m : M S A) (P Q : A → S → Prop) s :
  wp m P s → (∀ a s', P a s' → Q a s') → wp m Q s.
Proof. unfold wp. destruct (m s); auto. Qed.

Lemma wp_get {S} (Q : S → S → Prop) s : Q s s → wp get Q s.
Proof. done. Qed.

Lemma wp_gets {S A} (f : S → A) (Q : A → S → Prop) s : Q (f s) s → wp (gets f) Q s.
Proof. done. Qed.

Lemma wp_modify {S} (f : S → S) (Q : unit → S → Prop) s : Q tt (f s) → wp (modify f) Q s.
Proof. done. Qed.

Lemma wp_panic {S A} msg (Q : A → S → Prop) s : wp (panic msg) Q s.
Proof. done. Qed.

Lemma wp_undefined {S A} why (Q : A → S → Prop) s : wp (undefined why) Q s.
Proof. done. Qed.

Lemma wp_spin {S A} (Q : A → S → Prop) s : wp spin Q s.
Proof. done. Qed.

Lemma wp_zoom {S T A} (prj : S → T) put (m : M T A) (Q : A → S → Prop) s :
  wp m (λ a t, Q a (put t s)) (prj s) → wp (zoom prj put m) Q s.
Proof. unfold wp, zoom. by destruct (m (prj s)). Qed.

Lemma wp_Ok {S A} (m : M S A) Q s a s' : wp m Q s → m s = Ok a s' → Q a s'.
Proof. unfold wp. intros H E. by rewrite E in H. Qed.

Lemma wp_of_Ok {S A} (m : M S A) (Q : A → S → Prop) s :
  (∀ a s', m s = Ok a s' → Q a s') → wp m Q s.
Proof. unfold wp. destruct (m s); auto. Qed.

Lemma wp_if {S A} (b : bool) (m1 m2 : M S A) Q s :
  (b = true → wp m1 Q s) → (b = false → wp m2 Q s) → wp (if b then m1 else m2) Q s.
Proof. destruct b; auto. Qed.

(** An invariant of the body of a loop is an invariant of the loop. *)
Lemma wp_for_range {S} (I : nat → S → Prop) (body : nat → M S unit) i n s :
  I i s →
  (∀ j s', (i ≤ j < i + n)%nat → I j s' → wp (body j) (λ _ s'', I (Datatypes.S j) s'') s') →
  wp (for_range i n body) (λ _ s', I (i + n)%nat s') s.
Proof.
  revert i s. induction n as [|n IH]; intros i s HI Hb; simpl.
  - apply wp_ret. by rewrite Nat.add_0_r.
  - apply wp_bind. eapply wp_mono; [apply Hb; [lia|done]|]. intros a s' HI'.
    replace (i + Datatypes.S n)%nat with (Datatypes.S i + n)%nat by lia.
    apply IH; [done|]. intros j s'' Hj. apply Hb. lia.
Qed.

(** One step of symbolic execution on a [wp] goal. *)
Ltac wp_step :=
  lazymatch goal with
  | |- wp (mbind _ _) _ _ => apply wp_bind
  | |- wp (mret _) _ _ => apply wp_ret
  | |- wp get _ _ => apply wp_get
  | |- wp (gets _) _ _ => apply wp_gets
  | |- wp (modify _) _ _ => apply wp_modify
  | |- wp (panic _) _ _ => apply wp_panic
  | |- wp (undefined _) _ _ => apply wp_undefined
  | |- wp spin _ _ => apply wp_spin
  | |- wp (if _ then _ else _) _ _ => apply wp_if; intros ?
  | |- wp (match ?x with _ => _ end) _ _ => destruct x eqn:?
  end; simpl.

Ltac wp_run := repeat wp_step.

(** *** Rules of [wpt] *)

Lemma wpt_ret {S A} (a : A) (Q : A → S → Prop) s : Q a s → wpt (mret a) Q s.
Proof. done. Qed.

Lemma wpt_bind {S A B} (m : M S A) (f : A → M S B) Q s :
  wpt m (λ a s', wpt (f a) Q s') s → wpt (m ≫= f) Q s.
Proof. unfold wpt, mbind, M_bind. by destruct (m s). Qed.

Lemma wpt_mono {S A} (m : M S A) (P Q : A → S → Prop) s :
  wpt m P s → (∀ a s', P a s' → Q a s') → wpt m Q s.
Proof. unfold wpt. destruct (m s); auto. Qed.

Lemma wpt_get {S} (Q : S → S → Prop) s : Q s s → wpt get Q s.
Proof. done. Qed.

Lemma wpt_gets {S A} (f : S → A) (Q : A → S → Prop) s : Q (f s) s → wpt (gets f) Q s.
Proof. done. Qed.

Lemma wpt_modify {S} (f : S → S) (Q : unit → S → Prop) s : Q tt (f s) → wpt (modify f) Q s.
Proof. done. Qed.

Lemma wpt_zoom {S T A} (prj : S → T) put (m : M T A) (Q : A → S → Prop) s :
  wpt m (λ a t, Q a (put t s)) (prj s) → wpt (zoom prj put m) Q s.
Proof. unfold wpt, zoom. by destruct (m (prj s)). Qed.

Lemma wpt_if {S A} (b : bool) (m1 m2 : M S A) Q s :
  (b = true → wpt m1 Q s) → (b = false → wpt m2 Q s) → wpt (if b then m1 else m2) Q s.
Proof. destruct b; auto. Qed.

Lemma wpt_Ok {S A} (m : M S A) (Q : A → S → Prop) s :
  wpt m Q s ↔ ∃ a s', m s = Ok a s' ∧ Q a s'.
Proof. unfold wpt. destruct (m s); naive_solver. Qed.

Lemma wpt_eq {S A} (m : M S A) (Q : A → S → Prop) s a s' : m s = Ok a s' → Q a s' → wpt m Q s.
Proof. intros E HQ. unfold wpt. by rewrite E. Qed.

Lemma wpt_for_range {S} (I : nat → S → Prop) (body : nat → M S unit) i n s :
  I i s →
  (∀ j s', (i ≤ j < i + n)%nat → I j s' → wpt (body j) (λ _ s'', I (Datatypes.S j) s'') s') →
  wpt (for_range i n body) (λ _ s', I (i + n)%nat s') s.
Proof.
  revert i s. induction n as [|n IH]; intros i s HI Hb; simpl.
  - apply wpt_ret. by rewrite Nat.add_0_r.
  - apply wpt_bind. eapply wpt_mono; [apply Hb; [lia|done]|]. intros a s' HI'.
    replace (i + Datatypes.S n)%nat with (Datatypes.S i + n)%nat by lia.
    apply IH; [done|]. intros j s'' Hj. apply Hb. lia.
Qed.

(** One step of symbolic execution on a [wpt] goal. *)
Ltac wpt_step :=
  lazymatch goal with
  | |- wpt (mbind _ _) _ _ => apply wpt_bind
  | |- wpt (mret _) _ _ => apply wpt_ret
  | |- wpt get _ _ => apply wpt_get
  | |- wpt (gets _) _ _ => apply wpt_gets
  | |- wpt (modify _) _ _ => apply wpt_modify
  end.

(** *** Integers *)

Lemma u32_range z : 0 ≤ u32 z < 2 ^ 32.
Proof. unfold u32. apply Z.mod_pos_bound. lia. Qed.

Lemma u32_small z : 0 ≤ z < 2 ^ 32 → u32 z = z.
Proof. unfold u32. apply Z.mod_small. Qed.

Lemma s32_small z : - 2 ^ 31 ≤ z < 2 ^ 31 → s32 z = z.
Proof. intros. unfold s32. rewrite Z.mod_small; lia. Qed.

Lemma s32_range z : - 2 ^ 31 ≤ s32 z < 2 ^ 31.
Proof. unfold s32. pose proof (Z.mod_pos_bound (z + 2 ^ 31) (2 ^ 32)). lia. Qed.

Lemma u32_add_l a b : u32 (u32 a + b) = u32 (a + b).
Proof. unfold u32. by rewrite Zplus_mod_idemp_l. Qed.

Lemma u32_add_r a b : u32 (a + u32 b) = u32 (a + b).
Proof. unfold u32. by rewrite Zplus_mod_idemp_r. Qed.

Lemma u32_sub_l a b : u32 (u32 a - b) = u32 (a - b).
Proof. unfold u32. by rewrite Zminus_mod_idemp_l. Qed.

Lemma u32_sub_r a b : u32 (a - u32 b) = u32 (a - b).
Proof. unfold u32. by rewrite Zminus_mod_idemp_r. Qed.

Lemma u32_idemp a : u32 (u32 a) = u32 a.
Proof. unfold u32. by rewrite Zmod_mod. Qed.

Create Rewrite HintDb u32.
#[export] Hint Rewrite u32_add_l u32_add_r u32_sub_l u32_sub_r u32_idemp : u32.

(** *** Lists *)

Lemma length_upd {A} i (f : A → A) l : length (upd i f l) = length l.
Proof. apply length_alter. Qed.

Lemma lookup_upd_eq {A} i (f : A → A) (l : list A) : upd i f l !! i = f <$> l !! i.
Proof. apply list_lookup_alter_eq. Qed.

Lemma lookup_upd_ne {A} i j (f : A → A) (l : list A) : i ≠ j → upd i f l !! j = l !! j.
Proof. apply list_lookup_alter_ne. Qed.

Lemma lookup_upd_Some {A} i j (f : A → A) (l : list A) y :
  upd i f l !! j = Some y ↔
  (i = j ∧ ∃ x, l !! i = Some x ∧ y = f x) ∨ (i ≠ j ∧ l !! j = Some y).
Proof.
  destruct (decide (i = j)) as [->|Hne].
  - rewrite lookup_upd_eq, fmap_Some. naive_solver.
  - rewrite lookup_upd_ne by done. naive_solver.
Qed.

Lemma upd_insert {A} i (f : A → A) (l : list A) x :
  l !! i = Some x → upd i f l = <[i := f x]> l.
Proof.
  intros Hx. apply list_eq. intros j. destruct (decide (i = j)) as [<-|Hne].
  - rewrite lookup_upd_eq, Hx, list_lookup_insert_eq; [done|]. by eapply lookup_lt_Some.
  - by rewrite lookup_upd_ne, list_lookup_insert_ne.
Qed.

Lemma upd_insert_eq {A} i (f : A → A) (l : list A) x :
  (i < length l)%nat → upd i f (<[i := x]> l) = <[i := f x]> l.
Proof.
  intros Hi. rewrite (upd_insert _ _ _ x) by by apply list_lookup_insert_eq.
  apply list_insert_insert_eq.
Qed.

(** The first index of a list whose element satisfies a property that only one
    element has is the index of that element. *)
Lemma list_find_unique {A B} `{EqDecision B} (f : A → B) (l : list A) i x :
  NoDup (f <$> l) → l !! i = Some x →
  list_find (λ y, f y = f x) l = Some (i, x).
Proof.
  intros Hnd Hi. apply list_find_Some. split; [done|]. split; [done|].
  intros j y Hj Hlt Hy. assert (i = j) as ->; [|lia].
  eapply NoDup_lookup; [exact Hnd| |]; rewrite list_lookup_fmap.
  - by rewrite Hi.
  - rewrite Hj. simpl. by rewrite Hy.
Qed.

(** Unfold the monadic operators; used to evaluate a program operation by
    operation. *)
Ltac mred :=
  repeat progress (unfold mbind, M_bind, mret, M_ret, get, gets, modify, panic, undefined, spin;
  simpl).

(** Rule induction on reachability: an invariant of the steps holds in every
    reachable state. *)
Lemma rtc_invariant {A} (R : relation A) (I : A → Prop) x y :
  (∀ a b, R a b → I a → I b) → rtc R x y → I x → I y.
Proof. intros Hstep. induction 1; eauto. Qed.
