(* ===== verification/Spinlock.v ===== *)
(** * Spinlocks and interrupt nesting

    [src/spinlock.c], and [mycpu] of [src/proc.c].  A [mach] holds the CPUs
    ([struct cpu] of [src/proc.h]) and the spinlocks of the kernel; every
    operation takes the index [me] of the CPU that executes it.  The second half
    of the file gives [acquire] and [release] at the granularity of single
    memory operations and interleaves the CPUs. *)

From S2P Require Import Prelude.

(** Locks are named by the object that holds them. *)
Inductive lock_id : Type :=
| Lptable
| Ltickslock
| Lkmem
| Lmutexes
| Lmutex (slot : nat)
| Lstack (tid : nat)
| Lother (addr : nat).

#[global] Instance lock_id_eq_dec : EqDecision lock_id.
Proof. solve_decision. Defined.

(** [struct spinlock]; the recorded call stack [pcs] is for debugging only and
    is modelled by [getcallerpcs] below. *)
Record spinlock : Type := Spinlock {
  locked : Z;
  lk_name : string;
  lk_cpu : option nat;
}.

(** The scheduler loop of a CPU is a position in its scan of [ptable.proc]
    (see Proc.v); [NotScanning] is the top of its [for(;;)]. *)
Inductive scan : Type :=
| NotScanning
| AtProc (p : nat)
| AtThread (p i : nat).

(** [struct cpu], with the interrupt flag [FL_IF] of its [eflags]. *)
Record cpu : Type := Cpu {
  apicid : Z;
  ncli : Z;
  intena : bool;
  iflag : bool;
  cproc : option nat;
  cthread : option (nat * nat);
  cscan : scan;
}.

Record mach : Type := Mach {
  cpus : list cpu;
  locks : lock_id → spinlock;
}.

Definition set_ncli (n : Z) (c : cpu) : cpu :=
  Cpu (apicid c) n (intena c) (iflag c) (cproc c) (cthread c) (cscan c).
Definition set_intena (b : bool) (c : cpu) : cpu :=
  Cpu (apicid c) (ncli c) b (iflag c) (cproc c) (cthread c) (cscan c).
Definition set_iflag (b : bool) (c : cpu) : cpu :=
  Cpu (apicid c) (ncli c) (intena c) b (cproc c) (cthread c) (cscan c).
Definition set_cur (p : option nat) (t : option (nat * nat)) (c : cpu) : cpu :=
  Cpu (apicid c) (ncli c) (intena c) (iflag c) p t (cscan c).
Definition set_scan (x : scan) (c : cpu) : cpu :=
  Cpu (apicid c) (ncli c) (intena c) (iflag c) (cproc c) (cthread c) x.

Definition upd_cpu (i : nat) (f : cpu → cpu) (m : mach) : mach :=
  Mach (upd i f (cpus m)) (locks m).
Definition set_lock (l : lock_id) (k : spinlock) (m : mach) : mach :=
  Mach (cpus m) (<[l := k]> (locks m)).

(** The CPU that executes; [undefined] stands for an index that is no CPU. *)
Definition this_cpu (me : nat) : M mach cpu := λ m,
  match cpus m !! me with
  | Some c => Ok c m
  | None => Undef "no such cpu" m
  end.

Definition readeflags_if (me : nat) : M mach bool :=
  c ← this_cpu me; mret (iflag c).

Definition cli (me : nat) : M mach unit := modify (upd_cpu me (set_iflag false)).
Definition sti (me : nat) : M mach unit := modify (upd_cpu me (set_iflag true)).

(** The Local APIC of a CPU reports the id recorded for it by [mpinit]. *)
Definition lapicid (me : nat) : M mach Z :=
  c ← this_cpu me; mret (apicid c).

Definition mycpu (me : nat) : M mach nat :=
  ei ← readeflags_if me;
  if (ei : bool) then panic "mycpu called with interrupts enabled"
  else
    id ← lapicid me;
    m ← get;
    match list_find (λ c, apicid c = id) (cpus m) with
    | Some (i, _) => mret i
    | None => panic "unknown apicid"
    end.

Definition cpuid (me : nat) : M mach nat := mycpu me.

Definition initlock (l : lock_id) (name : string) : M mach unit :=
  modify (set_lock l (Spinlock 0 name None)).

Definition pushcli (me : nat) : M mach unit :=
  eflags ← readeflags_if me;
  cli me;;
  i ← mycpu me;
  c ← this_cpu i;
  (if bool_decide (ncli c = 0) then modify (upd_cpu i (set_intena eflags)) else mret tt);;
  modify (upd_cpu i (λ c, set_ncli (ncli c + 1) c)).

Definition popcli (me : nat) : M mach unit :=
  eflags ← readeflags_if me;
  if (eflags : bool) then panic "popcli - interruptible"
  else
    i ← mycpu me;
    modify (upd_cpu i (λ c, set_ncli (ncli c - 1) c));;
    c ← this_cpu i;
    if bool_decide (ncli c < 0) then panic "popcli"
    else if bool_decide (ncli c = 0) && intena c then sti me
    else mret tt.

(** Whether this CPU is holding the lock. *)
Definition holding (me : nat) (l : lock_id) : M mach bool :=
  pushcli me;;
  i ← mycpu me;
  m ← get;
  let lk := locks m l in
  let r := bool_decide (locked lk ≠ 0 ∧ lk_cpu lk = Some i) in
  popcli me;;
  mret r.

(** [while(xchg(&lk->locked, 1) != 0);] then the owner is recorded.  A lock
    held by another CPU keeps this one spinning.  Acquiring a lock that is
    already held by this CPU first prints [p->state] of the current process. *)
Definition acquire (me : nat) (l : lock_id) : M mach unit :=
  pushcli me;;
  h ← holding me l;
  if (h : bool) then
    c ← this_cpu me;
    match cproc c with
    | None => undefined "acquire: p->state of a null process"
    | Some _ => panic "acquire"
    end
  else
    m ← get;
    if bool_decide (locked (locks m l) ≠ 0) then spin
    else
      i ← mycpu me;
      modify (set_lock l (Spinlock 1 (lk_name (locks m l)) (Some i))).

Definition release (me : nat) (l : lock_id) : M mach unit :=
  h ← holding me l;
  if negb h then panic "release"
  else
    m ← get;
    modify (set_lock l (Spinlock 0 (lk_name (locks m l)) None));;
    popcli me.

(** [getcallerpcs]: follow at most ten saved frame pointers of the stack whose
    words are given by [mem]; the remaining entries are zero. *)
Definition KERNBASE : Z := 0x80000000.

Fixpoint getcallerpcs_loop (mem : Z → Z) (ebp : Z) (n : nat) : list Z :=
  match n with
  | O => []
  | S n' =>
      if bool_decide (ebp = 0 ∨ ebp < KERNBASE ∨ ebp = 0xffffffff) then replicate n 0
      else mem (u32 (ebp + 4)) :: getcallerpcs_loop mem (mem ebp) n'
  end.

Definition getcallerpcs (mem : Z → Z) (v : Z) : list Z :=
  getcallerpcs_loop mem (u32 (v - 8)) 10.

(** ** What the operations compute *)

(** Distinct CPUs have distinct APIC ids. *)
Definition mach_wf (m : mach) : Prop := NoDup (apicid <$> cpus m).

(** Interrupts are off as long as some [pushcli] is not undone. *)
Definition cpu_ok (c : cpu) : Prop := 0 ≤ ncli c ∧ (0 < ncli c → iflag c = false).

Definition with_cpu (me : nat) (c : cpu) (m : mach) : mach :=
  Mach (<[me := c]> (cpus m)) (locks m).

Definition pushed (c : cpu) : cpu :=
  Cpu (apicid c) (ncli c + 1) (if bool_decide (ncli c = 0) then iflag c else intena c)
      false (cproc c) (cthread c) (cscan c).

Definition popped (c : cpu) : cpu :=
  Cpu (apicid c) (ncli c - 1) (intena c)
      (bool_decide (ncli c = 1) && intena c) (cproc c) (cthread c) (cscan c).

Lemma mach_wf_with_cpu me c c' m :
  mach_wf m → cpus m !! me = Some c → apicid c' = apicid c → mach_wf (with_cpu me c' m).
Proof.
  unfold mach_wf. intros Hwf Hc He. cbn [with_cpu cpus].
  rewrite list_fmap_insert, He, list_insert_id; [done|].
  by rewrite list_lookup_fmap, Hc.
Qed.

Lemma with_cpu_lookup me c c0 m :
  cpus m !! me = Some c0 → cpus (with_cpu me c m) !! me = Some c.
Proof. intros H. apply list_lookup_insert_eq. by eapply lookup_lt_Some. Qed.

Lemma with_cpu_twice me c c' m : with_cpu me c (with_cpu me c' m) = with_cpu me c m.
Proof. unfold with_cpu. simpl. by rewrite list_insert_insert_eq. Qed.

Lemma with_cpu_id me c m : cpus m !! me = Some c → with_cpu me c m = m.
Proof. intros H. unfold with_cpu. rewrite list_insert_id by done. by destruct m. Qed.

Lemma upd_cpu_with me c c' f m :
  cpus m !! me = Some c' → upd_cpu me f (with_cpu me c m) = with_cpu me (f c) m.
Proof.
  intros H. unfold upd_cpu, with_cpu. simpl.
  rewrite upd_insert_eq; [done|]. by eapply lookup_lt_Some.
Qed.

Lemma upd_cpu_eq me c f m : cpus m !! me = Some c → upd_cpu me f m = with_cpu me (f c) m.
Proof. intros H. unfold upd_cpu, with_cpu. by erewrite upd_insert. Qed.

Lemma this_cpu_ok me c m : cpus m !! me = Some c → this_cpu me m = Ok c m.
Proof. intros H. unfold this_cpu. by rewrite H. Qed.

(** [mycpu] finds the executing CPU, provided interrupts are off. *)
Lemma mycpu_self me c m :
  mach_wf m → cpus m !! me = Some c → iflag c = false → mycpu me m = Ok me m.
Proof.
  intros Hwf Hc Hi. unfold mycpu, readeflags_if, lapicid, this_cpu.
  mred. rewrite Hc, Hi. mred. rewrite Hc. mred. by erewrite list_find_unique by eauto.
Qed.

Lemma pushcli_ok me c m :
  mach_wf m → cpus m !! me = Some c →
  pushcli me m = Ok tt (with_cpu me (pushed c) m).
Proof.
  intros Hwf Hc. unfold pushcli, readeflags_if, cli. mred.
  rewrite (this_cpu_ok me c m) by done. mred.
  rewrite (upd_cpu_eq me c) by done.
  assert (Hc' := with_cpu_lookup me (set_iflag false c) c m Hc).
  rewrite (mycpu_self me (set_iflag false c)); [|by eapply mach_wf_with_cpu|done..].
  rewrite (this_cpu_ok me (set_iflag false c)) by done.
  unfold pushed. simpl. case_bool_decide; mred; by rewrite ?(upd_cpu_with me _ c) by done.
Qed.

Lemma popcli_ok me c m :
  mach_wf m → cpus m !! me = Some c → iflag c = false → 1 ≤ ncli c →
  popcli me m = Ok tt (with_cpu me (popped c) m).
Proof.
  intros Hwf Hc Hi Hn. unfold popcli, readeflags_if, sti. mred.
  rewrite (this_cpu_ok me c m) by done. mred. rewrite Hi. mred.
  rewrite (mycpu_self me c) by done. rewrite (upd_cpu_eq me c) by done.
  rewrite (this_cpu_ok me (set_ncli (ncli c - 1) c)) by by eapply with_cpu_lookup.
  simpl. rewrite bool_decide_eq_false_2 by lia.
  unfold popped. rewrite (bool_decide_ext (ncli c - 1 = 0) (ncli c = 1)) by lia.
  destruct (bool_decide (ncli c = 1) && intena c); mred.
  - by rewrite (upd_cpu_with me _ c) by done.
  - unfold set_ncli. by rewrite Hi.
Qed.

Lemma pushed_ok c : cpu_ok c → cpu_ok (pushed c).
Proof. unfold cpu_ok, pushed. simpl. intuition lia. Qed.

Lemma popped_pushed c :
  cpu_ok c → popped (pushed c) = if bool_decide (ncli c = 0) then set_intena (iflag c) c else c.
Proof.
  intros [H0 H1]. unfold popped, pushed, set_intena. simpl.
  destruct c as [a n ie fl p t sc]; simpl in *.
  case_bool_decide; simpl; repeat f_equal; try lia.
  - by rewrite bool_decide_eq_true_2 by lia.
  - rewrite bool_decide_eq_false_2 by lia. simpl. rewrite H1 by lia. done.
Qed.

Definition held_by (me : nat) (l : lock_id) (m : mach) : Prop :=
  locked (locks m l) ≠ 0 ∧ lk_cpu (locks m l) = Some me.

#[global] Instance held_by_dec me l m : Decision (held_by me l m).
Proof. unfold held_by. apply _. Defined.

Lemma holding_ok me l c m :
  mach_wf m → cpus m !! me = Some c → cpu_ok c →
  holding me l m = Ok (bool_decide (held_by me l m)) (with_cpu me (popped (pushed c)) m).
Proof.
  intros Hwf Hc Hok. unfold holding. mred.
  rewrite (pushcli_ok me c) by done.
  assert (Hc' := with_cpu_lookup me (pushed c) c m Hc).
  assert (Hwf' : mach_wf (with_cpu me (pushed c) m)) by by eapply mach_wf_with_cpu.
  rewrite (mycpu_self me (pushed c)) by done.
  rewrite (popcli_ok me (pushed c)); [|done..|simpl; destruct Hok; lia].
  rewrite with_cpu_twice. done.
Qed.

(** Inside some [pushcli] section [holding] leaves the machine as it was. *)
Lemma holding_nested me l c m :
  mach_wf m → cpus m !! me = Some c → cpu_ok c → 1 ≤ ncli c →
  holding me l m = Ok (bool_decide (held_by me l m)) m.
Proof.
  intros Hwf Hc Hok Hn. rewrite (holding_ok me l c) by done.
  rewrite popped_pushed by done. rewrite (bool_decide_eq_false_2 (ncli c = 0)) by lia.
  by rewrite with_cpu_id.
Qed.

Definition locked_by (me : nat) (k : spinlock) : spinlock := Spinlock 1 (lk_name k) (Some me).
Definition unlocked (k : spinlock) : spinlock := Spinlock 0 (lk_name k) None.

Lemma acquire_unfold me l c m :
  mach_wf m → cpus m !! me = Some c → cpu_ok c →
  acquire me l m =
    let m1 := with_cpu me (pushed c) m in
    if bool_decide (held_by me l m) then
      match cproc c with
      | None => Undef "acquire: p->state of a null process" m1
      | Some _ => Panic "acquire" m1
      end
    else if bool_decide (locked (locks m l) ≠ 0) then Spin m1
    else Ok tt (set_lock l (locked_by me (locks m l)) m1).
Proof.
  intros Hwf Hc Hok. unfold acquire. mred.
  rewrite (pushcli_ok me c) by done.
  assert (Hc' := with_cpu_lookup me (pushed c) c m Hc).
  assert (Hwf' : mach_wf (with_cpu me (pushed c) m)) by by eapply mach_wf_with_cpu.
  rewrite (holding_nested me l (pushed c)); [|done|done|by apply pushed_ok|simpl; destruct Hok; lia].
  rewrite (bool_decide_ext (held_by me l (with_cpu me (pushed c) m)) (held_by me l m)) by done.
  case_bool_decide.
  - mred. rewrite (this_cpu_ok _ _ _ Hc'). simpl. by destruct (cproc c).
  - mred. case_bool_decide; [done|].
    by rewrite (mycpu_self me (pushed c)).
Qed.

Lemma acquire_ok me l c m :
  mach_wf m → cpus m !! me = Some c → cpu_ok c → locked (locks m l) = 0 →
  acquire me l m = Ok tt (set_lock l (locked_by me (locks m l)) (with_cpu me (pushed c) m)).
Proof.
  intros Hwf Hc Hok Hl. rewrite (acquire_unfold me l c) by done. simpl.
  rewrite bool_decide_eq_false_2 by (intros [? _]; done).
  by rewrite bool_decide_eq_false_2 by congruence.
Qed.

Lemma release_unfold me l c m :
  mach_wf m → cpus m !! me = Some c → cpu_ok c → 1 ≤ ncli c →
  release me l m =
    if bool_decide (held_by me l m)
    then Ok tt (with_cpu me (popped c) (set_lock l (unlocked (locks m l)) m))
    else Panic "release" m.
Proof.
  intros Hwf Hc Hok Hn. unfold release. mred.
  rewrite (holding_nested me l c) by done. case_bool_decide; simpl; [|done].
  rewrite (popcli_ok me c); [done|done|done|apply Hok; lia|done].
Qed.

(** ** Properties of single operations *)

(** A matched [acquire]/[release] of a free lock by a CPU with consistent
    interrupt state leaves the lock free, and restores the interrupt flag and
    the nesting depth of the CPU. *)
Theorem acquire_release_roundtrip me l c m :
  mach_wf m → cpus m !! me = Some c → cpu_ok c → locked (locks m l) = 0 →
  ∃ m' c', (acquire me l ;; release me l) m = Ok tt m' ∧
    cpus m' !! me = Some c' ∧
    iflag c' = iflag c ∧ ncli c' = ncli c ∧
    (∀ j, j ≠ me → cpus m' !! j = cpus m !! j) ∧
    locked (locks m' l) = 0 ∧ (∀ k, k ≠ l → locks m' k = locks m k).
Proof.
  intros Hwf Hc Hok Hl. mred. rewrite (acquire_ok me l c) by done.
  set (m1 := set_lock _ _ _).
  assert (Hc1 : cpus m1 !! me = Some (pushed c)) by by eapply with_cpu_lookup.
  rewrite (release_unfold me l (pushed c));
    [|by eapply mach_wf_with_cpu|done|by apply pushed_ok|simpl; destruct Hok; lia].
  rewrite bool_decide_eq_true_2.
  2:{ split; simpl; rewrite fn_lookup_insert; done. }
  eexists _, (popped (pushed c)). split; [done|]. split; [by eapply with_cpu_lookup|].
  rewrite popped_pushed by done.
  split; [by case_bool_decide|]. split; [by case_bool_decide|]. split.
  - intros j Hj. simpl. by rewrite !list_lookup_insert_ne.
  - simpl. rewrite fn_lookup_insert. split; [done|].
    intros k Hk. by rewrite !fn_lookup_insert_ne.
Qed.

(** [n] nested [pushcli], then as many [popcli]. *)
Definition push_pop (me n : nat) : M mach unit :=
  for_range 0 n (λ _, pushcli me) ;; for_range 0 n (λ _, popcli me).

Lemma push_n me n : ∀ c m i,
  mach_wf m → cpus m !! me = Some c → cpu_ok c → (0 < n)%nat →
  for_range i n (λ _, pushcli me) m =
    Ok tt (with_cpu me (Cpu (apicid c) (ncli c + Z.of_nat n)
             (if bool_decide (ncli c = 0) then iflag c else intena c)
             false (cproc c) (cthread c) (cscan c)) m).
Proof.
  induction n as [|n IH]; intros c m i Hwf Hc Hok Hn; [lia|]. cbn [for_range]. mred.
  rewrite (pushcli_ok me c) by done. destruct n as [|n].
  - simpl. done.
  - rewrite (IH (pushed c)); [|by eapply mach_wf_with_cpu|by eapply with_cpu_lookup
      |by apply pushed_ok|lia].
    rewrite with_cpu_twice. cbn [pushed apicid ncli intena iflag cproc cthread cscan].
    rewrite (bool_decide_eq_false_2 (ncli c + 1 = 0)) by (destruct Hok; lia).
    by replace (ncli c + 1 + Z.of_nat (S n)) with (ncli c + Z.of_nat (S (S n))) by lia.
Qed.

Lemma pop_n me n : ∀ c m i,
  mach_wf m → cpus m !! me = Some c → iflag c = false → (0 < n)%nat → Z.of_nat n ≤ ncli c →
  for_range i n (λ _, popcli me) m =
    Ok tt (with_cpu me (Cpu (apicid c) (ncli c - Z.of_nat n) (intena c)
             (bool_decide (ncli c = Z.of_nat n) && intena c) (cproc c) (cthread c) (cscan c)) m).
Proof.
  induction n as [|n IH]; intros c m i Hwf Hc Hi Hn Hle; [lia|]. cbn [for_range]. mred.
  rewrite (popcli_ok me c) by (done || lia). destruct n as [|n].
  - simpl. done.
  - rewrite (IH (popped c)); [|by eapply mach_wf_with_cpu|by eapply with_cpu_lookup| |lia|].
    + rewrite with_cpu_twice. cbn [popped apicid ncli intena iflag cproc cthread cscan].
      rewrite (bool_decide_ext (ncli c - 1 = Z.of_nat (S n)) (ncli c = Z.of_nat (S (S n)))) by lia.
      by replace (ncli c - 1 - Z.of_nat (S n)) with (ncli c - Z.of_nat (S (S n))) by lia.
    + unfold popped. simpl. rewrite bool_decide_eq_false_2 by lia. done.
    + simpl. lia.
Qed.

(** Interrupt disabling nests: [n] calls of [pushcli] followed by [n] calls
    of [popcli] return, whatever the depth they start from, and give back the
    interrupt flag and the nesting depth. *)
Theorem pushcli_popcli_nest me n c m :
  mach_wf m → cpus m !! me = Some c → cpu_ok c →
  ∃ m' c', push_pop me n m = Ok tt m' ∧ cpus m' !! me = Some c' ∧
    iflag c' = iflag c ∧ ncli c' = ncli c ∧ locks m' = locks m.
Proof.
  intros Hwf Hc Hok. unfold push_pop. destruct (decide (n = 0%nat)) as [->|Hn].
  { simpl. eexists m, c. done. }
  mred. rewrite (push_n me n c) by (done || lia). set (c1 := Cpu _ _ _ _ _ _ _).
  assert (Hc1 : cpus (with_cpu me c1 m) !! me = Some c1) by by eapply with_cpu_lookup.
  destruct Hok as [H0 H1].
  rewrite (pop_n me n c1); [|by eapply mach_wf_with_cpu|done|done|lia|simpl; lia].
  rewrite with_cpu_twice. eexists _, _. split; [done|]. split; [by eapply with_cpu_lookup|].
  simpl. split; [|split; [lia|done]].
  destruct (decide (ncli c = 0)) as [He|He].
  - rewrite !bool_decide_eq_true_2 by lia. done.
  - rewrite !bool_decide_eq_false_2 by lia. simpl. symmetry. apply H1. lia.
Qed.

(** A CPU never gets the same spinlock twice: acquiring a lock it already
    holds does not return (it panics when a process is running, and otherwise
    first dereferences the null current process). *)
Theorem acquire_not_reentrant me l c m :
  mach_wf m → cpus m !! me = Some c → cpu_ok c → held_by me l m →
  acquire me l m =
    match cproc c with
    | Some _ => Panic "acquire" (with_cpu me (pushed c) m)
    | None => Undef "acquire: p->state of a null process" (with_cpu me (pushed c) m)
    end.
Proof.
  intros Hwf Hc Hok Hh. rewrite (acquire_unfold me l c) by done. simpl.
  rewrite bool_decide_eq_true_2 by done. by destruct (cproc c).
Qed.

Definition demo_cpu (id : Z) : cpu := Cpu id 0 false true None None NotScanning.
Definition demo_mach : mach :=
  Mach [demo_cpu 0; demo_cpu 1] (λ _, Spinlock 0 "" None).

Lemma demo_mach_wf : mach_wf demo_mach.
Proof. unfold mach_wf. simpl. apply (bool_decide_unpack _). vm_compute. done. Qed.

Lemma acquire_release_roundtrip_witness :
  ∃ m' c', (acquire 1 Lptable ;; release 1 Lptable) demo_mach = Ok tt m' ∧
    cpus m' !! 1%nat = Some c' ∧
    iflag c' = iflag (demo_cpu 1) ∧ ncli c' = ncli (demo_cpu 1) ∧
    (∀ j, j ≠ 1%nat → cpus m' !! j = cpus demo_mach !! j) ∧
    locked (locks m' Lptable) = 0 ∧ (∀ k, k ≠ Lptable → locks m' k = locks demo_mach k).
Proof.
  apply (acquire_release_roundtrip 1 Lptable (demo_cpu 1) demo_mach).
  - apply demo_mach_wf.
  - reflexivity.
  - split; simpl; lia.
  - reflexivity.
Defined.

Lemma pushcli_popcli_nest_witness :
  ∃ m' c', push_pop 0 3 demo_mach = Ok tt m' ∧ cpus m' !! 0%nat = Some c' ∧
    iflag c' = true ∧ ncli c' = 0 ∧ locks m' = locks demo_mach.
Proof.
  apply (pushcli_popcli_nest 0 3 (demo_cpu 0) demo_mach).
  - apply demo_mach_wf.
  - reflexivity.
  - split; simpl; lia.
Defined.

Definition demo_held : mach :=
  Mach [Cpu 0 1 true false (Some 3%nat) (Some (3, 0)%nat) NotScanning; demo_cpu 1]
       (<[Lptable := Spinlock 1 "ptable" (Some 0%nat)]> (λ _, Spinlock 0 "" None)).

Lemma acquire_not_reentrant_witness :
  ∃ m', acquire 0 Lptable demo_held = Panic "acquire" m'.
Proof.
  eexists.
  apply (acquire_not_reentrant 0 Lptable
           (Cpu 0 1 true false (Some 3%nat) (Some (3, 0)%nat) NotScanning) demo_held).
  - apply (bool_decide_unpack _). vm_compute. done.
  - reflexivity.
  - split; simpl; done.
  - split; done.
Defined.

(** ** Interleaving of CPUs

    One lock and any number of CPUs, at the granularity of the memory
    operations of [acquire] and [release].  A CPU is outside, about to execute
    [xchg], between [xchg] and the store to [lk->cpu], in its critical
    section, or between the two stores of [release]. *)
Module Smp.

Inductive pc : Type := Out | Try | Won | In | Leaving.

#[global] Instance pc_eq_dec : EqDecision pc.
Proof. solve_decision. Defined.

Record state : Type := State { lk : spinlock; pcs : list pc }.

Definition goto (i : nat) (x : pc) (k : spinlock) (s : state) : state :=
  State k (<[i := x]> (pcs s)).

(** One memory operation of CPU [i]. *)
Inductive step (i : nat) : state → state → Prop :=
| step_enter s :
    pcs s !! i = Some Out →
    step i s (goto i Try (lk s) s)
| step_xchg_busy s :
    pcs s !! i = Some Try → locked (lk s) ≠ 0 →
    step i s (goto i Try (Spinlock 1 (lk_name (lk s)) (lk_cpu (lk s))) s)
| step_xchg_free s :
    pcs s !! i = Some Try → locked (lk s) = 0 →
    step i s (goto i Won (Spinlock 1 (lk_name (lk s)) (lk_cpu (lk s))) s)
| step_record s :
    pcs s !! i = Some Won →
    step i s (goto i In (Spinlock (locked (lk s)) (lk_name (lk s)) (Some i)) s)
| step_forget s :
    pcs s !! i = Some In →
    step i s (goto i Leaving (Spinlock (locked (lk s)) (lk_name (lk s)) None) s)
| step_store0 s :
    pcs s !! i = Some Leaving →
    step i s (goto i Out (Spinlock 0 (lk_name (lk s)) (lk_cpu (lk s))) s).

Definition any_step (s s' : state) : Prop := ∃ i, step i s s'.

(** [initlock], every CPU outside. *)
Definition init (n : nat) (name : string) : state :=
  State (Spinlock 0 name None) (replicate n Out).

(** Past the [xchg] and before the lock word is cleared. *)
Definition owns (x : pc) : Prop := x = Won ∨ x = In ∨ x = Leaving.

(** The lock word is 1 exactly when some CPU owns the lock, that CPU is
    unique, and [lk->cpu] names it exactly while it is in its critical
    section. *)
Record inv (s : state) : Prop := Inv {
  inv_word : locked (lk s) = 0 ∨ locked (lk s) = 1;
  inv_owner : ∀ i x, pcs s !! i = Some x → owns x → locked (lk s) = 1;
  inv_unique : ∀ i j x y, pcs s !! i = Some x → pcs s !! j = Some y →
    owns x → owns y → i = j;
  inv_cpu : ∀ i, lk_cpu (lk s) = Some i ↔ pcs s !! i = Some In;
}.

Lemma goto_lookup i x k s j y :
  pcs (goto i x k s) !! j = Some y →
  (j = i ∧ y = x) ∨ (j ≠ i ∧ pcs s !! j = Some y).
Proof.
  simpl. intros H. apply list_lookup_insert_Some in H. naive_solver.
Qed.

Lemma goto_lookup_self i x k s y :
  pcs s !! i = Some y → pcs (goto i x k s) !! i = Some x.
Proof. intros H. apply list_lookup_insert_eq. by eapply lookup_lt_Some. Qed.

Lemma goto_lookup_ne i x k s j : j ≠ i → pcs (goto i x k s) !! j = pcs s !! j.
Proof. intros H. simpl. by rewrite list_lookup_insert_ne by congruence. Qed.

Lemma inv_init n name : inv (init n name).
Proof.
  split; simpl.
  - by left.
  - intros i x H Hx. apply lookup_replicate_1 in H as [-> _]. by destruct Hx as [|[]].
  - intros i j x y H _ Hx. apply lookup_replicate_1 in H as [-> _]. by destruct Hx as [|[]].
  - intros i. split; [done|]. intros H. by apply lookup_replicate_1 in H as [? _].
Qed.

#[local] Hint Unfold owns : core.

(** A move by [i] to [x] preserves the invariant when ... the facts below hold
    of the lock before and after. *)
Lemma inv_goto i x k y s :
  inv s → pcs s !! i = Some y →
  (locked k = 0 ∨ locked k = 1) →
  (owns x → locked k = 1) →
  (∀ j z, j ≠ i → pcs s !! j = Some z → owns z → locked k = 1 ∧ ¬ owns x) →
  (∀ j, lk_cpu k = Some j ↔ (j = i ∧ x = In) ∨ (j ≠ i ∧ pcs s !! j = Some In)) →
  inv (goto i x k s).
Proof.
  intros Hinv Hi Hw Ho Hu Hc. split.
  - done.
  - intros j z Hj Hz. apply goto_lookup in Hj as [[-> ->]|[Hne Hj]]; [auto|].
    by destruct (Hu j z Hne Hj Hz).
  - intros j j' z z' Hj Hj' Hz Hz'.
    apply goto_lookup in Hj as [[-> ->]|[Hne Hj]];
      apply goto_lookup in Hj' as [[-> ->]|[Hne' Hj']].
    + done.
    + by destruct (Hu j' z' Hne' Hj' Hz').
    + by destruct (Hu j z Hne Hj Hz).
    + by eapply (inv_unique s Hinv).
  - intros j. simpl. rewrite Hc. destruct (decide (j = i)) as [->|Hne].
    + rewrite (list_lookup_insert_eq _ _ _) by by eapply lookup_lt_Some. naive_solver.
    + rewrite list_lookup_insert_ne by congruence. naive_solver.
Qed.

Lemma inv_step i s s' : step i s s' → inv s → inv s'.
Proof.
  intros Hs Hinv.
  pose proof (inv_cpu s Hinv) as Hc. pose proof (inv_word s Hinv) as Hw.
  pose proof (inv_owner s Hinv) as Ho. pose proof (inv_unique s Hinv) as Hu.
  destruct Hs as [s Hi|s Hi Hb|s Hi Hf|s Hi|s Hi|s Hi];
    (eapply inv_goto; [done|exact Hi|..]); simpl; auto 6.
  - intros [|[]]; done.
  - intros j z Hne Hj Hz. split; [eauto|]. by intros [|[]].
  - intros j. rewrite Hc. destruct (decide (j = i)); naive_solver.
  - intros j z Hne Hj Hz. split; [done|]. by intros [|[]].
  - intros j. rewrite Hc. destruct (decide (j = i)); naive_solver.
  - intros j z Hne Hj Hz. rewrite (Ho j z Hj Hz) in Hf. done.
  - intros j. rewrite Hc. destruct (decide (j = i)); naive_solver.
  - intros _. apply (Ho i Won); auto.
  - intros j z Hne Hj Hz. destruct Hne. eapply Hu; eauto.
  - intros j. split.
    + intros [= <-]. by left.
    + intros [[-> _]|[Hne Hj]]; [done|]. destruct Hne. eapply Hu; eauto.
  - intros _. apply (Ho i In); auto.
  - intros j z Hne Hj Hz. destruct Hne. eapply Hu; eauto.
  - intros j. split; [done|]. intros [[_ ?]|[Hne Hj]]; [done|]. destruct Hne. eapply Hu; eauto.
  - intros [|[]]; done.
  - intros j z Hne Hj Hz. destruct Hne. eapply Hu; eauto.
  - intros j. rewrite Hc. split.
    + intros Hj. destruct (decide (j = i)) as [->|]; [congruence|auto].
    + intros [[_ ?]|[_ ?]]; done.
Qed.

Lemma inv_reachable n name s : rtc any_step (init n name) s → inv s.
Proof.
  intros H. eapply rtc_invariant; [|exact H|apply inv_init].
  intros x y [i Hs] Hx. by eapply inv_step.
Qed.

End Smp.

(** C31: Mutual exclusion of the spinlock: however the memory operations of the
    CPUs interleave, at most one CPU is in its critical section, and
    [holding] is true for exactly that CPU. *)
Theorem spinlock_mutual_exclusion n name s :
  rtc Smp.any_step (Smp.init n name) s →
  (∀ i j, Smp.pcs s !! i = Some Smp.In → Smp.pcs s !! j = Some Smp.In → i = j) ∧
  (∀ i, locked (Smp.lk s) ≠ 0 ∧ lk_cpu (Smp.lk s) = Some i ↔ Smp.pcs s !! i = Some Smp.In).
Proof.
  intros H. apply Smp.inv_reachable in H. split.
  - intros i j Hi Hj. eapply (Smp.inv_unique s H); eauto; unfold Smp.owns; auto.
  - intros i. rewrite <- (Smp.inv_cpu s H). split; [tauto|]. intros Hc. split; [|done].
    apply (Smp.inv_cpu s H) in Hc.
    rewrite (Smp.inv_owner s H i Smp.In); unfold Smp.owns; auto.
Qed.

(** CPU 0 wins the race and enters while CPU 1 spins. *)
Lemma spinlock_mutual_exclusion_witness :
  ∃ s, rtc Smp.any_step (Smp.init 2 "l") s ∧ Smp.pcs s = [Smp.In; Smp.Try] ∧
    (∀ i j, Smp.pcs s !! i = Some Smp.In → Smp.pcs s !! j = Some Smp.In → i = j).
Proof.
  eexists (Smp.State (Spinlock 1 "l" (Some 0%nat)) [Smp.In; Smp.Try]).
  assert (Hr : rtc Smp.any_step (Smp.init 2 "l")
                 (Smp.State (Spinlock 1 "l" (Some 0%nat)) [Smp.In; Smp.Try])).
  { eapply rtc_l; [exists 0%nat; by apply Smp.step_enter|].
    eapply rtc_l; [exists 1%nat; by apply Smp.step_enter|].
    eapply rtc_l; [exists 0%nat; by apply Smp.step_xchg_free|].
    eapply rtc_l; [exists 1%nat; by apply Smp.step_xchg_busy|].
    eapply rtc_l; [exists 0%nat; by apply Smp.step_record|].
    apply rtc_refl. }
  split; [exact Hr|]. split; [reflexivity|].
  exact (proj1 (spinlock_mutual_exclusion 2 "l" _ Hr)).
Defined.

(** ** Critical sections in other components *)

(** CPU [me] exists and its interrupt state is consistent. *)
Definition ready (me : nat) (m : mach) : Prop :=
  mach_wf m ∧ ∃ c, cpus m !! me = Some c ∧ cpu_ok c.

(** [m'] is [m] after a critical section of [me] on a lock that was free: the
    locks are as before, and so are the CPUs, except that [intena] of [me] may
    have been rewritten when no [pushcli] was pending. *)
Definition after_section (me : nat) (l : lock_id) (m m' : mach) : Prop :=
  (∀ k, k ≠ l → locks m' k = locks m k) ∧ locks m' l = unlocked (locks m l) ∧
  (∀ j, j ≠ me → cpus m' !! j = cpus m !! j) ∧
  (∀ c, cpus m !! me = Some c →
     cpus m' !! me = Some (if bool_decide (ncli c = 0) then set_intena (iflag c) c else c)).

Lemma after_section_ready me l m m' : ready me m → after_section me l m m' → ready me m'.
Proof.
  intros [Hwf (c & Hc & Hok)] (_ & _ & Hj & Hme). specialize (Hme c Hc). split.
  - unfold mach_wf in *. replace (apicid <$> cpus m') with (apicid <$> cpus m); [done|].
    apply list_eq. intros j. rewrite !list_lookup_fmap.
    destruct (decide (j = me)) as [->|Hne]; [|by rewrite Hj].
    rewrite Hme, Hc. simpl. by case_bool_decide.
  - eexists. split; [exact Hme|]. by case_bool_decide.
Qed.

(** A free lock can be taken and given back, and nothing else happens. *)
Lemma lock_pair me l m :
  ready me m → locked (locks m l) = 0 →
  ∃ m1 m2, acquire me l m = Ok tt m1 ∧ release me l m1 = Ok tt m2 ∧ after_section me l m m2.
Proof.
  intros [Hwf (c & Hc & Hok)] Hl. eexists _, _.
  split; [by apply (acquire_ok me l c)|].
  assert (Hc1 := with_cpu_lookup me (pushed c) c m Hc).
  rewrite (release_unfold me l (pushed c));
    [|by eapply mach_wf_with_cpu|done|by apply pushed_ok|simpl; destruct Hok; lia].
  rewrite bool_decide_eq_true_2 by (split; simpl; by rewrite fn_lookup_insert).
  split; [done|]. split; [|split; [|split]].
  - intros k Hk. simpl. by rewrite !fn_lookup_insert_ne.
  - simpl. by rewrite !fn_lookup_insert.
  - intros j Hj. simpl. by rewrite !list_lookup_insert_ne.
  - intros c' Hc'. rewrite Hc in Hc'. injection Hc' as <-.
    rewrite <- popped_pushed by done. by eapply with_cpu_lookup.
Qed.

(** *** Total correctness of the lock operations

    A machine whose CPUs are all consistent; [free l] when nobody holds [l]. *)
Definition calm (m : mach) : Prop := mach_wf m ∧ Forall cpu_ok (cpus m).

Definition free (l : lock_id) (m : mach) : Prop := locked (locks m l) = 0.

(** [m'] is [m] with other contents in the lock [l] and another nesting on [me]. *)
Definition lock_frame (me : nat) (l : lock_id) (m m' : mach) : Prop :=
  (∀ k, k ≠ l → locks m' k = locks m k) ∧ (∀ j, j ≠ me → cpus m' !! j = cpus m !! j) ∧
  length (cpus m') = length (cpus m).

Lemma calm_with_cpu me c c' m :
  calm m → cpus m !! me = Some c → apicid c' = apicid c → cpu_ok c' → calm (with_cpu me c' m).
Proof.
  intros [Hwf Hok] Hc Ha Hc'. split; [by eapply mach_wf_with_cpu|]. simpl.
  by apply Forall_insert.
Qed.

Lemma popped_ok c : cpu_ok c → 1 ≤ ncli c → cpu_ok (popped c).
Proof.
  intros [H1 H2] Hn. split; simpl; [lia|]. intros Hp. by rewrite bool_decide_eq_false_2 by lia.
Qed.

Lemma wpt_acquire me l c m (Q : unit → mach → Prop) :
  calm m → cpus m !! me = Some c → free l m →
  (∀ m', calm m' → cpus m' !! me = Some (pushed c) → locks m' l = locked_by me (locks m l) →
     lock_frame me l m m' → Q tt m') →
  wpt (acquire me l) Q m.
Proof.
  intros Hm Hc Hl HQ. pose proof Hm as [Hwf Hok].
  pose proof (proj1 (Forall_lookup _ _) Hok me c Hc) as Hcok.
  eapply wpt_eq; [by apply (acquire_ok me l c)|]. apply HQ.
  - by apply (calm_with_cpu me c (pushed c) m); auto using pushed_ok.
  - by apply (with_cpu_lookup me (pushed c) c m).
  - simpl. by rewrite fn_lookup_insert.
  - split_and!; simpl.
    + intros k Hk. by rewrite fn_lookup_insert_ne.
    + intros j Hj. by rewrite list_lookup_insert_ne.
    + by rewrite length_insert.
Qed.

Lemma wpt_release me l c m (Q : unit → mach → Prop) :
  calm m → cpus m !! me = Some c → 1 ≤ ncli c → held_by me l m →
  (∀ m', calm m' → cpus m' !! me = Some (popped c) → locks m' l = unlocked (locks m l) →
     lock_frame me l m m' → Q tt m') →
  wpt (release me l) Q m.
Proof.
  intros Hm Hc Hn Hl HQ. pose proof Hm as [Hwf Hok].
  pose proof (proj1 (Forall_lookup _ _) Hok me c Hc) as Hcok.
  eapply wpt_eq; [rewrite (release_unfold me l c) by done; by rewrite bool_decide_eq_true_2|]. apply HQ.
  - apply (calm_with_cpu me c (popped c) (set_lock l (unlocked (locks m l)) m));
      auto using popped_ok.
  - by apply (with_cpu_lookup me (popped c) c (set_lock l _ m)).
  - simpl. by rewrite fn_lookup_insert.
  - split_and!; simpl.
    + intros k Hk. by rewrite fn_lookup_insert_ne.
    + intros j Hj. by rewrite list_lookup_insert_ne.
    + by rewrite length_insert.
Qed.

(** *** Critical sections

    [m'] is [m] after balanced locking by [me]: locks that are not free are as
    before, and so are the CPUs, except for [intena] of [me] when no [pushcli] is
    pending. *)
Record quiet (me : nat) (m m' : mach) : Prop := Quiet {
  q_calm : calm m → calm m';
  q_others j : j ≠ me → cpus m' !! j = cpus m !! j;
  q_me c : cpus m !! me = Some c →
    ∃ b, cpus m' !! me = Some (set_intena b c) ∧ (0 < ncli c → b = intena c);
  q_locks l : locks m' l = locks m l ∨ free l m ∧ free l m';
  q_length : length (cpus m') = length (cpus m);
}.

Lemma set_intena_id c : set_intena (intena c) c = c.
Proof. by destruct c. Qed.

Lemma quiet_refl me m : quiet me m m.
Proof. split; auto. intros c Hc. exists (intena c). by rewrite set_intena_id. Qed.

Lemma quiet_trans me m1 m2 m3 : quiet me m1 m2 → quiet me m2 m3 → quiet me m1 m3.
Proof.
  intros [A1 B1 C1 D1 E1'] [A2 B2 C2 D2 E2']. split.
  - auto.
  - intros j Hj. by rewrite B2, B1.
  - intros c Hc. destruct (C1 c Hc) as (b & Hb & Hn). destruct (C2 _ Hb) as (b' & Hb' & Hn').
    exists b'. split; [done|]. intros Hp. by rewrite Hn', Hn.
  - intros l. unfold free in *. destruct (D1 l) as [E1|[? ?]], (D2 l) as [E2|[? ?]];
      rewrite ?E1, ?E2 in *; auto.
  - congruence.
Qed.

#[global] Instance quiet_preorder me : PreOrder (quiet me).
Proof. split; [intros m; apply quiet_refl|intros m1 m2 m3; apply quiet_trans]. Qed.

Lemma quiet_free me m m' l : quiet me m m' → free l m ↔ free l m'.
Proof. intros [_ _ _ Hl _]. destruct (Hl l) as [E|[? ?]]; [|done]. unfold free. by rewrite E. Qed.

Lemma quiet_nested me m m' c :
  quiet me m m' → cpus m !! me = Some c → 0 < ncli c → cpus m' !! me = Some c.
Proof.
  intros Hq Hc Hn. destruct (q_me _ _ _ Hq c Hc) as (b & -> & ->); [|done]. by rewrite set_intena_id.
Qed.

Lemma quiet_held me m m' l :
  quiet me m m' → ¬ free l m → locks m' l = locks m l.
Proof. intros [_ _ _ Hl _] Hf. by destruct (Hl l) as [E|[? ?]]. Qed.

(** A state that contains a machine. *)
Class HasMach (S : Type) := {
  the_mach : S → mach;
  put_mach : mach → S → S;
}.

Class HasMachLaws (S : Type) `{HasMach S} := {
  the_put m s : the_mach (put_mach m s) = m;
}.

Definition lift_mach {S A} `{HasMach S} (m : M mach A) : M S A := zoom the_mach put_mach m.

(** [s'] is [s] with the machine changed by taking the free lock [l]. *)
Definition entered {S} `{HasMach S} (me : nat) (l : lock_id) (s s' : S) : Prop :=
  ∃ m c, s' = put_mach m s ∧ calm m ∧ free l (the_mach s) ∧ cpu_ok c ∧
    cpus (the_mach s) !! me = Some c ∧ cpus m !! me = Some (pushed c) ∧
    locks m l = locked_by me (locks (the_mach s) l) ∧ lock_frame me l (the_mach s) m.

Section Sections.

Context {S : Type} `{HasMachLaws S}.

Lemma wpt_enter_end me l (Q : unit → S → Prop) s :
  calm (the_mach s) → (me < length (cpus (the_mach s)))%nat → free l (the_mach s) →
  (∀ s1, entered me l s s1 → Q tt s1) → wpt (lift_mach (acquire me l)) Q s.
Proof.
  intros Hm Hme Hl Hb. destruct (lookup_lt_is_Some_2 _ _ Hme) as [c Hc].
  pose proof (proj1 (Forall_lookup _ _) (proj2 Hm) me c Hc) as Hcok.
  apply wpt_zoom. apply (wpt_acquire me l c); [done..|]. intros m1 Hm1 Hc1 Hl1 Hf1.
  apply Hb. exists m1, c. done.
Qed.

Lemma wpt_leave_end me l (Q : unit → S → Prop) s s1 s2 :
  entered me l s s1 → quiet me (the_mach s1) (the_mach s2) →
  (∀ m3, quiet me (the_mach s) m3 → lock_frame me l (the_mach s2) m3 → free l m3 →
     Q tt (put_mach m3 s2)) →
  wpt (lift_mach (release me l)) Q s2.
Proof.
  intros (m1 & c & -> & Hm1 & Hl & Hcok & Hc & Hc1 & Hl1 & Hf1) Hq Hk.
  rewrite the_put in Hq. apply wpt_zoom.
  assert (Hc2 : cpus (the_mach s2) !! me = Some (pushed c)).
  { eapply quiet_nested; [done..|]. simpl. destruct Hcok. lia. }
  assert (Hl2 : locks (the_mach s2) l = locked_by me (locks (the_mach s) l)).
  { rewrite <- Hl1. eapply quiet_held; [done|]. unfold free. by rewrite Hl1. }
  apply (wpt_release me l (pushed c)).
  - by apply (q_calm _ _ _ Hq).
  - done.
  - simpl. destruct Hcok. lia.
  - unfold held_by. by rewrite Hl2.
  - intros m3 Hm3 Hc3 Hl3 Hf3. apply Hk; [split|done|unfold free; by rewrite Hl3].
    + done.
    + intros j Hj. rewrite (proj1 (proj2 Hf3)) by done. rewrite (q_others _ _ _ Hq) by done.
      by apply Hf1.
    + intros c' Hc'. rewrite Hc in Hc'. injection Hc' as <-. rewrite Hc3, popped_pushed by done.
      case_bool_decide; [eexists; split; [done|lia]|].
      exists (intena c). by rewrite set_intena_id.
    + intros k'. destruct (decide (k' = l)) as [->|Hne].
      * right. split; [done|]. unfold free. by rewrite Hl3.
      * rewrite (proj1 Hf3) by done. destruct (q_locks _ _ _ Hq k') as [E|[E1 E2]].
        -- left. rewrite E. by apply Hf1.
        -- right. split; [|unfold free in *; by rewrite (proj1 Hf3)].
           unfold free in *. by rewrite <- (proj1 Hf1).
    + destruct Hf1 as (_ & _ & <-), Hf3 as (_ & _ & ->). by apply q_length in Hq.
Qed.

(** The rules for [acquire(l); ...] and for [release(l); ...]. *)
Lemma wpt_enter {B} me l (k : M S B) Q s :
  calm (the_mach s) → (me < length (cpus (the_mach s)))%nat → free l (the_mach s) →
  (∀ s1, entered me l s s1 → wpt k Q s1) → wpt (lift_mach (acquire me l) ;; k) Q s.
Proof. intros. apply wpt_bind. by apply wpt_enter_end. Qed.

Lemma wpt_leave {B} me l (k : M S B) Q s s1 s2 :
  entered me l s s1 → quiet me (the_mach s1) (the_mach s2) →
  (∀ m3, quiet me (the_mach s) m3 → lock_frame me l (the_mach s2) m3 → free l m3 →
     wpt k Q (put_mach m3 s2)) →
  wpt (lift_mach (release me l) ;; k) Q s2.
Proof. intros. apply wpt_bind. by eapply wpt_leave_end. Qed.

(** What a critical section knows on entry. *)
Lemma entered_calm me l (s s1 : S) :
  entered me l s s1 → calm (the_mach s1) ∧ (me < length (cpus (the_mach s1)))%nat ∧
    ∀ k, k ≠ l → free k (the_mach s) → free k (the_mach s1).
Proof.
  intros (m & c & -> & Hm & _ & _ & Hc & Hc1 & Hl & Hf). rewrite the_put. split_and!; [done|..].
  - by eapply lookup_lt_Some.
  - intros k Hk. unfold free. by rewrite (proj1 Hf).
Qed.

Lemma entered_put me l (s s1 : S) : entered me l s s1 → ∃ m, s1 = put_mach m s.
Proof. intros (m & _ & -> & _). eauto. Qed.

End Sections.
