(* ===== verification/Kalloc.v ===== *)
(** * The physical page allocator

    [src/kalloc.c].  Free pages form a linked list threaded through the pages
    themselves ([struct run]).  The first part translates the code; the second
    relates the linked list to the list of free pages it represents and proves
    the allocator correct against that abstraction. *)

From S2P Require Import Prelude Spinlock.

Definition PGSIZE : Z := 4096.
Definition PHYSTOP : Z := 0xE000000.
Definition V2P (a : Z) : Z := u32 (a - KERNBASE).
Definition P2V (a : Z) : Z := u32 (a + KERNBASE).
Definition PGROUNDUP (sz : Z) : Z := Z.land (u32 (sz + PGSIZE - 1)) (Z.lnot (PGSIZE - 1)).
Definition PGROUNDDOWN (a : Z) : Z := Z.land a (Z.lnot (PGSIZE - 1)).

(** The allocator's globals, and the words of physical memory as the kernel
    sees them ([words a] is the 32-bit word at the aligned address [a]). *)
Record kmem : Type := Kmem {
  km_mach : mach;
  use_lock : Z;
  freelist : Z;
  words : Z → Z;
}.

Definition set_km_mach (m : mach) (k : kmem) : kmem :=
  Kmem m (use_lock k) (freelist k) (words k).
Definition set_use_lock (u : Z) (k : kmem) : kmem :=
  Kmem (km_mach k) u (freelist k) (words k).
Definition set_freelist (r : Z) (k : kmem) : kmem :=
  Kmem (km_mach k) (use_lock k) r (words k).
Definition set_words (w : Z → Z) (k : kmem) : kmem :=
  Kmem (km_mach k) (use_lock k) (freelist k) w.

Definition kmem_lock (me : nat) : M kmem unit :=
  k ← get;
  if bool_decide (use_lock k ≠ 0) then zoom km_mach set_km_mach (acquire me Lkmem) else mret tt.

Definition kmem_unlock (me : nat) : M kmem unit :=
  k ← get;
  if bool_decide (use_lock k ≠ 0) then zoom km_mach set_km_mach (release me Lkmem) else mret tt.

(** [memset(v, 1, PGSIZE)] on the words of the page. *)
Definition junk_page (v : Z) (w : Z → Z) : Z → Z :=
  λ a, if bool_decide (v ≤ a < v + PGSIZE) then 0x01010101 else w a.

Section Kalloc.

(** First address after the kernel loaded from the ELF file ([end]). *)
Variable kend : Z.

Definition kfree (me : nat) (v : Z) : M kmem unit :=
  if bool_decide (v mod PGSIZE ≠ 0 ∨ v < kend ∨ PHYSTOP ≤ V2P v) then panic "kfree"
  else
    modify (λ k, set_words (junk_page v (words k)) k);;
    kmem_lock me;;
    modify (λ k, set_words (<[v := freelist k]> (words k)) k);;
    modify (set_freelist v);;
    kmem_unlock me.

Definition kalloc (me : nat) : M kmem Z :=
  kmem_lock me;;
  r ← gets freelist;
  (if bool_decide (r ≠ 0) then modify (λ k, set_freelist (words k r) k) else mret tt);;
  kmem_unlock me;;
  mret r.

(** [for(; p + PGSIZE <= vend; p += PGSIZE) kfree(p);] *)
Fixpoint freerange_loop (fuel : nat) (me : nat) (p vend : Z) : M kmem unit :=
  match fuel with
  | O => spin
  | S f => if bool_decide (p + PGSIZE ≤ vend)
           then kfree me p ;; freerange_loop f me (p + PGSIZE) vend
           else mret tt
  end.

Definition freerange (me : nat) (vstart vend : Z) : M kmem unit :=
  let p := PGROUNDUP vstart in
  freerange_loop (S (Z.to_nat ((vend - p) / PGSIZE))) me p vend.

Definition kinit1 (me : nat) (vstart vend : Z) : M kmem unit :=
  zoom km_mach set_km_mach (initlock Lkmem "kmem");;
  modify (set_use_lock 0);;
  freerange me vstart vend.

Definition kinit2 (me : nat) (vstart vend : Z) : M kmem unit :=
  freerange me vstart vend;;
  modify (set_use_lock 1).

#[global] Instance kmem_mach : HasMach kmem := {| the_mach := km_mach; put_mach := set_km_mach |}.

#[global] Instance kmem_mach_laws : HasMachLaws kmem.
Proof. by split. Qed.

(** ** The list of free pages *)

(** An address that [kfree] accepts. *)
Definition page_ok (v : Z) : Prop :=
  v mod PGSIZE = 0 ∧ kend ≤ v ∧ V2P v < PHYSTOP.

(** [l] is the chain of [struct run] that starts at [head]. *)
Fixpoint chain (w : Z → Z) (head : Z) (l : list Z) : Prop :=
  match l with
  | [] => head = 0
  | v :: l' => head = v ∧ v ≠ 0 ∧ chain w (w v) l'
  end.

Record free_pages (k : kmem) (l : list Z) : Prop := FreePages {
  fp_chain : chain (words k) (freelist k) l;
  fp_nodup : NoDup l;
  fp_pages : Forall page_ok l;
}.

(** The CPU can take the allocator's lock when it is in use. *)
Definition km_ready (me : nat) (k : kmem) : Prop :=
  ready me (km_mach k) ∧ (use_lock k ≠ 0 → locked (locks (km_mach k) Lkmem) = 0).

Definition km_frame (me : nat) (k k' : kmem) : Prop :=
  use_lock k' = use_lock k ∧
  (km_mach k' = km_mach k ∨ after_section me Lkmem (km_mach k) (km_mach k')).

Lemma km_frame_ready me k k' : km_ready me k → km_frame me k k' → km_ready me k'.
Proof.
  intros [Hr Hl] [Hu [Hm|Hm]]; unfold km_ready; rewrite Hu.
  - by rewrite Hm.
  - split; [by eapply after_section_ready|]. destruct Hm as (_ & -> & _). done.
Qed.

Lemma chain_ext w w' l : ∀ head,
  (∀ v, v ∈ l → w' v = w v) → chain w head l → chain w' head l.
Proof.
  induction l as [|v l IH]; intros head Hw; simpl; [done|].
  intros (-> & Hv & Hc). rewrite (Hw v) by set_solver. split; [done|]. split; [done|].
  apply IH; [|done]. set_solver.
Qed.

Lemma km_section me k :
  km_ready me k →
  ∃ m1 m2, kmem_lock me k = Ok tt (set_km_mach m1 k) ∧
    (∀ fl w, kmem_unlock me (Kmem m1 (use_lock k) fl w) = Ok tt (Kmem m2 (use_lock k) fl w)) ∧
    (m2 = km_mach k ∨ after_section me Lkmem (km_mach k) m2).
Proof.
  intros [Hr Hl]. unfold kmem_lock, kmem_unlock. destruct (decide (use_lock k = 0)) as [Hu|Hu].
  - exists (km_mach k), (km_mach k). mred.
    rewrite Hu, bool_decide_eq_false_2 by congruence. split; [by destruct k|]. auto.
  - destruct (lock_pair me Lkmem (km_mach k)) as (m1 & m2 & Ha & Hrel & Hs); [auto..|].
    exists m1, m2. mred. rewrite bool_decide_eq_true_2 by done.
    unfold zoom. rewrite Ha. simpl. split; [done|]. split; [|auto].
    intros fl w. by rewrite Hrel.
Qed.

Lemma aligned_in_page v a :
  v mod PGSIZE = 0 → a mod PGSIZE = 0 → v ≤ a < v + PGSIZE → a = v.
Proof. unfold PGSIZE. intros. Z.div_mod_to_equations. lia. Qed.

Lemma page_ok_pos v : 0 < kend → page_ok v → v ≠ 0.
Proof. intros Hk (_ & H & _). lia. Qed.

Lemma kalloc_spec me k l :
  km_ready me k → free_pages k l →
  ∃ k', kalloc me k = Ok (hd 0 l) k' ∧ free_pages k' (tl l) ∧ km_frame me k k' ∧
    words k' = words k.
Proof.
  intros Hr [Hc Hn Hp]. destruct (km_section me k Hr) as (m1 & m2 & Hlk & Hul & Hm).
  unfold kalloc. mred. rewrite Hlk. destruct l as [|v l]; simpl in Hc; mred.
  - rewrite Hc, bool_decide_eq_false_2 by congruence. mred.
    unfold set_km_mach. rewrite Hc, Hul. eexists. split; [done|]. split; [by split|].
    by split; [split|].
  - destruct Hc as (Hfl & Hv & Hc). rewrite Hfl. rewrite bool_decide_eq_true_2 by congruence.
    unfold set_freelist, set_km_mach. simpl. rewrite Hul. eexists. split; [done|].
    split; [|by split; [split|]].
    apply NoDup_cons in Hn as [_ Hn]. inversion Hp; subst. by split.
Qed.

Lemma kfree_spec me k l v :
  0 < kend → km_ready me k → free_pages k l → page_ok v → v ∉ l →
  ∃ k', kfree me v k = Ok tt k' ∧ free_pages k' (v :: l) ∧ km_frame me k k' ∧
    (∀ a, ¬ (v ≤ a < v + PGSIZE) → words k' a = words k a).
Proof.
  intros Hk Hr [Hc Hn Hp] Hv Hnin. pose proof (page_ok_pos v Hk Hv) as Hv0.
  unfold kfree. destruct Hv as (Hv1 & Hv2 & Hv3). rewrite bool_decide_eq_false_2 by lia. mred.
  destruct (km_section me (set_words (junk_page v (words k)) k)) as (m1 & m2 & Hlk & Hul & Hm).
  { by destruct Hr. }
  rewrite Hlk. unfold set_km_mach, set_words, set_freelist in *. simpl in *. rewrite Hul.
  eexists. split; [done|]. split; [|split].
  - split; [|by apply NoDup_cons|by constructor].
    simpl. split; [done|]. split; [done|]. rewrite fn_lookup_insert.
    eapply chain_ext; [|exact Hc]. intros a Ha.
    assert (a ≠ v) by congruence. rewrite fn_lookup_insert_ne by congruence.
    unfold junk_page. rewrite bool_decide_eq_false_2; [done|]. intros Hr'.
    rewrite Forall_forall in Hp. destruct (Hp a Ha) as (Ha1 & _).
    by pose proof (aligned_in_page v a Hv1 Ha1 Hr').
  - by split.
  - intros a Ha. simpl. assert (a ≠ v) by (intros ->; unfold PGSIZE in *; lia).
    rewrite fn_lookup_insert_ne by congruence. unfold junk_page.
    by rewrite bool_decide_eq_false_2.
Qed.

Lemma kfree_panics me k v : ¬ page_ok v → kfree me v k = Panic "kfree" k.
Proof.
  intros Hv. unfold kfree. rewrite bool_decide_eq_true_2; [done|].
  unfold page_ok in Hv. destruct (decide (v mod PGSIZE = 0)); [|auto]. right. lia.
Qed.

(** ** Clients of the allocator

    CPU [me] allocates pages, and frees pages it was given and has not freed
    yet; [owned] are the pages it holds. *)
Inductive client_step (me : nat) : kmem * list Z → kmem * list Z → Prop :=
| cs_alloc k k' v owned :
    kalloc me k = Ok v k' → v ≠ 0 → client_step me (k, owned) (k', v :: owned)
| cs_alloc_fail k k' owned :
    kalloc me k = Ok 0 k' → client_step me (k, owned) (k', owned)
| cs_free k k' v o1 o2 :
    kfree me v k = Ok tt k' → client_step me (k, o1 ++ v :: o2) (k', o1 ++ o2).

(** The free pages and the pages in use partition the pages [all]. *)
Definition client_inv (me : nat) (all : list Z) (s : kmem * list Z) : Prop :=
  km_ready me s.1 ∧ Forall page_ok all ∧ NoDup all ∧
  ∃ l, free_pages s.1 l ∧ l ++ s.2 ≡ₚ all.

Lemma client_inv_step me all s s' :
  0 < kend → client_step me s s' → client_inv me all s → client_inv me all s'.
Proof.
  intros Hk Hs (Hr & Hall & Hnd & l & Hl & Hperm).
  destruct Hs as [k k' v owned He Hv|k k' owned He|k k' v o1 o2 He]; simpl in *.
  - destruct (kalloc_spec me k l Hr Hl) as (k1 & He' & Hl' & Hf & _).
    rewrite He' in He. injection He as Hv' <-.
    split; [by eapply km_frame_ready|]. split; [done|]. split; [done|].
    exists (tl l). split; [done|]. destruct l as [|x l]; simpl in *; [congruence|]. subst x.
    rewrite <- Hperm. by rewrite <- Permutation_middle.
  - destruct (kalloc_spec me k l Hr Hl) as (k1 & He' & Hl' & Hf & _).
    rewrite He' in He. injection He as Hv' <-.
    split; [by eapply km_frame_ready|]. split; [done|]. split; [done|].
    exists (tl l). split; [done|]. destruct l as [|x l]; simpl in *; [done|]. subst x.
    exfalso. apply (page_ok_pos 0 Hk); [|done]. eapply Forall_forall; [exact Hall|].
    rewrite <- Hperm. set_solver.
  - assert (Hv : v ∈ all) by (rewrite <- Hperm; set_solver).
    assert (Hvl : v ∉ l).
    { rewrite <- Hperm in Hnd. apply NoDup_app in Hnd as (_ & Hd & _). intros Hvl.
      apply (Hd v Hvl). set_solver. }
    destruct (kfree_spec me k l v) as (k1 & He' & Hl' & Hf & _); [done..|by eapply Forall_forall|done|].
    rewrite He' in He. injection He as <-.
    split; [by eapply km_frame_ready|]. split; [done|]. split; [done|].
    exists (v :: l). split; [done|]. rewrite <- Hperm. simpl. rewrite !(Permutation_app_comm l).
    solve_Permutation.
Qed.

(** ** Building the free list *)

Lemma land_page_mask a : Z.land a (Z.lnot (PGSIZE - 1)) = a / PGSIZE * PGSIZE.
Proof.
  unfold PGSIZE. change (4096 - 1) with (Z.ones 12). rewrite <- Z.ldiff_land.
  rewrite Z.ldiff_ones_r by lia. rewrite Z.shiftl_mul_pow2, Z.shiftr_div_pow2 by lia. done.
Qed.

(** [PGROUNDUP] is the least page boundary that is not below its argument. *)
Lemma PGROUNDUP_spec sz :
  0 ≤ sz → sz + PGSIZE - 1 < 2 ^ 32 →
  PGROUNDUP sz mod PGSIZE = 0 ∧ sz ≤ PGROUNDUP sz < sz + PGSIZE.
Proof.
  intros H0 H1. unfold PGROUNDUP. rewrite u32_small by (unfold PGSIZE in *; lia).
  rewrite land_page_mask. unfold PGSIZE in *. split; [apply Z_mod_mult|].
  Z.div_mod_to_equations. lia.
Qed.

Definition pages_from (p : Z) (n : nat) : list Z := (λ i, p + Z.of_nat i * PGSIZE) <$> seq 0 n.

Lemma pages_from_S p n : pages_from p (S n) = p :: pages_from (p + PGSIZE) n.
Proof.
  unfold pages_from. cbn [seq fmap list_fmap]. f_equal; [lia|].
  rewrite <- fmap_S_seq, <- list_fmap_compose. apply list_fmap_ext. intros i x _. simpl. lia.
Qed.

Lemma elem_of_pages_from p n a :
  a ∈ pages_from p n ↔ ∃ i, (i < n)%nat ∧ a = p + Z.of_nat i * PGSIZE.
Proof. unfold pages_from. rewrite list_elem_of_fmap. setoid_rewrite elem_of_seq. naive_solver lia. Qed.

Lemma freerange_loop_spec me vend : ∀ n p k l,
  0 < kend → km_ready me k → free_pages k l →
  Z.of_nat n * PGSIZE ≤ vend - p < Z.of_nat (S n) * PGSIZE →
  Forall page_ok (pages_from p n) → (∀ a, a ∈ pages_from p n → a ∉ l) →
  ∃ k', freerange_loop (S n) me p vend k = Ok tt k' ∧
    free_pages k' (reverse (pages_from p n) ++ l) ∧ km_ready me k' ∧ use_lock k' = use_lock k.
Proof.
  induction n as [|n IH]; intros p k l Hk Hr Hl Hn Hp Hd; cbn [freerange_loop].
  - rewrite bool_decide_eq_false_2 by lia. eexists. split; [done|]. done.
  - rewrite bool_decide_eq_true_2 by (unfold PGSIZE in *; lia).
    rewrite pages_from_S in Hp, Hd. rewrite pages_from_S. apply Forall_cons in Hp as [Hp1 Hp2].
    destruct (kfree_spec me k l p) as (k1 & He & Hl1 & Hf & _); [done..|set_solver|].
    rewrite (bind_step _ _ _ _ _ He).
    destruct (IH (p + PGSIZE) k1 (p :: l)) as (k2 & He2 & Hl2 & Hr2 & Hu2); [done| |done|lia|done| |].
    + by eapply km_frame_ready.
    + intros a Ha. rewrite not_elem_of_cons. split; [|set_solver].
      apply elem_of_pages_from in Ha as (i & _ & ->). unfold PGSIZE. lia.
    + eexists. split; [exact He2|]. split; [|split; [done|]].
      * by rewrite reverse_cons, <- app_assoc.
      * rewrite Hu2. apply Hf.
Qed.

Lemma freerange_spec me vstart vend k l n :
  0 < kend → km_ready me k → free_pages k l →
  n = Z.to_nat ((vend - PGROUNDUP vstart) / PGSIZE) →
  PGROUNDUP vstart ≤ vend →
  Forall page_ok (pages_from (PGROUNDUP vstart) n) →
  (∀ a, a ∈ pages_from (PGROUNDUP vstart) n → a ∉ l) →
  ∃ k', freerange me vstart vend k = Ok tt k' ∧
    free_pages k' (reverse (pages_from (PGROUNDUP vstart) n) ++ l) ∧
    km_ready me k' ∧ use_lock k' = use_lock k.
Proof.
  intros Hk Hr Hl -> Hle Hp Hd. unfold freerange. cbv zeta.
  apply freerange_loop_spec; [done..| |done|done].
  unfold PGSIZE in *. Z.div_mod_to_equations. lia.
Qed.

End Kalloc.

(** ** Properties *)

(** C32: However a CPU allocates and frees, [kalloc] succeeds exactly when some
    page of [all] is not in use, and then returns a page the client does not
    hold; no page is ever lost or handed out twice. *)
Theorem kalloc_no_double_allocation kend me all k0 k owned :
  0 < kend → km_ready me k0 → free_pages kend k0 all →
  rtc (client_step kend me) (k0, []) (k, owned) →
  NoDup owned ∧
  ∃ v k', kalloc me k = Ok v k' ∧
    (v = 0 → owned ≡ₚ all) ∧
    (v ≠ 0 → v ∈ all ∧ (v ∉ owned) ∧ page_ok kend v).
Proof.
  intros Hk Hr Hf Hs.
  assert (Hi : client_inv kend me all (k, owned)).
  { eapply (rtc_invariant _ (client_inv kend me all)); [|exact Hs|].
    - intros a b Hab. by apply client_inv_step.
    - split; [done|]. split; [apply Hf|]. split; [apply Hf|].
      exists all. simpl. by rewrite app_nil_r. }
  destruct Hi as (Hr' & Hall & Hnd & l & Hl & Hperm); simpl in *.
  assert (Hnd' : NoDup (l ++ owned)) by by rewrite Hperm.
  apply NoDup_app in Hnd' as (_ & Hdis & Hown).
  split; [done|]. destruct (kalloc_spec kend me k l Hr' Hl) as (k' & He & _ & _ & _).
  eexists _, k'. split; [exact He|]. destruct l as [|v l]; simpl in *; [by split|].
  split; [|intros Hv].
  - intros ->. exfalso. apply (page_ok_pos kend 0 Hk); [|done].
    rewrite Forall_forall in Hall. apply Hall. rewrite <- Hperm. set_solver.
  - assert (v ∈ all) by (rewrite <- Hperm; set_solver).
    split; [done|]. split; [apply Hdis; set_solver|]. rewrite Forall_forall in Hall. auto.
Qed.

(** [kinit1] returns, and the free list it builds is made of exactly the
    whole pages between its two arguments. *)
Theorem kinit1_builds_freelist kend me vstart vend k :
  0 < kend → KERNBASE ≤ kend → kend ≤ vstart → vstart + PGSIZE ≤ vend →
  vend ≤ KERNBASE + PHYSTOP → ready me (km_mach k) → freelist k = 0 →
  ∃ k' l, kinit1 kend me vstart vend k = Ok tt k' ∧ free_pages kend k' l ∧ use_lock k' = 0 ∧
    ∀ v, v ∈ l ↔ v mod PGSIZE = 0 ∧ vstart ≤ v ∧ v + PGSIZE ≤ vend.
Proof.
  intros H0 HK H1 H2 H3 Hr Hfl. unfold kinit1, initlock. mred. unfold zoom. mred.
  unfold KERNBASE, PHYSTOP in *.
  set (k1 := set_use_lock 0 _).
  destruct (PGROUNDUP_spec vstart) as [Ha Hb]; [lia|unfold PGSIZE in *; lia|].
  set (n := Z.to_nat ((vend - PGROUNDUP vstart) / PGSIZE)).
  assert (Hn : ∀ a, a ∈ pages_from (PGROUNDUP vstart) n ↔
             a mod PGSIZE = 0 ∧ vstart ≤ a ∧ a + PGSIZE ≤ vend).
  { intros a. rewrite elem_of_pages_from. subst n. unfold PGSIZE in *. split.
    - intros (i & Hi & ->). split; [|Z.div_mod_to_equations; lia].
      rewrite Z_mod_plus_full. done.
    - intros (Hm & Hl & Hu). exists (Z.to_nat ((a - PGROUNDUP vstart) / 4096)).
      Z.div_mod_to_equations. lia. }
  destruct (freerange_spec kend me vstart vend k1 [] n) as (k' & He & Hl & _ & Hu).
  - done.
  - split; [|done]. exact Hr.
  - split; [done|constructor|constructor].
  - done.
  - lia.
  - apply Forall_forall. intros a Hin. apply Hn in Hin as (Hm & Hl & Hu).
    split; [done|]. split; [lia|]. unfold V2P, KERNBASE, PHYSTOP, PGSIZE in *.
    rewrite u32_small; lia.
  - set_solver.
  - exists k'. eexists. split; [exact He|]. split; [exact Hl|]. split; [by rewrite Hu|].
    intros v. rewrite app_nil_r, elem_of_reverse. apply Hn.
Qed.

(** A small machine: two pages above the kernel image. *)
Definition demo_kend : Z := 0x80110000.
Definition demo_kmem0 : kmem := Kmem demo_mach 1 0 (λ _, 0).

Lemma kinit1_builds_freelist_witness :
  ∃ k' l, kinit1 demo_kend 0 0x80110010 0x80113800 demo_kmem0 = Ok tt k' ∧
    free_pages demo_kend k' l ∧ use_lock k' = 0 ∧
    ∀ v, v ∈ l ↔ v mod PGSIZE = 0 ∧ 0x80110010 ≤ v ∧ v + PGSIZE ≤ 0x80113800.
Proof.
  apply (kinit1_builds_freelist demo_kend 0 0x80110010 0x80113800 demo_kmem0).
  all: try (vm_compute; done).
  - split; [apply demo_mach_wf|]. exists (demo_cpu 0). split; [reflexivity|].
    split; simpl; done.
Defined.

(** The allocator of [demo_kmem0] after [kinit1] and [kinit2]. *)
Definition demo_kmem : kmem :=
  Kmem demo_mach 1 0x80112000
       (<[0x80112000 := 0x80111000]> (<[0x80111000 := 0]> (λ _, 0))).

Lemma demo_kmem_pages : free_pages demo_kend demo_kmem [0x80112000; 0x80111000].
Proof.
  split.
  - simpl. done.
  - apply (bool_decide_unpack _). vm_compute. done.
  - repeat constructor; vm_compute; done.
Qed.

Lemma demo_kmem_ready : km_ready 0 demo_kmem.
Proof.
  split; [|done]. split; [apply demo_mach_wf|]. exists (demo_cpu 0). split; [done|].
  split; simpl; done.
Qed.

Definition demo_kmem1 : kmem :=
  match kalloc 0 demo_kmem with Ok _ k => k | _ => demo_kmem end.

Lemma kalloc_no_double_allocation_witness :
  NoDup [0x80112000] ∧
  ∃ v k', kalloc 0 demo_kmem1 = Ok v k' ∧
    (v = 0 → [0x80112000] ≡ₚ [0x80112000; 0x80111000]) ∧
    (v ≠ 0 → v ∈ [0x80112000; 0x80111000] ∧ (v ∉ [0x80112000]) ∧ page_ok demo_kend v).
Proof.
  apply (kalloc_no_double_allocation demo_kend 0 [0x80112000; 0x80111000] demo_kmem
           demo_kmem1 [0x80112000]).
  - reflexivity.
  - apply demo_kmem_ready.
  - apply demo_kmem_pages.
  - eapply rtc_l; [|apply rtc_refl]. apply cs_alloc; [reflexivity|done].
Defined.
