(* ===== verification/ProcData.v ===== *)
(** * Process and thread data

    The records of [src/proc.h] and [src/x86.h] and the process table of
    [src/proc.c], with their field updates.  A pointer to an entry of a table is
    the index of the entry, a null pointer is [None]. *)

From S2P Require Import Prelude Spinlock Kalloc.

Definition NPROC : nat := 64.
Definition NTHREADS : nat := 16.
Definition NOFILE : nat := 16.
Definition KSTACKSIZE : Z := 4096.

Inductive procstate : Type := UNUSED | ZOMBIE | USED.

Inductive threadstate : Type :=
| UNUSED_T | EMBRYO | SLEEPING | RUNNABLE | RUNNING | ZOMBIE_T | BLOCKED.

#[global] Instance procstate_eq_dec : EqDecision procstate.
Proof. solve_decision. Defined.

#[global] Instance threadstate_eq_dec : EqDecision threadstate.
Proof. solve_decision. Defined.

(** A sleep channel is the address of a kernel object: a process, a thread, or
    something outside the process table. *)
Inductive chan : Type :=
| CNull
| CProc (p : nat)
| CThread (p i : nat)
| CObj (a : Z).

#[global] Instance chan_eq_dec : EqDecision chan.
Proof. solve_decision. Defined.

(** What runs when [sleep] returns to its caller. *)
Inductive after_sleep : Type :=
| ToWait
| ToJoin (p i : nat)
| ToCaller.

(** The point at which the kernel stack of a thread stands: [InUser] when the
    thread is in user mode or between kernel operations of this file, one of the
    others when it is inside an operation.  For a thread that is not running
    this is what its saved [context] returns into. *)
Inductive kont : Type :=
| InUser
| InExitProcess
| KForkret
| KYield
| KSleep (lk : lock_id) (next : after_sleep)
| KRelock (lk : lock_id) (next : after_sleep)
| KThreadDead
| KDead.

Record trapframe : Type := Trapframe {
  edi : Z;
  esi : Z;
  ebp : Z;
  oesp : Z;
  ebx : Z;
  edx : Z;
  ecx : Z;
  eax : Z;
  gs : Z;
  fs : Z;
  es : Z;
  ds : Z;
  trapno : Z;
  err : Z;
  eip : Z;
  cs : Z;
  eflags : Z;
  esp : Z;
  ss : Z;
}.

Definition set_eax (x : Z) (f : trapframe) : trapframe :=
  Trapframe (edi f) (esi f) (ebp f) (oesp f) (ebx f) (edx f) (ecx f) x (gs f) (fs f) (es f)
    (ds f) (trapno f) (err f) (eip f) (cs f) (eflags f) (esp f) (ss f).
Definition set_es (x : Z) (f : trapframe) : trapframe :=
  Trapframe (edi f) (esi f) (ebp f) (oesp f) (ebx f) (edx f) (ecx f) (eax f) (gs f) (fs f) x
    (ds f) (trapno f) (err f) (eip f) (cs f) (eflags f) (esp f) (ss f).
Definition set_ds (x : Z) (f : trapframe) : trapframe :=
  Trapframe (edi f) (esi f) (ebp f) (oesp f) (ebx f) (edx f) (ecx f) (eax f) (gs f) (fs f)
    (es f) x (trapno f) (err f) (eip f) (cs f) (eflags f) (esp f) (ss f).
Definition set_eip (x : Z) (f : trapframe) : trapframe :=
  Trapframe (edi f) (esi f) (ebp f) (oesp f) (ebx f) (edx f) (ecx f) (eax f) (gs f) (fs f)
    (es f) (ds f) (trapno f) (err f) x (cs f) (eflags f) (esp f) (ss f).
Definition set_cs (x : Z) (f : trapframe) : trapframe :=
  Trapframe (edi f) (esi f) (ebp f) (oesp f) (ebx f) (edx f) (ecx f) (eax f) (gs f) (fs f)
    (es f) (ds f) (trapno f) (err f) (eip f) x (eflags f) (esp f) (ss f).
Definition set_eflags (x : Z) (f : trapframe) : trapframe :=
  Trapframe (edi f) (esi f) (ebp f) (oesp f) (ebx f) (edx f) (ecx f) (eax f) (gs f) (fs f)
    (es f) (ds f) (trapno f) (err f) (eip f) (cs f) x (esp f) (ss f).
Definition set_esp (x : Z) (f : trapframe) : trapframe :=
  Trapframe (edi f) (esi f) (ebp f) (oesp f) (ebx f) (edx f) (ecx f) (eax f) (gs f) (fs f)
    (es f) (ds f) (trapno f) (err f) (eip f) (cs f) (eflags f) x (ss f).
Definition set_ss (x : Z) (f : trapframe) : trapframe :=
  Trapframe (edi f) (esi f) (ebp f) (oesp f) (ebx f) (edx f) (ecx f) (eax f) (gs f) (fs f)
    (es f) (ds f) (trapno f) (err f) (eip f) (cs f) (eflags f) (esp f) x.

(** [struct thread]. *)
Record thread : Type := Thread {
  kstack : Z;  (* bottom of the kernel stack *)
  tstate : threadstate;
  tkilled : Z;
  tf_ptr : Z;  (* address of the trap frame *)
  tf : trapframe;  (* its contents *)
  tchan : chan;
  context : kont;  (* where swtch resumes the thread *)
  ctx_ptr : Z;  (* address of the saved context *)
  saved_intena : bool;  (* local [intena] of sched() *)
  p_parent : option nat;
  tid : Z;
}.

Definition set_kstack (x : Z) (t : thread) : thread :=
  Thread x (tstate t) (tkilled t) (tf_ptr t) (tf t) (tchan t) (context t) (ctx_ptr t)
    (saved_intena t) (p_parent t) (tid t).
Definition set_tstate (x : threadstate) (t : thread) : thread :=
  Thread (kstack t) x (tkilled t) (tf_ptr t) (tf t) (tchan t) (context t) (ctx_ptr t)
    (saved_intena t) (p_parent t) (tid t).
Definition set_tkilled (x : Z) (t : thread) : thread :=
  Thread (kstack t) (tstate t) x (tf_ptr t) (tf t) (tchan t) (context t) (ctx_ptr t)
    (saved_intena t) (p_parent t) (tid t).
Definition set_tf_ptr (x : Z) (t : thread) : thread :=
  Thread (kstack t) (tstate t) (tkilled t) x (tf t) (tchan t) (context t) (ctx_ptr t)
    (saved_intena t) (p_parent t) (tid t).
Definition set_tf (x : trapframe) (t : thread) : thread :=
  Thread (kstack t) (tstate t) (tkilled t) (tf_ptr t) x (tchan t) (context t) (ctx_ptr t)
    (saved_intena t) (p_parent t) (tid t).
Definition set_tchan (x : chan) (t : thread) : thread :=
  Thread (kstack t) (tstate t) (tkilled t) (tf_ptr t) (tf t) x (context t) (ctx_ptr t)
    (saved_intena t) (p_parent t) (tid t).
Definition set_context (x : kont) (t : thread) : thread :=
  Thread (kstack t) (tstate t) (tkilled t) (tf_ptr t) (tf t) (tchan t) x (ctx_ptr t)
    (saved_intena t) (p_parent t) (tid t).
Definition set_ctx_ptr (x : Z) (t : thread) : thread :=
  Thread (kstack t) (tstate t) (tkilled t) (tf_ptr t) (tf t) (tchan t) (context t) x
    (saved_intena t) (p_parent t) (tid t).
Definition set_saved_intena (x : bool) (t : thread) : thread :=
  Thread (kstack t) (tstate t) (tkilled t) (tf_ptr t) (tf t) (tchan t) (context t) (ctx_ptr t) x
    (p_parent t) (tid t).
Definition set_p_parent (x : option nat) (t : thread) : thread :=
  Thread (kstack t) (tstate t) (tkilled t) (tf_ptr t) (tf t) (tchan t) (context t) (ctx_ptr t)
    (saved_intena t) x (tid t).
Definition set_tid (x : Z) (t : thread) : thread :=
  Thread (kstack t) (tstate t) (tkilled t) (tf_ptr t) (tf t) (tchan t) (context t) (ctx_ptr t)
    (saved_intena t) (p_parent t) x.

(** [struct proc]. *)
Record proc : Type := Proc {
  pkilled : Z;
  sz : Z;
  pgdir : Z;
  pid : Z;
  parent : option nat;
  ofile : list (option nat);
  name : string;
  threads : list thread;
  pstate : procstate;
  t_num : nat;
  cwd : option nat;
}.

Definition set_pkilled (x : Z) (p : proc) : proc :=
  Proc x (sz p) (pgdir p) (pid p) (parent p) (ofile p) (name p) (threads p) (pstate p) (t_num p)
    (cwd p).
Definition set_sz (x : Z) (p : proc) : proc :=
  Proc (pkilled p) x (pgdir p) (pid p) (parent p) (ofile p) (name p) (threads p) (pstate p)
    (t_num p) (cwd p).
Definition set_pgdir (x : Z) (p : proc) : proc :=
  Proc (pkilled p) (sz p) x (pid p) (parent p) (ofile p) (name p) (threads p) (pstate p)
    (t_num p) (cwd p).
Definition set_pid (x : Z) (p : proc) : proc :=
  Proc (pkilled p) (sz p) (pgdir p) x (parent p) (ofile p) (name p) (threads p) (pstate p)
    (t_num p) (cwd p).
Definition set_parent (x : option nat) (p : proc) : proc :=
  Proc (pkilled p) (sz p) (pgdir p) (pid p) x (ofile p) (name p) (threads p) (pstate p)
    (t_num p) (cwd p).
Definition set_ofile (x : list (option nat)) (p : proc) : proc :=
  Proc (pkilled p) (sz p) (pgdir p) (pid p) (parent p) x (name p) (threads p) (pstate p)
    (t_num p) (cwd p).
Definition set_name (x : string) (p : proc) : proc :=
  Proc (pkilled p) (sz p) (pgdir p) (pid p) (parent p) (ofile p) x (threads p) (pstate p)
    (t_num p) (cwd p).
Definition set_threads (x : list thread) (p : proc) : proc :=
  Proc (pkilled p) (sz p) (pgdir p) (pid p) (parent p) (ofile p) (name p) x (pstate p) (t_num p)
    (cwd p).
Definition set_pstate (x : procstate) (p : proc) : proc :=
  Proc (pkilled p) (sz p) (pgdir p) (pid p) (parent p) (ofile p) (name p) (threads p) x
    (t_num p) (cwd p).
Definition set_t_num (x : nat) (p : proc) : proc :=
  Proc (pkilled p) (sz p) (pgdir p) (pid p) (parent p) (ofile p) (name p) (threads p) (pstate p)
    x (cwd p).
Definition set_cwd (x : option nat) (p : proc) : proc :=
  Proc (pkilled p) (sz p) (pgdir p) (pid p) (parent p) (ofile p) (name p) (threads p) (pstate p)
    (t_num p) x.

(** The globals of [src/proc.c], the page allocator (which holds the machine
    with its locks), and the state [W] of the components that [proc.c] calls. *)
Record kst (W : Type) : Type := Kst {
  km : kmem;
  procs : list proc;
  nextpid : Z;
  initproc : option nat;
  first_forkret : bool;  (* static [first] of forkret() *)
  world : W;
}.

Arguments Kst {W}.
Arguments km {W} _.
Arguments procs {W} _.
Arguments nextpid {W} _.
Arguments initproc {W} _.
Arguments first_forkret {W} _.
Arguments world {W} _.

Section Access.

Context {W : Type}.

Definition set_km (k : kmem) (s : kst W) : kst W :=
  Kst k (procs s) (nextpid s) (initproc s) (first_forkret s) (world s).
Definition set_procs (l : list proc) (s : kst W) : kst W :=
  Kst (km s) l (nextpid s) (initproc s) (first_forkret s) (world s).
Definition set_nextpid (n : Z) (s : kst W) : kst W :=
  Kst (km s) (procs s) n (initproc s) (first_forkret s) (world s).
Definition set_initproc (p : option nat) (s : kst W) : kst W :=
  Kst (km s) (procs s) (nextpid s) p (first_forkret s) (world s).
Definition set_first (b : bool) (s : kst W) : kst W :=
  Kst (km s) (procs s) (nextpid s) (initproc s) b (world s).
Definition set_kw (x : kmem * W) (s : kst W) : kst W :=
  Kst x.1 (procs s) (nextpid s) (initproc s) (first_forkret s) x.2.

Definition kmach (s : kst W) : mach := km_mach (km s).
Definition set_kmach (m : mach) (s : kst W) : kst W := set_km (set_km_mach m (km s)) s.

#[global] Instance kst_mach : HasMach (kst W) := {| the_mach := kmach; put_mach := set_kmach |}.

#[global] Instance kst_mach_laws : HasMachLaws (kst W).
Proof. by split. Qed.

(** Operations on the machine, on the allocator, and on the callees. *)
Definition on_mach {A} (m : M mach A) : M (kst W) A := zoom kmach set_kmach m.
Definition on_kmem {A} (m : M kmem A) : M (kst W) A := zoom km set_km m.
Definition on_world {A} (m : M (kmem * W) A) : M (kst W) A :=
  zoom (λ s, (km s, world s)) set_kw m.

(** [&ptable.proc[p]] and [&ptable.proc[p].threads[i]]. *)
Definition proc_at (p : nat) : M (kst W) proc := λ s,
  match procs s !! p with
  | Some pr => Ok pr s
  | None => Undef "ptable.proc[] out of bounds" s
  end.

Definition thread_at (p i : nat) : M (kst W) thread :=
  pr ← proc_at p;
  match threads pr !! i with
  | Some t => mret t
  | None => undefined "threads[] out of bounds"
  end.

Definition upd_proc (p : nat) (f : proc → proc) (s : kst W) : kst W :=
  set_procs (upd p f (procs s)) s.

Definition upd_thread (p i : nat) (f : thread → thread) (s : kst W) : kst W :=
  upd_proc p (λ pr, set_threads (upd i f (threads pr)) pr) s.

Definition set_proc (p : nat) (f : proc → proc) : M (kst W) unit := modify (upd_proc p f).
Definition set_thread (p i : nat) (f : thread → thread) : M (kst W) unit :=
  modify (upd_thread p i f).

Definition get_thread (s : kst W) (p i : nat) : option thread :=
  procs s !! p ≫= λ pr, threads pr !! i.

End Access.

(** ** The components that [proc.c] calls

    What [proc.c] uses of [vm.c], [file.c], [fs.c] and [log.c].  These run on
    the page allocator and on their own state [W].  What the process table
    relies on is that the CPUs run the same threads afterwards. *)

(** The part of each CPU that [proc.c] uses. *)
Definition cview (c : cpu) : Z * option nat * option (nat * nat) := (apicid c, cproc c, cthread c).

Definition mview (m : mach) : list (Z * option nat * option (nat * nat)) := cview <$> cpus m.

Class World (W : Type) := {
  setupkvm : nat → M (kmem * W) Z;
  inituvm : nat → Z → M (kmem * W) unit;
  copyuvm : nat → Z → Z → M (kmem * W) Z;
  freevm : nat → Z → M (kmem * W) unit;
  allocuvm : nat → Z → Z → Z → M (kmem * W) Z;
  deallocuvm : nat → Z → Z → Z → M (kmem * W) Z;
  filedup : nat → nat → M (kmem * W) nat;
  fileclose : nat → nat → M (kmem * W) unit;
  idup : nat → nat → M (kmem * W) nat;
  iput : nat → nat → M (kmem * W) unit;
  namei_root : nat → M (kmem * W) (option nat);
  begin_op : nat → M (kmem * W) unit;
  end_op : nat → M (kmem * W) unit;
  iinit_initlog : nat → M (kmem * W) unit;
}.

Definition keeps_cpus {W A} (m : M (kmem * W) A) : Prop :=
  ∀ x, wp m (λ _ y, mview (km_mach y.1) = mview (km_mach x.1)) x.

Class WorldLaws (W : Type) `{World W} := {
  setupkvm_cpus me : keeps_cpus (setupkvm me);
  inituvm_cpus me pd : keeps_cpus (inituvm me pd);
  copyuvm_cpus me pd n : keeps_cpus (copyuvm me pd n);
  freevm_cpus me pd : keeps_cpus (freevm me pd);
  allocuvm_cpus me pd a b : keeps_cpus (allocuvm me pd a b);
  deallocuvm_cpus me pd a b : keeps_cpus (deallocuvm me pd a b);
  filedup_cpus me f : keeps_cpus (filedup me f);
  fileclose_cpus me f : keeps_cpus (fileclose me f);
  idup_cpus me i : keeps_cpus (idup me i);
  iput_cpus me i : keeps_cpus (iput me i);
  namei_root_cpus me : keeps_cpus (namei_root me);
  begin_op_cpus me : keeps_cpus (begin_op me);
  end_op_cpus me : keeps_cpus (end_op me);
  iinit_initlog_cpus me : keeps_cpus (iinit_initlog me);
}.

Create HintDb world.
#[export] Hint Resolve setupkvm_cpus inituvm_cpus copyuvm_cpus freevm_cpus allocuvm_cpus
  deallocuvm_cpus filedup_cpus fileclose_cpus idup_cpus iput_cpus namei_root_cpus
  begin_op_cpus end_op_cpus iinit_initlog_cpus : world.
