(* ===== verification/Proc.v ===== *)
(** * Processes, kernel threads and the scheduler

    The operations of [src/proc.c] on the process table.  [me] is the CPU that
    executes.  Control leaves an operation either by returning, or by [swtch] to
    the scheduler of the CPU, in which case the point to resume at is stored in
    the [context] of the thread; [resume] continues from there. *)

From S2P Require Import Prelude Spinlock Kalloc ProcData.

(** How a kernel operation leaves the CPU. *)
Inductive kres : Type :=
| Return (v : Z)       (* back to the caller, with this value *)
| Switched             (* in the scheduler of this CPU *)
| CallExitProcess.     (* at the entry of exit_process(), ptable.lock released *)

Section Proc.

Context {W : Type} `{World W}.

(** First address after the kernel image, for [kfree]. *)
Variable kend : Z.

Abbreviation K := (M (kst W)).

(** ** Current process and thread *)

Definition myproc (me : nat) : K (option nat) :=
  on_mach (pushcli me ;; i ← mycpu me; c ← this_cpu i; popcli me ;; mret (cproc c)).

Definition mythread (me : nat) : K (option (nat * nat)) :=
  on_mach (pushcli me ;; i ← mycpu me; c ← this_cpu i; popcli me ;; mret (cthread c)).

(** A dereference of the result of [myproc] or [mythread]. *)
Definition deref {A} (x : option A) : K A :=
  match x with
  | Some a => mret a
  | None => undefined "null pointer"
  end.

Definition curproc (me : nat) : K nat := x ← myproc me; deref x.
Definition curthread (me : nat) : K (nat * nat) := x ← mythread me; deref x.

Definition acquire_ptable (me : nat) : K unit := on_mach (acquire me Lptable).
Definition release_ptable (me : nat) : K unit := on_mach (release me Lptable).

Definition pinit : K unit := on_mach (initlock Lptable "ptable").

(** ** Waking threads *)

(** [for (int i = 0; i < p->t_num; ++i) f(&p->threads[i]);] *)
Definition each_thread (f : thread → thread) (pr : proc) : proc :=
  set_threads (imap (λ i t, if bool_decide (i < t_num pr)%nat then f t else t) (threads pr)) pr.

Definition wake_on (ch : chan) (t : thread) : thread :=
  if bool_decide (tstate t = SLEEPING ∧ tchan t = ch) then set_tstate RUNNABLE t else t.

Definition wakeup1 (ch : chan) : K unit :=
  modify (λ s, set_procs (each_thread (wake_on ch) <$> procs s) s).

Definition wakeup (me : nat) (ch : chan) : K unit :=
  acquire_ptable me ;; wakeup1 ch ;; release_ptable me.

(** [t->killed = 1], and a sleeping thread becomes runnable. *)
Definition kill_thread (t : thread) : thread :=
  let t := set_tkilled 1 t in
  if bool_decide (tstate t = SLEEPING) then set_tstate RUNNABLE t else t.

(** ** Entering the scheduler *)

(** [sched]: after the checks, [swtch] saves the thread at [k] and returns into
    the scheduler loop of this CPU, which clears [c->proc] and [c->thread] and
    goes on with the next thread of the process. *)
Definition sched (me : nat) (k : kont) : K kres :=
  '(p, i) ← curthread me;
  h ← on_mach (holding me Lptable);
  if negb h then panic "sched ptable.lock" else
  c ← on_mach (j ← mycpu me; this_cpu j);
  if bool_decide (ncli c ≠ 1) then panic "sched locks" else
  t ← thread_at p i;
  if bool_decide (tstate t = RUNNING) then panic "sched running" else
  if iflag c then panic "sched interruptible" else
  set_thread p i (set_saved_intena (intena c)) ;;
  set_thread p i (set_context k) ;;
  on_mach (modify (upd_cpu me (λ c, set_scan (AtThread p (S i)) (set_cur None None c)))) ;;
  mret Switched.

Definition yield (me : nat) : K kres :=
  acquire_ptable me ;;
  '(p, i) ← curthread me;
  set_thread p i (set_tstate RUNNABLE) ;;
  sched me KYield.

(** [sleep]: the part up to [sched]; [resume] has the rest. *)
Definition sleep (me : nat) (ch : chan) (lk : option lock_id) (next : after_sleep) : K kres :=
  p ← myproc me;
  t ← mythread me;
  match p, lk with
  | None, _ => panic "sleep"
  | Some _, None => panic "sleep without lk"
  | Some _, Some lk =>
      (if bool_decide (lk ≠ Lptable)
       then acquire_ptable me ;; on_mach (release me lk) else mret tt) ;;
      '(p, i) ← deref t;
      set_thread p i (set_tchan ch) ;;
      set_thread p i (set_tstate SLEEPING) ;;
      sched me (KSleep lk next)
  end.

(** ** Creating processes and threads *)

(** Size of [struct trapframe] and of [struct context]. *)
Definition sizeof_tf : Z := 76.
Definition sizeof_context : Z := 20.

(** [allocthread]: the slot is [threads[t_num]]; nothing bounds [t_num], and a
    slot past the array is an access out of bounds. *)
Definition allocthread (me : nat) (p : nat) (first : bool) : K Z :=
  pr ← proc_at p;
  let i := t_num pr in
  set_proc p (set_t_num (S i)) ;;
  if bool_decide (NTHREADS ≤ i)%nat then undefined "threads[] out of bounds" else
  set_thread p i (λ t, set_p_parent (Some p) t) ;;
  set_thread p i (set_tstate (if first then EMBRYO else RUNNABLE)) ;;
  set_thread p i (set_tid (Z.of_nat (S i))) ;;
  set_thread p i (set_tkilled 0) ;;
  ks ← on_kmem (kalloc me);
  set_thread p i (set_kstack ks) ;;
  if bool_decide (ks = 0) then
    set_thread p i (set_tstate UNUSED_T) ;; mret 0
  else
    let sp := ks + KSTACKSIZE - sizeof_tf in
    set_thread p i (set_tf_ptr sp) ;;
    set_thread p i (set_ctx_ptr (sp - 4 - sizeof_context)) ;;
    set_thread p i (set_context KForkret) ;;
    mret 1.

(** [p->pid = nextpid++]: signed overflow of the counter is undefined. *)
Definition next_pid : K Z :=
  n ← gets nextpid;
  if bool_decide (n = 2 ^ 31 - 1) then undefined "nextpid++ overflows" else
  modify (set_nextpid (n + 1)) ;; mret n.

Definition allocproc (me : nat) : K (option nat) :=
  acquire_ptable me ;;
  s ← get;
  match list_find (λ pr, pstate pr = UNUSED) (procs s) with
  | None => release_ptable me ;; mret None
  | Some (p, _) =>
      set_proc p (set_t_num 0) ;;
      n ← next_pid;
      set_proc p (set_pid n) ;;
      set_proc p (set_pstate USED) ;;
      success ← allocthread me p true;
      release_ptable me ;;
      mret (if bool_decide (success = 0) then None else Some p)
  end.

Definition switchuvm (me : nat) (p i : nat) : K unit :=
  t ← thread_at p i;
  if bool_decide (kstack t = 0) then panic "switchuvm: no kstack" else
  pr ← proc_at p;
  if bool_decide (pgdir pr = 0) then panic "switchuvm: no pgdir" else
  on_mach (pushcli me) ;;
  on_mach (popcli me).

Definition zero_tf : trapframe := Trapframe 0 0 0 0 0 0 0 0 0 0 0 0 0 0 0 0 0 0 0.

(** Segment selectors and flags of [src/mmu.h]. *)
Definition UCODE_SEL : Z := Z.lor (Z.shiftl 3 3) 3.
Definition UDATA_SEL : Z := Z.lor (Z.shiftl 4 3) 3.
Definition FL_IF : Z := 0x200.

Definition userinit_tf : trapframe :=
  let f := set_ds UDATA_SEL (set_cs UCODE_SEL zero_tf) in
  let f := set_ss (ds f) (set_es (ds f) f) in
  set_eip 0 (set_esp PGSIZE (set_eflags FL_IF f)).

Definition userinit (me : nat) : K unit :=
  x ← allocproc me;
  p ← deref x;
  acquire_ptable me ;;
  modify (set_initproc (Some p)) ;;
  pd ← on_world (setupkvm me);
  set_proc p (set_pgdir pd) ;;
  if bool_decide (pd = 0) then panic "userinit: out of memory?" else
  on_world (inituvm me pd) ;;
  set_proc p (set_sz PGSIZE) ;;
  set_thread p 0 (set_tf userinit_tf) ;;
  set_proc p (set_name "initcode") ;;
  d ← on_world (namei_root me);
  set_proc p (set_cwd d) ;;
  set_proc p (set_pstate USED) ;;
  set_thread p 0 (set_tstate RUNNABLE) ;;
  release_ptable me.

Definition growproc (me : nat) (n : Z) : K Z :=
  p ← curproc me;
  t ← mythread me;
  acquire_ptable me ;;
  pr ← proc_at p;
  let finish (new : Z) : K Z :=
    set_proc p (set_sz new) ;;
    '(q, i) ← deref t;
    switchuvm me q i ;;
    release_ptable me ;;
    mret 0 in
  if bool_decide (0 < n) then
    new ← on_world (allocuvm me (pgdir pr) (sz pr) (u32 (sz pr + n)));
    if bool_decide (new = 0) then release_ptable me ;; mret (-1) else finish new
  else if bool_decide (n < 0) then
    new ← on_world (deallocuvm me (pgdir pr) (sz pr) (u32 (sz pr + n)));
    if bool_decide (new = 0) then release_ptable me ;; mret (-1) else finish new
  else finish (sz pr).

(** [safestrcpy] of a process name into [char name[16]]. *)
Definition copy_name (n : string) : string := String.substring 0 15 n.

(** [for(i = 0; i < NOFILE; i++) if(curproc->ofile[i]) np->ofile[i] = filedup(...)] *)
Definition dup_files (me : nat) (p np : nat) : K unit :=
  for_range 0 NOFILE (λ fd,
    pr ← proc_at p;
    match ofile pr !! fd with
    | Some (Some f) =>
        f' ← on_world (filedup me f);
        set_proc np (λ pr, set_ofile (<[fd := Some f']> (ofile pr)) pr)
    | _ => mret tt
    end).

Definition fork (me : nat) : K Z :=
  p ← curproc me;
  '(tp, ti) ← curthread me;
  x ← allocproc me;
  match x with
  | None => mret (-1)
  | Some np =>
      acquire_ptable me ;;
      pr ← proc_at p;
      pd ← on_world (copyuvm me (pgdir pr) (sz pr));
      set_proc np (set_pgdir pd) ;;
      if bool_decide (pd = 0) then
        nt ← thread_at np 0;
        on_kmem (kfree kend me (kstack nt)) ;;
        set_thread np 0 (set_kstack 0) ;;
        set_proc np (set_pstate UNUSED) ;;
        set_thread np 0 (set_tstate UNUSED_T) ;;
        mret (-1)
      else
        set_proc np (set_sz (sz pr)) ;;
        set_proc np (set_parent (Some p)) ;;
        t ← thread_at tp ti;
        set_thread np 0 (set_tf (tf t)) ;;
        set_thread np 0 (λ t, set_tf (set_eax 0 (tf t)) t) ;;
        dup_files me p np ;;
        d ← deref (cwd pr);
        d' ← on_world (idup me d);
        set_proc np (set_cwd (Some d')) ;;
        set_proc np (set_name (copy_name (name pr))) ;;
        npr ← proc_at np;
        set_thread np 0 (set_tstate RUNNABLE) ;;
        release_ptable me ;;
        mret (pid npr)
  end.

Definition kthread_create (me : nat) (start_func stack : Z) : K Z :=
  acquire_ptable me ;;
  p ← curproc me;
  r ← allocthread me p false;
  if bool_decide (r = 0) then mret 0 else
  p ← curproc me;
  pr ← proc_at p;
  let i := (t_num pr - 1)%nat in
  '(tp, ti) ← curthread me;
  ct ← thread_at tp ti;
  set_thread p i (set_tf (tf ct)) ;;
  set_thread p i (λ t, set_tf (set_eip start_func (tf t)) t) ;;
  set_thread p i (λ t, set_tf (set_esp stack (tf t)) t) ;;
  release_ptable me ;;
  t ← thread_at p i;
  mret (tid t).

(** ** Exiting *)

Definition live (t : thread) : Prop := tstate t ≠ ZOMBIE_T ∧ tstate t ≠ UNUSED_T.

#[local] Instance live_dec t : Decision (live t).
Proof. unfold live. apply _. Defined.

(** Number of threads of the process that are neither zombie nor unused. *)
Definition running_threads (pr : proc) : nat :=
  length (filter live (take (t_num pr) (threads pr))).

(** [exit_thread], entered with [ptable.lock] held.  The last thread of a
    process releases the lock and goes on to [exit_process]. *)
Definition exit_thread (me : nat) : K kres :=
  p ← curproc me;
  pr ← proc_at p;
  let n := running_threads pr in
  if bool_decide (n = 0)%nat then panic "No running thread!" else
  (if bool_decide (n = 2)%nat then q ← curproc me; wakeup1 (CProc q) else mret tt) ;;
  if bool_decide (n = 1)%nat then
    '(q, i) ← curthread me;
    release_ptable me ;;
    set_thread q i (set_context InExitProcess) ;;
    mret CallExitProcess
  else
    '(q, i) ← curthread me;
    wakeup1 (CThread q i) ;;
    set_thread q i (set_tstate ZOMBIE_T) ;;
    sched me KThreadDead.

Definition exit (me : nat) : K kres :=
  p ← curproc me;
  acquire_ptable me ;;
  '(q, i) ← curthread me;
  t ← thread_at q i;
  if bool_decide (tkilled t = 1) then exit_thread me
  else
    set_proc p (each_thread kill_thread) ;;
    release_ptable me ;;
    mret (Return 0).

Definition kthread_exit (me : nat) : K kres :=
  acquire_ptable me ;; exit_thread me.

(** [fileclose(curproc->ofile[fd]); curproc->ofile[fd] = 0;] for every open file. *)
Definition close_files (me : nat) (p : nat) : K unit :=
  for_range 0 NOFILE (λ fd,
    pr ← proc_at p;
    match ofile pr !! fd with
    | Some (Some f) =>
        on_world (fileclose me f) ;;
        set_proc p (λ pr, set_ofile (<[fd := None]> (ofile pr)) pr)
    | _ => mret tt
    end).

Definition chan_of (p : option nat) : chan :=
  match p with Some p => CProc p | None => CNull end.

(** Pass abandoned children to init. *)
Definition reparent (p : nat) : K unit :=
  for_range 0 NPROC (λ c,
    s ← get;
    pr ← proc_at c;
    if bool_decide (parent pr = Some p) then
      set_proc c (set_parent (initproc s)) ;;
      if bool_decide (pstate pr = ZOMBIE) then wakeup1 (chan_of (initproc s)) else mret tt
    else mret tt).

Definition exit_process (me : nat) : K kres :=
  p ← curproc me;
  s ← get;
  if bool_decide (initproc s = Some p) then panic "init exiting" else
  close_files me p ;;
  on_world (begin_op me) ;;
  pr ← proc_at p;
  d ← deref (cwd pr);
  on_world (iput me d) ;;
  on_world (end_op me) ;;
  set_proc p (set_cwd None) ;;
  acquire_ptable me ;;
  pr ← proc_at p;
  wakeup1 (chan_of (parent pr)) ;;
  reparent p ;;
  set_proc p (set_pkilled 1) ;;
  set_proc p (set_pstate ZOMBIE) ;;
  '(q, i) ← curthread me;
  set_thread q i (set_tstate ZOMBIE_T) ;;
  sched me KDead.

(** ** Waiting *)

(** The scan of [wait]: the first zombie child, or whether there are children. *)
Fixpoint wait_scan (p : nat) (l : list proc) (idx : nat) (havekids : bool) : nat + bool :=
  match l with
  | [] => inr havekids
  | pr :: l =>
      if bool_decide (parent pr = Some p) then
        if bool_decide (pstate pr = ZOMBIE) then inl idx
        else wait_scan p l (S idx) true
      else wait_scan p l (S idx) havekids
  end.

(** [if (t->state == ZOMBIE_T) { kfree(t->kstack); ... }] for thread [i]. *)
Definition reap_thread (me : nat) (p i : nat) : K unit :=
  t ← thread_at p i;
  if bool_decide (tstate t = ZOMBIE_T) then
    on_kmem (kfree kend me (kstack t)) ;;
    set_thread p i (set_kstack 0) ;;
    set_thread p i (set_tid 0) ;;
    set_thread p i (set_p_parent None) ;;
    set_thread p i (set_tkilled 0) ;;
    set_thread p i (set_tstate UNUSED_T)
  else mret tt.

Definition reap (me : nat) (c : nat) : K Z :=
  pr ← proc_at c;
  set_proc c (set_pid 0) ;;
  on_world (freevm me (pgdir pr)) ;;
  set_proc c (set_parent None) ;;
  set_proc c (set_name "") ;;
  set_proc c (set_pstate UNUSED) ;;
  for_range 0 (t_num pr) (reap_thread me c) ;;
  mret (pid pr).

(** One turn of the loop of [wait] for process [p], thread [t]; the lock is held. *)
Definition wait_loop (me : nat) (p : nat) (t : nat * nat) : K kres :=
  s ← get;
  match wait_scan p (procs s) 0 false with
  | inl c => n ← reap me c; release_ptable me ;; mret (Return n)
  | inr havekids =>
      th ← thread_at t.1 t.2;
      if negb havekids || bool_decide (tkilled th ≠ 0) then
        release_ptable me ;; mret (Return (-1))
      else sleep me (CProc p) (Some Lptable) ToWait
  end.

Definition wait (me : nat) : K kres :=
  p ← curproc me;
  t ← curthread me;
  acquire_ptable me ;;
  wait_loop me p t.

(** One turn of the loop of [kthread_join] on thread [(p, i)]; the lock is
    held.  On an unused thread the loop spins. *)
Definition join_loop (me : nat) (p i : nat) : K kres :=
  t ← thread_at p i;
  if bool_decide (tstate t = ZOMBIE_T) then release_ptable me ;; mret (Return 0)
  else if bool_decide (tstate t ≠ UNUSED_T) then sleep me (CThread p i) (Some Lptable) (ToJoin p i)
  else spin.

(** The last thread of the list with this id. *)
Fixpoint find_tid (id : Z) (l : list thread) (idx : nat) : option nat :=
  match l with
  | [] => None
  | t :: l =>
      match find_tid id l (S idx) with
      | Some j => Some j
      | None => if bool_decide (tid t = id) then Some idx else None
      end
  end.

(** [kthread_join]; an unknown id returns without releasing the lock. *)
Definition kthread_join (me : nat) (thread_id : Z) : K kres :=
  acquire_ptable me ;;
  p ← curproc me;
  pr ← proc_at p;
  match find_tid thread_id (take (t_num pr) (threads pr)) 0 with
  | None => mret (Return (-1))
  | Some i => join_loop me p i
  end.

Definition kill (me : nat) (n : Z) : K Z :=
  acquire_ptable me ;;
  s ← get;
  match list_find (λ pr, pid pr = n) (procs s) with
  | Some (p, _) =>
      set_proc p (set_pkilled 1) ;;
      set_proc p (each_thread kill_thread) ;;
      release_ptable me ;; mret 0
  | None => release_ptable me ;; mret (-1)
  end.

(** ** The scheduler *)

(** One turn of the loops of [scheduler] on a CPU that runs no thread.  When it
    finds a runnable thread, [swtch] makes it the current thread of the CPU. *)
Definition scheduler_step (me : nat) : K unit :=
  c ← on_mach (this_cpu me);
  let goto (x : scan) := on_mach (modify (upd_cpu me (set_scan x))) in
  match cscan c with
  | NotScanning =>
      on_mach (sti me) ;; acquire_ptable me ;; goto (AtProc 0)
  | AtProc p =>
      if bool_decide (NPROC ≤ p)%nat then release_ptable me ;; goto NotScanning
      else
        pr ← proc_at p;
        if bool_decide (pstate pr ≠ USED) then goto (AtProc (S p)) else goto (AtThread p 0)
  | AtThread p i =>
      pr ← proc_at p;
      if bool_decide (t_num pr ≤ i)%nat then goto (AtProc (S p))
      else
        t ← thread_at p i;
        if bool_decide (tstate t ≠ RUNNABLE) then goto (AtThread p (S i))
        else
          on_mach (modify (upd_cpu me (set_cur (Some p) (Some (p, i))))) ;;
          switchuvm me p i ;;
          set_thread p i (set_tstate RUNNING)
  end.

Definition forkret (me : nat) : K kres :=
  release_ptable me ;;
  first ← gets first_forkret;
  (if (first : bool) then
     modify (set_first false) ;; on_world (iinit_initlog me)
   else mret tt) ;;
  mret (Return 0).

(** [sched] restores [intena] of the CPU when it returns. *)
Definition sched_return (me : nat) (p i : nat) : K unit :=
  t ← thread_at p i;
  on_mach (modify (upd_cpu me (set_intena (saved_intena t)))).

(** The current thread of the CPU goes on from the point its kernel stack
    stands at. *)
Definition resume (me : nat) : K kres :=
  '(p, i) ← curthread me;
  t ← thread_at p i;
  set_thread p i (set_context InUser) ;;
  let continue (next : after_sleep) : K kres :=
    match next with
    | ToWait => wait_loop me p (p, i)
    | ToJoin q j => join_loop me q j
    | ToCaller => mret (Return 0)
    end in
  match context t with
  | InUser => mret (Return 0)
  | InExitProcess => exit_process me
  | KForkret => forkret me
  | KYield => sched_return me p i ;; release_ptable me ;; mret (Return 0)
  | KSleep lk next =>
      sched_return me p i ;;
      set_thread p i (set_tchan CNull) ;;
      if bool_decide (lk ≠ Lptable) then
        release_ptable me ;;
        set_thread p i (set_context (KRelock lk next)) ;;
        mret (Return 0)
      else continue next
  | KRelock lk next => on_mach (acquire me lk) ;; continue next
  | KThreadDead => mret (Return 0)
  | KDead => panic "zombie exit"
  end.

(** ** Process listing *)

(** [states[t->state]] of [procdump]: the initialisers index the array with
    constants of both state enumerations, [UNUSED] = 0 and [ZOMBIE] = 1 of
    [procstate], and [EMBRYO] = 1, [SLEEPING] = 2, [RUNNABLE] = 3 and
    [RUNNING] = 4 of [threadstate]; the later initialiser of index 1 wins. *)
Definition threadstate_code (x : threadstate) : nat :=
  match x with
  | UNUSED_T => 0 | EMBRYO => 1 | SLEEPING => 2 | RUNNABLE => 3
  | RUNNING => 4 | ZOMBIE_T => 5 | BLOCKED => 6
  end.

Definition procdump_states : list string :=
  foldl (λ l '(i, n), <[i := n]> l) (replicate 5 "")
    [(0%nat, "unused"); (1%nat, "embryo"); (2%nat, "sleep "); (3%nat, "runble");
     (4%nat, "run   "); (1%nat, "zombie")].

Definition procdump_state (x : threadstate) : string :=
  match procdump_states !! threadstate_code x with
  | Some n => if bool_decide (n = "") then "???" else n
  | None => "???"
  end.

Fixpoint until_zero (l : list Z) : list Z :=
  match l with
  | [] => []
  | x :: l => if bool_decide (x = 0) then [] else x :: until_zero l
  end.

(** The lines printed for the table: pid, tid, state and name of each thread,
    and for a sleeping one the program counters of its stack; [mem] is the
    memory and [saved_ebp p i] the frame pointer in the saved context. *)
Definition procdump (mem : Z → Z) (saved_ebp : nat → nat → Z) (s : kst W) :
    list (Z * Z * string * string * list Z) :=
  concat (imap (λ p pr,
    if bool_decide (pstate pr = UNUSED) then []
    else imap (λ i t,
           (pid pr, tid t, procdump_state (tstate t), name pr,
            if bool_decide (tstate t = SLEEPING)
            then until_zero (getcallerpcs mem (saved_ebp p i + 8)) else []))
         (take (t_num pr) (threads pr))) (procs s)).

(** ** Kernel operations as transitions

    The operations a thread can start while it is in user mode, or inside
    kernel code of other files (which calls [sleep] and [wakeup]). *)
Inductive kcall : Type :=
| CallFork
| CallExit
| CallWait
| CallKill (n : Z)
| CallYield
| CallGrowproc (n : Z)
| CallKthreadCreate (start_func stack : Z)
| CallKthreadExit
| CallKthreadJoin (thread_id : Z)
| CallSleep (ch : chan) (lk : lock_id)
| CallWakeup (ch : chan).

Definition run_call (me : nat) (x : kcall) : K kres :=
  let ret (m : K Z) : K kres := v ← m; mret (Return v) in
  match x with
  | CallFork => ret (fork me)
  | CallExit => exit me
  | CallWait => wait me
  | CallKill n => ret (kill me n)
  | CallYield => yield me
  | CallGrowproc n => ret (growproc me n)
  | CallKthreadCreate f stk => ret (kthread_create me f stk)
  | CallKthreadExit => kthread_exit me
  | CallKthreadJoin id => kthread_join me id
  | CallSleep ch lk => sleep me ch (Some lk) ToCaller
  | CallWakeup ch => wakeup me ch ;; mret (Return 0)
  end.

(** CPU [me] takes one transition: its current thread starts an operation, or
    goes on with the one it is in, or the CPU is in its scheduler. *)
Inductive kstep (me : nat) : kst W → kst W → Prop :=
| kstep_call s p i t x r s' :
    cthread <$> cpus (kmach s) !! me = Some (Some (p, i)) →
    get_thread s p i = Some t → context t = InUser →
    run_call me x s = Ok r s' → kstep me s s'
| kstep_resume s p i t r s' :
    cthread <$> cpus (kmach s) !! me = Some (Some (p, i)) →
    get_thread s p i = Some t → context t ≠ InUser →
    resume me s = Ok r s' → kstep me s s'
| kstep_sched s s' :
    cthread <$> cpus (kmach s) !! me = Some None →
    scheduler_step me s = Ok tt s' → kstep me s s'.

End Proc.

Definition ksteps {W} `{World W} (kend : Z) : relation (kst W) :=
  rtc (λ s s', ∃ me, kstep kend me s s').
