(* ===== verification/Gates.v ===== *)
(** * Segments and gates

    The descriptors of [src/mmu.h], the table of trap vectors of [src/trap.c]
    ([tvinit], [idtinit]), the segments of [src/vm.c] ([seginit]) and the part of
    [switchuvm] that loads the task state of the processor. *)

From S2P Require Import Prelude Spinlock.

Module Gates.

Definition SEG_KCODE : Z := 1.
Definition SEG_KDATA : Z := 2.
Definition SEG_UCODE : Z := 3.
Definition SEG_UDATA : Z := 4.
Definition SEG_TSS : Z := 5.
Definition NSEGS : nat := 6.
Definition DPL_USER : Z := 3.
Definition STA_X : Z := 8.
Definition STA_W : Z := 2.
Definition STA_R : Z := 2.
Definition STS_T32A : Z := 9.
Definition STS_IG32 : Z := 0xE.
Definition STS_TG32 : Z := 0xF.
Definition T_SYSCALL : Z := 64.
Definition KSTACKSIZE : Z := 4096.
Definition KERNBASE : Z := 0x80000000.

(** The value of a bit field of [w] bits. *)
Definition field (w x : Z) : Z := x mod 2 ^ w.

(** ** Segment descriptors *)

Record segdesc : Type := Segdesc {
  lim_15_0 : Z;
  base_15_0 : Z;
  base_23_16 : Z;
  s_type : Z;
  s_s : Z;
  s_dpl : Z;
  s_p : Z;
  lim_19_16 : Z;
  s_avl : Z;
  s_rsv1 : Z;
  s_db : Z;
  s_g : Z;
  base_31_24 : Z;
}.

Definition SEG (type base lim dpl : Z) : segdesc :=
  Segdesc (field 16 (Z.land (Z.shiftr lim 12) 0xffff)) (field 16 (Z.land (u32 base) 0xffff))
    (field 8 (Z.land (Z.shiftr (u32 base) 16) 0xff)) (field 4 type) 1 (field 2 dpl) 1
    (field 4 (Z.shiftr (u32 lim) 28)) 0 0 1 1 (field 8 (Z.shiftr (u32 base) 24)).

Definition SEG16 (type base lim dpl : Z) : segdesc :=
  Segdesc (field 16 (Z.land lim 0xffff)) (field 16 (Z.land (u32 base) 0xffff))
    (field 8 (Z.land (Z.shiftr (u32 base) 16) 0xff)) (field 4 type) 1 (field 2 dpl) 1
    (field 4 (Z.shiftr (u32 lim) 16)) 0 0 1 0 (field 8 (Z.shiftr (u32 base) 24)).

Definition set_s (x : Z) (d : segdesc) : segdesc :=
  Segdesc (lim_15_0 d) (base_15_0 d) (base_23_16 d) (s_type d) (field 1 x) (s_dpl d) (s_p d) (lim_19_16 d) (s_avl d)
    (s_rsv1 d) (s_db d) (s_g d) (base_31_24 d).

(** What the processor makes of a descriptor. *)
Definition seg_base (d : segdesc) : Z := base_15_0 d + 2 ^ 16 * base_23_16 d + 2 ^ 24 * base_31_24 d.
Definition seg_limit (d : segdesc) : Z :=
  let l := lim_15_0 d + 2 ^ 16 * lim_19_16 d in
  if bool_decide (s_g d = 1) then l * 4096 + 4095 else l.

(** ** Gates *)

Record gatedesc : Type := Gatedesc {
  off_15_0 : Z;
  g_cs : Z;
  g_args : Z;
  g_rsv1 : Z;
  g_type : Z;
  g_s : Z;
  g_dpl : Z;
  g_p : Z;
  off_31_16 : Z;
}.

Definition SETGATE (istrap : bool) (sel off d : Z) : gatedesc :=
  Gatedesc (field 16 (Z.land (u32 off) 0xffff)) (field 16 sel) 0 0 (field 4 (if istrap then STS_TG32 else STS_IG32)) 0
    (field 2 d) 1 (field 16 (Z.shiftr (u32 off) 16)).

Definition gate_off (g : gatedesc) : Z := off_15_0 g + 2 ^ 16 * off_31_16 g.

(** [tvinit]: the table [idt], which all CPUs share, and the locks.  [vectors] are
    the addresses of the entry points. *)
Definition tvinit (vectors : Z → Z) : M (list gatedesc * mach) unit :=
  for_range 0 256 (λ i, modify (λ st, (<[i := SETGATE false (Z.shiftl SEG_KCODE 3) (vectors (Z.of_nat i)) 0]> st.1, st.2))) ;;
  modify (λ st, (<[Z.to_nat T_SYSCALL := SETGATE true (Z.shiftl SEG_KCODE 3) (vectors T_SYSCALL) DPL_USER]> st.1, st.2)) ;;
  zoom snd (λ m st, (st.1, m)) (initlock Ltickslock "time").

(** ** The registers of a CPU *)

(** [struct taskstate], of which the kernel uses three fields, and the registers
    that [lgdt], [lidt], [ltr] and [lcr3] load. *)
Record sysregs : Type := Sysregs {
  gdt : list segdesc;
  ss0 : Z;
  esp0 : Z;
  iomb : Z;
  gdtr : option (list segdesc);
  idtr : option (list gatedesc);
  tr : Z;
  cr3 : Z;
}.

Definition set_gdt (i : Z) (d : segdesc) (c : sysregs) : sysregs :=
  Sysregs (<[Z.to_nat i := d]> (gdt c)) (ss0 c) (esp0 c) (iomb c) (gdtr c) (idtr c) (tr c) (cr3 c).
Definition lgdt (c : sysregs) : sysregs := Sysregs (gdt c) (ss0 c) (esp0 c) (iomb c) (Some (gdt c)) (idtr c) (tr c) (cr3 c).
Definition lidt (t : list gatedesc) (c : sysregs) : sysregs :=
  Sysregs (gdt c) (ss0 c) (esp0 c) (iomb c) (gdtr c) (Some t) (tr c) (cr3 c).

(** [seginit] on the CPU that runs it. *)
Definition seginit : M sysregs unit :=
  modify (set_gdt SEG_KCODE (SEG (Z.lor STA_X STA_R) 0 0xffffffff 0)) ;;
  modify (set_gdt SEG_KDATA (SEG STA_W 0 0xffffffff 0)) ;;
  modify (set_gdt SEG_UCODE (SEG (Z.lor STA_X STA_R) 0 0xffffffff DPL_USER)) ;;
  modify (set_gdt SEG_UDATA (SEG STA_W 0 0xffffffff DPL_USER)) ;;
  modify lgdt.

Definition idtinit (idt : list gatedesc) : M sysregs unit := modify (lidt idt).

(** [sizeof(struct taskstate)] *)
Definition sizeof_ts : Z := 104.

(** [switchuvm] between [pushcli] and [popcli]; [ts] is the address of the task
    state of the CPU. *)
Definition load_task (ts kstack pgdir : Z) : M sysregs unit :=
  modify (set_gdt SEG_TSS (SEG16 STS_T32A ts (sizeof_ts - 1) 0)) ;;
  modify (λ c, match gdt c !! Z.to_nat SEG_TSS with Some d => set_gdt SEG_TSS (set_s 0 d) c | None => c end) ;;
  modify (λ c, Sysregs (gdt c) (field 16 (Z.shiftl SEG_KDATA 3)) (esp0 c) (iomb c) (gdtr c) (idtr c) (tr c) (cr3 c)) ;;
  modify (λ c, Sysregs (gdt c) (ss0 c) (u32 (kstack + KSTACKSIZE)) (iomb c) (gdtr c) (idtr c) (tr c) (cr3 c)) ;;
  modify (λ c, Sysregs (gdt c) (ss0 c) (esp0 c) 0xFFFF (gdtr c) (idtr c) (tr c) (cr3 c)) ;;
  modify (λ c, Sysregs (gdt c) (ss0 c) (esp0 c) (iomb c) (gdtr c) (idtr c) (Z.shiftl SEG_TSS 3) (cr3 c)) ;;
  modify (λ c, Sysregs (gdt c) (ss0 c) (esp0 c) (iomb c) (gdtr c) (idtr c) (tr c) (u32 (pgdir - KERNBASE))).

(** ** What the descriptors mean *)

Lemma seg_base_SEG t base lim d : 0 ≤ base < 2 ^ 32 → seg_base (SEG t base lim d) = base ∧ seg_base (SEG16 t base lim d) = base.
Proof.
  intros Hb. unfold seg_base, SEG, SEG16, field. cbn [base_15_0 base_23_16 base_31_24]. rewrite u32_small by done.
  change 0xffff with (Z.ones 16). change 0xff with (Z.ones 8). rewrite !Z.land_ones, !Z.shiftr_div_pow2 by lia.
  Z.div_mod_to_equations. lia.
Qed.

Lemma seg_limit_SEG16 t base lim d : 0 ≤ lim < 2 ^ 20 → seg_limit (SEG16 t base lim d) = lim.
Proof.
  intros Hl. unfold seg_limit, SEG16, field. cbn [lim_15_0 lim_19_16 s_g]. rewrite (u32_small lim) by lia.
  change 0xffff with (Z.ones 16). rewrite !Z.land_ones, !Z.shiftr_div_pow2 by lia. rewrite bool_decide_eq_false_2 by done.
  Z.div_mod_to_equations. lia.
Qed.

Lemma gate_off_SETGATE b sel off d : 0 ≤ off < 2 ^ 32 → gate_off (SETGATE b sel off d) = off.
Proof.
  intros Ho. unfold gate_off, SETGATE, field. cbn [off_15_0 off_31_16]. rewrite u32_small by done.
  change 0xffff with (Z.ones 16). rewrite !Z.land_ones, !Z.shiftr_div_pow2 by lia. Z.div_mod_to_equations. lia.
Qed.

(** The table that the processor needs: every vector leads to its entry point in the
    kernel, with interrupts disabled but for system calls, which alone can be made
    from user mode. *)
Definition idt_ok (vectors : Z → Z) (idt : list gatedesc) : Prop :=
  ∀ n, 0 ≤ n < 256 → ∃ g, idt !! Z.to_nat n = Some g ∧ gate_off g = vectors n ∧ g_cs g = 8 ∧ g_p g = 1 ∧ g_s g = 0 ∧
    g_type g = (if bool_decide (n = T_SYSCALL) then STS_TG32 else STS_IG32) ∧
    g_dpl g = (if bool_decide (n = T_SYSCALL) then DPL_USER else 0).

Lemma tvinit_ok vectors idt m :
  length idt = 256%nat → (∀ n, 0 ≤ n < 256 → 0 ≤ vectors n < 2 ^ 32) →
  wpt (tvinit vectors) (λ _ st, idt_ok vectors st.1 ∧ locked (locks st.2 Ltickslock) = 0) (idt, m).
Proof.
  intros Hl Hv. apply wpt_bind. eapply wpt_mono.
  - apply (wpt_for_range (λ n st, length st.1 = 256%nat ∧ ∀ i, (i < n)%nat →
      st.1 !! i = Some (SETGATE false (Z.shiftl SEG_KCODE 3) (vectors (Z.of_nat i)) 0))); [split; [done|lia]|].
    intros n st Hn [Hlen Hi]. apply wpt_modify. cbn [fst]. split; [by rewrite length_insert|]. intros i Hlt.
    destruct (decide (i = n)) as [->|Hne]; [by rewrite list_lookup_insert_eq by lia|]. rewrite list_lookup_insert_ne by done. apply Hi. lia.
  - intros [] st [Hlen Hi]. apply wpt_bind, wpt_modify, wpt_zoom. unfold initlock. apply wpt_modify. cbn [fst snd].
    split; [|cbn; by rewrite fn_lookup_insert]. intros n Hn. case_bool_decide as Hsys.
    + subst n. rewrite list_lookup_insert_eq by (rewrite Hlen; unfold T_SYSCALL; lia). eexists. split; [done|]. by rewrite gate_off_SETGATE by by apply Hv.
    + rewrite list_lookup_insert_ne by (unfold T_SYSCALL in *; lia). rewrite Hi by lia. rewrite Z2Nat.id by lia.
      eexists. split; [done|]. by rewrite gate_off_SETGATE by by apply Hv.
Qed.

(** A flat segment: all addresses, as they are. *)
Definition flat (type dpl : Z) (d : segdesc) : Prop :=
  seg_base d = 0 ∧ seg_limit d = 2 ^ 32 - 1 ∧ s_type d = type ∧ s_dpl d = dpl ∧ s_s d = 1 ∧ s_p d = 1 ∧ s_db d = 1.

Lemma seginit_ok c : length (gdt c) = NSEGS →
  wpt seginit (λ _ c', ∃ k kd u ud t0 t5, gdtr c' = Some [t0; k; kd; u; ud; t5] ∧
    flat 10 0 k ∧ flat 2 0 kd ∧ flat 10 DPL_USER u ∧ flat 2 DPL_USER ud) c.
Proof.
  intros Hl. destruct c as [g a b d e f h i]. cbn [gdt] in Hl. do 7 (destruct g as [|? g]; try discriminate Hl).
  do 4 apply wpt_bind, wpt_modify. apply wpt_modify. do 6 eexists. split; [reflexivity|]. repeat split.
Qed.

(** After [load_task] a trap from user mode finds the top of the kernel stack of the
    thread, and user mode has no access to ports: the map of ports would begin
    beyond the limit of the task state. *)
Lemma load_task_ok ts kstack pgdir c :
  length (gdt c) = NSEGS → 0 ≤ ts < 2 ^ 32 → 0 ≤ kstack < 2 ^ 32 - KSTACKSIZE → KERNBASE ≤ pgdir < 2 ^ 32 →
  wpt (load_task ts kstack pgdir) (λ _ c', ∃ d, gdt c' !! Z.to_nat (tr c' / 8) = Some d ∧ seg_base d = ts ∧
    seg_limit d = sizeof_ts - 1 ∧ s_s d = 0 ∧ s_type d = STS_T32A ∧ s_p d = 1 ∧ seg_limit d < iomb c' ∧
    ss0 c' = 16 ∧ esp0 c' = kstack + KSTACKSIZE ∧ cr3 c' = pgdir - KERNBASE) c.
Proof.
  intros Hl Ht Hk Hp. destruct c as [g a b d e f h i]. cbn [gdt] in Hl. do 7 (destruct g as [|? g]; try discriminate Hl).
  eapply (wpt_eq _ _ _ tt (Sysregs [s; s0; s1; s2; s3; set_s 0 (SEG16 STS_T32A ts (sizeof_ts - 1) 0)] 16 (u32 (kstack + KSTACKSIZE))
    0xFFFF e f 40 (u32 (pgdir - KERNBASE)))); [reflexivity|]. exists (set_s 0 (SEG16 STS_T32A ts (sizeof_ts - 1) 0)). split; [reflexivity|].
  assert (E1 : seg_base (set_s 0 (SEG16 STS_T32A ts (sizeof_ts - 1) 0)) = ts) by by apply seg_base_SEG.
  assert (E2 : seg_limit (set_s 0 (SEG16 STS_T32A ts (sizeof_ts - 1) 0)) = sizeof_ts - 1) by by apply seg_limit_SEG16.
  cbn [iomb ss0 esp0 cr3]. rewrite !u32_small by (unfold KSTACKSIZE, KERNBASE in *; lia). rewrite E1, E2. by split_and!.
Qed.

End Gates.
