(* ===== verification/Asm.v ===== *)
(** * The assembly code of the kernel

    [src/vectors.pl], [src/trapasm.S], [src/swtch.S], [src/usys.S] and the code of
    [src/initcode.S]: sequences of instructions for a small model of the processor,
    with the way a trap goes through the table of [Gates].  Memory is a map from
    addresses to the words of 32 bits at them; the code uses aligned words only. *)

From S2P Require Import Prelude Gates ProcData Proc.

Module Asm.

Abbreviation KCODE := (Z.shiftl Gates.SEG_KCODE 3).
Abbreviation KDATA := (Z.shiftl Gates.SEG_KDATA 3).

(** ** The processor *)

Inductive reg : Type := EAX | ECX | EDX | EBX | ESP | EBP | ESI | EDI.
Inductive seg : Type := GS | FS | ES | DS.

Record regs : Type := Regs {
  r_eax : Z;
  r_ecx : Z;
  r_edx : Z;
  r_ebx : Z;
  r_esp : Z;
  r_ebp : Z;
  r_esi : Z;
  r_edi : Z;
  r_gs : Z;
  r_fs : Z;
  r_es : Z;
  r_ds : Z;
  r_eip : Z;
  r_cs : Z;
  r_eflags : Z;
  r_ss : Z;
}.

Definition get_reg (r : reg) (x : regs) : Z :=
  match r with
  | EAX => r_eax x | ECX => r_ecx x | EDX => r_edx x | EBX => r_ebx x
  | ESP => r_esp x | EBP => r_ebp x | ESI => r_esi x | EDI => r_edi x
  end.

Definition set_reg (r : reg) (v : Z) (x : regs) : regs :=
  let pick q := match r, q with
    | EAX, EAX | ECX, ECX | EDX, EDX | EBX, EBX | ESP, ESP | EBP, EBP | ESI, ESI | EDI, EDI => v
    | _, q => get_reg q x end in
  Regs (pick EAX) (pick ECX) (pick EDX) (pick EBX) (pick ESP) (pick EBP) (pick ESI) (pick EDI)
    (r_gs x) (r_fs x) (r_es x) (r_ds x) (r_eip x) (r_cs x) (r_eflags x) (r_ss x).

Definition get_seg (s : seg) (x : regs) : Z :=
  match s with GS => r_gs x | FS => r_fs x | ES => r_es x | DS => r_ds x end.

Definition set_seg (s : seg) (v : Z) (x : regs) : regs :=
  let pick q := match s, q with GS, GS | FS, FS | ES, ES | DS, DS => v | _, q => get_seg q x end in
  Regs (r_eax x) (r_ecx x) (r_edx x) (r_ebx x) (r_esp x) (r_ebp x) (r_esi x) (r_edi x)
    (pick GS) (pick FS) (pick ES) (pick DS) (r_eip x) (r_cs x) (r_eflags x) (r_ss x).

Definition set_eip (v : Z) (x : regs) : regs :=
  Regs (r_eax x) (r_ecx x) (r_edx x) (r_ebx x) (r_esp x) (r_ebp x) (r_esi x) (r_edi x)
    (r_gs x) (r_fs x) (r_es x) (r_ds x) v (r_cs x) (r_eflags x) (r_ss x).
Definition set_cs (v : Z) (x : regs) : regs :=
  Regs (r_eax x) (r_ecx x) (r_edx x) (r_ebx x) (r_esp x) (r_ebp x) (r_esi x) (r_edi x)
    (r_gs x) (r_fs x) (r_es x) (r_ds x) (r_eip x) v (r_eflags x) (r_ss x).
Definition set_eflags (v : Z) (x : regs) : regs :=
  Regs (r_eax x) (r_ecx x) (r_edx x) (r_ebx x) (r_esp x) (r_ebp x) (r_esi x) (r_edi x)
    (r_gs x) (r_fs x) (r_es x) (r_ds x) (r_eip x) (r_cs x) v (r_ss x).
Definition set_ss (v : Z) (x : regs) : regs :=
  Regs (r_eax x) (r_ecx x) (r_edx x) (r_ebx x) (r_esp x) (r_ebp x) (r_esi x) (r_edi x)
    (r_gs x) (r_fs x) (r_es x) (r_ds x) (r_eip x) (r_cs x) (r_eflags x) v.

Record mst : Type := Mst { cpu : regs; word : Z → Z }.

Definition on_cpu (f : regs → regs) (m : mst) : mst := Mst (f (cpu m)) (word m).

(** The privilege level. *)
Definition cpl (x : regs) : Z := Z.land (r_cs x) 3.

Definition push (v : Z) (m : mst) : mst :=
  let p := u32 (r_esp (cpu m) - 4) in
  Mst (set_reg ESP p (cpu m)) (<[p := v]> (word m)).

Definition pop (k : Z → regs → regs) (m : mst) : mst :=
  let p := r_esp (cpu m) in
  Mst (k (word m p) (set_reg ESP (u32 (p + 4)) (cpu m))) (word m).

(** The instructions that the code uses, with the operands in the order of the
    assembler. *)
Inductive instr : Type :=
| PushlR (r : reg)
| PushlS (s : seg)
| PushlI (v : Z)
| Pushal
| Popal
| PoplR (r : reg)
| PoplS (s : seg)
| MovlLoad (disp : Z) (base dst : reg)
| MovlStore (src base : reg)
| MovlR (src dst : reg)
| MovlI (v : Z) (dst : reg)
| MovwI (v : Z) (dst : reg)
| MovwS (src : reg) (dst : seg)
| AddlI (v : Z) (dst : reg)
| Ret
| Iret.

Definition lo16 (v : Z) : Z := v mod 2 ^ 16.

(** [iret] pops the stack pointer and [ss] only when it returns to user mode. *)
Definition iret (m : mst) : mst :=
  let old := cpl (cpu m) in
  let m := pop set_eip m in
  let m := pop (λ v, set_cs (lo16 v)) m in
  let m := pop set_eflags m in
  if bool_decide (old < cpl (cpu m)) then
    let m' := pop (λ v x, x) m in
    on_cpu (set_reg ESP (word m (r_esp (cpu m)))) (pop (λ v, set_ss (lo16 v)) m')
  else m.

Definition exec1 (i : instr) (m : mst) : mst :=
  match i with
  | PushlR r => push (get_reg r (cpu m)) m
  | PushlS s => push (get_seg s (cpu m)) m
  | PushlI v => push (u32 v) m
  | Pushal =>
      let x := cpu m in
      push (r_edi x) (push (r_esi x) (push (r_ebp x) (push (r_esp x) (push (r_ebx x) (push (r_edx x) (push (r_ecx x)
        (push (r_eax x) m)))))))
  | Popal =>
      pop (set_reg EAX) (pop (set_reg ECX) (pop (set_reg EDX) (pop (set_reg EBX) (pop (λ _ x, x) (pop (set_reg EBP) (pop (set_reg ESI)
        (pop (set_reg EDI) m)))))))
  | PoplR r => pop (set_reg r) m
  | PoplS s => pop (λ v, set_seg s (lo16 v)) m
  | MovlLoad disp base dst => on_cpu (set_reg dst (word m (u32 (get_reg base (cpu m) + disp)))) m
  | MovlStore src base => Mst (cpu m) (<[get_reg base (cpu m) := get_reg src (cpu m)]> (word m))
  | MovlR src dst => on_cpu (set_reg dst (get_reg src (cpu m))) m
  | MovlI v dst => on_cpu (set_reg dst (u32 v)) m
  | MovwI v dst => on_cpu (λ x, set_reg dst (Z.ldiff (get_reg dst x) 0xffff + v) x) m
  | MovwS src dst => on_cpu (λ x, set_seg dst (lo16 (get_reg src x)) x) m
  | AddlI v dst => on_cpu (λ x, set_reg dst (u32 (get_reg dst x + v)) x) m
  | Ret => pop set_eip m
  | Iret => iret m
  end.

Fixpoint run (c : list instr) (m : mst) : mst :=
  match c with
  | [] => m
  | i :: c => run c (exec1 i m)
  end.

(** ** Traps *)

(** The processor takes trap [n] through its gate, with the error code [err] when
    there is one.  [int] instructions ([soft]) need the privilege of the gate; [None]
    stands for a fault instead.  From user mode the stack is that of the task state;
    an interrupt gate disables interrupts. *)
Definition enter (c : Gates.sysregs) (n : Z) (err : option Z) (soft : bool) (m : mst) : option mst :=
  t ← Gates.idtr c;
  g ← t !! Z.to_nat n;
  let x := cpu m in
  if bool_decide (Gates.g_p g = 0) then None else
  if soft && bool_decide (Gates.g_dpl g < cpl x) then None else
  let m1 :=
    if bool_decide (0 < cpl x)
    then push (r_esp x) (push (r_ss x) (on_cpu (λ x, set_ss (Gates.ss0 c) (set_reg ESP (Gates.esp0 c) x)) m))
    else m in
  let m2 := push (r_eip x) (push (r_cs x) (push (r_eflags x) m1)) in
  let m3 := match err with Some e => push e m2 | None => m2 end in
  let fl := if bool_decide (Gates.g_type g = Gates.STS_IG32) then Z.ldiff (r_eflags x) FL_IF else r_eflags x in
  Some (on_cpu (λ x, set_eip (Gates.gate_off g) (set_cs (Gates.g_cs g) (set_eflags fl x))) m3).

(** The exceptions for which the processor pushes an error code: the double fault,
    a bad task state, a segment that is not present, the faults of the stack, of the
    general protection and of a page, and the alignment check. *)
Definition error_code_traps : list Z := [8; 10; 11; 12; 13; 14; 17].
Definition pushes_error (n : Z) : bool := bool_decide (n ∈ error_code_traps).

(** Where an entry point does not push a zero: the condition of [vectors.pl]. *)
Definition has_err (n : Z) : bool := bool_decide (n = 8 ∨ (10 ≤ n ∧ n ≤ 14) ∨ n = 17).

(** The code at [vectorN], up to [jmp alltraps]. *)
Definition vector (n : Z) : list instr := (if has_err n then [] else [PushlI 0]) ++ [PushlI n].

(** [alltraps] up to [call trap] ... *)
Definition alltraps : list instr :=
  [PushlS DS; PushlS ES; PushlS FS; PushlS GS; Pushal; MovwI KDATA EAX; MovwS EAX DS; MovwS EAX ES; PushlR ESP].
(** ... and after it, before [trapret]. *)
Definition alltraps_end : list instr := [AddlI 4 ESP].

Definition trapret : list instr := [Popal; PoplS GS; PoplS FS; PoplS ES; PoplS DS; AddlI 8 ESP; Iret].

(** ** Switching stacks *)

Definition swtch : list instr :=
  [MovlLoad 4 ESP EAX; MovlLoad 8 ESP EDX; PushlR EBP; PushlR EBX; PushlR ESI; PushlR EDI;
   MovlStore ESP EAX; MovlR EDX ESP; PoplR EDI; PoplR ESI; PoplR EBX; PoplR EBP; Ret].

(** The kernel stack [ks] of a new thread: the words that [allocthread] writes below
    the room for the trap frame. *)
Definition prepare_stack (ks forkret trapret : Z) (w : Z → Z) : Z → Z :=
  let tf := ks + KSTACKSIZE - sizeof_tf in
  let w := <[tf - 4 := trapret]> w in
  let context := tf - 4 - sizeof_context in
  let w := <[context + 16 := 0]> (<[context + 12 := 0]> (<[context + 8 := 0]> (<[context + 4 := 0]> (<[context := 0]> w)))) in
  <[context + 16 := forkret]> w.

(** ** System calls *)

(** [SYSCALL(name)] up to its [int]; then it returns. *)
Definition SYSCALL (n : Z) : list instr := [MovlI n EAX].
Definition SYSCALL_end : list instr := [Ret].

(** The calls of [usys.S] with their numbers. *)
Definition usys : list (string * Z) :=
  [("fork", 1); ("exit", 2); ("wait", 3); ("pipe", 4); ("read", 5); ("write", 16); ("close", 21); ("kill", 6); ("exec", 7);
   ("open", 15); ("mknod", 17); ("unlink", 18); ("fstat", 8); ("link", 19); ("mkdir", 20); ("chdir", 9); ("dup", 10);
   ("getpid", 11); ("sbrk", 12); ("sleep", 13); ("uptime", 14); ("kthread_create", 22); ("kthread_id", 23);
   ("kthread_exit", 24); ("kthread_join", 25); ("kthread_mutex_unlock", 29); ("kthread_mutex_lock", 28);
   ("kthread_mutex_dealloc", 27); ("kthread_mutex_alloc", 26)].

(** The first user program, up to its [int]; [argv] and [init] are addresses. *)
Definition initcode (argv init : Z) : list instr := [PushlI argv; PushlI init; PushlI 0; MovlI 7 EAX].

End Asm.
