(* ===== verification/AsmThm.v ===== *)
(** * Traps, context switches and system calls on the processor

    What [struct trapframe] and [struct context] promise: a trap saves every
    register in the frame that [trap] is given, the return from it loads them from
    there, and [swtch] does the same for a thread in the kernel. *)

From S2P Require Import Prelude Spinlock Gates ProcData Proc Asm.

Module AsmThm.
Import Asm.

(** ** Stacks *)

(** From the address [K] down the words [l] have been pushed, the last one first;
    the rest of memory is as in [w0].  [x] has the registers but for [esp]. *)
Definition pushed (K : Z) (w0 : Z → Z) (l : list Z) (x : regs) (m : mst) : Prop :=
  cpu m = set_reg ESP (K - 4 * Z.of_nat (length l)) x ∧
  (∀ i v, l !! i = Some v → word m (K - 4 * Z.of_nat (length l) + 4 * Z.of_nat i) = v) ∧
  ∀ a, a < K - 4 * Z.of_nat (length l) ∨ K ≤ a → word m a = w0 a.

Lemma push_pushed K w0 l x m v :
  pushed K w0 l x m → 4 * (Z.of_nat (length l) + 1) ≤ K < 2 ^ 32 → pushed K w0 (v :: l) x (push v m).
Proof.
  intros (Hc & Hl & Ho) HK. unfold push. rewrite Hc. change (r_esp (set_reg ESP ?p x)) with p. rewrite u32_small by lia.
  unfold pushed. cbn [length cpu word]. replace (K - 4 * Z.of_nat (length l) - 4) with (K - 4 * Z.of_nat (S (length l))) by lia.
  set (p := K - 4 * Z.of_nat (S (length l))). split_and!; [done| |].
  - intros [|i] u Hi; [injection Hi as <-; rewrite Z.add_0_r; apply fn_lookup_insert|]. cbn in Hi.
    rewrite fn_lookup_insert_ne by lia. rewrite <- (Hl i u Hi). f_equal. unfold p. lia.
  - intros a Ha. rewrite fn_lookup_insert_ne by lia. apply Ho. lia.
Qed.

Lemma on_cpu_pushed K w0 l x m f :
  pushed K w0 l x m → (∀ p, f (set_reg ESP p x) = set_reg ESP p (f x)) → pushed K w0 l (f x) (on_cpu f m).
Proof. intros (Hc & Hl & Ho) Hf. split_and!; [|done|done]. cbn [cpu on_cpu]. by rewrite Hc, Hf. Qed.

(** [x] has the registers of [m] but for [esp], which is [p]. *)
Definition at_sp (p : Z) (x : regs) (w : Z → Z) (m : mst) : Prop := cpu m = set_reg ESP p x ∧ word m = w.

(** [k] does not touch [esp]. *)
Definition keeps_sp (k : Z → regs → regs) : Prop := ∀ v q x, k v (set_reg ESP q x) = set_reg ESP q (k v x).

Lemma pop_at k p x w m : at_sp p x w m → 0 ≤ p < 2 ^ 32 - 4 → keeps_sp k → at_sp (p + 4) (k (w p) x) w (pop k m).
Proof.
  intros [Hc Hw] Hp Hk. unfold pop. rewrite Hc, Hw. change (r_esp (set_reg ESP p x)) with p. rewrite u32_small by lia.
  split; [|done]. cbn [cpu]. change (set_reg ESP (p + 4) (set_reg ESP p x)) with (set_reg ESP (p + 4) x). apply Hk.
Qed.

Definition pops (ks : list (Z → regs → regs)) (m : mst) : mst := foldl (λ m k, pop k m) m ks.

Fixpoint loaded (ks : list (Z → regs → regs)) (w : Z → Z) (p : Z) (x : regs) : regs :=
  match ks with
  | [] => x
  | k :: ks => loaded ks w (p + 4) (k (w p) x)
  end.

Lemma pops_at ks : ∀ p x w m, at_sp p x w m → 0 ≤ p → p + 4 * Z.of_nat (length ks) < 2 ^ 32 → Forall keeps_sp ks →
  at_sp (p + 4 * Z.of_nat (length ks)) (loaded ks w p x) w (pops ks m).
Proof.
  induction ks as [|k ks IH]; intros p x w m Hm H0 Hp Hk; cbn [length loaded] in *; [by rewrite Z.add_0_r|].
  apply Forall_cons in Hk as [Hk Hks]. unfold pops. cbn [foldl]. replace (p + 4 * Z.of_nat (S (length ks))) with (p + 4 + 4 * Z.of_nat (length ks)) by lia.
  apply IH; [apply pop_at; [done|lia|done]|lia|lia|done].
Qed.

(** ** Trap frames *)

(** The frame at [p]. *)
Definition frame_of (w : Z → Z) (p : Z) : trapframe :=
  Trapframe (w p) (w (p + 4)) (w (p + 8)) (w (p + 12)) (w (p + 16)) (w (p + 20)) (w (p + 24)) (w (p + 28))
    (lo16 (w (p + 32))) (lo16 (w (p + 36))) (lo16 (w (p + 40))) (lo16 (w (p + 44))) (w (p + 48)) (w (p + 52)) (w (p + 56))
    (lo16 (w (p + 60))) (w (p + 64)) (w (p + 68)) (lo16 (w (p + 72))).

(** The registers in a frame of user mode, and in one of the kernel, which has no
    [esp] and no [ss]. *)
Definition user_regs (f : trapframe) : regs :=
  Regs (eax f) (ecx f) (edx f) (ebx f) (esp f) (ebp f) (esi f) (edi f) (gs f) (fs f) (es f) (ds f) (eip f) (cs f) (eflags f) (ss f).
Definition kernel_regs (f : trapframe) (sp kss : Z) : regs :=
  Regs (eax f) (ecx f) (edx f) (ebx f) sp (ebp f) (esi f) (edi f) (gs f) (fs f) (es f) (ds f) (eip f) (cs f) (eflags f) kss.

(** From the return of [trap] to the instruction that was interrupted. *)
Definition leave : list instr := alltraps_end ++ trapret.

(** The pops of [trapret] up to [iret], with the stack pointer at the frame. *)
Definition trapret_pops : list (Z → regs → regs) :=
  [set_reg EDI; set_reg ESI; set_reg EBP; λ _ x, x; set_reg EBX; set_reg EDX; set_reg ECX; set_reg EAX;
   λ v, set_seg GS (lo16 v); λ v, set_seg FS (lo16 v); λ v, set_seg ES (lo16 v); λ v, set_seg DS (lo16 v)].

Lemma trapret_at p x w m : at_sp p x w m → 0 ≤ p < 2 ^ 32 - 76 →
  at_sp (p + 56) (loaded trapret_pops w p x) w (run [Popal; PoplS GS; PoplS FS; PoplS ES; PoplS DS; AddlI 8 ESP] m).
Proof.
  intros H Hp. pose proof (pops_at trapret_pops p x w m H) as [Hc Hw]; [lia|cbn; lia|repeat constructor|].
  change (run _ m) with (on_cpu (λ x, set_reg ESP (u32 (r_esp x + 8)) x) (pops trapret_pops m)).
  revert Hc Hw. generalize (pops trapret_pops m), (loaded trapret_pops w p x). intros m' y Hc Hw. split; [|exact Hw].
  cbn [cpu on_cpu]. rewrite Hc. cbn [length trapret_pops]. change (r_esp (set_reg ESP ?q y)) with q.
  rewrite u32_small by lia. by replace (p + 4 * Z.of_nat 12 + 8) with (p + 56) by lia.
Qed.

Definition iret_pops : list (Z → regs → regs) := [set_eip; λ v, set_cs (lo16 v); set_eflags].

Lemma iret_at p x w m : at_sp p x w m → 0 ≤ p < 2 ^ 32 - 20 →
  iret m = Mst (if bool_decide (cpl x < Z.land (lo16 (w (p + 4))) 3)
    then set_reg ESP (w (p + 12)) (set_ss (lo16 (w (p + 16))) (loaded iret_pops w p x))
    else set_reg ESP (p + 12) (loaded iret_pops w p x)) w.
Proof.
  intros H Hp. assert (Hcpl : cpl (cpu m) = cpl x) by (destruct H as [-> _]; reflexivity).
  pose proof (pops_at iret_pops p x w m H ltac:(lia) ltac:(cbn; lia) ltac:(repeat constructor)) as H3.
  change (p + 4 * Z.of_nat (length iret_pops)) with (p + 12) in H3.
  assert (Hl : cpl (loaded iret_pops w p x) = Z.land (lo16 (w (p + 4))) 3) by reflexivity.
  unfold iret. change (pop set_eflags _) with (pops iret_pops m). rewrite Hcpl. revert H3 Hl.
  generalize (pops iret_pops m), (loaded iret_pops w p x). clear m H Hcpl. intros m y H Hl.
  assert (Hcpl : cpl (cpu m) = Z.land (lo16 (w (p + 4))) 3) by (rewrite <- Hl; destruct H as [-> _]; reflexivity).
  rewrite Hcpl. pose proof H as [Hc Hw]. case_bool_decide; [|destruct m; cbn in *; by subst].
  pose proof (pop_at (λ v x, x) _ _ _ _ H ltac:(lia) ltac:(done)) as H4. replace (p + 12 + 4) with (p + 16) in H4 by lia.
  pose proof (pop_at (λ v, set_ss (lo16 v)) _ _ _ _ H4 ltac:(lia) ltac:(done)) as H5. destruct H5 as [Hc5 Hw5].
  unfold on_cpu. rewrite Hc5, Hw5, Hc, Hw. reflexivity.
Qed.

(** [trapret] with the stack pointer at the frame: back to user mode, or to the
    kernel. *)
Lemma trapret_user tf m : r_esp (cpu m) = tf → 0 ≤ tf < 2 ^ 32 - 76 → cpl (cpu m) = 0 → Z.land (cs (frame_of (word m) tf)) 3 = 3 →
  run trapret m = Mst (user_regs (frame_of (word m) tf)) (word m).
Proof.
  intros Hsp Htf Hcpl Hcs. assert (H0 : at_sp tf (cpu m) (word m) m) by (split; [rewrite <- Hsp; by destruct (cpu m)|reflexivity]).
  pose proof (trapret_at _ _ _ _ H0 ltac:(lia)) as H1.
  change (run trapret m) with (iret (run [Popal; PoplS GS; PoplS FS; PoplS ES; PoplS DS; AddlI 8 ESP] m)).
  rewrite (iret_at _ _ _ _ H1) by lia. change (cpl (loaded trapret_pops (word m) tf (cpu m))) with (cpl (cpu m)).
  unfold frame_of in Hcs. cbn [cs] in Hcs. replace (tf + 56 + 4) with (tf + 60) by lia. rewrite Hcpl, Hcs, bool_decide_eq_true_2 by lia.
  f_equal. unfold user_regs, frame_of. cbn -[Z.add lo16]. rewrite <- !Z.add_assoc. reflexivity.
Qed.

Lemma trapret_kernel tf m : r_esp (cpu m) = tf → 0 ≤ tf < 2 ^ 32 - 76 → cpl (cpu m) = 0 → Z.land (cs (frame_of (word m) tf)) 3 = 0 →
  run trapret m = Mst (kernel_regs (frame_of (word m) tf) (tf + 68) (r_ss (cpu m))) (word m).
Proof.
  intros Hsp Htf Hcpl Hcs. assert (H0 : at_sp tf (cpu m) (word m) m) by (split; [rewrite <- Hsp; by destruct (cpu m)|reflexivity]).
  pose proof (trapret_at _ _ _ _ H0 ltac:(lia)) as H1.
  change (run trapret m) with (iret (run [Popal; PoplS GS; PoplS FS; PoplS ES; PoplS DS; AddlI 8 ESP] m)).
  rewrite (iret_at _ _ _ _ H1) by lia. change (cpl (loaded trapret_pops (word m) tf (cpu m))) with (cpl (cpu m)).
  unfold frame_of in Hcs. cbn [cs] in Hcs. replace (tf + 56 + 4) with (tf + 60) by lia. rewrite Hcpl, Hcs, bool_decide_eq_false_2 by lia.
  f_equal. unfold kernel_regs, frame_of. cbn -[Z.add lo16]. rewrite <- !Z.add_assoc. reflexivity.
Qed.

Lemma run_app a b m : run (a ++ b) m = run b (run a m).
Proof. revert m. induction a as [|i a IH]; intros m; [done|apply IH]. Qed.

(** The return from [trap], with its argument still on the stack. *)
Lemma leave_eq tf m : r_esp (cpu m) = tf - 4 → 0 ≤ tf < 2 ^ 32 → run leave m = run trapret (on_cpu (set_reg ESP tf) m).
Proof.
  intros Hsp Htf. unfold leave. rewrite run_app. f_equal. unfold alltraps_end. cbn [run exec1]. unfold on_cpu. cbn [get_reg].
  by rewrite Hsp, Z.sub_add, u32_small by lia.
Qed.

(** ** Entering the kernel *)

Lemma pushl_pushed K w0 l x m v :
  pushed K w0 l x m → 4 * (Z.of_nat (length l) + 1) ≤ K < 2 ^ 32 → 0 ≤ v < 2 ^ 32 → pushed K w0 (v :: l) x (exec1 (PushlI v) m).
Proof. intros H HK Hv. cbn [exec1]. rewrite u32_small by done. by apply push_pushed. Qed.

Lemma pushs_pushed K w0 l x m s :
  pushed K w0 l x m → 4 * (Z.of_nat (length l) + 1) ≤ K < 2 ^ 32 → pushed K w0 (get_seg s x :: l) x (exec1 (PushlS s) m).
Proof.
  intros H HK. cbn [exec1]. replace (get_seg s (cpu m)) with (get_seg s x) by (destruct H as [-> _]; by destruct s). by apply push_pushed.
Qed.

(** The registers as [pushal] leaves them, the last one first. *)
Definition pushal_words (x : regs) (sp : Z) : list Z := [r_edi x; r_esi x; r_ebp x; sp; r_ebx x; r_edx x; r_ecx x; r_eax x].

Lemma pushal_pushed K w0 l x m :
  pushed K w0 l x m → 4 * (Z.of_nat (length l) + 8) ≤ K < 2 ^ 32 →
  pushed K w0 (pushal_words x (K - 4 * Z.of_nat (length l)) ++ l) x (exec1 Pushal m).
Proof.
  intros H HK. cbn [exec1]. pose proof H as [-> _]. cbn [pushal_words app].
  repeat (apply push_pushed; [|cbn [length]; lia]). exact H.
Qed.

(** [vectors.pl] leaves the place to the processor exactly where that fills it. *)
Lemma has_err_pushes n : has_err n = pushes_error n.
Proof.
  unfold has_err, pushes_error, error_code_traps. apply bool_decide_ext. rewrite !elem_of_cons, elem_of_nil. lia.
Qed.

Lemma vector_pushed K w0 hw x m n e :
  0 ≤ n < 256 → pushed K w0 (if pushes_error n then e :: hw else hw) x m → 4 * (Z.of_nat (length hw) + 2) ≤ K < 2 ^ 32 →
  pushed K w0 (n :: (if pushes_error n then e else 0) :: hw) x (run (vector n) m).
Proof.
  intros Hn Hm HK. unfold vector. rewrite has_err_pushes. destruct (pushes_error n); cbn [app run].
  - apply pushl_pushed; [done|cbn [length]; lia|lia].
  - apply pushl_pushed; [apply pushl_pushed; [done|lia|lia]|cbn [length]; lia|lia].
Qed.

Lemma save_pushed K w0 l x m :
  pushed K w0 l x m → 4 * (Z.of_nat (length l) + 12) ≤ K < 2 ^ 32 →
  pushed K w0 (pushal_words x (K - 4 * (Z.of_nat (length l) + 4)) ++ [r_gs x; r_fs x; r_es x; r_ds x] ++ l) x
    (run [PushlS DS; PushlS ES; PushlS FS; PushlS GS; Pushal] m).
Proof.
  intros Hm HK. apply (pushs_pushed _ _ _ _ _ DS) in Hm; [|lia]. apply (pushs_pushed _ _ _ _ _ ES) in Hm; [|cbn [length]; lia].
  apply (pushs_pushed _ _ _ _ _ FS) in Hm; [|cbn [length]; lia]. apply (pushs_pushed _ _ _ _ _ GS) in Hm; [|cbn [length]; lia].
  apply pushal_pushed in Hm; [|cbn [length]; lia]. cbn [length] in Hm.
  replace (K - 4 * Z.of_nat (S (S (S (S (length l)))))) with (K - 4 * (Z.of_nat (length l) + 4)) in Hm by lia. exact Hm.
Qed.

Lemma segments_pushed K w0 l x m :
  pushed K w0 l x m →
  ∃ a, pushed K w0 l (set_seg ES KDATA (set_seg DS KDATA (set_reg EAX a x))) (run [MovwI KDATA EAX; MovwS EAX DS; MovwS EAX ES] m).
Proof.
  intros (Hc & Hl & Ho). set (a := Z.ldiff (r_eax x) 0xffff + KDATA). exists a.
  assert (Ha : lo16 a = KDATA).
  { unfold a, lo16. change 0xffff with (Z.ones 16). rewrite Z.ldiff_ones_r, Z.shiftl_mul_pow2 by lia.
    rewrite Z.add_comm, Z.mod_add by lia. reflexivity. }
  split_and!; [|exact Hl|exact Ho]. cbn [run exec1 cpu on_cpu get_reg]. rewrite Hc.
  transitivity (set_seg ES (lo16 a) (set_seg DS (lo16 a) (set_reg EAX a (set_reg ESP (K - 4 * Z.of_nat (length l)) x)))); [reflexivity|].
  rewrite Ha. reflexivity.
Qed.

(** The words of a frame below those that the processor pushed. *)
Definition saved (x : regs) (n e sp : Z) : list Z := pushal_words x sp ++ [r_gs x; r_fs x; r_es x; r_ds x; n; e].

Lemma stub_pushed K w0 hw x m n (e : Z) (tf := K - 4 * (Z.of_nat (length hw) + 14)) :
  0 ≤ n < 256 → pushed K w0 (if pushes_error n then e :: hw else hw) x m → 4 * (Z.of_nat (length hw) + 16) ≤ K < 2 ^ 32 →
  ∃ a, pushed K w0 (tf :: saved x n (if pushes_error n then e else 0) (tf + 32) ++ hw)
    (set_seg ES KDATA (set_seg DS KDATA (set_reg EAX a x))) (run (vector n ++ alltraps) m).
Proof.
  intros Hn Hm HK. apply vector_pushed in Hm; [|done|lia]. apply save_pushed in Hm; [|cbn [length]; lia].
  apply segments_pushed in Hm as [a Hm]. exists a. cbn [length] in Hm.
  replace (K - 4 * (Z.of_nat (S (S (length hw))) + 4)) with (tf + 32) in Hm by (unfold tf; lia).
  rewrite run_app. change alltraps with ([PushlS DS; PushlS ES; PushlS FS; PushlS GS; Pushal] ++ [MovwI KDATA EAX; MovwS EAX DS; MovwS EAX ES] ++ [PushlR ESP]).
  rewrite !run_app. revert Hm. generalize (run [MovwI KDATA EAX; MovwS EAX DS; MovwS EAX ES] (run [PushlS DS; PushlS ES; PushlS FS; PushlS GS; Pushal] (run (vector n) m))).
  clear m. intros m Hm. change (run [PushlR ESP] m) with (push (r_esp (cpu m)) m).
  replace (r_esp (cpu m)) with tf; [apply push_pushed; [exact Hm|unfold saved; rewrite !length_app; cbn [length pushal_words]; lia]|].
  destruct Hm as [-> _]. cbn [r_esp set_reg]. rewrite !length_app. cbn [length pushal_words]. unfold tf. lia.
Qed.

(** What the processor pushes above the error code. *)
Definition hw_user (x : regs) : list Z := [r_eip x; r_cs x; r_eflags x; r_esp x; r_ss x].
Definition hw_kernel (x : regs) : list Z := [r_eip x; r_cs x; r_eflags x].

(** The registers at the first instruction of the entry point. *)
Definition entered (eip fl kss : Z) (x : regs) : regs := set_eip eip (set_cs KCODE (set_eflags fl (set_ss kss x))).

(** The selectors have 16 bits. *)
Definition regs_ok (x : regs) : Prop :=
  Forall (λ v, 0 ≤ v < 2 ^ 16) [r_gs x; r_fs x; r_es x; r_ds x; r_cs x; r_ss x].

Definition err_of (n e : Z) : option Z := if pushes_error n then Some e else None.
Definition flags_of (n fl : Z) : Z := if bool_decide (n = Gates.T_SYSCALL) then fl else Z.ldiff fl FL_IF.

Section Traps.

Context (c : Gates.sysregs) (vectors : Z → Z) (idt : list Gates.gatedesc).
Context (Hidt : Gates.idtr c = Some idt) (Hgates : Gates.idt_ok vectors idt).

Lemma enter_user n e soft m :
  0 ≤ n < 256 → (soft = true → n = Gates.T_SYSCALL) → cpl (cpu m) = 3 → 24 ≤ Gates.esp0 c < 2 ^ 32 →
  ∃ m1, enter c n (err_of n e) soft m = Some m1 ∧
    pushed (Gates.esp0 c) (word m) (if pushes_error n then e :: hw_user (cpu m) else hw_user (cpu m))
      (entered (vectors n) (flags_of n (r_eflags (cpu m))) (Gates.ss0 c) (cpu m)) m1.
Proof using Hidt Hgates.
  intros Hn Hsoft Hcpl HK. destruct (Hgates n Hn) as (g & Hg & Hoff & Hcs & Hp & _ & Hty & Hdpl).
  unfold enter. rewrite Hidt. cbn [mbind option_bind]. rewrite Hg. cbn [mbind option_bind]. rewrite Hp, Hcpl, Hty, Hdpl, Hoff, Hcs.
  rewrite (bool_decide_eq_false_2 (1 = 0)) by done. rewrite (bool_decide_eq_true_2 (0 < 3)) by lia.
  assert (Hb : soft && bool_decide ((if bool_decide (n = Gates.T_SYSCALL) then Gates.DPL_USER else 0) < 3) = false).
  { destruct soft; [|done]. rewrite (Hsoft eq_refl). reflexivity. }
  rewrite Hb. eexists. split; [reflexivity|]. set (K := Gates.esp0 c) in *. set (x := cpu m).
  assert (H0 : pushed K (word m) [] (set_ss (Gates.ss0 c) x) (on_cpu (λ x, set_ss (Gates.ss0 c) (set_reg ESP K x)) m)).
  { unfold pushed. cbn [length]. rewrite Z.mul_0_r, Z.sub_0_r. split_and!; [reflexivity|done|done]. }
  assert (Hfl : (if bool_decide ((if bool_decide (n = Gates.T_SYSCALL) then Gates.STS_TG32 else Gates.STS_IG32) = Gates.STS_IG32)
    then Z.ldiff (r_eflags x) FL_IF else r_eflags x) = flags_of n (r_eflags x)) by (unfold flags_of; by destruct (bool_decide (n = Gates.T_SYSCALL))).
  rewrite Hfl. apply (on_cpu_pushed K _ _ (set_ss (Gates.ss0 c) x) _ (λ y, set_eip (vectors n) (set_cs 8 (set_eflags (flags_of n (r_eflags x)) y))));
    [|reflexivity].
  unfold err_of, hw_user. destruct (pushes_error n); repeat (apply push_pushed; [|cbn [length]; lia]); exact H0.
Qed.

Lemma enter_kernel n e m :
  0 ≤ n < 256 → cpl (cpu m) = 0 → 16 ≤ r_esp (cpu m) < 2 ^ 32 →
  ∃ m1, enter c n (err_of n e) false m = Some m1 ∧
    pushed (r_esp (cpu m)) (word m) (if pushes_error n then e :: hw_kernel (cpu m) else hw_kernel (cpu m))
      (entered (vectors n) (flags_of n (r_eflags (cpu m))) (r_ss (cpu m)) (cpu m)) m1.
Proof using Hidt Hgates.
  intros Hn Hcpl HK. destruct (Hgates n Hn) as (g & Hg & Hoff & Hcs & Hp & _ & Hty & Hdpl).
  unfold enter. rewrite Hidt. cbn [mbind option_bind]. rewrite Hg. cbn [mbind option_bind]. rewrite Hp, Hcpl, Hty, Hoff, Hcs.
  rewrite (bool_decide_eq_false_2 (1 = 0)) by done. rewrite (bool_decide_eq_false_2 (0 < 0)) by lia. cbn [andb].
  eexists. split; [reflexivity|]. set (x := cpu m) in *. set (K := r_esp x) in *.
  assert (H0 : pushed K (word m) [] (set_ss (r_ss x) x) m).
  { unfold pushed. cbn [length]. rewrite Z.mul_0_r, Z.sub_0_r. split_and!; [unfold K, x; by destruct (cpu m)|done|done]. }
  assert (Hfl : (if bool_decide ((if bool_decide (n = Gates.T_SYSCALL) then Gates.STS_TG32 else Gates.STS_IG32) = Gates.STS_IG32)
    then Z.ldiff (r_eflags x) FL_IF else r_eflags x) = flags_of n (r_eflags x)) by (unfold flags_of; by destruct (bool_decide (n = Gates.T_SYSCALL))).
  rewrite Hfl. apply (on_cpu_pushed K _ _ (set_ss (r_ss x) x) _ (λ y, set_eip (vectors n) (set_cs 8 (set_eflags (flags_of n (r_eflags x)) y))));
    [|reflexivity].
  unfold err_of, hw_kernel. destruct (pushes_error n); repeat (apply push_pushed; [|cbn [length]; lia]); exact H0.
Qed.

(** Other traps cannot be asked for in user mode. *)
Lemma int_needs_gate n m : 0 ≤ n < 256 → n ≠ Gates.T_SYSCALL → cpl (cpu m) = 3 → enter c n None true m = None.
Proof using Hidt Hgates.
  intros Hn Hne Hcpl. destruct (Hgates n Hn) as (g & Hg & _ & _ & Hp & _ & _ & Hdpl).
  unfold enter. rewrite Hidt. cbn [mbind option_bind]. rewrite Hg. cbn [mbind option_bind]. rewrite Hp, Hcpl, Hdpl.
  by rewrite (bool_decide_eq_false_2 (n = Gates.T_SYSCALL)).
Qed.

End Traps.

(** The frame that the entry code leaves on the stack, with [l] above what the
    processor always pushes. *)
Lemma saved_frame w0 K l x y m n e sp (hw := [r_eip x; r_cs x; r_eflags x] ++ l) (tf := K - 4 * (Z.of_nat (length hw) + 14)) :
  regs_ok x → pushed K w0 (tf :: saved x n e sp ++ hw) y m →
  r_esp (cpu m) = tf - 4 ∧ word m (tf - 4) = tf ∧ trapno (frame_of (word m) tf) = n ∧ err (frame_of (word m) tf) = e ∧
  (∀ q s, kernel_regs (frame_of (word m) tf) q s = set_reg ESP q (set_ss s x)) ∧
  (∀ a b, l = [a; b] → esp (frame_of (word m) tf) = a ∧ ss (frame_of (word m) tf) = lo16 b).
Proof.
  intros Hok (Hc & Hl & _). set (p := K - _) in Hc, Hl.
  assert (Hp : p = tf - 4) by (unfold p, tf, saved, hw; cbn [length]; rewrite !length_app; cbn [length pushal_words]; lia).
  assert (Hw : ∀ i v, (saved x n e sp ++ hw) !! i = Some v → word m (tf + 4 * Z.of_nat i) = v).
  { intros i v Hi. rewrite <- (Hl (S i) v Hi), Hp. f_equal. lia. }
  assert (Hsp : r_esp (cpu m) = tf - 4) by (rewrite Hc, Hp; reflexivity).
  pose proof (Hl 0%nat tf eq_refl) as Htop. rewrite Hp, Z.mul_0_r, Z.add_0_r in Htop.
  split; [exact Hsp|]. split; [exact Htop|]. clear Hl Hc Hsp Htop. clearbody tf.
  assert (Hseg : Forall (λ v, lo16 v = v) [r_gs x; r_fs x; r_es x; r_ds x; r_cs x; r_ss x]).
  { eapply Forall_impl; [exact Hok|]. intros v Hv. apply Z.mod_small, Hv. }
  rewrite !Forall_cons in Hseg. destruct Hseg as (G1 & G2 & G3 & G4 & G5 & _).
  change (trapno (frame_of (word m) tf)) with (word m (tf + 4 * Z.of_nat 12)).
  change (err (frame_of (word m) tf)) with (word m (tf + 4 * Z.of_nat 13)).
  split; [by apply Hw|]. split; [by apply Hw|]. split.
  - intros q s. unfold kernel_regs, frame_of. cbn [eax ecx edx ebx ebp esi edi gs fs es ds eip cs eflags].
    pose proof (Hw 0%nat _ eq_refl) as E0. rewrite Z.mul_0_r, Z.add_0_r in E0.
    rewrite E0,
      (Hw 1%nat _ eq_refl : word m (tf + 4) = r_esi x),
      (Hw 2%nat _ eq_refl : word m (tf + 8) = r_ebp x),
      (Hw 4%nat _ eq_refl : word m (tf + 16) = r_ebx x),
      (Hw 5%nat _ eq_refl : word m (tf + 20) = r_edx x),
      (Hw 6%nat _ eq_refl : word m (tf + 24) = r_ecx x),
      (Hw 7%nat _ eq_refl : word m (tf + 28) = r_eax x),
      (Hw 8%nat _ eq_refl : word m (tf + 32) = r_gs x),
      (Hw 9%nat _ eq_refl : word m (tf + 36) = r_fs x),
      (Hw 10%nat _ eq_refl : word m (tf + 40) = r_es x),
      (Hw 11%nat _ eq_refl : word m (tf + 44) = r_ds x),
      (Hw 14%nat _ eq_refl : word m (tf + 56) = r_eip x),
      (Hw 15%nat _ eq_refl : word m (tf + 60) = r_cs x),
      (Hw 16%nat _ eq_refl : word m (tf + 64) = r_eflags x).
    rewrite G1, G2, G3, G4, G5. reflexivity.
  - intros a b ->. change (esp (frame_of (word m) tf)) with (word m (tf + 4 * Z.of_nat 17)).
    change (ss (frame_of (word m) tf)) with (lo16 (word m (tf + 4 * Z.of_nat 18))). split; [by apply Hw|]. f_equal. by apply Hw.
Qed.

Section Roundtrip.

Context (c : Gates.sysregs) (vectors : Z → Z) (idt : list Gates.gatedesc).
Context (Hidt : Gates.idtr c = Some idt) (Hgates : Gates.idt_ok vectors idt).

(** The state in which [trap] is called, after the trap has been taken in [m1]. *)
Definition in_kernel (n : Z) (m1 : mst) : mst := run (vector n ++ alltraps) m1.

(** The program of [m] is in the kernel in [m2], with its registers in the frame at
    [tf], which is the argument of [trap]. *)
Record trapped (m : mst) (n e tf : Z) (m2 : mst) : Prop := Trapped {
  tr_sp : r_esp (cpu m2) = tf - 4;
  tr_cpl : cpl (cpu m2) = 0;
  tr_arg : word m2 (tf - 4) = tf;
  tr_segs : r_ds (cpu m2) = KDATA ∧ r_es (cpu m2) = KDATA;
  tr_regs : user_regs (frame_of (word m2) tf) = cpu m;
  tr_no : trapno (frame_of (word m2) tf) = n;
  tr_err : err (frame_of (word m2) tf) = default 0 (err_of n e);
  tr_mem : ∀ a, a < tf - 4 ∨ tf + sizeof_tf ≤ a → word m2 a = word m a;
}.

Lemma user_entry n e soft m :
  0 ≤ n < 256 → (soft = true → n = Gates.T_SYSCALL) → cpl (cpu m) = 3 → regs_ok (cpu m) → 84 ≤ Gates.esp0 c < 2 ^ 32 →
  ∃ m1, enter c n (err_of n e) soft m = Some m1 ∧ r_eip (cpu m1) = vectors n ∧ cpl (cpu m1) = 0 ∧
    r_eflags (cpu m1) = flags_of n (r_eflags (cpu m)) ∧ trapped m n e (Gates.esp0 c - sizeof_tf) (in_kernel n m1).
Proof using Hidt Hgates.
  intros Hn Hsoft Hcpl Hok HK. destruct (enter_user c vectors idt Hidt Hgates n e soft m Hn Hsoft Hcpl ltac:(lia)) as (m1 & E & Hm).
  exists m1. split; [exact E|]. pose proof Hm as [Hc1 _]. rewrite Hc1. split; [reflexivity|]. split; [reflexivity|]. split; [reflexivity|].
  apply stub_pushed in Hm; [|done|cbn [length hw_user]; lia]. destruct Hm as [a Hm]. fold (in_kernel n m1) in Hm. set (m2 := in_kernel n m1) in *.
  set (tf := Gates.esp0 c - sizeof_tf). change (Gates.esp0 c - 4 * (Z.of_nat (length (hw_user (cpu m))) + 14)) with tf in Hm. pose proof Hm as (Hc2 & _ & Ho).
  apply (saved_frame _ _ [r_esp (cpu m); r_ss (cpu m)] (cpu m)) in Hm as (Hsp & Htop & Hno & Herr & Hregs & Hus); [|exact Hok].
  change (Gates.esp0 c - 4 * _) with tf in Hsp, Htop, Hno, Herr, Hregs, Hus. destruct (Hus _ _ eq_refl) as [Hesp Hss].
  split; [exact Hsp|rewrite Hc2; reflexivity|exact Htop|rewrite Hc2; split; reflexivity| |exact Hno| |].
  - change (user_regs (frame_of (word m2) tf)) with (kernel_regs (frame_of (word m2) tf) (esp (frame_of (word m2) tf)) (ss (frame_of (word m2) tf))).
    rewrite Hregs, Hesp, Hss. unfold regs_ok in Hok. rewrite !Forall_cons in Hok. destruct Hok as (_ & _ & _ & _ & _ & Hs & _).
    unfold lo16. rewrite Z.mod_small by done. by destruct (cpu m).
  - rewrite Herr. unfold err_of. by destruct (pushes_error n).
  - intros b Hb. apply Ho. cbn [length saved pushal_words hw_user app]. unfold tf, sizeof_tf in Hb. lia.
Qed.

Lemma frame_cpl f x : user_regs f = x → Z.land (cs f) 3 = cpl x.
Proof. by intros <-. Qed.

Lemma user_exit tf m3 :
  r_esp (cpu m3) = tf - 4 → 0 ≤ tf < 2 ^ 32 - 76 → cpl (cpu m3) = 0 → Z.land (cs (frame_of (word m3) tf)) 3 = 3 →
  run leave m3 = Mst (user_regs (frame_of (word m3) tf)) (word m3).
Proof.
  intros H1 Htf H2 H3. rewrite (leave_eq tf) by (done || lia). exact (trapret_user tf (on_cpu (set_reg ESP tf) m3) eq_refl Htf H2 H3).
Qed.

(** C6: a trap [n] from user mode, an interrupt, an exception or a system call, calls
    [trap] on the kernel stack of the thread with the address of a trap frame at its
    top that holds all the registers of the program, the number and the error code;
    nothing else of memory changes.  Whatever [trap] does, if it returns on the same
    stack, the program goes on with the registers in the frame, which are those it
    had if they are left alone. *)
Theorem user_trap_roundtrip n e soft m (tf := Gates.esp0 c - sizeof_tf) :
  0 ≤ n < 256 → (soft = true → n = Gates.T_SYSCALL) → cpl (cpu m) = 3 → regs_ok (cpu m) → 84 ≤ Gates.esp0 c < 2 ^ 32 →
  ∃ m1, enter c n (err_of n e) soft m = Some m1 ∧ r_eip (cpu m1) = vectors n ∧ cpl (cpu m1) = 0 ∧
    r_eflags (cpu m1) = flags_of n (r_eflags (cpu m)) ∧ trapped m n e tf (in_kernel n m1) ∧
    ∀ m3, r_esp (cpu m3) = r_esp (cpu (in_kernel n m1)) → cpl (cpu m3) = 0 → Z.land (cs (frame_of (word m3) tf)) 3 = 3 →
      run leave m3 = Mst (user_regs (frame_of (word m3) tf)) (word m3) ∧
      (frame_of (word m3) tf = frame_of (word (in_kernel n m1)) tf → cpu (run leave m3) = cpu m).
Proof using Hidt Hgates.
  intros Hn Hsoft Hcpl Hok HK. destruct (user_entry n e soft m Hn Hsoft Hcpl Hok HK) as (m1 & E & H1 & H2 & H3 & Ht).
  exists m1. split_and!; [done..|]. intros m3 Hsp H4 H5. rewrite (tr_sp _ _ _ _ _ Ht) in Hsp.
  rewrite (user_exit tf) by (done || unfold tf, sizeof_tf in *; lia). split; [done|]. intros ->. apply (tr_regs _ _ _ _ _ Ht).
Qed.

(** A system call by the code of [usys.S]: [trap] finds the number in [eax] and the
    stack of the caller, where the arguments are, and when the handler has put its
    result in [eax], the stub returns it to the caller, with all other registers as
    they were. *)
Theorem syscall_stub_returns n r m (tf := Gates.esp0 c - sizeof_tf) :
  0 ≤ n < 2 ^ 32 → cpl (cpu m) = 3 → regs_ok (cpu m) → 84 ≤ Gates.esp0 c < 2 ^ 32 → 0 ≤ r_esp (cpu m) < 2 ^ 32 - 4 →
  ∃ m1, enter c Gates.T_SYSCALL None true (run (SYSCALL n) m) = Some m1 ∧
    eax (frame_of (word (in_kernel Gates.T_SYSCALL m1)) tf) = n ∧
    esp (frame_of (word (in_kernel Gates.T_SYSCALL m1)) tf) = r_esp (cpu m) ∧
    ∀ m3, r_esp (cpu m3) = r_esp (cpu (in_kernel Gates.T_SYSCALL m1)) → cpl (cpu m3) = 0 →
      frame_of (word m3) tf = ProcData.set_eax r (frame_of (word (in_kernel Gates.T_SYSCALL m1)) tf) →
      run SYSCALL_end (run leave m3) =
        Mst (set_eip (word m3 (r_esp (cpu m))) (set_reg ESP (r_esp (cpu m) + 4) (set_reg EAX r (cpu m)))) (word m3).
Proof using Hidt Hgates.
  intros Hn Hcpl Hok HK Hesp. set (m0 := run (SYSCALL n) m).
  assert (E0 : cpu m0 = set_reg EAX n (cpu m)) by (cbn; by rewrite u32_small).
  destruct (user_entry Gates.T_SYSCALL 0 true m0) as (m1 & E & _ & _ & _ & Ht);
    [done|done|by rewrite E0|by rewrite E0|done|]. exists m1. fold tf in Ht. destruct Ht as [Hsp _ _ _ Hregs _ _ _]. rewrite E0 in Hregs.
  generalize dependent (in_kernel Gates.T_SYSCALL m1). intros m2 Hsp Hregs. set (F := frame_of (word m2) tf) in *. clearbody F.
  split_and!; [exact E|exact (f_equal r_eax Hregs)|exact (f_equal r_esp Hregs)|]. intros m3 H1 H2 HF.
  assert (Hcs : Z.land (cs F) 3 = 3) by exact (eq_trans (f_equal (λ x, Z.land (r_cs x) 3) Hregs) Hcpl).
  rewrite (user_exit tf); [|by rewrite H1|unfold tf, sizeof_tf in *; lia|done|by rewrite HF]. rewrite HF.
  assert (Hu : user_regs (ProcData.set_eax r F) = set_reg EAX r (cpu m)).
  { change (user_regs (ProcData.set_eax r F)) with (set_reg EAX r (user_regs F)). by rewrite Hregs. }
  rewrite Hu. unfold SYSCALL_end. cbn [run exec1]. unfold pop. cbn [cpu word]. change (r_esp (set_reg EAX r (cpu m))) with (r_esp (cpu m)).
  by rewrite u32_small by lia.
Qed.

(** A trap in the kernel: the frame is below the stack pointer, without [esp] and [ss]. *)
Theorem kernel_trap_roundtrip n e m (tf := r_esp (cpu m) - 68) :
  0 ≤ n < 256 → cpl (cpu m) = 0 → regs_ok (cpu m) → 76 ≤ r_esp (cpu m) < 2 ^ 32 - 64 →
  ∃ m1, enter c n (err_of n e) false m = Some m1 ∧ r_eip (cpu m1) = vectors n ∧
    let m2 := in_kernel n m1 in
    r_esp (cpu m2) = tf - 4 ∧ word m2 (tf - 4) = tf ∧
    kernel_regs (frame_of (word m2) tf) (r_esp (cpu m)) (r_ss (cpu m)) = cpu m ∧ trapno (frame_of (word m2) tf) = n ∧
    (∀ a, a < tf - 4 ∨ r_esp (cpu m) ≤ a → word m2 a = word m a) ∧
    ∀ m3, r_esp (cpu m3) = r_esp (cpu m2) → cpl (cpu m3) = 0 → Z.land (cs (frame_of (word m3) tf)) 3 = 0 →
      run leave m3 = Mst (kernel_regs (frame_of (word m3) tf) (r_esp (cpu m)) (r_ss (cpu m3))) (word m3).
Proof using Hidt Hgates.
  intros Hn Hcpl Hok HK. destruct (enter_kernel c vectors idt Hidt Hgates n e m Hn Hcpl ltac:(lia)) as (m1 & E & Hm).
  exists m1. split; [exact E|]. pose proof Hm as [Hc1 _]. rewrite Hc1. split; [reflexivity|].
  apply stub_pushed in Hm; [|done|cbn [length hw_kernel]; lia]. destruct Hm as [a Hm]. fold (in_kernel n m1) in Hm. set (m2 := in_kernel n m1) in *.
  change (r_esp (cpu m) - 4 * (Z.of_nat (length (hw_kernel (cpu m))) + 14)) with tf in Hm. pose proof Hm as (_ & _ & Ho).
  apply (saved_frame _ _ [] (cpu m)) in Hm as (Hsp & Htop & Hno & _ & Hregs & _); [|exact Hok].
  change (r_esp (cpu m) - 4 * _) with tf in Hsp, Htop, Hno, Hregs. cbn zeta.
  split_and!; [exact Hsp|exact Htop| |exact Hno| |].
  - rewrite Hregs. by destruct (cpu m).
  - intros b Hb. apply Ho. cbn [length saved pushal_words hw_kernel app]. unfold tf in Hb. lia.
  - intros m3 H1 H2 H3. rewrite Hsp in H1. rewrite (leave_eq tf) by (done || unfold tf; lia).
    replace (r_esp (cpu m)) with (tf + 68) by (unfold tf; lia). exact (trapret_kernel tf (on_cpu (set_reg ESP tf) m3) eq_refl ltac:(unfold tf; lia) H2 H3).
Qed.

End Roundtrip.

(** ** Switching stacks *)

(** [struct context] *)
Record context : Type := Context { c_edi : Z; c_esi : Z; c_ebx : Z; c_ebp : Z; c_eip : Z }.

Definition context_of (w : Z → Z) (p : Z) : context := Context (w p) (w (p + 4)) (w (p + 8)) (w (p + 12)) (w (p + 16)).

(** The registers that a function of C keeps, with the address where it returns. *)
Definition context_regs (x : regs) (ret : Z) : context := Context (r_edi x) (r_esi x) (r_ebx x) (r_ebp x) ret.

(** [swtch(old, new)] is called on a stack at [sp]; the call writes the four words
    below [sp] and the word at [old]. *)
Record called (m : mst) (sp old new : Z) : Prop := Called {
  ca_esp : r_esp (cpu m) = sp;
  ca_args : word m (sp + 4) = old ∧ word m (sp + 8) = new;
  ca_room : 16 ≤ sp < 2 ^ 32 - 64;
  ca_new : 0 ≤ new < 2 ^ 32 - 64;
  ca_old : old < sp - 16 ∨ sp + 4 ≤ old;
}.

(** What a call writes. *)
Definition touched (sp old a : Z) : Prop := sp - 16 ≤ a < sp ∨ a = old.

Lemma pushr_pushed K w0 l x m r :
  pushed K w0 l x m → 4 * (Z.of_nat (length l) + 1) ≤ K < 2 ^ 32 → r ≠ ESP → pushed K w0 (get_reg r x :: l) x (exec1 (PushlR r) m).
Proof.
  intros H HK Hr. cbn [exec1]. replace (get_reg r (cpu m)) with (get_reg r x) by (destruct H as [-> _]; by destruct r). by apply push_pushed.
Qed.

Definition swtch_save : list instr := [MovlLoad 4 ESP EAX; MovlLoad 8 ESP EDX; PushlR EBP; PushlR EBX; PushlR ESI; PushlR EDI].
Definition swtch_pops : list (Z → regs → regs) := [set_reg EDI; set_reg ESI; set_reg EBX; set_reg EBP; set_eip].

Lemma swtch_save_pushed m sp old new (x := set_reg EDX new (set_reg EAX old (cpu m))) :
  called m sp old new → pushed sp (word m) [r_edi x; r_esi x; r_ebx x; r_ebp x] x (run swtch_save m).
Proof.
  intros [Hsp [Ho Hn] Hroom Hnew Hold].
  assert (H0 : pushed sp (word m) [] x (run [MovlLoad 4 ESP EAX; MovlLoad 8 ESP EDX] m)).
  { split_and!; [|done|done]. cbn [run exec1 on_cpu cpu word get_reg length]. change (r_esp (set_reg EAX ?v (cpu m))) with (r_esp (cpu m)).
    rewrite Hsp, !u32_small, Ho, Hn, Z.mul_0_r, Z.sub_0_r by lia. unfold x. rewrite <- Hsp. by destruct (cpu m). }
  revert H0. change (run swtch_save m) with (run [PushlR EBP; PushlR EBX; PushlR ESI; PushlR EDI] (run [MovlLoad 4 ESP EAX; MovlLoad 8 ESP EDX] m)).
  generalize (run [MovlLoad 4 ESP EAX; MovlLoad 8 ESP EDX] m). intros m1 H0. cbn [run].
  apply (pushr_pushed _ _ _ _ _ EBP) in H0; [|cbn [length]; lia|done]. apply (pushr_pushed _ _ _ _ _ EBX) in H0; [|cbn [length]; lia|done].
  apply (pushr_pushed _ _ _ _ _ ESI) in H0; [|cbn [length]; lia|done]. apply (pushr_pushed _ _ _ _ _ EDI) in H0; [|cbn [length]; lia|done]. exact H0.
Qed.

Lemma swtch_eq m : run swtch m = pops swtch_pops (run [MovlStore ESP EAX; MovlR EDX ESP] (run swtch_save m)).
Proof. change swtch with (swtch_save ++ [MovlStore ESP EAX; MovlR EDX ESP] ++ [PoplR EDI; PoplR ESI; PoplR EBX; PoplR EBP; Ret]). rewrite !run_app. reflexivity. Qed.

Lemma swtch_ok m m' sp old new :
  run swtch m = m' → called m sp old new → (∀ a, new ≤ a < new + 20 → ¬ touched sp old a) →
  word m' old = sp - 16 ∧ context_of (word m') (sp - 16) = context_regs (cpu m) (word m sp) ∧
  context_regs (cpu m') (r_eip (cpu m')) = context_of (word m) new ∧ r_esp (cpu m') = new + 20 ∧
  cpl (cpu m') = cpl (cpu m) ∧
  ∀ a, ¬ touched sp old a → word m' a = word m a.
Proof.
  intros Hrun Hc Hnt. pose proof (swtch_save_pushed _ _ _ _ Hc) as (Hcpu & Hl & Ho). destruct Hc as [Hsp _ Hroom Hnew Hold]. cbn [length] in Hcpu, Hl, Ho.
  set (x := set_reg EDX new (set_reg EAX old (cpu m))) in *. rewrite swtch_eq in Hrun. revert Hrun Hcpu Hl Ho. generalize (run swtch_save m).
  intros m2 Hrun Hcpu Hl Ho. replace (sp - 4 * Z.of_nat 4) with (sp - 16) in * by lia. set (w := <[old := sp - 16]> (word m2)).
  assert (H4 : at_sp new x w (run [MovlStore ESP EAX; MovlR EDX ESP] m2)).
  { split; cbn [run exec1 on_cpu cpu word get_reg]; rewrite Hcpu; reflexivity. }
  apply (pops_at swtch_pops) in H4; [|lia|cbn; lia|repeat constructor]. rewrite Hrun in H4. destruct H4 as [Hc5 Hw5]. rewrite Hc5, Hw5.
  assert (Hw : ∀ a, ¬ touched sp old a → w a = word m a).
  { intros a Ha. unfold touched in Ha. unfold w. rewrite fn_lookup_insert_ne by lia. apply Ho. lia. }
  assert (Hs : ∀ i v, [r_edi x; r_esi x; r_ebx x; r_ebp x] !! i = Some v → w (sp - 16 + 4 * Z.of_nat i) = v).
  { intros i v Hi. pose proof (lookup_lt_Some _ _ _ Hi) as Hlt. cbn in Hlt. unfold w. rewrite fn_lookup_insert_ne by lia. by apply Hl. }
  split_and!; [apply fn_lookup_insert| | |reflexivity|reflexivity|exact Hw].
  - unfold context_of, context_regs. pose proof (Hs 0%nat _ eq_refl) as E0. rewrite Z.mul_0_r, Z.add_0_r in E0.
    rewrite E0, (Hs 1%nat _ eq_refl : w (sp - 16 + 4) = _), (Hs 2%nat _ eq_refl : w (sp - 16 + 8) = _), (Hs 3%nat _ eq_refl : w (sp - 16 + 12) = _).
    replace (sp - 16 + 16) with sp by lia. rewrite (Hw sp) by (unfold touched; lia). reflexivity.
  - change (Context (w new) (w (new + 4)) (w (new + 4 + 4)) (w (new + 4 + 4 + 4)) (w (new + 4 + 4 + 4 + 4)) = context_of (word m) new).
    unfold context_of. rewrite <- !Z.add_assoc. cbn [Z.add Pos.add]. rewrite !Hw by (apply Hnt; lia). reflexivity.
Qed.

(** C12: a thread that gives up the CPU with [swtch] goes on, when another call of
    [swtch] on some other stack names its saved context, as if its own call had
    returned: at the return address, with its stack and with the registers that a
    function keeps. *)
Theorem swtch_roundtrip m m1 sp old new m2 m3 sp2 old2 :
  run swtch m = m1 → called m sp old new → (∀ a, new ≤ a < new + 20 → ¬ touched sp old a) →
  run swtch m2 = m3 → called m2 sp2 old2 (word m1 old) →
  (∀ a, sp - 16 ≤ a < sp + 4 → word m2 a = word m1 a ∧ ¬ touched sp2 old2 a) →
  r_eip (cpu m3) = word m sp ∧ r_esp (cpu m3) = sp + 4 ∧
  context_regs (cpu m3) (r_eip (cpu m3)) = context_regs (cpu m) (word m sp) ∧
  word m3 old2 = sp2 - 16 ∧ context_of (word m3) (sp2 - 16) = context_regs (cpu m2) (word m2 sp2).
Proof.
  intros R1 H1 Hn1 R2 H2 Hk. destruct (swtch_ok _ _ _ _ _ R1 H1 Hn1) as (Eo & Ec & _). rewrite Eo in H2.
  destruct (swtch_ok _ _ _ _ _ R2 H2) as (Eo2 & Ec2 & Er & Es & _); [intros a Ha; apply Hk; lia|].
  assert (E : context_of (word m2) (sp - 16) = context_regs (cpu m) (word m sp)).
  { rewrite <- Ec. unfold context_of. by rewrite !(fun a Ha => proj1 (Hk a Ha)) by lia. }
  rewrite E in Er. split; [exact (f_equal c_eip Er)|]. split; [rewrite Es; lia|]. by split_and!.
Qed.

(** A new thread, whose stack [allocthread] has prepared: [swtch] to it enters
    [forkret] with [trapret] as its return address, and the return from [forkret]
    ends in user mode with the registers of the trap frame. *)
Theorem new_thread_starts m m1 sp old ks forkret ret w m2 (tf := ks + KSTACKSIZE - sizeof_tf) (ctx := tf - 4 - sizeof_context) :
  0 ≤ ks < 2 ^ 32 - KSTACKSIZE → (∀ a, ks ≤ a < ks + KSTACKSIZE → word m a = prepare_stack ks forkret ret w a) →
  run swtch m = m1 → called m sp old ctx → (∀ a, ctx ≤ a < ctx + 20 → ¬ touched sp old a) →
  r_esp (cpu m2) = r_esp (cpu m1) → word m2 (ctx + 20) = word m (ctx + 20) → cpl (cpu m2) = 0 → Z.land (cs (frame_of (word m2) tf)) 3 = 3 →
  r_eip (cpu m1) = forkret ∧ r_eip (cpu (exec1 Ret m2)) = ret ∧
  run trapret (exec1 Ret m2) = Mst (user_regs (frame_of (word m2) tf)) (word m2).
Proof.
  intros Hks Hw R1 H1 Hn1 Hsp Htr Hc2 Hus. destruct (swtch_ok _ _ _ _ _ R1 H1 Hn1) as (_ & _ & Er & Es & _). destruct H1 as [_ _ _ Hnew _].
  assert (Hfr : word m (ctx + 16) = forkret).
  { rewrite Hw by (unfold ctx, tf, sizeof_tf, sizeof_context, KSTACKSIZE; lia). unfold prepare_stack. fold tf. fold ctx. by rewrite fn_lookup_insert. }
  assert (Hret : word m (ctx + 20) = ret).
  { rewrite Hw by (unfold ctx, tf, sizeof_tf, sizeof_context, KSTACKSIZE; lia). unfold prepare_stack. fold tf. fold ctx. do 6 rewrite fn_lookup_insert_ne by (unfold ctx, sizeof_context; lia).
    replace (ctx + 20) with (tf - 4) by (unfold ctx, sizeof_context; lia). apply fn_lookup_insert. }
  split; [rewrite <- Hfr; exact (f_equal c_eip Er)|]. rewrite Es in Hsp. rewrite Hret in Htr.
  assert (E : exec1 Ret m2 = on_cpu (λ x, set_eip ret (set_reg ESP tf x)) m2).
  { cbn [exec1]. unfold pop, on_cpu. rewrite Hsp, Htr, u32_small by lia. by replace (ctx + 20 + 4) with tf by (unfold ctx, sizeof_context; lia). }
  rewrite E. split; [reflexivity|].
  exact (trapret_user tf (on_cpu (λ x, set_eip ret (set_reg ESP tf x)) m2) eq_refl ltac:(unfold tf, sizeof_tf, KSTACKSIZE in *; lia) Hc2 Hus).
Qed.

(** ** Examples *)

Definition demo_vectors (n : Z) : Z := 0x80105000 + 16 * n.

(** The table after [tvinit]. *)
Definition table_of (r : outcome (list Gates.gatedesc * mach) unit) : list Gates.gatedesc :=
  match r with Ok _ st => st.1 | _ => [] end.

Lemma tvinit_table vectors t m :
  length t = 256%nat → (∀ n, 0 ≤ n < 256 → 0 ≤ vectors n < 2 ^ 32) → Gates.idt_ok vectors (table_of (Gates.tvinit vectors (t, m))).
Proof.
  intros Hl Hv. destruct (proj1 (wpt_Ok _ _ _) (Gates.tvinit_ok vectors t m Hl Hv)) as ([] & st & E & H & _). rewrite E. exact H.
Qed.

Definition demo_table : list Gates.gatedesc := replicate 256 (Gates.Gatedesc 0 0 0 0 0 0 0 0 0).
Definition demo_locks : mach := Mach [] (λ _, Spinlock 0 "lock" None).
Definition demo_idt : list Gates.gatedesc := table_of (Gates.tvinit demo_vectors (demo_table, demo_locks)).

Lemma demo_idt_ok : Gates.idt_ok demo_vectors demo_idt.
Proof. apply tvinit_table; [apply length_replicate|]. intros n Hn. unfold demo_vectors. lia. Qed.

(** A CPU whose thread has its kernel stack at [0x8dffe000], and a program. *)
Definition demo_sys : Gates.sysregs := Gates.Sysregs [] 16 0x8dfff000 0xFFFF None (Some demo_idt) 40 0.
Definition demo_user : mst := Mst (Regs 1 2 3 4 0x2fd0 5 6 7 0 0 35 35 0x120 27 0x202 35) (λ _, 0).

(** A page fault that the kernel repairs. *)
Lemma user_trap_roundtrip_witness :
  ∃ m1, enter demo_sys 14 (Some 6) false demo_user = Some m1 ∧ r_eip (cpu m1) = 0x801050e0 ∧
    err (frame_of (word (in_kernel 14 m1)) 0x8dffefb4) = 6 ∧ cpu (run leave (in_kernel 14 m1)) = cpu demo_user.
Proof.
  destruct (user_trap_roundtrip demo_sys demo_vectors demo_idt eq_refl demo_idt_ok 14 6 false demo_user) as (m1 & E & H1 & H2 & _ & Ht & H).
  - lia.
  - discriminate.
  - reflexivity.
  - unfold regs_ok. cbn. repeat apply Forall_cons_2; [lia..|apply Forall_nil_2].
  - cbn. lia.
  - exists m1. split; [exact E|]. split; [exact H1|]. destruct Ht as [_ Hcpl _ _ Hr _ He _]. split; [exact He|].
    destruct (H (in_kernel 14 m1) eq_refl Hcpl) as [_ Hback]; [|exact (Hback eq_refl)].
    exact (frame_cpl _ _ Hr).
Defined.

(** A thread at stack 1000 switches to the context at 3000, and later comes the
    switch back from stack 3100. *)
Definition demo_thread : mst :=
  Mst (Regs 1 2 3 44 1000 55 66 77 0 0 16 16 0 8 2 16)
    (<[3016 := 88]> (<[3000 := 11]> (<[1008 := 3000]> (<[1004 := 500]> (<[1000 := 123]> (λ _, 0)))))).

Definition demo_other : mst :=
  Mst (Regs 0 0 0 0 3100 0 0 0 0 0 16 16 0 8 2 16) (<[3108 := 984]> (<[3104 := 504]> (<[3100 := 99]> (word (run swtch demo_thread))))).

Lemma swtch_roundtrip_witness :
  r_eip (cpu (run swtch demo_thread)) = 88 ∧ r_eip (cpu (run swtch demo_other)) = 123 ∧ r_esp (cpu (run swtch demo_other)) = 1004 ∧
  context_regs (cpu (run swtch demo_other)) 123 = Context 77 66 44 55 123.
Proof.
  split; [reflexivity|].
  destruct (swtch_roundtrip demo_thread (run swtch demo_thread) 1000 500 3000 demo_other (run swtch demo_other) 3100 504) as (H1 & H2 & H3 & _).
  - reflexivity.
  - split; [reflexivity|split; reflexivity|lia|lia|lia].
  - unfold touched. lia.
  - reflexivity.
  - split; [reflexivity|split; reflexivity|lia|vm_compute; split; [discriminate|reflexivity]|lia].
  - intros a Ha. unfold touched. split; [|lia]. cbn [word demo_other]. rewrite !fn_lookup_insert_ne by lia. reflexivity.
  - split; [exact H1|]. split; [exact H2|]. rewrite H1 in H3. exact H3.
Defined.

End AsmThm.
