(* ===== verification/ProcInv.v ===== *)
(** * Invariants of the process table

    The well-formedness invariant of the process table and of the CPUs, and its
    preservation by every operation of Proc.v.  The invariant is stated on the
    table, the next pid and the part of each CPU that [src/proc.c] uses
    ([cview]); locking operations do not change any of these. *)

From S2P Require Import Prelude Spinlock Kalloc ProcData Proc.

(** ** What locking leaves alone *)

Definition keeps_view {A} (m : M mach A) : Prop := ∀ x, wp m (λ _ y, mview y = mview x) x.

Create HintDb view.

Lemma mview_upd_cpu i f m : (∀ c, cview (f c) = cview c) → mview (upd_cpu i f m) = mview m.
Proof.
  intros Hf. unfold mview, upd_cpu. simpl. apply list_eq. intros j. rewrite !list_lookup_fmap.
  destruct (decide (i = j)) as [<-|Hne]; [|by rewrite lookup_upd_ne].
  rewrite lookup_upd_eq. destruct (cpus m !! i); simpl; [by rewrite Hf|done].
Qed.

Lemma mview_set_lock l k m : mview (set_lock l k m) = mview m.
Proof. done. Qed.

Lemma keeps_ret {A} (a : A) : keeps_view (mret a).
Proof. done. Qed.

Lemma keeps_bind {A B} (m : M mach A) (f : A → M mach B) :
  keeps_view m → (∀ a, keeps_view (f a)) → keeps_view (m ≫= f).
Proof.
  intros Hm Hf x. apply wp_bind. eapply wp_mono; [apply Hm|]. simpl. intros a y Hy.
  eapply wp_mono; [apply Hf|]. simpl. intros b z Hz. by rewrite Hz.
Qed.

Lemma keeps_modify f : (∀ m, mview (f m) = mview m) → keeps_view (modify f).
Proof. intros Hf x. apply wp_modify. apply Hf. Qed.

Lemma keeps_get : keeps_view get.
Proof. done. Qed.

Lemma keeps_panic {A} msg : keeps_view (A:=A) (panic msg).
Proof. done. Qed.

Lemma keeps_undefined {A} msg : keeps_view (A:=A) (undefined msg).
Proof. done. Qed.

Lemma keeps_spin {A} : keeps_view (A:=A) spin.
Proof. done. Qed.

Lemma keeps_this_cpu me : keeps_view (this_cpu me).
Proof. intros x. unfold wp, this_cpu. by destruct (cpus x !! me). Qed.

Lemma keeps_if {A} (b : bool) (m1 m2 : M mach A) :
  keeps_view m1 → keeps_view m2 → keeps_view (if b then m1 else m2).
Proof. by destruct b. Qed.

#[export] Hint Resolve keeps_ret keeps_bind keeps_get keeps_panic keeps_undefined keeps_spin
  keeps_this_cpu keeps_if : view.

(** Break a machine operation into its primitives. *)
Ltac keeps_tac :=
  repeat first
    [ apply keeps_bind; [|intros ?]
    | apply keeps_if
    | solve [eauto with view]
    | apply keeps_modify; intros ?; first [apply mview_upd_cpu; intros ?; reflexivity | reflexivity]
    | match goal with |- keeps_view (match ?x with _ => _ end) => destruct x end ].

Lemma keeps_readeflags me : keeps_view (readeflags_if me).
Proof. unfold readeflags_if. keeps_tac. Qed.

Lemma keeps_mycpu me : keeps_view (mycpu me).
Proof. unfold mycpu, readeflags_if, lapicid. keeps_tac. Qed.

#[export] Hint Resolve keeps_readeflags keeps_mycpu : view.

Lemma keeps_pushcli me : keeps_view (pushcli me).
Proof. unfold pushcli, cli. keeps_tac. Qed.

Lemma keeps_popcli me : keeps_view (popcli me).
Proof. unfold popcli, sti. keeps_tac. Qed.

#[export] Hint Resolve keeps_pushcli keeps_popcli : view.

Lemma keeps_holding me l : keeps_view (holding me l).
Proof. unfold holding. keeps_tac. Qed.

#[export] Hint Resolve keeps_holding : view.

Lemma keeps_acquire me l : keeps_view (acquire me l).
Proof. unfold acquire. keeps_tac. Qed.

Lemma keeps_release me l : keeps_view (release me l).
Proof. unfold release. keeps_tac. Qed.

Lemma keeps_initlock l n : keeps_view (initlock l n).
Proof. unfold initlock. keeps_tac. Qed.

Lemma keeps_sti me : keeps_view (sti me).
Proof. unfold sti. keeps_tac. Qed.

#[export] Hint Resolve keeps_acquire keeps_release keeps_initlock keeps_sti : view.

Section Frame.

Context {W : Type} `{HL : WorldLaws W}.

Variable kend : Z.

Abbreviation K := (M (kst W)).

Definition kview (s : kst W) : list (Z * option nat * option (nat * nat)) := mview (kmach s).

(** [s'] has the process table of [s]. *)
Definition same_tab (s s' : kst W) : Prop :=
  procs s' = procs s ∧ kview s' = kview s ∧ nextpid s' = nextpid s ∧ initproc s' = initproc s.

#[global] Instance same_tab_preorder : PreOrder same_tab.
Proof.
  split; [by intros s|]. intros s1 s2 s3 (? & ? & ? & ?) (? & ? & ? & ?).
  unfold same_tab. intuition congruence.
Qed.

Definition keeps_tab {A} (m : K A) : Prop := ∀ s, wp m (λ _ s', same_tab s s') s.

Lemma keeps_on_mach {A} (m : M mach A) : keeps_view m → keeps_tab (on_mach m).
Proof.
  intros Hm s. apply wp_zoom. eapply wp_mono; [apply Hm|]. simpl. intros a y Hy.
  unfold same_tab, kview. simpl. done.
Qed.

Lemma kmem_view_zoom {A} (m : M mach A) k :
  keeps_view m → wp (zoom km_mach set_km_mach m) (λ _ k', mview (km_mach k') = mview (km_mach k)) k.
Proof. intros Hm. apply wp_zoom. eapply wp_mono; [apply Hm|]. done. Qed.

Definition keeps_kview {A} (m : M kmem A) : Prop :=
  ∀ k, wp m (λ _ k', mview (km_mach k') = mview (km_mach k)) k.

Lemma kview_bind {A B} (m : M kmem A) (f : A → M kmem B) :
  keeps_kview m → (∀ a, keeps_kview (f a)) → keeps_kview (m ≫= f).
Proof.
  intros Hm Hf x. apply wp_bind. eapply wp_mono; [apply Hm|]. simpl. intros a y Hy.
  eapply wp_mono; [apply Hf|]. simpl. intros b z Hz. by rewrite Hz.
Qed.

Lemma kview_lock me : keeps_kview (kmem_lock me).
Proof.
  unfold kmem_lock. intros k. wp_run; [|done]. apply kmem_view_zoom. auto with view.
Qed.

Lemma kview_unlock me : keeps_kview (kmem_unlock me).
Proof.
  unfold kmem_unlock. intros k. wp_run; [|done]. apply kmem_view_zoom. auto with view.
Qed.

Lemma kview_kalloc me : keeps_kview (kalloc me).
Proof.
  unfold kalloc. apply kview_bind; [apply kview_lock|]. intros _.
  apply kview_bind; [done|]. intros r.
  apply kview_bind; [by case_bool_decide|]. intros _.
  apply kview_bind; [apply kview_unlock|done].
Qed.

Lemma kview_kfree me v : keeps_kview (kfree kend me v).
Proof.
  unfold kfree. case_bool_decide; [done|].
  apply kview_bind; [done|]. intros _. apply kview_bind; [apply kview_lock|]. intros _.
  apply kview_bind; [done|]. intros _. apply kview_bind; [done|]. intros _.
  apply kview_unlock.
Qed.

Lemma keeps_on_kmem {A} (m : M kmem A) : keeps_kview m → keeps_tab (on_kmem m).
Proof.
  intros Hm s. apply wp_zoom. eapply wp_mono; [apply Hm|]. simpl. intros a y Hy.
  unfold same_tab, kview, kmach. simpl. done.
Qed.

Lemma keeps_on_world {A} (m : M (kmem * W) A) : keeps_cpus m → keeps_tab (on_world m).
Proof.
  intros Hm s. apply wp_zoom. eapply wp_mono; [apply Hm|]. simpl. intros a y Hy.
  unfold same_tab, kview, kmach. simpl. done.
Qed.

Lemma keeps_tab_ret {A} (a : A) : keeps_tab (mret a).
Proof. done. Qed.

Lemma keeps_proc_at p : keeps_tab (proc_at p).
Proof. intros s. unfold wp, proc_at. by destruct (procs s !! p). Qed.

Lemma keeps_tab_bind {A B} (m : K A) (f : A → K B) :
  keeps_tab m → (∀ a, keeps_tab (f a)) → keeps_tab (m ≫= f).
Proof.
  intros Hm Hf x. apply wp_bind. eapply wp_mono; [apply Hm|]. simpl. intros a y Hy.
  eapply wp_mono; [apply Hf|]. simpl. intros b z Hz. by etrans.
Qed.

Lemma keeps_thread_at p i : keeps_tab (thread_at p i).
Proof.
  unfold thread_at. apply keeps_tab_bind; [apply keeps_proc_at|]. intros pr.
  by destruct (threads pr !! i).
Qed.

Lemma keeps_deref {A} (x : option A) : keeps_tab (deref (W:=W) x).
Proof. by destruct x. Qed.

(** Run an operation that leaves the table alone. *)
Lemma wp_keeps {A} (m : K A) Q s :
  keeps_tab m → (∀ a s', same_tab s s' → Q a s') → wp m Q s.
Proof. intros Hm HQ. eapply wp_mono; [apply Hm|]. auto. Qed.

Lemma wp_proc_at p Q (s : kst W) :
  (∀ pr, procs s !! p = Some pr → Q pr s) → wp (proc_at p) Q s.
Proof. intros HQ. unfold wp, proc_at. destruct (procs s !! p) eqn:E; auto. Qed.

Lemma wp_thread_at p i Q (s : kst W) :
  (∀ pr t, procs s !! p = Some pr → threads pr !! i = Some t → Q t s) →
  wp (thread_at p i) Q s.
Proof.
  intros HQ. unfold thread_at. apply wp_bind, wp_proc_at. intros pr Hpr.
  destruct (threads pr !! i) eqn:E; [|done]. apply wp_ret. eauto.
Qed.

Lemma wp_deref {A} (x : option A) Q (s : kst W) : (∀ a, x = Some a → Q a s) → wp (deref x) Q s.
Proof. destruct x; [|done]. intros HQ. apply wp_ret. auto. Qed.

(** *** The current thread *)

Definition apic_nodup (v : list (Z * option nat * option (nat * nat))) : Prop :=
  NoDup ((λ x, x.1.1) <$> v).

Lemma apic_nodup_mach m : apic_nodup (mview m) → mach_wf m.
Proof.
  unfold apic_nodup, mach_wf, mview. rewrite <- list_fmap_compose. done.
Qed.

Lemma wp_mycpu me m Q : mach_wf m → Q me m → wp (mycpu me) Q m.
Proof.
  intros Hwf HQ. destruct (cpus m !! me) as [c|] eqn:Hc.
  - destruct (iflag c) eqn:Hi.
    + unfold mycpu, readeflags_if, this_cpu, wp. mred. by rewrite Hc, Hi.
    + unfold wp. by rewrite (mycpu_self me c).
  - unfold mycpu, readeflags_if, this_cpu, wp. mred. by rewrite Hc.
Qed.

Lemma wp_this_cpu me m Q : (∀ c, cpus m !! me = Some c → Q c m) → wp (this_cpu me) Q m.
Proof. intros HQ. unfold wp, this_cpu. destruct (cpus m !! me); auto. Qed.

Lemma wp_current {A} me (f : cpu → A) (Q : A → kst W → Prop) s :
  apic_nodup (kview s) →
  (∀ c s', same_tab s s' → kview s !! me = Some (cview c) → Q (f c) s') →
  wp (on_mach (pushcli me ;; i ← mycpu me; c ← this_cpu i; popcli me ;; mret (f c))) Q s.
Proof.
  intros Hnd HQ. apply wp_zoom. apply wp_bind.
  eapply wp_mono; [apply keeps_pushcli|]. simpl. intros _ m1 H1.
  apply wp_bind, wp_mycpu. { apply apic_nodup_mach. by rewrite H1. }
  apply wp_bind, wp_this_cpu. intros c Hc. apply wp_bind.
  eapply wp_mono; [apply keeps_popcli|]. simpl. intros _ m2 H2. apply wp_ret. apply HQ.
  - unfold same_tab, kview, kmach. simpl. rewrite H2, H1. done.
  - unfold kview. rewrite <- H1. unfold mview. by rewrite list_lookup_fmap, Hc.
Qed.

Lemma wp_curproc me Q (s : kst W) :
  apic_nodup (kview s) →
  (∀ a p t s', same_tab s s' → kview s !! me = Some (a, Some p, t) → Q p s') →
  wp (curproc me) Q s.
Proof.
  intros Hnd HQ. unfold curproc. apply wp_bind. apply wp_current; [done|].
  intros c s' Hs Hv. apply wp_deref. intros p Hp. eapply HQ; [done|].
  rewrite Hv. unfold cview. by rewrite Hp.
Qed.

Lemma wp_curthread me Q (s : kst W) :
  apic_nodup (kview s) →
  (∀ a p x s', same_tab s s' → kview s !! me = Some (a, p, Some x) → Q x s') →
  wp (curthread me) Q s.
Proof.
  intros Hnd HQ. unfold curthread. apply wp_bind. apply wp_current; [done|].
  intros c s' Hs Hv. apply wp_deref. intros p Hp. eapply HQ; [done|].
  rewrite Hv. unfold cview. by rewrite Hp.
Qed.

Lemma keeps_acquire_ptable me : keeps_tab (acquire_ptable me).
Proof. apply keeps_on_mach, keeps_acquire. Qed.

Lemma keeps_release_ptable me : keeps_tab (release_ptable me).
Proof. apply keeps_on_mach, keeps_release. Qed.

Lemma keeps_myproc me : keeps_tab (myproc me).
Proof.
  apply keeps_on_mach. keeps_tac.
Qed.

Lemma keeps_mythread me : keeps_tab (mythread me).
Proof.
  apply keeps_on_mach. keeps_tac.
Qed.


End Frame.

(** Common shape of the proofs: run an operation that keeps the table. *)
Ltac tab_step :=
  eapply wp_keeps;
  [ first [ apply keeps_acquire_ptable | apply keeps_release_ptable | apply keeps_myproc
          | apply keeps_mythread | apply keeps_proc_at | apply keeps_thread_at
          | apply keeps_on_kmem; first [apply kview_kalloc | apply kview_kfree]
          | apply keeps_on_world; solve [auto with world]
          | apply keeps_on_mach; solve [auto with view] ]
  | let a := fresh "r" in let s' := fresh "s" in let Hs := fresh "Hs" in intros a s' Hs ].

Section Inv.

Context {W : Type} `{HL : WorldLaws W}.

Abbreviation K := (M (kst W)).

(** ** The invariant *)

Abbreviation view := (list (Z * option nat * option (nat * nat))).

Definition others_dead (pr : proc) (i : nat) : Prop :=
  ∀ j t, j ≠ i → threads pr !! j = Some t → ¬ live t.

(** [h] is a thread whose state is being changed: it may be the current thread
    of a CPU without being [RUNNING].  [g] is a process whose state is being
    changed: what its state says of its threads and its pid is suspended. *)
Record pinv (h : option (nat * nat)) (g : option nat) (l : list proc) (v : view) (n : Z) : Prop :=
  Pinv {
  (* CPUs have distinct APIC ids, pids are positive *)
  pi_apic : apic_nodup v;
  pi_n : 0 < n;
  (* shape of the tables *)
  pi_len : length l = NPROC;
  pi_shape p pr : l !! p = Some pr → length (threads pr) = NTHREADS ∧ (t_num pr ≤ NTHREADS)%nat;
  (* thread slots that were never allocated are unused *)
  pi_tail p pr i t : l !! p = Some pr → threads pr !! i = Some t → (t_num pr ≤ i)%nat →
    tstate t = UNUSED_T;
  (* states of processes and of their threads *)
  pi_unused p pr i t : g ≠ Some p → l !! p = Some pr → pstate pr = UNUSED →
    threads pr !! i = Some t → tstate t = UNUSED_T;
  pi_zombie p pr i t : g ≠ Some p → l !! p = Some pr → pstate pr = ZOMBIE →
    threads pr !! i = Some t → ¬ live t;
  (* the current thread of a CPU is running; a running thread is the current
     thread of exactly one CPU *)
  pi_cur c a cp p i : v !! c = Some (a, cp, Some (p, i)) → cp = Some p ∧
    ∃ pr t, l !! p = Some pr ∧ threads pr !! i = Some t ∧ (h = Some (p, i) ∨ tstate t = RUNNING);
  pi_uniq c c' a a' cp cp' x : v !! c = Some (a, cp, Some x) → v !! c' = Some (a', cp', Some x) →
    c = c';
  pi_run p pr i t : l !! p = Some pr → threads pr !! i = Some t → tstate t = RUNNING →
    ∃ c a cp, v !! c = Some (a, cp, Some (p, i));
  (* a thread in exit_process() is the only one of its process *)
  pi_exit p pr i t : l !! p = Some pr → threads pr !! i = Some t →
    context t = InExitProcess → tstate t = RUNNING ∧ others_dead pr i;
  (* thread ids count the slots of the process from 1 *)
  pi_tid p pr i t : l !! p = Some pr → threads pr !! i = Some t → (i < t_num pr)%nat →
    tstate t ≠ UNUSED_T → tid t = Z.of_nat (S i);
  (* pids are positive, below the next one, and distinct *)
  pi_pid p pr : g ≠ Some p → l !! p = Some pr → pstate pr ≠ UNUSED → 0 < pid pr < n;
  pi_pid_inj p q pr qr : g ≠ Some p → g ≠ Some q → l !! p = Some pr → l !! q = Some qr →
    pstate pr ≠ UNUSED → pstate qr ≠ UNUSED → pid pr = pid qr → p = q;
}.

Definition inv_at (h : option (nat * nat)) (g : option nat) (s : kst W) : Prop :=
  pinv h g (procs s) (kview s) (nextpid s).

Lemma inv_at_tab h g s s' : same_tab s s' → inv_at h g s → inv_at h g s'.
Proof. intros (Hp & Hv & Hn & _). unfold inv_at. by rewrite Hp, Hv, Hn. Qed.

Lemma pinv_weaken h g l v n : pinv None None l v n → pinv h g l v n.
Proof.
  intros [?? ??? Hu Hz Hc ??? ? Hp Hq]. split; eauto.
  - intros c a cp p i Hv. destruct (Hc c a cp p i Hv) as (? & pr & t & ? & ? & [?|?]); [done|].
    naive_solver.
Qed.

(** *** Updates that keep what the invariant talks about

    Waking a sleeping thread, and writing fields other than the states, the
    thread counter and the ids. *)
Definition mild_thread (t t' : thread) : Prop :=
  (tstate t' = tstate t ∨ tstate t = SLEEPING ∧ tstate t' = RUNNABLE) ∧
  (context t' = context t ∨ context t' ≠ InExitProcess) ∧ tid t' = tid t.

Definition mild (pr pr' : proc) : Prop :=
  pstate pr' = pstate pr ∧ t_num pr' = t_num pr ∧ pid pr' = pid pr ∧
  Forall2 mild_thread (threads pr) (threads pr').

Lemma mild_live t t' : mild_thread t t' → live t' → live t.
Proof. unfold live. intros ([Hs|[H1 H2]] & _) [? ?]; split; congruence. Qed.

Lemma mild_thread_refl t : mild_thread t t.
Proof. unfold mild_thread. auto. Qed.

Lemma mild_refl pr : mild pr pr.
Proof. unfold mild. split_and!; try done. apply Forall_Forall2_diag, Forall_true, mild_thread_refl. Qed.

(** From an entry of the updated table to the entry it comes from. *)
Ltac pull_back :=
  repeat match goal with
  | Hm : Forall2 mild ?l ?l', H : ?l' !! ?p = Some ?pr' |- _ =>
      let pr := fresh "pr" in let Hpr := fresh "Hpr" in
      destruct (Forall2_lookup_r _ _ _ _ _ Hm H) as (pr & Hpr & ? & ? & ? & ?); clear H
  | Hm : Forall2 mild_thread (threads ?pr) (threads ?pr'), H : threads ?pr' !! ?i = Some ?t' |- _ =>
      let t := fresh "t" in let Ht := fresh "Ht" in
      destruct (Forall2_lookup_r _ _ _ _ _ Hm H) as (t & Ht & ?); clear H
  end.

Lemma mild_state t t' :
  mild_thread t t' →
  (tstate t = UNUSED_T ↔ tstate t' = UNUSED_T) ∧ (tstate t = RUNNING ↔ tstate t' = RUNNING) ∧
  (context t' = InExitProcess → context t = InExitProcess) ∧ tid t' = tid t.
Proof. intros ([H1|[H1 H1']] & [H2|H2] & H3); intuition congruence. Qed.

Lemma pinv_mild h g l l' v n :
  Forall2 mild l l' → pinv h g l v n → pinv h g l' v n.
Proof.
  intros Hm [Ha Hn Hlen Hsh Htl Hun Hzo Hc Hq Hr Hx Hti Hp Hpi].
  split; try done.
  - rewrite <- Hlen. symmetry. by eapply Forall2_length.
  - intros p pr' Hl. pull_back. destruct (Hsh p pr Hpr) as [<- ?].
    split; [symmetry; by eapply Forall2_length|congruence].
  - intros p pr' i t' Hl Ht Hi. pull_back. apply (mild_state t t'); [done|].
    eapply Htl; eauto. congruence.
  - intros p pr' i t' Hg Hl Hs Ht. pull_back. apply (mild_state t t'); [done|].
    eapply Hun; eauto. congruence.
  - intros p pr' i t' Hg Hl Hs Ht Hlive. pull_back.
    eapply (Hzo p pr i t); eauto using mild_live. congruence.
  - intros c a cp p i Hv. destruct (Hc c a cp p i Hv) as (-> & pr & t & Hpr & Ht & Hs).
    split; [done|]. eapply Forall2_lookup_l in Hm as (pr' & Hpr' & _ & _ & _ & Hf); [|done].
    eapply Forall2_lookup_l in Hf as (t' & Ht' & Hmt%mild_state); [|done].
    exists pr', t'. intuition.
  - intros p pr' i t' Hl Ht Hs. pull_back. eapply Hr; eauto. by apply (mild_state t t').
  - intros p pr' i t1 Hl H1 Hctx.
    destruct (Forall2_lookup_r _ _ _ _ _ Hm Hl) as (pr & Hpr & _ & _ & _ & Hf).
    destruct (Forall2_lookup_r _ _ _ _ _ Hf H1) as (u1 & Hu1 & Hm1%mild_state).
    destruct (Hx p pr i u1 Hpr Hu1) as [Hrun Hd]; [by apply Hm1|]. split; [by apply Hm1|].
    intros j t2 Hne H2 Hlive. destruct (Forall2_lookup_r _ _ _ _ _ Hf H2) as (u2 & Hu2 & Hm2).
    eapply (Hd j u2); eauto using mild_live.
  - intros p pr' i t' Hl Ht Hi Hs. pull_back.
    match goal with Hmt : mild_thread t t' |- _ => apply mild_state in Hmt as (Hmu & _ & _ & ->) end.
    apply (Hti p pr i t); [done|done|congruence|]. by rewrite Hmu.
  - intros p pr' Hg Hl Hs. pull_back.
    match goal with He : pid pr' = _ |- _ => rewrite He end. apply (Hp p pr); auto. congruence.
  - intros p q pr' qr' Hg Hg' Hl Hl' Hs Hs' He. pull_back.
    eapply (Hpi p q); eauto; congruence.
Qed.

Lemma mild_upd_threads i f pr :
  (∀ t, mild_thread t (f t)) → mild pr (set_threads (upd i f (threads pr)) pr).
Proof.
  intros Hf. unfold mild. split_and!; try done. simpl. apply Forall2_same_length_lookup_2.
  - by rewrite length_upd.
  - intros j t t' Ht Ht'. apply lookup_upd_Some in Ht' as [[<- (x & Hx & ->)]|[_ Ht']].
    + rewrite Ht in Hx. injection Hx as <-. apply Hf.
    + rewrite Ht in Ht'. injection Ht' as <-. apply mild_thread_refl.
Qed.

Lemma mild_each_thread f pr : (∀ t, mild_thread t (f t)) → mild pr (each_thread f pr).
Proof.
  intros Hf. unfold mild. split_and!; try done. simpl. apply Forall2_same_length_lookup_2.
  - by rewrite length_imap.
  - intros j t t' Ht Ht'. rewrite list_lookup_imap, Ht in Ht'. simpl in Ht'.
    injection Ht' as <-. case_bool_decide; [apply Hf|apply mild_thread_refl].
Qed.

Lemma mild_upd p f (l : list proc) : (∀ pr, mild pr (f pr)) → Forall2 mild l (upd p f l).
Proof.
  intros Hf. apply Forall2_same_length_lookup_2; [by rewrite length_upd|].
  intros q pr pr' Hq Hq'. apply lookup_upd_Some in Hq' as [[<- (x & Hx & ->)]|[_ Hq']].
  - rewrite Hq in Hx. injection Hx as <-. apply Hf.
  - rewrite Hq in Hq'. injection Hq' as <-. apply mild_refl.
Qed.

Lemma inv_upd_proc_mild h g p f s :
  (∀ pr, mild pr (f pr)) → inv_at h g s → inv_at h g (upd_proc p f s).
Proof. intros Hf. unfold inv_at. simpl. apply pinv_mild. by apply mild_upd. Qed.

Lemma inv_upd_thread_mild h g p i f s :
  (∀ t, mild_thread t (f t)) → inv_at h g s → inv_at h g (upd_thread p i f s).
Proof. intros Hf. apply inv_upd_proc_mild. intros pr. by apply mild_upd_threads. Qed.

(** *** Updates of one process *)

(** What the new contents [pr'] of slot [p] must satisfy. *)
Record slot_ok (h : option (nat * nat)) (g : option nat) (l : list proc) (v : view) (n : Z)
    (p : nat) (pr pr' : proc) : Prop := SlotOk {
  so_shape : length (threads pr') = NTHREADS ∧ (t_num pr' ≤ NTHREADS)%nat;
  so_tail i t : threads pr' !! i = Some t → (t_num pr' ≤ i)%nat → tstate t = UNUSED_T;
  so_unused i t : g ≠ Some p → pstate pr' = UNUSED → threads pr' !! i = Some t →
    tstate t = UNUSED_T;
  so_zombie i t : g ≠ Some p → pstate pr' = ZOMBIE → threads pr' !! i = Some t → ¬ live t;
  so_cur i t : threads pr !! i = Some t → h = Some (p, i) ∨ tstate t = RUNNING →
    ∃ t', threads pr' !! i = Some t' ∧ (h = Some (p, i) ∨ tstate t' = RUNNING);
  so_run i t' : threads pr' !! i = Some t' → tstate t' = RUNNING →
    ∃ c a cp, v !! c = Some (a, cp, Some (p, i));
  so_exit i t : threads pr' !! i = Some t → context t = InExitProcess →
    tstate t = RUNNING ∧ others_dead pr' i;
  so_tid i t : threads pr' !! i = Some t → (i < t_num pr')%nat → tstate t ≠ UNUSED_T →
    tid t = Z.of_nat (S i);
  so_pid : g ≠ Some p → pstate pr' ≠ UNUSED → 0 < pid pr' < n ∧
    ∀ q qr, q ≠ p → g ≠ Some q → l !! q = Some qr → pstate qr ≠ UNUSED → pid qr ≠ pid pr';
}.

Lemma pinv_upd h g l v n p f pr :
  pinv h g l v n → l !! p = Some pr → slot_ok h g l v n p pr (f pr) → pinv h g (upd p f l) v n.
Proof.
  intros [Ha Hn Hlen Hsh Htl Hun Hzo Hc Hq Hr Hx Hti Hp Hpi] Hpr [S1 S2 S3 S4 S5 S6 S7 S8 S9].
  assert (Hl : ∀ q qr, upd p f l !! q = Some qr → q = p ∧ qr = f pr ∨ q ≠ p ∧ l !! q = Some qr).
  { intros q qr [[<- (x & Hx' & ->)]|[? ?]]%lookup_upd_Some; [left|by right; auto].
    split; congruence. }
  split; try done.
  - by rewrite length_upd.
  - intros q qr [[-> ->]|[_ Hq']]%Hl; eauto.
  - intros q qr i t [[-> ->]|[_ Hq']]%Hl; eauto.
  - intros q qr i t Hg [[-> ->]|[_ Hq']]%Hl; eauto.
  - intros q qr i t Hg [[-> ->]|[_ Hq']]%Hl; eauto.
  - intros c a cp q i Hv. destruct (Hc c a cp q i Hv) as (-> & qr & t & Hqr & Ht & Hs).
    split; [done|]. destruct (decide (p = q)) as [<-|Hne].
    + rewrite Hpr in Hqr. injection Hqr as <-. destruct (S5 i t Ht Hs) as (t' & Ht' & Hs').
      exists (f pr), t'. rewrite lookup_upd_eq, Hpr. done.
    + exists qr, t. rewrite lookup_upd_ne by done. done.
  - intros q qr i t [[-> ->]|[_ Hq']]%Hl; eauto.
  - intros q qr i t [[-> ->]|[_ Hq']]%Hl; eauto.
  - intros q qr i t [[-> ->]|[_ Hq']]%Hl; eauto.
  - intros q qr Hg [[-> ->]|[_ Hq']]%Hl Hs; [by apply S9|eauto].
  - intros q q' qr qr' Hg Hg' [[-> ->]|[Hne Hql]]%Hl [[-> ->]|[Hne' Hql']]%Hl Hs Hs' He.
    + done.
    + exfalso. by eapply (proj2 (S9 Hg Hs)).
    + exfalso. by eapply (proj2 (S9 Hg' Hs')).
    + eauto.
Qed.

(** The slot as it was satisfies its own conditions. *)
Lemma slot_ok_self h g l v n p pr :
  pinv h g l v n → l !! p = Some pr → slot_ok h g l v n p pr pr.
Proof.
  intros [Ha Hn Hlen Hsh Htl Hun Hzo Hc Hq Hr Hx Hti Hp Hpi] Hpr.
  split; eauto. intros Hg Hs. split; [eauto|]. intros q qr Hne Hg' Hqr Hs' He.
  apply Hne. eapply Hpi; eauto.
Qed.

Lemma upd_lookup_cases {A} i (f : A → A) (l : list A) x j y :
  l !! i = Some x → upd i f l !! j = Some y → (j = i ∧ y = f x) ∨ (j ≠ i ∧ l !! j = Some y).
Proof.
  intros Hx [[<- (x' & Hx' & ->)]|[? ?]]%lookup_upd_Some; [left|right; auto]. split; congruence.
Qed.

Lemma pinv_upd_thread h g l v n p i f pr t :
  pinv h g l v n → l !! p = Some pr → threads pr !! i = Some t →
  ((t_num pr ≤ i)%nat → tstate (f t) = UNUSED_T) →
  (g ≠ Some p → pstate pr = UNUSED → tstate (f t) = UNUSED_T) →
  (g ≠ Some p → pstate pr = ZOMBIE → ¬ live (f t)) →
  (tstate t = RUNNING → h = Some (p, i) ∨ tstate (f t) = RUNNING) →
  (tstate (f t) = RUNNING → tstate t = RUNNING ∨ ∃ c a cp, v !! c = Some (a, cp, Some (p, i))) →
  (live (f t) → live t ∨
     ∀ j t', j ≠ i → threads pr !! j = Some t' → context t' ≠ InExitProcess) →
  (context (f t) = InExitProcess → tstate (f t) = RUNNING ∧
     (context t = InExitProcess ∨ others_dead pr i)) →
  ((i < t_num pr)%nat → tstate (f t) ≠ UNUSED_T → tid (f t) = Z.of_nat (S i)) →
  pinv h g (upd p (λ pr, set_threads (upd i f (threads pr)) pr) l) v n.
Proof.
  intros Hinv Hpr Ht T1 T2 T3 T4 T5 T6 T7 T8. eapply pinv_upd; [done|done|].
  pose proof (slot_ok_self _ _ _ _ _ _ _ Hinv Hpr) as [S1 S2 S3 S4 S5 S6 S7 S8 S9].
  assert (Hl := λ j y, upd_lookup_cases i f (threads pr) t j y Ht).
  split; simpl; try done.
  - by rewrite length_upd.
  - intros j t' [[-> ->]|[_ Hj]]%Hl; eauto.
  - intros j t' Hg Hs [[-> ->]|[_ Hj]]%Hl; eauto.
  - intros j t' Hg Hs [[-> ->]|[_ Hj]]%Hl; eauto.
  - intros j t' Hj Hs. destruct (decide (i = j)) as [<-|Hne].
    + rewrite Ht in Hj. injection Hj as <-. rewrite lookup_upd_eq, Ht. simpl.
      exists (f t). naive_solver.
    + rewrite lookup_upd_ne by done. eauto.
  - intros j t' [[-> ->]|[_ Hj]]%Hl Hs; [destruct (T5 Hs)|]; eauto.
  - intros j u [[-> ->]|[Hne Hj]]%Hl Hctx.
    + destruct (T7 Hctx) as [Hrun Hd]. split; [done|]. intros k u' Hne [[-> ->]|[_ Hk]]%Hl; [done|].
      destruct Hd as [Hc|Hd]; [by eapply (S7 i t)|by eapply Hd].
    + destruct (S7 j u Hj Hctx) as [Hrun Hd]. split; [done|].
      intros k u' Hne' [[-> ->]|[_ Hk]]%Hl; [|by eapply Hd]. intros Hlive.
      destruct (T6 Hlive) as [Hc|Hd']; [by eapply (Hd i t)|]. by eapply (Hd' j u).
  - intros j t' [[-> ->]|[_ Hj]]%Hl; eauto.
Qed.

(** *** Closing the holes *)

Lemma pinv_close_g h p l v n :
  pinv h (Some p) l v n →
  (∀ pr, l !! p = Some pr →
     (pstate pr = UNUSED → ∀ i t, threads pr !! i = Some t → tstate t = UNUSED_T) ∧
     (pstate pr = ZOMBIE → ∀ i t, threads pr !! i = Some t → ¬ live t) ∧
     (pstate pr ≠ UNUSED → 0 < pid pr < n ∧
        ∀ q qr, q ≠ p → l !! q = Some qr → pstate qr ≠ UNUSED → pid qr ≠ pid pr)) →
  pinv h None l v n.
Proof.
  intros [Ha Hn Hlen Hsh Htl Hun Hzo Hc Hq Hr Hx Hti Hp Hpi] Hcl. split; try done.
  - intros q qr i t _ Hqr Hs Ht. destruct (decide (p = q)) as [<-|Hne].
    + by eapply (proj1 (Hcl _ Hqr)).
    + eapply Hun; eauto. congruence.
  - intros q qr i t _ Hqr Hs Ht. destruct (decide (p = q)) as [<-|Hne].
    + by eapply (proj1 (proj2 (Hcl _ Hqr))).
    + eapply Hzo; eauto. congruence.
  - intros q qr _ Hqr Hs. destruct (decide (p = q)) as [<-|Hne].
    + by apply (Hcl _ Hqr).
    + eapply Hp; eauto. congruence.
  - intros q q' qr qr' _ _ Hqr Hqr' Hs Hs' He.
    destruct (decide (p = q)) as [<-|Hne], (decide (p = q')) as [<-|Hne']; try done.
    + exfalso. by eapply (proj2 (proj2 (proj2 (Hcl _ Hqr)) Hs)).
    + exfalso. by eapply (proj2 (proj2 (proj2 (Hcl _ Hqr')) Hs')).
    + eapply (Hpi q q'); eauto; congruence.
Qed.

(** The CPU [c] gives up its current thread [(p, i)], which is no longer running. *)
Lemma pinv_close_h g l v n c a cp p i pr t :
  pinv (Some (p, i)) g l v n → v !! c = Some (a, cp, Some (p, i)) →
  l !! p = Some pr → threads pr !! i = Some t → tstate t ≠ RUNNING →
  pinv None g l (<[c := (a, None, None)]> v) n.
Proof.
  intros [Ha Hn Hlen Hsh Htl Hun Hzo Hc Hq Hr Hx Hti Hp Hpi] Hv Hpr Ht Hs.
  assert (Hl : ∀ c' x, <[c := (a, None, None)]> v !! c' = Some (x : Z * option nat * option (nat * nat)) →
            x.2 ≠ None → c' ≠ c ∧ v !! c' = Some x).
  { intros c' x [(<- & <- & _)|[? ?]]%list_lookup_insert_Some Hx2; auto. done. }
  split; try done.
  - unfold apic_nodup. rewrite list_fmap_insert. simpl. rewrite list_insert_id; [done|].
    by rewrite list_lookup_fmap, Hv.
  - intros c' a' cp' q j Hv'. destruct (Hl _ _ Hv') as [Hne Hv2]; [done|].
    destruct (Hc c' a' cp' q j Hv2) as (-> & qr & u & Hqr & Hu & [Hh|Hru]).
    + injection Hh as -> ->. destruct Hne. eapply Hq; eauto.
    + split; [done|]. exists qr, u. auto.
  - intros c1 c2 a1 a2 cp1 cp2 x H1 H2. destruct (Hl _ _ H1) as [_ H1']; [done|].
    destruct (Hl _ _ H2) as [_ H2']; [done|]. eauto.
  - intros q qr j u Hqr Hu Hru. destruct (Hr q qr j u Hqr Hu Hru) as (c' & a' & cp' & Hv').
    exists c', a', cp'. rewrite list_lookup_insert_ne; [done|]. intros <-.
    rewrite Hv in Hv'. injection Hv' as _ _ -> ->. congruence.
Qed.

Lemma pinv_drop_h g l v n p i pr t :
  pinv (Some (p, i)) g l v n → l !! p = Some pr → threads pr !! i = Some t →
  tstate t = RUNNING → pinv None g l v n.
Proof.
  intros [Ha Hn Hlen Hsh Htl Hun Hzo Hc Hq Hr Hx Hti Hp Hpi] Hpr Ht Hs. split; try done.
  intros c a cp q j Hv. destruct (Hc c a cp q j Hv) as (-> & qr & u & Hqr & Hu & [Hh|Hru]).
  - injection Hh as <- <-. split; [done|]. exists pr, t. auto.
  - split; [done|]. exists qr, u. auto.
Qed.

(** The CPU [c], which runs no thread, takes the thread [(p, i)]. *)
Lemma pinv_take_view l v n c a cp p i pr t :
  pinv None None l v n → v !! c = Some (a, cp, None) →
  l !! p = Some pr → threads pr !! i = Some t → tstate t ≠ RUNNING →
  pinv (Some (p, i)) None l (<[c := (a, Some p, Some (p, i))]> v) n.
Proof.
  intros [Ha Hn Hlen Hsh Htl Hun Hzo Hc Hq Hr Hx Hti Hp Hpi] Hv Hpr Ht Hs.
  assert (Hne : ∀ c' a' cp', v !! c' = Some (a', cp', Some (p, i)) → False).
  { intros c' a' cp' Hv'. destruct (Hc _ _ _ _ _ Hv') as (_ & pr' & t' & Hpr' & Ht' & [?|Hs']);
      [done|]. rewrite Hpr in Hpr'. injection Hpr' as <-. rewrite Ht in Ht'. congruence. }
  assert (Hl : ∀ c' x, <[c := (a, Some p, Some (p, i))]> v !! c' = Some x →
            (c' = c ∧ x = (a, Some p, Some (p, i))) ∨ (c' ≠ c ∧ v !! c' = Some x)).
  { intros c' x [(<- & <- & _)|[? ?]]%list_lookup_insert_Some; auto. }
  split; try done.
  - unfold apic_nodup. rewrite list_fmap_insert. simpl. rewrite list_insert_id; [done|].
    by rewrite list_lookup_fmap, Hv.
  - intros c' a' cp' q j [[-> [= -> -> -> ->]]|[Hne' Hv']]%Hl.
    + split; [done|]. exists pr, t. auto.
    + destruct (Hc _ _ _ _ _ Hv') as (-> & pr' & t' & ? & ? & [?|?]); [done|].
      split; [done|]. exists pr', t'. auto.
  - intros c1 c2 a1 a2 cp1 cp2 x [[-> Hx1]|[Hn1 H1]]%Hl [[-> Hx2]|[Hn2 H2]]%Hl; [done|..].
    + injection Hx1 as -> -> ->. by edestruct Hne.
    + injection Hx2 as -> -> ->. by edestruct Hne.
    + eauto.
  - intros q qr j u Hqr Hju Hru. destruct (Hr q qr j u Hqr Hju Hru) as (c' & a' & cp' & Hv').
    exists c', a', cp'. rewrite list_lookup_insert_ne; [done|]. congruence.
Qed.

(** ** Preservation by the operations *)

Definition inv (s : kst W) : Prop := inv_at None None s.

(** The current thread of CPU [me] is [(p, i)]. *)
Definition runs (me : nat) (p i : nat) (s : kst W) : Prop :=
  ∃ a cp, kview s !! me = Some (a, cp, Some (p, i)).

Lemma runs_tab me p i s s' : same_tab s s' → runs me p i s → runs me p i s'.
Proof. intros (_ & Hv & _). unfold runs. by rewrite Hv. Qed.

Lemma runs_proc h g me p i s :
  inv_at h g s → runs me p i s → ∃ pr t, procs s !! p = Some pr ∧ threads pr !! i = Some t ∧
    (h = Some (p, i) ∨ tstate t = RUNNING) ∧ ∃ a, kview s !! me = Some (a, Some p, Some (p, i)).
Proof.
  intros Hinv (a & cp & Hv). destruct (pi_cur _ _ _ _ _ Hinv _ _ _ _ _ Hv) as (-> & pr & t & ? & ? & ?).
  naive_solver.
Qed.

Lemma wp_cur_thread h g me p i Q s :
  inv_at h g s → runs me p i s → (∀ s', same_tab s s' → Q (p, i) s') → wp (curthread me) Q s.
Proof.
  intros Hinv (a & cp & Hv) HQ. apply wp_curthread; [apply Hinv|].
  intros a' cp' x s' Hs Hx. rewrite Hv in Hx. injection Hx as <- <- <-. auto.
Qed.

Lemma wp_cur_proc h g me p i Q s :
  inv_at h g s → runs me p i s → (∀ s', same_tab s s' → Q p s') → wp (curproc me) Q s.
Proof.
  intros Hinv Hr HQ. destruct (runs_proc _ _ _ _ _ _ Hinv Hr) as (pr & t & _ & _ & _ & a & Hv).
  apply wp_curproc; [apply Hinv|].
  intros a' p' x s' Hs Hx. rewrite Hv in Hx. injection Hx as <- <- <-. auto.
Qed.

Lemma upd_thread_lookup p i f (s : kst W) pr t :
  procs s !! p = Some pr → threads pr !! i = Some t →
  procs (upd_thread p i f s) !! p = Some (set_threads (upd i f (threads pr)) pr) ∧
  upd i f (threads pr) !! i = Some (f t).
Proof.
  intros Hp Ht. simpl. rewrite lookup_upd_eq, Hp. split; [done|]. by rewrite lookup_upd_eq, Ht.
Qed.

Lemma mview_upd_cpu_set me f m c y :
  cpus m !! me = Some c → cview (f c) = y → mview (upd_cpu me f m) = <[me := y]> (mview m).
Proof.
  intros Hc <-. unfold mview, upd_cpu. simpl. erewrite upd_insert by done. apply list_fmap_insert.
Qed.

Lemma sched_inv me p i k s :
  inv_at (Some (p, i)) None s → runs me p i s → k ≠ InExitProcess →
  wp (sched me k) (λ _ s', inv s') s.
Proof.
  intros Hinv Hr Hk. unfold sched. apply wp_bind. eapply wp_cur_thread; [done..|].
  intros s1 H1. apply (inv_at_tab _ _ _ _ H1) in Hinv. apply (runs_tab _ _ _ _ _ H1) in Hr. clear H1 s.
  apply wp_bind. tab_step.
  apply (inv_at_tab _ _ _ _ Hs) in Hinv. apply (runs_tab _ _ _ _ _ Hs) in Hr. clear Hs s1.
  apply wp_if; intros Hh; [done|]. apply wp_bind.
  apply wp_zoom. apply wp_bind, wp_mycpu; [apply apic_nodup_mach, Hinv|]. apply wp_this_cpu.
  intros c Hc. apply wp_if; intros Hn; [done|].
  set (s1 := set_kmach (kmach s) s).
  assert (H1 : same_tab s s1) by done.
  apply (inv_at_tab _ _ _ _ H1) in Hinv. apply (runs_tab _ _ _ _ _ H1) in Hr.
  apply wp_bind, wp_thread_at. intros pr t Hpr Ht.
  apply wp_if; intros Hst; [done|]. apply bool_decide_eq_false in Hst.
  apply wp_if; intros Hif; [done|].
  wp_run.
  set (s2 := upd_thread p i (set_context k) (upd_thread p i (set_saved_intena (intena c)) s1)).
  assert (Hinv2 : inv_at (Some (p, i)) None s2).
  { apply inv_upd_thread_mild; [|apply inv_upd_thread_mild; [|done]];
      intros u; unfold mild_thread; simpl; auto. }
  assert (Hl1 := upd_thread_lookup p i (set_saved_intena (intena c)) s1 pr t Hpr Ht).
  assert (Hl2 := upd_thread_lookup p i (set_context k) _ _ _ (proj1 Hl1) (proj2 Hl1)).
  destruct Hr as (a & cp & Hv).
  assert (Ha : kview s1 !! me = Some (cview c)) 
    by (change (kview s1) with (mview (kmach s)); unfold mview; by rewrite list_lookup_fmap, Hc).
  assert (Hk' := mview_upd_cpu_set me (λ c, set_scan (AtThread p (S i)) (set_cur None None c))
                   (kmach s2) c _ Hc eq_refl).
  refine (eq_ind_r (λ v, pinv None None (procs s2) v (nextpid s2)) _ Hk').
  eapply (pinv_close_h None (procs s2) (kview s2) (nextpid s2) me (apicid c) cp p i);
    [done| |exact (proj1 Hl2)|exact (proj2 Hl2)|done].
  rewrite Hv in Ha. unfold cview in Ha. change (kview s2) with (kview s1). rewrite Hv. congruence.
Qed.

End Inv.
