(* ===== verification/ProcSafe.v ===== *)
(** * Preservation of the process-table invariant

    Every operation of Proc.v that returns, or that switches to the scheduler,
    leaves the table in a state satisfying [inv]; hence every state the CPUs can
    reach satisfies it. *)

From S2P Require Import Prelude Spinlock Kalloc ProcData Proc ProcInv.

Section Safe.

Context {W : Type} `{HL : WorldLaws W}.

Variable kend : Z.

Abbreviation K := (M (kst W)).

Definition ctx_ok (p i : nat) (s : kst W) : Prop :=
  ∀ pr t, procs s !! p = Some pr → threads pr !! i = Some t → context t ≠ InExitProcess.

(** The invariant, with [(p, i)] the current thread of CPU [me], which is not
    between [exit_thread] and [exit_process]. *)
Definition here (h : option (nat * nat)) (me p i : nat) (s : kst W) : Prop :=
  inv_at h None s ∧ runs me p i s ∧ ctx_ok p i s.

Lemma here_tab h me p i s s' : same_tab s s' → here h me p i s → here h me p i s'.
Proof.
  intros Hs (H1 & H2 & H3). split; [by eapply inv_at_tab|]. split; [by eapply runs_tab|].
  unfold ctx_ok. by rewrite (proj1 Hs).
Qed.

Lemma here_mild h me p i s l :
  Forall2 mild (procs s) l → here h me p i s → here h me p i (set_procs l s).
Proof.
  intros Hm (H1 & H2 & H3). split; [|split; [done|]].
  - unfold inv_at. simpl. by eapply pinv_mild.
  - intros pr t Hpr Ht Hc. simpl in Hpr.
    destruct (Forall2_lookup_r _ _ _ _ _ Hm Hpr) as (pr0 & Hpr0 & _ & _ & _ & Hf).
    destruct (Forall2_lookup_r _ _ _ _ _ Hf Ht) as (t0 & Ht0 & Hmt%mild_state).
    apply (H3 pr0 t0); [done..|]. by apply Hmt.
Qed.

Lemma here_proc_mild h me p i q f s :
  (∀ pr, mild pr (f pr)) → here h me p i s → here h me p i (upd_proc q f s).
Proof. intros Hf. apply here_mild. by apply mild_upd. Qed.

Lemma here_thread_mild h me p i q j f s :
  (∀ t, mild_thread t (f t)) → here h me p i s → here h me p i (upd_thread q j f s).
Proof. intros Hf. apply here_proc_mild. intros pr. by apply mild_upd_threads. Qed.

Lemma here_inv me p i s : here None me p i s → inv s.
Proof. by intros []. Qed.

Lemma wp_mythread h me p i Q s :
  here h me p i s → (∀ s', same_tab s s' → Q (Some (p, i)) s') → wp (mythread me) Q s.
Proof.
  intros (Hinv & (a & cp & Hv) & _) HQ. unfold mythread. apply wp_current; [apply Hinv|].
  intros c s' Hs Hc. rewrite Hv in Hc. injection Hc as _ _ <-. auto.
Qed.

Lemma wp_myproc h me p i Q s :
  here h me p i s → (∀ s', same_tab s s' → Q (Some p) s') → wp (myproc me) Q s.
Proof.
  intros (Hinv & Hr & _) HQ. destruct (runs_proc _ _ _ _ _ _ Hinv Hr) as (_ & _ & _ & _ & _ & a & Hv).
  unfold myproc. apply wp_current; [apply Hinv|].
  intros c s' Hs Hc. rewrite Hv in Hc. injection Hc as _ <- _. auto.
Qed.

(** Facts about the current thread in a state that satisfies the invariant. *)
Lemma here_facts me p i s :
  here None me p i s → ∃ pr t, procs s !! p = Some pr ∧ threads pr !! i = Some t ∧
    tstate t = RUNNING ∧ pstate pr = USED ∧ (i < t_num pr)%nat ∧ tid t = Z.of_nat (S i).
Proof.
  intros (Hinv & Hr & _). destruct (runs_proc _ _ _ _ _ _ Hinv Hr) as (pr & t & Hpr & Ht & [?|Hs] & _);
    [done|]. exists pr, t.
  assert (Hi : (i < t_num pr)%nat).
  { destruct (decide (i < t_num pr)%nat) as [|Hge]; [done|]. exfalso.
    rewrite (pi_tail _ _ _ _ _ Hinv p pr i t) in Hs; done || lia. }
  split_and!; try done.
  - destruct (pstate pr) eqn:Hst; [|exfalso|done].
    + rewrite (pi_unused _ _ _ _ _ Hinv p pr i t) in Hs; done.
    + apply (pi_zombie _ _ _ _ _ Hinv p pr i t); try done. split; congruence.
  - eapply (pi_tid _ _ _ _ _ Hinv); eauto. congruence.
Qed.

(** The current thread leaves the [RUNNING] state. *)
Lemma here_open me p i x s :
  x ≠ UNUSED_T → x ≠ RUNNING → here None me p i s →
  here (Some (p, i)) me p i (upd_thread p i (set_tstate x) s).
Proof.
  intros Hx Hx' Hh. pose proof (here_facts _ _ _ _ Hh) as (pr & t & Hpr & Ht & Hs & Hp & Hi & Hid).
  destruct Hh as (Hinv & Hr & Hctx). split; [unfold inv_at; simpl|split; [done|]].
  2:{ intros pr' t' Hpr' Ht'. destruct (upd_thread_lookup p i (set_tstate x) s pr t Hpr Ht) as [E1 E2].
      rewrite E1 in Hpr'. injection Hpr' as <-. simpl in Ht'. rewrite E2 in Ht'. injection Ht' as <-.
      by apply (Hctx pr t). }
  eapply (pinv_upd_thread _ _ _ _ _ _ _ _ pr t); [by apply pinv_weaken|done|done|..]; simpl.
  - lia.
  - congruence.
  - congruence.
  - auto.
  - congruence.
  - intros _. left. split; congruence.
  - intros Hc. exfalso. by eapply Hctx.
  - intros _ _. done.
Qed.

(** The shape of a proof: name the intermediate state and transport [here]. *)
Ltac go Hh :=
  apply wp_bind; tab_step;
  match goal with Hs : same_tab ?s ?s' |- _ =>
    apply (here_tab _ _ _ _ _ _ Hs) in Hh; clear Hs s end.

Ltac go_thread Hh :=
  apply wp_bind; eapply (wp_cur_thread _ _ _ _ _ _ _ (proj1 Hh) (proj1 (proj2 Hh)));
  let s' := fresh "s" in let Hs := fresh "Hs" in intros s' Hs;
  match type of Hs with same_tab ?s ?s' =>
    apply (here_tab _ _ _ _ _ _ Hs) in Hh; clear Hs s end.

Ltac go_proc Hh :=
  apply wp_bind; eapply (wp_cur_proc _ _ _ _ _ _ _ (proj1 Hh) (proj1 (proj2 Hh)));
  let s' := fresh "s" in let Hs := fresh "Hs" in intros s' Hs;
  match type of Hs with same_tab ?s ?s' =>
    apply (here_tab _ _ _ _ _ _ Hs) in Hh; clear Hs s end.

Lemma sched_here me p i k s :
  here (Some (p, i)) me p i s → k ≠ InExitProcess → wp (sched me k) (λ _ s', inv s') s.
Proof. intros (H1 & H2 & _). by eapply sched_inv. Qed.

(** Set the state of the current thread, then call [sched]. *)
Lemma switch_inv me p i x k s :
  x ≠ UNUSED_T → x ≠ RUNNING → k ≠ InExitProcess → here None me p i s →
  wp (set_thread p i (set_tstate x) ;; sched me k) (λ _ s', inv s') s.
Proof.
  intros Hx Hx' Hk Hh. apply wp_bind, wp_modify. eapply sched_here; [|done]. by apply here_open.
Qed.

Lemma yield_inv me p i s : here None me p i s → wp (yield me) (λ _ s', inv s') s.
Proof.
  intros Hh. unfold yield. go Hh. go_thread Hh. by eapply switch_inv.
Qed.

Lemma sleep_inv me p i ch lk next s :
  here None me p i s → wp (sleep me ch lk next) (λ _ s', inv s') s.
Proof.
  intros Hh. unfold sleep.
  apply wp_bind. eapply wp_myproc; [done|]. intros s1 H1. apply (here_tab _ _ _ _ _ _ H1) in Hh.
  apply wp_bind. eapply wp_mythread; [done|]. intros s2 H2. apply (here_tab _ _ _ _ _ _ H2) in Hh.
  clear s s1 H1 H2. destruct lk as [lk|]; [|done].
  apply wp_bind. apply (wp_mono _ (λ _ s', here None me p i s')).
  { apply wp_if; intros _; [|by apply wp_ret]. go Hh. tab_step. by eapply here_tab. }
  clear s2 Hh. intros _ s Hh. apply wp_bind, wp_ret. apply wp_bind, wp_modify.
  eapply switch_inv; [done..|]. apply here_thread_mild; [|done].
  intros t. unfold mild_thread. simpl. auto.
Qed.

(** ** Operations that only make mild changes *)

#[local] Hint Unfold mild_thread : xv6.

Lemma mild_wake_on ch t : mild_thread t (wake_on ch t).
Proof.
  unfold wake_on. case_bool_decide as Hc; [|apply mild_thread_refl].
  unfold mild_thread. simpl. naive_solver.
Qed.

Lemma mild_kill_thread t : mild_thread t (kill_thread t).
Proof.
  unfold kill_thread. case_bool_decide as Hc; unfold mild_thread; simpl in *; naive_solver.
Qed.

Lemma mild_fields (f : proc → proc) :
  (∀ pr, pstate (f pr) = pstate pr) → (∀ pr, t_num (f pr) = t_num pr) →
  (∀ pr, pid (f pr) = pid pr) → (∀ pr, threads (f pr) = threads pr) → ∀ pr, mild pr (f pr).
Proof.
  intros H1 H2 H3 H4 pr. unfold mild. rewrite H1, H2, H3, H4. split_and!; try done.
  apply Forall_Forall2_diag, Forall_true, mild_thread_refl.
Qed.

Lemma wakeup1_mild ch (l : list proc) : Forall2 mild l (each_thread (wake_on ch) <$> l).
Proof.
  apply Forall2_fmap_r, Forall_Forall2_diag, Forall_true. intros pr.
  apply mild_each_thread, mild_wake_on.
Qed.

(** [J] holds in every table obtained by mild changes. *)
Definition stable (J : kst W → Prop) : Prop :=
  (∀ s s', same_tab s s' → J s → J s') ∧
  (∀ s l, Forall2 mild (procs s) l → J s → J (set_procs l s)).

Lemma stable_here h me p i : stable (here h me p i).
Proof. split; [apply here_tab|intros s l; apply here_mild]. Qed.

Lemma stable_inv_at h g : stable (inv_at h g).
Proof. split; [apply inv_at_tab|]. intros s l Hm. unfold inv_at. simpl. by apply pinv_mild. Qed.

Lemma stable_and J J' : stable J → stable J' → stable (λ s, J s ∧ J' s).
Proof. intros [H1 H2] [H3 H4]. split; intros s x Hx [??]; split; eauto. Qed.

Section Stable.

Variable J : kst W → Prop.
Hypothesis HJ : stable J.

Lemma keep_tab {A} (m : K A) (Q : A → kst W → Prop) s :
  keeps_tab m → J s → (∀ a s', J s' → Q a s') → wp m Q s.
Proof. intros Hm Hs HQ. eapply wp_keeps; [done|]. intros a s' H'. apply HQ. by eapply (proj1 HJ). Qed.

Lemma keep_proc q f s : (∀ pr, mild pr (f pr)) → J s → J (upd_proc q f s).
Proof. intros Hf. apply (proj2 HJ). by apply mild_upd. Qed.

Lemma keep_thread q j f s : (∀ t, mild_thread t (f t)) → J s → J (upd_thread q j f s).
Proof. intros Hf. apply keep_proc. intros pr. by apply mild_upd_threads. Qed.

Lemma keep_wakeup1 ch Q s : J s → (∀ s', J s' → Q tt s') → wp (wakeup1 ch) Q s.
Proof. intros Hs HQ. apply wp_modify, HQ, (proj2 HJ); [apply wakeup1_mild|done]. Qed.

End Stable.

(** [keeps_tab] goals for the operations without an effect on the table. *)
Ltac keeps_ops :=
  first [ apply keeps_acquire_ptable | apply keeps_release_ptable | apply keeps_myproc
        | apply keeps_mythread | apply keeps_proc_at | apply keeps_thread_at | apply keeps_deref
        | apply keeps_on_kmem; first [apply kview_kalloc | apply kview_kfree]
        | apply keeps_on_world; solve [auto with world]
        | apply keeps_on_mach; solve [auto with view] ].

Ltac mild_tac :=
  first [ apply mild_fields; done
        | intros ?; apply mild_each_thread; apply mild_kill_thread
        | intros ?; unfold mild_thread; simpl; solve [auto | intuition congruence] ].

(** One step of an operation under a stable assertion [Hh]. *)
Ltac kp st Hh :=
  lazymatch goal with
  | |- wp (mbind _ _) _ _ => apply wp_bind
  | |- wp (mret _) _ _ => apply wp_ret
  | |- wp (panic _) _ _ => done
  | |- wp (undefined _) _ _ => done
  | |- wp spin _ _ => done
  | |- wp (if _ then _ else _) _ _ => apply wp_if; intros ?
  | |- wp (let '(_, _) := ?x in _) _ _ => destruct x
  | |- wp get _ _ => apply wp_get
  | |- wp (set_proc ?q ?f) _ _ => apply wp_modify; apply (keep_proc _ st q f) in Hh; [|mild_tac]
  | |- wp (set_thread ?q ?j ?f) _ _ =>
      apply wp_modify; apply (keep_thread _ st q j f) in Hh; [|mild_tac]
  | |- wp (wakeup1 _) _ _ =>
      eapply (keep_wakeup1 _ st); [exact Hh|]; clear Hh; let s' := fresh "s" in intros s' Hh
  | |- wp _ _ _ =>
      eapply (keep_tab _ st); [keeps_ops|exact Hh|]; clear Hh;
      let a := fresh "r" in let s' := fresh "s" in intros a s' Hh
  end.

Lemma stable_wakeup J me ch s : stable J → J s → wp (wakeup me ch) (λ _ s', J s') s.
Proof. intros HJ Hh. unfold wakeup. repeat kp HJ Hh. done. Qed.

Lemma stable_kill J me n s : stable J → J s → wp (kill me n) (λ _ s', J s') s.
Proof.
  intros HJ Hh. unfold kill. do 4 kp HJ Hh. destruct (list_find _ _) as [[p ?]|]; repeat kp HJ Hh; done.
Qed.

Lemma stable_switchuvm J me p i s : stable J → J s → wp (switchuvm me p i) (λ _ s', J s') s.
Proof. intros HJ Hh. unfold switchuvm. repeat kp HJ Hh; done. Qed.

Lemma stable_runs me p i : stable (runs me p i).
Proof. split; [intros s s'; apply runs_tab|done]. Qed.

Lemma growproc_inv me p i n s : here None me p i s → wp (growproc me n) (λ _ s', inv s') s.
Proof.
  intros Hh. pose proof (stable_here None me p i) as st. unfold growproc. go_proc Hh. do 4 kp st Hh.
  apply wp_bind, wp_proc_at. intros pr Hpr.
  assert (Hfin : ∀ new s2, here None me p i s2 →
    wp (set_proc p (set_sz new) ;; '(q, j) ← deref r; switchuvm me q j ;; release_ptable me ;; mret 0)
      (λ _ s', inv s') s2).
  { clear s s0 Hh Hpr r0. intros new s Hh. do 5 kp st Hh. apply wp_bind.
    eapply wp_mono; [by apply (stable_switchuvm _ _ _ _ _ st)|]. clear s Hh. simpl. intros _ s Hh.
    repeat kp st Hh. by eapply here_inv. }
  cbv zeta. apply wp_if; intros _; [|apply wp_if; intros _; [|by apply Hfin]];
    (do 2 kp st Hh; apply wp_if; intros _; [|by apply Hfin]; repeat kp st Hh; by eapply here_inv).
Qed.

(** ** Leaving a thread and a process *)

Lemma filter_split {A} (P : A → Prop) `{∀ x, Decision (P x)} (l : list A) i x :
  l !! i = Some x → P x → filter P l = filter P (take i l) ++ x :: filter P (drop (S i) l).
Proof.
  intros Hx HP. rewrite <- (take_drop_middle l i x Hx) at 1. rewrite filter_app.
  by rewrite filter_cons_True.
Qed.

Lemma filter_single {A} (P : A → Prop) `{∀ x, Decision (P x)} (l : list A) i j x y :
  length (filter P l) = 1%nat → l !! i = Some x → P x → l !! j = Some y → P y → i = j.
Proof.
  intros Hl Hi Hx Hj Hy. rewrite (filter_split P l i x Hi Hx), length_app in Hl. simpl in Hl.
  assert (H1 : filter P (take i l) = []) by (apply nil_length_inv; lia).
  assert (H2 : filter P (drop (S i) l) = []) by (apply nil_length_inv; lia).
  destruct (lt_eq_lt_dec i j) as [[Hlt| ->]|Hgt]; [|done|].
  - exfalso. apply (not_elem_of_nil y). rewrite <- H2. apply list_elem_of_filter. split; [done|].
    apply (list_elem_of_lookup_2 _ (j - S i)). rewrite lookup_drop. rewrite <- Hj. f_equal. lia.
  - exfalso. apply (not_elem_of_nil y). rewrite <- H1. apply list_elem_of_filter. split; [done|].
    apply (list_elem_of_lookup_2 _ j). by rewrite lookup_take_lt.
Qed.

Lemma running_threads_one h g l v n p pr i t :
  pinv h g l v n → l !! p = Some pr → running_threads pr = 1%nat → threads pr !! i = Some t →
  live t → others_dead pr i.
Proof.
  intros Hinv Hpr Hr Ht Hl j t' Hne Ht' Hl'.
  assert (Hlt : ∀ k u, threads pr !! k = Some u → live u → (k < t_num pr)%nat).
  { intros k u Hk [_ Hu]. destruct (decide (k < t_num pr)%nat); [done|]. exfalso. apply Hu.
    eapply (pi_tail _ _ _ _ _ Hinv); eauto. lia. }
  apply Hne. symmetry. eapply (filter_single live _ i j t t' Hr); try done.
  - rewrite lookup_take_lt; [done|eauto].
  - rewrite lookup_take_lt; [done|eauto].
Qed.

Lemma exit_thread_inv me p i s : here None me p i s → wp (exit_thread me) (λ _ s', inv s') s.
Proof.
  intros Hh. pose proof (stable_here None me p i) as st. unfold exit_thread. go_proc Hh.
  apply wp_bind, wp_proc_at. intros pr Hpr. cbv zeta. kp st Hh; [done|].
  destruct (decide (running_threads pr = 1%nat)) as [Hone|Hmore].
  - rewrite (bool_decide_eq_false_2 (running_threads pr = 2%nat)) by lia.
    rewrite bool_decide_eq_true_2 by done. do 2 kp st Hh.
    apply wp_bind. eapply wp_cur_thread; [apply Hh|apply Hh|]. intros s1 H1.
    apply wp_bind. eapply wp_keeps; [keeps_ops|]. intros _ s2 H2.
    assert (H12 : same_tab s0 s2) by (by etrans). apply (here_tab _ _ _ _ _ _ H12) in Hh.
    rewrite <- (proj1 H12) in Hpr. clear H1 H2 H12 s0 s1.
    apply wp_bind, wp_modify, wp_ret. pose proof (here_facts _ _ _ _ Hh) as (pr' & t & Hpr' & Ht & Hs & _).
    rewrite Hpr in Hpr'. injection Hpr' as <-. destruct Hh as (Hinv & _ & _).
    unfold inv, inv_at. simpl.
    eapply (pinv_upd_thread _ _ _ _ _ _ _ _ pr t); [exact Hinv|done|done|..]; simpl; auto.
    + intros. by apply (pi_tail _ _ _ _ _ Hinv p pr i t).
    + intros. by apply (pi_unused _ _ _ _ _ Hinv p pr i t).
    + intros. by apply (pi_zombie _ _ _ _ _ Hinv p pr i t).
    + intros _. split; [done|]. right. eapply running_threads_one; [done..|]. split; congruence.
    + intros. by apply (pi_tid _ _ _ _ _ Hinv p pr i t).
  - clear Hpr. kp st Hh. apply (wp_mono _ (λ _ s', here None me p i s')).
    + apply wp_if; intros _; [|by apply wp_ret]. go_proc Hh. repeat kp st Hh. done.
    + clear s0 Hh. intros _ s0 Hh. rewrite bool_decide_eq_false_2 by done. go_thread Hh.
      do 2 kp st Hh. by eapply switch_inv.
Qed.

Lemma exit_inv me p i s : here None me p i s → wp (exit me) (λ _ s', inv s') s.
Proof.
  intros Hh. pose proof (stable_here None me p i) as st. unfold exit. go_proc Hh. do 2 kp st Hh.
  go_thread Hh. do 2 kp st Hh. kp st Hh; [by eapply exit_thread_inv|]. repeat kp st Hh.
  by eapply here_inv.
Qed.

Lemma kthread_exit_inv me p i s : here None me p i s → wp (kthread_exit me) (λ _ s', inv s') s.
Proof.
  intros Hh. pose proof (stable_here None me p i) as st. unfold kthread_exit. do 2 kp st Hh.
  by eapply exit_thread_inv.
Qed.

(** Thread [i] is the only live thread of process [p]. *)
Definition lone (p i : nat) (s : kst W) : Prop :=
  ∀ pr, procs s !! p = Some pr → others_dead pr i.

Lemma stable_lone p i : stable (lone p i).
Proof.
  split.
  - intros s s' [Hs _]. unfold lone. by rewrite Hs.
  - intros s l Hm Hl pr Hpr j t Hne Ht Hlive. simpl in Hpr.
    destruct (Forall2_lookup_r _ _ _ _ _ Hm Hpr) as (pr0 & Hpr0 & _ & _ & _ & Hf).
    destruct (Forall2_lookup_r _ _ _ _ _ Hf Ht) as (t0 & Ht0 & Hmt).
    eapply (Hl pr0 Hpr0 j t0); eauto using mild_live.
Qed.

Lemma stable_close_files J me p s : stable J → J s → wp (close_files me p) (λ _ s', J s') s.
Proof.
  intros st Hh. unfold close_files. apply (wp_for_range (λ _, J)); [done|]. clear s Hh.
  intros fd s _ Hh. do 2 kp st Hh. destruct (_ !! fd) as [[f|]|]; repeat kp st Hh; done.
Qed.

Lemma stable_reparent J p s : stable J → J s → wp (reparent p) (λ _ s', J s') s.
Proof.
  intros st Hh. unfold reparent. apply (wp_for_range (λ _, J)); [done|]. clear s Hh.
  intros c s _ Hh. repeat kp st Hh; done.
Qed.

Lemma upd_upd {A} i (f g : A → A) (l : list A) : upd i f (upd i g l) = upd i (f ∘ g) l.
Proof.
  apply list_eq. intros j. destruct (decide (i = j)) as [<-|Hne].
  - rewrite !lookup_upd_eq. by destruct (l !! i).
  - by rewrite !lookup_upd_ne.
Qed.

Lemma upd_proc_upd_proc p f g (s : kst W) : upd_proc p f (upd_proc p g s) = upd_proc p (f ∘ g) s.
Proof. unfold upd_proc, set_procs. simpl. by rewrite upd_upd. Qed.

Lemma upd_thread_upd_thread p i f g (s : kst W) :
  upd_thread p i f (upd_thread p i g s) = upd_thread p i (f ∘ g) s.
Proof.
  unfold upd_thread. rewrite upd_proc_upd_proc. unfold upd_proc, set_procs. f_equal.
  apply list_alter_ext; [|done]. intros pr _. unfold compose, set_threads. simpl. by rewrite upd_upd.
Qed.

Lemma same_tab_upd_proc (s s' : kst W) p f :
  same_tab s s' → same_tab (upd_proc p f s) (upd_proc p f s').
Proof. intros (H1 & H2 & H3 & H4). unfold same_tab. simpl. rewrite H1. done. Qed.

Lemma same_tab_upd_thread (s s' : kst W) p i f :
  same_tab s s' → same_tab (upd_thread p i f s) (upd_thread p i f s').
Proof. apply same_tab_upd_proc. Qed.

(** The last thread of a process and the process become zombies together. *)
Lemma zombie_inv me p i s :
  here None me p i s → lone p i s →
  inv_at (Some (p, i)) None (upd_thread p i (set_tstate ZOMBIE_T) (upd_proc p (set_pstate ZOMBIE) s)).
Proof.
  intros Hh Hl. pose proof (here_facts _ _ _ _ Hh) as (pr & t & Hpr & Ht & Hs & Hp & Hi & Hid).
  destruct Hh as (Hinv & _ & Hctx). unfold upd_thread. rewrite upd_proc_upd_proc.
  unfold inv_at. simpl. apply (pinv_weaken (Some (p, i)) None) in Hinv.
  eapply pinv_upd; [done|done|].
  pose proof (slot_ok_self _ _ _ _ _ _ _ Hinv Hpr) as [S1 S2 S3 S4 S5 S6 S7 S8 S9].
  assert (Hc := λ j y, upd_lookup_cases i (set_tstate ZOMBIE_T) (threads pr) t j y Ht).
  assert (Hd : ∀ j y, upd i (set_tstate ZOMBIE_T) (threads pr) !! j = Some y → ¬ live y).
  { intros j y [[-> ->]|[Hne Hj]]%Hc; [by intros []|by apply (Hl pr Hpr j)]. }
  split; simpl; try done.
  - by rewrite length_upd.
  - intros j u [[-> ->]|[_ Hj]]%Hc; [lia|eauto].
  - eauto.
  - intros j u Hj [Hh'|Hr].
    + injection Hh' as <-. rewrite lookup_upd_eq, Ht. naive_solver.
    + destruct (decide (i = j)) as [<-|Hne]; [rewrite lookup_upd_eq, Ht; naive_solver|].
      rewrite lookup_upd_ne by done. eauto.
  - intros j u [[-> ->]|[_ Hj]]%Hc; [done|eauto].
  - intros j u [[-> ->]|[Hne Hj]]%Hc Hcx; [by destruct (Hctx pr t)|].
    destruct (S7 j u Hj Hcx) as [Hr _]. destruct (Hl pr Hpr j u Hne Hj). split; congruence.
  - intros j u [[-> ->]|[Hne Hj]]%Hc; [done|eauto].
  - intros _ _. apply S9; [done|congruence].
Qed.

Lemma exit_process_inv me p i s :
  here None me p i s → lone p i s → wp (exit_process me) (λ _ s', inv s') s.
Proof.
  intros H1 H2. pose proof (conj H1 H2) as Hh. clear H1 H2.
  pose proof (stable_and _ _ (stable_here None me p i) (stable_lone p i)) as st.
  unfold exit_process. apply wp_bind. eapply wp_cur_proc; [apply Hh|apply Hh|].
  intros s1 H1. apply (proj1 st _ _ H1) in Hh. clear H1 s. do 3 kp st Hh; [done|].
  kp st Hh. eapply wp_mono; [by apply (stable_close_files _ _ _ _ st)|]. clear Hh. simpl. intros _ s Hh.
  do 19 kp st Hh. eapply wp_mono; [by apply (stable_reparent _ _ _ st)|]. clear Hh. simpl.
  intros _ s9 Hh. do 2 kp st Hh. destruct Hh as [Hh Hl]. apply wp_bind, wp_modify.
  apply wp_bind. apply wp_curthread; [apply Hh|]. intros a cp x s10 H2 Hv.
  destruct (proj1 (proj2 Hh)) as (a' & cp' & Hv'). 
  assert (Hx := eq_trans (eq_sym Hv') Hv). injection Hx as <- <- <-. apply wp_bind, wp_modify.
  apply (same_tab_upd_thread _ _ p i (set_tstate ZOMBIE_T)) in H2. eapply sched_inv; [..|done].
  - eapply inv_at_tab; [done|]. by eapply zombie_inv.
  - eapply runs_tab; [done|]. apply Hh.
Qed.

(** ** Waiting *)

Lemma hole_upd h c f (s : kst W) pr :
  procs s !! c = Some pr → threads (f pr) = threads pr → t_num (f pr) = t_num pr →
  inv_at h (Some c) s → inv_at h (Some c) (upd_proc c f s).
Proof.
  intros Hpr H1 H2 Hinv. unfold inv_at. simpl. eapply pinv_upd; [done|done|].
  pose proof (slot_ok_self _ _ _ _ _ _ _ Hinv Hpr) as [S1 S2 S3 S4 S5 S6 S7 S8 S9].
  split; rewrite ?H1, ?H2; try done.
  intros i t Ht Hc. destruct (S7 i t Ht Hc) as [? Hd]. split; [done|].
  unfold others_dead. by rewrite H1.
Qed.

(** Process [c] is being reaped: the threads below [k] are free. *)
Definition reaping (c : nat) (ps : procstate) (k n : nat) (s : kst W) : Prop :=
  inv_at None (Some c) s ∧ ∃ pr, procs s !! c = Some pr ∧ pstate pr = ps ∧ t_num pr = n ∧
    (∀ j t, threads pr !! j = Some t → ¬ live t) ∧
    (∀ j t, threads pr !! j = Some t → (j < k)%nat → tstate t = UNUSED_T).

Lemma stable_reaping c ps k n : stable (reaping c ps k n).
Proof.
  split.
  - intros s s' Hs [H1 H2]. split; [by eapply inv_at_tab|]. by rewrite (proj1 Hs).
  - intros s l Hm (H1 & pr & Hpr & Hp & Hn & Hl & Hk). split; [by apply stable_inv_at|].
    destruct (Forall2_lookup_l _ _ _ _ _ Hm Hpr) as (pr' & Hpr' & E1 & E2 & _ & Hf).
    exists pr'. simpl. split_and!; [done|congruence|congruence|..].
    + intros j t' Ht' Hlive. destruct (Forall2_lookup_r _ _ _ _ _ Hf Ht') as (t & Ht & Hmt).
      eapply Hl; eauto using mild_live.
    + intros j t' Ht' Hj. destruct (Forall2_lookup_r _ _ _ _ _ Hf Ht') as (t & Ht & Hmt%mild_state).
      apply Hmt. eauto.
Qed.

Lemma reaping_upd c ps k n f s :
  (∀ pr, threads (f pr) = threads pr ∧ t_num (f pr) = t_num pr) → reaping c ps k n s →
  ∃ ps', reaping c ps' k n (upd_proc c f s) ∧ ∀ x, f = set_pstate x → ps' = x.
Proof.
  intros Hf (H1 & pr & Hpr & Hp & Hn & Hl & Hk). exists (pstate (f pr)).
  destruct (Hf pr) as [E1 E2]. split; [|by intros x ->]. split; [by eapply hole_upd|].
  exists (f pr). simpl. rewrite lookup_upd_eq, Hpr, E1, E2. done.
Qed.

Lemma reap_thread_inv me c ps k n s :
  reaping c ps k n s → wp (reap_thread kend me c k) (λ _ s', reaping c ps (S k) n s') s.
Proof.
  intros Hh. pose proof (stable_reaping c ps k n) as st. unfold reap_thread.
  apply wp_bind, wp_thread_at. intros pr t Hpr Ht.
  apply wp_if; [intros Hz%bool_decide_eq_true|intros Hz%bool_decide_eq_false].
  - apply wp_bind. eapply wp_keeps; [keeps_ops|]. intros _ s1 H1.
    apply (proj1 st _ _ H1) in Hh. rewrite <- (proj1 H1) in Hpr. clear H1 s.
    repeat (apply wp_bind, wp_modify). apply wp_modify. rewrite !upd_thread_upd_thread.
    destruct Hh as (Hinv & pr' & Hpr' & Hp & Hn & Hl & Hk). rewrite Hpr in Hpr'. injection Hpr' as <-.
    match goal with |- reaping _ _ _ _ (upd_thread _ _ ?f _) => set (F := f) end.
    assert (HF : tstate (F t) = UNUSED_T) by done.
    assert (Hc := λ j y, upd_lookup_cases k F (threads pr) t j y Ht).
    split.
    + unfold inv_at. simpl. eapply (pinv_upd_thread _ _ _ _ _ _ _ _ pr t); try done; try congruence.
      * intros [_ []]. done.
      * intros Hcx. destruct (pi_exit _ _ _ _ _ Hinv c pr k t) as [? _]; [done..|]. congruence.
    + exists (set_threads (upd k F (threads pr)) pr). simpl. rewrite lookup_upd_eq, Hpr.
      split_and!; try done.
      * intros j y [[-> ->]|[_ Hj]]%Hc; [by intros [_ []]|eauto].
      * intros j y [[-> ->]|[Hne Hj]]%Hc Hlt; [done|]. apply (Hk j); [done|lia].
  - apply wp_ret. destruct Hh as (Hinv & pr' & Hpr' & Hp & Hn & Hl & Hk). split; [done|].
    exists pr'. split_and!; try done. intros j y Hj Hlt. destruct (decide (j = k)) as [->|Hne].
    + rewrite Hpr in Hpr'. injection Hpr' as <-. rewrite Ht in Hj. injection Hj as <-.
      specialize (Hl k t Ht). unfold live in Hl. destruct (tstate t); try done; by destruct Hl.
    + apply (Hk j); [done|lia].
Qed.

Lemma reap_inv me c s pr :
  inv s → procs s !! c = Some pr → pstate pr = ZOMBIE → wp (reap kend me c) (λ _ s', inv s') s.
Proof.
  intros Hinv Hpr Hz. unfold reap. apply wp_bind, wp_proc_at. intros pr' Hpr'.
  rewrite Hpr in Hpr'. injection Hpr' as <-.
  assert (Hh : reaping c ZOMBIE 0 (t_num pr) s).
  { split; [by apply pinv_weaken|]. exists pr. split_and!; try done; [|intros; lia].
    intros j t. by eapply (pi_zombie _ _ _ _ _ Hinv). }
  clear Hinv Hpr Hz.
  apply wp_bind, wp_modify. apply (reaping_upd _ _ _ _ (set_pid 0)) in Hh as (ps1 & Hh & _); [|done].
  pose proof (stable_reaping c ps1 0 (t_num pr)) as st. do 6 kp st Hh.
  apply wp_bind, wp_modify. apply (reaping_upd _ _ _ _ (set_pstate UNUSED)) in Hh as (ps2 & Hh & E); [|done].
  rewrite (E UNUSED eq_refl) in Hh. clear E st.
  apply wp_bind. eapply wp_mono.
  { apply (wp_for_range (λ k, reaping c UNUSED k (t_num pr))); [exact Hh|].
    intros. by apply reap_thread_inv. }
  simpl. clear Hh. intros _ s1 (Hinv & pr' & Hpr & Hp & Hn & Hl & Hk). apply wp_ret.
  eapply pinv_close_g; [done|]. intros pr'' Hpr''. rewrite Hpr in Hpr''. injection Hpr'' as <-.
  rewrite Hp. split_and!; try done. intros _ i t Ht.
  destruct (decide (i < t_num pr')%nat) as [Hlt|Hge]; [apply (Hk i); [done|lia]|].
  eapply (pi_tail _ _ _ _ _ Hinv); eauto. lia.
Qed.

Lemma wait_scan_zombie p l idx b c :
  wait_scan p l idx b = inl c →
  ∃ k pr, c = (idx + k)%nat ∧ l !! k = Some pr ∧ pstate pr = ZOMBIE ∧ parent pr = Some p.
Proof.
  revert idx b. induction l as [|pr l IH]; intros idx b Hs; simpl in Hs; [done|].
  case_bool_decide as Hp; [case_bool_decide as Hz|].
  - injection Hs as <-. exists 0%nat, pr. split; [lia|done].
  - apply IH in Hs as (k & pr' & -> & ? & ?). exists (S k), pr'. split; [lia|done].
  - apply IH in Hs as (k & pr' & -> & ? & ?). exists (S k), pr'. split; [lia|done].
Qed.

Lemma wait_loop_inv me p i t s :
  here None me p i s → wp (wait_loop kend me p t) (λ _ s', inv s') s.
Proof.
  intros Hh. pose proof (stable_here None me p i) as st. unfold wait_loop. do 2 kp st Hh.
  destruct (wait_scan _ _ _ _) as [c|havekids] eqn:Hscan.
  - apply wait_scan_zombie in Hscan as (k & pr & -> & Hk & Hz & _).
    apply wp_bind. eapply wp_mono; [eapply reap_inv; [apply Hh|done..]|]. simpl. intros n s1 Hinv.
    apply wp_bind. eapply wp_keeps; [keeps_ops|]. intros _ s2 H2. apply wp_ret. by eapply inv_at_tab.
  - do 2 kp st Hh. kp st Hh; [repeat kp st Hh; by eapply here_inv|]. by eapply sleep_inv.
Qed.

Lemma wait_inv me p i s : here None me p i s → wp (wait kend me) (λ _ s', inv s') s.
Proof.
  intros Hh. pose proof (stable_here None me p i) as st. unfold wait. go_proc Hh. go_thread Hh.
  do 2 kp st Hh. by eapply wait_loop_inv.
Qed.

Lemma join_loop_inv me p i q j s : here None me p i s → wp (join_loop me q j) (λ _ s', inv s') s.
Proof.
  intros Hh. pose proof (stable_here None me p i) as st. unfold join_loop. do 2 kp st Hh.
  kp st Hh; [repeat kp st Hh; by eapply here_inv|]. kp st Hh; [by eapply sleep_inv|done].
Qed.

Lemma kthread_join_inv me p i n s :
  here None me p i s → wp (kthread_join me n) (λ _ s', inv s') s.
Proof.
  intros Hh. pose proof (stable_here None me p i) as st. unfold kthread_join. do 2 kp st Hh.
  go_proc Hh. do 2 kp st Hh. destruct (find_tid _ _ _).
  - by eapply join_loop_inv.
  - kp st Hh. by eapply here_inv.
Qed.

(** ** Creating threads and processes *)

Lemma stable_view v : stable (λ s, kview s = v).
Proof. split; [|done]. intros s s' (_ & Hv & _). by rewrite Hv. Qed.

(** Slot [i] is the last allocated thread of process [p], in state [x]. *)
Definition alloced (p i : nat) (x : threadstate) (s : kst W) : Prop :=
  inv s ∧ ∃ pr t, procs s !! p = Some pr ∧ pstate pr = USED ∧ t_num pr = S i ∧
    threads pr !! i = Some t ∧ tstate t = x.

Lemma stable_alloced p i x : x ≠ SLEEPING → stable (alloced p i x).
Proof.
  intros Hx. split.
  - intros s s' Hs [H1 H2]. split; [by eapply inv_at_tab|]. by rewrite (proj1 Hs).
  - intros s l Hm (H1 & pr & t & Hpr & Hp & Hn & Ht & Hst). split; [by apply stable_inv_at|].
    destruct (Forall2_lookup_l _ _ _ _ _ Hm Hpr) as (pr' & Hpr' & E1 & E2 & _ & Hf).
    destruct (Forall2_lookup_l _ _ _ _ _ Hf Ht) as (t' & Ht' & Hs & _).
    exists pr', t'. simpl. split_and!; [done|congruence|congruence|done|].
    destruct Hs as [?|[? ?]]; congruence.
Qed.

(** Extending the thread counter over an unused slot. *)
Lemma bump_inv p pr (s : kst W) :
  inv s → procs s !! p = Some pr → (t_num pr < NTHREADS)%nat →
  inv (upd_proc p (set_t_num (S (t_num pr))) s).
Proof.
  intros Hinv Hpr Hi. unfold inv, inv_at. simpl. eapply pinv_upd; [done|done|].
  pose proof (slot_ok_self _ _ _ _ _ _ _ Hinv Hpr) as [S1 S2 S3 S4 S5 S6 S7 S8 S9].
  split; simpl; try done.
  - split; [apply S1|lia].
  - intros i t Ht Hlt. eapply S2; [done|lia].
  - intros i t Ht Hlt Hs. apply (S8 i t Ht); [|done].
    destruct (decide (i < t_num pr)%nat); [done|]. destruct Hs. eapply S2; [done|lia].
Qed.

(** The slot becomes live with its id, all threads being outside [exit_process]. *)
Lemma enliven_inv p i pr t x f (s : kst W) :
  inv s → procs s !! p = Some pr → pstate pr = USED → threads pr !! i = Some t →
  t_num pr = S i → tstate t ≠ RUNNING → x ≠ RUNNING →
  (∀ j u, threads pr !! j = Some u → context u ≠ InExitProcess) →
  tstate (f t) = x → context (f t) = context t → tid (f t) = Z.of_nat (S i) →
  alloced p i x (upd_thread p i f s).
Proof.
  intros Hinv Hpr Hp Ht Hn Hr Hx Hc Hs1 Hs2 Hs3. split.
  - unfold inv, inv_at. simpl.
    eapply (pinv_upd_thread _ _ _ _ _ _ _ _ pr t); simpl; try done; try congruence; try lia.
    + intros _. right. intros j u _. apply Hc.
    + rewrite Hs2. intros H'. by destruct (Hc i t).
  - destruct (upd_thread_lookup p i f s pr t Hpr Ht) as [E1 E2]. eauto 10.
Qed.

(** A thread that is not running becomes unused. *)
Lemma unuse_inv g p i pr t (s : kst W) :
  inv_at None g s → procs s !! p = Some pr → threads pr !! i = Some t → tstate t ≠ RUNNING →
  inv_at None g (upd_thread p i (set_tstate UNUSED_T) s).
Proof.
  intros Hinv Hpr Ht Hr. unfold inv_at. simpl.
  eapply (pinv_upd_thread _ _ _ _ _ _ _ _ pr t); simpl; try done.
  - by intros _ _ [_ []].
  - by intros [_ []].
  - intros Hc. by destruct (pi_exit _ _ _ _ _ Hinv p pr i t).
Qed.

Lemma allocthread_inv me p first pr v s :
  inv s → kview s = v → procs s !! p = Some pr → pstate pr = USED →
  (∀ j u, threads pr !! j = Some u → context u ≠ InExitProcess) →
  wp (allocthread me p first)
    (λ r s', (inv s' ∧ kview s' = v) ∧
       (r ≠ 0 → alloced p (t_num pr) (if first then EMBRYO else RUNNABLE) s')) s.
Proof.
  intros Hinv Hv Hpr Hp Hc. unfold allocthread. apply wp_bind, wp_proc_at. intros pr' Hpr'.
  rewrite Hpr in Hpr'. injection Hpr' as <-. cbv zeta. apply wp_bind, wp_modify.
  apply wp_if; [done|]. intros Hi%bool_decide_eq_false.
  set (i := t_num pr) in *. set (x := if first then EMBRYO else RUNNABLE).
  assert (Hx : x ≠ SLEEPING ∧ x ≠ RUNNING ∧ x ≠ UNUSED_T) by (by destruct first).
  destruct (lookup_lt_is_Some_2 (threads pr) i) as [t Ht].
  { destruct (pi_shape _ _ _ _ _ Hinv p pr Hpr) as [-> _]. lia. }
  assert (Hun : tstate t = UNUSED_T) by (eapply (pi_tail _ _ _ _ _ Hinv); eauto).
  apply (bump_inv p pr) in Hinv; [|done|unfold i in *; lia].
  set (s1 := upd_proc p (set_t_num (S i)) s) in *.
  assert (Hpr1 : procs s1 !! p = Some (set_t_num (S i) pr)) by (simpl; by rewrite lookup_upd_eq, Hpr).
  do 3 apply wp_bind, wp_modify. rewrite !upd_thread_upd_thread.
  match goal with |- wp _ _ ?st =>
    assert (Hh : alloced p i x st ∧ kview st = v); [|clearbody x; generalize dependent st] end.
  { split; [|done]. eapply enliven_inv; try done; simpl; [by rewrite Hun|naive_solver]. }
  clear Hinv Hpr Hpr1 Hv s1 s Ht Hun Hc Hp. intros s Hh.
  pose proof (stable_and _ _ (stable_alloced p i x (proj1 Hx)) (stable_view v)) as st.
  do 6 kp st Hh. kp st Hh.
  - destruct Hh as [(Hinv & pr1 & t1 & Hpr1 & Hp1 & Hn1 & Ht1 & Hs1) Hv].
    apply wp_bind, wp_modify, wp_ret. split; [|done]. split; [|done].
    eapply unuse_inv; [done..|]. naive_solver.
  - repeat kp st Hh. destruct Hh as [Hal Hv]. split; [|done]. split; [apply Hal|done].
Qed.

Lemma pinv_next h g l v n : pinv h g l v n → pinv h g l v (n + 1).
Proof.
  intros [Ha Hn Hlen Hsh Htl Hun Hzo Hc Hq Hr Hx Hti Hp Hpi]. split; try done; [lia|].
  intros p pr Hg Hpr Hs. specialize (Hp p pr Hg Hpr Hs). lia.
Qed.

(** A free slot becomes a process with the next pid and no threads. *)
Lemma allocproc_slot p pr (s : kst W) :
  inv s → procs s !! p = Some pr → pstate pr = UNUSED →
  inv (upd_proc p (λ pr, set_pstate USED (set_pid (nextpid s) (set_t_num 0 pr)))
         (set_nextpid (nextpid s + 1) s)).
Proof.
  intros Hinv Hpr Hu. unfold inv, inv_at. simpl. eapply pinv_upd; [by apply pinv_next|done|].
  assert (Ha := pi_unused _ _ _ _ _ Hinv p pr). split; simpl; try done.
  - split; [by eapply pi_shape|lia].
  - intros i t Ht _. by apply (Ha i).
  - intros i t Ht [?|Hr]; [done|]. by rewrite (Ha i t) in Hr.
  - intros i t Ht Hr. by rewrite (Ha i t) in Hr.
  - intros i t Ht Hc. destruct (pi_exit _ _ _ _ _ Hinv p pr i t) as [Hr _]; [done..|].
    by rewrite (Ha i t) in Hr.
  - intros; lia.
  - intros _ _. pose proof (pi_n _ _ _ _ _ Hinv). split; [lia|].
    intros q qr _ _ Hqr Hs. pose proof (pi_pid _ _ _ _ _ Hinv q qr). naive_solver lia.
Qed.

Lemma allocproc_inv me v s :
  inv s → kview s = v →
  wp (allocproc me) (λ r s', (inv s' ∧ kview s' = v) ∧ ∀ p, r = Some p → alloced p 0 EMBRYO s') s.
Proof.
  intros Hinv Hv. unfold allocproc. apply wp_bind. eapply wp_keeps; [keeps_ops|]. intros _ s1 H1.
  apply (inv_at_tab _ _ _ _ H1) in Hinv. rewrite <- (proj1 (proj2 H1)) in Hv. clear H1 s.
  apply wp_bind, wp_get. destruct (list_find _ (procs s1)) as [[p pr]|] eqn:Hf.
  - apply list_find_Some in Hf as (Hpr & Hu & _). apply wp_bind, wp_modify. unfold next_pid.
    apply wp_bind, wp_bind, wp_gets. apply wp_if; [done|intros _].
    apply wp_bind, wp_modify, wp_ret. do 2 apply wp_bind, wp_modify.
    pose proof (allocproc_slot p pr s1 Hinv Hpr Hu) as Hi.
    match goal with |- wp _ _ ?st => assert (Hi' : inv st) end.
    { revert Hi. unfold inv, inv_at. simpl. by rewrite !upd_upd. }
    clear Hi. rename Hi' into Hi.
    set (pr1 := set_pstate USED (set_pid (nextpid s1) (set_t_num 0 pr))).
    apply wp_bind. eapply wp_mono; [apply (allocthread_inv _ _ _ pr1 v)|]; try done.
    + simpl. rewrite !upd_upd, lookup_upd_eq, Hpr. done.
    + intros j u Hu' Hc. simpl in Hu'. destruct (pi_exit _ _ _ _ _ Hinv p pr j u) as [Hr _]; try done.
      by rewrite (pi_unused _ _ _ _ _ Hinv p pr j u) in Hr.
    + simpl. intros r s2 [[Hi2 Hv2] Hal]. apply wp_bind. eapply wp_keeps; [keeps_ops|].
      intros _ s3 H3. apply wp_ret. split; [split; [by eapply inv_at_tab|]|].
      * by rewrite (proj1 (proj2 H3)).
      * case_bool_decide as Hr; [done|]. intros q [= <-].
        assert (Hne : EMBRYO ≠ SLEEPING) by done.
        eapply (proj1 (stable_alloced p 0 EMBRYO Hne)); [done|]. by apply Hal.
  - apply wp_bind. eapply wp_keeps; [keeps_ops|]. intros _ s3 H3. apply wp_ret.
    split; [split; [by eapply inv_at_tab|]|done]. by rewrite (proj1 (proj2 H3)).
Qed.

(** [fork] gives the slot back when the page table cannot be copied. *)
Lemma fork_undo np x v s :
  alloced np 0 x s → x ≠ RUNNING → kview s = v →
  inv (upd_thread np 0 (set_tstate UNUSED_T) (upd_proc np (set_pstate UNUSED) s)).
Proof.
  intros (Hinv & pr & t & Hpr & Hp & Hn & Ht & Hs) Hx Hv.
  assert (Hinv1 : inv_at None (Some np) (upd_proc np (set_pstate UNUSED) s)).
  { eapply hole_upd; try done. by apply pinv_weaken. }
  assert (Hpr1 : procs (upd_proc np (set_pstate UNUSED) s) !! np = Some (set_pstate UNUSED pr)).
  { simpl. by rewrite lookup_upd_eq, Hpr. }
  eapply pinv_close_g; [eapply unuse_inv; [done|done|done|congruence]|].
  intros pr' Hpr'. destruct (upd_thread_lookup np 0 (set_tstate UNUSED_T) _ _ t Hpr1 Ht) as [E1 _].
  rewrite E1 in Hpr'. injection Hpr' as <-. simpl. split_and!; try done.
  intros _ j u Hj. destruct (upd_lookup_cases _ _ _ t _ _ Ht Hj) as [[-> ->]|[Hne Hj']]; [done|].
  eapply (pi_tail _ _ _ _ _ Hinv); [done..|lia].
Qed.

Lemma stable_dup_files J me p np s : stable J → J s → wp (dup_files me p np) (λ _ s', J s') s.
Proof.
  intros st Hh. unfold dup_files. apply (wp_for_range (λ _, J)); [done|]. clear s Hh.
  intros fd s _ Hh. do 2 kp st Hh. destruct (_ !! fd) as [[f|]|]; repeat kp st Hh; done.
Qed.

Lemma start_inv np s : alloced np 0 EMBRYO s → inv (upd_thread np 0 (set_tstate RUNNABLE) s).
Proof.
  intros (Hinv & pr & t & Hpr & Hp & Hn & Ht & Hs). unfold inv, inv_at. simpl.
  eapply (pinv_upd_thread _ _ _ _ _ _ _ _ pr t); simpl; try done; try congruence; try lia.
  - intros _. left. split; congruence.
  - intros Hc. destruct (pi_exit _ _ _ _ _ Hinv np pr 0 t) as [? _]; [done..|congruence].
  - intros _ _. eapply (pi_tid _ _ _ _ _ Hinv); eauto; [lia|congruence].
Qed.

Lemma fork_inv me p i s : here None me p i s → wp (fork kend me) (λ _ s', inv s') s.
Proof.
  intros Hh. unfold fork. go_proc Hh. go_thread Hh. apply wp_bind.
  eapply wp_mono; [by apply (allocproc_inv me (kview s)); [apply Hh|]|]. simpl.
  intros r s1 [[Hinv Hv] Hal]. destruct r as [np|]; [|by apply wp_ret].
  pose proof (conj (Hal np eq_refl) Hv) as Hh1. clear Hal Hinv Hv.
  assert (Hne : EMBRYO ≠ SLEEPING) by done.
  pose proof (stable_and _ _ (stable_alloced np 0 EMBRYO Hne) (stable_view (kview s))) as st.
  do 8 kp st Hh1. kp st Hh1.
  - do 6 kp st Hh1. apply wp_bind, wp_modify, wp_bind, wp_modify, wp_ret.
    destruct Hh1. by eapply fork_undo.
  - do 11 kp st Hh1. eapply wp_mono; [by apply (stable_dup_files _ _ _ _ _ st)|]. simpl. clear Hh1.
    intros _ s9 Hh1. do 10 kp st Hh1. apply wp_bind, wp_modify, wp_bind.
    eapply wp_keeps; [keeps_ops|]. intros _ s10 H10. apply wp_ret.
    eapply inv_at_tab; [done|]. apply start_inv, Hh1.
Qed.

Lemma kthread_create_inv me p i f stk s :
  here None me p i s → wp (kthread_create me f stk) (λ _ s', inv s') s.
Proof.
  intros Hh. pose proof (stable_here None me p i) as st. unfold kthread_create. do 2 kp st Hh.
  go_proc Hh. pose proof (here_facts _ _ _ _ Hh) as (pr & t & Hpr & Ht & Hs & Hp & _).
  apply wp_bind. eapply wp_mono.
  { eapply (allocthread_inv _ _ _ pr); [apply Hh|reflexivity|done..|].
    intros j u Hj Hc. destruct Hh as (Hinv & _ & Hctx).
    destruct (decide (j = i)) as [->|Hne]; [by eapply (Hctx pr u)|].
    destruct (pi_exit _ _ _ _ _ Hinv p pr j u) as [_ Hd]; [done..|]. apply (Hd i t); [congruence|done|].
    split; congruence. }
  simpl. intros r0 s9 [[Hinv Hv] Hal]. clear st. apply wp_if; [by intros; apply wp_ret|].
  intros Hr%bool_decide_eq_false. specialize (Hal Hr).
  assert (Hne : RUNNABLE ≠ SLEEPING) by done.
  assert (Hru : runs me p i s9) by (destruct Hh as (_ & Hru & _); unfold runs in *; by rewrite Hv).
  pose proof (conj Hal Hru) as Hh1. clear Hal Hru Hv Hinv.
  pose proof (stable_and _ _ (stable_alloced p (t_num pr) RUNNABLE Hne) (stable_runs me p i)) as st.
  apply wp_bind. eapply wp_cur_proc; [apply Hh1|apply Hh1|]. intros s2 H2. apply (proj1 st _ _ H2) in Hh1.
  do 2 kp st Hh1.
  apply wp_bind. eapply wp_cur_thread; [apply Hh1|apply Hh1|]. intros s4 H4. apply (proj1 st _ _ H4) in Hh1.
  repeat kp st Hh1. apply Hh1.
Qed.

(** ** The scheduler and the return from it *)

(** The CPU takes a runnable thread. *)
Lemma dispatch_inv me p i pr t c (s : kst W) :
  inv s → cpus (kmach s) !! me = Some c → cthread c = None →
  procs s !! p = Some pr → threads pr !! i = Some t → tstate t = RUNNABLE → (i < t_num pr)%nat →
  wp (on_mach (modify (upd_cpu me (set_cur (Some p) (Some (p, i))))) ;;
      switchuvm me p i ;; set_thread p i (set_tstate RUNNING)) (λ _ s', inv s') s.
Proof.
  intros Hinv Hc Hn Hpr Ht Hs Hi. apply wp_bind, wp_zoom, wp_modify.
  match goal with |- wp _ _ ?st => set (s1 := st) end.
  assert (Hv : kview s1 = <[me := (apicid c, Some p, Some (p, i))]> (kview s)).
  { unfold kview, s1, kmach. simpl. by apply (mview_upd_cpu_set _ _ _ c). }
  assert (Hc' : kview s !! me = Some (apicid c, cproc c, None)).
  { unfold kview, mview. rewrite list_lookup_fmap, Hc. simpl. unfold cview. by rewrite Hn. }
  assert (Hinv1 : inv_at (Some (p, i)) None s1).
  { unfold inv_at. rewrite Hv. eapply pinv_take_view; [exact Hinv|done..|congruence]. }
  assert (Hcur : ∃ pr t, procs s1 !! p = Some pr ∧ threads pr !! i = Some t ∧
            tstate t = RUNNABLE ∧ (i < t_num pr)%nat) by eauto 10.
  clear Hinv Hpr Ht. apply wp_bind. eapply wp_keeps.
  { unfold switchuvm. apply keeps_tab_bind; [keeps_ops|intros u]. case_bool_decide; [done|].
    apply keeps_tab_bind; [keeps_ops|intros q]. case_bool_decide; [done|].
    apply keeps_tab_bind; [keeps_ops|intros _]. keeps_ops. }
  intros _ s2 H2. apply wp_modify. apply (inv_at_tab _ _ _ _ H2) in Hinv1.
  rewrite <- (proj1 H2) in Hcur. rewrite <- (proj1 (proj2 H2)) in Hv. clear H2.
  destruct Hcur as (pr' & t' & Hpr' & Ht' & Hs' & Hi').
  eapply (pinv_drop_h _ _ _ _ p i); [|simpl; rewrite lookup_upd_eq, Hpr'; done
    |simpl; rewrite lookup_upd_eq, Ht'; done|done].
  simpl. eapply (pinv_upd_thread _ _ _ _ _ _ _ _ pr' t'); simpl; try done.
  - lia.
  - intros _ Hu. by rewrite (pi_unused _ _ _ _ _ Hinv1 p pr' i t') in Hs'.
  - intros _ Hz. exfalso. apply (pi_zombie _ _ _ _ _ Hinv1 p pr' i t'); try done. split; congruence.
  - auto.
  - intros _. right. exists me, (apicid c), (Some p). change (kview s2 !! me = Some (apicid c, Some p, Some (p, i))).
    rewrite Hv. apply list_lookup_insert_eq. by eapply lookup_lt_Some.
  - intros _. left. split; congruence.
  - intros Hcx. destruct (pi_exit _ _ _ _ _ Hinv1 p pr' i t') as [? _]; [done..|congruence].
  - intros _ _. eapply (pi_tid _ _ _ _ _ Hinv1); eauto. congruence.
Qed.

Lemma scheduler_step_inv me (s : kst W) :
  inv s → cthread <$> cpus (kmach s) !! me = Some None → wp (scheduler_step me) (λ _ s', inv s') s.
Proof.
  intros Hinv Hc. destruct (cpus (kmach s) !! me) as [c|] eqn:Hcpu; [|done]. injection Hc as Hc.
  unfold scheduler_step. apply wp_bind, wp_zoom, wp_this_cpu. intros c' Hcpu'.
  rewrite Hcpu in Hcpu'. injection Hcpu' as <-.
  assert (H1 : same_tab s (set_kmach (kmach s) s)) by done.
  apply (inv_at_tab _ _ _ _ H1) in Hinv.
  change (cpus (kmach (set_kmach (kmach s) s)) !! me = Some c) in Hcpu.
  set (s1 := set_kmach (kmach s) s) in *. change (set_kmach _ s) with s1. clearbody s1.
  clear s H1. rename s1 into s.
  pose proof (stable_inv_at None None) as st. cbv zeta.
  assert (Hgoto : ∀ x (s' : kst W), inv s' → wp (on_mach (modify (upd_cpu me (set_scan x)))) (λ _ s', inv s') s').
  { intros x s' Hs'. eapply wp_keeps; [apply keeps_on_mach, keeps_modify|].
    - intros m. by apply mview_upd_cpu.
    - intros _ s2 H2. by eapply inv_at_tab. }
  destruct (cscan c) as [|p|p i].
  - do 4 kp st Hinv. by apply Hgoto.
  - kp st Hinv; [do 2 kp st Hinv; by apply Hgoto|]. do 2 kp st Hinv. kp st Hinv; by apply Hgoto.
  - apply wp_bind, wp_proc_at. intros pr Hpr. kp st Hinv; [by apply Hgoto|].
    apply wp_bind, wp_thread_at. intros pr' t Hpr' Ht. rewrite Hpr in Hpr'. injection Hpr' as <-.
    apply wp_if; [intros _; by apply Hgoto|]. intros Hs%bool_decide_eq_false%dec_stable.
    eapply dispatch_inv; try done. apply Nat.nle_gt. by eapply bool_decide_eq_false.
Qed.

Lemma forkret_inv me s : inv s → wp (forkret me) (λ _ s', inv s') s.
Proof.
  intros Hh. pose proof (stable_inv_at None None) as st. unfold forkret. do 2 kp st Hh.
  apply wp_bind, wp_gets. apply wp_bind. apply (wp_mono _ (λ _ s', inv s')).
  - destruct (first_forkret s0); [|by apply wp_ret]. apply wp_bind, wp_modify.
    change (inv (set_first false s0)) in Hh. kp st Hh. done.
  - intros _ s' Hi. by apply wp_ret.
Qed.

Lemma keeps_sched_return me p i : keeps_tab (sched_return (W:=W) me p i).
Proof.
  unfold sched_return. apply keeps_tab_bind; [keeps_ops|]. intros t.
  apply keeps_on_mach, keeps_modify. intros m. by apply mview_upd_cpu.
Qed.

(** What holds when a thread continues, its stack having left its last point. *)
Lemma resume_here me p i t (s : kst W) :
  inv s → runs me p i s → get_thread s p i = Some t →
  here None me p i (upd_thread p i (set_context InUser) s) ∧
  (context t = InExitProcess → lone p i (upd_thread p i (set_context InUser) s)).
Proof.
  intros Hinv Hr Hg. unfold get_thread in Hg. apply bind_Some in Hg as (pr & Hpr & Ht).
  destruct (upd_thread_lookup p i (set_context InUser) s pr t Hpr Ht) as [E1 E2].
  split; [split; [|split]|].
  - apply inv_upd_thread_mild; [|done]. intros u. unfold mild_thread. simpl. auto.
  - done.
  - intros pr' t' Hpr' Ht'. rewrite E1 in Hpr'. injection Hpr' as <-. simpl in Ht'.
    rewrite E2 in Ht'. by injection Ht' as <-.
  - intros Hc pr' Hpr' j u Hne Hu. rewrite E1 in Hpr'. injection Hpr' as <-. simpl in Hu.
    rewrite lookup_upd_ne in Hu by done.
    destruct (pi_exit _ _ _ _ _ Hinv p pr i t) as [_ Hd]; [done..|]. by apply (Hd j).
Qed.

Lemma resume_inv me p i (s : kst W) :
  inv s → runs me p i s → wp (resume kend me) (λ _ s', inv s') s.
Proof.
  intros Hinv Hr. unfold resume. apply wp_bind. eapply wp_cur_thread; [done..|]. intros s1 H1.
  apply (inv_at_tab _ _ _ _ H1) in Hinv. apply (runs_tab _ _ _ _ _ H1) in Hr. clear H1 s.
  apply wp_bind, wp_thread_at. intros pr t Hpr Ht. apply wp_bind, wp_modify.
  destruct (resume_here me p i t s1 Hinv Hr) as [Hh Hlone].
  { unfold get_thread. by rewrite Hpr. }
  pose proof (stable_here None me p i) as st. cbv zeta. clear Hpr Ht Hinv Hr.
  generalize dependent (upd_thread p i (set_context InUser) s1). clear s1. intros s Hh Hlone.
  assert (Hnext : ∀ next s', here None me p i s' →
    wp (match next with ToWait => wait_loop kend me p (p, i) | ToJoin q j => join_loop me q j
        | ToCaller => mret (Return 0) end) (λ _ s', inv s') s').
  { intros [|q j|] s' Hs'; [by eapply wait_loop_inv|by eapply join_loop_inv|].
    apply wp_ret. by eapply here_inv. }
  assert (Hsr : ∀ (k : K kres) s', here None me p i s' → (∀ s'', here None me p i s'' →
    wp k (λ _ s', inv s') s'') → wp (sched_return me p i ;; k) (λ _ s', inv s') s').
  { intros k s' Hs' Hk. apply wp_bind. eapply wp_keeps; [apply keeps_sched_return|].
    intros _ s2 H2. apply Hk. by eapply here_tab. }
  destruct (context t) as [| | | |lk next|lk next| |].
  - kp st Hh. by eapply here_inv.
  - eapply exit_process_inv; [exact Hh|by apply Hlone].
  - apply forkret_inv. by eapply here_inv.
  - apply Hsr; [done|]. clear s Hh Hlone. intros s Hh. repeat kp st Hh. by eapply here_inv.
  - apply Hsr; [done|]. clear s Hh Hlone. intros s Hh. do 2 kp st Hh.
    kp st Hh; [|by apply Hnext]. repeat kp st Hh. by eapply here_inv.
  - do 2 kp st Hh. by apply Hnext.
  - kp st Hh. by eapply here_inv.
  - done.
Qed.

Lemma run_call_inv me p i x (s : kst W) :
  here None me p i s → wp (run_call kend me x) (λ _ s', inv s') s.
Proof.
  intros Hh. pose proof (stable_here None me p i) as st.
  assert (Hret : ∀ m : K Z, wp m (λ _ s', inv s') s →
    wp (v ← m; mret (Return v)) (λ _ s', inv s') s).
  { intros m Hm. apply wp_bind. eapply wp_mono; [done|]. simpl. intros a s' Hs'. by apply wp_ret. }
  destruct x; simpl.
  - eapply Hret, fork_inv; eauto.
  - eapply exit_inv; eauto.
  - eapply wait_inv; eauto.
  - apply Hret. apply stable_kill; [apply stable_inv_at|]. by eapply here_inv.
  - eapply yield_inv; eauto.
  - eapply Hret, growproc_inv; eauto.
  - eapply Hret, kthread_create_inv; eauto.
  - eapply kthread_exit_inv; eauto.
  - eapply kthread_join_inv; eauto.
  - eapply sleep_inv; eauto.
  - apply wp_bind. eapply wp_mono; [apply (stable_wakeup _ _ _ _ st Hh)|]. simpl.
    intros _ s' Hs'. apply wp_ret. by eapply here_inv.
Qed.

Lemma runs_current me p i (s : kst W) :
  cthread <$> cpus (kmach s) !! me = Some (Some (p, i)) → runs me p i s.
Proof.
  intros Hc. destruct (cpus (kmach s) !! me) as [c|] eqn:Hcpu; [|done]. injection Hc as Hc.
  exists (apicid c), (cproc c). unfold kview, mview. rewrite list_lookup_fmap, Hcpu. simpl.
  unfold cview. by rewrite Hc.
Qed.

Lemma wp_use {A} (m : K A) Q s a s' : wp m Q s → m s = Ok a s' → Q a s'.
Proof. unfold wp. intros Hw E. by rewrite E in Hw. Qed.

Lemma kstep_inv me (s s' : kst W) : kstep kend me s s' → inv s → inv s'.
Proof.
  intros [s1 p i t x r s2 Hc Ht Hu Hrun|s1 p i t r s2 Hc Ht Hu Hrun|s1 s2 Hc Hrun] Hinv.
  - refine (wp_use _ _ _ _ _ (run_call_inv me p i x s1 _) Hrun). split; [done|].
    split; [by apply runs_current|]. intros pr u Hpr Hu'. unfold get_thread in Ht.
    rewrite Hpr in Ht. simpl in Ht. rewrite Hu' in Ht. injection Ht as ->. congruence.
  - refine (wp_use _ _ _ _ _ (resume_inv me p i s1 Hinv _) Hrun). by apply runs_current.
  - by refine (wp_use _ _ _ _ _ (scheduler_step_inv me s1 Hinv Hc) Hrun).
Qed.

Lemma ksteps_inv (s s' : kst W) : ksteps kend s s' → inv s → inv s'.
Proof.
  apply rtc_invariant. intros x y [me Hst]. by eapply kstep_inv.
Qed.

(** ** The first process *)

Lemma reuse_inv p i x (s : kst W) :
  alloced p i x s → alloced p i x (upd_proc p (set_pstate USED) s).
Proof.
  intros (Hinv & pr & t & Hpr & Hp & Hrest). split.
  - unfold inv, inv_at. simpl. eapply pinv_upd; [done|done|].
    replace (set_pstate USED pr) with pr; [by apply slot_ok_self|].
    destruct pr. simpl in *. by subst.
  - exists (set_pstate USED pr), t. simpl. rewrite lookup_upd_eq, Hpr. naive_solver.
Qed.

Lemma userinit_inv me (s : kst W) : inv s → wp (userinit me) (λ _ s', inv s') s.
Proof.
  intros Hi. unfold userinit. apply wp_bind.
  eapply wp_mono; [by apply (allocproc_inv me (kview s))|]. simpl. intros r s1 [_ Hal].
  apply wp_bind, wp_deref. intros p ->. specialize (Hal p eq_refl).
  assert (Hne : EMBRYO ≠ SLEEPING) by done. pose proof (stable_alloced p 0 EMBRYO Hne) as st.
  do 2 kp st Hal. apply wp_bind, wp_modify. change (alloced p 0 EMBRYO (set_initproc (Some p) s0)) in Hal.
  do 4 kp st Hal. kp st Hal; [done|]. do 12 kp st Hal.
  apply wp_bind, wp_modify, wp_bind, wp_modify. apply reuse_inv, start_inv in Hal.
  eapply wp_keeps; [keeps_ops|]. intros _ s9 H9. by eapply inv_at_tab.
Qed.

End Safe.
