(* ===== verification/ProcThm.v ===== *)
(** * The process table in every reachable state

    [userinit] on the zeroed table of the kernel image, then any interleaving of
    the transitions of the CPUs: the invariant of ProcInv.v holds throughout.
    The theorems read off what it says.  Executions are also given as a
    function, so that examples evaluate. *)

From S2P Require Import Prelude Spinlock Kalloc ProcData Proc ProcInv ProcSafe.

(** ** The table of the kernel image *)

Definition zero_thread : thread := Thread 0 UNUSED_T 0 0 zero_tf CNull InUser 0 false None 0.

Definition zero_proc : proc :=
  Proc 0 0 0 0 None (replicate NOFILE None) "" (replicate NTHREADS zero_thread) UNUSED 0 None.

Section Thm.

Context {W : Type} `{HL : WorldLaws W}.

Variable kend : Z.

Abbreviation K := (M (kst W)).

Record initial (s : kst W) : Prop := Initial {
  in_procs : procs s = replicate NPROC zero_proc;
  in_nextpid : nextpid s = 1;
  in_apic : mach_wf (kmach s);
  in_idle c x : cpus (kmach s) !! c = Some x → cthread x = None;
}.

(** The state when the first process exists and the CPUs enter their schedulers. *)
Definition booted (me : nat) (s : kst W) : Prop :=
  ∃ s0, initial s0 ∧ userinit me s0 = Ok tt s.

Definition current (s : kst W) (c : nat) : option (nat * nat) := cpus (kmach s) !! c ≫= cthread.

Lemma zero_lookup (l : list proc) p pr i t :
  l = replicate NPROC zero_proc → l !! p = Some pr → threads pr !! i = Some t →
  pr = zero_proc ∧ t = zero_thread.
Proof.
  intros -> [-> _]%lookup_replicate Ht. split; [done|]. by apply lookup_replicate in Ht as [-> _].
Qed.

Lemma initial_inv s : initial s → inv s.
Proof.
  intros [Hp Hn Ha Hidle]. unfold inv, inv_at. rewrite Hp, Hn. split.
  - unfold apic_nodup, kview, mview. rewrite <- list_fmap_compose. apply Ha.
  - lia.
  - apply length_replicate.
  - intros p pr [-> _]%lookup_replicate. simpl. unfold NTHREADS. lia.
  - intros p pr i t H1 H2 _. by destruct (zero_lookup _ _ _ _ _ eq_refl H1 H2) as [_ ->].
  - intros p pr i t _ H1 _ H2. by destruct (zero_lookup _ _ _ _ _ eq_refl H1 H2) as [_ ->].
  - intros p pr i t _ [-> _]%lookup_replicate. done.
  - intros c a cp p i Hv. unfold kview, mview in Hv. rewrite list_lookup_fmap in Hv.
    destruct (cpus (kmach s) !! c) as [x|] eqn:Hc; [|done]. injection Hv as _ _ Hx.
    by rewrite (Hidle c x Hc) in Hx.
  - intros c c' a a' cp cp' x Hv. unfold kview, mview in Hv. rewrite list_lookup_fmap in Hv.
    destruct (cpus (kmach s) !! c) as [y|] eqn:Hc; [|done]. injection Hv as _ _ Hx.
    by rewrite (Hidle c y Hc) in Hx.
  - intros p pr i t H1 H2. by destruct (zero_lookup _ _ _ _ _ eq_refl H1 H2) as [_ ->].
  - intros p pr i t H1 H2. by destruct (zero_lookup _ _ _ _ _ eq_refl H1 H2) as [_ ->].
  - intros p pr i t H1 H2 Hi. destruct (zero_lookup _ _ _ _ _ eq_refl H1 H2) as [-> _].
    simpl in Hi. lia.
  - intros p pr _ [-> _]%lookup_replicate. done.
  - intros p q pr qr _ _ [-> _]%lookup_replicate. done.
Qed.

(** ** Reachable states *)

Lemma reachable_inv me s s' : booted me s → ksteps kend s s' → inv s'.
Proof.
  intros (s0 & Hi & Hu) Hs. eapply ksteps_inv; [done|].
  refine (wp_use _ _ _ _ _ (userinit_inv me s0 _) Hu). by apply initial_inv.
Qed.

Lemma current_view (s : kst W) c x :
  current s c = Some x ↔ ∃ a cp, kview s !! c = Some (a, cp, Some x).
Proof.
  unfold current, kview, mview. rewrite list_lookup_fmap.
  destruct (cpus (kmach s) !! c) as [y|]; simpl; [|naive_solver].
  unfold cview. split; [|naive_solver]. intros ->. eauto.
Qed.

Lemma get_thread_Some (s : kst W) p i t :
  get_thread s p i = Some t ↔ ∃ pr, procs s !! p = Some pr ∧ threads pr !! i = Some t.
Proof. unfold get_thread. by rewrite bind_Some. Qed.

Lemma inv_running (s : kst W) : inv s →
  (∀ p i t, get_thread s p i = Some t → (tstate t = RUNNING ↔ ∃ c, current s c = Some (p, i))) ∧
  (∀ c1 c2 x, current s c1 = Some x → current s c2 = Some x → c1 = c2) ∧
  (∀ c x p i, cpus (kmach s) !! c = Some x → cthread x = Some (p, i) → cproc x = Some p).
Proof.
  intros Hinv. split_and!.
  - intros p i t (pr & Hpr & Ht)%get_thread_Some. split.
    + intros Hr. destruct (pi_run _ _ _ _ _ Hinv p pr i t Hpr Ht Hr) as (c & a & cp & Hv).
      exists c. apply current_view. eauto.
    + intros (c & (a & cp & Hv)%current_view).
      destruct (pi_cur _ _ _ _ _ Hinv _ _ _ _ _ Hv) as (_ & pr' & t' & Hpr' & Ht' & [?|?]); [done|].
      congruence.
  - intros c1 c2 x (a & cp & H1)%current_view (a' & cp' & H2)%current_view.
    eapply (pi_uniq _ _ _ _ _ Hinv); eauto.
  - intros c x p i Hc Hx.
    eapply (proj1 (pi_cur _ _ _ _ _ Hinv c (apicid x) (cproc x) p i _)).
    Unshelve. unfold kview, mview. rewrite list_lookup_fmap, Hc. simpl. unfold cview. by rewrite Hx.
Qed.

(** C1: in every reachable state a thread is running exactly when some CPU has
    it as its current thread, no two CPUs have the same current thread, and
    [c->proc] of that CPU is the process the thread belongs to. *)
Theorem running_thread_on_one_cpu me s s' :
  booted me s → ksteps kend s s' →
  (∀ p i t, get_thread s' p i = Some t → (tstate t = RUNNING ↔ ∃ c, current s' c = Some (p, i))) ∧
  (∀ c1 c2 x, current s' c1 = Some x → current s' c2 = Some x → c1 = c2) ∧
  (∀ c x p i, cpus (kmach s') !! c = Some x → cthread x = Some (p, i) → cproc x = Some p).
Proof. intros Hb Hs. by eapply inv_running, reachable_inv. Qed.

(** In every reachable state the processes in use have distinct pids, all
    positive and below the next one to be given. *)
Theorem pids_distinct me s s' :
  booted me s → ksteps kend s s' →
  ∀ p q pr qr, procs s' !! p = Some pr → procs s' !! q = Some qr →
  pstate pr ≠ UNUSED → pstate qr ≠ UNUSED → 0 < pid pr < nextpid s' ∧ (pid pr = pid qr → p = q).
Proof.
  intros Hb Hs p q pr qr Hp Hq Hsp Hsq. pose proof (reachable_inv _ _ _ Hb Hs) as Hinv. split.
  - by eapply (pi_pid _ _ _ _ _ Hinv).
  - by eapply (pi_pid_inj _ _ _ _ _ Hinv p q pr qr).
Qed.

(** C15: in every reachable state a process has at most [NTHREADS] threads, a
    thread in use has the id one above its slot, a free process has no thread in
    use, a zombie process has no live thread, and a thread that is between
    [exit_thread] and [exit_process] is running and is the only live one. *)
Theorem thread_table_consistent me s s' :
  booted me s → ksteps kend s s' →
  ∀ p pr, procs s' !! p = Some pr →
  (t_num pr ≤ NTHREADS)%nat ∧
  (∀ i t, threads pr !! i = Some t → tstate t ≠ UNUSED_T → (i < t_num pr)%nat ∧ tid t = Z.of_nat (S i)) ∧
  (∀ i t, threads pr !! i = Some t → pstate pr = UNUSED → tstate t = UNUSED_T) ∧
  (∀ i t, threads pr !! i = Some t → pstate pr = ZOMBIE → tstate t = ZOMBIE_T ∨ tstate t = UNUSED_T) ∧
  (∀ i t j u, threads pr !! i = Some t → threads pr !! j = Some u → context t = InExitProcess →
     live u → tstate t = RUNNING ∧ i = j).
Proof.
  intros Hb Hs p pr Hpr. pose proof (reachable_inv _ _ _ Hb Hs) as Hinv.
  pose proof (slot_ok_self _ _ _ _ _ _ _ Hinv Hpr) as [S1 S2 S3 S4 S5 S6 S7 S8 S9].
  split_and!; [apply S1|..].
  - intros i t Ht Hu. assert (Hi : (i < t_num pr)%nat).
    { destruct (decide (i < t_num pr)%nat); [done|]. destruct Hu. apply (S2 i); [done|lia]. }
    split; [done|]. by apply (S8 i).
  - intros i t Ht Hu. by apply (S3 i t).
  - intros i t Ht Hz. specialize (S4 i t). unfold live in S4. destruct (tstate t); naive_solver.
  - intros i t j u Ht Hu Hc Hl. destruct (S7 i t Ht Hc) as [Hr Hd]. split; [done|].
    destruct (decide (i = j)) as [|Hne]; [done|]. destruct (Hd j u); auto.
Qed.

(** ** Executions as a function *)

Inductive event : Type :=
| ESched
| EResume
| ECall (x : kcall).

Definition in_user (me : nat) (s : kst W) : option bool :=
  '(p, i) ← current s me;
  t ← get_thread s p i;
  mret (match context t with InUser => true | _ => false end).

Definition result {A} (o : outcome (kst W) A) : option (kst W) :=
  match o with Ok _ s => Some s | _ => None end.

Definition exec_event (me : nat) (e : event) (s : kst W) : option (kst W) :=
  match e, cthread <$> cpus (kmach s) !! me, in_user me s with
  | ESched, Some None, _ => result (scheduler_step me s)
  | EResume, Some (Some _), Some false => result (resume kend me s)
  | ECall x, Some (Some _), Some true => result (run_call kend me x s)
  | _, _, _ => None
  end.

Fixpoint exec_events (l : list (nat * event)) (s : kst W) : option (kst W) :=
  match l with
  | [] => Some s
  | (me, e) :: l => s' ← exec_event me e s; exec_events l s'
  end.

Lemma result_Some {A} (o : outcome (kst W) A) s : result o = Some s → ∃ a, o = Ok a s.
Proof. destruct o; [|done..]. simpl. intros [= <-]. eauto. Qed.

Lemma in_user_Some me b (s : kst W) x :
  cthread <$> cpus (kmach s) !! me = Some (Some x) → in_user me s = Some b →
  ∃ p i t, x = (p, i) ∧ get_thread s p i = Some t ∧
    if b then context t = InUser else context t ≠ InUser.
Proof.
  intros Hc. unfold in_user, current. destruct (cpus (kmach s) !! me) as [c|]; [|done].
  injection Hc as Hc. simpl. rewrite Hc. simpl. destruct x as [p i].
  destruct (get_thread s p i) as [t|] eqn:Ht; [|done]. simpl. intros [= <-].
  exists p, i, t. by destruct (context t).
Qed.

Lemma exec_event_sound me e (s s' : kst W) : exec_event me e s = Some s' → kstep kend me s s'.
Proof.
  unfold exec_event. intros He. destruct (cthread <$> _) as [[x|]|] eqn:Hc; [|destruct e|by destruct e].
  - destruct e as [| |y], (in_user me s) as [[]|] eqn:Hu; try done;
      destruct (in_user_Some _ _ _ _ Hc Hu) as (p & i & t & -> & Ht & Hx);
      apply result_Some in He as [r He].
    + by eapply kstep_resume.
    + by eapply kstep_call.
  - apply result_Some in He as [[] He]. by apply kstep_sched.
  - done.
  - done.
Qed.

Lemma exec_events_sound l : ∀ s s' : kst W, exec_events l s = Some s' → ksteps kend s s'.
Proof.
  induction l as [|[me e] l IH]; intros s s'; simpl.
  - intros [= <-]. apply rtc_refl.
  - intros (s1 & H1 & H2)%bind_Some. eapply rtc_l; [|by apply IH]. exists me.
    by eapply exec_event_sound.
Qed.

End Thm.

(** ** An example machine

    Two CPUs, a page allocator with a few free pages, and callees that always
    succeed. *)

#[global] Instance unit_world : World unit := {
  setupkvm _ := mret 4096;
  inituvm _ _ := mret tt;
  copyuvm _ _ _ := mret 8192;
  freevm _ _ := mret tt;
  allocuvm _ _ _ n := mret n;
  deallocuvm _ _ _ n := mret n;
  filedup _ f := mret f;
  fileclose _ _ := mret tt;
  idup _ i := mret i;
  iput _ _ := mret tt;
  namei_root _ := mret (Some 1%nat);
  begin_op _ := mret tt;
  end_op _ := mret tt;
  iinit_initlog _ := mret tt;
}.

#[global] Instance unit_world_laws : WorldLaws unit.
Proof. split; intros; intros x; by apply wp_ret. Qed.

Definition demo_pages : kmem :=
  match kinit1 demo_kend 0 0x80111000 0x80119000 demo_kmem0 with
  | Ok _ k => set_use_lock 1 k
  | _ => demo_kmem0
  end.

Definition demo_initial : kst unit :=
  Kst demo_pages (replicate NPROC zero_proc) 1 None true tt.

Definition demo_booted : kst unit := default demo_initial (result (userinit 0 demo_initial)).

Definition demo_run (l : list (nat * event)) : kst unit :=
  default demo_booted (exec_events demo_kend l demo_booted).

Lemma default_Some {A} (d : A) (o : option A) : is_Some o → o = Some (default d o).
Proof. intros [x ->]. done. Qed.

Lemma is_Some_bool {A} (o : option A) : match o with Some _ => true | None => false end = true → is_Some o.
Proof. destruct o; [eauto|done]. Qed.

Lemma demo_cpus : cpus (kmach demo_initial) = cpus demo_mach.
Proof. vm_compute. reflexivity. Qed.

Lemma demo_booted_ok : booted 0 demo_booted.
Proof.
  exists demo_initial. split; [split|].
  - reflexivity.
  - reflexivity.
  - unfold mach_wf. rewrite demo_cpus. apply demo_mach_wf.
  - intros c x. rewrite demo_cpus. destruct c as [|[|c]]; simpl; [by intros [= <-]..|done].
  - destruct (result_Some (userinit 0 demo_initial) demo_booted) as [[] He]; [|exact He].
    apply default_Some, is_Some_bool. vm_compute. reflexivity.
Qed.

(** CPU 0 runs init, which forks; CPU 1 then runs the child, which creates a
    second thread. *)
Definition demo_script : list (nat * event) :=
  replicate 3 (0%nat, ESched) ++ [(0%nat, EResume); (0%nat, ECall CallFork)] ++
  replicate 6 (1%nat, ESched) ++ [(1%nat, EResume); (1%nat, ECall (CallKthreadCreate 100 200))].

Definition demo_state : kst unit := demo_run demo_script.

Lemma demo_reachable : ksteps demo_kend demo_booted demo_state.
Proof.
  apply (exec_events_sound demo_kend demo_script), default_Some, is_Some_bool.
  vm_compute. reflexivity.
Qed.

Lemma running_thread_on_one_cpu_witness :
  current demo_state 0 = Some (0%nat, 0%nat) ∧ current demo_state 1 = Some (1%nat, 0%nat) ∧
  (tstate <$> get_thread demo_state 1 1) = Some RUNNABLE ∧
  (∀ c1 c2 x, current demo_state c1 = Some x → current demo_state c2 = Some x → c1 = c2).
Proof.
  split_and!; [vm_compute; reflexivity..|].
  apply (running_thread_on_one_cpu demo_kend 0 demo_booted demo_state demo_booted_ok demo_reachable).
Defined.

Lemma pids_distinct_witness :
  (pid <$> procs demo_state !! 0%nat) = Some 1 ∧ (pid <$> procs demo_state !! 1%nat) = Some 2 ∧
  (∀ p q pr qr, procs demo_state !! p = Some pr → procs demo_state !! q = Some qr →
   pstate pr ≠ UNUSED → pstate qr ≠ UNUSED →
   0 < pid pr < nextpid demo_state ∧ (pid pr = pid qr → p = q)).
Proof.
  split_and!; [vm_compute; reflexivity..|].
  apply (pids_distinct demo_kend 0 demo_booted demo_state demo_booted_ok demo_reachable).
Defined.

Lemma thread_table_consistent_witness :
  (tid <$> get_thread demo_state 1 1) = Some 2 ∧
  (∀ pr, procs demo_state !! 1%nat = Some pr → (t_num pr ≤ NTHREADS)%nat).
Proof.
  split; [vm_compute; reflexivity|]. intros pr Hpr.
  apply (thread_table_consistent demo_kend 0 demo_booted demo_state demo_booted_ok demo_reachable
           1 pr Hpr).
Defined.
