(* ===== verification/ProcTotal.v ===== *)
(** * Operations on the process table that return

    Total correctness of [wakeup], [kill] and the operations the other
    components call, from a machine whose CPUs are consistent and with
    [ptable.lock] free. *)

From S2P Require Import Prelude Spinlock Kalloc ProcData Proc.

Section Total.

Context {W : Type}.

Abbreviation K := (M (kst W)).

Lemma wpt_enter_ptable {B} me (k : K B) Q s :
  calm (kmach s) → (me < length (cpus (kmach s)))%nat → free Lptable (kmach s) →
  (∀ s1, entered me Lptable s s1 → wpt k Q s1) → wpt (acquire_ptable me ;; k) Q s.
Proof. exact (wpt_enter me Lptable k Q s). Qed.

Lemma wpt_leave_ptable {B} me (k : K B) Q (s s1 s2 : kst W) :
  entered me Lptable s s1 → quiet me (kmach s1) (kmach s2) →
  (∀ m3, quiet me (kmach s) m3 → lock_frame me Lptable (kmach s2) m3 → free Lptable m3 →
     wpt k Q (set_kmach m3 s2)) →
  wpt (release_ptable me ;; k) Q s2.
Proof. exact (wpt_leave me Lptable k Q s s1 s2). Qed.

(** A critical section on [ptable.lock] that rewrites the table. *)
Lemma wpt_ptable_section me (f : list proc → list proc) Q (s : kst W) :
  calm (kmach s) → (me < length (cpus (kmach s)))%nat → free Lptable (kmach s) →
  (∀ m, quiet me (kmach s) m → Q tt (set_kmach m (set_procs (f (procs s)) s))) →
  wpt (acquire_ptable me ;; modify (λ s, set_procs (f (procs s)) s) ;; release_ptable me) Q s.
Proof.
  intros Hm Hme Hf HQ. refine (wpt_enter me Lptable _ Q s Hm Hme Hf _). intros s1 He.
  apply wpt_bind, wpt_modify.
  refine (wpt_leave_end me Lptable Q s s1 (set_procs (f (procs s1)) s1) He (quiet_refl _ _) _).
  intros m3 Hq _ _. destruct (entered_put _ _ _ _ He) as [m ->]. by apply HQ.
Qed.

Lemma wpt_wakeup me ch Q (s : kst W) :
  calm (kmach s) → (me < length (cpus (kmach s)))%nat → free Lptable (kmach s) →
  (∀ m, quiet me (kmach s) m →
     Q tt (set_kmach m (set_procs (each_thread (wake_on ch) <$> procs s) s))) →
  wpt (wakeup me ch) Q s.
Proof. apply (wpt_ptable_section me (λ l, each_thread (wake_on ch) <$> l)). Qed.

(** ** The current thread *)

Lemma current_ok {A} me (f : cpu → A) c m :
  calm m → cpus m !! me = Some c → (∀ b n x, f (set_intena b (set_ncli n (set_iflag x c))) = f c) →
  ∃ m', (pushcli me ;; i ← mycpu me; c ← this_cpu i; popcli me ;; mret (f c)) m = Ok (f c) m' ∧
    quiet me m m'.
Proof.
  intros [Hwf Hok] Hc Hf. pose proof (proj1 (Forall_lookup _ _) Hok me c Hc) as Hcok.
  assert (Hc1 := with_cpu_lookup me (pushed c) c m Hc).
  assert (Hwf1 : mach_wf (with_cpu me (pushed c) m)) by by eapply mach_wf_with_cpu.
  eexists. split.
  - rewrite (bind_step _ _ _ _ _ (pushcli_ok me c m Hwf Hc)).
    rewrite (bind_step _ _ _ _ _ (mycpu_self me (pushed c) _ Hwf1 Hc1 eq_refl)).
    rewrite (bind_step _ _ _ _ _ (this_cpu_ok me _ _ Hc1)).
    rewrite (bind_step _ _ _ _ _ (popcli_ok me (pushed c) _ Hwf1 Hc1 eq_refl
      ltac:(simpl; destruct Hcok; lia))).
    unfold mret, M_ret. f_equal.
    exact (Hf (intena (pushed c)) (ncli (pushed c)) false).
  - rewrite with_cpu_twice. split.
    + intros Hm. eapply calm_with_cpu; [done..|]. apply popped_ok; [by apply pushed_ok|].
      simpl. destruct Hcok. lia.
    + intros j Hj. simpl. by rewrite list_lookup_insert_ne.
    + intros c' Hc'. rewrite Hc in Hc'. injection Hc' as <-.
      rewrite (with_cpu_lookup me _ c m Hc), popped_pushed by done.
      case_bool_decide; [eexists; split; [done|lia]|]. exists (intena c). by rewrite set_intena_id.
    + by left.
    + simpl. by rewrite length_insert.
Qed.

(** The CPU [me] runs thread [(p, i)]. *)
Definition on_cpu (me p i : nat) (m : mach) : Prop :=
  ∃ c, cpus m !! me = Some c ∧ cproc c = Some p ∧ cthread c = Some (p, i).

Lemma on_cpu_quiet me p i m m' : quiet me m m' → on_cpu me p i m → on_cpu me p i m'.
Proof.
  intros Hq (c & Hc & H1 & H2). destruct (q_me _ _ _ Hq c Hc) as (b & Hb & _).
  by exists (set_intena b c).
Qed.

Lemma on_cpu_entered me p i l (s s1 : kst W) :
  entered me l s s1 → on_cpu me p i (kmach s) → on_cpu me p i (kmach s1).
Proof.
  intros (m & c & -> & _ & _ & _ & Hc & Hc1 & _) (c' & Hc' & H1 & H2).
  change (cpus (kmach s) !! me = Some c) in Hc. rewrite Hc in Hc'. injection Hc' as <-.
  by exists (pushed c).
Qed.

Lemma wpt_curproc me p i Q (s : kst W) :
  calm (kmach s) → on_cpu me p i (kmach s) →
  (∀ m, quiet me (kmach s) m → Q p (set_kmach m s)) → wpt (curproc me) Q s.
Proof.
  intros Hm (c & Hc & H1 & H2) HQ. unfold curproc, myproc. apply wpt_bind, wpt_zoom.
  destruct (current_ok me cproc c (kmach s) Hm Hc) as (m' & E & Hq); [done|].
  eapply wpt_eq; [exact E|]. rewrite H1. apply wpt_ret. auto.
Qed.

Lemma wpt_curthread me p i Q (s : kst W) :
  calm (kmach s) → on_cpu me p i (kmach s) →
  (∀ m, quiet me (kmach s) m → Q (p, i) (set_kmach m s)) → wpt (curthread me) Q s.
Proof.
  intros Hm (c & Hc & H1 & H2) HQ. unfold curthread, mythread. apply wpt_bind, wpt_zoom.
  destruct (current_ok me cthread c (kmach s) Hm Hc) as (m' & E & Hq); [done|].
  eapply wpt_eq; [exact E|]. rewrite H2. apply wpt_ret. auto.
Qed.

Lemma wpt_proc_at p pr Q (s : kst W) : procs s !! p = Some pr → Q pr s → wpt (proc_at p) Q s.
Proof. intros Hp HQ. unfold wpt, proc_at. by rewrite Hp. Qed.

Lemma wpt_thread_at p i pr t Q (s : kst W) :
  procs s !! p = Some pr → threads pr !! i = Some t → Q t s → wpt (thread_at p i) Q s.
Proof.
  intros Hp Ht HQ. apply wpt_bind, (wpt_proc_at p pr); [done|]. rewrite Ht. by apply wpt_ret.
Qed.

(** ** Properties *)

(** What [kill] does to the process it finds. *)
Definition killed_proc (pr : proc) : proc := each_thread kill_thread (set_pkilled 1 pr).

(** [kill] takes the first process with the given pid, marks it and all its
    threads killed, makes the sleeping ones runnable, and returns 0; when there
    is none it returns -1 and the table is unchanged.  The lock is free again. *)
Theorem kill_spec me n (s : kst W) :
  calm (kmach s) → (me < length (cpus (kmach s)))%nat → free Lptable (kmach s) →
  (∀ p pr, procs s !! p = Some pr → pid pr = n →
     (∀ q qr, (q < p)%nat → procs s !! q = Some qr → pid qr ≠ n) →
     ∃ s', kill me n s = Ok 0 s' ∧ procs s' = <[p := killed_proc pr]> (procs s) ∧
       free Lptable (kmach s')) ∧
  ((∀ p pr, procs s !! p = Some pr → pid pr ≠ n) →
     ∃ s', kill me n s = Ok (-1) s' ∧ procs s' = procs s ∧ free Lptable (kmach s')).
Proof.
  intros Hm Hme Hf. split.
  - intros p pr Hpr Hn Hfirst.
    assert (Hfind : list_find (λ pr, pid pr = n) (procs s) = Some (p, pr)).
    { apply list_find_Some. split_and!; [done..|]. intros q qr Hq Hlt. by apply (Hfirst q). }
    assert (Hw : wpt (kill me n) (λ r s', r = 0 ∧ procs s' = <[p := killed_proc pr]> (procs s) ∧
      free Lptable (kmach s')) s).
    { unfold kill. apply wpt_enter_ptable; [done..|]. intros s1 He.
      destruct (entered_put _ _ _ _ He) as [m1 E1]. apply wpt_bind, wpt_get.
      rewrite E1 at 1. simpl procs. rewrite Hfind. do 2 apply wpt_bind, wpt_modify.
      eapply wpt_leave_ptable; [done|apply quiet_refl|]. intros m3 _ _ Hf3.
      apply wpt_ret. split_and!; [done| |done]. rewrite E1. simpl.
      erewrite (upd_insert p); [|by rewrite lookup_upd_eq, Hpr].
      rewrite (upd_insert p _ _ pr) by done. by rewrite list_insert_insert_eq. }
    apply wpt_Ok in Hw as (r & s' & E & -> & ? & ?). eauto.
  - intros Hno.
    assert (Hfind : list_find (λ pr, pid pr = n) (procs s) = None).
    { apply list_find_None, Forall_lookup. intros p pr. apply Hno. }
    assert (Hw : wpt (kill me n) (λ r s', r = -1 ∧ procs s' = procs s ∧ free Lptable (kmach s')) s).
    { unfold kill. apply wpt_enter_ptable; [done..|]. intros s1 He.
      destruct (entered_put _ _ _ _ He) as [m1 E1]. apply wpt_bind, wpt_get.
      rewrite E1 at 1. simpl procs. rewrite Hfind.
      eapply wpt_leave_ptable; [done|apply quiet_refl|]. intros m3 _ _ Hf3.
      apply wpt_ret. split_and!; [done| |done]. by rewrite E1. }
    apply wpt_Ok in Hw as (r & s' & E & -> & ? & ?). eauto.
Qed.

Lemma entered_held me l (s s1 : kst W) m :
  entered me l s s1 → quiet me (kmach s1) m → held_by me l m.
Proof.
  intros (m1 & c & -> & _ & _ & _ & _ & _ & Hl & _) Hq.
  assert (Hn : ¬ free l m1) by (unfold free; by rewrite Hl).
  unfold held_by. change (quiet me m1 m) in Hq. by rewrite (quiet_held _ _ _ _ Hq Hn), Hl.
Qed.

Lemma find_tid_None id l n : (∀ t, t ∈ l → tid t ≠ id) → find_tid id l n = None.
Proof.
  revert n. induction l as [|t l IH]; intros n Hl; simpl; [done|].
  rewrite IH by set_solver. rewrite bool_decide_eq_false_2; [done|]. apply Hl. set_solver.
Qed.

(** [kthread_join] with an id that no thread of the process has returns -1
    with [ptable.lock] still held by the CPU. *)
Theorem kthread_join_unknown_keeps_lock me p i pr n (s : kst W) :
  calm (kmach s) → free Lptable (kmach s) → on_cpu me p i (kmach s) → procs s !! p = Some pr →
  (∀ t, t ∈ take (t_num pr) (threads pr) → tid t ≠ n) →
  ∃ s', kthread_join me n s = Ok (Return (-1)) s' ∧ held_by me Lptable (kmach s').
Proof.
  intros Hm Hf Hon Hpr Hno.
  assert (Hme : (me < length (cpus (kmach s)))%nat).
  { destruct Hon as (c & Hc & _). by eapply lookup_lt_Some. }
  assert (Hw : wpt (kthread_join me n) (λ r s', r = Return (-1) ∧ held_by me Lptable (kmach s')) s).
  { unfold kthread_join. apply wpt_enter_ptable; [done..|]. intros s1 He.
    destruct (entered_calm _ _ _ _ He) as (Hm1 & _). pose proof (on_cpu_entered _ _ _ _ _ _ He Hon) as Hon1.
    apply wpt_bind, (wpt_curproc me p i); [done..|]. intros m2 Hq2.
    apply wpt_bind, (wpt_proc_at p pr).
    { destruct (entered_put _ _ _ _ He) as [m1 ->]. done. }
    rewrite find_tid_None by done. apply wpt_ret. split; [done|]. by eapply entered_held. }
  apply wpt_Ok in Hw as (r & s' & E & -> & ?). eauto.
Qed.

(** ** Creating a thread *)

(** Process [p] of [s0] now has [n] threads, slot [i] holds [t]; the rest of the
    table is as in [s0]. *)
Definition slot (p i n : nat) (t : thread) (s0 s : kst W) : Prop :=
  ∃ pr0 pr, procs s0 !! p = Some pr0 ∧ procs s !! p = Some pr ∧ t_num pr = n ∧
    threads pr !! i = Some t ∧ (∀ j, j ≠ i → threads pr !! j = threads pr0 !! j) ∧
    (∀ q, q ≠ p → procs s !! q = procs s0 !! q).

Lemma slot_set p i n t f s0 s :
  slot p i n t s0 s → slot p i n (f t) s0 (upd_thread p i f s).
Proof.
  intros (pr0 & pr & H0 & Hpr & Hn & Ht & Hj & Hq).
  exists pr0, (set_threads (upd i f (threads pr)) pr). simpl.
  rewrite !lookup_upd_eq, Hpr. simpl. split_and!; try done.
  - by rewrite Ht.
  - intros j Hne. rewrite lookup_upd_ne by done. auto.
  - intros q Hne. rewrite lookup_upd_ne by done. auto.
Qed.

Lemma slot_procs p i n t s0 s s' : procs s' = procs s → slot p i n t s0 s → slot p i n t s0 s'.
Proof. unfold slot. by intros ->. Qed.

(** [kalloc] on a consistent allocator: the head of the free list. *)
Definition pages_ready (me : nat) (k : kmem) : Prop :=
  calm (km_mach k) ∧ (me < length (cpus (km_mach k)))%nat ∧ (use_lock k ≠ 0 → free Lkmem (km_mach k)).

Lemma wpt_kalloc me Q k :
  pages_ready me k →
  (∀ k', quiet me (km_mach k) (km_mach k') → use_lock k' = use_lock k → Q (freelist k) k') →
  wpt (kalloc me) Q k.
Proof.
  intros (Hm & Hme & Hf) HQ. unfold kalloc, kmem_lock, kmem_unlock.
  destruct (decide (use_lock k = 0)) as [Hu|Hu].
  - apply wpt_bind, wpt_bind, wpt_get. rewrite bool_decide_eq_false_2 by auto. apply wpt_ret.
    apply wpt_bind, wpt_gets, wpt_bind.
    eapply (wpt_mono _ (λ _ k', km_mach k' = km_mach k ∧ use_lock k' = use_lock k)).
    { case_bool_decide; [by apply wpt_modify|by apply wpt_ret]. }
    intros _ k' [E1 E2]. apply wpt_bind, wpt_bind, wpt_get.
    rewrite bool_decide_eq_false_2 by (rewrite E2; auto). apply wpt_ret, wpt_ret, HQ; [|done].
    rewrite E1. apply quiet_refl.
  - apply wpt_bind, wpt_bind, wpt_get. rewrite bool_decide_eq_true_2 by done.
    refine (wpt_enter_end me Lkmem _ k Hm Hme (Hf Hu) _). intros k1 He.
    destruct (entered_put _ _ _ _ He) as [m1 E1]. apply wpt_bind, wpt_gets, wpt_bind.
    eapply (wpt_mono _ (λ _ k', km_mach k' = km_mach k1 ∧ use_lock k' = use_lock k)).
    { rewrite E1. case_bool_decide; [by apply wpt_modify|by apply wpt_ret]. }
    intros _ k2 [E2 E3]. apply wpt_bind, wpt_bind, wpt_get.
    rewrite bool_decide_eq_true_2 by (by rewrite E3).
    refine (wpt_leave_end me Lkmem _ k k1 k2 He _ _).
    { simpl. rewrite E2. apply quiet_refl. }
    intros m3 Hq3 _ _. apply wpt_ret. rewrite E1. apply HQ; [exact Hq3|done].
Qed.

(** Slot [t_num] after [allocthread] got the page [ks]. *)
Definition alloced_thread (p i : nat) (first : bool) (ks : Z) (t : thread) : thread :=
  Thread ks (if first then EMBRYO else RUNNABLE) 0 (ks + KSTACKSIZE - sizeof_tf) (tf t) (tchan t)
    KForkret (ks + KSTACKSIZE - sizeof_tf - 4 - sizeof_context) (saved_intena t) (Some p)
    (Z.of_nat (S i)).

Lemma wpt_allocthread me p first pr t Q (s : kst W) :
  procs s !! p = Some pr → threads pr !! t_num pr = Some t → (t_num pr < NTHREADS)%nat →
  pages_ready me (km s) →
  (∀ s' t', quiet me (kmach s) (kmach s') → freelist (km s) = 0 → tstate t' = UNUSED_T →
     slot p (t_num pr) (S (t_num pr)) t' s s' → Q 0 s') →
  (∀ s', quiet me (kmach s) (kmach s') → freelist (km s) ≠ 0 →
     slot p (t_num pr) (S (t_num pr))
       (alloced_thread p (t_num pr) first (freelist (km s)) t) s s' → Q 1 s') →
  wpt (allocthread me p first) Q s.
Proof.
  intros Hpr Ht Hn Hk HQ0 HQ1. unfold allocthread. apply wpt_bind, (wpt_proc_at p pr); [done|]. cbv zeta.
  set (i := t_num pr) in *. apply wpt_bind, wpt_modify.
  rewrite bool_decide_eq_false_2 by lia. do 4 apply wpt_bind, wpt_modify.
  assert (Hs1 : slot p i (S i) t s (upd_proc p (set_t_num (S i)) s)).
  { exists pr, (set_t_num (S i) pr). simpl. rewrite lookup_upd_eq, Hpr. split_and!; try done.
    intros q Hq. by rewrite lookup_upd_ne. }
  match goal with |- wpt _ _ ?st => eassert (Hs2 : slot p i (S i) _ s st) end.
  { do 4 apply slot_set. exact Hs1. }
  clear Hs1. apply wpt_bind, wpt_zoom. apply wpt_kalloc; [exact Hk|]. intros k' Hq Hu.
  change (freelist (km _)) with (freelist (km s)).
  match goal with |- wpt _ _ ?st => eapply (slot_procs _ _ _ _ _ _ st) in Hs2; [|reflexivity] end.
  apply wpt_bind, wpt_modify. apply (slot_set _ _ _ _ (set_kstack (freelist (km s)))) in Hs2.
  case_bool_decide as Hz.
  - apply wpt_bind, wpt_modify, wpt_ret. eapply HQ0; [exact Hq|done|..].
    2:{ apply slot_set. exact Hs2. }
    done.
  - do 3 apply wpt_bind, wpt_modify. apply wpt_ret. apply HQ1; [exact Hq|done|].
    do 3 eapply (slot_set _ _ _ _ _ _ _) in Hs2. exact Hs2.
Qed.

(** What [kthread_create] relies on: the CPU runs thread [(p, i)], and both
    locks it takes are free. *)
Record create_pre (me p i : nat) (pr : proc) (caller t : thread) (s : kst W) : Prop := CreatePre {
  cp_calm : calm (kmach s);
  cp_ptable : free Lptable (kmach s);
  cp_kmem : use_lock (km s) ≠ 0 → free Lkmem (kmach s);
  cp_cpu : on_cpu me p i (kmach s);
  cp_proc : procs s !! p = Some pr;
  cp_caller : threads pr !! i = Some caller;
  cp_running : (i < t_num pr)%nat;
  cp_slot : threads pr !! t_num pr = Some t;
  cp_room : (t_num pr < NTHREADS)%nat;
}.

Lemma wpt_create_thread me p i pr caller t f stk Q s :
  create_pre me p i pr caller t s →
  (∀ s', freelist (km s) = 0 → held_by me Lptable (kmach s') → Q 0 s') →
  (∀ s', freelist (km s) ≠ 0 → free Lptable (kmach s') →
     slot p (t_num pr) (S (t_num pr))
       (set_tf (set_esp stk (set_eip f (tf caller)))
          (alloced_thread p (t_num pr) false (freelist (km s)) t)) s s' →
     Q (Z.of_nat (S (t_num pr))) s') →
  wpt (kthread_create me f stk) Q s.
Proof.
  intros [Hm Hf Hkm Hon Hpr Hc Hi Ht Hn] HQ0 HQ1.
  assert (Hme : (me < length (cpus (kmach s)))%nat).
  { destruct Hon as (c & Hc' & _). by eapply lookup_lt_Some. }
  unfold kthread_create. apply wpt_enter_ptable; [done..|]. intros s1 He.
  destruct (entered_calm _ _ _ _ He) as (Hm1 & Hme1 & Hf1).
  pose proof (on_cpu_entered _ _ _ _ _ _ He Hon) as Hon1.
  destruct (entered_put _ _ _ _ He) as [m1 E1].
  apply wpt_bind, (wpt_curproc me p i); [done..|]. intros m2 Hq2.
  assert (Hon2 := on_cpu_quiet _ _ _ _ _ Hq2 Hon1).
  apply wpt_bind. apply (wpt_allocthread me p false pr t); [by rewrite E1|done|done|..].
  { split_and!; simpl.
    - by apply (q_calm _ _ _ Hq2).
    - by rewrite (q_length _ _ _ Hq2).
    - intros Hu. apply (quiet_free _ _ _ _ Hq2), Hf1; [done|]. apply Hkm. by rewrite E1 in Hu. }
  - intros s3 t' Hq3 Hz Hst _. rewrite E1 in Hz. simpl. apply wpt_ret, HQ0; [done|].
    eapply entered_held; [exact He|]. etrans; [exact Hq2|exact Hq3].
  - intros s3 Hq3 Hz Hs3. rewrite bool_decide_eq_false_2 by done.
    assert (Hq13 : quiet me (kmach s1) (kmach s3)) by (etrans; [exact Hq2|exact Hq3]).
    rewrite E1 in Hz, Hs3. clear Hq2 Hon2 Hq3.
    assert (Hslot : slot p (t_num pr) (S (t_num pr))
      (alloced_thread p (t_num pr) false (freelist (km s)) t) s s3) by exact Hs3.
    clear Hs3. apply wpt_bind, (wpt_curproc me p i);
      [by apply (q_calm _ _ _ Hq13)|by eapply on_cpu_quiet|]. intros m4 Hq4.
    assert (Hq14 : quiet me (kmach s1) m4) by (etrans; [exact Hq13|exact Hq4]).
    destruct Hslot as (pr0 & pr3 & H0 & Hpr3 & Hn3 & Ht3 & Hj3 & Hqs3).
    apply wpt_bind, (wpt_proc_at p pr3); [done|]. cbv zeta. rewrite Hn3.
    replace (S (t_num pr) - 1)%nat with (t_num pr) by lia.
    apply wpt_bind, (wpt_curthread me p i);
      [by apply (q_calm _ _ _ Hq14)|by eapply on_cpu_quiet|]. intros m5 Hq5.
    assert (Hq15 : quiet me (kmach s1) m5) by (etrans; [exact Hq14|exact Hq5]).
    rewrite Hpr in H0. injection H0 as <-.
    apply wpt_bind, (wpt_thread_at p i pr3 caller); [done|by rewrite Hj3 by lia|].
    do 3 apply wpt_bind, wpt_modify.
    match goal with |- wpt _ _ ?st => eassert (Hs5 : slot p (t_num pr) (S (t_num pr)) _ s st) end.
    { do 3 apply slot_set. exists pr, pr3. done. }
    eapply wpt_leave_ptable; [exact He|exact Hq15|]. intros m6 Hq6 _ Hf6.
    match goal with |- wpt _ _ ?st => eapply (slot_procs _ _ _ _ _ _ st) in Hs5; [|reflexivity] end.
    destruct Hs5 as (pr0 & pr6 & H0 & Hpr6 & Hn6 & Ht6 & Hj6 & Hqs6).
    apply wpt_bind. eapply wpt_thread_at; [exact Hpr6|exact Ht6|]. apply wpt_ret.
    apply HQ1; [done|exact Hf6|]. exists pr0, pr6. done.
Qed.

(** With a free page, [kthread_create] returns the id of a new runnable
    thread in the next slot, whose trap frame is that of the caller with the
    given entry point and stack pointer; the rest of the table is unchanged and
    the lock is free again. *)
Theorem kthread_create_spec me p i pr caller t f stk (s : kst W) :
  create_pre me p i pr caller t s → freelist (km s) ≠ 0 →
  ∃ s' pr' t', kthread_create me f stk s = Ok (Z.of_nat (S (t_num pr))) s' ∧
    free Lptable (kmach s') ∧ procs s' !! p = Some pr' ∧ t_num pr' = S (t_num pr) ∧
    threads pr' !! t_num pr = Some t' ∧ tstate t' = RUNNABLE ∧ tid t' = Z.of_nat (S (t_num pr)) ∧
    tkilled t' = 0 ∧ kstack t' = freelist (km s) ∧ context t' = KForkret ∧
    tf t' = set_esp stk (set_eip f (tf caller)) ∧
    (∀ j, j ≠ t_num pr → threads pr' !! j = threads pr !! j) ∧
    (∀ q, q ≠ p → procs s' !! q = procs s !! q).
Proof.
  intros Hpre Hz.
  assert (Hw : wpt (kthread_create me f stk) (λ r s', r = Z.of_nat (S (t_num pr)) ∧
    free Lptable (kmach s') ∧ slot p (t_num pr) (S (t_num pr))
       (set_tf (set_esp stk (set_eip f (tf caller)))
          (alloced_thread p (t_num pr) false (freelist (km s)) t)) s s') s).
  { eapply wpt_create_thread; [done|done|]. intros s' _ Hf Hs. done. }
  apply wpt_Ok in Hw as (r & s' & E & -> & Hf & pr0 & pr' & H0 & Hpr' & Hn & Ht & Hj & Hq).
  rewrite (cp_proc _ _ _ _ _ _ _ Hpre) in H0. injection H0 as <-.
  eexists s', pr', _. split_and!; done.
Qed.

(** When no page is free, [kthread_create] returns 0 with [ptable.lock] still
    held by the CPU. *)
Theorem kthread_create_failure_keeps_lock me p i pr caller t f stk (s : kst W) :
  create_pre me p i pr caller t s → freelist (km s) = 0 →
  ∃ s', kthread_create me f stk s = Ok 0 s' ∧ held_by me Lptable (kmach s').
Proof.
  intros Hpre Hz.
  assert (Hw : wpt (kthread_create me f stk) (λ r s', r = 0 ∧ held_by me Lptable (kmach s')) s).
  { eapply wpt_create_thread; [done|done|]. by intros s' Hz'. }
  apply wpt_Ok in Hw as (r & s' & E & -> & Hh). eauto.
Qed.

(** A process that has used its [NTHREADS] slots, whether or not their
    threads have exited, makes [allocthread] access [threads[NTHREADS]]. *)
Theorem allocthread_overruns_table me p first pr (s : kst W) :
  procs s !! p = Some pr → (NTHREADS ≤ t_num pr)%nat →
  ∃ s', allocthread me p first s = Undef "threads[] out of bounds" s'.
Proof.
  intros Hpr Hn. unfold allocthread. mred. unfold proc_at. rewrite Hpr.
  unfold set_proc. mred. rewrite bool_decide_eq_true_2 by done. eauto.
Qed.

End Total.

(** The listing of [procdump] names the states of threads wrongly: an embryo is
    shown as a zombie, and a zombie as unknown. *)
Lemma procdump_misnames_states :
  procdump_state EMBRYO = "zombie" ∧ procdump_state ZOMBIE_T = "???" ∧
  procdump_state SLEEPING = "sleep " ∧ procdump_state RUNNABLE = "runble" ∧
  procdump_state RUNNING = "run   " ∧ procdump_state UNUSED_T = "unused".
Proof. split_and!; vm_compute; reflexivity. Qed.

(** ** Examples *)

Definition demo_thread (st : threadstate) (id : Z) : thread :=
  Thread 0x80117000 st 0 0 zero_tf CNull InUser 0 false (Some 0%nat) id.

(** A process with [n] of its 16 thread slots used, all but the first asleep. *)
Definition demo_proc (n : nat) : proc :=
  Proc 0 4096 4096 7 None [] "demo"
    (((λ i, demo_thread (if bool_decide (i = 0)%nat then RUNNING else SLEEPING) (Z.of_nat (S i)))
        <$> seq 0 n) ++ replicate (16 - n) (demo_thread UNUSED_T 0)) USED n (Some 1%nat).

(** CPU 0 runs the first thread of the process; [head] is the free list. *)
Definition demo_kst (n : nat) (head : Z) : kst unit :=
  Kst (Kmem (Mach [Cpu 0 0 false true (Some 0%nat) (Some (0%nat, 0%nat)) NotScanning]
                  (λ _, Spinlock 0 "" None)) 1 head (λ _, 0))
      [demo_proc n] 8 None false tt.

Lemma demo_kst_calm n head : calm (kmach (demo_kst n head)).
Proof.
  split; [|repeat constructor; done]. unfold mach_wf. simpl. apply NoDup_singleton.
Qed.

Lemma demo_create_pre head :
  create_pre 0 0 0 (demo_proc 2) (demo_thread RUNNING 1) (demo_thread UNUSED_T 0) (demo_kst 2 head).
Proof.
  split; try done; try (simpl; unfold NTHREADS; lia); [apply demo_kst_calm|].
  eexists. done.
Qed.

Lemma kthread_create_spec_witness :
  ∃ s' pr' t', kthread_create 0 100 200 (demo_kst 2 0x80118000) = Ok 3 s' ∧
    procs s' !! 0%nat = Some pr' ∧ threads pr' !! 2%nat = Some t' ∧ tstate t' = RUNNABLE.
Proof.
  destruct (kthread_create_spec 0 0 0 _ _ _ 100 200 _ (demo_create_pre 0x80118000))
    as (s' & pr' & t' & H1 & _ & H2 & _ & H3 & H4 & _); [done|].
  exists s', pr', t'. split; [exact H1|]. split; [exact H2|]. split; [exact H3|exact H4].
Defined.

Lemma kthread_create_failure_keeps_lock_witness :
  ∃ s', kthread_create 0 100 200 (demo_kst 2 0) = Ok 0 s' ∧ held_by 0 Lptable (kmach s').
Proof.
  apply (kthread_create_failure_keeps_lock 0 0 0 _ _ _ 100 200 _ (demo_create_pre 0)). reflexivity.
Defined.

Lemma allocthread_overruns_table_witness :
  ∃ s', allocthread 0 0 false (demo_kst 16 0x80118000) = Undef "threads[] out of bounds" s'.
Proof.
  apply (allocthread_overruns_table 0 0 false (demo_proc 16)); [reflexivity|]. simpl. unfold NTHREADS. lia.
Defined.

Lemma kthread_join_unknown_keeps_lock_witness :
  ∃ s', kthread_join 0 9 (demo_kst 2 0) = Ok (Return (-1)) s' ∧ held_by 0 Lptable (kmach s').
Proof.
  apply (kthread_join_unknown_keeps_lock 0 0 0 (demo_proc 2) 9 (demo_kst 2 0)).
  - apply demo_kst_calm.
  - reflexivity.
  - eexists. done.
  - reflexivity.
  - intros t Ht. simpl in Ht. rewrite !elem_of_cons in Ht. by destruct Ht as [->|[->|Ht%elem_of_nil]].
Defined.

Lemma kill_spec_witness :
  ∃ s', kill 0 7 (demo_kst 2 0) = Ok 0 s' ∧ procs s' = [killed_proc (demo_proc 2)].
Proof.
  destruct (kill_spec 0 7 (demo_kst 2 0) (demo_kst_calm 2 0)) as [H _]; [simpl; lia|reflexivity|].
  destruct (H 0%nat (demo_proc 2)) as (s' & H1 & H2 & _); [reflexivity|reflexivity|intros; lia|].
  exists s'. split; [exact H1|exact H2].
Defined.
