(* ===== verification/ProcSched.v ===== *)
(** * The scheduler

    A pass of [scheduler] over the table, in single turns of its loops, from the
    point where it has taken [ptable.lock]: it dispatches the first runnable
    thread of the table, or, when there is none, releases the lock. *)

From S2P Require Import Prelude Spinlock Kalloc ProcData Proc ProcTotal.

Section Sched.

Context {W : Type}.

Abbreviation K := (M (kst W)).

(** [n] turns. *)
Fixpoint sched_steps (n : nat) (me : nat) : K unit :=
  match n with
  | O => mret tt
  | S n => scheduler_step me ;; sched_steps n me
  end.

(** The scheduler of [me] stands at [x]. *)
Definition goto (me : nat) (x : scan) (s : kst W) : kst W :=
  set_kmach (upd_cpu me (set_scan x) (kmach s)) s.

(** CPU [me] is in its scheduler. *)
Definition in_sched (me : nat) (s : kst W) : Prop :=
  ∃ c, cpus (kmach s) !! me = Some c ∧ cthread c = None.

(** Thread [i] of process [p] can be dispatched. *)
Definition runnable (l : list proc) (p i : nat) : Prop :=
  ∃ pr t, l !! p = Some pr ∧ pstate pr = USED ∧ (i < t_num pr)%nat ∧
    threads pr !! i = Some t ∧ tstate t = RUNNABLE.

Lemma sched_steps_app n m me s s1 :
  sched_steps n me s = Ok tt s1 → sched_steps (n + m) me s = sched_steps m me s1.
Proof.
  revert s. induction n as [|n IH]; intros s; simpl; [by intros [= <-]|].
  intros ([] & s2 & E1 & E2)%bind_Ok. rewrite (bind_step _ _ _ _ _ E1). by apply IH.
Qed.

Lemma goto_goto me x y s : goto me x (goto me y s) = goto me x s.
Proof.
  unfold goto, set_kmach, set_km, set_km_mach, kmach, upd_cpu. simpl. do 3 f_equal.
  apply list_eq. intros j. destruct (decide (me = j)) as [<-|Hne].
  - rewrite !lookup_upd_eq. by destruct (_ !! me).
  - by rewrite !lookup_upd_ne.
Qed.

Lemma goto_cpu me x s c :
  cpus (kmach s) !! me = Some c → cpus (kmach (goto me x s)) !! me = Some (set_scan x c).
Proof.
  intros Hc. change (upd me (set_scan x) (cpus (kmach s)) !! me = Some (set_scan x c)).
  by rewrite lookup_upd_eq, Hc.
Qed.

(** One turn starts by reading the position. *)
Lemma step_unfold me x s c :
  cpus (kmach s) !! me = Some c → 
  scheduler_step me (goto me x s) =
    (let goto_k x := on_mach (modify (upd_cpu me (set_scan x))) in
     match x with
     | NotScanning => on_mach (sti me) ;; acquire_ptable me ;; goto_k (AtProc 0)
     | AtProc p =>
         if bool_decide (NPROC ≤ p)%nat then release_ptable me ;; goto_k NotScanning
         else
           pr ← proc_at p;
           if bool_decide (pstate pr ≠ USED) then goto_k (AtProc (S p)) else goto_k (AtThread p 0)
     | AtThread p i =>
         pr ← proc_at p;
         if bool_decide (t_num pr ≤ i)%nat then goto_k (AtProc (S p))
         else
           t ← thread_at p i;
           if bool_decide (tstate t ≠ RUNNABLE) then goto_k (AtThread p (S i))
           else
             on_mach (modify (upd_cpu me (set_cur (Some p) (Some (p, i))))) ;;
             switchuvm me p i ;;
             set_thread p i (set_tstate RUNNING)
     end) (goto me x s).
Proof.
  intros Hc. unfold scheduler_step at 1.
  assert (E : on_mach (this_cpu me) (goto me x s) = Ok (set_scan x c) (goto me x s)).
  { unfold on_mach, zoom. rewrite (this_cpu_ok me _ _ (goto_cpu me x s c Hc)). done. }
  by rewrite (bind_step _ _ _ _ _ E).
Qed.

Lemma goto_step me x y s :
  on_mach (modify (upd_cpu me (set_scan x))) (goto me y s) = Ok tt (goto me x s).
Proof. rewrite <- (goto_goto me x y s). done. Qed.

Section Pass.

Variables (me : nat) (s : kst W).
Hypothesis Hsched : in_sched me s.

Lemma skip_thread p pr i t :
  procs s !! p = Some pr → (i < t_num pr)%nat → threads pr !! i = Some t → tstate t ≠ RUNNABLE →
  scheduler_step me (goto me (AtThread p i) s) = Ok tt (goto me (AtThread p (S i)) s).
Proof.
  intros Hp Hi Ht Hs. destruct Hsched as (c & Hc & _). rewrite (step_unfold me _ s c) by done. cbv zeta.
  assert (E : proc_at p (goto me (AtThread p i) s) = Ok pr (goto me (AtThread p i) s)).
  { unfold proc_at. simpl. by rewrite Hp. }
  rewrite (bind_step _ _ _ _ _ E), bool_decide_eq_false_2 by lia.
  assert (E' : thread_at p i (goto me (AtThread p i) s) = Ok t (goto me (AtThread p i) s)).
  { unfold thread_at. rewrite (bind_step _ _ _ _ _ E), Ht. done. }
  rewrite (bind_step _ _ _ _ _ E'), bool_decide_eq_true_2 by done. apply goto_step.
Qed.

Lemma skip_threads p pr i n :
  procs s !! p = Some pr → pstate pr = USED → length (threads pr) = NTHREADS →
  (t_num pr ≤ NTHREADS)%nat → (i + n ≤ t_num pr)%nat →
  (∀ j, (i ≤ j < i + n)%nat → ¬ runnable (procs s) p j) →
  sched_steps n me (goto me (AtThread p i) s) = Ok tt (goto me (AtThread p (i + n)) s).
Proof.
  intros Hp Hu Hl Hb. revert i. induction n as [|n IH]; intros i Hi Hr.
  - by rewrite Nat.add_0_r.
  - destruct (lookup_lt_is_Some_2 (threads pr) i) as [t Ht]; [lia|]. simpl.
    rewrite (bind_step _ _ _ _ _ (skip_thread p pr i t Hp ltac:(lia) Ht ltac:(intros Hs;
      apply (Hr i); [lia|]; exists pr, t; split_and!; auto; lia))).
    rewrite IH; [do 3 f_equal; lia|lia|]. intros j Hj. apply Hr. lia.
Qed.

Lemma skip_proc p pr :
  procs s !! p = Some pr → (p < NPROC)%nat → length (threads pr) = NTHREADS →
  (t_num pr ≤ NTHREADS)%nat → (∀ j, ¬ runnable (procs s) p j) →
  ∃ n, (n ≤ NTHREADS + 2)%nat ∧
    sched_steps n me (goto me (AtProc p) s) = Ok tt (goto me (AtProc (S p)) s).
Proof.
  intros Hp Hlt Hl Hb Hr. destruct Hsched as (c & Hc & _).
  assert (E : ∀ x, proc_at p (goto me x s) = Ok pr (goto me x s)).
  { intros x. unfold proc_at. simpl. by rewrite Hp. }
  destruct (decide (pstate pr = USED)) as [Hu|Hu].
  - exists (1 + (t_num pr + 1))%nat. split; [lia|].
    rewrite (sched_steps_app 1 _ me _ (goto me (AtThread p 0) s)).
    + rewrite (sched_steps_app (t_num pr) 1 me _ (goto me (AtThread p (0 + t_num pr)) s));
        [|by apply (skip_threads p pr 0 (t_num pr))].
      simpl sched_steps. assert (E' : scheduler_step me (goto me (AtThread p (t_num pr)) s) =
        Ok tt (goto me (AtProc (S p)) s)); [|by rewrite (bind_step _ _ _ _ _ E')].
      rewrite (step_unfold me _ s c) by done. cbv zeta.
      rewrite (bind_step _ _ _ _ _ (E _)), bool_decide_eq_true_2 by lia. apply goto_step.
    + simpl. assert (E' : scheduler_step me (goto me (AtProc p) s) =
        Ok tt (goto me (AtThread p 0) s)); [|by rewrite (bind_step _ _ _ _ _ E')].
      rewrite (step_unfold me _ s c) by done. cbv zeta. rewrite bool_decide_eq_false_2 by lia.
      rewrite (bind_step _ _ _ _ _ (E _)), bool_decide_eq_false_2 by auto. apply goto_step.
  - exists 1%nat. split; [lia|]. simpl.
    assert (E' : scheduler_step me (goto me (AtProc p) s) = Ok tt (goto me (AtProc (S p)) s));
      [|by rewrite (bind_step _ _ _ _ _ E')].
    rewrite (step_unfold me _ s c) by done. cbv zeta. rewrite bool_decide_eq_false_2 by lia.
    rewrite (bind_step _ _ _ _ _ (E _)), bool_decide_eq_true_2 by done. apply goto_step.
Qed.

(** The table has its shape. *)
Hypothesis Hlen : length (procs s) = NPROC.
Hypothesis Hshape : ∀ p pr, procs s !! p = Some pr →
  length (threads pr) = NTHREADS ∧ (t_num pr ≤ NTHREADS)%nat.

Lemma skip_procs p n :
  (p + n ≤ NPROC)%nat → (∀ q j, (p ≤ q < p + n)%nat → ¬ runnable (procs s) q j) →
  ∃ k, (k ≤ n * (NTHREADS + 2))%nat ∧
    sched_steps k me (goto me (AtProc p) s) = Ok tt (goto me (AtProc (p + n)) s).
Proof.
  revert p. induction n as [|n IH]; intros p Hp Hr.
  - exists 0%nat. split; [lia|]. by rewrite Nat.add_0_r.
  - destruct (lookup_lt_is_Some_2 (procs s) p) as [pr Hpr]; [lia|].
    destruct (Hshape p pr Hpr) as [Hl Hb].
    destruct (skip_proc p pr Hpr ltac:(lia) Hl Hb) as (k1 & Hk1 & E1); [intros j; apply Hr; lia|].
    destruct (IH (S p)) as (k2 & Hk2 & E2); [lia|intros q j Hq; apply Hr; lia|].
    exists (k1 + k2)%nat. split; [lia|]. rewrite (sched_steps_app _ _ _ _ _ E1), E2. do 3 f_equal. lia.
Qed.

(** From a runnable thread the next turn runs it. *)
Lemma dispatch p i pr t :
  calm (kmach s) → procs s !! p = Some pr → (i < t_num pr)%nat → threads pr !! i = Some t →
  tstate t = RUNNABLE → kstack t ≠ 0 → pgdir pr ≠ 0 →
  ∃ s' c, scheduler_step me (goto me (AtThread p i) s) = Ok tt s' ∧
    procs s' = procs (upd_thread p i (set_tstate RUNNING) s) ∧
    cpus (kmach s') !! me = Some c ∧ cproc c = Some p ∧ cthread c = Some (p, i).
Proof.
  intros Hm Hp Hi Ht Hs Hks Hpd. destruct Hsched as (c & Hc & _).
  rewrite (step_unfold me _ s c) by done. cbv zeta.
  match goal with |- ∃ s' c, ?m _ = _ ∧ _ => set (prog := m) end.
  assert (Hw : wpt prog (λ _ s', procs s' = procs (upd_thread p i (set_tstate RUNNING) s) ∧
    ∃ c, cpus (kmach s') !! me = Some c ∧ cproc c = Some p ∧ cthread c = Some (p, i))
    (goto me (AtThread p i) s)).
  { unfold prog. apply wpt_bind, (wpt_proc_at p pr); [done|].
    rewrite bool_decide_eq_false_2 by lia. apply wpt_bind, (wpt_thread_at p i pr t); [done..|].
    rewrite bool_decide_eq_false_2 by auto. apply wpt_bind, wpt_zoom, wpt_modify.
    match goal with |- wpt _ _ ?st => set (s1 := st) end.
    set (c1 := set_cur (Some p) (Some (p, i)) (set_scan (AtThread p i) c)).
    assert (Hc1 : cpus (kmach s1) !! me = Some c1).
    { change (upd me (set_cur (Some p) (Some (p, i)))
        (upd me (set_scan (AtThread p i)) (cpus (kmach s))) !! me = Some c1).
      by rewrite !lookup_upd_eq, Hc. }
    assert (Hm1 : calm (kmach s1)).
    { change (kmach s1) with (upd_cpu me (set_cur (Some p) (Some (p, i)))
        (upd_cpu me (set_scan (AtThread p i)) (kmach s))).
      rewrite (upd_cpu_eq me c _ (kmach s)) by done. rewrite (upd_cpu_with me _ c) by done.
      eapply calm_with_cpu; [done..|].
      exact (proj1 (Forall_lookup _ _) (proj2 Hm) me c Hc). }
    unfold switchuvm. apply wpt_bind, wpt_bind, (wpt_thread_at p i pr t); [done..|].
    rewrite bool_decide_eq_false_2 by done. apply wpt_bind, (wpt_proc_at p pr); [done|].
    rewrite bool_decide_eq_false_2 by done. apply wpt_bind, wpt_zoom.
    eapply wpt_eq; [apply (pushcli_ok me c1); [apply Hm1|done]|]. apply wpt_zoom.
    pose proof (proj1 (Forall_lookup _ _) (proj2 Hm1) me c1 Hc1) as Hcok.
    eapply wpt_eq; [apply (popcli_ok me (pushed c1))|].
    - eapply mach_wf_with_cpu; [apply Hm1|done..].
    - by eapply with_cpu_lookup.
    - done.
    - simpl. destruct Hcok as [Hn _]. simpl in Hn. lia.
    - apply wpt_modify. split; [done|]. exists (popped (pushed c1)). split_and!; [|done..].
      simpl. rewrite list_insert_insert_eq. apply list_lookup_insert_eq. by eapply lookup_lt_Some. }
  apply wpt_Ok in Hw as ([] & s' & E & H1 & c' & H2). eauto 10.
Qed.

(** C33: from the start of a pass over the table, within a bounded number of
    turns of its loops, the scheduler of a CPU makes the first runnable thread
    of the table the current thread of the CPU, marks it running, and changes
    nothing else in the table. *)
Theorem scheduler_dispatches_first q j pr t :
  calm (kmach s) → procs s !! q = Some pr → pstate pr = USED → (j < t_num pr)%nat →
  threads pr !! j = Some t → tstate t = RUNNABLE → kstack t ≠ 0 → pgdir pr ≠ 0 →
  (∀ p i, (p < q)%nat → ¬ runnable (procs s) p i) → (∀ i, (i < j)%nat → ¬ runnable (procs s) q i) →
  ∃ n s' c, (n ≤ NPROC * (NTHREADS + 2))%nat ∧
    sched_steps n me (goto me (AtProc 0) s) = Ok tt s' ∧
    procs s' = procs (upd_thread q j (set_tstate RUNNING) s) ∧
    cpus (kmach s') !! me = Some c ∧ cproc c = Some q ∧ cthread c = Some (q, j).
Proof.
  intros Hm Hq Hu Hj Ht Hs Hks Hpd Hbefore Hbefore'.
  assert (Hlt : (q < NPROC)%nat) by (rewrite <- Hlen; by eapply lookup_lt_Some).
  destruct (Hshape q pr Hq) as [Hl Hb]. destruct Hsched as (c & Hc & _).
  destruct (skip_procs 0 q) as (k1 & Hk1 & E1); [lia|intros p i Hp; apply Hbefore; lia|].
  assert (E2 : scheduler_step me (goto me (AtProc q) s) = Ok tt (goto me (AtThread q 0) s)).
  { rewrite (step_unfold me _ s c) by done. cbv zeta. rewrite bool_decide_eq_false_2 by lia.
    assert (E : proc_at q (goto me (AtProc q) s) = Ok pr (goto me (AtProc q) s)).
    { unfold proc_at. simpl. by rewrite Hq. }
    rewrite (bind_step _ _ _ _ _ E), bool_decide_eq_false_2 by auto. apply goto_step. }
  pose proof (skip_threads q pr 0 j Hq Hu Hl Hb ltac:(lia) ltac:(intros i Hi; apply Hbefore'; lia)) as E3.
  destruct (dispatch q j pr t Hm Hq Hj Ht Hs Hks Hpd) as (s' & c' & E4 & Hps & Hc').
  exists (k1 + (1 + (j + 1)))%nat, s', c'. split; [unfold NPROC, NTHREADS in *; lia|]. split; [|done].
  rewrite (sched_steps_app _ _ _ _ _ E1). simpl. rewrite (bind_step _ _ _ _ _ E2).
  rewrite (sched_steps_app _ _ _ _ _ E3). simpl. by rewrite (bind_step _ _ _ _ _ E4).
Qed.

(** When no thread is runnable the pass ends, within a bounded number of
    turns: the table is unchanged, [ptable.lock] is released and the scheduler
    is back at the top of its loop. *)
Theorem scheduler_pass_ends :
  calm (kmach s) → held_by me Lptable (kmach s) →
  (∀ c, cpus (kmach s) !! me = Some c → 1 ≤ ncli c) →
  (∀ p i, ¬ runnable (procs s) p i) →
  ∃ n s' c, (n ≤ NPROC * (NTHREADS + 2) + 1)%nat ∧
    sched_steps n me (goto me (AtProc 0) s) = Ok tt s' ∧ procs s' = procs s ∧
    free Lptable (kmach s') ∧ cpus (kmach s') !! me = Some c ∧ cthread c = None ∧ cscan c = NotScanning.
Proof.
  intros Hm Hh Hn Hno. destruct (skip_procs 0 NPROC) as (k & Hk & E1); [lia|intros; apply Hno|].
  pose proof Hsched as (c & Hc & Hct).
  assert (Hw : wpt (scheduler_step me) (λ _ s', procs s' = procs s ∧ free Lptable (kmach s') ∧
    ∃ c', cpus (kmach s') !! me = Some c' ∧ cthread c' = None ∧ cscan c' = NotScanning)
    (goto me (AtProc NPROC) s)).
  { unfold wpt. rewrite (step_unfold me _ s c) by done. cbv zeta.
    rewrite bool_decide_eq_true_2 by lia.
    match goal with |- match ?m ?st with _ => _ end => change (wpt m (λ _ s', procs s' = procs s ∧
      free Lptable (kmach s') ∧ ∃ c', cpus (kmach s') !! me = Some c' ∧ cthread c' = None ∧
      cscan c' = NotScanning) st) end.
    apply wpt_bind, wpt_zoom. apply (wpt_release me Lptable (set_scan (AtProc NPROC) c)).
    - change (kmach (goto me (AtProc NPROC) s)) with (upd_cpu me (set_scan (AtProc NPROC)) (kmach s)).
      rewrite (upd_cpu_eq me c) by done. eapply calm_with_cpu; [done..|].
      exact (proj1 (Forall_lookup _ _) (proj2 Hm) me c Hc).
    - by apply goto_cpu.
    - exact (Hn c Hc).
    - done.
    - intros m' Hm' Hc' Hl' Hf'. apply wpt_zoom, wpt_modify. split; [done|]. split.
      + unfold free. change (locked (locks m' Lptable) = 0). by rewrite Hl'.
      + exists (set_scan NotScanning (popped (set_scan (AtProc NPROC) c))). split_and!; [|done..].
        change (upd me (set_scan NotScanning) (cpus m') !! me =
          Some (set_scan NotScanning (popped (set_scan (AtProc NPROC) c)))).
        by rewrite lookup_upd_eq, Hc'. }
  apply wpt_Ok in Hw as ([] & s' & E & Hp & Hf & c' & Hc').
  exists (k + 1)%nat, s', c'. split; [lia|]. split; [|done].
  rewrite (sched_steps_app _ _ _ _ _ E1). simpl. by rewrite (bind_step _ _ _ _ _ E).
Qed.

End Pass.

(** ** Sleeping *)

(** Reads of the current process and thread change nothing while a lock is held. *)
Lemma current_nested {A} me (f : cpu → A) c (s : kst W) Q :
  calm (kmach s) → cpus (kmach s) !! me = Some c → 0 < ncli c →
  (∀ b n x, f (set_intena b (set_ncli n (set_iflag x c))) = f c) →
  (∀ m, calm m → cpus m !! me = Some c → (∀ l, ¬ free l (kmach s) → locks m l = locks (kmach s) l) →
     (∀ l, free l m ↔ free l (kmach s)) → Q (f c) (set_kmach m s)) →
  wpt (on_mach (pushcli me ;; i ← mycpu me; c ← this_cpu i; popcli me ;; mret (f c))) Q s.
Proof.
  intros Hm Hc Hn Hf HQ. destruct (current_ok me f c (kmach s) Hm Hc Hf) as (m & E & Hq).
  apply wpt_zoom. eapply wpt_eq; [exact E|]. apply HQ.
  - by apply (q_calm _ _ _ Hq).
  - by eapply quiet_nested.
  - intros l Hl. by eapply quiet_held.
  - intros l. symmetry. by eapply quiet_free.
Qed.

(** [sched] called correctly: the thread is saved and the CPU is back in its
    scheduler, with the lock. *)
Lemma wpt_sched me k p i c pr t Q (s : kst W) :
  calm (kmach s) → cpus (kmach s) !! me = Some c → ncli c = 1 → cthread c = Some (p, i) →
  held_by me Lptable (kmach s) → procs s !! p = Some pr → threads pr !! i = Some t →
  tstate t ≠ RUNNING →
  (∀ s', procs s' = procs (upd_thread p i (λ t, set_context k (set_saved_intena (intena c) t)) s) →
     cpus (kmach s') !! me = Some (set_scan (AtThread p (S i)) (set_cur None None c)) →
     held_by me Lptable (kmach s') → (∀ l, free l (kmach s') ↔ free l (kmach s)) → Q Switched s') →
  wpt (sched me k) Q s.
Proof.
  intros Hm Hc Hn Hct Hh Hpr Ht Hs HQ.
  pose proof (proj1 (Forall_lookup _ _) (proj2 Hm) me c Hc) as Hcok.
  assert (Hif : iflag c = false) by (apply Hcok; lia).
  assert (Hnf : ∀ m, held_by me Lptable m → ¬ free Lptable m) by (intros m [? _]; done).
  unfold sched, curthread, mythread. apply wpt_bind, wpt_bind.
  apply (current_nested me cthread c); [done|done|lia|done|]. intros m1 Hm1 Hc1 Hl1 Hf1.
  rewrite Hct. apply wpt_ret. apply wpt_bind, wpt_zoom.
  assert (Hh1 : held_by me Lptable m1) by (unfold held_by; rewrite Hl1 by auto; apply Hh).
  eapply wpt_eq; [apply (holding_ok me Lptable c m1); [apply Hm1|done|done]|].
  rewrite popped_pushed, (bool_decide_eq_false_2 (ncli c = 0)), with_cpu_id by (done || lia).
  rewrite bool_decide_eq_true_2 by done. cbn [negb].
  apply wpt_bind, wpt_zoom, wpt_bind.
  eapply wpt_eq; [apply (mycpu_self me c); [apply Hm1|done|done]|].
  eapply wpt_eq; [by apply this_cpu_ok|].
  rewrite bool_decide_eq_false_2 by auto. apply wpt_bind, (wpt_thread_at p i pr t); [done..|].
  rewrite bool_decide_eq_false_2, Hif by done. do 2 apply wpt_bind, wpt_modify.
  apply wpt_bind, wpt_zoom, wpt_modify, wpt_ret. apply HQ.
  - simpl. apply list_eq. intros q. destruct (decide (p = q)) as [<-|Hne].
    + rewrite !lookup_upd_eq, Hpr. simpl. unfold set_threads. simpl. do 2 f_equal.
      apply list_eq. intros j. destruct (decide (i = j)) as [<-|Hne].
      * by rewrite !lookup_upd_eq, Ht.
      * by rewrite !lookup_upd_ne.
    + by rewrite !lookup_upd_ne.
  - change (upd me (λ c, set_scan (AtThread p (S i)) (set_cur None None c)) (cpus m1) !! me =
      Some (set_scan (AtThread p (S i)) (set_cur None None c))).
    by rewrite lookup_upd_eq, Hc1.
  - exact Hh1.
  - exact Hf1.
Qed.

(** [sleep] called with a lock [lk] held puts the calling thread to sleep on
    the channel, to resume after the call, and returns to the scheduler of the
    CPU with [lk] released and [ptable.lock] held, taken before [lk] was
    released: a [wakeup] of that channel can only come after the thread sleeps. *)
Theorem sleep_spec me ch lk next p i c pr t (s : kst W) :
  calm (kmach s) → cpus (kmach s) !! me = Some c → ncli c = 1 → cproc c = Some p →
  cthread c = Some (p, i) → held_by me lk (kmach s) → lk ≠ Lptable → free Lptable (kmach s) →
  procs s !! p = Some pr → threads pr !! i = Some t →
  ∃ s' t', sleep me ch (Some lk) next s = Ok Switched s' ∧ get_thread s' p i = Some t' ∧
    tstate t' = SLEEPING ∧ tchan t' = ch ∧ context t' = KSleep lk next ∧
    saved_intena t' = intena c ∧ free lk (kmach s') ∧ held_by me Lptable (kmach s') ∧
    cpus (kmach s') !! me = Some (set_scan (AtThread p (S i)) (set_cur None None c)).
Proof.
  intros Hm Hc Hn Hcp Hct Hh Hne Hf Hpr Ht.
  assert (Hw : wpt (sleep me ch (Some lk) next) (λ r s', r = Switched ∧
    procs s' = procs (upd_thread p i (λ t, set_context (KSleep lk next) (set_saved_intena (intena c)
      (set_tstate SLEEPING (set_tchan ch t)))) s) ∧ free lk (kmach s') ∧
    held_by me Lptable (kmach s') ∧
    cpus (kmach s') !! me = Some (set_scan (AtThread p (S i)) (set_cur None None c))) s).
  { unfold sleep, myproc, mythread.
    apply wpt_bind, (current_nested me cproc c); [done|done|lia|done|]. intros m1 Hm1 Hc1 Hl1 Hf1.
    apply wpt_bind, (current_nested me cthread c); [done|done|lia|done|]. intros m2 Hm2 Hc2 Hl2 Hf2.
    rewrite Hcp. rewrite bool_decide_eq_true_2 by done.
    assert (Hh2 : held_by me lk m2).
    { assert (¬ free lk (kmach s)) by (destruct Hh; done).
      unfold held_by. rewrite Hl2; simpl; [rewrite Hl1 by done; apply Hh|by rewrite Hf1]. }
    assert (Hfp : free Lptable m2) by (apply Hf2, Hf1, Hf).
    apply wpt_bind, wpt_bind, wpt_zoom, (wpt_acquire me Lptable c); [done..|].
    intros m3 Hm3 Hc3 Hl3 [Hfr3 _].
    apply wpt_zoom, (wpt_release me lk (pushed c)); [done|done|simpl; lia|..].
    { unfold held_by. rewrite Hfr3 by done. apply Hh2. }
    intros m4 Hm4 Hc4 Hl4 [Hfr4 _]. rewrite popped_pushed in Hc4.
    2:{ exact (proj1 (Forall_lookup _ _) (proj2 Hm) me c Hc). }
    rewrite bool_decide_eq_false_2 in Hc4 by lia. rewrite Hct. apply wpt_bind, wpt_ret.
    do 2 apply wpt_bind, wpt_modify.
    match goal with |- wpt _ _ ?st => set (s5 := st) end.
    assert (Hpr5 : ∃ pr5, procs s5 !! p = Some pr5 ∧
      threads pr5 !! i = Some (set_tstate SLEEPING (set_tchan ch t))).
    { simpl. rewrite !lookup_upd_eq, Hpr. simpl. eexists. split; [done|]. simpl.
      by rewrite !lookup_upd_eq, Ht. }
    destruct Hpr5 as (pr5 & Hpr5 & Ht5).
    eapply (wpt_sched me _ p i c pr5); [exact Hm4|exact Hc4|done|done| |done|done|done|].
    { change (held_by me Lptable m4). unfold held_by. rewrite Hfr4 by done.
      change (held_by me Lptable m3). unfold held_by. by rewrite Hl3. }
    intros s' Hp' Hc' Hh' Hf'. split_and!; [done| |..|done|done].
    - rewrite Hp'. simpl. apply list_eq. intros q. destruct (decide (p = q)) as [<-|Hnq].
      + rewrite !lookup_upd_eq, Hpr. simpl. unfold set_threads. simpl. do 2 f_equal.
        apply list_eq. intros j. destruct (decide (i = j)) as [<-|Hnj].
        * by rewrite !lookup_upd_eq, Ht.
        * by rewrite !lookup_upd_ne.
      + by rewrite !lookup_upd_ne.
    - apply Hf'. change (free lk m4). unfold free. by rewrite Hl4. }
  apply wpt_Ok in Hw as (r & s' & E & -> & Hp & Hfl & Hhl & Hcl).
  eexists s', _. split; [done|]. split.
  { unfold get_thread. rewrite Hp. simpl. rewrite lookup_upd_eq, Hpr. simpl.
    by rewrite lookup_upd_eq, Ht. }
  done.
Qed.

End Sched.

(** ** Examples *)

(** CPU 0 is in its scheduler and holds [ptable.lock]; of the two processes the
    second has a runnable thread, in its second slot, when [st] says so. *)
Definition sched_proc (l : list threadstate) : proc :=
  Proc 0 4096 4096 7 None [] "p"
    ((λ st, Thread 4096 st 0 0 zero_tf CNull InUser 0 false None 0) <$> l ++ replicate (16 - length l) UNUSED_T)
    USED (length l) None.

Definition free_proc : proc :=
  Proc 0 0 0 0 None [] "" (replicate 16 (Thread 0 UNUSED_T 0 0 zero_tf CNull InUser 0 false None 0))
    UNUSED 0 None.

Definition demo_sched (st : threadstate) : kst unit :=
  Kst (Kmem (Mach [Cpu 0 1 true false None None NotScanning]
                  (<[Lptable := Spinlock 1 "ptable" (Some 0%nat)]> (λ _, Spinlock 0 "" None)))
         1 0 (λ _, 0))
      (sched_proc [SLEEPING] :: sched_proc [ZOMBIE_T; st] :: replicate 62 free_proc) 8 None false tt.

Lemma demo_sched_calm st : calm (kmach (demo_sched st)).
Proof.
  split; [unfold mach_wf; simpl; apply NoDup_singleton|]. repeat constructor; simpl; lia.
Qed.

Lemma demo_sched_lookup st p pr :
  procs (demo_sched st) !! p = Some pr →
  (p = 0%nat ∧ pr = sched_proc [SLEEPING]) ∨ (p = 1%nat ∧ pr = sched_proc [ZOMBIE_T; st]) ∨ pr = free_proc.
Proof.
  destruct p as [|[|p]]; [intros [= <-]; auto..|].
  change (replicate 62 free_proc !! p = Some pr → (S (S p) = 0%nat ∧ pr = sched_proc [SLEEPING]) ∨
    (S (S p) = 1%nat ∧ pr = sched_proc [ZOMBIE_T; st]) ∨ pr = free_proc).
  intros [-> _]%lookup_replicate. auto.
Qed.

Lemma demo_sched_shape st p pr :
  procs (demo_sched st) !! p = Some pr → length (threads pr) = NTHREADS ∧ (t_num pr ≤ NTHREADS)%nat.
Proof.
  intros [[_ ->]|[[_ ->]| ->]]%demo_sched_lookup; simpl; unfold NTHREADS; lia.
Qed.

Lemma demo_sched_in st : in_sched 0 (demo_sched st).
Proof. eexists. done. Qed.

Lemma demo_runnable st p i : runnable (procs (demo_sched st)) p i → p = 1%nat ∧ i = 1%nat ∧ st = RUNNABLE.
Proof.
  intros (pr & t & Hp & Hu & Hi & Ht & Hs).
  apply demo_sched_lookup in Hp as [[-> ->]|[[-> ->]| ->]]; [..|done]; simpl in *.
  - destruct i as [|i]; [|lia]. injection Ht as <-. done.
  - destruct i as [|[|i]]; [..|lia]; injection Ht as <-; [done|]. by simpl in Hs.
Qed.

Lemma scheduler_dispatches_first_witness :
  ∃ n s' c, sched_steps n 0 (goto 0 (AtProc 0) (demo_sched RUNNABLE)) = Ok tt s' ∧
    cpus (kmach s') !! 0%nat = Some c ∧ cthread c = Some (1%nat, 1%nat).
Proof.
  destruct (scheduler_dispatches_first 0 (demo_sched RUNNABLE) (demo_sched_in _) eq_refl
    (demo_sched_shape _) 1 1 (sched_proc [ZOMBIE_T; RUNNABLE])
    (Thread 4096 RUNNABLE 0 0 zero_tf CNull InUser 0 false None 0))
    as (n & s' & c & _ & H1 & _ & H2 & _ & H3).
  all: try reflexivity.
  - apply demo_sched_calm.
  - simpl; lia.
  - done.
  - done.
  - intros p i Hp Hr%demo_runnable. lia.
  - intros i Hi Hr%demo_runnable. lia.
  - exists n, s', c. split; [exact H1|]. split; [exact H2|exact H3].
Defined.

Lemma scheduler_pass_ends_witness :
  ∃ n s', sched_steps n 0 (goto 0 (AtProc 0) (demo_sched SLEEPING)) = Ok tt s' ∧
    free Lptable (kmach s').
Proof.
  destruct (scheduler_pass_ends 0 (demo_sched SLEEPING) (demo_sched_in _) eq_refl (demo_sched_shape _)
    (demo_sched_calm _)) as (n & s' & c & _ & H1 & _ & H2 & _).
  - split; done.
  - simpl. intros c [= <-]. simpl. lia.
  - intros p i Hr%demo_runnable. naive_solver.
  - exists n, s'. split; [exact H1|exact H2].
Defined.

(** Thread 0 of process 0 runs on CPU 0 and holds the lock [Ltickslock]. *)
Definition demo_sleeper : kst unit :=
  Kst (Kmem (Mach [Cpu 0 1 true false (Some 0%nat) (Some (0%nat, 0%nat)) NotScanning]
                  (<[Ltickslock := Spinlock 1 "time" (Some 0%nat)]> (λ _, Spinlock 0 "" None)))
         1 0 (λ _, 0))
      [sched_proc [RUNNING]] 8 None false tt.

Lemma sleep_spec_witness :
  ∃ s' t', sleep 0 (CObj 5) (Some Ltickslock) ToCaller demo_sleeper = Ok Switched s' ∧
    get_thread s' 0 0 = Some t' ∧ tstate t' = SLEEPING ∧ free Ltickslock (kmach s').
Proof.
  destruct (sleep_spec 0 (CObj 5) Ltickslock ToCaller 0 0
    (Cpu 0 1 true false (Some 0%nat) (Some (0%nat, 0%nat)) NotScanning) (sched_proc [RUNNING])
    (Thread 4096 RUNNING 0 0 zero_tf CNull InUser 0 false None 0) demo_sleeper)
    as (s' & t' & H1 & H2 & H3 & _ & _ & _ & H4 & _).
  all: try reflexivity; try done.
  - split; [unfold mach_wf; simpl; apply NoDup_singleton|]. repeat constructor; simpl; lia.
  - exists s', t'. split; [exact H1|]. split; [exact H2|]. split; [exact H3|exact H4].
Defined.
