(* ===== verification/Mutex.v ===== *)
(** * Kernel mutexes

    The mutex system calls at the end of [src/proc.c] and [struct
    kthread_mutex_t] of [src/kthread.h].  The table, its counter and its lock
    are globals; [kthread_mutex_lock], [kthread_mutex_unlock] and
    [kthread_mutex_dealloc] work on a copy of the table entry in their stack
    frame, its spinlock included. *)

From S2P Require Import Prelude Spinlock Kalloc ProcData Proc ProcTotal.

Definition MAX_MUTEXES : Z := 64.

(** [struct kthread_mutex_t]; the spinlock [lk] of entry [k] of the table is
    the lock [Lmutex k] of the machine, that of a copy is [Lstack]. *)
Record kthread_mutex_t : Type := Mutex {
  mlocked : Z;
  mid : Z;
}.

Record mst (W : Type) : Type := Mst {
  ks : kst W;
  mutexes : list kthread_mutex_t;
  mutex_num : Z;
}.

Arguments Mst {W}.
Arguments ks {W} _.
Arguments mutexes {W} _.
Arguments mutex_num {W} _.

Section Mutex.

Context {W : Type}.

Definition set_ks (k : kst W) (s : mst W) : mst W := Mst k (mutexes s) (mutex_num s).
Definition set_mutexes (l : list kthread_mutex_t) (s : mst W) : mst W := Mst (ks s) l (mutex_num s).
Definition set_mutex_num (n : Z) (s : mst W) : mst W := Mst (ks s) (mutexes s) n.

Definition on_ks {A} (m : M (kst W) A) : M (mst W) A := zoom ks set_ks m.

#[global] Instance mst_mach : HasMach (mst W) := {|
  the_mach s := kmach (ks s);
  put_mach m s := set_ks (set_kmach m (ks s)) s;
|}.

#[global] Instance mst_mach_laws : HasMachLaws (mst W).
Proof. by split. Qed.

Definition on_m {A} (m : M mach A) : M (mst W) A := lift_mach m.

(** [mutexes[k]], an index computed in [int]. *)
Definition mutex_at (k : Z) : M (mst W) kthread_mutex_t := λ s,
  match (if bool_decide (0 ≤ k) then mutexes s !! Z.to_nat k else None) with
  | Some x => Ok x s
  | None => Undef "mutexes[] out of bounds" s
  end.

Definition upd_mutex (k : Z) (f : kthread_mutex_t → kthread_mutex_t) : M (mst W) unit :=
  mutex_at k ;; modify (λ s, set_mutexes (upd (Z.to_nat k) f (mutexes s)) s).

(** [mutexes[k] = mutexes[j]] copies the spinlock too. *)
Definition copy_mutex (j k : Z) : M (mst W) unit :=
  x ← mutex_at j;
  upd_mutex k (λ _, x) ;;
  on_m (modify (λ m, set_lock (Lmutex (Z.to_nat k)) (locks m (Lmutex (Z.to_nat j))) m)).

Definition kthread_mutex_alloc (me : nat) : M (mst W) Z :=
  n ← gets mutex_num;
  (if bool_decide (n = 0) then on_m (initlock Lmutexes "mutex lock") else mret tt) ;;
  if bool_decide (n = MAX_MUTEXES) then mret (-1) else
  on_m (acquire me Lmutexes) ;;
  modify (λ s, set_mutex_num (mutex_num s + 1) s) ;;
  on_m (release me Lmutexes) ;;
  n ← gets mutex_num;
  let k := n - 1 in
  mutex_at k ;;
  on_m (initlock (Lmutex (Z.to_nat k)) "mutex lock") ;;
  on_m (acquire me (Lmutex (Z.to_nat k))) ;;
  upd_mutex k (λ x, Mutex 0 (mid x)) ;;
  n ← gets mutex_num;
  upd_mutex k (λ x, Mutex (mlocked x) n) ;;
  on_m (release me (Lmutex (Z.to_nat k))) ;;
  on_m (acquire me Lmutexes) ;;
  n ← gets mutex_num;
  copy_mutex k (n - 1) ;;
  on_m (release me Lmutexes) ;;
  x ← mutex_at k;
  mret (mid x).

Definition bad_id (mutex_id : Z) : bool :=
  bool_decide (0 > mutex_id) || bool_decide (mutex_id > MAX_MUTEXES).

(** [struct kthread_mutex_t mutex; mutex = mutexes[mutex_id - 1];] *)
Definition stack_copy (me : nat) (mutex_id : Z) : M (mst W) kthread_mutex_t :=
  x ← mutex_at (mutex_id - 1);
  on_m (modify (λ m, set_lock (Lstack me) (locks m (Lmutex (Z.to_nat (mutex_id - 1)))) m)) ;;
  mret x.

(** [a] is the address of the local variable [mutex]. *)
Definition kthread_mutex_dealloc (me : nat) (a mutex_id : Z) : M (mst W) Z :=
  if bad_id mutex_id then mret (-1) else
  x ← stack_copy me mutex_id;
  if bool_decide (mlocked x ≠ 0) then mret (-1) else
  on_m (acquire me (Lstack me)) ;;
  let x := Mutex 0 0 in
  on_ks (wakeup me (CObj a)) ;;
  on_m (release me (Lstack me)) ;;
  on_m (acquire me Lmutexes) ;;
  modify (λ s, set_mutex_num (mutex_num s - 1) s) ;;
  on_m (release me Lmutexes) ;;
  mret 0.

(** The loop of [kthread_mutex_lock] on the local copy [x].  It runs again on
    the same copy when [sleep] returns. *)
Definition mutex_lock_loop (me : nat) (a : Z) (x : kthread_mutex_t) : M (mst W) kres :=
  if bool_decide (mlocked x ≠ 0) then on_ks (sleep me (CObj a) (Some (Lstack me)) ToCaller)
  else
    let x := Mutex 1 (mid x) in
    on_m (release me (Lstack me)) ;;
    mret (Return 0).

Definition kthread_mutex_lock (me : nat) (a mutex_id : Z) : M (mst W) kres :=
  if bad_id mutex_id then mret (Return (-1)) else
  x ← stack_copy me mutex_id;
  on_m (acquire me (Lstack me)) ;;
  mutex_lock_loop me a x.

Definition kthread_mutex_unlock (me : nat) (a mutex_id : Z) : M (mst W) Z :=
  if bad_id mutex_id then mret (-1) else
  x ← stack_copy me mutex_id;
  on_m (acquire me (Lstack me)) ;;
  let x := Mutex 0 0 in
  on_ks (wakeup me (CObj a)) ;;
  on_m (release me (Lstack me)) ;;
  mret 0.

(** ** What the calls do

    No call is in progress: the locks involved are free and no entry of the
    table is marked as locked. *)
Record idle (s : mst W) : Prop := Idle {
  id_calm : calm (the_mach s);
  id_ptable : free Lptable (the_mach s);
  id_mutexes : mutex_num s = 0 ∨ free Lmutexes (the_mach s);
  id_mutex k : free (Lmutex k) (the_mach s);
  id_stack k : free (Lstack k) (the_mach s);
  id_length : length (mutexes s) = Z.to_nat MAX_MUTEXES;
  id_unlocked : Forall (λ x, mlocked x = 0) (mutexes s);
  id_num : 0 ≤ mutex_num s ≤ MAX_MUTEXES;
}.

(** The table is as before, and so is the machine up to balanced locking. *)
Definition unchanged (me : nat) (s s' : mst W) : Prop :=
  mutexes s' = mutexes s ∧ mutex_num s' = mutex_num s ∧ quiet me (the_mach s) (the_mach s').

Lemma unchanged_idle me s s' : unchanged me s s' → idle s → idle s'.
Proof.
  intros (E1 & E2 & Hq) [A B C D D' E F G]. split; rewrite ?E1, ?E2; auto.
  - by apply (q_calm _ _ _ Hq).
  - by apply (quiet_free _ _ _ _ Hq).
  - destruct C; [by left|right]. by apply (quiet_free _ _ _ _ Hq).
  - intros k. by apply (quiet_free _ _ _ _ Hq).
  - intros k. by apply (quiet_free _ _ _ _ Hq).
Qed.

Lemma idle_lookup s k :
  idle s → 1 ≤ k ≤ MAX_MUTEXES →
  ∃ x, mutexes s !! Z.to_nat (k - 1) = Some x ∧ mlocked x = 0.
Proof.
  intros Hi Hk. destruct (lookup_lt_is_Some_2 (mutexes s) (Z.to_nat (k - 1))) as [x Hx].
  { rewrite (id_length _ Hi). unfold MAX_MUTEXES in *. lia. }
  exists x. split; [done|]. by apply (proj1 (Forall_lookup _ _) (id_unlocked _ Hi) _ _ Hx).
Qed.

Lemma wpt_mutex_at k x Q s :
  0 ≤ k → mutexes s !! Z.to_nat k = Some x → Q x s → wpt (mutex_at k) Q s.
Proof.
  intros Hk Hx HQ. unfold wpt, mutex_at. by rewrite bool_decide_eq_true_2, Hx by done.
Qed.

(** The machine with the stack copy of the lock in place. *)
Lemma set_lock_quiet me l lk m : free l m → locked lk = 0 → quiet me m (set_lock l lk m).
Proof.
  intros Hl Hk. split; [done|done|..].
  - intros c Hc. exists (intena c). by rewrite set_intena_id.
  - intros l'. destruct (decide (l' = l)) as [->|Hne]; unfold free; simpl.
    + right. rewrite fn_lookup_insert. done.
    + left. by rewrite fn_lookup_insert_ne.
  - done.
Qed.

Lemma wpt_stack_copy me k Q s :
  idle s → 1 ≤ k ≤ MAX_MUTEXES →
  (∀ x s', mlocked x = 0 → unchanged me s s' → Q x s') → wpt (stack_copy me k) Q s.
Proof.
  intros Hi Hk HQ. destruct (idle_lookup s k Hi Hk) as (x & Hx & Hl).
  unfold stack_copy. apply wpt_bind, (wpt_mutex_at _ x); [lia|done|].
  apply wpt_bind, wpt_zoom, wpt_modify, wpt_ret. apply HQ; [done|]. split_and!; [done..|].
  simpl. apply set_lock_quiet; [apply Hi|apply Hi].
Qed.

Lemma unchanged_trans me s1 s2 s3 : unchanged me s1 s2 → unchanged me s2 s3 → unchanged me s1 s3.
Proof.
  intros (A1 & B1 & C1) (A2 & B2 & C2). split_and!; [congruence..|]. by etrans.
Qed.

Lemma bad_id_false k : 0 ≤ k ≤ MAX_MUTEXES → bad_id k = false.
Proof.
  intros Hk. unfold bad_id. by rewrite !bool_decide_eq_false_2 by lia.
Qed.

(** One turn through [acquire(&mutex.lk); wakeup(&mutex); release(&mutex.lk);]. *)
Lemma wpt_wake_section {B} me a (k : M (mst W) B) Q s :
  idle s → (me < length (cpus (the_mach s)))%nat →
  (∀ s', unchanged me s s' → wpt k Q s') →
  wpt (on_m (acquire me (Lstack me)) ;; on_ks (wakeup me (CObj a)) ;;
       on_m (release me (Lstack me)) ;; k) Q s.
Proof.
  intros Hi Hme HQ. apply wpt_enter; [apply Hi|done|apply Hi|].
  intros s1 He. destruct (entered_calm _ _ _ _ He) as (Hc1 & Hme1 & Hf1).
  apply wpt_bind, wpt_zoom, wpt_wakeup; [done|done|apply Hf1; [done|apply Hi]|].
  intros m Hq. eapply wpt_leave; [exact He|exact Hq|]. intros m3 Hq3 _ _. apply HQ.
  destruct (entered_put _ _ _ _ He) as [m1 ->]. split_and!; [done..|]. exact Hq3.
Qed.

Lemma mutex_lock_ok me a k s :
  idle s → (me < length (cpus (the_mach s)))%nat → 1 ≤ k ≤ MAX_MUTEXES →
  ∃ s', kthread_mutex_lock me a k s = Ok (Return 0) s' ∧ unchanged me s s'.
Proof.
  intros Hi Hme Hk. unfold kthread_mutex_lock. rewrite bad_id_false by lia.
  assert (Hw : wpt (x ← stack_copy me k; on_m (acquire me (Lstack me)) ;; mutex_lock_loop me a x)
    (λ r s', r = Return 0 ∧ unchanged me s s') s).
  { apply wpt_bind. apply wpt_stack_copy; [done..|]. intros x s1 Hx H1.
    unfold mutex_lock_loop. rewrite bool_decide_eq_false_2 by auto.
    apply (unchanged_idle _ _ _ H1) in Hi as Hi1.
    assert (Hme1 : (me < length (cpus (the_mach s1)))%nat).
    { by rewrite (q_length _ _ _ (proj2 (proj2 H1))). }
    apply wpt_enter; [apply Hi1|done|apply Hi1|]. intros s2 He. cbv zeta.
    eapply wpt_leave; [exact He|apply quiet_refl|]. intros m3 Hq3 _ _. apply wpt_ret. split; [done|].
    eapply unchanged_trans; [exact H1|]. destruct (entered_put _ _ _ _ He) as [m1 ->]. done. }
  apply wpt_Ok in Hw as (r & s' & E & -> & Hu). eauto.
Qed.

Lemma mutex_unlock_ok me a k s :
  idle s → (me < length (cpus (the_mach s)))%nat → 1 ≤ k ≤ MAX_MUTEXES →
  ∃ s', kthread_mutex_unlock me a k s = Ok 0 s' ∧ unchanged me s s'.
Proof.
  intros Hi Hme Hk. unfold kthread_mutex_unlock. rewrite bad_id_false by lia. cbv zeta.
  match goal with |- ∃ s', ?m s = _ ∧ _ =>
    assert (Hw : wpt m (λ r s', r = 0 ∧ unchanged me s s') s) end.
  { apply wpt_bind. apply wpt_stack_copy; [done..|]. intros x s1 Hx H1.
    apply wpt_wake_section; [by eapply unchanged_idle|by rewrite (q_length _ _ _ (proj2 (proj2 H1)))|].
    intros s2 H2. apply wpt_ret. split; [done|]. by eapply unchanged_trans. }
  apply wpt_Ok in Hw as (r & s' & E & -> & Hu). eauto.
Qed.

Lemma mutex_dealloc_ok me a k s :
  idle s → (me < length (cpus (the_mach s)))%nat → 1 ≤ k ≤ MAX_MUTEXES → 0 < mutex_num s →
  ∃ s', kthread_mutex_dealloc me a k s = Ok 0 s' ∧ mutexes s' = mutexes s ∧
    mutex_num s' = mutex_num s - 1 ∧ quiet me (the_mach s) (the_mach s').
Proof.
  intros Hi Hme Hk Hn. unfold kthread_mutex_dealloc. rewrite bad_id_false by lia. cbv zeta.
  match goal with |- ∃ s', ?m s = _ ∧ _ =>
    assert (Hw : wpt m (λ r s', r = 0 ∧ mutexes s' = mutexes s ∧
      mutex_num s' = mutex_num s - 1 ∧ quiet me (the_mach s) (the_mach s')) s) end.
  { apply wpt_bind. apply wpt_stack_copy; [done..|]. intros x s1 Hx H1.
    rewrite bool_decide_eq_false_2 by auto.
    apply wpt_wake_section; [by eapply unchanged_idle|by rewrite (q_length _ _ _ (proj2 (proj2 H1)))|].
    intros s2 H2. pose proof (unchanged_trans _ _ _ _ H1 H2) as H12.
    apply (unchanged_idle _ _ _ H12) in Hi as Hi2. destruct H12 as (E1 & E2 & Hq).
    apply wpt_enter; [apply Hi2|by rewrite (q_length _ _ _ Hq)|..].
    { destruct (id_mutexes _ Hi2); [lia|done]. }
    intros s3 He. apply wpt_bind, wpt_modify. eapply wpt_leave; [exact He|apply quiet_refl|].
    intros m4 Hq4 _ _. destruct (entered_put _ _ _ _ He) as [m3 ->].
    apply wpt_ret. simpl. split_and!; [done..|lia|by etrans]. }
  apply wpt_Ok in Hw as (r & s' & E & -> & Hu). eauto.
Qed.

Lemma dealloc_idle me s s' :
  idle s → mutexes s' = mutexes s → mutex_num s' = mutex_num s - 1 → 0 < mutex_num s →
  quiet me (the_mach s) (the_mach s') → idle s'.
Proof.
  intros [A B C D D' E F G] E1 E2 Hn Hq. split; rewrite ?E1, ?E2; auto; try lia.
  - by apply (q_calm _ _ _ Hq).
  - by apply (quiet_free _ _ _ _ Hq).
  - right. apply (quiet_free _ _ _ _ Hq). by destruct C; [lia|].
  - intros k. by apply (quiet_free _ _ _ _ Hq).
  - intros k. by apply (quiet_free _ _ _ _ Hq).
Qed.

Lemma wpt_upd_mutex k f x Q s :
  0 ≤ k → mutexes s !! Z.to_nat k = Some x →
  Q tt (set_mutexes (upd (Z.to_nat k) f (mutexes s)) s) → wpt (upd_mutex k f) Q s.
Proof.
  intros Hk Hx HQ. apply wpt_bind, (wpt_mutex_at _ x); [done..|]. by apply wpt_modify.
Qed.

Lemma set_lock_same_quiet me l m : quiet me m (set_lock l (locks m l) m).
Proof.
  split; [done|done|..|done].
  - intros c Hc. exists (intena c). by rewrite set_intena_id.
  - intros l'. left. simpl. destruct (decide (l' = l)) as [->|Hne].
    + by rewrite fn_lookup_insert.
    + by rewrite fn_lookup_insert_ne.
Qed.

(** The part of [kthread_mutex_alloc] after the counter was incremented. *)
Lemma mutex_fill me n Q s :
  calm (the_mach s) → (me < length (cpus (the_mach s)))%nat → free Lmutexes (the_mach s) →
  (∀ k, free (Lmutex k) (the_mach s)) → length (mutexes s) = Z.to_nat MAX_MUTEXES →
  mutex_num s = n → 1 ≤ n ≤ MAX_MUTEXES →
  (∀ s', mutexes s' = <[Z.to_nat (n - 1) := Mutex 0 n]> (mutexes s) → mutex_num s' = n →
     quiet me (the_mach s) (the_mach s') → Q n s') →
  wpt (mutex_at (n - 1) ;;
       on_m (initlock (Lmutex (Z.to_nat (n - 1))) "mutex lock") ;;
       on_m (acquire me (Lmutex (Z.to_nat (n - 1)))) ;;
       upd_mutex (n - 1) (λ x, Mutex 0 (mid x)) ;;
       n' ← gets mutex_num;
       upd_mutex (n - 1) (λ x, Mutex (mlocked x) n') ;;
       on_m (release me (Lmutex (Z.to_nat (n - 1)))) ;;
       on_m (acquire me Lmutexes) ;;
       n' ← gets mutex_num;
       copy_mutex (n - 1) (n' - 1) ;;
       on_m (release me Lmutexes) ;;
       x ← mutex_at (n - 1);
       mret (mid x)) Q s.
Proof.
  intros Hm Hme Hf Hk Hlen Hn Hr HQ.
  destruct (lookup_lt_is_Some_2 (mutexes s) (Z.to_nat (n - 1))) as [x Hx].
  { rewrite Hlen. unfold MAX_MUTEXES in *. lia. }
  set (k := Z.to_nat (n - 1)) in *.
  apply wpt_bind, (wpt_mutex_at _ x); [lia|done|]. apply wpt_bind, wpt_zoom, wpt_modify.
  match goal with |- wpt _ _ ?t => set (s1 := t) end.
  assert (Hq1 : quiet me (the_mach s) (the_mach s1)) by (simpl; apply set_lock_quiet; auto; apply Hk).
  assert (Hf1 := λ l, proj1 (quiet_free _ _ _ l Hq1)).
  apply wpt_enter; [by apply (q_calm _ _ _ Hq1)|by rewrite (q_length _ _ _ Hq1)|apply Hf1, Hk|].
  intros s2 He2. destruct (entered_put _ _ _ _ He2) as [m2 E2].
  assert (Hx2 : mutexes s2 !! k = Some x) by (by rewrite E2).
  apply wpt_bind, (wpt_upd_mutex _ _ x); [lia|done|]. apply wpt_bind, wpt_gets.
  apply wpt_bind. eapply wpt_upd_mutex; [lia|cbn [mutexes set_mutexes]; fold k; rewrite lookup_upd_eq, Hx2; done|].
  eapply wpt_leave; [exact He2|apply quiet_refl|]. intros m3 Hq3 _ Hfr3. simpl.
  match goal with |- wpt _ _ ?t => set (s3 := t) end.
  assert (Hn3 : mutex_num s3 = n) by (simpl; by rewrite E2).
  assert (Hl3 : mutexes s3 = <[k := Mutex 0 n]> (mutexes s)).
  { simpl. rewrite E2. simpl. change (mutexes s1) with (mutexes s).
    change (mutex_num s1) with (mutex_num s). rewrite upd_insert with (x := Mutex 0 (mid x)).
    - rewrite Hn, (upd_insert _ _ _ x) by done. apply list_insert_insert_eq.
    - rewrite lookup_upd_eq. fold k. by rewrite Hx. }
  assert (Hq13 : quiet me (the_mach s) (the_mach s3)) by (etrans; [exact Hq1|exact Hq3]).
  clearbody s3. clear He2 Hx2 E2 Hfr3 Hq3 s2 Hq1 Hf1 s1 m2 m3.
  assert (Hx3 : mutexes s3 !! k = Some (Mutex 0 n)).
  { rewrite Hl3. apply list_lookup_insert_eq. by eapply lookup_lt_Some. }
  apply wpt_enter; [by apply (q_calm _ _ _ Hq13)|by rewrite (q_length _ _ _ Hq13)
    |by apply (quiet_free _ _ _ _ Hq13)|].
  intros s4 He4. destruct (entered_put _ _ _ _ He4) as [m4 E4].
  apply wpt_bind, wpt_gets. rewrite E4. simpl mutex_num. rewrite Hn3. rewrite <- E4.
  apply wpt_bind, wpt_bind, (wpt_mutex_at _ (Mutex 0 n)); [lia|by rewrite E4|].
  apply wpt_bind. eapply wpt_upd_mutex; [lia|by rewrite E4|]. apply wpt_zoom, wpt_modify.
  eapply wpt_leave; [exact He4|apply set_lock_same_quiet|]. intros m5 Hq5 _ Hfr5.
  match goal with |- wpt _ _ ?t => set (s5 := t) end.
  assert (Hl5 : mutexes s5 = mutexes s3).
  { simpl. rewrite E4. simpl. rewrite (upd_insert _ _ _ (Mutex 0 n)) by done.
    by rewrite list_insert_id. }
  apply wpt_bind, (wpt_mutex_at _ (Mutex 0 n)); [lia|by rewrite Hl5|]. apply wpt_ret. simpl.
  apply HQ.
  - by rewrite Hl5.
  - simpl. by rewrite E4.
  - etrans; [exact Hq13|exact Hq5].
Qed.

Lemma mutex_alloc_ok me s :
  idle s → (me < length (cpus (the_mach s)))%nat → mutex_num s < MAX_MUTEXES →
  ∃ s', kthread_mutex_alloc me s = Ok (mutex_num s + 1) s' ∧ idle s' ∧
    mutexes s' = <[Z.to_nat (mutex_num s) := Mutex 0 (mutex_num s + 1)]> (mutexes s) ∧
    mutex_num s' = mutex_num s + 1 ∧ length (cpus (the_mach s')) = length (cpus (the_mach s)).
Proof.
  intros Hi Hme Hn. pose proof (id_num _ Hi) as Hnum.
  assert (Hw : wpt (kthread_mutex_alloc me) (λ r s', r = mutex_num s + 1 ∧ idle s' ∧
    mutexes s' = <[Z.to_nat (mutex_num s) := Mutex 0 (mutex_num s + 1)]> (mutexes s) ∧
    mutex_num s' = mutex_num s + 1 ∧ length (cpus (the_mach s')) = length (cpus (the_mach s))) s).
  { unfold kthread_mutex_alloc. apply wpt_bind, wpt_gets, wpt_bind.
    eapply (wpt_mono _ (λ _ s1, mutexes s1 = mutexes s ∧ mutex_num s1 = mutex_num s ∧
      cpus (the_mach s1) = cpus (the_mach s) ∧ free Lmutexes (the_mach s1) ∧
      ∀ l, l ≠ Lmutexes → locks (the_mach s1) l = locks (the_mach s) l)).
    { apply wpt_if.
      - intros _. apply wpt_zoom, wpt_modify. split_and!; [done..| |].
        + done.
        + intros l Hl. simpl. by rewrite fn_lookup_insert_ne.
      - intros Hn0%bool_decide_eq_false. apply wpt_ret. split_and!; try done.
        by destruct (id_mutexes _ Hi). }
    intros _ s1 (E1 & E2 & E3 & Hf1 & El1). rewrite bool_decide_eq_false_2 by lia.
    assert (Hm1 : calm (the_mach s1)).
    { destruct (id_calm _ Hi). split; [unfold mach_wf|]; by rewrite E3. }
    assert (Hfl : ∀ l, l ≠ Lmutexes → free l (the_mach s) → free l (the_mach s1)).
    { intros l Hl. unfold free. by rewrite El1. }
    apply wpt_enter; [done|by rewrite E3|done|]. intros s2 He2.
    apply wpt_bind, wpt_modify. eapply wpt_leave; [exact He2|apply quiet_refl|].
    intros m3 Hq3 _ Hf3. destruct (entered_put _ _ _ _ He2) as [m2 ->].
    apply wpt_bind, wpt_gets. cbv zeta. simpl mutex_num. rewrite E2.
    apply mutex_fill with (n := mutex_num s + 1); rewrite ?the_put.
    - by apply (q_calm _ _ _ Hq3).
    - by rewrite (q_length _ _ _ Hq3), E3.
    - done.
    - intros k. apply (quiet_free _ _ _ _ Hq3), Hfl; [done|]. apply Hi.
    - simpl. rewrite E1. apply Hi.
    - done.
    - lia.
    - intros s' Hl Hn' Hq'. simpl in Hl. rewrite E1 in Hl. replace (mutex_num s + 1 - 1) with (mutex_num s) in Hl by lia.
      assert (Hq : quiet me (the_mach s1) (the_mach s')) by (etrans; [exact Hq3|exact Hq']).
      split_and!; try done; [|by rewrite (q_length _ _ _ Hq), E3].
      split; rewrite ?Hl, ?Hn'; try lia.
      + by apply (q_calm _ _ _ Hq).
      + apply (quiet_free _ _ _ _ Hq), Hfl; [done|apply Hi].
      + right. by apply (quiet_free _ _ _ _ Hq).
      + intros k. apply (quiet_free _ _ _ _ Hq), Hfl; [done|apply Hi].
      + intros k. apply (quiet_free _ _ _ _ Hq), Hfl; [done|apply Hi].
      + rewrite length_insert. apply Hi.
      + apply Forall_insert; [apply Hi|done]. }
  apply wpt_Ok in Hw as (r & s' & E & -> & Hu). eauto.
Qed.

(** ** Properties *)

(** With no other call in progress, [kthread_mutex_alloc] returns the id
    one above the number of mutexes given out so far and initialises that entry
    of the table, unlocked; when all [MAX_MUTEXES] are given out it returns -1
    and changes nothing. *)
Theorem mutex_alloc_spec me s :
  idle s → (me < length (cpus (the_mach s)))%nat →
  (mutex_num s < MAX_MUTEXES → ∃ s', kthread_mutex_alloc me s = Ok (mutex_num s + 1) s' ∧ idle s' ∧
     mutexes s' = <[Z.to_nat (mutex_num s) := Mutex 0 (mutex_num s + 1)]> (mutexes s) ∧
     mutex_num s' = mutex_num s + 1) ∧
  (mutex_num s = MAX_MUTEXES → kthread_mutex_alloc me s = Ok (-1) s).
Proof.
  intros Hi Hme. split.
  - intros Hn. destruct (mutex_alloc_ok me s Hi Hme Hn) as (s' & ? & ? & ? & ? & _). eauto.
  - intros Hn. unfold kthread_mutex_alloc. mred. rewrite Hn. done.
Qed.

(** A mutex excludes nobody: after one CPU has locked it, another CPU locks
    the same mutex at once, and a [kthread_mutex_unlock] in between is as little
    needed as it is noticed; the table never changes. *)
Theorem mutex_lock_excludes_nobody me me' a a' k s :
  idle s → (me < length (cpus (the_mach s)))%nat → (me' < length (cpus (the_mach s)))%nat →
  1 ≤ k ≤ MAX_MUTEXES →
  ∃ s1 s2 s3, kthread_mutex_lock me a k s = Ok (Return 0) s1 ∧
    kthread_mutex_lock me' a' k s1 = Ok (Return 0) s2 ∧
    kthread_mutex_unlock me a k s2 = Ok 0 s3 ∧
    mutexes s1 = mutexes s ∧ mutexes s2 = mutexes s ∧ mutexes s3 = mutexes s ∧ idle s3.
Proof.
  intros Hi Hme Hme' Hk.
  destruct (mutex_lock_ok me a k s Hi Hme Hk) as (s1 & E1 & U1).
  pose proof (unchanged_idle _ _ _ U1 Hi) as Hi1. destruct U1 as (T1 & _ & Q1).
  destruct (mutex_lock_ok me' a' k s1 Hi1) as (s2 & E2 & U2);
    [by rewrite (q_length _ _ _ Q1)|done|].
  pose proof (unchanged_idle _ _ _ U2 Hi1) as Hi2. destruct U2 as (T2 & _ & Q2).
  destruct (mutex_unlock_ok me a k s2 Hi2) as (s3 & E3 & U3);
    [by rewrite (q_length _ _ _ Q2), (q_length _ _ _ Q1)|done|].
  pose proof (unchanged_idle _ _ _ U3 Hi2) as Hi3. destruct U3 as (T3 & _ & _).
  exists s1, s2, s3. split_and!; congruence || done.
Qed.

(** [kthread_mutex_dealloc] of any mutex makes the next [kthread_mutex_alloc]
    return the id given out last, which is still in use unless it is the one
    that was given back. *)
Theorem mutex_dealloc_reuses_last me a k s :
  idle s → (me < length (cpus (the_mach s)))%nat → 1 ≤ k ≤ mutex_num s →
  ∃ s1 s2, kthread_mutex_dealloc me a k s = Ok 0 s1 ∧ kthread_mutex_alloc me s1 = Ok (mutex_num s) s2.
Proof.
  intros Hi Hme Hk. pose proof (id_num _ Hi) as Hnum.
  destruct (mutex_dealloc_ok me a k s) as (s1 & E1 & T1 & N1 & Q1); [done|done|lia|lia|].
  pose proof (dealloc_idle me s s1 Hi T1 N1 ltac:(lia) Q1) as Hi1.
  destruct (mutex_alloc_ok me s1 Hi1) as (s2 & E2 & _); [by rewrite (q_length _ _ _ Q1)|lia|].
  exists s1, s2. split; [done|]. rewrite E2, N1. f_equal. lia.
Qed.

End Mutex.

(** ** Concurrent allocation

    [kthread_mutex_alloc] as it runs on several CPUs: the increment is one
    critical section, but the counter is read again, outside it, to find the
    entry. *)
Module Race.

Inductive pc : Type :=
| Start
| Counted                (* after the first critical section *)
| Chosen (k : Z)         (* mutex = &mutexes[mutex_num - 1] *)
| Filled (k : Z)         (* id and locked written *)
| Stored (k : Z)         (* after the last critical section *)
| Done (r : Z).

Record state : Type := State {
  num : Z;
  ids : Z → Z;
  pcs : list pc;
}.

Definition step_pc (s : state) (x : pc) : option (Z * (Z → Z) * pc) :=
  match x with
  | Start =>
      if bool_decide (num s = MAX_MUTEXES) then Some (num s, ids s, Done (-1))
      else Some (num s + 1, ids s, Counted)
  | Counted => Some (num s, ids s, Chosen (num s - 1))
  | Chosen k => Some (num s, <[k := num s]> (ids s), Filled k)
  | Filled k => Some (num s, <[num s - 1 := ids s k]> (ids s), Stored k)
  | Stored k => Some (num s, ids s, Done (ids s k))
  | Done _ => None
  end.

(** Thread [i] takes its next step. *)
Definition step (i : nat) (s : state) : option state :=
  x ← pcs s !! i;
  '(n, d, y) ← step_pc s x;
  Some (State n d (<[i := y]> (pcs s))).

Definition run (l : list nat) (s : state) : option state :=
  foldl (λ o i, o ≫= step i) (Some s) l.

(** Two concurrent calls of [kthread_mutex_alloc] can return the same id,
    where one after the other they return different ones. *)
Theorem mutex_alloc_race :
  let s0 := State 0 (λ _, 0) [Start; Start] in
  pcs <$> run [0; 1; 0; 1; 0; 1; 0; 1; 0; 1]%nat s0 = Some [Done 2; Done 2] ∧
  pcs <$> run [0; 0; 0; 0; 0; 1; 1; 1; 1; 1]%nat s0 = Some [Done 1; Done 2].
Proof. split; vm_compute; reflexivity. Qed.

End Race.

(** ** Examples *)

(** A machine on which [n] mutexes have been allocated. *)
Definition demo_mst (n : nat) : mst unit :=
  Mst (Kst (Kmem demo_mach 1 0 (λ _, 0)) [] 1 None false tt)
      ((λ i, Mutex 0 (Z.of_nat i)) <$> seq 1 n ++ replicate (64 - n) 0%nat) (Z.of_nat n).

Lemma demo_calm : calm demo_mach.
Proof. split; [apply demo_mach_wf|]. repeat constructor; done. Qed.

Lemma demo_mst_idle n : (n ≤ 64)%nat → idle (demo_mst n).
Proof.
  intros Hn. split; [apply demo_calm|done|by right|done|done|..].
  - simpl. rewrite length_fmap, length_app, length_seq, length_replicate. unfold MAX_MUTEXES. lia.
  - simpl. apply Forall_fmap, Forall_true. done.
  - simpl. unfold MAX_MUTEXES. lia.
Qed.

Lemma mutex_alloc_spec_witness :
  ∃ s', kthread_mutex_alloc 0 (demo_mst 0) = Ok 1 s' ∧ mutex_num s' = 1.
Proof.
  destruct (mutex_alloc_spec 0 (demo_mst 0) (demo_mst_idle 0 ltac:(lia))) as [H _]; [simpl; lia|].
  destruct H as (s' & H1 & _ & _ & H2); [done|]. exists s'. split; [exact H1|exact H2].
Defined.

Lemma mutex_lock_excludes_nobody_witness :
  ∃ s1 s2, kthread_mutex_lock 0 100 1 (demo_mst 2) = Ok (Return 0) s1 ∧
    kthread_mutex_lock 1 200 1 s1 = Ok (Return 0) s2.
Proof.
  destruct (mutex_lock_excludes_nobody 0 1 100 200 1 (demo_mst 2) (demo_mst_idle 2 ltac:(lia)))
    as (s1 & s2 & _ & H1 & H2 & _); [simpl; lia|simpl; lia|unfold MAX_MUTEXES; lia|].
  exists s1, s2. split; [exact H1|exact H2].
Defined.

(** Of mutexes 1 and 2 the first is given back, and 2 is given out again. *)
Lemma mutex_dealloc_reuses_last_witness :
  ∃ s1 s2, kthread_mutex_dealloc 0 100 1 (demo_mst 2) = Ok 0 s1 ∧
    kthread_mutex_alloc 0 s1 = Ok 2 s2.
Proof.
  apply (mutex_dealloc_reuses_last 0 100 1 (demo_mst 2) (demo_mst_idle 2 ltac:(lia)));
    simpl; lia.
Defined.
