(* ===== verification/Tournament.v ===== *)
(** * Tournament trees

    [src/tournament_tree.c].  The tree locks the mutexes on the path from a leaf
    to the root.  It is written against an interface of mutex operations, which
    the system calls of Mutex.v implement; a second implementation, on which a
    lock really excludes, states what the tree would need. *)

From S2P Require Import Prelude Spinlock Kalloc ProcData Proc Mutex.

(** ** The tree code *)

(** [malloc] and the mutex calls, for the thread that makes them. *)
Class MutexOps (S : Type) := {
  malloc : Z → M S Z;
  ufree : Z → M S unit;
  mutex_alloc : M S Z;
  mutex_dealloc : Z → M S Z;
  mutex_lock : Z → M S Z;
  mutex_unlock : Z → M S Z;
}.

Record trnmnt_tree : Type := Tree {
  tree_ptr : Z;       (* address of the structure *)
  nodes_ptr : Z;      (* address of the array *)
  nodes : list Z;     (* contents of the array *)
  depth : Z;
  nodes_num : Z;
}.

Definition INT_MAX : Z := 2 ^ 31 - 1.

(** [acc = acc * b], [pwr] times, in [int]; [None] on overflow. *)
Fixpoint power_loop (b acc : Z) (n : nat) : option Z :=
  match n with
  | O => Some acc
  | S n =>
      let acc := acc * b in
      if bool_decide (- 2 ^ 31 ≤ acc ≤ INT_MAX) then power_loop b acc n else None
  end.

Definition power (b pwr : Z) : option Z := power_loop b 1 (Z.to_nat pwr).

Section Tree.

Context {S : Type} `{MutexOps S}.

(** [tree->nodes[i]] *)
Definition node (t : trnmnt_tree) (i : Z) : M S Z :=
  match (if bool_decide (0 ≤ i) then nodes t !! Z.to_nat i else None) with
  | Some x => mret x
  | None => undefined "nodes[] out of bounds"
  end.

(** The loop that fills the array at address [a]. *)
Fixpoint alloc_nodes (a : Z) (n : nat) (acc : list Z) : M S (option (list Z)) :=
  match n with
  | O => mret (Some acc)
  | Datatypes.S n =>
      mutex_id ← mutex_alloc;
      if bool_decide (mutex_id < 0) then mret None
      else if bool_decide (a = 0) then undefined "null nodes"
      else alloc_nodes a n (acc ++ [mutex_id])
  end.

Definition trnmnt_tree_alloc (depth : Z) : M S (option trnmnt_tree) :=
  if bool_decide (depth < 1) then mret None else
  t ← malloc 12;
  match power 2 depth with
  | None => undefined "power() overflows"
  | Some n =>
      a ← malloc (u32 (4 * n));
      if bool_decide (t = 0) then undefined "null tree" else
      l ← alloc_nodes a (Z.to_nat n) [];
      mret ((λ l, Tree t a l depth n) <$> l)
  end.

(** [kthread_mutex_dealloc(tree->nodes[i] < 0)]: the argument is the comparison. *)
Fixpoint dealloc_nodes (t : trnmnt_tree) (i : Z) (n : nat) : M S bool :=
  match n with
  | O => mret true
  | Datatypes.S n =>
      x ← node t i;
      r ← mutex_dealloc (if bool_decide (x < 0) then 1 else 0);
      if bool_decide (r ≠ 0) then mret false else dealloc_nodes t (i + 1) n
  end.

Definition trnmnt_tree_dealloc (t : trnmnt_tree) : M S Z :=
  ok ← dealloc_nodes t 0 (Z.to_nat (nodes_num t));
  if negb ok then mret (-1) else
  ufree (nodes_ptr t) ;;
  ufree (tree_ptr t) ;;
  mret 0.

(** The loop of [trnmnt_tree_acquire]; division of [int] truncates. *)
Fixpoint acquire_loop (t : trnmnt_tree) (fuel : nat) (current : Z) : M S Z :=
  if bool_decide (current = 0) then mret 0 else
  match fuel with
  | O => spin
  | Datatypes.S fuel =>
      let father := Z.quot (current - 1) 2 in
      x ← node t father;
      r ← mutex_lock x;
      if bool_decide (r < 0) then mret (-1) else acquire_loop t fuel father
  end.

Definition trnmnt_tree_acquire (t : trnmnt_tree) (ID : Z) : M S Z :=
  if bool_decide (ID > 0) || bool_decide (ID > nodes_num t) then mret (-1) else
  let current := nodes_num t - 1 + ID in
  acquire_loop t (Z.to_nat current + 1) current.

Fixpoint rec_trnmnt_tree_release (t : trnmnt_tree) (fuel : nat) (ID : Z) : M S Z :=
  let father := Z.quot (ID - 1) 2 in
  if bool_decide (ID = 0) then
    x ← node t ID;
    r ← mutex_unlock x;
    mret (if bool_decide (r < 0) then 1 else 0)
  else
    match fuel with
    | O => spin
    | Datatypes.S fuel =>
        error ← rec_trnmnt_tree_release t fuel father;
        x ← node t ID;
        r ← mutex_unlock x;
        mret (if bool_decide (r < 0) then 1 else error)
    end.

Definition trnmnt_tree_release (t : trnmnt_tree) (ID : Z) : M S Z :=
  e ← rec_trnmnt_tree_release t (Z.to_nat ID) ID;
  mret (if bool_decide (e > 0) then -1 else 0).

End Tree.

(** ** Mutexes that exclude

    The ids that exist are 1 to [limit]; a lock that is held makes its caller
    wait. *)
Module Ideal.

Record state : Type := State {
  held : gset Z;
  next : Z;
}.

Definition limit : Z := 64.

Definition valid (k : Z) : bool := bool_decide (1 ≤ k ≤ limit).

#[global] Instance ops : MutexOps state := {
  malloc _ := mret 1000;
  ufree _ := mret tt;
  mutex_alloc := λ s, if bool_decide (next s = limit) then Ok (-1) s
                      else Ok (next s + 1) (State (held s) (next s + 1));
  mutex_dealloc k := λ s, if valid k then Ok 0 (State (held s ∖ {[k]}) (next s)) else Ok (-1) s;
  mutex_lock k := λ s, if negb (valid k) then Ok (-1) s
                       else if bool_decide (k ∈ held s) then Spin s
                       else Ok 0 (State ({[k]} ∪ held s) (next s));
  mutex_unlock k := λ s, if valid k then Ok 0 (State (held s ∖ {[k]}) (next s)) else Ok (-1) s;
}.

End Ideal.

(** ** The tree over any mutexes *)

(** The [2 ^ d] entries of the array are ids of mutexes. *)
Record tree_ok (t : trnmnt_tree) (d : nat) : Prop := TreeOk {
  tk_depth : (1 ≤ d)%nat;
  tk_num : nodes_num t = 2 ^ Z.of_nat d;
  tk_length : Z.of_nat (length (nodes t)) = 2 ^ Z.of_nat d;
  tk_nodup : NoDup (nodes t);
  tk_valid : Forall (λ k, 1 ≤ k ≤ MAX_MUTEXES) (nodes t);
}.

Lemma power_loop_two n : ∀ k, (k + n ≤ 30)%nat →
  power_loop 2 (2 ^ Z.of_nat k) n = Some (2 ^ Z.of_nat (k + n)).
Proof.
  induction n as [|n IH]; intros k Hk; simpl.
  - by rewrite Nat.add_0_r.
  - assert (E : 2 ^ Z.of_nat k * 2 = 2 ^ Z.of_nat (S k)).
    { rewrite Nat2Z.inj_succ, Z.pow_succ_r by lia. lia. }
    rewrite E, bool_decide_eq_true_2.
    + rewrite IH by lia. do 3 f_equal. lia.
    + assert (2 ^ Z.of_nat (S k) ≤ 2 ^ 30) by (apply Z.pow_le_mono_r; lia).
      assert (0 < 2 ^ Z.of_nat (S k)) by (apply Z.pow_pos_nonneg; lia). unfold INT_MAX. lia.
Qed.

Lemma power_two d : 0 ≤ d ≤ 30 → power 2 d = Some (2 ^ d).
Proof.
  intros Hd. unfold power. rewrite (power_loop_two _ 0) by lia. do 2 f_equal. lia.
Qed.

(** The array index of the ancestor of the leftmost leaf at height [j]. *)
Definition left_index (j : nat) : Z := 2 ^ Z.of_nat j - 1.

Lemma left_index_S j : Z.quot (left_index (S j) - 1) 2 = left_index j ∧ left_index (S j) ≠ 0.
Proof.
  unfold left_index. rewrite Nat2Z.inj_succ, Z.pow_succ_r by lia.
  assert (0 < 2 ^ Z.of_nat j) by (apply Z.pow_pos_nonneg; lia).
  split; [|lia]. rewrite Z.quot_div_nonneg by lia.
  replace (2 * 2 ^ Z.of_nat j - 1 - 1) with ((2 ^ Z.of_nat j - 1) * 2) by lia.
  by rewrite Z.div_mul.
Qed.

Section AnyMutex.

Context {S : Type} `{MutexOps S}.

Lemma node_ok t d i (s : S) :
  tree_ok t d → 0 ≤ i < 2 ^ Z.of_nat d →
  ∃ x, nodes t !! Z.to_nat i = Some x ∧ node t i s = Ok x s ∧ 1 ≤ x ≤ MAX_MUTEXES.
Proof.
  intros Ht Hi. destruct (lookup_lt_is_Some_2 (nodes t) (Z.to_nat i)) as [x Hx].
  { apply Nat2Z.inj_lt. rewrite (tk_length _ _ Ht). lia. }
  exists x. split; [done|]. split.
  - unfold node. by rewrite bool_decide_eq_true_2, Hx by lia.
  - by apply (proj1 (Forall_lookup _ _) (tk_valid _ _ Ht) _ _ Hx).
Qed.

(** [trnmnt_tree_acquire] refuses every positive thread id, without
    touching a mutex. *)
Theorem tree_acquire_rejects_positive t ID (s : S) :
  0 < ID → trnmnt_tree_acquire t ID s = Ok (-1) s.
Proof. intros HID. unfold trnmnt_tree_acquire. by rewrite bool_decide_eq_true_2 by lia. Qed.

(** Locking climbs from the leaf: with mutexes that return 0 whenever [I]
    holds, the loop returns 0. *)
Lemma acquire_loop_ok (I : S → Prop) t d :
  tree_ok t d →
  (∀ k s, 1 ≤ k ≤ MAX_MUTEXES → I s → ∃ s', mutex_lock k s = Ok 0 s' ∧ I s') →
  ∀ fuel current s, 0 ≤ current < 2 * 2 ^ Z.of_nat d → current < Z.of_nat fuel + 1 → I s →
  ∃ s', acquire_loop t fuel current s = Ok 0 s' ∧ I s'.
Proof.
  intros Ht Hl. induction fuel as [|fuel IH]; intros current s Hc Hf Hs; simpl.
  - rewrite bool_decide_eq_true_2 by lia. eauto.
  - case_bool_decide as Hz; [eauto|].
    assert (Hfa : 0 ≤ Z.quot (current - 1) 2 < 2 ^ Z.of_nat d ∧ Z.quot (current - 1) 2 < current).
    { rewrite Z.quot_div_nonneg by lia. pose proof (Z.div_pos (current - 1) 2).
      pose proof (Z.mul_div_le (current - 1) 2). lia. }
    destruct (node_ok t d (Z.quot (current - 1) 2) s Ht) as (x & _ & Hx & Hv); [lia|].
    destruct (Hl x s Hv Hs) as (s1 & E1 & Hs1).
    rewrite (bind_step _ _ _ _ _ Hx), (bind_step _ _ _ _ _ E1). simpl.
    apply IH; [lia|lia|done].
Qed.

End AnyMutex.

(** ** The tree over mutexes that exclude *)

(** The mutexes between leaf 0 and the root, from the root down. *)
Definition left_path (t : trnmnt_tree) (d : nat) : list Z :=
  omap (λ j, nodes t !! Z.to_nat (left_index j)) (seq 0 d).

Lemma left_index_bounds j d : (j < d)%nat → 0 ≤ left_index j < 2 ^ Z.of_nat d.
Proof.
  intros Hj. unfold left_index. assert (0 < 2 ^ Z.of_nat j) by (apply Z.pow_pos_nonneg; lia).
  assert (2 ^ Z.of_nat j < 2 ^ Z.of_nat d) by (apply Z.pow_lt_mono_r; lia). lia.
Qed.

Lemma left_path_snoc t d j x :
  (j < d)%nat → nodes t !! Z.to_nat (left_index j) = Some x →
  left_path t (S j) = left_path t j ++ [x].
Proof.
  intros Hj Hx. unfold left_path. rewrite seq_S, omap_app. simpl. by rewrite Hx.
Qed.

Lemma left_path_elem t j y :
  y ∈ left_path t j → ∃ i, (i < j)%nat ∧ nodes t !! Z.to_nat (left_index i) = Some y.
Proof.
  unfold left_path. rewrite list_elem_of_omap. intros (i & Hi%elem_of_seq & Hx). exists i. split; [lia|done].
Qed.

(** Distinct heights have distinct mutexes. *)
Lemma left_index_inj t d i j x :
  tree_ok t d → (i < d)%nat → (j < d)%nat → nodes t !! Z.to_nat (left_index i) = Some x →
  nodes t !! Z.to_nat (left_index j) = Some x → i = j.
Proof.
  intros Ht Hi Hj H1 H2. pose proof (NoDup_lookup _ _ _ _ (tk_nodup _ _ Ht) H1 H2) as E.
  pose proof (left_index_bounds i d Hi). pose proof (left_index_bounds j d Hj).
  apply Z2Nat.inj in E; [|lia..]. unfold left_index in E.
  assert (E' : 2 ^ Z.of_nat i = 2 ^ Z.of_nat j) by lia.
  apply Z.pow_inj_r in E'; lia.
Qed.

Lemma ideal_lock k s :
  1 ≤ k ≤ MAX_MUTEXES → k ∉ Ideal.held s →
  mutex_lock k s = Ok 0 (Ideal.State ({[k]} ∪ Ideal.held s) (Ideal.next s)).
Proof.
  intros Hk Hh. simpl. unfold Ideal.valid.
  rewrite bool_decide_eq_true_2 by (unfold Ideal.limit, MAX_MUTEXES in *; lia). simpl.
  by rewrite bool_decide_eq_false_2.
Qed.

Lemma ideal_acquire_left t d : tree_ok t d →
  ∀ j s fuel, (j ≤ d)%nat → left_index j < Z.of_nat fuel + 1 →
  (∀ k, k ∈ left_path t j → k ∉ Ideal.held s) →
  acquire_loop t fuel (left_index j) s =
    Ok 0 (Ideal.State (list_to_set (left_path t j) ∪ Ideal.held s) (Ideal.next s)).
Proof.
  intros Ht. induction j as [|j IH]; intros s fuel Hj Hf Hh.
  - destruct fuel; simpl; rewrite union_empty_l_L; by destruct s.
  - destruct (left_index_S j) as [Eq Hne].
    pose proof (left_index_bounds j d ltac:(lia)) as Hb.
    destruct fuel as [|fuel].
    { pose proof (left_index_bounds (S j) (S (S j)) ltac:(lia)). lia. }
    simpl acquire_loop. rewrite bool_decide_eq_false_2 by done. rewrite Eq.
    destruct (node_ok t d (left_index j) s Ht) as (x & Hx & En & Hv); [lia|].
    rewrite (left_path_snoc t d j x) in Hh |- * by (done || lia).
    rewrite (bind_step _ _ _ _ _ En).
    rewrite (bind_step _ _ _ _ _ (ideal_lock x s Hv (Hh x ltac:(set_solver)))). simpl.
    assert (Hlt : left_index j < left_index (S j)).
    { unfold left_index. apply Z.sub_lt_mono_r, Z.pow_lt_mono_r; lia. }
    rewrite IH; [|lia|lia|].
    + simpl. do 2 f_equal. rewrite list_to_set_app_L. set_solver.
    + intros k Hk. simpl. rewrite not_elem_of_union. split; [|apply Hh; set_solver].
      rewrite elem_of_singleton. intros ->. destruct (left_path_elem t j x Hk) as (i & Hi & Hxi).
      pose proof (left_index_inj t d i j x Ht ltac:(lia) ltac:(lia) Hxi Hx). lia.
Qed.

(** On mutexes that exclude, [trnmnt_tree_acquire] for thread 0 on a tree
    with free mutexes locks the mutexes from leaf 0 up to the root and returns
    0; [trnmnt_tree_release] then unlocks only the root, so when the tree has
    more than one level the next [trnmnt_tree_acquire] waits for ever. *)
Theorem tree_release_leaves_path_locked t d s :
  tree_ok t d → (2 ≤ d)%nat → (∀ k, k ∈ nodes t → k ∉ Ideal.held s) →
  ∃ root s1 s2 s3, nodes t !! 0%nat = Some root ∧
    trnmnt_tree_acquire t 0 s = Ok 0 s1 ∧
    Ideal.held s1 = list_to_set (left_path t d) ∪ Ideal.held s ∧
    trnmnt_tree_release t 0 s1 = Ok 0 s2 ∧ Ideal.held s2 = Ideal.held s1 ∖ {[root]} ∧
    trnmnt_tree_acquire t 0 s2 = Spin s3.
Proof.
  intros Ht Hd Hh.
  assert (Hcur : nodes_num t - 1 + 0 = left_index d) by (rewrite (tk_num _ _ Ht); unfold left_index; lia).
  assert (Hpos : 0 < 2 ^ Z.of_nat d) by (apply Z.pow_pos_nonneg; lia).
  assert (Hacq : ∀ s, trnmnt_tree_acquire t 0 s =
    acquire_loop t (Z.to_nat (left_index d) + 1) (left_index d) s).
  { intros s0. unfold trnmnt_tree_acquire. rewrite Hcur.
    by rewrite !bool_decide_eq_false_2 by (rewrite ?(tk_num _ _ Ht); lia). }
  pose proof (left_index_bounds d (S d) ltac:(lia)) as Hbd.
  destruct (node_ok t d 0 s Ht) as (root & Hroot & _ & Hv); [lia|].
  set (s1 := Ideal.State (list_to_set (left_path t d) ∪ Ideal.held s) (Ideal.next s)).
  set (s2 := Ideal.State (Ideal.held s1 ∖ {[root]}) (Ideal.next s)).
  exists root, s1, s2, s2. split_and!; try done.
  - rewrite Hacq. apply (ideal_acquire_left t d Ht); [lia|lia|].
    intros k (i & Hi & Hk)%left_path_elem. apply Hh. by eapply list_elem_of_lookup_2.
  - unfold trnmnt_tree_release, rec_trnmnt_tree_release. simpl.
    destruct (node_ok t d 0 s1 Ht) as (r & Hr & En & _); [lia|]. simpl in Hr, Hroot.
    rewrite Hroot in Hr. injection Hr as <-. mred. rewrite En. simpl.
    unfold Ideal.valid. by rewrite bool_decide_eq_true_2.
  - rewrite Hacq. destruct d as [|d]; [lia|]. rewrite Nat.add_1_r. simpl acquire_loop.
    destruct (left_index_S d) as [Eq Hne]. rewrite bool_decide_eq_false_2 by done. rewrite Eq.
    pose proof (left_index_bounds d (S d) ltac:(lia)).
    destruct (node_ok t (S d) (left_index d) s2 Ht) as (x & Hx & En & Hvx); [lia|].
    rewrite (bind_step _ _ _ _ _ En). mred. unfold Ideal.valid.
    rewrite (bool_decide_eq_true_2 (1 ≤ x ≤ Ideal.limit)) by done. simpl.
    rewrite bool_decide_eq_true_2; [done|]. apply elem_of_difference. split.
    + apply elem_of_union. left. apply elem_of_list_to_set.
      rewrite (left_path_snoc t (S d) d x) by (done || lia). set_solver.
    + rewrite elem_of_singleton. intros ->.
      pose proof (left_index_inj t (S d) 0 d root Ht ltac:(lia) ltac:(lia) Hroot Hx). lia.
Qed.

(** ** The tree over the mutexes of the kernel *)

(** The calls of a thread that runs on CPU [me] and whose kernel stack holds the
    local variables of the mutex calls at address [a].  A thread that goes to
    sleep in the call does not return from it here. *)
Definition kernel_ops {W} (umalloc : Z → M (mst W) Z) (release_block : Z → M (mst W) unit)
    (me : nat) (a : Z) : MutexOps (mst W) := {|
  malloc := umalloc;
  ufree := release_block;
  mutex_alloc := kthread_mutex_alloc me;
  mutex_dealloc := kthread_mutex_dealloc me a;
  mutex_lock k := r ← kthread_mutex_lock me a k;
                  match r with Return v => mret v | _ => spin end;
  mutex_unlock := kthread_mutex_unlock me a;
|}.

Section Kernel.

Context {W : Type}.

Variable umalloc : Z → M (mst W) Z.
Variable release_block : Z → M (mst W) unit.

Abbreviation ops me a := (kernel_ops umalloc release_block me a).

Lemma kernel_lock_ok me a n k s :
  1 ≤ k ≤ MAX_MUTEXES → (me < n)%nat → idle s ∧ length (cpus (the_mach s)) = n →
  ∃ s', (mutex_lock (MutexOps := ops me a) k) s = Ok 0 s' ∧
    idle s' ∧ length (cpus (the_mach s')) = n.
Proof.
  intros Hk Hme [Hi Hn]. destruct (mutex_lock_ok me a k s Hi) as (s' & E & Hu); [lia|done|].
  exists s'. split; [simpl; by rewrite (bind_step _ _ _ _ _ E)|]. split; [by eapply unchanged_idle|].
  by rewrite (q_length _ _ _ (proj2 (proj2 Hu))).
Qed.

(** With the mutexes of this kernel, two threads on two CPUs both get the
    tree, one after the other, with no release in between. *)
Theorem tree_excludes_nobody me me' a a' t d s :
  tree_ok t d → idle s →
  (me < length (cpus (the_mach s)))%nat → (me' < length (cpus (the_mach s)))%nat →
  ∃ s1 s2, trnmnt_tree_acquire (H := ops me a) t 0 s = Ok 0 s1 ∧
    trnmnt_tree_acquire (H := ops me' a') t 0 s1 = Ok 0 s2.
Proof.
  intros Ht Hi Hme Hme'. set (n := length (cpus (the_mach s))) in *.
  assert (Hpos : 0 < 2 ^ Z.of_nat d) by (apply Z.pow_pos_nonneg; lia).
  assert (Hacq : ∀ me a s0, (me < n)%nat → idle s0 ∧ length (cpus (the_mach s0)) = n →
    ∃ s', trnmnt_tree_acquire (H := ops me a) t 0 s0 = Ok 0 s' ∧
      idle s' ∧ length (cpus (the_mach s')) = n).
  { intros me0 a0 s0 Hme0 Hs0. unfold trnmnt_tree_acquire.
    rewrite !bool_decide_eq_false_2 by (rewrite ?(tk_num _ _ Ht); lia). cbn [orb].
    cbv zeta. rewrite (tk_num _ _ Ht).
    apply (acquire_loop_ok (H := ops me0 a0) (λ s, idle s ∧ length (cpus (the_mach s)) = n) t d Ht);
      [|lia|lia|done].
    intros k s1 Hk Hs1. by apply kernel_lock_ok. }
  destruct (Hacq me a s Hme) as (s1 & E1 & Hs1); [done|].
  destruct (Hacq me' a' s1 Hme' Hs1) as (s2 & E2 & _). eauto.
Qed.

(** [trnmnt_tree_dealloc] of a tree gives back none of its mutexes: its
    first call passes the value of the comparison [nodes[0] < 0], and on
    argument 0 [kthread_mutex_dealloc] reads [mutexes[-1]]. *)
Theorem tree_dealloc_reads_out_of_bounds me a t d s :
  tree_ok t d →
  trnmnt_tree_dealloc (H := ops me a) t s = Undef "mutexes[] out of bounds" s.
Proof.
  intros Ht. assert (Hpos : 0 < 2 ^ Z.of_nat d) by (apply Z.pow_pos_nonneg; lia).
  unfold trnmnt_tree_dealloc. rewrite (tk_num _ _ Ht).
  destruct (Z.to_nat (2 ^ Z.of_nat d)) as [|m] eqn:E; [lia|]. simpl dealloc_nodes.
  destruct (node_ok t d 0 s Ht) as (x & _ & Hn & Hv); [lia|].
  mred. rewrite Hn, bool_decide_eq_false_2 by lia. done.
Qed.

Lemma alloc_nodes_ok me a addr n : addr ≠ 0 →
  ∀ acc s, idle s → (me < length (cpus (the_mach s)))%nat →
  mutex_num s + Z.of_nat n ≤ MAX_MUTEXES →
  ∃ s', alloc_nodes (H := ops me a) addr n acc s =
      Ok (Some (acc ++ ((λ i, mutex_num s + Z.of_nat i) <$> seq 1 n))) s' ∧ idle s' ∧
    mutex_num s' = mutex_num s + Z.of_nat n.
Proof.
  intros Ha. induction n as [|n IH]; intros acc s Hi Hme Hn.
  - exists s. simpl. rewrite app_nil_r. split; [done|]. split; [done|lia].
  - destruct (mutex_alloc_ok me s Hi Hme) as (s1 & E1 & Hi1 & _ & Hn1 & Hl1); [lia|].
    pose proof (id_num _ Hi). destruct (IH (acc ++ [mutex_num s + 1]) s1) as (s2 & E2 & Hi2 & Hn2);
      [done|lia|lia|].
    exists s2. split; [|split; [done|lia]].
    simpl alloc_nodes. rewrite (bind_step _ _ _ _ _ E1).
    rewrite !bool_decide_eq_false_2 by lia. rewrite E2. do 2 f_equal. rewrite <- app_assoc.
    f_equal. simpl. f_equal. rewrite <- (fmap_S_seq 1 n), <- list_fmap_compose.
    apply list_fmap_ext. intros i x _. simpl. rewrite Hn1. lia.
Qed.

(** On a kernel with room for them, [trnmnt_tree_alloc] takes [2 ^ depth]
    mutexes, with distinct ids, and returns a tree over them. *)
Theorem tree_alloc_ok me a d s t addr s1 s2 :
  idle s2 → (me < length (cpus (the_mach s2)))%nat → (1 ≤ d)%nat →
  mutex_num s2 + 2 ^ Z.of_nat d ≤ MAX_MUTEXES →
  umalloc 12 s = Ok t s1 → umalloc (4 * 2 ^ Z.of_nat d) s1 = Ok addr s2 → t ≠ 0 → addr ≠ 0 →
  ∃ tr s', trnmnt_tree_alloc (H := ops me a) (Z.of_nat d) s = Ok (Some tr) s' ∧
    tree_ok tr d ∧ depth tr = Z.of_nat d ∧ mutex_num s' = mutex_num s2 + 2 ^ Z.of_nat d.
Proof.
  intros Hi Hme Hd Hroom Hm1 Hm2 Ht Ha. pose proof (id_num _ Hi) as Hnum. unfold MAX_MUTEXES in *.
  assert (Hd' : (d ≤ 6)%nat).
  { apply Nat2Z.inj_le. apply (Z.pow_le_mono_r_iff 2); [lia..|]. change (2 ^ Z.of_nat 6) with 64. lia. }
  assert (Hpos : 0 < 2 ^ Z.of_nat d) by (apply Z.pow_pos_nonneg; lia).
  set (n := Z.to_nat (2 ^ Z.of_nat d)).
  destruct (alloc_nodes_ok me a addr n Ha [] s2 Hi Hme) as (s' & E & Hi' & Hn');
    [unfold MAX_MUTEXES; lia|].
  eexists (Tree t addr _ (Z.of_nat d) (2 ^ Z.of_nat d)), s'. split_and!.
  - unfold trnmnt_tree_alloc. rewrite bool_decide_eq_false_2 by lia.
    rewrite (bind_step _ _ _ _ _ Hm1), power_two by lia.
    rewrite (u32_small (4 * 2 ^ Z.of_nat d)) by lia.
    rewrite (bind_step _ _ _ _ _ Hm2), bool_decide_eq_false_2 by done.
    rewrite (bind_step _ _ _ _ _ E). reflexivity.
  - simpl. split; simpl; [done|done|..].
    + rewrite length_fmap, length_seq. lia.
    + apply NoDup_fmap_2; [intros i j; lia|apply NoDup_seq].
    + apply Forall_fmap, Forall_forall. intros i Hin%elem_of_seq. simpl. unfold MAX_MUTEXES. lia.
  - done.
  - lia.
Qed.

End Kernel.

(** ** Examples *)

Definition demo_tree : trnmnt_tree := Tree 1000 2000 [1; 2; 3; 4] 2 4.

Lemma demo_tree_ok : tree_ok demo_tree 2.
Proof.
  split; simpl; [lia|done|done|..].
  - apply (bool_decide_unpack _). vm_compute. done.
  - repeat constructor; unfold MAX_MUTEXES; lia.
Qed.

Lemma tree_acquire_rejects_positive_witness :
  trnmnt_tree_acquire demo_tree 1 (Ideal.State ∅ 4) = Ok (-1) (Ideal.State ∅ 4).
Proof. apply (tree_acquire_rejects_positive demo_tree 1 (Ideal.State ∅ 4)). lia. Defined.

Lemma tree_release_leaves_path_locked_witness :
  ∃ s1 s2 s3, trnmnt_tree_acquire demo_tree 0 (Ideal.State ∅ 4) = Ok 0 s1 ∧
    trnmnt_tree_release demo_tree 0 s1 = Ok 0 s2 ∧
    trnmnt_tree_acquire demo_tree 0 s2 = Spin s3.
Proof.
  destruct (tree_release_leaves_path_locked demo_tree 2 (Ideal.State ∅ 4) demo_tree_ok)
    as (root & s1 & s2 & s3 & _ & H1 & _ & H2 & _ & H3); [lia|set_solver|].
  exists s1, s2, s3. split; [exact H1|]. split; [exact H2|exact H3].
Defined.

(** A bump allocator. *)
Definition demo_malloc (n : Z) : M (mst unit) Z := mret (if bool_decide (n = 12) then 1000 else 2000).
Definition demo_free (_ : Z) : M (mst unit) unit := mret tt.

Lemma tree_excludes_nobody_witness :
  ∃ s1 s2,
    trnmnt_tree_acquire (H := kernel_ops demo_malloc demo_free 0 100) demo_tree 0 (demo_mst 4) = Ok 0 s1 ∧
    trnmnt_tree_acquire (H := kernel_ops demo_malloc demo_free 1 200) demo_tree 0 s1 = Ok 0 s2.
Proof.
  apply (tree_excludes_nobody demo_malloc demo_free 0 1 100 200 demo_tree 2 (demo_mst 4)
           demo_tree_ok (demo_mst_idle 4 ltac:(lia))); simpl; lia.
Defined.

Lemma tree_dealloc_reads_out_of_bounds_witness :
  trnmnt_tree_dealloc (H := kernel_ops demo_malloc demo_free 0 100) demo_tree (demo_mst 4) =
  Undef "mutexes[] out of bounds" (demo_mst 4).
Proof.
  apply (tree_dealloc_reads_out_of_bounds demo_malloc demo_free 0 100 demo_tree 2 (demo_mst 4)
           demo_tree_ok).
Defined.

Lemma tree_alloc_ok_witness :
  ∃ tr s', trnmnt_tree_alloc (H := kernel_ops demo_malloc demo_free 0 100) 2 (demo_mst 0) =
      Ok (Some tr) s' ∧
    tree_ok tr 2 ∧ depth tr = 2 ∧ mutex_num s' = 0 + 2 ^ 2.
Proof.
  apply (tree_alloc_ok demo_malloc demo_free 0 100 2 (demo_mst 0) 1000 2000 (demo_mst 0) (demo_mst 0)
           (demo_mst_idle 0 ltac:(lia))); try reflexivity; simpl; try lia; done.
Defined.
