(* ===== verification/Strings.v ===== *)
(** * Memory and string routines

    [src/string.c] of the kernel and [src/ulib.c] of user programs.  Memory maps
    addresses to bytes; a [char *] is an address.  Objects do not wrap around the
    address space, so pointer arithmetic is that of [Z]. *)

From S2P Require Import Prelude.

Definition mem : Type := Z → Z.

Definition store (a b : Z) (m : mem) : mem := <[a := u8 b]> m.

(** Little-endian 32-bit store. *)
Definition store32 (a w : Z) (m : mem) : mem :=
  store (a + 3) (Z.shiftr w 24) (store (a + 2) (Z.shiftr w 16)
    (store (a + 1) (Z.shiftr w 8) (store a w m))).

(** [rep stosb] and [rep stosl] of [src/x86.h]. *)
Fixpoint stosb (addr data : Z) (cnt : nat) (m : mem) : mem :=
  match cnt with
  | O => m
  | S n => stosb (addr + 1) data n (store addr data m)
  end.

Fixpoint stosl (addr data : Z) (cnt : nat) (m : mem) : mem :=
  match cnt with
  | O => m
  | S n => stosl (addr + 4) data n (store32 addr data m)
  end.

(** ** string.c *)

(** [n] is a [uint] and [c] an [int]; [dst] is returned. *)
Definition memset (dst c n : Z) (m : mem) : mem :=
  if bool_decide (Z.rem (s32 dst) 4 = 0) && bool_decide (n mod 4 = 0) then
    let c := Z.land c 0xFF in
    stosl dst (Z.lor (Z.lor (Z.lor (Z.shiftl c 24) (Z.shiftl c 16)) (Z.shiftl c 8)) c)
      (Z.to_nat (n / 4)) m
  else stosb dst c (Z.to_nat n) m.

Fixpoint memcmp_loop (n : nat) (s1 s2 : Z) (m : mem) : Z :=
  match n with
  | O => 0
  | S n =>
      if bool_decide (m s1 ≠ m s2) then m s1 - m s2
      else memcmp_loop n (s1 + 1) (s2 + 1) m
  end.

Definition memcmp (v1 v2 n : Z) (m : mem) : Z := memcmp_loop (Z.to_nat n) v1 v2 m.

(** The two copying loops of [memmove], from the ends down and from the starts up. *)
Fixpoint copy_down (n : nat) (d s : Z) (m : mem) : mem :=
  match n with
  | O => m
  | S n => copy_down n (d - 1) (s - 1) (store (d - 1) (m (s - 1)) m)
  end.

Fixpoint copy_up (n : nat) (d s : Z) (m : mem) : mem :=
  match n with
  | O => m
  | S n => copy_up n (d + 1) (s + 1) (store d (m s) m)
  end.

Definition memmove (dst src n : Z) (m : mem) : mem :=
  if bool_decide (src < dst) && bool_decide (src + n > dst)
  then copy_down (Z.to_nat n) (dst + n) (src + n) m
  else copy_up (Z.to_nat n) dst src m.

Definition memcpy (dst src n : Z) (m : mem) : mem := memmove dst src n m.

Fixpoint strncmp_loop (n : nat) (p q : Z) (m : mem) : Z :=
  match n with
  | O => 0
  | S n' =>
      if bool_decide (m p ≠ 0) && bool_decide (m p = m q) then strncmp_loop n' (p + 1) (q + 1) m
      else m p - m q
  end.

Definition strncmp (p q n : Z) (m : mem) : Z := strncmp_loop (Z.to_nat n) p q m.

Fixpoint zero_fill (n : nat) (s : Z) (m : mem) : mem :=
  match n with
  | O => m
  | S n => zero_fill n (s + 1) (store s 0 m)
  end.

(** The copying loop of [strncpy] and the padding that follows.  When the copy
    ends because [n] is used up, the second loop sees a negative [n]. *)
Fixpoint strncpy_loop (n : nat) (s t : Z) (m : mem) : mem :=
  match n with
  | O => m
  | S n =>
      let m' := store s (m t) m in
      if bool_decide (m t ≠ 0) then strncpy_loop n (s + 1) (t + 1) m'
      else zero_fill n (s + 1) m'
  end.

Definition strncpy (s t n : Z) (m : mem) : mem := strncpy_loop (Z.to_nat n) s t m.

(** The copying loop of [safestrcpy], which pre-decrements [n], and the final
    terminator; [n] counts the turns left. *)
Fixpoint safestrcpy_loop (n : nat) (s t : Z) (m : mem) : mem :=
  match n with
  | O => store s 0 m
  | S n =>
      let m' := store s (m t) m in
      if bool_decide (m t ≠ 0) then safestrcpy_loop n (s + 1) (t + 1) m'
      else store (s + 1) 0 m'
  end.

Definition safestrcpy (s t n : Z) (m : mem) : mem :=
  if bool_decide (n <= 0) then m else safestrcpy_loop (Z.to_nat (n - 1)) s t m.

(** [for(n = 0; s[n]; n++);] within [fuel] turns. *)
Fixpoint strlen_loop (fuel : nat) (s n : Z) (m : mem) : option Z :=
  if bool_decide (m (s + n) = 0) then Some n else
  match fuel with
  | O => None
  | S fuel => strlen_loop fuel s (n + 1) m
  end.

Definition strlen (fuel : nat) (s : Z) (m : mem) : option Z := strlen_loop fuel s 0 m.

(** ** ulib.c *)

Fixpoint strcpy (fuel : nat) (s t : Z) (m : mem) : option mem :=
  let m' := store s (m t) m in
  if bool_decide (m t = 0) then Some m' else
  match fuel with
  | O => None
  | S fuel => strcpy fuel (s + 1) (t + 1) m'
  end.

Fixpoint strcmp (fuel : nat) (p q : Z) (m : mem) : option Z :=
  if bool_decide (m p ≠ 0) && bool_decide (m p = m q) then
    match fuel with
    | O => None
    | S fuel => strcmp fuel (p + 1) (q + 1) m
    end
  else Some (m p - m q).

(** [strchr] returns an address, 0 when the character does not occur. *)
Fixpoint strchr (fuel : nat) (s c : Z) (m : mem) : option Z :=
  if bool_decide (m s = 0) then Some 0
  else if bool_decide (m s = c) then Some s
  else match fuel with
       | O => None
       | S fuel => strchr fuel (s + 1) c m
       end.

(** [memmove] of user programs always copies upwards; [n] is an [int]. *)
Definition umemmove (vdst vsrc n : Z) (m : mem) : mem := copy_up (Z.to_nat n) vdst vsrc m.

Definition umemset (dst c n : Z) (m : mem) : mem := stosb dst c (Z.to_nat n) m.

(** The digits are accumulated in [int]: [None] on overflow or without fuel. *)
Fixpoint atoi_loop (fuel : nat) (n s : Z) (m : mem) : option Z :=
  if bool_decide (48 ≤ m s ≤ 57) then
    let n' := n * 10 + m s - 48 in
    if bool_decide (n * 10 + m s < 2 ^ 31) then
      match fuel with
      | O => None
      | S fuel => atoi_loop fuel n' (s + 1) m
      end
    else None
  else Some n.

Definition atoi (fuel : nat) (s : Z) (m : mem) : option Z := atoi_loop fuel 0 s m.

(** [gets]: [read] of one byte from standard input, given as the bytes to come;
    at the end of input it returns 0. *)
Fixpoint gets_loop (turns : nat) (input : list Z) : list Z * list Z :=
  match turns, input with
  | O, _ => ([], input)
  | _, [] => ([], [])
  | S n, c :: input =>
      if bool_decide (c = 10) || bool_decide (c = 13) then ([c], input)
      else let '(l, rest) := gets_loop n input in (c :: l, rest)
  end.

(** The bytes stored in [buf], with the terminator, and the input left. *)
Definition ugets (max : Z) (input : list Z) : list Z * list Z :=
  let '(l, rest) := gets_loop (Z.to_nat (max - 1)) input in (l ++ [0], rest).

(** ** Copying and filling *)

Definition bytes_ok (m : mem) : Prop := ∀ a, 0 ≤ m a < 256.

Lemma u8_small x : 0 ≤ x < 256 → u8 x = x.
Proof. apply Z.mod_small. Qed.

Lemma store_eq a b m : store a b m a = u8 b.
Proof. apply fn_lookup_insert. Qed.

Lemma store_ne a b m x : x ≠ a → store a b m x = m x.
Proof. intros. by apply fn_lookup_insert_ne. Qed.

Lemma store_ok a b m : bytes_ok m → bytes_ok (store a b m).
Proof.
  intros Hm x. destruct (decide (x = a)) as [->|Hne].
  - rewrite store_eq. apply Z.mod_pos_bound. lia.
  - by rewrite store_ne.
Qed.

(** Case analysis on the address read from a memory that was stored to. *)
Ltac at_store a x :=
  destruct (decide (x = a)) as [->|?]; [rewrite store_eq|rewrite store_ne by done].

Lemma copy_up_spec n : ∀ d s m a, bytes_ok m → (d ≤ s ∨ s + Z.of_nat n ≤ d) →
  copy_up n d s m a = if bool_decide (d ≤ a < d + Z.of_nat n) then m (s + (a - d)) else m a.
Proof.
  induction n as [|n IH]; intros d s m a Hm Hds; simpl.
  - by rewrite bool_decide_eq_false_2 by lia.
  - rewrite IH; [|by apply store_ok|lia]. case_bool_decide as H1.
    + rewrite bool_decide_eq_true_2 by lia. rewrite store_ne by lia. f_equal. lia.
    + at_store d a.
      * rewrite bool_decide_eq_true_2 by lia. rewrite u8_small by apply Hm. f_equal. lia.
      * by rewrite bool_decide_eq_false_2 by lia.
Qed.

Lemma copy_down_spec n : ∀ d s m a, bytes_ok m → s ≤ d →
  copy_down n d s m a = if bool_decide (d - Z.of_nat n ≤ a < d) then m (s + (a - d)) else m a.
Proof.
  induction n as [|n IH]; intros d s m a Hm Hds; simpl.
  - by rewrite bool_decide_eq_false_2 by lia.
  - rewrite IH; [|by apply store_ok|lia]. case_bool_decide as H1.
    + rewrite bool_decide_eq_true_2 by lia. rewrite store_ne by lia. f_equal. lia.
    + at_store (d - 1) a.
      * rewrite bool_decide_eq_true_2 by lia. rewrite u8_small by apply Hm. f_equal. lia.
      * by rewrite bool_decide_eq_false_2 by lia.
Qed.

(** [memmove] of the kernel copies [n] bytes from [src] to [dst] as they were
    before the call, also when the two areas overlap, and changes nothing else. *)
Theorem memmove_spec dst src n m a :
  bytes_ok m → 0 ≤ n →
  memmove dst src n m a = if bool_decide (dst ≤ a < dst + n) then m (src + (a - dst)) else m a.
Proof.
  intros Hm Hn. unfold memmove.
  destruct (bool_decide (src < dst) && bool_decide (src + n > dst)) eqn:Hc.
  - apply andb_true_iff in Hc as [H1%bool_decide_eq_true H2%bool_decide_eq_true].
    rewrite copy_down_spec by (done || lia). rewrite Z2Nat.id by done.
    replace (dst + n - n) with dst by lia. case_bool_decide; [f_equal; lia|done].
  - rewrite copy_up_spec, Z2Nat.id; [done|done|done|].
    apply andb_false_iff in Hc as [H1%bool_decide_eq_false|H1%bool_decide_eq_false]; lia.
Qed.

Lemma stosb_spec cnt : ∀ addr data m a,
  stosb addr data cnt m a =
  if bool_decide (addr ≤ a < addr + Z.of_nat cnt) then u8 data else m a.
Proof.
  induction cnt as [|n IH]; intros addr data m a; simpl.
  - by rewrite bool_decide_eq_false_2 by lia.
  - rewrite IH. case_bool_decide as H1; [by rewrite bool_decide_eq_true_2 by lia|].
    at_store addr a.
    + by rewrite bool_decide_eq_true_2 by lia.
    + by rewrite bool_decide_eq_false_2 by lia.
Qed.

(** A word whose four bytes are all [b]. *)
Definition splat (w b : Z) : Prop :=
  u8 w = b ∧ u8 (Z.shiftr w 8) = b ∧ u8 (Z.shiftr w 16) = b ∧ u8 (Z.shiftr w 24) = b.

Lemma stosl_spec cnt b : ∀ addr w m a, splat w b →
  stosl addr w cnt m a =
  if bool_decide (addr ≤ a < addr + 4 * Z.of_nat cnt) then b else m a.
Proof.
  induction cnt as [|n IH]; intros addr w m a Hw; simpl.
  - by rewrite bool_decide_eq_false_2 by lia.
  - rewrite IH by done. case_bool_decide as H1; [by rewrite bool_decide_eq_true_2 by lia|].
    destruct Hw as (W0 & W1 & W2 & W3). unfold store32.
    at_store (addr + 3) a; [by rewrite bool_decide_eq_true_2 by lia|].
    at_store (addr + 2) a; [by rewrite bool_decide_eq_true_2 by lia|].
    at_store (addr + 1) a; [by rewrite bool_decide_eq_true_2 by lia|].
    at_store addr a; [by rewrite bool_decide_eq_true_2 by lia|].
    by rewrite bool_decide_eq_false_2 by lia.
Qed.

Definition splat_word (c : Z) : Z :=
  Z.lor (Z.lor (Z.lor (Z.shiftl c 24) (Z.shiftl c 16)) (Z.shiftl c 8)) c.

Lemma splat_word_ok c : 0 ≤ c < 256 → splat (splat_word c) c.
Proof.
  intros Hc. assert (Hall : Forall (λ c, splat (splat_word c) c) (seqZ 0 256)).
  { apply (bool_decide_unpack _). vm_compute. done. }
  rewrite Forall_forall in Hall. apply Hall, elem_of_seqZ. lia.
Qed.

(** [memset] of the kernel fills the area with the low byte of [c], whether it
    goes by words or by bytes, and changes nothing else. *)
Theorem memset_spec dst c n m a :
  0 ≤ n →
  memset dst c n m a = if bool_decide (dst ≤ a < dst + n) then u8 c else m a.
Proof.
  intros Hn. unfold memset.
  destruct (bool_decide (Z.rem (s32 dst) 4 = 0) && bool_decide (n mod 4 = 0)) eqn:Hc.
  - apply andb_true_iff in Hc as [_ H4%bool_decide_eq_true].
    assert (Hb : Z.land c 255 = u8 c) by (change 255 with (Z.ones 8); by rewrite Z.land_ones).
    rewrite Hb. fold (splat_word (u8 c)). rewrite (stosl_spec _ (u8 c)).
    + rewrite Z2Nat.id by (apply Z.div_pos; lia).
      replace (4 * (n / 4)) with n; [done|]. pose proof (Z.div_mod n 4). lia.
    + apply splat_word_ok. apply Z.mod_pos_bound. lia.
  - rewrite stosb_spec. by rewrite Z2Nat.id.
Qed.

(** ** Strings *)

(** The C string [l] is at address [s]. *)
Fixpoint cstr (m : mem) (s : Z) (l : list Z) : Prop :=
  match l with
  | [] => m s = 0
  | c :: l => m s = c ∧ c ≠ 0 ∧ cstr m (s + 1) l
  end.

(** Lexicographic order of byte strings. *)
Fixpoint lex (l1 l2 : list Z) : comparison :=
  match l1, l2 with
  | [], [] => Eq
  | [], _ :: _ => Lt
  | _ :: _, [] => Gt
  | x :: l1, y :: l2 => match x ?= y with Eq => lex l1 l2 | c => c end
  end.

Lemma lex_eq l1 : ∀ l2, lex l1 l2 = Eq ↔ l1 = l2.
Proof.
  induction l1 as [|x l1 IH]; intros [|y l2]; simpl; try done.
  destruct (Z.compare_spec x y) as [->|H|H].
  - rewrite IH. split; [by intros ->|by intros [= ->]].
  - split; [done|]. intros [= -> _]. lia.
  - split; [done|]. intros [= -> _]. lia.
Qed.

Lemma cstr_ext m m' s l :
  (∀ i, 0 ≤ i ≤ Z.of_nat (length l) → m' (s + i) = m (s + i)) → cstr m s l → cstr m' s l.
Proof.
  revert s. induction l as [|c l IH]; intros s He; simpl.
  - intros <-. specialize (He 0). rewrite Z.add_0_r in He. apply He. simpl. lia.
  - intros (H1 & H2 & H3). split_and!; [|done|].
    + rewrite <- H1. specialize (He 0). rewrite Z.add_0_r in He. apply He. simpl. lia.
    + apply IH; [|done]. intros i Hi. rewrite <- Z.add_assoc. apply He. simpl. lia.
Qed.

Lemma cstr_pos m s l : bytes_ok m → cstr m s l → Forall (λ c, 0 < c) l.
Proof.
  intros Hm. revert s. induction l as [|c l IH]; intros s; simpl; [constructor|].
  intros (H1 & H2 & H3). constructor; [|by eapply IH]. pose proof (Hm s). lia.
Qed.

Lemma strncmp_loop_spec n : ∀ m p q l1 l2, bytes_ok m → cstr m p l1 → cstr m q l2 →
  (strncmp_loop n p q m ?= 0) = lex (take n l1) (take n l2).
Proof.
  induction n as [|n IH]; intros m p q l1 l2 Hm H1 H2; [done|]. simpl strncmp_loop.
  pose proof (Hm p) as Bp. pose proof (Hm q) as Bq.
  destruct l1 as [|x l1], l2 as [|y l2]; simpl in H1, H2 |- *.
  - rewrite H1, H2, (bool_decide_eq_false_2 (0 ≠ 0)) by auto. done.
  - rewrite H1, (bool_decide_eq_false_2 (0 ≠ 0)) by auto. simpl. apply Z.compare_lt_iff.
    destruct H2 as (? & ? & _). lia.
  - destruct H1 as (E1 & Hx & H1). rewrite E1, H2.
    rewrite bool_decide_eq_true_2, (bool_decide_eq_false_2 (x = 0)) by done. simpl.
    apply Z.compare_gt_iff. lia.
  - destruct H1 as (E1 & Hx & H1), H2 as (E2 & Hy & H2). rewrite E1, E2.
    rewrite bool_decide_eq_true_2 by done. simpl.
    destruct (Z.compare_spec x y) as [->|Hlt|Hgt].
    + rewrite bool_decide_eq_true_2 by done. by apply IH.
    + rewrite bool_decide_eq_false_2 by lia. apply Z.compare_lt_iff. lia.
    + rewrite bool_decide_eq_false_2 by lia. apply Z.compare_gt_iff. lia.
Qed.

(** [strncmp] returns a number whose sign is the lexicographic order of the
    first [n] bytes of the two strings; so it is 0 exactly when they agree there. *)
Theorem strncmp_spec m p q n l1 l2 :
  bytes_ok m → cstr m p l1 → cstr m q l2 →
  (strncmp p q n m ?= 0) = lex (take (Z.to_nat n) l1) (take (Z.to_nat n) l2) ∧
  (strncmp p q n m = 0 ↔ take (Z.to_nat n) l1 = take (Z.to_nat n) l2).
Proof.
  intros Hm H1 H2. pose proof (strncmp_loop_spec (Z.to_nat n) m p q l1 l2 Hm H1 H2) as E.
  split; [done|]. rewrite <- lex_eq, <- E. unfold strncmp. symmetry. apply Z.compare_eq_iff.
Qed.

Lemma strcmp_spec fuel : ∀ m p q l1 l2, bytes_ok m → cstr m p l1 → cstr m q l2 →
  (length l1 ≤ fuel)%nat → ∃ r, strcmp fuel p q m = Some r ∧ (r ?= 0) = lex l1 l2.
Proof.
  induction fuel as [|fuel IH]; intros m p q l1 l2 Hm H1 H2 Hf; simpl strcmp;
    pose proof (Hm p) as Bp; pose proof (Hm q) as Bq;
    destruct l1 as [|x l1], l2 as [|y l2]; simpl in H1, H2, Hf |- *; try lia.
  1, 3: rewrite H1, H2, (bool_decide_eq_false_2 (0 ≠ 0)) by auto; eauto.
  1, 2: rewrite H1, (bool_decide_eq_false_2 (0 ≠ 0)) by auto; simpl; eexists; (split; [done|]);
        apply Z.compare_lt_iff; destruct H2 as (? & ? & _); lia.
  - destruct H1 as (E1 & Hx & H1). rewrite E1, H2.
    rewrite bool_decide_eq_true_2, (bool_decide_eq_false_2 (x = 0)) by done. simpl.
    eexists. split; [done|]. apply Z.compare_gt_iff. lia.
  - destruct H1 as (E1 & Hx & H1), H2 as (E2 & Hy & H2). rewrite E1, E2.
    rewrite bool_decide_eq_true_2 by done. simpl.
    destruct (Z.compare_spec x y) as [->|Hlt|Hgt].
    + rewrite bool_decide_eq_true_2 by done. apply IH; try done. lia.
    + rewrite bool_decide_eq_false_2 by lia. eexists. split; [done|]. apply Z.compare_lt_iff. lia.
    + rewrite bool_decide_eq_false_2 by lia. eexists. split; [done|]. apply Z.compare_gt_iff. lia.
Qed.

Lemma strlen_loop_spec fuel : ∀ m s n l, cstr m (s + n) l → (length l ≤ fuel)%nat →
  strlen_loop fuel s n m = Some (n + Z.of_nat (length l)).
Proof.
  induction fuel as [|fuel IH]; intros m s n [|c l] Hl Hf; simpl in Hl, Hf |- *; try lia.
  1, 2: rewrite bool_decide_eq_true_2 by done; f_equal; lia.
  destruct Hl as (E & Hc & Hl). rewrite bool_decide_eq_false_2 by congruence.
  rewrite (IH m s (n + 1) l); [f_equal; lia|by rewrite Z.add_assoc|lia].
Qed.

Lemma strlen_spec fuel m s l :
  cstr m s l → (length l ≤ fuel)%nat → strlen fuel s m = Some (Z.of_nat (length l)).
Proof.
  intros Hl Hf. unfold strlen. rewrite (strlen_loop_spec fuel m s 0 l); [done| |done].
  by rewrite Z.add_0_r.
Qed.

(** Areas that do not meet. *)
Definition apart (s n t k : Z) : Prop := s + n ≤ t ∨ t + k ≤ s.

Lemma cstr_store m s l a b : (a < s ∨ s + Z.of_nat (length l) < a) → cstr m s l → cstr (store a b m) s l.
Proof. intros Ha. apply cstr_ext. intros i Hi. apply store_ne. lia. Qed.

Lemma safestrcpy_loop_spec n : ∀ m s t l, bytes_ok m → cstr m t l →
  apart s (Z.of_nat n + 1) t (Z.of_nat (length l) + 1) →
  cstr (safestrcpy_loop n s t m) s (take n l) ∧
  ∀ a, a < s ∨ s + Z.of_nat n < a → safestrcpy_loop n s t m a = m a.
Proof.
  induction n as [|n IH]; intros m s t l Hm Hl Ha; simpl safestrcpy_loop.
  - split; [by rewrite take_0; simpl; rewrite store_eq|]. intros a Hr. apply store_ne. lia.
  - pose proof (Hm t) as Bt. destruct l as [|c l]; simpl in Hl.
    + rewrite (bool_decide_eq_false_2 (m t ≠ 0)) by auto. rewrite Hl. split.
      * simpl. rewrite store_ne by lia. by rewrite store_eq.
      * intros a Hr. by rewrite !store_ne by lia.
    + destruct Hl as (E & Hc & Hl). rewrite (bool_decide_eq_true_2 (m t ≠ 0)) by congruence.
      simpl length in Ha. unfold apart in Ha.
      destruct (IH (store s (m t) m) (s + 1) (t + 1) l) as [H1 H2].
      * by apply store_ok.
      * apply cstr_store; [lia|done].
      * unfold apart. lia.
      * split.
        -- simpl. rewrite H2 by lia. rewrite store_eq, u8_small by done. by split_and!; [|congruence|].
        -- intros a Hr. rewrite H2 by lia. apply store_ne. lia.
Qed.

(** [safestrcpy] leaves at [s] the first [n - 1] bytes of the string, always
    terminated, and writes nothing outside the [n] bytes at [s]. *)
Theorem safestrcpy_spec m s t n l :
  bytes_ok m → cstr m t l → 0 < n → apart s n t (Z.of_nat (length l) + 1) →
  cstr (safestrcpy s t n m) s (take (Z.to_nat (n - 1)) l) ∧
  ∀ a, a < s ∨ s + n ≤ a → safestrcpy s t n m a = m a.
Proof.
  intros Hm Hl Hn Ha. unfold safestrcpy. rewrite bool_decide_eq_false_2 by lia.
  destruct (safestrcpy_loop_spec (Z.to_nat (n - 1)) m s t l) as [H1 H2]; [done..| |].
  - unfold apart in *. rewrite Z2Nat.id by lia. lia.
  - split; [done|]. intros a Hr. apply H2. rewrite Z2Nat.id by lia. lia.
Qed.

(** [memmove] of the user library is right when the areas do not overlap or the
    destination is below the source, and only then in general. *)
Lemma umemmove_spec vdst vsrc n m a :
  bytes_ok m → 0 ≤ n → (vdst ≤ vsrc ∨ vsrc + n ≤ vdst) →
  umemmove vdst vsrc n m a = if bool_decide (vdst ≤ a < vdst + n) then m (vsrc + (a - vdst)) else m a.
Proof.
  intros Hm Hn Hd. unfold umemmove. rewrite copy_up_spec, Z2Nat.id; [done|done|done|].
  rewrite Z2Nat.id by done. done.
Qed.

(** ** Examples *)

(** The memory that holds the bytes [l] from address 0 on. *)
Definition mem_of (l : list Z) : mem := λ a, default 0 (l !! Z.to_nat a).

Lemma mem_of_ok l : Forall (λ b, 0 ≤ b < 256) l → bytes_ok (mem_of l).
Proof.
  intros Hl a. unfold mem_of. destruct (l !! Z.to_nat a) as [b|] eqn:E; simpl; [|lia].
  by apply (proj1 (Forall_lookup _ _) Hl _ _ E).
Qed.

(** "abcd", zero, "abzz", zero. *)
Definition demo_bytes : list Z := [97; 98; 99; 100; 0; 97; 98; 122; 122; 0].

Lemma demo_bytes_ok : bytes_ok (mem_of demo_bytes).
Proof. apply mem_of_ok. repeat constructor; lia. Qed.

(** [memmove] of the user library is not [memmove] of the kernel: an upward
    overlapping copy repeats the first byte. *)
Theorem umemmove_overlap :
  umemmove 1 0 3 (mem_of demo_bytes) 3 = 97 ∧ memmove 1 0 3 (mem_of demo_bytes) 3 = 99.
Proof. split; vm_compute; reflexivity. Qed.

Lemma memmove_spec_witness : memmove 1 0 3 (mem_of demo_bytes) 3 = 99.
Proof. rewrite (memmove_spec 1 0 3 (mem_of demo_bytes) 3 demo_bytes_ok); [reflexivity|lia]. Defined.

Lemma memset_spec_witness : memset 4 0x17a 8 (mem_of demo_bytes) 9 = 0x7a.
Proof. rewrite (memset_spec 4 0x17a 8 (mem_of demo_bytes) 9); [reflexivity|lia]. Defined.

Lemma strncmp_spec_witness :
  strncmp 0 5 2 (mem_of demo_bytes) = 0 ∧ (strncmp 0 5 3 (mem_of demo_bytes) ?= 0) = Lt.
Proof.
  assert (H1 : cstr (mem_of demo_bytes) 0 [97; 98; 99; 100]) by (repeat split; discriminate).
  assert (H2 : cstr (mem_of demo_bytes) 5 [97; 98; 122; 122]) by (repeat split; discriminate).
  split.
  - apply (strncmp_spec (mem_of demo_bytes) 0 5 2 _ _ demo_bytes_ok H1 H2). reflexivity.
  - apply (strncmp_spec (mem_of demo_bytes) 0 5 3 _ _ demo_bytes_ok H1 H2).
Defined.

Lemma safestrcpy_spec_witness :
  cstr (safestrcpy 20 0 3 (mem_of demo_bytes)) 20 [97; 98].
Proof.
  apply (safestrcpy_spec (mem_of demo_bytes) 20 0 3 [97; 98; 99; 100] demo_bytes_ok).
  - repeat split; discriminate.
  - lia.
  - right. simpl. lia.
Defined.
