(* ===== verification/Printf.v ===== *)
(** * Formatted output

    [printint] and [printf] of [src/printf.c], and [printint] and [cprintf] of
    [src/console.c].  The output is the list of bytes passed to [putc] or
    [consputc]; the variable arguments are the words on the stack. *)

From S2P Require Import Prelude Strings.

(** [buf[i++] = digits[x % base]; while((x /= base) != 0)]: the digits, least
    significant first. *)
Fixpoint digit_loop (fuel : nat) (x base : Z) : list Z :=
  match fuel with
  | O => []
  | S fuel =>
      x mod base :: (if bool_decide (x / base = 0) then [] else digit_loop fuel (x / base) base)
  end.

(** [digits[d]]; [a] is the letter that stands for ten. *)
Definition digit_char (a d : Z) : Z := if bool_decide (d < 10) then 48 + d else a + (d - 10).

(** The contents of [buf] when the digits and the sign are in it. *)
Definition printint_buf (a xx base : Z) (sgn : bool) : list Z :=
  let neg := sgn && bool_decide (xx < 0) in
  let x := if neg then u32 (- xx) else u32 xx in
  (digit_char a <$> digit_loop 32 x base) ++ (if neg then [45] else []).

(** [while(--i >= 0) putc(buf[i]);] *)
Definition printint_with (a xx base : Z) (sgn : bool) : list Z := reverse (printint_buf a xx base sgn).

(** The two functions differ in the case of the hexadecimal digits. *)
Definition printint (xx base : Z) (sgn : bool) : list Z := printint_with 65 xx base sgn.
Definition kprintint (xx base : Z) (sgn : bool) : list Z := printint_with 97 xx base sgn.

(** The string at address [s], read byte by byte. *)
Fixpoint read_str (fuel : nat) (m : mem) (s : Z) : option (list Z) :=
  if bool_decide (m s = 0) then Some [] else
  match fuel with
  | O => None
  | S fuel => cons (m s) <$> read_str fuel m (s + 1)
  end.

Definition null_str : list Z := [40; 110; 117; 108; 108; 41].

Definition str_arg (fuel : nat) (m : mem) (s : Z) : option (list Z) :=
  if bool_decide (s = 0) then Some null_str else read_str fuel m s.

(** The loop of [printf]; [pct] is [state == '%'].  [None]: an argument is
    missing, or a string is not terminated. *)
Fixpoint printf_loop (fuel : nat) (m : mem) (pct : bool) (fmt args : list Z) : option (list Z) :=
  match fmt with
  | [] => Some []
  | c :: fmt =>
      if negb pct then
        if bool_decide (c = 37) then printf_loop fuel m true fmt args
        else cons c <$> printf_loop fuel m false fmt args
      else if bool_decide (c = 100) then
        match args with
        | x :: args => app (printint (s32 x) 10 true) <$> printf_loop fuel m false fmt args
        | [] => None
        end
      else if bool_decide (c = 120 ∨ c = 112) then
        match args with
        | x :: args => app (printint (s32 x) 16 false) <$> printf_loop fuel m false fmt args
        | [] => None
        end
      else if bool_decide (c = 115) then
        match args with
        | x :: args => s ← str_arg fuel m x; app s <$> printf_loop fuel m false fmt args
        | [] => None
        end
      else if bool_decide (c = 99) then
        match args with
        | x :: args => cons (u8 x) <$> printf_loop fuel m false fmt args
        | [] => None
        end
      else if bool_decide (c = 37) then cons c <$> printf_loop fuel m false fmt args
      else app [37; c] <$> printf_loop fuel m false fmt args
  end.

Definition printf (fuel : nat) (m : mem) (fmt args : list Z) : option (list Z) :=
  printf_loop fuel m false fmt args.

(** The loop of [cprintf]; [pct] is the read of [fmt[++i]]. *)
Fixpoint cprintf_loop (fuel : nat) (m : mem) (pct : bool) (fmt args : list Z) : option (list Z) :=
  match fmt with
  | [] => Some []
  | c :: fmt =>
      if negb pct then
        if bool_decide (c ≠ 37) then cons c <$> cprintf_loop fuel m false fmt args
        else cprintf_loop fuel m true fmt args
      else if bool_decide (c = 100) then
        match args with
        | x :: args => app (kprintint (s32 x) 10 true) <$> cprintf_loop fuel m false fmt args
        | [] => None
        end
      else if bool_decide (c = 120 ∨ c = 112) then
        match args with
        | x :: args => app (kprintint (s32 x) 16 false) <$> cprintf_loop fuel m false fmt args
        | [] => None
        end
      else if bool_decide (c = 115) then
        match args with
        | x :: args => s ← str_arg fuel m x; app s <$> cprintf_loop fuel m false fmt args
        | [] => None
        end
      else if bool_decide (c = 37) then cons 37 <$> cprintf_loop fuel m false fmt args
      else app [37; c] <$> cprintf_loop fuel m false fmt args
  end.

Definition cprintf (fuel : nat) (m : mem) (fmt args : list Z) : option (list Z) :=
  cprintf_loop fuel m false fmt args.

(** ** Numbers *)

Fixpoint horner (base : Z) (ds : list Z) : Z :=
  match ds with [] => 0 | d :: ds => d + base * horner base ds end.

Lemma digit_loop_value fuel : ∀ x base, 2 ≤ base → 0 ≤ x < 2 ^ Z.of_nat fuel →
  horner base (digit_loop fuel x base) = x ∧ Forall (λ d, 0 ≤ d < base) (digit_loop fuel x base).
Proof.
  induction fuel as [|fuel IH]; intros x base Hb Hx; simpl.
  - change (2 ^ Z.of_nat 0) with 1 in Hx. split; [lia|constructor].
  - pose proof (Z.div_mod x base ltac:(lia)) as Hdm. pose proof (Z.mod_pos_bound x base ltac:(lia)).
    case_bool_decide as Hz.
    + simpl. split; [lia|]. constructor; [done|constructor].
    + assert (Hq : 0 ≤ x / base < 2 ^ Z.of_nat fuel).
      { split; [apply Z.div_pos; lia|]. apply Z.div_lt_upper_bound; [lia|].
        rewrite Nat2Z.inj_succ, Z.pow_succ_r in Hx by lia. nia. }
      destruct (IH (x / base) base Hb Hq) as [H1 H2]. split; [simpl; lia|]. by constructor.
Qed.

Lemma digit_loop_length fuel : ∀ k x base, 2 ≤ base → 0 ≤ x < base ^ Z.of_nat (S k) →
  (length (digit_loop fuel x base) ≤ S k)%nat.
Proof.
  induction fuel as [|fuel IH]; intros k x base Hb Hx; simpl; [lia|].
  case_bool_decide as Hz; simpl; [lia|]. destruct k as [|k].
  - rewrite Z.pow_1_r in Hx. rewrite Z.div_small in Hz by lia. done.
  - apply le_n_S, IH; [done|]. split; [apply Z.div_pos; lia|].
    apply Z.div_lt_upper_bound; [lia|]. rewrite (Nat2Z.inj_succ (S k)), Z.pow_succ_r in Hx by lia. apply Hx.
Qed.

Lemma u32_range_pow z : 0 ≤ u32 z < 2 ^ Z.of_nat 32.
Proof. apply u32_range. Qed.

(** For the bases the kernel and the library use, the digits and the sign
    always fit into the 16 bytes of [buf]. *)
Theorem printint_fits a xx base sgn :
  base = 10 ∨ base = 16 → (length (printint_buf a xx base sgn) ≤ 11)%nat.
Proof.
  intros Hb. unfold printint_buf. rewrite length_app, length_fmap.
  set (x := if sgn && bool_decide (xx < 0) then u32 (- xx) else u32 xx).
  assert (Hx : 0 ≤ x < 2 ^ 32) by (unfold x; destruct (sgn && _); apply u32_range).
  assert (Hl : (length (digit_loop 32 x base) ≤ 10)%nat).
  { apply (digit_loop_length 32 9); [lia|]. destruct Hb as [-> | ->]; simpl; lia. }
  clearbody x. destruct (sgn && _); cbn [length]; lia.
Qed.

(** The value of a string of decimal digits. *)
Definition decimal (l : list Z) : Z := foldl (λ n c, n * 10 + c - 48) 0 l.

Definition is_digit (c : Z) : Prop := 48 ≤ c ≤ 57.

Lemma decimal_ge l : ∀ n, 0 ≤ n → Forall is_digit l →
  n ≤ foldl (λ n c, n * 10 + c - 48) n l.
Proof.
  induction l as [|c l IH]; intros n Hn Hl; simpl; [lia|].
  apply Forall_cons in Hl as [Hc Hl]. unfold is_digit in Hc.
  specialize (IH (n * 10 + c - 48) ltac:(lia) Hl). lia.
Qed.

Lemma atoi_loop_spec l : ∀ fuel m n s, 0 ≤ n → cstr m s l → Forall is_digit l →
  (length l ≤ fuel)%nat → foldl (λ n c, n * 10 + c - 48) n l + 48 < 2 ^ 31 →
  atoi_loop fuel n s m = Some (foldl (λ n c, n * 10 + c - 48) n l).
Proof.
  induction l as [|c l IH]; intros fuel m n s Hn Hl Hd Hf Hv; simpl in Hl, Hf, Hv |- *.
  - destruct fuel; simpl; rewrite Hl; by rewrite bool_decide_eq_false_2 by lia.
  - destruct Hl as (E & Hc & Hl). apply Forall_cons in Hd as [Hcd Hd]. unfold is_digit in Hcd.
    destruct fuel as [|fuel]; [lia|]. simpl. rewrite E.
    rewrite bool_decide_eq_true_2 by lia.
    pose proof (decimal_ge l (n * 10 + c - 48) ltac:(lia) Hd).
    rewrite bool_decide_eq_true_2 by lia. apply IH; try done; lia.
Qed.

Lemma horner_decimal a ds :
  Forall (λ d, 0 ≤ d < 10) ds →
  decimal (reverse (digit_char a <$> ds)) = horner 10 ds ∧
  Forall is_digit (reverse (digit_char a <$> ds)).
Proof.
  intros Hd. unfold decimal. induction Hd as [|d ds Hd _ [IH1 IH2]]; [by split|].
  rewrite fmap_cons, reverse_cons, foldl_snoc, IH1. unfold digit_char at 1.
  rewrite bool_decide_eq_true_2 by lia. split; [simpl; lia|].
  apply Forall_app. split; [done|]. constructor; [|constructor]. unfold digit_char, is_digit.
  rewrite bool_decide_eq_true_2 by lia. lia.
Qed.

(** Reading back with [atoi] what [printint] prints in base 10 gives the
    number, for every number that [atoi] can read without overflow. *)
Theorem printint_atoi_roundtrip xx m s fuel :
  0 ≤ xx < 2 ^ 31 - 48 → cstr m s (printint xx 10 true) → (11 ≤ fuel)%nat →
  atoi fuel s m = Some xx.
Proof.
  intros Hx Hs Hf. revert Hs. unfold printint, printint_with, printint_buf.
  rewrite (bool_decide_eq_false_2 (xx < 0)) by lia. cbn [andb]. rewrite app_nil_r.
  rewrite u32_small by lia. intros Hs.
  destruct (digit_loop_value 32 xx 10) as [Hv Hd]; [lia|lia|].
  destruct (horner_decimal 65 _ Hd) as [Hdec Hdig]. rewrite Hv in Hdec.
  unfold atoi. rewrite (atoi_loop_spec _ fuel m 0 s (Z.le_refl 0) Hs Hdig).
  - f_equal. exact Hdec.
  - rewrite length_reverse, length_fmap.
    assert (H10 : 0 ≤ xx < 10 ^ Z.of_nat 10) by (change (10 ^ Z.of_nat 10) with 10000000000; lia).
    pose proof (digit_loop_length 32 9 xx 10 ltac:(lia) H10). lia.
  - change (decimal (reverse (digit_char 65 <$> digit_loop 32 xx 10)) + 48 < 2 ^ 31).
    rewrite Hdec. lia.
Qed.

(** A negative number prints as its absolute value after a minus sign. *)
Lemma printint_negative a xx base :
  - 2 ^ 31 ≤ xx < 0 →
  printint_with a xx base true = 45 :: printint_with a (- xx) base false.
Proof.
  intros Hx. unfold printint_with, printint_buf. rewrite bool_decide_eq_true_2 by lia. cbn [andb].
  rewrite reverse_app, app_nil_r. done.
Qed.

(** ** The two formatters *)

(** Format strings with the conversions both understand and print alike. *)
Fixpoint plain_fmt (pct : bool) (fmt : list Z) : bool :=
  match fmt with
  | [] => true
  | c :: fmt =>
      if negb pct then plain_fmt (bool_decide (c = 37)) fmt
      else bool_decide (c ≠ 99 ∧ c ≠ 120 ∧ c ≠ 112) && plain_fmt false fmt
  end.

Lemma digit_char_decimal a b ds :
  Forall (λ d, 0 ≤ d < 10) ds → digit_char a <$> ds = digit_char b <$> ds.
Proof.
  induction 1 as [|d ds Hd _ IH]; [done|]. rewrite !fmap_cons, IH. f_equal. unfold digit_char.
  by rewrite !bool_decide_eq_true_2 by lia.
Qed.

Lemma printint_decimal a b xx sgn : printint_with a xx 10 sgn = printint_with b xx 10 sgn.
Proof.
  unfold printint_with, printint_buf. do 2 f_equal. apply digit_char_decimal.
  apply (digit_loop_value 32); [lia|]. destruct (sgn && _); apply u32_range_pow.
Qed.

(** On formats without [%c] and hexadecimal conversions, [cprintf] of the
    kernel prints the same bytes as [printf] of the user library. *)
Theorem cprintf_printf_agree fuel m fmt args :
  plain_fmt false fmt = true → cprintf fuel m fmt args = printf fuel m fmt args.
Proof.
  unfold cprintf, printf. generalize false as pct. revert args.
  induction fmt as [|c fmt IH]; intros args pct Hp; [done|]. simpl in Hp |- *.
  destruct pct; simpl in Hp |- *.
  - apply andb_true_iff in Hp as [Hc%bool_decide_eq_true Hp]. destruct Hc as (H99 & H120 & H112).
    case_bool_decide as H100.
    { destruct args as [|x args]; [done|]. unfold kprintint, printint.
      rewrite (printint_decimal 97 65), IH by done. done. }
    rewrite !(bool_decide_eq_false_2 (c = 120 ∨ c = 112)) by naive_solver.
    case_bool_decide as H115.
    { destruct args as [|x args]; [done|]. destruct (str_arg fuel m x); simpl; [|done]. by rewrite IH. }
    rewrite (bool_decide_eq_false_2 (c = 99)) by done.
    case_bool_decide as H37; [subst c|]; by rewrite IH.
  - case_bool_decide as H37.
    + rewrite bool_decide_eq_false_2 by auto. by apply IH.
    + rewrite bool_decide_eq_true_2 by done. by rewrite IH.
Qed.

(** ** Examples *)

Definition demo_mem (s : list Z) : mem := λ a, default 0 (s !! Z.to_nat a).

Lemma printint_fits_witness : (length (printint_buf 65 (-2147483648) 10 true) ≤ 11)%nat.
Proof. apply (printint_fits 65 (-2147483648) 10 true). left. reflexivity. Defined.

Lemma printint_atoi_roundtrip_witness :
  atoi 11 0 (demo_mem (printint 30042019 10 true)) = Some 30042019.
Proof.
  apply (printint_atoi_roundtrip 30042019 (demo_mem (printint 30042019 10 true)) 0 11).
  - lia.
  - vm_compute. repeat split; discriminate.
  - lia.
Defined.

Lemma cprintf_printf_agree_witness :
  cprintf 5 (demo_mem []) [37; 100; 44; 37; 37] [42] = Some [52; 50; 44; 37].
Proof.
  rewrite (cprintf_printf_agree 5 (demo_mem []) [37; 100; 44; 37; 37] [42]); reflexivity.
Defined.
