(* ===== verification/UserProgs.v ===== *)
(** * The small user programs

    [src/wc.c], [src/cat.c], [src/echo.c], [src/ls.c], [src/kill.c], [src/ln.c],
    [src/mkdir.c], [src/rm.c], [src/init.c], [src/zombie.c], the [main] and [getcmd]
    of [src/sh.c] and the [stat] of [src/ulib.c], over an interface of system calls.
    A C string is the list of its bytes up to the terminating zero. *)

From Stdlib Require Import Strings.Ascii Strings.String.
From S2P Require Import Prelude Strings Printf.

Module UserProgs.

(** The bytes of a literal. *)
Definition chars (s : string) : list Z := (λ c, Z.of_N (N_of_ascii c)) <$> list_ascii_of_string s.

Definition NEWLINE : Z := 10.
Definition SPACE : Z := 32.
Definition SLASH : Z := 47.
Definition DIRSIZ : nat := 14.
Definition T_DIR : Z := 1.
Definition T_FILE : Z := 2.
Definition O_RDONLY : Z := 0.
Definition O_RDWR : Z := 2.

Record stat_t : Type := Stat { st_type : Z; st_dev : Z; st_ino : Z; st_nlink : Z; st_size : Z }.

(** ** Programs *)

(** A program returns, exits, or has not ended within the given number of turns of
    its loops. *)
Inductive uout (W A : Type) : Type :=
| URet (a : A) (w : W)
| UExit (w : W)
| USpin.
Arguments URet {W A} a w.
Arguments UExit {W A} w.
Arguments USpin {W A}.

Definition U (W A : Type) : Type := W → uout W A.

#[global] Instance U_ret W : MRet (U W) := λ A a w, URet a w.
#[global] Instance U_bind W : MBind (U W) := λ A B f m w,
  match m w with URet a w' => f a w' | UExit w' => UExit w' | USpin => USpin end.

Definition uspin {W A} : U W A := λ _, USpin.
Definition exit {W A} : U W A := λ w, UExit w.
Definition call {W A} (f : W → A * W) : U W A := λ w, let x := f w in URet x.1 x.2.

(** The system calls; [fork] gives its result in the process that is followed, and
    [exec] returns only when it fails. *)
Class Sys (W : Type) : Type := {
  sys_read : Z → Z → W → (Z * list Z) * W;
  sys_write : Z → list Z → W → Z * W;
  sys_open : list Z → Z → W → Z * W;
  sys_close : Z → W → Z * W;
  sys_fstat : Z → W → (Z * stat_t) * W;
  sys_link : list Z → list Z → W → Z * W;
  sys_unlink : list Z → W → Z * W;
  sys_mkdir : list Z → W → Z * W;
  sys_mknod : list Z → Z → Z → W → Z * W;
  sys_chdir : list Z → W → Z * W;
  sys_dup : Z → W → Z * W;
  sys_kill : Z → W → Z * W;
  sys_sleep : Z → W → Z * W;
  sys_fork : W → Z * W;
  sys_wait : W → Z * W;
  sys_exec : list Z → list (list Z) → W → Z * W;
}.

(** An argument of [printf]. *)
Inductive arg : Type := AD (n : Z) | AS (s : list Z).

(** The bytes that [printf] writes. *)
Fixpoint format_loop (pct : bool) (fmt : list Z) (args : list arg) : list Z :=
  match fmt with
  | [] => []
  | c :: fmt =>
      if negb pct then
        if bool_decide (c = 37) then format_loop true fmt args else c :: format_loop false fmt args
      else if bool_decide (c = 100) then
        match args with AD n :: args => printint n 10 true ++ format_loop false fmt args | _ => [] end
      else if bool_decide (c = 115) then
        match args with AS s :: args => s ++ format_loop false fmt args | _ => [] end
      else if bool_decide (c = 37) then c :: format_loop false fmt args
      else 37 :: c :: format_loop false fmt args
  end.

Definition format (fmt : list Z) (args : list arg) : list Z := format_loop false fmt args.

Section Progs.

Context {W : Type} `{Sys W}.

(** [printf] calls [write] for every byte, and ignores the result. *)
Fixpoint puts (fd : Z) (l : list Z) : U W unit :=
  match l with
  | [] => mret tt
  | c :: l => _ ← call (sys_write fd [c]); puts fd l
  end.

Definition uprintf (fd : Z) (fmt : list Z) (args : list arg) : U W unit := puts fd (format fmt args).

(** *** [wc] *)

Record counts : Type := Counts { n_lines : Z; n_words : Z; n_chars : Z; inword : bool }.

(** [" \r\t\n\v"] *)
Definition blanks : list Z := [32; 13; 9; 10; 11].

(** The body of the inner loop; the counters are [int]s. *)
Definition wc_char (st : counts) (b : Z) : counts :=
  let c := s32 (n_chars st + 1) in
  let l := if bool_decide (b = NEWLINE) then s32 (n_lines st + 1) else n_lines st in
  if bool_decide (b ∈ blanks) then Counts l (n_words st) c false
  else if negb (inword st) then Counts l (s32 (n_words st + 1)) c true
  else Counts l (n_words st) c true.

Fixpoint wc_loop (fuel : nat) (fd : Z) (st : counts) : U W counts :=
  match fuel with
  | O => uspin
  | S fuel =>
      x ← call (sys_read fd 512);
      if bool_decide (0 < x.1) then wc_loop fuel fd (foldl wc_char st x.2)
      else if bool_decide (x.1 < 0) then uprintf 1 (chars "wc: read error" ++ [NEWLINE]) [] ;; exit
      else mret st
  end.

Definition wc (fuel : nat) (fd : Z) (name : list Z) : U W unit :=
  st ← wc_loop fuel fd (Counts 0 0 0 false);
  uprintf 1 (chars "%d %d %d %s" ++ [NEWLINE]) [AD (n_lines st); AD (n_words st); AD (n_chars st); AS name].

Fixpoint wc_files (fuel : nat) (l : list (list Z)) : U W unit :=
  match l with
  | [] => mret tt
  | f :: l =>
      fd ← call (sys_open f 0);
      if bool_decide (fd < 0) then uprintf 1 (chars "wc: cannot open %s" ++ [NEWLINE]) [AS f] ;; exit
      else wc fuel fd f ;; _ ← call (sys_close fd); wc_files fuel l
  end.

Definition wc_main (fuel : nat) (argv : list (list Z)) : U W unit :=
  if bool_decide (length argv ≤ 1)%nat then wc fuel 0 [] ;; exit
  else wc_files fuel (drop 1 argv) ;; exit.

(** *** [cat] *)

Fixpoint cat (fuel : nat) (fd : Z) : U W unit :=
  match fuel with
  | O => uspin
  | S fuel =>
      x ← call (sys_read fd 512);
      if bool_decide (0 < x.1) then
        r ← call (sys_write 1 x.2);
        if bool_decide (r ≠ x.1) then uprintf 1 (chars "cat: write error" ++ [NEWLINE]) [] ;; exit
        else cat fuel fd
      else if bool_decide (x.1 < 0) then uprintf 1 (chars "cat: read error" ++ [NEWLINE]) [] ;; exit
      else mret tt
  end.

Fixpoint cat_files (fuel : nat) (l : list (list Z)) : U W unit :=
  match l with
  | [] => mret tt
  | f :: l =>
      fd ← call (sys_open f 0);
      if bool_decide (fd < 0) then uprintf 1 (chars "cat: cannot open %s" ++ [NEWLINE]) [AS f] ;; exit
      else cat fuel fd ;; _ ← call (sys_close fd); cat_files fuel l
  end.

Definition cat_main (fuel : nat) (argv : list (list Z)) : U W unit :=
  if bool_decide (length argv ≤ 1)%nat then cat fuel 0 ;; exit
  else cat_files fuel (drop 1 argv) ;; exit.

(** *** [echo] *)

(** [for(i = 1; i < argc; i++)] over the arguments that are left. *)
Fixpoint echo_loop (l : list (list Z)) : U W unit :=
  match l with
  | [] => mret tt
  | a :: l => uprintf 1 (chars "%s%s") [AS a; AS (match l with [] => [NEWLINE] | _ => [SPACE] end)] ;; echo_loop l
  end.

Definition echo_main (argv : list (list Z)) : U W unit := echo_loop (drop 1 argv) ;; exit.

(** *** [ls] *)

(** [for(p=path+strlen(path); p >= path && *p != '/'; p--); p++;] *)
Fixpoint after_slash (path : list Z) : list Z :=
  match path with
  | [] => []
  | c :: path' => if bool_decide (SLASH ∈ path') then after_slash path' else if bool_decide (c = SLASH) then path' else path
  end.

Definition fmtname (path : list Z) : list Z :=
  let p := after_slash path in
  if bool_decide (DIRSIZ ≤ length p)%nat then p else p ++ replicate (DIRSIZ - length p) SPACE.

(** [stat] of the user library. *)
Definition stat (n : list Z) : U W (Z * stat_t) :=
  fd ← call (sys_open n O_RDONLY);
  if bool_decide (fd < 0) then mret (-1, Stat 0 0 0 0 0) else
  x ← call (sys_fstat fd);
  _ ← call (sys_close fd);
  mret x.

Definition show_stat (name : list Z) (st : stat_t) : U W unit :=
  uprintf 1 (chars "%s %d %d %d" ++ [NEWLINE]) [AS name; AD (st_type st); AD (s32 (st_ino st)); AD (s32 (st_size st))].

(** The bytes of a string up to its zero. *)
Fixpoint cstring (l : list Z) : list Z :=
  match l with
  | [] => []
  | c :: l => if bool_decide (c = 0) then [] else c :: cstring l
  end.

(** The loop over the entries of a directory: a number of two bytes and a name. *)
Fixpoint ls_entries (fuel : nat) (fd : Z) (prefix : list Z) : U W unit :=
  match fuel with
  | O => uspin
  | S fuel =>
      x ← call (sys_read fd 16);
      if bool_decide (x.1 ≠ 16) then mret tt else
      let inum := nth 0 x.2 0 + 256 * nth 1 x.2 0 in
      if bool_decide (inum = 0) then ls_entries fuel fd prefix else
      let buf := prefix ++ cstring (take DIRSIZ (drop 2 x.2)) in
      y ← stat buf;
      (if bool_decide (y.1 < 0) then uprintf 1 (chars "ls: cannot stat %s" ++ [NEWLINE]) [AS buf]
       else show_stat (fmtname buf) y.2) ;;
      ls_entries fuel fd prefix
  end.

Definition ls (fuel : nat) (path : list Z) : U W unit :=
  fd ← call (sys_open path 0);
  if bool_decide (fd < 0) then uprintf 2 (chars "ls: cannot open %s" ++ [NEWLINE]) [AS path] else
  x ← call (sys_fstat fd);
  if bool_decide (x.1 < 0) then
    uprintf 2 (chars "ls: cannot stat %s" ++ [NEWLINE]) [AS path] ;; _ ← call (sys_close fd); mret tt
  else
    (if bool_decide (st_type x.2 = T_FILE) then show_stat (fmtname path) x.2
     else if bool_decide (st_type x.2 = T_DIR) then
       if bool_decide (512 < length path + 1 + DIRSIZ + 1)%nat then uprintf 1 (chars "ls: path too long" ++ [NEWLINE]) []
       else ls_entries fuel fd (path ++ [SLASH])
     else mret tt) ;;
    _ ← call (sys_close fd);
    mret tt.

Fixpoint ls_all (fuel : nat) (l : list (list Z)) : U W unit :=
  match l with
  | [] => mret tt
  | p :: l => ls fuel p ;; ls_all fuel l
  end.

Definition ls_main (fuel : nat) (argv : list (list Z)) : U W unit :=
  if bool_decide (length argv < 2)%nat then ls fuel (chars ".") ;; exit else ls_all fuel (drop 1 argv) ;; exit.

(** *** [kill], [ln], [mkdir], [rm], [zombie] *)

(** [atoi] of an argument; an overflow wraps around. *)
Fixpoint atoi_args (n : Z) (s : list Z) : Z :=
  match s with
  | [] => n
  | c :: s => if bool_decide (48 ≤ c ≤ 57) then atoi_args (s32 (n * 10 + c - 48)) s else n
  end.

Fixpoint kill_all (l : list (list Z)) : U W unit :=
  match l with
  | [] => mret tt
  | a :: l => _ ← call (sys_kill (atoi_args 0 a)); kill_all l
  end.

Definition kill_main (argv : list (list Z)) : U W unit :=
  if bool_decide (length argv < 2)%nat then uprintf 2 (chars "usage: kill pid..." ++ [NEWLINE]) [] ;; exit
  else kill_all (drop 1 argv) ;; exit.

Definition ln_main (argv : list (list Z)) : U W unit :=
  match argv with
  | [_; old; new] =>
      r ← call (sys_link old new);
      (if bool_decide (r < 0) then uprintf 2 (chars "link %s %s: failed" ++ [NEWLINE]) [AS old; AS new] else mret tt) ;;
      exit
  | _ => uprintf 2 (chars "Usage: ln old new" ++ [NEWLINE]) [] ;; exit
  end.

Fixpoint mkdir_loop (l : list (list Z)) : U W unit :=
  match l with
  | [] => mret tt
  | f :: l =>
      r ← call (sys_mkdir f);
      if bool_decide (r < 0) then uprintf 2 (chars "mkdir: %s failed to create" ++ [NEWLINE]) [AS f] else mkdir_loop l
  end.

Definition mkdir_main (argv : list (list Z)) : U W unit :=
  if bool_decide (length argv < 2)%nat then uprintf 2 (chars "Usage: mkdir files..." ++ [NEWLINE]) [] ;; exit
  else mkdir_loop (drop 1 argv) ;; exit.

Fixpoint rm_loop (l : list (list Z)) : U W unit :=
  match l with
  | [] => mret tt
  | f :: l =>
      r ← call (sys_unlink f);
      if bool_decide (r < 0) then uprintf 2 (chars "rm: %s failed to delete" ++ [NEWLINE]) [AS f] else rm_loop l
  end.

Definition rm_main (argv : list (list Z)) : U W unit :=
  if bool_decide (length argv < 2)%nat then uprintf 2 (chars "Usage: rm files..." ++ [NEWLINE]) [] ;; exit
  else rm_loop (drop 1 argv) ;; exit.

Definition zombie_main : U W unit :=
  pid ← call sys_fork;
  (if bool_decide (0 < pid) then _ ← call (sys_sleep 5); mret tt else mret tt) ;;
  exit.

(** *** [init] *)

(** [while((wpid=wait()) >= 0 && wpid != pid) printf(1, "zombie!\n");] *)
Fixpoint reap (fuel : nat) (pid : Z) : U W unit :=
  match fuel with
  | O => uspin
  | S fuel =>
      wpid ← call sys_wait;
      if bool_decide (0 ≤ wpid) && bool_decide (wpid ≠ pid)
      then uprintf 1 (chars "zombie!" ++ [NEWLINE]) [] ;; reap fuel pid else mret tt
  end.

Fixpoint init_loop (fuel : nat) : U W unit :=
  match fuel with
  | O => uspin
  | S n =>
      uprintf 1 (chars "init: starting sh" ++ [NEWLINE]) [] ;;
      pid ← call sys_fork;
      if bool_decide (pid < 0) then uprintf 1 (chars "init: fork failed" ++ [NEWLINE]) [] ;; exit
      else if bool_decide (pid = 0) then
        _ ← call (sys_exec (chars "sh") [chars "sh"]);
        uprintf 1 (chars "init: exec sh failed" ++ [NEWLINE]) [] ;; exit
      else reap fuel pid ;; init_loop n
  end.

Definition init_main (fuel : nat) : U W unit :=
  fd ← call (sys_open (chars "console") O_RDWR);
  (if bool_decide (fd < 0) then
     _ ← call (sys_mknod (chars "console") 1 1); _ ← call (sys_open (chars "console") O_RDWR); mret tt
   else mret tt) ;;
  _ ← call (sys_dup 0);
  _ ← call (sys_dup 0);
  init_loop fuel.

(** *** The shell *)

(** [gets]: a byte at a time, up to the end of a line. *)
Fixpoint gets (max : nat) (l : list Z) : U W (list Z) :=
  match max with
  | O => mret l
  | S max =>
      x ← call (sys_read 0 1);
      if bool_decide (x.1 < 1) then mret l else
      let c := nth 0 x.2 0 in
      if bool_decide (c = NEWLINE) || bool_decide (c = 13) then mret (l ++ [c]) else gets max (l ++ [c])
  end.

(** [getcmd] with a buffer of [nbuf] bytes; [None] at the end of the input. *)
Definition getcmd (nbuf : nat) : U W (option (list Z)) :=
  uprintf 2 (chars "$ ") [] ;;
  l ← gets (nbuf - 1) [];
  let buf := cstring l in
  mret (if bool_decide (buf = []) then None else Some buf).

Fixpoint open_console (fuel : nat) : U W unit :=
  match fuel with
  | O => uspin
  | S fuel =>
      fd ← call (sys_open (chars "console") O_RDWR);
      if bool_decide (0 ≤ fd) then
        if bool_decide (3 ≤ fd) then _ ← call (sys_close fd); mret tt else open_console fuel
      else mret tt
  end.

(** What follows [parsecmd] and [runcmd] in the child is given as [run]; it does not
    return. *)
Context (run : list Z → U W unit).

Definition sh_panic (s : list Z) : U W Z := uprintf 2 (chars "%s" ++ [NEWLINE]) [AS s] ;; exit.

Definition fork1 : U W Z :=
  pid ← call sys_fork;
  if bool_decide (pid = -1) then sh_panic (chars "fork") else mret pid.

Fixpoint sh_loop (fuel : nat) : U W unit :=
  match fuel with
  | O => uspin
  | S fuel =>
      x ← getcmd 100;
      match x with
      | None => exit
      | Some buf =>
          if bool_decide (take 3 buf = chars "cd ") then
            let dir := drop 3 (removelast buf) in
            r ← call (sys_chdir dir);
            (if bool_decide (r < 0) then uprintf 2 (chars "cannot cd %s" ++ [NEWLINE]) [AS dir] else mret tt) ;;
            sh_loop fuel
          else
            pid ← fork1;
            (if bool_decide (pid = 0) then run buf else mret tt) ;;
            _ ← call sys_wait;
            sh_loop fuel
      end
  end.

Definition sh_main (fuel : nat) : U W unit := open_console 4 ;; sh_loop fuel.

End Progs.

End UserProgs.
