(* ===== verification/UserThm.v ===== *)
(** * What the small user programs print

    The programs of [UserProgs] on files that can be read: [cat] copies them and
    [wc] counts their lines, words and bytes, however [read] divides them. *)

From Stdlib Require Import Strings.String.
From S2P Require Import Prelude Strings Printf UserProgs.

Module UserThm.
Import UserProgs.

(** ** What the system calls promise *)

(** [input w fd] is what is left to read from a descriptor, [output w fd] what has
    been written to it, and [file] gives the contents of the files.  A read gives at
    least a byte before the end, and no more than asked for. *)
Class SysLaws (W : Type) `{Sys W} : Type := {
  input : W → Z → list Z;
  output : W → Z → list Z;
  file : list Z → option (list Z);
  read_law : ∀ fd n w, 0 < n → let x := sys_read fd n w in
    x.1.1 = Z.of_nat (length x.1.2) ∧ x.1.1 ≤ n ∧ input w fd = x.1.2 ++ input x.2 fd ∧ (input w fd ≠ [] → x.1.2 ≠ []) ∧
    ∀ d, output x.2 d = output w d;
  write_law : ∀ fd l w, let x := sys_write fd l w in
    x.1 = Z.of_nat (length l) ∧ output x.2 fd = output w fd ++ l ∧ (∀ d, d ≠ fd → output x.2 d = output w d) ∧
    ∀ d, input x.2 d = input w d;
  open_law : ∀ f w, let x := sys_open f 0 w in
    (∀ d, output x.2 d = output w d) ∧ match file f with Some c => 0 ≤ x.1 ∧ input x.2 x.1 = c | None => x.1 < 0 end;
  close_law : ∀ fd w d, output (sys_close fd w).2 d = output w d;
}.

(** [m] returns with [Q]. *)
Definition returns {W A} (m : U W A) (Q : A → W → Prop) (w : W) : Prop :=
  match m w with URet a w' => Q a w' | _ => False end.

Lemma returns_bind {W A B} (m : U W A) (k : A → U W B) Q w :
  returns m (λ a w', returns (k a) Q w') w → returns (m ≫= k) Q w.
Proof. unfold returns, mbind, U_bind. by destruct (m w). Qed.

Lemma returns_mono {W A} (m : U W A) (P Q : A → W → Prop) w :
  returns m P w → (∀ a w', P a w' → Q a w') → returns m Q w.
Proof. unfold returns. destruct (m w); auto. Qed.

(** [m] exits with [Q]. *)
Definition exits {W A} (m : U W A) (Q : W → Prop) (w : W) : Prop := match m w with UExit w' => Q w' | _ => False end.

Lemma exits_after {W A B} (m : U W A) (Q : W → Prop) w :
  returns m (λ _ w', Q w') w → exits (m ;; exit (A := B)) Q w.
Proof. unfold returns, exits, mbind, U_bind. by destruct (m w). Qed.

Section Thm.

Context {W : Type} {SYS : Sys W} {LAWS : SysLaws W}.
Implicit Types w : W.

(** From [w] to [w'] the bytes [l] have been written to the standard output, and
    nothing to other descriptors. *)
Definition prints (l : list Z) w w' : Prop :=
  output w' 1 = output w 1 ++ l ∧ ∀ d, d ≠ 1 → output w' d = output w d.

Lemma prints_trans l1 l2 w w1 w2 : prints l1 w w1 → prints l2 w1 w2 → prints (l1 ++ l2) w w2.
Proof. intros [E1 H1] [E2 H2]. split; [by rewrite E2, E1, app_assoc|]. intros d Hd. by rewrite H2, H1. Qed.

Lemma prints_same w w' : (∀ d, output w' d = output w d) → prints [] w w'.
Proof. intros E. split; [by rewrite app_nil_r|done]. Qed.

Lemma puts_prints l : ∀ w, returns (puts 1 l) (λ _ w', prints l w w' ∧ ∀ d, input w' d = input w d) w.
Proof.
  induction l as [|c l IH]; intros w; [split; [by apply prints_same|done]|]. cbn [puts]. apply returns_bind. unfold returns at 1, call.
  destruct (write_law 1 [c] w) as (_ & E1 & E2 & E3). eapply returns_mono; [apply IH|]. intros [] w' [Hp Hi]. split.
  - apply (prints_trans [c] l _ (sys_write 1 [c] w).2); [by split|done].
  - intros d. by rewrite Hi, E3.
Qed.

(** ** Words *)

Definition is_blank (c : Z) : bool := bool_decide (c ∈ blanks).

(** The number of words of a text, when [inw] says whether a word precedes it: a word
    begins where a byte that is not blank follows a blank one. *)
Fixpoint words (inw : bool) (l : list Z) : Z :=
  match l with
  | [] => 0
  | c :: l => (if negb (is_blank c) && negb inw then 1 else 0) + words (negb (is_blank c)) l
  end.

Definition lines (l : list Z) : Z := Z.of_nat (length (filter (λ c, c = NEWLINE) l)).

(** The state of [wc] after the text [l]. *)
Definition counts_of (l : list Z) : counts :=
  Counts (lines l) (words false l) (Z.of_nat (length l)) (match last l with Some c => negb (is_blank c) | None => false end).

Lemma words_app l1 : ∀ inw l2, words inw (l1 ++ l2) =
  words inw l1 + words (match last l1 with Some c => negb (is_blank c) | None => inw end) l2.
Proof.
  induction l1 as [|c l1 IH]; intros inw l2; [done|]. cbn [app words]. rewrite IH, Z.add_assoc. f_equal.
  destruct l1 as [|c' l1]; [done|]. change (last (c :: c' :: l1)) with (last (c' :: l1)).
  destruct (last (c' :: l1)) eqn:E; [done|]. by apply last_None in E.
Qed.

Lemma words_range inw l : 0 ≤ words inw l ≤ Z.of_nat (length l).
Proof. revert inw. induction l as [|c l IH]; intros inw; cbn [words length]; [lia|]. specialize (IH (negb (is_blank c))). destruct (_ && _); lia. Qed.

Lemma lines_range l : 0 ≤ lines l ≤ Z.of_nat (length l).
Proof. unfold lines. pose proof (length_filter (λ c, c = NEWLINE) l). lia. Qed.

Lemma wc_char_counts l c : Z.of_nat (length (l ++ [c])) < 2 ^ 31 → wc_char (counts_of l) c = counts_of (l ++ [c]).
Proof.
  intros Hl. rewrite length_app in Hl. cbn [length] in Hl. pose proof (words_range false l). pose proof (lines_range l).
  unfold counts_of. rewrite words_app, last_snoc, length_app. cbn [words length]. unfold wc_char. cbn [n_chars n_lines n_words inword].
  assert (El : lines (l ++ [c]) = if bool_decide (c = NEWLINE) then s32 (lines l + 1) else lines l).
  { unfold lines. rewrite filter_app, length_app, filter_cons, filter_nil. case_bool_decide as Hc; [rewrite decide_True by done|rewrite decide_False by done];
      cbn [length]; [rewrite s32_small by (unfold lines in *; lia)|]; lia. }
  rewrite El, s32_small by lia. unfold is_blank. set (b := bool_decide (c ∈ blanks)). set (inw := match last l with Some _ => _ | None => _ end).
  assert (Ew : inw = (match last l with Some c0 => negb (bool_decide (c0 ∈ blanks)) | None => false end)) by done.
  destruct b, inw; cbn [negb andb]; rewrite ?s32_small by lia; f_equal; lia.
Qed.

Lemma wc_fold l1 : ∀ l, Z.of_nat (length (l ++ l1)) < 2 ^ 31 → foldl wc_char (counts_of l) l1 = counts_of (l ++ l1).
Proof.
  induction l1 as [|c l1 IH]; intros l Hl; cbn [foldl]; [by rewrite app_nil_r|].
  rewrite (cons_middle c l l1), app_assoc in Hl |- *. rewrite <- IH by done. f_equal. apply wc_char_counts.
  rewrite length_app in Hl. lia.
Qed.

(** ** [wc] *)

Lemma wc_loop_counts fuel fd : ∀ l w,
  (length (input w fd) < fuel)%nat → Z.of_nat (length (l ++ input w fd)) < 2 ^ 31 →
  returns (wc_loop fuel fd (counts_of l)) (λ st w', st = counts_of (l ++ input w fd) ∧ ∀ d, output w' d = output w d) w.
Proof.
  induction fuel as [|fuel IH]; intros l w Hf Hl; [lia|]. cbn [wc_loop]. apply returns_bind. unfold returns at 1, call.
  destruct (read_law fd 512 w) as (E1 & _ & E3 & E4 & E5); [lia|]. destruct (sys_read fd 512 w) as [[n b] w1]. cbn [fst snd] in *. subst n.
  destruct (decide (b = [])) as [->|Hne].
  - cbn [length]. rewrite !bool_decide_eq_false_2 by lia. assert (Hi : input w fd = []).
    { destruct (input w fd) as [|c r] eqn:Hi; [done|]. by destruct (E4 ltac:(done)). }
    unfold returns, mret, U_ret. by rewrite Hi, app_nil_r.
  - assert (0 < length b)%nat by (destruct b; [done|cbn; lia]). rewrite bool_decide_eq_true_2 by lia.
    rewrite E3, length_app in Hf. rewrite E3, app_assoc in Hl |- *.
    rewrite wc_fold by (rewrite length_app in Hl; lia).
    eapply returns_mono; [apply IH; [lia|done]|]. intros st w' [-> Ho]. split; [done|]. intros d. by rewrite Ho, E5.
Qed.

(** The line that [wc] prints. *)
Definition report (l name : list Z) : list Z :=
  printint (lines l) 10 true ++ [SPACE] ++ printint (words false l) 10 true ++ [SPACE] ++ printint (Z.of_nat (length l)) 10 true ++
  [SPACE] ++ name ++ [NEWLINE].

Lemma wc_prints fuel fd name w :
  (length (input w fd) < fuel)%nat → Z.of_nat (length (input w fd)) < 2 ^ 31 →
  returns (wc fuel fd name) (λ _ w', prints (report (input w fd) name) w w') w.
Proof.
  intros Hf Hl. unfold wc. apply returns_bind. eapply returns_mono; [apply (wc_loop_counts fuel fd [] w Hf Hl)|].
  intros st w1 [-> Ho]. eapply returns_mono; [apply puts_prints|]. intros [] w' [Hp _].
  apply (prints_trans [] (report (input w fd) name) w w1); [by apply prints_same|]. exact Hp.
Qed.

(** The files exist, can be read within [fuel] turns of the loop and have fewer bytes
    than an [int] counts. *)
Definition readable (fuel : nat) (f c : list Z) : Prop := file f = Some c ∧ (length c < fuel)%nat ∧ Z.of_nat (length c) < 2 ^ 31.

Lemma wc_files_prints fuel fs : ∀ cs w, Forall2 (readable fuel) fs cs →
  returns (wc_files fuel fs) (λ _ w', prints (concat (zip_with report cs fs)) w w') w.
Proof.
  induction fs as [|f fs IH]; intros cs w Hc; apply Forall2_cons_inv_l in Hc || apply Forall2_nil_inv_l in Hc; [subst; by apply prints_same|].
  destruct Hc as (c & cs' & (E & Hf & Hl) & Hcs & ->). cbn [wc_files zip_with concat]. apply returns_bind. unfold returns at 1, call.
  destruct (open_law f w) as [Ho Hopen]. rewrite E in Hopen. destruct (sys_open f 0 w) as [fd w1]. cbn [fst snd] in *. destruct Hopen as [Hfd Hin].
  rewrite bool_decide_eq_false_2 by lia. apply returns_bind. eapply returns_mono; [apply wc_prints; by rewrite Hin|].
  intros [] w2 Hp. rewrite Hin in Hp. apply returns_bind. unfold returns at 1, call. eapply returns_mono; [by apply (IH cs')|]. intros [] w3 Hp3.
  apply (prints_trans [] _ w w1); [by apply prints_same|]. apply (prints_trans _ _ _ w2); [done|].
  apply (prints_trans [] _ _ (sys_close fd w2).2); [apply prints_same, close_law|done].
Qed.

(** [wc] prints the number of lines, of words and of bytes of each of its files,
    whatever pieces [read] returns: a word that two pieces share counts once. *)
Theorem wc_main_counts fuel prog fs cs w :
  fs ≠ [] → Forall2 (readable fuel) fs cs →
  exits (wc_main fuel (prog :: fs)) (λ w', prints (concat (zip_with report cs fs)) w w') w.
Proof.
  intros Hne Hc. unfold wc_main. rewrite bool_decide_eq_false_2 by (destruct fs; [done|cbn; lia]). by apply exits_after, wc_files_prints.
Qed.

(** ** [cat] *)

Lemma cat_prints fuel fd : ∀ w, (length (input w fd) < fuel)%nat →
  returns (cat fuel fd) (λ _ w', prints (input w fd) w w') w.
Proof.
  induction fuel as [|fuel IH]; intros w Hf; [lia|]. cbn [cat]. apply returns_bind. unfold returns at 1, call.
  destruct (read_law fd 512 w) as (E1 & _ & E3 & E4 & E5); [lia|]. destruct (sys_read fd 512 w) as [[n b] w1]. cbn [fst snd] in *. subst n.
  destruct (decide (b = [])) as [->|Hne].
  - cbn [length]. rewrite !bool_decide_eq_false_2 by lia. assert (Hi : input w fd = []).
    { destruct (input w fd) as [|c r] eqn:Hi; [done|]. by destruct (E4 ltac:(done)). }
    rewrite Hi. by apply prints_same.
  - assert (0 < length b)%nat by (destruct b; [done|cbn; lia]). rewrite bool_decide_eq_true_2 by lia.
    rewrite E3, length_app in Hf. rewrite E3. apply returns_bind. unfold returns at 1, call. destruct (write_law 1 b w1) as (F1 & F2 & F3 & F4).
    destruct (sys_write 1 b w1) as [r w2]. cbn [fst snd] in *. subst r. rewrite bool_decide_eq_false_2 by tauto.
    rewrite <- (F4 fd). eapply returns_mono; [apply IH; rewrite F4; lia|]. intros [] w' Hp.
    apply (prints_trans b _ w w2); [|done]. split; [by rewrite F2, E5|]. intros d Hd. by rewrite F3, E5.
Qed.

Lemma cat_files_prints fuel fs : ∀ cs w, Forall2 (readable fuel) fs cs →
  returns (cat_files fuel fs) (λ _ w', prints (concat cs) w w') w.
Proof.
  induction fs as [|f fs IH]; intros cs w Hc; apply Forall2_cons_inv_l in Hc || apply Forall2_nil_inv_l in Hc; [subst; by apply prints_same|].
  destruct Hc as (c & cs' & (E & Hf & Hl) & Hcs & ->). cbn [cat_files concat]. apply returns_bind. unfold returns at 1, call.
  destruct (open_law f w) as [Ho Hopen]. rewrite E in Hopen. destruct (sys_open f 0 w) as [fd w1]. cbn [fst snd] in *. destruct Hopen as [Hfd Hin].
  rewrite bool_decide_eq_false_2 by lia. apply returns_bind. eapply returns_mono; [apply cat_prints; by rewrite Hin|].
  intros [] w2 Hp. rewrite Hin in Hp. apply returns_bind. unfold returns at 1, call. eapply returns_mono; [by apply (IH cs')|]. intros [] w3 Hp3.
  apply (prints_trans [] _ w w1); [by apply prints_same|]. apply (prints_trans _ _ _ w2); [done|].
  apply (prints_trans [] _ _ (sys_close fd w2).2); [apply prints_same, close_law|done].
Qed.

(** [cat] copies its files to the standard output, one after the other. *)
Theorem cat_main_copies fuel prog fs cs w :
  fs ≠ [] → Forall2 (readable fuel) fs cs →
  exits (cat_main fuel (prog :: fs)) (λ w', prints (concat cs) w w') w.
Proof.
  intros Hne Hc. unfold cat_main. rewrite bool_decide_eq_false_2 by (destruct fs; [done|cbn; lia]). by apply exits_after, cat_files_prints.
Qed.

(** ** [echo] *)

Fixpoint echoed (args : list (list Z)) : list Z :=
  match args with
  | [] => []
  | [a] => a ++ [NEWLINE]
  | a :: args => a ++ [SPACE] ++ echoed args
  end.

(** [echo] prints its arguments with single spaces between them and a newline at the
    end, and nothing at all without arguments. *)
Theorem echo_main_prints prog args w : exits (echo_main (prog :: args)) (λ w', prints (echoed args) w w') w.
Proof.
  unfold echo_main. cbn [drop]. apply exits_after. revert w. induction args as [|a args IH]; intros w; [by apply prints_same|].
  cbn [echo_loop]. apply returns_bind. eapply returns_mono; [apply puts_prints|]. intros [] w1 [Hp _].
  eapply returns_mono; [apply IH|]. intros [] w2 Hp2. pose proof (prints_trans _ _ _ _ _ Hp Hp2) as H. clear Hp Hp2.
  change (format (chars "%s%s") [AS a; AS ?b]) with (a ++ b ++ []) in H. rewrite app_nil_r, <- app_assoc in H. by destruct args.
Qed.

(** ** Errors *)

Lemma exits_bind {A B} (m : U W A) (k : A → U W B) Q w : returns m (λ a w', exits (k a) Q w') w → exits (m ≫= k) Q w.
Proof. unfold returns, exits, mbind, U_bind. by destruct (m w). Qed.

Lemma exits_first {A B} (m : U W A) (k : A → U W B) Q w : exits m Q w → exits (m ≫= k) Q w.
Proof. unfold exits, mbind, U_bind. by destruct (m w). Qed.

Lemma exits_call {A B} (f : W → A * W) (k : A → U W B) Q w : exits (k (f w).1) Q (f w).2 → exits (call f ≫= k) Q w.
Proof. done. Qed.

Lemma exits_mono {A} (m : U W A) (P Q : W → Prop) w : exits m P w → (∀ w', P w' → Q w') → exits m Q w.
Proof. unfold exits. destruct (m w); auto. Qed.

(** [cat] stops at the first file that it cannot open: the files before it have been
    copied, and the message, on the standard output, follows them. *)
Theorem cat_main_stops fuel prog fs cs f rest w :
  Forall2 (readable fuel) fs cs → file f = None →
  exits (cat_main fuel (prog :: fs ++ f :: rest)) (λ w', prints (concat cs ++ chars "cat: cannot open " ++ f ++ [NEWLINE]) w w') w.
Proof.
  intros Hc Hf. unfold cat_main. rewrite bool_decide_eq_false_2 by (rewrite length_cons, length_app; cbn [length]; lia). change (drop 1 (prog :: ?l)) with l.
  apply exits_first. revert cs w Hc. induction fs as [|g fs IH]; intros cs w Hc.
  - apply Forall2_nil_inv_l in Hc as ->. cbn [app cat_files concat]. apply exits_call.
    destruct (open_law f w) as [Ho Hopen]. rewrite Hf in Hopen. destruct (sys_open f 0 w) as [fd w1]. cbn [fst snd] in *.
    rewrite bool_decide_eq_true_2 by lia. apply exits_after. eapply returns_mono; [apply puts_prints|]. intros [] w2 [Hp _].
    apply (prints_trans [] _ w w1); [by apply prints_same|]. exact Hp.
  - apply Forall2_cons_inv_l in Hc as (c & cs' & (E & Hl & _) & Hcs & ->). cbn [app cat_files concat]. apply exits_call.
    destruct (open_law g w) as [Ho Hopen]. rewrite E in Hopen. destruct (sys_open g 0 w) as [fd w1]. cbn [fst snd] in *. destruct Hopen as [Hfd Hin].
    rewrite bool_decide_eq_false_2 by lia. apply exits_bind. eapply returns_mono; [apply cat_prints; by rewrite Hin|].
    intros [] w2 Hp. rewrite Hin in Hp. apply exits_call. eapply exits_mono; [by apply (IH cs')|]. intros w3 Hr.
    rewrite <- app_assoc. apply (prints_trans [] _ w w1); [by apply prints_same|]. apply (prints_trans _ _ _ w2); [done|].
    apply (prints_trans [] _ _ (sys_close fd w2).2); [apply prints_same, close_law|done].
Qed.

End Thm.

(** ** Names *)

Lemma after_slash_spec dir name : SLASH ∉ name → after_slash (dir ++ SLASH :: name) = name ∧ after_slash name = name.
Proof.
  intros Hn. split.
  - induction dir as [|c dir IH]; cbn [app after_slash]; [by rewrite bool_decide_eq_false_2, bool_decide_eq_true_2|].
    rewrite bool_decide_eq_true_2; [done|]. apply elem_of_app. right. apply elem_of_cons. by left.
  - destruct name as [|c name]; [done|]. cbn [after_slash]. apply not_elem_of_cons in Hn as [Hc Hn].
    by rewrite !bool_decide_eq_false_2 by done.
Qed.

(** The names that [ls] prints have at least the width of a column, and can be read
    off: the last component of the path, followed by blanks. *)
Lemma fmtname_spec dir name : SLASH ∉ name → (length name ≤ DIRSIZ)%nat →
  fmtname (dir ++ SLASH :: name) = name ++ replicate (DIRSIZ - length name) SPACE ∧ length (fmtname (dir ++ SLASH :: name)) = DIRSIZ.
Proof.
  intros Hn Hl. unfold fmtname. rewrite (proj1 (after_slash_spec dir name Hn)).
  assert (E : (if bool_decide (DIRSIZ ≤ length name)%nat then name else name ++ replicate (DIRSIZ - length name) SPACE) =
    name ++ replicate (DIRSIZ - length name) SPACE).
  { case_bool_decide; [|done]. replace (DIRSIZ - length name)%nat with 0%nat by lia. by rewrite app_nil_r. }
  rewrite E. split; [done|]. rewrite length_app, length_replicate. lia.
Qed.

(** ** [printf] *)

(** The words on the stack for the arguments, with the strings in memory. *)
Inductive passed (fuel : nat) (m : mem) : arg → Z → Prop :=
| passed_int n : - 2 ^ 31 ≤ n < 2 ^ 31 → passed fuel m (AD n) (u32 n)
| passed_str s p : p ≠ 0 → read_str fuel m p = Some s → passed fuel m (AS s) p.

(** The formats of these programs: each [%] is followed by the letter for the next
    argument. *)
Fixpoint fits (pct : bool) (fmt : list Z) (args : list arg) : Prop :=
  match fmt with
  | [] => pct = false ∧ args = []
  | c :: fmt =>
      if negb pct then fits (bool_decide (c = 37)) fmt args
      else match args with
           | AD _ :: args => c = 100 ∧ fits false fmt args
           | AS _ :: args => c = 115 ∧ fits false fmt args
           | [] => False
           end
  end.

(** [format] is what the [printf] of the user library prints. *)
Lemma format_printf fuel m fmt : ∀ args ws pct, fits pct fmt args → Forall2 (passed fuel m) args ws →
  printf_loop fuel m pct fmt ws = Some (format_loop pct fmt args).
Proof.
  induction fmt as [|c fmt IH]; intros args ws pct Hf Hp; cbn [fits printf_loop format_loop] in *; [done|].
  destruct pct; cbn [negb] in *.
  - destruct args as [|x args]; [done|]. apply Forall2_cons_inv_l in Hp as (v & ws' & Hx & Hp & ->).
    destruct Hx as [n Hn|s p Hne Hs]; destruct Hf as [-> Hf].
    + rewrite bool_decide_eq_true_2 by done. rewrite (IH args) by done.
      assert (En : s32 (u32 n) = n) by (unfold s32, u32; rewrite Z.add_mod_idemp_l by lia; rewrite Z.mod_small by lia; lia). by rewrite En.
    + rewrite !bool_decide_eq_false_2 by lia. rewrite bool_decide_eq_true_2 by done. unfold str_arg. rewrite bool_decide_eq_false_2 by done.
      rewrite Hs. cbn [mbind option_bind]. by rewrite (IH args).
  - case_bool_decide; [by apply IH|]. by rewrite (IH args).
Qed.

(** ** A system with three files *)

Record demo_sys : Type := DemoSys { ds_in : Z → list Z; ds_out : Z → list Z; ds_next : Z }.

Definition demo_files (f : list Z) : option (list Z) :=
  if bool_decide (f = chars "a") then Some (chars "one two" ++ [NEWLINE] ++ chars "three")
  else if bool_decide (f = chars "b") then Some (chars " x" ++ [NEWLINE]) else None.

(** [read] gives two bytes at most. *)
#[global] Instance demo_sys_calls : Sys demo_sys := {|
  sys_read fd n s := let b := take (Nat.min 2 (Z.to_nat n)) (ds_in s fd) in
    ((Z.of_nat (length b), b), DemoSys (<[fd := drop (Nat.min 2 (Z.to_nat n)) (ds_in s fd)]> (ds_in s)) (ds_out s) (ds_next s));
  sys_write fd l s := (Z.of_nat (length l), DemoSys (ds_in s) (<[fd := ds_out s fd ++ l]> (ds_out s)) (ds_next s));
  sys_open f m s := match demo_files f with
    | Some c => (Z.max 3 (ds_next s), DemoSys (<[Z.max 3 (ds_next s) := c]> (ds_in s)) (ds_out s) (Z.max 3 (ds_next s) + 1))
    | None => (-1, s) end;
  sys_close fd s := (0, s); sys_fstat fd s := ((-1, Stat 0 0 0 0 0), s); sys_link f g s := (-1, s); sys_unlink f s := (-1, s);
  sys_mkdir f s := (-1, s); sys_mknod f a b s := (-1, s); sys_chdir f s := (-1, s); sys_dup fd s := (-1, s); sys_kill p s := (-1, s);
  sys_sleep n s := (0, s); sys_fork s := (-1, s); sys_wait s := (-1, s); sys_exec f a s := (-1, s)
|}.

#[global] Instance demo_sys_laws : SysLaws demo_sys.
Proof.
  refine {| input := ds_in; output := ds_out; file := demo_files |}.
  - intros fd n w Hn. cbn [sys_read demo_sys_calls fst snd ds_in ds_out]. split_and!; [done|rewrite length_take; lia| | |done].
    + by rewrite fn_lookup_insert, take_drop.
    + intros Hne. destruct (ds_in w fd); [done|]. by replace (Nat.min 2 (Z.to_nat n)) with (S (Nat.min 1 (Z.to_nat n - 1))) by lia.
  - intros fd l w. cbn. split_and!; [done|by rewrite fn_lookup_insert| |done]. intros d Hd. by rewrite fn_lookup_insert_ne.
  - intros f w. cbn. destruct (demo_files f); cbn; [|by split]. split; [done|]. split; [lia|]. by rewrite fn_lookup_insert.
  - done.
Defined.

Lemma wc_main_counts_witness :
  exits (wc_main 20 [chars "wc"; chars "a"; chars "b"])
    (λ w', ds_out w' 1 = chars "1 3 13 a" ++ [NEWLINE] ++ chars "1 1 3 b" ++ [NEWLINE]) (DemoSys (λ _, []) (λ _, []) 0).
Proof.
  eapply exits_mono.
  - apply (wc_main_counts 20 (chars "wc") [chars "a"; chars "b"] [chars "one two" ++ [NEWLINE] ++ chars "three"; chars " x" ++ [NEWLINE]]
      (DemoSys (λ _, []) (λ _, []) 0)); [discriminate|repeat constructor; cbn; lia].
  - intros w' [E _]. exact E.
Defined.

End UserThm.
