(* ===== verification/Pipe.v ===== *)
(** * Pipes

    [pipewrite], [piperead] and [pipeclose] of [src/pipe.c].  A call holds the
    lock of the pipe except while it sleeps, so it is a sequence of segments:
    each runs from the point where the call has the lock to the point where it
    returns or sleeps.  Readers, writers and closers are interleaved segment by
    segment. *)

From S2P Require Import Prelude.

Definition PIPESIZE : Z := 512.

(** [struct pipe]; the lock is implicit in the segments. *)
Record pipe : Type := Pipe {
  data : list Z;
  nread : Z;
  nwrite : Z;
  readopen : Z;
  writeopen : Z;
}.

(** [pipealloc] fills in a page from the allocator, whose bytes are arbitrary. *)
Definition pipe_init (page : list Z) : pipe := Pipe page 0 0 1 1.

(** The channels a segment wakes. *)
Inductive wake : Type := WakeReaders | WakeWriters.

(** [p->data[p->nwrite++ % PIPESIZE] = b;] *)
Definition put (b : Z) (p : pipe) : pipe :=
  Pipe (<[Z.to_nat (nwrite p mod PIPESIZE) := b]> (data p)) (nread p) (u32 (nwrite p + 1))
       (readopen p) (writeopen p).

(** [p->data[p->nread++ % PIPESIZE]] *)
Definition take1 (p : pipe) : Z * pipe :=
  (default 0 (data p !! Z.to_nat (nread p mod PIPESIZE)),
   Pipe (data p) (u32 (nread p + 1)) (nwrite p) (readopen p) (writeopen p)).

Definition pipe_full (p : pipe) : bool := bool_decide (nwrite p = u32 (nread p + PIPESIZE)).
Definition pipe_empty (p : pipe) : bool := bool_decide (nread p = nwrite p).

Inductive wres : Type :=
| WReturn (r : Z)
| WSleep (i : nat).

(** The loop of [pipewrite] from byte [i] on; [rest] are the bytes from there
    to [n], [killed] is [mythread()->killed]. *)
Fixpoint pipewrite_loop (killed : bool) (n : Z) (rest : list Z) (i : nat) (p : pipe) :
    pipe * option wake * wres :=
  match rest with
  | [] => (p, Some WakeReaders, WReturn n)
  | b :: rest' =>
      if pipe_full p then
        if bool_decide (readopen p = 0) || killed then (p, None, WReturn (-1))
        else (p, Some WakeReaders, WSleep i)
      else pipewrite_loop killed n rest' (S i) (put b p)
  end.

(** [pipewrite(p, addr, n)] when it gets the lock, at byte [i]. *)
Definition pipewrite (killed : bool) (addr : list Z) (i : nat) (p : pipe) :
    pipe * option wake * wres :=
  pipewrite_loop killed (Z.of_nat (length addr)) (drop i addr) i p.

Fixpoint piperead_copy (n : nat) (p : pipe) : list Z * pipe :=
  match n with
  | O => ([], p)
  | S n =>
      if pipe_empty p then ([], p)
      else
        let '(b, p1) := take1 p in
        let '(l, p2) := piperead_copy n p1 in (b :: l, p2)
  end.

Inductive rres : Type :=
| RReturn (r : Z) (got : list Z)
| RSleep.

Definition piperead (killed : bool) (n : nat) (p : pipe) : pipe * option wake * rres :=
  if pipe_empty p && bool_decide (writeopen p ≠ 0) then
    if killed then (p, None, RReturn (-1) [])
    else (p, None, RSleep)
  else
    let '(l, p') := piperead_copy n p in
    (p', Some WakeWriters, RReturn (Z.of_nat (length l)) l).

(** [pipeclose]; the second component says that the page is freed. *)
Definition pipeclose (writable : bool) (p : pipe) : pipe * option wake * bool :=
  let p' := if writable then Pipe (data p) (nread p) (nwrite p) (readopen p) 0
            else Pipe (data p) (nread p) (nwrite p) 0 (writeopen p) in
  (p', Some (if writable then WakeReaders else WakeWriters),
   bool_decide (readopen p' = 0) && bool_decide (writeopen p' = 0)).

(** ** The pipe as a queue *)

(** Number of bytes in the pipe, and the bytes, oldest first. *)
Definition plen (p : pipe) : Z := u32 (nwrite p - nread p).

Definition contents (p : pipe) : list Z :=
  (λ k, default 0 (data p !! Z.to_nat ((nread p + Z.of_nat k) mod PIPESIZE))) <$>
    seq 0 (Z.to_nat (plen p)).

Record pipe_wf (p : pipe) : Prop := PipeWf {
  pw_data : length (data p) = Z.to_nat PIPESIZE;
  pw_nread : 0 ≤ nread p < 2 ^ 32;
  pw_nwrite : 0 ≤ nwrite p < 2 ^ 32;
  pw_len : plen p ≤ PIPESIZE;
}.

Lemma u32_mod_512 x : u32 x mod PIPESIZE = x mod PIPESIZE.
Proof.
  unfold u32, PIPESIZE. symmetry. change (2 ^ 32) with (512 * 8388608).
  rewrite Z.rem_mul_r by lia. rewrite (Z.mul_comm 512), Z_mod_plus_full. by rewrite Zmod_mod.
Qed.

Lemma plen_range p : 0 ≤ plen p < 2 ^ 32.
Proof. apply u32_range. Qed.

Lemma pipe_full_spec p : pipe_wf p → pipe_full p = bool_decide (plen p = PIPESIZE).
Proof.
  intros Hp. unfold pipe_full. apply bool_decide_ext. unfold plen.
  pose proof (pw_nwrite _ Hp). unfold PIPESIZE. split; intros E.
  - rewrite E. autorewrite with u32. replace (nread p + 512 - nread p) with 512 by lia. done.
  - rewrite <- (u32_small (nwrite p)) by done. rewrite <- E. autorewrite with u32. f_equal. lia.
Qed.

Lemma pipe_empty_spec p : pipe_wf p → pipe_empty p = bool_decide (plen p = 0).
Proof.
  intros Hp. unfold pipe_empty. apply bool_decide_ext. unfold plen.
  pose proof (pw_nwrite _ Hp). pose proof (pw_nread _ Hp). unfold u32. split; intros E.
  - rewrite E, Z.sub_diag. done.
  - apply Z.mod_divide in E as [k Hk]; [|lia]. assert (k = 0) by lia. lia.
Qed.

Lemma plen_put b p : pipe_wf p → plen p < PIPESIZE → plen (put b p) = plen p + 1.
Proof.
  intros Hp Hl. unfold plen, put. simpl. autorewrite with u32.
  replace (nwrite p + 1 - nread p) with (nwrite p - nread p + 1) by lia.
  rewrite <- u32_add_l. apply u32_small. pose proof (plen_range p). unfold plen, PIPESIZE in *. lia.
Qed.

Lemma plen_take p : pipe_wf p → 0 < plen p → plen (take1 p).2 = plen p - 1.
Proof.
  intros Hp Hl. unfold plen, take1. simpl. autorewrite with u32.
  replace (nwrite p - (nread p + 1)) with (nwrite p - nread p - 1) by lia.
  rewrite <- u32_sub_l. apply u32_small. pose proof (plen_range p). unfold plen in *. lia.
Qed.

Lemma put_wf b p : pipe_wf p → plen p < PIPESIZE → pipe_wf (put b p).
Proof.
  intros Hp Hl. split; [|apply Hp|apply u32_range|rewrite plen_put by done; lia].
  simpl. rewrite length_insert. apply Hp.
Qed.

Lemma take_wf p : pipe_wf p → 0 < plen p → pipe_wf (take1 p).2.
Proof.
  intros Hp Hl. split; [apply Hp|apply u32_range|apply Hp|].
  rewrite plen_take by done. pose proof (pw_len _ Hp). lia.
Qed.

Lemma nwrite_mod p : pipe_wf p → nwrite p mod PIPESIZE = (nread p + plen p) mod PIPESIZE.
Proof.
  intros Hp. unfold plen. rewrite <- (u32_mod_512 (nread p + _)). autorewrite with u32.
  rewrite u32_mod_512. f_equal. lia.
Qed.

Lemma mod_inj_range a x y :
  0 ≤ x < PIPESIZE → 0 ≤ y < PIPESIZE → (a + x) mod PIPESIZE = (a + y) mod PIPESIZE → x = y.
Proof.
  unfold PIPESIZE. intros Hx Hy E.
  pose proof (Z.div_mod (a + x) 512). pose proof (Z.div_mod (a + y) 512). lia.
Qed.

Lemma contents_put b p : pipe_wf p → plen p < PIPESIZE → contents (put b p) = contents p ++ [b].
Proof.
  intros Hp Hl. pose proof (plen_range p) as Hr. unfold contents at 1. rewrite plen_put by done.
  rewrite Z2Nat.inj_add, Nat.add_1_r, seq_S, fmap_app by lia. simpl. f_equal.
  - apply list_fmap_ext. intros i k Hk. apply lookup_seq in Hk as [-> Hk]. simpl.
    rewrite list_lookup_insert_ne; [done|]. rewrite nwrite_mod by done. intros E.
    apply Z2Nat.inj in E; [|apply Z.mod_pos_bound; unfold PIPESIZE; lia..].
    apply mod_inj_range in E; [lia|unfold PIPESIZE in *; lia..].
  - f_equal. rewrite Z2Nat.id by lia. rewrite <- nwrite_mod by done.
    rewrite list_lookup_insert_eq; [done|]. rewrite (pw_data _ Hp).
    pose proof (Z.mod_pos_bound (nwrite p) PIPESIZE). unfold PIPESIZE in *. lia.
Qed.

Lemma contents_take p :
  pipe_wf p → 0 < plen p → contents p = (take1 p).1 :: contents (take1 p).2.
Proof.
  intros Hp Hl. unfold contents at 1. replace (Z.to_nat (plen p)) with (S (Z.to_nat (plen p - 1))) by lia.
  simpl seq. rewrite fmap_cons. f_equal; [by rewrite Z.add_0_r|].
  unfold contents. rewrite plen_take by done. rewrite <- fmap_S_seq, <- list_fmap_compose.
  apply list_fmap_ext. intros i k _. simpl. do 3 f_equal.
  rewrite <- (u32_mod_512 (u32 _ + _)). autorewrite with u32. rewrite u32_mod_512. f_equal. lia.
Qed.

Lemma length_contents p : Z.of_nat (length (contents p)) = plen p.
Proof. unfold contents. rewrite length_fmap, length_seq. pose proof (plen_range p). lia. Qed.

Lemma contents_nil p : pipe_wf p → plen p = 0 ↔ contents p = [].
Proof.
  intros Hp. rewrite <- length_contents. split; [|by intros ->].
  intros E. apply nil_length_inv. lia.
Qed.

(** What is unchanged when bytes come and go. *)
Definition same_ends (p p' : pipe) : Prop := readopen p' = readopen p ∧ writeopen p' = writeopen p.

(** A segment of [pipewrite] appends a prefix of its bytes. *)
Lemma pipewrite_loop_spec killed n rest i p p' w r :
  pipe_wf p → pipewrite_loop killed n rest i p = (p', w, r) →
  ∃ k, (k ≤ length rest)%nat ∧ pipe_wf p' ∧ same_ends p p' ∧
    contents p' = contents p ++ take k rest ∧
    match r with
    | WReturn x => k = length rest ∧ x = n ∧ w = Some WakeReaders ∨
                   (k < length rest)%nat ∧ x = -1 ∧ w = None ∧ plen p' = PIPESIZE ∧
                   (readopen p = 0 ∨ killed = true)
    | WSleep j => (k < length rest)%nat ∧ j = (i + k)%nat ∧ w = Some WakeReaders ∧
                  plen p' = PIPESIZE ∧ readopen p ≠ 0
    end.
Proof.
  revert i p. induction rest as [|b rest IH]; intros i p Hp; simpl.
  - intros [= <- <- <-]. exists 0%nat. rewrite app_nil_r. split_and!; try done; [apply Hp..|]. auto.
  - rewrite pipe_full_spec by done. case_bool_decide as Hfull.
    + destruct (bool_decide (readopen p = 0) || killed) eqn:Hc; intros [= <- <- <-];
        exists 0%nat; simpl; rewrite app_nil_r; (split; [lia|]); (split; [done|]); (split; [done|]);
        (split; [done|]).
      * right. split_and!; try done; [lia|].
        apply orb_true_iff in Hc as [Hc%bool_decide_eq_true| ->]; auto.
      * apply orb_false_iff in Hc as [Hc%bool_decide_eq_false _]. split_and!; try done; lia.
    + assert (Hlt : plen p < PIPESIZE) by (pose proof (pw_len _ Hp); lia).
      intros (k & Hk & Hp' & He & Hcont & Hr)%IH; [|by apply put_wf].
      rewrite contents_put, <- app_assoc in Hcont by done.
      exists (S k). simpl. split; [lia|]. split_and!; [done|exact He|done|].
      destruct r as [x|j].
      * destruct Hr as [(-> & -> & ->)|(? & -> & -> & ? & ?)]; [left|right]; split_and!; auto; lia.
      * destruct Hr as (? & -> & -> & ? & ?). split_and!; auto; lia.
Qed.

Lemma piperead_copy_spec n p l p' :
  pipe_wf p → piperead_copy n p = (l, p') →
  pipe_wf p' ∧ same_ends p p' ∧ contents p = l ++ contents p' ∧ (length l ≤ n)%nat ∧
  ((length l < n)%nat → contents p' = []).
Proof.
  revert p l. induction n as [|n IH]; intros p l Hp; simpl.
  - intros [= <- <-]. split_and!; try done; apply Hp || (simpl; lia).
  - rewrite pipe_empty_spec by done. case_bool_decide as He.
    + intros [= <- <-]. apply (contents_nil p Hp) in He as Hnil. simpl.
      split_and!; try done; [apply Hp..|lia].
    + destruct (piperead_copy n _) as [l2 p2] eqn:E. intros [= <- <-].
      assert (Hpos : 0 < plen p) by (pose proof (plen_range p); lia).
      destruct (IH _ _ (take_wf p Hp Hpos) E) as (Hp2 & He2 & Hc & Hl & Hx).
      rewrite contents_take, Hc by done. simpl. split_and!; try done; [apply Hp2..|lia|].
      intros Hlt. apply Hx. lia.
Qed.

Lemma pipewrite_loop_nread killed n rest i p p' w r :
  pipewrite_loop killed n rest i p = (p', w, r) → nread p' = nread p.
Proof.
  revert i p. induction rest as [|b rest IH]; intros i p; simpl.
  - by intros [= <- _ _].
  - destruct (pipe_full p); [|by intros ->%IH].
    destruct (bool_decide _ || killed); by intros [= <- _ _].
Qed.

(** ** Readers, writers and closers *)

Inductive thr : Type :=
| Writer (addr : list Z) (i : nat) (asleep : bool)
| Reader (n : nat) (asleep : bool)
| Closer (writable : bool)
| Finished (r : Z).

(** [stored] and [fetched] record the bytes that went in and came out. *)
Record state : Type := State {
  pp : pipe;
  thrs : list thr;
  stored : list Z;
  fetched : list Z;
}.

Definition wake_thr (w : option wake) (t : thr) : thr :=
  match w, t with
  | Some WakeReaders, Reader n _ => Reader n false
  | Some WakeWriters, Writer addr i _ => Writer addr i false
  | _, _ => t
  end.

(** The segment of a thread that is not asleep: the new pipe, whom it wakes, the
    thread afterwards, and the bytes stored and fetched. *)
Definition segment (killed : bool) (t : thr) (p : pipe) :
    option (pipe * option wake * thr * list Z * list Z) :=
  match t with
  | Writer addr i false =>
      let '(p', w, r) := pipewrite killed addr i p in
      let k := Z.to_nat (u32 (nwrite p' - nwrite p)) in
      Some (p', w, match r with WReturn x => Finished x | WSleep j => Writer addr j true end,
            take k (drop i addr), [])
  | Reader n false =>
      let '(p', w, r) := piperead killed n p in
      Some (match r with
            | RReturn x l => (p', w, Finished x, [], l)
            | RSleep => (p', w, Reader n true, [], [])
            end)
  | Closer writable =>
      let '(p', w, _) := pipeclose writable p in Some (p', w, Finished 0, [], [])
  | _ => None
  end.

(** A thread that sleeps is made runnable, as [kill] does. *)
Definition rouse (t : thr) : thr :=
  match t with
  | Writer addr i _ => Writer addr i false
  | Reader n _ => Reader n false
  | t => t
  end.

(** Thread [k] runs a segment, or is made runnable by [kill]; [killed] is its flag
    in the segment. *)
Inductive step (k : nat) (killed : bool) : state → state → Prop :=
| step_segment s t p' w t' ws rs :
    thrs s !! k = Some t → segment killed t (pp s) = Some (p', w, t', ws, rs) →
    step k killed s (State p' (<[k := t']> (wake_thr w <$> thrs s)) (stored s ++ ws) (fetched s ++ rs))
| step_rouse s :
    step k killed s (State (pp s) (alter rouse k (thrs s)) (stored s) (fetched s)).

Definition any_step (s s' : state) : Prop := ∃ k killed, step k killed s s'.

(** A new pipe with callers that have not run yet. *)
Definition started (s : state) : Prop :=
  ∃ page, length page = Z.to_nat PIPESIZE ∧ pp s = pipe_init page ∧ stored s = [] ∧ fetched s = [] ∧
    Forall (λ t, match t with Writer _ i a => i = 0%nat ∧ a = false | Reader _ a => a = false
                 | Closer _ => True | Finished _ => False end) (thrs s).

Lemma init_wf page : length page = Z.to_nat PIPESIZE → pipe_wf (pipe_init page).
Proof. intros Hl. split; simpl; [done|lia|lia|unfold PIPESIZE; simpl; done]. Qed.

Definition queue_inv (s : state) : Prop :=
  pipe_wf (pp s) ∧ stored s = fetched s ++ contents (pp s).

Lemma stored_count p p' k :
  pipe_wf p → pipe_wf p' → nread p' = nread p → plen p' = plen p + Z.of_nat k →
  Z.to_nat (u32 (nwrite p' - nwrite p)) = k.
Proof.
  intros Hp Hp' Hn Hk.
  replace (nwrite p' - nwrite p) with ((nwrite p' - nread p') - (nwrite p - nread p)) by lia.
  rewrite <- u32_sub_l, <- u32_sub_r. fold (plen p') (plen p). rewrite Hk.
  replace (plen p + Z.of_nat k - plen p) with (Z.of_nat k) by lia.
  rewrite u32_small; [lia|]. pose proof (plen_range p). pose proof (pw_len _ Hp').
  unfold PIPESIZE in *. lia.
Qed.

(** What a segment does to the queue. *)
Lemma segment_queue killed t p p' w t' ws rs :
  pipe_wf p → segment killed t p = Some (p', w, t', ws, rs) →
  pipe_wf p' ∧ contents p ++ ws = rs ++ contents p'.
Proof.
  intros Hp. destruct t as [addr i [] | n [] | writable | r]; simpl; try done.
  - destruct (pipewrite killed addr i p) as [[p1 w1] r1] eqn:E. intros [= <- <- <- <- <-].
    pose proof (pipewrite_loop_nread _ _ _ _ _ _ _ _ E) as Hn.
    destruct (pipewrite_loop_spec _ _ _ _ _ _ _ _ Hp E) as (k & Hk & Hp1 & _ & Hc & _).
    split; [done|]. rewrite Hc, (stored_count p p1 k); try done.
    rewrite <- !length_contents, Hc, length_app, length_take. lia.
  - unfold piperead. destruct (pipe_empty p && _) eqn:He.
    + destruct killed; intros [= <- <- <- <- <-]; by rewrite app_nil_r.
    + destruct (piperead_copy n p) as [l p1] eqn:E. intros [= <- <- <- <- <-].
      destruct (piperead_copy_spec _ _ _ _ Hp E) as (Hp1 & _ & Hc & _). by rewrite app_nil_r.
  - intros [= <- <- <- <- <-]. rewrite app_nil_r. by destruct writable; split; destruct Hp.
Qed.

Lemma queue_inv_step s s' : any_step s s' → queue_inv s → queue_inv s'.
Proof.
  intros (k & killed & [s0 t p' w t' ws rs Ht Hseg|s0]) [Hp Hq]; [|by split].
  destruct (segment_queue _ _ _ _ _ _ _ _ Hp Hseg) as [Hp' Hc]. split; [done|]. simpl.
  by rewrite Hq, <- !app_assoc, Hc.
Qed.

Lemma queue_inv_started s : started s → queue_inv s.
Proof.
  intros (page & Hl & Hp & Hs & Hf & _). unfold queue_inv. rewrite Hp, Hs, Hf.
  split; [by apply init_wf|]. done.
Qed.

(** C24: however many readers and writers use a pipe, and however their segments
    interleave, the bytes that came out followed by the bytes in the pipe are the
    bytes that went in, in order, and the pipe holds at most [PIPESIZE] of them;
    the counters may wrap around on the way. *)
Theorem pipe_is_fifo s s' :
  started s → rtc any_step s s' →
  stored s' = fetched s' ++ contents (pp s') ∧ (length (contents (pp s')) ≤ Z.to_nat PIPESIZE)%nat.
Proof.
  intros Hs Hr. destruct (rtc_invariant _ _ _ _ queue_inv_step Hr (queue_inv_started s Hs)) as [Hp Hq].
  split; [done|]. pose proof (pw_len _ Hp). pose proof (length_contents (pp s')).
  unfold PIPESIZE in *. lia.
Qed.

(** *** Wakeups *)

(** A thread sleeps only while it has reason to: a reader while the pipe is empty
    and can still be written, a writer while it is full and can still be read. *)
Definition justified (p : pipe) (t : thr) : Prop :=
  match t with
  | Reader _ true => (plen p = 0 ∧ writeopen p ≠ 0) ∨ readopen p = 0
  | Writer _ _ true => plen p = PIPESIZE ∧ readopen p ≠ 0
  | _ => True
  end.

Definition wake_inv (s : state) : Prop := pipe_wf (pp s) ∧ Forall (justified (pp s)) (thrs s).

(** A segment of a thread that is not killed leaves itself justified, and every
    sleeping thread that it does not wake. *)
Lemma segment_justified t p p' w t' ws rs :
  pipe_wf p → segment false t p = Some (p', w, t', ws, rs) →
  justified p' t' ∧ ∀ u, justified p u → justified p' (wake_thr w u).
Proof.
  intros Hp. destruct t as [addr i [] | n [] | writable | r]; simpl; try done.
  - destruct (pipewrite false addr i p) as [[p1 w1] r1] eqn:E. intros [= <- <- <- <- <-].
    destruct (pipewrite_loop_spec _ _ _ _ _ _ _ _ Hp E) as (k & Hk & Hp1 & [He1 He2] & Hc & Hr).
    assert (Hlen : plen p1 = plen p + Z.of_nat k).
    { rewrite <- !length_contents, Hc, length_app, length_take. lia. }
    pose proof (pw_len _ Hp1). pose proof (plen_range p).
    destruct r1 as [x|j]; simpl.
    + split; [done|]. intros [a i' []|n []|b|r]; destruct w1 as [[]|]; simpl; try done;
        rewrite ?He1, ?He2; try naive_solver lia.
    + destruct Hr as (? & -> & -> & Hfull & Hro). split; [by rewrite He1|].
      intros [a i' []|n []|b|r]; simpl; try done. rewrite He1. naive_solver.
  - unfold piperead. rewrite pipe_empty_spec by done.
    destruct (bool_decide (plen p = 0) && bool_decide (writeopen p ≠ 0)) eqn:He.
    + intros [= <- <- <- <- <-]. apply andb_true_iff in He as [H1 H2].
      apply bool_decide_eq_true in H1. apply bool_decide_eq_true in H2. simpl. auto.
    + destruct (piperead_copy n p) as [l p1] eqn:E. intros [= <- <- <- <- <-].
      destruct (piperead_copy_spec _ _ _ _ Hp E) as (Hp1 & [He1 He2] & Hc & _). split; [done|].
      intros [a i' []|n' []|b|r]; simpl; try done. rewrite He1, He2.
      intros [[H1 H2]|H1]; [|by right]. exfalso.
      by rewrite !bool_decide_eq_true_2 in He by done.
  - intros [= <- <- <- <- <-]. split; [done|].
    destruct writable; intros [a i' []|n' []|b|r]; simpl; try done; auto.
Qed.

Lemma wake_inv_step k s s' : step k false s s' → wake_inv s → wake_inv s'.
Proof.
  intros [s0 t p' w t' ws rs Ht Hseg|s0] [Hp Hw].
  2:{ split; [done|]. cbn [thrs pp]. rewrite Forall_lookup in Hw |- *. intros i u.
      destruct (decide (i = k)) as [->|Hne]; [|rewrite list_lookup_alter_ne by done; apply Hw].
      rewrite list_lookup_alter_eq. by destruct (thrs s0 !! k) as [[]|]; intros [= <-]. }
  destruct (segment_queue _ _ _ _ _ _ _ _ Hp Hseg) as [Hp' _].
  destruct (segment_justified _ _ _ _ _ _ _ Hp Hseg) as [Hj Ho]. split; [done|]. simpl.
  apply Forall_insert; [|done]. apply Forall_fmap. eapply Forall_impl; [exact Hw|]. intros u. apply Ho.
Qed.

Lemma wake_inv_started s : started s → wake_inv s.
Proof.
  intros (page & Hl & Hp & _ & _ & Hf). unfold wake_inv. rewrite Hp. split; [by apply init_wf|].
  eapply Forall_impl; [exact Hf|]. intros [a i b|n b|b|r]; simpl; naive_solver.
Qed.

(** C25: as long as no caller of the pipe runs with its [killed] flag set, no wakeup is
    lost: in every state reached by interleaved segments and by wakeups of [kill], a
    reader is asleep only if the pipe is empty and its write end open, or else the
    read end has been closed under it; and a writer only if the pipe is full and its
    read end open. *)
Theorem pipe_no_lost_wakeup s s' :
  started s → rtc (λ x y, ∃ k, step k false x y) s s' →
  (∀ k n, thrs s' !! k = Some (Reader n true) →
     contents (pp s') = [] ∧ writeopen (pp s') ≠ 0 ∨ readopen (pp s') = 0) ∧
  (∀ k addr i, thrs s' !! k = Some (Writer addr i true) →
     length (contents (pp s')) = Z.to_nat PIPESIZE ∧ readopen (pp s') ≠ 0).
Proof.
  intros Hs Hr. assert (Hinv : wake_inv s').
  { eapply (rtc_invariant _ wake_inv); [|exact Hr|by apply wake_inv_started].
    intros x y [k Hk]. by eapply wake_inv_step. }
  destruct Hinv as [Hp Hw]. rewrite Forall_lookup in Hw. split.
  - intros k n Hk. apply Hw in Hk as [[H1 H2]|H1]; [left|by right]. split; [|done].
    by apply contents_nil.
  - intros k addr i Hk. apply Hw in Hk as [H1 H2]. split; [|done].
    pose proof (length_contents (pp s')). lia.
Qed.

(** *** Executions *)

(** The state after thread [k] ran a segment. *)
Definition after (killed : bool) (k : nat) (s : state) : option state :=
  t ← thrs s !! k;
  '(p', w, t', ws, rs) ← segment killed t (pp s);
  Some (State p' (<[k := t']> (wake_thr w <$> thrs s)) (stored s ++ ws) (fetched s ++ rs)).

Lemma after_step killed k s s' : after killed k s = Some s' → step k killed s s'.
Proof.
  unfold after. destruct (thrs s !! k) as [t|] eqn:Ht; [|done]. simpl.
  destruct (segment killed t (pp s)) as [[[[[p' w] t'] ws] rs]|] eqn:E; [|done]. simpl.
  intros [= <-]. by eapply step_segment.
Qed.

Definition ok {A} (P : A → bool) (o : option A) : bool :=
  match o with Some x => P x | None => false end.

Lemma ok_Some {A} (P : A → bool) o : ok P o = true → ∃ x, o = Some x ∧ P x = true.
Proof. destruct o; simpl; eauto. done. Qed.

(** A reader waits, and a killed writer has more bytes than fit. *)
Definition strand_start : state :=
  State (pipe_init (replicate 512 0)) [Reader 1 false; Writer (replicate 513 7) 0 false] [] [].

Definition stranded (s : state) : bool :=
  match thrs s with
  | [Reader 1 true; Finished r] => bool_decide (r = -1)
  | _ => false
  end && bool_decide (readopen (pp s) = 1) && bool_decide (contents (pp s) ≠ []).

Lemma stranded_run s0 :
  ok stranded (after false 0 s0 ≫= after true 1) = true →
  ∃ s', rtc any_step s0 s' ∧ contents (pp s') ≠ [] ∧ readopen (pp s') = 1 ∧
    thrs s' = [Reader 1 true; Finished (-1)].
Proof.
  intros (s' & He & Hs)%ok_Some. apply bind_Some in He as (s1 & H1 & H2). exists s'. split.
  - eapply rtc_l; [|eapply rtc_l; [|apply rtc_refl]].
    + exists 0%nat, false. exact (after_step _ _ _ _ H1).
    + exists 1%nat, true. exact (after_step _ _ _ _ H2).
  - clear H1 H2. unfold stranded in Hs. apply andb_true_iff in Hs as [Hs H3].
    apply andb_true_iff in Hs as [H1 H2]. apply bool_decide_eq_true in H2, H3.
    split_and!; [done..|].
    destruct (thrs s') as [|[|[|[|]] []| |] [|[| | |r] []]]; try done. apply bool_decide_eq_true in H1.
    by subst r.
Qed.

(** A writer that is killed can strand a reader: it fills the pipe of a
    sleeping reader and returns -1 without waking it. *)
Theorem pipe_killed_writer_strands_reader :
  ∃ s s', started s ∧ rtc any_step s s' ∧ contents (pp s') ≠ [] ∧ readopen (pp s') = 1 ∧
    thrs s' = [Reader 1 true; Finished (-1)].
Proof.
  destruct (stranded_run strand_start) as (s' & Hs'); [vm_compute; reflexivity|].
  exists strand_start, s'. split; [|exact Hs'].
  exists (replicate 512 0). split_and!; [reflexivity..|]. repeat constructor.
Qed.

(** The same happens without a kill when another thread of the process closes the
    read end: the writer returns -1 and the reader sleeps beside a full pipe. *)
Definition closed_start : state :=
  State (pipe_init (replicate 512 0)) [Reader 1 false; Closer false; Writer (replicate 513 7) 0 false] [] [].

Definition closed_stranded (s : state) : bool :=
  match thrs s with
  | [Reader 1 true; Finished _; Finished r] => bool_decide (r = -1)
  | _ => false
  end && bool_decide (length (contents (pp s)) = 512%nat).

Lemma closed_run s0 :
  ok closed_stranded ((after false 0 s0 ≫= after false 1) ≫= after false 2) = true →
  ∃ s', rtc (λ x y, ∃ k, step k false x y) s0 s' ∧ thrs s' !! 0%nat = Some (Reader 1 true) ∧
    length (contents (pp s')) = 512%nat.
Proof.
  intros (s' & He & Hs)%ok_Some. apply bind_Some in He as (s2 & He & H3). apply bind_Some in He as (s1 & H1 & H2). exists s'. split.
  - apply (rtc_l _ _ s1); [|apply (rtc_l _ _ s2); [|apply rtc_once]].
    + exists 0%nat. exact (after_step _ _ _ _ H1).
    + exists 1%nat. exact (after_step _ _ _ _ H2).
    + exists 2%nat. exact (after_step _ _ _ _ H3).
  - clear H1 H2 H3. unfold closed_stranded in Hs. apply andb_true_iff in Hs as [Hs Hl]. apply bool_decide_eq_true in Hl.
    split; [|exact Hl]. by destruct (thrs s') as [|[|[|[|]] []| |] ?].
Qed.

Theorem pipe_closed_reader_sleeps :
  ∃ s s', started s ∧ rtc (λ x y, ∃ k, step k false x y) s s' ∧ thrs s' !! 0%nat = Some (Reader 1 true) ∧
    length (contents (pp s')) = 512%nat.
Proof.
  destruct (closed_run closed_start) as (s' & Hs'); [vm_compute; reflexivity|].
  exists closed_start, s'. split; [|exact Hs'].
  exists (replicate 512 0). split_and!; [reflexivity..|]. repeat constructor.
Qed.

(** *** Examples *)

(** A writer that has to wait for a reader: 600 bytes through a 512-byte pipe. *)
Definition demo_start : state :=
  State (pipe_init (replicate 512 0)) [Writer (Z.of_nat <$> seq 0 600) 0 false; Reader 200 false] [] [].

Lemma demo_started : started demo_start.
Proof. exists (replicate 512 0). split_and!; [reflexivity..|]. repeat constructor. Qed.

Definition demo_after (k : nat) (s : state) : state := default s (after false k s).

Lemma demo_after_step k s : ok (λ _, true) (after false k s) = true → step k false s (demo_after k s).
Proof. unfold demo_after. intros (s' & E & _)%ok_Some. rewrite E. by apply after_step. Qed.

Definition demo_mid : state := demo_after 0 demo_start.
Definition demo_end : state := demo_after 0 (demo_after 1 demo_mid).

Lemma demo_mid_path : rtc (λ x y, ∃ k, step k false x y) demo_start demo_mid.
Proof.
  apply rtc_once. exists 0%nat. apply (demo_after_step 0 demo_start). vm_compute. reflexivity.
Qed.

Lemma demo_path : rtc any_step demo_start demo_end.
Proof.
  apply (rtc_l _ _ demo_mid); [|apply (rtc_l _ _ (demo_after 1 demo_mid)); [|apply rtc_once]].
  - exists 0%nat, false. apply (demo_after_step 0 demo_start). vm_compute. reflexivity.
  - exists 1%nat, false. apply (demo_after_step 1 demo_mid). vm_compute. reflexivity.
  - exists 0%nat, false. apply (demo_after_step 0 (demo_after 1 demo_mid)). vm_compute. reflexivity.
Qed.

Lemma pipe_is_fifo_witness :
  stored demo_end = fetched demo_end ++ contents (pp demo_end) ∧
  length (stored demo_end) = 600%nat ∧ length (fetched demo_end) = 200%nat.
Proof.
  split; [|split; vm_compute; reflexivity].
  exact (proj1 (pipe_is_fifo demo_start demo_end demo_started demo_path)).
Defined.

Definition first_writer_asleep (s : state) : bool :=
  ok (λ t, match t with Writer _ _ true => true | _ => false end) (thrs s !! 0%nat).

Lemma first_writer_asleep_spec s :
  first_writer_asleep s = true → ∃ addr i, thrs s !! 0%nat = Some (Writer addr i true).
Proof. intros ([addr i []| | |] & Hx & Hb)%ok_Some; try done. eauto. Qed.

Lemma demo_mid_asleep : ∃ addr i, thrs demo_mid !! 0%nat = Some (Writer addr i true).
Proof. apply first_writer_asleep_spec. vm_compute. reflexivity. Qed.

Lemma pipe_no_lost_wakeup_witness : length (contents (pp demo_mid)) = Z.to_nat PIPESIZE.
Proof.
  destruct demo_mid_asleep as (addr & i & E).
  exact (proj1 (proj2 (pipe_no_lost_wakeup demo_start demo_mid demo_started demo_mid_path) 0%nat addr i E)).
Defined.
