(* ===== verification/Log.v ===== *)
(** * The write-ahead log

    [src/log.c].  The state has the disk, the contents of the buffers that are
    marked [B_DIRTY] and so stay in the buffer cache, the in-memory log header
    and the counters.  Every write to the disk is recorded in [trace]: a crash
    leaves on the disk the writes of a prefix of the trace. *)

From S2P Require Import Prelude.

Definition BSIZE : nat := 512.
Definition MAXOPBLOCKS : Z := 10.
Definition LOGSIZE : Z := 30.

Abbreviation block := (list Z).

(** Little-endian [int]s in a block. *)
Definition byte_at (b : block) (i : nat) : Z := default 0 (b !! i).

Definition get32 (b : block) (off : nat) : Z :=
  s32 (byte_at b off + 2 ^ 8 * byte_at b (off + 1) + 2 ^ 16 * byte_at b (off + 2) +
       2 ^ 24 * byte_at b (off + 3)).

Definition put32 (off : nat) (v : Z) (b : block) : block :=
  <[(off + 3)%nat := u8 (Z.shiftr (u32 v) 24)]> (<[(off + 2)%nat := u8 (Z.shiftr (u32 v) 16)]>
    (<[(off + 1)%nat := u8 (Z.shiftr (u32 v) 8)]> (<[off := u8 (u32 v)]> b))).

(** [struct log] with [struct logheader], the disk and the dirty buffers. *)
Record lst : Type := Lst {
  disk : Z → block;
  dirty : gmap Z block;
  trace : list (Z * block);
  lh_n : Z;
  lh_block : list Z;
  outstanding : Z;
  committing : Z;
  lstart : Z;
  lsize : Z;
}.

Definition set_lh (n : Z) (l : list Z) (s : lst) : lst :=
  Lst (disk s) (dirty s) (trace s) n l (outstanding s) (committing s) (lstart s) (lsize s).
Definition set_outstanding (n : Z) (s : lst) : lst :=
  Lst (disk s) (dirty s) (trace s) (lh_n s) (lh_block s) n (committing s) (lstart s) (lsize s).
Definition set_committing (n : Z) (s : lst) : lst :=
  Lst (disk s) (dirty s) (trace s) (lh_n s) (lh_block s) (outstanding s) n (lstart s) (lsize s).
Definition set_dirty (d : gmap Z block) (s : lst) : lst :=
  Lst (disk s) d (trace s) (lh_n s) (lh_block s) (outstanding s) (committing s) (lstart s) (lsize s).

(** ** Buffers

    [bread] returns the contents of the buffer of a block: those in the cache if
    it is dirty, and those on the disk otherwise.  [bwrite] writes the buffer
    to the disk and clears [B_DIRTY]. *)
Definition bread (b : Z) : M lst block := λ s, Ok (default (disk s b) (dirty s !! b)) s.

Definition bwrite (b : Z) (x : block) : M lst unit :=
  modify (λ s, Lst (<[b := x]> (disk s)) (delete b (dirty s)) (trace s ++ [(b, x)]) (lh_n s)
                 (lh_block s) (outstanding s) (committing s) (lstart s) (lsize s)).

(** [log.lh.block[i]] *)
Definition lh_at (i : nat) : M lst Z := λ s,
  match lh_block s !! i with
  | Some b => Ok b s
  | None => Undef "log.lh.block[] out of bounds" s
  end.

(** ** Committing and recovery *)

Definition install_trans : M lst unit :=
  n ← gets lh_n;
  for_range 0 (Z.to_nat n) (λ tail,
    start ← gets lstart;
    lbuf ← bread (start + Z.of_nat tail + 1);
    dst ← lh_at tail;
    bread dst ;;
    bwrite dst lbuf).

Definition read_head : M lst unit :=
  start ← gets lstart;
  buf ← bread start;
  l ← gets lh_block;
  modify (set_lh (get32 buf 0) l) ;;
  n ← gets lh_n;
  for_range 0 (Z.to_nat n) (λ i,
    l ← gets lh_block;
    n ← gets lh_n;
    if bool_decide (length l ≤ i)%nat then undefined "log.lh.block[] out of bounds" else
    modify (set_lh n (<[i := get32 buf (4 * (i + 1))]> l))).

(** The header block with [n] and the first [n] block numbers stored in it. *)
Fixpoint put_blocks (i n : nat) (l : list Z) (b : block) : block :=
  match n with
  | O => b
  | S n => put_blocks (S i) n l (put32 (4 * (i + 1)) (default 0 (l !! i)) b)
  end.

Definition write_head : M lst unit :=
  start ← gets lstart;
  buf ← bread start;
  n ← gets lh_n;
  l ← gets lh_block;
  if bool_decide (Z.of_nat (length l) < n) then undefined "log.lh.block[] out of bounds" else
  bwrite start (put_blocks 0 (Z.to_nat n) l (put32 0 n buf)).

Definition write_log : M lst unit :=
  n ← gets lh_n;
  for_range 0 (Z.to_nat n) (λ tail,
    start ← gets lstart;
    bread (start + Z.of_nat tail + 1) ;;
    src ← lh_at tail;
    from ← bread src;
    bwrite (start + Z.of_nat tail + 1) from).

Definition clear_lh : M lst unit := modify (λ s, set_lh 0 (lh_block s) s).

Definition recover_from_log : M lst unit :=
  read_head ;; install_trans ;; clear_lh ;; write_head.

(** [initlog], with the [logstart] and [nlog] of the superblock. *)
Definition initlog (logstart nlog : Z) : M lst unit :=
  if bool_decide (Z.of_nat BSIZE ≤ 4 + 4 * LOGSIZE) then panic "initlog: too big logheader" else
  modify (λ s, Lst (disk s) (dirty s) (trace s) (lh_n s) (lh_block s) (outstanding s) (committing s)
                 logstart nlog) ;;
  recover_from_log.

Definition commit : M lst unit :=
  n ← gets lh_n;
  if bool_decide (n > 0) then
    write_log ;; write_head ;; install_trans ;; clear_lh ;; write_head
  else mret tt.

(** ** System calls *)

(** One turn of the loop of [begin_op] under [log.lock]: [false] when it sleeps. *)
Definition begin_op_turn : M lst bool :=
  s ← get;
  if bool_decide (committing s ≠ 0) then mret false
  else if bool_decide (lh_n s + (outstanding s + 1) * MAXOPBLOCKS > LOGSIZE) then mret false
  else modify (λ s, set_outstanding (outstanding s + 1) s) ;; mret true.

(** The two critical sections of [end_op] and the commit between them; the
    result says whether the first wakes the waiting calls or commits. *)
Definition end_op_first : M lst bool :=
  modify (λ s, set_outstanding (outstanding s - 1) s) ;;
  s ← get;
  if bool_decide (committing s ≠ 0) then panic "log.committing" else
  if bool_decide (outstanding s = 0) then modify (set_committing 1) ;; mret true
  else mret false.

Definition end_op : M lst unit :=
  do_commit ← end_op_first;
  if (do_commit : bool) then commit ;; modify (set_committing 0) else mret tt.

(** [for (i = 0; i < log.lh.n; i++) if (log.lh.block[i] == b) break;] *)
Fixpoint find_block (b : Z) (l : list Z) (i : nat) : nat :=
  match l with
  | [] => i
  | x :: l => if bool_decide (x = b) then i else find_block b l (S i)
  end.

(** [log_write] of the buffer of block [b], whose contents are now [x]. *)
Definition log_write (b : Z) (x : block) : M lst unit :=
  s ← get;
  if bool_decide (LOGSIZE ≤ lh_n s) || bool_decide (lsize s - 1 ≤ lh_n s)
  then panic "too big a transaction" else
  if bool_decide (outstanding s < 1) then panic "log_write outside of trans" else
  let i := find_block b (take (Z.to_nat (lh_n s)) (lh_block s)) 0 in
  if bool_decide (length (lh_block s) ≤ i)%nat then undefined "log.lh.block[] out of bounds" else
  let l := <[i := b]> (lh_block s) in
  let n := if bool_decide (Z.of_nat i = lh_n s) then lh_n s + 1 else lh_n s in
  modify (set_lh n l) ;;
  modify (λ s, set_dirty (<[b := x]> (dirty s)) s).

(** ** Integers in blocks *)

Lemma s32_u32 v : s32 (u32 v) = s32 v.
Proof. unfold s32, u32. by rewrite Zplus_mod_idemp_l. Qed.

Lemma bytes_of_word w :
  0 ≤ w < 2 ^ 32 →
  u8 w + 2 ^ 8 * u8 (Z.shiftr w 8) + 2 ^ 16 * u8 (Z.shiftr w 16) + 2 ^ 24 * u8 (Z.shiftr w 24) = w.
Proof.
  intros Hw. unfold u8. rewrite !Z.shiftr_div_pow2 by lia. Z.to_euclidean_division_equations. lia.
Qed.

Lemma length_put32 off v b : length (put32 off v b) = length b.
Proof. unfold put32. by rewrite !length_insert. Qed.

Lemma get32_put32_eq off v b : (off + 4 ≤ length b)%nat → get32 (put32 off v b) off = s32 v.
Proof.
  intros Hl. unfold get32, byte_at, put32.
  assert (E : ∀ i x (l : block), (i < length l)%nat → default 0 (<[i := x]> l !! i) = x).
  { intros i x l Hi. by rewrite list_lookup_insert_eq. }
  assert (N : ∀ i j x (l : block), i ≠ j → <[i := x]> l !! j = l !! j).
  { intros. by apply list_lookup_insert_ne. }
  rewrite (N (off + 3)%nat off), (N (off + 2)%nat off), (N (off + 1)%nat off) by lia.
  rewrite (N (off + 3)%nat (off + 1)%nat), (N (off + 2)%nat (off + 1)%nat) by lia.
  rewrite (N (off + 3)%nat (off + 2)%nat) by lia.
  rewrite !E by (rewrite ?length_insert; lia). rewrite bytes_of_word by apply u32_range. apply s32_u32.
Qed.

Lemma get32_put32_ne off off' v b :
  (off' + 4 ≤ off ∨ off + 4 ≤ off')%nat → get32 (put32 off v b) off' = get32 b off'.
Proof.
  intros Hd. unfold get32, byte_at, put32. by rewrite !list_lookup_insert_ne by lia.
Qed.

Lemma length_put_blocks n : ∀ i l b, length (put_blocks i n l b) = length b.
Proof. induction n as [|n IH]; intros i l b; simpl; [done|]. by rewrite IH, length_put32. Qed.

Lemma get32_put_blocks_other n : ∀ i l b off, (off + 4 ≤ 4 * (i + 1))%nat →
  get32 (put_blocks i n l b) off = get32 b off.
Proof.
  induction n as [|n IH]; intros i l b off Hoff; simpl; [done|].
  rewrite IH by lia. apply get32_put32_ne. lia.
Qed.

Lemma get32_put_blocks n : ∀ i l b j, (i ≤ j < i + n)%nat → (4 * (i + n + 1) ≤ length b)%nat →
  get32 (put_blocks i n l b) (4 * (j + 1)) = s32 (default 0 (l !! j)).
Proof.
  induction n as [|n IH]; intros i l b j Hj Hb; [lia|]. simpl put_blocks.
  destruct (decide (j = i)) as [->|Hne].
  - rewrite get32_put_blocks_other by lia. apply get32_put32_eq. lia.
  - apply IH; [lia|]. rewrite length_put32. lia.
Qed.

(** The header block holds the numbers [bs]. *)
Definition header (b : block) (bs : list Z) : Prop :=
  length b = BSIZE ∧ get32 b 0 = Z.of_nat (length bs) ∧
  ∀ i x, bs !! i = Some x → get32 b (4 * (i + 1)) = x.

(** Block numbers are non-negative [int]s. *)
Definition blockno_ok (b : Z) : Prop := 0 ≤ b < 2 ^ 31.

Lemma header_put b l bs rest :
  length b = BSIZE → l = bs ++ rest → (Z.of_nat (length bs) ≤ LOGSIZE) → Forall blockno_ok bs →
  header (put_blocks 0 (length bs) l (put32 0 (Z.of_nat (length bs)) b)) bs.
Proof.
  intros Hb -> Hn Hbs. unfold LOGSIZE in Hn. split_and!.
  - by rewrite length_put_blocks, length_put32.
  - rewrite get32_put_blocks_other by lia. rewrite get32_put32_eq by (rewrite Hb; unfold BSIZE; lia).
    apply s32_small. lia.
  - intros i x Hx. pose proof (lookup_lt_Some _ _ _ Hx) as Hi.
    rewrite get32_put_blocks; [|lia|rewrite length_put32, Hb; unfold BSIZE; lia].
    rewrite lookup_app_l, Hx by done. simpl.
    destruct (proj1 (Forall_lookup _ _) Hbs i x Hx). apply s32_small. lia.
Qed.

(** ** Sequences of disk writes *)

Definition apply_writes (ws : list (Z * block)) (d : Z → block) : Z → block :=
  foldl (λ d w, <[w.1 := w.2]> d) d ws.

Lemma apply_writes_app ws1 ws2 d : apply_writes (ws1 ++ ws2) d = apply_writes ws2 (apply_writes ws1 d).
Proof. apply foldl_app. Qed.

Lemma apply_writes_other ws : ∀ d b, b ∉ ws.*1 → apply_writes ws d b = d b.
Proof.
  induction ws as [|[b' x] ws IH]; intros d b Hb; [done|]. simpl in Hb.
  apply not_elem_of_cons in Hb as [Hne Hb]. unfold apply_writes in *. simpl. rewrite IH by done.
  by rewrite fn_lookup_insert_ne.
Qed.

Lemma apply_writes_in ws : ∀ d i b x, NoDup ws.*1 → ws !! i = Some (b, x) → apply_writes ws d b = x.
Proof.
  induction ws as [|[b' x'] ws IH]; intros d i b x Hnd Hi; [done|]. simpl in Hnd.
  apply NoDup_cons in Hnd as [Hni Hnd]. destruct i as [|i]; simpl in Hi.
  - injection Hi as -> ->. unfold apply_writes. simpl. change (apply_writes ws (<[b := x]> d) b = x).
    rewrite apply_writes_other by done. apply fn_lookup_insert.
  - unfold apply_writes. simpl. by apply (IH _ i).
Qed.

(** The state after the writes [ws]. *)
Definition do_writes (ws : list (Z * block)) (s : lst) : lst :=
  Lst (apply_writes ws (disk s)) (foldl (λ d w, delete w.1 d) (dirty s) ws) (trace s ++ ws) (lh_n s)
      (lh_block s) (outstanding s) (committing s) (lstart s) (lsize s).

(** The contents of the buffer of block [b]. *)
Definition view (s : lst) (b : Z) : block := default (disk s b) (dirty s !! b).

Lemma do_writes_nil s : do_writes [] s = s.
Proof. unfold do_writes. simpl. rewrite app_nil_r. by destruct s. Qed.

Lemma do_writes_app ws1 ws2 s : do_writes (ws1 ++ ws2) s = do_writes ws2 (do_writes ws1 s).
Proof. unfold do_writes. simpl. by rewrite apply_writes_app, foldl_app, app_assoc. Qed.

Lemma bwrite_do b x s : bwrite b x s = Ok tt (do_writes [(b, x)] s).
Proof. done. Qed.

Lemma bread_view b s : bread b s = Ok (view s b) s.
Proof. done. Qed.

Lemma dirty_other (ws : list (Z * block)) : ∀ (d : gmap Z block) b, b ∉ ws.*1 →
  foldl (λ d w, delete w.1 d) d ws !! b = d !! b.
Proof.
  induction ws as [|[b' x] ws IH]; intros d b Hb; [done|]. simpl in Hb |- *.
  apply not_elem_of_cons in Hb as [Hne Hb]. rewrite IH by done. by rewrite lookup_delete_ne by done.
Qed.

Lemma view_other ws s b : b ∉ ws.*1 → view (do_writes ws s) b = view s b.
Proof.
  intros Hb. unfold view. simpl. rewrite apply_writes_other by done. by rewrite dirty_other.
Qed.

(** Blocks of the log: the header and the [lsize - 1] blocks after it. *)
Definition in_log (s : lst) (b : Z) : Prop := lstart s ≤ b < lstart s + lsize s.

Definition log_blocks (s : lst) (n : nat) : list Z := (λ i, lstart s + Z.of_nat i + 1) <$> seq 0 n.

(** The transaction: [bs] are the logged block numbers. *)
Record trans (s : lst) (bs : list Z) : Prop := Trans {
  tr_n : lh_n s = Z.of_nat (length bs);
  tr_block : ∃ rest, lh_block s = bs ++ rest;
  tr_len : Z.of_nat (length (lh_block s)) = LOGSIZE;
  tr_size : Z.of_nat (length bs) < lsize s;
  tr_home : Forall (λ b, ¬ in_log s b) bs;
  tr_nodup : NoDup bs;
  tr_ok : Forall blockno_ok bs;
}.

Lemma trans_do_writes ws s bs : trans s bs → trans (do_writes ws s) bs.
Proof. by intros [? ? ? ? ? ? ?]. Qed.

Lemma trans_lookup s bs i b : trans s bs → bs !! i = Some b → lh_block s !! i = Some b.
Proof.
  intros Ht Hb. destruct (tr_block _ _ Ht) as [rest ->]. by apply lookup_app_l_Some.
Qed.

Lemma log_blocks_lookup s n i : (i < n)%nat → log_blocks s n !! i = Some (lstart s + Z.of_nat i + 1).
Proof. intros Hi. unfold log_blocks. rewrite list_lookup_fmap, lookup_seq_lt by done. done. Qed.

Lemma log_blocks_in s n b : Z.of_nat n < lsize s → b ∈ log_blocks s n → in_log s b ∧ b ≠ lstart s.
Proof.
  intros Hn (i & -> & Hi)%list_elem_of_fmap. apply elem_of_seq in Hi. unfold in_log. lia.
Qed.

Lemma length_log_blocks s n : length (log_blocks s n) = n.
Proof. unfold log_blocks. by rewrite length_fmap, length_seq. Qed.

Definition log_writes (s : lst) (bs : list Z) : list (Z * block) :=
  zip (log_blocks s (length bs)) (view s <$> bs).

Definition home_writes (s : lst) (bs : list Z) : list (Z * block) :=
  zip bs (view s <$> log_blocks s (length bs)).

Lemma take_snoc {A} (l : list A) k x : l !! k = Some x → take (S k) l = take k l ++ [x].
Proof. apply take_S_r. Qed.

Lemma elem_of_take_fst (ws : list (Z * block)) k b : b ∈ (take k ws).*1 → b ∈ ws.*1.
Proof. rewrite fmap_take. intros Hb. by eapply subseteq_take. Qed.

Lemma log_writes_fst s bs : (log_writes s bs).*1 = log_blocks s (length bs).
Proof. unfold log_writes. apply fst_zip. by rewrite length_log_blocks, length_fmap. Qed.

Lemma home_writes_fst s bs : (home_writes s bs).*1 = bs.
Proof. unfold home_writes. apply fst_zip. by rewrite length_fmap, length_log_blocks. Qed.

Lemma length_log_writes s bs : length (log_writes s bs) = length bs.
Proof. unfold log_writes. rewrite length_zip_with_l_eq; by rewrite ?length_fmap, ?length_log_blocks. Qed.

Lemma length_home_writes s bs : length (home_writes s bs) = length bs.
Proof. unfold home_writes. rewrite length_zip_with_l_eq; by rewrite ?length_fmap, ?length_log_blocks. Qed.

(** [write_log] copies the buffers of the transaction to the log. *)
Lemma write_log_ok s bs : trans s bs → write_log s = Ok tt (do_writes (log_writes s bs) s).
Proof.
  intros Ht. unfold write_log. set (ws := log_writes s bs).
  assert (Hw : wpt write_log (λ _ s', s' = do_writes ws s) s).
  { unfold write_log. apply wpt_bind, wpt_gets. rewrite (tr_n _ _ Ht), Nat2Z.id.
    eapply wpt_mono; [apply (wpt_for_range (λ k s', s' = do_writes (take k ws) s))|].
    - by rewrite take_0, do_writes_nil.
    - intros k s' Hk ->. destruct (lookup_lt_is_Some_2 bs k) as [b Hb]; [lia|].
      apply wpt_bind, wpt_gets, wpt_bind. apply wpt_gets, wpt_bind.
      eapply wpt_eq; [unfold lh_at; simpl; by rewrite (trans_lookup _ _ _ _ Ht Hb)|].
      apply wpt_bind. apply wpt_gets. eapply wpt_eq; [apply bwrite_do|].
      rewrite (take_snoc ws k (lstart s + Z.of_nat k + 1, view s b)).
      + rewrite do_writes_app. f_equal. fold (view (do_writes (take k ws) s) b).
        rewrite view_other; [done|]. intros Hin%elem_of_take_fst. unfold ws in Hin.
        rewrite log_writes_fst in Hin. apply log_blocks_in in Hin as [Hin _]; [|apply Ht].
        by apply (proj1 (Forall_lookup _ _) (tr_home _ _ Ht) k b Hb).
      + unfold ws, log_writes. apply lookup_zip_with_Some. eexists _, _. split_and!; [done|..].
        * apply log_blocks_lookup. lia.
        * by rewrite list_lookup_fmap, Hb.
    - simpl. intros _ s' ->. by rewrite take_ge by (unfold ws; rewrite length_log_writes; lia). }
  apply wpt_Ok in Hw as ([] & s' & E & ->). exact E.
Qed.

(** [install_trans] copies the log to the home blocks. *)
Lemma install_trans_ok s bs : trans s bs → install_trans s = Ok tt (do_writes (home_writes s bs) s).
Proof.
  intros Ht. set (ws := home_writes s bs).
  assert (Hw : wpt install_trans (λ _ s', s' = do_writes ws s) s).
  { unfold install_trans. apply wpt_bind, wpt_gets. rewrite (tr_n _ _ Ht), Nat2Z.id.
    eapply wpt_mono; [apply (wpt_for_range (λ k s', s' = do_writes (take k ws) s))|].
    - by rewrite take_0, do_writes_nil.
    - intros k s' Hk ->. destruct (lookup_lt_is_Some_2 bs k) as [b Hb]; [lia|].
      apply wpt_bind, wpt_gets, wpt_bind. apply wpt_gets, wpt_bind.
      eapply wpt_eq; [unfold lh_at; simpl; by rewrite (trans_lookup _ _ _ _ Ht Hb)|].
      apply wpt_bind. apply wpt_gets. eapply wpt_eq; [apply bwrite_do|].
      assert (Hlk : log_blocks s (length bs) !! k = Some (lstart s + Z.of_nat k + 1)).
      { apply log_blocks_lookup. lia. }
      rewrite (take_snoc ws k (b, view s (lstart s + Z.of_nat k + 1))).
      + rewrite do_writes_app, <- (view_other (take k ws) s (lstart s + Z.of_nat k + 1)); [done|].
        intros Hin%elem_of_take_fst. unfold ws in Hin.
        rewrite home_writes_fst in Hin. apply list_elem_of_lookup in Hin as [j Hj].
        apply (proj1 (Forall_lookup _ _) (tr_home _ _ Ht) j _ Hj).
        apply (log_blocks_in s (length bs)); [apply Ht|]. by eapply list_elem_of_lookup_2.
      + unfold ws, home_writes. apply lookup_zip_with_Some. eexists _, _. split_and!; [done|done|].
        by rewrite list_lookup_fmap, Hlk.
    - simpl. intros _ s' ->. by rewrite take_ge by (unfold ws; rewrite length_home_writes; lia). }
  apply wpt_Ok in Hw as ([] & s' & E & ->). exact E.
Qed.

Lemma write_head_ok s bs :
  trans s bs →
  write_head s = Ok tt (do_writes [(lstart s,
    put_blocks 0 (length bs) (lh_block s) (put32 0 (Z.of_nat (length bs)) (view s (lstart s))))] s).
Proof.
  intros Ht. unfold write_head. mred. rewrite (tr_n _ _ Ht), Nat2Z.id.
  rewrite bool_decide_eq_false_2; [done|]. destruct (tr_block _ _ Ht) as [rest ->].
  rewrite length_app. lia.
Qed.

(** ** What a disk stands for

    The contents of the home blocks of a disk are those the log has for the
    blocks that the header names, and those on the disk for all the others.
    [hdr_blocks] reads the block numbers of a header. *)
Definition hdr_blocks (b : block) : list Z :=
  (λ i, get32 b (4 * (i + 1))) <$> seq 0 (Z.to_nat (get32 b 0)).

Definition logical (start : Z) (d : Z → block) (b : Z) : block :=
  match list_find (b =.) (hdr_blocks (d start)) with
  | Some (i, _) => d (start + Z.of_nat i + 1)
  | None => d b
  end.

(** A list of home blocks that fits in the log. *)
Record home_list (start size : Z) (bs : list Z) : Prop := HomeList {
  hl_len : Z.of_nat (length bs) ≤ LOGSIZE;
  hl_size : Z.of_nat (length bs) < size;
  hl_home : Forall (λ b, ¬ (start ≤ b < start + size)) bs;
  hl_nodup : NoDup bs;
  hl_ok : Forall blockno_ok bs;
}.

(** The disk has a well-formed log header, naming [bs]. *)
Definition wf_log (start size : Z) (d : Z → block) (bs : list Z) : Prop :=
  header (d start) bs ∧ home_list start size bs.

Lemma hdr_blocks_header b bs : header b bs → hdr_blocks b = bs.
Proof.
  intros (_ & Hn & Hb). unfold hdr_blocks. rewrite Hn, Nat2Z.id. apply list_eq. intros i.
  rewrite list_lookup_fmap. destruct (bs !! i) as [x|] eqn:Hi.
  - rewrite lookup_seq_lt by (by eapply lookup_lt_Some). simpl. f_equal. by apply Hb.
  - rewrite lookup_seq_ge by (by apply lookup_ge_None). done.
Qed.

Lemma logical_in start d bs i b :
  header (d start) bs → NoDup bs → bs !! i = Some b → logical start d b = d (start + Z.of_nat i + 1).
Proof.
  intros Hh Hnd Hi. unfold logical. rewrite (hdr_blocks_header _ _ Hh).
  rewrite (proj2 (list_find_Some _ _ i b)); [done|]. split_and!; [done|done|].
  intros j y Hy Hj ->. assert (j = i) by (by eapply NoDup_lookup). lia.
Qed.

Lemma logical_out start d bs b : header (d start) bs → b ∉ bs → logical start d b = d b.
Proof.
  intros Hh Hb. unfold logical. rewrite (hdr_blocks_header _ _ Hh).
  rewrite (proj2 (list_find_None _ _)); [done|]. apply Forall_forall. by intros x Hx ->.
Qed.

(** Two disks with the same header and log blocks and the same other home
    blocks stand for the same contents. *)
Lemma logical_ext start d d' bs :
  header (d start) bs → header (d' start) bs → NoDup bs →
  (∀ i, (i < length bs)%nat → d' (start + Z.of_nat i + 1) = d (start + Z.of_nat i + 1)) →
  ∀ b, (b ∉ bs → d' b = d b) → logical start d' b = logical start d b.
Proof.
  intros Hh Hh' Hnd Hlog b Hb. destruct (decide (b ∈ bs)) as [[i Hi]%list_elem_of_lookup|Hn].
  - rewrite (logical_in _ _ _ _ _ Hh Hnd Hi), (logical_in _ _ _ _ _ Hh' Hnd Hi).
    apply Hlog. by eapply lookup_lt_Some.
  - rewrite (logical_out _ _ _ _ Hh Hn), (logical_out _ _ _ _ Hh' Hn). by apply Hb.
Qed.

(** The blocks of the log lie in the log. *)
Lemma log_block_not_home start size bs i :
  home_list start size bs → (i < length bs)%nat → start + Z.of_nat i + 1 ∉ bs.
Proof.
  intros Hl Hi Hin. apply (proj1 (Forall_forall _ _) (hl_home _ _ _ Hl)) in Hin.
  pose proof (hl_size _ _ _ Hl). lia.
Qed.

Lemma start_not_home start size bs : home_list start size bs → start ∉ bs.
Proof.
  intros Hl Hin. apply (proj1 (Forall_forall _ _) (hl_home _ _ _ Hl)) in Hin.
  pose proof (hl_size _ _ _ Hl). lia.
Qed.

(** ** Reading the header back *)

Definition with_lh (bs : list Z) (s : lst) : lst :=
  set_lh (Z.of_nat (length bs)) (bs ++ drop (length bs) (lh_block s)) s.

Lemma read_head_ok s bs :
  header (view s (lstart s)) bs → (Z.of_nat (length bs) ≤ LOGSIZE) →
  Z.of_nat (length (lh_block s)) = LOGSIZE → read_head s = Ok tt (with_lh bs s).
Proof.
  intros (_ & Hn & Hb) Hlen Hl. set (buf := view s (lstart s)) in *.
  assert (Hw : wpt read_head (λ _ s', s' = with_lh bs s) s).
  { unfold read_head. apply wpt_bind, wpt_gets, wpt_bind. eapply wpt_eq; [apply bread_view|]. fold buf.
    apply wpt_bind, wpt_gets, wpt_bind, wpt_modify, wpt_bind, wpt_gets.
    cbn [lh_n set_lh]. rewrite Hn, Nat2Z.id.
    eapply wpt_mono; [apply (wpt_for_range (λ k s',
      s' = set_lh (Z.of_nat (length bs)) (take k bs ++ drop k (lh_block s)) s))|].
    - by rewrite take_0, drop_0.
    - intros k s' Hk ->. destruct (lookup_lt_is_Some_2 bs k) as [b Hbk]; [lia|].
      apply wpt_bind, wpt_gets, wpt_bind, wpt_gets. cbn [lh_block lh_n set_lh].
      rewrite bool_decide_eq_false_2 by (rewrite length_app, length_take, length_drop; lia).
      apply wpt_modify. unfold set_lh.
      cbn [disk dirty trace lh_n lh_block outstanding committing lstart lsize]. f_equal. rewrite (Hb k b Hbk).
      rewrite (take_S_r _ _ _ Hbk), <- app_assoc.
      rewrite insert_app_r_alt by (rewrite length_take; lia).
      rewrite length_take_le, Nat.sub_diag by lia. f_equal.
      destruct (lookup_lt_is_Some_2 (lh_block s) k) as [y Hy]; [lia|]. by rewrite (drop_S _ _ _ Hy).
    - simpl. intros _ s' ->. unfold with_lh. by rewrite firstn_all2 by lia. }
  apply wpt_Ok in Hw as ([] & s' & E & ->). exact E.
Qed.

(** ** The writes of recovery and of a commit *)

Definition installs (start : Z) (d : Z → block) (bs : list Z) : list (Z * block) :=
  zip bs ((λ i, d (start + Z.of_nat i + 1)) <$> seq 0 (length bs)).

Definition recovery_writes (start : Z) (d : Z → block) (bs : list Z) : list (Z * block) :=
  installs start d bs ++ [(start, put32 0 0 (d start))].

(** No buffer of the log is dirty. *)
Definition log_clean (s : lst) : Prop := ∀ b, in_log s b → dirty s !! b = None.

Lemma trans_home_list s bs : trans s bs → home_list (lstart s) (lsize s) bs.
Proof.
  intros [? [rest Hl] Hlen ? ? ? ?]. split; try done. rewrite Hl, length_app in Hlen. lia.
Qed.

Lemma trans_with_lh s bs :
  home_list (lstart s) (lsize s) bs → Z.of_nat (length (lh_block s)) = LOGSIZE → trans (with_lh bs s) bs.
Proof.
  intros [? ? ? ? ?] Hl. split; try done; simpl; [by eexists|]. rewrite length_app, length_drop. lia.
Qed.

Lemma view_clean s b : dirty s !! b = None → view s b = disk s b.
Proof. unfold view. by intros ->. Qed.

Lemma log_clean_do_writes ws s : log_clean s → log_clean (do_writes ws s).
Proof.
  intros Hc b Hb. specialize (Hc b Hb). simpl. clear Hb. revert Hc. generalize (dirty s).
  induction ws as [|[b' x] ws IH]; intros d Hd; simpl; [done|]. apply IH.
  destruct (decide (b' = b)) as [->|]; [apply lookup_delete_eq|by rewrite lookup_delete_ne].
Qed.

Lemma home_writes_installs s bs :
  trans s bs → log_clean s → home_writes s bs = installs (lstart s) (disk s) bs.
Proof.
  intros Ht Hc. unfold home_writes, installs, log_blocks. f_equal. rewrite <- list_fmap_compose.
  apply list_fmap_ext. intros i j [-> Hj]%lookup_seq. simpl. apply view_clean, Hc.
  pose proof (tr_size _ _ Ht). unfold in_log. lia.
Qed.

Lemma length_installs start d bs : length (installs start d bs) = length bs.
Proof.
  unfold installs. rewrite length_zip_with_l_eq; [done|]. by rewrite length_fmap, length_seq.
Qed.

Lemma installs_fst start d bs : (installs start d bs).*1 = bs.
Proof. unfold installs. apply fst_zip. by rewrite length_fmap, length_seq. Qed.

Lemma installs_lookup start d bs i b :
  bs !! i = Some b → installs start d bs !! i = Some (b, d (start + Z.of_nat i + 1)).
Proof.
  intros Hi. apply lookup_zip_with_Some. eexists _, _. split_and!; [done|done|].
  rewrite list_lookup_fmap, lookup_seq_lt by (by eapply lookup_lt_Some). done.
Qed.

Lemma start_not_installed start size d bs : home_list start size bs → start ∉ (installs start d bs).*1.
Proof. rewrite installs_fst. apply start_not_home. Qed.

(** The end of a commit and of recovery: install the transaction and erase it. *)
Definition finish : M lst unit := install_trans ;; clear_lh ;; write_head.

Lemma finish_ok s bs :
  trans s bs → log_clean s → 
  finish s = Ok tt (set_lh 0 (lh_block s) (do_writes (recovery_writes (lstart s) (disk s) bs) s)).
Proof.
  intros Ht Hc. unfold finish, mbind, M_bind. rewrite (install_trans_ok s bs Ht). unfold clear_lh, modify.
  set (s1 := do_writes (home_writes s bs) s).
  assert (H0 : trans (set_lh 0 (lh_block s1) s1) []).
  { pose proof (tr_len _ _ Ht). pose proof (tr_size _ _ Ht). split; simpl; try done.
    - by eexists. - lia. - constructor. }
  rewrite (write_head_ok _ [] H0). unfold recovery_writes. rewrite do_writes_app.
  unfold s1. rewrite (home_writes_installs s bs Ht Hc). cbn [put_blocks length lstart set_lh do_writes].
  change (Z.of_nat 0) with 0.
  replace (view _ (lstart s)) with (disk s (lstart s)); [done|].
  change (disk s (lstart s) = view (do_writes (installs (lstart s) (disk s) bs) s) (lstart s)).
  rewrite view_other by (eapply start_not_installed, trans_home_list, Ht).
  symmetry. apply view_clean, Hc. pose proof (tr_size _ _ Ht). unfold in_log. lia.
Qed.

Lemma recover_ok s bs :
  wf_log (lstart s) (lsize s) (disk s) bs → log_clean s → Z.of_nat (length (lh_block s)) = LOGSIZE →
  ∃ l, length l = length (lh_block s) ∧
    recover_from_log s = Ok tt (set_lh 0 l (do_writes (recovery_writes (lstart s) (disk s) bs) s)).
Proof.
  intros [Hh Hl] Hc Hlen.
  assert (Hv : view s (lstart s) = disk s (lstart s)).
  { apply view_clean, Hc. pose proof (hl_size _ _ _ Hl). unfold in_log. lia. }
  pose proof (trans_with_lh s bs Hl Hlen) as Ht.
  exists (lh_block (with_lh bs s)). split.
  { simpl. rewrite length_app, length_drop. pose proof (hl_len _ _ _ Hl). lia. }
  unfold recover_from_log, mbind, M_bind.
  rewrite (read_head_ok s bs); [|by rewrite Hv|apply Hl|done].
  change (finish (with_lh bs s) = 
    Ok tt (set_lh 0 (lh_block (with_lh bs s)) (do_writes (recovery_writes (lstart s) (disk s) bs) s))).
  by rewrite (finish_ok (with_lh bs s) bs Ht Hc).
Qed.

Lemma header_clear b l : length b = BSIZE → header (put_blocks 0 0 l (put32 0 0 b)) [].
Proof. intros Hb. apply (header_put b l [] l); [done..|]. constructor. Qed.

Lemma home_list_nil start size : 0 < size → home_list start size [].
Proof. intros. split; simpl; [unfold LOGSIZE; lia|lia|constructor..]. Qed.

(** A crash after any of the writes of recovery leaves a disk that stands for
    the same contents; after all of them the log is empty. *)
Lemma recovery_prefix start size d bs j :
  wf_log start size d bs →
  let d' := apply_writes (take j (recovery_writes start d bs)) d in
  (∃ bs', wf_log start size d' bs' ∧ (length bs < j → bs' = [])%nat) ∧
  ∀ b, ¬ (start ≤ b < start + size) → logical start d' b = logical start d b.
Proof.
  intros [Hh Hl] d'. set (ws := installs start d bs). unfold recovery_writes in d'. fold ws in d'.
  assert (Hs : ∀ k, start ∉ (take k ws).*1).
  { intros k Hin%elem_of_take_fst. by eapply start_not_installed. }
  destruct (decide (j ≤ length bs)%nat) as [Hj|Hj].
  - assert (Hd : d' = apply_writes (take j ws) d).
    { unfold d'. rewrite take_app_le; [done|]. unfold ws. by rewrite length_installs. }
    assert (Hh' : header (d' start) bs) by (rewrite Hd, apply_writes_other; auto). split.
    + exists bs. split; [done|lia].
    + intros b Hb. apply (logical_ext start d d' bs Hh Hh' (hl_nodup _ _ _ Hl)).
      * intros i Hi. rewrite Hd, apply_writes_other; [done|]. intros Hin%elem_of_take_fst.
        unfold ws in Hin. rewrite installs_fst in Hin. by eapply log_block_not_home.
      * intros Hn. rewrite Hd, apply_writes_other; [done|]. intros Hin%elem_of_take_fst.
        unfold ws in Hin. by rewrite installs_fst in Hin.
  - assert (Hd : d' = <[start := put32 0 0 (d start)]> (apply_writes ws d)).
    { unfold d'. rewrite firstn_all2; [by rewrite apply_writes_app|].
      rewrite length_app. unfold ws. rewrite length_installs. simpl. lia. }
    assert (Hh' : header (d' start) []).
    { rewrite Hd, fn_lookup_insert. apply (header_clear _ []), Hh. } split.
    + exists []. split; [split; [done|]|done]. apply home_list_nil. pose proof (hl_size _ _ _ Hl). lia.
    + intros b Hb. rewrite (logical_out _ _ _ _ Hh' (not_elem_of_nil _)), Hd.
      rewrite fn_lookup_insert_ne by (pose proof (hl_size _ _ _ Hl); lia).
      destruct (decide (b ∈ bs)) as [[i Hi]%list_elem_of_lookup|Hn].
      * rewrite (logical_in _ _ _ _ _ Hh (hl_nodup _ _ _ Hl) Hi).
        apply (apply_writes_in _ _ i); unfold ws; [rewrite installs_fst; apply Hl|].
        by apply installs_lookup.
      * rewrite (logical_out _ _ _ _ Hh Hn). apply apply_writes_other. unfold ws. by rewrite installs_fst.
Qed.

Definition commit_point (s : lst) (bs : list Z) : list (Z * block) :=
  log_writes s bs ++
  [(lstart s, put_blocks 0 (length bs) (lh_block s)
                (put32 0 (Z.of_nat (length bs)) (disk s (lstart s))))].

Lemma lstart_not_logged s bs : trans s bs → lstart s ∉ (log_writes s bs).*1.
Proof.
  intros Ht Hin. rewrite log_writes_fst in Hin. apply log_blocks_in in Hin; [tauto|apply Ht].
Qed.

Lemma commit_ok s bs :
  trans s bs → bs ≠ [] → log_clean s →
  let s1 := do_writes (commit_point s bs) s in
  commit s = Ok tt (set_lh 0 (lh_block s) (do_writes (recovery_writes (lstart s) (disk s1) bs) s1)).
Proof.
  intros Ht Hne Hc s1. unfold commit. mred. rewrite (tr_n _ _ Ht).
  rewrite bool_decide_eq_true_2 by (destruct bs; [done|simpl; lia]).
  unfold mbind, M_bind. rewrite (write_log_ok s bs Ht).
  rewrite (write_head_ok _ bs (trans_do_writes _ s bs Ht)), <- do_writes_app.
  rewrite view_other by (exact (lstart_not_logged s bs Ht)). rewrite view_clean.
  2:{ apply Hc. pose proof (tr_size _ _ Ht). unfold in_log. simpl. lia. }
  change (finish s1 = Ok tt (set_lh 0 (lh_block s)
    (do_writes (recovery_writes (lstart s) (disk s1) bs) s1))).
  by rewrite (finish_ok s1 bs (trans_do_writes _ s bs Ht) (log_clean_do_writes _ s Hc)).
Qed.

(** The disk with the log and the header written stands for the new contents. *)
Lemma commit_point_logical s bs :
  trans s bs → length (disk s (lstart s)) = BSIZE →
  let d1 := apply_writes (commit_point s bs) (disk s) in
  wf_log (lstart s) (lsize s) d1 bs ∧
  ∀ b, ¬ in_log s b → logical (lstart s) d1 b = if bool_decide (b ∈ bs) then view s b else disk s b.
Proof.
  intros Ht Hlen d1. pose proof (trans_home_list _ _ Ht) as Hl.
  assert (Hh : header (d1 (lstart s)) bs).
  { unfold d1, commit_point. rewrite apply_writes_app. unfold apply_writes at 1. simpl.
    rewrite fn_lookup_insert. destruct (tr_block _ _ Ht) as [rest Hr].
    apply (header_put _ _ _ rest); [done|done|apply Hl|apply Ht]. }
  assert (Hd1 : ∀ b, b ≠ lstart s → d1 b = apply_writes (log_writes s bs) (disk s) b).
  { intros b Hb. unfold d1, commit_point. rewrite apply_writes_app. unfold apply_writes at 1. simpl.
    by rewrite fn_lookup_insert_ne. }
  split; [done|]. intros b Hb. pose proof (tr_size _ _ Ht) as Hsz. unfold in_log in Hb.
  case_bool_decide as Hin.
  - apply list_elem_of_lookup in Hin as [i Hi]. pose proof (lookup_lt_Some _ _ _ Hi).
    rewrite (logical_in _ _ _ _ _ Hh (tr_nodup _ _ Ht) Hi), Hd1 by lia.
    apply (apply_writes_in _ _ i); [rewrite log_writes_fst; unfold log_blocks|].
    + apply NoDup_fmap_2; [intros ? ? ?; lia|apply NoDup_seq].
    + apply lookup_zip_with_Some. eexists _, _. split_and!; [done|by apply log_blocks_lookup|].
      by rewrite list_lookup_fmap, Hi.
  - rewrite (logical_out _ _ _ _ Hh Hin), Hd1 by lia. apply apply_writes_other. rewrite log_writes_fst.
    intros Hlb. apply log_blocks_in in Hlb as [? _]; [done|lia].
Qed.

(** Before the header is written the disk stands for the old contents. *)
Lemma before_commit_point s bs k :
  trans s bs → header (disk s (lstart s)) [] → (k ≤ length bs)%nat →
  let d' := apply_writes (take k (commit_point s bs)) (disk s) in
  wf_log (lstart s) (lsize s) d' [] ∧
  ∀ b, ¬ in_log s b → logical (lstart s) d' b = disk s b.
Proof.
  intros Ht Hh Hk d'. pose proof (tr_size _ _ Ht) as Hsz.
  assert (Hd : d' = apply_writes (take k (log_writes s bs)) (disk s)).
  { unfold d', commit_point. rewrite take_app_le; [done|]. by rewrite length_log_writes. }
  assert (Hh' : header (d' (lstart s)) []).
  { rewrite Hd, apply_writes_other; [done|]. intros Hin%elem_of_take_fst. by eapply lstart_not_logged. }
  split; [split; [done|apply home_list_nil; lia]|]. intros b Hb.
  rewrite (logical_out _ _ _ _ Hh' (not_elem_of_nil _)), Hd. apply apply_writes_other.
  intros Hin%elem_of_take_fst. rewrite log_writes_fst in Hin.
  apply log_blocks_in in Hin as [? _]; [done|lia].
Qed.

(** ** Crashes *)

(** The state at boot, with the disk [d] and nothing in the buffer cache. *)
Definition power_on (d : Z → block) : lst :=
  Lst d ∅ [] 0 (replicate (Z.to_nat LOGSIZE) 0) 0 0 0 0.

(** A boot on the disk [d] that crashes after some of the writes of recovery
    leaves the disk [d']. *)
Definition interrupted (start size : Z) (d d' : Z → block) : Prop :=
  ∃ r j, initlog start size (power_on d) = Ok tt r ∧ d' = apply_writes (take j (trace r)) d.

Lemma initlog_ok start size d bs :
  wf_log start size d bs →
  ∃ r, initlog start size (power_on d) = Ok tt r ∧ trace r = recovery_writes start d bs ∧
    disk r = apply_writes (trace r) d.
Proof.
  intros Hw. unfold initlog. rewrite bool_decide_eq_false_2 by (unfold BSIZE, LOGSIZE; lia).
  unfold modify, mbind, M_bind.
  match goal with |- context [recover_from_log ?s0] =>
    destruct (recover_ok s0 bs) as (l & _ & E); [exact Hw|done|done|] end.
  rewrite E. eexists. split_and!; [reflexivity|done|done].
Qed.

Lemma interrupted_logical start size d d' :
  (∃ bs, wf_log start size d bs) → interrupted start size d d' →
  (∃ bs, wf_log start size d' bs) ∧
  ∀ b, ¬ (start ≤ b < start + size) → logical start d' b = logical start d b.
Proof.
  intros [bs Hw] (r & j & E & ->). destruct (initlog_ok _ _ _ _ Hw) as (r' & E' & Ht & _).
  rewrite E in E'. injection E' as <-. rewrite Ht.
  destruct (recovery_prefix start size d bs j Hw) as [(bs' & Hw' & _) Hlg]. by split; [eexists|].
Qed.

(** Whatever recoveries were interrupted, the one that ends has on the disk what
    the disk stood for at first, and the log is empty. *)
Lemma recovery_ends start size d d' :
  rtc (interrupted start size) d d' → (∃ bs, wf_log start size d bs) →
  ∃ r, initlog start size (power_on d') = Ok tt r ∧ header (disk r start) [] ∧
    ∀ b, ¬ (start ≤ b < start + size) → disk r b = logical start d b.
Proof.
  induction 1 as [d|d d1 d' Hi _ IH].
  - intros [bs Hw]. destruct (initlog_ok _ _ _ _ Hw) as (r & E & Ht & Hd). exists r. split; [done|].
    destruct (recovery_prefix start size d bs (length (trace r)) Hw) as [(bs' & Hw' & Hnil) Hlg].
    rewrite Ht, firstn_all in Hw', Hlg. rewrite Hd, Ht.
    rewrite Hnil in Hw'. 2:{ rewrite Ht. unfold recovery_writes. rewrite length_app, length_installs. simpl. lia. }
    split; [apply Hw'|]. intros b Hb. rewrite <- Hlg by done. symmetry.
    apply (logical_out start _ []); [apply Hw'|apply not_elem_of_nil].
  - intros Hw. destruct (interrupted_logical _ _ _ _ Hw Hi) as [Hw1 Hlg].
    destruct (IH Hw1) as (r & E & Hh & Hd). exists r. split_and!; [done|done|].
    intros b Hb. by rewrite Hd, Hlg.
Qed.

(** C2: a commit is atomic with respect to crashes.  From a clean log, [commit] of
    the transaction [bs] ends with the buffers of [bs] in their home blocks and the
    log empty; and if the machine stops after any [k] of its disk writes, and then
    during any number of recoveries, the recovery that finishes gives the old
    contents of every home block (when the header had not been written) or the new
    contents of every one of them. *)
Theorem commit_crash_atomic s bs :
  trans s bs → bs ≠ [] → log_clean s → header (disk s (lstart s)) [] →
  let new b := if bool_decide (b ∈ bs) then view s b else disk s b in
  ∃ s' ws, commit s = Ok tt s' ∧ trace s' = trace s ++ ws ∧ lh_n s' = 0 ∧
    header (disk s' (lstart s)) [] ∧ (∀ b, ¬ in_log s b → disk s' b = new b) ∧
    ∀ k d', rtc (interrupted (lstart s) (lsize s)) (apply_writes (take k ws) (disk s)) d' →
      ∃ r, initlog (lstart s) (lsize s) (power_on d') = Ok tt r ∧ header (disk r (lstart s)) [] ∧
        ∀ b, ¬ in_log s b →
          disk r b = if bool_decide (k ≤ length bs)%nat then disk s b else new b.
Proof.
  intros Ht Hne Hc Hh new. pose proof (commit_ok s bs Ht Hne Hc) as E. cbv zeta in E.
  destruct (commit_point_logical s bs Ht (proj1 Hh)) as [Hw1 Hnew].
  set (d1 := apply_writes (commit_point s bs) (disk s)) in *.
  set (ws := commit_point s bs ++ recovery_writes (lstart s) d1 bs).
  assert (Hlen : length (commit_point s bs) = S (length bs)).
  { unfold commit_point. rewrite length_app, length_log_writes. simpl. lia. }
  assert (Hk : ∀ k, ∃ bs', wf_log (lstart s) (lsize s) (apply_writes (take k ws) (disk s)) bs' ∧
    (length ws ≤ k → bs' = [])%nat ∧ ∀ b, ¬ in_log s b → logical (lstart s) (apply_writes (take k ws) (disk s)) b =
      if bool_decide (k ≤ length bs)%nat then disk s b else new b).
  { intros k. unfold ws. case_bool_decide as Hk.
    - destruct (before_commit_point s bs k Ht Hh Hk) as [Hw Hlg]. exists [].
      rewrite take_app_le by lia. done.
    - rewrite take_app_ge, apply_writes_app by lia. fold d1.
      destruct (recovery_prefix _ _ d1 bs (k - length (commit_point s bs)) Hw1) as [(bs' & Hw & Hnil) Hlg].
      exists bs'. split_and!; [done| |intros b Hb; by rewrite Hlg, Hnew].
      intros Hle. apply Hnil. rewrite length_app in Hle. unfold recovery_writes in Hle.
      rewrite length_app, length_installs in Hle. simpl in Hle. lia. }
  eexists _, ws. split_and!; [exact E|unfold ws; simpl; by rewrite app_assoc|done| | |].
  - destruct (Hk (length ws)) as (bs' & Hw & Hnil & _). rewrite (Hnil (le_n _)), firstn_all in Hw.
    unfold ws in Hw. rewrite apply_writes_app in Hw. apply Hw.
  - intros b Hb. destruct (Hk (length ws)) as (bs' & Hw & Hnil & Hlg).
    rewrite (Hnil (le_n _)), firstn_all in Hw. rewrite firstn_all in Hlg. specialize (Hlg b Hb).
    rewrite bool_decide_eq_false_2 in Hlg by (unfold ws; rewrite length_app; lia).
    rewrite <- Hlg. unfold ws. rewrite apply_writes_app.
    symmetry. unfold ws in Hw. rewrite apply_writes_app in Hw.
    apply (logical_out _ _ []); [apply Hw|apply not_elem_of_nil].
  - intros k d' Hd. destruct (Hk k) as (bs' & Hw & _ & Hlg).
    destruct (recovery_ends _ _ _ _ Hd (ex_intro _ bs' Hw)) as (r & Er & Hhr & Hdr).
    exists r. split_and!; [done|done|]. intros b Hb. by rewrite Hdr, Hlg.
Qed.

(** A transaction of one block, [100], on a disk of zeroes. *)
Definition zeroes : block := replicate BSIZE 0.
Definition demo_lst : lst :=
  Lst (λ _, zeroes) {[100 := replicate BSIZE 7]} [] 1 (100 :: replicate 29 0) 0 1 2 30.

Lemma header_zeroes : header zeroes [].
Proof. split_and!; [done|done|]. intros i x Hx. by rewrite lookup_nil in Hx. Qed.

Lemma demo_trans : trans demo_lst [100].
Proof.
  split; simpl; try done; [by eexists (replicate 29 0)|..].
  - repeat constructor; unfold in_log; simpl; lia.
  - apply NoDup_singleton.
  - constructor; [unfold blockno_ok; lia|constructor].
Qed.

Lemma demo_log_clean : log_clean demo_lst.
Proof. intros b Hb. unfold in_log in Hb. simpl in *. apply lookup_singleton_ne. lia. Qed.

Lemma commit_crash_atomic_witness :
  ∃ s' ws, commit demo_lst = Ok tt s' ∧ 
    ∀ k d', rtc (interrupted 2 30) (apply_writes (take k ws) (λ _, zeroes)) d' →
      ∃ r, initlog 2 30 (power_on d') = Ok tt r ∧
        disk r 100 = if bool_decide (k ≤ 1)%nat then zeroes else replicate BSIZE 7.
Proof.
  destruct (commit_crash_atomic demo_lst [100] demo_trans ltac:(done) demo_log_clean header_zeroes)
    as (s' & ws & E & _ & _ & _ & _ & Hk).
  exists s', ws. split; [exact E|]. intros k d' Hd. destruct (Hk k d' Hd) as (r & Er & _ & Hr).
  exists r. split; [exact Er|]. rewrite (Hr 100); [done|]. unfold in_log. simpl. lia.
Defined.

(** ** Log space

    The calls of [begin_op], [log_write] and [end_op] by the running system
    calls.  [ops] has, for every system call between its [begin_op] and its
    [end_op], how many of its [MAXOPBLOCKS] writes it has left; [log_step] has a
    step for each critical section, and one for the commit, during which
    [committing] keeps the others out. *)
Definition end_op_commit : M lst unit := commit ;; modify (set_committing 0).

Inductive log_step : lst * list Z → lst * list Z → Prop :=
| step_begin s s' ops :
    begin_op_turn s = Ok true s' → log_step (s, ops) (s', ops ++ [MAXOPBLOCKS])
| step_write s s' ops i n b x :
    ops !! i = Some n → 0 < n → blockno_ok b → ¬ in_log s b → log_write b x s = Ok tt s' →
    log_step (s, ops) (s', <[i := n - 1]> ops)
| step_end s s' ops1 n ops2 last :
    end_op_first s = Ok last s' → log_step (s, ops1 ++ n :: ops2) (s', ops1 ++ ops2)
| step_commit s s' :
    committing s = 1 → end_op_commit s = Ok tt s' → log_step (s, []) (s', []).

Lemma end_op_segments s :
  end_op s = match end_op_first s with
             | Ok true s1 => end_op_commit s1
             | Ok false s1 => Ok tt s1
             | Panic m s1 => Panic m s1 | Undef m s1 => Undef m s1 | Spin s1 => Spin s1
             end.
Proof. unfold end_op, mbind, M_bind at 1. by destruct (end_op_first s) as [[] ?|?|?|?]. Qed.

Lemma find_block_shift b l : ∀ i, find_block b l i = (i + find_block b l 0)%nat.
Proof.
  induction l as [|x l IH]; intros i; simpl; [lia|]. case_bool_decide; [lia|].
  rewrite IH, (IH 1%nat). lia.
Qed.

Lemma find_block_spec b l :
  (b ∈ l ∧ l !! find_block b l 0 = Some b) ∨ ((b ∉ l) ∧ find_block b l 0 = length l).
Proof.
  induction l as [|x l IH]; simpl; [right; split; [apply not_elem_of_nil|done]|].
  case_bool_decide as Hx; [left; subst; split; [left|done]|]. rewrite find_block_shift.
  destruct IH as [[Hin Hl]|[Hin Hl]].
  - left. split; [by right|done].
  - right. split; [|simpl; lia]. by apply not_elem_of_cons.
Qed.

(** [log_write] logs the block once, however often it is written. *)
Lemma log_write_ok s bs b x :
  trans s bs → Z.of_nat (length bs) < LOGSIZE → Z.of_nat (length bs) < lsize s - 1 → 1 ≤ outstanding s →
  blockno_ok b → ¬ in_log s b →
  ∃ l n, log_write b x s = Ok tt (set_dirty (<[b := x]> (dirty s)) (set_lh n l s)) ∧
    trans (set_lh n l s) (if bool_decide (b ∈ bs) then bs else bs ++ [b]).
Proof.
  intros Ht Hn Hsz Hout Hok Hb. pose proof Ht as [Hlh [rest Hr] Hlen _ Hhome Hnd Hoks].
  unfold log_write. mred. rewrite Hlh, Nat2Z.id.
  rewrite (bool_decide_eq_false_2 (LOGSIZE ≤ _)) by lia.
  rewrite (bool_decide_eq_false_2 (lsize s - 1 ≤ _)) by lia. simpl.
  rewrite (bool_decide_eq_false_2 (outstanding s < 1)) by lia.
  rewrite Hr, take_app_length. set (i := find_block b bs 0).
  assert (Hrest : (0 < length rest)%nat) by (rewrite Hr, length_app in Hlen; lia).
  destruct (find_block_spec b bs) as [[Hin Hi]|[Hin Hi]]; fold i in Hi.
  - pose proof (lookup_lt_Some _ _ _ Hi).
    rewrite bool_decide_eq_false_2 by (rewrite length_app; lia).
    rewrite bool_decide_eq_false_2 by lia. rewrite bool_decide_eq_true_2 by done.
    eexists _, _. split; [reflexivity|].
    rewrite insert_app_l, list_insert_id, <- Hr by done.
    destruct s; simpl in *; by rewrite <- Hlh.
  - rewrite bool_decide_eq_false_2 by (rewrite length_app; lia).
    rewrite bool_decide_eq_true_2 by lia. rewrite bool_decide_eq_false_2 by done.
    eexists _, _. split; [reflexivity|]. destruct rest as [|y rest]; [simpl in Hrest; lia|].
    rewrite insert_app_r_alt, Hi, Nat.sub_diag by lia. simpl.
    assert (Hlb : length (bs ++ [b]) = S (length bs)) by (rewrite length_app; simpl; lia).
    split; simpl.
    + lia.
    + exists rest. by rewrite <- app_assoc.
    + rewrite Hr in Hlen. rewrite !length_app in *. simpl in *. lia.
    + lia.
    + apply Forall_app. split; [done|by constructor].
    + apply NoDup_app. split_and!; [done| |apply NoDup_singleton]. by intros ? ? ->%list_elem_of_singleton.
    + apply Forall_app. split; [done|by constructor].
Qed.

(** ** The invariant *)

Definition sum (l : list Z) : Z := foldr Z.add 0 l.

Record log_inv (s : lst) (ops : list Z) : Prop := LogInv {
  li_trans : ∃ bs, trans s bs;
  li_clean : log_clean s;
  li_header : header (disk s (lstart s)) [];
  li_out : outstanding s = Z.of_nat (length ops);
  li_ops : Forall (λ n, 0 ≤ n ≤ MAXOPBLOCKS) ops;
  li_space : lh_n s + sum ops ≤ LOGSIZE;
  li_committing : committing s = 0 ∨ (committing s = 1 ∧ ops = []);
  li_size : LOGSIZE < lsize s;
}.

Lemma sum_app l1 l2 : sum (l1 ++ l2) = sum l1 + sum l2.
Proof. unfold sum. induction l1; simpl; lia. Qed.

Lemma sum_bound ops : Forall (λ n, 0 ≤ n ≤ MAXOPBLOCKS) ops → sum ops ≤ Z.of_nat (length ops) * MAXOPBLOCKS.
Proof. unfold sum. induction 1; simpl length; simpl; lia. Qed.

Lemma sum_insert i n m ops : ops !! i = Some n → sum (<[i := m]> ops) = sum ops + m - n.
Proof.
  revert i. induction ops as [|x ops IH]; intros i Hi; [done|]. destruct i as [|i]; simpl in *.
  - injection Hi as ->. lia.
  - rewrite IH by done. lia.
Qed.

Lemma sum_nonneg ops : Forall (λ n, 0 ≤ n ≤ MAXOPBLOCKS) ops → 0 ≤ sum ops.
Proof. unfold sum. induction 1; simpl; lia. Qed.

(** What the segments do in a state of the invariant. *)
Lemma inv_write s ops i n b x :
  log_inv s ops → ops !! i = Some n → 0 < n → blockno_ok b → ¬ in_log s b →
  ∃ s', log_write b x s = Ok tt s' ∧ view s' b = x ∧ (∀ b', b' ≠ b → view s' b' = view s b') ∧
    log_inv s' (<[i := n - 1]> ops).
Proof.
  intros [[bs Ht] Hc Hh Ho Hops Hsp Hcm Hsz] Hi Hn Hok Hb.
  pose proof (sum_insert i n (n - 1) ops Hi) as Hsum. pose proof (tr_n _ _ Ht) as Hlh.
  assert (Hops' : Forall (λ n, 0 ≤ n ≤ MAXOPBLOCKS) (<[i := n - 1]> ops)).
  { apply Forall_insert; [done|]. pose proof (proj1 (Forall_lookup _ _) Hops i n Hi). simpl in *. lia. }
  pose proof (sum_nonneg _ Hops'). pose proof (lookup_lt_Some _ _ _ Hi).
  destruct (log_write_ok s bs b x Ht) as (l & n' & E & Ht'); [lia..|done|done|].
  eexists. split; [exact E|]. unfold view. simpl. split_and!.
  - by rewrite lookup_insert_eq.
  - intros b' Hb'. by rewrite lookup_insert_ne.
  - split; simpl; try done.
    + eexists. destruct Ht'. split; done.
    + intros b' Hb'. simpl. rewrite lookup_insert_ne; [by apply Hc|]. by intros ->.
    + by rewrite length_insert.
    + apply tr_n in Ht'. simpl in Ht'. rewrite Ht'. case_bool_decide; [lia|].
      rewrite length_app. simpl. lia.
    + destruct Hcm as [?|[_ ->]]; [by left|done].
Qed.

Lemma inv_begin s ops :
  log_inv s ops → ∃ ok s', begin_op_turn s = Ok ok s' ∧
    log_inv s' (if ok then ops ++ [MAXOPBLOCKS] else ops).
Proof.
  intros Hinv. pose proof Hinv as [[bs Ht] Hc Hh Ho Hops Hsp Hcm Hsz]. unfold begin_op_turn. mred.
  case_bool_decide as H1; [by eexists _, _|]. case_bool_decide as H2; [by eexists _, _|].
  eexists _, _. split; [reflexivity|]. pose proof (sum_bound _ Hops). split; simpl; try done.
  - exists bs. by destruct Ht.
  - rewrite length_app. simpl. lia.
  - apply Forall_app. split; [done|]. constructor; [|done]. unfold MAXOPBLOCKS. lia.
  - rewrite sum_app. simpl. lia.
  - left. by destruct Hcm as [?|[? ?]]; [|lia].
Qed.

Lemma inv_end s ops1 n ops2 :
  log_inv s (ops1 ++ n :: ops2) → ∃ last s', end_op_first s = Ok last s' ∧
    last = bool_decide (ops1 ++ ops2 = []) ∧ committing s' = (if last then 1 else 0) ∧
    log_inv s' (ops1 ++ ops2).
Proof.
  intros [[bs Ht] Hc Hh Ho Hops Hsp Hcm Hsz]. rewrite length_app in Ho. simpl in Ho.
  destruct Hcm as [Hcm|[_ Hn]]; [|by destruct ops1].
  rewrite Forall_app, Forall_cons in Hops. destruct Hops as (Hops1 & Hn & Hops2).
  rewrite sum_app in Hsp. simpl in Hsp. unfold end_op_first. mred. simpl.
  rewrite (bool_decide_eq_false_2 (committing s ≠ 0)) by lia.
  assert (Hbd : bool_decide (outstanding s - 1 = 0) = bool_decide (ops1 ++ ops2 = [])).
  { apply bool_decide_ext. rewrite Ho. destruct ops1, ops2; simpl; split; intros; done || lia. }
  rewrite Hbd. clear Hbd. assert (Hops' : Forall (λ n, 0 ≤ n ≤ MAXOPBLOCKS) (ops1 ++ ops2)) by (by apply Forall_app).
  assert (Ht' : ∀ c, trans (set_committing c (set_outstanding (outstanding s - 1) s)) bs).
  { intros c. by destruct Ht. }
  case_bool_decide as Hl; eexists _, _; (split_and!; [reflexivity|done|done|]); split; simpl;
    rewrite ?sum_app, ?length_app; try done; try lia.
  - by eexists.
  - by right.
  - exists bs. by destruct Ht.
Qed.

Lemma inv_commit s :
  log_inv s [] → ∃ s', end_op_commit s = Ok tt s' ∧ lh_n s' = 0 ∧ committing s' = 0 ∧ log_inv s' [].
Proof.
  intros [[bs Ht] Hc Hh Ho Hops Hsp Hcm Hsz]. unfold end_op_commit, mbind, M_bind, modify.
  assert (Hlen : ∀ s', lsize s' = lsize s → Z.of_nat (length (lh_block s')) = LOGSIZE → lh_n s' = 0 → trans s' []).
  { intros s' H1 H2 H3. split; try done; [by eexists|simpl; unfold LOGSIZE in *; lia|constructor]. }
  destruct (decide (bs = [])) as [->|Hne].
  - unfold commit. mred. rewrite (tr_n _ _ Ht). rewrite bool_decide_eq_false_2 by (simpl; lia).
    eexists. split_and!; [reflexivity|apply Ht|done|]. split; simpl; try done; [|by left].
    exists []. apply Hlen; [done|apply Ht|apply Ht].
  - pose proof (commit_ok s bs Ht Hne Hc) as E. cbv zeta in E. rewrite E.
    eexists. split_and!; [reflexivity|done|done|].
    destruct (commit_point_logical s bs Ht (proj1 Hh)) as [Hw1 _].
    set (ws := recovery_writes _ _ _).
    destruct (recovery_prefix _ _ _ _ (length ws) Hw1) as [(bs' & [Hh' _] & Hnil) _].
    rewrite Hnil in Hh'; [|unfold ws, recovery_writes; rewrite length_app, length_installs; simpl; lia].
    split; simpl; try done.
    + exists []. apply Hlen; [done|apply Ht|done].
    + intros b Hb. by apply (log_clean_do_writes ws _ (log_clean_do_writes _ _ Hc)).
    + unfold ws in *. by rewrite firstn_all in Hh'.
    + by left.
Qed.

Lemma log_step_inv c c' : log_step c c' → log_inv c.1 c.2 → log_inv c'.1 c'.2.
Proof.
  destruct 1 as [s s' ops E|s s' ops i n b x Hi Hn Hok Hb E|s s' ops1 n ops2 last E|s s' Hcm E];
    simpl; intros Hinv.
  - destruct (inv_begin _ _ Hinv) as (? & ? & E' & H). rewrite E in E'. by injection E' as <- <-.
  - destruct (inv_write _ _ _ _ _ x Hinv Hi Hn Hok Hb) as (? & E' & _ & _ & H).
    rewrite E in E'. by injection E' as <-.
  - destruct (inv_end _ _ _ _ Hinv) as (? & ? & E' & _ & _ & H). rewrite E in E'. by injection E' as _ <-.
  - destruct (inv_commit _ Hinv) as (? & E' & _ & _ & H). rewrite E in E'. by injection E' as <-.
Qed.

(** The log after boot on a disk whose log is empty. *)
Definition fresh_log (start size : Z) (d : Z → block) : lst :=
  Lst d ∅ [] 0 (replicate (Z.to_nat LOGSIZE) 0) 0 0 start size.

Lemma fresh_log_inv start size d :
  header (d start) [] → LOGSIZE < size → log_inv (fresh_log start size d) [].
Proof.
  intros Hh Hs. split; simpl; try done; [|by left]. exists [].
  split; simpl; try done; [by eexists|unfold LOGSIZE in Hs; lia|constructor].
Qed.

Lemma log_steps_inv start size d s ops :
  rtc log_step (fresh_log start size d, []) (s, ops) → header (d start) [] → LOGSIZE < size →
  log_inv s ops.
Proof.
  intros H Hh Hs.
  exact (rtc_invariant log_step (λ c, log_inv c.1 c.2) _ _ log_step_inv H (fresh_log_inv _ _ _ Hh Hs)).
Qed.

(** C19: with a log of more than [LOGSIZE] blocks the reservations of [begin_op]
    are enough.  Whatever the system calls did since boot, a call with one of its
    [MAXOPBLOCKS] writes left can [log_write] any home block, without a panic, and
    the buffer then has what it wrote; [end_op] of any call returns; and the
    logged blocks are a transaction [commit] can commit atomically: the log on
    the disk is empty, and the block numbers are distinct and outside the log. *)
Theorem log_space_suffices start size d s ops :
  header (d start) [] → LOGSIZE < size → rtc log_step (fresh_log start size d, []) (s, ops) →
  (∀ i n b x, ops !! i = Some n → 0 < n → blockno_ok b → ¬ in_log s b →
     ∃ s', log_write b x s = Ok tt s' ∧ view s' b = x ∧ ∀ b', b' ≠ b → view s' b' = view s b') ∧
  (∀ ops1 n ops2, ops = ops1 ++ n :: ops2 → ∃ s', end_op s = Ok tt s') ∧
  (∃ bs, trans s bs) ∧ log_clean s ∧ header (disk s (lstart s)) [].
Proof.
  intros Hh Hs Hst. pose proof (log_steps_inv _ _ _ _ _ Hst Hh Hs) as Hinv. split_and!.
  - intros i n b x Hi Hn Hok Hb.
    destruct (inv_write _ _ _ _ _ x Hinv Hi Hn Hok Hb) as (s' & E & Hv & Hv' & _). by exists s'.
  - intros ops1 n ops2 ->. destruct (inv_end _ _ _ _ Hinv) as (last & s1 & E & Hl & _ & Hinv1).
    rewrite end_op_segments, E. destruct last; [|by eexists]. symmetry in Hl.
    apply bool_decide_eq_true_1 in Hl. rewrite Hl in Hinv1.
    destruct (inv_commit _ Hinv1) as (s' & E' & _). by exists s'.
  - apply Hinv. - apply Hinv. - apply Hinv.
Qed.

(** ** Running the log on concrete calls *)
Inductive log_event : Type :=
| EBegin
| EWrite (i : nat) (b : Z) (x : block).

Definition in_log_b (s : lst) (b : Z) : bool := bool_decide (lstart s ≤ b < lstart s + lsize s).

Definition exec_log (e : log_event) (c : lst * list Z) : option (lst * list Z) :=
  match e with
  | EBegin => match begin_op_turn c.1 with
              | Ok true s' => Some (s', c.2 ++ [MAXOPBLOCKS]) | _ => None end
  | EWrite i b x =>
      n ← c.2 !! i;
      if bool_decide (0 < n) && bool_decide (0 ≤ b < 2 ^ 31) && negb (in_log_b c.1 b) then
        match log_write b x c.1 with Ok _ s' => Some (s', <[i := n - 1]> c.2) | _ => None end
      else None
  end.

Fixpoint exec_logs (es : list log_event) (c : lst * list Z) : option (lst * list Z) :=
  match es with
  | [] => Some c
  | e :: es => c' ← exec_log e c; exec_logs es c'
  end.

Lemma exec_log_sound e c c' : exec_log e c = Some c' → log_step c c'.
Proof.
  destruct c as [s ops]. destruct e as [|i b x]; simpl.
  - destruct (begin_op_turn s) as [[] s'|?|?|?] eqn:E; try done. intros [= <-]. by constructor.
  - intros (n & Hi & H)%bind_Some.
    destruct (bool_decide (0 < n)) eqn:H1; [|done]. destruct (bool_decide (0 ≤ b < 2 ^ 31)) eqn:H2; [|done].
    destruct (in_log_b s b) eqn:H3; [done|]. simpl in H.
    destruct (log_write b x s) as [[] s'|?|?|?] eqn:E; try done. injection H as <-.
    apply bool_decide_eq_true_1 in H1, H2. apply bool_decide_eq_false_1 in H3.
    by eapply step_write.
Qed.

Lemma exec_logs_sound es : ∀ c c', exec_logs es c = Some c' → rtc log_step c c'.
Proof.
  induction es as [|e es IH]; intros c c'; simpl; [intros [= ->]; apply rtc_refl|].
  intros (c1 & H1 & H2)%bind_Some. eapply rtc_l; [by eapply exec_log_sound|by apply IH].
Qed.

Definition log_space_demo : lst * list Z :=
  let c := (fresh_log 2 31 (λ _, zeroes), []) in
  default c (exec_logs [EBegin; EWrite 0 100 [1]; EBegin; EWrite 1 100 [2]; EWrite 0 101 [3]] c).

Lemma log_space_suffices_witness :
  ∃ s', log_write 102 [4] log_space_demo.1 = Ok tt s' ∧ view s' 102 = [4].
Proof.
  destruct (log_space_suffices 2 31 (λ _, zeroes) log_space_demo.1 log_space_demo.2) as [H _].
  - apply header_zeroes.
  - unfold LOGSIZE. lia.
  - eapply (exec_logs_sound [EBegin; EWrite 0 100 [1]; EBegin; EWrite 1 100 [2]; EWrite 0 101 [3]]).
    vm_compute. reflexivity.
  - destruct (H 1%nat 9 102 [4]) as (s' & E & Hv & _); [vm_compute; reflexivity|lia| | |].
    + unfold blockno_ok. lia.
    + unfold in_log. vm_compute. intros [_ [=]].
    + exists s'. split; [exact E|exact Hv].
Defined.

(** The number of log blocks of a disk made by [src/mkfs.c]. *)
Definition nlog : Z := LOGSIZE.

Definition fill_script : list log_event :=
  [EBegin; EBegin; EBegin] ++
  ((λ i, EWrite (i / 10) (100 + Z.of_nat i) []) <$> seq 0 29).

Definition full_check (c : option (lst * list Z)) : bool :=
  match c with
  | Some (s, ops) => bool_decide (ops = [0; 0; 1]) && negb (in_log_b s 129) &&
      match log_write 129 [] s with
      | Panic m _ => bool_decide (m = "too big a transaction"%string) | _ => false end
  | None => false
  end.

Lemma full_check_spec c : full_check c = true →
  ∃ s, c = Some (s, [0; 0; 1]) ∧ ¬ in_log s 129 ∧
    ∃ s', log_write 129 [] s = Panic "too big a transaction" s'.
Proof.
  destruct c as [[s ops]|]; simpl; [|done]. intros [[H1 H2]%andb_true_iff H3]%andb_true_iff.
  apply bool_decide_eq_true_1 in H1. subst ops. exists s. split_and!; [done| |].
  - apply negb_true_iff, bool_decide_eq_false_1 in H2. exact H2.
  - destruct (log_write 129 [] s); try done. apply bool_decide_eq_true_1 in H3. subst. by eexists.
Qed.

(** The log that mkfs makes is one block too small.  The superblock has [nlog]
    = [LOGSIZE] = 30 blocks, one of which is the header, so 29 blocks can be
    logged; but [begin_op] lets three calls reserve 30.  Three calls that write
    ten blocks each reach a state in which the last one, with one write left, gets
    the panic of [log_write]. *)
Theorem log_too_small :
  ∃ s s', rtc log_step (fresh_log 2 nlog (λ _, zeroes), []) (s, [0; 0; 1]) ∧ ¬ in_log s 129 ∧
    log_write 129 [] s = Panic "too big a transaction" s'.
Proof.
  destruct (full_check_spec (exec_logs fill_script (fresh_log 2 nlog (λ _, zeroes), [])))
    as (s & E & Hl & s' & Hp).
  - vm_compute. reflexivity.
  - exists s, s'. split_and!; [by eapply exec_logs_sound|done|done].
Qed.
