(* ===== verification/Grep.v ===== *)
(** * grep

    [src/grep.c]: the matcher for patterns with [^], [.], [*] and [$], and the
    loop that reads a file and prints the lines that match.  A C string is the
    list of its bytes up to the terminating zero; a pattern and a text have no
    zero byte. *)

From S2P Require Import Prelude.

(** The bytes the program names. *)
Definition DOT : Z := 46.
Definition STAR : Z := 42.
Definition DOLLAR : Z := 36.
Definition CARET : Z := 94.
Definition NEWLINE : Z := 10.

(** ** The matcher *)

(** [matchstar(c, re, text)], where [m] is [matchhere(re, .)]. *)
Fixpoint matchstar_with (m : list Z → bool) (c : Z) (text : list Z) : bool :=
  if m text then true else
  match text with
  | [] => false
  | t :: text' => if bool_decide (t = c) || bool_decide (c = DOT) then matchstar_with m c text' else false
  end.

Fixpoint matchhere (re text : list Z) {struct re} : bool :=
  match re with
  | [] => true
  | c :: re1 =>
      match re1 with
      | c1 :: re2 => if bool_decide (c1 = STAR) then matchstar_with (matchhere re2) c text else
          match text with
          | t :: text' => if bool_decide (c = DOT) || bool_decide (c = t) then matchhere re1 text' else false
          | [] => false
          end
      | [] =>
          if bool_decide (c = DOLLAR) then bool_decide (text = []) else
          match text with
          | t :: text' => if bool_decide (c = DOT) || bool_decide (c = t) then matchhere re1 text' else false
          | [] => false
          end
      end
  end.

Definition matchstar (c : Z) (re text : list Z) : bool := matchstar_with (matchhere re) c text.

(** The loop of [match]: at every position of the text, the end included. *)
Fixpoint match_loop (re text : list Z) : bool :=
  if matchhere re text then true else
  match text with
  | [] => false
  | _ :: text' => match_loop re text'
  end.

Definition match_ (re text : list Z) : bool :=
  match re with
  | c :: re' => if bool_decide (c = CARET) then matchhere re' text else match_loop re text
  | [] => match_loop re text
  end.

(** ** The loop over the file *)

(** [q = strchr(p, '\n')]: the line at [p] and what follows it. *)
Fixpoint next_line (p : list Z) : option (list Z * list Z) :=
  match p with
  | [] => None
  | c :: p' =>
      if bool_decide (c = 0) then None
      else if bool_decide (c = NEWLINE) then Some ([], p')
      else '(l, rest) ← next_line p'; Some (c :: l, rest)
  end.

(** The inner loop: the output, what is left at [p], and whether [p] moved. *)
Fixpoint grep_lines (fuel : nat) (pattern p : list Z) : list Z * list Z * bool :=
  match fuel with
  | O => ([], p, false)
  | S fuel =>
      match next_line p with
      | None => ([], p, false)
      | Some (l, rest) =>
          let '(out, rest', _) := grep_lines fuel pattern rest in
          ((if match_ pattern l then l ++ [NEWLINE] else []) ++ out, rest', true)
      end
  end.

(** [grep(pattern, fd)]: [reads] are the results of the successive calls of
    [read], and [buf] the [m] bytes kept in the buffer; the result is what is
    written to the standard output. *)
Fixpoint grep (pattern buf : list Z) (reads : list (list Z)) : list Z :=
  match reads with
  | [] => []
  | c :: reads =>
      if bool_decide (c = []) then [] else
      let b := buf ++ c in
      let '(out, rest, moved) := grep_lines (S (length b)) pattern b in
      out ++ grep pattern (if moved then rest else []) reads
  end.

(** ** What a pattern means *)

Inductive item : Type :=
| One (c : Z)
| Many (c : Z).

(** The items of a pattern, and whether it ends in an anchor. *)
Fixpoint items (re : list Z) : list item * bool :=
  match re with
  | [] => ([], false)
  | c :: re1 =>
      match re1 with
      | [] => if bool_decide (c = DOLLAR) then ([], true) else ([One c], false)
      | c1 :: re2 =>
          if bool_decide (c1 = STAR) then let '(l, e) := items re2 in (Many c :: l, e)
          else let '(l, e) := items re1 in (One c :: l, e)
      end
  end.

Definition fits (c t : Z) : Prop := c = DOT ∨ c = t.

(** [denotes l s]: the string [s] is matched by the items [l]. *)
Inductive denotes : list item → list Z → Prop :=
| denotes_nil : denotes [] []
| denotes_one c l t s : fits c t → denotes l s → denotes (One c :: l) (t :: s)
| denotes_many c l s1 s2 : Forall (fits c) s1 → denotes l s2 → denotes (Many c :: l) (s1 ++ s2).

(** A prefix of the text is matched, the whole text if the pattern ends in [$]. *)
Definition prefix_matches (re text : list Z) : Prop :=
  ∃ s1 s2, text = s1 ++ s2 ∧ denotes (items re).1 s1 ∧ ((items re).2 = true → s2 = []).

Lemma items_one c c1 re2 :
  c1 ≠ STAR → items (c :: c1 :: re2) = (One c :: (items (c1 :: re2)).1, (items (c1 :: re2)).2).
Proof.
  intros Hc. change (items (c :: c1 :: re2)) with
    (if bool_decide (c1 = STAR) then let '(l, e) := items re2 in (Many c :: l, e)
     else let '(l, e) := items (c1 :: re2) in (One c :: l, e)).
  rewrite bool_decide_eq_false_2 by done. by destruct (items (c1 :: re2)).
Qed.

Lemma fits_bool c t : bool_decide (c = DOT) || bool_decide (c = t) = true ↔ fits c t.
Proof. unfold fits. rewrite orb_true_iff, !bool_decide_eq_true. done. Qed.

Lemma fits_bool' c t : bool_decide (t = c) || bool_decide (c = DOT) = true ↔ fits c t.
Proof. unfold fits. rewrite orb_true_iff, !bool_decide_eq_true. naive_solver. Qed.

Lemma matchstar_with_spec m c : ∀ text,
  matchstar_with m c text = true ↔ ∃ s1 s2, text = s1 ++ s2 ∧ Forall (fits c) s1 ∧ m s2 = true.
Proof.
  induction text as [|t text IH].
  - simpl. destruct (m []) eqn:Hm; split; [by exists [], []|done|done|].
    intros (s1 & s2 & Hs & _ & H2). symmetry in Hs. apply app_eq_nil in Hs as [-> ->]. congruence.
  - cbn [matchstar_with]. destruct (m (t :: text)) eqn:Hm; [split; [|done]; by exists [], (t :: text)|].
    destruct (bool_decide (t = c) || bool_decide (c = DOT)) eqn:Hf.
    + apply fits_bool' in Hf. rewrite IH. split.
      * intros (s1 & s2 & -> & H1 & H2). exists (t :: s1), s2. split_and!; [done| |done]. by constructor.
      * intros (s1 & s2 & Hs & H1 & H2). destruct s1 as [|t' s1]; simpl in Hs; [subst; congruence|].
        injection Hs as <- ->. inversion H1; subst. by exists s1, s2.
    + split; [done|]. intros (s1 & s2 & Hs & H1 & H2).
      destruct s1 as [|t' s1]; simpl in Hs; [subst; congruence|]. injection Hs as <- ->.
      inversion H1 as [|? ? Hfit]; subst. apply fits_bool' in Hfit. congruence.
Qed.

Lemma prefix_matches_one c re1 t text :
  (items (c :: re1)).1 = One c :: (items re1).1 → (items (c :: re1)).2 = (items re1).2 →
  prefix_matches (c :: re1) (t :: text) ↔ fits c t ∧ prefix_matches re1 text.
Proof.
  intros E1 E2. unfold prefix_matches. rewrite E1, E2. split.
  - intros (s1 & s2 & Hs & Hd & He). inversion Hd as [|? ? t' s Hf Hd'|]; subst.
    injection Hs as <- ->. split; [done|]. by exists s, s2.
  - intros (Hf & s1 & s2 & -> & Hd & He). exists (t :: s1), s2. split_and!; [done| |done]. by constructor.
Qed.

Lemma prefix_matches_one_nil c re1 :
  (items (c :: re1)).1 = One c :: (items re1).1 → ¬ prefix_matches (c :: re1) [].
Proof.
  intros E1 (s1 & s2 & Hs & Hd & _). rewrite E1 in Hd. symmetry in Hs. apply app_eq_nil in Hs as [-> _].
  inversion Hd.
Qed.

(** One character of the pattern against the text. *)
Lemma match_one_spec c re1 text :
  (items (c :: re1)).1 = One c :: (items re1).1 → (items (c :: re1)).2 = (items re1).2 →
  (∀ text, matchhere re1 text = true ↔ prefix_matches re1 text) →
  match text with
  | t :: text' => if bool_decide (c = DOT) || bool_decide (c = t) then matchhere re1 text' else false
  | [] => false
  end = true ↔ prefix_matches (c :: re1) text.
Proof.
  intros E1 E2 IH. destruct text as [|t text].
  - split; [done|]. intros H. by apply prefix_matches_one_nil in H.
  - rewrite prefix_matches_one by done. destruct (_ || _) eqn:Hf.
    + apply fits_bool in Hf. rewrite IH. tauto.
    + split; [done|]. intros [Hfit _]. apply fits_bool in Hfit. congruence.
Qed.

Lemma matchhere_spec_aux n : ∀ re text, (length re ≤ n)%nat →
  matchhere re text = true ↔ prefix_matches re text.
Proof.
  induction n as [|n IH]; intros re text Hn; destruct re as [|c re1]; simpl in Hn; try lia.
  1,2: split; [|done]; exists [], text; split_and!; [done|constructor|done].
  assert (IH1 : ∀ text, matchhere re1 text = true ↔ prefix_matches re1 text) by (intros; apply IH; lia).
  destruct re1 as [|c1 re2]; cbn [matchhere].
  - destruct (decide (c = DOLLAR)) as [->|Hc].
    + rewrite bool_decide_eq_true_2 by done. rewrite bool_decide_eq_true. unfold prefix_matches. simpl.
      split; [intros ->; exists [], []; split_and!; [done|constructor|done]|].
      intros (s1 & s2 & -> & Hd & He). rewrite He by done. by inversion Hd.
    + rewrite (bool_decide_eq_false_2 (c = DOLLAR)) by done.
      apply (match_one_spec c [] text); [| |exact IH1]; simpl; by rewrite bool_decide_eq_false_2.
  - destruct (decide (c1 = STAR)) as [->|Hc1].
    + rewrite bool_decide_eq_true_2 by done. rewrite matchstar_with_spec. unfold prefix_matches. simpl.
      destruct (items re2) as [l e] eqn:Hi. simpl. split.
      * intros (s1 & s2 & -> & Hf & (s3 & s4 & -> & Hd & He)%IH); [|simpl in Hn; lia].
        rewrite Hi in Hd, He. exists (s1 ++ s3), s4. split_and!; [by rewrite app_assoc| |done].
        by constructor.
      * intros (s & s4 & -> & Hd & He). inversion Hd as [| |? ? s1 s3 Hf Hd']; subst.
        exists s1, (s3 ++ s4). split_and!; [by rewrite app_assoc|done|].
        apply IH; [simpl in Hn; lia|]. exists s3, s4. by rewrite Hi.
    + rewrite (bool_decide_eq_false_2 (c1 = STAR)) by done.
      apply (match_one_spec c (c1 :: re2) text); [| |exact IH1]; by rewrite items_one.
Qed.

Lemma matchhere_spec re text : matchhere re text = true ↔ prefix_matches re text.
Proof. by apply (matchhere_spec_aux (length re)). Qed.

Lemma match_loop_spec re : ∀ text,
  match_loop re text = true ↔ ∃ s0 s, text = s0 ++ s ∧ prefix_matches re s.
Proof.
  induction text as [|t text IH]; cbn [match_loop].
  - destruct (matchhere re []) eqn:Hm; split; try done.
    + intros _. exists [], []. split; [done|]. by apply matchhere_spec.
    + intros (s0 & s & Hs & Hp). symmetry in Hs. apply app_eq_nil in Hs as [-> ->].
      apply matchhere_spec in Hp. congruence.
  - destruct (matchhere re (t :: text)) eqn:Hm.
    + split; [intros _|done]. exists [], (t :: text). split; [done|]. by apply matchhere_spec.
    + rewrite IH. split; [intros (s0 & s & -> & Hp); by exists (t :: s0), s|].
      intros (s0 & s & Hs & Hp). destruct s0 as [|t' s0]; simpl in Hs.
      * subst. apply matchhere_spec in Hp. congruence.
      * injection Hs as <- ->. by exists s0, s.
Qed.

(** C35: the matcher decides the meaning of patterns.  [match_] accepts a text
    exactly when some part of it is denoted by the items of the pattern: a part
    at the start when the pattern begins with [^], one up to the end when it
    ends with [$]. *)
Theorem grep_match_spec re text :
  match_ re text = true ↔
  match re with
  | c :: re' => if bool_decide (c = CARET) then prefix_matches re' text
                else ∃ s0 s, text = s0 ++ s ∧ prefix_matches re s
  | [] => True
  end.
Proof.
  destruct re as [|c re]; simpl.
  - by destruct text.
  - case_bool_decide; [apply matchhere_spec|apply match_loop_spec].
Qed.

(** ** Filtering *)

(** The lines of a text, each without its newline, and the unfinished last one. *)
Fixpoint lines (s : list Z) : list (list Z) * list Z :=
  match s with
  | [] => ([], [])
  | c :: s =>
      let '(ls, rest) := lines s in
      if bool_decide (c = NEWLINE) then ([] :: ls, rest) else
      match ls with
      | [] => ([], c :: rest)
      | l :: ls => ((c :: l) :: ls, rest)
      end
  end.

Definition printed (pattern : list Z) (ls : list (list Z)) : list Z :=
  concat ((λ l, if match_ pattern l then l ++ [NEWLINE] else []) <$> ls).

Lemma next_line_lines p : 0 ∉ p →
  next_line p = match lines p with
                | (l :: _, _) => Some (l, drop (S (length l)) p)
                | ([], _) => None
                end ∧
  match lines p with
  | (l :: ls, rest) => lines (drop (S (length l)) p) = (ls, rest)
  | ([], rest) => rest = p
  end.
Proof.
  induction p as [|c p IH]; intros H0; [done|]. apply not_elem_of_cons in H0 as [Hc H0].
  destruct (IH H0) as [IH1 IH2]. cbn [next_line lines]. rewrite bool_decide_eq_false_2 by done.
  destruct (lines p) as [ls rest] eqn:Hl. case_bool_decide as Hn; [done|].
  rewrite IH1. destruct ls as [|l ls]; [by subst|]. simpl. done.
Qed.

Lemma grep_lines_spec pattern : ∀ fuel p, 0 ∉ p → (length p < fuel)%nat →
  grep_lines fuel pattern p =
    (printed pattern (lines p).1, (lines p).2, bool_decide ((lines p).1 ≠ [])).
Proof.
  induction fuel as [|fuel IH]; intros p H0 Hf; [lia|]. cbn [grep_lines].
  destruct (next_line_lines p H0) as [E1 E2]. rewrite E1.
  destruct (lines p) as [[|l ls] rest] eqn:Hl; simpl in *.
  - by subst.
  - rewrite IH; [|intros H; apply H0; by eapply subseteq_drop|].
    + by rewrite E2.
    + rewrite length_drop. destruct p; [done|]. simpl in *. lia.
Qed.

(** Lines of a text in two parts: the last line of the first part goes on. *)
Lemma lines_app s1 s2 :
  lines (s1 ++ s2) = ((lines s1).1 ++ (lines ((lines s1).2 ++ s2)).1, (lines ((lines s1).2 ++ s2)).2).
Proof.
  induction s1 as [|c s1 IH]; simpl; [by destruct (lines s2)|].
  destruct (lines s1) as [ls1 rest1]. rewrite IH. simpl. case_bool_decide as Hc; [done|].
  destruct ls1 as [|l ls1]; simpl; [|done]. rewrite (bool_decide_eq_false_2 (c = NEWLINE)) by done.
  destruct (lines (rest1 ++ s2)) as [ls2 rest2]. by destruct ls2.
Qed.

Lemma lines_rest s : (lines (lines s).2).1 = [] ∧ (lines s).2 ⊆ s.
Proof.
  induction s as [|c s (IH1 & IH2)]; simpl; [done|].
  destruct (lines s) as [ls rest]. simpl in *. case_bool_decide as Hc; simpl; [split; set_solver|].
  destruct ls as [|l ls]; simpl; [|split; [done|set_solver]].
  destruct (lines rest) as [ls' rest'] eqn:Hr. simpl in IH1. subst ls'.
  rewrite bool_decide_eq_false_2 by done. split; [done|set_solver].
Qed.

Lemma lines_newline s : NEWLINE ∈ s → (lines s).1 ≠ [].
Proof.
  induction s as [|c s IH]; simpl; [by intros ?%not_elem_of_nil|].
  destruct (lines s) as [ls rest]. intros [Hc|Hin]%elem_of_cons.
  - rewrite bool_decide_eq_true_2 by done. done.
  - simpl in IH. case_bool_decide; [done|]. by destruct ls; [destruct (IH Hin)|].
Qed.

(** Grep prints the lines that match.  If every [read] returns some bytes that
    contain a newline and no zero, then [grep] writes exactly the lines of the file
    that match the pattern, in order. *)
Theorem grep_filters pattern reads :
  Forall (λ c, NEWLINE ∈ c ∧ 0 ∉ c) reads →
  grep pattern [] reads = printed pattern (lines (concat reads)).1.
Proof.
  intros Hr. assert (H : ∀ buf, 0 ∉ buf → (lines buf).1 = [] →
    grep pattern buf reads = printed pattern (lines (buf ++ concat reads)).1).
  { induction Hr as [|c reads [Hn Hz] _ IH]; intros buf H0 Hb.
    - simpl. rewrite app_nil_r. by rewrite Hb.
    - cbn [grep concat]. rewrite bool_decide_eq_false_2 by (intros ->; by apply not_elem_of_nil in Hn).
      rewrite grep_lines_spec; [|by rewrite not_elem_of_app|lia].
      rewrite bool_decide_eq_true_2 by (apply lines_newline; set_solver).
      destruct (lines_rest (buf ++ c)) as (Hl & Hsub). rewrite app_assoc, (lines_app (buf ++ c)).
      rewrite IH; [|intros Hin; apply Hsub in Hin; set_solver|done].
      unfold printed. cbn [fst snd]. by rewrite fmap_app, concat_app. }
  apply (H []); [apply not_elem_of_nil|done].
Qed.

Lemma grep_filters_witness :
  grep [97; 98; 42] [] [[97; 10; 99]; [97; 98; 98; 10; 98; 10]] = [97; 10; 99; 97; 98; 98; 10].
Proof.
  rewrite (grep_filters [97; 98; 42] [[97; 10; 99]; [97; 98; 98; 10; 98; 10]]); [reflexivity|].
  repeat constructor; (vm_compute; by repeat constructor) || (intros H; repeat (apply elem_of_cons in H as [?|H]; [done|]); by apply not_elem_of_nil in H).
Defined.

(** A line that arrives in two reads is cut.  After a read without a newline
    the buffer is dropped ([if (p == buf) m = 0]), so the line "ab" read as "a" and
    "b\n" is not found, although the pattern "ab" matches it, and the line that is
    printed for the pattern "b" is only "b". *)
Theorem grep_cuts_lines :
  grep [97; 98] [] [[97]; [98; NEWLINE]] = [] ∧
  grep [97; 98] [] [[97; 98; NEWLINE]] = [97; 98; NEWLINE] ∧
  grep [98] [] [[97]; [98; NEWLINE]] = [98; NEWLINE].
Proof. split_and!; reflexivity. Qed.
