(* ===== verification/GrepMain.v ===== *)
(** * The program grep

    The [main] of [src/grep.c] and its function [grep] over the system calls of
    [UserProgs], with the buffer of 1024 bytes, and what the program prints. *)

From Stdlib Require Import Strings.String.
From S2P Require Import Prelude Strings Printf UserProgs UserThm Grep.

Module GrepMain.
Import UserProgs UserThm.

(** [sizeof(buf)] *)
Definition BUFSIZE : Z := 1024.

Section Grep.

Context {W : Type} {SYS : Sys W}.

(** The inner loop: it writes the lines that match, and gives what is left at [p] and
    whether [p] has moved. *)
Fixpoint grep_put (fuel : nat) (pattern p : list Z) : U W (list Z * bool) :=
  match fuel with
  | O => uspin
  | S fuel =>
      match next_line p with
      | None => mret (p, false)
      | Some (l, rest) =>
          (if match_ pattern l then _ ← call (sys_write 1 (l ++ [NEWLINE])); mret tt else mret tt) ;;
          x ← grep_put fuel pattern rest; mret (x.1, true)
      end
  end.

(** [grep(pattern, fd)] with the [m] bytes [buf] in the buffer. *)
Fixpoint grep_fd (fuel : nat) (pattern : list Z) (fd : Z) (buf : list Z) : U W unit :=
  match fuel with
  | O => uspin
  | S fuel =>
      x ← call (sys_read fd (BUFSIZE - Z.of_nat (length buf) - 1));
      if bool_decide (0 < x.1) then
        let b := buf ++ x.2 in
        y ← grep_put (S (length b)) pattern b;
        grep_fd fuel pattern fd (if (y : list Z * bool).2 then y.1 else [])
      else mret tt
  end.

Fixpoint grep_files (fuel : nat) (pattern : list Z) (l : list (list Z)) : U W unit :=
  match l with
  | [] => mret tt
  | f :: l =>
      fd ← call (sys_open f 0);
      if bool_decide (fd < 0) then uprintf 1 (chars "grep: cannot open %s" ++ [NEWLINE]) [AS f] ;; exit
      else grep_fd fuel pattern fd [] ;; _ ← call (sys_close fd); grep_files fuel pattern l
  end.

Definition grep_main (fuel : nat) (argv : list (list Z)) : U W unit :=
  match argv with
  | _ :: pattern :: files =>
      if bool_decide (files = []) then grep_fd fuel pattern 0 [] ;; exit
      else grep_files fuel pattern files ;; exit
  | _ => uprintf 2 (chars "usage: grep pattern [file ...]" ++ [NEWLINE]) [] ;; exit
  end.

End Grep.

(** ** What it prints *)

(** Descriptors of files, as against pipes and devices: opening a file gives one, reading
    and writing leave it one, and a read from one gives as many of the bytes asked for
    as the file still has, as [readi] does for a file. *)
Class FileLaws (W : Type) `{SysLaws W} : Type := {
  regular : W → Z → Prop;
  open_regular : ∀ f c w, file f = Some c → regular (sys_open f 0 w).2 (sys_open f 0 w).1;
  read_regular : ∀ fd n w, regular w fd → 0 < n →
    (sys_read fd n w).1.2 = take (Z.to_nat n) (input w fd) ∧ regular (sys_read fd n w).2 fd;
  write_regular : ∀ fd d l w, regular w fd → regular (sys_write d l w).2 fd;
}.

Section Thm.

Context {W : Type} {SYS : Sys W} {LAWS : SysLaws W} {FLAWS : FileLaws W}.
Implicit Types w : W.

(** The lines fit the buffer together with their newlines, and no byte is zero. *)
Definition fits_buffer (c : list Z) : Prop := (0 ∉ c) ∧ Forall (λ l, (length l ≤ 1022)%nat) (Grep.lines c).1.

Lemma grep_put_prints pattern : ∀ fuel p w, 0 ∉ p → (length p < fuel)%nat →
  returns (grep_put fuel pattern p) (λ y w', y = ((Grep.lines p).2, bool_decide ((Grep.lines p).1 ≠ [])) ∧
    prints (printed pattern (Grep.lines p).1) w w' ∧ (∀ d, input w' d = input w d) ∧ ∀ d, regular w d → regular w' d) w.
Proof.
  induction fuel as [|fuel IH]; intros p w H0 Hf; [lia|]. cbn [grep_put]. destruct (next_line_lines p H0) as [E1 E2]. rewrite E1.
  destruct (Grep.lines p) as [[|l ls] rest] eqn:Hl; cbn [fst snd] in *.
  { subst rest. split_and!; [done|by apply prints_same|done|done]. }
  apply returns_bind. eapply (returns_mono _ (λ _ w1, prints (if match_ pattern l then l ++ [NEWLINE] else []) w w1 ∧
    (∀ d, input w1 d = input w d) ∧ ∀ d, regular w d → regular w1 d)).
  { destruct (match_ pattern l); [|split_and!; [by apply prints_same|done|done]]. destruct (write_law 1 (l ++ [NEWLINE]) w) as (_ & F2 & F3 & F4).
    unfold returns, call, mbind, U_bind, mret, U_ret. split_and!; [by split|done|]. intros d. apply write_regular. }
  intros [] w1 (Hp1 & Hi1 & Hr1). apply returns_bind. set (p' := drop _ p) in *. eapply returns_mono; [apply (IH p')|].
  - intros H. apply H0. by eapply subseteq_drop.
  - unfold p'. rewrite length_drop. destruct p; [done|]. cbn [length] in *. lia.
  - rewrite E2. cbn [fst snd]. intros y w2 (-> & Hp2 & Hi2 & Hr2). split_and!; [done| |intros d; by rewrite Hi2|intros d Hd; by apply Hr2, Hr1].
    exact (prints_trans _ _ _ _ _ Hp1 Hp2).
Qed.

(** Without a whole line in the buffer, either the buffer is full or the end of the
    file has been read. *)
Lemma no_line_left b i : (Grep.lines b).1 = [] → Forall (λ l, (length l ≤ 1022)%nat) (Grep.lines (b ++ i)).1 →
  (i ≠ [] → length b = 1023%nat) → (Grep.lines (b ++ i)).1 = [] ∧ (Grep.lines i).1 = [].
Proof.
  intros Hb Hs Hi. destruct (decide (i = [])) as [->|Hne]; [by rewrite app_nil_r|]. specialize (Hi Hne).
  assert (Hlen : ∀ b, (Grep.lines b).1 = [] → match (Grep.lines (b ++ i)).1 with
    | [] => (Grep.lines i).1 = [] | l :: _ => (length b ≤ length l)%nat end).
  { clear. induction b as [|c b IH]; [intros _; cbn [app]; destruct (Grep.lines i) as [[|??] ?]; cbn; [done|lia]|]. cbn [app Grep.lines].
    destruct (Grep.lines b) as [ls r]. case_bool_decide; [done|]. destruct ls; [|done]. intros _. specialize (IH eq_refl).
    destruct (Grep.lines (b ++ i)) as [[|l ls] r']; cbn [fst length] in *; [done|lia]. }
  specialize (Hlen b Hb). destruct (Grep.lines (b ++ i)).1 as [|l ls]; [done|]. apply Forall_cons in Hs as [Hs _]. lia.
Qed.

Lemma lines_rest_short s : (Grep.lines s).1 ≠ [] → (length (Grep.lines s).2 < length s)%nat.
Proof.
  assert (Hle : ∀ s, (length (Grep.lines s).2 ≤ length s)%nat).
  { clear. induction s as [|c s IH]; cbn [Grep.lines length]; [done|]. destruct (Grep.lines s) as [ls r]. cbn [snd] in IH.
    case_bool_decide; cbn [snd]; [lia|]. destruct ls; cbn [snd length]; lia. }
  induction s as [|c s IH]; cbn [Grep.lines length]; [done|]. pose proof (Hle s) as Hs. destruct (Grep.lines s) as [ls r]. cbn [fst snd] in *.
  case_bool_decide; cbn [fst snd]; [lia|]. destruct ls; cbn [fst snd length]; [done|lia].
Qed.

Lemma grep_fd_prints pattern fd : ∀ fuel buf w,
  regular w fd → (length buf ≤ 1022)%nat → (Grep.lines buf).1 = [] → fits_buffer (buf ++ input w fd) → (length (input w fd) < fuel)%nat →
  returns (grep_fd fuel pattern fd buf) (λ _ w', prints (printed pattern (Grep.lines (buf ++ input w fd)).1) w w') w.
Proof.
  induction fuel as [|fuel IH]; intros buf w Hreg Hbuf Hb [H0 Hs] Hf; [lia|]. cbn [grep_fd]. apply returns_bind. unfold returns at 1, call, BUFSIZE.
  set (n := 1024 - Z.of_nat (length buf) - 1) in *. assert (Hn : 0 < n) by (unfold n; lia). destruct (read_regular fd n w Hreg Hn) as [E2 Hreg1].
  destruct (read_law fd n w Hn) as (E1 & _ & E3 & E4 & E5). destruct (sys_read fd n w) as [[r c] w1]. cbn [fst snd] in *. subst r.
  destruct (decide (c = [])) as [->|Hne].
  { cbn [length]. rewrite bool_decide_eq_false_2 by lia. assert (Hi : input w fd = []) by (destruct (input w fd); [done|by destruct (E4 ltac:(done))]).
    rewrite Hi, app_nil_r, Hb. by apply prints_same. }
  assert (0 < length c)%nat by (destruct c; [done|cbn; lia]). rewrite bool_decide_eq_true_2 by lia. rewrite E3, length_app in Hf.
  assert (Hc : (length c ≤ 1023 - length buf)%nat) by (rewrite E2, length_take; unfold n; lia).
  rewrite E3, app_assoc in H0, Hs |- *. pose proof H0 as [H0b H0i]%not_elem_of_app.
  apply returns_bind. eapply returns_mono; [apply grep_put_prints; [done|lia]|]. intros y w2 (-> & Hp & Hi & Hr2). apply Hr2 in Hreg1 as Hreg2.
  cbn [fst snd]. rewrite <- (Hi fd) in *.
  apply (prints_trans [] _ w) in Hp; [|by apply prints_same]. cbn [app] in Hp. case_bool_decide as Hl.
  - rewrite (lines_app (buf ++ c) (input w2 fd)) in Hs |- *. cbn [fst] in *. apply Forall_app in Hs as [_ Hs]. destruct (lines_rest (buf ++ c)) as [Hr Hsub].
    set (r := (Grep.lines (buf ++ c)).2) in *.
    eapply returns_mono; [apply (IH r w2)|]; [exact Hreg2| |exact Hr|split; [|exact Hs]|lia|].
    + pose proof (lines_rest_short _ Hl) as Hlt. fold r in Hlt. rewrite length_app in Hlt. lia.
    + intros [Hin|Hin]%elem_of_app; [by apply H0b, Hsub|done].
    + intros [] w3 Hp3. unfold printed. rewrite fmap_app, concat_app. by apply (prints_trans _ _ _ w2).
  - destruct (no_line_left (buf ++ c) (input w2 fd)) as [-> El]; [done..| |].
    { intros Hne2. rewrite length_app, E2, length_take. pose proof (f_equal length E3) as E. rewrite length_app, E2, length_take in E.
      destruct (input w2 fd); [done|]. cbn [length] in E. unfold n in *. lia. }
    eapply returns_mono; [apply (IH [] w2); [done|cbn; lia|done|split; [done|cbn [app]; by rewrite El]|lia]|].
    intros [] w3 Hp3. cbn [app] in Hp3. rewrite El in Hp3. rewrite Hl in Hp. exact (prints_trans _ _ _ _ _ Hp Hp3).
Qed.

(** A file that [grep] can read within [fuel] turns. *)
Definition greppable (fuel : nat) (f c : list Z) : Prop := file f = Some c ∧ (length c < fuel)%nat ∧ fits_buffer c.

Lemma grep_files_prints fuel pattern fs : ∀ cs w, Forall2 (greppable fuel) fs cs →
  returns (grep_files fuel pattern fs) (λ _ w', prints (concat ((λ c, printed pattern (Grep.lines c).1) <$> cs)) w w') w.
Proof.
  induction fs as [|f fs IH]; intros cs w Hc; apply Forall2_cons_inv_l in Hc || apply Forall2_nil_inv_l in Hc; [subst; by apply prints_same|].
  destruct Hc as (c & cs' & (E & Hf & Hl) & Hcs & ->). cbn [grep_files fmap list_fmap concat]. apply returns_bind. unfold returns at 1, call.
  destruct (open_law f w) as [Ho Hopen]. pose proof (open_regular f c w E) as Hreg. rewrite E in Hopen. destruct (sys_open f 0 w) as [fd w1]. cbn [fst snd] in *. destruct Hopen as [Hfd Hin].
  rewrite bool_decide_eq_false_2 by lia. apply returns_bind.
  eapply returns_mono; [apply (grep_fd_prints pattern fd fuel [] w1); [done|cbn; lia|done|by rewrite Hin|by rewrite Hin]|].
  intros [] w2 Hp. rewrite Hin in Hp. apply returns_bind. unfold returns at 1, call. eapply returns_mono; [by apply (IH cs')|]. intros [] w3 Hp3.
  apply (prints_trans [] _ w w1); [by apply prints_same|]. apply (prints_trans _ _ _ w2); [done|].
  apply (prints_trans [] _ _ (sys_close fd w2).2); [apply prints_same, close_law|done].
Qed.

(** C40: [grep] prints exactly the lines of its files that match the pattern, in order,
    for files of any length, although it reads them in pieces of a buffer that cut
    lines anywhere.  The lines are those that a newline ends: what follows the last
    newline is not looked at.  They have at most 1022 bytes, no byte is zero, and
    the arguments are files, of which a read gives all the bytes asked for. *)
Theorem grep_main_filters fuel prog pattern fs cs w :
  fs ≠ [] → Forall2 (greppable fuel) fs cs →
  exits (grep_main fuel (prog :: pattern :: fs))
    (λ w', prints (concat ((λ c, printed pattern (Grep.lines c).1) <$> cs)) w w') w.
Proof.
  intros Hne Hc. cbn [grep_main]. rewrite bool_decide_eq_false_2 by done. by apply exits_after, grep_files_prints.
Qed.

End Thm.

(** ** A system with one file *)

Record one_file : Type := OneFile { of_in : list Z; of_out : Z → list Z }.

Definition demo_text : list Z := chars "able" ++ [NEWLINE] ++ chars "bird" ++ [NEWLINE] ++ chars "cable" ++ [NEWLINE] ++ chars "table".

#[global] Instance one_file_calls : Sys one_file := {|
  sys_read fd n s := let b := take (Z.to_nat n) (of_in s) in
    ((Z.of_nat (length b), b), OneFile (drop (Z.to_nat n) (of_in s)) (of_out s));
  sys_write fd l s := (Z.of_nat (length l), OneFile (of_in s) (<[fd := of_out s fd ++ l]> (of_out s)));
  sys_open f m s := if bool_decide (f = chars "f") then (3, OneFile demo_text (of_out s)) else (-1, s);
  sys_close fd s := (0, s); sys_fstat fd s := ((-1, Stat 0 0 0 0 0), s); sys_link f g s := (-1, s); sys_unlink f s := (-1, s);
  sys_mkdir f s := (-1, s); sys_mknod f a b s := (-1, s); sys_chdir f s := (-1, s); sys_dup fd s := (-1, s); sys_kill p s := (-1, s);
  sys_sleep n s := (0, s); sys_fork s := (-1, s); sys_wait s := (-1, s); sys_exec f a s := (-1, s)
|}.

#[global] Instance one_file_laws : SysLaws one_file.
Proof.
  refine {| input := λ s _, of_in s; output := of_out; file := λ f, if bool_decide (f = chars "f") then Some demo_text else None |}.
  - intros fd n w Hn. cbn [sys_read one_file_calls fst snd of_in of_out]. split_and!; [done|rewrite length_take; lia|by rewrite take_drop| |done].
    intros Hne. destruct (of_in w); [done|]. by replace (Z.to_nat n) with (S (Z.to_nat (n - 1))) by lia.
  - intros fd l w. cbn. split_and!; [done|by rewrite fn_lookup_insert| |done]. intros d Hd. by rewrite fn_lookup_insert_ne.
  - intros f w. cbn. by case_bool_decide.
  - done.
Defined.

#[global] Instance one_file_regular : FileLaws one_file.
Proof. by refine {| regular := λ _ _, True |}. Defined.

Lemma grep_main_filters_witness :
  exits (grep_main 30 [chars "grep"; chars "^.*able$"; chars "f"])
    (λ w', of_out w' 1 = chars "able" ++ [NEWLINE] ++ chars "cable" ++ [NEWLINE]) (OneFile [] (λ _, [])).
Proof.
  eapply exits_mono.
  - apply (grep_main_filters (SYS := one_file_calls) (LAWS := one_file_laws) (FLAWS := one_file_regular) 30 (chars "grep") (chars "^.*able$") [chars "f"]
      [demo_text]); [discriminate|]. constructor; [|constructor]. split; [reflexivity|]. split; [cbn; lia|]. split.
    + intros H. repeat (apply elem_of_cons in H as [?|H]; [discriminate|]). by apply not_elem_of_nil in H.
    + repeat constructor; cbn; lia.
  - intros w' [E _]. exact E.
Defined.

(** ** A pipe *)

(** What is in the pipe, in the pieces in which it was written: a read gives the bytes
    that are there. *)
Record piped : Type := Piped { pd_in : list (list Z); pd_out : Z → list Z }.

#[local] Instance piped_calls : Sys piped := {|
  sys_read fd n s :=
    match pd_in s with
    | [] => ((0, []), s)
    | l :: ls => let b := take (Z.to_nat n) l in
        ((Z.of_nat (length b), b), Piped (if bool_decide (drop (Z.to_nat n) l = []) then ls else drop (Z.to_nat n) l :: ls) (pd_out s))
    end;
  sys_write fd l s := (Z.of_nat (length l), Piped (pd_in s) (<[fd := pd_out s fd ++ l]> (pd_out s)));
  sys_open f m s := (-1, s);
  sys_close fd s := (0, s); sys_fstat fd s := ((-1, Stat 0 0 0 0 0), s); sys_link f g s := (-1, s); sys_unlink f s := (-1, s);
  sys_mkdir f s := (-1, s); sys_mknod f a b s := (-1, s); sys_chdir f s := (-1, s); sys_dup fd s := (-1, s); sys_kill p s := (-1, s);
  sys_sleep n s := (0, s); sys_fork s := (-1, s); sys_wait s := (-1, s); sys_exec f a s := (-1, s)
|}.

(** A line that comes through a pipe in two pieces loses the first one, since without a
    newline in the buffer [grep] sets [m] to 0: it prints a line that does not begin as
    the pattern demands, and not the one that does. *)
Theorem grep_short_read_cuts :
  let run pattern := match grep_main 30 [chars "grep"; pattern] (Piped [chars "ca"; chars "ble" ++ [NEWLINE]] (λ _, [])) with
    | UExit w => pd_out w 1
    | _ => []
    end in
  run (chars "^b") = chars "ble" ++ [NEWLINE] ∧ run (chars "^c") = [].
Proof. split; vm_compute; reflexivity. Qed.

End GrepMain.
