(* ===== verification/Sh.v ===== *)
(** * The shell

    [src/sh.c]: the lexer, the parser of command lines, and what a parsed
    command does.  The parser works on positions in the line it was given, as
    the C code works on pointers into its buffer: the words of a command are
    pairs of positions until [nulterminate] writes a zero after each of them.
    The state of the parser is the position [*ps]; [es] is the length of the
    line, and the byte there is zero. *)

From S2P Require Import Prelude.

Module Sh.

Definition MAXARGS : nat := 10.
Definition O_RDONLY : Z := 0.
Definition O_WRONLY : Z := 1.
Definition O_CREATE : Z := 512.

(** ** Commands *)

Abbreviation pos := nat.

Inductive cmd : Type :=
| EXEC (argv : list (pos * pos))
| REDIR (c : cmd) (file efile : pos) (mode fd : Z)
| PIPE (left right : cmd)
| LIST (left right : cmd)
| BACK (c : cmd).

(** ** Characters *)

Definition whitespace : list Z := [32; 9; 13; 10; 11].
Definition symbols : list Z := [60; 124; 62; 38; 59; 40; 41].

(** [strchr(l, c)] for one of the constant strings of the shell. *)
Definition inb (c : Z) (l : list Z) : bool := bool_decide (c ∈ l).

Definition is_symbol1 (c : Z) : bool := inb c [124; 40; 41; 59; 38; 60].

Section Parser.

Context (text : list Z).

Definition es : nat := length text.
Definition char_at (s : pos) : Z := default 0 (text !! s).

(** [while(s < es && strchr(whitespace, *s)) s++;] on the rest of the line. *)
Fixpoint skip_white (l : list Z) (s : pos) : pos :=
  match l with
  | [] => s
  | c :: l => if inb c whitespace then skip_white l (S s) else s
  end.

Definition skip (s : pos) : pos := skip_white (drop s text) s.

(** [while(s < es && !strchr(whitespace, *s) && !strchr(symbols, *s)) s++;] *)
Fixpoint skip_word (l : list Z) (s : pos) : pos :=
  match l with
  | [] => s
  | c :: l => if inb c whitespace || inb c symbols then s else skip_word l (S s)
  end.

(** The token at [*ps], and the positions [*q] and [*eq]. *)
Definition gettoken : M pos (Z * pos * pos) := λ ps,
  let q := skip ps in
  let c := char_at q in
  let '(ret, eq) :=
    if bool_decide (c = 0) then (0, q)
    else if is_symbol1 c then (c, S q)
    else if bool_decide (c = 62) then
      (if bool_decide (char_at (S q) = 62) then (43, S (S q)) else (62, S q))
    else (97, skip_word (drop q text) q) in
  Ok (ret, q, eq) (skip eq).

Definition peek (toks : list Z) : M pos bool := λ ps,
  let s := skip ps in
  Ok (negb (bool_decide (char_at s = 0)) && inb (char_at s) toks) s.

(** ** The parser *)

Fixpoint parseredirs (fuel : nat) (c : cmd) : M pos cmd :=
  match fuel with
  | O => spin
  | S fuel =>
      b ← peek [60; 62];
      if (b : bool) then
        t ← gettoken;
        f ← gettoken;
        let '(tok, _, _) := t in
        let '(ret, q, eq) := f in
        if bool_decide (ret ≠ 97) then panic "missing file for redirection" else
        if bool_decide (tok = 60) then parseredirs fuel (REDIR c q eq O_RDONLY 0)
        else if bool_decide (tok = 62) then parseredirs fuel (REDIR c q eq (Z.lor O_WRONLY O_CREATE) 1)
        else if bool_decide (tok = 43) then parseredirs fuel (REDIR c q eq (Z.lor O_WRONLY O_CREATE) 1)
        else parseredirs fuel c
      else mret c
  end.

(** [cmd->argv[...] = ...], where [cmd] is the [execcmd] around which
    [parseredirs] has put redirections. *)
Fixpoint set_argv (argv : list (pos * pos)) (ret : cmd) : cmd :=
  match ret with
  | EXEC _ => EXEC argv
  | REDIR c f ef m fd => REDIR (set_argv argv c) f ef m fd
  | c => c
  end.

(** The loop of [parseexec] over the words; [argv] are those found so far. *)
Fixpoint parse_args (fuel : nat) (argv : list (pos * pos)) (ret : cmd) : M pos cmd :=
  match fuel with
  | O => spin
  | S fuel =>
      b ← peek [124; 41; 38; 59];
      if (b : bool) then mret (set_argv argv ret) else
      t ← gettoken;
      let '(tok, q, eq) := t in
      if bool_decide (tok = 0) then mret (set_argv argv ret) else
      if bool_decide (tok ≠ 97) then panic "syntax" else
      let argv := argv ++ [(q, eq)] in
      if bool_decide (MAXARGS ≤ length argv)%nat then panic "too many args" else
      ret ← parseredirs fuel ret;
      parse_args fuel argv ret
  end.

(** The loop of [parseline] over [&]. *)
Fixpoint parse_backs (fuel : nat) (c : cmd) : M pos cmd :=
  match fuel with
  | O => spin
  | S fuel =>
      b ← peek [38];
      if (b : bool) then gettoken ;; parse_backs fuel (BACK c) else mret c
  end.

(** The four functions of the grammar call each other; each is a definition over the
    parsers [rec] that it calls, and [parse] ties them together. *)
Inductive nonterminal : Type := NLine | NPipe | NBlock | NExec.

Definition parseline (rec : nonterminal → M pos cmd) : M pos cmd :=
  c ← rec NPipe;
  c ← parse_backs (S es) c;
  b ← peek [59];
  if (b : bool) then gettoken ;; r ← rec NLine; mret (LIST c r) else mret c.

Definition parsepipe (rec : nonterminal → M pos cmd) : M pos cmd :=
  c ← rec NExec;
  b ← peek [124];
  if (b : bool) then gettoken ;; r ← rec NPipe; mret (PIPE c r) else mret c.

Definition parseblock (rec : nonterminal → M pos cmd) : M pos cmd :=
  b ← peek [40];
  if negb b then panic "parseblock" else
  gettoken ;;
  c ← rec NLine;
  b ← peek [41];
  if negb b then panic "syntax - missing )" else
  gettoken ;;
  parseredirs (S es) c.

Definition parseexec (rec : nonterminal → M pos cmd) : M pos cmd :=
  b ← peek [40];
  if (b : bool) then rec NBlock else
  ret ← parseredirs (S es) (EXEC []);
  parse_args (S (S es)) [] ret.

(** Every call takes a unit of fuel. *)
Fixpoint parse (fuel : nat) (nt : nonterminal) : M pos cmd :=
  match fuel with
  | O => spin
  | S fuel =>
      match nt with
      | NLine => parseline (parse fuel)
      | NPipe => parsepipe (parse fuel)
      | NBlock => parseblock (parse fuel)
      | NExec => parseexec (parse fuel)
      end
  end.

(** ** Ending the words *)

Fixpoint zero_at (l : list pos) (buf : list Z) : list Z :=
  match l with
  | [] => buf
  | e :: l => zero_at l (<[e := 0]> buf)
  end.

Fixpoint nulterminate (c : cmd) (buf : list Z) : list Z :=
  match c with
  | EXEC argv => zero_at (argv.*2) buf
  | REDIR c _ ef _ _ => <[ef := 0]> (nulterminate c buf)
  | PIPE l r => nulterminate r (nulterminate l buf)
  | LIST l r => nulterminate r (nulterminate l buf)
  | BACK c => nulterminate c buf
  end.

(** [parsecmd]: the command and the contents of the buffer, the final zero
    included. *)
Definition parsecmd (fuel : nat) : M pos (cmd * list Z) :=
  c ← parse fuel NLine;
  peek [] ;;
  s ← get;
  if bool_decide (s ≠ es) then panic "syntax" else
  mret (c, nulterminate c (text ++ [0])).

End Parser.

(** ** Printing commands

    The syntax that the parser reads, as a printer of abstract commands at the
    four levels of the grammar.  Every token is followed by a space. *)

Inductive acmd : Type :=
| AExec (argv : list (list Z))
| ARedir (c : acmd) (file : list Z) (out : bool)
| APipe (left right : acmd)
| AList (left right : acmd)
| ABack (c : acmd).

Inductive level : Type := LExec | LPipe | LBack | LLine.

Definition sym (c : Z) : list Z := [c; 32].
Definition word (w : list Z) : list Z := w ++ [32].
Definition show_redir (file : list Z) (out : bool) : list Z :=
  sym (if out then 62 else 60) ++ word file.
Definition paren (s : list Z) : list Z := sym 40 ++ s ++ sym 41.

Fixpoint show (a : acmd) (lv : level) : list Z :=
  match a with
  | AExec argv => concat (word <$> argv)
  | ARedir c file out => show c LExec ++ show_redir file out
  | APipe l r =>
      let s := show l LExec ++ sym 124 ++ show r LPipe in
      match lv with LExec => paren s | _ => s end
  | AList l r =>
      let s := show l LBack ++ sym 59 ++ show r LLine in
      match lv with LLine => s | _ => paren s end
  | ABack c =>
      let s := show c LBack ++ sym 38 in
      match lv with LExec | LPipe => paren s | _ => s end
  end.

(** The bytes of words. *)
Definition wordchar (c : Z) : Prop := c ≠ 0 ∧ inb c whitespace = false ∧ inb c symbols = false.
Definition is_word (w : list Z) : Prop := w ≠ [] ∧ Forall wordchar w.

Fixpoint printable (a : acmd) : Prop :=
  match a with
  | AExec argv => Forall is_word argv ∧ (length argv < MAXARGS)%nat
  | ARedir c file _ => printable c ∧ is_word file
  | APipe l r | AList l r => printable l ∧ printable r
  | ABack c => printable c
  end.

(** ** Lexing *)

Section Lexing.

Context (text : list Z).

(** The line from [p] on is [l]. *)
Definition at_pos (p : pos) (l : list Z) : Prop := drop p text = l ∧ (p ≤ length text)%nat.

(** The rest of the line does not begin with white space or a zero. *)
Definition starts (l : list Z) : Prop :=
  match l with [] => True | c :: _ => inb c whitespace = false ∧ c ≠ 0 end.

Lemma at_pos_length p l : at_pos p l → (p + length l = length text)%nat.
Proof. intros [<- Hp]. rewrite length_drop. lia. Qed.

Lemma at_pos_app p l1 l2 : at_pos p (l1 ++ l2) → at_pos (p + length l1) l2.
Proof.
  intros H. pose proof (at_pos_length _ _ H) as Hl. destruct H as [H Hp]. rewrite length_app in Hl.
  split; [|lia]. rewrite <- drop_drop, H. by rewrite drop_app_length.
Qed.

Lemma at_pos_cons p c l : at_pos p (c :: l) → at_pos (S p) l.
Proof. intros H. apply (at_pos_app p [c] l) in H. by rewrite Nat.add_1_r in H. Qed.

Lemma at_pos_lookup p c l : at_pos p (c :: l) → text !! p = Some c.
Proof.
  intros [H _]. rewrite <- (Nat.add_0_r p), <- lookup_drop, H. done.
Qed.

Lemma char_at_cons p c l : at_pos p (c :: l) → char_at text p = c.
Proof. intros H. unfold char_at. by rewrite (at_pos_lookup _ _ _ H). Qed.

Lemma char_at_nil p : at_pos p [] → char_at text p = 0.
Proof.
  intros H. apply at_pos_length in H. simpl in H. unfold char_at. by rewrite lookup_ge_None_2 by lia.
Qed.

Lemma skip_starts p l : at_pos p l → starts l → skip text p = p.
Proof. intros [H _] Hs. unfold skip. rewrite H. destruct l as [|c l]; [done|]. simpl. by destruct Hs as [-> _]. Qed.

Lemma skip_space p l : at_pos p (32 :: l) → starts l → skip text p = S p.
Proof.
  intros H Hs. pose proof (at_pos_cons _ _ _ H) as H1. destruct H as [H _].
  unfold skip. rewrite H. cbn [skip_white]. change (inb 32 whitespace) with true. cbn iota.
  destruct l as [|c l]; [done|]. simpl. by destruct Hs as [-> _].
Qed.

Lemma skip_word_app w : ∀ l p, Forall wordchar w → skip_word (w ++ 32 :: l) p = (p + length w)%nat.
Proof.
  induction w as [|c w IH]; intros l p Hw; simpl; [lia|].
  apply Forall_cons in Hw as ((_ & -> & ->) & Hw). simpl. rewrite IH by done. lia.
Qed.

Lemma gettoken_word p w l :
  at_pos p (word w ++ l) → is_word w → starts l →
  gettoken text p = Ok (97, p, (p + length w)%nat) (p + length (word w))%nat.
Proof.
  unfold word. intros H [Hne Hw] Hs. rewrite <- app_assoc in H. simpl in H.
  destruct w as [|c w]; [done|]. pose proof Hw as Hw'. apply Forall_cons in Hw' as ((Hc0 & Hcw & Hcs) & _).
  assert (Hskip : skip text p = p) by (by apply (skip_starts _ _ H)).
  unfold gettoken. rewrite Hskip, (char_at_cons _ _ _ H).
  rewrite (bool_decide_eq_false_2 (c = 0)) by done.
  unfold inb in Hcs. apply bool_decide_eq_false_1 in Hcs.
  unfold is_symbol1, inb. rewrite bool_decide_eq_false_2 by (unfold symbols in Hcs; set_solver).
  rewrite bool_decide_eq_false_2 by (unfold symbols in Hcs; set_solver).
  destruct H as [E Hp]. rewrite E, (skip_word_app (c :: w)) by done.
  rewrite (skip_space _ l); [|apply (at_pos_app p (c :: w)); by split|done].
  f_equal. rewrite length_app. simpl. lia.
Qed.

Lemma gettoken_sym p c l :
  at_pos p (sym c ++ l) → is_symbol1 c = true ∨ c = 62 → starts l →
  gettoken text p = Ok (c, p, S p) (p + 2)%nat.
Proof.
  intros H Hc Hs. simpl in H. pose proof (at_pos_cons _ _ _ H) as H1.
  assert (Hst : starts (c :: 32 :: l)).
  { destruct Hc as [Hc| ->]; [|done]. unfold is_symbol1, inb in Hc. apply bool_decide_eq_true_1 in Hc.
    repeat (apply elem_of_cons in Hc as [->|Hc]; [done|]). by apply not_elem_of_nil in Hc. }
  unfold gettoken. rewrite (skip_starts _ _ H Hst), (char_at_cons _ _ _ H), (char_at_cons _ _ _ H1).
  rewrite (bool_decide_eq_false_2 (c = 0)) by apply Hst. rewrite (bool_decide_eq_false_2 (32 = 62)) by done.
  rewrite Nat.add_comm. simpl.
  destruct Hc as [-> | ->]; [|simpl]; by rewrite (skip_space (S p) l).
Qed.

Lemma gettoken_end p : at_pos p [] → gettoken text p = Ok (0, p, p) p.
Proof.
  intros H. unfold gettoken. rewrite (skip_starts _ _ H I), (char_at_nil _ H). simpl.
  by rewrite (skip_starts _ _ H I).
Qed.

Lemma peek_cons toks p c l :
  at_pos p (c :: l) → starts (c :: l) → peek text toks p = Ok (inb c toks) p.
Proof.
  intros H Hs. unfold peek. rewrite (skip_starts _ _ H Hs), (char_at_cons _ _ _ H).
  by rewrite bool_decide_eq_false_2 by apply Hs.
Qed.

Lemma peek_nil toks p : at_pos p [] → peek text toks p = Ok false p.
Proof. intros H. unfold peek. by rewrite (skip_starts _ _ H I), (char_at_nil _ H). Qed.

(** What [peek] answers depends on the first byte of the rest. *)
Definition head_in (l toks : list Z) : bool := match l with [] => false | c :: _ => inb c toks end.

Lemma peek_ok toks p l : at_pos p l → starts l → peek text toks p = Ok (head_in l toks) p.
Proof. destruct l as [|c l]; intros H Hs; [by apply peek_nil|by eapply peek_cons]. Qed.

End Lexing.

(** ** Parsing what was printed *)

Section Parsing.

Context (text : list Z).

Abbreviation at_ := (at_pos text).

(** The positions of a word in the line; it is followed by a space. *)
Definition word_at (qe : pos * pos) (w : list Z) : Prop :=
  (∃ l, at_ qe.1 (word w ++ l)) ∧ qe.2 = (qe.1 + length w)%nat ∧ is_word w.

Definition redir_mode (out : bool) : Z := if out then Z.lor O_WRONLY O_CREATE else O_RDONLY.
Definition redir_fd (out : bool) : Z := if out then 1 else 0.

(** The parsed command stands for the abstract one. *)
Inductive repr : cmd → acmd → Prop :=
| repr_exec argv ws : Forall2 word_at argv ws → repr (EXEC argv) (AExec ws)
| repr_redir c a q eq file out :
    repr c a → word_at (q, eq) file →
    repr (REDIR c q eq (redir_mode out) (redir_fd out)) (ARedir a file out)
| repr_pipe l r al ar : repr l al → repr r ar → repr (PIPE l r) (APipe al ar)
| repr_list l r al ar : repr l al → repr r ar → repr (LIST l r) (AList al ar)
| repr_back c a : repr c a → repr (BACK c) (ABack a).

(** What may follow a command of a level. *)
Definition follow (lv : level) : list Z :=
  match lv with
  | LExec => [124; 41; 38; 59] | LPipe => [41; 38; 59] | LBack => [41; 59] | LLine => [41]
  end.
Definition ends (lv : level) (l : list Z) : Prop := l = [] ∨ head_in l (follow lv) = true.

Definition show_redirs (rs : list (list Z * bool)) : list Z :=
  concat ((λ r, show_redir r.1 r.2) <$> rs).
Definition aredir (a : acmd) (r : list Z * bool) : acmd := ARedir a r.1 r.2.
Definition wrap (c : cmd) (r : pos * pos * bool) : cmd :=
  REDIR c r.1.1 r.1.2 (redir_mode r.2) (redir_fd r.2).
Definition redir_at (q : pos * pos * bool) (r : list Z * bool) : Prop := word_at q.1 r.1 ∧ q.2 = r.2.

Lemma inb_cases c l : inb c l = true → c ∈ l.
Proof. unfold inb. apply bool_decide_eq_true_1. Qed.

(** Case analysis on a byte of a constant string. *)
Ltac bytes H :=
  apply inb_cases in H; repeat (apply elem_of_cons in H as [->|H]); [..|by apply not_elem_of_nil in H].

Lemma ends_starts lv l : ends lv l → starts l.
Proof.
  intros [->|H]; [done|]. destruct l as [|c l]; [done|]. simpl in H. destruct lv; simpl in H; by bytes H.
Qed.

Lemma ends_not lv l toks : ends lv l → (∀ c, c ∈ follow lv → inb c toks = false) → head_in l toks = false.
Proof. intros [->|H] Ht; [done|]. destruct l as [|c l]; [done|]. by apply Ht, inb_cases. Qed.

Lemma ends_weaken lv lv' l : ends lv l → follow lv ⊆ follow lv' → ends lv' l.
Proof.
  intros [->|H] Hs; [by left|right]. destruct l as [|c l]; [done|]. simpl in *.
  apply bool_decide_eq_true_2, Hs, inb_cases, H.
Qed.

Lemma word_starts w l : is_word w → starts (word w ++ l).
Proof.
  intros [Hne Hw]. destruct w as [|c w]; [done|]. apply Forall_cons in Hw as ((H0 & H1 & _) & _). by split.
Qed.

Lemma word_not w l toks : is_word w → toks ⊆ symbols → head_in (word w ++ l) toks = false.
Proof.
  intros [Hne Hw] Ht. destruct w as [|c w]; [done|]. apply Forall_cons in Hw as ((_ & _ & H2) & _).
  simpl. unfold inb in *. apply bool_decide_eq_false_1 in H2. apply bool_decide_eq_false_2. set_solver.
Qed.

Lemma redirs_starts rs l : starts l → starts (show_redirs rs ++ l).
Proof. intros Hs. destruct rs as [|[f o] rs]; [done|]. simpl. by destruct o. Qed.

Lemma length_word w : length (word w) = S (length w).
Proof. unfold word. rewrite length_app. simpl. lia. Qed.

(** One redirection. *)
Lemma parseredirs_one fuel c p f (o : bool) l :
  at_ p (show_redir f o ++ l) → is_word f → starts l →
  let q := ((p + 2)%nat, (p + 2 + length f)%nat, o) in
  redir_at q (f, o) ∧
  parseredirs text (S fuel) c p = parseredirs text fuel (wrap c q) (p + length (show_redir f o))%nat.
Proof.
  intros H Hf Hl. unfold show_redir in H. rewrite <- app_assoc in H.
  pose proof (at_pos_app _ _ _ _ H) as H1. change (length (sym _)) with 2%nat in H1.
  split; [split; [|done]; split_and!; [by eexists|done|done]|].
  cbn [parseredirs]. unfold mbind, M_bind.
  assert (Hw : starts (word f ++ l)) by (by apply word_starts).
  rewrite (peek_ok text [60; 62] p _ H) by (by destruct o).
  replace (head_in _ [60; 62]) with true by (by destruct o). cbn iota.
  rewrite (gettoken_sym text p _ _ H) by (try done; destruct o; auto).
  rewrite (gettoken_word text (p + 2) f l H1 Hf Hl).
  replace (p + length (show_redir f o))%nat with (p + 2 + length (word f))%nat
    by (unfold show_redir; rewrite length_app; simpl; lia).
  by destruct o.
Qed.

Lemma parseredirs_stop fuel c p l :
  at_ p l → starts l → head_in l [60; 62] = false → parseredirs text (S fuel) c p = Ok c p.
Proof.
  intros H Hs Hh. cbn [parseredirs]. unfold mbind, M_bind. by rewrite (peek_ok text [60; 62] p _ H Hs), Hh.
Qed.

Lemma show_redirs_cons f o rs l : show_redirs ((f, o) :: rs) ++ l = show_redir f o ++ show_redirs rs ++ l.
Proof. unfold show_redirs. simpl. by rewrite <- app_assoc. Qed.

(** The redirections after a word or a block. *)
Lemma parseredirs_ok rs : ∀ fuel p l,
  at_ p (show_redirs rs ++ l) → Forall (λ r, is_word r.1) rs → starts l → head_in l [60; 62] = false →
  (length rs < fuel)%nat →
  ∃ qs, Forall2 redir_at qs rs ∧
    ∀ c, parseredirs text fuel c p = Ok (foldl wrap c qs) (p + length (show_redirs rs))%nat.
Proof.
  induction rs as [|[f o] rs IH]; intros fuel p l H Hw Hs Hh Hf.
  - exists []. split; [constructor|]. intros c. destruct fuel as [|fuel]; [simpl in Hf; lia|].
    rewrite (parseredirs_stop _ _ _ l) by done. simpl. by rewrite Nat.add_0_r.
  - rewrite show_redirs_cons in H. apply Forall_cons in Hw as [Hw1 Hw].
    destruct fuel as [|fuel]; [simpl in Hf; lia|]. pose proof (at_pos_app _ _ _ _ H) as H1.
    destruct (IH fuel _ l H1 Hw Hs Hh) as (qs & Hqs & E); [simpl in Hf; lia|].
    eexists (_ :: qs). split.
    + constructor; [|done]. by apply (parseredirs_one fuel (EXEC []) p f o _ H Hw1), redirs_starts.
    + intros c. destruct (parseredirs_one fuel c p f o _ H Hw1) as [_ E']; [by apply redirs_starts|].
      rewrite E', E. cbn [foldl]. f_equal. unfold show_redirs. rewrite fmap_cons. cbn [concat fst snd].
      rewrite length_app. lia.
Qed.

Lemma set_argv_wrap argv qs : ∀ c, set_argv argv (foldl wrap c qs) = foldl wrap (set_argv argv c) qs.
Proof. induction qs as [|q qs IH]; intros c; simpl; [done|]. by rewrite IH. Qed.

Lemma repr_wrap qs rs : Forall2 redir_at qs rs → ∀ c a, repr c a → repr (foldl wrap c qs) (foldl aredir a rs).
Proof.
  induction 1 as [|[[q eq] o] [f o'] qs rs [Hq Ho] _ IH]; intros c a Hc; simpl; [done|].
  simpl in Ho. subst o'. apply IH. by constructor.
Qed.

Lemma parse_args_stop fuel argv ret p l :
  at_ p l → ends LExec l → parse_args text (S fuel) argv ret p = Ok (set_argv argv ret) p.
Proof.
  intros H He. cbn [parse_args]. unfold mbind, M_bind.
  rewrite (peek_ok text [124; 41; 38; 59] p _ H) by (by eapply ends_starts).
  destruct He as [->|He]; [|simpl in He; by rewrite He]. simpl. by rewrite (gettoken_end text p H).
Qed.

Lemma show_args_cons w ws l : concat (word <$> (w :: ws)) ++ l = word w ++ concat (word <$> ws) ++ l.
Proof. simpl. by rewrite <- app_assoc. Qed.

(** The words of a command and the redirections after the last of them. *)
Lemma parse_args_ok ws rs : ∀ w fuel argv ret p l,
  at_ p (concat (word <$> (w :: ws)) ++ show_redirs rs ++ l) → Forall is_word (w :: ws) →
  Forall (λ r, is_word r.1) rs → ends LExec l →
  (length argv + length (w :: ws) < MAXARGS)%nat → (S (S (length ws) + length rs) < fuel)%nat →
  ∃ qws qs, Forall2 word_at qws (w :: ws) ∧ Forall2 redir_at qs rs ∧
    parse_args text fuel argv ret p =
      Ok (foldl wrap (set_argv (argv ++ qws) ret) qs)
         (p + length (concat (word <$> (w :: ws))) + length (show_redirs rs))%nat.
Proof.
  induction ws as [|w' ws IH]; intros w fuel argv ret p l H Hw Hr He Hn Hf.
  all: rewrite show_args_cons in H; pose proof (at_pos_app _ _ _ _ H) as H1;
    apply Forall_cons in Hw as [Hw1 Hw]; destruct fuel as [|fuel]; [lia|].
  all: pose proof (ends_starts _ _ He) as Hl.
  all: set (rest := concat (word <$> _) ++ show_redirs rs ++ l) in *.
  all: assert (Hrest : starts rest).
  1: by apply redirs_starts.
  2: { unfold rest. rewrite show_args_cons. apply word_starts. by apply Forall_cons in Hw as [? _]. }
  all: cbn [parse_args]; unfold mbind at 1, M_bind at 1;
    rewrite (peek_ok text [124; 41; 38; 59] p _ H) by (by apply word_starts);
    rewrite word_not by (done || (unfold symbols; set_solver));
    unfold mbind at 1, M_bind at 1; rewrite (gettoken_word text p w _ H Hw1 Hrest).
  all: rewrite (bool_decide_eq_false_2 (97 = 0)), (bool_decide_eq_false_2 (97 ≠ 97)) by (intros ?; done || lia).
  all: rewrite bool_decide_eq_false_2 by (rewrite length_app; simpl in Hn |- *; lia).
  all: assert (Hq : word_at (p, (p + length w)%nat) w) by (split_and!; [by eexists|done|done]).
  - destruct (parseredirs_ok rs fuel _ l H1 Hr Hl) as (qs & Hqs & E).
    { apply (ends_not LExec); [done|]. intros c Hc. set_solver. }
    { simpl in Hf. lia. }
    exists [(p, (p + length w)%nat)], qs. split_and!; [constructor; [done|constructor]|done|].
    unfold mbind, M_bind. rewrite E. pose proof (at_pos_app _ _ (show_redirs rs) l H1) as H2.
    destruct fuel as [|fuel]; [simpl in Hf; lia|]. rewrite (parse_args_stop _ _ _ _ l H2 He).
    rewrite set_argv_wrap. f_equal. simpl. rewrite length_app. simpl. lia.
  - destruct fuel as [|fuel]; [simpl in Hf; lia|].
    destruct (IH w' (S fuel) (argv ++ [(p, (p + length w)%nat)]) ret _ l H1 Hw Hr He) as (qws & qs & Hqws & Hqs & E).
    { rewrite length_app. simpl in Hn |- *. lia. }
    { simpl in Hf |- *. lia. }
    exists ((p, (p + length w)%nat) :: qws), qs. split_and!; [by constructor|done|].
    unfold mbind, M_bind. rewrite (parseredirs_stop fuel ret _ rest H1 Hrest).
    2:{ unfold rest. rewrite show_args_cons. apply word_not; [|unfold symbols; set_solver].
        by apply Forall_cons in Hw as [? _]. }
    rewrite E. rewrite <- app_assoc. f_equal. rewrite !fmap_cons. cbn [concat]. rewrite !length_app. lia.
Qed.

Lemma length_args ws : (length ws ≤ length (concat (word <$> ws)))%nat.
Proof.
  induction ws as [|w ws IH]; [done|]. rewrite fmap_cons. cbn [concat length].
  rewrite length_app, length_word. lia.
Qed.

Lemma length_redirs rs : (length rs ≤ length (show_redirs rs))%nat.
Proof.
  unfold show_redirs. induction rs as [|[f o] rs IH]; [done|]. rewrite fmap_cons. cbn [concat length].
  rewrite length_app. unfold show_redir at 1. rewrite length_app. change (length (sym _)) with 2%nat. lia.
Qed.

Lemma redirs_not_paren rs l : head_in l [40] = false → head_in (show_redirs rs ++ l) [40] = false.
Proof. destruct rs as [|[f o] rs]; [done|]. intros _. by destruct o. Qed.

(** [parseexec] on words and redirections. *)
Lemma parseexec_words fuel ws rs p l :
  at_ p (concat (word <$> ws) ++ show_redirs rs ++ l) → Forall is_word ws → (length ws < MAXARGS)%nat →
  Forall (λ r, is_word r.1) rs → ends LExec l →
  ∃ c, parse text (S fuel) NExec p =
         Ok c (p + length (concat (word <$> ws)) + length (show_redirs rs))%nat ∧
       repr c (foldl aredir (AExec ws) rs).
Proof.
  intros H Hw Hn Hr He. pose proof (ends_starts _ _ He) as Hl. cbn [parse]. unfold parseexec.
  pose proof (at_pos_length _ _ _ H) as Hlen. rewrite !length_app in Hlen.
  pose proof (length_args ws). pose proof (length_redirs rs).
  assert (Hl40 : head_in l [40] = false) by (apply (ends_not LExec); [done|intros c Hc; set_solver]).
  destruct ws as [|w ws].
  - simpl in H. destruct (parseredirs_ok rs (S (es text)) p l H Hr Hl) as (qs & Hqs & E).
    { apply (ends_not LExec); [done|intros c Hc; set_solver]. }
    { unfold es. lia. }
    unfold mbind, M_bind. rewrite (peek_ok text [40] p _ H) by (by apply redirs_starts).
    rewrite redirs_not_paren by done. rewrite E. 
    rewrite (parse_args_stop _ _ _ _ l (at_pos_app _ _ (show_redirs rs) l H) He), set_argv_wrap.
    simpl. rewrite Nat.add_0_r. eexists. split; [reflexivity|]. apply repr_wrap; [done|]. repeat constructor.
  - assert (Hs : starts (concat (word <$> (w :: ws)) ++ show_redirs rs ++ l)).
    { rewrite show_args_cons. apply word_starts. by apply Forall_cons in Hw as [? _]. }
    assert (Hh : ∀ toks, toks ⊆ symbols →
      head_in (concat (word <$> (w :: ws)) ++ show_redirs rs ++ l) toks = false).
    { intros toks Ht. rewrite show_args_cons. apply word_not; [|done]. by apply Forall_cons in Hw as [? _]. }
    destruct (parse_args_ok ws rs w (S (S (es text))) [] (EXEC []) p l H Hw Hr He)
      as (qws & qs & Hqws & Hqs & E); [simpl in *; lia|simpl in *; unfold es; lia|].
    unfold mbind, M_bind. rewrite (peek_ok text [40] p _ H Hs), Hh by (unfold symbols; set_solver).
    rewrite (parseredirs_stop _ _ _ _ H Hs) by (apply Hh; unfold symbols; set_solver).
    rewrite E. eexists. split; [reflexivity|]. apply repr_wrap; [done|]. by constructor.
Qed.

Fixpoint size (a : acmd) : nat :=
  match a with
  | AExec _ => 1
  | ARedir c _ _ => S (size c)
  | APipe l r | AList l r => S (size l + size r)
  | ABack c => S (size c)
  end.

(** What the parsers do on a printed command with fuel [k] or more. *)
Definition exec_ok (k : nat) (a : acmd) : Prop := ∀ rs l p fuel,
  at_ p (show a LExec ++ show_redirs rs ++ l) → Forall (λ r, is_word r.1) rs → ends LExec l →
  (k ≤ fuel)%nat →
  ∃ c, parse text fuel NExec p = Ok c (p + length (show a LExec) + length (show_redirs rs))%nat ∧
    repr c (foldl aredir a rs).

Definition pipe_ok (k : nat) (a : acmd) : Prop := ∀ l p fuel,
  at_ p (show a LPipe ++ l) → ends LPipe l → (k ≤ fuel)%nat →
  ∃ c, parse text fuel NPipe p = Ok c (p + length (show a LPipe))%nat ∧ repr c a.

Definition back_ok (k : nat) (a : acmd) : Prop := ∀ l p fuel n,
  at_ p (show a LBack ++ l) → ends LPipe l → (k ≤ fuel)%nat →
  (length (show a LBack) < n)%nat →
  ∃ c n', (c ← parse text fuel NPipe; parse_backs text n c) p =
            parse_backs text n' c (p + length (show a LBack))%nat ∧
    (n ≤ n' + length (show a LBack))%nat ∧ repr c a.

Definition line_ok (k : nat) (a : acmd) : Prop := ∀ l p fuel,
  at_ p (show a LLine ++ l) → ends LLine l → (k ≤ fuel)%nat →
  ∃ c, parse text fuel NLine p = Ok c (p + length (show a LLine))%nat ∧ repr c a.

Lemma size_pos a : (1 ≤ size a)%nat.
Proof. induction a; simpl; lia. Qed.

Lemma show_starts a : ∀ lv l, printable a → starts l → starts (show a lv ++ l).
Proof.
  induction a as [argv|c IH f o|l1 IH1 r1 IH2|l1 IH1 r1 IH2|c IH]; intros lv l Hp Hs.
  - destruct argv as [|w ws]; [done|]. simpl in Hp. cbn [show]. rewrite show_args_cons.
    apply word_starts. destruct Hp as [Hp _]. by apply Forall_cons in Hp as [? _].
  - cbn [show]. rewrite <- app_assoc. apply IH; [apply Hp|]. by destruct o.
  - destruct Hp as [Hp1 Hp2]. destruct lv; cbn [show]; try done; rewrite <- !app_assoc; by apply IH1.
  - destruct Hp as [Hp1 Hp2]. destruct lv; cbn [show]; try done; rewrite <- !app_assoc; by apply IH1.
  - destruct lv; cbn [show]; try done; rewrite <- !app_assoc; by apply IH.
Qed.

(** A command in parentheses. *)
Lemma exec_paren k a :
  printable a → line_ok k a → show a LExec = paren (show a LLine) → exec_ok (k + 2) a.
Proof.
  intros Hp Hline Hshow rs l p fuel H Hr He Hf. rewrite Hshow in H |- *. unfold paren in H.
  rewrite <- !app_assoc in H. pose proof (ends_starts _ _ He) as Hl.
  destruct fuel as [|[|fuel]]; [lia..|]. cbn [parse]. unfold parseexec, parseblock. unfold mbind, M_bind.
  rewrite (peek_ok text [40] p _ H) by done. change (head_in (sym 40 ++ _) [40]) with true. cbn beta iota.
  rewrite (peek_ok text [40] p _ H) by done. change (head_in (sym 40 ++ _) [40]) with true. cbn beta iota delta [negb].
  pose proof (at_pos_app _ _ _ _ H) as H1. change (length (sym 40)) with 2%nat in H1.
  rewrite (gettoken_sym text p 40 _ H) by (try (by left); by apply show_starts).
  destruct (Hline (sym 41 ++ show_redirs rs ++ l) (p + 2)%nat fuel H1) as (c & E & Hc); [by right|lia|].
  pose proof (at_pos_app _ _ _ _ H1) as H2. rewrite E, (peek_ok text [41] _ _ H2) by done.
  change (head_in (sym 41 ++ _) [41]) with true. cbn beta iota delta [negb].
  assert (Hs : starts (show_redirs rs ++ l)) by (by apply redirs_starts).
  rewrite (gettoken_sym text _ 41 _ H2) by (try (by left); done).
  pose proof (at_pos_app _ _ _ _ H2) as H3. change (length (sym 41)) with 2%nat in H3.
  destruct (parseredirs_ok rs (S (es text)) _ l H3 Hr Hl) as (qs & Hqs & E').
  { apply (ends_not LExec); [done|intros ? Hc'; set_solver]. }
  { pose proof (at_pos_length _ _ _ H3). rewrite length_app in *. pose proof (length_redirs rs).
    unfold es. lia. }
  rewrite E'. eexists. split; [f_equal; unfold paren; rewrite !length_app; simpl; lia|].
  by apply repr_wrap.
Qed.

Lemma pipe_of_exec k a : exec_ok k a → show a LPipe = show a LExec → pipe_ok (S k) a.
Proof.
  intros Hexec Hshow l p fuel H He Hf. rewrite Hshow in H |- *. destruct fuel as [|fuel]; [lia|].
  destruct (Hexec [] l p fuel H) as (c & E & Hc); [constructor| |lia|].
  { apply (ends_weaken LPipe); [done|]. simpl. set_solver. }
  exists c. split; [|done]. cbn [parse]. unfold parsepipe. unfold mbind, M_bind. rewrite E. simpl length.
  rewrite Nat.add_0_r, (peek_ok text [124] _ l); [|by apply at_pos_app|by eapply ends_starts].
  by rewrite (ends_not LPipe) by (done || (intros c' Hc'; set_solver)).
Qed.

Lemma pipe_own k l r :
  printable r → exec_ok k l → pipe_ok k r → pipe_ok (S k) (APipe l r).
Proof.
  intros Hp Hexec Hpipe rest p fuel H He Hf. cbn [show] in H |- *. destruct fuel as [|fuel]; [lia|].
  rewrite <- !app_assoc in H. pose proof (ends_starts _ _ He) as Hs.
  destruct (Hexec [] _ p fuel H) as (c & E & Hc); [constructor|by right|lia|].
  pose proof (at_pos_app _ _ _ _ H) as H1. pose proof (at_pos_app _ _ _ _ H1) as H2.
  change (length (sym 124)) with 2%nat in H2.
  destruct (Hpipe rest _ fuel H2 He) as (c2 & E2 & Hc2); [lia|].
  exists (PIPE c c2). split; [|by constructor].
  cbn [parse]. unfold parsepipe. unfold mbind, M_bind. rewrite E. simpl length. rewrite Nat.add_0_r.
  rewrite (peek_ok text [124] _ _ H1) by done. change (head_in (sym 124 ++ _) [124]) with true.
  cbn beta iota. rewrite (gettoken_sym text _ 124 _ H1) by (try (by left); by apply show_starts).
  rewrite E2. unfold mret, M_ret. f_equal. rewrite !length_app. simpl. lia.
Qed.

Lemma back_of_pipe k a : pipe_ok k a → show a LBack = show a LPipe → back_ok k a.
Proof.
  intros Hpipe Hshow l p fuel n H He Hf Hn. rewrite Hshow in H, Hn |- *.
  destruct (Hpipe l p fuel H He Hf) as (c & E & Hc). exists c, n. unfold mbind, M_bind. rewrite E.
  split_and!; [done|lia|done].
Qed.

Lemma back_own k a : back_ok k a → back_ok k (ABack a).
Proof.
  intros Hback l p fuel n H He Hf Hn. cbn [show] in H, Hn |- *. rewrite <- app_assoc in H.
  rewrite length_app in Hn |- *. change (length (sym 38)) with 2%nat in *.
  destruct (Hback _ p fuel n H) as (c & n' & E & Hn' & Hc); [by right|lia|lia|].
  destruct n' as [|n']; [lia|]. exists (BACK c), n'. rewrite E. split_and!; [|lia|by constructor].
  pose proof (at_pos_app _ _ _ _ H) as H1. cbn [parse_backs]. unfold mbind, M_bind.
  rewrite (peek_ok text [38] _ _ H1) by done. change (head_in (sym 38 ++ _) [38]) with true. cbn beta iota.
  rewrite (gettoken_sym text _ 38 _ H1) by (try (by left); by eapply ends_starts).
  by rewrite Nat.add_assoc.
Qed.

(** The end of the loop of [parseline]. *)
Lemma parse_backs_end k a l p fuel :
  back_ok k a → at_ p (show a LBack ++ l) → ends LBack l → (k ≤ fuel)%nat →
  ∃ c, (c ← parse text fuel NPipe; parse_backs text (S (es text)) c) p =
         Ok c (p + length (show a LBack))%nat ∧ repr c a.
Proof.
  intros Hback H He Hf. pose proof (at_pos_length _ _ _ H) as Hlen. rewrite length_app in Hlen.
  destruct (Hback l p fuel (S (es text)) H) as (c & n' & E & Hn & Hc); [|done|unfold es; lia|].
  { apply (ends_weaken LBack); [done|]. simpl. set_solver. }
  exists c. rewrite E. split; [|done]. destruct n' as [|n']; [unfold es in Hn; lia|].
  cbn [parse_backs]. unfold mbind, M_bind.
  rewrite (peek_ok text [38] _ l); [|by apply at_pos_app|by eapply ends_starts].
  by rewrite (ends_not LBack) by (done || (intros c' Hc'; set_solver)).
Qed.

(** [parseline] begins with the loop. *)
Lemma parseline_unfold fuel p :
  parse text (S fuel) NLine p =
  (c ← (c ← parse text fuel NPipe; parse_backs text (S (es text)) c);
   b ← peek text [59];
   if (b : bool) then gettoken text ;; r ← parse text fuel NLine; mret (LIST c r) else mret c) p.
Proof. cbn [parse]. unfold parseline. unfold mbind, M_bind. by destruct (parse text fuel NPipe p). Qed.

Lemma line_of_back k a : back_ok k a → show a LLine = show a LBack → line_ok (S k) a.
Proof.
  intros Hback Hshow l p fuel H He Hf. rewrite Hshow in H |- *. destruct fuel as [|fuel]; [lia|].
  destruct (parse_backs_end k a l p fuel Hback H) as (c & E & Hc); [|lia|].
  { apply (ends_weaken LLine); [done|]. simpl. set_solver. }
  exists c. split; [|done]. rewrite parseline_unfold. unfold mbind at 1, M_bind at 1. rewrite E.
  unfold mbind, M_bind.
  rewrite (peek_ok text [59] _ l); [|by apply at_pos_app|by eapply ends_starts].
  by rewrite (ends_not LLine) by (done || (intros c' Hc'; set_solver)).
Qed.

Lemma line_own k l r :
  printable r → back_ok k l → line_ok k r → line_ok (S k) (AList l r).
Proof.
  intros Hp Hback Hline rest p fuel H He Hf. cbn [show] in H |- *. destruct fuel as [|fuel]; [lia|].
  rewrite <- !app_assoc in H.
  destruct (parse_backs_end k l _ p fuel Hback H) as (c & E & Hc); [by right|lia|].
  pose proof (at_pos_app _ _ _ _ H) as H1. pose proof (at_pos_app _ _ _ _ H1) as H2.
  change (length (sym 59)) with 2%nat in H2.
  destruct (Hline rest _ fuel H2 He) as (c2 & E2 & Hc2); [lia|].
  exists (LIST c c2). split; [|by constructor].
  rewrite parseline_unfold. unfold mbind at 1, M_bind at 1. rewrite E. unfold mbind, M_bind.
  rewrite (peek_ok text [59] _ _ H1) by done. change (head_in (sym 59 ++ _) [59]) with true.
  cbn beta iota. rewrite (gettoken_sym text _ 59 _ H1).
  - rewrite E2. unfold mret, M_ret. f_equal. rewrite !length_app. simpl. lia.
  - by left.
  - apply show_starts; [done|by eapply ends_starts].
Qed.

Lemma exec_ok_mono k k' a : exec_ok k a → (k ≤ k')%nat → exec_ok k' a.
Proof. intros H Hk rs l p fuel H1 H2 H3 H4. apply (H rs l); [done..|lia]. Qed.
Lemma pipe_ok_mono k k' a : pipe_ok k a → (k ≤ k')%nat → pipe_ok k' a.
Proof. intros H Hk l p fuel H1 H2 H3. apply (H l); [done..|lia]. Qed.
Lemma back_ok_mono k k' a : back_ok k a → (k ≤ k')%nat → back_ok k' a.
Proof. intros H Hk l p fuel n H1 H2 H3 H4. apply (H l); [done|done|lia|done]. Qed.
Lemma line_ok_mono k k' a : line_ok k a → (k ≤ k')%nat → line_ok k' a.
Proof. intros H Hk l p fuel H1 H2 H3. apply (H l); [done..|lia]. Qed.

(** A parser that works with some fuel works with more. *)
Ltac mono :=
  match goal with
  | |- exec_ok _ _ => eapply exec_ok_mono; [eassumption|lia]
  | |- pipe_ok _ _ => eapply pipe_ok_mono; [eassumption|lia]
  | |- back_ok _ _ => eapply back_ok_mono; [eassumption|lia]
  | |- line_ok _ _ => eapply line_ok_mono; [eassumption|lia]
  end.

(** The four parsers read back a printed command. *)
Lemma parsers_ok a : printable a →
  exec_ok (8 * size a) a ∧ pipe_ok (8 * size a + 1) a ∧ back_ok (8 * size a + 1) a ∧ line_ok (8 * size a - 2) a.
Proof.
  induction a as [argv|c IH f o|l IHl r IHr|l IHl r IHr|c IH]; intros Hp.
  - assert (He : exec_ok 1 (AExec argv)).
    { intros rs l p fuel H Hr He Hf. destruct fuel; [lia|]. destruct Hp. by eapply parseexec_words. }
    pose proof (pipe_of_exec 1 _ He eq_refl) as Hpi. pose proof (back_of_pipe 2 _ Hpi eq_refl) as Hb.
    pose proof (line_of_back 2 _ Hb eq_refl) as Hl. simpl. split_and!; mono.
  - destruct Hp as [Hp Hf]. destruct (IH Hp) as (IHe & _ & _ & _).
    assert (He : exec_ok (8 * size c) (ARedir c f o)).
    { intros rs l p fuel H Hr He Hfu. cbn [show] in H |- *. rewrite <- app_assoc in H.
      destruct (IHe ((f, o) :: rs) l p fuel) as (c' & E & Hc'); [by rewrite show_redirs_cons|by constructor|done|done|].
      exists c'. split; [|done]. rewrite E. f_equal. unfold show_redirs. rewrite fmap_cons. cbn [concat fst snd].
      rewrite !length_app. lia. }
    pose proof (pipe_of_exec _ _ He eq_refl) as Hpi. pose proof (back_of_pipe _ _ Hpi eq_refl) as Hb.
    pose proof (line_of_back _ _ Hb eq_refl) as Hl. cbn [size]. split_and!; mono.
  - destruct Hp as [Hpl Hpr]. destruct (IHl Hpl) as (He & _ & _ & _), (IHr Hpr) as (_ & Hpi & _ & _).
    assert (Hpi' : pipe_ok (S (8 * (size l + size r) + 1)) (APipe l r)).
    { apply pipe_own; [done|mono|mono]. }
    pose proof (back_of_pipe _ _ Hpi' eq_refl) as Hb. pose proof (line_of_back _ _ Hb eq_refl) as Hl.
    pose proof (exec_paren _ (APipe l r) (conj Hpl Hpr) Hl eq_refl) as He'. cbn [size]. split_and!; mono.
  - destruct Hp as [Hpl Hpr]. destruct (IHl Hpl) as (_ & _ & Hb & _), (IHr Hpr) as (_ & _ & _ & Hln).
    assert (Hl : line_ok (S (8 * (size l + size r) + 1)) (AList l r)).
    { apply line_own; [done|mono|mono]. }
    pose proof (exec_paren _ (AList l r) (conj Hpl Hpr) Hl eq_refl) as He'.
    pose proof (pipe_of_exec _ _ He' eq_refl) as Hpi. pose proof (back_of_pipe _ _ Hpi eq_refl) as Hb'.
    cbn [size]. split_and!; mono.
  - destruct (IH Hp) as (_ & _ & Hb & _). pose proof (back_own _ _ Hb) as Hb'.
    pose proof (line_of_back _ _ Hb' eq_refl) as Hl.
    pose proof (exec_paren _ (ABack c) Hp Hl eq_refl) as He'.
    pose proof (pipe_of_exec _ _ He' eq_refl) as Hpi. cbn [size]. split_and!; mono.
Qed.

Lemma size_show a : ∀ lv, (size a ≤ S (length (show a lv)))%nat.
Proof.
  induction a as [argv|c IH f o|l IHl r IHr|l IHl r IHr|c IH]; intros lv; cbn [show size].
  - lia.
  - rewrite length_app. unfold show_redir. rewrite length_app. specialize (IH LExec). simpl. lia.
  - specialize (IHl LExec). specialize (IHr LPipe).
    destruct lv; unfold paren; rewrite !length_app; simpl; rewrite ?length_app; simpl; lia.
  - specialize (IHl LBack). specialize (IHr LLine).
    destruct lv; unfold paren; rewrite !length_app; simpl; rewrite ?length_app; simpl; lia.
  - specialize (IH LBack). destruct lv; unfold paren; rewrite !length_app; simpl; rewrite ?length_app; simpl; lia.
Qed.

(** ** The strings of a parsed command *)

(** The C string that begins the bytes. *)
Fixpoint read_cstr (l : list Z) : list Z :=
  match l with
  | [] => []
  | c :: l => if bool_decide (c = 0) then [] else c :: read_cstr l
  end.

(** The command with the strings that its pointers have in [buf]. *)
Fixpoint resolve (buf : list Z) (c : cmd) : option acmd :=
  match c with
  | EXEC argv => Some (AExec ((λ qe, read_cstr (drop qe.1 buf)) <$> argv))
  | REDIR c q _ mode fd =>
      a ← resolve buf c;
      let file := read_cstr (drop q buf) in
      if bool_decide (mode = redir_mode true ∧ fd = 1) then Some (ARedir a file true)
      else if bool_decide (mode = redir_mode false ∧ fd = 0) then Some (ARedir a file false)
      else None
  | PIPE l r => al ← resolve buf l; ar ← resolve buf r; Some (APipe al ar)
  | LIST l r => al ← resolve buf l; ar ← resolve buf r; Some (AList al ar)
  | BACK c => a ← resolve buf c; Some (ABack a)
  end.

Fixpoint end_positions (c : cmd) : list pos :=
  match c with
  | EXEC argv => argv.*2
  | REDIR c _ ef _ _ => ef :: end_positions c
  | PIPE l r | LIST l r => end_positions l ++ end_positions r
  | BACK c => end_positions c
  end.

Lemma zero_at_lookup l : ∀ buf i,
  (i ∉ l → zero_at l buf !! i = buf !! i) ∧
  ((i < length buf)%nat → i ∈ l ∨ buf !! i = Some 0 → zero_at l buf !! i = Some 0).
Proof.
  induction l as [|e l IH]; intros buf i; simpl.
  - split; [done|]. intros _ [H|H]; [by apply not_elem_of_nil in H|done].
  - destruct (IH (<[e := 0]> buf) i) as [IH1 IH2]. rewrite length_insert in IH2. split.
    + intros [Hne Hn]%not_elem_of_cons. rewrite IH1 by done. by rewrite list_lookup_insert_ne.
    + intros Hi Hor. apply IH2; [done|]. destruct (decide (i = e)) as [->|Hne].
      * right. by rewrite list_lookup_insert_eq.
      * rewrite list_lookup_insert_ne by done. set_solver.
Qed.

Lemma length_zero_at l : ∀ buf, length (zero_at l buf) = length buf.
Proof. induction l as [|e l IH]; intros buf; simpl; [done|]. by rewrite IH, length_insert. Qed.

Lemma nulterminate_zero_at c : ∀ buf, ∃ l, nulterminate c buf = zero_at l buf ∧ ∀ e, e ∈ l ↔ e ∈ end_positions c.
Proof.
  assert (Happ : ∀ l1 l2 buf, zero_at (l1 ++ l2) buf = zero_at l2 (zero_at l1 buf)).
  { induction l1 as [|e l1 IH]; intros l2 buf; simpl; [done|]. by rewrite IH. }
  induction c as [argv|c IH f ef m fd|l IHl r IHr|l IHl r IHr|c IH]; intros buf; simpl.
  - by eexists.
  - destruct (IH buf) as (l & -> & Hl). exists (l ++ [ef]). rewrite Happ. split; [done|set_solver].
  - destruct (IHl buf) as (l1 & -> & H1). destruct (IHr (zero_at l1 buf)) as (l2 & -> & H2).
    exists (l1 ++ l2). rewrite Happ. split; [done|set_solver].
  - destruct (IHl buf) as (l1 & -> & H1). destruct (IHr (zero_at l1 buf)) as (l2 & -> & H2).
    exists (l1 ++ l2). rewrite Happ. split; [done|set_solver].
  - apply IH.
Qed.

Lemma read_cstr_word w : ∀ l, Forall (λ c, c ≠ 0) w → read_cstr (w ++ 0 :: l) = w.
Proof.
  induction w as [|c w IH]; intros l Hw; simpl; [done|]. apply Forall_cons in Hw as [Hc Hw].
  rewrite bool_decide_eq_false_2 by done. by rewrite IH.
Qed.

(** Every word ends at a space of the line. *)
Lemma repr_ends c a : repr c a → ∀ e, e ∈ end_positions c → text !! e = Some 32.
Proof.
  assert (Hw : ∀ qe w, word_at qe w → text !! qe.2 = Some 32).
  { intros qe w ((l & H) & -> & _). unfold word in H. rewrite <- app_assoc in H.
    apply at_pos_app in H. by eapply at_pos_lookup. }
  induction 1 as [argv ws Hws|c a q eq file out _ IH Hf|l r al ar _ IHl _ IHr|l r al ar _ IHl _ IHr|c a _ IH];
    simpl; intros e He; try (apply elem_of_app in He as [He|He]; by auto).
  - apply list_elem_of_fmap in He as (qe & -> & Hqe). apply list_elem_of_lookup in Hqe as [i Hi].
    destruct (Forall2_lookup_l _ _ _ _ _ Hws Hi) as (w & _ & H). by apply (Hw qe w).
  - apply elem_of_cons in He as [->|He]; [by apply (Hw (q, eq) file)|by apply IH].
  - by apply IH.
Qed.

(** The word is still there once it has been ended. *)
Lemma read_word buf qe w :
  word_at qe w → length buf = S (length text) → (∀ i c, text !! i = Some c → c ≠ 32 → buf !! i = Some c) →
  buf !! qe.2 = Some 0 → read_cstr (drop qe.1 buf) = w.
Proof.
  intros ((l & H) & He & [_ Hw]) Hlen Hsame H0.
  assert (Hlk : ∀ k c, w !! k = Some c → text !! (qe.1 + k)%nat = Some c).
  { intros k c Hk. destruct H as [H _]. rewrite <- lookup_drop, H. unfold word. rewrite <- app_assoc.
    by apply lookup_app_l_Some. }
  assert (E : drop qe.1 buf = w ++ 0 :: drop (S qe.2) buf).
  { rewrite <- (drop_S buf 0 qe.2) by done. rewrite He, <- drop_drop.
    rewrite <- (take_drop (length w) (drop qe.1 buf)) at 1. f_equal. apply list_eq. intros k.
    destruct (decide (k < length w)%nat) as [Hk|Hk].
    - rewrite lookup_take_lt, lookup_drop by done. destruct (w !! k) as [c|] eqn:Hwk.
      + apply Hsame; [by apply Hlk|]. intros ->.
        apply (Forall_lookup_1 _ _ _ _ Hw) in Hwk as (_ & Hwk & _). done.
      + apply lookup_ge_None in Hwk. lia.
    - rewrite lookup_take_ge by lia. symmetry. apply lookup_ge_None. lia. }
  rewrite E. apply read_cstr_word. eapply Forall_impl; [exact Hw|]. by intros c (? & _).
Qed.

Lemma resolve_ok buf c a :
  repr c a → length buf = S (length text) → (∀ i c, text !! i = Some c → c ≠ 32 → buf !! i = Some c) →
  (∀ e, e ∈ end_positions c → buf !! e = Some 0) → resolve buf c = Some a.
Proof.
  intros Hr Hlen Hsame.
  induction Hr as [argv ws Hws|c a q eq file out _ IH Hf|l r al ar _ IHl _ IHr|l r al ar _ IHl _ IHr|c a _ IH];
    simpl; intros H0.
  - f_equal. f_equal. apply list_eq_Forall2, Forall2_fmap_l.
    apply Forall2_same_length_lookup. split; [by eapply Forall2_length|].
    intros i qe w Hi Hw. eapply read_word; [|done..|].
    + by apply (Forall2_lookup_lr _ _ _ _ _ _ Hws Hi Hw).
    + apply H0, list_elem_of_fmap. exists qe. split; [done|]. by eapply list_elem_of_lookup_2.
  - rewrite IH by set_solver. simpl.
    assert (E : read_cstr (drop q buf) = file) by (apply (read_word buf (q, eq) file Hf); try done; apply H0; set_solver).
    rewrite E. by destruct out.
  - rewrite IHl, IHr by set_solver. done.
  - rewrite IHl, IHr by set_solver. done.
  - by rewrite IH.
Qed.

End Parsing.

(** The fuel with which [parsecmd] reads any line. *)
Definition parse_fuel (text : list Z) : nat := 8 * (length text + 2).

(** C8: the parser reads back what the printer writes.  For every command whose
    words are non-empty and free of white space and symbols, and whose argument
    lists fit in [argv], [parsecmd] of the printed line succeeds, and the command it
    returns has, after [nulterminate], exactly the structure and the strings of the
    command that was printed. *)
Theorem parse_print_roundtrip a :
  printable a →
  let text := show a LLine in
  ∃ c buf s, parsecmd text (parse_fuel text) O = Ok (c, buf) s ∧ resolve buf c = Some a.
Proof.
  intros Hp text. destruct (parsers_ok text a Hp) as (_ & _ & _ & Hline).
  assert (H : at_pos text 0 (text ++ [])) by (rewrite app_nil_r; split; [done|lia]).
  pose proof (size_show a LLine) as Hsz. fold text in Hsz.
  destruct (Hline [] 0%nat (parse_fuel text) H) as (c & E & Hc); [by left|unfold parse_fuel; lia|].
  fold text in E. rewrite Nat.add_0_l in E.
  assert (Hend : at_pos text (length text) []) by (split; [apply drop_all|lia]).
  exists c, (nulterminate c (text ++ [0])), (length text). split.
  - unfold parsecmd, mbind, M_bind. rewrite E, (peek_nil text [] _ Hend). unfold get.
    by rewrite bool_decide_eq_false_2 by (unfold es; intros ?; done).
  - destruct (nulterminate_zero_at c (text ++ [0])) as (l & -> & Hl).
    pose proof (repr_ends text c a Hc) as Hsp. apply (resolve_ok text _ c a Hc).
    + rewrite length_zero_at, length_app. simpl. lia.
    + intros i x Hi Hx. destruct (zero_at_lookup l (text ++ [0]) i) as [-> _]; [by apply lookup_app_l_Some|].
      intros Hin%Hl%Hsp. congruence.
    + intros e He. apply zero_at_lookup; [|left; by apply Hl].
      apply Hsp, lookup_lt_Some in He. rewrite length_app. simpl. lia.
Qed.

(** [(ls -l | grep x > out) & ; wait] *)
Definition demo_cmd : acmd :=
  AList (ABack (APipe (AExec [[108; 115]; [45; 108]])
                      (ARedir (AExec [[103; 114; 101; 112]; [120]]) [111; 117; 116] true)))
        (AExec [[119; 97; 105; 116]]).

Lemma demo_printable : printable demo_cmd.
Proof.
  assert (Hw : ∀ w, bool_decide (w ≠ []) && forallb (λ c, negb (bool_decide (c = 0)) &&
    negb (inb c whitespace) && negb (inb c symbols)) w = true → is_word w).
  { intros w [H1 H2]%andb_true_iff. apply bool_decide_eq_true_1 in H1. split; [done|].
    apply Forall_forall. intros c Hc. rewrite forallb_forall in H2. apply list_elem_of_In, H2 in Hc.
    rewrite !andb_true_iff, !negb_true_iff in Hc. destruct Hc as [[H3 H4] H5].
    apply bool_decide_eq_false_1 in H3. done. }
  simpl. repeat split; repeat constructor; try (by apply Hw); unfold MAXARGS; lia.
Qed.

Lemma parse_print_roundtrip_witness :
  ∃ c buf s, parsecmd (show demo_cmd LLine) (parse_fuel (show demo_cmd LLine)) O = Ok (c, buf) s ∧
    resolve buf c = Some demo_cmd.
Proof. exact (parse_print_roundtrip demo_cmd demo_printable). Defined.

(** ** Termination

    [fine] says that a parser returns, at a position that is not before [lo], or
    reports a syntax error. *)
Section Termination.

Context (text : list Z).

Definition fine {A} (lo : pos) (Q : A → Prop) (o : outcome pos A) : Prop :=
  match o with
  | Ok a p => (lo ≤ p ≤ es text)%nat ∧ Q a
  | Panic _ _ => True
  | _ => False
  end.

Lemma fine_bind {A B} (m : M pos A) (k : A → M pos B) lo lo' (P : A → Prop) (Q : B → Prop) p :
  fine lo P (m p) → (∀ a p', (lo ≤ p' ≤ es text)%nat → P a → fine lo' Q (k a p')) →
  fine lo' Q ((a ← m; k a) p).
Proof.
  intros Hm Hk. unfold mbind, M_bind. destruct (m p) as [a p'|msg p'|why p'|p']; simpl in *; try done.
  destruct Hm as [Hp Ha]. by apply Hk.
Qed.

Lemma fine_weaken {A} lo lo' (P Q : A → Prop) o : fine lo P o → (lo' ≤ lo)%nat → (∀ a, P a → Q a) → fine lo' Q o.
Proof. intros H Hlo HPQ. destruct o; simpl in *; try done. destruct H. split; [lia|auto]. Qed.

Lemma skip_white_bounds l : ∀ p, (p ≤ skip_white l p ≤ p + length l)%nat.
Proof. induction l as [|c l IH]; intros p; simpl; [lia|]. destruct (inb c whitespace); [|lia]. specialize (IH (S p)). lia. Qed.

Lemma skip_word_bounds l : ∀ p, (p ≤ skip_word l p ≤ p + length l)%nat.
Proof. induction l as [|c l IH]; intros p; simpl; [lia|]. destruct (_ || _); [lia|]. specialize (IH (S p)). lia. Qed.

Lemma skip_bounds p : (p ≤ es text)%nat → (p ≤ skip text p ≤ es text)%nat.
Proof.
  intros Hp. unfold skip, es in *. pose proof (skip_white_bounds (drop p text) p) as H.
  rewrite length_drop in H. lia.
Qed.

Lemma skip_white_stop l : ∀ p c, l !! (skip_white l p - p)%nat = Some c → inb c whitespace = false.
Proof.
  induction l as [|x l IH]; intros p c; simpl; [by rewrite lookup_nil|].
  destruct (inb x whitespace) eqn:Hx.
  - pose proof (skip_white_bounds l (S p)).
    replace (skip_white l (S p) - p)%nat with (S (skip_white l (S p) - S p)) by lia. apply IH.
  - rewrite Nat.sub_diag. simpl. intros [= <-]. done.
Qed.

Lemma char_at_nonzero p : char_at text p ≠ 0 → (p < es text)%nat.
Proof.
  intros H. unfold char_at in H. destruct (text !! p) eqn:E; [|done]. by apply lookup_lt_Some in E.
Qed.

(** [gettoken] stays in the line, and moves on unless it is at its end. *)
Lemma gettoken_fine p :
  (p ≤ es text)%nat →
  fine (if bool_decide (char_at text (skip text p) = 0) then p else S p)
       (λ t, t.1.1 = 0 ↔ char_at text (skip text p) = 0) (gettoken text p).
Proof.
  intros Hp. pose proof (skip_bounds p Hp) as Hq. unfold gettoken. set (q := skip text p) in *.
  assert (Hfin : ∀ e, (q ≤ e ≤ es text)%nat → (q ≤ skip text e ≤ es text)%nat ∧ (e ≤ skip text e)%nat).
  { intros e He. pose proof (skip_bounds e). lia. }
  case_bool_decide as Hz; [simpl; specialize (Hfin q); split; [lia|done]|].
  pose proof (char_at_nonzero q Hz) as Hlt.
  destruct (is_symbol1 (char_at text q)) eqn:Hs; [simpl; specialize (Hfin (S q)); split; [lia|done]|].
  case_bool_decide as Hgt.
  - case_bool_decide as Hgt2; simpl.
    + pose proof (char_at_nonzero (S q) ltac:(by rewrite Hgt2)). specialize (Hfin (S (S q))).
      split; [lia|split; intros; congruence].
    + specialize (Hfin (S q)). split; [lia|split; intros; congruence].
  - simpl. assert (Hw : (S q ≤ skip_word (drop q text) q ≤ es text)%nat).
    { destruct (text !! q) as [c|] eqn:Hc; [|apply lookup_ge_None in Hc; unfold es in *; lia].
      assert (Hcc : char_at text q = c) by (unfold char_at; by rewrite Hc). rewrite Hcc in *.
      rewrite (drop_S _ _ _ Hc). simpl.
      assert (Hwhite : inb c whitespace = false).
      { apply (skip_white_stop (drop p text) p). rewrite lookup_drop. fold (skip text p). fold q.
        replace (p + (q - p))%nat with q by lia. done. }
      assert (Hsym : inb c symbols = false).
      { apply bool_decide_eq_false_2. apply bool_decide_eq_false_1 in Hs. unfold symbols. set_solver. }
      rewrite Hwhite, Hsym. simpl. pose proof (skip_word_bounds (drop (S q) text) (S q)) as H.
      rewrite length_drop in H. unfold es in *. lia. }
    specialize (Hfin (skip_word (drop q text) q)). split; [lia|split; intros; congruence].
Qed.

Lemma skip_idem p : (p ≤ es text)%nat → skip text (skip text p) = skip text p.
Proof.
  intros Hp. pose proof (skip_bounds p Hp) as Hq. set (q := skip text p) in *. unfold skip.
  destruct (drop q text) as [|c l] eqn:Hd; [done|]. simpl.
  assert (Hc : text !! q = Some c) by (rewrite <- (Nat.add_0_r q), <- lookup_drop, Hd; done).
  assert (Hw : inb c whitespace = false); [|by rewrite Hw].
  apply (skip_white_stop (drop p text) p). rewrite lookup_drop. fold (skip text p). fold q.
  by replace (p + (q - p))%nat with q by lia.
Qed.

(** After a successful [peek] there is a token to read. *)
Lemma peek_fine toks p :
  (p ≤ es text)%nat →
  ∃ b q, peek text toks p = Ok b q ∧ (p ≤ q ≤ es text)%nat ∧ (b = true → char_at text (skip text q) ≠ 0).
Proof.
  intros Hp. pose proof (skip_bounds p Hp) as Hq. unfold peek. eexists _, _.
  split_and!; [reflexivity|lia|lia|]. intros [H _]%andb_true_iff. rewrite skip_idem by done.
  apply negb_true_iff, bool_decide_eq_false_1 in H. done.
Qed.

(** [peek] and, if it finds something, [gettoken] and the rest. *)
Lemma fine_peek {B} toks (k : bool → M pos B) lo (Q : B → Prop) p :
  (p ≤ es text)%nat →
  (∀ b q, (p ≤ q ≤ es text)%nat → (b = true → char_at text (skip text q) ≠ 0) → fine lo Q (k b q)) →
  fine lo Q ((b ← peek text toks; k b) p).
Proof.
  intros Hp Hk. destruct (peek_fine toks p Hp) as (b & q & E & Hq & Hb).
  unfold mbind, M_bind. rewrite E. by apply Hk.
Qed.

Lemma fine_token {B} (k : Z * pos * pos → M pos B) lo (Q : B → Prop) p :
  (p ≤ es text)%nat → char_at text (skip text p) ≠ 0 →
  (∀ t q, (S p ≤ q ≤ es text)%nat → fine lo Q (k t q)) →
  fine lo Q ((t ← gettoken text; k t) p).
Proof.
  intros Hp Hc Hk. pose proof (gettoken_fine p Hp) as H. rewrite bool_decide_eq_false_2 in H by done.
  eapply fine_bind; [exact H|]. intros t q Hq _. by apply Hk.
Qed.

(** A token of any kind: it may be the end of the line. *)
Lemma fine_any_token {B} (k : Z * pos * pos → M pos B) lo (Q : B → Prop) p :
  (p ≤ es text)%nat →
  (∀ t q, (p ≤ q ≤ es text)%nat → (t.1.1 ≠ 0 → (S p ≤ q)%nat) → fine lo Q (k t q)) →
  fine lo Q ((t ← gettoken text; k t) p).
Proof.
  intros Hp Hk. pose proof (gettoken_fine p Hp) as H. unfold mbind, M_bind.
  destruct (gettoken text p) as [t q|msg q|why q|q]; simpl in *; try done.
  destruct H as [Hq Ht]. case_bool_decide as Hc; apply Hk; [lia| |lia|lia].
  intros Hne. destruct Hne. by apply Ht.
Qed.

(** The argument lists fit in [argv], with the null pointer that ends them. *)
Fixpoint args_fit (c : cmd) : Prop :=
  match c with
  | EXEC argv => (length argv < MAXARGS)%nat
  | REDIR c _ _ _ _ | BACK c => args_fit c
  | PIPE l r | LIST l r => args_fit l ∧ args_fit r
  end.

Lemma parseredirs_fine fuel : ∀ c p, (p ≤ es text)%nat → (es text - p < fuel)%nat → args_fit c →
  fine p args_fit (parseredirs text fuel c p).
Proof.
  induction fuel as [|fuel IH]; intros c p Hp Hf Hc; [lia|]. cbn [parseredirs].
  apply fine_peek; [done|]. intros [] q Hq Hb; [|simpl; split; [lia|done]].
  apply fine_token; [lia|by apply Hb|]. intros [[tok q1] eq1] q' Hq'.
  apply fine_any_token; [lia|]. intros [[ret q2] eq2] q'' Hq'' _.
  case_bool_decide; [done|].
  repeat case_bool_decide; (eapply fine_weaken; [apply IH; [lia|lia|done]|lia|done]).
Qed.

Lemma set_argv_fits argv ret : args_fit ret → (length argv < MAXARGS)%nat → args_fit (set_argv argv ret).
Proof. induction ret; simpl; auto. Qed.

Lemma parse_args_fine fuel : ∀ argv ret p, (p ≤ es text)%nat → (es text - p < fuel)%nat →
  args_fit ret → (length argv < MAXARGS)%nat → fine p args_fit (parse_args text fuel argv ret p).
Proof.
  induction fuel as [|fuel IH]; intros argv ret p Hp Hf Hr Ha; [lia|]. cbn [parse_args].
  apply fine_peek; [done|]. intros [] q Hq _; [simpl; split; [lia|by apply set_argv_fits]|].
  apply fine_any_token; [lia|]. intros [[tok q1] eq1] q' Hq' Ht. simpl in Ht.
  case_bool_decide as H0; [simpl; split; [lia|by apply set_argv_fits]|]. specialize (Ht H0).
  case_bool_decide; [done|]. case_bool_decide as Hn; [done|].
  eapply fine_bind; [apply parseredirs_fine; [lia|lia|done]|]. intros ret' q'' Hq'' Hr'.
  eapply fine_weaken; [apply IH; [lia|lia|done|lia]|lia|done].
Qed.

Lemma parse_backs_fine fuel : ∀ c p, (p ≤ es text)%nat → (es text - p < fuel)%nat → args_fit c →
  fine p args_fit (parse_backs text fuel c p).
Proof.
  induction fuel as [|fuel IH]; intros c p Hp Hf Hc; [lia|]. cbn [parse_backs].
  apply fine_peek; [done|]. intros [] q Hq Hb; [|simpl; split; [lia|done]].
  apply fine_token; [lia|by apply Hb|]. intros t q' Hq'.
  eapply fine_weaken; [apply IH; [lia|lia|done]|lia|done].
Qed.

Lemma parsers_fine fuel : ∀ p, (p ≤ es text)%nat →
  let r := (es text - p)%nat in
  ((4 * r + 3 ≤ fuel)%nat → fine p args_fit (parse text fuel NLine p)) ∧
  ((4 * r + 2 ≤ fuel)%nat → fine p args_fit (parse text fuel NPipe p)) ∧
  ((4 * r ≤ fuel)%nat → (1 ≤ r)%nat → fine p args_fit (parse text fuel NBlock p)) ∧
  ((4 * r + 1 ≤ fuel)%nat → fine p args_fit (parse text fuel NExec p)).
Proof.
  induction fuel as [|fuel IH]; intros p Hp r; [split_and!; intros; lia|]. split_and!; intros Hf.
  - cbn [parse]. unfold parseline. eapply fine_bind; [apply IH; lia|]. intros c q Hq Hc.
    eapply fine_bind; [apply parse_backs_fine; [lia|lia|done]|]. intros c' q' Hq' Hc'.
    apply fine_peek; [lia|]. intros [] q2 Hq2 Hb; [|simpl; split; [lia|done]].
    apply fine_token; [lia|by apply Hb|]. intros t q3 Hq3.
    eapply fine_bind; [apply IH; lia|]. intros c3 q4 Hq4 Hc3. simpl. split; [lia|done].
  - cbn [parse]. unfold parsepipe. eapply fine_bind; [apply IH; lia|]. intros c q Hq Hc.
    apply fine_peek; [lia|]. intros [] q2 Hq2 Hb; [|simpl; split; [lia|done]].
    apply fine_token; [lia|by apply Hb|]. intros t q3 Hq3.
    eapply fine_bind; [apply IH; lia|]. intros c3 q4 Hq4 Hc3. simpl. split; [lia|done].
  - intros Hr. cbn [parse]. unfold parseblock. apply fine_peek; [lia|]. intros [] q Hq Hb; [|done]. simpl negb. cbn iota.
    apply fine_token; [lia|by apply Hb|]. intros t q3 Hq3.
    eapply fine_bind; [apply IH; lia|]. intros c q4 Hq4 Hc.
    apply fine_peek; [lia|]. intros [] q5 Hq5 Hb5; [|done]. simpl negb. cbn iota.
    apply fine_token; [lia|by apply Hb5|]. intros t' q6 Hq6.
    eapply fine_weaken; [apply parseredirs_fine; [lia|lia|done]|lia|done].
  - cbn [parse]. unfold parseexec. apply fine_peek; [lia|]. intros [] q Hq Hb.
    + specialize (Hb eq_refl). apply char_at_nonzero in Hb. pose proof (skip_bounds q).
      eapply fine_weaken; [apply IH; lia|lia|done].
    + eapply fine_bind; [apply parseredirs_fine; [lia|lia|simpl; unfold MAXARGS; lia]|]. intros c q' Hq' Hc.
      eapply fine_weaken; [apply parse_args_fine; [lia|lia|done|simpl; unfold MAXARGS; lia]|lia|done].
Qed.

End Termination.

(** The parser ends on every line.  With the fuel [parse_fuel], linear in the
    length of the line, [parsecmd] returns a command whose argument lists, with the
    null pointer after them, fit in the [MAXARGS] entries of [argv], or reports a
    syntax error; it never runs out of fuel. *)
Theorem parsecmd_returns text :
  match parsecmd text (parse_fuel text) O with
  | Ok (c, _) _ => args_fit c
  | Panic _ _ => True
  | _ => False
  end.
Proof.
  unfold parsecmd. destruct (parsers_fine text (parse_fuel text) O) as (H & _); [lia|].
  specialize (H ltac:(unfold parse_fuel, es; lia)).
  unfold mbind, M_bind. destruct (parse text (parse_fuel text) NLine O) as [c p|msg p|why p|p]; simpl in H; try done.
  destruct H as [Hp Hc]. destruct (peek_fine text [] p) as (b & q & -> & _ & _); [lia|]. unfold get.
  by case_bool_decide.
Qed.

End Sh.
