(* ===== verification/ShRun.v ===== *)
(** * What the shell does with a command

    [runcmd] of [src/sh.c] as a tree of system calls, and the file descriptors
    with which the programs of a command line are executed.  [exec], [open],
    [fork] and the others are system calls; their effect on the descriptor table
    of a process is that of [src/sysfile.c]: the lowest free descriptor is used,
    and a forked child has a copy of the table. *)

From S2P Require Import Prelude Sh.

Module ShRun.

Import Sh.

(** The system calls of a process, with what it does next. *)
Inductive prog : Type :=
| PExit
| PExec (argv : list (list Z)) (failed : prog)
| PPrint (msg : string) (arg : list Z) (k : prog)
| PClose (fd : nat) (k : prog)
| PDup (fd : nat) (k : prog)
| POpen (file : list Z) (mode : Z) (k : bool → prog)
| PPipe (k : option (nat * nat) → prog)
| PFork (child parent failed : prog)
| PWait (k : prog).

(** [panic] of the shell. *)
Definition sh_panic (s : string) : prog := PPrint s [] PExit.

(** [if(fork1() == 0) child; parent]: the child does not return. *)
Definition fork1 (child parent : prog) : prog := PFork child parent (sh_panic "fork").

Fixpoint runcmd (c : acmd) : prog :=
  match c with
  | AExec argv =>
      match argv with
      | [] => PExit
      | arg0 :: _ => PExec argv (PPrint "exec %s failed" arg0 PExit)
      end
  | ARedir c file out =>
      PClose (Z.to_nat (redir_fd out))
        (POpen file (redir_mode out) (λ opened,
           if (opened : bool) then runcmd c else PPrint "open %s failed" file PExit))
  | AList l r => fork1 (runcmd l) (PWait (runcmd r))
  | APipe l r =>
      PPipe (λ p,
        match p with
        | None => sh_panic "pipe"
        | Some (p0, p1) =>
            fork1 (PClose 1 (PDup p1 (PClose p0 (PClose p1 (runcmd l)))))
              (fork1 (PClose 0 (PDup p0 (PClose p0 (PClose p1 (runcmd r)))))
                 (PClose p0 (PClose p1 (PWait (PWait PExit)))))
        end)
  | ABack c => fork1 (runcmd c) PExit
  end.

(** ** Descriptors *)

Inductive obj : Type :=
| Inherited (n : nat)
| File (name : list Z) (mode : Z)
| ReadEnd (pipe : nat)
| WriteEnd (pipe : nat).

Abbreviation fdtab := (list (option obj)).

Definition lowest (F : fdtab) : option nat := fst <$> list_find (λ o, o = None) F.

Definition close (fd : nat) (F : fdtab) : fdtab := <[fd := None]> F.

Definition install (o : obj) (F : fdtab) : option (nat * fdtab) :=
  fd ← lowest F; Some (fd, <[fd := Some o]> F).

Definition dup (fd : nat) (F : fdtab) : fdtab :=
  match F !! fd with
  | Some (Some o) => match install o F with Some (_, F') => F' | None => F end
  | _ => F
  end.

Section Execs.

(** Whether [open] of a file succeeds. *)
Context (can_open : list Z → Z → bool).

(** The programs executed, each with its arguments and its descriptors, when
    forks succeed; pipes are numbered from [n]. *)
Fixpoint execs (p : prog) (F : fdtab) (n : nat) : list (list (list Z) * fdtab) * nat :=
  match p with
  | PExit => ([], n)
  | PExec argv _ => ([(argv, F)], n)
  | PPrint _ _ k => execs k F n
  | PClose fd k => execs k (close fd F) n
  | PDup fd k => execs k (dup fd F) n
  | POpen file mode k =>
      if can_open file mode then
        match install (File file mode) F with
        | Some (_, F') => execs (k true) F' n
        | None => execs (k false) F n
        end
      else execs (k false) F n
  | PPipe k =>
      match install (ReadEnd n) F with
      | None => execs (k None) F n
      | Some (p0, F0) =>
          match install (WriteEnd n) F0 with
          | None => execs (k None) F n
          | Some (p1, F1) => execs (k (Some (p0, p1))) F1 (S n)
          end
      end
  | PFork child parent _ =>
      let '(a, n1) := execs child F n in
      let '(b, n2) := execs parent F n1 in (a ++ b, n2)
  | PWait k => execs k F n
  end.

(** What a command line means: its programs with the redirections and the
    pipes that apply to each of them, and no other descriptors. *)
Fixpoint plan (c : acmd) (F : fdtab) (n : nat) : list (list (list Z) * fdtab) * nat :=
  match c with
  | AExec [] => ([], n)
  | AExec argv => ([(argv, F)], n)
  | ARedir c file out =>
      if can_open file (redir_mode out)
      then plan c (<[Z.to_nat (redir_fd out) := Some (File file (redir_mode out))]> F) n
      else ([], n)
  | AList l r =>
      let '(a, n1) := plan l F n in let '(b, n2) := plan r F n1 in (a ++ b, n2)
  | APipe l r =>
      let '(a, n1) := plan l (<[1%nat := Some (WriteEnd n)]> F) (S n) in
      let '(b, n2) := plan r (<[0%nat := Some (ReadEnd n)]> F) n1 in (a ++ b, n2)
  | ABack c => plan c F n
  end.

(** The standard descriptors are open, and two others are free. *)
Definition ready (F : fdtab) : Prop :=
  (∀ i, (i < 3)%nat → ∃ o, F !! i = Some (Some o)) ∧
  ∃ a b, a ≠ b ∧ F !! a = Some None ∧ F !! b = Some None.

Lemma lowest_Some F i :
  lowest F = Some i ↔ F !! i = Some None ∧ ∀ j, (j < i)%nat → ∃ o, F !! j = Some (Some o).
Proof.
  unfold lowest. rewrite fmap_Some. split.
  - intros ([k x] & Hf & ->). apply list_find_Some in Hf as (Hk & -> & Hlt). split; [done|].
    simpl. intros j Hj. pose proof (lookup_lt_Some _ _ _ Hk).
    destruct (F !! j) as [[o|]|] eqn:Hj'; [by eexists| |apply lookup_ge_None in Hj'; lia].
    by destruct (Hlt j None Hj' Hj).
  - intros [Hi Hlt]. exists (i, None). split; [|done]. apply list_find_Some. split_and!; [done..|].
    intros j x Hj Hji ->. destruct (Hlt j Hji) as [o Ho]. congruence.
Qed.

Lemma lowest_exists F a : F !! a = Some None → ∃ i, lowest F = Some i ∧ F !! i = Some None.
Proof.
  intros Ha. unfold lowest. destruct (list_find_elem_of (λ o, o = None) F None) as [[i x] Hf].
  - by eapply list_elem_of_lookup_2.
  - done.
  - exists i. rewrite Hf. split; [done|]. by apply list_find_Some in Hf as (? & -> & _).
Qed.

(** Closing an open standard descriptor makes it the lowest free one. *)
Lemma install_std F fd o :
  (fd < 3)%nat → (∀ i, (i < 3)%nat → ∃ o, F !! i = Some (Some o)) →
  install o (close fd F) = Some (fd, <[fd := Some o]> F).
Proof.
  intros Hfd Hstd. unfold install. rewrite (proj2 (lowest_Some (close fd F) fd)).
  - simpl. unfold close. by rewrite list_insert_insert_eq.
  - unfold close. split.
    + apply list_lookup_insert_eq. destruct (Hstd fd Hfd) as [x Hx]. by eapply lookup_lt_Some.
    + intros j Hj. rewrite list_lookup_insert_ne by lia. apply Hstd. lia.
Qed.

Lemma ready_insert F fd o : (fd < 3)%nat → ready F → ready (<[fd := Some o]> F).
Proof.
  intros Hfd [Hstd (a & b & Hab & Ha & Hb)]. split.
  - intros i Hi. destruct (Hstd i Hi) as [x Hx]. destruct (decide (i = fd)) as [->|Hne].
    + exists o. apply list_lookup_insert_eq. by eapply lookup_lt_Some.
    + rewrite list_lookup_insert_ne by done. by exists x.
  - destruct (Hstd fd Hfd) as [x Hx].
    exists a, b. split; [done|]. by rewrite !list_lookup_insert_ne by congruence.
Qed.

(** The descriptors of [pipe], and the tables of the two ends once the other
    descriptors have been closed. *)
Lemma pipe_tables F n :
  ready F →
  ∃ p0 p1 F0 F1, install (ReadEnd n) F = Some (p0, F0) ∧ install (WriteEnd n) F0 = Some (p1, F1) ∧
    close p1 (close p0 (dup p1 (close 1 F1))) = <[1%nat := Some (WriteEnd n)]> F ∧
    close p1 (close p0 (dup p0 (close 0 F1))) = <[0%nat := Some (ReadEnd n)]> F ∧
    close p1 (close p0 F1) = F.
Proof.
  intros [Hstd (a & b & Hab & Ha & Hb)].
  destruct (lowest_exists F a Ha) as (p0 & E0 & H0).
  assert (H3 : ∀ p, F !! p = Some None → (3 ≤ p)%nat).
  { intros p Hp. destruct (decide (p < 3)%nat) as [Hlt|]; [|lia]. destruct (Hstd p Hlt). congruence. }
  set (F0 := <[p0 := Some (ReadEnd n)]> F).
  assert (Hfree : ∃ c, F0 !! c = Some None).
  { destruct (decide (a = p0)) as [->|Hne].
    - exists b. unfold F0. by rewrite list_lookup_insert_ne.
    - exists a. unfold F0. by rewrite list_lookup_insert_ne. }
  destruct Hfree as [c Hc]. destruct (lowest_exists F0 c Hc) as (p1 & E1 & H1).
  assert (Hne : p0 ≠ p1).
  { intros ->. unfold F0 in H1. rewrite list_lookup_insert_eq in H1 by (by eapply lookup_lt_Some). done. }
  assert (H1' : F !! p1 = Some None) by (unfold F0 in H1; by rewrite list_lookup_insert_ne in H1).
  pose proof (H3 _ H0). pose proof (H3 _ H1'). pose proof (lookup_lt_Some _ _ _ H0). pose proof (lookup_lt_Some _ _ _ H1').
  set (F1 := <[p1 := Some (WriteEnd n)]> F0).
  assert (Hl : length F1 = length F) by (unfold F1, F0; by rewrite !length_insert).
  assert (HF1 : ∀ i, (i < 3)%nat → ∃ o, F1 !! i = Some (Some o)).
  { intros i Hi. unfold F1, F0. rewrite !list_lookup_insert_ne by lia. by apply Hstd. }
  assert (Hp0 : F1 !! p0 = Some (Some (ReadEnd n))).
  { unfold F1. rewrite list_lookup_insert_ne by done. by apply list_lookup_insert_eq. }
  assert (Hp1 : F1 !! p1 = Some (Some (WriteEnd n))).
  { unfold F1, F0. apply list_lookup_insert_eq. by rewrite length_insert. }
  assert (Hback : ∀ i o, (i < 3)%nat → close p1 (close p0 (<[i := Some o]> F1)) = <[i := Some o]> F).
  { intros i o Hi. unfold close, F1, F0. apply list_eq. intros j.
    destruct (decide (j = p1)) as [->|?]; [rewrite list_lookup_insert_eq, list_lookup_insert_ne by (rewrite ?length_insert; lia); done|].
    rewrite list_lookup_insert_ne by done.
    destruct (decide (j = p0)) as [->|?]; [rewrite list_lookup_insert_eq, list_lookup_insert_ne by (rewrite ?length_insert; lia); done|].
    rewrite list_lookup_insert_ne by done.
    destruct (decide (j = i)) as [->|?]; [rewrite !list_lookup_insert_eq by (rewrite ?length_insert; lia); done|].
    by rewrite !list_lookup_insert_ne by done. }
  exists p0, p1, F0, F1. split_and!.
  - unfold install. by rewrite E0.
  - unfold install. by rewrite E1.
  - unfold dup. unfold close at 3. rewrite list_lookup_insert_ne by lia. rewrite Hp1.
    rewrite (install_std F1 1) by (done || lia). apply Hback. lia.
  - unfold dup. unfold close at 3. rewrite list_lookup_insert_ne by lia. rewrite Hp0.
    rewrite (install_std F1 0) by (done || lia). apply Hback. lia.
  - unfold close, F1, F0. apply list_eq. intros j.
    destruct (decide (j = p1)) as [->|?]; [rewrite list_lookup_insert_eq by (rewrite ?length_insert; lia); done|].
    rewrite list_lookup_insert_ne by done.
    destruct (decide (j = p0)) as [->|?]; [rewrite list_lookup_insert_eq by (rewrite ?length_insert; lia); done|].
    by rewrite !list_lookup_insert_ne by done.
Qed.

Lemma redir_fd_std out : (Z.to_nat (redir_fd out) < 3)%nat.
Proof. destruct out; simpl; lia. Qed.

(** C34: the shell sets up the descriptors of a command line as it means.  Started
    with the three standard descriptors open and two descriptors free, [runcmd]
    executes exactly the programs of the command, and each one has the descriptors
    of the shell but for its redirections and its ends of the pipes; in particular
    no end of a pipe stays open in a program that does not use it. *)
Theorem runcmd_refines_plan c : ∀ F n, ready F → execs (runcmd c) F n = plan c F n.
Proof.
  induction c as [argv|c IH file out|l IHl r IHr|l IHl r IHr|c IH]; intros F n HF.
  - by destruct argv.
  - cbn [runcmd execs plan]. rewrite (install_std F _ _ (redir_fd_std out)) by apply HF.
    destruct (can_open file (redir_mode out)); [|done].
    by apply IH, ready_insert; [apply redir_fd_std|].
  - destruct (pipe_tables F n HF) as (p0 & p1 & F0 & F1 & E0 & E1 & El & Er & Eb).
    cbn [runcmd execs plan]. rewrite E0, E1. unfold fork1. cbn [execs]. rewrite El, Er.
    rewrite IHl by (apply ready_insert; [lia|done]). destruct (plan l _ (S n)) as [a n1].
    rewrite IHr by (apply ready_insert; [lia|done]). destruct (plan r _ n1) as [b n2].
    by rewrite app_nil_r.
  - cbn [runcmd plan]. unfold fork1. cbn [execs]. rewrite IHl by done.
    destruct (plan l F n) as [a n1]. by rewrite IHr.
  - cbn [runcmd plan]. unfold fork1. cbn [execs]. rewrite IH by done.
    destruct (plan c F n) as [a n1]. by rewrite app_nil_r.
Qed.

End Execs.

(** A process as the shell starts it. *)
Definition demo_fds : fdtab :=
  [Some (Inherited 0); Some (Inherited 1); Some (Inherited 2); None; None; None].

Lemma demo_ready : ready demo_fds.
Proof.
  split.
  - intros i Hi. destruct i as [|[|[|i]]]; [by eexists..|lia].
  - by exists 3%nat, 4%nat.
Qed.

(** [ls -l | grep x > out], then [wait]. *)
Lemma runcmd_refines_plan_witness :
  (execs (λ _ _, true) (runcmd demo_cmd) demo_fds 0).1 =
  [([[108; 115]; [45; 108]], <[1%nat := Some (WriteEnd 0)]> demo_fds);
   ([[103; 114; 101; 112]; [120]],
    <[1%nat := Some (File [111; 117; 116] 513)]> (<[0%nat := Some (ReadEnd 0)]> demo_fds));
   ([[119; 97; 105; 116]], demo_fds)].
Proof. rewrite (runcmd_refines_plan (λ _ _, true) demo_cmd demo_fds 0 demo_ready). reflexivity. Defined.

End ShRun.
