(* ===== verification/Vm.v ===== *)
(** * Page tables

    [src/vm.c] on the words of memory that the page allocator manages: a page
    directory and its page tables are pages of [words], so that creating,
    copying and freeing an address space can be related to the pages that are
    allocated.  The registers of the processor are not part of the state:
    [switchuvm] is in [Proc], [seginit] in [Gates], [kvmalloc] and [switchkvm] are
    in [Main]. *)

From S2P Require Import Prelude Spinlock Kalloc.

Definition EXTMEM : Z := 0x100000.
Definition DEVSPACE : Z := 0xFE000000.
Definition KERNLINK : Z := KERNBASE + EXTMEM.
Definition NPDENTRIES : nat := 1024.
Definition PTE_P : Z := 0x001.
Definition PTE_W : Z := 0x002.
Definition PTE_U : Z := 0x004.

Definition PDX (va : Z) : Z := Z.land (Z.shiftr va 22) 0x3FF.
Definition PTX (va : Z) : Z := Z.land (Z.shiftr va 12) 0x3FF.
Definition PGADDR (d t o : Z) : Z := u32 (Z.lor (Z.lor (Z.shiftl d 22) (Z.shiftl t 12)) o).
Definition PTE_ADDR (pte : Z) : Z := Z.land pte (Z.lnot 0xFFF).
Definition PTE_FLAGS (pte : Z) : Z := Z.land pte 0xFFF.

(** [*a] and [*a = v] for a word. *)
Definition ld (a : Z) : M kmem Z := gets (λ k, words k a).
Definition st (a v : Z) : M kmem unit := modify (λ k, set_words (<[a := v]> (words k)) k).

(** [memset(v, 0, PGSIZE)] and [memmove(dst, src, PGSIZE)]. *)
Definition zero_page (v : Z) (w : Z → Z) : Z → Z :=
  λ a, if bool_decide (v ≤ a < v + PGSIZE) then 0 else w a.
Definition copy_page (dst src : Z) (w : Z → Z) : Z → Z :=
  λ a, if bool_decide (dst ≤ a < dst + PGSIZE) then w (a - dst + src) else w a.

(** Bytes in the words of memory. *)
Definition byte_in (w i : Z) : Z := Z.land (Z.shiftr w (8 * i)) 0xFF.
Definition ldb (w : Z → Z) (a : Z) : Z := byte_in (w (a - a mod 4)) (a mod 4).
Definition set_byte (w i b : Z) : Z :=
  Z.lor (Z.ldiff w (Z.shiftl 0xFF (8 * i))) (Z.shiftl b (8 * i)).
Definition stb (a b : Z) (w : Z → Z) : Z → Z :=
  <[a - a mod 4 := set_byte (w (a - a mod 4)) (a mod 4) b]> w.

(** [memmove(a, buf, n)] of the bytes [l] of the buffer. *)
Fixpoint store_bytes (a : Z) (l : list Z) (w : Z → Z) : Z → Z :=
  match l with
  | [] => w
  | b :: l => store_bytes (a + 1) l (stb a b w)
  end.

Section Vm.

Context (kend : Z).
(** The first address of the kernel's data ([data], from kernel.ld). *)
Context (data : Z).
Context (me : nat).

Definition walkpgdir (pgdir va : Z) (alloc : bool) : M kmem Z :=
  let pde := pgdir + 4 * PDX va in
  e ← ld pde;
  if bool_decide (Z.land e PTE_P ≠ 0) then mret (P2V (PTE_ADDR e) + 4 * PTX va) else
  if negb alloc then mret 0 else
  pgtab ← kalloc me;
  if bool_decide (pgtab = 0) then mret 0 else
  modify (λ k, set_words (zero_page pgtab (words k)) k) ;;
  st pde (Z.lor (Z.lor (Z.lor (V2P pgtab) PTE_P) PTE_W) PTE_U) ;;
  mret (pgtab + 4 * PTX va).

Fixpoint mappages_loop (fuel : nat) (pgdir a last pa perm : Z) : M kmem Z :=
  match fuel with
  | O => spin
  | S fuel =>
      pte ← walkpgdir pgdir a true;
      if bool_decide (pte = 0) then mret (-1) else
      e ← ld pte;
      if bool_decide (Z.land e PTE_P ≠ 0) then panic "remap" else
      st pte (Z.lor (Z.lor pa perm) PTE_P) ;;
      if bool_decide (a = last) then mret 0
      else mappages_loop fuel pgdir (u32 (a + PGSIZE)) last (u32 (pa + PGSIZE)) perm
  end.

Definition mappages (pgdir va size pa perm : Z) : M kmem Z :=
  let a := PGROUNDDOWN va in
  let last := PGROUNDDOWN (u32 (va + size - 1)) in
  mappages_loop (S (Z.to_nat ((last - a) / PGSIZE))) pgdir a last pa perm.

Fixpoint deallocuvm_loop (fuel : nat) (pgdir a oldsz : Z) : M kmem unit :=
  match fuel with
  | O => spin
  | S fuel =>
      if bool_decide (a < oldsz) then
        pte ← walkpgdir pgdir a false;
        if bool_decide (pte = 0)
        then deallocuvm_loop fuel pgdir (u32 (u32 (PGADDR (PDX a + 1) 0 0 - PGSIZE) + PGSIZE)) oldsz
        else
          e ← ld pte;
          (if bool_decide (Z.land e PTE_P ≠ 0) then
             let pa := PTE_ADDR e in
             if bool_decide (pa = 0) then panic "kfree" else
             kfree kend me (P2V pa) ;; st pte 0
           else mret tt) ;;
          deallocuvm_loop fuel pgdir (u32 (a + PGSIZE)) oldsz
      else mret tt
  end.

Definition deallocuvm (pgdir oldsz newsz : Z) : M kmem Z :=
  if bool_decide (oldsz ≤ newsz) then mret oldsz else
  let a := PGROUNDUP newsz in
  deallocuvm_loop (S (Z.to_nat ((oldsz - a + PGSIZE - 1) / PGSIZE))) pgdir a oldsz ;;
  mret newsz.

Fixpoint allocuvm_loop (fuel : nat) (pgdir a oldsz newsz : Z) : M kmem Z :=
  match fuel with
  | O => spin
  | S fuel =>
      if bool_decide (a < newsz) then
        mem ← kalloc me;
        if bool_decide (mem = 0) then deallocuvm pgdir newsz oldsz ;; mret 0 else
        modify (λ k, set_words (zero_page mem (words k)) k) ;;
        r ← mappages pgdir a PGSIZE (V2P mem) (Z.lor PTE_W PTE_U);
        if bool_decide (r < 0) then
          deallocuvm pgdir newsz oldsz ;; kfree kend me mem ;; mret 0
        else allocuvm_loop fuel pgdir (u32 (a + PGSIZE)) oldsz newsz
      else mret newsz
  end.

Definition allocuvm (pgdir oldsz newsz : Z) : M kmem Z :=
  if bool_decide (KERNBASE ≤ newsz) then mret 0 else
  if bool_decide (newsz < oldsz) then mret oldsz else
  let a := PGROUNDUP oldsz in
  allocuvm_loop (S (Z.to_nat ((newsz - a + PGSIZE - 1) / PGSIZE))) pgdir a oldsz newsz.

Definition freevm (pgdir : Z) : M kmem unit :=
  if bool_decide (pgdir = 0) then panic "freevm: no pgdir" else
  deallocuvm pgdir KERNBASE 0 ;;
  for_range 0 NPDENTRIES (λ i,
    e ← ld (pgdir + 4 * Z.of_nat i);
    if bool_decide (Z.land e PTE_P ≠ 0) then kfree kend me (P2V (PTE_ADDR e)) else mret tt) ;;
  kfree kend me pgdir.

(** [struct kmap] *)
Record kmapping : Type := Kmapping { virt : Z; phys_start : Z; phys_end : Z; perm : Z }.

Definition kmap : list kmapping :=
  [Kmapping KERNBASE 0 EXTMEM PTE_W;
   Kmapping KERNLINK (V2P KERNLINK) (V2P data) 0;
   Kmapping data (V2P data) PHYSTOP PTE_W;
   Kmapping DEVSPACE DEVSPACE 0 PTE_W].

Fixpoint setupkvm_loop (ks : list kmapping) (pgdir : Z) : M kmem Z :=
  match ks with
  | [] => mret pgdir
  | k :: ks =>
      r ← mappages pgdir (virt k) (u32 (phys_end k - phys_start k)) (phys_start k) (perm k);
      if bool_decide (r < 0) then freevm pgdir ;; mret 0 else setupkvm_loop ks pgdir
  end.

Definition setupkvm : M kmem Z :=
  pgdir ← kalloc me;
  if bool_decide (pgdir = 0) then mret 0 else
  modify (λ k, set_words (zero_page pgdir (words k)) k) ;;
  if bool_decide (DEVSPACE < P2V PHYSTOP) then panic "PHYSTOP too high" else
  setupkvm_loop kmap pgdir.

Definition inituvm (pgdir : Z) (init : list Z) (sz : Z) : M kmem unit :=
  if bool_decide (PGSIZE ≤ sz) then panic "inituvm: more than a page" else
  mem ← kalloc me;
  modify (λ k, set_words (zero_page mem (words k)) k) ;;
  mappages pgdir 0 PGSIZE (V2P mem) (Z.lor PTE_W PTE_U) ;;
  modify (λ k, set_words (store_bytes mem (take (Z.to_nat sz) init) (words k)) k).

(** [loaduvm] runs on a state that has the allocator as a part: [readi] of the
    file system reads [n] bytes of an inode from an offset to an address. *)
Section Load.

Context {S : Type} (prj : S → kmem) (put : kmem → S → S).
Context (readi : Z → Z → Z → M S Z).

Fixpoint loaduvm_loop (fuel : nat) (pgdir addr offset sz i : Z) : M S Z :=
  match fuel with
  | O => spin
  | Datatypes.S fuel =>
      if bool_decide (i < sz) then
        pte ← zoom prj put (walkpgdir pgdir (u32 (addr + i)) false);
        if bool_decide (pte = 0) then panic "loaduvm: address should exist" else
        e ← zoom prj put (ld pte);
        let pa := PTE_ADDR e in
        let n := if bool_decide (sz - i < PGSIZE) then sz - i else PGSIZE in
        r ← readi (P2V pa) (u32 (offset + i)) n;
        if bool_decide (r ≠ n) then mret (-1)
        else loaduvm_loop fuel pgdir addr offset sz (u32 (i + PGSIZE))
      else mret 0
  end.

Definition loaduvm (pgdir addr offset sz : Z) : M S Z :=
  if bool_decide (addr mod PGSIZE ≠ 0) then panic "loaduvm: addr must be page aligned" else
  loaduvm_loop (Datatypes.S (Z.to_nat ((sz + PGSIZE - 1) / PGSIZE))) pgdir addr offset sz 0.

End Load.

Definition clearpteu (pgdir uva : Z) : M kmem unit :=
  pte ← walkpgdir pgdir uva false;
  if bool_decide (pte = 0) then panic "clearpteu" else
  e ← ld pte;
  st pte (Z.land e (Z.lnot PTE_U)).

Fixpoint copyuvm_loop (fuel : nat) (pgdir d sz i : Z) : M kmem Z :=
  match fuel with
  | O => spin
  | S fuel =>
      if bool_decide (i < sz) then
        pte ← walkpgdir pgdir i false;
        if bool_decide (pte = 0) then panic "copyuvm: pte should exist" else
        e ← ld pte;
        if bool_decide (Z.land e PTE_P = 0) then panic "copyuvm: page not present" else
        let pa := PTE_ADDR e in
        let flags := PTE_FLAGS e in
        mem ← kalloc me;
        if bool_decide (mem = 0) then freevm d ;; mret 0 else
        modify (λ k, set_words (copy_page mem (P2V pa) (words k)) k) ;;
        r ← mappages d i PGSIZE (V2P mem) flags;
        if bool_decide (r < 0) then kfree kend me mem ;; freevm d ;; mret 0
        else copyuvm_loop fuel pgdir d sz (u32 (i + PGSIZE))
      else mret d
  end.

Definition copyuvm (pgdir sz : Z) : M kmem Z :=
  d ← setupkvm;
  if bool_decide (d = 0) then mret 0 else
  copyuvm_loop (S (Z.to_nat ((sz + PGSIZE - 1) / PGSIZE))) pgdir d sz 0.

(** [uva2ka] reads through the result of [walkpgdir] without looking at it. *)
Definition uva2ka (pgdir uva : Z) : M kmem Z :=
  pte ← walkpgdir pgdir uva false;
  if bool_decide (pte = 0) then undefined "uva2ka: null pte" else
  e ← ld pte;
  if bool_decide (Z.land e PTE_P = 0) then mret 0 else
  if bool_decide (Z.land e PTE_U = 0) then mret 0 else
  mret (P2V (PTE_ADDR e)).

(** [copyout] of the bytes [buf]. *)
Fixpoint copyout_loop (fuel : nat) (pgdir va : Z) (buf : list Z) : M kmem Z :=
  match fuel with
  | O => spin
  | S fuel =>
      if bool_decide (0 < length buf)%nat then
        let va0 := PGROUNDDOWN va in
        pa0 ← uva2ka pgdir va0;
        if bool_decide (pa0 = 0) then mret (-1) else
        let n0 := Z.to_nat (PGSIZE - (va - va0)) in
        let n := if bool_decide (length buf < n0)%nat then length buf else n0 in
        modify (λ k, set_words (store_bytes (pa0 + (va - va0)) (take n buf) (words k)) k) ;;
        copyout_loop fuel pgdir (u32 (va0 + PGSIZE)) (drop n buf)
      else mret 0
  end.

Definition copyout (pgdir va : Z) (buf : list Z) : M kmem Z :=
  copyout_loop (S (length buf)) pgdir va buf.

End Vm.
