(* ===== verification/VmInv.v ===== *)
(** * Address spaces

    The page directory, the page tables and the free pages of [Vm] as one
    predicate: [space] relates the words of a page directory [d] to the map [T]
    of its page tables and the map [U] of its entries, by page number; [vm] adds
    that the free pages, the directory, the tables and other pages [O] are a
    partition of the pages the allocator was given.  The operations on page
    tables are then updates of [U] that keep the partition. *)

From S2P Require Import Prelude Spinlock Kalloc Vm.

(** ** Addresses and entries *)

Lemma PDX_vpn n : 0 ≤ n < 2 ^ 20 → PDX (n * PGSIZE) = n / 1024.
Proof.
  intros Hn. unfold PDX, PGSIZE. change 0x3FF with (Z.ones 10).
  rewrite Z.land_ones, Z.shiftr_div_pow2 by lia. change (2 ^ 22) with (4096 * 1024).
  rewrite <- Z.div_div, Z.div_mul by lia. apply Z.mod_small. Z.div_mod_to_equations. lia.
Qed.

Lemma PTX_vpn n : 0 ≤ n < 2 ^ 20 → PTX (n * PGSIZE) = n mod 1024.
Proof.
  intros Hn. unfold PTX, PGSIZE. change 0x3FF with (Z.ones 10).
  rewrite Z.land_ones, Z.shiftr_div_pow2 by lia. change (2 ^ 12) with 4096.
  by rewrite Z.div_mul by lia.
Qed.

Lemma PTE_ADDR_mask e : PTE_ADDR e = e / PGSIZE * PGSIZE.
Proof. apply land_page_mask. Qed.

Lemma PTE_FLAGS_mod e : PTE_FLAGS e = e mod PGSIZE.
Proof. unfold PTE_FLAGS, PGSIZE. change 0xFFF with (Z.ones 12). by rewrite Z.land_ones by lia. Qed.

Lemma lor_aligned p f : p mod PGSIZE = 0 → 0 ≤ f < PGSIZE → Z.lor p f = p + f.
Proof.
  unfold PGSIZE. intros Hp Hf. symmetry. apply Z.add_nocarry_lor.
  replace p with (Z.shiftl (p / 2 ^ 12) 12)
    by (rewrite Z.shiftl_mul_pow2 by lia; change (2 ^ 12) with 4096; Z.div_mod_to_equations; lia).
  apply Z.bits_inj'. intros i Hi. rewrite Z.land_spec, Z.bits_0. destruct (decide (i < 12)).
  - by rewrite Z.shiftl_spec_low by lia.
  - rewrite <- (Z.mod_small f (2 ^ 12)), Z.mod_pow2_bits_high by lia. apply andb_false_r.
Qed.

Lemma PTE_ADDR_lor p f : p mod PGSIZE = 0 → 0 ≤ f < PGSIZE → PTE_ADDR (Z.lor p f) = p.
Proof.
  intros Hp Hf. rewrite PTE_ADDR_mask, lor_aligned by done. unfold PGSIZE in *. Z.div_mod_to_equations. lia.
Qed.

Lemma PTE_FLAGS_lor p f : p mod PGSIZE = 0 → 0 ≤ f < PGSIZE → PTE_FLAGS (Z.lor p f) = f.
Proof.
  intros Hp Hf. rewrite PTE_FLAGS_mod, lor_aligned by done. unfold PGSIZE in *. Z.div_mod_to_equations. lia.
Qed.

Lemma present_lor p : Z.land (Z.lor p PTE_P) PTE_P ≠ 0.
Proof.
  rewrite Z.land_lor_distr_l, Z.land_diag. unfold PTE_P. intros H%Z.lor_eq_0_iff. lia.
Qed.

Lemma lor_flags_bound a b : 0 ≤ a < PGSIZE → 0 ≤ b < PGSIZE → 0 ≤ Z.lor a b < PGSIZE.
Proof.
  unfold PGSIZE. change 4096 with (2 ^ 12). intros Ha Hb.
  assert (H0 : 0 ≤ Z.lor a b) by (apply Z.lor_nonneg; lia). split; [done|].
  destruct (decide (Z.lor a b = 0)) as [->|Hne]; [lia|]. apply Z.log2_lt_pow2; [lia|].
  rewrite Z.log2_lor by lia. apply Z.max_lub_lt.
  - destruct (decide (a = 0)) as [->|]; [by vm_compute|]. apply Z.log2_lt_pow2; lia.
  - destruct (decide (b = 0)) as [->|]; [by vm_compute|]. apply Z.log2_lt_pow2; lia.
Qed.

Section Pages.

Context (kend : Z).

(** A page of the allocator, at its kernel address. *)
Definition vpage (v : Z) : Prop :=
  v mod PGSIZE = 0 ∧ kend ≤ v ∧ KERNBASE < v < KERNBASE + PHYSTOP.

Lemma vpage_ok v : vpage v → page_ok kend v.
Proof.
  intros (Ha & Hk & Hr). split_and!; [done..|]. unfold V2P. rewrite u32_small; unfold KERNBASE, PHYSTOP in *; lia.
Qed.

Lemma V2P_vpage v : vpage v → V2P v = v - KERNBASE.
Proof. intros (_ & _ & Hr). unfold V2P. apply u32_small. unfold KERNBASE, PHYSTOP in *. lia. Qed.

Lemma P2V_V2P v : vpage v → P2V (V2P v) = v.
Proof.
  intros H. rewrite V2P_vpage by done. destruct H as (_ & _ & Hr). unfold P2V.
  rewrite u32_small; unfold KERNBASE, PHYSTOP in *; lia.
Qed.

Lemma V2P_aligned v : vpage v → V2P v mod PGSIZE = 0 ∧ 0 < V2P v < 2 ^ 32.
Proof.
  intros H. rewrite V2P_vpage by done. destruct H as (Ha & _ & Hr). unfold KERNBASE, PHYSTOP, PGSIZE in *.
  split; [|lia]. Z.div_mod_to_equations. lia.
Qed.

(** The entry for a table, and the page it names. *)
Definition pde_of (t : Z) : Z := Z.lor (Z.lor (Z.lor (V2P t) PTE_P) PTE_W) PTE_U.

Lemma pde_of_lor t : pde_of t = Z.lor (V2P t) 7.
Proof. unfold pde_of. by rewrite <- !Z.lor_assoc. Qed.

Lemma pde_of_addr t : vpage t → P2V (PTE_ADDR (pde_of t)) = t.
Proof.
  intros Ht. rewrite pde_of_lor, PTE_ADDR_lor; [by apply P2V_V2P|by apply V2P_aligned|unfold PGSIZE; lia].
Qed.

Lemma pde_of_present t : Z.land (pde_of t) PTE_P ≠ 0.
Proof.
  unfold pde_of. rewrite <- !Z.lor_assoc, (Z.lor_comm PTE_P), Z.lor_assoc. apply present_lor.
Qed.

Definition in_page (v a : Z) : Prop := v ≤ a < v + PGSIZE.

Lemma in_page_unique v v' a : vpage v → vpage v' → in_page v a → in_page v' a → v = v'.
Proof.
  intros (Ha & _) (Ha' & _) H H'. unfold in_page, PGSIZE in *. Z.div_mod_to_equations. lia.
Qed.

Lemma entry_in_page v i : 0 ≤ i < 1024 → in_page v (v + 4 * i).
Proof. unfold in_page, PGSIZE. lia. Qed.

(** ** Directories and tables *)

Record space (w : Z → Z) (d : Z) (T U : gmap Z Z) : Prop := Space {
  sp_pde : ∀ i, 0 ≤ i < 1024 →
    w (d + 4 * i) = match T !! i with Some t => pde_of t | None => 0 end;
  sp_pte : ∀ n t, 0 ≤ n < 2 ^ 20 → T !! (n / 1024) = Some t →
    w (t + 4 * (n mod 1024)) = default 0 (U !! n);
  sp_T : ∀ i t, T !! i = Some t → 0 ≤ i < 1024;
  sp_U : ∀ n e, U !! n = Some e →
    0 ≤ n < 2 ^ 20 ∧ is_Some (T !! (n / 1024)) ∧ Z.land e PTE_P ≠ 0;
}.

Definition tabs (T : gmap Z Z) : list Z := (map_to_list T).*2.

Lemma elem_of_tabs T t : t ∈ tabs T ↔ ∃ i, T !! i = Some t.
Proof.
  unfold tabs. rewrite list_elem_of_fmap. split.
  - intros ([i x] & -> & H%elem_of_map_to_list). by exists i.
  - intros [i Hi]. exists (i, t). split; [done|]. by apply elem_of_map_to_list.
Qed.

Lemma tabs_insert T i t : T !! i = None → tabs (<[i := t]> T) ≡ₚ t :: tabs T.
Proof. intros Hi. unfold tabs. by rewrite map_to_list_insert by done. Qed.

Lemma tabs_inj T i j t : NoDup (tabs T) → T !! i = Some t → T !! j = Some t → i = j.
Proof.
  intros Hnd Hi Hj. destruct (decide (i = j)) as [|Hne]; [done|]. exfalso.
  assert (Hd : delete i T !! j = Some t) by (by rewrite lookup_delete_ne).
  rewrite <- (insert_delete_id T i t Hi) in Hnd. rewrite tabs_insert in Hnd by apply lookup_delete_eq.
  apply NoDup_cons in Hnd as [Hn _]. apply Hn, elem_of_tabs. by exists j.
Qed.

Lemma space_ext w w' d T U :
  space w d T U → (∀ a, in_page d a → w' a = w a) → (∀ t a, t ∈ tabs T → in_page t a → w' a = w a) →
  space w' d T U.
Proof.
  intros [H1 H2 H3 H4] Hd Ht. split; [| |done|done].
  - intros i Hi. rewrite Hd by (by apply entry_in_page). by apply H1.
  - intros n t Hn Hnt. rewrite (Ht t); [by apply H2|apply elem_of_tabs; by eexists|].
    apply entry_in_page, Z.mod_pos_bound. lia.
Qed.

(** The entry of page [n] is set to a present entry, or to zero. *)
Lemma space_set w d T U n t e :
  space w d T U → NoDup (d :: tabs T) → Forall vpage (d :: tabs T) → 0 ≤ n < 2 ^ 20 →
  T !! (n / 1024) = Some t → (e = 0 ∨ Z.land e PTE_P ≠ 0) →
  space (<[t + 4 * (n mod 1024) := e]> w) d T (if bool_decide (e = 0) then delete n U else <[n := e]> U).
Proof.
  intros [H1 H2 H3 H4] Hnd Hp Hn Ht He. apply NoDup_cons in Hnd as [Hd Hnd].
  apply Forall_cons in Hp as [Hpd Hp]. rewrite Forall_forall in Hp.
  assert (Htt : t ∈ tabs T) by (apply elem_of_tabs; by eexists).
  assert (Hin : in_page t (t + 4 * (n mod 1024))) by (apply entry_in_page, Z.mod_pos_bound; lia).
  split; [| |done|].
  - intros i Hi. rewrite fn_lookup_insert_ne; [by apply H1|]. intros Heq.
    apply Hd. rewrite <- (in_page_unique t d _ (Hp t Htt) Hpd Hin); [done|].
    rewrite Heq. by apply entry_in_page.
  - intros m t' Hm Ht'. destruct (decide (m = n)) as [->|Hne].
    + rewrite Ht in Ht'. injection Ht' as <-. rewrite fn_lookup_insert.
      case_bool_decide; [by rewrite lookup_delete_eq|by rewrite lookup_insert_eq].
    + rewrite fn_lookup_insert_ne.
      * rewrite H2 by done. case_bool_decide; [by rewrite lookup_delete_ne|by rewrite lookup_insert_ne].
      * intros Heq. assert (Htt' : t' ∈ tabs T) by (apply elem_of_tabs; by eexists).
        assert (t = t') as <-.
        { apply (in_page_unique t t' (t + 4 * (n mod 1024))); [by apply Hp|by apply Hp|done|].
          rewrite Heq. apply entry_in_page, Z.mod_pos_bound. lia. }
        pose proof (tabs_inj T _ _ t Hnd Ht Ht') as Hdiv. apply Hne.
        rewrite (Z.div_mod m 1024), (Z.div_mod n 1024) by lia. lia.
  - intros m e'. case_bool_decide as H0.
    + intros [_ Hm]%lookup_delete_Some. by apply H4.
    + intros [[<- <-]|[_ Hm]]%lookup_insert_Some; [|by apply H4].
      split_and!; [lia|lia|by eexists|by destruct He].
Qed.

(** A new, empty, page table. *)
Lemma space_new_table w d T U i t :
  space w d T U → vpage t → vpage d → Forall vpage (tabs T) → t ≠ d → t ∉ tabs T → d ∉ tabs T →
  0 ≤ i < 1024 → T !! i = None →
  space (<[d + 4 * i := pde_of t]> (zero_page t w)) d (<[i := t]> T) U.
Proof.
  intros [H1 H2 H3 H4] Hpt Hpd Hp Htd Htt Hdt Hi HTi. rewrite Forall_forall in Hp.
  assert (Hz : ∀ v a, vpage v → v ≠ t → in_page v a → zero_page t w a = w a).
  { intros v a Hv Hne Ha. unfold zero_page. rewrite bool_decide_eq_false_2; [done|]. intros Hb.
    apply Hne. by apply (in_page_unique v t a). }
  split.
  - intros j Hj. destruct (decide (j = i)) as [->|Hne].
    + by rewrite fn_lookup_insert, lookup_insert_eq.
    + rewrite fn_lookup_insert_ne by lia. rewrite lookup_insert_ne by done.
      rewrite (Hz d) by (done || by apply entry_in_page). by apply H1.
  - intros n t' Hn Ht'.
    assert (Hin : in_page t' (t' + 4 * (n mod 1024))) by (apply entry_in_page, Z.mod_pos_bound; lia).
    apply lookup_insert_Some in Ht' as [[Hni <-]|[Hni Ht']].
    + rewrite fn_lookup_insert_ne.
      * unfold zero_page. rewrite bool_decide_eq_true_2 by done.
        destruct (U !! n) as [e|] eqn:He; [|done]. destruct (H4 n e He) as (_ & [x Hx] & _). congruence.
      * intros Heq. apply Htd. apply (in_page_unique t d _ Hpt Hpd Hin). rewrite <- Heq. by apply entry_in_page.
    + assert (Htt' : t' ∈ tabs T) by (apply elem_of_tabs; by eexists).
      rewrite fn_lookup_insert_ne.
      * rewrite (Hz t' _ (Hp t' Htt')) by (done || by intros ->). by apply H2.
      * intros Heq. apply Hdt. rewrite <- (in_page_unique t' d (t' + 4 * (n mod 1024))); [done|by apply Hp|done|done|].
        rewrite <- Heq. by apply entry_in_page.
  - intros j t' [[<- _]|[_ Hj]]%lookup_insert_Some; [lia|by apply (H3 j t')].
  - intros n e He. destruct (H4 n e He) as (Hn & Hs & Hpr). split_and!; [lia|lia| |done].
    destruct (decide (n / 1024 = i)) as [->|Hne]; [by rewrite lookup_insert_eq|by rewrite lookup_insert_ne].
Qed.

End Pages.

(** ** The pages of an address space

    [all] are the pages that the allocator was given. *)
Section Spaces.

Context (kend : Z) (me : nat) (all : list Z).
Context (Hkend : 0 < kend) (Hnd : NoDup all) (Hall : Forall (vpage kend) all).

Record vm (O : list Z) (k : kmem) (L : list Z) (d : Z) (T U : gmap Z Z) : Prop := Vm {
  vm_ready : km_ready me k;
  vm_free : free_pages kend k L;
  vm_perm : L ++ d :: tabs T ++ O ≡ₚ all;
  vm_space : space (words k) d T U;
}.

(** The pages [O] have the same contents in [k] and [k']. *)
Definition keeps (O : list Z) (k k' : kmem) : Prop :=
  ∀ p a, p ∈ O → in_page p a → words k' a = words k a.

Lemma keeps_refl O k : keeps O k k.
Proof. by intros p a. Qed.

Lemma keeps_trans O k1 k2 k3 : keeps O k1 k2 → keeps O k2 k3 → keeps O k1 k3.
Proof. intros H1 H2 p a Hp Ha. rewrite (H2 p a Hp Ha). by apply (H1 p). Qed.

Lemma keeps_subset O O' k k' : keeps O k k' → O' ⊆ O → keeps O' k k'.
Proof. intros H Hs p a Hp. apply H, Hs, Hp. Qed.

Lemma all_vpage p : p ∈ all → vpage kend p.
Proof. intros Hp. by apply (proj1 (Forall_forall _ _) Hall). Qed.

Section Facts.

Context (O : list Z) (k : kmem) (L : list Z) (d : Z) (T U : gmap Z Z) (Hvm : vm O k L d T U).

Lemma vm_in_all p : p ∈ L ∨ p = d ∨ p ∈ tabs T ∨ p ∈ O → p ∈ all.
Proof. intros H. rewrite <- (vm_perm _ _ _ _ _ _ Hvm). set_solver. Qed.

Lemma vm_NoDup : NoDup (L ++ d :: tabs T ++ O).
Proof. by rewrite (vm_perm _ _ _ _ _ _ Hvm). Qed.

Lemma vm_tables : NoDup (d :: tabs T) ∧ Forall (vpage kend) (d :: tabs T).
Proof.
  pose proof vm_NoDup as H. apply NoDup_app in H as (_ & _ & H). rewrite app_comm_cons in H.
  apply NoDup_app in H as (H & _ & _). split; [done|]. apply Forall_forall. intros p Hp.
  apply all_vpage, vm_in_all. set_solver.
Qed.

(** A directory has 1024 tables at most. *)
Lemma vm_tabs_le : (length (tabs T) ≤ 1024)%nat.
Proof.
  unfold tabs. rewrite length_fmap, length_map_to_list, <- size_dom.
  transitivity (size (list_to_set (Z.of_nat <$> seq 0 1024) : gset Z)).
  - apply subseteq_size. intros i [t Hi]%elem_of_dom.
    pose proof (sp_T _ _ _ _ (vm_space _ _ _ _ _ _ Hvm) i t Hi).
    apply elem_of_list_to_set, list_elem_of_fmap. exists (Z.to_nat i). split; [lia|]. apply elem_of_seq. lia.
  - apply Nat.le_trans with (length (Z.of_nat <$> seq 0 1024)); [|done].
    rewrite <- (size_list_to_set (C:=gset Z) (Z.of_nat <$> seq 0 1024)); [done|].
    apply NoDup_fmap; [apply _|apply NoDup_seq].
Qed.

Lemma vm_count : (length L + 1 + length (tabs T) + length O)%nat = length all.
Proof. rewrite <- (vm_perm _ _ _ _ _ _ Hvm), length_app. cbn [length]. rewrite length_app. lia. Qed.

Lemma vm_disjoint p q a :
  (p ∈ L ∧ (q = d ∨ q ∈ tabs T ∨ q ∈ O)) ∨ ((p = d ∨ p ∈ tabs T) ∧ q ∈ O) →
  in_page p a → ¬ in_page q a.
Proof.
  intros Hpq Hp Hq. pose proof vm_NoDup as Hn. apply NoDup_app in Hn as (_ & HL & Hn).
  rewrite app_comm_cons in Hn. apply NoDup_app in Hn as (_ & HT & _).
  assert (Heq : p = q).
  { apply (in_page_unique kend p q a); [..|done|done]; apply all_vpage, vm_in_all; set_solver. }
  subst q. destruct Hpq as [[H1 H2]|[H1 H2]].
  - apply (HL p H1). set_solver.
  - apply (HT p); set_solver.
Qed.

Lemma vm_table_in n t : T !! (n / 1024) = Some t → t ∈ tabs T ∧ in_page t (t + 4 * (n mod 1024)).
Proof.
  intros Ht. split; [apply elem_of_tabs; by eexists|]. apply entry_in_page, Z.mod_pos_bound. lia.
Qed.

(** [walkpgdir] finds the entry of a page whose table exists. *)
Lemma walk_hit n t alloc :
  0 ≤ n < 2 ^ 20 → T !! (n / 1024) = Some t →
  walkpgdir me d (n * PGSIZE) alloc k = Ok (t + 4 * (n mod 1024)) k.
Proof.
  intros Hn Ht. unfold walkpgdir. rewrite PDX_vpn, PTX_vpn by done. unfold ld, mbind, M_bind, gets.
  rewrite (sp_pde _ _ _ _ (vm_space _ _ _ _ _ _ Hvm)) by (Z.div_mod_to_equations; lia). rewrite Ht.
  rewrite bool_decide_eq_true_2 by apply pde_of_present. unfold mret, M_ret.
  rewrite (pde_of_addr kend); [done|]. apply all_vpage, vm_in_all. right; right; left. by eapply vm_table_in.
Qed.

Lemma walk_miss n :
  0 ≤ n < 2 ^ 20 → T !! (n / 1024) = None → walkpgdir me d (n * PGSIZE) false k = Ok 0 k.
Proof.
  intros Hn Ht. unfold walkpgdir. rewrite PDX_vpn by done. unfold ld, mbind, M_bind, gets.
  rewrite (sp_pde _ _ _ _ (vm_space _ _ _ _ _ _ Hvm)) by (Z.div_mod_to_equations; lia). by rewrite Ht.
Qed.

Lemma chain_keeps w' : (∀ p a, p ∈ L → in_page p a → w' a = words k a) →
  free_pages kend (set_words w' k) L.
Proof.
  intros Hw. destruct (vm_free _ _ _ _ _ _ Hvm) as [Hc Hn Hp]. split; [|done|done]. simpl.
  eapply chain_ext; [|exact Hc]. intros v Hv. apply (Hw v); [done|]. unfold in_page, PGSIZE. lia.
Qed.

(** Writing an entry. *)
Lemma vm_set n t e :
  0 ≤ n < 2 ^ 20 → T !! (n / 1024) = Some t → (e = 0 ∨ Z.land e PTE_P ≠ 0) →
  let k' := set_words (<[t + 4 * (n mod 1024) := e]> (words k)) k in
  vm O k' L d T (if bool_decide (e = 0) then delete n U else <[n := e]> U) ∧ keeps O k k'.
Proof.
  intros Hn Ht He k'. destruct (vm_table_in n t Ht) as [Htt Hin]. destruct vm_tables as [Hnd' Hp].
  split; [|intros p a Hp' Ha; simpl; rewrite fn_lookup_insert_ne; [done|]].
  - split.
    + by destruct (vm_ready _ _ _ _ _ _ Hvm).
    + apply chain_keeps. intros p a Hp' Ha. rewrite fn_lookup_insert_ne; [done|]. intros <-.
      by apply (vm_disjoint p t (t + 4 * (n mod 1024))); [left; auto|..].
    + apply (vm_perm _ _ _ _ _ _ Hvm).
    + simpl. apply (space_set kend); try done. apply (vm_space _ _ _ _ _ _ Hvm).
  - intros <-. by apply (vm_disjoint t p (t + 4 * (n mod 1024))); [right; auto|..].
Qed.

(** [walkpgdir] allocates a missing table. *)
Lemma walk_alloc n :
  0 ≤ n < 2 ^ 20 → T !! (n / 1024) = None →
  (L = [] ∧ ∃ k', walkpgdir me d (n * PGSIZE) true k = Ok 0 k' ∧ vm O k' [] d T U ∧ words k' = words k) ∨
  (∃ t L' k', L = t :: L' ∧ walkpgdir me d (n * PGSIZE) true k = Ok (t + 4 * (n mod 1024)) k' ∧
     vm O k' L' d (<[n / 1024 := t]> T) U ∧ keeps O k k').
Proof.
  intros Hn Ht. pose proof Hvm as [Hr Hf Hperm Hsp].
  destruct (kalloc_spec kend me k L Hr Hf) as (k1 & E & Hf1 & Hfr & Hw).
  assert (Hwalk : walkpgdir me d (n * PGSIZE) true k =
    (if bool_decide (hd 0 L = 0) then Ok 0 k1 else
     Ok (hd 0 L + 4 * (n mod 1024))
        (set_words (<[d + 4 * (n / 1024) := pde_of (hd 0 L)]> (zero_page (hd 0 L) (words k1))) k1))).
  { unfold walkpgdir. rewrite PDX_vpn, PTX_vpn by done. unfold ld, mbind, M_bind, gets.
    rewrite (sp_pde _ _ _ _ Hsp) by (Z.div_mod_to_equations; lia). rewrite Ht. simpl. rewrite E.
    by case_bool_decide. }
  assert (HL : L = [] ∨ ∃ t L', L = t :: L') by (destruct L; eauto).
  destruct HL as [HL|(t & L' & HL)]; rewrite HL in Hf1, Hwalk, Hperm; simpl in *.
  - left. split; [done|]. exists k1. split; [done|]. split; [|done].
    split; [by eapply km_frame_ready|done|done|by rewrite Hw].
  - pose proof vm_NoDup as Hn'. rewrite HL in Hn'. simpl in Hn'. apply NoDup_cons in Hn' as [Htn Hn'].
    rewrite not_elem_of_app, not_elem_of_cons, not_elem_of_app in Htn. destruct Htn as (HtL & Htd & Htt & HtO).
    apply NoDup_app in Hn' as (_ & HdL & Hn'). apply NoDup_cons in Hn' as [HdO Hn'].
    rewrite not_elem_of_app in HdO. destruct HdO as [Hdt HdO].
    destruct vm_tables as [_ Hp']. apply Forall_cons in Hp' as [Hpd Hp'].
    assert (HpL : ∀ p, p ∈ t :: L' ∨ p ∈ O → vpage kend p).
    { intros p Hp. apply all_vpage, vm_in_all. rewrite HL. tauto. }
    assert (Hpt : vpage kend t) by (apply HpL; left; left).
    assert (Ht0 : t ≠ 0) by (destruct Hpt as (_ & ? & _); lia).
    rewrite bool_decide_eq_false_2 in Hwalk by done.
    assert (Hi : 0 ≤ n / 1024 < 1024) by (Z.div_mod_to_equations; lia).
    assert (Hdis : ∀ p a, p ∈ L' ∨ p ∈ O → in_page p a →
      <[d + 4 * (n / 1024) := pde_of t]> (zero_page t (words k1)) a = words k a).
    { intros p a Hp Ha. assert (Hpp : vpage kend p) by (apply HpL; rewrite elem_of_cons; tauto).
      rewrite fn_lookup_insert_ne.
      - unfold zero_page. rewrite Hw, bool_decide_eq_false_2; [done|]. intros Hb.
        pose proof (in_page_unique kend t p a Hpt Hpp Hb Ha). subst p. by destruct Hp.
      - intros <-. pose proof (in_page_unique kend d p _ Hpd Hpp (entry_in_page d _ Hi) Ha). subst p.
        destruct Hp as [Hp|Hp]; [apply (HdL d Hp); left|done]. }
    right. exists t, L'. eexists. split_and!; [done|exact Hwalk| |].
    + split.
      * apply (km_frame_ready me k k1 Hr) in Hfr. by destruct Hfr.
      * destruct Hf1 as [Hc1 Hn1 Hp1]. split; [|done|done]. simpl. eapply chain_ext; [|exact Hc1].
        intros v Hv. rewrite (Hdis v); [by rewrite Hw|by left|]. unfold in_page, PGSIZE. lia.
      * rewrite tabs_insert by done. rewrite <- Hperm. solve_Permutation.
      * simpl. apply (space_new_table kend); try done. by rewrite Hw.
    + intros p a Hp Ha. simpl. by apply (Hdis p); [right|].
Qed.

(** Both cases: the entry of the page, or no memory for its table. *)
Lemma walk_spec n :
  0 ≤ n < 2 ^ 20 →
  ∃ r k' L' T', walkpgdir me d (n * PGSIZE) true k = Ok r k' ∧ vm O k' L' d T' U ∧ keeps O k k' ∧ T ⊆ T' ∧
    (length L ≤ S (length L'))%nat ∧
    ((r = 0 ∧ L = [] ∧ L' = [] ∧ T' = T) ∨
     ∃ t, T' !! (n / 1024) = Some t ∧ r = t + 4 * (n mod 1024) ∧ r ≠ 0).
Proof.
  intros Hn. destruct (T !! (n / 1024)) as [t|] eqn:Ht.
  - exists (t + 4 * (n mod 1024)), k, L, T. split_and!; [by apply walk_hit|done|apply keeps_refl|done|lia|].
    right. exists t. split_and!; [done|done|].
    assert (vpage kend t) as (_ & ? & _).
    { apply all_vpage, vm_in_all. right; right; left. by eapply vm_table_in. }
    pose proof (Z.mod_pos_bound n 1024). lia.
  - destruct (walk_alloc n Hn Ht) as [(HL & k' & E & Hv & Hw)|(t & L' & k' & HL & E & Hv & Hk)].
    + exists 0, k', [], T. split_and!; [done|done|intros p a _ _; by rewrite Hw|done|rewrite HL; simpl; lia|by left].
    + exists (t + 4 * (n mod 1024)), k', L', (<[n / 1024 := t]> T).
      split_and!; [done|done|done|by apply insert_subseteq|rewrite HL; simpl; lia|].
      right. exists t. split_and!; [by rewrite lookup_insert_eq|done|].
      assert (vpage kend t) as (_ & ? & _) by (apply all_vpage, vm_in_all; left; rewrite HL; left).
      pose proof (Z.mod_pos_bound n 1024). lia.
Qed.

End Facts.

(** ** Mapping pages *)

(** The entries that [mappages] writes for [n] pages, and the map with the
    entries [es] from page [s] on. *)
Fixpoint ptes (pa perm : Z) (n : nat) : list Z :=
  match n with
  | O => []
  | S n => Z.lor (Z.lor pa perm) PTE_P :: ptes (u32 (pa + PGSIZE)) perm n
  end.

Fixpoint ins (U : gmap Z Z) (s : Z) (es : list Z) : gmap Z Z :=
  match es with
  | [] => U
  | e :: es => ins (<[s := e]> U) (s + 1) es
  end.

Lemma mappages_loop_spec m : ∀ s pa perm fuel O k L d T U,
  vm O k L d T U → 0 ≤ s → s + Z.of_nat m < 2 ^ 20 →
  (∀ i, s ≤ i ≤ s + Z.of_nat m → U !! i = None) → (m < fuel)%nat →
  ∃ r k' L' T' j,
    mappages_loop me fuel d (s * PGSIZE) ((s + Z.of_nat m) * PGSIZE) pa perm k = Ok r k' ∧
    vm O k' L' d T' (ins U s (take j (ptes pa perm (S m)))) ∧ keeps O k k' ∧ T ⊆ T' ∧
    (length L ≤ length L' + S m)%nat ∧
    ((r = 0 ∧ j = S m) ∨ (r = -1 ∧ (length L ≤ j ≤ m)%nat ∧ L' = [])).
Proof.
  induction m as [|m IH]; intros s pa perm fuel O k L d T U Hvm Hs Hsm HU Hfuel.
  all: destruct fuel as [|fuel]; [lia|]; cbn [mappages_loop].
  all: destruct (walk_spec O k L d T U Hvm s) as (r & k1 & L1 & T1 & E & Hvm1 & Hk1 & HT & HL & Hr); [lia|].
  all: unfold mbind at 1, M_bind at 1; rewrite E.
  all: destruct Hr as [(-> & -> & -> & ->)|(t & Ht & -> & Hr)];
    [exists (-1), k1, [], T, 0%nat; split_and!; [done|done|done|done|simpl in *; lia|right; split_and!; [done|simpl; lia|lia|done]]|].
  all: rewrite bool_decide_eq_false_2 by done; unfold ld, mbind, M_bind, gets.
  all: rewrite (sp_pte _ _ _ _ (vm_space _ _ _ _ _ _ Hvm1) s t) by (done || lia).
  all: rewrite (HU s) by lia; simpl default; rewrite Z.land_0_l, bool_decide_eq_false_2 by lia.
  all: unfold st, modify; destruct (vm_set O k1 L1 d T1 U Hvm1 s t (Z.lor (Z.lor pa perm) PTE_P)) as [Hvm2 Hk2];
    [lia|done|right; apply present_lor|].
  all: assert (Hne : Z.lor (Z.lor pa perm) PTE_P ≠ 0)
    by (intros H0; apply (present_lor (Z.lor pa perm)); by rewrite H0).
  all: rewrite bool_decide_eq_false_2 in Hvm2 by done.
  - rewrite bool_decide_eq_true_2 by (f_equal; lia).
    eexists 0, _, L1, T1, 1%nat. split_and!; [reflexivity|exact Hvm2|by eapply keeps_trans|done|lia|by left].
  - rewrite bool_decide_eq_false_2 by (unfold PGSIZE; lia).
    replace (u32 (s * PGSIZE + PGSIZE)) with ((s + 1) * PGSIZE)
      by (rewrite u32_small; unfold PGSIZE; lia).
    replace ((s + Z.of_nat (S m)) * PGSIZE) with ((s + 1 + Z.of_nat m) * PGSIZE) by (f_equal; lia).
    destruct (IH (s + 1) (u32 (pa + PGSIZE)) perm fuel O _ L1 d T1 _ Hvm2)
      as (r & k' & L' & T' & j & E' & Hvm' & Hk' & HT' & HL' & Hr'); [lia|lia| |lia|].
    { intros i Hi. rewrite lookup_insert_ne by lia. apply HU. lia. }
    exists r, k', L', T', (S j). split_and!; [exact E'|exact Hvm'| | |lia|].
    + eapply keeps_trans; [done|]. by eapply keeps_trans.
    + by etrans.
    + destruct Hr' as [[-> ->]|(-> & ? & ->)]; [by left|right; split_and!; [done|lia|lia|done]].
Qed.

(** ** Frames of user memory *)

Definition USER : Z := 0x80000.

(** The page that an entry names. *)
Definition frame (e : Z) : Z := P2V (PTE_ADDR e).

Definition frames (U : gmap Z Z) : list Z :=
  (λ p : Z * Z, frame p.2) <$> map_to_list (filter (λ p, p.1 < USER) U).

Lemma frames_insert U n e :
  n < USER → U !! n = None → frames (<[n := e]> U) ≡ₚ frame e :: frames U.
Proof.
  intros Hn HU. unfold frames. rewrite map_filter_insert_True by done.
  rewrite map_to_list_insert; [done|]. apply map_lookup_filter_None. by left.
Qed.

Lemma frames_insert_kernel U n e : USER ≤ n → frames (<[n := e]> U) = frames U.
Proof.
  intros Hn. unfold frames. rewrite map_filter_insert_not'; [done|simpl; lia|]. intros y _. simpl. lia.
Qed.

Lemma frames_delete U n e :
  n < USER → U !! n = Some e → frames U ≡ₚ frame e :: frames (delete n U).
Proof.
  intros Hn HU. rewrite <- (insert_delete_id U n e HU) at 1. apply frames_insert; [done|]. apply lookup_delete_eq.
Qed.

Lemma elem_of_frames U f : f ∈ frames U ↔ ∃ n e, n < USER ∧ U !! n = Some e ∧ f = frame e.
Proof.
  unfold frames. rewrite list_elem_of_fmap. split.
  - intros ([n e] & -> & H%elem_of_map_to_list). apply map_lookup_filter_Some in H as [HU Hn].
    by exists n, e.
  - intros (n & e & Hn & HU & ->). exists (n, e). split; [done|].
    by apply elem_of_map_to_list, map_lookup_filter_Some.
Qed.

(** An address space whose user pages are its own; [O] are other pages. *)
Definition uvm (O : list Z) (k : kmem) (L : list Z) (d : Z) (T U : gmap Z Z) : Prop :=
  vm (frames U ++ O) k L d T U.

Lemma vm_permute O O' k L d T U : vm O k L d T U → O ≡ₚ O' → vm O' k L d T U.
Proof. intros [H1 H2 H3 H4] HO. split; [done|done| |done]. by rewrite <- HO. Qed.

Lemma keeps_permute O O' k k' : keeps O k k' → O ≡ₚ O' → keeps O' k k'.
Proof. intros H HO p a Hp. apply H. by rewrite HO. Qed.

Lemma uvm_entry O k L d T U n e :
  uvm O k L d T U → n < USER → U !! n = Some e → vpage kend (frame e) ∧ PTE_ADDR e ≠ 0.
Proof.
  intros Hvm Hn HU. assert (Hf : vpage kend (frame e)).
  { apply all_vpage, (vm_in_all _ _ _ _ _ _ Hvm). right; right; right. apply elem_of_app. left.
    apply elem_of_frames. by exists n, e. }
  split; [done|]. intros H0. destruct Hf as (_ & _ & Hr & _). unfold frame in Hr. rewrite H0 in Hr.
  unfold P2V in Hr. rewrite u32_small in Hr by (unfold KERNBASE; lia). lia.
Qed.

(** Freeing one of the other pages. *)
Lemma vm_kfree f O k L d T U :
  vm (f :: O) k L d T U →
  ∃ k', kfree kend me f k = Ok tt k' ∧ vm O k' (f :: L) d T U ∧ keeps O k k'.
Proof.
  intros Hvm. pose proof (vm_NoDup _ _ _ _ _ _ Hvm) as Hn. pose proof Hvm as [Hr Hf Hp Hsp].
  assert (Hpf : vpage kend f) by (apply all_vpage, (vm_in_all _ _ _ _ _ _ Hvm); right; right; right; left).
  assert (Hperm' : L ++ d :: tabs T ++ f :: O ≡ₚ f :: L ++ d :: tabs T ++ O) by solve_Permutation.
  rewrite Hperm' in Hn. apply NoDup_cons in Hn as [Hn _].
  rewrite not_elem_of_app, not_elem_of_cons, not_elem_of_app in Hn. destruct Hn as (HfL & Hfd & HfT & HfO).
  destruct (kfree_spec kend me k L f Hkend Hr Hf) as (k' & E & Hf' & Hfr & Hw);
    [by apply vpage_ok|done|].
  assert (Hsame : ∀ p a, p ≠ f → p ∈ all → in_page p a → words k' a = words k a).
  { intros p a Hne Hpa Ha. apply Hw. intros Hb. apply Hne.
    apply (in_page_unique kend p f a); [by apply all_vpage|done|done|done]. }
  exists k'. split_and!; [done| |].
  - split; [by eapply km_frame_ready|done|rewrite <- Hp; by rewrite Hperm'|].
    eapply space_ext; [exact Hsp| |].
    + intros a Ha. apply (Hsame d); [done|apply (vm_in_all _ _ _ _ _ _ Hvm); auto|done].
    + intros t a Ht Ha. apply (Hsame t); [by intros ->|apply (vm_in_all _ _ _ _ _ _ Hvm); auto|done].
  - intros p a Hpo Ha. apply (Hsame p); [by intros ->| |done].
    apply (vm_in_all _ _ _ _ _ _ Hvm). right; right; right. by right.
Qed.

(** Allocating a page. *)
Lemma vm_kalloc O k L d T U :
  vm O k L d T U →
  ∃ k', kalloc me k = Ok (hd 0 L) k' ∧ words k' = words k ∧
    ((L = [] ∧ vm O k' [] d T U) ∨
     ∃ f L', L = f :: L' ∧ f ≠ 0 ∧ vm (f :: O) k' L' d T U).
Proof.
  intros Hvm. pose proof Hvm as [Hr Hf Hp Hsp].
  destruct (kalloc_spec kend me k L Hr Hf) as (k' & E & Hf' & Hfr & Hw).
  exists k'. split_and!; [done|done|]. destruct L as [|f L']; simpl in *.
  - left. split; [done|]. split; [by eapply km_frame_ready|done|done|by rewrite Hw].
  - right. exists f, L'. split_and!; [done| |].
    + assert (vpage kend f) as (_ & ? & _); [|lia].
      apply all_vpage, (vm_in_all _ _ _ _ _ _ Hvm). left. left.
    + split; [by eapply km_frame_ready|done| |by rewrite Hw]. rewrite <- Hp. solve_Permutation.
Qed.

(** Writing to one of the other pages. *)
Lemma vm_write f w' O k L d T U :
  vm (f :: O) k L d T U → (∀ a, ¬ in_page f a → w' a = words k a) →
  vm (f :: O) (set_words w' k) L d T U ∧ keeps O k (set_words w' k).
Proof.
  intros Hvm Hw. pose proof (vm_NoDup _ _ _ _ _ _ Hvm) as Hn. pose proof Hvm as [Hr Hf Hp Hsp].
  assert (Hperm' : L ++ d :: tabs T ++ f :: O ≡ₚ f :: L ++ d :: tabs T ++ O) by solve_Permutation.
  rewrite Hperm' in Hn. apply NoDup_cons in Hn as [Hn _].
  rewrite not_elem_of_app, not_elem_of_cons, not_elem_of_app in Hn. destruct Hn as (HfL & Hfd & HfT & HfO).
  assert (Hpf : vpage kend f) by (apply all_vpage, (vm_in_all _ _ _ _ _ _ Hvm); right; right; right; left).
  assert (Hsame : ∀ p a, p ≠ f → p ∈ all → in_page p a → w' a = words k a).
  { intros p a Hne Hpa Ha. apply Hw. intros Hb. apply Hne.
    apply (in_page_unique kend p f a); [by apply all_vpage|done|done|done]. }
  split.
  - split; [by destruct Hr| |done|].
    + apply (chain_keeps _ _ _ _ _ _ Hvm). intros p a Hpl Ha. apply (Hsame p); [by intros ->| |done].
      apply (vm_in_all _ _ _ _ _ _ Hvm). by left.
    + simpl. eapply space_ext; [exact Hsp| |].
      * intros a Ha. apply (Hsame d); [done|apply (vm_in_all _ _ _ _ _ _ Hvm); auto|done].
      * intros t a Ht Ha. apply (Hsame t); [by intros ->|apply (vm_in_all _ _ _ _ _ _ Hvm); auto|done].
  - intros p a Hpo Ha. apply (Hsame p); [by intros ->| |done].
    apply (vm_in_all _ _ _ _ _ _ Hvm). right; right; right. by right.
Qed.

End Spaces.
