(* ===== verification/VmThm.v ===== *)
(** * Operations on address spaces

    What [deallocuvm], [allocuvm], [freevm] and [copyuvm] of [Vm] do to an
    address space, in terms of the entries [U] of [VmInv], and the theorems: no
    page is lost or used twice, a new page is zero, and a forked child has a copy
    of its parent's memory in pages of its own. *)

From S2P Require Import Prelude Spinlock Kalloc Vm VmInv.

Section Ops.

Context (kend : Z) (me : nat) (all : list Z).
Context (Hkend : 0 < kend) (Hnd : NoDup all) (Hall : Forall (vpage kend) all).

Abbreviation uvm := (uvm kend me all).
Abbreviation vm := (vm kend me all).
Abbreviation walk_hit := (walk_hit kend me all Hkend Hnd Hall).
Abbreviation vm_in_all := (vm_in_all kend me all Hkend Hnd Hall).
Abbreviation vm_set := (vm_set kend me all Hkend Hnd Hall).
Abbreviation vm_kfree := (vm_kfree kend me all Hkend Hnd Hall).
Abbreviation vm_kalloc := (vm_kalloc kend me all Hkend Hnd Hall).
Abbreviation vm_write := (vm_write kend me all Hkend Hnd Hall).
Abbreviation uvm_entry := (uvm_entry kend me all Hkend Hnd Hall).
Abbreviation mappages_loop_spec := (mappages_loop_spec kend me all Hkend Hnd Hall).
Abbreviation all_vpage := (all_vpage kend all Hall).
Abbreviation vm_count := (vm_count kend me all).
Abbreviation vm_tabs_le := (vm_tabs_le kend me all).

(** The entries that are left when the pages from [s] up to the address [sz]
    are removed. *)
Definition cut (s sz : Z) (U : gmap Z Z) : gmap Z Z :=
  filter (λ p, ¬ (s ≤ p.1 ∧ p.1 * PGSIZE < sz)) U.

Lemma lookup_cut s sz U n : cut s sz U !! n = if decide (s ≤ n ∧ n * PGSIZE < sz) then None else U !! n.
Proof.
  unfold cut. destruct (decide _) as [H|H].
  - apply map_lookup_filter_None. right. intros e _ Hf. by apply Hf.
  - destruct (U !! n) as [e|] eqn:HU.
    + by apply map_lookup_filter_Some.
    + apply map_lookup_filter_None. by left.
Qed.

Lemma cut_done s sz U : sz ≤ s * PGSIZE → cut s sz U = U.
Proof.
  intros H. apply map_eq. intros n. rewrite lookup_cut. destruct (decide _) as [Hd|]; [|done].
  unfold PGSIZE in *. lia.
Qed.

(** The next page table. *)
Lemma next_table s :
  0 ≤ s < USER →
  u32 (u32 (PGADDR (PDX (s * PGSIZE) + 1) 0 0 - PGSIZE) + PGSIZE) = ((s / 1024 + 1) * 1024) * PGSIZE.
Proof.
  intros Hs. unfold USER in Hs. rewrite PDX_vpn by lia. unfold PGADDR. rewrite Z.shiftl_0_l, !Z.lor_0_r.
  rewrite Z.shiftl_mul_pow2 by lia. unfold PGSIZE. autorewrite with u32. rewrite u32_small; Z.div_mod_to_equations; lia.
Qed.

Lemma deallocuvm_loop_spec fuel : ∀ s sz O k L d T U,
  uvm O k L d T U → 0 ≤ s → sz ≤ KERNBASE → sz - s * PGSIZE ≤ (Z.of_nat fuel - 1) * PGSIZE → (0 < fuel)%nat →
  ∃ k' L', deallocuvm_loop kend me fuel d (s * PGSIZE) sz k = Ok tt k' ∧
    uvm O k' L' d T (cut s sz U) ∧ keeps (frames (cut s sz U) ++ O) k k' ∧
    (length L ≤ length L')%nat.
Proof.
  induction fuel as [|fuel IH]; intros s sz O k L d T U Hvm Hs Hsz Hfuel Hpos; [lia|].
  cbn [deallocuvm_loop]. case_bool_decide as Hlt.
  2:{ exists k, L. rewrite cut_done by lia. split_and!; [done|done|apply keeps_refl|done]. }
  assert (Hsu : s < USER) by (unfold USER, PGSIZE, KERNBASE in *; lia).
  assert (Hsn : 0 ≤ s < 2 ^ 20) by (unfold USER in Hsu; lia).
  assert (Hf0 : (0 < fuel)%nat) by (unfold PGSIZE in *; lia).
  assert (Hnext : u32 (s * PGSIZE + PGSIZE) = (s + 1) * PGSIZE)
    by (rewrite u32_small; unfold PGSIZE, USER in *; lia).
  destruct (T !! (s / 1024)) as [t|] eqn:Ht.
  - unfold mbind, M_bind. rewrite (walk_hit _ _ _ _ _ _ Hvm s t false Hsn Ht).
    assert (Htv : vpage kend t).
    { apply all_vpage, (vm_in_all _ _ _ _ _ _ Hvm). right; right; left.
      by eapply vm_table_in. }
    rewrite bool_decide_eq_false_2.
    2:{ destruct Htv as (_ & ? & _). pose proof (Z.mod_pos_bound s 1024). lia. }
    unfold ld, gets. rewrite (sp_pte _ _ _ _ (vm_space _ _ _ _ _ _ _ _ _ Hvm) s t Hsn Ht).
    destruct (U !! s) as [e|] eqn:HU; simpl default.
    + destruct (sp_U _ _ _ _ (vm_space _ _ _ _ _ _ _ _ _ Hvm) s e HU) as (_ & _ & Hpr).
      destruct (uvm_entry _ _ _ _ _ _ s e Hvm Hsu HU) as [Hfe Hne].
      rewrite bool_decide_eq_true_2, bool_decide_eq_false_2 by done.
      pose proof (frames_delete U s e Hsu HU) as Hfr.
      assert (Hvm' : vm (frame e :: (frames (delete s U) ++ O)) k L d T U).
      { eapply vm_permute; [exact Hvm|]. by rewrite Hfr. }
      destruct (vm_kfree _ _ _ _ _ _ _ Hvm') as (k1 & E1 & Hvm1 & Hk1).
      cbv zeta. change (default 0 (Some e)) with e. fold (frame e). rewrite E1. unfold st, modify.
      destruct (vm_set _ _ _ _ _ _ Hvm1 s t 0 Hsn Ht (or_introl eq_refl)) as [Hvm2 Hk2].
      rewrite bool_decide_eq_true_2 in Hvm2 by done. rewrite Hnext.
      destruct (IH (s + 1) sz O _ _ d T _ Hvm2) as (k' & L' & E' & Hvm3 & Hk3 & HL);
        [lia|done|unfold PGSIZE in *; lia|done|].
      assert (Hcut : cut (s + 1) sz (delete s U) = cut s sz U).
      { apply map_eq. intros n. rewrite !lookup_cut. destruct (decide (n = s)) as [->|Hn].
        - rewrite lookup_delete_eq. destruct (decide (s ≤ s ∧ _)); [by destruct (decide _)|lia].
        - rewrite lookup_delete_ne by done. destruct (decide (s + 1 ≤ n ∧ _)), (decide (s ≤ n ∧ _)); done || lia. }
      rewrite Hcut in *. exists k', L'. split_and!; [done|done| |simpl in HL; lia].
      assert (Hsub : frames (cut s sz U) ++ O ⊆ frames (delete s U) ++ O).
      { intros f. rewrite !elem_of_app, !elem_of_frames. intros [(n & e' & Hn & HUn & ->)|?]; [|by right].
        left. exists n, e'. split_and!; [done| |done]. rewrite <- Hcut, lookup_cut in HUn.
        by destruct (decide _). }
      eapply keeps_trans; [by eapply keeps_subset|]. by eapply keeps_trans; [eapply keeps_subset|].
    + rewrite Z.land_0_l, bool_decide_eq_false_2 by lia. unfold mret, M_ret. rewrite Hnext.
      destruct (IH (s + 1) sz O k L d T U Hvm) as (k' & L' & E' & Hvm3 & Hk3 & HL);
        [lia|done|unfold PGSIZE in *; lia|done|].
      assert (Hcut : cut (s + 1) sz U = cut s sz U).
      { apply map_eq. intros n. rewrite !lookup_cut. destruct (decide (n = s)) as [->|Hn].
        - rewrite HU. by destruct (decide _), (decide _).
        - destruct (decide (s + 1 ≤ n ∧ _)), (decide (s ≤ n ∧ _)); done || lia. }
      rewrite Hcut in *. by exists k', L'.
  - unfold mbind, M_bind. rewrite (walk_miss _ _ _ _ _ _ _ _ _ Hvm s Hsn Ht).
    rewrite bool_decide_eq_true_2, next_table by (done || lia).
    set (s' := (s / 1024 + 1) * 1024). assert (Hs' : s + 1 ≤ s') by (unfold s'; Z.div_mod_to_equations; lia).
    destruct (IH s' sz O k L d T U Hvm) as (k' & L' & E' & Hvm3 & Hk3 & HL);
      [lia|done|unfold PGSIZE in *; lia|done|].
    assert (Hcut : cut s' sz U = cut s sz U).
    { apply map_eq. intros n. rewrite !lookup_cut.
      destruct (decide (s' ≤ n ∧ _)), (decide (s ≤ n ∧ _)); try done; try lia.
      destruct (U !! n) as [e|] eqn:HU; [|done]. exfalso.
      destruct (sp_U _ _ _ _ (vm_space _ _ _ _ _ _ _ _ _ Hvm) n e HU) as (Hn & [t Ht'] & _).
      replace (n / 1024) with (s / 1024) in Ht'; [congruence|].
      unfold s' in *. Z.div_mod_to_equations. lia. }
    rewrite Hcut in *. by exists k', L'.
Qed.

(** The first page that is not below the address [sz]. *)
Definition pgup (sz : Z) : Z := (sz + PGSIZE - 1) / PGSIZE.

Lemma PGROUNDUP_pgup sz : 0 ≤ sz ≤ KERNBASE → PGROUNDUP sz = pgup sz * PGSIZE.
Proof.
  intros Hsz. unfold PGROUNDUP. rewrite u32_small by (unfold KERNBASE, PGSIZE in *; lia). apply land_page_mask.
Qed.

Lemma pgup_bounds sz : 0 ≤ sz → sz ≤ pgup sz * PGSIZE < sz + PGSIZE ∧ 0 ≤ pgup sz.
Proof. intros Hsz. unfold pgup, PGSIZE. Z.div_mod_to_equations. lia. Qed.

Lemma PGROUNDDOWN_page s : PGROUNDDOWN (s * PGSIZE) = s * PGSIZE.
Proof. unfold PGROUNDDOWN. rewrite land_page_mask. unfold PGSIZE. by rewrite Z.div_mul by lia. Qed.

(** The user memory of [deallocuvm]. *)
Lemma deallocuvm_spec oldsz newsz O k L d T U :
  uvm O k L d T U → 0 ≤ newsz → oldsz ≤ KERNBASE →
  let U' := if bool_decide (oldsz ≤ newsz) then U else cut (pgup newsz) oldsz U in
  ∃ k' L', deallocuvm kend me d oldsz newsz k =
             Ok (if bool_decide (oldsz ≤ newsz) then oldsz else newsz) k' ∧
    uvm O k' L' d T U' ∧ keeps (frames U' ++ O) k k' ∧ (length L ≤ length L')%nat.
Proof.
  intros Hvm Hn Ho U'. unfold deallocuvm. unfold U'. case_bool_decide as Hle.
  - exists k, L. split_and!; [done|done|apply keeps_refl|done].
  - pose proof (pgup_bounds newsz Hn) as Hb. rewrite PGROUNDUP_pgup by lia.
    destruct (deallocuvm_loop_spec (S (Z.to_nat ((oldsz - pgup newsz * PGSIZE + PGSIZE - 1) / PGSIZE)))
      (pgup newsz) oldsz O k L d T U Hvm) as (k' & L' & E & H); [lia|lia| |lia|].
    { unfold PGSIZE in *. Z.div_mod_to_equations. lia. }
    exists k', L'. unfold mbind, M_bind. rewrite E. done.
Qed.

(** The entry that [mappages] makes for one page. *)
Definition pte_of (f perm : Z) : Z := Z.lor (Z.lor (V2P f) perm) PTE_P.

Lemma frame_pte_of f perm : vpage kend f → 0 ≤ perm < PGSIZE → frame (pte_of f perm) = f.
Proof.
  intros Hf Hp. unfold frame, pte_of. rewrite <- Z.lor_assoc, PTE_ADDR_lor.
  - by apply (P2V_V2P kend).
  - by apply (V2P_aligned kend).
  - apply lor_flags_bound; [done|]. unfold PTE_P, PGSIZE. lia.
Qed.

(** [mappages] of one user page [f] of the other pages. *)
Lemma map_page s f perm O k L d T U :
  vm (f :: frames U ++ O) k L d T U → 0 ≤ s < USER → U !! s = None → 0 ≤ perm < PGSIZE →
  ∃ r k' L' T', mappages me d (s * PGSIZE) PGSIZE (V2P f) perm k = Ok r k' ∧ T ⊆ T' ∧
    keeps (f :: frames U ++ O) k k' ∧ (length L ≤ S (length L'))%nat ∧
    ((r = 0 ∧ uvm O k' L' d T' (<[s := pte_of f perm]> U)) ∨
     (r = -1 ∧ L = [] ∧ L' = [] ∧ vm (f :: frames U ++ O) k' L' d T' U)).
Proof.
  intros Hvm Hs HU Hp. unfold mappages. rewrite PGROUNDDOWN_page.
  assert (Hlast : PGROUNDDOWN (u32 (s * PGSIZE + PGSIZE - 1)) = s * PGSIZE).
  { rewrite u32_small by (unfold USER, PGSIZE in *; lia). unfold PGROUNDDOWN. rewrite land_page_mask.
    unfold PGSIZE. Z.div_mod_to_equations. lia. }
  rewrite Hlast, Z.sub_diag. change (S (Z.to_nat (0 / PGSIZE))) with 1%nat.
  destruct (mappages_loop_spec 0 s (V2P f) perm 1 _ k L d T U Hvm)
    as (r & k' & L' & T' & j & E & Hvm' & Hk & HT & HL & Hr); [lia|unfold USER in *; simpl; lia| |lia|].
  { intros i Hi. by replace i with s by lia. }
  replace (s + Z.of_nat 0) with s in E by lia.
  assert (Hpf : vpage kend f).
  { apply all_vpage, (vm_in_all _ _ _ _ _ _ Hvm). right; right; right; left. }
  exists r, k', L', T'. split_and!; [done|done|done|lia|].
  destruct Hr as [[-> ->]|(-> & Hj & ->)]; [left|right].
  - split; [done|]. unfold VmInv.uvm. simpl in Hvm'. eapply vm_permute; [exact Hvm'|].
    rewrite frames_insert by (done || lia). fold (pte_of f perm). by rewrite frame_pte_of.
  - replace j with 0%nat in Hvm' by lia. split_and!; [done| |done|done].
    apply nil_length_inv. lia.
Qed.

(** A page of zeroes. *)
Definition zeroed (k : kmem) (f : Z) : Prop := ∀ a, in_page f a → words k a = 0.

Lemma keeps_zeroed O k k' f : keeps O k k' → f ∈ O → zeroed k f → zeroed k' f.
Proof. intros Hk Hf Hz a Ha. rewrite (Hk f a Hf Ha). by apply Hz. Qed.

Definition UPERM : Z := Z.lor PTE_W PTE_U.

Lemma UPERM_bound : 0 ≤ UPERM < PGSIZE.
Proof. split; by vm_compute. Qed.


(** What [allocuvm] has done when it succeeded from page [s] on: the new pages
    are mapped, zero and writable by the user, and nothing else has changed. *)
Definition grown (s newsz : Z) (U U' : gmap Z Z) (k' : kmem) : Prop :=
  (∀ n, ¬ (s ≤ n ∧ n * PGSIZE < newsz) → U' !! n = U !! n) ∧
  (∀ n, s ≤ n → n * PGSIZE < newsz → ∃ f, vpage kend f ∧ U' !! n = Some (pte_of f UPERM) ∧ zeroed k' f).

Lemma allocuvm_loop_spec fuel : ∀ s oldsz newsz O k L d T U,
  uvm O k L d T U → 0 ≤ oldsz ≤ newsz → newsz < KERNBASE → pgup oldsz ≤ s →
  (∀ n, s ≤ n → n * PGSIZE < newsz → U !! n = None) →
  newsz - s * PGSIZE ≤ (Z.of_nat fuel - 1) * PGSIZE → (0 < fuel)%nat →
  ∃ k' L' T' U', T ⊆ T' ∧ uvm O k' L' d T' U' ∧
    ((allocuvm_loop kend me fuel d (s * PGSIZE) oldsz newsz k = Ok newsz k' ∧ grown s newsz U U' k' ∧
        keeps (frames U ++ O) k k') ∨
     (allocuvm_loop kend me fuel d (s * PGSIZE) oldsz newsz k = Ok 0 k' ∧ U' = cut (pgup oldsz) newsz U ∧
        keeps (frames U' ++ O) k k' ∧ Z.of_nat (length L) < 2 * (pgup newsz - s))).
Proof.
  induction fuel as [|fuel IH]; intros s oldsz newsz O k L d T U Hvm Ho Hn Hs HU Hfuel Hpos; [lia|].
  pose proof (pgup_bounds oldsz) as Hbo. pose proof (pgup_bounds newsz) as Hbn.
  remember (allocuvm_loop kend me (S fuel) d (s * PGSIZE) oldsz newsz k) as o eqn:Eo.
  cbn [allocuvm_loop] in Eo. case_bool_decide as Hlt.
  2:{ exists k, L, T, U. split; [done|]. split; [done|]. left. split_and!; [done| |apply keeps_refl]. split; [done|].
      intros n Hsn Hnn. unfold PGSIZE in *. lia. }
  assert (Hsu : 0 ≤ s < USER) by (unfold USER, PGSIZE, KERNBASE in *; lia).
  assert (Hcnt : s < pgup newsz) by (unfold PGSIZE in *; lia).
  destruct (vm_kalloc _ _ _ _ _ _ Hvm) as (k1 & E1 & Hw1 & Hcase). unfold mbind, M_bind, modify in Eo. rewrite E1 in Eo.
  destruct Hcase as [[-> Hvm1]|(f & L1 & -> & Hf0 & Hvm1)].
  { simpl hd in Eo. rewrite bool_decide_eq_true_2 in Eo by done.
    destruct (deallocuvm_spec newsz oldsz O k1 [] d T U Hvm1) as (k' & L' & E' & Hvm' & Hk' & _); [lia|lia|].
    rewrite E' in Eo.
    exists k', L', T, (if bool_decide (newsz ≤ oldsz) then U else cut (pgup oldsz) newsz U).
    split_and!; [done|done|]. right. split_and!; [done| | |simpl; lia].
    - case_bool_decide; [|done]. symmetry. apply cut_done. lia.
    - intros p a Hp Ha. rewrite (Hk' p a Hp Ha). by rewrite Hw1. }
  change (hd 0 (f :: L1)) with f in Eo. rewrite bool_decide_eq_false_2 in Eo by done. cbn beta iota in Eo.
  assert (Hzp : ∀ a, ¬ in_page f a → zero_page f (words k1) a = words k1 a).
  { intros a Ha. unfold zero_page. by rewrite bool_decide_eq_false_2. }
  destruct (vm_write f (zero_page f (words k1)) _ _ _ _ _ _ Hvm1 Hzp) as [Hvm2 Hk2].
  destruct (map_page s f UPERM O _ _ _ _ _ Hvm2 Hsu) as (r & k3 & L3 & T3 & E3 & HT3 & Hk3 & HL3 & Hr);
    [apply HU; lia|apply UPERM_bound|].
  assert (Hz : zeroed k3 f).
  { eapply keeps_zeroed; [exact Hk3|left|]. intros a Ha. simpl. unfold zero_page. by rewrite bool_decide_eq_true_2. }
  assert (Hk13 : keeps (frames U ++ O) k k3).
  { intros p a Hp Ha. rewrite (Hk3 p a) by (done || by right). rewrite (Hk2 p a Hp Ha). by rewrite Hw1. }
  assert (Hpf : vpage kend f).
  { apply all_vpage, (vm_in_all _ _ _ _ _ _ Hvm1). right; right; right; left. }
  fold UPERM in Eo. rewrite E3 in Eo.
  destruct Hr as [[-> Hvm3]|(-> & -> & -> & Hvm3)].
  - rewrite bool_decide_eq_false_2 in Eo by lia.
    replace (u32 (s * PGSIZE + PGSIZE)) with ((s + 1) * PGSIZE) in Eo
      by (rewrite u32_small; unfold USER, PGSIZE in *; lia).
    destruct (IH (s + 1) oldsz newsz O k3 L3 d T3 _ Hvm3) as (k' & L' & T' & U' & HT' & Hvm' & Hres);
      [lia|lia|lia| |unfold PGSIZE in *; lia|unfold PGSIZE in *; lia|].
    { intros n Hn1 Hn2. rewrite lookup_insert_ne by lia. apply HU; lia. }
    rewrite <- Eo in Hres. exists k', L', T', U'. split; [by etrans|]. split; [done|].
    assert (Hsub : frames U ++ O ⊆ frames (<[s := pte_of f UPERM]> U) ++ O).
    { intros p Hp. rewrite frames_insert by (lia || (apply HU; lia)). by right. }
    destruct Hres as [(E' & [HU1 HU2] & Hk')|(E' & -> & Hk' & Hlen)]; [left|right].
    + split_and!; [done| |eapply keeps_trans; [exact Hk13|by eapply keeps_subset]]. split.
      * intros n Hn'. rewrite HU1 by lia. apply lookup_insert_ne. intros <-. apply Hn'. lia.
      * intros n Hn1 Hn2. destruct (decide (n = s)) as [->|Hne]; [|apply HU2; lia].
        exists f. split_and!; [done| |].
        -- rewrite HU1 by lia. apply lookup_insert_eq.
        -- eapply keeps_zeroed; [exact Hk'| |done]. apply elem_of_app. left.
           rewrite frames_insert by (lia || (apply HU; lia)).
           rewrite frame_pte_of by (done || apply UPERM_bound). left.
    + assert (Hcut : cut (pgup oldsz) newsz (<[s := pte_of f UPERM]> U) = cut (pgup oldsz) newsz U).
      { apply map_eq. intros n. rewrite !lookup_cut. destruct (decide _) as [|Hd]; [done|].
        apply lookup_insert_ne. intros <-. apply Hd. lia. }
      rewrite Hcut in *. split_and!; [done|done| |simpl; lia].
      eapply keeps_trans; [|exact Hk']. eapply keeps_subset; [exact Hk13|].
      intros p. rewrite !elem_of_app, !elem_of_frames. intros [(n & e & Hn' & HUn & ->)|?]; [left|by right].
      exists n, e. split_and!; [done| |done]. rewrite lookup_cut in HUn. by destruct (decide _).
  - rewrite bool_decide_eq_true_2 in Eo by lia.
    assert (Hvm4 : uvm (f :: O) k3 [] d T3 U).
    { eapply vm_permute; [exact Hvm3|]. solve_Permutation. }
    destruct (deallocuvm_spec newsz oldsz (f :: O) k3 [] d T3 U Hvm4) as (k4 & L4 & E4 & Hvm5 & Hk4 & _); [lia|lia|].
    set (U' := if bool_decide (newsz ≤ oldsz) then U else cut (pgup oldsz) newsz U) in *.
    assert (Hvm6 : vm (f :: frames U' ++ O) k4 L4 d T3 U').
    { eapply vm_permute; [exact Hvm5|]. solve_Permutation. }
    destruct (vm_kfree f _ _ _ _ _ _ Hvm6) as (k5 & E5 & Hvm7 & Hk5).
    rewrite E4, E5 in Eo.
    assert (HU' : U' = cut (pgup oldsz) newsz U).
    { unfold U'. case_bool_decide; [|done]. symmetry. apply cut_done. lia. }
    exists k5, (f :: L4), T3, U'. split_and!; [done|done|]. right. split_and!; [done|done| |simpl in *; lia].
    eapply keeps_trans; [|exact Hk5]. eapply keeps_trans; [|eapply keeps_subset; [exact Hk4|]].
    + eapply keeps_subset; [exact Hk13|]. rewrite HU'.
      intros p. rewrite !elem_of_app, !elem_of_frames. intros [(n & e & Hn' & HUn & ->)|?]; [left|by right].
      exists n, e. split_and!; [done| |done]. rewrite lookup_cut in HUn. by destruct (decide _).
    + intros p. rewrite !elem_of_app, elem_of_cons. tauto.
Qed.


(** ** Freeing an address space *)

(** The directory refers to the tables of [T] from entry [i] on; those before
    have been freed. *)
Record dying (O : list Z) (k : kmem) (d : Z) (T : gmap Z Z) : Prop := Dying {
  dy_ready : km_ready me k;
  dy_free : ∃ L, free_pages kend k L ∧ L ++ d :: tabs T ++ O ≡ₚ all;
}.

(** The directory page has its entries. *)
Definition dir_is (k : kmem) (d : Z) (T : gmap Z Z) : Prop :=
  ∀ i, 0 ≤ i < 1024 → words k (d + 4 * i) = match T !! i with Some t => pde_of t | None => 0 end.

Definition from (i : nat) (T : gmap Z Z) : gmap Z Z := filter (λ p, Z.of_nat i ≤ p.1) T.

Lemma lookup_from i T j : from i T !! j = if decide (Z.of_nat i ≤ j) then T !! j else None.
Proof.
  unfold from. destruct (decide _) as [H|H].
  - destruct (T !! j) as [t|] eqn:HT; [by apply map_lookup_filter_Some|].
    apply map_lookup_filter_None. by left.
  - apply map_lookup_filter_None. right. intros t _ Hf. by apply H.
Qed.

Lemma from_S i T :
  (T !! Z.of_nat i = None → from (S i) T = from i T) ∧
  (∀ t, T !! Z.of_nat i = Some t → from i T = <[Z.of_nat i := t]> (from (S i) T) ∧ from (S i) T !! Z.of_nat i = None).
Proof.
  split.
  - intros HT. apply map_eq. intros j. rewrite !lookup_from.
    destruct (decide (Z.of_nat (S i) ≤ j)), (decide (Z.of_nat i ≤ j)); try done; try lia.
    by replace j with (Z.of_nat i) by lia.
  - intros t HT. split; [|rewrite lookup_from; by destruct (decide _); [lia|]].
    apply map_eq. intros j. destruct (decide (j = Z.of_nat i)) as [->|Hne].
    + rewrite lookup_insert_eq, lookup_from. by destruct (decide _); [|lia].
    + rewrite lookup_insert_ne, !lookup_from by done.
      destruct (decide (Z.of_nat (S i) ≤ j)), (decide (Z.of_nat i ≤ j)); done || lia.
Qed.

(** Freeing a table, or the directory itself. *)
Lemma kfree_page p O' P k L :
  km_ready me k → free_pages kend k L → L ++ p :: P ≡ₚ all → O' ⊆ P →
  ∃ k', kfree kend me p k = Ok tt k' ∧ km_ready me k' ∧ free_pages kend k' (p :: L) ∧ keeps O' k k'.
Proof.
  intros Hr Hf Hp HO. assert (Hpp : p ∈ all) by (rewrite <- Hp; apply elem_of_app; right; left).
  pose proof Hnd as Hn. rewrite <- Hp in Hn. apply NoDup_app in Hn as (_ & HL & Hn).
  apply NoDup_cons in Hn as [HpP _].
  destruct (kfree_spec kend me k L p Hkend Hr Hf) as (k' & E & Hf' & Hfr & Hw).
  { by apply vpage_ok, all_vpage. }
  { intros Hin. apply (HL p Hin). left. }
  exists k'. split_and!; [done|by eapply km_frame_ready|done|].
  intros q a Hq Ha. apply Hw. intros Hb. apply HpP.
  rewrite <- (in_page_unique kend q p a); [by apply HO| | |done|done]; apply all_vpage.
  - rewrite <- Hp. apply elem_of_app. right. right. by apply HO.
  - done.
Qed.

Lemma freevm_loop_spec n : ∀ i O k d T,
  (i + n = 1024)%nat → (∀ j t, T !! j = Some t → 0 ≤ j < 1024) →
  dying O k d (from i T) → dir_is k d T →
  wpt (for_range i n (λ i,
    e ← ld (d + 4 * Z.of_nat i);
    if bool_decide (Z.land e PTE_P ≠ 0) then kfree kend me (P2V (PTE_ADDR e)) else mret tt))
    (λ _ k', dying O k' d ∅ ∧ keeps (d :: O) k k') k.
Proof.
  induction n as [|n IH]; intros i O k d T Hi HT Hdy Hdir; cbn [for_range].
  - apply wpt_ret. replace ∅ with (from i T); [split; [done|apply keeps_refl]|].
    apply map_eq. intros j. rewrite lookup_from, lookup_empty. destruct (decide _); [|done].
    destruct (T !! j) as [t|] eqn:Hj; [|done]. specialize (HT j t Hj). lia.
  - apply wpt_bind. unfold ld. apply wpt_bind, wpt_gets. rewrite Hdir by lia.
    destruct (from_S i T) as [HS1 HS2]. destruct (T !! Z.of_nat i) as [t|] eqn:Hti.
    + rewrite bool_decide_eq_true_2 by apply pde_of_present.
      destruct (HS2 t eq_refl) as [HS Hnone]. destruct Hdy as [Hr (L & Hf & Hp)].
      rewrite HS, tabs_insert in Hp by done.
      assert (Hp' : L ++ t :: (d :: tabs (from (S i) T) ++ O) ≡ₚ all) by (rewrite <- Hp; solve_Permutation).
      assert (Hpt : vpage kend t) by (apply all_vpage; rewrite <- Hp'; apply elem_of_app; right; left).
      rewrite (pde_of_addr kend) by done.
      destruct (kfree_page t (d :: O) _ k L Hr Hf Hp') as (k' & E & Hr' & Hf' & Hk').
      { intros q Hq. apply elem_of_cons in Hq as [->|Hq]; [left|]. right. apply elem_of_app. by right. }
      eapply wpt_eq; [exact E|]. eapply wpt_mono; [apply (IH (S i) O k' d T); [lia|done| |]|].
      * split; [done|]. exists (t :: L). split; [done|]. rewrite <- Hp'. solve_Permutation.
      * intros j Hj. rewrite (Hk' d) by (left || by apply entry_in_page). by apply Hdir.
      * simpl. intros _ k2 [Hd2 Hk2]. split; [done|]. by eapply keeps_trans.
    + rewrite Z.land_0_l, bool_decide_eq_false_2 by lia. apply wpt_ret.
      apply (IH (S i) O k d T); [lia|done|by rewrite HS1|done].
Qed.

(** [freevm] gives every page of the address space back. *)
Lemma freevm_spec O k L d T U :
  uvm O k L d T U →
  ∃ k' L', freevm kend me d k = Ok tt k' ∧ km_ready me k' ∧ free_pages kend k' L' ∧ L' ++ O ≡ₚ all ∧
    keeps O k k'.
Proof.
  intros Hvm. unfold freevm. assert (Hd : vpage kend d).
  { apply all_vpage, (vm_in_all _ _ _ _ _ _ Hvm). right; by left. }
  rewrite bool_decide_eq_false_2 by (destruct Hd as (_ & ? & _); lia).
  destruct (deallocuvm_spec KERNBASE 0 O k L d T U Hvm) as (k1 & L1 & E1 & Hvm1 & Hk1 & _); [lia|lia|].
  rewrite bool_decide_eq_false_2 in Hvm1, Hk1 by (unfold KERNBASE; lia).
  set (U1 := cut (pgup 0) KERNBASE U) in *.
  assert (Hfr : frames U1 = []).
  { destruct (frames U1) as [|f fs] eqn:Hf; [done|]. exfalso.
    assert (Hin : f ∈ frames U1) by (rewrite Hf; left). apply elem_of_frames in Hin as (n & e & Hn & HU & _).
    unfold U1 in HU. rewrite lookup_cut in HU. destruct (decide _) as [|Hd']; [done|].
    destruct (sp_U _ _ _ _ (vm_space _ _ _ _ _ _ _ _ _ Hvm) n e HU) as (Hn' & _).
    apply Hd'. change (pgup 0) with 0. unfold USER, PGSIZE, KERNBASE in *. lia. }
  unfold VmInv.uvm in Hvm1. rewrite Hfr in Hvm1, Hk1. simpl in Hvm1, Hk1. destruct Hvm1 as [Hr1 Hf1 Hp1 Hsp1].
  assert (Hw : wpt (for_range 0 NPDENTRIES (λ i,
    e ← ld (d + 4 * Z.of_nat i);
    if bool_decide (Z.land e PTE_P ≠ 0) then kfree kend me (P2V (PTE_ADDR e)) else mret tt))
    (λ _ k', dying O k' d ∅ ∧ keeps (d :: O) k1 k') k1).
  { apply (freevm_loop_spec 1024 0 O k1 d T); [done|exact (sp_T _ _ _ _ Hsp1)| |exact (sp_pde _ _ _ _ Hsp1)].
    split; [done|]. exists L1. split; [done|]. replace (from 0 T) with T; [done|].
    apply map_eq. intros j. rewrite lookup_from. destruct (decide _) as [|Hj]; [done|].
    destruct (T !! j) as [t|] eqn:HT; [|done]. pose proof (sp_T _ _ _ _ Hsp1 j t HT). simpl in Hj. lia. }
  apply wpt_Ok in Hw as ([] & k2 & E2 & [Hr2 (L2 & Hf2 & Hp2)] & Hk2). unfold tabs in Hp2.
  rewrite map_to_list_empty in Hp2. simpl in Hp2.
  destruct (kfree_page d O O k2 L2 Hr2 Hf2 Hp2) as (k3 & E3 & Hr3 & Hf3 & Hk3); [done|].
  exists k3, (d :: L2). unfold mbind at 1, M_bind at 1. rewrite E1.
  unfold mbind at 1, M_bind at 1. rewrite E2, E3.
  split_and!; [done|done|done|rewrite <- Hp2; solve_Permutation|].
  eapply keeps_trans; [exact Hk1|]. eapply keeps_trans; [|exact Hk3]. eapply keeps_subset; [exact Hk2|].
  intros q Hq. by right.
Qed.


(** ** Making an address space *)

Lemma lookup_ins es : ∀ U s n,
  ins U s es !! n =
  if decide (s ≤ n < s + Z.of_nat (length es)) then es !! Z.to_nat (n - s) else U !! n.
Proof.
  induction es as [|e es IH]; intros U s n; simpl ins.
  - destruct (decide _) as [H|]; [simpl in H; lia|done].
  - rewrite IH. destruct (decide (n = s)) as [->|Hne].
    + rewrite lookup_insert_eq. destruct (decide (s + 1 ≤ s < _)); [lia|].
      destruct (decide (s ≤ s < _)) as [|H]; [|cbn [length] in H; lia]. by rewrite Z.sub_diag.
    + rewrite lookup_insert_ne by done. cbn [length].
      destruct (decide (s + 1 ≤ n < _)), (decide (s ≤ n < _)); try lia; [|done].
      replace (Z.to_nat (n - s)) with (S (Z.to_nat (n - (s + 1)))) by lia. done.
Qed.

Lemma length_ptes n : ∀ pa perm, length (ptes pa perm n) = n.
Proof. induction n as [|n IH]; intros pa perm; simpl; [done|]. by rewrite IH. Qed.

(** [mappages] of [c] pages. *)
Lemma mappages_range s c pa perm O k L d T U :
  vm O k L d T U → 0 ≤ s → 1 ≤ c → s + c ≤ 2 ^ 20 → (∀ i, s ≤ i < s + c → U !! i = None) →
  ∃ r k' L' T' j, mappages me d (s * PGSIZE) (u32 (c * PGSIZE)) pa perm k = Ok r k' ∧
    vm O k' L' d T' (ins U s (take j (ptes pa perm (Z.to_nat c)))) ∧ keeps O k k' ∧
    ((r = 0 ∧ j = Z.to_nat c) ∨ (r = -1 ∧ L' = [])).
Proof.
  intros Hvm Hs Hc Hsc HU. unfold mappages. rewrite PGROUNDDOWN_page.
  assert (Hlast : PGROUNDDOWN (u32 (s * PGSIZE + u32 (c * PGSIZE) - 1)) = (s + Z.of_nat (Z.to_nat c - 1)) * PGSIZE).
  { replace (s * PGSIZE + u32 (c * PGSIZE) - 1) with (s * PGSIZE - 1 + u32 (c * PGSIZE)) by lia.
    rewrite u32_add_r, u32_small by (unfold PGSIZE; lia). unfold PGROUNDDOWN. rewrite land_page_mask.
    replace (s + Z.of_nat (Z.to_nat c - 1)) with (s + c - 1) by lia.
    unfold PGSIZE. Z.div_mod_to_equations. lia. }
  rewrite Hlast.
  destruct (mappages_loop_spec (Z.to_nat c - 1) s pa perm
    (S (Z.to_nat (((s + Z.of_nat (Z.to_nat c - 1)) * PGSIZE - s * PGSIZE) / PGSIZE))) O k L d T U Hvm)
    as (r & k' & L' & T' & j & E & Hvm' & Hk & _ & HL & Hr).
  - lia.
  - lia.
  - intros i Hi. apply HU. lia.
  - unfold PGSIZE. Z.div_mod_to_equations. lia.
  - replace (S (Z.to_nat c - 1)) with (Z.to_nat c) in * by lia.
    exists r, k', L', T', j. split_and!; [done|done|done|].
    destruct Hr as [[-> ->]|(-> & Hj & ->)]; [left; split; [done|lia]|by right].
Qed.

(** The ranges of a kernel map, in pages, one after the other from [lo] on. *)
Definition map_page_no (m : kmapping) : Z := virt m / PGSIZE.
Definition map_pages (m : kmapping) : Z := u32 (phys_end m - phys_start m) / PGSIZE.

Fixpoint ascending (lo : Z) (ks : list kmapping) : Prop :=
  match ks with
  | [] => True
  | m :: ks =>
      virt m mod PGSIZE = 0 ∧ u32 (phys_end m - phys_start m) mod PGSIZE = 0 ∧
      lo ≤ map_page_no m ∧ 1 ≤ map_pages m ∧ map_page_no m + map_pages m ≤ 2 ^ 20 ∧
      ascending (map_page_no m + map_pages m) ks
  end.

(** The entries of a kernel map. *)
Definition add_mapping (U : gmap Z Z) (m : kmapping) : gmap Z Z :=
  ins U (map_page_no m) (ptes (phys_start m) (perm m) (Z.to_nat (map_pages m))).

(** The state of the allocator with the pages [O] in use. *)
Definition pool (O : list Z) (k : kmem) (L : list Z) : Prop :=
  km_ready me k ∧ free_pages kend k L ∧ L ++ O ≡ₚ all.

Definition kernel_only (U : gmap Z Z) : Prop := ∀ n, n < USER → U !! n = None.

Lemma frames_kernel_only U : kernel_only U → frames U = [].
Proof.
  intros HU. destruct (frames U) as [|f fs] eqn:Hf; [done|]. exfalso.
  assert (Hin : f ∈ frames U) by (rewrite Hf; left). apply elem_of_frames in Hin as (n & e & Hn & H & _).
  by rewrite HU in H.
Qed.

Lemma setupkvm_loop_spec ks : ∀ lo O k L d T U,
  vm O k L d T U → kernel_only U → USER ≤ lo → ascending lo ks → (∀ n, lo ≤ n → U !! n = None) →
  ∃ k', keeps O k k' ∧
    ((∃ L' T', setupkvm_loop kend me ks d k = Ok d k' ∧ vm O k' L' d T' (foldl add_mapping U ks) ∧
        kernel_only (foldl add_mapping U ks)) ∨
     (setupkvm_loop kend me ks d k = Ok 0 k' ∧ (length L + length (tabs T) ≤ 1024)%nat ∧ ∃ L', pool O k' L')).
Proof.
  induction ks as [|m ks IH]; intros lo O k L d T U Hvm HU Hlo Hasc Hfree; cbn [setupkvm_loop foldl].
  { exists k. split; [apply keeps_refl|]. left. by exists L, T. }
  destruct Hasc as (Hv & Hsz & Hge & Hone & Hend & Hasc).
  assert (Ev : virt m = map_page_no m * PGSIZE) by (unfold map_page_no, PGSIZE in *; Z.div_mod_to_equations; lia).
  assert (Es : u32 (phys_end m - phys_start m) = u32 (map_pages m * PGSIZE)).
  { unfold map_pages. rewrite (u32_small (u32 _ / PGSIZE * PGSIZE)); pose proof (u32_range (phys_end m - phys_start m));
      unfold PGSIZE in *; Z.div_mod_to_equations; lia. }
  destruct (mappages_range (map_page_no m) (map_pages m) (phys_start m) (perm m) O k L d T U Hvm)
    as (r & k1 & L1 & T1 & j & E & Hvm1 & Hk1 & Hr); [unfold USER in *; lia|lia|lia| |].
  { intros i Hi. apply Hfree. lia. }
  rewrite Ev, Es. unfold mbind, M_bind. rewrite E.
  assert (Hlen : ∀ j, Z.of_nat (length (take j (ptes (phys_start m) (perm m) (Z.to_nat (map_pages m))))) ≤ map_pages m).
  { intros j'. rewrite length_take, length_ptes. lia. }
  assert (Hko : ∀ j, kernel_only (ins U (map_page_no m) (take j (ptes (phys_start m) (perm m) (Z.to_nat (map_pages m)))))).
  { intros j' n Hn. rewrite lookup_ins. destruct (decide _); [lia|]. by apply HU. }
  destruct Hr as [[-> ->]|[-> ->]].
  - rewrite bool_decide_eq_false_2 by lia. rewrite firstn_all2 in Hvm1 by (rewrite length_ptes; lia).
    specialize (Hko (Z.to_nat (map_pages m))). rewrite firstn_all2 in Hko by (rewrite length_ptes; lia).
    destruct (IH (map_page_no m + map_pages m) O k1 L1 d T1 _ Hvm1 Hko ltac:(lia) Hasc) as (k' & Hk' & Hres).
    { intros n Hn. rewrite lookup_ins. destruct (decide _) as [Hd|]; [|apply Hfree; lia].
      rewrite length_ptes in Hd. lia. }
    exists k'. split; [by eapply keeps_trans|].
    destruct Hres as [Hres|(E' & Hs' & HL')]; [by left|right]. split_and!; [done| |done].
    pose proof (vm_count _ _ _ _ _ _ Hvm). pose proof (vm_count _ _ _ _ _ _ Hvm1). lia.
  - rewrite bool_decide_eq_true_2 by lia.
    assert (Hu : uvm O k1 [] d T1 (ins U (map_page_no m) (take j (ptes (phys_start m) (perm m) (Z.to_nat (map_pages m)))))).
    { unfold VmInv.uvm. by rewrite (frames_kernel_only _ (Hko j)). }
    destruct (freevm_spec O k1 [] d T1 _ Hu) as (k2 & L2 & E2 & Hr2 & Hf2 & Hp2 & Hk2).
    rewrite E2. exists k2. split; [by eapply keeps_trans|]. right.
    split_and!; [done| |by exists L2]. pose proof (vm_tabs_le _ _ _ _ _ _ Hu).
    pose proof (vm_count _ _ _ _ _ _ Hvm). pose proof (vm_count _ _ _ _ _ _ Hvm1). simpl in *. lia.
Qed.


(** The first address of the kernel's data is a page between the kernel's text
    and the end of memory. *)
Definition data_ok (data : Z) : Prop := data mod PGSIZE = 0 ∧ KERNLINK < data < KERNBASE + PHYSTOP.

Lemma kmap_ascending data : data_ok data → ascending USER (kmap data).
Proof.
  intros [Ha Hd]. assert (HV : V2P data = data - KERNBASE).
  { unfold V2P. apply u32_small. unfold KERNLINK, KERNBASE, PHYSTOP, EXTMEM in *. lia. }
  unfold kmap, ascending, map_page_no, map_pages. cbn [virt phys_start phys_end]. rewrite HV.
  assert (HVL : V2P KERNLINK = EXTMEM) by (by vm_compute). rewrite HVL.
  rewrite (u32_small (data - KERNBASE - EXTMEM)), (u32_small (PHYSTOP - (data - KERNBASE)))
    by (unfold KERNLINK, KERNBASE, PHYSTOP, EXTMEM in *; lia).
  change (u32 (0 - DEVSPACE)) with 33554432. change (u32 (EXTMEM - 0)) with EXTMEM.
  unfold KERNLINK, KERNBASE, PHYSTOP, EXTMEM, DEVSPACE, USER, PGSIZE in *.
  split_and!; try done; Z.div_mod_to_equations; lia.
Qed.

Definition kernel_entries (data : Z) : gmap Z Z := foldl add_mapping ∅ (kmap data).

Lemma setupkvm_spec data O k L :
  data_ok data → pool O k L →
  ∃ k', keeps O k k' ∧
    ((∃ d L' T', setupkvm kend data me k = Ok d k' ∧ d ≠ 0 ∧ vm O k' L' d T' (kernel_entries data) ∧
        kernel_only (kernel_entries data) ∧
        (length L ≤ length L' + 1025)%nat) ∨
     (setupkvm kend data me k = Ok 0 k' ∧ (length L ≤ 1025)%nat ∧ ∃ L', pool O k' L')).
Proof.
  intros Hdata (Hr & Hf & Hp). remember (setupkvm kend data me k) as o eqn:Eo.
  unfold setupkvm, modify in Eo.
  destruct (kalloc_spec kend me k L Hr Hf) as (k1 & E1 & Hf1 & Hfr & Hw1).
  assert (Hr1 : km_ready me k1) by (by eapply km_frame_ready).
  unfold mbind, M_bind in Eo. rewrite E1 in Eo. destruct L as [|d L1]; simpl hd in *.
  - rewrite bool_decide_eq_true_2 in Eo by done. exists k1. split; [intros p a _ _; by rewrite Hw1|].
    right. split_and!; [done|cbn [length]; lia|]. by exists [].
  - assert (Hd : vpage kend d) by (apply all_vpage; rewrite <- Hp; left).
    rewrite (bool_decide_eq_false_2 (d = 0)) in Eo by (destruct Hd as (_ & ? & _); lia).
    rewrite bool_decide_eq_false_2 in Eo by (by vm_compute). cbn beta iota in Eo.
    change (hd 0 (d :: L1)) with d in Eo. set (k2 := set_words (zero_page d (words k1)) k1) in *.
    assert (Hz : ∀ a, ¬ in_page d a → words k2 a = words k a).
    { intros a Ha. simpl. unfold zero_page. rewrite bool_decide_eq_false_2 by done. by rewrite Hw1. }
    pose proof Hnd as Hn. rewrite <- Hp in Hn. simpl in Hn. apply NoDup_cons in Hn as [Hdn _].
    rewrite not_elem_of_app in Hdn. destruct Hdn as [HdL HdO].
    assert (Hsame : ∀ p a, p ∈ L1 ∨ p ∈ O → in_page p a → words k2 a = words k a).
    { intros p a Hpl Ha. apply Hz. intros Hb. assert (p = d) as ->; [|by destruct Hpl].
      apply (in_page_unique kend p d a); [|done|done|done]. apply all_vpage. rewrite <- Hp. simpl.
      right. apply elem_of_app. tauto. }
    assert (Hvm : vm O k2 L1 d ∅ ∅).
    { split.
      - by destruct Hr1.
      - destruct Hf1 as [Hc1 Hn1 Hp1]. split; [|done|done]. simpl. eapply chain_ext; [|exact Hc1].
        intros v Hv.
        change (words k2 v = words k1 v). rewrite (Hsame v v); [by rewrite Hw1|by left|]. unfold in_page, PGSIZE. lia.
      - unfold tabs. rewrite map_to_list_empty. simpl. rewrite <- Hp. solve_Permutation.
      - split; intros; try done. simpl. unfold zero_page.
        rewrite bool_decide_eq_true_2; [done|]. by apply entry_in_page. }
    destruct (setupkvm_loop_spec (kmap data) USER O k2 L1 d ∅ ∅ Hvm) as (k' & Hk' & Hres);
      [done|lia|by apply kmap_ascending|done|].
    rewrite <- Eo in Hres. exists k'. split.
    { intros p a Hpo Ha. rewrite (Hk' p a Hpo Ha). apply (Hsame p); [by right|done]. }
    destruct Hres as [(L' & T' & E' & Hvm' & Hko)|(E' & Hs' & HL')]; [left|right].
    + exists d, L', T'. split_and!; [done|destruct Hd as (_ & ? & _); lia|done|done|].
      pose proof (vm_tabs_le _ _ _ _ _ _ Hvm'). pose proof (vm_count _ _ _ _ _ _ Hvm').
      apply Permutation_length in Hp. rewrite length_app in Hp. simpl in *. lia.
    + split_and!; [done|cbn [length]; lia|done].
Qed.


(** ** Copying an address space *)

(** The pages of an address space. *)
Definition pages (d : Z) (T U : gmap Z Z) : list Z := d :: tabs T ++ frames U.

(** The page [f] has the contents of the page [g]. *)
Definition copied (k : kmem) (g f : Z) : Prop := ∀ i, 0 ≤ i < PGSIZE → words k (f + i) = words k (g + i).

Lemma keeps_copied O k k' f g : keeps O k k' → f ∈ O → g ∈ O → copied k g f → copied k' g f.
Proof.
  intros Hk Hf Hg Hc i Hi. rewrite (Hk f (f + i)), (Hk g (g + i)) by (done || unfold in_page; lia).
  by apply Hc.
Qed.

(** The child's map [U] when the pages of the parent below page [s] have been
    copied. *)
Record child (s : Z) (Up U : gmap Z Z) (k : kmem) (K : gmap Z Z) : Prop := Child {
  ch_kernel : ∀ n, ¬ (0 ≤ n < s) → U !! n = K !! n;
  ch_user : ∀ n, 0 ≤ n < s → ∃ e f, Up !! n = Some e ∧ vpage kend f ∧
    U !! n = Some (pte_of f (PTE_FLAGS e)) ∧ copied k (frame e) f;
}.

Lemma flags_bound e : 0 ≤ PTE_FLAGS e < PGSIZE.
Proof. rewrite PTE_FLAGS_mod. apply Z.mod_pos_bound. unfold PGSIZE. lia. Qed.

(** The parent, seen from the child's partition. *)
Lemma parent_vm O k L d T U dp Tp Up :
  uvm (pages dp Tp Up ++ O) k L d T U → space (words k) dp Tp Up →
  uvm (pages d T U ++ O) k L dp Tp Up.
Proof.
  intros [Hr Hf Hp Hsp] Hspp. split; [done|done| |done]. rewrite <- Hp. unfold pages. solve_Permutation.
Qed.

Lemma parent_space O k k' dp Tp Up :
  space (words k) dp Tp Up → keeps (pages dp Tp Up ++ O) k k' → space (words k') dp Tp Up.
Proof.
  intros Hsp Hk. eapply space_ext; [exact Hsp| |].
  - intros a Ha. apply (Hk dp a); [left|done].
  - intros t a Ht Ha. apply (Hk t a); [|done]. unfold pages. right. apply elem_of_app. left.
    apply elem_of_app. by left.
Qed.

Lemma pages_frame dp Tp Up O n e : n < USER → Up !! n = Some e → frame e ∈ pages dp Tp Up ++ O.
Proof.
  intros Hn He. apply elem_of_app. left. right. apply elem_of_app. right. apply elem_of_frames. by exists n, e.
Qed.

Lemma copyuvm_loop_spec fuel : ∀ s sz O k L d T U dp Tp Up K,
  uvm (pages dp Tp Up ++ O) k L d T U → space (words k) dp Tp Up →
  0 ≤ s → sz ≤ KERNBASE → kernel_only K → child s Up U k K →
  (∀ n, 0 ≤ n → n * PGSIZE < sz → is_Some (Up !! n)) →
  sz - s * PGSIZE ≤ (Z.of_nat fuel - 1) * PGSIZE → (0 < fuel)%nat → s * PGSIZE < sz + PGSIZE →
  ∃ k', keeps (pages dp Tp Up ++ O) k k' ∧
    ((∃ L' T' U' s', copyuvm_loop kend me fuel dp d sz (s * PGSIZE) k = Ok d k' ∧
        uvm (pages dp Tp Up ++ O) k' L' d T' U' ∧ sz ≤ s' * PGSIZE < sz + PGSIZE ∧ child s' Up U' k' K) ∨
     (copyuvm_loop kend me fuel dp d sz (s * PGSIZE) k = Ok 0 k' ∧
        Z.of_nat (length L) < 2 * (pgup sz - s) ∧ ∃ L', pool (pages dp Tp Up ++ O) k' L')).
Proof.
  induction fuel as [|fuel IH]; intros s sz O k L d T U dp Tp Up K Hvm Hspp Hs Hsz HK Hch HUp Hfuel Hpos Hend; [lia|].
  set (P := pages dp Tp Up ++ O) in *.
  remember (copyuvm_loop kend me (S fuel) dp d sz (s * PGSIZE) k) as o eqn:Eo.
  cbn [copyuvm_loop] in Eo. case_bool_decide as Hlt.
  2:{ exists k. split; [apply keeps_refl|]. left. exists L, T, U, s. split_and!; [done|done|lia|lia|done]. }
  assert (Hsu : 0 ≤ s < USER) by (unfold USER, PGSIZE, KERNBASE in *; lia).
  assert (Hsn : 0 ≤ s < 2 ^ 20) by (unfold USER in Hsu; lia).
  assert (Hcnt : s < pgup sz) by (pose proof (pgup_bounds sz); unfold PGSIZE in *; lia).
  destruct (HUp s) as [e He]; [lia|done|].
  pose proof (parent_vm O k L d T U dp Tp Up Hvm Hspp) as Hpvm.
  destruct (sp_U _ _ _ _ Hspp s e He) as (_ & [t Ht] & Hpr).
  unfold mbind, M_bind, modify, ld, gets in Eo.
  rewrite (walk_hit _ _ _ _ _ _ Hpvm s t false Hsn Ht) in Eo.
  assert (Htv : vpage kend t).
  { apply all_vpage, (vm_in_all _ _ _ _ _ _ Hpvm). right; right; left. by eapply vm_table_in. }
  rewrite (bool_decide_eq_false_2 (t + _ = 0)) in Eo.
  2:{ destruct Htv as (_ & ? & _). pose proof (Z.mod_pos_bound s 1024). lia. }
  rewrite (sp_pte _ _ _ _ Hspp s t Hsn Ht), He in Eo. change (default 0 (Some e)) with e in Eo.
  rewrite (bool_decide_eq_false_2 (Z.land e PTE_P = 0)) in Eo by done. fold (frame e) in Eo.
  destruct (vm_kalloc _ _ _ _ _ _ Hvm) as (k1 & E1 & Hw1 & Hcase). rewrite E1 in Eo.
  destruct Hcase as [[-> Hvm1]|(f & L1 & -> & Hf0 & Hvm1)].
  { change (hd 0 []) with 0 in Eo. rewrite (bool_decide_eq_true_2 (0 = 0)) in Eo by done.
    destruct (freevm_spec P k1 [] d T U Hvm1) as (k2 & L2 & E2 & Hr2 & Hf2 & Hp2 & Hk2).
    rewrite E2 in Eo. exists k2. split.
    - intros p a Hp Ha. rewrite (Hk2 p a Hp Ha). by rewrite Hw1.
    - right. split_and!; [done|cbn [length]; lia|]. by exists L2. }
  change (hd 0 (f :: L1)) with f in Eo. rewrite (bool_decide_eq_false_2 (f = 0)) in Eo by done. cbn beta iota in Eo.
  assert (Hcp : ∀ a, ¬ in_page f a → copy_page f (frame e) (words k1) a = words k1 a).
  { intros a Ha. unfold copy_page. by rewrite bool_decide_eq_false_2. }
  destruct (vm_write f (copy_page f (frame e) (words k1)) _ _ _ _ _ _ Hvm1 Hcp) as [Hvm2 Hk2].
  assert (HUs : U !! s = None) by (rewrite (ch_kernel _ _ _ _ _ Hch) by lia; apply HK; lia).
  destruct (map_page s f (PTE_FLAGS e) P _ _ _ _ _ Hvm2 Hsu HUs (flags_bound e))
    as (r & k3 & L3 & T3 & E3 & HT3 & Hk3 & HL3 & Hr). rewrite E3 in Eo.
  assert (HfeP : frame e ∈ P) by (apply (pages_frame dp Tp Up O s); [lia|done]).
  assert (Hk13 : keeps (frames U ++ P) k k3).
  { intros p a Hp Ha. rewrite (Hk3 p a) by (done || by right). rewrite (Hk2 p a Hp Ha). by rewrite Hw1. }
  assert (HkP : keeps P k k3) by (eapply keeps_subset; [exact Hk13|intros p Hp; apply elem_of_app; by right]).
  assert (Hpf : vpage kend f).
  { apply all_vpage, (vm_in_all _ _ _ _ _ _ Hvm1). right; right; right; left. }
  assert (Hc : copied k3 (frame e) f).
  { eapply (keeps_copied (f :: frames U ++ P)); [exact Hk3|left|right; apply elem_of_app; by right|].
    intros i Hi. rewrite (Hk2 (frame e) (frame e + i)) by (done || (apply elem_of_app; by right) || (unfold in_page; lia)).
    simpl. unfold copy_page. rewrite bool_decide_eq_true_2 by lia. f_equal. lia. }
  destruct Hr as [[-> Hvm3]|(-> & -> & -> & Hvm3)].
  - rewrite bool_decide_eq_false_2 in Eo by lia.
    replace (u32 (s * PGSIZE + PGSIZE)) with ((s + 1) * PGSIZE) in Eo
      by (rewrite u32_small; unfold USER, PGSIZE in *; lia).
    destruct (IH (s + 1) sz O k3 L3 d T3 _ dp Tp Up K Hvm3) as (k' & Hk' & Hres).
    + by eapply parent_space.
    + lia.
    + done.
    + done.
    + split.
      * intros n Hn. rewrite lookup_insert_ne by lia. apply (ch_kernel _ _ _ _ _ Hch). lia.
      * intros n Hn. destruct (decide (n = s)) as [->|Hne].
        -- exists e, f. split_and!; [done|done|apply lookup_insert_eq|done].
        -- destruct (ch_user _ _ _ _ _ Hch n) as (e' & f' & He' & Hf' & HU' & Hc'); [lia|].
           exists e', f'. split_and!; [done|done|by rewrite lookup_insert_ne|].
           eapply (keeps_copied (frames U ++ P)); [exact Hk13| | |done].
           ++ apply elem_of_app. left. apply elem_of_frames. exists n, (pte_of f' (PTE_FLAGS e')).
              split_and!; [unfold USER in *; lia|done|]. symmetry. apply frame_pte_of; [done|apply flags_bound].
           ++ apply elem_of_app. right. apply (pages_frame dp Tp Up O n); [unfold USER in *; lia|done].
    + done.
    + unfold PGSIZE in *. lia.
    + unfold PGSIZE in *. lia.
    + unfold PGSIZE in *. lia.
    + rewrite <- Eo in Hres. exists k'. split; [by eapply keeps_trans|].
      destruct Hres as [Hres|(E' & Hlen & HL')]; [by left|right]. split_and!; [done|cbn [length]; lia|done].
  - rewrite bool_decide_eq_true_2 in Eo by lia.
    destruct (vm_kfree f _ _ _ _ _ _ Hvm3) as (k4 & E4 & Hvm4 & Hk4).
    destruct (freevm_spec P k4 [f] d T3 U Hvm4) as (k5 & L5 & E5 & Hr5 & Hf5 & Hp5 & Hk5).
    rewrite E4, E5 in Eo. exists k5. split.
    + eapply keeps_trans; [exact HkP|]. eapply keeps_trans; [|exact Hk5].
      eapply keeps_subset; [exact Hk4|]. intros p Hp. apply elem_of_app. by right.
    + right. split_and!; [done|cbn [length]; lia|]. by exists L5.
Qed.

End Ops.

(** ** The address translation of the processor *)

(** The physical address and the flags that the page tables at [pgdir] give for
    the virtual address [va]. *)
Definition translate (w : Z → Z) (pgdir va : Z) : option (Z * Z) :=
  let pde := w (pgdir + 4 * PDX va) in
  if bool_decide (Z.land pde PTE_P = 0) then None else
  let pte := w (P2V (PTE_ADDR pde) + 4 * PTX va) in
  if bool_decide (Z.land pte PTE_P = 0) then None else
  Some (PTE_ADDR pte + va mod PGSIZE, PTE_FLAGS pte).

Lemma PDX_div va : 0 ≤ va < 2 ^ 32 → PDX va = va / PGSIZE / 1024.
Proof.
  intros Hva. unfold PDX, PGSIZE. change 0x3FF with (Z.ones 10).
  rewrite Z.land_ones, Z.shiftr_div_pow2 by lia. rewrite Z.div_div by lia. change (4096 * 1024) with (2 ^ 22).
  apply Z.mod_small. Z.div_mod_to_equations. lia.
Qed.

Lemma PTX_div va : PTX va = (va / PGSIZE) mod 1024.
Proof.
  unfold PTX, PGSIZE. change 0x3FF with (Z.ones 10). by rewrite Z.land_ones, Z.shiftr_div_pow2 by lia.
Qed.

Lemma translate_entry kend me all O k L d T U va :
  0 < kend → NoDup all → Forall (vpage kend) all → vm kend me all O k L d T U → 0 ≤ va < 2 ^ 32 →
  translate (words k) d va =
    (λ e, (PTE_ADDR e + va mod PGSIZE, PTE_FLAGS e)) <$> U !! (va / PGSIZE).
Proof.
  intros Hkend Hnd Hall Hvm Hva. pose proof (vm_space _ _ _ _ _ _ _ _ _ Hvm) as Hsp.
  unfold translate. rewrite PDX_div, PTX_div by done. set (n := va / PGSIZE).
  assert (Hn : 0 ≤ n < 2 ^ 20) by (unfold n, PGSIZE; Z.div_mod_to_equations; lia).
  rewrite (sp_pde _ _ _ _ Hsp (n / 1024)) by (Z.div_mod_to_equations; lia).
  destruct (T !! (n / 1024)) as [t|] eqn:Ht.
  - rewrite bool_decide_eq_false_2 by apply pde_of_present.
    assert (Hpt : vpage kend t).
    { apply (all_vpage kend all Hall), (vm_in_all kend me all Hkend Hnd Hall _ _ _ _ _ _ Hvm).
      right; right; left. by eapply vm_table_in. }
    rewrite (pde_of_addr kend t Hpt), (sp_pte _ _ _ _ Hsp n t Hn Ht).
    destruct (U !! n) as [e|] eqn:HU; simpl; [|done].
    rewrite bool_decide_eq_false_2; [done|]. by destruct (sp_U _ _ _ _ Hsp n e HU) as (_ & _ & ?).
  - destruct (U !! n) as [e|] eqn:HU; [|done].
    destruct (sp_U _ _ _ _ Hsp n e HU) as (_ & [t Ht'] & _). congruence.
Qed.

Lemma cut_unmapped s sz U : (∀ n, s ≤ n → n * PGSIZE < sz → U !! n = None) → cut s sz U = U.
Proof.
  intros HU. apply map_eq. intros n. rewrite lookup_cut. destruct (decide _) as [[H1 H2]|]; [|done].
  symmetry. by apply HU.
Qed.

Lemma pte_of_parts kend f perm :
  vpage kend f → 0 ≤ perm < PGSIZE → PTE_ADDR (pte_of f perm) = V2P f ∧ PTE_FLAGS (pte_of f perm) = Z.lor perm PTE_P.
Proof.
  intros Hf Hp. unfold pte_of. rewrite <- Z.lor_assoc.
  assert (Hb : 0 ≤ Z.lor perm PTE_P < PGSIZE) by (apply lor_flags_bound; [done|unfold PTE_P, PGSIZE; lia]).
  destruct (V2P_aligned kend f Hf) as [Ha _]. by rewrite PTE_ADDR_lor, PTE_FLAGS_lor.
Qed.

(** [allocuvm] grows an address space by fresh pages, or changes nothing.  It
    returns [newsz] with every page of the new range mapped, writable by the user, to
    a page of zeroes of its own, and every other address translated as before; or it
    returns 0 with all translations as before, which happens only if the allocator
    had fewer than two pages for each new one.  In both cases the free pages, the
    page tables, the user pages and the pages [O] of others are still a partition of
    the pages of the allocator, and the pages of others have their contents. *)
Theorem allocuvm_grows kend me all O k L d T U oldsz newsz :
  0 < kend → NoDup all → Forall (vpage kend) all → uvm kend me all O k L d T U →
  0 ≤ oldsz ≤ newsz → newsz < KERNBASE →
  (∀ n, pgup oldsz ≤ n → n * PGSIZE < newsz → U !! n = None) →
  ∃ r k' L' T' U', allocuvm kend me d oldsz newsz k = Ok r k' ∧ uvm kend me all O k' L' d T' U' ∧
    keeps (frames U ++ O) k k' ∧
    ((r = newsz ∧
      (∀ va, 0 ≤ va < 2 ^ 32 → pgup oldsz ≤ va / PGSIZE → va / PGSIZE * PGSIZE < newsz →
         ∃ f, vpage kend f ∧ zeroed k' f ∧
           translate (words k') d va = Some (V2P f + va mod PGSIZE, Z.lor UPERM PTE_P)) ∧
      (∀ va, 0 ≤ va < 2 ^ 32 → ¬ (pgup oldsz ≤ va / PGSIZE ∧ va / PGSIZE * PGSIZE < newsz) →
         translate (words k') d va = translate (words k) d va)) ∨
     (r = 0 ∧ (∀ va, 0 ≤ va < 2 ^ 32 → translate (words k') d va = translate (words k) d va) ∧
      Z.of_nat (length L) < 2 * (pgup newsz - pgup oldsz))).
Proof.
  intros Hkend Hnd Hall Hvm Ho Hn HU. unfold allocuvm.
  rewrite (bool_decide_eq_false_2 (KERNBASE ≤ newsz)), (bool_decide_eq_false_2 (newsz < oldsz)) by lia.
  pose proof (pgup_bounds oldsz) as Hb. rewrite PGROUNDUP_pgup by lia.
  destruct (allocuvm_loop_spec kend me all Hkend Hnd Hall
    (S (Z.to_nat ((newsz - pgup oldsz * PGSIZE + PGSIZE - 1) / PGSIZE))) (pgup oldsz) oldsz newsz O k L d T U Hvm)
    as (k' & L' & T' & U' & HT & Hvm' & Hres); [lia|lia|lia|done|unfold PGSIZE in *; Z.div_mod_to_equations; lia|lia|].
  destruct Hres as [(E & [HU1 HU2] & Hk)|(E & -> & Hk & Hlen)].
  - exists newsz, k', L', T', U'. split_and!; [done|done|done|]. left. split_and!; [done| |].
    + intros va Hva H1 H2. destruct (HU2 _ H1 H2) as (f & Hf & HUf & Hz). exists f. split_and!; [done|done|].
      rewrite (translate_entry kend me all _ _ _ _ _ _ va Hkend Hnd Hall Hvm' Hva).
      rewrite HUf. simpl. by destruct (pte_of_parts kend f UPERM Hf UPERM_bound) as [-> ->].
    + intros va Hva Hnot. rewrite (translate_entry kend me all _ _ _ _ _ _ va Hkend Hnd Hall Hvm' Hva).
      rewrite (translate_entry kend me all _ _ _ _ _ _ va Hkend Hnd Hall Hvm Hva). by rewrite HU1.
  - rewrite cut_unmapped in Hvm', Hk by done.
    exists 0, k', L', T', U. split_and!; [done|done|done|]. right. split_and!; [done| |done].
    intros va Hva. rewrite (translate_entry kend me all _ _ _ _ _ _ va Hkend Hnd Hall Hvm' Hva).
    by rewrite (translate_entry kend me all _ _ _ _ _ _ va Hkend Hnd Hall Hvm Hva).
Qed.

(** [freevm] gives back every page of an address space and no other.  The
    directory, the page tables and the user pages are free afterwards; the pages [O]
    of others are not, and keep their contents. *)
Theorem freevm_returns_pages kend me all O k L d T U :
  0 < kend → NoDup all → Forall (vpage kend) all → uvm kend me all O k L d T U →
  ∃ k' L', freevm kend me d k = Ok tt k' ∧ free_pages kend k' L' ∧
    L' ≡ₚ L ++ pages d T U ∧ keeps O k k'.
Proof.
  intros Hkend Hnd Hall Hvm.
  destruct (freevm_spec kend me all Hkend Hnd Hall O k L d T U Hvm) as (k' & L' & E & _ & Hf & Hp & Hk).
  exists k', L'. split_and!; [done|done| |done]. pose proof (vm_perm _ _ _ _ _ _ _ _ _ Hvm) as Hp'.
  rewrite <- Hp in Hp'. apply (Permutation_app_inv_r O). rewrite <- Hp'. unfold pages. solve_Permutation.
Qed.

(** C26: [copyuvm] makes a copy that shares nothing.  If the pages of the parent below
    [sz] are mapped, then either the result is a page directory [d'] that translates
    every address below [sz] to a page, not one of the parent's, with the contents
    and the flags of the parent's page, and the user addresses from there on to
    nothing; or the result is 0, which takes fewer free pages than 1025 and two for
    each page of the parent, and no page has been lost.  In both cases the
    parent's address space is as it was. *)
Theorem copyuvm_copies kend me all data O k L d T U sz :
  0 < kend → NoDup all → Forall (vpage kend) all → data_ok data → uvm kend me all O k L d T U →
  0 ≤ sz ≤ KERNBASE → (∀ n, 0 ≤ n → n * PGSIZE < sz → is_Some (U !! n)) →
  ∃ d' k', copyuvm kend data me d sz k = Ok d' k' ∧ keeps (pages d T U ++ O) k k' ∧
    (∀ va, 0 ≤ va < 2 ^ 32 → translate (words k') d va = translate (words k) d va) ∧
    ((d' ≠ 0 ∧
      (∃ L' T' U', uvm kend me all (pages d T U ++ O) k' L' d' T' U') ∧
      (∀ va, 0 ≤ va < sz → ∃ e f, U !! (va / PGSIZE) = Some e ∧ vpage kend f ∧
         (f ∉ pages d T U) ∧ copied k' (frame e) f ∧
         translate (words k') d' va = Some (V2P f + va mod PGSIZE, Z.lor (PTE_FLAGS e) PTE_P)) ∧
      (∀ va, pgup sz * PGSIZE ≤ va < KERNBASE → translate (words k') d' va = None)) ∨
     (d' = 0 ∧ Z.of_nat (length L) ≤ 1025 + 2 * pgup sz ∧
      ∃ L', uvm kend me all O k' L' d T U)).
Proof.
  intros Hkend Hnd Hall Hdata Hvm Hsz HU. unfold copyuvm.
  assert (Hpool : pool kend me all (pages d T U ++ O) k L).
  { destruct Hvm as [Hr Hf Hp _]. split_and!; [done|done|]. rewrite <- Hp. unfold pages. solve_Permutation. }
  assert (Hpar : ∀ k', keeps (pages d T U ++ O) k k' → space (words k') d T U).
  { intros k' Hk. eapply (parent_space O); [apply (vm_space _ _ _ _ _ _ _ _ _ Hvm)|exact Hk]. }
  assert (Hback : ∀ k' L', keeps (pages d T U ++ O) k k' → pool kend me all (pages d T U ++ O) k' L' →
    uvm kend me all O k' L' d T U).
  { intros k' L' Hk (Hr & Hf & Hp). split; [done|done| |by apply Hpar]. rewrite <- Hp. unfold pages. solve_Permutation. }
  destruct (setupkvm_spec kend me all Hkend Hnd Hall data _ k L Hdata Hpool) as (k1 & Hk1 & Hres).
  assert (Hsame : ∀ k' d' L' T' U', keeps (pages d T U ++ O) k k' → uvm kend me all (pages d T U ++ O) k' L' d' T' U' →
    ∀ va, 0 ≤ va < 2 ^ 32 → translate (words k') d va = translate (words k) d va).
  { intros k' d' L' T' U' Hk Hvm' va Hva.
    pose proof (parent_vm kend me all O k' L' d' T' U' d T U Hvm' (Hpar k' Hk)) as Hpvm.
    rewrite (translate_entry kend me all _ _ _ _ _ _ va Hkend Hnd Hall Hpvm Hva).
    by rewrite (translate_entry kend me all _ _ _ _ _ _ va Hkend Hnd Hall Hvm Hva). }
  assert (Hfail : ∀ k' L', keeps (pages d T U ++ O) k k' → pool kend me all (pages d T U ++ O) k' L' →
    ∀ va, 0 ≤ va < 2 ^ 32 → translate (words k') d va = translate (words k) d va).
  { intros k' L' Hk Hp va Hva. pose proof (Hback k' L' Hk Hp) as Hvm'.
    rewrite (translate_entry kend me all _ _ _ _ _ _ va Hkend Hnd Hall Hvm' Hva).
    by rewrite (translate_entry kend me all _ _ _ _ _ _ va Hkend Hnd Hall Hvm Hva). }
  pose proof (pgup_bounds sz) as Hb.
  unfold mbind, M_bind. destruct Hres as [(d' & L1 & T1 & E1 & Hd' & Hvm1 & Hko & HL1)|(E1 & Hl1 & L1 & Hp1)].
  2:{ rewrite E1, bool_decide_eq_true_2 by done. exists 0, k1. split_and!; [done|done|by eapply Hfail|].
      right. split_and!; [done|lia|]. exists L1. by apply Hback. }
  rewrite E1, bool_decide_eq_false_2 by done.
  assert (Hu1 : uvm kend me all (pages d T U ++ O) k1 L1 d' T1 (kernel_entries data)).
  { unfold uvm. by rewrite (frames_kernel_only _ Hko). }
  destruct (copyuvm_loop_spec kend me all Hkend Hnd Hall (S (Z.to_nat ((sz + PGSIZE - 1) / PGSIZE))) 0 sz O k1 L1 d' T1
    (kernel_entries data) d T U (kernel_entries data) Hu1 (Hpar k1 Hk1)) as (k' & Hk' & Hres).
  { lia. } { lia. } { done. } { split; [done|]. intros n Hn. lia. } { done. }
  { unfold PGSIZE. Z.div_mod_to_equations. lia. } { lia. } { unfold PGSIZE. lia. }
  assert (Hkk : keeps (pages d T U ++ O) k k') by (by eapply keeps_trans).
  destruct Hres as [(L' & T' & U' & s' & E & Hvm' & Hs' & Hch)|(E & Hlen & L' & Hp)].
  2:{ exists 0, k'. split_and!; [done|done|by eapply Hfail|]. right. split_and!; [done|lia|].
      exists L'. by apply Hback. }
  assert (Hss : s' = pgup sz) by (unfold PGSIZE in *; lia). subst s'.
  exists d', k'. split_and!; [done|done|by eapply Hsame|]. left. split_and!; [done|by exists L', T', U'| |].
  - intros va Hva. assert (Hn : 0 ≤ va / PGSIZE < pgup sz) by (unfold PGSIZE in *; Z.div_mod_to_equations; lia).
    destruct (ch_user _ _ _ _ _ _ Hch _ Hn) as (e & f & He & Hf & HU' & Hc). exists e, f.
    assert (Hff : f ∈ frames U').
    { apply elem_of_frames. exists (va / PGSIZE), (pte_of f (PTE_FLAGS e)).
      split_and!; [|done|symmetry; apply (frame_pte_of kend); [done|apply flags_bound]].
      unfold USER, KERNBASE, PGSIZE in *. Z.div_mod_to_equations. lia. }
    split_and!; [done|done| |done|].
    + intros Hin. pose proof (vm_NoDup kend me all Hnd _ _ _ _ _ _ Hvm') as Hn'.
      apply NoDup_app in Hn' as (_ & _ & Hn'). rewrite app_comm_cons in Hn'. apply NoDup_app in Hn' as (_ & _ & Hn').
      apply NoDup_app in Hn' as (_ & Hdis & _). apply (Hdis f Hff). apply elem_of_app. by left.
    + rewrite (translate_entry kend me all _ _ _ _ _ _ va Hkend Hnd Hall Hvm') by (unfold KERNBASE in *; lia).
      rewrite HU'. simpl. by destruct (pte_of_parts kend f (PTE_FLAGS e) Hf (flags_bound e)) as [-> ->].
  - intros va Hva. rewrite (translate_entry kend me all _ _ _ _ _ _ va Hkend Hnd Hall Hvm') by (unfold KERNBASE in *; lia).
    rewrite (ch_kernel _ _ _ _ _ _ Hch), (Hko (va / PGSIZE)); [done|..]; unfold USER, KERNBASE, PGSIZE in *; Z.div_mod_to_equations; lia.
Qed.

(** [uva2ka] does not check that the page table exists.  For an address whose page
    directory entry is not present [walkpgdir] returns a null pointer, and
    [uva2ka] reads the entry through it; [copyout] to such an address does the same. *)
Theorem uva2ka_null_pointer kend me all O k L d T U va buf :
  vm kend me all O k L d T U → 0 ≤ va < 2 ^ 20 * PGSIZE → T !! (va / PGSIZE / 1024) = None → buf ≠ [] →
  uva2ka me d (PGROUNDDOWN va) k = Undef "uva2ka: null pte" k ∧
  copyout me d va buf k = Undef "uva2ka: null pte" k.
Proof.
  intros Hvm Hva HT Hbuf.
  assert (E : uva2ka me d (PGROUNDDOWN va) k = Undef "uva2ka: null pte" k).
  { unfold uva2ka, PGROUNDDOWN. rewrite land_page_mask. unfold mbind, M_bind.
    rewrite (walk_miss kend me all _ _ _ _ _ _ Hvm (va / PGSIZE)); [done| |done].
    unfold PGSIZE in *. Z.div_mod_to_equations. lia. }
  split; [done|]. unfold copyout. destruct buf as [|b buf]; [done|]. cbn [copyout_loop length].
  rewrite bool_decide_eq_true_2 by lia. unfold mbind, M_bind. by rewrite E.
Qed.

(** ** Examples *)

Definition demo_pages : list Z := [0x80111000; 0x80112000; 0x80113000; 0x80114000; 0x80115000].

Lemma demo_pages_ok : NoDup demo_pages ∧ Forall (vpage demo_kend) demo_pages.
Proof.
  split; [apply (bool_decide_unpack _); by vm_compute|].
  repeat constructor; by vm_compute.
Qed.

(** An address space with one user page, and two free pages. *)
Definition demo_vm : kmem :=
  Kmem demo_mach 1 0x80114000
    (<[0x80111000 := pde_of 0x80112000]> (<[0x80112000 := pte_of 0x80113000 UPERM]>
      (<[0x80114000 := 0x80115000]> (λ _, 0)))).

Definition demo_T : gmap Z Z := {[0 := 0x80112000]}.
Definition demo_U : gmap Z Z := {[0 := pte_of 0x80113000 UPERM]}.

Lemma demo_uvm : uvm demo_kend 0 demo_pages [] demo_vm [0x80114000; 0x80115000] 0x80111000 demo_T demo_U.
Proof.
  split.
  - split; [|done]. split; [apply demo_mach_wf|]. exists (demo_cpu 0). split; [done|]. split; simpl; done.
  - split; [simpl; done|apply (bool_decide_unpack _); by vm_compute|repeat constructor; by vm_compute].
  - assert (Hf : frames demo_U = [0x80113000]) by (by vm_compute). rewrite Hf.
    assert (Ht : tabs demo_T = [0x80112000]) by (by vm_compute). rewrite Ht. unfold demo_pages. solve_Permutation.
  - assert (Hw : ∀ a, words demo_vm a = if bool_decide (a = 0x80111000) then pde_of 0x80112000 else
      if bool_decide (a = 0x80112000) then pte_of 0x80113000 UPERM else
      if bool_decide (a = 0x80114000) then 0x80115000 else 0).
    { intros a. unfold demo_vm. cbn [words].
      repeat (case_bool_decide as H; [subst; reflexivity|rewrite fn_lookup_insert_ne by congruence; clear H]).
      done. }
    split.
    + intros i Hi. rewrite Hw. unfold demo_T. destruct (decide (i = 0)) as [->|Hne].
      * rewrite lookup_singleton_eq. reflexivity.
      * rewrite lookup_singleton_ne by done. repeat (rewrite bool_decide_eq_false_2 by lia). done.
    + intros n t Hn Ht. unfold demo_T in Ht. apply lookup_singleton_Some in Ht as [Hn0 <-]. rewrite Hw. unfold demo_U.
      destruct (decide (n = 0)) as [->|Hne]; [reflexivity|]. rewrite lookup_singleton_ne by done.
      assert (n < 1024) by (Z.div_mod_to_equations; lia). rewrite Z.mod_small by lia.
      repeat (rewrite bool_decide_eq_false_2 by lia). done.
    + intros i t Ht. unfold demo_T in Ht. apply lookup_singleton_Some in Ht as [<- _]. lia.
    + intros n e He. unfold demo_U in He. apply lookup_singleton_Some in He as [<- <-]. split_and!; [lia|lia|by eexists|apply present_lor].
Qed.

(** Growing it by one page. *)
Lemma allocuvm_grows_witness :
  ∃ k', allocuvm demo_kend 0 0x80111000 4096 8192 demo_vm = Ok 8192 k' ∧
    ∃ f, zeroed k' f ∧ translate (words k') 0x80111000 4100 = Some (V2P f + 4, 7).
Proof.
  destruct demo_pages_ok as [Hnd Hall].
  destruct (allocuvm_grows demo_kend 0 demo_pages [] demo_vm _ _ _ _ 4096 8192 ltac:(done) Hnd Hall demo_uvm)
    as (r & k' & L' & T' & U' & E & _ & _ & [(-> & H & _)|(_ & _ & Hlen)]).
  - lia.
  - unfold KERNBASE. lia.
  - intros n H1 _. unfold demo_U. change (pgup 4096) with 1 in H1. apply lookup_singleton_ne. lia.
  - exists k'. split; [exact E|]. destruct (H 4100) as (f & _ & Hz & Ht); [lia|by vm_compute|by vm_compute|].
    exists f. split; [exact Hz|]. rewrite Ht. reflexivity.
  - change (pgup 8192 - pgup 4096) with 1 in Hlen. simpl in Hlen. lia.
Defined.

Lemma freevm_returns_pages_witness :
  ∃ k' L', freevm demo_kend 0 0x80111000 demo_vm = Ok tt k' ∧ free_pages demo_kend k' L' ∧
    L' ≡ₚ demo_pages.
Proof.
  destruct demo_pages_ok as [Hnd Hall].
  destruct (freevm_returns_pages demo_kend 0 demo_pages [] demo_vm _ _ _ _ ltac:(done) Hnd Hall demo_uvm)
    as (k' & L' & E & Hf & Hp & _).
  exists k', L'. split_and!; [exact E|exact Hf|]. rewrite Hp. unfold pages, demo_pages.
  assert (Hfr : frames demo_U = [0x80113000]) by (by vm_compute). rewrite Hfr.
  assert (Ht : tabs demo_T = [0x80112000]) by (by vm_compute). rewrite Ht. solve_Permutation.
Defined.

(** The same address space with 1100 free pages, one after the other. *)
Definition roomy_free : list Z := (λ k, 0x80400000 + PGSIZE * k) <$> seqZ 0 1100.
Definition roomy_pages : list Z := [0x80111000; 0x80112000; 0x80113000] ++ roomy_free.
Definition roomy_words (a : Z) : Z :=
  if bool_decide (a = 0x80111000) then pde_of 0x80112000
  else if bool_decide (a = 0x80112000) then pte_of 0x80113000 UPERM
  else if bool_decide (0x80400000 ≤ a < 0x80400000 + PGSIZE * 1099) then a + PGSIZE else 0.
Definition roomy_vm : kmem := Kmem demo_mach 1 0x80400000 roomy_words.

Fixpoint chain_test (w : Z → Z) (h : Z) (l : list Z) : bool :=
  match l with
  | [] => bool_decide (h = 0)
  | v :: l => bool_decide (h = v) && bool_decide (v ≠ 0) && chain_test w (w v) l
  end.

Lemma chain_test_ok w l : ∀ h, chain_test w h l = true → chain w h l.
Proof.
  induction l as [|v l IH]; intros h; cbn [chain_test chain]; [by intros ?%bool_decide_eq_true|].
  intros [[H1%bool_decide_eq_true H2%bool_decide_eq_true]%andb_true_iff H3]%andb_true_iff. auto.
Qed.

Lemma roomy_pages_ok : NoDup roomy_pages ∧ Forall (vpage demo_kend) roomy_pages.
Proof. split; apply (bool_decide_unpack _); vm_compute; exact I. Qed.

Lemma roomy_uvm : uvm demo_kend 0 roomy_pages [] roomy_vm roomy_free 0x80111000 demo_T demo_U.
Proof.
  split.
  - split; [|done]. split; [apply demo_mach_wf|]. exists (demo_cpu 0). split; [done|]. split; simpl; done.
  - destruct roomy_pages_ok as [(_ & _ & Hnd)%NoDup_app [_ Hall]%Forall_app].
    split; [apply chain_test_ok; vm_compute; reflexivity|done|]. eapply Forall_impl; [exact Hall|]. apply vpage_ok.
  - assert (Hf : frames demo_U = [0x80113000]) by (by vm_compute). rewrite Hf.
    assert (Ht : tabs demo_T = [0x80112000]) by (by vm_compute). rewrite Ht. unfold roomy_pages. solve_Permutation.
  - split.
    + intros i Hi. cbn [words roomy_vm]. unfold roomy_words, demo_T. destruct (decide (i = 0)) as [->|Hne].
      * rewrite lookup_singleton_eq. reflexivity.
      * rewrite lookup_singleton_ne by done. repeat (rewrite bool_decide_eq_false_2 by lia). done.
    + intros n t Hn Ht. unfold demo_T in Ht. apply lookup_singleton_Some in Ht as [Hn0 <-]. cbn [words roomy_vm]. unfold roomy_words, demo_U.
      destruct (decide (n = 0)) as [->|Hne]; [reflexivity|]. rewrite lookup_singleton_ne by done.
      assert (n < 1024) by (Z.div_mod_to_equations; lia). rewrite Z.mod_small by lia.
      repeat (rewrite bool_decide_eq_false_2 by lia). done.
    + intros i t Ht. unfold demo_T in Ht. apply lookup_singleton_Some in Ht as [<- _]. lia.
    + intros n e He. unfold demo_U in He. apply lookup_singleton_Some in He as [<- <-]. split_and!; [lia|lia|by eexists|apply present_lor].
Qed.

(** There the copy succeeds. *)
Lemma copyuvm_copies_witness :
  ∃ d' k' f, copyuvm demo_kend 0x8010a000 0 0x80111000 4096 roomy_vm = Ok d' k' ∧ d' ≠ 0 ∧ f ≠ 0x80113000 ∧
    copied k' 0x80113000 f ∧ translate (words k') d' 4 = Some (V2P f + 4, 7) ∧
    translate (words k') 0x80111000 4 = Some (0x113004, 7).
Proof.
  destruct roomy_pages_ok as [Hnd Hall].
  destruct (copyuvm_copies demo_kend 0 roomy_pages 0x8010a000 [] roomy_vm roomy_free 0x80111000
    demo_T demo_U 4096 ltac:(done) Hnd Hall)
    as (d' & k' & E & _ & Hsame & [(Hd & _ & Hcopy & _)|(_ & Hlen & _)]).
  - split; [by vm_compute|]. unfold KERNLINK, KERNBASE, EXTMEM, PHYSTOP. lia.
  - exact roomy_uvm.
  - unfold KERNBASE. lia.
  - intros n H0 Hn. assert (n = 0) as -> by (unfold PGSIZE in Hn; lia). by eexists.
  - destruct (Hcopy 4) as (e & f & He & _ & Hf & Hc & Ht); [lia|]. change (4 / PGSIZE) with 0 in He. injection He as <-.
    exists d', k', f. split; [exact E|]. split; [exact Hd|]. split; [|split; [exact Hc|split; [exact Ht|]]].
    + intros ->. apply Hf. vm_compute. do 2 right. left.
    + rewrite Hsame by lia. reflexivity.
  - exfalso. revert Hlen. vm_compute. congruence.
Defined.

Lemma uva2ka_null_pointer_witness :
  uva2ka 0 0x80111000 0x400000 demo_vm = Undef "uva2ka: null pte" demo_vm.
Proof.
  exact (proj1 (uva2ka_null_pointer demo_kend 0 demo_pages _ demo_vm _ 0x80111000 demo_T demo_U 0x400000 [0]
    demo_uvm ltac:(unfold PGSIZE; lia) ltac:(by vm_compute) ltac:(done))).
Defined.
