(* ===== verification/VmUser.v ===== *)
(** * The memory of a user program

    The bytes that an address space shows to the program, and what [loaduvm],
    [clearpteu] and [copyout] of [Vm] do to them. *)

From S2P Require Import Prelude Spinlock Kalloc Vm VmInv VmThm.

(** Case analysis on every test in the goal. *)
Ltac bool_cases :=
  repeat match goal with |- context [bool_decide ?P] => destruct (bool_decide_reflect P) end.

(** ** Bytes in words *)

Lemma testbit_low_byte z n : 0 ≤ n → Z.testbit (Z.land z 0xFF) n = bool_decide (n < 8) && Z.testbit z n.
Proof.
  intros Hn. change 0xFF with (Z.ones 8). rewrite Z.land_spec, Z.testbit_ones_nonneg by lia.
  case_bool_decide; [rewrite (proj2 (Z.ltb_lt n 8))|rewrite (proj2 (Z.ltb_ge n 8))]; try lia; by rewrite ?andb_true_r, ?andb_false_r.
Qed.

Lemma byte_in_set w i j b :
  0 ≤ i → 0 ≤ j → 0 ≤ b < 256 → byte_in (set_byte w i b) j = if bool_decide (i = j) then b else byte_in w j.
Proof.
  intros Hi Hj Hb. apply Z.bits_inj'. intros n Hn. unfold byte_in, set_byte.
  assert (Hbb : ∀ m, 0 ≤ m → Z.testbit b m = bool_decide (m < 8) && Z.testbit b m).
  { intros m Hm. rewrite <- testbit_low_byte by done. f_equal. change 0xFF with (Z.ones 8).
    rewrite Z.land_ones by lia. symmetry. apply Z.mod_small. lia. }
  rewrite testbit_low_byte, Z.shiftr_spec, Z.lor_spec, Z.ldiff_spec by lia.
  rewrite !(Z.shiftl_spec _ (8 * i)) by lia. change 0xFF with (Z.ones 8).
  case_bool_decide as Hn8; simpl.
  - case_bool_decide as Hij.
    + subst j. replace (n + 8 * i - 8 * i) with n by lia. rewrite Z.testbit_ones_nonneg by lia.
      rewrite (proj2 (Z.ltb_lt n 8)) by lia. by rewrite andb_false_r.
    + rewrite testbit_low_byte, (bool_decide_eq_true_2 (n < 8)), Z.shiftr_spec by lia. simpl.
      destruct (decide (i < j)).
      * rewrite Z.testbit_ones_nonneg by lia. rewrite (proj2 (Z.ltb_ge _ 8)) by lia.
        rewrite (Hbb (n + 8 * j - 8 * i)), (bool_decide_eq_false_2 (n + 8 * j - 8 * i < 8)) by lia.
        by rewrite andb_true_r, orb_false_r.
      * rewrite !(Z.testbit_neg_r _ (n + 8 * j - 8 * i)) by lia. by rewrite andb_true_r, orb_false_r.
  - case_bool_decide; [by rewrite Hbb, bool_decide_eq_false_2 by lia|].
    by rewrite testbit_low_byte, bool_decide_eq_false_2 by lia.
Qed.

Lemma ldb_stb a b w c : 0 ≤ b < 256 → ldb (stb a b w) c = if bool_decide (c = a) then b else ldb w c.
Proof.
  intros Hb. unfold ldb, stb. pose proof (Z.mod_pos_bound a 4). pose proof (Z.mod_pos_bound c 4).
  destruct (decide (c - c mod 4 = a - a mod 4)) as [He|He].
  - rewrite He, fn_lookup_insert, byte_in_set by lia.
    destruct (decide (c = a)) as [->|Hne]; [by rewrite !bool_decide_eq_true_2|].
    by rewrite !bool_decide_eq_false_2 by lia.
  - rewrite fn_lookup_insert_ne by done. rewrite bool_decide_eq_false_2; [done|]. by intros ->.
Qed.

(** A word and its bytes. *)
Lemma ldb_0 w a : w (a - a mod 4) = 0 → ldb w a = 0.
Proof. intros H. unfold ldb, byte_in. by rewrite H, Z.shiftr_0_l. Qed.

Lemma ldb_ext w w' a : w' (a - a mod 4) = w (a - a mod 4) → ldb w' a = ldb w a.
Proof. intros H. unfold ldb. by rewrite H. Qed.

Definition byte_ok (b : Z) : Prop := 0 ≤ b < 256.

Lemma ldb_store_bytes l : ∀ a w c, Forall byte_ok l →
  ldb (store_bytes a l w) c =
  if bool_decide (a ≤ c < a + Z.of_nat (length l)) then nth (Z.to_nat (c - a)) l 0 else ldb w c.
Proof.
  induction l as [|b l IH]; intros a w c Hl; cbn [store_bytes length].
  - by rewrite bool_decide_eq_false_2 by lia.
  - apply Forall_cons in Hl as [Hb Hl]. rewrite IH by done.
    destruct (decide (c = a)) as [->|Hne].
    + rewrite bool_decide_eq_false_2, ldb_stb by (done || lia). rewrite !bool_decide_eq_true_2 by lia.
      by rewrite Z.sub_diag.
    + destruct (decide (a + 1 ≤ c < a + 1 + Z.of_nat (length l))).
      * rewrite !bool_decide_eq_true_2 by lia. replace (Z.to_nat (c - a)) with (S (Z.to_nat (c - (a + 1)))) by lia. done.
      * rewrite !(bool_decide_eq_false_2 (_ ≤ c < _)), ldb_stb, bool_decide_eq_false_2 by (done || lia). done.
Qed.

Lemma store_bytes_outside f l : ∀ a w x,
  f mod 4 = 0 → f ≤ a → a + Z.of_nat (length l) ≤ f + PGSIZE → ¬ in_page f x → store_bytes a l w x = w x.
Proof.
  induction l as [|b l IH]; intros a w x Hf Ha Hl Hx; cbn [store_bytes length] in *; [done|].
  rewrite IH by (done || lia). unfold stb. rewrite fn_lookup_insert_ne; [done|].
  intros <-. apply Hx. unfold in_page. Z.div_mod_to_equations. lia.
Qed.

(** ** User memory *)

Section User.

Context (kend : Z) (me : nat) (all : list Z).
Context (Hkend : 0 < kend) (Hnd : NoDup all) (Hall : Forall (vpage kend) all).

Abbreviation uvm := (uvm kend me all).
Abbreviation uvm_entry := (uvm_entry kend me all Hkend Hnd Hall).
Abbreviation vm_in_all := (vm_in_all kend me all Hkend Hnd Hall).
Abbreviation walk_hit := (walk_hit kend me all Hkend Hnd Hall).
Abbreviation vm_write := (vm_write kend me all Hkend Hnd Hall).
Abbreviation vm_set := (vm_set kend me all Hkend Hnd Hall).
Abbreviation all_vpage := (all_vpage kend all Hall).

(** The byte at a mapped user address, whatever the flags of its page. *)
Definition umem (U : gmap Z Z) (k : kmem) (va : Z) : option Z :=
  (λ e, ldb (words k) (frame e + va mod PGSIZE)) <$> U !! (va / PGSIZE).

(** The byte as the program sees it: the page must be accessible to the user. *)
Definition ubyte (w : Z → Z) (pgdir va : Z) : option Z :=
  match translate w pgdir va with
  | Some (pa, fl) => if bool_decide (Z.land fl PTE_U = 0) then None else Some (ldb w (P2V pa))
  | None => None
  end.

Lemma vpage_mod4 f : vpage kend f → f mod 4 = 0.
Proof. intros [H _]. unfold PGSIZE in H. Z.div_mod_to_equations. lia. Qed.

Lemma ubyte_umem O k L d T U va :
  uvm O k L d T U → 0 ≤ va < KERNBASE →
  ubyte (words k) d va =
    (e ← U !! (va / PGSIZE); if bool_decide (Z.land (PTE_FLAGS e) PTE_U = 0) then None else umem U k va).
Proof.
  intros Hvm Hva. unfold ubyte, umem.
  rewrite (translate_entry kend me all _ _ _ _ _ _ va Hkend Hnd Hall Hvm) by (unfold KERNBASE in *; lia).
  destruct (U !! (va / PGSIZE)) as [e|] eqn:HU; simpl; [|done]. case_bool_decide; [done|]. do 2 f_equal.
  assert (Hn : va / PGSIZE < USER) by (unfold USER, PGSIZE, KERNBASE in *; Z.div_mod_to_equations; lia).
  destruct (uvm_entry _ _ _ _ _ _ _ e Hvm Hn HU) as [(Hm & _ & Hr) _]. unfold frame, P2V in *.
  pose proof (Z.mod_pos_bound va PGSIZE ltac:(unfold PGSIZE; lia)).
  rewrite PTE_ADDR_mask in *. unfold u32, KERNBASE, PHYSTOP, PGSIZE in *.
  set (x := e / 4096 * 4096) in *.
  Z.div_mod_to_equations. lia.
Qed.

Lemma frames_distinct O k L d T U n m e e' :
  uvm O k L d T U → n < USER → m < USER → U !! n = Some e → U !! m = Some e' → frame e = frame e' → n = m.
Proof.
  intros Hvm Hn Hm He He' Hf. destruct (decide (n = m)) as [|Hne]; [done|]. exfalso.
  pose proof (vm_NoDup kend me all Hnd _ _ _ _ _ _ Hvm) as Hnn.
  apply NoDup_app in Hnn as (_ & _ & Hnn). rewrite app_comm_cons in Hnn. apply NoDup_app in Hnn as (_ & _ & Hnn).
  apply NoDup_app in Hnn as (Hnn & _ & _). rewrite (frames_delete U n e Hn He) in Hnn.
  apply NoDup_cons in Hnn as [Hnot _]. apply Hnot. apply elem_of_frames. exists m, e'.
  split_and!; [done|by rewrite lookup_delete_ne|done].
Qed.

(** Writing bytes into a user page. *)
Lemma user_write O k L d T U n e o l :
  uvm O k L d T U → 0 ≤ n < USER → U !! n = Some e → 0 ≤ o → o + Z.of_nat (length l) ≤ PGSIZE → Forall byte_ok l →
  let k' := set_words (store_bytes (frame e + o) l (words k)) k in
  uvm O k' L d T U ∧ keeps O k k' ∧
  ∀ va, 0 ≤ va < KERNBASE → umem U k' va =
    if bool_decide (n * PGSIZE + o ≤ va < n * PGSIZE + o + Z.of_nat (length l))
    then Some (nth (Z.to_nat (va - (n * PGSIZE + o))) l 0) else umem U k va.
Proof.
  intros Hvm Hn HU Ho Hlen Hl k'. destruct (uvm_entry _ _ _ _ _ _ n e Hvm) as [Hf _]; [lia|done|].
  pose proof (frames_delete U n e ltac:(lia) HU) as Hperm. pose proof (vpage_mod4 _ Hf) as Hf4.
  assert (Hvm0 : vm kend me all (frame e :: frames (delete n U) ++ O) k L d T U).
  { eapply vm_permute; [exact Hvm|]. by rewrite Hperm. }
  destruct (vm_write (frame e) (store_bytes (frame e + o) l (words k)) _ _ _ _ _ _ Hvm0) as [Hvm1 Hk1].
  { intros a Ha. apply (store_bytes_outside (frame e)); [done|lia|lia|done]. }
  split_and!.
  - eapply vm_permute; [exact Hvm1|]. by rewrite Hperm.
  - eapply keeps_subset; [exact Hk1|]. intros p Hp. apply elem_of_app. by right.
  - intros va Hva. unfold umem. set (va0 := va mod PGSIZE).
    assert (Hva0 : 0 ≤ va0 < PGSIZE) by (apply Z.mod_pos_bound; unfold PGSIZE; lia).
    assert (Hvae : va = va / PGSIZE * PGSIZE + va0) by (unfold va0, PGSIZE; Z.div_mod_to_equations; lia).
    destruct (decide (va / PGSIZE = n)) as [Hvn|Hvn].
    + rewrite Hvn, HU in *. simpl. rewrite ldb_store_bytes by done.
      destruct (decide (o ≤ va0 < o + Z.of_nat (length l))).
      * rewrite !bool_decide_eq_true_2 by lia. do 2 f_equal. lia.
      * by rewrite !bool_decide_eq_false_2 by lia.
    + rewrite (bool_decide_eq_false_2 (_ ≤ va < _)) by (unfold PGSIZE in *; nia).
      destruct (U !! (va / PGSIZE)) as [e'|] eqn:HU'; [|done]. simpl. f_equal. apply ldb_ext. simpl.
      assert (Hn' : va / PGSIZE < USER) by (unfold USER, PGSIZE, KERNBASE in *; Z.div_mod_to_equations; lia).
      destruct (uvm_entry _ _ _ _ _ _ _ e' Hvm Hn' HU') as [Hf' _].
      apply (Hk1 (frame e')).
      * apply elem_of_app. left. apply elem_of_frames. exists (va / PGSIZE), e'.
        split_and!; [done|by rewrite lookup_delete_ne|done].
      * pose proof (vpage_mod4 _ Hf'). unfold in_page, PGSIZE in *. Z.div_mod_to_equations. lia.
Qed.

(** User memory of pages whose contents are kept. *)
Lemma umem_keeps O k k' U va :
  keeps (frames U ++ O) k k' → 0 ≤ va < KERNBASE →
  (∀ n e, n < USER → U !! n = Some e → vpage kend (frame e)) → umem U k' va = umem U k va.
Proof.
  intros Hk Hva HU. unfold umem. destruct (U !! (va / PGSIZE)) as [e|] eqn:He; [|done]. simpl. f_equal.
  assert (Hn : va / PGSIZE < USER) by (unfold USER, PGSIZE, KERNBASE in *; Z.div_mod_to_equations; lia).
  pose proof (vpage_mod4 _ (HU _ _ Hn He)). pose proof (Z.mod_pos_bound va PGSIZE ltac:(unfold PGSIZE; lia)).
  apply ldb_ext, (Hk (frame e)).
  - apply elem_of_app. left. apply elem_of_frames. eauto.
  - unfold in_page, PGSIZE in *. Z.div_mod_to_equations. lia.
Qed.

(** The entry of a mapped user page. *)
Lemma walk_user O k L d T U n e :
  uvm O k L d T U → 0 ≤ n < USER → U !! n = Some e →
  ∃ t, walkpgdir me d (n * PGSIZE) false k = Ok (t + 4 * (n mod 1024)) k ∧ t + 4 * (n mod 1024) ≠ 0 ∧
    words k (t + 4 * (n mod 1024)) = e ∧ T !! (n / 1024) = Some t ∧ Z.land e PTE_P ≠ 0.
Proof.
  intros Hvm Hn HU. assert (Hn20 : 0 ≤ n < 2 ^ 20) by (unfold USER in Hn; lia).
  pose proof (vm_space _ _ _ _ _ _ _ _ _ Hvm) as Hsp. destruct (sp_U _ _ _ _ Hsp n e HU) as (_ & [t Ht] & Hp).
  exists t. split_and!; [by apply (walk_hit _ _ _ _ _ _ Hvm)| | |done|done].
  - assert (vpage kend t) as (_ & ? & _).
    { apply all_vpage, (vm_in_all _ _ _ _ _ _ Hvm). right; right; left. by eapply vm_table_in. }
    pose proof (Z.mod_pos_bound n 1024). lia.
  - rewrite (sp_pte _ _ _ _ Hsp n t Hn20 Ht). by rewrite HU.
Qed.

Lemma uva2ka_spec O k L d T U n e :
  uvm O k L d T U → 0 ≤ n < USER → U !! n = Some e →
  uva2ka me d (n * PGSIZE) k = Ok (if bool_decide (Z.land e PTE_U = 0) then 0 else frame e) k ∧ frame e ≠ 0.
Proof.
  intros Hvm Hn HU. destruct (walk_user _ _ _ _ _ _ _ _ Hvm Hn HU) as (t & E & H0 & He & _ & Hp).
  destruct (uvm_entry _ _ _ _ _ _ n e Hvm) as [(_ & Hf & _) _]; [lia|done|]. split; [|lia].
  unfold uva2ka. rewrite (bind_step _ _ _ _ _ E), bool_decide_eq_false_2 by done.
  rewrite (bind_step _ _ _ _ _ (eq_refl : ld _ k = Ok (words k _) k)), He.
  rewrite bool_decide_eq_false_2 by done. by case_bool_decide.
Qed.

Definition accessible (U : gmap Z Z) (n : Z) : Prop := ∃ e, U !! n = Some e ∧ Z.land e PTE_U ≠ 0.

(** The pages of [len] bytes from [va] on. *)
Definition page_of (va len n : Z) : Prop := 0 < len ∧ va / PGSIZE ≤ n ∧ n * PGSIZE < va + len.

(** [copyout] to mapped pages: the bytes are written, or one of the pages is not
    accessible to the user. *)
Lemma copyout_loop_spec fuel : ∀ va buf O k L d T U,
  uvm O k L d T U → 0 ≤ va → va + Z.of_nat (length buf) ≤ KERNBASE → Forall byte_ok buf →
  (∀ n, page_of va (Z.of_nat (length buf)) n → is_Some (U !! n)) → (length buf < fuel)%nat →
  ∃ r k', copyout_loop me fuel d va buf k = Ok r k' ∧ uvm O k' L d T U ∧ keeps O k k' ∧
    ((r = 0 ∧ (∀ n, page_of va (Z.of_nat (length buf)) n → accessible U n) ∧
      ∀ x, 0 ≤ x < KERNBASE → umem U k' x =
        if bool_decide (va ≤ x < va + Z.of_nat (length buf)) then Some (nth (Z.to_nat (x - va)) buf 0) else umem U k x) ∨
     (r = -1 ∧ ∃ n, page_of va (Z.of_nat (length buf)) n ∧ ¬ accessible U n)).
Proof.
  induction fuel as [|fuel IH]; intros va buf O k L d T U Hvm Hva Hend Hb HU Hfuel; [lia|]. cbn [copyout_loop].
  case_bool_decide as Hlen.
  2:{ exists 0, k. split_and!; [done|done|apply keeps_refl|]. left. split_and!; [done| |].
      - intros n (H0 & _). lia.
      - intros x Hx. by rewrite bool_decide_eq_false_2 by lia. }
  set (n := va / PGSIZE). set (o := va mod PGSIZE).
  assert (Ho : 0 ≤ o < PGSIZE) by (apply Z.mod_pos_bound; unfold PGSIZE; lia).
  assert (Hvn : va = n * PGSIZE + o) by (unfold n, o, PGSIZE; Z.div_mod_to_equations; lia).
  assert (Hn : 0 ≤ n < USER) by (unfold USER, KERNBASE, PGSIZE in *; lia).
  assert (Hdiv : va / PGSIZE = n) by done.
  assert (Hr : PGROUNDDOWN va = n * PGSIZE) by (unfold PGROUNDDOWN; by rewrite land_page_mask).
  clearbody n o. assert (Hpn : page_of va (Z.of_nat (length buf)) n) by (split_and!; lia).
  destruct (HU n Hpn) as [e He].
  destruct (uva2ka_spec _ _ _ _ _ _ n e Hvm Hn He) as [E Hf0]. rewrite Hr, (bind_step _ _ _ _ _ E).
  destruct (decide (Z.land e PTE_U = 0)) as [Hacc|Hacc].
  { rewrite (bool_decide_eq_true_2 (Z.land e PTE_U = 0)), (bool_decide_eq_true_2 (0 = 0)) by done.
    exists (-1), k. split_and!; [done|done|apply keeps_refl|]. right. split; [done|]. exists n. split; [done|].
    intros (e' & He' & Ha). congruence. }
  rewrite (bool_decide_eq_false_2 (Z.land e PTE_U = 0)), (bool_decide_eq_false_2 (frame e = 0)) by done.
  replace (va - n * PGSIZE) with o by lia.
  set (c := if bool_decide (length buf < Z.to_nat (PGSIZE - o))%nat then length buf else Z.to_nat (PGSIZE - o)).
  assert (Hc : (c ≤ length buf)%nat ∧ Z.of_nat c ≤ PGSIZE - o ∧ (0 < c)%nat ∧ (c = length buf ∨ Z.of_nat c = PGSIZE - o))
    by (unfold c; destruct (bool_decide_reflect (length buf < Z.to_nat (PGSIZE - o))%nat); lia).
  assert (Hct : length (take c buf) = c) by (rewrite length_take; lia).
  destruct (user_write _ k L d T U n e o (take c buf) Hvm Hn He) as (Hvm1 & Hk1 & Hm1);
    [lia|rewrite Hct; lia|by apply Forall_take|].
  rewrite (bind_step _ _ _ _ _ (eq_refl : modify _ k = Ok tt _)).
  set (k1 := set_words (store_bytes (frame e + o) (take c buf) (words k)) k) in *.
  replace (u32 (n * PGSIZE + PGSIZE)) with ((n + 1) * PGSIZE)
    by (rewrite u32_small; unfold USER, PGSIZE in *; lia).
  assert (Hdl : length (drop c buf) = (length buf - c)%nat) by apply length_drop.
  assert (Hsub : ∀ m, page_of ((n + 1) * PGSIZE) (Z.of_nat (length (drop c buf))) m →
    page_of va (Z.of_nat (length buf)) m).
  { intros m (H0 & H1 & H2). rewrite Hdl in H2. rewrite Z.div_mul in H1 by (unfold PGSIZE; lia). split_and!; [lia|lia|].
    destruct Hc as (? & ? & ? & [?|?]); unfold PGSIZE in *; lia. }
  destruct (decide (c = length buf)) as [Hcl|Hcl].
  - assert (Hd0 : drop c buf = []) by (apply drop_ge; lia). rewrite Hd0.
    destruct fuel as [|fuel]; [lia|]. cbn [copyout_loop]. rewrite bool_decide_eq_false_2 by (simpl; lia).
    exists 0, k1. split_and!; [done|done|done|]. left. split_and!; [done| |].
    + intros m (_ & H1 & H2). assert (m = n) as -> by (unfold PGSIZE in *; lia). by exists e.
    + intros x Hx. rewrite Hm1, Hct by done. rewrite <- Hvn, Hcl, firstn_all. done.
  - assert (Hco : Z.of_nat c = PGSIZE - o) by lia.
    destruct (IH ((n + 1) * PGSIZE) (drop c buf) O k1 L d T U Hvm1) as (r & k' & E' & Hvm' & Hk' & Hres);
      [unfold PGSIZE in *; lia|rewrite Hdl; unfold PGSIZE in *; lia|by apply Forall_drop|by intros m Hm; apply HU, Hsub|lia|].
    exists r, k'. split_and!; [done|done|by eapply keeps_trans|].
    destruct Hres as [(-> & Hall' & Hm')|(-> & m & Hm & Hna)]; [left|right].
    + split_and!; [done| |].
      * intros m (H0 & H1 & H2). destruct (decide (m = n)) as [->|]; [by exists e|]. apply Hall'.
        split_and!; [lia|rewrite Z.div_mul by (unfold PGSIZE; lia); lia|rewrite Hdl; unfold PGSIZE in *; lia].
      * intros x Hx. rewrite Hm', Hm1, Hct, Hdl by done.
        destruct (decide (va ≤ x < va + Z.of_nat (length buf))) as [Hin|Hin].
        -- rewrite (bool_decide_eq_true_2 (va ≤ x < _)) by done.
           destruct (decide ((n + 1) * PGSIZE ≤ x)).
           ++ rewrite bool_decide_eq_true_2 by (unfold PGSIZE in *; lia). f_equal.
              rewrite <- (take_drop c buf) at 2. rewrite app_nth2 by (rewrite Hct; unfold PGSIZE in *; lia).
              rewrite Hct. f_equal. unfold PGSIZE in *. lia.
           ++ rewrite bool_decide_eq_false_2, bool_decide_eq_true_2 by (unfold PGSIZE in *; lia). f_equal.
              rewrite <- (take_drop c buf) at 2. rewrite app_nth1 by (rewrite Hct; unfold PGSIZE in *; lia).
              f_equal. lia.
        -- by rewrite !bool_decide_eq_false_2 by (unfold PGSIZE in *; lia).
    + split; [done|]. exists m. split; [by apply Hsub|done].
Qed.

(** *** The guard page *)

Lemma clear_user e : frame (Z.land e (Z.lnot PTE_U)) = frame e ∧ Z.land (Z.land e (Z.lnot PTE_U)) PTE_P = Z.land e PTE_P ∧
  Z.land (Z.land e (Z.lnot PTE_U)) PTE_U = 0.
Proof.
  split_and!.
  - unfold frame, PTE_ADDR. by rewrite <- Z.land_assoc.
  - by rewrite <- Z.land_assoc.
  - rewrite <- Z.land_assoc. apply Z.land_0_r.
Qed.

Lemma clearpteu_spec O k L d T U n e :
  uvm O k L d T U → 0 ≤ n < USER → U !! n = Some e →
  ∃ k', clearpteu me d (n * PGSIZE) k = Ok tt k' ∧
    uvm O k' L d T (<[n := Z.land e (Z.lnot PTE_U)]> U) ∧ keeps (frames U ++ O) k k'.
Proof.
  intros Hvm Hn HU. destruct (walk_user _ _ _ _ _ _ _ _ Hvm Hn HU) as (t & E & H0 & He & Ht & Hp).
  destruct (clear_user e) as (Hf & Hpp & _).
  unfold clearpteu. rewrite (bind_step _ _ _ _ _ E), bool_decide_eq_false_2 by done.
  rewrite (bind_step _ _ _ _ _ (eq_refl : ld _ k = Ok (words k _) k)), He.
  destruct (vm_set _ _ _ _ _ _ Hvm n t (Z.land e (Z.lnot PTE_U))) as [Hvm' Hk'];
    [unfold USER in Hn; lia|done|right; by rewrite Hpp|].
  rewrite bool_decide_eq_false_2 in Hvm' by (intros Hz; rewrite Hz in Hpp; by rewrite <- Hpp in Hp).
  eexists. split_and!; [done| |exact Hk'].
  eapply vm_permute; [exact Hvm'|]. apply Permutation_app_tail.
  rewrite <- (insert_delete_eq U), (frames_insert (delete n U)) by (lia || apply lookup_delete_eq).
  rewrite Hf. symmetry. rewrite (frames_delete U n e) by (done || lia). done.
Qed.

(** *** Loading a segment *)

(** The result and the bytes of reading [n] bytes at [off] of the contents [C]. *)
Definition read_at (C : list Z) (off n : Z) : Z * list Z :=
  if bool_decide (Z.of_nat (length C) < off ∨ u32 (off + n) < off) then (-1, []) else
  let l := take (Z.to_nat n) (drop (Z.to_nat off) C) in (Z.of_nat (length l), l).

Lemma read_at_short C off n : 0 ≤ n → (length (read_at C off n).2 ≤ Z.to_nat n)%nat.
Proof. intros Hn. unfold read_at. case_bool_decide; simpl; [lia|]. rewrite length_take. lia. Qed.

Lemma read_at_bytes C off n : Forall byte_ok C → Forall byte_ok (read_at C off n).2.
Proof. intros HC. unfold read_at. case_bool_decide; simpl; [constructor|]. by apply Forall_take, Forall_drop. Qed.

(** All of them are read exactly when they are there. *)
Lemma read_at_full C off n :
  Z.of_nat (length C) < 2 ^ 31 → 0 ≤ off < 2 ^ 32 → 0 < n < 2 ^ 32 →
  ((read_at C off n).1 = n ↔ off + n ≤ Z.of_nat (length C)).
Proof.
  intros HC Ho Hn. unfold read_at. case_bool_decide as H; simpl.
  - split; [lia|]. intros Hle. rewrite u32_small in H by lia. lia.
  - rewrite length_take, length_drop. lia.
Qed.

Lemma read_at_nth C off n i :
  0 ≤ off → off + n ≤ Z.of_nat (length C) → Z.of_nat (length C) < 2 ^ 31 → 0 ≤ i < n →
  nth (Z.to_nat i) (read_at C off n).2 0 = nth (Z.to_nat (off + i)) C 0.
Proof.
  intros Ho Hn HC Hi. unfold read_at. rewrite u32_small, bool_decide_eq_false_2 by lia. simpl.
  rewrite nth_firstn, nth_skipn. rewrite (proj2 (Nat.ltb_lt _ _)) by lia. f_equal. lia.
Qed.

Section Load.

Context {X : Type} (x : X) (C : list Z).
Context (HC : Forall byte_ok C) (HC31 : Z.of_nat (length C) < 2 ^ 31).
Context (rd : Z → Z → Z → M (kmem * X) Z).
Context (Hrd : ∀ k dst off n, 0 ≤ off < 2 ^ 32 → 0 ≤ n < 2 ^ 32 →
  rd dst off n (k, x) = Ok (read_at C off n).1 (set_words (store_bytes dst (read_at C off n).2 (words k)) k, x)).

Abbreviation load := (loaduvm_loop me fst (λ k s, (k, s.2)) rd).

(** One page: [n] bytes of the file from [offset] on. *)
Lemma load_page O k L d T U s e offset n :
  uvm O k L d T U → 0 ≤ s < USER → U !! s = Some e → 0 ≤ offset < 2 ^ 32 → 0 < n ≤ PGSIZE →
  let k' := set_words (store_bytes (frame e) (read_at C offset n).2 (words k)) k in
  uvm O k' L d T U ∧ keeps O k k' ∧
  ((read_at C offset n).1 = n → ∀ va, 0 ≤ va < KERNBASE → umem U k' va =
    if bool_decide (s * PGSIZE ≤ va < s * PGSIZE + n)
    then Some (nth (Z.to_nat (offset + (va - s * PGSIZE))) C 0) else umem U k va).
Proof.
  intros Hvm Hs He Ho Hn k'. pose proof (read_at_short C offset n ltac:(lia)) as Hlen.
  destruct (user_write _ k L d T U s e 0 (read_at C offset n).2 Hvm Hs He) as (Hvm1 & Hk1 & Hm1);
    [lia|lia|by apply read_at_bytes|]. rewrite !Z.add_0_r in *. fold k' in Hvm1, Hk1, Hm1.
  split_and!; [done|done|]. intros Hfull va Hva. rewrite Hm1 by done.
  assert (Hl : Z.of_nat (length (read_at C offset n).2) = n).
  { revert Hfull. unfold read_at. case_bool_decide; simpl; lia. }
  apply read_at_full in Hfull; [|done|done|unfold PGSIZE in *; lia]. rewrite Hl.
  destruct (bool_decide_reflect (s * PGSIZE ≤ va < s * PGSIZE + n)); [|done].
  by rewrite (read_at_nth C offset n) by lia.
Qed.

(** [loaduvm] from the page [i] on.  It fails exactly when the file is too short. *)
Lemma loaduvm_loop_spec fuel : ∀ i s offset sz O k L d T U,
  uvm O k L d T U → 0 ≤ s → 0 ≤ i → s * PGSIZE + sz ≤ KERNBASE → 0 ≤ offset < 2 ^ 32 →
  (∀ n, page_of (s * PGSIZE) sz n → is_Some (U !! n)) →
  (i = 0 ∨ offset + i * PGSIZE ≤ Z.of_nat (length C)) → sz - i * PGSIZE ≤ (Z.of_nat fuel - 1) * PGSIZE → (0 < fuel)%nat →
  ∃ r k', load fuel d (s * PGSIZE) offset sz (i * PGSIZE) (k, x) = Ok r (k', x) ∧ uvm O k' L d T U ∧ keeps O k k' ∧
    ((r = 0 ∧ (i * PGSIZE < sz → offset + sz ≤ Z.of_nat (length C)) ∧ ∀ va, 0 ≤ va < KERNBASE → umem U k' va =
        if bool_decide (s * PGSIZE + i * PGSIZE ≤ va < s * PGSIZE + sz)
        then Some (nth (Z.to_nat (offset + (va - s * PGSIZE))) C 0) else umem U k va) ∨
     (r = -1 ∧ i * PGSIZE < sz ∧ Z.of_nat (length C) < offset + sz)).
Proof using Hkend Hnd Hall HC HC31 Hrd.
  induction fuel as [|fuel IH]; intros i s offset sz O k L d T U Hvm Hs Hi Hend Ho HU Hpos Hfuel Hf0; [lia|].
  cbn [loaduvm_loop]. destruct (bool_decide_reflect (i * PGSIZE < sz)) as [Hlt|Hge].
  2:{ exists 0, k. split_and!; [done|done|apply keeps_refl|]. left. split_and!; [done|lia|].
      intros va Hva. by rewrite bool_decide_eq_false_2 by lia. }
  assert (Hpg : page_of (s * PGSIZE) sz (s + i)).
  { split_and!; [unfold PGSIZE in *; lia|rewrite Z.div_mul by (unfold PGSIZE; lia); lia|lia]. }
  assert (Hsi : 0 ≤ s + i < USER) by (unfold USER, KERNBASE, PGSIZE in *; lia).
  destruct (HU _ Hpg) as [e He]. destruct (walk_user _ _ _ _ _ _ _ _ Hvm Hsi He) as (t & E & Ht0 & Hwe & _ & _).
  replace (u32 (s * PGSIZE + i * PGSIZE)) with ((s + i) * PGSIZE) by (rewrite u32_small; unfold USER, PGSIZE in *; lia).
  unfold mbind at 1, M_bind at 1, zoom at 1. cbn [fst snd]. rewrite E, bool_decide_eq_false_2 by done.
  unfold mbind at 1, M_bind at 1, zoom at 1, ld, gets. cbn [fst snd]. rewrite Hwe. fold (frame e).
  set (n := if bool_decide (sz - i * PGSIZE < PGSIZE) then sz - i * PGSIZE else PGSIZE).
  assert (Hn : 0 < n ≤ PGSIZE ∧ n ≤ sz - i * PGSIZE ∧ (n = sz - i * PGSIZE ∨ n = PGSIZE)).
  { unfold n. destruct (bool_decide_reflect (sz - i * PGSIZE < PGSIZE)); unfold PGSIZE in *; lia. }
  assert (Hoff : u32 (offset + i * PGSIZE) = offset + i * PGSIZE) by (apply u32_small; unfold PGSIZE in *; lia).
  rewrite Hoff. assert (Hob : 0 ≤ offset + i * PGSIZE < 2 ^ 32) by (unfold PGSIZE in *; lia).
  destruct (load_page _ k L d T U (s + i) e (offset + i * PGSIZE) n Hvm Hsi He Hob) as (Hvm1 & Hk1 & Hm1); [lia|].
  rewrite (bind_step _ _ _ _ _ (Hrd k (frame e) (offset + i * PGSIZE) n Hob ltac:(unfold PGSIZE in *; lia))).
  set (k1 := set_words (store_bytes (frame e) _ (words k)) k) in *.
  pose proof (read_at_full C (offset + i * PGSIZE) n HC31 Hob ltac:(unfold PGSIZE in *; lia)) as Hfull.
  destruct (bool_decide_reflect ((read_at C (offset + i * PGSIZE) n).1 ≠ n)) as [Hne|Heq].
  { exists (-1), k1. split_and!; [done|done|done|]. right. split_and!; [done|done|].
    destruct (decide (offset + i * PGSIZE + n ≤ Z.of_nat (length C))); [exfalso; by apply Hne, Hfull|lia]. }
  apply dec_stable in Heq. specialize (Hm1 Heq). apply Hfull in Heq.
  replace (u32 (i * PGSIZE + PGSIZE)) with ((i + 1) * PGSIZE)
    by (rewrite u32_small; unfold KERNBASE, PGSIZE in *; lia).
  destruct (decide (n = PGSIZE)) as [Hn1|Hn1].
  - destruct (IH (i + 1) s offset sz O k1 L d T U Hvm1) as (r & k' & E' & Hvm' & Hk' & Hres);
      [lia|lia|lia|lia|done|right; unfold PGSIZE in *; lia|unfold PGSIZE in *; lia|unfold PGSIZE in *; lia|].
    exists r, k'. split_and!; [done|done|by eapply keeps_trans|].
    destruct Hres as [(-> & Hsz & Hm)|(-> & Hsz)]; [left|right; split_and!; [done|done|apply Hsz]].
    split_and!; [done|intros _; destruct (decide ((i + 1) * PGSIZE < sz)); [auto|unfold PGSIZE in *; lia]|].
    intros va Hva. rewrite Hm, Hm1 by done.
    bool_cases; try done; try (unfold PGSIZE in *; lia).
    do 2 f_equal. unfold PGSIZE in *. lia.
  - assert (Hle : sz ≤ (i + 1) * PGSIZE) by (unfold PGSIZE in *; lia).
    assert (E' : load fuel d (s * PGSIZE) offset sz ((i + 1) * PGSIZE) (k1, x) = Ok 0 (k1, x)).
    { destruct fuel as [|fuel]; [unfold PGSIZE in *; lia|]. cbn [loaduvm_loop].
      by rewrite bool_decide_eq_false_2 by lia. }
    exists 0, k1. split_and!; [done|done|done|]. left. split_and!; [done|lia|].
    intros va Hva. rewrite Hm1 by done.
    bool_cases; try done; try (unfold PGSIZE in *; lia).
    do 2 f_equal. unfold PGSIZE in *. lia.
Qed.

Lemma loaduvm_spec s offset sz O k L d T U :
  uvm O k L d T U → 0 ≤ s → 0 ≤ sz → s * PGSIZE + sz ≤ KERNBASE → 0 ≤ offset < 2 ^ 32 →
  (∀ n, page_of (s * PGSIZE) sz n → is_Some (U !! n)) →
  ∃ r k', loaduvm me fst (λ k s, (k, s.2)) rd d (s * PGSIZE) offset sz (k, x) = Ok r (k', x) ∧
    uvm O k' L d T U ∧ keeps O k k' ∧
    ((r = 0 ∧ (0 < sz → offset + sz ≤ Z.of_nat (length C)) ∧ ∀ va, 0 ≤ va < KERNBASE → umem U k' va =
        if bool_decide (s * PGSIZE ≤ va < s * PGSIZE + sz)
        then Some (nth (Z.to_nat (offset + (va - s * PGSIZE))) C 0) else umem U k va) ∨
     (r = -1 ∧ 0 < sz ∧ Z.of_nat (length C) < offset + sz)).
Proof using Hkend Hnd Hall HC HC31 Hrd.
  intros Hvm Hs Hsz Hend Ho HU. unfold loaduvm.
  rewrite Z.mod_mul, bool_decide_eq_false_2 by (unfold PGSIZE; lia).
  destruct (loaduvm_loop_spec (S (Z.to_nat ((sz + PGSIZE - 1) / PGSIZE))) 0 s offset sz O k L d T U Hvm)
    as (r & k' & E & Hvm' & Hk' & Hres); try done; try lia.
  { unfold PGSIZE. Z.div_mod_to_equations. lia. }
  exists r, k'. rewrite Z.mul_0_l, Z.add_0_r in *. done.
Qed.

End Load.

End User.
