(* ===== verification/Fs.v ===== *)
(** * The file system

    [src/fs.c]: the block allocator, inodes and their cache, file contents,
    directories and paths.  The state has the contents of the disk blocks as the
    buffer cache shows them ([bread]), the block numbers given to [log_write],
    the superblock and the inode cache.  A pointer to a cached inode is its index
    in the cache.  The functions are run by one process: an inode's sleep lock is
    a flag, and [icache.lock], which is held only inside single functions, is left
    out. *)

From S2P Require Import Prelude Log.

Module Fs.

Definition NINODE : nat := 50.
Definition NDEV : Z := 10.
Definition ROOTDEV : Z := 1.
Definition ROOTINO : Z := 1.
Definition BSZ : Z := 512.
Definition NDIRECT : nat := 12.
Definition NINDIRECT : Z := 128.
Definition MAXFILE : Z := 140.
Definition IPB : Z := 8.
Definition BPB : Z := 4096.
Definition DIRSIZ : nat := 14.
Definition DIRENT : Z := 16.
Definition T_DIR : Z := 1.
Definition T_FILE : Z := 2.
Definition T_DEV : Z := 3.

(** [struct superblock] *)
Record superblock : Type := Superblock {
  sb_size : Z; sb_nblocks : Z; sb_ninodes : Z; sb_nlog : Z; sb_logstart : Z; sb_inodestart : Z; sb_bmapstart : Z;
}.

(** The part of [struct inode] that is a copy of the disk inode ([struct dinode]). *)
Record dinode : Type := Dinode {
  type : Z; major : Z; minor : Z; nlink : Z; size : Z; addrs : list Z;
}.

(** [struct inode] *)
Record inode : Type := Inode {
  idev : Z; inum : Z; iref : Z; ilocked : bool; valid : bool; di : dinode;
}.

Record fss : Type := Fss {
  blk : Z → block;
  logged : list Z;
  sb : superblock;
  icache : list inode;
}.

Definition set_blk (f : Z → block) (s : fss) : fss := Fss f (logged s) (sb s) (icache s).
Definition set_sb (x : superblock) (s : fss) : fss := Fss (blk s) (logged s) x (icache s).
Definition set_icache (l : list inode) (s : fss) : fss := Fss (blk s) (logged s) (sb s) l.

(** ** Numbers in blocks *)

Definition getu32 (b : block) (off : nat) : Z := u32 (get32 b off).
Definition get16 (b : block) (off : nat) : Z := byte_at b off + 2 ^ 8 * byte_at b (off + 1).
(** A [short]. *)
Definition s16 (z : Z) : Z := (z + 2 ^ 15) mod 2 ^ 16 - 2 ^ 15.
Definition put16 (off : nat) (v : Z) (b : block) : block :=
  <[(off + 1)%nat := u8 (Z.shiftr v 8)]> (<[off := u8 v]> b).

(** ** Buffers *)

Definition bread (b : Z) : M fss block := gets (λ s, blk s b).

(** [log_write] of the buffer of block [b], modified to [x]. *)
Definition log_write (b : Z) (x : block) : M fss unit :=
  modify (λ s, Fss (<[b := x]> (blk s)) (logged s ++ [b]) (sb s) (icache s)).

Definition readsb : M fss superblock :=
  d ← bread 1;
  mret (Superblock (getu32 d 0) (getu32 d 4) (getu32 d 8) (getu32 d 12) (getu32 d 16) (getu32 d 20) (getu32 d 24)).

Definition bzero (bno : Z) : M fss unit :=
  bread bno ;; log_write bno (replicate BSIZE 0).

(** ** Blocks *)

Definition BBLOCK (b : Z) (x : superblock) : Z := b / BPB + sb_bmapstart x.

(** [bp->data[bi/8] & (1 << (bi % 8))], and the data with that bit set or clear. *)
Definition bit_of (d : block) (bi : Z) : bool :=
  negb (bool_decide (Z.land (byte_at d (Z.to_nat (bi / 8))) (Z.shiftl 1 (bi mod 8)) = 0)).
Definition set_bit (d : block) (bi : Z) : block :=
  <[Z.to_nat (bi / 8) := Z.lor (byte_at d (Z.to_nat (bi / 8))) (Z.shiftl 1 (bi mod 8))]> d.
Definition clear_bit (d : block) (bi : Z) : block :=
  <[Z.to_nat (bi / 8) := Z.ldiff (byte_at d (Z.to_nat (bi / 8))) (Z.shiftl 1 (bi mod 8))]> d.

(** The inner loop of [balloc]. *)
Fixpoint balloc_scan (n : nat) (b bi size : Z) (d : block) : option Z :=
  match n with
  | O => None
  | S n => if bool_decide (b + bi < size)
           then if bit_of d bi then balloc_scan n b (bi + 1) size d else Some bi
           else None
  end.

Fixpoint balloc_loop (fuel : nat) (b : Z) : M fss Z :=
  match fuel with
  | O => spin
  | S fuel =>
      s ← get;
      if bool_decide (b < sb_size (sb s)) then
        d ← bread (BBLOCK b (sb s));
        match balloc_scan (Z.to_nat BPB) b 0 (sb_size (sb s)) d with
        | Some bi =>
            log_write (BBLOCK b (sb s)) (set_bit d bi) ;;
            bzero (b + bi) ;;
            mret (b + bi)
        | None => balloc_loop fuel (b + BPB)
        end
      else panic "balloc: out of blocks"
  end.

Definition balloc : M fss Z :=
  s ← get;
  balloc_loop (S (Z.to_nat (sb_size (sb s) / BPB + 1))) 0.

Definition bfree (b : Z) : M fss unit :=
  x ← readsb;
  modify (set_sb x) ;;
  d ← bread (BBLOCK b x);
  let bi := b mod BPB in
  if bit_of d bi then log_write (BBLOCK b x) (clear_bit d bi)
  else panic "freeing free block".

(** ** Inodes *)

Definition IBLOCK (i : Z) (x : superblock) : Z := i / IPB + sb_inodestart x.

(** The offset of an inode in its block: [inum%IPB] inodes of 64 bytes. *)
Definition dislot (i : Z) : nat := 64 * Z.to_nat (i mod IPB).

Definition dinode_get (d : block) (o : nat) : dinode :=
  Dinode (s16 (get16 d o)) (s16 (get16 d (o + 2))) (s16 (get16 d (o + 4))) (s16 (get16 d (o + 6)))
    (getu32 d (o + 8)) ((λ k, getu32 d (o + 12 + 4 * k)) <$> seq 0 (NDIRECT + 1)).

Fixpoint put_addrs (o k : nat) (l : list Z) (d : block) : block :=
  match l with
  | [] => d
  | a :: l => put_addrs o (S k) l (put32 (o + 12 + 4 * k) a d)
  end.

Definition dinode_put (o : nat) (x : dinode) (d : block) : block :=
  put_addrs o 0 (addrs x)
    (put32 (o + 8) (size x)
      (put16 (o + 6) (nlink x) (put16 (o + 4) (minor x) (put16 (o + 2) (major x) (put16 o (type x) d))))).

(** The disk inode after [memset(dip, 0, ...)]. *)
Definition zero_dinode : dinode := Dinode 0 0 0 0 0 (replicate (NDIRECT + 1) 0).

(** The cached inode at index [ip], and a change of it. *)
Definition iget_at (ip : nat) : M fss inode := λ s,
  match icache s !! ip with Some i => Ok i s | None => Undef "inode pointer" s end.
Definition iset (ip : nat) (f : inode → inode) : M fss unit :=
  modify (λ s, set_icache (alter f ip (icache s)) s).
Definition set_ref (r : Z) (i : inode) : inode := Inode (idev i) (inum i) r (ilocked i) (valid i) (di i).
Definition set_locked (b : bool) (i : inode) : inode := Inode (idev i) (inum i) (iref i) b (valid i) (di i).
Definition set_valid (b : bool) (i : inode) : inode := Inode (idev i) (inum i) (iref i) (ilocked i) b (di i).
Definition set_di (x : dinode) (i : inode) : inode := Inode (idev i) (inum i) (iref i) (ilocked i) (valid i) x.
Definition set_type (t : Z) (x : dinode) : dinode := Dinode t (major x) (minor x) (nlink x) (size x) (addrs x).
Definition set_size (n : Z) (x : dinode) : dinode := Dinode (type x) (major x) (minor x) (nlink x) n (addrs x).
Definition set_addr (k : nat) (a : Z) (x : dinode) : dinode :=
  Dinode (type x) (major x) (minor x) (nlink x) (size x) (<[k := a]> (addrs x)).

(** [iinit] reads the superblock. *)
Definition iinit : M fss unit := x ← readsb; modify (set_sb x).

(** The loop of [iget]: the entry of the inode, or the first free entry. *)
Fixpoint iget_scan (l : list inode) (k : nat) (dev i : Z) (empty : option nat) : option nat * option nat :=
  match l with
  | [] => (None, empty)
  | x :: l =>
      if bool_decide (0 < iref x ∧ idev x = dev ∧ inum x = i) then (Some k, empty)
      else iget_scan l (S k) dev i
             (match empty with None => if bool_decide (iref x = 0) then Some k else None | _ => empty end)
  end.

Definition iget (dev i : Z) : M fss nat :=
  s ← get;
  match iget_scan (icache s) 0 dev i None with
  | (Some k, _) => iset k (λ x, set_ref (iref x + 1) x) ;; mret k
  | (None, None) => panic "iget: no inodes"
  | (None, Some k) => iset k (λ x, Inode dev i 1 (ilocked x) false (di x)) ;; mret k
  end.

Fixpoint ialloc_loop (fuel : nat) (dev ty i : Z) : M fss nat :=
  match fuel with
  | O => spin
  | S fuel =>
      s ← get;
      if bool_decide (i < sb_ninodes (sb s)) then
        d ← bread (IBLOCK i (sb s));
        if bool_decide (type (dinode_get d (dislot i)) = 0) then
          log_write (IBLOCK i (sb s)) (dinode_put (dislot i) (set_type ty zero_dinode) d) ;;
          iget dev i
        else ialloc_loop fuel dev ty (i + 1)
      else panic "ialloc: no inodes"
  end.

Definition ialloc (dev ty : Z) : M fss nat :=
  s ← get;
  ialloc_loop (S (Z.to_nat (sb_ninodes (sb s)))) dev ty 1.

Definition iupdate (ip : nat) : M fss unit :=
  i ← iget_at ip;
  s ← get;
  d ← bread (IBLOCK (inum i) (sb s));
  log_write (IBLOCK (inum i) (sb s)) (dinode_put (dislot (inum i)) (di i) d).

Definition idup (ip : nat) : M fss nat :=
  iset ip (λ x, set_ref (iref x + 1) x) ;; mret ip.

(** [acquiresleep(&ip->lock)]; the process would sleep for ever on its own lock. *)
Definition acquire_inode (ip : nat) : M fss unit :=
  i ← iget_at ip;
  if ilocked i then spin else iset ip (set_locked true).
Definition release_inode (ip : nat) : M fss unit := iset ip (set_locked false).

Definition ilock (ip : nat) : M fss unit :=
  i ← iget_at ip;
  if bool_decide (iref i < 1) then panic "ilock" else
  acquire_inode ip ;;
  i ← iget_at ip;
  if valid i then mret tt else
  s ← get;
  d ← bread (IBLOCK (inum i) (sb s));
  let x := dinode_get d (dislot (inum i)) in
  iset ip (λ i, set_valid true (set_di x i)) ;;
  if bool_decide (type x = 0) then panic "ilock: no type" else mret tt.

Definition iunlock (ip : nat) : M fss unit :=
  i ← iget_at ip;
  if negb (ilocked i) || bool_decide (iref i < 1) then panic "iunlock" else
  release_inode ip.

(** ** Contents *)

Definition addr_at (x : dinode) (k : nat) : Z := default 0 (addrs x !! k).

Definition bmap (ip : nat) (bn : Z) : M fss Z :=
  i ← iget_at ip;
  if bool_decide (bn < Z.of_nat NDIRECT) then
    let addr := addr_at (di i) (Z.to_nat bn) in
    if bool_decide (addr = 0) then
      a ← balloc; iset ip (λ i, set_di (set_addr (Z.to_nat bn) a (di i)) i) ;; mret a
    else mret addr
  else
    let bn := bn - Z.of_nat NDIRECT in
    if bool_decide (bn < NINDIRECT) then
      let addr := addr_at (di i) NDIRECT in
      ind ← (if bool_decide (addr = 0) then
               a ← balloc; iset ip (λ i, set_di (set_addr NDIRECT a (di i)) i) ;; mret a
             else mret addr);
      d ← bread ind;
      let addr := getu32 d (4 * Z.to_nat bn) in
      if bool_decide (addr = 0) then
        a ← balloc;
        log_write ind (put32 (4 * Z.to_nat bn) a d) ;;
        mret a
      else mret addr
    else panic "bmap: out of range".

Definition itrunc_direct (ip : nat) : M fss unit :=
  for_range 0 NDIRECT (λ k,
    i ← iget_at ip;
    let a := addr_at (di i) k in
    if bool_decide (a ≠ 0) then bfree a ;; iset ip (λ i, set_di (set_addr k 0 (di i)) i) else mret tt).

Definition itrunc (ip : nat) : M fss unit :=
  itrunc_direct ip ;;
  i ← iget_at ip;
  let ind := addr_at (di i) NDIRECT in
  (if bool_decide (ind ≠ 0) then
     d ← bread ind;
     for_range 0 (Z.to_nat NINDIRECT) (λ j,
       let a := getu32 d (4 * j) in if bool_decide (a ≠ 0) then bfree a else mret tt) ;;
     bfree ind ;;
     iset ip (λ i, set_di (set_addr NDIRECT 0 (di i)) i)
   else mret tt) ;;
  iset ip (λ i, set_di (set_size 0 (di i)) i) ;;
  iupdate ip.

Definition iput (ip : nat) : M fss unit :=
  acquire_inode ip ;;
  i ← iget_at ip;
  (if valid i && bool_decide (nlink (di i) = 0) && bool_decide (iref i = 1) then
     itrunc ip ;;
     iset ip (λ i, set_di (set_type 0 (di i)) i) ;;
     iupdate ip ;;
     iset ip (set_valid false)
   else mret tt) ;;
  release_inode ip ;;
  iset ip (λ i, set_ref (iref i - 1) i).

Definition iunlockput (ip : nat) : M fss unit := iunlock ip ;; iput ip.

(** [struct stat] *)
Record stat : Type := Stat { st_type : Z; st_dev : Z; st_ino : Z; st_nlink : Z; st_size : Z }.

Definition stati (ip : nat) : M fss stat :=
  i ← iget_at ip;
  mret (Stat (type (di i)) (idev i) (inum i) (nlink (di i)) (size (di i))).

Section Devices.

(** [devsw]: the functions of a major device, if it has them. *)
Context (dev_read : Z → option (nat → Z → M fss (Z * list Z))).
Context (dev_write : Z → option (nat → list Z → M fss Z)).

(** The loop of [readi]: the bytes of [n - tot] bytes from [off] on. *)
Fixpoint readi_loop (fuel : nat) (ip : nat) (off rest : Z) : M fss (list Z) :=
  match fuel with
  | O => spin
  | S fuel =>
      if bool_decide (0 < rest) then
        a ← bmap ip (off / BSZ);
        d ← bread a;
        let m := Z.min rest (BSZ - off mod BSZ) in
        l ← readi_loop fuel ip (off + m) (rest - m);
        mret (take (Z.to_nat m) (drop (Z.to_nat (off mod BSZ)) d) ++ l)
      else mret []
  end.

(** [readi]: the result, and the bytes copied to [dst]. *)
Definition readi (ip : nat) (off n : Z) : M fss (Z * list Z) :=
  i ← iget_at ip;
  if bool_decide (type (di i) = T_DEV) then
    if bool_decide (major (di i) < 0 ∨ NDEV ≤ major (di i)) then mret (-1, []) else
    match dev_read (major (di i)) with
    | None => mret (-1, [])
    | Some f => f ip n
    end
  else
  let sz := size (di i) in
  if bool_decide (sz < off) || bool_decide (u32 (off + n) < off) then mret (-1, []) else
  let n := if bool_decide (sz < u32 (off + n)) then sz - off else n in
  l ← readi_loop (S (Z.to_nat (n / BSZ + 2))) ip off n;
  mret (n, l).

(** [memmove(bp->data + o, src, m)] *)
Definition splice (o : nat) (src d : block) : block :=
  take o d ++ src ++ drop (o + length src) d.

Fixpoint writei_loop (fuel : nat) (ip : nat) (off : Z) (src : list Z) : M fss unit :=
  match fuel with
  | O => spin
  | S fuel =>
      if bool_decide (0 < length src)%nat then
        a ← bmap ip (off / BSZ);
        d ← bread a;
        let m := Z.min (Z.of_nat (length src)) (BSZ - off mod BSZ) in
        log_write a (splice (Z.to_nat (off mod BSZ)) (take (Z.to_nat m) src) d) ;;
        writei_loop fuel ip (off + m) (drop (Z.to_nat m) src)
      else mret tt
  end.

(** [writei] of the bytes [src]. *)
Definition writei (ip : nat) (src : list Z) (off : Z) : M fss Z :=
  i ← iget_at ip;
  let n := Z.of_nat (length src) in
  if bool_decide (type (di i) = T_DEV) then
    if bool_decide (major (di i) < 0 ∨ NDEV ≤ major (di i)) then mret (-1) else
    match dev_write (major (di i)) with
    | None => mret (-1)
    | Some f => f ip src
    end
  else
  if bool_decide (size (di i) < off) || bool_decide (u32 (off + n) < off) then mret (-1) else
  if bool_decide (MAXFILE * BSZ < off + n) then mret (-1) else
  writei_loop (S (Z.to_nat (n / BSZ + 2))) ip off src ;;
  i ← iget_at ip;
  (if bool_decide (0 < n) && bool_decide (size (di i) < off + n)
   then iset ip (λ i, set_di (set_size (off + n) (di i)) i) ;; iupdate ip
   else mret tt) ;;
  mret n.

(** ** Directories *)

(** [strncmp(s, t, n)] of byte lists that end, or have a zero. *)
Fixpoint strncmp_l (n : nat) (s t : list Z) : Z :=
  match n with
  | O => 0
  | S n =>
      let p := hd 0 s in
      let q := hd 0 t in
      if bool_decide (p ≠ 0) && bool_decide (p = q) then strncmp_l n (tl s) (tl t) else p - q
  end.

Definition namecmp (s t : list Z) : Z := strncmp_l DIRSIZ s t.

(** [strncpy(de.name, name, DIRSIZ)]; a name has no zero byte. *)
Definition name_field (name : list Z) : list Z :=
  take DIRSIZ name ++ replicate (DIRSIZ - length name) 0.

(** [struct dirent] as bytes, and its fields. *)
Definition dirent_bytes (i : Z) (name : list Z) : list Z :=
  [u8 i; u8 (Z.shiftr i 8)] ++ name_field name.
Definition de_inum (l : list Z) : Z := get16 l 0.
Definition de_name (l : list Z) : list Z := drop 2 l.

(** The loop of [dirlookup] from [off] on: the offset and the inode number of
    the entry of [name]. *)
Fixpoint dirlookup_loop (fuel : nat) (dp : nat) (name : list Z) (off : Z) : M fss (option (Z * Z)) :=
  match fuel with
  | O => spin
  | S fuel =>
      i ← iget_at dp;
      if bool_decide (off < size (di i)) then
        r ← readi dp off DIRENT;
        if bool_decide (r.1 ≠ DIRENT) then panic "dirlookup read" else
        if bool_decide (de_inum r.2 = 0) then dirlookup_loop fuel dp name (off + DIRENT)
        else if bool_decide (namecmp name (de_name r.2) = 0) then mret (Some (off, de_inum r.2))
        else dirlookup_loop fuel dp name (off + DIRENT)
      else mret None
  end.

(** [dirlookup]: the cached inode of the entry, and its offset. *)
Definition dirlookup (dp : nat) (name : list Z) : M fss (option (nat * Z)) :=
  i ← iget_at dp;
  if bool_decide (type (di i) ≠ T_DIR) then panic "dirlookup not DIR" else
  r ← dirlookup_loop (S (Z.to_nat (size (di i) / DIRENT + 1))) dp name 0;
  match r with
  | None => mret None
  | Some (off, n) => k ← iget (idev i) n; mret (Some (k, off))
  end.

(** The offset of the first free entry, or the size of the directory. *)
Fixpoint dirlink_loop (fuel : nat) (dp : nat) (off : Z) : M fss Z :=
  match fuel with
  | O => spin
  | S fuel =>
      i ← iget_at dp;
      if bool_decide (off < size (di i)) then
        r ← readi dp off DIRENT;
        if bool_decide (r.1 ≠ DIRENT) then panic "dirlink read" else
        if bool_decide (de_inum r.2 = 0) then mret off else dirlink_loop fuel dp (off + DIRENT)
      else mret off
  end.

Definition dirlink (dp : nat) (name : list Z) (n : Z) : M fss Z :=
  r ← dirlookup dp name;
  match r with
  | Some (k, _) => iput k ;; mret (-1)
  | None =>
      i ← iget_at dp;
      off ← dirlink_loop (S (Z.to_nat (size (di i) / DIRENT + 1))) dp 0;
      w ← writei dp (dirent_bytes n name) off;
      if bool_decide (w ≠ DIRENT) then panic "dirlink" else mret 0
  end.

(** ** Paths *)

Definition SLASH : Z := 47.

Fixpoint skip_slashes (path : list Z) : list Z :=
  match path with
  | [] => []
  | c :: p => if bool_decide (c = SLASH) then skip_slashes p else path
  end.

(** The bytes up to the next slash, and what follows them. *)
Fixpoint take_elem (path : list Z) : list Z * list Z :=
  match path with
  | [] => ([], [])
  | c :: p => if bool_decide (c = SLASH) then ([], path) else
              let '(e, rest) := take_elem p in (c :: e, rest)
  end.

(** [skipelem]: the element, cut to [DIRSIZ] bytes, and the rest of the path. *)
Definition skipelem (path : list Z) : option (list Z * list Z) :=
  match skip_slashes path with
  | [] => None
  | path =>
      let '(e, rest) := take_elem path in
      Some (take DIRSIZ e, skip_slashes rest)
  end.

Fixpoint namex_loop (fuel : nat) (nameiparent : bool) (path : list Z) (name : list Z) (ip : nat) :
    M fss (option (nat * list Z)) :=
  match fuel with
  | O => spin
  | S fuel =>
      match skipelem path with
      | None => if nameiparent then iput ip ;; mret None else mret (Some (ip, name))
      | Some (name, path) =>
          ilock ip ;;
          i ← iget_at ip;
          if bool_decide (type (di i) ≠ T_DIR) then iunlockput ip ;; mret None else
          if nameiparent && bool_decide (path = []) then iunlock ip ;; mret (Some (ip, name)) else
          r ← dirlookup ip name;
          match r with
          | None => iunlockput ip ;; mret None
          | Some (next, _) => iunlockput ip ;; namex_loop fuel nameiparent path name next
          end
      end
  end.

(** [namex], with the current directory [cwd] of the process: the inode and
    the last path element. *)
Definition namex (cwd : nat) (path : list Z) (nameiparent : bool) : M fss (option (nat * list Z)) :=
  ip ← (if bool_decide (hd 0 path = SLASH) then iget ROOTDEV ROOTINO else idup cwd);
  namex_loop (S (length path)) nameiparent path [] ip.

Definition namei (cwd : nat) (path : list Z) : M fss (option nat) :=
  r ← namex cwd path false; mret (fst <$> r).

Definition nameiparent (cwd : nat) (path : list Z) : M fss (option (nat * list Z)) :=
  namex cwd path true.

End Devices.

End Fs.
