(* ===== verification/FsInv.v ===== *)
(** * The invariant of the file system

    Lemmas on the numbers and bits of a block, and the invariant that ties the
    blocks of the disk, the free-block bitmap, the inodes on the disk and the
    inode cache of [Fs] together. *)

From S2P Require Import Prelude Log Fs.

Module FsInv.

Import Fs.

(** ** Blocks *)

(** The contents of a disk block: [BSIZE] bytes. *)
Definition is_byte (b : Z) : Prop := 0 ≤ b < 256.
Definition block_ok (d : block) : Prop := length d = BSIZE ∧ Forall is_byte d.

Lemma byte_at_ok d i : Forall is_byte d → is_byte (byte_at d i).
Proof.
  intros Hd. unfold byte_at. destruct (d !! i) as [b|] eqn:E; simpl.
  - by eapply Forall_lookup_1.
  - unfold is_byte. lia.
Qed.

Lemma Forall_insert_byte d i b : Forall is_byte d → is_byte b → Forall is_byte (<[i := b]> d).
Proof. intros. by apply Forall_insert. Qed.

Lemma u8_byte z : is_byte (u8 z).
Proof. unfold is_byte, u8. pose proof (Z.mod_pos_bound z (2 ^ 8)). lia. Qed.

Lemma block_ok_zero : block_ok (replicate BSIZE 0).
Proof. split; [done|]. apply Forall_replicate. unfold is_byte. lia. Qed.

Lemma block_ok_put32 off v d : block_ok d → block_ok (put32 off v d).
Proof.
  intros [Hl Hb]. split; [by rewrite length_put32|].
  unfold put32. by repeat (apply Forall_insert_byte; [|apply u8_byte]).
Qed.

Lemma byte_at_insert_eq d i b : (i < length d)%nat → byte_at (<[i := b]> d) i = b.
Proof. intros. unfold byte_at. by rewrite list_lookup_insert_eq. Qed.

Lemma byte_at_insert_ne d i j b : i ≠ j → byte_at (<[i := b]> d) j = byte_at d j.
Proof. intros. unfold byte_at. by rewrite list_lookup_insert_ne. Qed.

Lemma byte_at_replicate n j : byte_at (replicate n 0) j = 0.
Proof.
  unfold byte_at. destruct (replicate n 0 !! j) eqn:E; [|done].
  apply lookup_replicate in E as [-> _]. done.
Qed.

(** *** Numbers *)

Lemma getu32_put32_eq off v d :
  (off + 4 ≤ length d)%nat → 0 ≤ v < 2 ^ 32 → getu32 (put32 off v d) off = v.
Proof.
  intros Hl Hv. unfold getu32. rewrite get32_put32_eq by done. unfold s32, u32.
  rewrite Zminus_mod_idemp_l. replace (v + 2 ^ 31 - 2 ^ 31) with v by lia. by apply Z.mod_small.
Qed.

Lemma getu32_put32_ne off off' v d :
  (off' + 4 ≤ off ∨ off + 4 ≤ off')%nat → getu32 (put32 off v d) off' = getu32 d off'.
Proof. intros. unfold getu32. by rewrite get32_put32_ne. Qed.

Lemma getu32_beyond d off : (length d ≤ off)%nat → getu32 d off = 0.
Proof.
  intros Hl. unfold getu32, get32, byte_at.
  by rewrite !lookup_ge_None_2 by lia.
Qed.

Lemma getu32_zero off n : getu32 (replicate n 0) off = 0.
Proof. unfold getu32, get32. by rewrite !byte_at_replicate. Qed.

Lemma getu32_range d off : 0 ≤ getu32 d off < 2 ^ 32.
Proof. apply u32_range. Qed.

Lemma length_put16 off v d : length (put16 off v d) = length d.
Proof. unfold put16. by rewrite !length_insert. Qed.

Lemma block_ok_put16 off v d : block_ok d → block_ok (put16 off v d).
Proof.
  intros [Hl Hb]. split; [by rewrite length_put16|].
  unfold put16. by repeat (apply Forall_insert_byte; [|apply u8_byte]).
Qed.

Lemma get16_put16_eq off v d :
  (off + 2 ≤ length d)%nat → get16 (put16 off v d) off = v mod 2 ^ 16.
Proof.
  intros Hl. unfold get16, put16.
  rewrite byte_at_insert_ne by lia. rewrite byte_at_insert_eq by lia.
  rewrite byte_at_insert_eq by (rewrite length_insert; lia).
  unfold u8. rewrite Z.shiftr_div_pow2 by lia.
  change (2 ^ 16) with (2 ^ 8 * 2 ^ 8). rewrite Z.rem_mul_r by lia. lia.
Qed.

Lemma get16_put16_ne off off' v d :
  (off' + 2 ≤ off ∨ off + 2 ≤ off')%nat → get16 (put16 off v d) off' = get16 d off'.
Proof. intros. unfold get16, put16. by rewrite !byte_at_insert_ne by lia. Qed.

Lemma get16_put32_ne off off' v d :
  (off' + 2 ≤ off ∨ off + 4 ≤ off')%nat → get16 (put32 off v d) off' = get16 d off'.
Proof. intros. unfold get16, put32. by rewrite !byte_at_insert_ne by lia. Qed.

Lemma getu32_put16_ne off off' v d :
  (off' + 4 ≤ off ∨ off + 2 ≤ off')%nat → getu32 (put16 off v d) off' = getu32 d off'.
Proof. intros. unfold getu32, get32, put16. by rewrite !byte_at_insert_ne by lia. Qed.

Lemma s16_mod v : s16 (v mod 2 ^ 16) = s16 v.
Proof. unfold s16. by rewrite Zplus_mod_idemp_l. Qed.

Lemma s16_small v : - 2 ^ 15 ≤ v < 2 ^ 15 → s16 v = v.
Proof. intros. unfold s16. rewrite Z.mod_small; lia. Qed.

(** *** Bits *)

Lemma bit_of_testbit d bi :
  0 ≤ bi → bit_of d bi = Z.testbit (byte_at d (Z.to_nat (bi / 8))) (bi mod 8).
Proof.
  intros Hbi. unfold bit_of. set (w := byte_at _ _). pose proof (Z.mod_pos_bound bi 8).
  rewrite Z.shiftl_1_l.
  assert (Hl : Z.land w (2 ^ (bi mod 8)) = if Z.testbit w (bi mod 8) then 2 ^ (bi mod 8) else 0).
  { apply Z.bits_inj'. intros j Hj. rewrite Z.land_spec, Z.pow2_bits_eqb by lia.
    destruct (Z.eqb_spec (bi mod 8) j) as [<-|Hne].
    - destruct (Z.testbit w (bi mod 8)); simpl; [|by rewrite Z.bits_0].
      by rewrite Z.pow2_bits_true by lia.
    - rewrite andb_false_r. destruct (Z.testbit w (bi mod 8)); [|by rewrite Z.bits_0].
      rewrite Z.pow2_bits_eqb by lia. by apply Z.eqb_neq in Hne as ->. }
  rewrite Hl. destruct (Z.testbit w (bi mod 8)).
  - rewrite bool_decide_eq_false_2; [done|]. pose proof (Z.pow_pos_nonneg 2 (bi mod 8)). lia.
  - by rewrite bool_decide_eq_true_2.
Qed.

Lemma below_pow2 x n :
  0 ≤ n → 0 ≤ x → (∀ i, n ≤ i → Z.testbit x i = false) → x < 2 ^ n.
Proof.
  intros Hn Hx Hb. destruct (decide (x = 0)) as [->|]; [lia|].
  apply Z.log2_lt_pow2; [lia|]. destruct (decide (Z.log2 x < n)) as [|Hge]; [done|].
  pose proof (Z.bit_log2 x ltac:(lia)) as Hlog. rewrite Hb in Hlog by lia. done.
Qed.

Lemma testbit_byte x i : is_byte x → 8 ≤ i → Z.testbit x i = false.
Proof.
  intros [Hx Hlt] Hi. destruct (decide (x = 0)) as [->|]; [by rewrite Z.bits_0|].
  apply Z.bits_above_log2; [lia|].
  assert (Z.log2 x < 8) by (apply Z.log2_lt_pow2; lia). lia.
Qed.

Lemma lor_bit_byte x k : is_byte x → 0 ≤ k < 8 → is_byte (Z.lor x (Z.shiftl 1 k)).
Proof.
  intros Hx Hk. pose proof Hx as [Hx0 _]. rewrite Z.shiftl_1_l.
  assert (0 ≤ Z.lor x (2 ^ k)) by (apply Z.lor_nonneg; split; [done|apply Z.pow_nonneg; lia]).
  split; [done|]. change 256 with (2 ^ 8). apply below_pow2; [lia..|]. intros i Hi.
  rewrite Z.lor_spec, testbit_byte, Z.pow2_bits_false by (done || lia). done.
Qed.

Lemma ldiff_byte x y : is_byte x → 0 ≤ y → is_byte (Z.ldiff x y).
Proof.
  intros Hx Hy. pose proof Hx as [Hx0 _].
  assert (0 ≤ Z.ldiff x y) by (apply Z.ldiff_nonneg; lia).
  split; [done|]. change 256 with (2 ^ 8). apply below_pow2; [lia..|]. intros i Hi.
  rewrite Z.ldiff_spec, testbit_byte by (done || lia). done.
Qed.

Lemma bit_index bi bj : 0 ≤ bi → 0 ≤ bj → Z.to_nat (bi / 8) = Z.to_nat (bj / 8) → bi mod 8 = bj mod 8 → bi = bj.
Proof.
  intros Hi Hj E Em. apply Z2Nat.inj in E; [|apply Z.div_pos; lia..].
  rewrite (Z.div_mod bi 8), (Z.div_mod bj 8) by lia. congruence.
Qed.

Lemma bit_of_set d bi bj :
  length d = BSIZE → 0 ≤ bi < BPB → 0 ≤ bj → bit_of (set_bit d bi) bj = bool_decide (bi = bj) || bit_of d bj.
Proof.
  intros Hl Hbi Hbj. unfold BPB in Hbi. rewrite !bit_of_testbit by lia. unfold set_bit.
  assert (Z.to_nat (bi / 8) < length d)%nat by (rewrite Hl; unfold BSIZE; pose proof (Z.div_lt_upper_bound bi 8 512); lia).
  destruct (decide (Z.to_nat (bi / 8) = Z.to_nat (bj / 8))) as [E|E].
  - rewrite <- E, byte_at_insert_eq, Z.lor_spec, Z.shiftl_1_l by done.
    pose proof (Z.mod_pos_bound bi 8). pose proof (Z.mod_pos_bound bj 8).
    rewrite Z.pow2_bits_eqb by lia. rewrite orb_comm. f_equal. apply Bool.eq_iff_eq_true.
    rewrite Z.eqb_eq, bool_decide_eq_true. split; [|by intros ->]. intros Em. apply bit_index; lia || done.
  - rewrite byte_at_insert_ne by done. rewrite bool_decide_eq_false_2 by (intros ->; done). done.
Qed.

Lemma bit_of_clear d bi bj :
  length d = BSIZE → 0 ≤ bi < BPB → 0 ≤ bj → bit_of (clear_bit d bi) bj = negb (bool_decide (bi = bj)) && bit_of d bj.
Proof.
  intros Hl Hbi Hbj. unfold BPB in Hbi. rewrite !bit_of_testbit by lia. unfold clear_bit.
  assert (Z.to_nat (bi / 8) < length d)%nat by (rewrite Hl; unfold BSIZE; pose proof (Z.div_lt_upper_bound bi 8 512); lia).
  destruct (decide (Z.to_nat (bi / 8) = Z.to_nat (bj / 8))) as [E|E].
  - rewrite <- E, byte_at_insert_eq, Z.ldiff_spec, Z.shiftl_1_l by done.
    pose proof (Z.mod_pos_bound bi 8). pose proof (Z.mod_pos_bound bj 8).
    rewrite Z.pow2_bits_eqb by lia. rewrite andb_comm. f_equal. f_equal. apply Bool.eq_iff_eq_true.
    rewrite Z.eqb_eq, bool_decide_eq_true. split; [|by intros ->]. intros Em. apply bit_index; lia || done.
  - rewrite byte_at_insert_ne by done. rewrite bool_decide_eq_false_2 by (intros ->; done). done.
Qed.

Lemma block_ok_set_bit d bi : block_ok d → 0 ≤ bi → block_ok (set_bit d bi).
Proof.
  intros [Hl Hb] Hbi. split; [unfold set_bit; by rewrite length_insert|].
  apply Forall_insert_byte; [done|]. apply lor_bit_byte; [by apply byte_at_ok|].
  by apply Z.mod_pos_bound.
Qed.

Lemma block_ok_clear_bit d bi : block_ok d → 0 ≤ bi → block_ok (clear_bit d bi).
Proof.
  intros [Hl Hb] Hbi. split; [unfold clear_bit; by rewrite length_insert|].
  apply Forall_insert_byte; [done|]. apply ldiff_byte; [by apply byte_at_ok|].
  rewrite Z.shiftl_1_l. apply Z.pow_nonneg. lia.
Qed.

(** *** Inodes in blocks *)

Definition is_short (z : Z) : Prop := - 2 ^ 15 ≤ z < 2 ^ 15.
Definition is_uint (z : Z) : Prop := 0 ≤ z < 2 ^ 32.

(** The fields of an inode fit their widths on the disk. *)
Record dinode_fits (x : dinode) : Prop := DinodeFits {
  fits_type : is_short (type x);
  fits_major : is_short (major x);
  fits_minor : is_short (minor x);
  fits_nlink : is_short (nlink x);
  fits_size : is_uint (size x);
  fits_length : length (addrs x) = (NDIRECT + 1)%nat;
  fits_addrs : Forall is_uint (addrs x);
}.

Lemma length_put_addrs l : ∀ o k d, length (put_addrs o k l d) = length d.
Proof. induction l as [|a l IH]; intros o k d; simpl; [done|]. by rewrite IH, length_put32. Qed.

Lemma length_dinode_put o x d : length (dinode_put o x d) = length d.
Proof. unfold dinode_put. by rewrite length_put_addrs, length_put32, !length_put16. Qed.

Lemma block_ok_put_addrs l : ∀ o k d, block_ok d → block_ok (put_addrs o k l d).
Proof. induction l as [|a l IH]; intros o k d Hd; simpl; [done|]. by apply IH, block_ok_put32. Qed.

Lemma block_ok_dinode_put o x d : block_ok d → block_ok (dinode_put o x d).
Proof. intros. unfold dinode_put. by apply block_ok_put_addrs, block_ok_put32; repeat apply block_ok_put16. Qed.

Lemma getu32_put_addrs_other l : ∀ o k d off,
  (off + 4 ≤ o + 12 + 4 * k ∨ o + 12 + 4 * (k + length l) ≤ off)%nat →
  getu32 (put_addrs o k l d) off = getu32 d off.
Proof.
  induction l as [|a l IH]; intros o k d off Hoff; simpl in *; [done|].
  rewrite IH by lia. apply getu32_put32_ne. lia.
Qed.

Lemma get16_put_addrs_other l : ∀ o k d off,
  (off + 2 ≤ o + 12 + 4 * k ∨ o + 12 + 4 * (k + length l) ≤ off)%nat →
  get16 (put_addrs o k l d) off = get16 d off.
Proof.
  induction l as [|a l IH]; intros o k d off Hoff; simpl in *; [done|].
  rewrite IH by lia. apply get16_put32_ne. lia.
Qed.

Lemma getu32_put_addrs l : ∀ o k d j a,
  (o + 12 + 4 * (k + length l) ≤ length d)%nat → Forall is_uint l → l !! j = Some a →
  getu32 (put_addrs o k l d) (o + 12 + 4 * (k + j)) = a.
Proof.
  induction l as [|b l IH]; intros o k d j a Hl HF Ha; [done|].
  apply Forall_cons in HF as [Hb HF]. cbn [length] in Hl. cbn [put_addrs].
  destruct j as [|j]; simpl in Ha.
  - injection Ha as ->. rewrite getu32_put_addrs_other by lia. rewrite Nat.add_0_r.
    apply getu32_put32_eq; [lia|done].
  - replace (k + S j)%nat with (S k + j)%nat by lia. apply IH; [rewrite length_put32; lia|done|done].
Qed.

Lemma dinode_get_put_eq o x d :
  dinode_fits x → (o + 64 ≤ length d)%nat → dinode_get (dinode_put o x d) o = x.
Proof.
  intros [Ht Hma Hmi Hn Hs Hl Ha] Hd. unfold dinode_get, dinode_put, NDIRECT in *.
  rewrite !get16_put_addrs_other, !get16_put32_ne by lia.
  rewrite get16_put16_ne, get16_put16_ne, get16_put16_ne, get16_put16_eq by (rewrite ?length_put16; lia).
  rewrite get16_put16_ne, get16_put16_ne, get16_put16_eq by (rewrite ?length_put16; lia).
  rewrite get16_put16_ne, get16_put16_eq by (rewrite ?length_put16; lia).
  rewrite get16_put16_eq by (rewrite ?length_put16; lia).
  rewrite !s16_mod, !s16_small by done.
  rewrite getu32_put_addrs_other, getu32_put32_eq by (rewrite ?length_put16; done || lia).
  destruct x as [t ma mi nl sz l]; cbn [type major minor nlink size addrs] in *. f_equal.
  apply list_eq. intros k. rewrite list_lookup_fmap. destruct (decide (k < 13)%nat) as [Hk|Hk].
  - rewrite lookup_seq_lt by done. cbn [fmap option_fmap option_map]. destruct (l !! k) as [a|] eqn:Ea.
    + f_equal. change (0 + k)%nat with k. rewrite <- (Nat.add_0_l k).
      apply getu32_put_addrs; [rewrite length_put32, !length_put16; lia|done|done].
    + apply lookup_ge_None_1 in Ea. lia.
  - rewrite lookup_seq_ge by lia. rewrite lookup_ge_None_2 by lia. done.
Qed.

Lemma dinode_get_put_ne o o' x d :
  length (addrs x) = (NDIRECT + 1)%nat → (o' + 64 ≤ o ∨ o + 64 ≤ o')%nat →
  dinode_get (dinode_put o x d) o' = dinode_get d o'.
Proof.
  intros Hl Ho. unfold dinode_get, dinode_put, NDIRECT in *.
  rewrite !get16_put_addrs_other, !get16_put32_ne, !get16_put16_ne by lia.
  rewrite getu32_put_addrs_other, getu32_put32_ne, !getu32_put16_ne by lia.
  f_equal. apply list_fmap_ext. intros i k Hk. apply lookup_seq in Hk as [-> Hk].
  rewrite getu32_put_addrs_other, getu32_put32_ne, !getu32_put16_ne by lia. done.
Qed.

Lemma get16_range d off : Forall is_byte d → 0 ≤ get16 d off < 2 ^ 16.
Proof.
  intros Hd. unfold get16. pose proof (byte_at_ok d off Hd) as [? ?].
  pose proof (byte_at_ok d (off + 1) Hd) as [? ?]. lia.
Qed.

Lemma s16_short z : is_short (s16 z).
Proof. unfold is_short, s16. pose proof (Z.mod_pos_bound (z + 2 ^ 15) (2 ^ 16)). lia. Qed.

Lemma dinode_get_fits d o : dinode_fits (dinode_get d o).
Proof.
  split; try apply s16_short; try apply getu32_range.
  - done.
  - unfold dinode_get. cbn [addrs]. apply Forall_fmap, Forall_forall. intros k _. apply getu32_range.
Qed.

(** ** The disk

    [ptr f x k] is the [k]-th block pointer of inode [x] when the blocks are [f]:
    the direct pointers, the pointer to the indirect block, and the pointers in
    that block.  [fidx n] is the number of the pointer to block [n] of the file. *)

Definition ptr (f : Z → block) (x : dinode) (k : nat) : Z :=
  if (k <=? NDIRECT)%nat then addr_at x k
  else if bool_decide (addr_at x NDIRECT = 0) then 0
  else getu32 (f (addr_at x NDIRECT)) (4 * (k - (NDIRECT + 1))).

Definition fidx (n : nat) : nat := if (n <? NDIRECT)%nat then n else S n.

Definition inode_no (x : superblock) (i : Z) : Prop := 1 ≤ i < sb_ninodes x.

(** The bit of block [b] in the bitmap is set. *)
Definition used (x : superblock) (f : Z → block) (b : Z) : Prop :=
  bit_of (f (BBLOCK b x)) (b mod BPB) = true.

#[global] Instance used_dec x f b : Decision (used x f b).
Proof. unfold used. apply _. Defined.

(** The superblock as [readsb] reads it from block 1. *)
Definition sb_of (d : block) : superblock :=
  Superblock (getu32 d 0) (getu32 d 4) (getu32 d 8) (getu32 d 12) (getu32 d 16) (getu32 d 20) (getu32 d 24).

(** The inode blocks, the bitmap and the data blocks, which begin at [ds], follow
    each other. *)
Record layout (x : superblock) (ds : Z) : Prop := Layout {
  lay_inodes : 2 ≤ sb_inodestart x;
  lay_ninodes : 1 < sb_ninodes x;
  lay_bmap : sb_inodestart x + (sb_ninodes x - 1) / IPB < sb_bmapstart x;
  lay_data : sb_bmapstart x + (sb_size x - 1) / BPB < ds;
  lay_size : 0 < ds < sb_size x;
  lay_int : sb_size x < 2 ^ 31;
}.

(** An inode is well formed: it has no holes, and a free inode has no blocks. *)
Record dinode_ok (f : Z → block) (x : dinode) : Prop := DinodeOk {
  dok_fits : dinode_fits x;
  dok_size : size x ≤ MAXFILE * BSZ;
  dok_holes : ∀ n, Z.of_nat n * BSZ < size x → ptr f x (fidx n) ≠ 0;
  dok_free : type x = 0 → ∀ k, ptr f x k = 0;
}.

(** The blocks [f] hold the inodes [V]: every block belongs to at most one inode,
    at one place in it, and the data blocks in use are those of the inodes and
    those in [F], which the running function has allocated or is about to free. *)
Record disk_inv (F : Z → Prop) (ds : Z) (x : superblock) (f : Z → block) (V : Z → dinode) : Prop := DiskInv {
  dv_layout : layout x ds;
  dv_sb : sb_of (f 1) = x;
  dv_blocks : ∀ b, block_ok (f b);
  dv_meta : ∀ b, 0 ≤ b < ds → used x f b;
  dv_used : ∀ b, ds ≤ b < sb_size x → used x f b ↔ F b ∨ ∃ i k, inode_no x i ∧ ptr f (V i) k = b;
  dv_range : ∀ i k, inode_no x i → ptr f (V i) k ≠ 0 → ds ≤ ptr f (V i) k < sb_size x;
  dv_flight : ∀ b, F b → ds ≤ b < sb_size x ∧ ∀ i k, inode_no x i → ptr f (V i) k ≠ b;
  dv_inj : ∀ i j k l, inode_no x i → inode_no x j → ptr f (V i) k ≠ 0 →
    ptr f (V i) k = ptr f (V j) l → i = j ∧ k = l;
  dv_ok : ∀ i, inode_no x i → dinode_ok f (V i);
}.

(** The inodes on the disk are those of [V], but for those in [D], which the
    running function has changed in memory only. *)
Definition disk_inode (x : superblock) (f : Z → block) (i : Z) : dinode :=
  dinode_get (f (IBLOCK i x)) (dislot i).

Definition synced (D : Z → Prop) (x : superblock) (f : Z → block) (V : Z → dinode) : Prop :=
  ∀ i, inode_no x i → ¬ D i → disk_inode x f i = V i.

(** The inode cache has at most one entry for an inode; a valid entry in use shows
    the inode, which is not free. *)
Definition entry_ok (D : Z → Prop) (x : superblock) (V : Z → dinode) (e : inode) : Prop :=
  0 < iref e → idev e = ROOTDEV ∧ inode_no x (inum e) ∧
    (valid e = true → ¬ D (inum e) → di e = V (inum e) ∧ type (di e) ≠ 0).

Record cache_inv (D : Z → Prop) (x : superblock) (c : list inode) (V : Z → dinode) : Prop := CacheInv {
  cv_refs : ∀ ip e, c !! ip = Some e → 0 ≤ iref e;
  cv_entry : ∀ ip e, c !! ip = Some e → entry_ok D x V e;
  cv_uniq : ∀ ip jp e e', c !! ip = Some e → c !! jp = Some e' → 0 < iref e → 0 < iref e' →
    inum e = inum e' → ip = jp;
}.

Record inv (D F : Z → Prop) (ds : Z) (s : fss) (V : Z → dinode) : Prop := Inv {
  inv_disk : disk_inv F ds (sb s) (blk s) V;
  inv_synced : synced D (sb s) (blk s) V;
  inv_cache : cache_inv D (sb s) (icache s) V;
}.

(** Nothing is in flight. *)
Definition none : Z → Prop := λ _, False.

(** *** Pointers *)

Lemma ptr_direct f x k : (k ≤ NDIRECT)%nat → ptr f x k = addr_at x k.
Proof. intros Hk. unfold ptr. by apply Nat.leb_le in Hk as ->. Qed.

Lemma ptr_indirect f x j : addr_at x NDIRECT ≠ 0 →
  ptr f x (NDIRECT + 1 + j) = getu32 (f (addr_at x NDIRECT)) (4 * j).
Proof.
  intros Hi. unfold ptr. destruct (Nat.leb_spec (NDIRECT + 1 + j) NDIRECT); [lia|].
  rewrite bool_decide_eq_false_2 by done. do 2 f_equal. lia.
Qed.

Lemma ptr_no_indirect f x k : (NDIRECT < k)%nat → addr_at x NDIRECT = 0 → ptr f x k = 0.
Proof.
  intros Hk Hi. unfold ptr. destruct (Nat.leb_spec k NDIRECT); [lia|].
  by rewrite bool_decide_eq_true_2.
Qed.

(** A pointer is direct, or in the indirect block. *)
Lemma ptr_cases k : (k ≤ NDIRECT)%nat ∨ ∃ j, k = (NDIRECT + 1 + j)%nat.
Proof. destruct (decide (k ≤ NDIRECT)%nat); [by left|]. right. exists (k - (NDIRECT + 1))%nat. lia. Qed.

Lemma ptr_ext f f' x k :
  (addr_at x NDIRECT ≠ 0 → f' (addr_at x NDIRECT) = f (addr_at x NDIRECT)) → ptr f' x k = ptr f x k.
Proof.
  intros Hf. unfold ptr. destruct (k <=? NDIRECT)%nat; [done|].
  case_bool_decide; [done|]. by rewrite Hf.
Qed.

Lemma ptr_addrs f x y k : addrs x = addrs y → ptr f x k = ptr f y k.
Proof. intros E. unfold ptr, addr_at. by rewrite E. Qed.

Lemma ptr_last f x k : block_ok (f (addr_at x NDIRECT)) → (NDIRECT + 1 + Z.to_nat NINDIRECT ≤ k)%nat → ptr f x k = 0.
Proof.
  intros [Hl _] Hk. unfold ptr. destruct (Nat.leb_spec k NDIRECT); [lia|].
  case_bool_decide; [done|]. apply getu32_beyond. rewrite Hl. unfold BSIZE, NDIRECT, NINDIRECT in *. lia.
Qed.

Lemma ptr_uint f x k : dinode_fits x → is_uint (ptr f x k).
Proof.
  intros Hx. unfold ptr. assert (Ha : ∀ j, is_uint (addr_at x j)).
  { intros j. unfold addr_at. destruct (addrs x !! j) eqn:E; simpl; [|unfold is_uint; lia].
    by eapply (Forall_lookup_1 is_uint); [apply fits_addrs|]. }
  destruct (k <=? NDIRECT)%nat; [done|]. case_bool_decide; [unfold is_uint; lia|]. apply getu32_range.
Qed.

(** *** Regions of the disk *)

Section Regions.

Context (x : superblock) (ds : Z) (Hx : layout x ds).

Lemma IBLOCK_region i : inode_no x i → sb_inodestart x ≤ IBLOCK i x < sb_bmapstart x.
Proof.
  intros Hi. destruct Hx. unfold inode_no, IBLOCK, IPB in *.
  assert (0 ≤ i / 8) by (apply Z.div_pos; lia).
  assert (i / 8 ≤ (sb_ninodes x - 1) / 8) by (apply Z.div_le_mono; lia). lia.
Qed.

Lemma BBLOCK_region b : 0 ≤ b < sb_size x → sb_bmapstart x ≤ BBLOCK b x < ds.
Proof.
  intros Hb. destruct Hx. unfold BBLOCK, BPB in *.
  assert (0 ≤ b / 4096) by (apply Z.div_pos; lia).
  assert (b / 4096 ≤ (sb_size x - 1) / 4096) by (apply Z.div_le_mono; lia). lia.
Qed.

Lemma bmap_region : 2 < sb_bmapstart x < ds.
Proof.
  destruct Hx. pose proof (BBLOCK_region 0).
  assert (0 ≤ (sb_ninodes x - 1) / IPB) by (apply Z.div_pos; unfold IPB; lia).
  assert (0 ≤ (sb_size x - 1) / BPB) by (apply Z.div_pos; unfold BPB; lia). lia.
Qed.

End Regions.

Lemma bit_place b c : 0 ≤ b → 0 ≤ c → b / BPB = c / BPB → b mod BPB = c mod BPB → b = c.
Proof.
  unfold BPB. intros Hb Hc E Em. rewrite (Z.div_mod b 4096), (Z.div_mod c 4096) by lia. congruence.
Qed.

(** The bitmap after a bit is set, and after it is cleared. *)
Lemma used_set x f b c : block_ok (f (BBLOCK b x)) → 0 ≤ b → 0 ≤ c →
  used x (<[BBLOCK b x := set_bit (f (BBLOCK b x)) (b mod BPB)]> f) c ↔ b = c ∨ used x f c.
Proof.
  intros [Hl _] Hb Hc. unfold used. pose proof (Z.mod_pos_bound b BPB eq_refl). pose proof (Z.mod_pos_bound c BPB eq_refl).
  destruct (decide (BBLOCK c x = BBLOCK b x)) as [E|E].
  - rewrite E, fn_lookup_insert, bit_of_set by (done || lia). rewrite orb_true_iff.
    rewrite bool_decide_eq_true. unfold BBLOCK in E. split; (intros [Em|]; [left|by right]).
    + apply bit_place; (done || lia).
    + by rewrite Em.
  - rewrite fn_lookup_insert_ne by done. split; [by right|]. intros [->|]; done.
Qed.

Lemma used_clear x f b c : block_ok (f (BBLOCK b x)) → 0 ≤ b → 0 ≤ c →
  used x (<[BBLOCK b x := clear_bit (f (BBLOCK b x)) (b mod BPB)]> f) c ↔ b ≠ c ∧ used x f c.
Proof.
  intros [Hl _] Hb Hc. unfold used. pose proof (Z.mod_pos_bound b BPB eq_refl). pose proof (Z.mod_pos_bound c BPB eq_refl).
  destruct (decide (BBLOCK c x = BBLOCK b x)) as [E|E].
  - rewrite E, fn_lookup_insert, bit_of_clear by (done || lia). rewrite andb_true_iff, negb_true_iff, bool_decide_eq_false.
    unfold BBLOCK in E. split; intros [Em ?]; (split; [|done]).
    + by intros ->.
    + intros Eq. apply Em. apply bit_place; (done || lia).
  - rewrite fn_lookup_insert_ne by done. split; [|by intros [_ ?]]. intros ?. split; [by intros ->|done].
Qed.

(** *** Changes of the disk that keep its invariant *)

Lemma dinode_ok_ext f f' x :
  dinode_ok f x → (∀ k, ptr f' x k = ptr f x k) → dinode_ok f' x.
Proof.
  intros [Hf Hs Hh H0] E. split; [done|done| |].
  - intros n Hn. rewrite E. by apply Hh.
  - intros Ht k. rewrite E. by apply H0.
Qed.

Section Changes.

Context (F : Z → Prop) (ds : Z) (x : superblock) (f f' : Z → block) (V V' : Z → dinode).
Context (Hv : disk_inv F ds x f V).
Context (Hblocks : ∀ b, block_ok (f' b)) (Hsb : f' 1 = f 1).

Lemma disk_used_owned i k : inode_no x i → ptr f (V i) k ≠ 0 → used x f (ptr f (V i) k).
Proof. intros Hi Hp. apply (dv_used _ _ _ _ _ Hv); [by eapply dv_range|]. right. by exists i, k. Qed.

Lemma disk_used_flight b : F b → used x f b.
Proof. intros Hb. apply (dv_used _ _ _ _ _ Hv); [by apply (dv_flight _ _ _ _ _ Hv)|]. by left. Qed.

(** The bitmap and the pointers stay the same. *)
Lemma disk_inv_same :
  (∀ b, 0 ≤ b < sb_size x → used x f' b ↔ used x f b) →
  (∀ j k, inode_no x j → ptr f' (V' j) k = ptr f (V j) k) →
  (∀ j, inode_no x j → dinode_ok f' (V' j)) →
  disk_inv F ds x f' V'.
Proof.
  intros Hu Hp Hok. pose proof (dv_layout _ _ _ _ _ Hv) as Hlay. destruct Hlay as [? ? ? ? [? ?] ?].
  split; [apply Hv|by rewrite Hsb; apply Hv|done|..].
  - intros b Hb. apply Hu; [lia|]. by eapply dv_meta.
  - intros b Hb. rewrite Hu, (dv_used _ _ _ _ _ Hv) by lia.
    split; (intros [?|(i & k & Hi & E)]; [by left|right; exists i, k; split; [done|]]).
    + by rewrite Hp.
    + by rewrite <- Hp.
  - intros i k Hi. rewrite Hp by done. by apply (dv_range _ _ _ _ _ Hv).
  - intros b Hb. split; [by apply (dv_flight _ _ _ _ _ Hv)|]. intros i k Hi. rewrite Hp by done.
    by apply (dv_flight _ _ _ _ _ Hv).
  - intros i j k l Hi Hj. rewrite !Hp by done. by apply (dv_inj _ _ _ _ _ Hv).
  - done.
Qed.

(** Block [a], which is in flight, becomes pointer [k0] of inode [i]. *)
Lemma disk_inv_assign i k0 a :
  inode_no x i → F a → ptr f (V i) k0 = 0 →
  (∀ b, 0 ≤ b < sb_size x → used x f' b ↔ used x f b) →
  (∀ j k, inode_no x j → ptr f' (V' j) k = if decide (j = i ∧ k = k0) then a else ptr f (V j) k) →
  (∀ j, inode_no x j → dinode_ok f' (V' j)) →
  disk_inv (λ b, F b ∧ b ≠ a) ds x f' V'.
Proof.
  intros Hi Ha H0 Hu Hp Hok. pose proof (dv_layout _ _ _ _ _ Hv) as Hlay. destruct Hlay as [? ? ? ? [? ?] ?].
  destruct (dv_flight _ _ _ _ _ Hv a Ha) as [Har Hafresh].
  split; [apply Hv|by rewrite Hsb; apply Hv|done|..].
  - intros b Hb. apply Hu; [lia|]. by eapply dv_meta.
  - intros b Hb. rewrite Hu, (dv_used _ _ _ _ _ Hv) by lia. split.
    + intros [Hb'|(j & k & Hj & E)].
      * destruct (decide (b = a)) as [->|]; [|by left]. right. exists i, k0. split; [done|].
        rewrite Hp by done. by rewrite decide_True.
      * right. exists j, k. split; [done|]. rewrite Hp by done. rewrite decide_False; [done|].
        intros [-> ->]. lia.
    + intros [[? ?]|(j & k & Hj & E)]; [by left|]. rewrite Hp in E by done.
      destruct (decide _) as [[-> ->]|]; [left; by subst|right; by exists j, k].
  - intros j k Hj. rewrite Hp by done. destruct (decide _); [done|]. by apply (dv_range _ _ _ _ _ Hv).
  - intros b [Hb Hne]. split; [by apply (dv_flight _ _ _ _ _ Hv)|]. intros j k Hj. rewrite Hp by done.
    destruct (decide _); [done|]. by apply (dv_flight _ _ _ _ _ Hv).
  - intros j j' k l Hj Hj'. rewrite !Hp by done. destruct (decide _) as [[-> ->]|], (decide _) as [[-> ->]|].
    + done.
    + intros _ E. by destruct (Hafresh j' l Hj').
    + intros _ E. by destruct (Hafresh j k Hj).
    + by apply (dv_inj _ _ _ _ _ Hv).
  - done.
Qed.

(** The pointers [P] of inode [i] are cleared; their blocks are now in flight. *)
Lemma disk_inv_remove i (P : nat → Prop) `{!∀ k, Decision (P k)} :
  inode_no x i →
  (∀ b, 0 ≤ b < sb_size x → used x f' b ↔ used x f b) →
  (∀ j k, inode_no x j → ptr f' (V' j) k = if decide (j = i ∧ P k) then 0 else ptr f (V j) k) →
  (∀ j, inode_no x j → dinode_ok f' (V' j)) →
  disk_inv (λ b, F b ∨ b ≠ 0 ∧ ∃ k, P k ∧ ptr f (V i) k = b) ds x f' V'.
Proof.
  intros Hi Hu Hp Hok. pose proof (dv_layout _ _ _ _ _ Hv) as Hlay. destruct Hlay as [? ? ? ? [? ?] ?].
  split; [apply Hv|by rewrite Hsb; apply Hv|done|..].
  - intros b Hb. apply Hu; [lia|]. by eapply dv_meta.
  - intros b Hb. rewrite Hu, (dv_used _ _ _ _ _ Hv) by lia. split.
    + intros [Hb'|(j & k & Hj & E)]; [by left; left|].
      destruct (decide (j = i ∧ P k)) as [[-> HP]|Hn].
      * left. right. split; [lia|]. by exists k.
      * right. exists j, k. split; [done|]. rewrite Hp by done. by rewrite decide_False.
    + intros [[?|(? & k & HP & E)]|(j & k & Hj & E)]; [by left|right; by exists i, k|].
      rewrite Hp in E by done. destruct (decide _); [lia|]. right. by exists j, k.
  - intros j k Hj. rewrite Hp by done. destruct (decide _); [done|]. by apply (dv_range _ _ _ _ _ Hv).
  - intros b [Hb|(Hb0 & k & HP & <-)].
    + split; [by apply (dv_flight _ _ _ _ _ Hv)|]. intros j k Hj. rewrite Hp by done.
      destruct (dv_flight _ _ _ _ _ Hv b Hb) as [? Hfresh]. destruct (decide _); [lia|by apply Hfresh].
    + split; [by apply (dv_range _ _ _ _ _ Hv)|]. intros j l Hj. rewrite Hp by done.
      destruct (decide _) as [|Hn]; [done|]. intros E. apply Hn.
      by destruct (dv_inj _ _ _ _ _ Hv i j k l Hi Hj Hb0 (eq_sym E)) as [-> ->].
  - intros j j' k l Hj Hj'. rewrite !Hp by done. destruct (decide _) as [|], (decide _) as [|]; [done..| |].
    + intros Hn E. by rewrite E in Hn.
    + by apply (dv_inj _ _ _ _ _ Hv).
  - done.
Qed.

(** A free data block is marked in the bitmap. *)
Lemma disk_inv_set b :
  ds ≤ b < sb_size x → ¬ used x f b →
  (∀ c, 0 ≤ c < sb_size x → used x f' c ↔ b = c ∨ used x f c) →
  (∀ j k, inode_no x j → ptr f' (V j) k = ptr f (V j) k) →
  disk_inv (λ c, c = b ∨ F c) ds x f' V.
Proof.
  intros Hb Hfree Hu Hp. pose proof (dv_layout _ _ _ _ _ Hv) as Hlay. destruct Hlay as [? ? ? ? [? ?] ?].
  split; [apply Hv|by rewrite Hsb; apply Hv|done|..].
  - intros c Hc. apply Hu; [lia|]. right. by eapply dv_meta.
  - intros c Hc. rewrite Hu, (dv_used _ _ _ _ _ Hv) by lia. split.
    + intros [->|[?|(i & k & Hi & E)]]; [by left; left|by left; right|].
      right. exists i, k. by rewrite Hp.
    + intros [[->|?]|(i & k & Hi & E)]; [by left|by right; left|].
      right. right. exists i, k. by rewrite <- Hp.
  - intros i k Hi. rewrite Hp by done. by apply (dv_range _ _ _ _ _ Hv).
  - intros c [->|Hc].
    + split; [done|]. intros i k Hi. rewrite Hp by done. intros <-. apply Hfree. apply disk_used_owned; [done|lia].
    + split; [by apply (dv_flight _ _ _ _ _ Hv)|]. intros i k Hi. rewrite Hp by done.
      by apply (dv_flight _ _ _ _ _ Hv).
  - intros i j k l Hi Hj. rewrite !Hp by done. by apply (dv_inj _ _ _ _ _ Hv).
  - intros i Hi. apply (dinode_ok_ext f); [by eapply dv_ok|]. intros k. by apply Hp.
Qed.

(** A block in flight is cleared in the bitmap. *)
Lemma disk_inv_clear b :
  F b →
  (∀ c, 0 ≤ c < sb_size x → used x f' c ↔ b ≠ c ∧ used x f c) →
  (∀ j k, inode_no x j → ptr f' (V j) k = ptr f (V j) k) →
  disk_inv (λ c, F c ∧ c ≠ b) ds x f' V.
Proof.
  intros Hb Hu Hp. pose proof (dv_layout _ _ _ _ _ Hv) as Hlay. destruct Hlay as [? ? ? ? [? ?] ?].
  destruct (dv_flight _ _ _ _ _ Hv b Hb) as [Hbr Hfresh].
  split; [apply Hv|by rewrite Hsb; apply Hv|done|..].
  - intros c Hc. apply Hu; [lia|]. split; [lia|]. by eapply dv_meta.
  - intros c Hc. rewrite Hu, (dv_used _ _ _ _ _ Hv) by lia. split.
    + intros [Hne [?|(i & k & Hi & E)]]; [by left|]. right. exists i, k. by rewrite Hp.
    + intros [[? ?]|(i & k & Hi & E)]; [by split; [|left]|]. rewrite Hp in E by done.
      split; [|right; by exists i, k]. intros ->. by destruct (Hfresh i k Hi).
  - intros i k Hi. rewrite Hp by done. by apply (dv_range _ _ _ _ _ Hv).
  - intros c [Hc Hne]. split; [by apply (dv_flight _ _ _ _ _ Hv)|]. intros i k Hi. rewrite Hp by done.
    by apply (dv_flight _ _ _ _ _ Hv).
  - intros i j k l Hi Hj. rewrite !Hp by done. by apply (dv_inj _ _ _ _ _ Hv).
  - intros i Hi. apply (dinode_ok_ext f); [by eapply dv_ok|]. intros k. by apply Hp.
Qed.

End Changes.

End FsInv.
