(* ===== verification/FsAlloc.v ===== *)
(** * Allocation of disk blocks

    [balloc] and [bfree] of [Fs] keep the invariant of the disk: [balloc] returns a
    zeroed block that no inode has, and stops the kernel only on a full disk. *)

From S2P Require Import Prelude Log Fs FsInv.

Module FsAlloc.

Import Fs FsInv.

(** ** Functions that may run out of resources *)

Definition disk_full (s : fss) : Prop := ∀ b, 0 ≤ b < sb_size (sb s) → used (sb s) (blk s) b.
Definition cache_full (s : fss) : Prop := ∀ ip e, icache s !! ip = Some e → iref e ≠ 0.
Definition inodes_full (s : fss) : Prop := ∀ i, inode_no (sb s) i → type (disk_inode (sb s) (blk s) i) ≠ 0.

(** The panics for want of blocks, of entries in the inode cache and of inodes,
    with the state in which they are due. *)
Definition exhausted (msg : string) (s : fss) : Prop :=
  (msg = "balloc: out of blocks"%string ∧ disk_full s) ∨
  (msg = "iget: no inodes"%string ∧ cache_full s) ∨
  (msg = "ialloc: no inodes"%string ∧ inodes_full s).

(** [wpf m Q s]: [m] returns from [s] with [Q], or panics because a resource is
    used up. *)
Definition wpf {A} (m : M fss A) (Q : A → fss → Prop) (s : fss) : Prop :=
  match m s with
  | Ok a s' => Q a s'
  | Panic msg s' => exhausted msg s'
  | _ => False
  end.

Lemma wpf_ret {A} (a : A) (Q : A → fss → Prop) s : Q a s → wpf (mret a) Q s.
Proof. done. Qed.

Lemma wpf_bind {A B} (m : M fss A) (g : A → M fss B) Q s :
  wpf m (λ a s', wpf (g a) Q s') s → wpf (m ≫= g) Q s.
Proof. unfold wpf, mbind, M_bind. by destruct (m s). Qed.

Lemma wpf_mono {A} (m : M fss A) (P Q : A → fss → Prop) s :
  wpf m P s → (∀ a s', P a s' → Q a s') → wpf m Q s.
Proof. unfold wpf. destruct (m s); auto. Qed.

Lemma wpf_eq {A} (m : M fss A) (Q : A → fss → Prop) s a s' : m s = Ok a s' → Q a s' → wpf m Q s.
Proof. intros E HQ. unfold wpf. by rewrite E. Qed.

Lemma wpf_wpt {A} (m : M fss A) (Q : A → fss → Prop) s : wpt m Q s → wpf m Q s.
Proof. unfold wpt, wpf. by destruct (m s). Qed.

Lemma wpf_step {A B} (m : M fss A) (g : A → M fss B) Q s a s' :
  m s = Ok a s' → wpf (g a) Q s' → wpf (m ≫= g) Q s.
Proof. intros E HQ. apply wpf_bind. by eapply wpf_eq. Qed.

(** ** [balloc] *)

Definition log_blk (b : Z) (x : block) (s : fss) : fss :=
  Fss (<[b := x]> (blk s)) (logged s ++ [b]) (sb s) (icache s).

Lemma log_write_eq b x s : log_write b x s = Ok tt (log_blk b x s).
Proof. done. Qed.

(** The state after block [c] is marked in use, and after it is zeroed. *)
Definition mark_blk (c : Z) (s : fss) : fss :=
  log_blk (BBLOCK c (sb s)) (set_bit (blk s (BBLOCK c (sb s))) (c mod BPB)) s.
Definition alloc_blk (c : Z) (s : fss) : fss := log_blk c (replicate BSIZE 0) (mark_blk c s).

Lemma balloc_scan_spec n : ∀ b bi size d,
  match balloc_scan n b bi size d with
  | Some r => bi ≤ r < bi + Z.of_nat n ∧ b + r < size ∧ bit_of d r = false ∧ ∀ q, bi ≤ q < r → bit_of d q = true
  | None => ∀ r, bi ≤ r < bi + Z.of_nat n → b + r < size → bit_of d r = true
  end.
Proof.
  induction n as [|n IH]; intros b bi size d; cbn [balloc_scan]; [lia|].
  case_bool_decide as Hs; [|intros; lia]. destruct (bit_of d bi) eqn:E; [|split_and!; (done || intros; lia)].
  specialize (IH b (bi + 1) size d). destruct (balloc_scan _ _ _ _ _).
  - destruct IH as (? & ? & ? & Hlow). split_and!; [lia..|done|].
    intros q Hq. destruct (decide (q = bi)) as [->|]; [done|]. apply Hlow. lia.
  - intros r Hr Hb. destruct (decide (r = bi)) as [->|]; [done|]. apply IH; lia.
Qed.

Lemma chunk_block q r : 0 ≤ r < BPB → (BPB * q + r) / BPB = q ∧ (BPB * q + r) mod BPB = r.
Proof.
  intros Hr. rewrite (Z.mul_comm BPB q). split.
  - rewrite Z.div_add_l by done. rewrite (Z.div_small r BPB Hr). lia.
  - rewrite Z.add_comm, Z_mod_plus_full. by apply Z.mod_small.
Qed.

(** [balloc] from block [lo] on: the outcome, with its state. *)
Definition balloc_outcome (lo : Z) (s : fss) (o : outcome fss Z) : Prop :=
  match o with
  | Ok c s' => lo ≤ c < sb_size (sb s) ∧ ¬ used (sb s) (blk s) c ∧ s' = alloc_blk c s ∧
               ∀ b, lo ≤ b < c → used (sb s) (blk s) b
  | Panic msg s' => msg = "balloc: out of blocks"%string ∧ s' = s ∧
                    ∀ c, lo ≤ c < sb_size (sb s) → used (sb s) (blk s) c
  | _ => False
  end.

Lemma balloc_loop_spec fuel : ∀ q s, 0 ≤ q → sb_size (sb s) ≤ BPB * (q + Z.of_nat fuel - 1) → (0 < fuel)%nat →
  balloc_outcome (BPB * q) s (balloc_loop fuel (BPB * q) s).
Proof.
  induction fuel as [|fuel IH]; intros q s Hq Hfuel Hpos; [lia|]. cbn [balloc_loop].
  unfold mbind at 1, M_bind at 1, get at 1.
  case_bool_decide as Hb; [|split_and!; [done..|intros; lia]].
  unfold mbind at 1, M_bind at 1, bread at 1, gets at 1.
  pose proof (balloc_scan_spec (Z.to_nat BPB) (BPB * q) 0 (sb_size (sb s)) (blk s (BBLOCK (BPB * q) (sb s)))) as Hscan.
  assert (Eq : BBLOCK (BPB * q) (sb s) = q + sb_bmapstart (sb s)).
  { unfold BBLOCK. by rewrite Z.mul_comm, Z.div_mul. }
  assert (Hused : ∀ c, BPB * q ≤ c < BPB * (q + 1) → bit_of (blk s (BBLOCK (BPB * q) (sb s))) (c - BPB * q) = true →
    used (sb s) (blk s) c).
  { intros c Hc Hbit. assert (Hr : 0 ≤ c - BPB * q < BPB) by lia. destruct (chunk_block q _ Hr) as [Ed Em].
    replace (BPB * q + (c - BPB * q)) with c in Ed, Em by lia.
    unfold used. rewrite Em. unfold BBLOCK. by rewrite Ed, <- Eq. }
  destruct (balloc_scan _ _ _ _ _) as [r|].
  - destruct Hscan as (Hr & Hsz & Hbit & Hlow). rewrite Z2Nat.id in Hr by done.
    destruct (chunk_block q r ltac:(lia)) as [Ed Em].
    assert (Ec : BBLOCK (BPB * q + r) (sb s) = BBLOCK (BPB * q) (sb s)).
    { rewrite Eq. unfold BBLOCK. by rewrite Ed. }
    split_and!; [unfold BPB in *; lia..| | |].
    + unfold used. rewrite Ec, Em. congruence.
    + unfold alloc_blk, mark_blk. by rewrite Ec, Em.
    + intros b' Hb'. apply Hused; [lia|]. apply Hlow. lia.
  - replace (BPB * q + BPB) with (BPB * (q + 1)) by lia.
    destruct fuel as [|fuel']; [unfold BPB in *; lia|].
    specialize (IH (q + 1) s ltac:(lia) ltac:(lia) ltac:(lia)).
    destruct (balloc_loop _ _ s) as [c s'|msg s'| |]; [| |done..]; simpl in IH |- *.
    + destruct IH as (? & ? & ? & Hlow). split_and!; [unfold BPB in *; lia..|done|done|].
      intros b' Hb'. destruct (decide (BPB * (q + 1) ≤ b')); [apply Hlow; lia|].
      apply Hused; [lia|]. apply Hscan; [rewrite Z2Nat.id by done; lia|lia].
    + destruct IH as (? & ? & Hall). split_and!; [done..|].
      intros c Hc. destruct (decide (BPB * (q + 1) ≤ c)); [apply Hall; lia|].
      apply Hused; [lia|]. apply Hscan; [rewrite Z2Nat.id by done; lia|lia].
Qed.

Lemma balloc_cases s : 0 < sb_size (sb s) → balloc_outcome 0 s (balloc s).
Proof.
  intros Hs. unfold balloc. unfold mbind at 1, M_bind at 1, get at 1.
  assert (0 ≤ sb_size (sb s) / BPB) by (apply Z.div_pos; unfold BPB; lia).
  pose proof (Z.mod_pos_bound (sb_size (sb s)) BPB eq_refl).
  pose proof (Z.div_mod (sb_size (sb s)) BPB ltac:(unfold BPB; lia)).
  apply (balloc_loop_spec _ 0); unfold BPB in *; lia.
Qed.

(** *** The invariant *)

(** The blocks before the bitmap and the data blocks that are not in [P] are the
    same, and so are the superblock and the inode cache. *)
Definition same_but (P : Z → Prop) (ds : Z) (s s' : fss) : Prop :=
  sb s' = sb s ∧ icache s' = icache s ∧
  ∀ b, b < sb_bmapstart (sb s) ∨ ds ≤ b → ¬ P b → blk s' b = blk s b.

Lemma synced_ext D x f f' V :
  synced D x f V → (∀ i, inode_no x i → f' (IBLOCK i x) = f (IBLOCK i x)) → synced D x f' V.
Proof. intros Hs Hf i Hi HD. unfold disk_inode. rewrite Hf by done. by apply Hs. Qed.

(** A change of one block keeps the other blocks well formed. *)
Lemma blocks_ok_insert (f : Z → block) b d :
  (∀ c, block_ok (f c)) → block_ok d → ∀ c, block_ok (<[b := d]> f c).
Proof.
  intros Hf Hd c. destruct (decide (c = b)) as [->|]; [by rewrite fn_lookup_insert|].
  by rewrite fn_lookup_insert_ne.
Qed.

Section Alloc.

Context (D F : Z → Prop) (ds : Z) (s : fss) (V : Z → dinode).
Context (Hv : inv D F ds s V).

Abbreviation x := (sb s).
Abbreviation f := (blk s).

Lemma alloc_layout : layout x ds.
Proof. apply Hv. Qed.

(** The indirect block of an inode is a data block in use. *)
Lemma indirect_range i : inode_no x i → addr_at (V i) NDIRECT ≠ 0 →
  ds ≤ addr_at (V i) NDIRECT < sb_size x ∧ used x f (addr_at (V i) NDIRECT).
Proof.
  intros Hi H0. rewrite <- (ptr_direct f) in H0 |- * by lia.
  pose proof (inv_disk _ _ _ _ _ Hv) as Hd. split; [by eapply dv_range|by eapply disk_used_owned].
Qed.

Lemma alloc_blk_inv c :
  0 ≤ c < sb_size x → ¬ used x f c →
  ds ≤ c < sb_size x ∧ inv D (λ b, b = c ∨ F b) ds (alloc_blk c s) V ∧ same_but (λ b, b = c) ds s (alloc_blk c s).
Proof.
  intros Hc Hfree. pose proof (inv_disk _ _ _ _ _ Hv) as Hd. pose proof alloc_layout as Hlay.
  assert (Hcd : ds ≤ c < sb_size x).
  { split; [|lia]. destruct (decide (ds ≤ c)); [done|]. destruct Hfree. eapply dv_meta; [done|lia]. }
  pose proof (BBLOCK_region _ _ Hlay c ltac:(lia)) as Hbb. pose proof (bmap_region _ _ Hlay).
  assert (Hblk : ∀ b, b < sb_bmapstart x ∨ ds ≤ b → b ≠ c → blk (alloc_blk c s) b = f b).
  { intros b Hb Hne. simpl. rewrite !fn_lookup_insert_ne by lia. done. }
  split; [done|]. split; [|done].
  split; change (sb (alloc_blk c s)) with x; [|by eapply synced_ext; [apply Hv|]; intros i Hi; apply Hblk;
    pose proof (IBLOCK_region _ _ Hlay i Hi); lia|apply Hv].
  eapply disk_inv_set; [exact Hd| | |exact Hcd|done| |].
  - simpl. repeat apply blocks_ok_insert; [apply Hd|apply block_ok_set_bit; [apply Hd|]|apply block_ok_zero].
    by apply Z.mod_pos_bound.
  - apply Hblk; lia.
  - intros b Hb. pose proof (BBLOCK_region _ _ Hlay b Hb).
    rewrite <- (used_set x f c b); [|apply Hd|lia|lia]. unfold used. simpl.
    by rewrite fn_lookup_insert_ne by lia.
  - intros j k Hj. apply ptr_ext. intros H0. destruct (indirect_range j Hj H0) as [? Hu].
    apply Hblk; [by right; lia|]. intros E. by rewrite E in Hu.
Qed.

(** [balloc] returns a block that was free, zeroed and now in flight. *)
Lemma balloc_spec :
  wpf balloc (λ c s', ds ≤ c < sb_size x ∧ ¬ F c ∧ inv D (λ b, b = c ∨ F b) ds s' V ∧
                      same_but (λ b, b = c) ds s s' ∧ blk s' c = replicate BSIZE 0) s.
Proof.
  pose proof alloc_layout as Hlay. destruct Hlay as [? ? ? ? [? ?] ?].
  pose proof (balloc_cases s ltac:(lia)) as Hb. unfold wpf.
  destruct (balloc s) as [c s'|msg s'| |]; [| |done..]; simpl in Hb.
  - destruct Hb as (Hc & Hfree & -> & _). destruct (alloc_blk_inv c Hc Hfree) as (? & ? & ?).
    split_and!; try done.
    + lia.
    + lia.
    + intros HF. apply Hfree. eapply disk_used_flight; [apply Hv|done].
    + simpl. apply fn_lookup_insert.
  - destruct Hb as (-> & -> & Hall). by left.
Qed.

Lemma readsb_eq : readsb s = Ok x s.
Proof. unfold readsb. mred. f_equal. exact (dv_sb _ _ _ _ _ (inv_disk _ _ _ _ _ Hv)). Qed.

(** [bfree] of a block in flight clears its bit. *)
Lemma bfree_spec b :
  F b → wpt (bfree b) (λ _ s', inv D (λ c, F c ∧ c ≠ b) ds s' V ∧ same_but none ds s s') s.
Proof.
  intros HF. pose proof (inv_disk _ _ _ _ _ Hv) as Hd. pose proof alloc_layout as Hlay.
  destruct (dv_flight _ _ _ _ _ Hd b HF) as [Hb _].
  pose proof (bmap_region _ _ Hlay). pose proof (BBLOCK_region _ _ Hlay b ltac:(lia)) as Hbb.
  assert (Hu : used x f b) by (eapply disk_used_flight; [exact Hd|done]).
  unfold bfree. apply wpt_bind. eapply wpt_eq; [apply readsb_eq|].
  assert (Es : set_sb x s = s) by (by destruct s). unfold wpt. mred. rewrite Es. rewrite Hu. simpl.
  assert (Hblk : ∀ c, c < sb_bmapstart x ∨ ds ≤ c →
    (<[BBLOCK b x := clear_bit (f (BBLOCK b x)) (b mod BPB)]> f) c = f c).
  { intros c Hc. apply fn_lookup_insert_ne. lia. }
  split; [|by split_and!; [..|intros c Hc _; apply Hblk]].
  split; simpl; [|by eapply synced_ext; [apply Hv|]; intros i Hi; apply Hblk;
    pose proof (IBLOCK_region _ _ Hlay i Hi); lia|apply Hv].
  eapply disk_inv_clear; [exact Hd| | |done| |].
  - apply blocks_ok_insert; [apply Hd|]. apply block_ok_clear_bit; [apply Hd|]. by apply Z.mod_pos_bound.
  - apply Hblk. lia.
  - intros c Hc. apply used_clear; [apply Hd|lia|lia].
  - intros j k Hj. apply ptr_ext. intros H0. destruct (indirect_range j Hj H0) as [? _]. apply Hblk. lia.
Qed.

End Alloc.

End FsAlloc.
