(* ===== verification/FsFile.v ===== *)
(** * The contents of files

    The blocks [bmap] adds to an inode, the contents of a file as a list of bytes,
    and [readi], which returns a part of that list. *)

From S2P Require Import Prelude Log Fs FsInv FsAlloc.

Module FsFile.

Import Fs FsInv FsAlloc.

(** ** Weakening *)

Lemma disk_inv_F F F' ds x f V :
  disk_inv F ds x f V → (∀ b, F b ↔ F' b) → disk_inv F' ds x f V.
Proof.
  intros [Hl Hs Hb Hm Hu Hr Hf Hi Ho] E. split; [done..| |done| |done|done].
  - intros b Hb'. by rewrite Hu, E.
  - intros b HF. by apply Hf, E.
Qed.

Lemma inv_F D F F' ds s V : inv D F ds s V → (∀ b, F b ↔ F' b) → inv D F' ds s V.
Proof. intros [Hd Hs Hc] E. split; [by eapply disk_inv_F|done|done]. Qed.

Lemma inv_D (D D' : Z → Prop) F ds s V : inv D F ds s V → (∀ i, D i → D' i) → inv D' F ds s V.
Proof.
  intros [Hd Hs [Hr He Hu]] HD. split; [done| |split; [done| |done]].
  - intros i Hi Hn. apply Hs; auto.
  - intros ip e Hip Href. destruct (He ip e Hip Href) as (? & ? & Hv). split_and!; auto.
Qed.

(** ** Entries of the cache *)

Lemma alter_insert {A} (g : A → A) ip (l : list A) e : l !! ip = Some e → alter g ip l = <[ip := g e]> l.
Proof. apply upd_insert. Qed.

Lemma iset_eq ip g s e :
  icache s !! ip = Some e → iset ip g s = Ok tt (set_icache (<[ip := g e]> (icache s)) s).
Proof. intros He. unfold iset, modify. by rewrite (alter_insert _ _ _ _ He). Qed.

Lemma iget_at_eq ip s e : icache s !! ip = Some e → iget_at ip s = Ok e s.
Proof. intros He. unfold iget_at. by rewrite He. Qed.

(** The entry of a dirty inode changes, in its copy of the inode only. *)
Lemma cache_inv_dirty D x c V V' ip e y :
  cache_inv D x c V → c !! ip = Some e → D (inum e) → (∀ j, j ≠ inum e → V' j = V j) →
  cache_inv D x (<[ip := set_di y e]> c) V'.
Proof.
  intros [Hr He Hu] Hip HD HV.
  assert (Hl : ∀ jp e', <[ip := set_di y e]> c !! jp = Some e' →
    ∃ e0, c !! jp = Some e0 ∧ iref e' = iref e0 ∧ idev e' = idev e0 ∧ inum e' = inum e0 ∧
          (e' = e0 ∨ inum e0 = inum e)).
  { intros jp e' Hj. apply list_lookup_insert_Some in Hj as [(-> & <- & _)|[_ Hj]].
    - exists e. by split_and!; [..|right].
    - exists e'. by split_and!; [..|left]. }
  split.
  - intros jp e' Hj. destruct (Hl _ _ Hj) as (e0 & H0 & -> & _). by eapply Hr.
  - intros jp e' Hj Href. destruct (Hl _ _ Hj) as (e0 & H0 & E1 & E2 & E3 & Hor).
    rewrite E1 in Href. destruct (He jp e0 H0 Href) as (? & ? & Hval).
    split_and!; [congruence|congruence|]. intros Hv HnD. destruct Hor as [->|Ei].
    + assert (inum e0 ≠ inum e) by (intros E; by rewrite E in HnD). rewrite HV by done. by apply Hval.
    + by rewrite E3, Ei in HnD.
  - intros jp jp' e1 e2 H1 H2. destruct (Hl _ _ H1) as (a & Ha & -> & _ & -> & _).
    destruct (Hl _ _ H2) as (b & Hb & -> & _ & -> & _). by eapply Hu.
Qed.

(** ** Inodes that grow

    Inode [i] gets blocks; its old blocks, the other inodes and the data do not
    change. *)
Record grows (i : Z) (s : fss) (V : Z → dinode) (s' : fss) (V' : Z → dinode) : Prop := Grows {
  gr_sb : sb s' = sb s;
  gr_others : ∀ j, j ≠ i → V' j = V j;
  gr_type : type (V' i) = type (V i);
  gr_major : major (V' i) = major (V i);
  gr_minor : minor (V' i) = minor (V i);
  gr_nlink : nlink (V' i) = nlink (V i);
  gr_size : size (V' i) = size (V i);
  gr_ptrs : ∀ j k, inode_no (sb s) j → ptr (blk s) (V j) k ≠ 0 → ptr (blk s') (V' j) k = ptr (blk s) (V j) k;
  gr_other_ptrs : ∀ j k, inode_no (sb s) j → j ≠ i → ptr (blk s') (V' j) k = ptr (blk s) (V j) k;
  gr_data : ∀ j k, inode_no (sb s) j → k ≠ NDIRECT → ptr (blk s) (V j) k ≠ 0 →
    blk s' (ptr (blk s) (V j) k) = blk s (ptr (blk s) (V j) k);
  gr_inodes : ∀ j, inode_no (sb s) j → blk s' (IBLOCK j (sb s)) = blk s (IBLOCK j (sb s));
}.

Lemma grows_refl i s V : grows i s V s V.
Proof. by split. Qed.

Lemma grows_trans i s1 V1 s2 V2 s3 V3 :
  grows i s1 V1 s2 V2 → grows i s2 V2 s3 V3 → grows i s1 V1 s3 V3.
Proof.
  intros H1 H2. pose proof (gr_sb _ _ _ _ _ H1) as Esb. split.
  - rewrite (gr_sb _ _ _ _ _ H2). apply H1.
  - intros j Hj. rewrite (gr_others _ _ _ _ _ H2) by done. by apply H1.
  - rewrite (gr_type _ _ _ _ _ H2). apply H1.
  - rewrite (gr_major _ _ _ _ _ H2). apply H1.
  - rewrite (gr_minor _ _ _ _ _ H2). apply H1.
  - rewrite (gr_nlink _ _ _ _ _ H2). apply H1.
  - rewrite (gr_size _ _ _ _ _ H2). apply H1.
  - intros j k Hj H0. pose proof (gr_ptrs _ _ _ _ _ H1 j k Hj H0) as E. rewrite <- E.
    apply (gr_ptrs _ _ _ _ _ H2); [by rewrite Esb|by rewrite E].
  - intros j k Hj Hne. rewrite (gr_other_ptrs _ _ _ _ _ H2) by (done || by rewrite Esb).
    by apply (gr_other_ptrs _ _ _ _ _ H1).
  - intros j k Hj Hk H0. pose proof (gr_ptrs _ _ _ _ _ H1 j k Hj H0) as E.
    rewrite <- (gr_data _ _ _ _ _ H1) by done. rewrite <- E.
    apply (gr_data _ _ _ _ _ H2); [by rewrite Esb|done|by rewrite E].
  - intros j Hj. rewrite <- (gr_inodes _ _ _ _ _ H1) by done. rewrite <- Esb in Hj |- *. by apply (gr_inodes _ _ _ _ _ H2).
Qed.

(** A change of data blocks outside the inodes keeps the pointers. *)
Lemma grows_same_but P ds D F i s s' V :
  inv D F ds s V → same_but P ds s s' → (∀ b, P b → ds ≤ b) →
  (∀ j k, inode_no (sb s) j → ptr (blk s) (V j) k ≠ 0 → ¬ P (ptr (blk s) (V j) k)) →
  grows i s V s' V.
Proof.
  intros Hv (Esb & Ec & Hb) HPd HP. pose proof (inv_disk _ _ _ _ _ Hv) as Hd.
  assert (Hdata : ∀ j k, inode_no (sb s) j → ptr (blk s) (V j) k ≠ 0 →
    blk s' (ptr (blk s) (V j) k) = blk s (ptr (blk s) (V j) k)).
  { intros j k Hj H0. apply Hb; [right; by eapply dv_range|by apply HP]. }
  assert (Hptr : ∀ j k, inode_no (sb s) j → ptr (blk s') (V j) k = ptr (blk s) (V j) k).
  { intros j k Hj. apply ptr_ext. intros H0. rewrite <- (ptr_direct (blk s)) in H0 |- * by lia. by apply Hdata. }
  split; try done; auto. intros j Hj. pose proof (dv_layout _ _ _ _ _ Hd) as Hlay.
  pose proof (IBLOCK_region _ _ Hlay j Hj). pose proof (bmap_region _ _ Hlay).
  apply Hb; [by left; lia|]. intros HPb. apply HPd in HPb. lia.
Qed.

(** ** Blocks added to an inode *)

(** Entry [ip] of the cache is inode [i], with the fields of [V i]. *)
Record cached (s : fss) (V : Z → dinode) (ip : nat) (i : Z) (e : inode) : Prop := Cached {
  ca_entry : icache s !! ip = Some e;
  ca_inum : inum e = i;
  ca_ref : 0 < iref e;
  ca_valid : valid e = true;
  ca_di : di e = V i;
  ca_type : type (V i) ≠ 0;
}.

Lemma cached_no D F ds s V ip i e : inv D F ds s V → cached s V ip i e → inode_no (sb s) i.
Proof.
  intros Hv Hc. rewrite <- (ca_inum _ _ _ _ _ Hc).
  by apply (cv_entry _ _ _ _ (inv_cache _ _ _ _ _ Hv) ip e); apply Hc.
Qed.

Lemma addr_at_set x k c l : (k < length (addrs x))%nat →
  addr_at (set_addr k c x) l = if decide (l = k) then c else addr_at x l.
Proof.
  intros Hk. unfold addr_at, set_addr. cbn [addrs]. destruct (decide (l = k)) as [->|].
  - by rewrite list_lookup_insert_eq.
  - by rewrite list_lookup_insert_ne.
Qed.

Lemma ptr_set_addr f x k c l :
  length (addrs x) = (NDIRECT + 1)%nat → (k ≤ NDIRECT)%nat → ptr f x k = 0 → (k = NDIRECT → f c = replicate BSIZE 0) →
  ptr f (set_addr k c x) l = if decide (l = k) then c else ptr f x l.
Proof.
  intros Hl Hk H0 Hz. unfold NDIRECT in *. destruct (ptr_cases l) as [Hle|[j ->]].
  - rewrite !ptr_direct by done. apply addr_at_set. lia.
  - unfold NDIRECT in *. rewrite (decide_False (P := _ = k)) by lia. unfold ptr, NDIRECT.
    destruct (Nat.leb_spec (12 + 1 + j) 12); [lia|]. rewrite addr_at_set by lia.
    destruct (decide (12%nat = k)) as [<-|]; [|done].
    rewrite ptr_direct in H0 by done. rewrite (bool_decide_eq_true_2 (addr_at x 12 = 0)) by done.
    case_bool_decide; [done|]. rewrite Hz by done. apply getu32_zero.
Qed.

Lemma set_addr_fits x k c : dinode_fits x → is_uint c → dinode_fits (set_addr k c x).
Proof.
  intros [] Hc. split; try done; unfold set_addr; cbn [addrs].
  - by rewrite length_insert.
  - by apply Forall_insert.
Qed.

Lemma fn_insert_other (V : Z → dinode) i y j : j ≠ i → <[i := y]> V j = V j.
Proof. intros. by apply fn_lookup_insert_ne. Qed.

Section Assign.

Context (D F : Z → Prop) (ds : Z) (s : fss) (V : Z → dinode) (ip : nat) (i : Z) (e : inode) (c : Z).
Context (Hv : inv D (λ b, b = c ∨ F b) ds s V) (HD : D i) (HF : ¬ F c).
Context (Hc : cached s V ip i e).

Lemma flight_range : ds ≤ c < sb_size (sb s) ∧ is_uint c ∧ c ≠ 0.
Proof.
  destruct (dv_flight _ _ _ _ _ (inv_disk _ _ _ _ _ Hv) c ltac:(by left)) as [Hr _].
  destruct (dv_layout _ _ _ _ _ (inv_disk _ _ _ _ _ Hv)) as [? ? ? ? [? ?] ?]. unfold is_uint. lia.
Qed.

Lemma flight_rest b : (b = c ∨ F b) ∧ b ≠ c ↔ F b.
Proof. split; [by intros [[->|] ?]|]. intros Hb. split; [by right|]. by intros ->. Qed.

(** Block [c] becomes pointer [k] of the inode itself. *)
Lemma assign_addr k :
  (k ≤ NDIRECT)%nat → ptr (blk s) (V i) k = 0 → (k = NDIRECT → blk s c = replicate BSIZE 0) →
  let e' := set_di (set_addr k c (V i)) e in
  let s' := set_icache (<[ip := e']> (icache s)) s in
  let V' := <[i := set_addr k c (V i)]> V in
  inv D F ds s' V' ∧ grows i s V s' V' ∧ cached s' V' ip i e' ∧
  ∀ l, ptr (blk s') (V' i) l = if decide (l = k) then c else ptr (blk s) (V i) l.
Proof.
  intros Hk H0 Hz e' s' V'. pose proof (cached_no _ _ _ _ _ _ _ _ Hv Hc) as Hi.
  destruct flight_range as (Hcr & Hcu & Hc0).
  pose proof (inv_disk _ _ _ _ _ Hv) as Hd. pose proof (dv_ok _ _ _ _ _ Hd i Hi) as Hok.
  pose proof (fits_length _ (dok_fits _ _ Hok)) as Hlen.
  assert (EV : V' i = set_addr k c (V i)) by apply fn_lookup_insert.
  assert (HV : ∀ j, j ≠ i → V' j = V j) by apply fn_insert_other.
  assert (Hp : ∀ j l, ptr (blk s) (V' j) l = if decide (j = i ∧ l = k) then c else ptr (blk s) (V j) l).
  { intros j l. destruct (decide (j = i)) as [->|Hne].
    - rewrite EV, ptr_set_addr by done. destruct (decide (l = k)); [by rewrite decide_True|by rewrite decide_False by naive_solver].
    - rewrite HV, decide_False by naive_solver. done. }
  assert (Hpk : ∀ j l, ptr (blk s) (V j) l ≠ 0 → ptr (blk s) (V' j) l = ptr (blk s) (V j) l).
  { intros j l Hn. rewrite Hp. apply decide_False. by intros [-> ->]. }
  split_and!.
  - split; change (sb s') with (sb s); change (blk s') with (blk s).
    + eapply disk_inv_F; [|apply flight_rest].
      eapply disk_inv_assign with (i := i) (k0 := k); [exact Hd|apply Hd|done|done|by left|done|done|by intros; apply Hp|].
      intros j Hj. destruct (decide (j = i)) as [->|]; [|rewrite HV by done; by eapply dv_ok].
      destruct Hok as [Hfit Hsz Hh Hfr]. rewrite EV. split; [by apply set_addr_fits|done| |by intros E; destruct (ca_type _ _ _ _ _ Hc)].
      intros n Hn. rewrite <- EV, Hpk by by apply Hh. by apply Hh.
    + intros j Hj HnD. rewrite HV by (intros ->; done). by apply Hv.
    + simpl. eapply cache_inv_dirty; [apply Hv|apply Hc|by rewrite (ca_inum _ _ _ _ _ Hc)|].
      rewrite (ca_inum _ _ _ _ _ Hc). done.
  - split; try (by rewrite EV); try done.
    + intros j l _. apply Hpk.
    + intros j l _ Hne. by rewrite HV.
  - destruct Hc as [He Hin Hr Hva Hdi Hty]. split; rewrite ?EV; try done.
    simpl. apply list_lookup_insert_eq. by eapply lookup_lt_Some.
  - intros l. simpl. rewrite Hp. apply decide_ext. naive_solver.
Qed.

(** Block [c] becomes entry [j] of the indirect block. *)
Lemma assign_indirect j :
  (j < Z.to_nat NINDIRECT)%nat → addr_at (V i) NDIRECT ≠ 0 → ptr (blk s) (V i) (NDIRECT + 1 + j) = 0 →
  let s' := log_blk (addr_at (V i) NDIRECT) (put32 (4 * j) c (blk s (addr_at (V i) NDIRECT))) s in
  inv D F ds s' V ∧ grows i s V s' V ∧ cached s' V ip i e ∧
  ∀ l, ptr (blk s') (V i) l = if decide (l = NDIRECT + 1 + j)%nat then c else ptr (blk s) (V i) l.
Proof.
  intros Hj Hind H0 s'. pose proof (cached_no _ _ _ _ _ _ _ _ Hv Hc) as Hi.
  destruct flight_range as (Hcr & Hcu & Hc0).
  pose proof (inv_disk _ _ _ _ _ Hv) as Hd. pose proof (dv_layout _ _ _ _ _ Hd) as Hlay.
  destruct (indirect_range _ _ _ _ _ Hv i Hi Hind) as [Hir _]. set (ind := addr_at (V i) NDIRECT) in *.
  assert (Hlen : length (blk s ind) = BSIZE) by apply Hd.
  assert (Hblk : ∀ b, b ≠ ind → blk s' b = blk s b) by (intros; by apply fn_lookup_insert_ne).
  assert (Hpi : ptr (blk s) (V i) NDIRECT = ind) by by apply ptr_direct.
  assert (Hown : ∀ j' l, inode_no (sb s) j' → ptr (blk s) (V j') l = ind → j' = i ∧ l = NDIRECT).
  { intros j' l Hj' E. destruct (dv_inj _ _ _ _ _ Hd i j' NDIRECT l Hi Hj') as [-> ->]; [by rewrite Hpi|by rewrite Hpi, E|done]. }
  assert (Hp : ∀ j' l, inode_no (sb s) j' → ptr (blk s') (V j') l = if decide (j' = i ∧ l = (NDIRECT + 1 + j)%nat) then c else ptr (blk s) (V j') l).
  { intros j' l Hj'. destruct (decide (j' = i)) as [->|Hne].
    - destruct (ptr_cases l) as [Hle|[m ->]].
      + rewrite !ptr_direct by done. rewrite decide_False by lia. done.
      + rewrite !ptr_indirect by done. fold ind. change (blk s' ind) with ((<[ind := put32 (4 * j) c (blk s ind)]> (blk s)) ind).
        rewrite fn_lookup_insert. destruct (decide (m = j)) as [->|].
        * rewrite decide_True by done. apply getu32_put32_eq; [rewrite Hlen; unfold BSIZE, NINDIRECT in *; lia|done].
        * rewrite decide_False by lia. apply getu32_put32_ne. lia.
    - rewrite decide_False by naive_solver. apply ptr_ext. intros H1. apply Hblk. intros E.
      rewrite <- (ptr_direct (blk s)) in E by done. by destruct (Hown j' NDIRECT Hj' E). }
  assert (Hpk : ∀ j' l, inode_no (sb s) j' → ptr (blk s) (V j') l ≠ 0 → ptr (blk s') (V j') l = ptr (blk s) (V j') l).
  { intros j' l Hj' Hn. rewrite Hp by done. apply decide_False. by intros [-> ->]. }
  pose proof (bmap_region _ _ Hlay).
  split_and!.
  - split; change (sb s') with (sb s); [|eapply synced_ext; [apply Hv|]; intros j' Hj'; apply Hblk;
      pose proof (IBLOCK_region _ _ Hlay j' Hj'); lia|apply Hv].
    eapply disk_inv_F; [|apply flight_rest].
    eapply disk_inv_assign with (i := i) (k0 := (NDIRECT + 1 + j)%nat); [exact Hd| | |done|by left|done| |exact Hp|].
    + apply blocks_ok_insert; [apply Hd|]. apply block_ok_put32, Hd.
    + apply Hblk. lia.
    + intros b Hb. unfold used. rewrite Hblk; [done|]. pose proof (BBLOCK_region _ _ Hlay b Hb). lia.
    + intros j' Hj'. destruct (dv_ok _ _ _ _ _ Hd j' Hj') as [Hfit Hsz Hh Hfr]. split; [done|done| |].
      * intros n Hn. rewrite Hpk; [by apply Hh|done|by apply Hh].
      * intros Ht k. rewrite Hp, decide_False by (done || intros [-> ->]; by destruct (ca_type _ _ _ _ _ Hc)). by apply Hfr.
  - split; try done.
    + intros j' l Hj' Hne. rewrite Hp by done. apply decide_False. naive_solver.
    + intros j' l Hj' Hl Hn. apply Hblk. intros E. by destruct (Hown j' l Hj' E).
    + intros j' Hj'. apply Hblk. pose proof (IBLOCK_region _ _ Hlay j' Hj'). lia.
  - by destruct Hc.
  - intros l. rewrite Hp by done. apply decide_ext. naive_solver.
Qed.

End Assign.

(** ** [bmap] *)

Lemma fidx_range n : (fidx n ≠ NDIRECT)%nat.
Proof. unfold fidx. destruct (Nat.ltb_spec n NDIRECT); lia. Qed.

Lemma fidx_inj n m : fidx n = fidx m → n = m.
Proof. unfold fidx. destruct (Nat.ltb_spec n NDIRECT), (Nat.ltb_spec m NDIRECT); lia. Qed.

Lemma fidx_direct bn : 0 ≤ bn < Z.of_nat NDIRECT → fidx (Z.to_nat bn) = Z.to_nat bn.
Proof. intros. unfold fidx. destruct (Nat.ltb_spec (Z.to_nat bn) NDIRECT); lia. Qed.

Lemma fidx_indirect bn : Z.of_nat NDIRECT ≤ bn →
  fidx (Z.to_nat bn) = (NDIRECT + 1 + Z.to_nat (bn - Z.of_nat NDIRECT))%nat.
Proof. intros. unfold fidx. destruct (Nat.ltb_spec (Z.to_nat bn) NDIRECT); lia. Qed.

(** A block that is there is found, and nothing changes. *)
Lemma bmap_mapped s V ip i e bn :
  cached s V ip i e → 0 ≤ bn < MAXFILE → ptr (blk s) (V i) (fidx (Z.to_nat bn)) ≠ 0 →
  bmap ip bn s = Ok (ptr (blk s) (V i) (fidx (Z.to_nat bn))) s.
Proof.
  intros Hc Hbn H0. unfold bmap. rewrite (bind_step _ _ _ _ _ (iget_at_eq _ _ _ (ca_entry _ _ _ _ _ Hc))).
  rewrite (ca_di _ _ _ _ _ Hc). case_bool_decide as Hdir.
  - rewrite fidx_direct in H0 |- * by lia. rewrite ptr_direct in H0 |- * by lia.
    by rewrite bool_decide_eq_false_2.
  - rewrite fidx_indirect in H0 |- * by lia. unfold MAXFILE in Hbn.
    rewrite bool_decide_eq_true_2 by (unfold NINDIRECT, NDIRECT in *; lia).
    assert (Hind : addr_at (V i) NDIRECT ≠ 0).
    { intros E. destruct H0. apply ptr_no_indirect; [lia|done]. }
    rewrite (bool_decide_eq_false_2 _ Hind). rewrite ptr_indirect in H0 |- * by done.
    unfold mbind, M_bind, mret, M_ret, bread, gets. by rewrite bool_decide_eq_false_2.
Qed.

(** The state after pointer [k] of the inode is block [a]. *)
Record bmapped (D F : Z → Prop) (ds : Z) (ip : nat) (i : Z) (e : inode) (k : nat)
    (s : fss) (V : Z → dinode) (a : Z) (s' : fss) (V' : Z → dinode) : Prop := Bmapped {
  bm_inv : inv D F ds s' V';
  bm_grows : grows i s V s' V';
  bm_cached : cached s' V' ip i (set_di (V' i) e);
  bm_icache : icache s' = <[ip := set_di (V' i) e]> (icache s);
  bm_ptr : ptr (blk s') (V' i) k = a;
  bm_pos : a ≠ 0;
  bm_fresh : ptr (blk s) (V i) k = 0 → blk s' a = replicate BSIZE 0;
  bm_same : ptr (blk s) (V i) k ≠ 0 → V' = V;
  bm_only : ∀ l, l ≠ k → l ≠ NDIRECT → ptr (blk s') (V' i) l = ptr (blk s) (V i) l;
}.

Lemma set_di_same e : set_di (di e) e = e.
Proof. by destruct e. Qed.

Lemma bmapped_here D F ds ip i e k s V :
  inv D F ds s V → cached s V ip i e → ptr (blk s) (V i) k ≠ 0 →
  bmapped D F ds ip i e k s V (ptr (blk s) (V i) k) s V.
Proof.
  intros Hv Hc H0. assert (Ee : set_di (V i) e = e) by (rewrite <- (ca_di _ _ _ _ _ Hc); apply set_di_same).
  split; rewrite ?Ee; try done. by rewrite list_insert_id by apply Hc.
Qed.

Section Bmap.

Context (D F : Z → Prop) (ds : Z) (ip : nat) (i : Z).
Context (HD : D i).

(** After [balloc] the cache and the pointers are the same. *)
Lemma balloc_step e s V :
  inv D F ds s V → cached s V ip i e →
  wpf balloc (λ c s', inv D (λ b, b = c ∨ F b) ds s' V ∧ ¬ F c ∧ grows i s V s' V ∧ cached s' V ip i e ∧
    icache s' = icache s ∧ blk s' c = replicate BSIZE 0 ∧ (∀ k, ptr (blk s') (V i) k = ptr (blk s) (V i) k) ∧
    ∀ b, b < sb_bmapstart (sb s) ∨ ds ≤ b → b ≠ c → blk s' b = blk s b) s.
Proof.
  intros Hv Hc. eapply wpf_mono; [by eapply balloc_spec|]. intros c s' (Hr & HF & Hv' & Hsame & Hz).
  pose proof Hsame as (Esb & Ec & Hb).
  destruct (dv_flight _ _ _ _ _ (inv_disk _ _ _ _ _ Hv') c ltac:(by left)) as [_ Hfresh].
  assert (Hp : ∀ j k, inode_no (sb s) j → ptr (blk s') (V j) k = ptr (blk s) (V j) k).
  { intros j k Hj. apply ptr_ext. intros H1. destruct (indirect_range _ _ _ _ _ Hv j Hj H1) as [Hir Hu].
    apply Hb; [lia|]. intros E'. rewrite <- (ptr_direct (blk s')) in E' by lia. by eapply Hfresh; [rewrite Esb|exact E']. }
  split_and!; [done|done| | |done|done| |done].
  - eapply grows_same_but; [exact Hv|exact Hsame|by intros ? ->; lia|]. intros j k Hj H0 E.
    apply (Hfresh j k); [by rewrite Esb|]. rewrite <- E. by apply Hp.
  - destruct Hc. split; try done. by rewrite Ec.
  - intros k. apply Hp. by eapply cached_no.
Qed.

Lemma bmap_alloc_addr e s V k :
  inv D F ds s V → cached s V ip i e → (k ≤ NDIRECT)%nat → addr_at (V i) k = 0 →
  wpf (a ← balloc; iset ip (λ i, set_di (set_addr k a (di i)) i) ;; mret a)
    (λ a s', ∃ V', bmapped D F ds ip i e k s V a s' V') s.
Proof.
  intros Hv Hc Hk H0. apply wpf_bind. eapply wpf_mono; [by apply balloc_step|].
  intros c s1 (Hv1 & HF & Hg & Hc1 & Ec & Hz & Hps & Hb). cbn beta.
  eapply wpf_step; [by apply iset_eq, Hc1|]. apply wpf_ret. rewrite (ca_di _ _ _ _ _ Hc1).
  destruct (assign_addr D F ds s1 V ip i e c Hv1 HD HF Hc1 k) as (Hv' & Hg' & Hc' & Hp); [done|by rewrite ptr_direct|done|].
  exists (<[i := set_addr k c (V i)]> V).
  assert (EV : <[i := set_addr k c (V i)]> V i = set_addr k c (V i)) by apply fn_lookup_insert.
  rewrite EV in Hp. split; rewrite ?EV; try done.
  - by eapply grows_trans.
  - simpl. by rewrite Ec.
  - by rewrite Hp, decide_True.
  - by eapply flight_range.
  - by rewrite ptr_direct.
  - intros l Hl _. by rewrite Hp, decide_False, Hps.
Qed.

Lemma bmapped_trans e s V a s1 V1 l b s2 V2 :
  bmapped D F ds ip i e NDIRECT s V a s1 V1 →
  bmapped D F ds ip i (set_di (V1 i) e) l s1 V1 b s2 V2 →
  ptr (blk s) (V i) l = 0 → ptr (blk s1) (V1 i) l = 0 →
  bmapped D F ds ip i e l s V b s2 V2.
Proof.
  intros [] [] H0 H1. split; try done.
  - by eapply grows_trans.
  - rewrite bm_icache1, bm_icache0, list_insert_insert_eq. done.
  - auto.
  - intros l' Hl' Hd. rewrite bm_only1 by done. by apply bm_only0.
Qed.

(** An entry of the indirect block is filled. *)
Lemma bmap_alloc_entry e s V j :
  inv D F ds s V → cached s V ip i e → (j < Z.to_nat NINDIRECT)%nat → addr_at (V i) NDIRECT ≠ 0 →
  wpf (let ind := addr_at (V i) NDIRECT in
       d ← bread ind;
       let addr := getu32 d (4 * j) in
       if bool_decide (addr = 0) then a ← balloc; log_write ind (put32 (4 * j) a d) ;; mret a else mret addr)
    (λ a s', ∃ V', bmapped D F ds ip i e (NDIRECT + 1 + j) s V a s' V') s.
Proof.
  intros Hv Hc Hj Hind. eapply wpf_step; [done|]. cbn beta zeta.
  pose proof (ptr_indirect (blk s) (V i) j Hind) as Ep.
  case_bool_decide as H0.
  - apply wpf_bind. eapply wpf_mono; [by apply balloc_step|].
    intros c s1 (Hv1 & HF & Hg & Hc1 & Ec & Hz & Hps & Hb). cbn beta.
    pose proof (cached_no _ _ _ _ _ _ _ _ Hv Hc) as Hi.
    destruct (indirect_range _ _ _ _ _ Hv i Hi Hind) as [Hir _].
    assert (Hne : addr_at (V i) NDIRECT ≠ c).
    { intros E. destruct (dv_flight _ _ _ _ _ (inv_disk _ _ _ _ _ Hv1) c ltac:(by left)) as [_ Hfresh].
      apply (Hfresh i NDIRECT); [by rewrite (gr_sb _ _ _ _ _ Hg)|]. by rewrite ptr_direct. }
    rewrite <- (Hb _ (or_intror (proj1 Hir)) Hne) in Ep |- *.
    assert (H1 : ptr (blk s1) (V i) (NDIRECT + 1 + j) = 0).
    { rewrite ptr_indirect by done. rewrite <- H0. f_equal. by apply Hb; [right; lia|]. }
    eapply wpf_step; [apply log_write_eq|]. apply wpf_ret.
    destruct (assign_indirect D F ds s1 V ip i e c Hv1 HD HF Hc1 j) as (Hv' & Hg' & Hc' & Hp); [done..|].
    assert (Ee : set_di (V i) e = e) by (rewrite <- (ca_di _ _ _ _ _ Hc); apply set_di_same).
    exists V. split; rewrite ?Ee; try done.
    + by eapply grows_trans.
    + simpl. rewrite Ec, list_insert_id; [done|apply Hc].
    + by rewrite Hp, decide_True.
    + by eapply flight_range.
    + intros _. simpl. rewrite fn_lookup_insert_ne by done. done.
    + intros l Hl _. by rewrite Hp, decide_False, Hps.
  - apply wpf_ret. exists V. rewrite <- Ep in H0 |- *. by apply bmapped_here.
Qed.

(** [bmap] finds the block or adds a zeroed one. *)
Lemma bmap_spec e s V bn :
  inv D F ds s V → cached s V ip i e → 0 ≤ bn < MAXFILE →
  wpf (bmap ip bn) (λ a s', ∃ V', bmapped D F ds ip i e (fidx (Z.to_nat bn)) s V a s' V') s.
Proof.
  intros Hv Hc Hbn. unfold bmap. eapply wpf_step; [by apply iget_at_eq, Hc|]. cbn beta.
  rewrite (ca_di _ _ _ _ _ Hc). case_bool_decide as Hdir.
  - rewrite fidx_direct by lia. cbn zeta. case_bool_decide as H0.
    + apply bmap_alloc_addr; (done || lia).
    + apply wpf_ret. exists V. rewrite <- (ptr_direct (blk s)) in H0 |- * by lia. by apply bmapped_here.
  - rewrite fidx_indirect by lia. cbn zeta. unfold MAXFILE in Hbn.
    assert (Hj : bn - Z.of_nat NDIRECT < NINDIRECT) by (unfold NINDIRECT, NDIRECT in *; lia).
    rewrite (bool_decide_eq_true_2 _ Hj). set (j := Z.to_nat (bn - Z.of_nat NDIRECT)).
    assert (Hjn : (j < Z.to_nat NINDIRECT)%nat) by lia. apply wpf_bind.
    case_bool_decide as H0.
    + eapply wpf_mono; [by apply bmap_alloc_addr|]. cbn beta. intros a s1 [V1 H1].
      assert (Ea : addr_at (V1 i) NDIRECT = a) by (rewrite <- (ptr_direct (blk s1)) by done; apply H1).
      assert (Hz : ∀ l, ptr (blk s1) (V1 i) (NDIRECT + 1 + l) = 0).
      { intros l. rewrite ptr_indirect by (rewrite Ea; apply H1). rewrite Ea, (bm_fresh _ _ _ _ _ _ _ _ _ _ _ _ H1) by by rewrite ptr_direct.
        apply getu32_zero. }
      rewrite <- Ea. eapply wpf_mono.
      { apply (bmap_alloc_entry (set_di (V1 i) e) s1 V1 j); [apply H1|apply H1|done|rewrite Ea; apply H1]. }
      intros b s2 [V2 H2]. exists V2. by eapply bmapped_trans; [exact H1|exact H2|apply ptr_no_indirect; [lia|]|apply Hz].
    + apply wpf_ret. cbn beta. by apply (bmap_alloc_entry e s V j).
Qed.

End Bmap.

(** ** Contents *)

(** Byte [o] of a file, and all its bytes. *)
Definition fbyte (f : Z → block) (x : dinode) (o : nat) : Z :=
  byte_at (f (ptr f x (fidx (o / BSIZE)))) (o mod BSIZE).

Definition contents (f : Z → block) (x : dinode) : list Z := fbyte f x <$> seq 0 (Z.to_nat (size x)).

Lemma contents_length f x : length (contents f x) = Z.to_nat (size x).
Proof. unfold contents. by rewrite length_fmap, length_seq. Qed.

Lemma contents_lookup f x o : (o < Z.to_nat (size x))%nat → contents f x !! o = Some (fbyte f x o).
Proof. intros Ho. unfold contents. by rewrite list_lookup_fmap, lookup_seq_lt. Qed.

(** Positions in the block of offset [off]. *)
Lemma block_position off k : 0 ≤ off → Z.of_nat k < BSZ - off mod BSZ →
  ((Z.to_nat off + k) / BSIZE = Z.to_nat (off / BSZ) ∧ (Z.to_nat off + k) mod BSIZE = Z.to_nat (off mod BSZ) + k)%nat.
Proof.
  unfold BSZ, BSIZE. intros Ho Hk. pose proof (Z.mod_pos_bound off 512 eq_refl).
  pose proof (Z.div_mod off 512 ltac:(lia)). assert (0 ≤ off / 512) by (apply Z.div_pos; lia).
  assert (E : (Z.to_nat off + k = 512 * Z.to_nat (off / 512) + (Z.to_nat (off mod 512) + k))%nat) by lia.
  split; symmetry; [eapply Nat.div_unique|eapply Nat.mod_unique]; [|exact E| |exact E]; lia.
Qed.

(** The bytes [memmove] copies from a block. *)
Lemma block_slice (d : block) o m : (o + m ≤ length d)%nat → take m (drop o d) = byte_at d <$> seq o m.
Proof.
  intros Hl. apply list_eq. intros k. rewrite list_lookup_fmap. destruct (decide (k < m)%nat) as [Hk|Hk].
  - rewrite lookup_take_lt, lookup_drop, lookup_seq_lt by done. simpl. unfold byte_at.
    destruct (lookup_lt_is_Some_2 d (o + k) ltac:(lia)) as [b ->]. done.
  - rewrite lookup_take_ge, lookup_seq_ge by lia. done.
Qed.

Lemma fbyte_slice f x off m :
  0 ≤ off → (Z.of_nat m ≤ BSZ - off mod BSZ) → block_ok (f (ptr f x (fidx (Z.to_nat (off / BSZ))))) →
  take m (drop (Z.to_nat (off mod BSZ)) (f (ptr f x (fidx (Z.to_nat (off / BSZ)))))) = fbyte f x <$> seq (Z.to_nat off) m.
Proof.
  intros Ho Hm [Hl _]. pose proof (Z.mod_pos_bound off BSZ eq_refl).
  rewrite block_slice by (rewrite Hl; unfold BSZ, BSIZE in *; lia). apply list_eq. intros k. rewrite !list_lookup_fmap.
  destruct (decide (k < m)%nat); [|by rewrite !lookup_seq_ge by lia].
  rewrite !lookup_seq_lt by done. simpl. f_equal. unfold fbyte.
  destruct (block_position off k) as [-> ->]; [done|lia|]. done.
Qed.

(** ** [readi] *)

Section Readi.

Context (D F : Z → Prop) (ds : Z) (s : fss) (V : Z → dinode) (ip : nat) (i : Z) (e : inode).
Context (Hv : inv D F ds s V) (Hc : cached s V ip i e).

(** A block of the file before its end is there. *)
Lemma mapped_below o : 0 ≤ o < size (V i) →
  ptr (blk s) (V i) (fidx (Z.to_nat (o / BSZ))) ≠ 0 ∧ 0 ≤ o / BSZ < MAXFILE.
Proof.
  intros Ho. pose proof (cached_no _ _ _ _ _ _ _ _ Hv Hc) as Hi.
  destruct (dv_ok _ _ _ _ _ (inv_disk _ _ _ _ _ Hv) i Hi) as [_ Hs Hh _].
  assert (0 ≤ o / BSZ) by (apply Z.div_pos; unfold BSZ; lia).
  pose proof (Z.mul_div_le o BSZ eq_refl). split.
  - apply Hh. unfold BSZ in *. lia.
  - split; [done|]. apply Z.div_lt_upper_bound; [done|]. unfold BSZ, MAXFILE in *. lia.
Qed.

Lemma readi_loop_spec fuel : ∀ off rest,
  0 ≤ off → 0 ≤ rest → off + rest ≤ size (V i) → (0 < fuel)%nat →
  (0 < rest → off mod BSZ + rest ≤ BSZ * (Z.of_nat fuel - 1)) →
  readi_loop fuel ip off rest s = Ok (fbyte (blk s) (V i) <$> seq (Z.to_nat off) (Z.to_nat rest)) s.
Proof.
  induction fuel as [|fuel IH]; intros off rest Ho Hr Hsz Hpos Hfuel; [lia|]. cbn [readi_loop].
  case_bool_decide as Hrest; [|by replace rest with 0 by lia].
  destruct (mapped_below off ltac:(lia)) as [Hmap Hbn]. pose proof (Z.mod_pos_bound off BSZ eq_refl) as Hm.
  rewrite (bind_step _ _ _ _ _ (bmap_mapped _ _ _ _ _ _ Hc Hbn Hmap)).
  unfold mbind at 1, M_bind at 1, bread, gets. cbn zeta.
  set (m := Z.min rest (BSZ - off mod BSZ)).
  assert (Hnext : (off + m) mod BSZ = 0 ∨ rest = m).
  { destruct (decide (rest ≤ BSZ - off mod BSZ)); [right; unfold m; lia|left].
    unfold m. rewrite Z.min_r by lia. rewrite (Z.div_mod off BSZ) at 1 by done.
    replace (BSZ * (off / BSZ) + off mod BSZ + (BSZ - off mod BSZ)) with ((off / BSZ + 1) * BSZ) by lia.
    by apply Z.mod_mul. }
  specialize (Hfuel Hrest). unfold mbind, M_bind, mret, M_ret. rewrite IH; [|unfold m in *; unfold BSZ in *; nia..].
  f_equal. rewrite fbyte_slice; [|done|unfold m; lia|apply Hv].
  replace (Z.to_nat rest) with (Z.to_nat m + Z.to_nat (rest - m))%nat by (unfold m; lia).
  rewrite seq_app, fmap_app. do 3 f_equal. unfold m; lia.
Qed.

Context (dev_read : Z → option (nat → Z → M fss (Z * list Z))).

(** [readi] returns the bytes of the file from [off] on, at most [n] of them. *)
Lemma readi_spec off n :
  type (V i) ≠ T_DEV → is_uint off → is_uint n → off ≤ size (V i) → off + n < 2 ^ 32 →
  let l := take (Z.to_nat n) (drop (Z.to_nat off) (contents (blk s) (V i))) in
  readi dev_read ip off n s = Ok (Z.of_nat (length l), l) s.
Proof.
  intros Ht Ho Hn Hoff Hov l. unfold readi, is_uint in *.
  rewrite (bind_step _ _ _ _ _ (iget_at_eq _ _ _ (ca_entry _ _ _ _ _ Hc))). rewrite (ca_di _ _ _ _ _ Hc).
  rewrite (bool_decide_eq_false_2 _ Ht). cbn zeta. rewrite u32_small by lia.
  rewrite (bool_decide_eq_false_2 (size (V i) < off)) by lia.
  rewrite (bool_decide_eq_false_2 (off + n < off)) by lia. cbn [orb].
  set (n' := if bool_decide (size (V i) < off + n) then size (V i) - off else n).
  assert (Hn' : n' = Z.min n (size (V i) - off)) by (unfold n'; case_bool_decide; lia).
  assert (El : l = fbyte (blk s) (V i) <$> seq (Z.to_nat off) (Z.to_nat n')).
  { unfold l, contents. rewrite <- fmap_drop, drop_seq, <- fmap_take, take_seq. f_equal. f_equal; lia. }
  assert (Hll : Z.of_nat (length l) = n') by (rewrite El, length_fmap, length_seq; lia).
  assert (Hl : readi_loop (S (Z.to_nat (n' / BSZ + 2))) ip off n' s = Ok l s).
  { rewrite El. assert (0 ≤ n' / BSZ) by (apply Z.div_pos; unfold BSZ; lia).
    pose proof (Z.mod_pos_bound off BSZ eq_refl). pose proof (Z.mod_pos_bound n' BSZ eq_refl).
    pose proof (Z.div_mod n' BSZ ltac:(unfold BSZ; lia)). apply readi_loop_spec; unfold BSZ in *; lia. }
  rewrite (bind_step _ _ _ _ _ Hl). by rewrite Hll.
Qed.

Lemma readi_error off n :
  type (V i) ≠ T_DEV → size (V i) < off ∨ u32 (off + n) < off →
  readi dev_read ip off n s = Ok (-1, []) s.
Proof.
  intros Ht Hor. unfold readi.
  rewrite (bind_step _ _ _ _ _ (iget_at_eq _ _ _ (ca_entry _ _ _ _ _ Hc))). rewrite (ca_di _ _ _ _ _ Hc).
  rewrite (bool_decide_eq_false_2 _ Ht). cbn zeta. destruct Hor as [H|H].
  - by rewrite (bool_decide_eq_true_2 _ H).
  - by rewrite (bool_decide_eq_true_2 _ H), orb_true_r.
Qed.

End Readi.

End FsFile.
