(* ===== verification/FsWrite.v ===== *)
(** * Writing and removing files

    [writei], [iupdate] and [itrunc] of [Fs]: what they do to the contents of the
    file, and that the other files keep theirs. *)

From S2P Require Import Prelude Log Fs FsInv FsAlloc FsFile.

Module FsWrite.

Import Fs FsInv FsAlloc FsFile.

(** ** [writei] *)

(** The bytes [src] are written to file [i] from [off] on; the other bytes of the
    file and the other files are the same. *)
Record wrote (i : Z) (off : nat) (src : list Z) (s : fss) (V : Z → dinode) (s' : fss) (V' : Z → dinode) : Prop := Wrote {
  wr_sb : sb s' = sb s;
  wr_others : ∀ j, j ≠ i → V' j = V j;
  wr_type : type (V' i) = type (V i);
  wr_major : major (V' i) = major (V i);
  wr_minor : minor (V' i) = minor (V i);
  wr_nlink : nlink (V' i) = nlink (V i);
  wr_size : size (V' i) = size (V i);
  wr_ptrs : ∀ k, ptr (blk s) (V i) k ≠ 0 → ptr (blk s') (V' i) k = ptr (blk s) (V i) k;
  wr_other_ptrs : ∀ j k, inode_no (sb s) j → j ≠ i → ptr (blk s') (V' j) k = ptr (blk s) (V j) k;
  wr_data : ∀ j k, inode_no (sb s) j → j ≠ i → k ≠ NDIRECT → ptr (blk s) (V j) k ≠ 0 →
    blk s' (ptr (blk s) (V j) k) = blk s (ptr (blk s) (V j) k);
  wr_old : ∀ o, ptr (blk s) (V i) (fidx (o / BSIZE)) ≠ 0 → (o < off ∨ off + length src ≤ o)%nat →
    fbyte (blk s') (V' i) o = fbyte (blk s) (V i) o;
  wr_new : ∀ k b, src !! k = Some b → fbyte (blk s') (V' i) (off + k) = b;
  wr_mapped : ∀ k, (k < length src)%nat → ptr (blk s') (V' i) (fidx ((off + k) / BSIZE)) ≠ 0;
  wr_inodes : ∀ j, inode_no (sb s) j → blk s' (IBLOCK j (sb s)) = blk s (IBLOCK j (sb s));
}.

Lemma wrote_trans i off src1 src2 s1 V1 s2 V2 s3 V3 :
  wrote i off src1 s1 V1 s2 V2 → wrote i (off + length src1) src2 s2 V2 s3 V3 →
  wrote i off (src1 ++ src2) s1 V1 s3 V3.
Proof.
  intros H1 H2. pose proof (wr_sb _ _ _ _ _ _ _ H1) as Esb. split.
  - rewrite (wr_sb _ _ _ _ _ _ _ H2). apply H1.
  - intros j Hj. rewrite (wr_others _ _ _ _ _ _ _ H2) by done. by apply H1.
  - rewrite (wr_type _ _ _ _ _ _ _ H2). apply H1.
  - rewrite (wr_major _ _ _ _ _ _ _ H2). apply H1.
  - rewrite (wr_minor _ _ _ _ _ _ _ H2). apply H1.
  - rewrite (wr_nlink _ _ _ _ _ _ _ H2). apply H1.
  - rewrite (wr_size _ _ _ _ _ _ _ H2). apply H1.
  - intros k H0. pose proof (wr_ptrs _ _ _ _ _ _ _ H1 k H0) as E. rewrite <- E.
    apply (wr_ptrs _ _ _ _ _ _ _ H2). by rewrite E.
  - intros j k Hj Hne. rewrite (wr_other_ptrs _ _ _ _ _ _ _ H2) by (done || by rewrite Esb).
    by apply (wr_other_ptrs _ _ _ _ _ _ _ H1).
  - intros j k Hj Hne Hk H0. pose proof (wr_other_ptrs _ _ _ _ _ _ _ H1 j k Hj Hne) as E.
    rewrite <- (wr_data _ _ _ _ _ _ _ H1) by done. rewrite <- E.
    apply (wr_data _ _ _ _ _ _ _ H2); [by rewrite Esb|done|done|by rewrite E].
  - intros o H0 Ho. rewrite length_app in Ho. pose proof (wr_ptrs _ _ _ _ _ _ _ H1 _ H0) as E.
    rewrite (wr_old _ _ _ _ _ _ _ H2) by (rewrite ?E; done || lia). apply (wr_old _ _ _ _ _ _ _ H1); [done|lia].
  - intros k b Hb. apply lookup_app_Some in Hb as [Hb|[Hk Hb]].
    + pose proof (lookup_lt_Some _ _ _ Hb).
      rewrite (wr_old _ _ _ _ _ _ _ H2); [by apply (wr_new _ _ _ _ _ _ _ H1)|by apply (wr_mapped _ _ _ _ _ _ _ H1)|lia].
    + replace (off + k)%nat with (off + length src1 + (k - length src1))%nat by lia.
      by apply (wr_new _ _ _ _ _ _ _ H2).
  - intros k Hk. rewrite length_app in Hk. destruct (decide (k < length src1)%nat) as [Hlt|].
    + pose proof (wr_mapped _ _ _ _ _ _ _ H1 k Hlt) as Hm. by rewrite (wr_ptrs _ _ _ _ _ _ _ H2).
    + replace (off + k)%nat with (off + length src1 + (k - length src1))%nat by lia.
      apply (wr_mapped _ _ _ _ _ _ _ H2). lia.
  - intros j Hj. rewrite <- (wr_inodes _ _ _ _ _ _ _ H1) by done. rewrite <- Esb in Hj |- *.
    by apply (wr_inodes _ _ _ _ _ _ _ H2).
Qed.

Lemma wrote_grows i off s V s' V' : inode_no (sb s) i → grows i s V s' V' → wrote i off [] s V s' V'.
Proof.
  intros Hi Hg. destruct Hg. split; try done; auto.
  - intros o H0 _. unfold fbyte. rewrite gr_ptrs0 by done. rewrite gr_data0; [done|done|apply fidx_range|done].
  - intros k Hk. simpl in Hk. lia.
Qed.

Lemma length_splice o src d : (o + length src ≤ length d)%nat → length (splice o src d) = length d.
Proof. intros. unfold splice. rewrite !length_app, length_take, length_drop. lia. Qed.

Lemma byte_at_splice o src d k : (o + length src ≤ length d)%nat →
  byte_at (splice o src d) k = if decide (o ≤ k < o + length src)%nat then byte_at src (k - o) else byte_at d k.
Proof.
  intros Hl. unfold byte_at, splice.
  destruct (decide (k < o)%nat); [|destruct (decide (k < o + length src)%nat)].
  - rewrite decide_False by lia. rewrite lookup_app_l by (rewrite length_take; lia). by rewrite lookup_take_lt.
  - rewrite decide_True by lia. rewrite lookup_app_r by (rewrite length_take; lia).
    rewrite lookup_app_l by (rewrite length_take; lia). do 2 f_equal. rewrite length_take. lia.
  - rewrite decide_False by lia. rewrite lookup_app_r by (rewrite length_take; lia).
    rewrite lookup_app_r by (rewrite length_take; lia). rewrite lookup_drop. do 2 f_equal. rewrite length_take. lia.
Qed.

Lemma block_ok_splice o src d :
  (o + length src ≤ length d)%nat → Forall is_byte src → block_ok d → block_ok (splice o src d).
Proof.
  intros Hl Hs [Hd Hb]. split; [by rewrite length_splice|].
  unfold splice. rewrite !Forall_app. split_and!; [by apply Forall_take|done|by apply Forall_drop].
Qed.

(** A block of the contents of a file changes. *)
Lemma write_data D F ds s V ip i e n d :
  inv D F ds s V → cached s V ip i e → block_ok d → ptr (blk s) (V i) (fidx n) ≠ 0 →
  let s' := log_blk (ptr (blk s) (V i) (fidx n)) d s in
  inv D F ds s' V ∧ cached s' V ip i e ∧ (∀ j k, inode_no (sb s) j → ptr (blk s') (V j) k = ptr (blk s) (V j) k) ∧
  ∀ j k, inode_no (sb s) j → ¬ (j = i ∧ k = fidx n) → ptr (blk s) (V j) k ≠ 0 →
    blk s' (ptr (blk s) (V j) k) = blk s (ptr (blk s) (V j) k).
Proof.
  intros Hv Hc Hd H0 s'. pose proof (cached_no _ _ _ _ _ _ _ _ Hv Hc) as Hi.
  pose proof (inv_disk _ _ _ _ _ Hv) as Hdv. pose proof (dv_layout _ _ _ _ _ Hdv) as Hlay.
  pose proof (dv_range _ _ _ _ _ Hdv i _ Hi H0) as Hr. pose proof (bmap_region _ _ Hlay).
  set (a := ptr (blk s) (V i) (fidx n)) in *.
  assert (Hblk : ∀ b, b ≠ a → blk s' b = blk s b) by (intros; by apply fn_lookup_insert_ne).
  assert (Hdata : ∀ j k, inode_no (sb s) j → ¬ (j = i ∧ k = fidx n) → ptr (blk s) (V j) k ≠ 0 →
    blk s' (ptr (blk s) (V j) k) = blk s (ptr (blk s) (V j) k)).
  { intros j k Hj Hne Hp. apply Hblk. intros E. apply Hne. by eapply dv_inj. }
  assert (Hp : ∀ j k, inode_no (sb s) j → ptr (blk s') (V j) k = ptr (blk s) (V j) k).
  { intros j k Hj. apply ptr_ext. intros H1. rewrite <- (ptr_direct (blk s)) in H1 |- * by lia.
    apply Hdata; [done| |done]. intros [_ E]. by destruct (fidx_range n). }
  split_and!; [|by destruct Hc|done|done].
  split; change (sb s') with (sb s); [|eapply synced_ext; [apply Hv|]; intros j Hj; apply Hblk;
    pose proof (IBLOCK_region _ _ Hlay j Hj); lia|apply Hv].
  eapply disk_inv_same; [exact Hdv|by apply blocks_ok_insert; [apply Hdv|]|apply Hblk; lia| |done|].
  - intros b Hb. unfold used. rewrite Hblk; [done|]. pose proof (BBLOCK_region _ _ Hlay b Hb). lia.
  - intros j Hj. apply (dinode_ok_ext (blk s)); [by eapply dv_ok|]. intros k. by apply Hp.
Qed.

Lemma wrote_block D F ds s V ip i e off src :
  inv D F ds s V → cached s V ip i e → Forall is_byte src → 0 ≤ off → Z.of_nat (length src) ≤ BSZ - off mod BSZ →
  let a := ptr (blk s) (V i) (fidx (Z.to_nat (off / BSZ))) in
  let s' := log_blk a (splice (Z.to_nat (off mod BSZ)) src (blk s a)) s in
  a ≠ 0 → inv D F ds s' V ∧ cached s' V ip i e ∧ wrote i (Z.to_nat off) src s V s' V.
Proof.
  intros Hv Hc Hsrc Hoff Hlen a s' Ha. pose proof (cached_no _ _ _ _ _ _ _ _ Hv Hc) as Hi.
  assert (Hbok : block_ok (blk s a)) by apply Hv. pose proof Hbok as [Hbl _].
  pose proof (Z.mod_pos_bound off BSZ eq_refl).
  assert (Hfit : (Z.to_nat (off mod BSZ) + length src ≤ length (blk s a))%nat) by (rewrite Hbl; unfold BSZ, BSIZE in *; lia).
  destruct (write_data D F ds s V ip i e _ (splice (Z.to_nat (off mod BSZ)) src (blk s a)) Hv Hc
    (block_ok_splice _ _ _ Hfit Hsrc Hbok) Ha) as (Hv' & Hc' & Hp & Hdata).
  fold a s' in Hv', Hc', Hp, Hdata.
  assert (Hsa : blk s' a = splice (Z.to_nat (off mod BSZ)) src (blk s a)) by apply fn_lookup_insert.
  split; [done|]. split; [done|]. split; try done.
  - intros k _. by apply Hp.
  - intros j k Hj _. by apply Hp.
  - intros j k Hj Hne _ H0. apply Hdata; [done|naive_solver|done].
  - intros o H0 Ho. unfold fbyte. rewrite Hp by done.
    destruct (decide (o / BSIZE = Z.to_nat (off / BSZ))%nat) as [E|E].
    + rewrite E. fold a. rewrite Hsa, byte_at_splice by done. apply decide_False.
      assert (E2 : (o mod BSIZE = o - BSIZE * Z.to_nat (off / BSZ))%nat) by (rewrite <- E; pose proof (Nat.div_mod_eq o BSIZE); lia).
      pose proof (Z.div_mod off BSZ ltac:(done)). assert (0 ≤ off / BSZ) by (apply Z.div_pos; unfold BSZ in *; lia).
      pose proof (Nat.mod_upper_bound o BSIZE ltac:(unfold BSIZE; lia)). pose proof (Nat.div_mod_eq o BSIZE).
      unfold BSZ, BSIZE in *. lia.
    + rewrite Hdata; [done|done| |done]. intros [_ E2]. by apply fidx_inj in E2.
  - intros k b Hb. pose proof (lookup_lt_Some _ _ _ Hb).
    unfold fbyte. destruct (block_position off k) as [-> ->]; [done|lia|].
    rewrite Hp by done. fold a. rewrite Hsa, byte_at_splice, decide_True by (done || lia).
    unfold byte_at. replace (_ + k - _)%nat with k by lia. by rewrite Hb.
  - intros k Hk. destruct (block_position off k) as [-> _]; [done|lia|]. by rewrite Hp.
  - intros j Hj. apply fn_lookup_insert_ne. pose proof (dv_layout _ _ _ _ _ (inv_disk _ _ _ _ _ Hv)) as Hlay.
    pose proof (IBLOCK_region _ _ Hlay j Hj). pose proof (bmap_region _ _ Hlay).
    pose proof (dv_range _ _ _ _ _ (inv_disk _ _ _ _ _ Hv) i _ Hi Ha). fold a in H2. lia.
Qed.

(** The state after [src] is written: the cache shows the new inode, and blocks
    are added only where the file had none. *)
Record written (D F : Z → Prop) (ds : Z) (ip : nat) (i : Z) (e : inode) (off : nat) (src : list Z)
    (s : fss) (V : Z → dinode) (s' : fss) (V' : Z → dinode) : Prop := Written {
  wn_inv : inv D F ds s' V';
  wn_cached : cached s' V' ip i (set_di (V' i) e);
  wn_icache : icache s' = <[ip := set_di (V' i) e]> (icache s);
  wn_wrote : wrote i off src s V s' V';
  wn_same : (∀ k, (k < length src)%nat → ptr (blk s) (V i) (fidx ((off + k) / BSIZE)) ≠ 0) → V' = V;
}.

Lemma written_nil D F ds ip i e off s V :
  inv D F ds s V → cached s V ip i e → written D F ds ip i e off [] s V s V.
Proof.
  intros Hv Hc. assert (Ee : set_di (V i) e = e) by (rewrite <- (ca_di _ _ _ _ _ Hc); apply set_di_same).
  split; rewrite ?Ee; try done.
  - by rewrite list_insert_id by apply Hc.
  - apply wrote_grows; [by eapply cached_no|apply grows_refl].
Qed.

Lemma written_trans D F ds ip i e off src1 src2 s1 V1 s2 V2 s3 V3 :
  written D F ds ip i e off src1 s1 V1 s2 V2 →
  written D F ds ip i (set_di (V2 i) e) (off + length src1) src2 s2 V2 s3 V3 →
  written D F ds ip i e off (src1 ++ src2) s1 V1 s3 V3.
Proof.
  intros [] []. split; try done.
  - by rewrite wn_icache1, wn_icache0, list_insert_insert_eq.
  - by eapply wrote_trans.
  - intros Hm. rewrite length_app in Hm. rewrite wn_same1, wn_same0; [done|intros k Hk; apply Hm; lia|].
    intros k Hk. rewrite <- Nat.add_assoc. rewrite (wr_ptrs _ _ _ _ _ _ _ wn_wrote0); apply Hm; lia.
Qed.

(** One turn of the loop. *)
Lemma written_block D F ds ip i e s V off src a s1 V1 :
  0 ≤ off → Forall is_byte src → (0 < length src)%nat → Z.of_nat (length src) ≤ BSZ - off mod BSZ →
  inv D F ds s V → cached s V ip i e →
  bmapped D F ds ip i e (fidx (Z.to_nat (off / BSZ))) s V a s1 V1 →
  written D F ds ip i e (Z.to_nat off) src s V
    (log_blk a (splice (Z.to_nat (off mod BSZ)) src (blk s1 a)) s1) V1.
Proof.
  intros Hoff Hsrc Hpos Hlen Hv Hc [Hv1 Hg Hc1 Ei Ea Ha Hfresh Hsame _].
  destruct (wrote_block D F ds s1 V1 ip i (set_di (V1 i) e) off src Hv1 Hc1 Hsrc Hoff Hlen) as (Hv2 & Hc2 & Hw); [by rewrite Ea|].
  rewrite Ea in Hv2, Hc2, Hw. split; try done.
  - eapply (wrote_trans _ _ [] src); [apply wrote_grows; [by eapply cached_no|exact Hg]|].
    cbn [length]. by rewrite Nat.add_0_r.
  - intros Hm. apply Hsame. specialize (Hm 0%nat Hpos).
    destruct (block_position off 0) as [E _]; [done|lia|]. by rewrite E in Hm.
Qed.

(** ** Inodes on the disk *)

Definition or_dirty (i : Z) (D : Z → Prop) : Z → Prop := λ j, j = i ∨ D j.

(** An inode that is the same on the disk is clean. *)
Lemma inv_clean D F ds s V ip i e :
  inv (or_dirty i D) F ds s V → cached s V ip i e → disk_inode (sb s) (blk s) i = V i → inv D F ds s V.
Proof.
  intros [Hd Hs [Hr He Hu]] Hc Hi. split; [done| |split; [done| |done]].
  - intros j Hj HD. destruct (decide (j = i)) as [->|]; [done|]. apply Hs; [done|]. by intros [|].
  - intros jp e' Hj Href. destruct (He jp e' Hj Href) as (? & ? & Hval). split_and!; [done|done|].
    intros Hv HD. destruct (decide (inum e' = i)) as [Ei|Hne].
    + assert (jp = ip) as -> by (eapply (Hu jp ip e' e); try done; try apply Hc; by rewrite Ei, (ca_inum _ _ _ _ _ Hc)).
      assert (e' = e) as -> by (pose proof (ca_entry _ _ _ _ _ Hc); congruence).
      rewrite Ei, (ca_di _ _ _ _ _ Hc). split; [done|apply Hc].
    + apply Hval; [done|]. by intros [|].
Qed.

Lemma inode_slot i j : 0 ≤ i → 0 ≤ j → i ≠ j → i / IPB = j / IPB →
  (dislot j + 64 ≤ dislot i ∨ dislot i + 64 ≤ dislot j)%nat.
Proof.
  unfold dislot, IPB. intros Hi Hj Hne E. pose proof (Z.div_mod i 8 ltac:(lia)). pose proof (Z.div_mod j 8 ltac:(lia)).
  pose proof (Z.mod_pos_bound i 8 eq_refl). pose proof (Z.mod_pos_bound j 8 eq_refl).
  assert (i mod 8 ≠ j mod 8) by congruence. lia.
Qed.

Lemma dislot_bound i : (dislot i + 64 ≤ BSIZE)%nat.
Proof. unfold dislot, IPB, BSIZE. pose proof (Z.mod_pos_bound i 8 eq_refl). lia. Qed.

(** The blocks from [ds] on are the same. *)
Definition same_data (ds : Z) (s s' : fss) : Prop := ∀ b, ds ≤ b → blk s' b = blk s b.

Lemma same_data_ptr D F ds s V s' j k :
  inv D F ds s V → same_data ds s s' → inode_no (sb s) j → ptr (blk s') (V j) k = ptr (blk s) (V j) k.
Proof.
  intros Hv Hs Hj. apply ptr_ext. intros H0. apply Hs.
  by destruct (indirect_range _ _ _ _ _ Hv j Hj H0) as [[? ?] _].
Qed.

(** An inode block is written. *)
Lemma log_inode_inv D F ds s V i d :
  inv D F ds s V → inode_no (sb s) i → block_ok d →
  disk_inv F ds (sb s) (blk (log_blk (IBLOCK i (sb s)) d s)) V ∧ same_data ds s (log_blk (IBLOCK i (sb s)) d s).
Proof.
  intros Hv Hi Hd. pose proof (inv_disk _ _ _ _ _ Hv) as Hdv. pose proof (dv_layout _ _ _ _ _ Hdv) as Hlay.
  pose proof (IBLOCK_region _ _ Hlay i Hi) as Hib. pose proof (bmap_region _ _ Hlay).
  set (s' := log_blk _ _ _).
  assert (Hblk : ∀ b, b ≠ IBLOCK i (sb s) → blk s' b = blk s b) by (intros; by apply fn_lookup_insert_ne).
  assert (Hsd : same_data ds s s') by (intros b Hb; apply Hblk; lia). split; [|done].
  eapply disk_inv_same; [exact Hdv|by apply blocks_ok_insert; [apply Hdv|]|apply Hblk; destruct Hlay; lia| | |].
  - intros b Hb. unfold used. rewrite Hblk; [done|]. pose proof (BBLOCK_region _ _ Hlay b Hb). lia.
  - intros j k Hj. by eapply same_data_ptr.
  - intros j Hj. apply (dinode_ok_ext (blk s)); [by eapply dv_ok|]. intros k. by eapply same_data_ptr.
Qed.

Lemma disk_inode_put D F ds s V i j y :
  inv D F ds s V → inode_no (sb s) i → inode_no (sb s) j → dinode_fits y →
  disk_inode (sb s) (blk (log_blk (IBLOCK i (sb s)) (dinode_put (dislot i) y (blk s (IBLOCK i (sb s)))) s)) j =
  if decide (j = i) then y else disk_inode (sb s) (blk s) j.
Proof.
  intros Hv Hi Hj Hy. unfold disk_inode. simpl.
  assert (Hl : length (blk s (IBLOCK i (sb s))) = BSIZE) by apply Hv.
  destruct (decide (j = i)) as [->|Hne].
  - rewrite fn_lookup_insert. apply dinode_get_put_eq; [done|]. rewrite Hl. apply dislot_bound.
  - destruct (decide (IBLOCK j (sb s) = IBLOCK i (sb s))) as [E|]; [|by rewrite fn_lookup_insert_ne].
    rewrite E, fn_lookup_insert. apply dinode_get_put_ne; [apply Hy|]. unfold inode_no, IBLOCK in *.
    apply inode_slot; lia.
Qed.

(** [iupdate] writes the inode to the disk. *)
Lemma iupdate_disk D F ds s V ip i e :
  inv D F ds s V → icache s !! ip = Some e → inum e = i → inode_no (sb s) i → di e = V i →
  wpt (iupdate ip) (λ _ s', inv D F ds s' V ∧ disk_inode (sb s') (blk s') i = V i ∧
    icache s' = icache s ∧ sb s' = sb s ∧ same_data ds s s') s.
Proof.
  intros Hv He Ei Hi Ed. pose proof (dok_fits _ _ (dv_ok _ _ _ _ _ (inv_disk _ _ _ _ _ Hv) i Hi)) as Hfit.
  unfold iupdate. apply wpt_bind. eapply wpt_eq; [by apply iget_at_eq|]. cbn beta.
  rewrite Ei, Ed. apply wpt_bind, wpt_get. cbn beta.
  apply wpt_bind. eapply wpt_eq; [done|]. cbn beta. eapply wpt_eq; [apply log_write_eq|].
  destruct (log_inode_inv _ _ _ _ _ i (dinode_put (dislot i) (V i) (blk s (IBLOCK i (sb s)))) Hv Hi) as [Hd Hsd].
  { apply block_ok_dinode_put, Hv. }
  split_and!; try done; [split; [done| |apply Hv]|]; change (sb (log_blk _ _ s)) with (sb s).
  - intros j Hj HnD. erewrite disk_inode_put by done. destruct (decide (j = i)) as [->|]; [done|]. by apply Hv.
  - erewrite disk_inode_put by done. by rewrite decide_True.
Qed.

Lemma iupdate_spec D F ds s V ip i e :
  inv (or_dirty i D) F ds s V → cached s V ip i e →
  wpt (iupdate ip) (λ _ s', inv D F ds s' V ∧ cached s' V ip i e ∧ icache s' = icache s ∧ sb s' = sb s ∧ same_data ds s s') s.
Proof.
  intros Hv Hc. pose proof (cached_no _ _ _ _ _ _ _ _ Hv Hc) as Hi.
  eapply wpt_mono; [by eapply iupdate_disk; [exact Hv|apply Hc|apply Hc|exact Hi|apply Hc]|].
  intros ? s' (Hv' & Hdi & Eic & Esb & Hsd). cbn beta.
  assert (Hc' : cached s' V ip i e) by (destruct Hc; split; try done; by rewrite Eic).
  split_and!; try done. by eapply inv_clean.
Qed.

(** The fields of a dirty inode that are not pointers change. *)
Lemma set_meta (D F : Z → Prop) ds s V ip i e y :
  inv D F ds s V → D i → cached s V ip i e → addrs y = addrs (V i) → dinode_ok (blk s) y → type y ≠ 0 →
  let s' := set_icache (<[ip := set_di y e]> (icache s)) s in
  inv D F ds s' (<[i := y]> V) ∧ cached s' (<[i := y]> V) ip i (set_di y e).
Proof.
  intros Hv HD Hc Ha Hok Ht s'. pose proof (inv_disk _ _ _ _ _ Hv) as Hd.
  assert (EV : <[i := y]> V i = y) by apply fn_lookup_insert.
  assert (HV : ∀ j, j ≠ i → <[i := y]> V j = V j) by apply fn_insert_other.
  split.
  - split; change (sb s') with (sb s); change (blk s') with (blk s).
    + eapply disk_inv_same; [exact Hd|apply Hd|done|done| |].
      * intros j k Hj. destruct (decide (j = i)) as [->|]; [rewrite EV; by apply ptr_addrs|by rewrite HV].
      * intros j Hj. destruct (decide (j = i)) as [->|]; [by rewrite EV|rewrite HV by done; by eapply dv_ok].
    + intros j Hj HnD. rewrite HV by (intros ->; done). by apply Hv.
    + simpl. eapply cache_inv_dirty; [apply Hv|apply Hc|by rewrite (ca_inum _ _ _ _ _ Hc)|].
      by rewrite (ca_inum _ _ _ _ _ Hc).
  - destruct Hc. split; rewrite ?EV; try done. simpl. apply list_lookup_insert_eq. by eapply lookup_lt_Some.
Qed.

(** ** Files *)

(** What a file is to its users. *)
Record afile : Type := AFile { a_type : Z; a_major : Z; a_minor : Z; a_nlink : Z; a_data : list Z }.

Definition file_of (f : Z → block) (x : dinode) : afile :=
  AFile (type x) (major x) (minor x) (nlink x) (contents f x).

Definition set_data (l : list Z) (a : afile) : afile := AFile (a_type a) (a_major a) (a_minor a) (a_nlink a) l.

(** File [i], entry [ip] of the cache, is now [a]; the other files are the same. *)
Record updated (D F : Z → Prop) (ds : Z) (ip : nat) (i : Z) (e : inode)
    (s : fss) (V : Z → dinode) (a : afile) (s' : fss) (V' : Z → dinode) : Prop := Updated {
  up_inv : inv D F ds s' V';
  up_cached : cached s' V' ip i (set_di (V' i) e);
  up_icache : icache s' = <[ip := set_di (V' i) e]> (icache s);
  up_sb : sb s' = sb s;
  up_file : file_of (blk s') (V' i) = a;
  up_others : ∀ j, inode_no (sb s) j → j ≠ i → V' j = V j ∧ file_of (blk s') (V' j) = file_of (blk s) (V j);
}.

Lemma contents_ext f f' x y :
  size y = size x →
  (∀ n, Z.of_nat n * BSZ < size x → ptr f' y (fidx n) = ptr f x (fidx n) ∧ f' (ptr f x (fidx n)) = f (ptr f x (fidx n))) →
  contents f' y = contents f x.
Proof.
  intros Es Hp. unfold contents. rewrite Es. apply list_fmap_ext. intros k o Ho.
  apply lookup_seq in Ho as [-> Ho]. unfold fbyte. rewrite Nat.add_0_l.
  destruct (Hp (k / BSIZE)%nat) as [-> ->]; [|done].
  pose proof (Nat.Div0.mul_div_le k BSIZE). unfold BSIZE, BSZ in *. lia.
Qed.

(** The other files are not touched by a write. *)
Lemma wrote_others D F ds i off src s V s' V' j :
  inv D F ds s V → wrote i off src s V s' V' → inode_no (sb s) j → j ≠ i →
  V' j = V j ∧ file_of (blk s') (V' j) = file_of (blk s) (V j).
Proof.
  intros Hv Hw Hj Hne. pose proof (wr_others _ _ _ _ _ _ _ Hw j Hne) as E. split; [done|]. rewrite E.
  unfold file_of. f_equal. apply contents_ext; [done|]. intros n Hn.
  pose proof (dok_holes _ _ (dv_ok _ _ _ _ _ (inv_disk _ _ _ _ _ Hv) j Hj) n Hn) as H0.
  split; [rewrite <- E at 1; by apply (wr_other_ptrs _ _ _ _ _ _ _ Hw)|].
  apply (wr_data _ _ _ _ _ _ _ Hw); [done..|apply fidx_range|done].
Qed.

Lemma same_data_file D F ds s V s' j :
  inv D F ds s V → same_data ds s s' → inode_no (sb s) j → file_of (blk s') (V j) = file_of (blk s) (V j).
Proof.
  intros Hv Hs Hj. unfold file_of. f_equal. apply contents_ext; [done|]. intros n Hn.
  pose proof (dok_holes _ _ (dv_ok _ _ _ _ _ (inv_disk _ _ _ _ _ Hv) j Hj) n Hn) as H0.
  split; [by eapply same_data_ptr|]. apply Hs. by destruct (dv_range _ _ _ _ _ (inv_disk _ _ _ _ _ Hv) j _ Hj H0).
Qed.

(** The contents of a file of [n] bytes after a write. *)
Lemma wrote_contents D F ds i off src s V s' V' y :
  inv D F ds s V → inode_no (sb s) i → wrote i off src s V s' V' →
  (off ≤ Z.to_nat (size (V i)))%nat → addrs y = addrs (V' i) →
  size y = Z.max (size (V i)) (Z.of_nat (off + length src)) →
  contents (blk s') y = splice off src (contents (blk s) (V i)).
Proof.
  intros Hv Hi Hw Hoff Ha Hs. pose proof (contents_length (blk s) (V i)) as Hl.
  destruct (dv_ok _ _ _ _ _ (inv_disk _ _ _ _ _ Hv) i Hi) as [Hfit _ Hh _]. pose proof (fits_size _ Hfit) as [Hs0 _].
  assert (Hfb : ∀ o, fbyte (blk s') y o = fbyte (blk s') (V' i) o).
  { intros o. unfold fbyte. by rewrite (ptr_addrs _ y (V' i)). }
  unfold splice. apply list_eq. intros o. destruct (decide (o < Z.to_nat (size y))%nat) as [Ho|Ho].
  2: { rewrite !lookup_ge_None_2; [done|..]; rewrite ?length_app, ?length_take, ?length_drop, ?contents_length; lia. }
  rewrite contents_lookup, Hfb by done. destruct (decide (off ≤ o < off + length src)%nat) as [Hin|Hout].
  - rewrite lookup_app_r, lookup_app_l by (rewrite length_take; lia). rewrite length_take, Hl.
    destruct (lookup_lt_is_Some_2 src (o - off)) as [b Hb]; [lia|].
    replace (o - _)%nat with (o - off)%nat by lia. rewrite Hb. f_equal.
    rewrite <- (wr_new _ _ _ _ _ _ _ Hw _ _ Hb). f_equal. lia.
  - assert (Hlt : (o < Z.to_nat (size (V i)))%nat) by lia.
    rewrite (wr_old _ _ _ _ _ _ _ Hw); [| |lia].
    2: { apply Hh. pose proof (Nat.Div0.mul_div_le o BSIZE). unfold BSIZE, BSZ in *. lia. }
    rewrite <- contents_lookup by done. destruct (decide (o < off)%nat).
    + rewrite lookup_app_l by (rewrite length_take; lia). by rewrite lookup_take_lt.
    + rewrite !lookup_app_r by (rewrite length_take; lia). rewrite lookup_drop. f_equal. rewrite length_take. lia.
Qed.

Lemma writei_loop_spec (D F : Z → Prop) ds ip i fuel : D i → ∀ s V e off src,
  inv D F ds s V → cached s V ip i e → Forall is_byte src → 0 ≤ off →
  off + Z.of_nat (length src) ≤ MAXFILE * BSZ → (0 < fuel)%nat →
  (0 < Z.of_nat (length src) → off mod BSZ + Z.of_nat (length src) ≤ BSZ * (Z.of_nat fuel - 1)) →
  wpf (writei_loop fuel ip off src) (λ _ s', ∃ V', written D F ds ip i e (Z.to_nat off) src s V s' V') s.
Proof.
  intros HD. induction fuel as [|fuel IH]; intros s V e off src Hv Hc Hsrc Hoff Hmax Hpos Hfuel; [lia|].
  cbn [writei_loop]. case_bool_decide as Hlen.
  2: { apply wpf_ret. exists V. destruct src; [by apply written_nil|simpl in Hlen; lia]. }
  pose proof (Z.mod_pos_bound off BSZ eq_refl) as Hm. specialize (Hfuel ltac:(lia)).
  assert (Hbn : 0 ≤ off / BSZ < MAXFILE).
  { split; [apply Z.div_pos; unfold BSZ; lia|]. apply Z.div_lt_upper_bound; [done|]. unfold BSZ in *. lia. }
  apply wpf_bind. eapply wpf_mono; [by apply (bmap_spec D F ds ip i HD e s V)|]. intros a s1 [V1 H1]. cbn beta.
  eapply wpf_step; [done|]. cbn zeta. set (m := Z.min _ _).
  eapply wpf_step; [apply log_write_eq|].
  assert (Hlm : length (take (Z.to_nat m) src) = Z.to_nat m) by (rewrite length_take; unfold m; lia).
  assert (Hld : length (drop (Z.to_nat m) src) = (length src - Z.to_nat m)%nat) by apply length_drop.
  assert (Hb : written D F ds ip i e (Z.to_nat off) (take (Z.to_nat m) src) s V
    (log_blk a (splice (Z.to_nat (off mod BSZ)) (take (Z.to_nat m) src) (blk s1 a)) s1) V1).
  { apply written_block; try done; [by apply Forall_take|unfold m in *; lia..]. }
  assert (Hnext : (off + m) mod BSZ = 0 ∨ (length src - Z.to_nat m = 0)%nat).
  { destruct (decide (Z.of_nat (length src) ≤ BSZ - off mod BSZ)); [right; unfold m; lia|left].
    unfold m. rewrite Z.min_r by lia. rewrite (Z.div_mod off BSZ) at 1 by done.
    replace (BSZ * (off / BSZ) + off mod BSZ + (BSZ - off mod BSZ)) with ((off / BSZ + 1) * BSZ) by lia.
    by apply Z.mod_mul. }
  eapply wpf_mono.
  { apply (IH _ V1 (set_di (V1 i) e)); [apply Hb|apply Hb|by apply Forall_drop|..];
      rewrite ?Hld; unfold m in *; unfold BSZ, MAXFILE in *; lia. }
  intros _ s2 [V2 H2]. exists V2. rewrite <- (take_drop (Z.to_nat m) src). eapply written_trans; [exact Hb|].
  rewrite Hlm. by replace (Z.to_nat off + Z.to_nat m)%nat with (Z.to_nat (off + m)) by (unfold m; lia).
Qed.

Section Writei.

Context (D F : Z → Prop) (ds : Z) (ip : nat) (i : Z).
Context (dev_write : Z → option (nat → list Z → M fss Z)).

(** A write inside the file does not change the inode. *)
Lemma written_inside e off src s V s1 V1 :
  inv D F ds s V → ¬ D i → cached s V ip i e →
  written (or_dirty i D) F ds ip i e off src s V s1 V1 →
  (off ≤ Z.to_nat (size (V i)))%nat → Z.of_nat (off + length src) ≤ size (V i) →
  updated D F ds ip i e s V (set_data (splice off src (contents (blk s) (V i))) (file_of (blk s) (V i))) s1 V1.
Proof.
  intros Hv HnD Hc Hw Hoff Hin. pose proof (cached_no _ _ _ _ _ _ _ _ Hv Hc) as Hi.
  pose proof (wn_wrote _ _ _ _ _ _ _ _ _ _ _ _ Hw) as Hwr.
  assert (V1 = V) as ->.
  { apply Hw. intros k Hk. apply (dok_holes _ _ (dv_ok _ _ _ _ _ (inv_disk _ _ _ _ _ Hv) i Hi)).
    pose proof (Nat.Div0.mul_div_le (off + k) BSIZE). unfold BSIZE, BSZ in *. lia. }
  split; try apply Hw.
  - eapply inv_clean; [apply Hw|apply Hw|]. rewrite (wr_sb _ _ _ _ _ _ _ Hwr).
    unfold disk_inode. rewrite (wr_inodes _ _ _ _ _ _ _ Hwr) by done. by apply Hv.
  - unfold file_of, set_data. simpl. f_equal. eapply wrote_contents; try done. lia.
  - intros j Hj Hne. by eapply wrote_others.
Qed.

(** A write past the end sets the size and updates the inode on the disk. *)
Lemma written_past e off src s V s1 V1 :
  inv D F ds s V → cached s V ip i e →
  written (or_dirty i D) F ds ip i e off src s V s1 V1 →
  (off ≤ Z.to_nat (size (V i)))%nat → size (V i) < Z.of_nat (off + length src) ≤ MAXFILE * BSZ →
  wpt (iset ip (λ i, set_di (set_size (Z.of_nat (off + length src)) (di i)) i) ;; iupdate ip)
    (λ _ s', ∃ V', updated D F ds ip i e s V
      (set_data (splice off src (contents (blk s) (V i))) (file_of (blk s) (V i))) s' V') s1.
Proof.
  intros Hv Hc Hw Hoff Hsz. pose proof (cached_no _ _ _ _ _ _ _ _ Hv Hc) as Hi.
  pose proof (wn_wrote _ _ _ _ _ _ _ _ _ _ _ _ Hw) as Hwr. pose proof (wn_inv _ _ _ _ _ _ _ _ _ _ _ _ Hw) as Hv1.
  pose proof (wn_cached _ _ _ _ _ _ _ _ _ _ _ _ Hw) as Hc1. pose proof (wr_sb _ _ _ _ _ _ _ Hwr) as Esb.
  apply wpt_bind. eapply wpt_eq; [by apply iset_eq, Hc1|]. cbn beta. cbn [di set_di].
  set (y := set_size _ (V1 i)).
  assert (Hi1 : inode_no (sb s1) i) by (by rewrite Esb).
  assert (Hoky : dinode_ok (blk s1) y).
  { destruct (dv_ok _ _ _ _ _ (inv_disk _ _ _ _ _ Hv1) i Hi1) as [Hfit Hms Hh Hfr].
    destruct (dv_ok _ _ _ _ _ (inv_disk _ _ _ _ _ Hv) i Hi) as [_ _ Hh0 _].
    split; [destruct Hfit; split; try done; unfold is_uint, MAXFILE, BSZ in *; simpl; lia|simpl; lia| |].
    - intros n Hn. rewrite (ptr_addrs _ y (V1 i)) by done. simpl in Hn.
      destruct (decide (Z.of_nat n * BSZ < size (V i))) as [Hlt|Hge].
      + rewrite (wr_ptrs _ _ _ _ _ _ _ Hwr); by apply Hh0.
      + pose proof (wr_mapped _ _ _ _ _ _ _ Hwr (n * BSIZE - off)) as Hm.
        replace (off + (n * BSIZE - off))%nat with (n * BSIZE)%nat in Hm by (unfold BSIZE, BSZ in *; lia).
        rewrite Nat.div_mul in Hm by done. apply Hm. unfold BSIZE, BSZ in *. lia.
    - intros Ht k. rewrite (ptr_addrs _ y (V1 i)) by done. by apply Hfr. }
  destruct (set_meta (or_dirty i D) F ds s1 V1 ip i (set_di (V1 i) e) y Hv1 ltac:(by left) Hc1 eq_refl Hoky) as [Hv2 Hc2].
  { apply Hc1. }
  assert (EV : <[i := y]> V1 i = y) by apply fn_lookup_insert.
  eapply wpt_mono; [by eapply iupdate_spec|]. intros _ s' (Hv3 & Hc3 & Eic & Esb3 & Hsd). cbn beta.
  exists (<[i := y]> V1). split; rewrite ?EV; try done.
  - rewrite Eic. simpl. rewrite (wn_icache _ _ _ _ _ _ _ _ _ _ _ _ Hw). by rewrite list_insert_insert_eq.
  - by rewrite Esb3.
  - rewrite <- EV at 1. erewrite same_data_file; [|exact Hv2|exact Hsd|done]. rewrite EV.
    unfold file_of, set_data. simpl. destruct Hwr. f_equal; [done..|].
    eapply wrote_contents; [exact Hv|done|exact (wn_wrote _ _ _ _ _ _ _ _ _ _ _ _ Hw)|done|done|simpl; lia].
  - intros j Hj Hne. rewrite fn_insert_other by done.
    destruct (wrote_others _ _ _ _ _ _ _ _ _ _ j Hv Hwr Hj Hne) as [E1 E2]. split; [done|]. rewrite <- E2.
    rewrite <- (fn_insert_other V1 i y j) by done. exact (same_data_file _ _ _ _ _ _ j Hv2 Hsd ltac:(by simpl; rewrite Esb)).
Qed.

(** [writei] inside the limits replaces the bytes from [off] on. *)
Lemma writei_spec e s V off src :
  inv D F ds s V → ¬ D i → cached s V ip i e → type (V i) ≠ T_DEV → Forall is_byte src →
  0 ≤ off ≤ size (V i) → off + Z.of_nat (length src) ≤ MAXFILE * BSZ →
  wpf (writei dev_write ip src off) (λ r s', r = Z.of_nat (length src) ∧ ∃ V', updated D F ds ip i e s V
    (set_data (splice (Z.to_nat off) src (contents (blk s) (V i))) (file_of (blk s) (V i))) s' V') s.
Proof.
  intros Hv HnD Hc Ht Hsrc Hoff Hmax. unfold writei. eapply wpf_step; [by apply iget_at_eq, Hc|].
  cbn beta zeta. rewrite (ca_di _ _ _ _ _ Hc). rewrite (bool_decide_eq_false_2 _ Ht).
  set (n := Z.of_nat (length src)) in *. rewrite u32_small by (unfold MAXFILE, BSZ in *; lia).
  rewrite (bool_decide_eq_false_2 (size (V i) < off)) by lia.
  rewrite (bool_decide_eq_false_2 (off + n < off)) by lia. cbn [orb].
  rewrite (bool_decide_eq_false_2 (MAXFILE * BSZ < off + n)) by lia.
  assert (0 ≤ n / BSZ) by (apply Z.div_pos; unfold BSZ; lia).
  pose proof (Z.mod_pos_bound off BSZ eq_refl). pose proof (Z.mod_pos_bound n BSZ eq_refl).
  pose proof (Z.div_mod n BSZ ltac:(unfold BSZ; lia)).
  apply wpf_bind. eapply wpf_mono.
  { apply (writei_loop_spec (or_dirty i D) F ds ip i); [by left|eapply inv_D; [exact Hv|by right]|exact Hc|done|lia|done|lia|unfold BSZ in *; lia]. }
  intros _ s1 [V1 Hw]. cbn beta. eapply wpf_step; [apply iget_at_eq, Hw|]. cbn [di set_di].
  rewrite (wr_size _ _ _ _ _ _ _ (wn_wrote _ _ _ _ _ _ _ _ _ _ _ _ Hw)).
  apply wpf_bind. destruct (decide (size (V i) < off + n)) as [Hpast|Hin].
  - rewrite (bool_decide_eq_true_2 (0 < n)) by lia. rewrite (bool_decide_eq_true_2 _ Hpast). cbn [andb].
    replace (off + n) with (Z.of_nat (Z.to_nat off + length src)) by lia.
    eapply wpf_mono; [eapply wpf_wpt, (written_past e); [exact Hv|exact Hc|exact Hw|lia|lia]|].
    intros _ s' [V' Hup]. apply wpf_ret. split; [done|]. by exists V'.
  - rewrite (bool_decide_eq_false_2 _ Hin), andb_false_r. apply wpf_ret, wpf_ret. split; [done|]. exists V1.
    apply (written_inside e); (done || lia).
Qed.

Lemma writei_error e s V off src :
  cached s V ip i e → type (V i) ≠ T_DEV →
  size (V i) < off ∨ u32 (off + Z.of_nat (length src)) < off ∨ MAXFILE * BSZ < off + Z.of_nat (length src) →
  writei dev_write ip src off s = Ok (-1) s.
Proof.
  intros Hc Ht Hor. unfold writei.
  rewrite (bind_step _ _ _ _ _ (iget_at_eq _ _ _ (ca_entry _ _ _ _ _ Hc))). rewrite (ca_di _ _ _ _ _ Hc).
  cbn zeta. rewrite (bool_decide_eq_false_2 _ Ht). destruct Hor as [H|[H|H]].
  - by rewrite (bool_decide_eq_true_2 _ H).
  - by rewrite (bool_decide_eq_true_2 _ H), orb_true_r.
  - rewrite (bool_decide_eq_true_2 _ H). by destruct (_ || _).
Qed.

End Writei.

End FsWrite.
