(* ===== verification/FsTrunc.v ===== *)
(** * Removing files

    [itrunc] of [Fs] frees every block of a file, and no other block. *)

From S2P Require Import Prelude Log Fs FsInv FsAlloc FsFile FsWrite.

Module FsTrunc.

Import Fs FsInv FsAlloc FsFile FsWrite.

(** The inode without its blocks. *)
Definition emptied (x : dinode) : dinode :=
  Dinode (type x) (major x) (minor x) (nlink x) 0 (replicate (NDIRECT + 1) 0).

(** The inode while its first [k] pointers are cleared. *)
Definition zeroed (k : nat) (x : dinode) : dinode :=
  Dinode (type x) (major x) (minor x) (nlink x) (size x) (replicate k 0 ++ drop k (addrs x)).

Lemma addr_at_replicate x n k : addrs x = replicate n 0 → addr_at x k = 0.
Proof.
  intros E. unfold addr_at. rewrite E. destruct (replicate n 0 !! k) eqn:El; [|done].
  by apply lookup_replicate in El as [-> _].
Qed.

Lemma ptr_emptied f x k : ptr f (emptied x) k = 0.
Proof.
  assert (Ha : ∀ l, addr_at (emptied x) l = 0) by (intros l; by apply (addr_at_replicate _ (NDIRECT + 1))).
  unfold ptr. destruct (k <=? NDIRECT)%nat; [apply Ha|]. by rewrite Ha.
Qed.

Lemma emptied_ok f x : dinode_fits x → dinode_ok f (emptied x).
Proof.
  intros []. split; [split; try done|done| |].
  - apply (Forall_replicate is_uint). unfold is_uint. lia.
  - simpl. unfold BSZ. lia.
  - intros _ k. apply ptr_emptied.
Qed.

Lemma zeroed_0 x : zeroed 0 x = x.
Proof. by destruct x. Qed.

Lemma addr_at_zeroed x k : addr_at (zeroed k x) k = addr_at x k.
Proof.
  unfold addr_at, zeroed. cbn [addrs]. rewrite lookup_app_r by (rewrite length_replicate; lia).
  rewrite length_replicate, lookup_drop. do 2 f_equal. lia.
Qed.

Lemma zeroed_S x k : (k < length (addrs x))%nat → set_addr k 0 (zeroed k x) = zeroed (S k) x.
Proof.
  intros Hk. unfold set_addr, zeroed. cbn [type major minor nlink size addrs]. f_equal.
  destruct (lookup_lt_is_Some_2 _ _ Hk) as [a Ha]. rewrite (drop_S _ _ _ Ha).
  rewrite insert_app_r_alt by (rewrite length_replicate; lia). rewrite length_replicate, Nat.sub_diag.
  cbn [insert list_insert]. by rewrite cons_middle, app_assoc, <- replicate_cons_app.
Qed.

Lemma zeroed_skip x k : (k < length (addrs x))%nat → addr_at x k = 0 → zeroed (S k) x = zeroed k x.
Proof.
  intros Hk H0. rewrite <- zeroed_S by done. unfold set_addr. destruct x as [t ma mi nl sz l]. unfold zeroed.
  cbn [type major minor nlink size addrs] in *. f_equal. apply list_insert_id.
  pose proof (addr_at_zeroed (Dinode t ma mi nl sz l) k) as E. rewrite H0 in E. unfold addr_at, zeroed in E.
  cbn [addrs] in E. destruct (_ !! k) as [a|] eqn:Ea; [simpl in E; by subst|].
  apply lookup_ge_None_1 in Ea. rewrite length_app, length_replicate, length_drop in Ea. lia.
Qed.

Lemma zeroed_all x : length (addrs x) = (NDIRECT + 1)%nat → set_size 0 (zeroed (NDIRECT + 1) x) = emptied x.
Proof.
  intros Hl. unfold set_size, zeroed, emptied. cbn [type major minor nlink size addrs].
  rewrite drop_ge by lia. by rewrite app_nil_r.
Qed.

Section Trunc.

Context (D F : Z → Prop) (ds : Z) (s : fss) (V : Z → dinode) (ip : nat) (i : Z) (e : inode).
Context (Hv : inv D F ds s V) (HnD : ¬ D i) (Hc : cached s V ip i e).

Let V0 : Z → dinode := <[i := emptied (V i)]> V.

(** The blocks in flight while the pointers in [P] are still to be freed. *)
Definition rem (P : nat → Prop) : Z → Prop := λ b, F b ∨ b ≠ 0 ∧ ∃ k, P k ∧ ptr (blk s) (V i) k = b.

(** The state while the pointers in [P] are to be freed and the cached inode is [y]. *)
Record truncating (P : nat → Prop) (y : dinode) (s' : fss) : Prop := Truncating {
  tr_inv : inv (or_dirty i D) (rem P) ds s' V0;
  tr_icache : icache s' = <[ip := set_di y e]> (icache s);
  tr_sb : sb s' = sb s;
  tr_data : ∀ b, b < sb_bmapstart (sb s) ∨ ds ≤ b → blk s' b = blk s b;
}.

Lemma trunc_no : inode_no (sb s) i.
Proof. by eapply cached_no. Qed.

Lemma trunc_fits : dinode_fits (V i).
Proof. apply (dok_fits (blk s)), (dv_ok _ _ _ _ _ (inv_disk _ _ _ _ _ Hv)), trunc_no. Qed.

Lemma truncating_entry P y s' : truncating P y s' → icache s' !! ip = Some (set_di y e).
Proof.
  intros Ht. rewrite (tr_icache _ _ _ Ht). apply list_lookup_insert_eq.
  eapply lookup_lt_Some, Hc.
Qed.

(** All blocks of the inode are in flight before the first is freed. *)
Lemma truncating_start : truncating (λ _, True) (V i) s.
Proof.
  pose proof (inv_disk _ _ _ _ _ Hv) as Hd. pose proof trunc_no as Hi.
  assert (EV : V0 i = emptied (V i)) by apply fn_lookup_insert.
  assert (HV : ∀ j, j ≠ i → V0 j = V j) by apply fn_insert_other.
  assert (Ee : set_di (V i) e = e) by (rewrite <- (ca_di _ _ _ _ _ Hc); apply set_di_same).
  split; [split| |done|done].
  - eapply (disk_inv_remove F ds (sb s) (blk s) (blk s) V V0 Hd) with (i := i) (P := λ _, True); [apply Hd|done|done|done| |].
    + intros j k Hj. destruct (decide _) as [[-> _]|Hn]; [rewrite EV; apply ptr_emptied|].
      rewrite HV; [done|]. naive_solver.
    + intros j Hj. destruct (decide (j = i)) as [->|]; [rewrite EV; apply emptied_ok, trunc_fits|].
      rewrite HV by done. by eapply dv_ok.
  - intros j Hj Hn. rewrite HV by (intros ->; apply Hn; by left). apply Hv; [done|]. intros HD. apply Hn. by right.
  - eapply (inv_D D (or_dirty i D)) in Hv as Hv'; [|by right]. destruct (inv_cache _ _ _ _ _ Hv') as [Hr He Hu].
    split; [done| |done]. intros jp e' Hj Href. destruct (He jp e' Hj Href) as (? & ? & Hval). split_and!; [done|done|].
    intros Hva Hn. rewrite HV by (intros Ei; apply Hn; by left). by apply Hval.
  - rewrite Ee, list_insert_id; [done|apply Hc].
Qed.

(** Freeing pointer [k]. *)
Lemma rem_step (P : nat → Prop) k b :
  P k → ptr (blk s) (V i) k ≠ 0 →
  rem P b ∧ b ≠ ptr (blk s) (V i) k ↔ rem (λ l, P l ∧ l ≠ k) b.
Proof.
  intros HP H0. pose proof (inv_disk _ _ _ _ _ Hv) as Hd. pose proof trunc_no as Hi. unfold rem. split.
  - intros [[?|(Hb & l & HPl & <-)] Hne]; [by left|]. right. split; [done|]. exists l. split; [|done].
    split; [done|]. by intros ->.
  - intros [HF|(Hb & l & [HPl Hl] & <-)].
    + split; [by left|]. intros ->. destruct (dv_flight _ _ _ _ _ Hd _ HF) as [_ Hfr]. by destruct (Hfr i k Hi).
    + split; [right; eauto|]. intros E. apply Hl. by destruct (dv_inj _ _ _ _ _ Hd i i l k Hi Hi Hb E).
Qed.

Lemma rem_skip (P : nat → Prop) k b :
  ptr (blk s) (V i) k = 0 → rem P b ↔ rem (λ l, P l ∧ l ≠ k) b.
Proof.
  intros H0. unfold rem. split; (intros [?|(Hb & l & HPl & <-)]; [by left|]; right; split; [done|]; exists l).
  - split; [|done]. split; [done|]. by intros ->.
  - by destruct HPl.
Qed.

Lemma rem_ext (P Q : nat → Prop) b : (∀ k, ptr (blk s) (V i) k ≠ 0 → P k ↔ Q k) → rem P b ↔ rem Q b.
Proof.
  intros E. unfold rem. split; (intros [?|(Hb & l & HPl & <-)]; [by left|]; right; split; [done|]; exists l; split; [|done]; by apply E).
Qed.

Lemma truncating_ext P Q y s' :
  truncating P y s' → (∀ k, ptr (blk s) (V i) k ≠ 0 → P k ↔ Q k) → truncating Q y s'.
Proof. intros [] E. split; try done. eapply inv_F; [done|]. intros b. by apply rem_ext. Qed.

Lemma bfree_ptr P y s' k :
  truncating P y s' → P k → ptr (blk s) (V i) k ≠ 0 →
  wpt (bfree (ptr (blk s) (V i) k)) (λ _ s2, truncating (λ l, P l ∧ l ≠ k) y s2) s'.
Proof.
  intros [Hi Hic Hsb Hda] HP H0. eapply wpt_mono; [eapply bfree_spec; [exact Hi|right; by eauto]|].
  intros ? s2 (Hi2 & Esb & Eic & Hda2). cbn beta. split.
  - eapply inv_F; [exact Hi2|]. intros b. by apply rem_step.
  - by rewrite Eic.
  - by rewrite Esb.
  - intros b Hb. rewrite Hda2; [by apply Hda|by rewrite Hsb|by intros []].
Qed.

(** The cached inode changes. *)
Lemma truncating_iset P y g s' :
  truncating P y s' →
  wpt (iset ip (λ j, set_di (g (di j)) j)) (λ _ s2, truncating P (g y) s2) s'.
Proof.
  intros Ht. pose proof (truncating_entry _ _ _ Ht) as He. destruct Ht as [Hi Hic Hsb Hda].
  eapply wpt_eq; [by apply iset_eq|]. split; [|simpl; by rewrite Hic, list_insert_insert_eq|done|done].
  destruct Hi as [Hd Hs Hca]. split; [done|done|].
  eapply cache_inv_dirty in Hca; [exact Hca|exact He| |done]. left. apply Hc.
Qed.

Lemma itrunc_direct_spec :
  wpt (itrunc_direct ip) (λ _ s', truncating (λ l, (NDIRECT ≤ l)%nat) (zeroed NDIRECT (V i)) s') s.
Proof.
  pose proof (fits_length _ trunc_fits) as Hlen.
  apply (wpt_for_range (λ k s', truncating (λ l, (k ≤ l)%nat) (zeroed k (V i)) s') _ 0 NDIRECT).
  { rewrite zeroed_0. eapply truncating_ext; [apply truncating_start|]. intros; cbn beta; lia. }
  intros k s' Hk Ht. apply wpt_bind. eapply wpt_eq; [by apply iget_at_eq, (truncating_entry _ _ _ Ht)|].
  cbn beta zeta. cbn [di set_di]. rewrite addr_at_zeroed. rewrite <- (ptr_direct (blk s)) by lia.
  case_bool_decide as H0.
  - apply wpt_bind. eapply wpt_mono; [by apply bfree_ptr; [exact Ht|cbn beta; lia|]|]. intros ? s2 Ht2. cbn beta.
    eapply wpt_mono; [exact (truncating_iset _ _ (set_addr k 0) _ Ht2)|]. intros ? s3 Ht3. cbn beta.
    rewrite zeroed_S in Ht3 by lia. eapply truncating_ext; [exact Ht3|]. intros; cbn beta; lia.
  - apply wpt_ret.
    rewrite zeroed_skip by (lia || by rewrite <- (ptr_direct (blk s)) by lia).
    eapply truncating_ext; [exact Ht|]. intros l Hl. assert (l ≠ k) by (intros ->; done). cbn beta; lia.
Qed.

(** The indirect block and the blocks in it. *)
Lemma itrunc_indirect_spec s' :
  truncating (λ l, (NDIRECT ≤ l)%nat) (zeroed NDIRECT (V i)) s' →
  wpt (let ind := addr_at (zeroed NDIRECT (V i)) NDIRECT in
       if bool_decide (ind ≠ 0) then
         d ← bread ind;
         for_range 0 (Z.to_nat NINDIRECT) (λ j,
           let a := getu32 d (4 * j) in if bool_decide (a ≠ 0) then bfree a else mret tt) ;;
         bfree ind ;;
         iset ip (λ i, set_di (set_addr NDIRECT 0 (di i)) i)
       else mret tt) (λ _ s2, truncating (λ _, False) (zeroed (NDIRECT + 1) (V i)) s2) s'.
Proof.
  intros Ht. cbn zeta. rewrite addr_at_zeroed. pose proof (fits_length _ trunc_fits) as Hlen. pose proof trunc_no as Hi.
  case_bool_decide as Hind.
  - destruct (indirect_range _ _ _ _ _ Hv i Hi Hind) as [Hir _].
    apply wpt_bind. eapply wpt_eq; [done|]. cbn beta. rewrite (tr_data _ _ _ Ht) by (right; lia).
    apply wpt_bind. eapply wpt_mono.
    { apply (wpt_for_range (λ j s2, truncating (λ l, l = NDIRECT ∨ (NDIRECT + 1 + j ≤ l)%nat) (zeroed NDIRECT (V i)) s2)).
      - eapply truncating_ext; [exact Ht|]. intros; cbn beta; lia.
      - intros j s2 Hj Ht2. rewrite <- ptr_indirect by done. case_bool_decide as H0.
        + eapply wpt_mono; [apply bfree_ptr; [exact Ht2|cbn beta; lia|done]|]. intros ? s3 Ht3.
          eapply truncating_ext; [exact Ht3|]. intros; cbn beta; lia.
        + apply wpt_ret. eapply truncating_ext; [exact Ht2|]. intros l Hl.
          assert (l ≠ NDIRECT + 1 + j)%nat by (intros ->; done). cbn beta. lia. }
    intros ? s2 Ht2. cbn beta. apply wpt_bind. rewrite <- (ptr_direct (blk s)) by lia. eapply wpt_mono.
    { apply bfree_ptr; [exact Ht2|by left|by rewrite ptr_direct]. }
    intros ? s3 Ht3. eapply wpt_mono; [exact (truncating_iset _ _ (set_addr NDIRECT 0) _ Ht3)|]. intros ? s4 Ht4. cbn beta.
    rewrite zeroed_S in Ht4 by lia. eapply truncating_ext; [exact Ht4|]. intros l Hl. split; [|done].
    intros [[?|Hle] ?]; [done|]. apply Hl. apply ptr_last; [apply Hv|]. lia.
  - apply wpt_ret. rewrite Nat.add_1_r, zeroed_skip by (done || lia).
    eapply truncating_ext; [exact Ht|]. intros l Hl. split; [|done]. intros Hle. apply Hl.
    destruct (decide (l = NDIRECT)) as [->|]; [by rewrite ptr_direct|]. apply ptr_no_indirect; [lia|done].
Qed.

(** [itrunc] empties the file. *)
Lemma itrunc_spec :
  wpt (itrunc ip) (λ _ s', updated D F ds ip i e s V (set_data [] (file_of (blk s) (V i))) s' V0 ∧ same_data ds s s') s.
Proof.
  pose proof (fits_length _ trunc_fits) as Hlen. pose proof trunc_no as Hi.
  assert (EV : V0 i = emptied (V i)) by apply fn_lookup_insert.
  unfold itrunc. apply wpt_bind. eapply wpt_mono; [apply itrunc_direct_spec|]. intros ? s1 Ht1. cbn beta.
  apply wpt_bind. eapply wpt_eq; [by apply iget_at_eq, (truncating_entry _ _ _ Ht1)|]. cbn beta. cbn [di set_di].
  apply wpt_bind. eapply wpt_mono; [by apply itrunc_indirect_spec|]. intros ? s2 Ht2. cbn beta.
  apply wpt_bind. eapply wpt_mono; [exact (truncating_iset _ _ (set_size 0) _ Ht2)|]. intros ? s3 Ht3. cbn beta.
  rewrite zeroed_all in Ht3 by done. pose proof (truncating_entry _ _ _ Ht3) as He3. destruct Ht3 as [Hv3 Hic3 Hsb3 Hda3].
  assert (Hc3 : cached s3 V0 ip i (set_di (emptied (V i)) e)).
  { destruct Hc. split; rewrite ?EV; done. }
  eapply wpt_mono; [by eapply iupdate_spec; [eapply inv_F; [exact Hv3|]|exact Hc3]|].
  intros ? s4 (Hv4 & Hc4 & Eic & Esb & Hsd). cbn beta.
  assert (Hsd4 : same_data ds s s4) by (intros b Hb; rewrite Hsd by done; apply Hda3; by right).
  split; [|done]. split; rewrite ?EV; try done.
  - eapply inv_F; [exact Hv4|]. intros b. unfold rem. naive_solver.
  - by rewrite Eic.
  - by rewrite Esb.
  - intros j Hj Hne. assert (EVj : V0 j = V j) by (by apply fn_insert_other). rewrite EVj.
    split; [done|]. by eapply same_data_file.
Qed.

End Trunc.

End FsTrunc.
