(* ===== verification/FsCache.v ===== *)
(** * The inode cache

    [iget], [idup], [ilock], [iunlock], [iput] and [ialloc] of [Fs]: references are
    counted, a locked inode shows the file, and the last reference to a file
    without links frees its inode and its blocks. *)

From S2P Require Import Prelude Log Fs FsInv FsAlloc FsFile FsWrite FsTrunc.

Module FsCache.

Import Fs FsInv FsAlloc FsFile FsWrite FsTrunc.

(** ** Reference counts *)

(** The references an entry holds to inode [i], and all references to it. *)
Definition contrib (e : inode) (i : Z) : Z := if bool_decide (0 < iref e ∧ inum e = i) then iref e else 0.
Definition refs (c : list inode) (i : Z) : Z := foldr (λ e n, contrib e i + n) 0 c.

Lemma refs_insert c ip e e' i :
  c !! ip = Some e → refs (<[ip := e']> c) i = refs c i - contrib e i + contrib e' i.
Proof.
  revert ip. induction c as [|a c IH]; intros ip He; [done|]. destruct ip as [|ip]; simpl in *.
  - injection He as ->. lia.
  - rewrite (IH ip He). lia.
Qed.

Lemma contrib_nonneg e i : 0 ≤ contrib e i.
Proof. unfold contrib. case_bool_decide; lia. Qed.

Lemma refs_nonneg c i : 0 ≤ refs c i.
Proof. induction c as [|e c IH]; simpl; [done|]. pose proof (contrib_nonneg e i). lia. Qed.

(** Inode [i] is referenced by entry [ip]. *)
Record held (s : fss) (ip : nat) (i : Z) (e : inode) : Prop := Held {
  he_entry : icache s !! ip = Some e;
  he_inum : inum e = i;
  he_ref : 0 < iref e;
}.

Lemma cached_held s V ip i e : cached s V ip i e → held s ip i e.
Proof. intros []. done. Qed.

Lemma held_no D F ds s V ip i e : inv D F ds s V → held s ip i e → inode_no (sb s) i ∧ idev e = ROOTDEV.
Proof.
  intros Hv [He Hi Hr]. destruct (cv_entry _ _ _ _ (inv_cache _ _ _ _ _ Hv) ip e He Hr) as (? & ? & _).
  by rewrite <- Hi.
Qed.

(** ** [iget] and [idup] *)

Lemma iget_scan_spec dev i l : ∀ k empty,
  match iget_scan l k dev i empty with
  | (Some r, _) => ∃ e, (k ≤ r)%nat ∧ l !! (r - k)%nat = Some e ∧ 0 < iref e ∧ idev e = dev ∧ inum e = i
  | (None, emp) =>
      (∀ j e, l !! j = Some e → ¬ (0 < iref e ∧ idev e = dev ∧ inum e = i)) ∧
      match empty, emp with
      | Some a, _ => emp = Some a
      | None, Some r => ∃ e, (k ≤ r)%nat ∧ l !! (r - k)%nat = Some e ∧ iref e = 0
      | None, None => ∀ j e, l !! j = Some e → iref e ≠ 0
      end
  end.
Proof.
  induction l as [|e l IH]; intros k empty; simpl; [by destruct empty|].
  case_bool_decide as Hm.
  - exists e. rewrite Nat.sub_diag. naive_solver.
  - set (empty' := match empty with None => _ | _ => _ end). specialize (IH (S k) empty').
    destruct (iget_scan l (S k) dev i empty') as [[r|] emp].
    + destruct IH as (e' & Hk & He & ?). exists e'. split; [lia|].
      replace (r - k)%nat with (S (r - S k)) by lia. done.
    + destruct IH as [Hno Hemp]. split; [intros [|j] e' He'; [by injection He' as ->|by eapply Hno]|].
      destruct empty as [a|]; [done|]. subst empty'. case_bool_decide as H0.
      * subst emp. exists e. by rewrite Nat.sub_diag.
      * destruct emp as [r|].
        -- destruct Hemp as (e' & Hk & He & ?). exists e'. split; [lia|].
           replace (r - k)%nat with (S (r - S k)) by lia. done.
        -- intros [|j] e' He'; [by injection He' as ->|by eapply Hemp].
Qed.

(** The cache after a reference to entry [ip] is taken or dropped. *)
Lemma cache_inv_ref D x c V ip e r :
  cache_inv D x c V → c !! ip = Some e → 0 < iref e → 0 ≤ r →
  cache_inv D x (<[ip := set_ref r e]> c) V.
Proof.
  intros [Hr He Hu] Hip Hpos Hr0. split.
  - intros jp e' Hj. apply list_lookup_insert_Some in Hj as [(-> & <- & _)|[_ Hj]]; [done|by eapply Hr].
  - intros jp e' Hj. apply list_lookup_insert_Some in Hj as [(-> & <- & _)|[_ Hj]]; [|by eapply He].
    intros _. exact (He jp e Hip Hpos).
  - intros j1 j2 e1 e2 H1 H2 P1 P2 E.
    apply list_lookup_insert_Some in H1 as [(-> & <- & _)|[_ H1]], H2 as [(<- & <- & _)|[_ H2]]; [done| | |].
    + by eapply (Hu j1 j2 e e2).
    + by eapply (Hu j1 ip e1 e).
    + by eapply (Hu j1 j2 e1 e2).
Qed.

(** The cache after entry [ip], which is free, is given to inode [i]. *)
Lemma cache_inv_new D x c V ip e i :
  cache_inv D x c V → c !! ip = Some e → iref e = 0 → inode_no x i →
  (∀ j e', c !! j = Some e' → 0 < iref e' → inum e' ≠ i) →
  cache_inv D x (<[ip := Inode ROOTDEV i 1 (ilocked e) false (di e)]> c) V.
Proof.
  intros [Hr He Hu] Hip H0 Hi Hno. split.
  - intros jp e' Hj. apply list_lookup_insert_Some in Hj as [(-> & <- & _)|[_ Hj]]; [simpl; lia|by eapply Hr].
  - intros jp e' Hj. apply list_lookup_insert_Some in Hj as [(-> & <- & _)|[_ Hj]]; [done|by eapply He].
  - intros j1 j2 e1 e2 H1 H2 P1 P2 E.
    apply list_lookup_insert_Some in H1 as [(-> & <- & _)|[_ H1]], H2 as [(<- & <- & _)|[_ H2]]; [done| | |].
    + by destruct (Hno j2 e2 H2 P2).
    + by destruct (Hno j1 e1 H1 P1).
    + by eapply (Hu j1 j2 e1 e2).
Qed.

(** The state with another cache. *)
Lemma inv_icache D F ds s V c : inv D F ds s V → cache_inv D (sb s) c V → inv D F ds (set_icache c s) V.
Proof. intros [] Hc. by split. Qed.

(** A reference to inode [i] is taken in entry [k]: the entry of the inode, or one
    that was free. *)
Record gotten (s : fss) (i : Z) (k : nat) (s' : fss) : Prop := Gotten {
  go_blk : blk s' = blk s;
  go_sb : sb s' = sb s;
  go_entry : ∃ e e', icache s !! k = Some e ∧ icache s' = <[k := e']> (icache s) ∧ held s' k i e' ∧
    ilocked e' = ilocked e ∧ (held s k i e ∧ e' = set_ref (iref e + 1) e ∨ iref e = 0 ∧ iref e' = 1 ∧ valid e' = false);
}.

Lemma gotten_refs s i k s' j :
  gotten s i k s' → refs (icache s') j = refs (icache s) j + if bool_decide (j = i) then 1 else 0.
Proof.
  intros [_ _ (e & e' & He & -> & [He' Hi' Hr'] & _ & Hor)]. rewrite (refs_insert _ _ _ _ _ He).
  unfold contrib. destruct Hor as [[[_ Hi Hr] ->]|(H0 & H1 & _)]; simpl in *.
  - repeat case_bool_decide; subst; try lia; naive_solver lia.
  - rewrite H0, H1. repeat case_bool_decide; subst; try lia; naive_solver lia.
Qed.

Lemma iget_spec D F ds s V i :
  inv D F ds s V → inode_no (sb s) i →
  wpf (iget ROOTDEV i) (λ k s', inv D F ds s' V ∧ gotten s i k s') s.
Proof.
  intros Hv Hi. pose proof (inv_cache _ _ _ _ _ Hv) as Hca.
  unfold iget. eapply wpf_step; [done|]. cbn beta.
  pose proof (iget_scan_spec ROOTDEV i (icache s) 0 None) as Hscan.
  destruct (iget_scan _ _ _ _ _) as [[k|] emp].
  - destruct Hscan as (e & _ & He & Hr & Hdev & Hin). rewrite Nat.sub_0_r in He.
    eapply wpf_step; [by apply iset_eq|]. apply wpf_ret. split.
    + apply inv_icache; [done|]. apply cache_inv_ref; (done || lia).
    + split; [done|done|]. exists e, (set_ref (iref e + 1) e). split_and!; [done|done| |done|by left].
      split; simpl; [apply list_lookup_insert_eq; by eapply lookup_lt_Some|done|lia].
  - destruct Hscan as [Hno Hemp]. destruct emp as [k|].
    + destruct Hemp as (e & _ & He & H0). rewrite Nat.sub_0_r in He.
      eapply wpf_step; [by apply iset_eq|]. apply wpf_ret. split.
      * apply inv_icache; [done|]. apply cache_inv_new; [done..|]. intros j e' Hj Hr E.
        apply (Hno j e' Hj). destruct (cv_entry _ _ _ _ Hca j e' Hj Hr) as (? & _ & _). done.
      * split; [done|done|]. eexists e, _. split_and!; [done|done| |done|by right].
        split; simpl; [apply list_lookup_insert_eq; by eapply lookup_lt_Some|done|lia].
    + right. left. split; [done|]. exact Hemp.
Qed.

(** An inode that is in the cache is found there. *)
Lemma iget_found D F ds s V ip i e :
  inv D F ds s V → held s ip i e →
  iget ROOTDEV i s = Ok ip (set_icache (<[ip := set_ref (iref e + 1) e]> (icache s)) s).
Proof.
  intros Hv Hh. destruct (held_no _ _ _ _ _ _ _ _ Hv Hh) as [Hi Hdev]. destruct Hh as [He Hin Hr].
  unfold iget. rewrite (bind_step get _ s s s) by done.
  pose proof (iget_scan_spec ROOTDEV i (icache s) 0 None) as Hscan.
  destruct (iget_scan _ _ _ _ _) as [[k|] emp].
  - destruct Hscan as (e' & _ & He' & Hr' & Hdev' & Hin'). rewrite Nat.sub_0_r in He'.
    assert (k = ip) as -> by (eapply (cv_uniq _ _ _ _ (inv_cache _ _ _ _ _ Hv)); try done; congruence).
    assert (e' = e) as -> by congruence. by rewrite (bind_step _ _ _ _ _ (iset_eq _ _ _ _ He)).
  - by destruct Hscan as [Hno _]; destruct (Hno ip e He).
Qed.

Lemma idup_spec D F ds s V ip i e :
  inv D F ds s V → held s ip i e →
  wpt (idup ip) (λ k s', k = ip ∧ inv D F ds s' V ∧ gotten s i ip s') s.
Proof.
  intros Hv [He Hi Hr]. unfold idup. apply wpt_bind. eapply wpt_eq; [by apply iset_eq|].
  apply wpt_ret. split_and!; [done|apply inv_icache; [done|]; apply cache_inv_ref; (apply Hv || done || lia)|].
  split; [done|done|]. exists e, (set_ref (iref e + 1) e). split_and!; [done|done| |done|by left].
  split; simpl; [apply list_lookup_insert_eq; by eapply lookup_lt_Some|done|lia].
Qed.

(** ** [ilock] and [iunlock] *)

(** Entry [ip] changes, but not the inode it is for. *)
Lemma cache_inv_entry D x c V ip e e' :
  cache_inv D x c V → c !! ip = Some e → iref e' = iref e → inum e' = inum e → entry_ok D x V e' →
  cache_inv D x (<[ip := e']> c) V.
Proof.
  intros [Hr He Hu] Hip Er Ei Hok. split.
  - intros jp a Hj. apply list_lookup_insert_Some in Hj as [(-> & <- & _)|[_ Hj]]; [rewrite Er|]; by eapply Hr.
  - intros jp a Hj. apply list_lookup_insert_Some in Hj as [(-> & <- & _)|[_ Hj]]; [done|by eapply He].
  - intros j1 j2 e1 e2 H1 H2 P1 P2 E.
    apply list_lookup_insert_Some in H1 as [(-> & <- & _)|[_ H1]], H2 as [(<- & <- & _)|[_ H2]]; [done| | |].
    + rewrite Er in P1. rewrite Ei in E. by eapply (Hu j1 j2 e e2).
    + rewrite Er in P2. rewrite Ei in E. by eapply (Hu j1 ip e1 e).
    + by eapply (Hu j1 j2 e1 e2).
Qed.

(** A locked, valid entry. *)
Definition locked_entry (V : Z → dinode) (i : Z) (r : Z) : inode := Inode ROOTDEV i r true true (V i).

Section Lock.

Context (D F : Z → Prop) (ds : Z) (s : fss) (V : Z → dinode) (ip : nat) (i : Z) (e : inode).
Context (Hv : inv D F ds s V) (HnD : ¬ D i).

(** [ilock] reads the inode from the disk unless the entry is valid. *)
Lemma ilock_spec :
  held s ip i e → ilocked e = false → type (V i) ≠ 0 →
  let s' := set_icache (<[ip := locked_entry V i (iref e)]> (icache s)) s in
  ilock ip s = Ok tt s' ∧ inv D F ds s' V ∧ cached s' V ip i (locked_entry V i (iref e)).
Proof.
  intros Hh Hlk Ht s'. destruct (held_no _ _ _ _ _ _ _ _ Hv Hh) as [Hi Hdev]. destruct Hh as [He Hin Hr].
  pose proof (lookup_lt_Some _ _ _ He) as Hlt.
  assert (Es : ilock ip s = Ok tt s').
  { unfold ilock. rewrite (bind_step _ _ _ _ _ (iget_at_eq _ _ _ He)).
    rewrite (bool_decide_eq_false_2 (iref e < 1)) by lia.
    assert (Ha : acquire_inode ip s = Ok tt (set_icache (<[ip := set_locked true e]> (icache s)) s)).
    { unfold acquire_inode. rewrite (bind_step _ _ _ _ _ (iget_at_eq _ _ _ He)), Hlk. by apply iset_eq. }
    rewrite (bind_step _ _ _ _ _ Ha).
    assert (He1 : icache (set_icache (<[ip := set_locked true e]> (icache s)) s) !! ip = Some (set_locked true e)).
    { by apply list_lookup_insert_eq. }
    rewrite (bind_step _ _ _ _ _ (iget_at_eq _ _ _ He1)). cbn [valid set_locked]. destruct (valid e) eqn:Eva.
    - destruct (cv_entry _ _ _ _ (inv_cache _ _ _ _ _ Hv) ip e He Hr) as (_ & _ & Hval).
      destruct (Hval Eva) as [Hdi _]; [by rewrite Hin|]. unfold s', locked_entry. rewrite <- Hin, <- Hdev, <- Hdi.
      unfold set_locked. by rewrite Eva.
    - unfold mbind, M_bind, get, bread, gets. cbn [sb set_icache blk inum set_locked]. rewrite Hin.
      fold (disk_inode (sb s) (blk s) i). rewrite (inv_synced _ _ _ _ _ Hv i Hi HnD).
      rewrite (iset_eq _ _ _ _ He1). rewrite (bool_decide_eq_false_2 _ Ht). unfold mret, M_ret.
      unfold s', locked_entry, set_icache. cbn [icache blk logged sb]. rewrite list_insert_insert_eq.
      unfold set_valid, set_di, set_locked. cbn [idev inum iref ilocked valid di]. by rewrite Hin, Hdev. }
  split_and!; [done| |].
  - apply inv_icache; [done|]. eapply cache_inv_entry; [apply Hv|exact He|done|done|]. intros _. simpl. by split_and!.
  - split; try done. simpl. by apply list_lookup_insert_eq.
Qed.

Lemma iunlock_spec :
  cached s V ip i e → ilocked e = true →
  let s' := set_icache (<[ip := set_locked false e]> (icache s)) s in
  iunlock ip s = Ok tt s' ∧ inv D F ds s' V ∧ cached s' V ip i (set_locked false e).
Proof.
  intros Hc Hlk s'. pose proof Hc as [He Hin Hr Hva Hdi Ht]. pose proof (lookup_lt_Some _ _ _ He) as Hlt. split_and!.
  - unfold iunlock. rewrite (bind_step _ _ _ _ _ (iget_at_eq _ _ _ He)), Hlk. cbn [negb orb].
    rewrite (bool_decide_eq_false_2 (iref e < 1)) by lia. by apply iset_eq.
  - apply inv_icache; [done|]. eapply cache_inv_entry; [apply Hv|exact He|done|done|].
    intros _. exact (cv_entry _ _ _ _ (inv_cache _ _ _ _ _ Hv) ip e He Hr).
  - split; try done. simpl. by apply list_lookup_insert_eq.
Qed.

End Lock.

(** ** [iput] *)

(** The inode after [iput] frees it. *)
Definition freed (x : dinode) : dinode := set_type 0 (emptied x).

Lemma freed_ok f x : dinode_fits x → dinode_ok f (freed x).
Proof.
  intros Hx. destruct (emptied_ok f x Hx) as [Hfit Hs Hh Hfr]. split; try done.
  - destruct Hfit. by split.
  - intros _ k. rewrite (ptr_addrs _ _ (emptied x)) by done. apply ptr_emptied.
Qed.

(** An entry that is not valid shows nothing. *)
Lemma inv_invalid D F ds s V ip e i :
  inv (or_dirty i D) F ds s V → icache s !! ip = Some e → inum e = i → 0 < iref e →
  disk_inode (sb s) (blk s) i = V i →
  inv D F ds (set_icache (<[ip := set_valid false e]> (icache s)) s) V.
Proof.
  intros [Hd Hs [Hr He Hu]] Hip Hin Hpos Hdi. split; [done| |split].
  - intros j Hj HD. destruct (decide (j = i)) as [->|]; [done|]. apply Hs; [done|]. by intros [|].
  - intros jp a Hj. apply list_lookup_insert_Some in Hj as [(-> & <- & _)|[_ Hj]]; [by eapply (Hr jp e)|by eapply Hr].
  - intros jp a Hj. apply list_lookup_insert_Some in Hj as [(-> & <- & _)|[Hne Hj]]; intros Href.
    + destruct (He jp e Hip Hpos) as (? & ? & _). by split_and!.
    + destruct (He jp a Hj Href) as (? & ? & Hval). split_and!; [done|done|]. intros Hva HD. apply Hval; [done|].
      intros [E|]; [|done]. apply Hne. eapply (Hu ip jp e a); try done. congruence.
  - intros j1 j2 e1 e2 H1 H2 P1 P2 E.
    apply list_lookup_insert_Some in H1 as [(-> & <- & _)|[_ H1]], H2 as [(<- & <- & _)|[_ H2]]; [done| | |].
    + by eapply (Hu j1 j2 e e2).
    + by eapply (Hu j1 ip e1 e).
    + by eapply (Hu j1 j2 e1 e2).
Qed.

Lemma fn_insert_insert (V : Z → dinode) i x y j : <[i := y]> (<[i := x]> V) j = <[i := y]> V j.
Proof. destruct (decide (j = i)) as [->|]; [by rewrite !fn_lookup_insert|by rewrite !fn_lookup_insert_ne]. Qed.

Lemma inv_V D F ds s V V' : inv D F ds s V → (∀ j, V' j = V j) → inv D F ds s V'.
Proof.
  intros [Hd Hs [Hr He Hu]] E. split; [|intros j Hj HD; rewrite E; by apply Hs|split; [done| |done]].
  - eapply disk_inv_same; [exact Hd|apply Hd|done|done|intros j k _; by rewrite E|].
    intros j Hj. rewrite E. by eapply dv_ok.
  - intros ip e Hip Href. rewrite E. by apply (He ip e).
Qed.

(** An inode without blocks is marked free. *)
Lemma ifree_spec D F ds s V ip i e :
  inv D F ds s V → cached s V ip i e → V i = emptied (V i) →
  wpt (iset ip (λ i, set_di (set_type 0 (di i)) i) ;; iupdate ip ;; iset ip (set_valid false))
    (λ _ s', inv D F ds s' (<[i := freed (V i)]> V) ∧
      icache s' = <[ip := set_valid false (set_di (freed (V i)) e)]> (icache s) ∧ sb s' = sb s ∧ same_data ds s s') s.
Proof.
  intros Hv Hc Hem. pose proof (cached_no _ _ _ _ _ _ _ _ Hv Hc) as Hi. pose proof Hc as [He Hin Hr Hva Hdi Hty].
  pose proof (lookup_lt_Some _ _ _ He) as Hlt. set (V3 := <[i := freed (V i)]> V).
  apply wpt_bind. eapply wpt_eq; [by apply iset_eq|]. cbn beta. rewrite Hdi.
  assert (Efr : set_type 0 (V i) = freed (V i)) by (unfold freed; by rewrite <- Hem). rewrite Efr.
  set (s3 := set_icache _ s).
  assert (EV3 : V3 i = freed (V i)) by apply fn_lookup_insert.
  assert (He3 : icache s3 !! ip = Some (set_di (freed (V i)) e)) by by apply list_lookup_insert_eq.
  assert (Hv3 : inv (or_dirty i D) F ds s3 V3).
  { eapply (inv_D D (or_dirty i D)) in Hv; [|by right]. destruct Hv as [Hd Hs Hca].
    assert (HV3 : ∀ j, j ≠ i → V3 j = V j) by apply fn_insert_other.
    split; change (sb s3) with (sb s); change (blk s3) with (blk s).
    - eapply disk_inv_same; [exact Hd|apply Hd|done|done| |].
      + intros j k Hj. destruct (decide (j = i)) as [->|]; [|by rewrite HV3]. rewrite EV3, <- Efr. by apply ptr_addrs.
      + intros j Hj. destruct (decide (j = i)) as [->|]; [rewrite EV3; apply freed_ok|rewrite HV3 by done]; by eapply dv_ok.
    - intros j Hj Hn. rewrite HV3 by (intros ->; apply Hn; by left). by apply Hs.
    - apply (cache_inv_dirty _ _ _ _ V3 _ _ (freed (V i)) Hca He); [by left|]. by rewrite Hin. }
  apply wpt_bind. eapply wpt_mono; [eapply iupdate_disk; [exact Hv3|exact He3|exact Hin|done|by rewrite EV3]|].
  intros ? s4 (Hv4 & Hdi4 & Eic4 & Esb4 & Hsd4). cbn beta.
  assert (He4 : icache s4 !! ip = Some (set_di (freed (V i)) e)) by by rewrite Eic4.
  eapply wpt_eq; [by apply iset_eq|]. split_and!.
  - by eapply inv_invalid.
  - simpl. rewrite Eic4. simpl. by rewrite list_insert_insert_eq.
  - done.
  - exact Hsd4.
Qed.

(** A reference less to inode [i]. *)
Lemma refs_drop c ip e e' i j :
  c !! ip = Some e → inum e = i → 0 < iref e → iref e' = iref e - 1 → (0 < iref e' → inum e' = i) →
  refs (<[ip := e']> c) j = refs c j - if bool_decide (j = i) then 1 else 0.
Proof.
  intros He Hi Hr Hr' Hi'. rewrite (refs_insert _ _ _ _ _ He). unfold contrib. rewrite Hr'.
  repeat case_bool_decide; subst; try lia; naive_solver lia.
Qed.

Section Put.

Context (D F : Z → Prop) (ds : Z) (s : fss) (V : Z → dinode) (ip : nat) (i : Z) (e : inode).
Context (Hv : inv D F ds s V) (HnD : ¬ D i) (Hh : held s ip i e) (Hlk : ilocked e = false).

(** The reference is the last one to a file without links. *)
Definition last_ref : Prop := valid e = true ∧ nlink (V i) = 0 ∧ iref e = 1.

#[local] Instance last_ref_dec : Decision last_ref.
Proof. unfold last_ref. apply _. Defined.

Let s1 := set_icache (<[ip := set_locked true e]> (icache s)) s.

Lemma acquire_inode_eq : acquire_inode ip s = Ok tt s1.
Proof.
  unfold acquire_inode. rewrite (bind_step _ _ _ _ _ (iget_at_eq _ _ _ (he_entry _ _ _ _ Hh))), Hlk.
  apply iset_eq, Hh.
Qed.

Lemma put_entry1 : icache s1 !! ip = Some (set_locked true e).
Proof. apply list_lookup_insert_eq. eapply lookup_lt_Some, Hh. Qed.

Lemma put_inv1 : inv D F ds s1 V.
Proof.
  destruct Hh as [He Hin Hr]. apply inv_icache; [done|]. eapply cache_inv_entry; [apply Hv|exact He|done|done|].
  intros _. exact (cv_entry _ _ _ _ (inv_cache _ _ _ _ _ Hv) ip e He Hr).
Qed.

Lemma valid_di : valid e = true → di e = V i ∧ type (V i) ≠ 0.
Proof.
  intros Hva. destruct Hh as [He Hin Hr].
  destruct (cv_entry _ _ _ _ (inv_cache _ _ _ _ _ Hv) ip e He Hr) as (_ & _ & Hval). rewrite Hin in Hval.
  destruct (Hval Hva HnD) as [<- ?]. done.
Qed.

Lemma last_ref_test :
  valid e && bool_decide (nlink (di e) = 0) && bool_decide (iref e = 1) = bool_decide last_ref.
Proof.
  apply Bool.eq_iff_eq_true. rewrite !andb_true_iff, !bool_decide_eq_true. unfold last_ref. split.
  - intros [[Hva Hn] Hr]. destruct (valid_di Hva) as [<- _]. done.
  - intros (Hva & Hn & Hr). destruct (valid_di Hva) as [-> _]. done.
Qed.

(** Otherwise only the reference is dropped. *)
Lemma iput_drop :
  ¬ last_ref →
  let s' := set_icache (<[ip := set_ref (iref e - 1) e]> (icache s)) s in
  iput ip s = Ok tt s' ∧ inv D F ds s' V.
Proof.
  intros Hn s'. destruct Hh as [He Hin Hr]. pose proof (lookup_lt_Some _ _ _ He) as Hlt. split.
  - unfold iput. rewrite (bind_step _ _ _ _ _ acquire_inode_eq).
    rewrite (bind_step _ _ _ _ _ (iget_at_eq _ _ _ put_entry1)). cbn [valid di iref set_locked].
    rewrite last_ref_test, (bool_decide_eq_false_2 _ Hn).
    rewrite (bind_step _ _ _ tt s1) by done. unfold release_inode.
    rewrite (bind_step _ _ _ _ _ (iset_eq _ _ _ _ put_entry1)). erewrite iset_eq by (apply list_lookup_insert_eq; simpl; by rewrite ?length_insert).
    unfold s', s1, set_icache. cbn [blk logged sb icache]. rewrite !list_insert_insert_eq. unfold set_ref, set_locked.
    cbn [idev inum iref ilocked valid di]. by rewrite Hlk.
  - apply inv_icache; [done|]. apply cache_inv_ref; [apply Hv|done|done|lia].
Qed.

(** The end of [iput]: the lock and the reference are dropped. *)
Lemma iput_release s5 V5 e5 :
  inv D F ds s5 V5 → icache s5 = <[ip := e5]> (icache s) → iref e5 = 1 →
  ∃ s6, (release_inode ip ;; iset ip (λ i, set_ref (iref i - 1) i)) s5 = Ok tt s6 ∧
    inv D F ds s6 V5 ∧ blk s6 = blk s5 ∧ sb s6 = sb s5 ∧
    icache s6 = <[ip := set_ref 0 (set_locked false e5)]> (icache s).
Proof.
  intros Hv5 Eic Hr5. pose proof (lookup_lt_Some _ _ _ (he_entry _ _ _ _ Hh)) as Hlt.
  assert (He5 : icache s5 !! ip = Some e5) by (rewrite Eic; by apply list_lookup_insert_eq).
  set (s6 := set_icache (<[ip := set_locked false e5]> (icache s5)) s5).
  assert (He6 : icache s6 !! ip = Some (set_locked false e5)) by (apply list_lookup_insert_eq; by eapply lookup_lt_Some).
  assert (Hv6 : inv D F ds s6 V5).
  { apply inv_icache; [done|]. eapply cache_inv_entry; [apply Hv5|exact He5|done|done|].
    intros Hr6. exact (cv_entry _ _ _ _ (inv_cache _ _ _ _ _ Hv5) ip _ He5 Hr6). }
  exists (set_icache (<[ip := set_ref 0 (set_locked false e5)]> (icache s6)) s6). split_and!; try done.
  - unfold release_inode. rewrite (bind_step _ _ _ _ _ (iset_eq _ _ _ _ He5)). fold s6.
    rewrite (iset_eq _ _ _ _ He6). simpl. by rewrite Hr5.
  - apply inv_icache; [done|]. apply cache_inv_ref; [apply Hv6|done|simpl; lia|done].
  - simpl. by rewrite Eic, !list_insert_insert_eq.
Qed.

(** The last reference to a file without links frees its blocks and its inode. *)
Lemma iput_last :
  last_ref →
  wpt (iput ip) (λ _ s', inv D F ds s' (<[i := freed (V i)]> V) ∧ sb s' = sb s ∧
    (∃ e', icache s' = <[ip := e']> (icache s) ∧ iref e' = 0 ∧ ilocked e' = false) ∧ same_data ds s s') s.
Proof.
  intros Hlast. pose proof Hlast as (Hva & Hnl & Hr1). destruct (valid_di Hva) as [Hdi Hty].
  pose proof Hh as [He Hin Hr].
  assert (Hc1 : cached s1 V ip i (set_locked true e)) by (split; try done; apply put_entry1).
  unfold iput. apply wpt_bind. eapply wpt_eq; [apply acquire_inode_eq|]. cbn beta.
  apply wpt_bind. eapply wpt_eq; [apply iget_at_eq, put_entry1|]. cbn beta. cbn [valid di iref set_locked].
  rewrite last_ref_test, (bool_decide_eq_true_2 _ Hlast).
  apply wpt_bind. apply wpt_bind. eapply wpt_mono; [exact (itrunc_spec D F ds s1 V ip i _ put_inv1 Hc1)|].
  intros ? s2 [[Hv2 Hc2 Eic2 Esb2 _ _] Hsd2]. cbn beta.
  assert (EV2 : <[i := emptied (V i)]> V i = emptied (V i)) by apply fn_lookup_insert.
  eapply wpt_mono; [eapply (ifree_spec D F ds s2 _ ip i _ Hv2 Hc2); by rewrite EV2|].
  intros ? s5 (Hv5 & Eic5 & Esb5 & Hsd5). cbn beta. rewrite EV2 in *.
  eapply (inv_V _ _ _ _ _ (<[i := freed (V i)]> V)) in Hv5; [|intros j; symmetry; apply fn_insert_insert].
  assert (He5 : ∃ e5, icache s5 = <[ip := e5]> (icache s) ∧ iref e5 = 1).
  { eexists. split; [rewrite Eic5, Eic2; simpl; by rewrite !list_insert_insert_eq|]. done. }
  destruct He5 as (e5 & Ei5 & Hr5).
  destruct (iput_release s5 _ e5 Hv5 Ei5 Hr5) as (s6 & Es6 & Hv6 & Eblk6 & Esb6 & Eic6).
  eapply wpt_eq; [exact Es6|].
  split_and!; [done|by rewrite Esb6, Esb5|by eexists|].
  intros b Hb. rewrite Eblk6, Hsd5 by done. by apply Hsd2.
Qed.

(** [iput] drops a reference; a file that has links keeps its inode. *)
Lemma iput_spec :
  wpt (iput ip) (λ _ s', ∃ V' e', inv D F ds s' V' ∧ sb s' = sb s ∧ icache s' = <[ip := e']> (icache s) ∧
    iref e' = iref e - 1 ∧ ilocked e' = false ∧
    (∀ j, refs (icache s') j = refs (icache s) j - if bool_decide (j = i) then 1 else 0) ∧
    ∀ j, inode_no (sb s) j → j ≠ i ∨ nlink (V i) ≠ 0 ∨ 1 < iref e →
      V' j = V j ∧ file_of (blk s') (V j) = file_of (blk s) (V j)) s.
Proof.
  pose proof Hh as [He Hin Hr]. destruct (decide last_ref) as [Hlast|Hn].
  - eapply wpt_mono; [by apply iput_last|]. intros ? s' (Hv' & Esb & (e' & Eic & Hr' & Hlk') & Hsd). cbn beta.
    pose proof Hlast as (_ & Hnl & Hr1).
    exists (<[i := freed (V i)]> V), e'. split_and!; [done|done|done|lia|done| |].
    + intros j. rewrite Eic. eapply refs_drop; [exact He|done|done|lia|lia].
    + intros j Hj [Hne|[?|?]]; [|done|lia]. rewrite fn_insert_other by done. split; [done|by eapply same_data_file].
  - destruct (iput_drop Hn) as [Es Hv']. eapply wpt_eq; [exact Es|].
    exists V, (set_ref (iref e - 1) e). split_and!; try done.
    intros j. simpl. eapply refs_drop; [exact He|done|done|done|done].
Qed.

End Put.

(** ** [ialloc] *)

Definition new_inode (ty : Z) : dinode := set_type ty zero_dinode.

Lemma new_inode_ok f ty : is_short ty → ty ≠ 0 → dinode_ok f (new_inode ty).
Proof.
  intros Hs H0. split; try done.
  - split; try done. apply (Forall_replicate is_uint (NDIRECT + 1)). unfold is_uint. lia.
  - simpl. unfold BSZ. lia.
Qed.

Lemma ptr_new_inode f ty k : ptr f (new_inode ty) k = 0.
Proof. apply (ptr_emptied f (new_inode ty)). Qed.

Section Ialloc.

Context (F : Z → Prop) (ds : Z) (s : fss) (V : Z → dinode) (ty : Z).
Context (Hv : inv none F ds s V) (Hty : is_short ty) (Hty0 : ty ≠ 0).

(** The state after inode [i], which is free, is marked on the disk. *)
Definition mark_inode (i : Z) : fss :=
  log_blk (IBLOCK i (sb s)) (dinode_put (dislot i) (new_inode ty) (blk s (IBLOCK i (sb s)))) s.

Lemma mark_inode_inv i :
  inode_no (sb s) i → type (V i) = 0 → inv none F ds (mark_inode i) (<[i := new_inode ty]> V) ∧ same_data ds s (mark_inode i).
Proof.
  intros Hi H0. pose proof (inv_disk _ _ _ _ _ Hv) as Hd.
  destruct (log_inode_inv _ _ _ _ _ i (dinode_put (dislot i) (new_inode ty) (blk s (IBLOCK i (sb s)))) Hv Hi) as [Hd' Hsd].
  { apply block_ok_dinode_put, Hv. }
  fold (mark_inode i) in Hd', Hsd. split; [|done].
  assert (EV : <[i := new_inode ty]> V i = new_inode ty) by apply fn_lookup_insert.
  assert (HV : ∀ j, j ≠ i → <[i := new_inode ty]> V j = V j) by apply fn_insert_other.
  split; change (sb (mark_inode i)) with (sb s).
  - eapply disk_inv_same; [exact Hd'|apply Hd'|done|done| |].
    + intros j k Hj. destruct (decide (j = i)) as [->|]; [|by rewrite HV].
      rewrite EV, ptr_new_inode. symmetry. by apply (dok_free _ _ (dv_ok _ _ _ _ _ Hd' i Hi)).
    + intros j Hj. destruct (decide (j = i)) as [->|]; [rewrite EV; by apply new_inode_ok|].
      rewrite HV by done. by eapply dv_ok.
  - intros j Hj HD. unfold mark_inode. erewrite disk_inode_put; [|exact Hv|done|done|].
    + destruct (decide (j = i)) as [->|]; [done|]. rewrite HV by done. by apply Hv.
    + by apply (dok_fits (blk s)), new_inode_ok.
  - destruct (inv_cache _ _ _ _ _ Hv) as [Hr He Hu]. split; [done| |done]. intros ip e Hip Href.
    destruct (He ip e Hip Href) as (? & ? & Hval). split_and!; [done|done|]. intros Hva HD.
    destruct (Hval Hva HD) as [Edi Ht]. rewrite HV; [done|]. intros Ei. rewrite Edi, Ei in Ht. done.
Qed.

Lemma ialloc_loop_spec fuel : ∀ i, 1 ≤ i → sb_ninodes (sb s) ≤ i + Z.of_nat fuel - 1 → (0 < fuel)%nat →
  (∀ j, 1 ≤ j < i → type (disk_inode (sb s) (blk s) j) ≠ 0) →
  wpf (ialloc_loop fuel ROOTDEV ty i) (λ k s', ∃ i, inode_no (sb s) i ∧ type (V i) = 0 ∧
    inv none F ds s' (<[i := new_inode ty]> V) ∧ gotten (mark_inode i) i k s') s.
Proof.
  induction fuel as [|fuel IH]; intros i Hi Hfuel Hpos Hbusy; [lia|]. cbn [ialloc_loop].
  eapply wpf_step; [done|]. cbn beta. case_bool_decide as Hlt.
  2: { right. right. split; [done|]. intros j Hj. apply Hbusy. unfold inode_no in Hj. lia. }
  assert (Hino : inode_no (sb s) i) by (unfold inode_no; lia).
  eapply wpf_step; [done|]. cbn beta. fold (disk_inode (sb s) (blk s) i).
  case_bool_decide as H0.
  - rewrite (inv_synced _ _ _ _ _ Hv i Hino) in H0 by by intros [].
    destruct (mark_inode_inv i Hino H0) as [Hv' Hsd].
    eapply wpf_step; [apply log_write_eq|]. fold (new_inode ty) (mark_inode i).
    eapply wpf_mono; [by apply (iget_spec none F ds (mark_inode i))|]. intros k s' [? ?]. by exists i.
  - destruct fuel as [|fuel']; [lia|]. apply IH; [lia..|]. intros j Hj.
    destruct (decide (j = i)) as [->|]; [done|]. apply Hbusy. lia.
Qed.

(** [ialloc] marks a free inode and returns a reference to it. *)
Lemma ialloc_spec :
  wpf (ialloc ROOTDEV ty) (λ k s', ∃ i e, inode_no (sb s) i ∧ type (V i) = 0 ∧
    inv none F ds s' (<[i := new_inode ty]> V) ∧ held s' k i e ∧ valid e = false ∧ sb s' = sb s ∧ same_data ds s s' ∧
    ∀ j, refs (icache s') j = refs (icache s) j + if bool_decide (j = i) then 1 else 0) s.
Proof.
  unfold ialloc. eapply wpf_step; [done|]. cbn beta.
  pose proof (lay_ninodes _ _ (dv_layout _ _ _ _ _ (inv_disk _ _ _ _ _ Hv))).
  eapply wpf_mono; [apply ialloc_loop_spec; lia|].
  intros k s' (i & Hi & H0 & Hv' & Hgo). pose proof Hgo as [Eb Esb (e & e' & He & Eic & Hh & _ & Hor)].
  destruct (mark_inode_inv i Hi H0) as [_ Hsd]. exists i, e'. split_and!; try done.
  - destruct (valid e') eqn:Eva; [|done]. destruct Hh as [He' Hin' Hr'].
    destruct Hor as [[[_ Hin Hr] ->]|(_ & _ & ?)]; [|by congruence].
    destruct (cv_entry _ _ _ _ (inv_cache _ _ _ _ _ Hv) k e He Hr) as (_ & _ & Hval).
    destruct (Hval Eva) as [Edi Ht]; [by intros []|]. rewrite Edi, Hin, H0 in Ht. done.
  - intros b Hb. rewrite Eb. by apply Hsd.
  - intros j. by rewrite (gotten_refs _ _ _ _ j Hgo).
Qed.

End Ialloc.

End FsCache.
