(* ===== verification/FsDir.v ===== *)
(** * Directories and paths

    [dirlookup], [dirlink], [skipelem] and [namex] of [Fs] against directories as
    lists of entries and paths as lists of names. *)

From S2P Require Import Prelude Log Fs FsInv FsAlloc FsFile FsWrite FsTrunc FsCache.

Module FsDir.

Import Fs FsInv FsAlloc FsFile FsWrite FsTrunc FsCache.

(** ** Names *)

(** The bytes before the first zero. *)
Fixpoint upto0 (l : list Z) : list Z :=
  match l with
  | [] => []
  | c :: l => if bool_decide (c = 0) then [] else c :: upto0 l
  end.

(** The name a byte sequence stands for in a directory: at most [DIRSIZ] bytes. *)
Definition dname (l : list Z) : list Z := upto0 (take DIRSIZ l).

Lemma strncmp_l_zero n : ∀ s t, strncmp_l n s t = 0 ↔ upto0 (take n s) = upto0 (take n t).
Proof.
  induction n as [|n IH]; intros s t; simpl; [done|].
  destruct s as [|c s], t as [|d t]; simpl; try rewrite take_nil.
  - done.
  - split; [intros ?; by rewrite bool_decide_eq_true_2 by lia|]. case_bool_decide; [lia|done].
  - destruct (decide (c = 0)) as [->|Hc]; [done|]. rewrite (bool_decide_eq_false_2 (c = 0)) by done.
    rewrite andb_false_r. split; [lia|done].
  - destruct (decide (c = 0)) as [->|Hc]; simpl.
    + split; [intros ?; by rewrite (bool_decide_eq_true_2 (d = 0)) by lia|]. case_bool_decide; [lia|done].
    + rewrite (bool_decide_eq_true_2 (c ≠ 0)), (bool_decide_eq_false_2 (c = 0)) by done. cbn [andb].
      case_bool_decide as Hcd; [subst d|].
      * rewrite (bool_decide_eq_false_2 (c = 0)) by done. rewrite IH. split; [by intros ->|by intros [= ->]].
      * split; [lia|]. case_bool_decide; [done|]. by intros [= ? ?].
Qed.

Lemma namecmp_zero s t : namecmp s t = 0 ↔ dname s = dname t.
Proof. apply strncmp_l_zero. Qed.

Lemma upto0_nonzero l : Forall (λ c, c ≠ 0) l → upto0 l = l.
Proof. induction 1 as [|c l Hc _ IH]; simpl; [done|]. by rewrite bool_decide_eq_false_2, IH. Qed.

Lemma upto0_app_zero l n : Forall (λ c, c ≠ 0) l → upto0 (l ++ replicate n 0) = l.
Proof.
  induction 1 as [|c l Hc _ IH]; simpl; [by destruct n|]. by rewrite bool_decide_eq_false_2, IH.
Qed.

(** ** Entries *)

(** The directory entries in the contents of a directory. *)
Definition dents (l : list Z) : list (list Z) := (λ k, take 16 (drop (16 * k) l)) <$> seq 0 (length l / 16).

Fixpoint dir_find (name : list Z) (ds : list (list Z)) (k : nat) : option (nat * Z) :=
  match ds with
  | [] => None
  | d :: ds => if bool_decide (de_inum d ≠ 0 ∧ dname name = dname (de_name d)) then Some (k, de_inum d)
               else dir_find name ds (S k)
  end.

(** The inode number of a name in a directory. *)
Definition dir_lookup (l : list Z) (name : list Z) : option Z := snd <$> dir_find name (dents l) 0.

Lemma length_dents l : length (dents l) = (length l / 16)%nat.
Proof. unfold dents. by rewrite length_fmap, length_seq. Qed.

Lemma dents_lookup l k : (k < length l / 16)%nat → dents l !! k = Some (take 16 (drop (16 * k) l)).
Proof. intros Hk. unfold dents. by rewrite list_lookup_fmap, lookup_seq_lt. Qed.

(** ** [dirlookup] *)

Section Dir.

Context (dev_read : Z → option (nat → Z → M fss (Z * list Z))).
Context (D F : Z → Prop) (ds : Z) (s : fss) (V : Z → dinode) (dp : nat) (i : Z) (e : inode).
Context (Hv : inv D F ds s V) (Hc : cached s V dp i e).
Context (Hdir : type (V i) = T_DIR) (Hmul : size (V i) mod DIRENT = 0).

Abbreviation data := (contents (blk s) (V i)).

Lemma dir_size : ∃ n, size (V i) = DIRENT * Z.of_nat n ∧ (length data / 16 = n)%nat ∧ (n ≤ 4480)%nat.
Proof.
  pose proof (cached_no _ _ _ _ _ _ _ _ Hv Hc) as Hi.
  destruct (dv_ok _ _ _ _ _ (inv_disk _ _ _ _ _ Hv) i Hi) as [Hfit Hs _ _]. pose proof (fits_size _ Hfit) as [H0 _].
  exists (Z.to_nat (size (V i) / DIRENT)). pose proof (Z.div_mod (size (V i)) DIRENT ltac:(done)) as E.
  assert (0 ≤ size (V i) / DIRENT) by (apply Z.div_pos; unfold DIRENT; lia).
  split_and!; [unfold DIRENT in *; lia| |unfold DIRENT, MAXFILE, BSZ in *; lia].
  rewrite contents_length. replace (Z.to_nat (size (V i))) with (Z.to_nat (size (V i) / DIRENT) * 16)%nat by (unfold DIRENT in *; lia).
  by apply Nat.div_mul.
Qed.

Lemma readi_dent k : (k < length data / 16)%nat →
  ∃ d, dents data !! k = Some d ∧ readi dev_read dp (DIRENT * Z.of_nat k) DIRENT s = Ok (DIRENT, d) s.
Proof.
  intros Hk. destruct dir_size as (n & En & El & Hn). exists (take 16 (drop (16 * k) data)).
  split; [by apply dents_lookup|].
  assert (Hr : Z.of_nat (length (take (Z.to_nat DIRENT) (drop (Z.to_nat (DIRENT * Z.of_nat k)) data))) = DIRENT).
  { rewrite length_take, length_drop, contents_length. unfold DIRENT in *. lia. }
  pose proof (readi_spec D F ds s V dp i e Hv Hc dev_read (DIRENT * Z.of_nat k) DIRENT) as Hread.
  rewrite Hread; [rewrite Hr|..]; [|rewrite Hdir; done|unfold is_uint, DIRENT in *; lia..].
  do 2 f_equal. replace (Z.to_nat (DIRENT * Z.of_nat k)) with (16 * k)%nat by (unfold DIRENT; lia). done.
Qed.

Lemma dirlookup_loop_spec fuel : ∀ k name, (length data / 16 - k < fuel)%nat → (k ≤ length data / 16)%nat →
  dirlookup_loop dev_read fuel dp name (DIRENT * Z.of_nat k) s =
  Ok ((λ '(j, n), (DIRENT * Z.of_nat j, n)) <$> dir_find name (drop k (dents data)) k) s.
Proof.
  induction fuel as [|fuel IH]; intros k name Hf Hk; [lia|]. cbn [dirlookup_loop].
  destruct dir_size as (n & En & El & Hn).
  rewrite (bind_step _ _ _ _ _ (iget_at_eq _ _ _ (ca_entry _ _ _ _ _ Hc))). rewrite (ca_di _ _ _ _ _ Hc).
  case_bool_decide as Hlt; [|rewrite drop_ge by (rewrite length_dents; unfold DIRENT in *; lia); done].
  destruct (readi_dent k) as (d & Hd & Er); [unfold DIRENT in *; lia|].
  rewrite (bind_step _ _ _ _ _ Er). cbn [fst snd]. rewrite (bool_decide_eq_false_2 (DIRENT ≠ DIRENT)) by naive_solver.
  rewrite (drop_S _ _ _ Hd). cbn [dir_find].
  replace (DIRENT * Z.of_nat k + DIRENT) with (DIRENT * Z.of_nat (S k)) by lia.
  case_bool_decide as H0.
  - rewrite bool_decide_eq_false_2 by naive_solver. apply IH; unfold DIRENT in *; lia.
  - case_bool_decide as Hnm.
    + rewrite bool_decide_eq_true_2; [done|]. by rewrite <- namecmp_zero.
    + rewrite bool_decide_eq_false_2; [apply IH; unfold DIRENT in *; lia|]. rewrite <- namecmp_zero. naive_solver.
Qed.

(** [dirlookup] takes a reference to the inode of the entry, if there is one. *)
Lemma dirlookup_spec name :
  idev e = ROOTDEV → (∀ n, dir_lookup data name = Some n → inode_no (sb s) n) →
  wpf (dirlookup dev_read dp name) (λ r s',
    match dir_find name (dents data) 0 with
    | None => r = None ∧ s' = s
    | Some (j, n) => ∃ k, r = Some (k, DIRENT * Z.of_nat j) ∧ inv D F ds s' V ∧ gotten s n k s'
    end) s.
Proof.
  intros Hdev Hno. unfold dirlookup. eapply wpf_step; [by apply iget_at_eq, Hc|]. cbn beta.
  rewrite (ca_di _ _ _ _ _ Hc), Hdir. rewrite (bool_decide_eq_false_2 (T_DIR ≠ T_DIR)) by naive_solver.
  destruct dir_size as (n & En & El & Hn).
  eapply wpf_step; [apply (dirlookup_loop_spec _ 0)|].
  { assert (size (V i) / DIRENT = Z.of_nat n) as -> by (rewrite En, Z.mul_comm, Z.div_mul by done; done). lia. }
  { lia. }
  cbn beta. rewrite drop_0. unfold dir_lookup in Hno. destruct (dir_find name (dents data) 0) as [[j m]|]; simpl.
  - apply wpf_bind. rewrite Hdev. eapply wpf_mono; [by apply iget_spec; [exact Hv|apply Hno]|].
    intros k s' [Hv' Hgo]. apply wpf_ret. by exists k.
  - by apply wpf_ret.
Qed.

(** ** [dirlink] *)

(** The first free entry, or the end of the directory. *)
Fixpoint free_slot (l : list (list Z)) (k : nat) : nat :=
  match l with
  | [] => k
  | d :: l => if bool_decide (de_inum d = 0) then k else free_slot l (S k)
  end.

Lemma dirlink_loop_spec fuel : ∀ k, (length data / 16 - k < fuel)%nat → (k ≤ length data / 16)%nat →
  dirlink_loop dev_read fuel dp (DIRENT * Z.of_nat k) s = Ok (DIRENT * Z.of_nat (free_slot (drop k (dents data)) k)) s.
Proof.
  induction fuel as [|fuel IH]; intros k Hf Hk; [lia|]. cbn [dirlink_loop].
  destruct dir_size as (n & En & El & Hn).
  rewrite (bind_step _ _ _ _ _ (iget_at_eq _ _ _ (ca_entry _ _ _ _ _ Hc))). rewrite (ca_di _ _ _ _ _ Hc).
  case_bool_decide as Hlt; [|rewrite drop_ge by (rewrite length_dents; unfold DIRENT in *; lia); done].
  destruct (readi_dent k) as (d & Hd & Er); [unfold DIRENT in *; lia|].
  rewrite (bind_step _ _ _ _ _ Er). cbn [fst snd]. rewrite (bool_decide_eq_false_2 (DIRENT ≠ DIRENT)) by naive_solver.
  rewrite (drop_S _ _ _ Hd). cbn [free_slot]. case_bool_decide; [done|].
  replace (DIRENT * Z.of_nat k + DIRENT) with (DIRENT * Z.of_nat (S k)) by lia. apply IH; unfold DIRENT in *; lia.
Qed.

End Dir.

Lemma free_slot_spec l : ∀ k,
  (k ≤ free_slot l k ≤ k + length l)%nat ∧ ∀ d, l !! (free_slot l k - k)%nat = Some d → de_inum d = 0.
Proof.
  induction l as [|d l IH]; intros k; simpl; [split; [lia|done]|]. case_bool_decide as H0.
  - rewrite Nat.sub_diag. split; [lia|]. by intros ? [= <-].
  - destruct (IH (S k)) as [Hr Hd]. split; [lia|]. intros d'.
    replace (free_slot l (S k) - k)%nat with (S (free_slot l (S k) - S k)) by lia. apply Hd.
Qed.

Lemma length_name_field name : length (name_field name) = DIRSIZ.
Proof. unfold name_field. rewrite length_app, length_take, length_replicate. lia. Qed.

Lemma length_dirent_bytes n name : length (dirent_bytes n name) = 16%nat.
Proof. unfold dirent_bytes. rewrite length_app, length_name_field. done. Qed.

Lemma dirent_bytes_ok n name : Forall is_byte name → Forall is_byte (dirent_bytes n name).
Proof.
  intros Hn. unfold dirent_bytes, name_field. rewrite !Forall_app. split_and!.
  - repeat constructor; apply u8_byte.
  - by apply Forall_take.
  - apply Forall_replicate. unfold is_byte. lia.
Qed.

Lemma de_inum_bytes n name : 0 ≤ n < 2 ^ 16 → de_inum (dirent_bytes n name) = n.
Proof.
  intros Hn. unfold de_inum, dirent_bytes, get16, byte_at. simpl. unfold u8. rewrite Z.shiftr_div_pow2 by lia.
  pose proof (Z.rem_mul_r n (2 ^ 8) (2 ^ 8)). rewrite <- Z.rem_mul_r by lia. apply Z.mod_small. lia.
Qed.

Lemma de_name_bytes n name : de_name (dirent_bytes n name) = name_field name.
Proof. done. Qed.

Lemma dname_field name : Forall (λ c, c ≠ 0) name → dname (name_field name) = dname name.
Proof.
  intros Hn. unfold dname, name_field. rewrite take_ge by (rewrite length_app, length_take, length_replicate; lia).
  rewrite upto0_app_zero, upto0_nonzero by by apply Forall_take. done.
Qed.

(** The entries after one is written. *)
Lemma dents_splice l b j n :
  length l = (16 * n)%nat → length b = 16%nat → (j ≤ n)%nat →
  dents (splice (16 * j) b l) = if decide (j < n)%nat then <[j := b]> (dents l) else dents l ++ [b].
Proof.
  intros Hl Hb Hj.
  assert (Hlen : length (splice (16 * j) b l) = (16 * (n `max` (j + 1)))%nat).
  { unfold splice. rewrite !length_app, length_take, length_drop. lia. }
  assert (Hn : (length l / 16 = n)%nat) by (rewrite Hl, Nat.mul_comm; by apply Nat.div_mul).
  assert (Hn' : (length (splice (16 * j) b l) / 16 = n `max` (j + 1))%nat) by (rewrite Hlen, Nat.mul_comm; by apply Nat.div_mul).
  assert (Hat : ∀ k, (k < n `max` (j + 1))%nat →
    take 16 (drop (16 * k) (splice (16 * j) b l)) = if decide (k = j) then b else take 16 (drop (16 * k) l)).
  { intros k Hk. apply list_eq. intros m. destruct (decide (m < 16)%nat) as [Hm|Hm].
    2: { destruct (decide (k = j)); rewrite !lookup_ge_None_2; rewrite ?length_take; (done || lia). }
    rewrite lookup_take_lt, lookup_drop by done. unfold splice. destruct (decide (k = j)) as [->|Hne].
    - rewrite lookup_app_r, lookup_app_l by (rewrite ?length_take; lia). f_equal. rewrite length_take. lia.
    - rewrite lookup_take_lt, lookup_drop by done. destruct (decide (k < j)%nat).
      + rewrite lookup_app_l by (rewrite length_take; lia). by rewrite lookup_take_lt by lia.
      + rewrite !lookup_app_r by (rewrite ?length_take; lia). rewrite lookup_drop. f_equal. rewrite length_take. lia. }
  apply list_eq. intros k. destruct (decide (k < n `max` (j + 1))%nat) as [Hk|Hk].
  - rewrite dents_lookup by lia. rewrite Hat by done. destruct (decide (j < n)%nat) as [Hjn|Hjn].
    + destruct (decide (k = j)) as [->|]; [by rewrite list_lookup_insert_eq by (rewrite length_dents; lia)|].
      rewrite list_lookup_insert_ne by done. rewrite dents_lookup by lia. done.
    + destruct (decide (k = j)) as [->|].
      * rewrite lookup_app_r by (rewrite length_dents; lia). rewrite length_dents. by replace (j - _)%nat with 0%nat by lia.
      * rewrite lookup_app_l by (rewrite length_dents; lia). rewrite dents_lookup by lia. done.
  - rewrite lookup_ge_None_2 by (rewrite length_dents; lia). destruct (decide (j < n)%nat); symmetry; apply lookup_ge_None_2;
      rewrite ?length_insert, ?length_app, ?length_dents; cbn [length]; lia.
Qed.

(** Finding a name after an entry for it is added, and finding another name. *)
Lemma dir_find_none name l : ∀ k, dir_find name l k = None ↔ ∀ d, d ∈ l → ¬ (de_inum d ≠ 0 ∧ dname name = dname (de_name d)).
Proof.
  induction l as [|d l IH]; intros k; simpl; [split; [intros _ ? Hin; by apply elem_of_nil in Hin|done]|].
  case_bool_decide as Hm; [split; [done|]; intros H; destruct (H d); [left|done]|].
  rewrite IH. split; intros H d'; [rewrite elem_of_cons; intros [->|?]; [done|by apply H]|].
  intros Hin. apply H. by right.
Qed.

Lemma dir_find_app name l l' : ∀ k, dir_find name l k = None → dir_find name (l ++ l') k = dir_find name l' (k + length l).
Proof.
  induction l as [|d l IH]; intros k Hn; simpl in *; [by rewrite Nat.add_0_r|].
  case_bool_decide; [done|]. rewrite IH by done. f_equal. lia.
Qed.

Lemma dir_find_insert name l b j : ∀ k, (j < length l)%nat →
  (∀ d, l !! j = Some d → de_inum d = 0) →
  dir_find name (<[j := b]> l) k =
  match dir_find name (take j l) k with
  | Some r => Some r
  | None => if bool_decide (de_inum b ≠ 0 ∧ dname name = dname (de_name b)) then Some ((k + j)%nat, de_inum b)
            else dir_find name l k
  end.
Proof.
  revert j. induction l as [|d l IH]; intros j k Hj Hd; simpl in Hj; [lia|]. destruct j as [|j]; simpl.
  - rewrite Nat.add_0_r. case_bool_decide; [done|]. rewrite (bool_decide_eq_false_2 (de_inum d ≠ 0 ∧ _)); [done|].
    rewrite (Hd d); naive_solver.
  - destruct (decide (de_inum d ≠ 0 ∧ dname name = dname (de_name d))) as [H|H];
      [by rewrite !(bool_decide_eq_true_2 _ H)|rewrite !(bool_decide_eq_false_2 _ H)].
    rewrite IH; [|lia|done]. destruct (dir_find name (take j l) (S k)); [done|].
    case_bool_decide; [do 2 f_equal; lia|done].
Qed.

Lemma dir_find_take name l j : ∀ k r, dir_find name (take j l) k = Some r → dir_find name l k = Some r.
Proof.
  revert j. induction l as [|d l IH]; intros [|j] k r; simpl; try done. case_bool_decide; [done|]. apply IH.
Qed.

(** The contents of a directory with the entry ([name], [n]) added. *)
Definition dir_add (l : list Z) (n : Z) (name : list Z) : list Z :=
  splice (16 * free_slot (dents l) 0) (dirent_bytes n name) l.

Section DirAdd.

Context (l : list Z) (n : Z) (name : list Z) (m : nat).
Context (Hl : length l = (16 * m)%nat) (Hname : Forall (λ c, c ≠ 0) name) (Hn : 0 < n < 2 ^ 16).

Let j := free_slot (dents l) 0.

Lemma dents_add : (j ≤ m)%nat ∧ (∀ d, dents l !! j = Some d → de_inum d = 0) ∧ length (dents l) = m ∧
  dents (dir_add l n name) = if decide (j < m)%nat then <[j := dirent_bytes n name]> (dents l) else dents l ++ [dirent_bytes n name].
Proof.
  assert (Hm : (length (dents l) = m)%nat) by (rewrite length_dents, Hl, Nat.mul_comm; by apply Nat.div_mul).
  destruct (free_slot_spec (dents l) 0) as [Hj Hfree]. rewrite Nat.sub_0_r in Hfree. fold j in Hj, Hfree.
  split_and!; [lia|done|done|]. apply dents_splice; [done|apply length_dirent_bytes|lia].
Qed.

Lemma dirent_matches name' :
  de_inum (dirent_bytes n name) ≠ 0 ∧ dname name' = dname (de_name (dirent_bytes n name)) ↔ dname name' = dname name.
Proof.
  rewrite de_inum_bytes by lia. rewrite de_name_bytes, dname_field by done.
  split; [by intros [_ ?]|]. intros ->. split; [lia|done].
Qed.

(** The new name is found, with its inode. *)
Lemma dir_lookup_add : dir_lookup l name = None → dir_lookup (dir_add l n name) name = Some n.
Proof.
  unfold dir_lookup. intros Hno%fmap_None. destruct dents_add as (Hj & Hfree & Hm & ->).
  assert (Hb : bool_decide (de_inum (dirent_bytes n name) ≠ 0 ∧ dname name = dname (de_name (dirent_bytes n name))) = true).
  { by apply bool_decide_eq_true_2, dirent_matches. }
  destruct (decide (j < m)%nat) as [Hjm|].
  - rewrite dir_find_insert by (done || lia). destruct (dir_find name (take j (dents l)) 0) as [r|] eqn:Et.
    { apply dir_find_take in Et. by rewrite Et in Hno. }
    rewrite Hb. simpl. f_equal. apply de_inum_bytes. lia.
  - rewrite dir_find_app by done. cbn [dir_find]. rewrite Hb. simpl. f_equal. apply de_inum_bytes. lia.
Qed.

(** Other names are found as before. *)
Lemma dir_lookup_add_ne name' : dname name' ≠ dname name → dir_lookup (dir_add l n name) name' = dir_lookup l name'.
Proof.
  intros Hne. unfold dir_lookup. destruct dents_add as (Hj & Hfree & Hm & ->).
  assert (Hb : bool_decide (de_inum (dirent_bytes n name) ≠ 0 ∧ dname name' = dname (de_name (dirent_bytes n name))) = false).
  { apply bool_decide_eq_false_2. by rewrite dirent_matches. }
  destruct (decide (j < m)%nat) as [Hjm|].
  - rewrite dir_find_insert by (done || lia). destruct (dir_find name' (take j (dents l)) 0) as [r|] eqn:Et.
    { apply dir_find_take in Et. by rewrite Et. }
    by rewrite Hb.
  - destruct (dir_find name' (dents l) 0) as [r|] eqn:Ef.
    + assert (dir_find name' (take m (dents l ++ [dirent_bytes n name])) 0 = Some r) as Et.
      { rewrite take_app_length' by done. done. }
      apply dir_find_take in Et. by rewrite Et.
    + rewrite dir_find_app by done. cbn [dir_find]. by rewrite Hb.
Qed.

End DirAdd.

Section Dirlink.

Context (dev_read : Z → option (nat → Z → M fss (Z * list Z))).
Context (dev_write : Z → option (nat → list Z → M fss Z)).
Context (D F : Z → Prop) (ds : Z) (s : fss) (V : Z → dinode) (dp : nat) (i : Z) (e : inode).
Context (Hv : inv D F ds s V) (HnD : ¬ D i) (Hc : cached s V dp i e) (Hdev : idev e = ROOTDEV).
Context (Hdir : type (V i) = T_DIR) (Hmul : size (V i) mod DIRENT = 0).

Abbreviation data := (contents (blk s) (V i)).

Lemma dirlookup_none name : dir_lookup data name = None → dirlookup dev_read dp name s = Ok None s.
Proof.
  intros Hno. unfold dir_lookup in Hno. apply fmap_None in Hno.
  unfold dirlookup. rewrite (bind_step _ _ _ _ _ (iget_at_eq _ _ _ (ca_entry _ _ _ _ _ Hc))).
  rewrite (ca_di _ _ _ _ _ Hc), Hdir. rewrite (bool_decide_eq_false_2 (T_DIR ≠ T_DIR)) by naive_solver.
  destruct (dir_size D F ds s V dp i e Hv Hc Hmul) as (n & En & El & Hn).
  assert (Hq : size (V i) / DIRENT = Z.of_nat n) by (rewrite En, Z.mul_comm, Z.div_mul by done; done).
  pose proof (dirlookup_loop_spec dev_read D F ds s V dp i e Hv Hc Hdir Hmul (S (Z.to_nat (size (V i) / DIRENT + 1))) 0 name
    ltac:(rewrite Hq; lia) ltac:(lia)) as Hl.
  rewrite Z.mul_0_r in Hl. rewrite (bind_step _ _ _ _ _ Hl). by rewrite drop_0, Hno.
Qed.

(** A new name is written to the first free entry. *)
Lemma dirlink_new name n :
  dir_lookup data name = None → Forall is_byte name → (free_slot (dents data) 0 < 4480)%nat →
  wpf (dirlink dev_read dev_write dp name n) (λ r s', r = 0 ∧ ∃ V', updated D F ds dp i e s V
    (set_data (dir_add data n name) (file_of (blk s) (V i))) s' V') s.
Proof.
  intros Hno Hname Hroom. unfold dirlink. eapply wpf_step; [by apply dirlookup_none|]. cbn beta.
  eapply wpf_step; [by apply iget_at_eq, Hc|]. cbn beta. rewrite (ca_di _ _ _ _ _ Hc).
  destruct (dir_size D F ds s V dp i e Hv Hc Hmul) as (m & En & El & Hm).
  assert (Hq : size (V i) / DIRENT = Z.of_nat m) by (rewrite En, Z.mul_comm, Z.div_mul by done; done).
  eapply wpf_step; [apply (dirlink_loop_spec dev_read D F ds s V dp i e Hv Hc Hdir Hmul _ 0); [rewrite Hq; lia|lia]|].
  cbn beta. rewrite drop_0. destruct (free_slot_spec (dents data) 0) as [Hj _]. rewrite length_dents, El in Hj.
  set (j := free_slot (dents data) 0) in *.
  apply wpf_bind. eapply wpf_mono.
  { eapply (writei_spec D F ds dp i dev_write e s V); [exact Hv|done|done|by rewrite Hdir|by apply dirent_bytes_ok|..];
      rewrite ?length_dirent_bytes; unfold DIRENT, MAXFILE, BSZ in *; lia. }
  intros r s' [-> Hup]. cbn beta. rewrite length_dirent_bytes.
  rewrite bool_decide_eq_false_2 by (unfold DIRENT; lia). apply wpf_ret. split; [done|].
  unfold dir_add. fold j. by replace (16 * j)%nat with (Z.to_nat (DIRENT * Z.of_nat j)) by (unfold DIRENT; lia).
Qed.

(** [dirlookup] of a name in the directory, up to [iget]. *)
Lemma dirlookup_some name n :
  dir_lookup data name = Some n →
  ∃ j, dirlookup dev_read dp name s = (k ← iget ROOTDEV n; mret (Some (k, DIRENT * Z.of_nat j))) s.
Proof.
  intros Hf. unfold dir_lookup in Hf. apply fmap_Some in Hf as ([j m] & Ef & ->). exists j.
  unfold dirlookup. rewrite (bind_step _ _ _ _ _ (iget_at_eq _ _ _ (ca_entry _ _ _ _ _ Hc))).
  rewrite (ca_di _ _ _ _ _ Hc), Hdir. rewrite (bool_decide_eq_false_2 (T_DIR ≠ T_DIR)) by naive_solver.
  destruct (dir_size D F ds s V dp i e Hv Hc Hmul) as (n & En & El & Hn).
  assert (Hq : size (V i) / DIRENT = Z.of_nat n) by (rewrite En, Z.mul_comm, Z.div_mul by done; done).
  pose proof (dirlookup_loop_spec dev_read D F ds s V dp i e Hv Hc Hdir Hmul (S (Z.to_nat (size (V i) / DIRENT + 1))) 0 name
    ltac:(rewrite Hq; lia) ltac:(lia)) as Hl.
  rewrite Z.mul_0_r in Hl. rewrite (bind_step _ _ _ _ _ Hl). by rewrite drop_0, Ef, Hdev.
Qed.

(** [dirlink] of a name the directory has already, for another inode, returns -1
    and keeps the references. *)
Lemma dirlink_exists name n m :
  dir_lookup data name = Some n → inode_no (sb s) n → n ≠ i → ¬ D n →
  (∀ k a, icache s !! k = Some a → k ≠ dp → ilocked a = false) →
  wpf (dirlink dev_read dev_write dp name m) (λ r s', r = -1 ∧ ∃ V', inv D F ds s' V' ∧
    ∀ j, refs (icache s') j = refs (icache s) j) s.
Proof.
  intros Hf Hn Hne HnDn Hun. destruct (dirlookup_some name n Hf) as [j Hlk]. unfold dirlink.
  apply wpf_bind. unfold wpf at 1. rewrite Hlk.
  pose proof (iget_spec D F ds s V n Hv Hn) as Hget. unfold mbind, M_bind. unfold wpf in Hget.
  destruct (iget ROOTDEV n s) as [k s1| | |]; [|done..]. destruct Hget as [Hv1 Hgo]. simpl.
  pose proof Hgo as [_ _ (a & a' & Ha & Eic & Hh & Elk & Hor)].
  assert (k ≠ dp).
  { intros ->. pose proof (ca_entry _ _ _ _ _ Hc) as He. assert (a = e) as -> by congruence.
    destruct Hor as [[[_ Hin _] _]|(H0 & _)]; [pose proof (ca_inum _ _ _ _ _ Hc); congruence|pose proof (ca_ref _ _ _ _ _ Hc); lia]. }
  eapply wpf_bind, wpf_mono; [eapply wpf_wpt, iput_spec; [exact Hv1|exact HnDn|exact Hh|rewrite Elk; by eapply Hun]|].
  intros ? s2 (V' & e' & Hv2 & _ & _ & _ & _ & Hrefs & _). apply wpf_ret. split; [done|]. exists V'. split; [done|].
  intros j'. rewrite Hrefs, (gotten_refs _ _ _ _ j' Hgo). lia.
Qed.

(** [dirlink] of a name that stands for the directory itself sleeps for ever: it
    holds the lock that its [iput] waits for. *)
Lemma dirlink_self name n :
  dir_lookup data name = Some i → ilocked e = true →
  ∃ s', dirlink dev_read dev_write dp name n s = Spin s'.
Proof.
  intros Hf Hlk. destruct (dirlookup_some name i Hf) as [j Hlook].
  pose proof (iget_found _ _ _ _ _ _ _ _ Hv (cached_held _ _ _ _ _ Hc)) as Hget.
  set (s1 := set_icache _ s) in Hget. exists s1. unfold dirlink.
  rewrite (bind_step (dirlookup dev_read dp name) _ s (Some (dp, DIRENT * Z.of_nat j)) s1).
  2: { rewrite Hlook. by rewrite (bind_step _ _ _ _ _ Hget). }
  assert (He1 : icache s1 !! dp = Some (set_ref (iref e + 1) e)).
  { apply list_lookup_insert_eq. eapply lookup_lt_Some, Hc. }
  assert (Hacq : acquire_inode dp s1 = Spin s1).
  { unfold acquire_inode. rewrite (bind_step _ _ _ _ _ (iget_at_eq _ _ _ He1)). cbn [ilocked set_ref]. by rewrite Hlk. }
  unfold iput, mbind, M_bind. by rewrite Hacq.
Qed.

End Dirlink.

End FsDir.
