(* ===== verification/FsPath.v ===== *)
(** * Paths

    [skipelem] cuts a path into its names, and [namex] walks the directories: it
    returns the inode the path stands for, with one reference more to it and no
    other reference and no lock kept. *)

From S2P Require Import Prelude Log Fs FsInv FsAlloc FsFile FsWrite FsTrunc FsCache FsDir.

Module FsPath.

Import Fs FsInv FsAlloc FsFile FsWrite FsTrunc FsCache FsDir.

(** ** Names in a path *)

(** The names between the slashes, cut to [DIRSIZ] bytes. *)
Definition flush (cur : list Z) : list (list Z) := match cur with [] => [] | _ => [take DIRSIZ cur] end.

Fixpoint fields (p cur : list Z) : list (list Z) :=
  match p with
  | [] => flush cur
  | c :: p => if bool_decide (c = SLASH) then flush cur ++ fields p [] else fields p (cur ++ [c])
  end.

Definition names (path : list Z) : list (list Z) := fields path [].

Lemma names_skip path : names (skip_slashes path) = names path.
Proof.
  induction path as [|c p IH]; simpl; [done|]. case_bool_decide as Hc; [|done].
  subst c. unfold names at 2. cbn [fields]. rewrite bool_decide_eq_true_2 by done. done.
Qed.

Lemma fields_elem p : ∀ cur e rest, take_elem p = (e, rest) → cur ++ e ≠ [] →
  fields p cur = take DIRSIZ (cur ++ e) :: names rest.
Proof.
  induction p as [|c p IH]; intros cur e rest E Hne; simpl in *.
  - injection E as <- <-. rewrite app_nil_r in *. by destruct cur.
  - case_bool_decide as Hc.
    + injection E as <- <-. rewrite app_nil_r in *. unfold names. cbn [fields]. rewrite bool_decide_eq_true_2 by done.
      by destruct cur.
    + destruct (take_elem p) as [e' rest'] eqn:Et. injection E as <- <-.
      rewrite (IH (cur ++ [c]) e' rest'); [|done|by destruct cur]. by rewrite <- app_assoc.
Qed.

Lemma skip_slashes_head path c p : skip_slashes path = c :: p → c ≠ SLASH.
Proof. induction path as [|a q IH]; simpl; [done|]. case_bool_decide; [done|]. by intros [= -> ->]. Qed.

Lemma length_skip_slashes path : (length (skip_slashes path) ≤ length path)%nat.
Proof. induction path as [|c p IH]; simpl; [lia|]. case_bool_decide; simpl; lia. Qed.

Lemma length_take_elem p : ∀ e rest, take_elem p = (e, rest) → (length rest ≤ length p)%nat.
Proof.
  induction p as [|c p IH]; intros e rest; simpl; [by intros [= <- <-]|]. case_bool_decide; [by intros [= <- <-]|].
  destruct (take_elem p) as [e' rest'] eqn:Et. intros [= <- <-]. specialize (IH _ _ eq_refl). lia.
Qed.

(** [skipelem] returns the first name and a path with the others; the rest is
    empty exactly when there are no others. *)
Lemma skipelem_spec path :
  match skipelem path with
  | None => names path = []
  | Some (e, rest) => names path = e :: names rest ∧ (length rest < length path)%nat ∧ (rest = [] ↔ names rest = [])
  end.
Proof.
  unfold skipelem. pose proof (names_skip path) as En. pose proof (length_skip_slashes path).
  destruct (skip_slashes path) as [|c p] eqn:Es; [by rewrite <- En|].
  pose proof (skip_slashes_head _ _ _ Es) as Hc.
  destruct (take_elem (c :: p)) as [e rest] eqn:Et.
  assert (He : e ≠ [] ∧ (length rest < length (c :: p))%nat).
  { simpl in Et. rewrite bool_decide_eq_false_2 in Et by done. destruct (take_elem p) as [e' r'] eqn:Et'.
    injection Et as <- <-. split; [done|]. pose proof (length_take_elem p _ _ Et'). simpl. lia. }
  split_and!.
  - rewrite <- En. unfold names at 1. rewrite (fields_elem _ [] e rest Et) by apply He. by rewrite names_skip.
  - pose proof (length_skip_slashes rest). lia.
  - split; [by intros ->|]. intros E0. destruct (skip_slashes rest) as [|c' p'] eqn:Er; [done|].
    pose proof (skip_slashes_head _ _ _ Er) as Hc'. destruct (take_elem (c' :: p')) as [e2 r2] eqn:Et2.
    unfold names in E0. rewrite (fields_elem _ [] e2 r2 Et2) in E0; [done|].
    simpl in Et2. rewrite bool_decide_eq_false_2 in Et2 by done. destruct (take_elem p'). by injection Et2 as <- <-.
Qed.

(** ** Walking the directories *)

Definition lookup1 (A : Z → afile) (i : Z) (name : list Z) : option Z :=
  if bool_decide (a_type (A i) = T_DIR) then dir_lookup (a_data (A i)) name else None.

(** The inode a list of names stands for, from inode [i] on. *)
Fixpoint walk (A : Z → afile) (i : Z) (l : list (list Z)) : option Z :=
  match l with
  | [] => Some i
  | name :: l => j ← lookup1 A i name; walk A j l
  end.

(** The directory of the last name, and that name. *)
Fixpoint walk_parent (A : Z → afile) (i : Z) (l : list (list Z)) : option (Z * list Z) :=
  match l with
  | [] => None
  | [name] => if bool_decide (a_type (A i) = T_DIR) then Some (i, name) else None
  | name :: l => j ← lookup1 A i name; walk_parent A j l
  end.

(** The directories of the file system: their size is a multiple of the size of
    an entry, and their entries are files that have links. *)
Definition tree_ok (x : superblock) (A : Z → afile) : Prop :=
  ∀ i, inode_no x i → a_type (A i) = T_DIR →
    Z.of_nat (length (a_data (A i))) mod DIRENT = 0 ∧
    ∀ name j, dir_lookup (a_data (A i)) name = Some j → inode_no x j ∧ a_type (A j) ≠ 0 ∧ a_nlink (A j) ≠ 0.

Definition files (s : fss) (V : Z → dinode) : Z → afile := λ i, file_of (blk s) (V i).

(** No inode is locked, but for entry [k]. *)
Definition unlocked_but (k : option nat) (s : fss) : Prop :=
  ∀ ip e, icache s !! ip = Some e → Some ip ≠ k → ilocked e = false.

(** States with the same disk. *)
Definition same_disk (s s' : fss) : Prop := blk s' = blk s ∧ sb s' = sb s.

Lemma refs_same c ip e e' j :
  c !! ip = Some e → iref e' = iref e → inum e' = inum e → refs (<[ip := e']> c) j = refs c j.
Proof. intros He Er Ei. rewrite (refs_insert _ _ _ _ _ He). unfold contrib. rewrite Er, Ei. lia. Qed.

Section Walk.

Context (dev_read : Z → option (nat → Z → M fss (Z * list Z))).
Context (F : Z → Prop) (ds : Z) (V : Z → dinode).

(** [iunlockput] of an inode that stays: it has links, or other references. *)
Lemma iunlockput_keeps s ip i e :
  inv none F ds s V → cached s V ip i e → ilocked e = true → unlocked_but (Some ip) s →
  nlink (V i) ≠ 0 ∨ 1 < iref e →
  ∃ s', iunlockput ip s = Ok tt s' ∧ inv none F ds s' V ∧ same_disk s s' ∧ unlocked_but None s' ∧
    icache s' = <[ip := set_ref (iref e - 1) (set_locked false e)]> (icache s) ∧
    ∀ j, refs (icache s') j = refs (icache s) j - if bool_decide (j = i) then 1 else 0.
Proof.
  intros Hv Hc Hlk Hun Hkeep. destruct (iunlock_spec none F ds s V ip i e Hv Hc Hlk) as (E1 & Hv1 & Hc1).
  set (s1 := set_icache _ s) in *. pose proof (lookup_lt_Some _ _ _ (ca_entry _ _ _ _ _ Hc)) as Hlt.
  assert (Hnl : ¬ last_ref V i (set_locked false e)) by (unfold last_ref; simpl; naive_solver lia).
  destruct (iput_drop none F ds s1 V ip i _ Hv1 ltac:(by intros []) (cached_held _ _ _ _ _ Hc1) eq_refl Hnl) as [E2 Hv2].
  set (s2 := set_icache _ s1) in *.
  assert (Eic : icache s2 = <[ip := set_ref (iref e - 1) (set_locked false e)]> (icache s)).
  { unfold s2, s1. simpl. by rewrite list_insert_insert_eq. }
  exists s2. split_and!; [|done|done| |done|].
  - unfold iunlockput. by rewrite (bind_step _ _ _ _ _ E1).
  - intros k a Hk _. rewrite Eic in Hk. apply list_lookup_insert_Some in Hk as [(-> & <- & _)|[Hne Hk]]; [done|].
    apply (Hun k a Hk). congruence.
  - intros j. rewrite Eic. eapply refs_drop; [apply Hc|apply Hc|apply Hc|done|]. intros _. apply Hc.
Qed.

(** A reference to inode [i] in entry [ip], with nothing locked; the inode stays
    when the reference is dropped. *)
Record standing (s : fss) (ip : nat) (i : Z) (e : inode) : Prop := Standing {
  sd_inv : inv none F ds s V;
  sd_unlocked : unlocked_but None s;
  sd_held : held s ip i e;
  sd_type : type (V i) ≠ 0;
  sd_stays : nlink (V i) ≠ 0 ∨ 1 < iref e;
}.

Definition one (i j : Z) : Z := if bool_decide (j = i) then 1 else 0.

(** The state in which the inode is locked. *)
Definition lock_st (s : fss) (ip : nat) (i : Z) (e : inode) : fss :=
  set_icache (<[ip := locked_entry V i (iref e)]> (icache s)) s.

Lemma standing_lock s ip i e :
  standing s ip i e →
  ilock ip s = Ok tt (lock_st s ip i e) ∧ inv none F ds (lock_st s ip i e) V ∧
  cached (lock_st s ip i e) V ip i (locked_entry V i (iref e)) ∧ unlocked_but (Some ip) (lock_st s ip i e) ∧
  ∀ j, refs (icache (lock_st s ip i e)) j = refs (icache s) j.
Proof.
  intros [Hv Hun Hh Ht Hst]. pose proof Hh as [He Hin Hr].
  destruct (ilock_spec none F ds s V ip i e Hv ltac:(by intros []) Hh ltac:(by eapply Hun) Ht) as (E & Hv1 & Hc1).
  split_and!; [done..| |].
  - intros k a Hk Hne. apply list_lookup_insert_Some in Hk as [(-> & <- & _)|[_ Hk]]; [done|by eapply Hun].
  - intros j. by eapply refs_same.
Qed.

(** A lock that is released with the reference. *)
Lemma standing_leave s ip i e :
  standing s ip i e →
  wpt (iunlockput ip) (λ _ s', inv none F ds s' V ∧ same_disk s s' ∧ unlocked_but None s' ∧
    ∀ j, refs (icache s') j = refs (icache s) j - one i j) (lock_st s ip i e).
Proof.
  intros Hs. destruct (standing_lock _ _ _ _ Hs) as (_ & Hv1 & Hc1 & Hun1 & Hrefs1).
  destruct (iunlockput_keeps _ ip i _ Hv1 Hc1 eq_refl Hun1) as (s' & E & Hv' & Hsd & Hun' & _ & Hrefs).
  { destruct Hs as [_ _ _ _ [?|?]]; [by left|by right]. }
  eapply wpt_eq; [exact E|]. split_and!; [done|done|done|]. intros j. by rewrite Hrefs, Hrefs1.
Qed.

(** The next directory: its inode is referenced, and then the lock and the
    reference of the current one are dropped. *)
Lemma standing_next s ip i e n k s2 :
  standing s ip i e → type (V n) ≠ 0 → nlink (V n) ≠ 0 →
  inv none F ds s2 V → gotten (lock_st s ip i e) n k s2 →
  wpt (iunlockput ip) (λ _ s', same_disk s s' ∧ (∃ e', standing s' k n e') ∧
    ∀ j, refs (icache s') j = refs (icache s) j - one i j + one n j) s2.
Proof.
  intros Hs Htn Hnl Hv2 Hgo. destruct (standing_lock _ _ _ _ Hs) as (_ & Hv1 & Hc1 & Hun1 & Hrefs1).
  pose proof Hgo as [Eb Esb (a & a' & Ha & Eic & Hh & Elk & Hor)]. pose proof Hh as [Hk' Hin' Hr'].
  set (e1 := locked_entry V i (iref e)) in *. pose proof (ca_entry _ _ _ _ _ Hc1) as He1.
  assert (Hent : ∃ e2, icache s2 !! ip = Some e2 ∧ inum e2 = i ∧ iref e ≤ iref e2 ∧ ilocked e2 = true ∧
    valid e2 = true ∧ di e2 = V i ∧ (k = ip → iref e2 = iref e + 1)).
  { rewrite Eic. destruct (decide (k = ip)) as [->|Hne].
    - assert (a = e1) as -> by congruence. exists a'. rewrite list_lookup_insert_eq by (by eapply lookup_lt_Some).
      destruct Hor as [[[_ Hin _] ->]|(H0 & _)].
      + simpl. split_and!; (done || lia).
      + destruct Hs as [_ _ [_ _ Hr] _ _]. simpl in H0. lia.
    - exists e1. rewrite list_lookup_insert_ne by done. split_and!; try done. }
  destruct Hent as (e2 & He2 & Hin2 & Hr2 & Hlk2 & Hva2 & Hdi2 & Hk2).
  pose proof Hs as [_ _ [_ _ Hr] Hti Hst].
  assert (Hc2 : cached s2 V ip i e2) by (split; try done; lia).
  assert (Hun2 : unlocked_but (Some ip) s2).
  { intros m b Hm Hne. rewrite Eic in Hm. apply list_lookup_insert_Some in Hm as [(-> & <- & _)|[_ Hm]];
      [rewrite Elk; by eapply Hun1|by eapply Hun1]. }
  destruct (iunlockput_keeps s2 ip i e2 Hv2 Hc2 Hlk2 Hun2 ltac:(naive_solver lia)) as (s3 & E & Hv3 & [Eb3 Esb3] & Hun3 & Eic3 & Hrefs3).
  eapply wpt_eq; [exact E|]. split_and!.
  - split; [by rewrite Eb3, Eb|by rewrite Esb3, Esb].
  - destruct (decide (k = ip)) as [->|Hne].
    + exists (set_ref (iref e2 - 1) (set_locked false e2)). split; try done; [|by left].
      assert (a' = e2) as -> by congruence.
      split; simpl; [rewrite Eic3; apply list_lookup_insert_eq; by eapply lookup_lt_Some|done|rewrite Hk2 by done; lia].
    + exists a'. split; try done; [|by left]. split; [|done|done]. rewrite Eic3, list_lookup_insert_ne by done. done.
  - intros j. rewrite Hrefs3, (gotten_refs _ _ _ _ j Hgo), Hrefs1. unfold one. lia.
Qed.

Lemma files_same_disk s s' : same_disk s s' → files s' V = files s V.
Proof. intros [Eb _]. unfold files. by rewrite Eb. Qed.

Lemma tree_same_disk s s' : same_disk s s' → tree_ok (sb s) (files s V) → tree_ok (sb s') (files s' V).
Proof. intros Hs. rewrite (files_same_disk _ _ Hs). by destruct Hs as [_ ->]. Qed.

Lemma tree_dir s i : tree_ok (sb s) (files s V) → inv none F ds s V → inode_no (sb s) i → type (V i) = T_DIR →
  size (V i) mod DIRENT = 0 ∧
  ∀ name n, dir_lookup (contents (blk s) (V i)) name = Some n → inode_no (sb s) n ∧ type (V n) ≠ 0 ∧ nlink (V n) ≠ 0.
Proof.
  intros Ht Hv Hi Hd. destruct (Ht i Hi Hd) as [Hm Hl]. simpl in Hm. rewrite contents_length in Hm.
  destruct (fits_size _ (dok_fits _ _ (dv_ok _ _ _ _ _ (inv_disk _ _ _ _ _ Hv) i Hi))) as [H0 _].
  rewrite Z2Nat.id in Hm by done. split; [done|exact Hl].
Qed.

(** One turn of the loop of [namex] in a directory, up to the next inode. *)
Lemma namex_step {A} s ip i e name (Kn : M fss A) (Ks : nat → M fss A) Q :
  tree_ok (sb s) (files s V) → standing s ip i e → type (V i) = T_DIR →
  (∀ s', lookup1 (files s V) i name = None → inv none F ds s' V → same_disk s s' → unlocked_but None s' →
    (∀ j, refs (icache s') j = refs (icache s) j - one i j) → wpf Kn Q s') →
  (∀ k n e' s', lookup1 (files s V) i name = Some n → same_disk s s' → standing s' k n e' →
    (∀ j, refs (icache s') j = refs (icache s) j - one i j + one n j) → wpf (Ks k) Q s') →
  wpf (r ← dirlookup dev_read ip name;
       match r with None => iunlockput ip ;; Kn | Some (next, _) => iunlockput ip ;; Ks next end) Q (lock_st s ip i e).
Proof.
  intros Htree Hs Hd HKn HKs. destruct (standing_lock _ _ _ _ Hs) as (_ & Hv1 & Hc1 & Hun1 & _).
  pose proof (cached_no _ _ _ _ _ _ _ _ Hv1 Hc1) as Hi. change (sb (lock_st s ip i e)) with (sb s) in Hi.
  destruct (tree_dir s i Htree (sd_inv _ _ _ _ Hs) Hi Hd) as [Hm Hl].
  assert (El : lookup1 (files s V) i name = snd <$> dir_find name (dents (contents (blk s) (V i))) 0).
  { unfold lookup1. by rewrite bool_decide_eq_true_2. }
  apply wpf_bind. eapply wpf_mono.
  { eapply (dirlookup_spec dev_read none F ds _ V ip i _ Hv1 Hc1 Hd Hm); [done|]. intros n Hn. by destruct (Hl name n Hn). }
  intros r s2. cbn beta. change (blk (lock_st s ip i e)) with (blk s).
  destruct (dir_find name _ 0) as [[j n]|] eqn:Ef.
  - intros (k & -> & Hv2 & Hgo). simpl in El.
    destruct (Hl name n) as (Hn & Htn & Hnl); [unfold dir_lookup; by rewrite Ef|].
    apply wpf_bind. eapply wpf_mono; [by eapply wpf_wpt, standing_next|].
    intros ? s3 (Hsd & [e' Hst] & Hrefs). by eapply HKs.
  - intros [-> ->]. apply wpf_bind. eapply wpf_mono; [by eapply wpf_wpt, standing_leave|].
    intros ? s3 (Hv3 & Hsd & Hun & Hrefs). by apply HKn.
Qed.

(** The loop of [namex]. *)
Definition found (s : fss) (i : Z) (want : option (Z * list Z)) (r : option (nat * list Z)) (s' : fss) : Prop :=
  inv none F ds s' V ∧ same_disk s s' ∧ unlocked_but None s' ∧
  match want with
  | None => r = None ∧ ∀ m, refs (icache s') m = refs (icache s) m - one i m
  | Some (j, nm) => ∃ k e, r = Some (k, nm) ∧ held s' k j e ∧
      ∀ m, refs (icache s') m = refs (icache s) m - one i m + one j m
  end.

Lemma found_next s s1 i n want r s' :
  same_disk s s1 → (∀ j, refs (icache s1) j = refs (icache s) j - one i j + one n j) →
  found s1 n want r s' → found s i want r s'.
Proof.
  intros [Eb Esb] Hr (Hv & [Eb' Esb'] & Hun & Hw). split_and!; [done|split; congruence|done|].
  destruct want as [[j nm]|].
  - destruct Hw as (k & e & ? & ? & Hrefs). exists k, e. split_and!; [done|done|]. intros m. rewrite Hrefs, Hr. lia.
  - destruct Hw as [? Hrefs]. split; [done|]. intros m. rewrite Hrefs, Hr. lia.
Qed.

(** What [namex] looks for: with [nm] the last name taken from the path. *)
Definition target (par : bool) (A : Z → afile) (i : Z) (path nm : list Z) : option (Z * list Z) :=
  if par then walk_parent A i (names path) else (λ j, (j, default nm (last (names path)))) <$> walk A i (names path).

Lemma target_next par A i path nm name rest j :
  names path = name :: names rest → (par = true → names rest ≠ []) → lookup1 A i name = Some j →
  target par A i path nm = target par A j rest name.
Proof.
  intros En Hp Hl. unfold target. rewrite En. destruct par.
  - destruct (names rest); [by destruct Hp|]. simpl. by rewrite Hl.
  - cbn [walk]. rewrite Hl. cbn [mbind option_bind]. destruct (walk A j (names rest)); [|done]. cbn. do 2 f_equal.
    rewrite last_cons. by destruct (last (names rest)).
Qed.

Lemma target_stop par A i path nm name rest :
  names path = name :: names rest → (par = true → names rest ≠ []) → lookup1 A i name = None →
  target par A i path nm = None.
Proof.
  intros En Hp Hl. unfold target. rewrite En. destruct par; [|simpl; by rewrite Hl].
  destruct (names rest); [by destruct Hp|]. simpl. by rewrite Hl.
Qed.

Lemma target_not_dir par A i path nm name rest :
  names path = name :: names rest → a_type (A i) ≠ T_DIR → target par A i path nm = None.
Proof.
  intros En Ht. assert (Hl : lookup1 A i name = None) by (unfold lookup1; by rewrite bool_decide_eq_false_2).
  destruct (decide (par = true → names rest ≠ [])) as [|Hn]; [by eapply target_stop|].
  unfold target. rewrite En. destruct par; [|simpl; by rewrite Hl].
  destruct (names rest); [|by destruct Hn]. simpl. by rewrite bool_decide_eq_false_2.
Qed.

Lemma standing_iput s ip i e :
  standing s ip i e →
  wpt (iput ip) (λ _ s', inv none F ds s' V ∧ same_disk s s' ∧ unlocked_but None s' ∧
    ∀ j, refs (icache s') j = refs (icache s) j - one i j) s.
Proof.
  intros [Hv Hun Hh Ht Hst]. pose proof Hh as [He Hin Hr].
  assert (Hnl : ¬ last_ref V i e) by (unfold last_ref; naive_solver lia).
  destruct (iput_drop none F ds s V ip i e Hv ltac:(by intros []) Hh ltac:(by eapply Hun) Hnl) as [E Hv'].
  eapply wpt_eq; [exact E|]. split_and!; [done|done| |].
  - intros k a Hk _. apply list_lookup_insert_Some in Hk as [(-> & <- & _)|[_ Hk]]; [simpl|]; by eapply Hun.
  - intros j. by eapply refs_drop.
Qed.

(** The parent directory is returned unlocked. *)
Lemma standing_parent s ip i e nm :
  standing s ip i e →
  wpt (iunlock ip ;; mret (Some (ip, nm))) (found s i (Some (i, nm))) (lock_st s ip i e).
Proof.
  intros Hs. destruct (standing_lock _ _ _ _ Hs) as (_ & Hv1 & Hc1 & Hun1 & Hrefs1).
  destruct (iunlock_spec none F ds _ V ip i _ Hv1 Hc1 eq_refl) as (E & Hv2 & Hc2).
  apply wpt_bind. eapply wpt_eq; [exact E|]. apply wpt_ret. split_and!; [done|done| |].
  - intros k a Hk _. apply list_lookup_insert_Some in Hk as [(-> & <- & _)|[Hne Hk]]; [done|].
    apply (Hun1 k a Hk). congruence.
  - exists ip, (set_locked false (locked_entry V i (iref e))). split_and!; [done|by eapply cached_held|].
    intros m. simpl. erewrite refs_same; [|apply Hc1|done|done]. rewrite Hrefs1. lia.
Qed.

Lemma namex_loop_spec par fuel : ∀ path nm s ip i e,
  tree_ok (sb s) (files s V) → standing s ip i e → (length path < fuel)%nat →
  wpf (namex_loop dev_read fuel par path nm ip) (found s i (target par (files s V) i path nm)) s.
Proof.
  induction fuel as [|fuel IH]; intros path nm s ip i e Htree Hs Hlen; [lia|]. cbn [namex_loop].
  pose proof (skipelem_spec path) as Hskip. destruct (skipelem path) as [[name rest]|].
  - destruct Hskip as (En & Hlt & Hrest). destruct (standing_lock _ _ _ _ Hs) as (Elock & Hv1 & Hc1 & Hun1 & Hrefs1).
    eapply wpf_step; [exact Elock|]. eapply wpf_step; [by apply iget_at_eq, Hc1|]. cbn beta. cbn [di locked_entry].
    case_bool_decide as Ht.
    { rewrite (target_not_dir par (files s V) i path nm _ _ En Ht). apply wpf_bind. eapply wpf_mono; [by eapply wpf_wpt, standing_leave|].
      intros ? s' (? & ? & ? & ?). by apply wpf_ret. }
    destruct (par && bool_decide (rest = [])) eqn:Epar.
    { apply andb_true_iff in Epar as [-> Er%bool_decide_eq_true]. apply wpf_wpt.
      replace (target true (files s V) i path nm) with (Some (i, name)); [by apply standing_parent|].
      unfold target. rewrite En. apply Hrest in Er. rewrite Er. simpl. by rewrite bool_decide_eq_true_2. }
    assert (Hp : par = true → names rest ≠ []).
    { intros -> E. apply Hrest in E. by rewrite bool_decide_eq_true_2 in Epar. }
    apply namex_step; [done..| |].
    + intros s' Hl Hv' Hsd Hun Hrefs. apply wpf_ret. by rewrite (target_stop _ _ _ _ _ _ _ En Hp Hl).
    + intros k n e' s' Hl Hsd Hst Hrefs. rewrite (target_next _ _ _ _ _ _ _ _ En Hp Hl).
      eapply wpf_mono; [apply (IH rest name s' k n e'); [by eapply tree_same_disk|done|lia]|].
      intros r s2. rewrite (files_same_disk _ _ Hsd). by apply found_next.
  - destruct par.
    + apply wpf_bind. eapply wpf_mono; [by eapply wpf_wpt, standing_iput|]. intros ? s' (? & ? & ? & ?). apply wpf_ret.
      unfold target. by rewrite Hskip.
    + apply wpf_ret. unfold target. rewrite Hskip. simpl. destruct Hs as [Hv Hun Hh Ht Hst].
      split_and!; [done|done|done|]. exists ip, e. split_and!; [done|done|]. intros m. lia.
Qed.

(** [namex] from the root or from the current directory [cwd], inode [c]. *)
Lemma namex_spec par s cwd c ec path :
  inv none F ds s V → tree_ok (sb s) (files s V) → unlocked_but None s →
  type (V ROOTINO) ≠ 0 → nlink (V ROOTINO) ≠ 0 → held s cwd c ec → type (V c) ≠ 0 →
  let start := if bool_decide (hd 0 path = SLASH) then ROOTINO else c in
  wpf (namex dev_read cwd path par) (λ r s', inv none F ds s' V ∧ same_disk s s' ∧ unlocked_but None s' ∧
    match target par (files s V) start path [] with
    | None => r = None ∧ ∀ m, refs (icache s') m = refs (icache s) m
    | Some (j, nm) => ∃ k e, r = Some (k, nm) ∧ held s' k j e ∧
        ∀ m, refs (icache s') m = refs (icache s) m + one j m
    end) s.
Proof.
  intros Hv Htree Hun Htr Hnr Hcwd Htc start. unfold namex. apply wpf_bind.
  assert (Hstart : wpf (if bool_decide (hd 0 path = SLASH) then iget ROOTDEV ROOTINO else idup cwd)
    (λ ip s1, (∃ e, standing s1 ip start e) ∧ gotten s start ip s1) s).
  { unfold start. case_bool_decide.
    - assert (Hno : inode_no (sb s) ROOTINO).
      { pose proof (lay_ninodes _ _ (dv_layout _ _ _ _ _ (inv_disk _ _ _ _ _ Hv))). unfold inode_no, ROOTINO. lia. }
      eapply wpf_mono; [by apply (iget_spec none F ds s V)|]. intros ip s1 [Hv1 Hgo]. split; [|done].
      pose proof Hgo as [_ _ (a & a' & Ha & Eic & Hh & Elk & _)]. exists a'. split; [done| |done|done|by left].
      intros k b Hk _. rewrite Eic in Hk. apply list_lookup_insert_Some in Hk as [(-> & <- & _)|[_ Hk]]; [rewrite Elk|]; by eapply Hun.
    - eapply wpf_mono; [by eapply wpf_wpt, (idup_spec none F ds s V)|]. intros ip s1 (-> & Hv1 & Hgo). split; [|done].
      pose proof Hgo as [_ _ (a & a' & Ha & Eic & Hh & Elk & Hor)]. exists a'.
      pose proof Hcwd as [Hec _ Hrc]. assert (a = ec) as -> by congruence.
      split; [done| |done|done|].
      + intros k b Hk _. rewrite Eic in Hk. apply list_lookup_insert_Some in Hk as [(-> & <- & _)|[_ Hk]]; [rewrite Elk|]; by eapply Hun.
      + right. destruct Hor as [[_ ->]|(H0 & _)]; [simpl; lia|lia]. }
  eapply wpf_mono; [exact Hstart|]. intros ip s1 [[e Hst] Hgo]. cbn beta.
  assert (Hsd : same_disk s s1) by (by destruct Hgo).
  eapply wpf_mono; [apply (namex_loop_spec par (S (length path)) path [] s1 ip start e); [by eapply tree_same_disk|done|lia]|].
  intros r s' (Hv' & [Eb Esb] & Hun' & Hw). rewrite (files_same_disk _ _ Hsd) in Hw. destruct Hsd as [Eb1 Esb1].
  split_and!; [done|split; congruence|done|]. destruct (target _ _ _ _ _) as [[j nm]|].
  - destruct Hw as (k & e' & ? & ? & Hrefs). exists k, e'. split_and!; [done|done|]. intros m.
    rewrite Hrefs, (gotten_refs _ _ _ _ m Hgo). unfold one. lia.
  - destruct Hw as [? Hrefs]. split; [done|]. intros m. rewrite Hrefs, (gotten_refs _ _ _ _ m Hgo). unfold one. lia.
Qed.

End Walk.

End FsPath.
