(* ===== verification/FsDemo.v ===== *)
(** * A small file system

    A disk with a root directory and two files, one of them without links, and a
    decision procedure for the invariant of such disks (without indirect
    blocks). *)

From S2P Require Import Prelude Log Fs FsInv FsAlloc FsFile FsWrite FsTrunc FsCache FsDir FsPath.

Module FsDemo.

Import Fs FsInv FsAlloc FsFile FsWrite FsTrunc FsCache FsDir FsPath.

#[global] Instance dinode_eq_dec : EqDecision dinode.
Proof. solve_decision. Defined.

Section Decide.

Context (ds : Z) (s : fss).

Abbreviation x := (sb s).
Abbreviation W := (λ i, disk_inode (sb s) (blk s) i).

Definition inodes : list Z := seqZ 1 (sb_ninodes x - 1).

Definition inode_fine (v : dinode) : Prop :=
  addr_at v NDIRECT = 0 ∧ size v ≤ 12 * BSZ ∧
  Forall (λ n, Z.of_nat n * BSZ < size v → addr_at v n ≠ 0) (seq 0 12) ∧
  (type v = 0 → Forall (λ n, addr_at v n = 0) (seq 0 12)).

(** The block pointers of all inodes. *)
Definition places : list (Z * nat) := i ← inodes; (λ k, (i, k)) <$> seq 0 12.
Definition owner (p : Z * nat) : Z := addr_at (W p.1) p.2.
Definition owners : list Z := filter (λ a, a ≠ 0) (owner <$> places).

Definition entry_fine (e : inode) : Prop :=
  0 ≤ iref e ∧ (0 < iref e → idev e = ROOTDEV ∧ (1 ≤ inum e < sb_ninodes x) ∧
    (valid e = true → di e = W (inum e) ∧ type (di e) ≠ 0)).

Definition disk_fine : Prop :=
  Forall (λ i, inode_fine (W i)) inodes ∧ NoDup owners ∧ Forall (λ b, ds ≤ b < sb_size x) owners ∧
  Forall (λ b, used x (blk s) b ↔ b ∈ owners) (seqZ ds (sb_size x - ds)) ∧
  Forall (used x (blk s)) (seqZ 0 ds).

Definition cache_fine : Prop :=
  Forall entry_fine (icache s) ∧ NoDup (inum <$> filter (λ e, 0 < iref e) (icache s)).

#[global] Instance disk_fine_dec : Decision disk_fine.
Proof. unfold disk_fine, inode_fine. apply _. Defined.

#[global] Instance cache_fine_dec : Decision cache_fine.
Proof. unfold cache_fine, entry_fine. apply _. Defined.

Lemma filter_map_inj {A B} (P : B → Prop) `{!∀ b, Decision (P b)} (g : A → B) (l : list A) p q :
  NoDup (filter P (g <$> l)) → p ∈ l → q ∈ l → P (g p) → g p = g q → p = q.
Proof.
  induction l as [|a l IH]; intros Hnd Hp Hq HP E; [by apply elem_of_nil in Hp|]. simpl in Hnd.
  assert (Hin : ∀ r, r ∈ l → P (g r) → g r ∈ filter P (g <$> l)).
  { intros r Hr HPr. apply list_elem_of_filter. split; [done|]. by apply list_elem_of_fmap_2. }
  apply elem_of_cons in Hp as [->|Hp], Hq as [->|Hq]; [done| | |].
  - rewrite filter_cons_True in Hnd by done. apply NoDup_cons in Hnd as [Hn _]. destruct Hn. rewrite E. apply Hin; congruence.
  - rewrite filter_cons_True in Hnd by congruence. apply NoDup_cons in Hnd as [Hn _]. destruct Hn. rewrite <- E. by apply Hin.
  - apply IH; try done. rewrite filter_cons in Hnd. by destruct (decide _); [apply NoDup_cons in Hnd as [_ ?]|].
Qed.

Lemma elem_of_places i k : (i, k) ∈ places ↔ inode_no x i ∧ (k < 12)%nat.
Proof.
  unfold places, inodes, inode_no. rewrite list_elem_of_bind. split.
  - intros (j & Hk & Hj). apply list_elem_of_fmap in Hk as (l & [= -> ->] & Hl).
    apply elem_of_seq in Hl. apply elem_of_seqZ in Hj. lia.
  - intros [Hi Hk]. exists i. split; [|apply elem_of_seqZ; lia]. apply list_elem_of_fmap. exists k.
    split; [done|]. apply elem_of_seq. lia.
Qed.

Context (Hlay : layout x ds) (Hsb : sb_of (blk s 1) = x) (Hblocks : ∀ b, block_ok (blk s b)).
Context (Hdisk : disk_fine) (Hcache : cache_fine).

Lemma fine_inode i : inode_no x i → inode_fine (W i).
Proof.
  intros Hi. destruct Hdisk as [Hf _]. rewrite Forall_forall in Hf. apply (Hf i). apply elem_of_seqZ.
  unfold inode_no in Hi. lia.
Qed.

Lemma fine_ptr i k : inode_no x i → ptr (blk s) (W i) k ≠ 0 → (k < 12)%nat ∧ ptr (blk s) (W i) k = owner (i, k).
Proof.
  intros Hi H0. destruct (fine_inode i Hi) as (Hind & _). destruct (decide (k < 12)%nat) as [Hk|Hk].
  - rewrite ptr_direct by (unfold NDIRECT; lia). done.
  - destruct H0. destruct (decide (k = NDIRECT)) as [->|]; [by rewrite ptr_direct|].
    apply ptr_no_indirect; [unfold NDIRECT in *; lia|done].
Qed.

Lemma elem_of_owners a : a ∈ owners ↔ a ≠ 0 ∧ ∃ i k, inode_no x i ∧ ptr (blk s) (W i) k = a.
Proof.
  unfold owners. rewrite list_elem_of_filter, list_elem_of_fmap. split.
  - intros [H0 ([i k] & E & Hp)]. split; [done|]. apply elem_of_places in Hp as [Hi Hk]. exists i, k. split; [done|].
    rewrite ptr_direct by (unfold NDIRECT; lia). by rewrite E.
  - intros [H0 (i & k & Hi & E)]. split; [done|]. rewrite <- E in H0. destruct (fine_ptr i k Hi H0) as [Hk Eo].
    exists (i, k). split; [congruence|]. by apply elem_of_places.
Qed.

Lemma fine_disk_inv : disk_inv none ds x (blk s) W.
Proof.
  destruct Hdisk as (Hf & Hnd & Hr & Hu & Hm). rewrite Forall_forall in Hr, Hu, Hm.
  split; [done|done|done| | | |by intros ? []| |].
  - intros b Hb. apply Hm, elem_of_seqZ. lia.
  - intros b Hb. destruct (Hu b ltac:(apply elem_of_seqZ; lia)) as [H1 H2].
    pose proof (lay_size _ _ Hlay). split.
    + intros Hub. right. by apply elem_of_owners in H1 as [_ ?].
    + intros [[]|(i & k & Hi & E)]. apply H2, elem_of_owners. split; [lia|eauto].
  - intros i k Hi H0. apply Hr, elem_of_owners. split; [done|eauto].
  - intros i j k l Hi Hj H0 E.
    assert (H0' : ptr (blk s) (W j) l ≠ 0) by congruence.
    destruct (fine_ptr i k Hi H0) as [Hk Ek], (fine_ptr j l Hj H0') as [Hl El].
    assert ((i, k) = (j, l)) as [= -> ->]; [|done].
    eapply (filter_map_inj (λ a, a ≠ 0) owner places); [done|by apply elem_of_places..| |congruence]. congruence.
  - intros i Hi. destruct (fine_inode i Hi) as (Hind & Hs & Hh & H0). rewrite Forall_forall in Hh.
    split; [apply dinode_get_fits|unfold MAXFILE, BSZ in *; lia| |].
    + intros n Hn. assert (n < 12)%nat by (unfold BSZ in *; lia).
      unfold fidx. destruct (Nat.ltb_spec n NDIRECT); [|unfold NDIRECT in *; lia].
      rewrite ptr_direct by lia. apply Hh; [apply elem_of_seq; lia|done].
    + intros Ht k. destruct (decide (ptr (blk s) (W i) k = 0)) as [|Hne]; [done|].
      destruct (fine_ptr i k Hi Hne) as [Hk Eo]. specialize (H0 Ht). rewrite Forall_forall in H0.
      rewrite Eo. apply H0, elem_of_seq. simpl; lia.
Qed.

Lemma fine_cache_inv : cache_inv none x (icache s) W.
Proof.
  destruct Hcache as [He Hnd]. rewrite Forall_lookup in He. split.
  - intros ip e Hip. by destruct (He ip e Hip).
  - intros ip e Hip Hr. destruct (He ip e Hip) as [_ H]. destruct (H Hr) as (? & ? & Hv). split_and!; auto.
  - intros ip jp e e' Hip Hjp Hr Hr' E. clear He. revert ip jp Hip Hjp Hnd.
    induction (icache s) as [|a l IH]; intros ip jp Hip Hjp Hnd; [done|].
    assert (Hin : ∀ k b, l !! k = Some b → 0 < iref b → inum b ∈ inum <$> filter (λ e, 0 < iref e) l).
    { intros k b Hk Hb. apply list_elem_of_fmap_2, list_elem_of_filter. split; [done|by eapply list_elem_of_lookup_2]. }
    rewrite filter_cons in Hnd. destruct ip as [|ip], jp as [|jp]; simpl in Hip, Hjp; [done| | |].
    + injection Hip as ->. rewrite decide_True in Hnd by done. apply NoDup_cons in Hnd as [Hn _].
      destruct Hn. rewrite E. by eapply Hin.
    + injection Hjp as ->. rewrite decide_True in Hnd by done. apply NoDup_cons in Hnd as [Hn _].
      destruct Hn. rewrite <- E. by eapply Hin.
    + f_equal. apply IH; [done|done|]. by destruct (decide _); [apply NoDup_cons in Hnd as [_ ?]|].
Qed.

Lemma fine_inv : inv none none ds s W.
Proof. split; [apply fine_disk_inv|by intros i Hi _|apply fine_cache_inv]. Qed.

End Decide.

(** ** The disk *)

Definition zeros : block := replicate BSIZE 0.

Definition demo_sb : superblock := Superblock 12 7 9 0 2 2 4.

Definition sb_block : block :=
  put32 0 12 (put32 4 7 (put32 8 9 (put32 12 0 (put32 16 2 (put32 20 2 (put32 24 4 zeros)))))).

Definition root : dinode := Dinode T_DIR 0 0 1 32 (5 :: replicate 12 0).
Definition file : dinode := Dinode T_FILE 0 0 1 3 (6 :: replicate 12 0).
Definition orphan : dinode := Dinode T_FILE 0 0 0 600 (7 :: 8 :: replicate 11 0).

Definition inode_block : block :=
  dinode_put (dislot 3) orphan (dinode_put (dislot 2) file (dinode_put (dislot 1) root zeros)).

(** The entries "." and "a". *)
Definition root_block : block := splice 0 (dirent_bytes 1 [46] ++ dirent_bytes 2 [97]) zeros.

Definition demo_blk : Z → block :=
  <[1 := sb_block]> (<[2 := inode_block]> (<[4 := put16 0 511 zeros]> (<[5 := root_block]>
    (<[6 := splice 0 [104; 105; 10] zeros]> (λ _, zeros))))).

(** The cache has all three; the first two are locked if [lk]. *)
Definition demo_cache (lk : bool) : list inode :=
  [Inode ROOTDEV 1 1 lk true root; Inode ROOTDEV 2 1 lk true file; Inode ROOTDEV 3 1 false true orphan] ++
  replicate (NINODE - 3) (Inode 0 0 0 false false zero_dinode).

Definition demo (lk : bool) : fss := Fss demo_blk [] demo_sb (demo_cache lk).

Definition demo_V : Z → dinode := λ i, disk_inode demo_sb demo_blk i.

Lemma zeros_ok : block_ok zeros.
Proof. apply block_ok_zero. Qed.

Lemma demo_blocks_ok b : block_ok (demo_blk b).
Proof.
  unfold demo_blk. repeat apply blocks_ok_insert; intros; try apply zeros_ok.
  - apply block_ok_splice; [vm_compute; lia|repeat constructor; (unfold is_byte; lia)|apply zeros_ok].
  - apply block_ok_splice; [vm_compute; lia| |apply zeros_ok].
    apply Forall_app; split; apply dirent_bytes_ok; repeat constructor; unfold is_byte; lia.
  - apply block_ok_put16, zeros_ok.
  - repeat apply block_ok_dinode_put. apply zeros_ok.
  - unfold sb_block. repeat apply block_ok_put32. apply zeros_ok.
Qed.

Lemma demo_inv lk : inv none none 5 (demo lk) demo_V.
Proof.
  apply (fine_inv 5 (demo lk)).
  - split; vm_compute; (done || lia).
  - vm_compute. done.
  - apply demo_blocks_ok.
  - apply (bool_decide_eq_true_1 _). vm_compute. done.
  - apply (bool_decide_eq_true_1 _). destruct lk; vm_compute; done.
Qed.

End FsDemo.
