(* ===== verification/FsThm.v ===== *)
(** * What the file system promises

    The theorems about [Fs], with a small file system on which they are
    evaluated. *)

From S2P Require Import Prelude Log Fs FsInv FsAlloc FsFile FsWrite FsTrunc FsCache FsDir FsPath FsDemo.

Module FsThm.

Import Fs FsInv FsAlloc FsFile FsWrite FsTrunc FsCache FsDir FsPath FsDemo.

Lemma wpf_Ok {A} (m : M fss A) (Q : A → fss → Prop) s a s' : wpf m Q s → m s = Ok a s' → Q a s'.
Proof. unfold wpf. intros H E. by rewrite E in H. Qed.

Lemma wpt_run {S A} (m : M S A) (Q : A → S → Prop) s a s' : wpt m Q s → m s = Ok a s' → Q a s'.
Proof. unfold wpt. intros H E. by rewrite E in H. Qed.

(** ** The operations of the file system

    The calls a system call may make, with what it must hold: a reference for
    [idup], [ilock] and [iput], the lock for the others. *)

Definition my_lock (s : fss) (ip : nat) (e : inode) : Prop :=
  icache s !! ip = Some e ∧ 0 < iref e ∧ valid e = true ∧ ilocked e = true.

Definition set_nlink (n : Z) (x : dinode) : dinode :=
  Dinode (type x) (major x) (minor x) n (size x) (addrs x).

Section Steps.

Context (dev_read : Z → option (nat → Z → M fss (Z * list Z))).
Context (dev_write : Z → option (nat → list Z → M fss Z)).

Inductive fs_step : fss → fss → Prop :=
| step_iget i k s s' : inode_no (sb s) i → iget ROOTDEV i s = Ok k s' → fs_step s s'
| step_idup ip i e k s s' : held s ip i e → idup ip s = Ok k s' → fs_step s s'
| step_ilock ip i e s s' : held s ip i e → ilocked e = false → ilock ip s = Ok tt s' → fs_step s s'
| step_iunlock ip e s s' : my_lock s ip e → iunlock ip s = Ok tt s' → fs_step s s'
| step_iput ip i e s s' : held s ip i e → ilocked e = false → iput ip s = Ok tt s' → fs_step s s'
| step_ialloc ty k s s' : is_short ty → ty ≠ 0 → ialloc ROOTDEV ty s = Ok k s' → fs_step s s'
| step_readi ip e off n r s s' : my_lock s ip e → type (di e) ≠ T_DEV → is_uint off → is_uint n →
    readi dev_read ip off n s = Ok r s' → fs_step s s'
| step_writei ip e off src r s s' : my_lock s ip e → type (di e) ≠ T_DEV → is_uint off → Forall is_byte src →
    Z.of_nat (length src) < 2 ^ 32 → writei dev_write ip src off s = Ok r s' → fs_step s s'
| step_nlink ip e n s s' : my_lock s ip e → is_short n →
    (iset ip (λ i, set_di (set_nlink n (di i)) i) ;; iupdate ip) s = Ok tt s' → fs_step s s'.

Definition fs_ok (ds : Z) (s : fss) : Prop := ∃ V, inv none none ds s V.

Lemma lock_cached ds s V ip e : inv none none ds s V → my_lock s ip e → cached s V ip (inum e) e.
Proof.
  intros Hv (He & Hr & Hva & Hlk).
  destruct (cv_entry _ _ _ _ (inv_cache _ _ _ _ _ Hv) ip e He Hr) as (_ & _ & Hval).
  destruct (Hval Hva) as [Hdi Ht]; [by intros []|]. split; try done. by rewrite <- Hdi.
Qed.

Lemma ilock_returns ds s V ip i e s' :
  inv none none ds s V → held s ip i e → ilocked e = false → ilock ip s = Ok tt s' → fs_ok ds s'.
Proof.
  intros Hv Hh Hlk E. destruct (decide (type (V i) = 0)) as [H0|H0].
  - exfalso. destruct (held_no _ _ _ _ _ _ _ _ Hv Hh) as [Hi _]. destruct Hh as [He Hin Hr].
    pose proof (inv_synced _ _ _ _ _ Hv i Hi ltac:(by intros [])) as Hdi.
    destruct (cv_entry _ _ _ _ (inv_cache _ _ _ _ _ Hv) ip e He Hr) as (_ & _ & Hval).
    assert (Hva : valid e = false).
    { destruct (valid e) eqn:Eva; [|done]. destruct (Hval eq_refl) as [Ed Ht]; [by intros []|].
      rewrite Ed, Hin in Ht. done. }
    unfold ilock in E. rewrite (bind_step _ _ _ _ _ (iget_at_eq _ _ _ He)) in E.
    rewrite (bool_decide_eq_false_2 (iref e < 1)) in E by lia.
    unfold acquire_inode in E. apply bind_Ok in E as (? & s1 & E1 & E).
    rewrite (bind_step _ _ _ _ _ (iget_at_eq _ _ _ He)), Hlk, (iset_eq _ _ _ _ He) in E1. injection E1 as <- <-.
    assert (He1 : icache (set_icache (<[ip := set_locked true e]> (icache s)) s) !! ip = Some (set_locked true e)).
    { apply list_lookup_insert_eq. by eapply lookup_lt_Some. }
    rewrite (bind_step _ _ _ _ _ (iget_at_eq _ _ _ He1)) in E. cbn [valid set_locked inum] in E. rewrite Hva, Hin in E.
    unfold disk_inode in Hdi. unfold mbind, M_bind, get, bread, gets in E. cbn [blk sb set_icache] in E.
    rewrite Hdi, (iset_eq _ _ _ _ He1), (bool_decide_eq_true_2 _ H0) in E. done.
  - destruct (ilock_spec none none ds s V ip i e Hv ltac:(by intros []) Hh Hlk H0) as (E' & Hv' & _).
    rewrite E' in E. injection E as <-. by exists V.
Qed.

Lemma writei_returns ds s V ip e off src r s' :
  inv none none ds s V → my_lock s ip e → type (di e) ≠ T_DEV → is_uint off → Forall is_byte src →
  Z.of_nat (length src) < 2 ^ 32 → writei dev_write ip src off s = Ok r s' → fs_ok ds s'.
Proof.
  intros Hv Hml Ht Hoff Hsrc Hlen E. pose proof (lock_cached _ _ _ _ _ Hv Hml) as Hc.
  rewrite (ca_di _ _ _ _ _ Hc) in Ht. unfold is_uint in Hoff.
  destruct (decide (size (V (inum e)) < off ∨ u32 (off + Z.of_nat (length src)) < off ∨ MAXFILE * BSZ < off + Z.of_nat (length src))) as [Hbad|Hgood].
  - rewrite (writei_error _ _ dev_write _ _ _ _ _ Hc Ht Hbad) in E. injection E as _ <-. by exists V.
  - assert (size (V (inum e)) >= off ∧ off + Z.of_nat (length src) ≤ MAXFILE * BSZ) as [? ?] by lia.
    eapply wpf_Ok in E; [|eapply (writei_spec none none ds ip (inum e) dev_write e s V); try done; [by intros []|lia]].
    destruct E as [_ [V' Hup]]. exists V'. apply Hup.
Qed.

Lemma nlink_returns ds s V ip e n s' :
  inv none none ds s V → my_lock s ip e → is_short n →
  (iset ip (λ i, set_di (set_nlink n (di i)) i) ;; iupdate ip) s = Ok tt s' → fs_ok ds s'.
Proof.
  intros Hv Hml Hn E. pose proof (lock_cached _ _ _ _ _ Hv Hml) as Hc. set (i := inum e) in *.
  pose proof (cached_no _ _ _ _ _ _ _ _ Hv Hc) as Hi.
  rewrite (bind_step _ _ _ _ _ (iset_eq _ _ _ _ (ca_entry _ _ _ _ _ Hc))) in E. rewrite (ca_di _ _ _ _ _ Hc) in E.
  assert (Hok : dinode_ok (blk s) (set_nlink n (V i))).
  { destruct (dv_ok _ _ _ _ _ (inv_disk _ _ _ _ _ Hv) i Hi) as [[] Hs Hh Hf]. by split. }
  destruct (set_meta (or_dirty i none) none ds s V ip i e (set_nlink n (V i))) as [Hv1 Hc1];
    [eapply inv_D; [exact Hv|by right]|by left|done|done|done|apply Hc|].
  eapply wpt_run in E; [|by eapply (iupdate_spec none none ds)]. destruct E as (Hv2 & _). by eexists.
Qed.

(** Every operation keeps the file system consistent. *)
Lemma fs_step_ok ds s s' : fs_step s s' → fs_ok ds s → fs_ok ds s'.
Proof.
  intros Hstep [V Hv]. destruct Hstep as [i k s s' Hi E|ip i e k s s' Hh E|ip i e s s' Hh Hlk E|ip e s s' Hml E|
    ip i e s s' Hh Hlk E|ty k s s' Hty H0 E|ip e off n r s s' Hml Ht Ho Hn E|ip e off src r s s' Hml Ht Ho Hs Hlen E|ip e n s s' Hml Hn E].
  - eapply wpf_Ok in E; [|by eapply iget_spec]. exists V. apply E.
  - eapply wpt_run in E; [|by eapply idup_spec]. exists V. apply E.
  - by eapply ilock_returns.
  - pose proof (lock_cached _ _ _ _ _ Hv Hml) as Hc. destruct Hml as (_ & _ & _ & Hlk).
    destruct (iunlock_spec none none ds s V ip _ e Hv Hc Hlk) as (E' & Hv' & _).
    rewrite E' in E. injection E as <-. by exists V.
  - eapply wpt_run in E; [|eapply iput_spec; [exact Hv|by intros []|exact Hh|exact Hlk]].
    destruct E as (V' & e' & Hv' & _). by exists V'.
  - eapply wpf_Ok in E; [|by eapply ialloc_spec]. destruct E as (i & e & _ & _ & Hv' & _). by eexists.
  - pose proof (lock_cached _ _ _ _ _ Hv Hml) as Hc. rewrite (ca_di _ _ _ _ _ Hc) in Ht.
    exists V. enough (s' = s) as -> by done.
    destruct (decide (size (V (inum e)) < off ∨ u32 (off + n) < off)) as [Hbad|Hgood].
    + rewrite (readi_error _ _ _ _ _ Hc dev_read off n Ht Hbad) in E. by injection E as _ <-.
    + assert (off + n < 2 ^ 32).
      { unfold is_uint, u32 in *. destruct (decide (off + n < 2 ^ 32)); [done|].
        rewrite <- (Z.mod_unique (off + n) (2 ^ 32) 1 (off + n - 2 ^ 32)) in Hgood by lia. lia. }
      rewrite (readi_spec _ _ _ _ _ _ _ _ Hv Hc dev_read off n) in E by (done || lia). by injection E as _ <-.
  - by eapply writei_returns.
  - by eapply nlink_returns.
Qed.

(** C3: in every state the operations reach from a consistent file system, a
    data block is marked in use exactly when one inode has it, at one place: no
    block is lost and none belongs to two files.  The blocks of the file
    system's own structures stay marked. *)
Theorem fs_blocks_owned_once ds s0 s :
  fs_ok ds s0 → rtc fs_step s0 s →
  (∀ b, 0 ≤ b < ds → used (sb s) (blk s) b) ∧
  ∀ b, ds ≤ b < sb_size (sb s) →
    used (sb s) (blk s) b ↔
    exists! p : Z * nat, inode_no (sb s) p.1 ∧ ptr (blk s) (disk_inode (sb s) (blk s) p.1) p.2 = b.
Proof.
  intros H0 Hsteps.
  destruct (rtc_invariant _ (fs_ok ds) _ _ (λ a b, fs_step_ok ds a b) Hsteps H0) as [V Hv].
  pose proof (inv_disk _ _ _ _ _ Hv) as Hd. split; [apply Hd|]. intros b Hb.
  assert (Edi : ∀ i, inode_no (sb s) i → disk_inode (sb s) (blk s) i = V i) by (intros; apply Hv; [done|by intros []]).
  pose proof (lay_size _ _ (dv_layout _ _ _ _ _ Hd)).
  rewrite (dv_used _ _ _ _ _ Hd b Hb). split.
  - intros [[]|(i & k & Hi & E)]. exists (i, k). cbn [fst snd]. split; [by rewrite Edi|]. intros [j l] [Hj El].
    cbn [fst snd] in *. rewrite Edi in El by done.
    destruct (dv_inj _ _ _ _ _ Hd i j k l Hi Hj) as [-> ->]; [lia|congruence|done].
  - intros ([i k] & [Hi E] & _). cbn [fst snd] in *. right. exists i, k. by rewrite <- Edi.
Qed.

End Steps.

(** ** Files *)

Section Files.

Context (dev_read : Z → option (nat → Z → M fss (Z * list Z))).
Context (dev_write : Z → option (nat → list Z → M fss Z)).
Context (ds : Z) (s : fss) (V : Z → dinode) (ip : nat) (i : Z) (e : inode).

(** C7: [writei] refines overwriting a list of bytes: within the limits it
    returns the number of bytes, the contents of the file are the old ones with
    [src] in place from [off] on, the other files are unchanged and the file
    system stays consistent; the only other outcome is a panic on a full disk. *)
Theorem writei_overwrites off src :
  inv none none ds s V → cached s V ip i e → type (V i) ≠ T_DEV → Forall is_byte src →
  0 ≤ off ≤ size (V i) → off + Z.of_nat (length src) ≤ MAXFILE * BSZ →
  wpf (writei dev_write ip src off) (λ r s', r = Z.of_nat (length src) ∧ ∃ V', inv none none ds s' V' ∧
    file_of (blk s') (V' i) =
      set_data (splice (Z.to_nat off) src (contents (blk s) (V i))) (file_of (blk s) (V i)) ∧
    ∀ j, inode_no (sb s) j → j ≠ i → file_of (blk s') (V' j) = file_of (blk s) (V j)) s.
Proof.
  intros Hv Hc Ht Hs Hoff Hmax. eapply wpf_mono; [eapply writei_spec; try done; by intros []|].
  intros r s' [-> [V' Hup]]. split; [done|]. exists V'. split_and!; [apply Hup|apply Hup|].
  intros j Hj Hne. by destruct (up_others _ _ _ _ _ _ _ _ _ _ _ Hup j Hj Hne).
Qed.

Lemma splice_slice off (src l : list Z) : (off ≤ length l)%nat → take (length src) (drop off (splice off src l)) = src.
Proof.
  intros Hl. unfold splice. rewrite drop_app_length' by (rewrite length_take; lia). by rewrite take_app_length.
Qed.

(** [readi] of what [writei] wrote returns it, also across block boundaries,
    through the indirect block and past the old end of the file. *)
Theorem write_read_roundtrip off src :
  inv none none ds s V → cached s V ip i e → type (V i) ≠ T_DEV → Forall is_byte src →
  0 ≤ off ≤ size (V i) → off + Z.of_nat (length src) ≤ MAXFILE * BSZ →
  wpf (writei dev_write ip src off ;; readi dev_read ip off (Z.of_nat (length src)))
    (λ r _, r = (Z.of_nat (length src), src)) s.
Proof.
  intros Hv Hc Ht Hs Hoff Hmax. pose proof (cached_no _ _ _ _ _ _ _ _ Hv Hc) as Hi.
  apply wpf_bind. eapply wpf_mono; [eapply writei_spec; try done; by intros []|].
  intros r s' [_ [V' [Hv' Hc' Eic Esb Hf Ho]]]. cbn beta.
  assert (Hcon : contents (blk s') (V' i) = splice (Z.to_nat off) src (contents (blk s) (V i))) by (by injection Hf).
  assert (Htt : type (V' i) = type (V i)) by (by injection Hf).
  assert (Hsz : size (V' i) = Z.max (size (V i)) (off + Z.of_nat (length src))).
  { destruct (fits_size _ (dok_fits _ _ (dv_ok _ _ _ _ _ (inv_disk _ _ _ _ _ Hv) i Hi))) as [H0 _].
    destruct (fits_size _ (dok_fits _ _ (dv_ok _ _ _ _ _ (inv_disk _ _ _ _ _ Hv') i ltac:(by rewrite Esb)))) as [H1 _].
    apply (f_equal length) in Hcon. unfold splice in Hcon.
    rewrite !length_app, length_take, length_drop, !contents_length in Hcon. lia. }
  eapply wpf_eq.
  - apply (readi_spec _ _ _ _ _ _ _ _ Hv' Hc' dev_read off (Z.of_nat (length src))); rewrite ?Htt;
      unfold is_uint, MAXFILE, BSZ in *; (done || lia).
  - rewrite Hcon, Nat2Z.id, splice_slice by (rewrite contents_length; lia). done.
Qed.

(** Dropping the last reference to a file without links frees its inode and
    exactly its blocks, those of the indirect block included; the other files
    are unchanged. *)
Theorem iput_frees_file :
  inv none none ds s V → held s ip i e → ilocked e = false → valid e = true → nlink (V i) = 0 → iref e = 1 →
  wpt (iput ip) (λ _ s', fs_ok ds s' ∧ type (disk_inode (sb s) (blk s') i) = 0 ∧
    (∀ b, ds ≤ b < sb_size (sb s) →
      used (sb s) (blk s') b ↔ used (sb s) (blk s) b ∧ ∀ k, ptr (blk s) (V i) k ≠ b) ∧
    ∀ j, inode_no (sb s) j → j ≠ i → file_of (blk s') (disk_inode (sb s) (blk s') j) = file_of (blk s) (V j)) s.
Proof.
  intros Hv Hh Hlk Hva Hnl Hr. destruct (held_no _ _ _ _ _ _ _ _ Hv Hh) as [Hi _].
  eapply wpt_mono; [by eapply iput_last; [exact Hv|intros []|exact Hh|exact Hlk|]|].
  intros ? s' (Hv' & Esb & _ & Hsd). cbn beta.
  pose proof (inv_disk _ _ _ _ _ Hv) as Hd. pose proof (inv_disk _ _ _ _ _ Hv') as Hd'. rewrite Esb in Hd'.
  pose proof (lay_size _ _ (dv_layout _ _ _ _ _ Hd)).
  assert (Hdisk : ∀ j, inode_no (sb s) j → disk_inode (sb s) (blk s') j = <[i := freed (V i)]> V j).
  { intros j Hj. rewrite <- Esb in Hj |- *. apply Hv'; [done|by intros []]. }
  split_and!; [by eexists|by rewrite Hdisk, fn_lookup_insert| |].
  - intros b Hb. rewrite (dv_used _ _ _ _ _ Hd' b Hb), (dv_used _ _ _ _ _ Hd b Hb).
    assert (Hptr : ∀ j k, inode_no (sb s) j → j ≠ i → ptr (blk s') (V j) k = ptr (blk s) (V j) k).
    { intros j k Hj _. by eapply same_data_ptr. }
    split.
    + intros [[]|(j & k & Hj & E)]. destruct (decide (j = i)) as [->|Hne].
      * rewrite fn_lookup_insert in E. rewrite (ptr_addrs _ _ (emptied (V i))) in E by done. rewrite ptr_emptied in E. lia.
      * rewrite fn_insert_other in E by done. rewrite Hptr in E by done. split; [right; by exists j, k|].
        intros l El. destruct (dv_inj _ _ _ _ _ Hd j i k l Hj Hi) as [? _]; [lia|congruence|done].
    + intros [[[]|(j & k & Hj & E)] Hno]. right. exists j, k. split; [done|].
      destruct (decide (j = i)) as [->|Hne]; [by destruct (Hno k)|]. rewrite fn_insert_other, Hptr by done. done.
  - intros j Hj Hne. rewrite Hdisk, fn_insert_other by done. by eapply same_data_file.
Qed.

(** ** Directories and paths *)

(** [dirlookup] of a name after [dirlink] of it returns a reference to its
    inode, and the other names of the directory stand for the same inodes as
    before. *)
Theorem dirlink_dirlookup name n :
  inv none none ds s V → cached s V ip i e → type (V i) = T_DIR → size (V i) mod DIRENT = 0 →
  (free_slot (dents (contents (blk s) (V i))) 0 < 4480)%nat →
  Forall is_byte name → Forall (λ c, c ≠ 0) name → inode_no (sb s) n → n < 2 ^ 16 →
  dir_lookup (contents (blk s) (V i)) name = None →
  wpf (dirlink dev_read dev_write ip name n) (λ r s', r = 0 ∧
    wpf (dirlookup dev_read ip name) (λ r' s2, ∃ k off e', r' = Some (k, off) ∧ held s2 k n e') s' ∧
    ∃ V', inv none none ds s' V' ∧ ∀ name', dname name' ≠ dname name →
      dir_lookup (contents (blk s') (V' i)) name' = dir_lookup (contents (blk s) (V i)) name') s.
Proof.
  intros Hv Hc Hd Hm Hroom Hb Hnz Hn Hn16 Hno.
  destruct (held_no _ _ _ _ _ _ _ _ Hv (cached_held _ _ _ _ _ Hc)) as [Hi Hdev].
  destruct (dir_size none none ds s V ip i e Hv Hc Hm) as (m & Em & El & _).
  assert (Hlen : length (contents (blk s) (V i)) = (16 * m)%nat) by (rewrite contents_length, Em; unfold DIRENT; lia).
  assert (Hn1 : 0 < n < 2 ^ 16) by (unfold inode_no in Hn; lia).
  eapply wpf_mono; [eapply (dirlink_new dev_read dev_write none none ds s V ip i e); try done; by intros []|].
  intros r s' [-> [V' [Hv' Hc' Eic Esb Hf Ho]]]. split; [done|].
  assert (Hcon : contents (blk s') (V' i) = dir_add (contents (blk s) (V i)) n name) by (by injection Hf).
  assert (Htt : type (V' i) = T_DIR) by (injection Hf; intros; congruence).
  assert (Hfind : dir_lookup (contents (blk s') (V' i)) name = Some n) by (rewrite Hcon; by eapply dir_lookup_add).
  split.
  - assert (Hm' : size (V' i) mod DIRENT = 0).
    { destruct (fits_size _ (dok_fits _ _ (dv_ok _ _ _ _ _ (inv_disk _ _ _ _ _ Hv') i ltac:(by rewrite Esb)))) as [H1 _].
      destruct (dents_add (contents (blk s) (V i)) n name m Hlen) as (Hj & _).
      apply (f_equal length) in Hcon. unfold dir_add, splice in Hcon.
      rewrite !length_app, length_take, length_drop, length_dirent_bytes, Hlen, contents_length in Hcon.
      set (j := free_slot _ 0) in *.
      assert (size (V' i) = Z.of_nat (m `max` (j + 1)) * DIRENT) as -> by (unfold DIRENT; lia). by apply Z.mod_mul. }
    destruct (dirlookup_some dev_read dev_write none none ds s' V' ip i _ Hv' Hc' Hdev Htt Hm' name n Hfind) as [off Hl].
    unfold wpf. rewrite Hl. fold (wpf (k ← iget ROOTDEV n; mret (Some (k, DIRENT * Z.of_nat off)))
      (λ r' s2, ∃ k off e', r' = Some (k, off) ∧ held s2 k n e') s').
    apply wpf_bind. eapply wpf_mono; [by eapply iget_spec; [|rewrite Esb]|].
    intros k s2 [_ [_ _ (a & a' & _ & _ & Hh & _)]]. apply wpf_ret. eauto.
  - exists V'. split; [done|]. intros name' Hne. rewrite Hcon. by eapply dir_lookup_add_ne.
Qed.

(** C27: [namei] returns the inode the path stands for, following the entries of
    the directories from the root or from the current directory, and no inode
    when a name is missing or is not in a directory; the only reference it keeps
    is the one it returns, it keeps no lock, and it does not change the disk. *)
Theorem namei_walks cwd c ec path :
  inv none none ds s V → tree_ok (sb s) (files s V) → unlocked_but None s →
  type (V ROOTINO) ≠ 0 → nlink (V ROOTINO) ≠ 0 → held s cwd c ec → type (V c) ≠ 0 →
  wpf (namei dev_read cwd path) (λ r s', same_disk s s' ∧ unlocked_but None s' ∧
    match walk (files s V) (if bool_decide (hd 0 path = SLASH) then ROOTINO else c) (names path) with
    | None => r = None ∧ ∀ m, refs (icache s') m = refs (icache s) m
    | Some j => ∃ k e', r = Some k ∧ held s' k j e' ∧ ∀ m, refs (icache s') m = refs (icache s) m + one j m
    end) s.
Proof.
  intros Hv Ht Hun Htr Hnr Hc Htc. unfold namei. apply wpf_bind.
  eapply wpf_mono; [by eapply (namex_spec dev_read none ds V false)|].
  intros r s' (_ & Hsd & Hun' & Hw). apply wpf_ret. split_and!; [done|done|]. unfold target in Hw.
  destruct (walk _ _ _) as [j|]; simpl in Hw.
  - destruct Hw as (k & e' & -> & ? & ?). by exists k, e'.
  - destruct Hw as [-> ?]. done.
Qed.

(** [dirlink] in a locked directory of a name that stands for the directory
    itself never returns: the [iput] of the entry it found waits for the lock the
    caller holds. *)
Theorem dirlink_self_deadlock name n :
  inv none none ds s V → cached s V ip i e → ilocked e = true →
  type (V i) = T_DIR → size (V i) mod DIRENT = 0 →
  dir_lookup (contents (blk s) (V i)) name = Some i →
  ∃ s', dirlink dev_read dev_write ip name n s = Spin s'.
Proof.
  intros Hv Hc Hlk Hd Hm Hf. destruct (held_no _ _ _ _ _ _ _ _ Hv (cached_held _ _ _ _ _ Hc)) as [Hi Hdev].
  by eapply dirlink_self.
Qed.

End Files.

(** ** The theorems on the small file system *)

Definition no_read : Z → option (nat → Z → M fss (Z * list Z)) := λ _, None.
Definition no_write : Z → option (nat → list Z → M fss Z) := λ _, None.

Lemma demo_V_root : demo_V 1 = root.
Proof. vm_compute. reflexivity. Qed.

Lemma demo_V_file : demo_V 2 = file.
Proof. vm_compute. reflexivity. Qed.

Lemma demo_V_orphan : demo_V 3 = orphan.
Proof. vm_compute. reflexivity. Qed.

Lemma demo_root_cached lk : cached (demo lk) demo_V 0 1 (Inode ROOTDEV 1 1 lk true root).
Proof. split; rewrite ?demo_V_root; done. Qed.

Lemma demo_file_cached lk : cached (demo lk) demo_V 1 2 (Inode ROOTDEV 2 1 lk true file).
Proof. split; rewrite ?demo_V_file; done. Qed.

Lemma demo_orphan_held lk : held (demo lk) 2 3 (Inode ROOTDEV 3 1 false true orphan).
Proof. by split. Qed.

Lemma demo_iput_returns : ∃ s', iput 2 (demo true) = Ok tt s'.
Proof.
  assert (Hw : wpt (iput 2) (λ _ _, True) (demo true)).
  { eapply wpt_mono; [|done]. eapply iput_spec; [apply demo_inv|intros []|apply demo_orphan_held|done]. }
  destruct (proj1 (wpt_Ok _ _ _) Hw) as (u & s' & E & _). exists s'. rewrite E. by destruct u.
Qed.

Lemma fs_blocks_owned_once_witness :
  ∃ s, iput 2 (demo true) = Ok tt s ∧ (∀ b, 0 ≤ b < 5 → used (sb s) (blk s) b).
Proof.
  destruct demo_iput_returns as [s E]. exists s. split; [exact E|].
  refine (proj1 (fs_blocks_owned_once no_read no_write 5 (demo true) s _ _)).
  - exists demo_V. apply demo_inv.
  - apply rtc_once. eapply step_iput; [apply (demo_orphan_held true)|reflexivity|exact E].
Defined.

Lemma bytes_ok_dec (l : list Z) : bool_decide (Forall (λ b, 0 ≤ b < 256) l) = true → Forall is_byte l.
Proof. intros H%bool_decide_eq_true_1. exact H. Qed.

(** Three bytes are written over the end of the file. *)
Lemma writei_overwrites_witness :
  wpf (writei no_write 1 [1; 2; 3] 2) (λ r s', r = 3 ∧ ∃ V', inv none none 5 s' V' ∧
    file_of (blk s') (V' 2) = set_data [104; 105; 1; 2; 3] (file_of demo_blk (demo_V 2)) ∧
    ∀ j, inode_no demo_sb j → j ≠ 2 → file_of (blk s') (V' j) = file_of demo_blk (demo_V j)) (demo true).
Proof.
  refine (writei_overwrites no_write 5 (demo true) demo_V 1 2 _ 2 [1; 2; 3] (demo_inv true) (demo_file_cached true) _ _ _ _).
  - rewrite demo_V_file. done.
  - by apply bytes_ok_dec.
  - rewrite demo_V_file. vm_compute. done.
  - vm_compute. done.
Defined.

(** A thousand bytes, which cross a block boundary. *)
Lemma write_read_roundtrip_witness :
  wpf (writei no_write 1 (replicate 1000 7) 3 ;; readi no_read 1 3 1000) (λ r _, r = (1000, replicate 1000 7)) (demo true).
Proof.
  refine (write_read_roundtrip no_read no_write 5 (demo true) demo_V 1 2 _ 3 (replicate 1000 7) (demo_inv true) (demo_file_cached true) _ _ _ _).
  - rewrite demo_V_file. done.
  - by apply bytes_ok_dec.
  - rewrite demo_V_file. vm_compute. done.
  - vm_compute. done.
Defined.

Lemma iput_frees_file_witness :
  wpt (iput 2) (λ _ s', used demo_sb (blk s') 8 ↔ used demo_sb demo_blk 8 ∧ ∀ k, ptr demo_blk (demo_V 3) k ≠ 8) (demo true).
Proof.
  eapply wpt_mono.
  - refine (iput_frees_file 5 (demo true) demo_V 2 3 _ (demo_inv true) (demo_orphan_held true) eq_refl eq_refl _ eq_refl).
    rewrite demo_V_orphan. reflexivity.
  - intros ? s' (_ & _ & Hu & _). apply Hu. vm_compute. done.
Defined.

Lemma demo_root_dir : type (demo_V 1) = T_DIR ∧ size (demo_V 1) mod DIRENT = 0.
Proof. rewrite demo_V_root. done. Qed.

(** The name "b" for the file that has none. *)
Lemma dirlink_dirlookup_witness :
  wpf (dirlink no_read no_write 0 [98] 3) (λ r s', r = 0 ∧
    wpf (dirlookup no_read 0 [98]) (λ r' s2, ∃ k off e', r' = Some (k, off) ∧ held s2 k 3 e') s') (demo true).
Proof.
  eapply wpf_mono.
  - refine (dirlink_dirlookup no_read no_write 5 (demo true) demo_V 0 1 _ [98] 3 (demo_inv true) (demo_root_cached true)
      (proj1 demo_root_dir) (proj2 demo_root_dir) _ _ _ _ _ _).
    + vm_compute. lia.
    + by apply bytes_ok_dec.
    + repeat constructor. lia.
    + vm_compute. done.
    + lia.
    + vm_compute. reflexivity.
  - intros r s' (H1 & H2 & _). split; [exact H1|exact H2].
Defined.

Lemma demo_unlocked : unlocked_but None (demo false).
Proof.
  intros ip e He _. assert (Hall : Forall (λ e, ilocked e = false) (demo_cache false)).
  { apply (bool_decide_eq_true_1 _). vm_compute. done. }
  by eapply Forall_lookup_1 in Hall.
Qed.

Lemma dir_find_in name l : ∀ k j n, dir_find name l k = Some (j, n) → n ∈ de_inum <$> l.
Proof.
  induction l as [|d l IH]; intros k j n; simpl; [done|]. case_bool_decide.
  - intros [= _ <-]. left.
  - intros Hf. right. by eapply IH.
Qed.

Lemma demo_root_live : inode_no demo_sb 1 ∧ type (demo_V 1) ≠ 0 ∧ nlink (demo_V 1) ≠ 0.
Proof. rewrite demo_V_root. done. Qed.

Lemma demo_file_live : inode_no demo_sb 2 ∧ type (demo_V 2) ≠ 0 ∧ nlink (demo_V 2) ≠ 0.
Proof. rewrite demo_V_file. done. Qed.

(** The only directory is the root, and its entries are the inodes 1 and 2. *)
Lemma demo_dirs : Forall (λ i, type (demo_V i) = T_DIR → i = 1) (seqZ 1 8).
Proof. apply (bool_decide_eq_true_1 _). vm_compute. reflexivity. Qed.

Lemma demo_dents : Forall (λ n, n = 1 ∨ n = 2) (de_inum <$> dents (contents demo_blk (demo_V 1))).
Proof. apply (bool_decide_eq_true_1 _). vm_compute. reflexivity. Qed.

Lemma tree_ok_intro x f V :
  (∀ i, inode_no x i → type (V i) = T_DIR → size (V i) mod DIRENT = 0 ∧ 0 ≤ size (V i) ∧
    Forall (λ n, inode_no x n ∧ type (V n) ≠ 0 ∧ nlink (V n) ≠ 0) (de_inum <$> dents (contents f (V i)))) →
  tree_ok x (λ i, file_of f (V i)).
Proof.
  intros H i Hi Ht. destruct (H i Hi Ht) as (Hm & H0 & Hall). rewrite Forall_forall in Hall. simpl. split.
  - rewrite contents_length, Z2Nat.id by done. done.
  - intros name j Hj. unfold dir_lookup in Hj. apply fmap_Some in Hj as ([m n] & Hf & ->).
    apply Hall. by eapply dir_find_in.
Qed.

Lemma demo_tree : tree_ok demo_sb (files (demo false) demo_V).
Proof.
  apply (tree_ok_intro demo_sb demo_blk demo_V). intros i Hi Ht.
  pose proof demo_dirs as Hone. rewrite Forall_forall in Hone.
  assert (i = 1) as -> by (apply Hone; [apply elem_of_seqZ; unfold inode_no in Hi; exact Hi|exact Ht]).
  split_and!; [rewrite demo_V_root; reflexivity|rewrite demo_V_root; discriminate|].
  eapply Forall_impl; [exact demo_dents|]. intros n [->| ->]; [exact demo_root_live|exact demo_file_live].
Qed.

(** "/./a" is the file. *)
Lemma namei_walks_witness :
  wpf (namei no_read 0 [47; 46; 47; 97]) (λ r s', ∃ k e, r = Some k ∧ held s' k 2 e) (demo false).
Proof.
  eapply wpf_mono.
  - refine (namei_walks no_read 5 (demo false) demo_V 0 1 _ [47; 46; 47; 97] (demo_inv false) demo_tree demo_unlocked _ _
      (cached_held _ _ _ _ _ (demo_root_cached false)) _); change ROOTINO with 1; rewrite demo_V_root; done.
  - intros r s' (_ & _ & Hw).
    assert (E : walk (files (demo false) demo_V) 1 (names [47; 46; 47; 97]) = Some 2) by (vm_compute; reflexivity).
    change (if bool_decide _ then ROOTINO else 1) with 1 in Hw. rewrite E in Hw.
    destruct Hw as (k & e & ? & ? & _). exists k, e. split; assumption.
Defined.

Lemma dirlink_self_deadlock_witness : ∃ s', dirlink no_read no_write 0 [46] 2 (demo true) = Spin s'.
Proof.
  refine (dirlink_self_deadlock no_read no_write 5 (demo true) demo_V 0 1 _ [46] 2 (demo_inv true) (demo_root_cached true) eq_refl
    (proj1 demo_root_dir) (proj2 demo_root_dir) _).
  vm_compute. reflexivity.
Defined.

End FsThm.
