(* ===== verification/Mkfs.v ===== *)
(** * Making a file system

    [src/mkfs.c]: the program that writes the image of the first file system, with
    the superblock, an empty log, the root directory and the files given to it.
    The image is a file of the host; [exit(1)] and a failed [assert] are
    [Panic]. *)

From S2P Require Import Prelude Log Fs.

Module Mkfs.

Abbreviation dinode := Fs.dinode.
Abbreviation BSZ := Fs.BSZ.
Abbreviation NDIRECT := Fs.NDIRECT.

Definition FSSIZE : Z := 1000.
Definition NINODES : Z := 200.
Definition nbitmap : Z := FSSIZE / (BSZ * 8) + 1.
Definition ninodeblocks : Z := NINODES / Fs.IPB + 1.
Definition nlog : Z := 30.
Definition nmeta : Z := 2 + nlog + ninodeblocks + nbitmap.
Definition nblocks : Z := FSSIZE - nmeta.

(** [xshort] and [xint] give the bytes of a number in the order of the disk, which
    is that of [Fs.put16] and [put32]. *)
Definition sb : Fs.superblock :=
  Fs.Superblock FSSIZE nblocks NINODES nlog 2 (2 + nlog) (2 + nlog + ninodeblocks).

Definition zeroes : block := replicate BSIZE 0.

(** The image with its number of sectors, [freeinode] and [freeblock]. *)
Record mst : Type := Mst {
  img : Z → block;
  nsect : Z;
  freeinode : Z;
  freeblock : Z;
}.

Definition set_img (f : Z → block) (n : Z) (m : mst) : mst := Mst f n (freeinode m) (freeblock m).
Definition set_freeinode (n : Z) (m : mst) : mst := Mst (img m) (nsect m) n (freeblock m).
Definition set_freeblock (n : Z) (m : mst) : mst := Mst (img m) (nsect m) (freeinode m) n.

(** Writing past the end makes the image longer; reading past it fails. *)
Definition wsect (sec : Z) (buf : block) : M mst unit :=
  modify (λ m, set_img (<[sec := buf]> (img m)) (Z.max (nsect m) (sec + 1)) m).

Definition rsect (sec : Z) : M mst block := λ m,
  if bool_decide (sec < nsect m) then Ok (img m sec) m else Panic "read" m.

Definition winode (inum : Z) (ip : dinode) : M mst unit :=
  let bn := Fs.IBLOCK inum sb in
  buf ← rsect bn;
  wsect bn (Fs.dinode_put (Fs.dislot inum) ip buf).

Definition rinode (inum : Z) : M mst dinode :=
  let bn := Fs.IBLOCK inum sb in
  buf ← rsect bn;
  mret (Fs.dinode_get buf (Fs.dislot inum)).

(** [freeinode++] and [freeblock++] *)
Definition next_inode : M mst Z :=
  n ← gets freeinode;
  modify (set_freeinode (n + 1)) ;;
  mret n.
Definition next_block : M mst Z :=
  n ← gets freeblock;
  modify (set_freeblock (n + 1)) ;;
  mret n.

Definition ialloc (type : Z) : M mst Z :=
  inum ← next_inode;
  winode inum (Fs.Dinode type 0 0 1 0 (replicate (NDIRECT + 1) 0)) ;;
  mret inum.

(** The first [used] bits. *)
Definition bitmap (used : Z) : block := foldl Fs.set_bit zeroes (seqZ 0 used).

Definition balloc (used : Z) : M mst unit :=
  if bool_decide (used < BSZ * 8) then wsect (Fs.sb_bmapstart sb) (bitmap used)
  else panic "assert".

(** In the loop of [iappend]: the block [x] of the file, and the inode. *)
Definition file_block (fbn : Z) (din : dinode) : M mst (Z * dinode) :=
  if bool_decide (fbn < Z.of_nat NDIRECT) then
    let k := Z.to_nat fbn in
    if bool_decide (Fs.addr_at din k = 0) then
      b ← next_block;
      mret (b, Fs.set_addr k b din)
    else mret (Fs.addr_at din k, din)
  else
    din ← (if bool_decide (Fs.addr_at din NDIRECT = 0) then
             b ← next_block; mret (Fs.set_addr NDIRECT b din)
           else mret din);
    let ind := Fs.addr_at din NDIRECT in
    indirect ← rsect ind;
    let o := (4 * Z.to_nat (fbn - Z.of_nat NDIRECT))%nat in
    if bool_decide (Fs.getu32 indirect o = 0) then
      b ← next_block;
      wsect ind (put32 o b indirect) ;;
      mret (b, din)
    else mret (Fs.getu32 indirect o, din).

(** The loop of [iappend]: the inode at its end. *)
Fixpoint iappend_loop (fuel : nat) (off : Z) (p : list Z) (din : dinode) : M mst dinode :=
  match fuel with
  | O => spin
  | S fuel =>
      if bool_decide (0 < length p)%nat then
        let fbn := off / BSZ in
        if bool_decide (Fs.MAXFILE ≤ fbn) then panic "assert" else
        '(x, din) ← file_block fbn din;
        let n1 := Z.min (Z.of_nat (length p)) ((fbn + 1) * BSZ - off) in
        buf ← rsect x;
        wsect x (Fs.splice (Z.to_nat (off - fbn * BSZ)) (take (Z.to_nat n1) p) buf) ;;
        iappend_loop fuel (off + n1) (drop (Z.to_nat n1) p) din
      else mret din
  end.

(** [iappend]; a turn of the loop ends a block or the data, so that [fuel] is
    enough. *)
Definition iappend (inum : Z) (p : list Z) : M mst unit :=
  din ← rinode inum;
  let off := Fs.size din in
  din ← iappend_loop (S (Z.to_nat (Z.of_nat (length p) / BSZ + 2))) off p din;
  winode inum (Fs.set_size (off + Z.of_nat (length p)) din).

(** The loop that reads a file of the host and appends it block by block. *)
Fixpoint copy_file (fuel : nat) (inum : Z) (data : list Z) : M mst unit :=
  match fuel with
  | O => spin
  | S fuel =>
      let buf := take BSIZE data in
      if bool_decide (0 < length buf)%nat then
        iappend inum buf ;; copy_file fuel inum (drop BSIZE data)
      else mret tt
  end.

(** The name in the file system: without a leading underscore. *)
Definition skip_underscore (name : list Z) : list Z :=
  match name with
  | c :: l => if bool_decide (c = 95) then l else name
  | [] => name
  end.

(** The loop over the arguments: their names, and their contents if they can be
    opened. *)
Fixpoint add_files (rootino : Z) (files : list (list Z * option (list Z))) : M mst unit :=
  match files with
  | [] => mret tt
  | (name, data) :: files =>
      if bool_decide (Fs.SLASH ∈ name) then panic "assert" else
      match data with
      | None => panic "open"
      | Some data =>
          inum ← ialloc Fs.T_FILE;
          iappend rootino (Fs.dirent_bytes inum (skip_underscore name)) ;;
          copy_file (S (length data)) inum data ;;
          add_files rootino files
      end
  end.

(** The superblock as it is on the disk. *)
Definition sb_block : block :=
  put32 0 FSSIZE (put32 4 nblocks (put32 8 NINODES (put32 12 nlog (put32 16 2
    (put32 20 (2 + nlog) (put32 24 (2 + nlog + ninodeblocks) zeroes)))))).

(** The size of the root directory becomes a multiple of the block size. *)
Definition fix_root (rootino : Z) : M mst unit :=
  din ← rinode rootino;
  winode rootino (Fs.set_size ((Fs.size din / BSZ + 1) * BSZ) din).

Definition mkfs (files : list (list Z * option (list Z))) : M mst unit :=
  modify (set_freeblock nmeta) ;;
  for_range 0 (Z.to_nat FSSIZE) (λ i, wsect (Z.of_nat i) zeroes) ;;
  wsect 1 sb_block ;;
  rootino ← ialloc Fs.T_DIR;
  if bool_decide (rootino ≠ Fs.ROOTINO) then panic "assert" else
  iappend rootino (Fs.dirent_bytes rootino [46]) ;;
  iappend rootino (Fs.dirent_bytes rootino [46; 46]) ;;
  add_files rootino files ;;
  fix_root rootino ;;
  n ← gets freeblock;
  balloc n.

(** Before [main]: the image is empty; a part of it that is skipped reads as zeroes. *)
Definition start : mst := Mst (λ _, zeroes) 0 1 0.

End Mkfs.
