(* ===== verification/MkfsSim.v ===== *)
(** * mkfs and the kernel

    While [mkfs] runs, the bitmap on the image is still empty; with the bitmap of
    the first [freeblock] blocks in its place, the functions of mkfs do what those
    of the kernel do ([Fs]), and the lemmas about these carry over. *)

From Stdlib Require Import FunctionalExtensionality.
From S2P Require Import Prelude Log Fs FsInv FsAlloc FsFile FsWrite Mkfs.

Module MkfsSim.
Import Fs FsInv FsAlloc FsFile FsWrite.

Abbreviation msb := Mkfs.sb.
Abbreviation nmeta := Mkfs.nmeta.
Abbreviation FSSIZE := Mkfs.FSSIZE.
Abbreviation mst := Mkfs.mst.
Abbreviation img := Mkfs.img.
Abbreviation freeblock := Mkfs.freeblock.
Abbreviation zeroes := Mkfs.zeroes.

Lemma msb_layout : layout msb nmeta.
Proof. split; by vm_compute. Qed.

(** ** The bitmap *)

Lemma bitmap_succ n : 0 ≤ n → Mkfs.bitmap (n + 1) = set_bit (Mkfs.bitmap n) n.
Proof. intros Hn. unfold Mkfs.bitmap. rewrite seqZ_app by lia. by rewrite foldl_app, Z.add_0_l. Qed.

Lemma bitmap_ok n : 0 ≤ n ≤ BPB → block_ok (Mkfs.bitmap n) ∧ ∀ b, 0 ≤ b < BPB → bit_of (Mkfs.bitmap n) b = bool_decide (b < n).
Proof.
  intros Hn. rewrite <- (Z2Nat.id n) in * by lia. revert Hn. induction (Z.to_nat n) as [|k IH]; intros Hn.
  - split; [apply block_ok_zero|]. intros b Hb. rewrite bool_decide_eq_false_2 by lia.
    unfold bit_of. change (Mkfs.bitmap (Z.of_nat 0)) with (replicate BSIZE 0).
    rewrite byte_at_replicate, Z.land_0_l. done.
  - destruct IH as [Hok Hbit]; [lia|]. rewrite Nat2Z.inj_succ, <- Z.add_1_r, bitmap_succ by lia.
    split; [apply block_ok_set_bit; [done|lia]|]. intros b Hb.
    rewrite bit_of_set, Hbit by (apply Hok || lia). destruct (decide (Z.of_nat k = b)) as [<-|Hne].
    + rewrite (bool_decide_eq_true_2 (_ = _)), (bool_decide_eq_true_2 (Z.of_nat k < Z.of_nat k + 1)) by lia. done.
    + rewrite (bool_decide_eq_false_2 (Z.of_nat k = b)) by done. cbn [orb]. apply bool_decide_ext. lia.
Qed.

(** ** The image and the file system on it *)

(** The blocks with the bitmap that [mkfs] writes in the end. *)
Definition vblk (m : mst) : Z → block := <[sb_bmapstart msb := Mkfs.bitmap (freeblock m)]> (img m).

(** A file system of which inode [i], with the fields [din], is in use. *)
Definition entry (i : Z) (din : dinode) : inode := Inode ROOTDEV i 1 true true din.
Definition vst (m : mst) (i : Z) (din : dinode) (lg : list Z) : fss := Fss (vblk m) lg msb [entry i din].

(** The blocks from [freeblock] on have not been used. *)
Record mk_ok (m : mst) : Prop := MkOk {
  mk_nsect : Mkfs.nsect m = FSSIZE;
  mk_free : nmeta ≤ freeblock m ≤ FSSIZE;
  mk_zero : ∀ b, freeblock m ≤ b < FSSIZE → img m b = zeroes;
}.

(** The numbers of the layout. *)
Ltac layout_lia :=
  change nmeta with 59 in *; change FSSIZE with 1000 in *; change (sb_size msb) with 1000 in *;
  change (sb_bmapstart msb) with 58 in *; change BPB with 4096 in *; change (sb_inodestart msb) with 32 in *;
  change BSZ with 512 in *; change MAXFILE with 140 in *; lia.

Lemma vblk_other m b : b ≠ sb_bmapstart msb → vblk m b = img m b.
Proof. intros Hb. unfold vblk. by rewrite fn_lookup_insert_ne. Qed.

Lemma bitmap_place b : 0 ≤ b < FSSIZE → BBLOCK b msb = sb_bmapstart msb ∧ b mod BPB = b.
Proof.
  intros Hb. unfold BBLOCK. rewrite Z.div_small, Z.mod_small by layout_lia. done.
Qed.

Lemma vblk_used m b : mk_ok m → 0 ≤ b < FSSIZE → used msb (vblk m) b ↔ b < freeblock m.
Proof.
  intros [_ Hf _] Hb. destruct (bitmap_place b Hb) as [E1 E2]. unfold used. rewrite E1, E2.
  unfold vblk. rewrite fn_lookup_insert. rewrite (proj2 (bitmap_ok (freeblock m) ltac:(layout_lia))) by layout_lia.
  apply bool_decide_eq_true.
Qed.

(** A block is written. *)
Definition put_block (b : Z) (d : block) (m : mst) : mst := Mkfs.set_img (<[b := d]> (img m)) (Mkfs.nsect m) m.

Lemma wsect_eq b d m : mk_ok m → b < FSSIZE → Mkfs.wsect b d m = Ok tt (put_block b d m).
Proof.
  intros [Hn _ _] Hb. unfold Mkfs.wsect, modify, put_block. rewrite Z.max_l by layout_lia. done.
Qed.

Lemma rsect_eq b m : mk_ok m → b < FSSIZE → Mkfs.rsect b m = Ok (img m b) m.
Proof. intros [Hn _ _] Hb. unfold Mkfs.rsect. by rewrite Hn, bool_decide_eq_true_2. Qed.

Lemma put_block_ok b d m : mk_ok m → b < freeblock m → mk_ok (put_block b d m).
Proof.
  intros [Hn Hf Hz] Hb. split; [done|done|]. intros c Hc. cbn in Hc |- *. rewrite fn_lookup_insert_ne by lia. by apply Hz.
Qed.

Lemma vblk_put b d m : b ≠ sb_bmapstart msb → vblk (put_block b d m) = <[b := d]> (vblk m).
Proof.
  intros Hb. apply functional_extensionality. intros c. unfold vblk. cbn [put_block Mkfs.set_img img freeblock].
  destruct (decide (c = sb_bmapstart msb)) as [->|Hc].
  - rewrite fn_lookup_insert, fn_lookup_insert_ne, fn_lookup_insert by done. done.
  - rewrite fn_lookup_insert_ne by done. destruct (decide (c = b)) as [->|].
    + by rewrite !fn_lookup_insert.
    + by rewrite !fn_lookup_insert_ne.
Qed.

Lemma vst_put b d m i din lg : b ≠ sb_bmapstart msb →
  vst (put_block b d m) i din (lg ++ [b]) = log_blk b d (vst m i din lg).
Proof. intros Hb. unfold vst, log_blk. by rewrite vblk_put. Qed.

(** [freeblock++] *)
Definition take_block (m : mst) : mst := Mkfs.set_freeblock (freeblock m + 1) m.

Lemma next_block_eq m : Mkfs.next_block m = Ok (freeblock m) (take_block m).
Proof. done. Qed.

Lemma take_block_ok m : mk_ok m → freeblock m < FSSIZE → mk_ok (take_block m).
Proof. intros [Hn Hf Hz] Hlt. split; [done|cbn; layout_lia|]. intros b Hb. apply Hz. cbn in *. lia. Qed.

(** [freeblock++] is what [balloc] of the kernel does. *)
Lemma alloc_vblk m i din lg :
  mk_ok m → freeblock m < FSSIZE → blk (alloc_blk (freeblock m) (vst m i din lg)) = vblk (take_block m).
Proof.
  intros [Hn Hf Hz] Hlt. destruct (bitmap_place (freeblock m)) as [E1 E2]; [layout_lia|].
  unfold alloc_blk, mark_blk, log_blk, vst. cbn [blk sb]. rewrite E1, E2.
  apply functional_extensionality. intros b. unfold vblk. rewrite (fn_lookup_insert (img m)).
  destruct (decide (b = freeblock m)) as [->|Hb].
  - rewrite fn_lookup_insert, fn_lookup_insert_ne by layout_lia. cbn. by rewrite Hz by layout_lia.
  - rewrite fn_lookup_insert_ne by done. destruct (decide (b = sb_bmapstart msb)) as [->|Hb'].
    + rewrite !fn_lookup_insert. cbn [take_block Mkfs.set_freeblock freeblock]. by rewrite bitmap_succ by layout_lia.
    + by rewrite !fn_lookup_insert_ne.
Qed.

Lemma balloc_sim m i din lg :
  mk_ok m → freeblock m < FSSIZE →
  ∃ lg', balloc (vst m i din lg) = Ok (freeblock m) (vst (take_block m) i din lg').
Proof.
  intros Hm Hlt. pose proof Hm as [Hn Hf Hz]. pose proof (balloc_cases (vst m i din lg) ltac:(done)) as Hb.
  assert (Hnu : ¬ used msb (vblk m) (freeblock m)) by (rewrite vblk_used by (done || layout_lia); lia).
  destruct (balloc (vst m i din lg)) as [c s'|msg s'| |]; [| |done..]; cbn [balloc_outcome sb vst blk] in Hb.
  - destruct Hb as (Hc & Hcu & -> & Hlow). rewrite vblk_used in Hcu by done.
    assert (c = freeblock m) as ->.
    { destruct (decide (c = freeblock m)); [done|]. destruct Hnu. apply Hlow. layout_lia. }
    eexists. unfold vst at 2. rewrite <- (alloc_vblk m i din lg) by done. reflexivity.
  - destruct Hb as (_ & _ & Hall). destruct Hnu. apply Hall. layout_lia.
Qed.

(** ** Functions that may run out of blocks *)

(** [wpm m Q s]: [m] returns from [s] with [Q], or stops at a block past the end
    of the image because the blocks are used up. *)
Definition wpm {A} (m : M mst A) (Q : A → mst → Prop) (s : mst) : Prop :=
  match m s with
  | Ok a s' => Q a s'
  | Panic msg s' => msg = "read"%string ∧ FSSIZE < freeblock s'
  | _ => False
  end.

Lemma wpm_ret {A} (a : A) (Q : A → mst → Prop) s : Q a s → wpm (mret a) Q s.
Proof. done. Qed.

Lemma wpm_bind {A B} (m : M mst A) (g : A → M mst B) Q s :
  wpm m (λ a s', wpm (g a) Q s') s → wpm (m ≫= g) Q s.
Proof. unfold wpm, mbind, M_bind. by destruct (m s). Qed.

Lemma wpm_mono {A} (m : M mst A) (P Q : A → mst → Prop) s :
  wpm m P s → (∀ a s', P a s' → Q a s') → wpm m Q s.
Proof. unfold wpm. destruct (m s); auto. Qed.

Lemma wpm_eq {A} (m : M mst A) (Q : A → mst → Prop) s a s' : m s = Ok a s' → Q a s' → wpm m Q s.
Proof. intros E HQ. unfold wpm. by rewrite E. Qed.

Lemma wpm_step {A B} (m : M mst A) (g : A → M mst B) Q s a s' :
  m s = Ok a s' → wpm (g a) Q s' → wpm (m ≫= g) Q s.
Proof. intros E HQ. apply wpm_bind. by eapply wpm_eq. Qed.

(** The blocks are used up, and block [x] is past the end. *)
Definition past_end (x : Z) (m : mst) : Prop := Mkfs.nsect m = FSSIZE ∧ FSSIZE ≤ x ∧ FSSIZE < freeblock m.

Lemma wpm_past {B} x m (g : block → M mst B) Q : past_end x m → wpm (Mkfs.rsect x ≫= g) Q m.
Proof.
  intros (Hn & Hx & Hf). unfold wpm, mbind, M_bind, Mkfs.rsect. rewrite bool_decide_eq_false_2 by lia. done.
Qed.

(** The kernel's [m] does the same on the file system of the image. *)
Definition does {A} (m : M fss A) (i : Z) (din : dinode) (lg : list Z) (st : mst) (a : A) (din' : dinode) (st' : mst) : Prop :=
  mk_ok st' ∧ Mkfs.freeinode st' = Mkfs.freeinode st ∧ ∃ lg', m (vst st i din lg) = Ok a (vst st' i din' lg').

(** An entry of the indirect block. *)
Lemma entry_sim m i din lg ind j :
  mk_ok m → nmeta ≤ ind < freeblock m →
  wpm (indirect ← Mkfs.rsect ind;
       if bool_decide (getu32 indirect (4 * j) = 0) then
         b ← Mkfs.next_block; Mkfs.wsect ind (put32 (4 * j) b indirect) ;; mret (b, din)
       else mret (getu32 indirect (4 * j), din))
    (λ r m', past_end r.1 m' ∨
      does (d ← bread ind;
            let addr := getu32 d (4 * j) in
            if bool_decide (addr = 0) then a ← balloc; log_write ind (put32 (4 * j) a d) ;; mret a else mret addr)
        i din lg m r.1 r.2 m') m.
Proof.
  intros Hm Hind. pose proof Hm as [Hn Hf Hz]. assert (Hne : ind ≠ sb_bmapstart msb) by layout_lia.
  eapply wpm_step; [apply rsect_eq; [done|layout_lia]|]. unfold does. cbn zeta.
  assert (Eb : bread ind (vst m i din lg) = Ok (img m ind) (vst m i din lg)).
  { unfold bread, gets. cbn [vst blk]. by rewrite vblk_other. }
  rewrite (bind_step _ _ _ _ _ Eb). case_bool_decide as H0.
  - eapply wpm_step; [apply next_block_eq|]. destruct (decide (freeblock m < FSSIZE)) as [Hlt|Hge].
    + pose proof (take_block_ok m Hm Hlt) as Hm1.
      eapply wpm_step; [apply wsect_eq; [done|layout_lia]|]. apply wpm_ret. right. cbn [fst snd].
      destruct (balloc_sim m i din lg Hm Hlt) as [lg' E]. rewrite (bind_step _ _ _ _ _ E).
      split_and!; [apply put_block_ok; [done|cbn; lia]|done|]. eexists.
      rewrite vst_put by done. reflexivity.
    + eapply wpm_step; [reflexivity|]. apply wpm_ret. left. split_and!; cbn; layout_lia.
  - apply wpm_ret. right. cbn [fst snd]. split_and!; [done|done|]. by exists lg.
Qed.

(** A pointer of the inode. *)
Lemma addr_sim m i din lg k :
  mk_ok m → freeblock m < FSSIZE →
  does (a ← balloc; iset 0 (λ i, set_di (set_addr k a (di i)) i) ;; mret a)
    i din lg m (freeblock m) (set_addr k (freeblock m) din) (take_block m).
Proof.
  intros Hm Hlt. destruct (balloc_sim m i din lg Hm Hlt) as [lg' E].
  split_and!; [by apply take_block_ok|done|]. exists lg'. by rewrite (bind_step _ _ _ _ _ E).
Qed.

Lemma file_block_sim m i din lg bn :
  mk_ok m → 0 ≤ bn < MAXFILE → (addr_at din NDIRECT ≠ 0 → nmeta ≤ addr_at din NDIRECT < freeblock m) →
  length (addrs din) = (NDIRECT + 1)%nat →
  wpm (Mkfs.file_block bn din) (λ r m', past_end r.1 m' ∨ does (bmap 0 bn) i din lg m r.1 r.2 m') m.
Proof.
  intros Hm Hbn Hind Hlen. pose proof Hm as [Hn Hf Hz]. unfold Mkfs.file_block, bmap, does.
  rewrite (bind_step _ _ _ _ _ (iget_at_eq 0 (vst m i din lg) _ eq_refl)). cbn [entry di].
  assert (Hpast : FSSIZE ≤ freeblock m → past_end (freeblock m) (take_block m)) by (intros; split_and!; cbn; layout_lia).
  case_bool_decide as Hdir; cbn zeta.
  - case_bool_decide as H0.
    + eapply wpm_step; [apply next_block_eq|]. apply wpm_ret. cbn [fst snd].
      destruct (decide (freeblock m < FSSIZE)); [right; by apply addr_sim|left; apply Hpast; lia].
    + apply wpm_ret. right. split_and!; [done|done|]. by exists lg.
  - assert (Hj : bn - Z.of_nat NDIRECT < NINDIRECT) by (unfold NINDIRECT, NDIRECT, MAXFILE in *; lia).
    rewrite (bool_decide_eq_true_2 _ Hj). set (j := Z.to_nat _). apply wpm_bind. case_bool_decide as H0.
    + eapply wpm_step; [apply next_block_eq|]. apply wpm_ret.
      destruct (decide (freeblock m < FSSIZE)) as [Hlt|]; [|rewrite addr_at_set, decide_True by (done || rewrite Hlen; lia); apply wpm_past, Hpast; lia].
      destruct (addr_sim m i din lg NDIRECT Hm Hlt) as (Hm1 & Ef & lg1 & E).
      rewrite (bind_step _ _ _ _ _ E). rewrite addr_at_set, decide_True by (done || rewrite Hlen; lia).
      eapply wpm_mono; [apply (entry_sim (take_block m) i (set_addr NDIRECT (freeblock m) din) lg1 (freeblock m) j Hm1); cbn; layout_lia|].
      intros r m' [Hp|(? & ? & Hd)]; [by left|]. right. by split_and!.
    + apply wpm_ret. rewrite (bind_step (mret (addr_at din NDIRECT)) _ _ _ _ eq_refl). by apply entry_sim, Hind.
Qed.

End MkfsSim.
