(* ===== verification/MkfsImage.v ===== *)
(** * Files on the image

    [iappend], [ialloc], the copying of a file and the fix of the root directory
    of [Mkfs], on an image that is a file system with given files. *)

From S2P Require Import Prelude Log Fs FsInv FsAlloc FsFile FsWrite Mkfs MkfsSim.

Module MkfsImage.

Import Fs FsInv FsAlloc FsFile FsWrite MkfsSim.

(** ** [iappend] *)

(** The bytes of a file from [n] on are zeroes, as far as the file has blocks. *)
Definition tail0 (f : Z → block) (x : dinode) (n : nat) : Prop :=
  ∀ o, (n ≤ o)%nat → ptr f x (fidx (o / BSIZE)) = 0 ∨ fbyte f x o = 0.

Lemma tail0_bmapped D F ds ip i e bn s V a s1 V1 n :
  inode_no (sb s) i → bmapped D F ds ip i e (fidx bn) s V a s1 V1 → tail0 (blk s) (V i) n → tail0 (blk s1) (V1 i) n.
Proof.
  intros Hi [_ Hg _ _ Ea Ha Hfresh Hsame Honly] Ht o Ho.
  assert (Hold : ptr (blk s) (V i) (fidx (o / BSIZE)) ≠ 0 → fbyte (blk s1) (V1 i) o = 0).
  { intros H0. destruct (Ht o Ho) as [|Hz]; [done|]. rewrite <- Hz. unfold fbyte.
    rewrite (gr_ptrs _ _ _ _ _ Hg) by done. by rewrite (gr_data _ _ _ _ _ Hg) by (done || apply fidx_range). }
  destruct (decide (ptr (blk s) (V i) (fidx (o / BSIZE)) = 0)) as [H0|]; [|right; by apply Hold].
  destruct (decide (fidx (o / BSIZE) = fidx bn)) as [E|Hne].
  - right. rewrite E in H0. unfold fbyte. rewrite E, Ea, Hfresh by done. apply byte_at_replicate.
  - left. rewrite Honly by (done || apply fidx_range). done.
Qed.

Lemma tail0_block D F ds s V ip i e off src :
  inv D F ds s V → cached s V ip i e → Forall is_byte src → 0 ≤ off → Z.of_nat (length src) ≤ BSZ - off mod BSZ →
  let a := ptr (blk s) (V i) (fidx (Z.to_nat (off / BSZ))) in
  let s' := log_blk a (splice (Z.to_nat (off mod BSZ)) src (blk s a)) s in
  a ≠ 0 → tail0 (blk s) (V i) (Z.to_nat off) → tail0 (blk s') (V i) (Z.to_nat off + length src).
Proof.
  intros Hv Hc Hsrc Hoff Hlen a s' Ha Ht. pose proof (cached_no _ _ _ _ _ _ _ _ Hv Hc) as Hi.
  destruct (wrote_block D F ds s V ip i e off src Hv Hc Hsrc Hoff Hlen Ha) as (_ & _ & Hw). fold a s' in Hw.
  intros o Ho. destruct (decide (ptr (blk s) (V i) (fidx (o / BSIZE)) = 0)) as [H0|H0].
  - left. rewrite <- H0. apply ptr_ext. intros Hind. apply fn_lookup_insert_ne. intros E.
    rewrite <- (ptr_direct (blk s)) in E by lia.
    destruct (dv_inj _ _ _ _ _ (inv_disk _ _ _ _ _ Hv) i i _ _ Hi Hi Ha E) as [_ E']. by destruct (fidx_range _ E').
  - right. rewrite (wr_old _ _ _ _ _ _ _ Hw) by (done || lia). destruct (Ht o); [lia|done|done].
Qed.

Lemma vst_cached m i din lg V : V i = din → type din ≠ 0 → cached (vst m i din lg) V 0 i (entry i din).
Proof. intros E Ht. by split; rewrite ?E. Qed.

Abbreviation dirty i := (or_dirty i none).

(** The bytes [p] are appended to the blocks of inode [i], which is now [din']. *)
Record appended (i off : Z) (p : list Z) (m : mst) (din : dinode) (lg : list Z) (V : Z → dinode)
    (m' : mst) (din' : dinode) (lg' : list Z) (V' : Z → dinode) : Prop := Appended {
  ap_ok : mk_ok m';
  ap_ino : Mkfs.freeinode m' = Mkfs.freeinode m;
  ap_written : written (dirty i) none nmeta 0 i (entry i din) (Z.to_nat off) p (vst m i din lg) V (vst m' i din' lg') V';
  ap_inode : V' i = din';
  ap_tail : tail0 (vblk m') din' (Z.to_nat off + length p);
}.

(** The indirect block of the inode is one of the blocks in use. *)
Lemma vst_indirect D F m i din lg V :
  mk_ok m → inv D F nmeta (vst m i din lg) V → inode_no msb i → V i = din →
  addr_at din NDIRECT ≠ 0 → nmeta ≤ addr_at din NDIRECT < freeblock m.
Proof.
  intros Hm Hv Hi E H0. rewrite <- E in H0 |- *.
  destruct (indirect_range _ _ _ _ _ Hv i Hi H0) as [Hr Hu]. split; [apply Hr|].
  apply (vblk_used m); [done| |done]. change (sb (vst m i din lg)) with msb in Hr. layout_lia.
Qed.

Lemma appended_block i m din lg V off src a din1 m1 :
  inv (dirty i) none nmeta (vst m i din lg) V → V i = din → inode_no msb i → type din ≠ 0 →
  Forall is_byte src → 0 ≤ off → (0 < length src)%nat → Z.of_nat (length src) ≤ BSZ - off mod BSZ → off / BSZ < MAXFILE →
  tail0 (vblk m) din (Z.to_nat off) → does (bmap 0 (off / BSZ)) i din lg m a din1 m1 →
  Mkfs.rsect a m1 = Ok (img m1 a) m1 ∧
  let d := splice (Z.to_nat (off mod BSZ)) src (img m1 a) in
  Mkfs.wsect a d m1 = Ok tt (put_block a d m1) ∧
  ∃ lg' V', appended i off src m din lg V (put_block a d m1) din1 lg' V'.
Proof.
  intros Hv EV Hi Hty Hsrc Hoff Hpos Hlen Hmax Ht (Hm1 & Ef & lg1 & E).
  pose proof (vst_cached m i din lg V EV Hty) as Hc.
  assert (Hbn : 0 ≤ off / BSZ < MAXFILE) by (split; [apply Z.div_pos; unfold BSZ; lia|done]).
  pose proof (bmap_spec (dirty i) none nmeta 0 i ltac:(by left) _ _ V _ Hv Hc Hbn) as Hb.
  unfold wpf in Hb. rewrite E in Hb. destruct Hb as [V1 Hb].
  assert (EV1 : V1 i = din1) by (by pose proof (ca_entry _ _ _ _ _ (bm_cached _ _ _ _ _ _ _ _ _ _ _ _ Hb)) as [= ->]).
  pose proof (bm_inv _ _ _ _ _ _ _ _ _ _ _ _ Hb) as Hv1. pose proof (bm_cached _ _ _ _ _ _ _ _ _ _ _ _ Hb) as Hc1.
  assert (Ea : ptr (vblk m1) (V1 i) (fidx (Z.to_nat (off / BSZ))) = a) by apply Hb.
  assert (Ha0 : a ≠ 0) by apply Hb.
  pose proof (inv_disk _ _ _ _ _ Hv1) as Hd1. rewrite <- Ea in Ha0. pose proof (dv_range _ _ _ _ _ Hd1 i _ Hi Ha0) as Hr.
  pose proof (disk_used_owned _ _ _ _ _ Hd1 i _ Hi Ha0) as Hu. cbn [vst blk sb] in Hr, Hu. rewrite Ea in Ha0, Hr, Hu.
  apply vblk_used in Hu; [|done|layout_lia]. assert (Hne : a ≠ sb_bmapstart msb) by layout_lia.
  split; [apply rsect_eq; [done|layout_lia]|]. intros d. split; [apply wsect_eq; [done|layout_lia]|].
  pose proof (written_block (dirty i) none nmeta 0 i (entry i din) _ V off src a _ V1 Hoff Hsrc Hpos Hlen Hv Hc Hb) as Hw.
  cbn [vst blk] in Hw. rewrite vblk_other in Hw by done. fold d in Hw. rewrite <- vst_put in Hw by done.
  eexists _, V1. split; [by apply put_block_ok|done|exact Hw|done|].
  pose proof (tail0_block (dirty i) none nmeta _ V1 0 i _ off src Hv1 Hc1 Hsrc Hoff Hlen) as Htl.
  cbn zeta in Htl. cbn [vst blk log_blk] in Htl. rewrite Ea, vblk_other in Htl by done. fold d in Htl. rewrite EV1 in Htl.
  rewrite vblk_put by done. apply Htl; [done|]. rewrite <- EV1.
  eapply (tail0_bmapped _ _ _ _ i _ _ (vst m i din lg) V _ (vst m1 i din1 lg1) V1); [exact Hi|exact Hb|by rewrite EV].
Qed.

Lemma appended_nil i off m din lg V :
  mk_ok m → inv (dirty i) none nmeta (vst m i din lg) V → V i = din → type din ≠ 0 →
  tail0 (vblk m) din (Z.to_nat off) → appended i off [] m din lg V m din lg V.
Proof.
  intros Hm Hv EV Ht H0. split; [done|done| |done|by rewrite Nat.add_0_r].
  apply written_nil; [done|]. by apply vst_cached.
Qed.

Lemma appended_trans i off src1 src2 m din lg V m1 din1 lg1 V1 m2 din2 lg2 V2 :
  0 ≤ off → appended i off src1 m din lg V m1 din1 lg1 V1 →
  appended i (off + Z.of_nat (length src1)) src2 m1 din1 lg1 V1 m2 din2 lg2 V2 →
  appended i off (src1 ++ src2) m din lg V m2 din2 lg2 V2.
Proof.
  intros Hoff [Hm1 Ef1 Hw1 E1 Ht1] [Hm2 Ef2 Hw2 E2 Ht2]. split; [done|congruence| |done|].
  - eapply written_trans; [exact Hw1|]. rewrite E1.
    by replace (Z.to_nat off + length src1)%nat with (Z.to_nat (off + Z.of_nat (length src1))) by lia.
  - rewrite length_app. by replace (Z.to_nat off + _)%nat with (Z.to_nat (off + Z.of_nat (length src1)) + length src2)%nat by lia.
Qed.

(** The loop of [iappend]. *)
Lemma iappend_loop_spec i fuel : inode_no msb i → ∀ off p m din lg V,
  mk_ok m → inv (dirty i) none nmeta (vst m i din lg) V → V i = din → type din ≠ 0 →
  Forall is_byte p → 0 ≤ off → off + Z.of_nat (length p) ≤ MAXFILE * BSZ → (0 < fuel)%nat →
  (0 < Z.of_nat (length p) → off mod BSZ + Z.of_nat (length p) ≤ BSZ * (Z.of_nat fuel - 1)) →
  tail0 (vblk m) din (Z.to_nat off) →
  wpm (Mkfs.iappend_loop fuel off p din) (λ din' m', ∃ lg' V', appended i off p m din lg V m' din' lg' V') m.
Proof.
  intros Hi. induction fuel as [|fuel IH]; intros off p m din lg V Hm Hv EV Hty Hp Hoff Hmax Hpos Hfuel Ht; [lia|].
  cbn [Mkfs.iappend_loop]. case_bool_decide as Hlen.
  2: { apply wpm_ret. exists lg, V. destruct p; [by apply appended_nil|simpl in Hlen; lia]. }
  pose proof (Z.mod_pos_bound off BSZ eq_refl) as Hmod. specialize (Hfuel ltac:(lia)).
  pose proof (Z.div_mod off BSZ ltac:(done)) as Hdm.
  assert (Hbn : 0 ≤ off / BSZ < MAXFILE).
  { split; [apply Z.div_pos; unfold BSZ; lia|]. apply Z.div_lt_upper_bound; [done|]. unfold BSZ in *. lia. }
  rewrite bool_decide_eq_false_2 by lia. apply wpm_bind. eapply wpm_mono.
  { apply (file_block_sim m i din lg); [done|done| |].
    - by eapply vst_indirect.
    - rewrite <- EV. apply (dv_ok _ _ _ _ _ (inv_disk _ _ _ _ _ Hv) i Hi). }
  intros [a din1] m1 Hor. cbn [fst snd] in Hor. destruct Hor as [Hpast|Hdoes]; [by apply wpm_past|].
  replace ((off / BSZ + 1) * BSZ - off) with (BSZ - off mod BSZ) by lia.
  replace (off - off / BSZ * BSZ) with (off mod BSZ) by lia.
  set (n := Z.min _ _).
  assert (Hln : length (take (Z.to_nat n) p) = Z.to_nat n) by (rewrite length_take; unfold n; lia).
  assert (Hld : length (drop (Z.to_nat n) p) = (length p - Z.to_nat n)%nat) by apply length_drop.
  destruct (appended_block i m din lg V off (take (Z.to_nat n) p) a din1 m1 Hv EV Hi Hty) as (E1 & E2 & lg1 & V1 & Hap);
    [by apply Forall_take|done|unfold n in *; lia|unfold n in *; lia|lia|done|done|].
  eapply wpm_step; [exact E1|]. eapply wpm_step; [exact E2|].
  assert (Hnext : (off + n) mod BSZ = 0 ∨ (length p - Z.to_nat n = 0)%nat).
  { destruct (decide (Z.of_nat (length p) ≤ BSZ - off mod BSZ)); [right; unfold n; lia|left].
    replace (off + n) with ((off / BSZ + 1) * BSZ) by (unfold n; lia). by apply Z.mod_mul. }
  destruct Hap as [Hm2 Ef Hw EV1 Ht1]. eapply wpm_mono.
  { apply (IH _ _ _ _ lg1 V1 Hm2 (wn_inv _ _ _ _ _ _ _ _ _ _ _ _ Hw) EV1); [|by apply Forall_drop|..|].
    - rewrite <- EV1, (wr_type _ _ _ _ _ _ _ (wn_wrote _ _ _ _ _ _ _ _ _ _ _ _ Hw)), EV. done.
    - unfold n; lia.
    - rewrite Hld. unfold n; lia.
    - unfold n, BSZ in *; lia.
    - rewrite Hld. unfold n, BSZ in *; lia.
    - rewrite Hln in Ht1. by replace (Z.to_nat (off + n)) with (Z.to_nat off + Z.to_nat n)%nat by (unfold n; lia). }
  intros din2 m2 (lg2 & V2 & H2). exists lg2, V2. rewrite <- (take_drop (Z.to_nat n) p).
  eapply appended_trans; [done|by split|]. rewrite Hln, Z2Nat.id by (unfold n; lia). exact H2.
Qed.

(** ** The file system of the image *)

(** No inode is in use by a process. *)
Definition vfs (m : mst) : fss := Fss (vblk m) [] msb [].

(** The image holds the inodes [V], and the blocks of a file are zeroes after its
    end. *)
Record holds (m : mst) (V : Z → dinode) : Prop := Holds {
  ho_ok : mk_ok m;
  ho_inv : inv none none nmeta (vfs m) V;
  ho_tail : ∀ i, inode_no msb i → tail0 (vblk m) (V i) (Z.to_nat (size (V i)));
}.

Lemma IBLOCK_msb i : inode_no msb i → 32 ≤ IBLOCK i msb < sb_bmapstart msb.
Proof. apply (IBLOCK_region msb nmeta msb_layout). Qed.

Lemma vst_inv D F m i lg V :
  inv D F nmeta (vfs m) V → inode_no msb i → type (V i) ≠ 0 → inv D F nmeta (vst m i (V i) lg) V.
Proof.
  intros [Hd Hs _] Hi Ht. split; [done|done|]. split.
  - intros [|] e He; [|done]. injection He as <-. done.
  - intros [|] e He; [|done]. injection He as <-. done.
  - intros [|] [|] e e' He He'; done.
Qed.

Lemma vfs_inv D F m i din lg V : inv D F nmeta (vst m i din lg) V → inv D F nmeta (vfs m) V.
Proof. intros [Hd Hs _]. split; [done|done|]. split; by intros. Qed.

Lemma rinode_eq m V i : holds m V → inode_no msb i → Mkfs.rinode i m = Ok (V i) m.
Proof.
  intros [Hm Hv _] Hi. pose proof (IBLOCK_msb i Hi). unfold Mkfs.rinode.
  rewrite (bind_step _ _ _ _ _ (rsect_eq (IBLOCK i msb) m Hm ltac:(layout_lia))).
  rewrite <- (inv_synced _ _ _ _ _ Hv i Hi ltac:(by intros [])). unfold disk_inode.
  cbn [vfs blk sb]. by rewrite vblk_other by lia.
Qed.

(** The image after inode [i] is written. *)
Definition put_inode (i : Z) (y : dinode) (m : mst) : mst :=
  put_block (IBLOCK i msb) (dinode_put (dislot i) y (img m (IBLOCK i msb))) m.

Lemma winode_eq m i y : mk_ok m → inode_no msb i → Mkfs.winode i y m = Ok tt (put_inode i y m).
Proof.
  intros Hm Hi. pose proof (IBLOCK_msb i Hi). unfold Mkfs.winode.
  rewrite (bind_step _ _ _ _ _ (rsect_eq (IBLOCK i msb) m Hm ltac:(layout_lia))). apply wsect_eq; [done|layout_lia].
Qed.

Lemma put_inode_ok m i y : mk_ok m → inode_no msb i → mk_ok (put_inode i y m).
Proof. intros Hm Hi. pose proof (IBLOCK_msb i Hi). pose proof (mk_free _ Hm). apply put_block_ok; [done|layout_lia]. Qed.

Lemma vst_put_inode m i y din lg : inode_no msb i →
  vst (put_inode i y m) i din (lg ++ [IBLOCK i msb]) =
  log_blk (IBLOCK i msb) (dinode_put (dislot i) y (vblk m (IBLOCK i msb))) (vst m i din lg).
Proof.
  intros Hi. pose proof (IBLOCK_msb i Hi). unfold put_inode. rewrite vblk_other by lia. apply vst_put. lia.
Qed.

Lemma tail0_ext f f' x y n :
  (∀ k, k ≠ NDIRECT → ptr f' y k = ptr f x k ∧ (ptr f x k ≠ 0 → f' (ptr f x k) = f (ptr f x k))) →
  tail0 f x n → tail0 f' y n.
Proof.
  intros Hp Ht o Ho. destruct (Hp (fidx (o / BSIZE)) (fidx_range _)) as [E1 E2]. unfold fbyte. rewrite E1.
  destruct (decide (ptr f x (fidx (o / BSIZE)) = 0)) as [|H0]; [by left|right].
  rewrite E2 by done. by destruct (Ht o Ho).
Qed.

Lemma tail0_inode m V D F i j y n :
  inv D F nmeta (vfs m) V → inode_no msb i → inode_no msb j → tail0 (vblk m) (V j) n → tail0 (vblk (put_inode i y m)) (V j) n.
Proof.
  intros Hv Hi Hj. pose proof (IBLOCK_msb i Hi). apply tail0_ext. intros k _.
  unfold put_inode. rewrite vblk_put by lia.
  assert (Hne : ∀ k, ptr (vblk m) (V j) k ≠ 0 → ptr (vblk m) (V j) k ≠ IBLOCK i msb).
  { intros l Hl E. pose proof (dv_range _ _ _ _ _ (inv_disk _ _ _ _ _ Hv) j l Hj Hl) as Hr. cbn [vfs blk sb] in Hr. layout_lia. }
  split.
  - apply ptr_ext. intros H0. apply fn_lookup_insert_ne. rewrite <- (ptr_direct (vblk m)) in H0 |- * by lia.
    intros E. by apply (Hne NDIRECT H0).
  - intros H0. apply fn_lookup_insert_ne. intros E. by apply (Hne k H0).
Qed.

(** What follows the files is kept by a write. *)
Lemma appended_tails i m V m1 din1 lg1 V1 n y :
  holds m V → inode_no msb i →
  appended i (size (V i)) n m (V i) [] V m1 din1 lg1 V1 → addrs y = addrs din1 →
  size y = size (V i) + Z.of_nat (length n) →
  tail0 (vblk (put_inode i y m1)) y (Z.to_nat (size y)) ∧
  ∀ j, inode_no msb j → j ≠ i → tail0 (vblk (put_inode i y m1)) (V j) (Z.to_nat (size (V j))).
Proof.
  intros [Hm Hv Ht] Hi [Hm1 _ Hw EV1 Ht1] Ha Hs. pose proof (vfs_inv _ _ _ _ _ _ _ (wn_inv _ _ _ _ _ _ _ _ _ _ _ _ Hw)) as Hv1.
  pose proof (wn_wrote _ _ _ _ _ _ _ _ _ _ _ _ Hw) as Hwr.
  pose proof (fits_size _ (dok_fits _ _ (dv_ok _ _ _ _ _ (inv_disk _ _ _ _ _ Hv) i Hi))) as [H0 _]. split.
  - rewrite Hs, Z2Nat.inj_add, Nat2Z.id by lia.
    apply (tail0_ext (vblk (put_inode i y m1)) _ (V1 i)); [|by apply (tail0_inode _ _ _ _ _ _ _ _ Hv1 Hi Hi); rewrite EV1].
    intros k _. split; [|done]. apply ptr_addrs. by rewrite EV1.
  - intros j Hj Hne. rewrite <- (wr_others _ _ _ _ _ _ _ Hwr j Hne) at 1.
    apply (tail0_inode _ _ _ _ _ _ _ _ Hv1 Hi Hj). eapply tail0_ext; [|by apply Ht]. intros k Hk. split.
    + by apply (wr_other_ptrs _ _ _ _ _ _ _ Hwr).
    + by apply (wr_data _ _ _ _ _ _ _ Hwr).
Qed.

(** The image is a file system with the files [A]. *)
Definition image (m : mst) (A : Z → afile) : Prop :=
  ∃ V, holds m V ∧ ∀ i, inode_no msb i → file_of (vblk m) (V i) = A i.

Definition append (p : list Z) (a : afile) : afile := set_data (a_data a ++ p) a.

(** [iappend] appends to a file. *)
Lemma iappend_spec m A i p :
  image m A → inode_no msb i → a_type (A i) ≠ 0 → Forall is_byte p → (0 < length p)%nat →
  Z.of_nat (length (a_data (A i)) + length p) ≤ MAXFILE * BSZ →
  wpm (Mkfs.iappend i p) (λ _ m', image m' (<[i := append p (A i)]> A) ∧ Mkfs.freeinode m' = Mkfs.freeinode m) m.
Proof.
  intros (V & Hh & HA) Hi Hty Hp Hpos Hmax. rewrite <- (HA i Hi) in Hty, Hmax. cbn [file_of a_type a_data] in Hty, Hmax.
  rewrite contents_length in Hmax. pose proof Hh as [Hm Hv Ht].
  pose proof (fits_size _ (dok_fits _ _ (dv_ok _ _ _ _ _ (inv_disk _ _ _ _ _ Hv) i Hi))) as [H0 _].
  unfold Mkfs.iappend. eapply wpm_step; [by apply rinode_eq|]. cbn zeta. apply wpm_bind. eapply wpm_mono.
  { apply (iappend_loop_spec i); [done|done|eapply inv_D; [by apply (vst_inv _ _ _ _ [])|by right]|done|done|done|done|lia|lia| |by apply Ht].
    pose proof (Z.mod_pos_bound (size (V i)) BSZ eq_refl). pose proof (Z.mod_pos_bound (Z.of_nat (length p)) BSZ eq_refl).
    pose proof (Z.div_mod (Z.of_nat (length p)) BSZ ltac:(done)).
    assert (0 ≤ Z.of_nat (length p) / BSZ) by (apply Z.div_pos; unfold BSZ; lia). unfold BSZ in *. lia. }
  intros din1 m1 (lg1 & V1 & Hap). pose proof Hap as [Hm1 Ef Hw EV1 _]. set (y := set_size _ din1).
  eapply wpm_eq; [by apply winode_eq|]. split; [|done].
  pose proof (written_past none none nmeta 0 i (entry i (V i)) _ p _ V _ V1 (vst_inv _ _ _ _ [] _ Hv Hi Hty)
    (vst_cached _ _ _ _ _ eq_refl Hty) Hw ltac:(lia) ltac:(lia)) as Hup.
  unfold wpt in Hup.
  assert (E : (iset 0 (λ i0, set_di (set_size (Z.of_nat (Z.to_nat (size (V i)) + length p)) (di i0)) i0) ;; iupdate 0)
    (vst m1 i din1 lg1) = Ok tt (vst (put_inode i y m1) i y (lg1 ++ [IBLOCK i msb]))).
  { rewrite vst_put_inode by done. unfold y. replace (Z.of_nat (_ + _)) with (size (V i) + Z.of_nat (length p)) by lia. reflexivity. }
  rewrite E in Hup. destruct Hup as (V' & [Hv' Hc' _ _ Hf Ho]).
  assert (EV' : V' i = y) by (by pose proof (ca_entry _ _ _ _ _ Hc') as [= ->]).
  destruct (appended_tails i m V m1 din1 lg1 V1 p y Hh Hi Hap eq_refl eq_refl) as [Hti Htj].
  exists V'. split; [split; [by apply put_inode_ok|by eapply vfs_inv|]|]; intros j Hj; (destruct (decide (j = i)) as [->|Hne]).
  - by rewrite EV'.
  - destruct (Ho j Hj Hne) as [-> _]. by apply Htj.
  - rewrite fn_lookup_insert, <- HA by done. cbn [vst blk] in Hf. rewrite Hf. unfold append. f_equal.
    unfold splice. cbn [a_data file_of vst blk]. rewrite take_ge, drop_ge by (rewrite contents_length; lia). by rewrite app_nil_r.
  - rewrite fn_lookup_insert_ne, <- HA by done. by destruct (Ho j Hj Hne).
Qed.

(** ** Inodes that keep their blocks *)

Section PutInode.

Context (m : mst) (V : Z → dinode) (i : Z) (y : dinode).
Context (Hh : holds m V) (Hi : inode_no msb i).
Context (Hok : dinode_ok (vblk m) y) (Hptr : ∀ k, ptr (vblk m) y k = ptr (vblk m) (V i) k).

Abbreviation s' := (log_blk (IBLOCK i msb) (dinode_put (dislot i) y (vblk m (IBLOCK i msb))) (vfs m)).

Lemma put_inode_vblk : vblk (put_inode i y m) = blk s'.
Proof. pose proof (IBLOCK_msb i Hi). unfold put_inode. rewrite vblk_put by lia. by rewrite vblk_other by lia. Qed.

Lemma put_inode_same : same_data nmeta (vfs m) s'.
Proof. intros b Hb. pose proof (IBLOCK_msb i Hi). apply fn_lookup_insert_ne. layout_lia. Qed.

(** The blocks of the inodes are the same. *)
Lemma put_inode_ptr j k : inode_no msb j → ptr (blk s') (<[i := y]> V j) k = ptr (vblk m) (V j) k.
Proof.
  intros Hj. pose proof (ho_inv _ _ Hh) as Hv. destruct (decide (j = i)) as [->|Hne].
  - rewrite fn_lookup_insert, <- Hptr. apply ptr_ext. intros H0. apply put_inode_same.
    rewrite <- (ptr_direct (vblk m)) in H0 |- * by lia. rewrite Hptr in H0 |- *.
    exact (proj1 (dv_range _ _ _ _ _ (inv_disk _ _ _ _ _ Hv) i _ Hi H0)).
  - rewrite fn_insert_other by done. by eapply (same_data_ptr _ _ _ (vfs m)); [exact Hv|apply put_inode_same|].
Qed.

Lemma put_inode_data j k : inode_no msb j → ptr (vblk m) (V j) k ≠ 0 → blk s' (ptr (vblk m) (V j) k) = vblk m (ptr (vblk m) (V j) k).
Proof.
  intros Hj H0. apply put_inode_same. exact (proj1 (dv_range _ _ _ _ _ (inv_disk _ _ _ _ _ (ho_inv _ _ Hh)) j _ Hj H0)).
Qed.

Lemma put_inode_inv : inv none none nmeta (vfs (put_inode i y m)) (<[i := y]> V).
Proof.
  pose proof (ho_inv _ _ Hh) as Hv. pose proof (dok_fits _ _ Hok) as Hfit.
  destruct (log_inode_inv _ _ _ _ _ i (dinode_put (dislot i) y (vblk m (IBLOCK i msb))) Hv Hi) as [Hd _].
  { apply block_ok_dinode_put, Hv. }
  unfold vfs at 1. rewrite put_inode_vblk. split; cbn [sb blk icache] in *; [|intros j Hj _|split; by intros].
  - eapply disk_inv_same; [exact Hd|apply Hd|done|done| |].
    + intros j k Hj. rewrite put_inode_ptr by done. symmetry. by eapply (same_data_ptr _ _ _ (vfs m)); [exact Hv|apply put_inode_same|].
    + intros j Hj. destruct (decide (j = i)) as [->|Hne].
      * rewrite fn_lookup_insert. apply (dinode_ok_ext (vblk m)); [done|]. intros k. rewrite Hptr, <- put_inode_ptr by done.
        by rewrite fn_lookup_insert.
      * rewrite fn_insert_other by done. by eapply dv_ok.
  - change (disk_inode (sb (vfs m)) (blk s') j = <[i := y]> V j). erewrite disk_inode_put by done.
    destruct (decide (j = i)) as [->|Hne]; [by rewrite fn_lookup_insert|]. rewrite fn_insert_other by done.
    apply (inv_synced _ _ _ _ _ Hv j Hj). by intros [].
Qed.

Lemma put_inode_holds : tail0 (vblk m) y (Z.to_nat (size y)) → holds (put_inode i y m) (<[i := y]> V).
Proof.
  intros Ht. split; [apply put_inode_ok; [apply Hh|done]|exact put_inode_inv|]. intros j Hj. rewrite put_inode_vblk.
  destruct (decide (j = i)) as [->|Hne].
  - rewrite fn_lookup_insert. apply (tail0_ext (vblk m) _ y); [|done]. intros k _. rewrite Hptr. split.
    + rewrite <- put_inode_ptr by done. by rewrite fn_lookup_insert.
    + by apply put_inode_data.
  - rewrite fn_insert_other by done. eapply tail0_ext; [|by apply Hh]. intros k _. split.
    + rewrite <- put_inode_ptr by done. by rewrite fn_insert_other.
    + by apply put_inode_data.
Qed.

Lemma put_inode_files A :
  (∀ j, inode_no msb j → file_of (vblk m) (V j) = A j) → tail0 (vblk m) y (Z.to_nat (size y)) →
  image (put_inode i y m) (<[i := file_of (vblk m) y]> A).
Proof.
  intros HA Ht. exists (<[i := y]> V). split; [by apply put_inode_holds|]. intros j Hj. rewrite put_inode_vblk.
  destruct (decide (j = i)) as [->|Hne].
  - rewrite !fn_lookup_insert. unfold file_of. f_equal. apply contents_ext; [done|]. intros n Hn. rewrite Hptr. split.
    + rewrite <- put_inode_ptr by done. by rewrite fn_lookup_insert.
    + apply put_inode_data; [done|]. rewrite <- Hptr. by apply Hok.
  - rewrite !fn_lookup_insert_ne, <- HA by done.
    by eapply (same_data_file _ _ _ (vfs m)); [apply Hh|apply put_inode_same|].
Qed.

End PutInode.

(** ** New files *)

Lemma image_ext m A A' : image m A → (∀ i, inode_no msb i → A i = A' i) → image m A'.
Proof. intros (V & Hh & HA) E. exists V. split; [done|]. intros i Hi. by rewrite HA, E. Qed.

Definition new_inode (ty : Z) : dinode := Dinode ty 0 0 1 0 (replicate (NDIRECT + 1) 0).

Lemma ptr_zeroes f x k : addrs x = replicate (NDIRECT + 1) 0 → ptr f x k = 0.
Proof.
  intros E. assert (Ha : ∀ j, addr_at x j = 0).
  { intros j. unfold addr_at. rewrite E. destruct (replicate _ 0 !! j) eqn:Ej; [|done].
    by apply lookup_replicate in Ej as [-> _]. }
  unfold ptr. destruct (k <=? NDIRECT)%nat; [apply Ha|]. by rewrite bool_decide_eq_true_2.
Qed.

Lemma empty_inode_ok f x :
  addrs x = replicate (NDIRECT + 1) 0 → is_short (type x) → is_short (major x) → is_short (minor x) → is_short (nlink x) →
  size x = 0 → dinode_ok f x ∧ tail0 f x (Z.to_nat (size x)).
Proof.
  intros Ea Ht Hma Hmi Hn Es. split; [split; [split; rewrite ?Ea, ?Es; try done|by rewrite Es| |]|].
  - apply Forall_replicate. done.
  - intros n Hlt. rewrite Es in Hlt. unfold BSZ in Hlt. lia.
  - intros _ k. by apply ptr_zeroes.
  - intros o _. left. by apply ptr_zeroes.
Qed.

(** [ialloc] makes an empty file of the next inode. *)
Lemma mkfs_ialloc_spec m A ty :
  image m A → inode_no msb (Mkfs.freeinode m) → a_type (A (Mkfs.freeinode m)) = 0 → is_short ty →
  ∃ m', Mkfs.ialloc ty m = Ok (Mkfs.freeinode m) m' ∧ image m' (<[Mkfs.freeinode m := AFile ty 0 0 1 []]> A) ∧
    Mkfs.freeinode m' = Mkfs.freeinode m + 1.
Proof.
  intros (V & Hh & HA) Hi H0 Hty. set (i := Mkfs.freeinode m) in *. set (m1 := Mkfs.set_freeinode (i + 1) m).
  assert (Hh1 : holds m1 V) by (destruct Hh as [[] ? ?]; by split).
  exists (put_inode i (new_inode ty) m1). split_and!; [| |done].
  - unfold Mkfs.ialloc. rewrite (bind_step Mkfs.next_inode _ m i m1 eq_refl).
    by rewrite (bind_step _ _ _ _ _ (winode_eq m1 i (new_inode ty) (ho_ok _ _ Hh1) Hi)).
  - destruct (empty_inode_ok (vblk m1) (new_inode ty) eq_refl Hty) as [Hok Ht]; [done..|].
    apply (put_inode_files m1 V i (new_inode ty) Hh1 Hi Hok); [|done|done]. intros k. rewrite ptr_zeroes by done. symmetry.
    apply (dv_ok _ _ _ _ _ (inv_disk _ _ _ _ _ (ho_inv _ _ Hh1)) i Hi). rewrite <- HA in H0 by done. exact H0.
Qed.

(** The copying of a file. *)
Lemma copy_file_spec i fuel : inode_no msb i → ∀ m A data,
  image m A → a_type (A i) ≠ 0 → Forall is_byte data → (length data < fuel)%nat →
  Z.of_nat (length (a_data (A i)) + length data) ≤ MAXFILE * BSZ →
  wpm (Mkfs.copy_file fuel i data) (λ _ m', image m' (<[i := append data (A i)]> A) ∧ Mkfs.freeinode m' = Mkfs.freeinode m) m.
Proof.
  intros Hi. induction fuel as [|fuel IH]; intros m A data Him Hty Hd Hf Hmax; [lia|].
  cbn [Mkfs.copy_file]. case_bool_decide as Hpos.
  - rewrite length_take in Hpos. apply wpm_bind. eapply wpm_mono.
    { apply iappend_spec; [exact Him|done|done|by apply Forall_take|by rewrite length_take|rewrite length_take; lia]. }
    intros _ m1 [Him1 Ef1]. eapply wpm_mono.
    { apply IH; [exact Him1|by rewrite fn_lookup_insert|by apply Forall_drop|rewrite length_drop; unfold BSIZE in *; lia|].
      rewrite fn_lookup_insert. cbn [append set_data a_data]. rewrite length_app, length_take, length_drop. lia. }
    intros _ m2 [Him2 Ef2]. split; [|congruence]. eapply image_ext; [exact Him2|]. intros j _.
    destruct (decide (j = i)) as [->|]; [|by rewrite !fn_lookup_insert_ne].
    rewrite !fn_lookup_insert. unfold append, set_data. cbn. by rewrite <- app_assoc, take_drop.
  - apply wpm_ret. split; [|done]. eapply image_ext; [exact Him|]. intros j _.
    destruct (decide (j = i)) as [->|]; [|by rewrite fn_lookup_insert_ne]. rewrite fn_lookup_insert.
    destruct data; [|unfold BSIZE in *; simpl in Hpos; lia]. unfold append, set_data. rewrite app_nil_r. by destruct (A i).
Qed.

(** ** The root directory in the end *)

(** Zeroes up to the end of the block, or a block of them. *)
Definition pad (l : list Z) : list Z := replicate (BSIZE - length l mod BSIZE) 0.

(** A larger size shows the zeroes after the end. *)
Lemma contents_pad f x y :
  addrs y = addrs x → dinode_ok f y → tail0 f x (Z.to_nat (size x)) → 0 ≤ size x ≤ size y →
  contents f y = contents f x ++ replicate (Z.to_nat (size y - size x)) 0.
Proof.
  intros Ea Hok Ht Hs. unfold contents.
  replace (Z.to_nat (size y)) with (Z.to_nat (size x) + Z.to_nat (size y - size x))%nat by lia.
  rewrite seq_app, fmap_app, Nat.add_0_l. f_equal.
  - apply list_fmap_ext. intros k o _. unfold fbyte. by rewrite (ptr_addrs f y x).
  - apply list_eq. intros k. rewrite list_lookup_fmap. destruct (decide (k < Z.to_nat (size y - size x))%nat) as [Hk|].
    + rewrite lookup_seq_lt, lookup_replicate_2 by done. simpl. f_equal. unfold fbyte. rewrite (ptr_addrs f y x) by done.
      destruct (Ht (Z.to_nat (size x) + k)%nat) as [H0|]; [lia| |done].
      destruct (dok_holes _ _ Hok ((Z.to_nat (size x) + k) / BSIZE)); [|by rewrite (ptr_addrs f y x)].
      pose proof (Nat.Div0.mul_div_le (Z.to_nat (size x) + k) BSIZE). unfold BSIZE, BSZ in *. lia.
    + rewrite lookup_seq_ge, (proj1 (lookup_replicate_None _ _ _)) by lia. done.
Qed.

Lemma fix_root_spec m A i :
  image m A → inode_no msb i → (length (a_data (A i)) mod BSIZE ≠ 0)%nat →
  ∃ m', Mkfs.fix_root i m = Ok tt m' ∧ image m' (<[i := append (pad (a_data (A i))) (A i)]> A).
Proof.
  intros (V & Hh & HA) Hi Hmod. rewrite <- (HA i Hi) in Hmod. cbn [file_of a_data] in Hmod. rewrite contents_length in Hmod.
  pose proof Hh as [Hm Hv Ht]. destruct (dv_ok _ _ _ _ _ (inv_disk _ _ _ _ _ Hv) i Hi) as [Hfit Hmax Hholes Hfree].
  pose proof (fits_size _ Hfit) as [H0 _]. set (y := set_size ((size (V i) / BSZ + 1) * BSZ) (V i)).
  assert (Em : Z.of_nat (Z.to_nat (size (V i)) mod BSIZE) = size (V i) mod BSZ).
  { rewrite Nat2Z.inj_mod, Z2Nat.id by done. done. }
  pose proof (Z.div_mod (size (V i)) BSZ ltac:(done)) as Hdm. pose proof (Z.mod_pos_bound (size (V i)) BSZ eq_refl).
  assert (Hq : 0 ≤ size (V i) / BSZ < MAXFILE).
  { split; [apply Z.div_pos; unfold BSZ; lia|]. apply Z.div_lt_upper_bound; [done|]. unfold BSZ, MAXFILE in *. lia. }
  assert (Hp : ∀ k, ptr (vblk m) y k = ptr (vblk m) (V i) k) by (intros; by apply ptr_addrs).
  assert (Hok : dinode_ok (vblk m) y).
  { split; [destruct Hfit; split; try done; cbn; unfold is_uint, BSZ, MAXFILE in *; lia|cbn; unfold BSZ, MAXFILE in *; lia| |done].
    intros n Hn. rewrite Hp. apply Hholes. cbn in Hn. unfold BSZ in *. lia. }
  exists (put_inode i y m). split.
  { unfold Mkfs.fix_root. rewrite (bind_step _ _ _ _ _ (rinode_eq m V i Hh Hi)). by apply winode_eq. }
  eapply image_ext; [apply (put_inode_files m V i y Hh Hi Hok Hp _ HA)|].
  - intros o Ho. unfold fbyte. rewrite Hp. apply (Ht i Hi). cbn in Ho. unfold BSZ in *. lia.
  - intros j Hj. destruct (decide (j = i)) as [->|]; [|by rewrite !fn_lookup_insert_ne]. rewrite !fn_lookup_insert, <- HA by done.
    unfold append, set_data, file_of. cbn [a_type a_major a_minor a_nlink a_data]. f_equal.
    rewrite (contents_pad _ (V i) y) by (done || by apply Ht || (cbn; unfold BSZ in *; lia)). f_equal. unfold pad. f_equal.
    rewrite contents_length. change (size y) with ((size (V i) / BSZ + 1) * BSZ). unfold BSIZE, BSZ in *. lia.
Qed.

End MkfsImage.
