(* ===== verification/MkfsThm.v ===== *)
(** * What mkfs makes

    The image that [Mkfs.mkfs] writes is a file system in the sense of [FsInv], with
    the files it was given in the root directory. *)

From Stdlib Require Import FunctionalExtensionality.
From S2P Require Import Prelude Log Fs FsInv FsAlloc FsFile FsWrite FsTrunc FsCache FsDir FsPath FsThm Mkfs MkfsSim MkfsImage.

Module MkfsThm.

Import Fs FsInv FsAlloc FsFile FsWrite FsDir FsPath MkfsSim MkfsImage.

(** ** The files *)

(** A file of the host: its name and its contents. *)
Abbreviation host := (list Z * list Z)%type.

Definition args (fs : list host) : list (list Z * option (list Z)) := (λ f, (f.1, Some f.2)) <$> fs.

Record file_ok (f : host) : Prop := FileOk {
  fo_slash : SLASH ∉ f.1;
  fo_name : Forall (λ c, 0 < c < 256) f.1;
  fo_nonempty : Mkfs.skip_underscore f.1 ≠ [];
  fo_data : Forall is_byte f.2;
  fo_size : Z.of_nat (length f.2) ≤ MAXFILE * BSZ;
}.

(** The directory entries of the files, which have the inodes from [n] on. *)
Fixpoint entries (n : Z) (fs : list host) : list (list Z) :=
  match fs with
  | [] => []
  | f :: fs => dirent_bytes n (Mkfs.skip_underscore f.1) :: entries (n + 1) fs
  end.

(** The files of the file system after [fs] are added. *)
Fixpoint added (n : Z) (fs : list host) (A : Z → afile) : Z → afile :=
  match fs with
  | [] => A
  | f :: fs =>
      added (n + 1) fs
        (<[n := AFile T_FILE 0 0 1 f.2]> (<[ROOTINO := append (dirent_bytes n (Mkfs.skip_underscore f.1)) (A ROOTINO)]> A))
  end.

Lemma append_append p q a : append q (append p a) = append (p ++ q) a.
Proof. unfold append, set_data. cbn. by rewrite app_assoc. Qed.

Lemma added_root fs : ∀ n A, 2 ≤ n → added n fs A ROOTINO = append (concat (entries n fs)) (A ROOTINO).
Proof.
  induction fs as [|f fs IH]; intros n A Hn; cbn [added entries concat].
  - unfold append, set_data. rewrite app_nil_r. by destruct (A ROOTINO).
  - rewrite IH by lia. rewrite fn_lookup_insert_ne, fn_lookup_insert by (unfold ROOTINO; lia). apply append_append.
Qed.

Lemma added_other fs : ∀ n A i, i ≠ ROOTINO → i < n ∨ n + Z.of_nat (length fs) ≤ i → added n fs A i = A i.
Proof.
  induction fs as [|f fs IH]; intros n A i Hi Hn; cbn [added length] in *; [done|].
  rewrite IH by (done || lia). by rewrite !fn_lookup_insert_ne by (done || lia).
Qed.

Lemma added_file fs : ∀ n A k f, 2 ≤ n → fs !! k = Some f → added n fs A (n + Z.of_nat k) = AFile T_FILE 0 0 1 f.2.
Proof.
  induction fs as [|g fs IH]; intros n A k f Hn Hk; [done|]. cbn [added]. destruct k as [|k].
  - injection Hk as ->. rewrite Z.add_0_r, added_other by (unfold ROOTINO; lia). by rewrite fn_lookup_insert.
  - replace (n + Z.of_nat (S k)) with (n + 1 + Z.of_nat k) by lia. by apply IH; [lia|].
Qed.

Lemma skip_underscore_Forall (P : Z → Prop) name : Forall P name → Forall P (Mkfs.skip_underscore name).
Proof. destruct name as [|c l]; [done|]. cbn. case_bool_decide; [by inversion 1|done]. Qed.

Lemma dirent_is_bytes i name : Forall (λ c, 0 < c < 256) name → Forall is_byte (dirent_bytes i name).
Proof.
  intros Hn. unfold dirent_bytes, name_field. apply Forall_app. split; [by repeat constructor; apply u8_byte|].
  apply Forall_app. split; [|apply Forall_replicate; done].
  apply Forall_take. eapply Forall_impl; [exact Hn|]. unfold is_byte. lia.
Qed.

(** The loop over the files. *)
Lemma add_files_spec fs : ∀ m A,
  image m A → 2 ≤ Mkfs.freeinode m → Mkfs.freeinode m + Z.of_nat (length fs) ≤ Mkfs.NINODES →
  (∀ i, Mkfs.freeinode m ≤ i → a_type (A i) = 0) → a_type (A ROOTINO) ≠ 0 → Forall file_ok fs →
  Z.of_nat (length (a_data (A ROOTINO)) + 16 * length fs) ≤ MAXFILE * BSZ →
  wpm (Mkfs.add_files ROOTINO (args fs)) (λ _ m', image m' (added (Mkfs.freeinode m) fs A)) m.
Proof.
  induction fs as [|[name data] fs IH]; intros m A Him Hn Hmax Hfree Hroot Hok Hlen; cbn [args fmap list_fmap Mkfs.add_files]; [done|].
  apply Forall_cons in Hok as [[Hslash Hname Hne Hdata Hsize] Hok]. cbn [length fst snd] in *.
  rewrite (bool_decide_eq_false_2 _ Hslash). set (n := Mkfs.freeinode m) in *.
  assert (Hi : inode_no msb n) by (split; [lia|]; change (sb_ninodes msb) with Mkfs.NINODES; lia).
  destruct (mkfs_ialloc_spec m A T_FILE Him Hi ltac:(apply Hfree; lia) ltac:(done)) as (m1 & E1 & Him1 & Ef1). fold n in E1, Him1, Ef1.
  eapply wpm_step; [exact E1|]. apply wpm_bind.
  assert (Er : <[n := AFile T_FILE 0 0 1 []]> A ROOTINO = A ROOTINO) by (apply fn_lookup_insert_ne; unfold ROOTINO; lia).
  set (de := dirent_bytes n (Mkfs.skip_underscore name)).
  assert (Hde : length de = 16%nat) by apply length_dirent_bytes.
  eapply wpm_mono.
  { apply (iappend_spec m1 _ ROOTINO de Him1); [done|by rewrite Er|by apply dirent_is_bytes, skip_underscore_Forall|lia|].
    rewrite Er, Hde. lia. }
  intros _ m2 [Him2 Ef2]. rewrite Er in Him2. apply wpm_bind.
  assert (En : <[ROOTINO := append de (A ROOTINO)]> (<[n := AFile T_FILE 0 0 1 []]> A) n = AFile T_FILE 0 0 1 []).
  { rewrite fn_lookup_insert_ne, fn_lookup_insert by (unfold ROOTINO; lia). done. }
  eapply wpm_mono.
  { apply (copy_file_spec n _ Hi m2 _ data Him2); [by rewrite En|done|lia|by rewrite En]. }
  intros _ m3 [Him3 Ef3]. rewrite En in Him3.
  assert (Em3 : Mkfs.freeinode m3 = n + 1) by congruence.
  eapply wpm_mono.
  { apply (IH m3 (<[n := AFile T_FILE 0 0 1 data]> (<[ROOTINO := append de (A ROOTINO)]> A))); rewrite ?Em3; [|lia|lia| | |done|].
    - eapply image_ext; [exact Him3|]. intros i _. destruct (decide (i = n)) as [->|]; [by rewrite !fn_lookup_insert|].
      rewrite !(fn_lookup_insert_ne _ n) by done. destruct (decide (i = ROOTINO)) as [->|]; [by rewrite !fn_lookup_insert|].
      by rewrite !fn_lookup_insert_ne.
    - intros i Hi'. rewrite !fn_lookup_insert_ne by (unfold ROOTINO; lia). apply Hfree. lia.
    - rewrite fn_lookup_insert_ne, fn_lookup_insert by (unfold ROOTINO; lia). done.
    - rewrite fn_lookup_insert_ne, fn_lookup_insert by (unfold ROOTINO; lia). cbn [append set_data a_data].
      rewrite length_app, Hde. lia. }
  intros [] m4. by rewrite Em3.
Qed.

(** ** The image before the first file *)

Lemma zero_loop n : ∀ i k fi fb, (0 < n)%nat →
  for_range i n (λ i, Mkfs.wsect (Z.of_nat i) zeroes) (Mkfs.Mst (λ _, zeroes) k fi fb) =
  Ok tt (Mkfs.Mst (λ _, zeroes) (Z.max k (Z.of_nat (i + n))) fi fb).
Proof.
  induction n as [|n IH]; intros i k fi fb Hn; [lia|]. cbn [for_range].
  set (m := Mkfs.Mst (λ _, zeroes) (Z.max k (Z.of_nat i + 1)) fi fb).
  assert (E : Mkfs.wsect (Z.of_nat i) zeroes (Mkfs.Mst (λ _, zeroes) k fi fb) = Ok tt m).
  { unfold Mkfs.wsect, modify, m, Mkfs.set_img. cbn. do 2 f_equal. apply functional_extensionality. intros b.
    destruct (decide (b = Z.of_nat i)) as [->|]; [by rewrite fn_lookup_insert|by rewrite fn_lookup_insert_ne]. }
  rewrite (bind_step _ _ _ _ _ E). unfold m. destruct n as [|n]; [cbn; do 2 f_equal; lia|].
  rewrite IH by lia. do 2 f_equal. lia.
Qed.

Definition blank : mst := Mkfs.Mst (<[1 := Mkfs.sb_block]> (λ _, zeroes)) FSSIZE 1 nmeta.
Definition no_files : Z → afile := λ _, AFile 0 0 0 0 [].

Lemma dinode_get_zeroes o : dinode_get zeroes o = zero_dinode.
Proof.
  assert (H16 : ∀ k, get16 zeroes k = 0) by (intros k; unfold get16, Mkfs.zeroes; by rewrite !byte_at_replicate).
  assert (H32 : ∀ k, getu32 zeroes k = 0) by (intros; apply getu32_zero).
  unfold dinode_get. rewrite !H16, !H32. unfold zero_dinode. f_equal.
  trans ((λ _ : nat, 0) <$> seq 0 (NDIRECT + 1)); [|done]. apply list_fmap_ext. intros; apply H32.
Qed.

Lemma blank_blocks b : b ≠ 1 → b ≠ sb_bmapstart msb → vblk blank b = zeroes.
Proof. intros H1 H2. rewrite vblk_other by done. cbn [blank Mkfs.img]. by rewrite fn_lookup_insert_ne. Qed.

Lemma blank_ok : mk_ok blank.
Proof. split; [done|done|]. intros b Hb. cbn [blank Mkfs.img Mkfs.freeblock] in Hb |- *. apply fn_lookup_insert_ne. layout_lia. Qed.

Lemma blank_disk : disk_inv none nmeta msb (vblk blank) (λ _, zero_dinode).
Proof.
  assert (Hp : ∀ k, ptr (vblk blank) zero_dinode k = 0) by (intros; by apply ptr_zeroes).
  split.
  - exact msb_layout.
  - by vm_compute.
  - intros b. unfold vblk. apply blocks_ok_insert; [|by apply bitmap_ok].
    apply blocks_ok_insert; [intros; apply block_ok_zero|]. repeat apply block_ok_put32. apply block_ok_zero.
  - intros b Hb. apply vblk_used; [exact blank_ok|layout_lia|apply Hb].
  - intros b Hb. rewrite vblk_used by (exact blank_ok || layout_lia). cbn [blank Mkfs.freeblock].
    split; [lia|]. intros [[]|(i & k & _ & E)]. rewrite Hp in E. layout_lia.
  - intros i k _ H0. by rewrite Hp in H0.
  - by intros b [].
  - intros i j k l _ _ H0. by rewrite Hp in H0.
  - intros i _. by apply empty_inode_ok.
Qed.

Lemma blank_image : image blank no_files.
Proof.
  exists (λ _, zero_dinode). split; [split; [exact blank_ok|split; [exact blank_disk| |split; by intros]|]|done].
  - intros i Hi _. unfold disk_inode. pose proof (IBLOCK_msb i Hi). cbn [vfs blk sb].
    rewrite blank_blocks by layout_lia. apply dinode_get_zeroes.
  - intros i _. by apply empty_inode_ok.
Qed.

(** ** All of [mkfs] *)

(** The files in the end. *)
Definition dots : list (list Z) := [dirent_bytes ROOTINO [46]; dirent_bytes ROOTINO [46; 46]].
Definition root_data (fs : list host) : list Z := concat (dots ++ entries 2 fs).
Definition made (fs : list host) : Z → afile :=
  <[ROOTINO := AFile T_DIR 0 0 1 (root_data fs ++ pad (root_data fs))]> (added 2 fs no_files).

Lemma length_entries fs : ∀ n, length (concat (entries n fs)) = (16 * length fs)%nat.
Proof. induction fs as [|f fs IH]; intros n; cbn [entries concat]; [done|]. rewrite length_app, length_dirent_bytes, IH. simpl. lia. Qed.

Lemma length_root fs : length (root_data fs) = (16 * (2 + length fs))%nat.
Proof. unfold root_data. rewrite concat_app, length_app, length_entries. change (length (concat dots)) with 32%nat. lia. Qed.

Definition root_only (l : list Z) : Z → afile := <[ROOTINO := AFile T_DIR 0 0 1 l]> no_files.

(** The root directory grows by an entry. *)
Lemma root_append m l p :
  image m (root_only l) → Forall is_byte p → (0 < length p)%nat → Z.of_nat (length l + length p) ≤ MAXFILE * BSZ →
  wpm (Mkfs.iappend ROOTINO p) (λ _ m', image m' (root_only (l ++ p)) ∧ Mkfs.freeinode m' = Mkfs.freeinode m) m.
Proof.
  intros Him Hp Hpos Hmax. assert (E : root_only l ROOTINO = AFile T_DIR 0 0 1 l) by apply fn_lookup_insert.
  eapply wpm_mono; [apply (iappend_spec m _ ROOTINO p Him); [done|by rewrite E|done|done|by rewrite E]|].
  intros _ m' [Him' Ef]. split; [|done]. eapply image_ext; [exact Him'|]. intros i _. unfold root_only.
  destruct (decide (i = ROOTINO)) as [->|]; [|by rewrite !fn_lookup_insert_ne]. by rewrite !fn_lookup_insert.
Qed.

Lemma added_ext fs : ∀ n A A' i, i ≠ ROOTINO → (∀ j, j ≠ ROOTINO → A j = A' j) → added n fs A i = added n fs A' i.
Proof.
  induction fs as [|f fs IH]; intros n A A' i Hi E; cbn [added]; [by apply E|]. apply IH; [done|]. intros j Hj.
  destruct (decide (j = n)) as [->|]; [by rewrite !fn_lookup_insert|]. rewrite !fn_lookup_insert_ne by done. by apply E.
Qed.

(** The files after [fix_root]. *)
Lemma made_eq fs i (A := added 2 fs (root_only (concat dots))) :
  <[ROOTINO := append (pad (a_data (A ROOTINO))) (A ROOTINO)]> A i = made fs i.
Proof.
  unfold made. destruct (decide (i = ROOTINO)) as [->|].
  - rewrite !fn_lookup_insert. unfold A. rewrite added_root by lia. unfold root_only at 1 2. rewrite fn_lookup_insert.
    unfold root_data. rewrite concat_app. done.
  - rewrite !fn_lookup_insert_ne by done. apply added_ext; [done|]. intros j Hj. by apply fn_lookup_insert_ne.
Qed.

Lemma block_end n : (n mod 32 ≠ 30 → (32 + 16 * n) mod BSIZE ≠ 0)%nat.
Proof.
  intros Hn E. apply Nat.Div0.mod_divides in E as [q E]. apply Hn. unfold BSIZE in E.
  symmetry. apply (Nat.mod_unique _ _ (q - 1)); lia.
Qed.

Lemma mkfs_image fs :
  Forall file_ok fs → Z.of_nat (length fs) + 2 ≤ Mkfs.NINODES → (length fs mod 32 ≠ 30)%nat →
  wpm (Mkfs.mkfs (args fs)) (λ _ m', ∃ m, image m (made fs) ∧ img m' = vblk m) Mkfs.start.
Proof.
  intros Hok Hmax Hmod. unfold Mkfs.mkfs. eapply wpm_step; [done|].
  change (Mkfs.set_freeblock nmeta Mkfs.start) with (Mkfs.Mst (λ _, zeroes) 0 1 nmeta).
  eapply wpm_step; [apply zero_loop; change FSSIZE with 1000; lia|].
  eapply (wpm_step _ _ _ _ tt blank); [done|].
  destruct (mkfs_ialloc_spec blank no_files T_DIR blank_image) as (m1 & E1 & Him1 & Ef1); [done..|].
  change (Mkfs.freeinode blank) with ROOTINO in *. eapply wpm_step; [exact E1|].
  rewrite bool_decide_eq_false_2 by naive_solver. apply wpm_bind.
  eapply wpm_mono; [apply (root_append m1 [] (dirent_bytes ROOTINO [46]) Him1); [apply dirent_is_bytes; repeat (apply Forall_cons; split; [lia|]); by apply Forall_nil|rewrite length_dirent_bytes; lia|by rewrite length_dirent_bytes]|].
  intros _ m2 [Him2 Ef2]. apply wpm_bind.
  eapply wpm_mono; [apply (root_append m2 _ (dirent_bytes ROOTINO [46; 46]) Him2); [apply dirent_is_bytes; repeat (apply Forall_cons; split; [lia|]); by apply Forall_nil|rewrite length_dirent_bytes; lia|by rewrite !length_app, !length_dirent_bytes]|].
  intros _ m3 [Him3 Ef3]. apply wpm_bind. change (image m3 (root_only (concat dots))) in Him3.
  assert (Ef : Mkfs.freeinode m3 = 2) by (rewrite Ef3, Ef2, Ef1; done).
  eapply wpm_mono; [apply (add_files_spec fs m3 _ Him3); rewrite ?Ef; [lia|lia| |done|done|]|].
  { intros i Hi. unfold root_only. by rewrite fn_lookup_insert_ne by (unfold ROOTINO; lia). }
  { change (length (a_data (root_only (concat dots) ROOTINO))) with 32%nat. unfold Mkfs.NINODES, MAXFILE, BSZ in *. lia. }
  intros [] m4 Him4. rewrite Ef in Him4. destruct (fix_root_spec m4 _ ROOTINO Him4 ltac:(done)) as (m5 & E5 & Him5).
  { rewrite added_root by lia. unfold root_only. rewrite fn_lookup_insert. cbn [append set_data a_data].
    rewrite length_app, length_entries. change (length (concat dots)) with 32%nat. by apply block_end. }
  eapply wpm_step; [exact E5|]. eapply wpm_step; [done|]. pose proof Him5 as (V & [Hm5 _ _] & _).
  unfold Mkfs.balloc. pose proof (mk_free _ Hm5). rewrite bool_decide_eq_true_2 by (unfold BSZ; layout_lia).
  eapply wpm_eq; [apply wsect_eq; [done|layout_lia]|]. exists m5. split; [|done].
  eapply image_ext; [exact Him5|]. intros i _. apply made_eq.
Qed.

(** ** The root directory *)

Lemma dents_cons d l : length d = 16%nat → dents (d ++ l) = d :: dents l.
Proof.
  intros Hd. unfold dents. rewrite length_app, Hd. replace ((16 + length l) / 16)%nat with (S (length l / 16)).
  - cbn [seq fmap list_fmap]. f_equal; [by rewrite drop_0, take_app_length'|]. rewrite <- fmap_S_seq, <- list_fmap_compose.
    apply list_fmap_ext. intros _ k _. unfold compose. f_equal. rewrite drop_app_ge by lia. f_equal. lia.
  - replace (16 + length l)%nat with (length l + 1 * 16)%nat by lia. rewrite Nat.div_add by lia. lia.
Qed.

Lemma dents_concat l : Forall (λ d, length d = 16%nat) l → dents (concat l) = l.
Proof. induction 1 as [|d l Hd _ IH]; [done|]. cbn [concat]. by rewrite dents_cons, IH. Qed.

Definition zero_entry : list Z := replicate 16 0.
Definition zero_entries (fs : list host) : list (list Z) := replicate (32 - (2 + length fs) mod 32) zero_entry.

Lemma concat_zero n : concat (replicate n zero_entry) = replicate (16 * n) 0.
Proof.
  induction n as [|n IH]; [done|]. cbn [replicate concat]. rewrite IH. unfold zero_entry. rewrite <- replicate_add. f_equal. lia.
Qed.

Lemma pad_eq fs : pad (root_data fs) = concat (zero_entries fs).
Proof.
  unfold zero_entries. rewrite concat_zero. unfold pad. f_equal. rewrite length_root. change BSIZE with (16 * 32)%nat.
  rewrite Nat.Div0.mul_mod_distr_l. pose proof (Nat.mod_upper_bound (2 + length fs) 32). lia.
Qed.

Lemma entries_length fs : ∀ n, Forall (λ d, length d = 16%nat) (entries n fs).
Proof. induction fs as [|f fs IH]; intros n; cbn [entries]; constructor; [apply length_dirent_bytes|apply IH]. Qed.

Lemma root_dents fs : dents (root_data fs ++ pad (root_data fs)) = dots ++ entries 2 fs ++ zero_entries fs.
Proof.
  rewrite pad_eq. unfold root_data. rewrite <- concat_app, <- app_assoc. apply dents_concat.
  apply Forall_app. split; [by repeat constructor|]. apply Forall_app. split; [apply entries_length|by apply Forall_replicate].
Qed.

Lemma entries_lookup fs : ∀ n k,
  entries n fs !! k = (λ f, dirent_bytes (n + Z.of_nat k) (Mkfs.skip_underscore f.1)) <$> fs !! k.
Proof.
  induction fs as [|f fs IH]; intros n k; [done|]. cbn [entries]. destruct k as [|k]; [by rewrite Z.add_0_r|].
  cbn. rewrite IH. by replace (n + 1 + Z.of_nat k) with (n + Z.of_nat (S k)) by lia.
Qed.

(** The name of a file in the directory. *)
Definition entry_name (f : host) : list Z := take DIRSIZ (Mkfs.skip_underscore f.1).

Lemma dname_nonzero l : Forall (λ c, 0 < c < 256) l → dname l = take DIRSIZ l.
Proof. intros Hl. apply upto0_nonzero, Forall_take. eapply Forall_impl; [exact Hl|]. cbn. lia. Qed.

(** [dir_find] of a name that one entry has. *)
Lemma dir_find_some name l : ∀ k j n, dir_find name l k = Some (j, n) →
  ∃ d, d ∈ l ∧ de_inum d = n ∧ n ≠ 0 ∧ dname name = dname (de_name d).
Proof.
  induction l as [|d l IH]; intros k j n; cbn [dir_find]; [done|]. case_bool_decide as H.
  - intros [= _ <-]. exists d. split; [left|]. naive_solver.
  - intros Hf. destruct (IH _ _ _ Hf) as (d' & ? & ?). exists d'. split; [by right|done].
Qed.

Lemma dir_lookup_in name l d :
  d ∈ l → de_inum d ≠ 0 → dname name = dname (de_name d) →
  (∀ d', d' ∈ l → de_inum d' ≠ 0 → dname name = dname (de_name d') → de_inum d' = de_inum d) →
  snd <$> dir_find name l 0 = Some (de_inum d).
Proof.
  intros Hd H0 Hn Hu. destruct (dir_find name l 0) as [[j n]|] eqn:E.
  - destruct (dir_find_some _ _ _ _ _ E) as (d' & Hd' & <- & ? & ?). simpl. f_equal. by apply Hu.
  - exfalso. rewrite dir_find_none in E. by apply (E d Hd).
Qed.

(** The inode of a name in the root directory. *)
Definition named (fs : list host) (name : list Z) (j : Z) : Prop :=
  (j = ROOTINO ∧ (dname name = [46] ∨ dname name = [46; 46])) ∨
  ∃ k f, fs !! k = Some f ∧ dname name = entry_name f ∧ j = 2 + Z.of_nat k.

Section Root.

Context (fs : list host).
Context (Hok : Forall file_ok fs) (Hmax : Z.of_nat (length fs) + 2 ≤ Mkfs.NINODES).

Lemma file_entry k f : fs !! k = Some f →
  let d := dirent_bytes (2 + Z.of_nat k) (Mkfs.skip_underscore f.1) in
  de_inum d = 2 + Z.of_nat k ∧ dname (de_name d) = entry_name f ∧ inode_no msb (2 + Z.of_nat k).
Proof.
  intros Hk d. pose proof (lookup_lt_Some _ _ _ Hk). unfold Mkfs.NINODES in Hmax.
  pose proof (skip_underscore_Forall _ _ (fo_name _ (proj1 (Forall_lookup _ _) Hok k f Hk))) as Hn.
  split; [apply de_inum_bytes; lia|]. split; [|split; [lia|]; change (sb_ninodes msb) with 200; lia].
  unfold d. rewrite de_name_bytes, dname_field; [by apply dname_nonzero|]. eapply Forall_impl; [exact Hn|]. cbn. lia.
Qed.

Abbreviation slots := (dots ++ entries 2 fs ++ zero_entries fs).

Lemma slot_named d name : d ∈ slots → de_inum d ≠ 0 → dname name = dname (de_name d) → named fs name (de_inum d).
Proof.
  rewrite !elem_of_app. intros [Hd|[Hd|Hd]] H0 Hn.
  - left. unfold dots in Hd. rewrite !elem_of_cons in Hd.
    destruct Hd as [->|[->|Hd]]; [| |by apply elem_of_nil in Hd]; (split; [done|]); [by left|by right].
  - right. apply list_elem_of_lookup in Hd as [k Hk]. rewrite entries_lookup in Hk. apply fmap_Some in Hk as (f & Hk & ->).
    destruct (file_entry k f Hk) as (E1 & E2 & _). exists k, f. by rewrite E1, <- E2.
  - apply elem_of_replicate in Hd as [-> _]. by destruct H0.
Qed.

Lemma named_slot name j : named fs name j → ∃ d, d ∈ slots ∧ de_inum d = j ∧ j ≠ 0 ∧ dname name = dname (de_name d).
Proof.
  intros [[-> [E|E]]|(k & f & Hk & E & ->)].
  - exists (dirent_bytes ROOTINO [46]). rewrite E. split; [by left|done].
  - exists (dirent_bytes ROOTINO [46; 46]). rewrite E. split; [by right; left|done].
  - destruct (file_entry k f Hk) as (E1 & E2 & _). eexists. split; [|by rewrite E, E1, E2; split_and!; [|lia|]].
    rewrite !elem_of_app. right. left. apply list_elem_of_lookup. exists k. by rewrite entries_lookup, Hk.
Qed.

Context (Hdist : NoDup ([46] :: [46; 46] :: (entry_name <$> fs))).

Lemma named_unique name j j' : named fs name j → named fs name j' → j = j'.
Proof.
  apply NoDup_cons in Hdist as [H1 [H2 Hd]%NoDup_cons]. rewrite elem_of_cons in H1.
  assert (Hin : ∀ k f, fs !! k = Some f → entry_name f ∈ entry_name <$> fs).
  { intros k f Hk. apply list_elem_of_fmap. exists f. split; [done|]. by eapply list_elem_of_lookup_2. }
  intros [[-> E]|(k & f & Hk & E & ->)] [[-> E']|(k' & f' & Hk' & E' & ->)]; [done|..].
  - exfalso. rewrite E' in E. specialize (Hin k' f' Hk'). destruct E as [E|E]; rewrite E in Hin; tauto.
  - exfalso. rewrite E in E'. specialize (Hin k f Hk). destruct E' as [E'|E']; rewrite E' in Hin; tauto.
  - do 2 f_equal. eapply (NoDup_lookup (entry_name <$> fs)); [done|by rewrite list_lookup_fmap, Hk|].
    rewrite list_lookup_fmap, Hk'. change (Some (entry_name f') = Some (entry_name f)). congruence.
Qed.

Lemma root_lookup name j : dir_lookup (root_data fs ++ pad (root_data fs)) name = Some j ↔ named fs name j.
Proof.
  unfold dir_lookup. rewrite root_dents. split.
  - intros Hf. apply fmap_Some in Hf as ([m n] & Hf & ->). destruct (dir_find_some _ _ _ _ _ Hf) as (d & Hd & <- & H0 & En).
    by apply slot_named.
  - intros Hn. destruct (named_slot _ _ Hn) as (d & Hd & <- & H0 & En). apply dir_lookup_in; [done..|].
    intros d' Hd' H0' En'. eapply named_unique; [by apply (slot_named d' name)|done].
Qed.

Lemma made_root : made fs ROOTINO = AFile T_DIR 0 0 1 (root_data fs ++ pad (root_data fs)).
Proof. apply fn_lookup_insert. Qed.

Lemma made_file k f : fs !! k = Some f → made fs (2 + Z.of_nat k) = AFile T_FILE 0 0 1 f.2.
Proof. intros Hk. unfold made. rewrite fn_lookup_insert_ne by (unfold ROOTINO; lia). by apply added_file. Qed.

Lemma made_free i : 2 + Z.of_nat (length fs) ≤ i → made fs i = AFile 0 0 0 0 [].
Proof. intros Hi. unfold made. rewrite fn_lookup_insert_ne, added_other by (unfold ROOTINO; lia). done. Qed.

(** The only directory is the root. *)
Lemma made_dir i : inode_no msb i → a_type (made fs i) = T_DIR → i = ROOTINO.
Proof.
  intros [Hi _] Ht. destruct (decide (i = ROOTINO)) as [|Hne]; [done|]. unfold ROOTINO in *.
  destruct (decide (2 + Z.of_nat (length fs) ≤ i)); [by rewrite made_free in Ht|].
  destruct (lookup_lt_is_Some_2 fs (Z.to_nat (i - 2))) as [f Hf]; [lia|]. apply made_file in Hf.
  replace (2 + Z.of_nat (Z.to_nat (i - 2))) with i in Hf by lia. by rewrite Hf in Ht.
Qed.

Lemma named_live name j : named fs name j → inode_no msb j ∧ a_type (made fs j) ≠ 0 ∧ a_nlink (made fs j) ≠ 0.
Proof.
  intros [[-> _]|(k & f & Hk & _ & ->)]; [by rewrite made_root|]. rewrite (made_file k f Hk). by split; [apply (file_entry k f)|].
Qed.

Lemma made_tree : tree_ok msb (made fs).
Proof.
  intros i Hi Ht. apply made_dir in Ht as ->; [|done]. rewrite made_root. cbn [a_data]. split.
  - rewrite pad_eq. unfold root_data, zero_entries. rewrite concat_zero, length_app, length_replicate, concat_app, length_app, length_entries.
    change (length (concat dots)) with 32%nat. set (z := (32 - _)%nat).
    replace (Z.of_nat _) with ((2 + Z.of_nat (length fs) + Z.of_nat z) * DIRENT) by (unfold DIRENT; lia). by apply Z.mod_mul.
  - intros name j Hj. apply root_lookup in Hj. by eapply named_live.
Qed.

End Root.

(** ** Booting from the image *)

(** The memory of the file system when the kernel starts: the superblock and the
    inode cache are zero. *)
Definition empty_cache : list inode := replicate NINODE (Inode 0 0 0 false false zero_dinode).
Definition boot (m : mst) : fss := Fss (img m) [] (Superblock 0 0 0 0 0 0 0) empty_cache.
(** After [iinit]. *)
Definition booted (m : mst) : fss := Fss (img m) [] msb empty_cache.

(** The file system that the kernel finds on the image. *)
Record built (fs : list host) (m : mst) (s : fss) (V : Z → dinode) : Prop := Built {
  bu_boot : iinit (boot m) = Ok tt s;
  bu_inv : inv none none nmeta s V;
  bu_tree : tree_ok (sb s) (files s V);
  bu_lookup : ∀ name j, lookup1 (files s V) ROOTINO name = Some j ↔ named fs name j;
  bu_paths : ∀ k f, fs !! k = Some f →
    walk (files s V) ROOTINO (names (SLASH :: Mkfs.skip_underscore f.1)) = Some (2 + Z.of_nat k);
  bu_files : ∀ k f, fs !! k = Some f → files s V (2 + Z.of_nat k) = AFile T_FILE 0 0 1 f.2;
  bu_free : ∀ i, inode_no (sb s) i → 2 + Z.of_nat (length fs) ≤ i → a_type (files s V i) = 0;
}.

Lemma fields_no_slash p : ∀ cur, SLASH ∉ p → fields p cur = flush (cur ++ p).
Proof.
  induction p as [|c p IH]; intros cur Hp; cbn [fields]; [by rewrite app_nil_r|].
  rewrite elem_of_cons in Hp. rewrite bool_decide_eq_false_2 by naive_solver.
  rewrite IH by naive_solver. by rewrite <- app_assoc.
Qed.

Lemma names_single p : SLASH ∉ p → p ≠ [] → names (SLASH :: p) = [take DIRSIZ p].
Proof.
  intros Hs Hp. unfold names. cbn [fields]. rewrite bool_decide_eq_true_2 by done. cbn [flush app].
  rewrite fields_no_slash by done. by destruct p.
Qed.

Lemma skip_underscore_slash name : SLASH ∉ name → SLASH ∉ Mkfs.skip_underscore name.
Proof. destruct name as [|c l]; [done|]. cbn. case_bool_decide; [rewrite elem_of_cons; tauto|done]. Qed.

Lemma tree_ok_ext x A A' : tree_ok x A → (∀ i, inode_no x i → A i = A' i) → tree_ok x A'.
Proof.
  intros H E i Hi Ht. rewrite <- E in Ht |- * by done. destruct (H i Hi Ht) as [Hm Hl]. split; [done|].
  intros name j Hj. destruct (Hl name j Hj) as (Hn & ?). by rewrite <- E.
Qed.

Lemma boot_inv m m' V : inv none none nmeta (vfs m) V → img m' = vblk m →
  iinit (boot m') = Ok tt (booted m') ∧ inv none none nmeta (booted m') V.
Proof.
  intros [Hd Hs _] E. assert (Hsb : sb_of (img m' 1) = msb) by (rewrite E; apply Hd). split.
  - unfold booted. rewrite <- Hsb. reflexivity.
  - unfold booted. rewrite E. split; [done|done|]. cbn [sb icache].
    assert (H0 : ∀ ip e, empty_cache !! ip = Some e → iref e = 0).
    { intros ip e He. by apply lookup_replicate in He as [-> _]. }
    split; [intros ip e He|intros ip e He Hr|intros ip jp e e' He He' Hr]; apply H0 in He; lia.
Qed.

(** C9: For at most 198 files that fit their inodes, with names that differ from one
    another and from [.] and [..], and whose number is not 30 modulo 32, [mkfs] ends
    with an image from which the kernel boots a consistent file system: the root
    directory has exactly the entries of the files, without a leading underscore and
    cut to 14 bytes, a path with the name of a file leads to its inode, that has the
    contents of the file, and the other inodes are free; the only other outcome is
    then that the files need more blocks than there are.  With a number of files that
    is 30 modulo 32 the entries fill the last block of the directory, and its size is
    rounded past that block: see [mkfs_rounds_past_end]. *)
Theorem mkfs_builds fs :
  Forall file_ok fs → NoDup ([46] :: [46; 46] :: (entry_name <$> fs)) →
  Z.of_nat (length fs) + 2 ≤ Mkfs.NINODES → (length fs mod 32 ≠ 30)%nat →
  wpm (Mkfs.mkfs (args fs)) (λ _ m, ∃ s V, built fs m s V) Mkfs.start.
Proof.
  intros Hok Hdist Hmax Hmod. eapply wpm_mono; [by apply mkfs_image|].
  intros _ m' (m & (V & [_ Hv _] & HA) & E). destruct (boot_inv m m' V Hv E) as [Hb Hinv].
  exists (booted m'), V. assert (HF : ∀ i, inode_no msb i → files (booted m') V i = made fs i).
  { intros i Hi. unfold files. cbn [booted blk]. rewrite E. by apply HA. }
  assert (Hl : ∀ name, lookup1 (files (booted m') V) ROOTINO name = dir_lookup (root_data fs ++ pad (root_data fs)) name).
  { intros name. unfold lookup1. by rewrite HF, made_root by done. }
  split; [exact Hb|exact Hinv|..]; cbn [booted sb].
  - eapply tree_ok_ext; [by apply made_tree|]. intros i Hi. by rewrite HF.
  - intros name j. rewrite Hl. by apply root_lookup.
  - intros k f Hk. destruct (proj1 (Forall_lookup _ _) Hok k f Hk) as [Hs Hn Hne _ _].
    rewrite names_single by (done || by apply skip_underscore_slash). cbn [walk]. rewrite Hl.
    rewrite (proj2 (root_lookup fs Hok Hmax Hdist _ (2 + Z.of_nat k))); [done|]. right. exists k, f. split_and!; [done| |done].
    rewrite dname_nonzero by by apply Forall_take, skip_underscore_Forall. by rewrite take_take, Nat.min_id.
  - intros k f Hk. rewrite HF by by apply (file_entry fs Hok Hmax k f Hk). by apply made_file.
  - intros i Hi Hge. by rewrite HF, made_free.
Qed.

(** Two files, "_cat" and "README". *)
Definition two_files : list host := [([95; 99; 97; 116], replicate 600 7); ([82; 69; 65; 68; 77; 69], [104; 105])].

Lemma two_files_ok : Forall file_ok two_files.
Proof.
  repeat (apply Forall_cons; split); [| |by apply Forall_nil];
    (split; apply (bool_decide_unpack _); vm_compute; exact I).
Qed.

(** An outcome that is [Ok]. *)
Definition returned {A} (o : outcome mst A) : bool := match o with Ok _ _ => true | _ => false end.

Lemma returned_Ok (o : outcome mst unit) : returned o = true → ∃ m, o = Ok tt m.
Proof. destruct o as [[] m| | |]; try discriminate. by exists m. Qed.

Lemma two_files_run : ∃ m, Mkfs.mkfs (args two_files) Mkfs.start = Ok tt m.
Proof. apply returned_Ok. vm_compute. reflexivity. Qed.

Lemma wpm_Ok {A} (m : M mst A) (Q : A → mst → Prop) s a s' : wpm m Q s → m s = Ok a s' → Q a s'.
Proof. unfold wpm. intros H E. by rewrite E in H. Qed.

Lemma two_files_distinct : NoDup ([46] :: [46; 46] :: (entry_name <$> two_files)).
Proof. apply (bool_decide_unpack _). vm_compute. exact I. Qed.

Lemma two_files_few : Z.of_nat (length two_files) + 2 ≤ Mkfs.NINODES ∧ (length two_files mod 32 ≠ 30)%nat.
Proof. split; discriminate. Qed.

Lemma mkfs_builds_witness :
  ∃ m s V, Mkfs.mkfs (args two_files) Mkfs.start = Ok tt m ∧ built two_files m s V ∧
    walk (files s V) ROOTINO (names [47; 99; 97; 116]) = Some 2.
Proof.
  destruct two_files_run as [m E].
  destruct (wpm_Ok _ _ _ _ _ (mkfs_builds two_files two_files_ok two_files_distinct (proj1 two_files_few) (proj2 two_files_few)) E) as (s & V & Hb).
  exists m, s, V. split; [exact E|]. split; [exact Hb|]. exact (bu_paths _ _ _ _ Hb 0 _ eq_refl).
Defined.

(** ** A full directory block *)

(** Thirty empty files. *)
Definition thirty_files : list host := (λ k, ([65 + Z.of_nat k], [])) <$> seq 0 30.

(** The size of the root inode and its second block. *)
Definition root_hole (m : mst) : bool :=
  let x := sb_of (img m 1) in
  let root := disk_inode x (img m) ROOTINO in
  bool_decide (inode_no x ROOTINO ∧ size root = 1024 ∧ ptr (img m) root (fidx 1) = 0).

Lemma thirty_files_run : ∃ m, Mkfs.mkfs (args thirty_files) Mkfs.start = Ok tt m ∧ root_hole m = true.
Proof.
  assert (H : match Mkfs.mkfs (args thirty_files) Mkfs.start with Ok _ m => root_hole m | _ => false end = true)
    by (vm_compute; reflexivity).
  destruct (Mkfs.mkfs (args thirty_files) Mkfs.start) as [[] m| | |]; [|discriminate..]. by exists m.
Qed.

(** With thirty files the entries of the root directory fill its block, and
    the rounding of its size adds a block that the directory does not have: the
    image boots no consistent file system. *)
Theorem mkfs_rounds_past_end :
  ∃ m, Mkfs.mkfs (args thirty_files) Mkfs.start = Ok tt m ∧
    ∀ s V, iinit (boot m) = Ok tt s → ¬ inv none none nmeta s V.
Proof.
  destruct thirty_files_run as (m & Em & H). exists m. split; [exact Em|]. intros s V E Hv. apply bool_decide_eq_true in H as (Hi & Hs & Hp).
  assert (Es : s = Fss (img m) [] (sb_of (img m 1)) empty_cache) by (by injection E as <-). subst s.
  pose proof (inv_synced _ _ _ _ _ Hv ROOTINO Hi ltac:(by intros [])) as Hr. cbn [sb blk] in Hr. rewrite Hr in Hs, Hp.
  apply (dok_holes _ _ (dv_ok _ _ _ _ _ (inv_disk _ _ _ _ _ Hv) ROOTINO Hi) 1%nat); [rewrite Hs; done|done].
Qed.

End MkfsThm.
