(* ===== verification/Umalloc.v ===== *)
(** * The user memory allocator

    [src/umalloc.c]: blocks of headers of eight bytes, a circular list of free
    blocks in the order of their addresses through the header [base], and [sbrk]
    for more memory.  The memory is a function from the addresses of words; a
    header at [p] has its pointer at [p] and its size at [p + 4]. *)

From S2P Require Import Prelude Spinlock Kalloc.

Module Umalloc.

(** [sizeof(Header)] *)
Definition HDR : Z := 8.

Record mst : Type := Mst { mem : Z → Z; freep : Z; brk : Z }.

Definition set_mem (f : Z → Z) (s : mst) : mst := Mst f (freep s) (brk s).
Definition set_freep (p : Z) (s : mst) : mst := Mst (mem s) p (brk s).
Definition set_brk (b : Z) (s : mst) : mst := Mst (mem s) (freep s) b.

Section Allocator.

(** The address of the static [base], and whether the kernel has the pages for a
    process of a given size. *)
Context (base : Z) (enough : Z → bool).

(** The words the process can reach: those of its pages.  Any other access is a
    page fault, for which [trap] kills the process. *)
Definition mapped (a : Z) (s : mst) : bool :=
  bool_decide (0 ≤ a ∧ a + 4 ≤ PGROUNDUP (brk s)).
Definition load (a : Z) : M mst Z :=
  s ← get; if mapped a s then mret (mem s a) else undefined "page fault".
Definition store (a v : Z) : M mst unit :=
  s ← get;
  if mapped a s then modify (set_mem (<[a := v]> (mem s))) else undefined "page fault".

(** [p->s.ptr] and [p->s.size] *)
Definition s_ptr (p : Z) : M mst Z := load p.
Definition s_size (p : Z) : M mst Z := load (p + 4).
Definition set_ptr (p v : Z) : M mst unit := store p v.
Definition set_size (p v : Z) : M mst unit := store (p + 4) v.

(** [p + n] of a header pointer. *)
Definition hplus (p n : Z) : Z := u32 (p + n * HDR).

(** [sys_sbrk] and [growproc], with [allocuvm] and [deallocuvm] for the sizes. *)
Definition sbrk (n : Z) : M mst Z :=
  s ← get;
  let n := s32 n in
  let sz := u32 (brk s + n) in
  if bool_decide (0 < n) then
    if bool_decide (KERNBASE ≤ sz) then mret (-1)
    else if bool_decide (sz < brk s) then mret (brk s)
    else if enough sz then modify (set_brk sz) ;; mret (brk s) else mret (-1)
  else if bool_decide (n < 0) then
    if bool_decide (brk s ≤ sz) then mret (brk s)
    else if bool_decide (sz = 0) then mret (-1)
    else modify (set_brk sz) ;; mret (brk s)
  else mret (brk s).

(** The loop of [free]: the free block before [bp]. *)
Fixpoint free_find (fuel : nat) (bp p : Z) : M mst Z :=
  match fuel with
  | O => spin
  | S fuel =>
      ptr ← s_ptr p;
      if bool_decide (p < bp) && bool_decide (bp < ptr) then mret p else
      if bool_decide (ptr ≤ p) && (bool_decide (p < bp) || bool_decide (bp < ptr)) then mret p
      else free_find fuel bp ptr
  end.

(** Join the block with the free block after it. *)
Definition join_upper (bp p : Z) : M mst unit :=
  ptr ← s_ptr p;
  bsize ← s_size bp;
  if bool_decide (hplus bp bsize = ptr) then
    nsize ← s_size ptr;
    set_size bp (u32 (bsize + nsize)) ;;
    nptr ← s_ptr ptr;
    set_ptr bp nptr
  else set_ptr bp ptr.

(** Join the block with the free block before it. *)
Definition join_lower (bp p : Z) : M mst unit :=
  psize ← s_size p;
  if bool_decide (hplus p psize = bp) then
    bsize ← s_size bp;
    set_size p (u32 (psize + bsize)) ;;
    bptr ← s_ptr bp;
    set_ptr p bptr
  else set_ptr p bp.

Definition free (fuel : nat) (ap : Z) : M mst unit :=
  let bp := u32 (ap - HDR) in
  p0 ← gets freep;
  p ← free_find fuel bp p0;
  join_upper bp p ;;
  join_lower bp p ;;
  modify (set_freep p).

Definition morecore (fuel : nat) (nu : Z) : M mst Z :=
  let nu := if bool_decide (nu < 4096) then 4096 else nu in
  p ← sbrk (u32 (nu * HDR));
  if bool_decide (p = -1) then mret 0 else
  set_size p nu ;;
  free fuel (hplus p 1) ;;
  gets freep.

Fixpoint malloc_loop (fuel : nat) (nunits prevp p : Z) : M mst Z :=
  match fuel with
  | O => spin
  | S fuel =>
      size ← s_size p;
      if bool_decide (nunits ≤ size) then
        r ← (if bool_decide (size = nunits) then
               ptr ← s_ptr p; set_ptr prevp ptr ;; mret p
             else
               set_size p (size - nunits) ;;
               let q := hplus p (size - nunits) in
               set_size q nunits ;; mret q);
        modify (set_freep prevp) ;;
        mret (hplus r 1)
      else
        f ← gets freep;
        q ← (if bool_decide (p = f) then morecore fuel nunits else mret p);
        if bool_decide (q = 0) then mret 0 else
        next ← s_ptr q;
        malloc_loop fuel nunits q next
  end.

(** [(nbytes + sizeof(Header) - 1)/sizeof(Header) + 1] *)
Definition nunits_of (nbytes : Z) : Z := u32 (nbytes + HDR - 1) / HDR + 1.

Definition malloc (fuel : nat) (nbytes : Z) : M mst Z :=
  let nunits := nunits_of nbytes in
  f ← gets freep;
  prevp ← (if bool_decide (f = 0) then
             set_ptr base base ;; modify (set_freep base) ;; set_size base 0 ;; mret base
           else mret f);
  p ← s_ptr prevp;
  malloc_loop fuel nunits prevp p.

End Allocator.

(** ** Blocks

    The blocks the heap is cut into, by the address of their header, with their
    size in headers and whether they are free. *)

Inductive status := Free | Live.

#[global] Instance status_eq_dec : EqDecision status.
Proof. solve_decision. Defined.

Abbreviation blocks := (gmap Z (status * Z)).

(** The blocks cover the memory from [lo] to [hi] without overlapping. *)
Record tiles (B : blocks) (lo hi : Z) : Prop := Tiles {
  tl_in a t n : B !! a = Some (t, n) → 0 < n ∧ lo ≤ a ∧ a + n * HDR ≤ hi ∧ (HDR | a - lo);
  tl_cover x : lo ≤ x < hi → ∃ a t n, B !! a = Some (t, n) ∧ a ≤ x < a + n * HDR;
  tl_apart a t n b t' m :
    B !! a = Some (t, n) → B !! b = Some (t', m) → a < b → a + n * HDR ≤ b;
}.

(** The size of a block under one status. *)
Definition live (B : blocks) (a n : Z) : Prop := B !! a = Some (Live, n).

Lemma tiles_retag B lo hi a t t' n :
  tiles B lo hi → B !! a = Some (t, n) → tiles (<[a := (t', n)]> B) lo hi.
Proof.
  intros [Hin Hc Hd] Ha. split.
  - intros b u m [(<- & [= <- <-])|(? & ?)]%lookup_insert_Some; eauto.
  - intros x Hx. destruct (Hc x Hx) as (b & u & m & Hb & Hr).
    destruct (decide (a = b)) as [<-|Hne].
    + exists a, t', m. rewrite lookup_insert_eq. simplify_eq. done.
    + exists b, u, m. by rewrite lookup_insert_ne.
  - intros b u m c u' m' Hb Hc'.
    apply lookup_insert_Some in Hb as [(<- & [= <- <-])|(? & ?)];
    apply lookup_insert_Some in Hc' as [(<- & [= <- <-])|(? & ?)]; [lia|eauto..].
Qed.

(** Two neighbours become one block. *)
Lemma tiles_merge B lo hi a t n t' m u :
  tiles B lo hi → B !! a = Some (t, n) → B !! (a + n * HDR) = Some (t', m) →
  tiles (<[a := (u, n + m)]> (delete (a + n * HDR) B)) lo hi.
Proof.
  intros [Hin Hc Hd] Ha Hb.
  pose proof (Hin _ _ _ Ha) as (? & ? & ? & ?). pose proof (Hin _ _ _ Hb) as (? & ? & ? & ?).
  split; unfold HDR in *.
  - intros c v k [(<- & [= <- <-])|(? & [? ?]%lookup_delete_Some)]%lookup_insert_Some; [|eauto].
    split_and!; try lia; done.
  - intros x Hx. destruct (Hc x Hx) as (c & v & k & Hk & Hr).
    destruct (decide (c = a)) as [->|Hna].
    { exists a, u, (n + m). rewrite lookup_insert_eq. simplify_eq. split; [done|lia]. }
    destruct (decide (c = a + n * 8)) as [->|Hnb].
    { exists a, u, (n + m). rewrite lookup_insert_eq. simplify_eq. split; [done|lia]. }
    exists c, v, k. by rewrite lookup_insert_ne, lookup_delete_ne by done.
  - intros c v k d v' k' Hk Hk' Hlt.
    apply lookup_insert_Some in Hk as [(<- & [= <- <-])|(Hca & [Hcb Hk]%lookup_delete_Some)];
    apply lookup_insert_Some in Hk' as [(<- & [= <- <-])|(Hda & [Hdb Hk']%lookup_delete_Some)].
    + lia.
    + pose proof (Hd _ _ _ _ _ _ Ha Hk' Hlt).
      destruct (decide (a + n * 8 < d)); [|lia]. pose proof (Hd _ _ _ _ _ _ Hb Hk'). lia.
    + eauto.
    + eauto.
Qed.

(** The end of a block becomes a block. *)
Lemma tiles_split B lo hi a t n k u v :
  tiles B lo hi → B !! a = Some (t, n) → 0 < k < n →
  tiles (<[a + (n - k) * HDR := (v, k)]> (<[a := (u, n - k)]> B)) lo hi.
Proof.
  intros [Hin Hc Hd] Ha Hk. pose proof (Hin _ _ _ Ha) as (? & ? & ? & Hdiv).
  split; unfold HDR in *.
  - intros c w j [(<- & [= <- <-])|(? & Hj)]%lookup_insert_Some.
    { split_and!; try lia. destruct Hdiv as [q ?]. exists (q + (n - k)). lia. }
    apply lookup_insert_Some in Hj as [(<- & [= <- <-])|(? & ?)]; [split_and!; try lia; done|eauto].
  - intros x Hx. destruct (Hc x Hx) as (c & w & j & Hj & Hr).
    destruct (decide (c = a)) as [->|Hna].
    + simplify_eq. destruct (decide (x < a + (n - k) * 8)).
      * exists a, u, (n - k). rewrite lookup_insert_ne, lookup_insert_eq by lia. split; [done|lia].
      * eexists _, v, k. rewrite lookup_insert_eq. split; [done|lia].
    + exists c, w, j. split; [|done].
      rewrite !lookup_insert_ne; [done|lia|].
      intros <-. pose proof (Hd _ _ _ _ _ _ Ha Hj). lia.
  - intros c w j d w' j' Hj Hj' Hlt.
    apply lookup_insert_Some in Hj as [(<- & [= <- <-])|(Hc1 & [(<- & [= <- <-])|(Hc2 & Hj)]%lookup_insert_Some)];
    apply lookup_insert_Some in Hj' as [(<- & [= <- <-])|(Hd1 & [(<- & [= <- <-])|(Hd2 & Hj')]%lookup_insert_Some)];
    try lia; repeat match goal with
    | H : B !! ?x = _, H' : B !! ?y = _ |- _ =>
        assert_fails (constr_eq x y);
        lazymatch goal with
        | _ : x < y → x + _ ≤ y |- _ => fail
        | _ => pose proof (Hd _ _ _ _ _ _ H H')
        end
    end; try lia.
Qed.

(** A block at the end of the heap. *)
Lemma tiles_extend B lo hi n t :
  tiles B lo hi → 0 < n → lo ≤ hi → (HDR | hi - lo) → tiles (<[hi := (t, n)]> B) lo (hi + n * HDR).
Proof.
  intros [Hin Hc Hd] Hn Hle Hdiv. split; unfold HDR in *.
  - intros a u m [(<- & [= <- <-])|(? & Hm)]%lookup_insert_Some; [split_and!; try lia; done|].
    pose proof (Hin _ _ _ Hm) as (? & ? & ? & ?). split_and!; try lia; done.
  - intros x Hx. destruct (decide (x < hi)).
    + destruct (Hc x) as (a & u & m & Ha & Hr); [lia|]. exists a, u, m.
      pose proof (Hin _ _ _ Ha). rewrite lookup_insert_ne by lia. done.
    + exists hi, t, n. rewrite lookup_insert_eq. split; [done|lia].
  - intros a u m b u' m' Ha Hb Hlt.
    apply lookup_insert_Some in Ha as [(<- & [= <- <-])|(? & Ha)];
    apply lookup_insert_Some in Hb as [(<- & [= <- <-])|(? & Hb)]; [lia| | |eauto].
    + pose proof (Hin _ _ _ Hb). lia.
    + pose proof (Hin _ _ _ Ha). lia.
Qed.

(** A word of a block is not in the header of another. *)
Lemma tiles_off B lo hi a t n b u m x :
  tiles B lo hi → B !! a = Some (t, n) → B !! b = Some (u, m) → a ≠ b → a ≤ x < a + n * HDR →
  x ≠ b ∧ x ≠ b + 4.
Proof.
  intros HT Ha Hb Hne Hx. destruct (tl_in _ _ _ HT _ _ _ Hb) as (? & _).
  pose proof (tl_apart _ _ _ HT _ _ _ _ _ _ Ha Hb).
  pose proof (tl_apart _ _ _ HT _ _ _ _ _ _ Hb Ha). unfold HDR in *. lia.
Qed.

Lemma exists_last_or {A} (l : list A) : l = [] ∨ ∃ l' x, l = l' ++ [x].
Proof. destruct l as [|y l]; [by left|]. destruct (exists_last (l := y :: l)) as (l' & x & ->); eauto. Qed.

Lemma list_cases {A} (l : list A) : l = [] ∨ ∃ x l', l = x :: l'.
Proof. destruct l; eauto. Qed.

(** ** The free list *)

(** The headers of [l] in memory, each pointing to the next and the last to [e]. *)
Fixpoint seg (f : Z → Z) (l : list (Z * Z)) (e : Z) : Prop :=
  match l with
  | [] => True
  | (a, n) :: l' => f a = hd e l'.*1 ∧ f (a + 4) = n ∧ seg f l' e
  end.

(** Blocks in the order of their addresses after [e], no two of them adjacent. *)
Fixpoint asc (e : Z) (l : list (Z * Z)) : Prop :=
  match l with
  | [] => True
  | (a, n) :: l' => e < a ∧ 0 < n ∧ asc (a + n * HDR) l'
  end.

(** The end of the last block. *)
Fixpoint fin (e : Z) (l : list (Z * Z)) : Z :=
  match l with [] => e | (a, n) :: l' => fin (a + n * HDR) l' end.

Lemma seg_app f l1 l2 e : seg f (l1 ++ l2) e ↔ seg f l1 (hd e l2.*1) ∧ seg f l2 e.
Proof.
  induction l1 as [|[a n] l1 IH]; simpl; [tauto|]. rewrite IH.
  destruct l1; simpl; tauto.
Qed.

Lemma seg_ext f g l e :
  (∀ a n, (a, n) ∈ l → g a = f a ∧ g (a + 4) = f (a + 4)) → seg f l e → seg g l e.
Proof.
  induction l as [|[a n] l IH]; simpl; [done|]. intros Hg (H1 & H2 & H3).
  destruct (Hg a n) as [-> ->]; [left|]. split_and!; [done..|].
  apply IH; [|done]. intros b m Hb. apply (Hg b m). by right.
Qed.

Lemma seg_lookup f l e i a n :
  seg f l e → l !! i = Some (a, n) → f a = hd e (drop (S i) l).*1 ∧ f (a + 4) = n.
Proof.
  revert i. induction l as [|[b m] l IH]; intros [|i]; simpl; [done..| |].
  - intros (H1 & H2 & _) [= <- <-]. by rewrite drop_0.
  - intros (_ & _ & H3) Hi. by apply IH.
Qed.

Lemma asc_app e l1 l2 : asc e (l1 ++ l2) ↔ asc e l1 ∧ asc (fin e l1) l2.
Proof. revert e. induction l1 as [|[a n] l1 IH]; intros e; simpl; [tauto|]. rewrite IH. tauto. Qed.

Lemma fin_app e l1 l2 : fin e (l1 ++ l2) = fin (fin e l1) l2.
Proof. revert e. induction l1 as [|[a n] l1 IH]; intros e; simpl; [done|]. apply IH. Qed.

Lemma asc_weaken e e' l : e' ≤ e → asc e l → asc e' l.
Proof. destruct l as [|[a n] l]; simpl; [done|]. intros ? (? & ? & ?). split_and!; [lia|done..]. Qed.

Lemma asc_fin e l : asc e l → e ≤ fin e l.
Proof.
  revert e. induction l as [|[a n] l IH]; intros e; simpl; [lia|].
  intros (? & ? & ?%IH). unfold HDR in *. lia.
Qed.

Lemma asc_elem e l a n : asc e l → (a, n) ∈ l → e < a ∧ 0 < n ∧ a + n * HDR ≤ fin e l.
Proof.
  revert e. induction l as [|[b m] l IH]; intros e; simpl; [by intros _ ?%not_elem_of_nil|].
  intros (H1 & H2 & H3) [[= -> ->]|Hin]%elem_of_cons.
  - pose proof (asc_fin _ _ H3). lia.
  - destruct (IH _ H3 Hin) as (? & ? & ?). unfold HDR in *. lia.
Qed.

Lemma asc_after e x b l :
  asc e l → (∀ a n, (a, n) ∈ l → x ≤ a) → x ≠ hd b l.*1 → asc x l.
Proof.
  destruct l as [|[a n] l]; simpl; [done|]. intros (? & ? & ?) Hx Hne. split_and!; [|done..].
  pose proof (Hx a n ltac:(left)). lia.
Qed.

Lemma asc_other e l1 c m l2 a k : asc e (l1 ++ (c, m) :: l2) → (a, k) ∈ l1 ++ l2 → a ≠ c.
Proof.
  intros (Hl1 & Hc & Hm & Hl2)%asc_app [Ha|Ha]%elem_of_app.
  - destruct (asc_elem _ _ _ _ Hl1 Ha) as (? & ? & ?). unfold HDR in *. lia.
  - destruct (asc_elem _ _ _ _ Hl2 Ha) as (? & ? & ?). unfold HDR in *. lia.
Qed.

(** A block off the blocks of an ordered list has a place in it. *)
Lemma asc_place e l x n :
  asc e l → 0 < n → (∀ a m, (a, m) ∈ l → a + m * HDR ≤ x ∨ x + n * HDR ≤ a) →
  ∃ l1 l2, l = l1 ++ l2 ∧ (∀ a m, (a, m) ∈ l1 → a + m * HDR ≤ x) ∧
    (∀ a m, (a, m) ∈ l2 → x + n * HDR ≤ a).
Proof.
  intros Hasc Hn. revert e Hasc. induction l as [|[a m] l IH]; intros e; simpl.
  { intros _ _. exists [], []. split_and!; [done|by intros ?? ?%not_elem_of_nil..]. }
  intros (H1 & H2 & H3) Hoff. destruct (Hoff a m) as [Hl|Hr]; [left| |].
  - destruct (IH _ H3) as (l1 & l2 & -> & Hl1 & Hl2).
    { intros b k Hb. apply Hoff. by right. }
    exists ((a, m) :: l1), l2. split_and!; [done| |done].
    intros b k [[= -> ->]|Hb]%elem_of_cons; eauto.
  - exists [], ((a, m) :: l). split_and!; [done|by intros ?? ?%not_elem_of_nil|].
    intros b k [[= -> ->]|Hb]%elem_of_cons; [done|].
    destruct (asc_elem _ _ _ _ H3 Hb). unfold HDR in *. lia.
Qed.

Lemma asc_order e l i j a m b k :
  asc e l → l !! i = Some (a, m) → l !! j = Some (b, k) → (i < j)%nat → a + m * HDR < b.
Proof.
  revert e i j. induction l as [|[c w] l IH]; intros e [|i] [|j] Hasc Hi Hj Hlt;
    simpl in *; try done; try lia; destruct Hasc as (? & ? & Hl).
  - simplify_eq. apply (asc_elem _ l b k Hl). by eapply list_elem_of_lookup_2.
  - eapply (IH _ i j); [done..|lia].
Qed.

Lemma asc_length e l : asc e l → e + Z.of_nat (length l) * HDR ≤ fin e l.
Proof.
  revert e. induction l as [|[a n] l IH]; intros e; simpl; [lia|].
  intros (? & ? & ?%IH). unfold HDR in *. lia.
Qed.

Lemma mod_step N i d :
  (i < N)%nat → (1 ≤ d ≤ N)%nat → (S i mod N = (i + d) mod N)%nat → d = 1%nat.
Proof.
  assert (∀ x, (N ≤ x < N + N)%nat → (x mod N = x - N)%nat) as Hwrap.
  { intros x Hx. symmetry. apply (Nat.mod_unique _ _ 1); lia. }
  intros Hi Hd. destruct (decide (S i < N)%nat), (decide (i + d < N)%nat);
    rewrite ?(Nat.mod_small (S i)), ?(Nat.mod_small (i + d)), ?(Hwrap (S i)), ?(Hwrap (i + d)%nat) by lia; lia.
Qed.

Section Heap.

Context (base : Z) (enough : Z → bool) (lo : Z).
Hypothesis Hbase : 0 < base ∧ base + HDR ≤ lo.

Definition nodes (L : list (Z * Z)) : list (Z * Z) := (base, 0) :: L.

(** The state of the allocator: [B] are the blocks, [L] the free ones in the
    order of the list. *)
Record heap (L : list (Z * Z)) (B : blocks) (s : mst) : Prop := Heap {
  h_tiles : tiles B lo (brk s);
  h_brk : lo ≤ brk s < KERNBASE ∧ (HDR | brk s - lo);
  h_free a n : (a, n) ∈ L ↔ B !! a = Some (Free, n);
  h_asc : asc base L;
  h_ring : seg (mem s) (nodes L) base;
  h_live a n : B !! a = Some (Live, n) → mem s (a + 4) = n;
  h_freep : freep s ∈ (nodes L).*1;
}.

Lemma mapped_under a s : 0 ≤ a → a + 4 ≤ brk s < KERNBASE → mapped a s = true.
Proof.
  intros H0 [H1 H2]. unfold mapped. destruct (PGROUNDUP_spec (brk s)) as (_ & ? & _).
  { lia. } { unfold PGSIZE, KERNBASE in *. lia. }
  rewrite bool_decide_eq_true_2 by lia. done.
Qed.

Lemma load_ok a s : 0 ≤ a → a + 4 ≤ brk s < KERNBASE → load a s = Ok (mem s a) s.
Proof. intros H0 H1. unfold load, mbind, M_bind, get. simpl. by rewrite mapped_under. Qed.

Lemma wpt_load a (Q : Z → mst → Prop) s :
  0 ≤ a → a + 4 ≤ brk s < KERNBASE → Q (mem s a) s → wpt (load a) Q s.
Proof.
  intros H0 H1 HQ. eapply wpt_eq; [by apply load_ok|done].
Qed.

Lemma store_mapped a v s :
  0 ≤ a → a + 4 ≤ brk s < KERNBASE → store a v s = Ok tt (set_mem (<[a := v]> (mem s)) s).
Proof.
  intros H0 H1. unfold store, mbind, M_bind, get. simpl. by rewrite mapped_under.
Qed.

Lemma wpt_store a v (Q : unit → mst → Prop) s :
  0 ≤ a → a + 4 ≤ brk s < KERNBASE → Q tt (set_mem (<[a := v]> (mem s)) s) → wpt (store a v) Q s.
Proof.
  intros H0 H1 HQ. eapply wpt_eq; [by apply store_mapped|done].
Qed.

Lemma hplus_small p n s : 0 ≤ p → 0 ≤ n → p + n * HDR ≤ brk s < KERNBASE → hplus p n = p + n * HDR.
Proof. intros. unfold hplus, HDR, KERNBASE in *. apply u32_small. lia. Qed.

(** Where the headers of the list lie. *)
Lemma node_in L B s a n :
  heap L B s → (a, n) ∈ nodes L →
  0 < a ∧ 0 ≤ n ∧ a + HDR ≤ brk s ∧ a + n * HDR ≤ brk s.
Proof.
  intros HH [[= -> ->]|Ha]%elem_of_cons.
  - destruct (h_brk _ _ _ HH) as [? _]. unfold HDR in *. lia.
  - apply (h_free _ _ _ HH) in Ha. destruct (tl_in _ _ _ (h_tiles _ _ _ HH) _ _ _ Ha) as (? & ? & ? & _).
    unfold HDR in *. lia.
Qed.

Lemma node_ptr L B s i a n :
  heap L B s → nodes L !! i = Some (a, n) →
  mem s a = hd base (drop i L).*1 ∧ mem s (a + 4) = n.
Proof. intros HH Hi. exact (seg_lookup _ (nodes L) _ i _ _ (h_ring _ _ _ HH) Hi). Qed.

Lemma next_cases L i a n :
  nodes L !! i = Some (a, n) →
  (∃ m, nodes L !! S i = Some (hd base (drop i L).*1, m)) ∨
  (S i = length (nodes L) ∧ hd base (drop i L).*1 = base).
Proof.
  intros Hi%lookup_lt_Some. simpl in *. destruct (L !! i) as [[b m]|] eqn:E.
  - left. exists m. by rewrite (drop_S _ _ _ E).
  - right. apply lookup_ge_None in E. rewrite drop_ge by done. split; [lia|done].
Qed.

Lemma node_gap L B s i j a m b k :
  heap L B s → nodes L !! i = Some (a, m) → nodes L !! j = Some (b, k) → (i < j)%nat →
  a + HDR ≤ b.
Proof.
  intros HH Hi Hj Hlt. pose proof (h_asc _ _ _ HH) as Hasc.
  destruct j as [|j]; [lia|]. destruct i as [|i]; simpl in *.
  - simplify_eq. apply list_elem_of_lookup_2, (h_free _ _ _ HH) in Hj.
    destruct (tl_in _ _ _ (h_tiles _ _ _ HH) _ _ _ Hj). lia.
  - pose proof (asc_order _ _ i j _ _ _ _ Hasc Hi Hj ltac:(lia)).
    destruct (asc_elem _ _ a m Hasc) as (_ & ? & _); [by eapply list_elem_of_lookup_2|].
    unfold HDR in *. lia.
Qed.

Lemma node_inj L B s i j a m k :
  heap L B s → nodes L !! i = Some (a, m) → nodes L !! j = Some (a, k) → i = j.
Proof.
  intros HH Hi Hj. destruct (lt_eq_lt_dec i j) as [[Hlt| ->]|Hlt]; [|done|].
  - pose proof (node_gap _ _ _ _ _ _ _ _ _ HH Hi Hj Hlt). unfold HDR in *. lia.
  - pose proof (node_gap _ _ _ _ _ _ _ _ _ HH Hj Hi Hlt). unfold HDR in *. lia.
Qed.

(** *** The search of [free] *)

(** The last header before the place of a block. *)
Definition before (L1 : list (Z * Z)) (p k : Z) : Prop := ∃ N, nodes L1 = N ++ [(p, k)].

Lemma before_exists L1 : ∃ p k, before L1 p k.
Proof.
  unfold before. destruct (exists_last (l := nodes L1)) as (N & [p k] & ->); [done|]. eauto.
Qed.

Lemma before_fin L1 p k : before L1 p k → fin base L1 = p + k * HDR.
Proof.
  intros [N HN]. transitivity (fin base (nodes L1)).
  { simpl. f_equal. lia. }
  rewrite HN, fin_app. done.
Qed.

Lemma before_cases L1 N p k :
  nodes L1 = N ++ [(p, k)] →
  (N = [] ∧ p = base ∧ k = 0 ∧ L1 = []) ∨ ∃ M, N = (base, 0) :: M ∧ L1 = M ++ [(p, k)].
Proof.
  destruct N as [|x M]; simpl; intros [= <- ?]; simplify_eq; [by left|right].
  by exists M.
Qed.

(** *** [free] *)

(** What [free] does to the blocks: one live block less, the other live blocks
    with their words, and a free block of at least its size. *)
Record released (bp n : Z) (L L' : list (Z * Z)) (B B' : blocks) (s s' : mst) : Prop := Released {
  rl_brk : brk s' = brk s;
  rl_live a m : B' !! a = Some (Live, m) ↔ a ≠ bp ∧ B !! a = Some (Live, m);
  rl_words a m x : B !! a = Some (Live, m) → a ≠ bp → a ≤ x < a + m * HDR → mem s' x = mem s x;
  rl_room : (length L' ≤ S (length L))%nat ∧ ∃ a m, (a, m) ∈ L' ∧ n ≤ m;
}.

(** No live block has the word of a header of the list. *)
Lemma live_off L B s a m x b k :
  heap L B s → B !! a = Some (Live, m) → a ≤ x < a + m * HDR → (b, k) ∈ nodes L →
  x ≠ b ∧ x ≠ b + 4.
Proof.
  intros HH Ha Hx Hb. pose proof (h_tiles _ _ _ HH) as HT.
  destruct (tl_in _ _ _ HT _ _ _ Ha) as (? & ? & _).
  apply elem_of_cons in Hb as [[= -> ->]|Hb]; [unfold HDR in *; lia|].
  apply (h_free _ _ _ HH) in Hb. apply (tiles_off _ _ _ _ _ _ _ _ _ x HT Ha Hb); [|done].
  intros ->. congruence.
Qed.

Section Place.

Context (L1 L2 : list (Z * Z)) (B : blocks) (s : mst) (bp n : Z).
Hypothesis HH : heap (L1 ++ L2) B s.
Hypothesis Hn : 0 < n.
Hypothesis Hlo : lo ≤ bp.
Hypothesis H1 : ∀ a m, (a, m) ∈ L1 → a + m * HDR ≤ bp.
Hypothesis H2 : ∀ a m, (a, m) ∈ L2 → bp + n * HDR ≤ a.

Lemma node_below i a m : nodes (L1 ++ L2) !! i = Some (a, m) → (i ≤ length L1)%nat → a < bp.
Proof.
  intros Hi Hle. destruct i as [|i]; simpl in Hi.
  - simplify_eq. unfold HDR in *. lia.
  - rewrite lookup_app_l in Hi by lia. apply list_elem_of_lookup_2 in Hi.
    pose proof (H1 _ _ Hi). destruct (asc_elem base L1 a m); [|done|].
    { apply (asc_app base L1 L2), (h_asc _ _ _ HH). }
    unfold HDR in *. lia.
Qed.

Lemma node_above i a m : nodes (L1 ++ L2) !! i = Some (a, m) → (length L1 < i)%nat → bp < a.
Proof.
  intros Hi Hle. destruct i as [|i]; simpl in Hi; [lia|].
  rewrite lookup_app_r in Hi by lia. apply list_elem_of_lookup_2 in Hi.
  pose proof (H2 _ _ Hi). unfold HDR in *. lia.
Qed.

Lemma free_find_step fuel i a m :
  nodes (L1 ++ L2) !! i = Some (a, m) →
  free_find (S fuel) bp a s =
  if decide (i = length L1) then Ok a s else free_find fuel bp (hd base (drop i (L1 ++ L2)).*1) s.
Proof.
  intros Hi. destruct (node_ptr _ _ _ _ _ _ HH Hi) as [Hp _].
  destruct (node_in _ _ _ a m HH) as (? & ? & ? & ?); [by eapply list_elem_of_lookup_2|].
  simpl. rewrite (bind_step _ _ _ (mem s a) s).
  2: { apply load_ok; [lia|]. apply h_brk in HH. unfold HDR in *. lia. }
  rewrite Hp. set (nx := hd _ _).
  assert (base ≤ a) as Hba.
  { destruct i as [|i]; simpl in Hi; [simplify_eq; lia|].
    pose proof (node_gap _ _ _ 0 (S i) base 0 a m HH eq_refl Hi ltac:(lia)). unfold HDR in *. lia. }
  destruct (next_cases _ _ _ _ Hi) as [[w Hnx]|[Hlast Hnx]]; fold nx in Hnx.
  - pose proof (node_gap _ _ _ i (S i) _ _ _ _ HH Hi Hnx ltac:(lia)). unfold HDR in *.
    rewrite (bool_decide_eq_false_2 (nx ≤ a)) by lia. simpl.
    case_decide as Hc.
    + pose proof (node_below _ _ _ Hi ltac:(lia)). pose proof (node_above _ _ _ Hnx ltac:(lia)).
      by rewrite !bool_decide_eq_true_2 by lia.
    + destruct (decide (i < length L1)%nat).
      * pose proof (node_below _ _ _ Hnx ltac:(lia)).
        by rewrite (bool_decide_eq_false_2 (bp < nx)), andb_false_r by lia.
      * pose proof (node_above _ _ _ Hi ltac:(lia)).
        by rewrite (bool_decide_eq_false_2 (a < bp)) by lia.
  - rewrite Hnx. unfold HDR in *.
    rewrite (bool_decide_eq_false_2 (bp < base)), (bool_decide_eq_true_2 (base ≤ a)) by lia.
    rewrite andb_false_r, orb_false_r. simpl. case_decide as Hc.
    + pose proof (node_below _ _ _ Hi ltac:(lia)). by rewrite bool_decide_eq_true_2 by lia.
    + pose proof (node_above _ _ _ Hi).
      rewrite bool_decide_eq_false_2; [done|]. simpl in Hlast. rewrite length_app in Hlast. lia.
Qed.

Lemma free_find_up d fuel i a m :
  nodes (L1 ++ L2) !! i = Some (a, m) → (i + d = length L1)%nat → (d < fuel)%nat →
  ∃ p k, before L1 p k ∧ free_find fuel bp a s = Ok p s.
Proof.
  revert fuel i a m. induction d as [|d IH]; intros [|fuel] i a m Hi Hd Hf; try lia.
  - rewrite (free_find_step _ _ _ _ Hi), decide_True by lia. exists a, m. split; [|done].
    exists (take i (nodes L1)).
    assert (nodes L1 !! i = Some (a, m)) as Hi1.
    { rewrite <-Hi. symmetry. apply (lookup_app_l (nodes L1) L2). simpl. lia. }
    rewrite <-(take_S_r _ _ _ Hi1). rewrite take_ge; [done|]. simpl. lia.
  - rewrite (free_find_step _ _ _ _ Hi), decide_False by lia.
    destruct (next_cases _ _ _ _ Hi) as [[w Hnx]|[Hlast _]].
    + eapply (IH _ (S i)); [done|lia..].
    + simpl in Hlast. rewrite length_app in Hlast. lia.
Qed.

Lemma free_find_spec fuel a :
  a ∈ (nodes (L1 ++ L2)).*1 → (length (L1 ++ L2) < fuel)%nat →
  ∃ p k, before L1 p k ∧ free_find fuel bp a s = Ok p s.
Proof.
  intros ([? m] & -> & [i Hi]%list_elem_of_lookup_1)%list_elem_of_fmap Hf. simpl.
  rewrite length_app in Hf. destruct (decide (i ≤ length L1)%nat) as [Hle|Hgt].
  { eapply (free_find_up (length L1 - i)); [done|lia..]. }
  assert (∃ d, (i + d = length (L1 ++ L2))%nat) as [d Hd].
  { exists (length (L1 ++ L2) - i)%nat. apply lookup_lt_Some in Hi. simpl in Hi. lia. }
  assert (length L1 + d < Nat.pred fuel)%nat as Hf' by (rewrite length_app in Hd; lia).
  destruct fuel as [|fuel]; [lia|]. simpl in Hf'. clear Hf.
  revert fuel i z Hi Hgt Hd Hf'. revert m.
  induction d as [|d IH]; intros m fuel i a Hi Hgt Hd Hf;
    rewrite (free_find_step _ _ _ _ Hi), decide_False by lia;
    destruct (next_cases _ _ _ _ Hi) as [[w Hnx]|[Hlast ->]];
    [apply lookup_lt_Some in Hnx; simpl in Hnx; lia| | |simpl in Hlast; lia].
  - apply (free_find_up (length L1) _ 0 _ 0); [done|lia..].
  - destruct fuel as [|fuel]; [lia|]. eapply IH; [done|lia..].
Qed.

(** *** The two merges of [free] *)

Hypothesis Hbp : B !! bp = Some (Live, n).

(** The list on the two sides of the block once it has its own header. *)
Record mid (n' : Z) (L2' : list (Z * Z)) (B1 : blocks) (s1 : mst) : Prop := Mid {
  md_tiles : tiles B1 lo (brk s1);
  md_same : brk s1 = brk s ∧ freep s1 = freep s;
  md_size : n ≤ n' ∧ (length L2' ≤ length L2)%nat;
  md_free a m : (a, m) ∈ L1 ++ (bp, n') :: L2' ↔ B1 !! a = Some (Free, m);
  md_asc : asc (bp + n' * HDR) L2';
  md_left : seg (mem s1) (nodes L1) (hd base L2.*1);
  md_right : seg (mem s1) ((bp, n') :: L2') base;
  md_live a m : B1 !! a = Some (Live, m) ↔ a ≠ bp ∧ B !! a = Some (Live, m);
  md_frame x : x ≠ bp → x ≠ bp + 4 → mem s1 x = mem s x;
}.

Lemma seg_mid l e f :
  (∀ a m, (a, m) ∈ l → (a, m) ∈ nodes (L1 ++ L2)) →
  (∀ x, x ≠ bp → x ≠ bp + 4 → f x = mem s x) → seg (mem s) l e → seg f l e.
Proof.
  intros Hl Hf. apply seg_ext. intros a m [i Hi]%Hl%list_elem_of_lookup_1.
  assert (a + HDR ≤ bp ∨ bp + HDR ≤ a) as Hoff.
  { destruct i as [|i]; simpl in Hi.
    - simplify_eq. lia.
    - apply list_elem_of_lookup_2 in Hi.
      destruct (asc_elem _ _ a m (h_asc _ _ _ HH) Hi) as (_ & ? & _).
      apply elem_of_app in Hi as [Hi|Hi]; [pose proof (H1 _ _ Hi)|pose proof (H2 _ _ Hi)];
        unfold HDR in *; lia. }
  unfold HDR in *. rewrite !Hf by lia. done.
Qed.

Lemma mid_alone :
  bp + n * HDR ≠ hd base L2.*1 →
  mid n L2 (<[bp := (Free, n)]> B) (set_mem (<[bp := hd base L2.*1]> (mem s)) s).
Proof.
  intros Hne. pose proof (h_asc _ _ _ HH) as [Hasc1 Hasc2]%asc_app.
  pose proof (h_ring _ _ _ HH) as [Hs1 Hs2]%(seg_app _ (nodes L1) L2 base).
  assert (∀ x, x ≠ bp → x ≠ bp + 4 → <[bp := hd base L2.*1]> (mem s) x = mem s x) as Hfr.
  { intros x ? ?. by rewrite fn_lookup_insert_ne. }
  split; cbn [mem brk freep set_mem]; [|done|lia| | | | | |done].
  - eapply tiles_retag; [apply HH|done].
  - intros a m. rewrite lookup_insert_Some, elem_of_app, elem_of_cons.
    pose proof (h_free _ _ _ HH a m) as Hf. rewrite elem_of_app in Hf.
    destruct (decide (bp = a)) as [<-|Hab].
    + rewrite Hbp in Hf. split; [|naive_solver]. intros [Hi|[[= <-]|Hi]]; [|naive_solver|]; exfalso.
      * assert (Some (Live, n) = Some (Free, m)) by (apply Hf; auto). done.
      * assert (Some (Live, n) = Some (Free, m)) by (apply Hf; auto). done.
    + rewrite <-Hf. naive_solver.
  - by eapply asc_after.
  - apply seg_mid; [|done..]. intros a m Ha. apply (elem_of_app (nodes L1)). by left.
  - simpl. rewrite fn_lookup_insert. split; [done|]. split.
    + rewrite fn_lookup_insert_ne by lia. by apply (h_live _ _ _ HH).
    + apply seg_mid; [|done..]. intros a m Ha. apply (elem_of_app (nodes L1)). by right.
  - intros a m. rewrite lookup_insert_Some. naive_solver.
Qed.

Lemma mid_merge c m L2' :
  L2 = (c, m) :: L2' → bp + n * HDR = c →
  mid (n + m) L2' (<[bp := (Free, n + m)]> (delete c B))
    (set_mem (<[bp := hd base L2'.*1]> (<[bp + 4 := n + m]> (mem s))) s).
Proof.
  intros E Hc. pose proof (h_asc _ _ _ HH) as [Hasc1 Hasc2]%asc_app.
  pose proof (h_ring _ _ _ HH) as [Hs1 Hs2]%(seg_app _ (nodes L1) L2 base).
  assert (B !! c = Some (Free, m)) as HBc.
  { apply (h_free _ _ _ HH), elem_of_app. rewrite E. right. left. }
  assert (∀ a k, (a, k) ∈ L1 ++ L2' → a ≠ c) as Hnc.
  { intros a k. apply (asc_other base L1 c m). rewrite <-E. apply HH. }
  set (f := <[bp := hd base L2'.*1]> _).
  assert (∀ x, x ≠ bp → x ≠ bp + 4 → f x = mem s x) as Hfr.
  { intros x ? ?. unfold f. by rewrite !fn_lookup_insert_ne. }
  rewrite E in Hasc2, Hs2. simpl in Hasc2, Hs2.
  split; cbn [mem brk freep set_mem]; [|done| | | | | | |done].
  - rewrite <-Hc in *. eapply tiles_merge; [apply HH|done..].
  - rewrite E. simpl. lia.
  - intros a k. rewrite lookup_insert_Some, lookup_delete_Some, elem_of_app, elem_of_cons.
    pose proof (h_free _ _ _ HH a k) as Hf. rewrite E, elem_of_app, elem_of_cons in Hf.
    destruct (decide (bp = a)) as [<-|Hab].
    + rewrite Hbp in Hf. split; [|naive_solver]. intros [Hi|[[= <-]|Hi]]; [|naive_solver|]; exfalso.
      * assert (Some (Live, n) = Some (Free, k)) by (apply Hf; auto). done.
      * assert (Some (Live, n) = Some (Free, k)) by (apply Hf; auto). done.
    + rewrite <-Hf. pose proof (Hnc a k) as Hnk. rewrite elem_of_app in Hnk. naive_solver.
  - eapply asc_weaken; [|apply Hasc2]. lia.
  - apply seg_mid; [|done..]. intros a k Ha. apply (elem_of_app (nodes L1)). by left.
  - simpl. split; [by unfold f; rewrite fn_lookup_insert|]. split.
    + unfold f. rewrite fn_lookup_insert_ne by lia. by rewrite fn_lookup_insert.
    + apply seg_mid; [|done|apply Hs2].
      intros a k Ha. apply (elem_of_app (nodes L1)). rewrite E. right. by right.
  - intros a k. rewrite lookup_insert_Some, lookup_delete_Some. naive_solver.
Qed.

Lemma p_below p k N :
  nodes L1 = N ++ [(p, k)] →
  p + HDR ≤ bp ∧ 0 < p ∧ fin base L1 = p + k * HDR ∧ p + k * HDR ≤ bp.
Proof.
  intros HN.
  pose proof (before_fin L1 p k (ex_intro _ N HN)) as Hfin.
  assert ((p, k) ∈ nodes L1) as Hp by (rewrite HN; apply elem_of_app; right; left).
  apply elem_of_cons in Hp as [[= -> ->]|Hp]; [unfold HDR in *; lia|].
  pose proof (H1 _ _ Hp). pose proof (h_asc _ _ _ HH) as [Hasc _]%asc_app.
  destruct (asc_elem _ _ _ _ Hasc Hp) as (? & ? & _). unfold HDR in *. lia.
Qed.

Section Join.

Context (p k n' : Z) (N L2' : list (Z * Z)) (B1 : blocks) (s1 : mst) (f : Z → Z).
Hypothesis HN : nodes L1 = N ++ [(p, k)].
Hypothesis Hmid : mid n' L2' B1 s1.
Hypothesis Hf : ∀ x, x ≠ p → x ≠ p + 4 → f x = mem s1 x.

Lemma seg_left k' e :
  f p = e → f (p + 4) = k' → seg f (N ++ [(p, k')]) e.
Proof.
  intros Hp Hk. pose proof (md_left _ _ _ _ Hmid) as Hl. rewrite HN in Hl.
  apply seg_app in Hl as [Hl _]. apply seg_app. split; [|done]. revert Hl. apply seg_ext.
  intros a m [i Hi]%list_elem_of_lookup_1.
  assert (length N = length L1) as HlN.
  { apply (f_equal length) in HN. rewrite length_app in HN. simpl in HN. lia. }
  assert (a + HDR ≤ p); [|unfold HDR in *; rewrite !Hf by lia; done].
  pose proof (lookup_lt_Some _ _ _ Hi). eapply (node_gap _ _ _ i (length L1) a m p k HH); [..|lia].
  - apply (lookup_app_l_Some (nodes L1)). rewrite HN. by apply lookup_app_l_Some.
  - apply (lookup_app_l_Some (nodes L1)). rewrite HN, lookup_app_r, HlN, Nat.sub_diag by lia. done.
Qed.

Lemma seg_right : seg f ((bp, n') :: L2') base.
Proof.
  apply (seg_ext (mem s1)); [|apply Hmid]. intros a m Ha. destruct (p_below p k N HN) as (? & _).
  assert (bp ≤ a); [|unfold HDR in *; rewrite !Hf by lia; done].
  apply elem_of_cons in Ha as [[= -> ->]|Ha]; [lia|].
  destruct (asc_elem _ _ _ _ (md_asc _ _ _ _ Hmid) Ha) as (? & _).
  destruct (md_size _ _ _ _ Hmid). unfold HDR in *. lia.
Qed.

Lemma mid_words a m x :
  B !! a = Some (Live, m) → a ≠ bp → a ≤ x < a + m * HDR → f x = mem s x.
Proof.
  intros Ha Hne Hx. destruct (live_off _ _ _ _ _ x p k HH Ha Hx) as [? ?].
  { apply (elem_of_app (nodes L1)). left. rewrite HN. apply elem_of_app. right. left. }
  rewrite Hf by done.
  destruct (tiles_off _ _ _ _ _ _ _ _ _ x (h_tiles _ _ _ HH) Ha Hbp Hne Hx).
  by apply (md_frame _ _ _ _ Hmid).
Qed.

Lemma mid_live a m : B1 !! a = Some (Live, m) → f (a + 4) = m.
Proof.
  intros [Hne Ha]%(md_live _ _ _ _ Hmid). destruct (tl_in _ _ _ (h_tiles _ _ _ HH) _ _ _ Ha).
  rewrite (mid_words a m); [by apply (h_live _ _ _ HH)|done..|unfold HDR; lia].
Qed.

Lemma join_alone :
  p + k * HDR ≠ bp → f p = bp → f (p + 4) = mem s1 (p + 4) →
  heap (L1 ++ (bp, n') :: L2') B1 (set_freep p (set_mem f s1)).
Proof.
  intros Hne Hp Hs. destruct (p_below p k N HN) as (? & ? & Hfin & ?).
  pose proof (h_asc _ _ _ HH) as [Hasc _]%asc_app.
  destruct (md_same _ _ _ _ Hmid) as [Hbrk _].
  split; cbn [mem brk freep set_mem set_freep].
  - apply Hmid.
  - rewrite Hbrk. apply HH.
  - apply Hmid.
  - apply asc_app. split; [done|]. rewrite Hfin. simpl.
    destruct (md_size _ _ _ _ Hmid). split_and!; [lia..|apply Hmid].
  - apply (seg_app f (nodes L1) _ base). split; [|apply seg_right].
    rewrite HN. apply seg_left; [done|]. rewrite Hs.
    pose proof (md_left _ _ _ _ Hmid) as Hl. rewrite HN in Hl. by apply seg_app in Hl as (_ & _ & ? & _).
  - apply mid_live.
  - apply list_elem_of_fmap. exists (p, k). split; [done|]. apply (elem_of_app (nodes L1)). left.
    rewrite HN. apply elem_of_app. right. left.
Qed.

Lemma join_merge :
  p + k * HDR = bp → f p = hd base L2'.*1 → f (p + 4) = k + n' →
  ∃ M, L1 = M ++ [(p, k)] ∧
    heap (M ++ (p, k + n') :: L2') (<[p := (Free, k + n')]> (delete bp B1))
      (set_freep p (set_mem f s1)).
Proof.
  intros He Hp Hs. destruct (p_below p k N HN) as (? & ? & Hfin & ?).
  destruct (before_cases _ _ _ _ HN) as [(_ & -> & -> & _)|(M & EN & EL)].
  { unfold HDR in *. lia. }
  exists M. split; [done|].
  pose proof (h_asc _ _ _ HH) as [Hasc _]%asc_app. rewrite EL in Hasc.
  destruct (md_same _ _ _ _ Hmid) as [Hbrk _].
  apply asc_app in Hasc as (HaM & Hpk & Hk & _).
  assert (B1 !! p = Some (Free, k)) as HBp.
  { apply (md_free _ _ _ _ Hmid). rewrite EL. apply elem_of_app. left. apply elem_of_app. right. left. }
  assert (B1 !! bp = Some (Free, n')) as HBb.
  { apply (md_free _ _ _ _ Hmid), elem_of_app. right. left. }
  split; cbn [mem brk freep set_mem set_freep].
  - rewrite <-He in *. eapply tiles_merge; [apply Hmid|done..].
  - rewrite Hbrk. apply HH.
  - intros a m. rewrite lookup_insert_Some, lookup_delete_Some, <-(md_free _ _ _ _ Hmid), EL.
    assert ((a, m) ∈ M ++ L2' → a ≠ p ∧ a ≠ bp) as Hne.
    { intros [Ha|Ha]%elem_of_app.
      - destruct (asc_elem _ _ _ _ HaM Ha) as (? & ? & ?). unfold HDR in *. lia.
      - destruct (asc_elem _ _ _ _ (md_asc _ _ _ _ Hmid) Ha) as (? & _ & _).
        destruct (md_size _ _ _ _ Hmid). unfold HDR in *. lia. }
    rewrite !elem_of_app, !elem_of_cons in *. set_solver.
  - apply asc_app. split; [done|]. simpl. destruct (md_size _ _ _ _ Hmid). split_and!; [done|lia|].
    eapply asc_weaken; [|apply Hmid]. unfold HDR in *. lia.
  - assert (seg f (nodes (M ++ [(p, k + n')]) ++ L2') base) as Hseg.
    { apply seg_app. split; [|apply seg_right]. pose proof (seg_left _ _ Hp Hs) as Hl.
      by rewrite EN in Hl. }
    unfold nodes in *. by rewrite <-app_comm_cons, <-app_assoc in Hseg.
  - intros a m [(? & ?)|(? & [? ?]%lookup_delete_Some)]%lookup_insert_Some; [done|by apply mid_live].
  - apply list_elem_of_fmap. exists (p, k + n'). split; [done|]. right.
    apply elem_of_app. right. left.
Qed.

End Join.

Lemma join_upper_spec p k N :
  nodes L1 = N ++ [(p, k)] →
  wpt (join_upper bp p) (λ _ s1, ∃ n' L2' B1, mid n' L2' B1 s1) s.
Proof.
  intros HN. destruct (h_brk _ _ _ HH) as [Hbrk _].
  pose proof (tl_in _ _ _ (h_tiles _ _ _ HH) _ _ _ Hbp) as (_ & _ & Hhi & _).
  destruct (p_below p k N HN) as (Hpb & Hp0 & _ & _).
  pose proof (h_ring _ _ _ HH) as [Hs1 Hs2]%(seg_app _ (nodes L1) L2 base).
  rewrite HN in Hs1. apply seg_app in Hs1 as (_ & Hptr & _). simpl in Hptr.
  unfold join_upper, s_ptr, s_size, set_size, set_ptr.
  unfold HDR in Hpb, Hhi. apply wpt_bind, wpt_load; [lia..|]. rewrite Hptr.
  apply wpt_bind, wpt_load; [lia..|]. rewrite (h_live _ _ _ HH _ _ Hbp).
  rewrite (hplus_small _ _ s) by (unfold HDR; lia). case_bool_decide as Hc.
  - destruct (list_cases L2) as [E|([c m] & L2' & E)]; rewrite E in Hc |- *; simpl in Hc |- *.
    { unfold HDR in *. lia. }
    rewrite E in Hs2. simpl in Hs2. destruct Hs2 as (Hnx & Hsz & _).
    assert (B !! c = Some (Free, m)) as HBc.
    { apply (h_free _ _ _ HH), elem_of_app. rewrite E. right. left. }
    pose proof (tl_in _ _ _ (h_tiles _ _ _ HH) _ _ _ HBc) as (? & ? & ? & _).
    unfold HDR, KERNBASE in *.
    apply wpt_bind, wpt_load; [unfold KERNBASE; lia..|]. rewrite Hsz, u32_small by lia.
    apply wpt_bind, wpt_store; [unfold KERNBASE; lia..|]. apply wpt_bind.
    apply wpt_load; simpl; [unfold KERNBASE; lia..|]. rewrite fn_lookup_insert_ne, Hnx by lia.
    apply wpt_store; simpl; [unfold KERNBASE; lia..|]. do 3 eexists. by apply (mid_merge c m).
  - apply wpt_store; [lia..|]. do 3 eexists. by apply mid_alone.
Qed.

Lemma join_lower_spec p k N n' L2' B1 s1 :
  nodes L1 = N ++ [(p, k)] → mid n' L2' B1 s1 →
  wpt (join_lower bp p) (λ _ s2, ∃ L' B', heap L' B' (set_freep p s2) ∧
    released bp n (L1 ++ L2) L' B B' s (set_freep p s2)) s1.
Proof.
  intros HN Hmid. destruct (p_below p k N HN) as (Hpb & Hp0 & _ & Hpk).
  destruct (h_brk _ _ _ HH) as [Hbrk _]. destruct (md_same _ _ _ _ Hmid) as [Ebrk Efr].
  destruct (md_size _ _ _ _ Hmid) as [Hn' Hlen].
  assert (B1 !! bp = Some (Free, n')) as HBb.
  { apply (md_free _ _ _ _ Hmid), elem_of_app. right. left. }
  pose proof (tl_in _ _ _ (md_tiles _ _ _ _ Hmid) _ _ _ HBb) as (_ & _ & Hhi & _).
  assert ((p, k) ∈ nodes (L1 ++ L2)) as Hin.
  { apply (elem_of_app (nodes L1)). left. rewrite HN. apply elem_of_app. right. left. }
  destruct (node_in _ _ _ _ _ HH Hin) as (_ & Hk & _).
  pose proof (md_left _ _ _ _ Hmid) as Hl. rewrite HN in Hl. apply seg_app in Hl as (_ & _ & Hsz & _).
  destruct (md_right _ _ _ _ Hmid) as (Hbp1 & Hbs & _).
  unfold join_lower, s_ptr, s_size, set_size, set_ptr. rewrite Ebrk in Hhi.
  unfold HDR in Hpb, Hhi. apply wpt_bind, wpt_load; [lia..|]. rewrite Hsz.
  rewrite (hplus_small _ _ s) by (unfold HDR in *; lia). case_bool_decide as Hc.
  - apply wpt_bind, wpt_load; [lia..|]. rewrite Hbs, u32_small by (unfold KERNBASE, HDR in *; lia).
    apply wpt_bind, wpt_store; [lia..|]. apply wpt_bind, wpt_load; simpl; [lia..|].
    rewrite fn_lookup_insert_ne, Hbp1 by lia.
    apply wpt_store; simpl; [lia..|]. set (f := <[p := _]> _).
    assert (∀ x, x ≠ p → x ≠ p + 4 → f x = mem s1 x) as Hf.
    { intros x ? ?. unfold f. by rewrite !fn_lookup_insert_ne. }
    destruct (join_merge p k n' N L2' B1 s1 f HN Hmid Hf Hc) as (M & EL & HH').
    { unfold f. by rewrite fn_lookup_insert. }
    { unfold f. rewrite fn_lookup_insert_ne, fn_lookup_insert by lia. done. }
    do 2 eexists. split; [exact HH'|]. split; simpl; [done| |by eapply mid_words|].
    + intros a m. rewrite lookup_insert_Some, lookup_delete_Some, (md_live _ _ _ _ Hmid).
      assert (B !! a = Some (Live, m) → p ≠ a); [|naive_solver]. intros Ha ->.
      destruct (tl_in _ _ _ (h_tiles _ _ _ HH) _ _ _ Ha).
      destruct (live_off _ _ _ _ _ a _ _ HH Ha ltac:(unfold HDR; lia) Hin). done.
    + rewrite EL, !length_app in *. simpl. split; [lia|]. exists p, (k + n'). split; [|lia].
      apply elem_of_app. right. left.
  - apply wpt_store; [lia..|]. set (f := <[p := _]> _).
    assert (∀ x, x ≠ p → x ≠ p + 4 → f x = mem s1 x) as Hf.
    { intros x ? ?. unfold f. by rewrite !fn_lookup_insert_ne. }
    do 2 eexists. split.
    { apply (join_alone p k n' N L2' B1 s1 f HN Hmid Hf Hc); unfold f.
      - by rewrite fn_lookup_insert.
      - by rewrite fn_lookup_insert_ne by lia. }
    split; simpl; [done|apply Hmid|by eapply mid_words|].
    rewrite !length_app. simpl. split; [lia|]. exists bp, n'. split; [|lia].
    apply elem_of_app. right. left.
Qed.


End Place.

Lemma heap_place L B s bp n :
  heap L B s → B !! bp = Some (Live, n) →
  ∃ L1 L2, L = L1 ++ L2 ∧ (∀ a m, (a, m) ∈ L1 → a + m * HDR ≤ bp) ∧
    (∀ a m, (a, m) ∈ L2 → bp + n * HDR ≤ a).
Proof.
  intros HH Hbp. pose proof (h_tiles _ _ _ HH) as HT.
  destruct (tl_in _ _ _ HT _ _ _ Hbp) as (? & _).
  eapply asc_place; [apply HH|done|]. intros a m Ha%(h_free _ _ _ HH).
  assert (a ≠ bp) by (intros ->; congruence).
  destruct (decide (a < bp)); [left|right].
  - by eapply (tl_apart _ _ _ HT).
  - eapply (tl_apart _ _ _ HT); [done..|lia].
Qed.

Lemma free_spec fuel L B s bp n :
  heap L B s → B !! bp = Some (Live, n) → (length L < fuel)%nat →
  wpt (free fuel (bp + HDR)) (λ _ s', ∃ L' B', heap L' B' s' ∧ released bp n L L' B B' s s') s.
Proof.
  intros HH Hbp Hfuel. destruct (heap_place _ _ _ _ _ HH Hbp) as (L1 & L2 & -> & H1 & H2).
  pose proof (tl_in _ _ _ (h_tiles _ _ _ HH) _ _ _ Hbp) as (Hn & Hlo & Hhi & _).
  destruct (h_brk _ _ _ HH) as [Hbrk _].
  destruct (free_find_spec L1 L2 B s bp n HH Hn Hlo H1 H2 fuel (freep s)) as (p & k & [N HN] & Hfind);
    [apply HH|done|].
  unfold free. replace (u32 (bp + HDR - HDR)) with bp.
  2: { unfold KERNBASE, HDR in *. rewrite u32_small; lia. }
  apply wpt_bind, wpt_gets, wpt_bind. eapply wpt_eq; [exact Hfind|].
  apply wpt_bind. eapply wpt_mono; [by eapply (join_upper_spec L1 L2)|].
  intros [] s1 (n' & L2' & B1 & Hmid).
  apply wpt_bind. eapply wpt_mono; [by eapply (join_lower_spec L1 L2)|].
  intros [] s2 (L' & B' & HH' & Hr). apply wpt_modify. eauto.
Qed.

(** *** [morecore] *)

Lemma sbrk_spec nu s :
  0 < nu → nu * HDR < KERNBASE → 0 ≤ brk s < KERNBASE →
  wpt (sbrk enough (u32 (nu * HDR))) (λ r s', (r = -1 ∧ s' = s) ∨
    (r = brk s ∧ s' = set_brk (brk s + nu * HDR) s ∧ brk s + nu * HDR < KERNBASE)) s.
Proof.
  intros Hnu Hmax Hb. unfold sbrk, HDR, KERNBASE in *. apply wpt_bind, wpt_get. cbv zeta.
  rewrite (u32_small (nu * 8)), s32_small, u32_small by lia.
  rewrite bool_decide_eq_true_2 by lia. case_bool_decide; [by left|].
  rewrite bool_decide_eq_false_2 by lia. destruct (enough _); [|by left].
  right. simpl. split_and!; [done..|lia].
Qed.

(** The live blocks and their words are as they were. *)
Definition kept (B B' : blocks) (s s' : mst) : Prop :=
  (∀ a m, B' !! a = Some (Live, m) ↔ B !! a = Some (Live, m)) ∧
  (∀ a m x, B !! a = Some (Live, m) → a ≤ x < a + m * HDR → mem s' x = mem s x).

Lemma heap_extend L B s nu :
  heap L B s → 0 < nu → brk s + nu * HDR < KERNBASE →
  heap L (<[brk s := (Live, nu)]> B)
    (set_mem (<[brk s + 4 := nu]> (mem s)) (set_brk (brk s + nu * HDR) s)).
Proof.
  intros HH Hnu Hmax. destruct (h_brk _ _ _ HH) as [Hb Hdiv].
  assert (B !! brk s = None) as Hnew.
  { destruct (B !! brk s) as [[u m]|] eqn:E; [|done].
    destruct (tl_in _ _ _ (h_tiles _ _ _ HH) _ _ _ E). unfold HDR in *. lia. }
  split; cbn [mem brk freep set_mem set_brk].
  - apply tiles_extend; [apply HH|lia..|done].
  - unfold HDR in *. split; [lia|]. destruct Hdiv as [q ?]. exists (q + nu). lia.
  - intros a m. rewrite (h_free _ _ _ HH), lookup_insert_Some. naive_solver.
  - apply HH.
  - eapply seg_ext; [|apply HH]. intros a m Ha. destruct (node_in _ _ _ _ _ HH Ha).
    unfold HDR in *. by rewrite !fn_lookup_insert_ne by lia.
  - intros a m [(<- & [= <-])|(Hne & Ha)]%lookup_insert_Some; [by rewrite fn_lookup_insert|].
    rewrite fn_lookup_insert_ne by lia. by apply HH.
  - apply HH.
Qed.

Lemma morecore_spec fuel L B s nu :
  heap L B s → 0 < nu → nu * HDR < KERNBASE → (length L < fuel)%nat →
  wpt (morecore enough fuel nu) (λ r s', (r = 0 ∧ s' = s) ∨
    r = freep s' ∧ ∃ L' B', heap L' B' s' ∧ kept B B' s s' ∧
      (length L' ≤ S (length L))%nat ∧ ∃ a m, (a, m) ∈ L' ∧ nu ≤ m) s.
Proof.
  intros HH Hnu Hmax Hf. destruct (h_brk _ _ _ HH) as [Hb _].
  unfold morecore. set (nu' := if bool_decide (nu < 4096) then 4096 else nu). cbv zeta.
  assert (nu ≤ nu' ∧ nu' * HDR < KERNBASE) as [Hle Hmax'].
  { unfold nu', HDR, KERNBASE in *. case_bool_decide; lia. }
  apply wpt_bind. eapply wpt_mono; [apply sbrk_spec; [lia..|unfold HDR in *; lia]|].
  intros r s1 [[-> ->]|(-> & -> & Htop)].
  { rewrite bool_decide_eq_true_2 by done. by left. }
  unfold HDR in *. rewrite bool_decide_eq_false_2 by lia.
  apply wpt_bind. apply wpt_store; simpl; [lia..|].
  pose proof (heap_extend L B s nu' HH ltac:(lia) Htop) as HH1.
  apply wpt_bind. replace (hplus (brk s) 1) with (brk s + HDR).
  2: { unfold hplus, HDR, KERNBASE in *. rewrite u32_small; lia. }
  eapply wpt_mono; [eapply free_spec; [exact HH1|by rewrite lookup_insert_eq|done]|].
  intros _ s' (L' & B' & HH' & [Hbk Hlive Hwords [Hlen (a & m & Ha & Hm)]]).
  apply wpt_gets. right. split; [done|]. exists L', B'. split; [done|]. split.
  - assert (∀ a m, B !! a = Some (Live, m) → a ≠ brk s) as Hne.
    { intros b k Hbk' ->. destruct (tl_in _ _ _ (h_tiles _ _ _ HH) _ _ _ Hbk'). unfold HDR in *. lia. }
    split.
    + intros b k. rewrite Hlive, lookup_insert_Some. naive_solver.
    + intros b k x Hbk' Hx. pose proof (Hne _ _ Hbk').
      rewrite (Hwords b k); [|by rewrite lookup_insert_ne|done..]. simpl.
      destruct (tl_in _ _ _ (h_tiles _ _ _ HH) _ _ _ Hbk') as (_ & _ & ? & _).
      rewrite fn_lookup_insert_ne by (unfold HDR in *; lia). done.
  - split; [done|]. exists a, m. split; [done|lia].
Qed.

(** *** [malloc] *)

(** [malloc] returned the payload of a block of [nu] headers that is new among
    the live ones. *)
Record allocated (r nu : Z) (B B' : blocks) (s s' : mst) : Prop := Allocated {
  al_live a m : B' !! a = Some (Live, m) ↔ (a = r - HDR ∧ m = nu) ∨ B !! a = Some (Live, m);
  al_fresh m : B !! (r - HDR) ≠ Some (Live, m);
  al_words a m x : B !! a = Some (Live, m) → a ≤ x < a + m * HDR → mem s' x = mem s x;
}.

(** A new pointer in the last header before [R]. *)
Lemma relink L1 R N B s p k f :
  heap (L1 ++ R) B s → nodes L1 = N ++ [(p, k)] → (∀ x, x ≠ p → f x = mem s x) →
  seg f (nodes L1) (f p) ∧ seg f R base.
Proof.
  intros HH HN Hf. pose proof (h_ring _ _ _ HH) as [Hs1 Hs2]%(seg_app _ (nodes L1) R base).
  assert (length N = length L1) as HlN.
  { apply (f_equal length) in HN. rewrite length_app in HN. simpl in HN. lia. }
  assert (nodes (L1 ++ R) !! length L1 = Some (p, k)) as Hp.
  { apply (lookup_app_l_Some (nodes L1)). rewrite HN, lookup_app_r, HlN, Nat.sub_diag by lia. done. }
  assert (∀ i a m, nodes (L1 ++ R) !! i = Some (a, m) → i ≠ length L1 →
    f a = mem s a ∧ f (a + 4) = mem s (a + 4)) as Hoff.
  { intros i a m Hi Hne. assert (a + HDR ≤ p ∨ p + HDR ≤ a).
    - destruct (decide (i < length L1)%nat); [left|right].
      + by eapply (node_gap _ _ _ _ _ _ _ _ _ HH Hi Hp).
      + eapply (node_gap _ _ _ _ _ _ _ _ _ HH Hp Hi). lia.
    - unfold HDR in *. rewrite !Hf by lia. done. }
  rewrite HN in Hs1 |- *. apply seg_app in Hs1 as (Hs0 & _ & Hk & _). split.
  - apply seg_app. split; [|split; [done|split; [|done]]].
    + revert Hs0. apply seg_ext. intros a m [i Hi]%list_elem_of_lookup_1.
      pose proof (lookup_lt_Some _ _ _ Hi). eapply (Hoff i); [|lia].
      apply (lookup_app_l_Some (nodes L1)). rewrite HN. by apply lookup_app_l_Some.
    + by rewrite Hf by lia.
  - revert Hs2. apply seg_ext. intros a m [i Hi]%list_elem_of_lookup_1.
    apply (Hoff (length (nodes L1) + i)%nat a m); [|simpl; lia].
    change (nodes (L1 ++ R)) with (nodes L1 ++ R). rewrite lookup_app_r by lia.
    by replace (length (nodes L1) + i - length (nodes L1))%nat with i by lia.
Qed.

Section Take.

Context (L1 L2 N : list (Z * Z)) (B : blocks) (s : mst) (p size prevp k nu : Z).
Hypothesis HH : heap (L1 ++ (p, size) :: L2) B s.
Hypothesis HN : nodes L1 = N ++ [(prevp, k)].
Hypothesis Hnu : 0 < nu.

Lemma take_block : B !! p = Some (Free, size).
Proof. apply (h_free _ _ _ HH), elem_of_app. right. left. Qed.

Lemma prev_in l : (prevp, k) ∈ nodes (L1 ++ l).
Proof. apply (elem_of_app (nodes L1)). left. rewrite HN. apply elem_of_app. right. left. Qed.

Lemma take_others a m : (a, m) ∈ nodes (L1 ++ L2) → a + HDR ≤ p ∨ p + size * HDR < a.
Proof.
  pose proof take_block as Hp. destruct (tl_in _ _ _ (h_tiles _ _ _ HH) _ _ _ Hp) as (? & ? & _).
  pose proof (h_asc _ _ _ HH) as (Ha1 & Hp1 & _ & Ha2)%asc_app.
  intros [[= -> ->]|[Ha|Ha]%elem_of_app]%elem_of_cons; [lia| |].
  - destruct (asc_elem _ _ _ _ Ha1 Ha) as (? & ? & ?). unfold HDR in *. lia.
  - destruct (asc_elem _ _ _ _ Ha2 Ha) as (? & ? & ?). lia.
Qed.

(** An exact fit leaves the list. *)
Lemma take_whole :
  heap (L1 ++ L2) (<[p := (Live, size)]> B)
    (set_freep prevp (set_mem (<[prevp := hd base L2.*1]> (mem s)) s)).
Proof.
  pose proof take_block as Hp. pose proof (h_asc _ _ _ HH) as Hasc.
  destruct (relink _ _ _ _ _ _ _ (<[prevp := hd base L2.*1]> (mem s)) HH HN) as [Hs1 Hs2].
  { intros x ?. by rewrite fn_lookup_insert_ne. }
  rewrite fn_lookup_insert in Hs1.
  destruct (tl_in _ _ _ (h_tiles _ _ _ HH) _ _ _ Hp) as (? & _).
  split; cbn [mem brk freep set_mem set_freep].
  - by eapply tiles_retag; [apply HH|].
  - apply HH.
  - intros a m. pose proof (asc_other _ _ _ _ _ a m Hasc) as Hne.
    rewrite lookup_insert_Some, <-(h_free _ _ _ HH).
    rewrite !elem_of_app, !elem_of_cons in *. set_solver.
  - apply asc_app in Hasc as (Ha1 & ? & ? & Ha2). apply asc_app. split; [done|].
    eapply asc_weaken; [|exact Ha2]. unfold HDR in *. lia.
  - apply (seg_app _ (nodes L1) L2 base). split; [done|apply Hs2].
  - intros a m [(<- & [= <-])|(Hne & Ha)]%lookup_insert_Some; [apply Hs2|].
    destruct (tl_in _ _ _ (h_tiles _ _ _ HH) _ _ _ Ha) as (? & _).
    destruct (live_off _ _ _ _ _ (a + 4) _ _ HH Ha ltac:(unfold HDR; lia) (prev_in _)) as [? _].
    rewrite fn_lookup_insert_ne by done. by apply HH.
  - apply list_elem_of_fmap. exists (prevp, k). split; [done|apply prev_in].
Qed.

(** A larger block gives its end. *)
Lemma take_end q f :
  nu < size → q = p + (size - nu) * HDR →
  f = <[q + 4 := nu]> (<[p + 4 := size - nu]> (mem s)) →
  heap (L1 ++ (p, size - nu) :: L2)
    (<[q := (Live, nu)]> (<[p := (Free, size - nu)]> B)) (set_freep prevp (set_mem f s)).
Proof.
  intros Hlt -> ->. pose proof take_block as Hp. pose proof (h_asc _ _ _ HH) as Hasc.
  pose proof (h_ring _ _ _ HH) as [Hs1 Hs2]%(seg_app _ (nodes L1) _ base).
  destruct (tl_in _ _ _ (h_tiles _ _ _ HH) _ _ _ Hp) as (? & _).
  set (q := p + _). assert (p + HDR ≤ q < p + size * HDR) as Hq by (unfold q, HDR in *; lia).
  set (f := <[q + 4 := _]> _).
  assert (∀ x, x ≠ p + 4 → x ≠ q + 4 → f x = mem s x) as Hf.
  { intros x ? ?. unfold f. by rewrite !fn_lookup_insert_ne. }
  assert (∀ a m, (a, m) ∈ nodes (L1 ++ L2) → f a = mem s a ∧ f (a + 4) = mem s (a + 4)) as Hoff.
  { intros a m Ha%take_others. unfold HDR in *. rewrite !Hf by lia. done. }
  split; cbn [mem brk freep set_mem set_freep].
  - eapply tiles_split; [apply HH|done|lia].
  - apply HH.
  - intros a m. pose proof (asc_other _ _ _ _ _ a m Hasc) as Hne.
    pose proof (h_free _ _ _ HH a m) as Hfr. pose proof (take_others a m) as Hoth.
    unfold nodes in Hoth. rewrite !lookup_insert_Some, <-Hfr, !elem_of_app, !elem_of_cons in *.
    destruct (decide (q = a)) as [<-|]; [|set_solver].
    split; [|naive_solver]. intros Hin. exfalso.
    assert (q = p ∨ q + HDR ≤ p ∨ p + size * HDR < q) by set_solver. unfold HDR in *. lia.
  - apply asc_app in Hasc as (Ha1 & ? & ? & Ha2). apply asc_app. split; [done|]. simpl.
    split_and!; [done|lia|]. eapply asc_weaken; [|exact Ha2]. unfold HDR in *. lia.
  - destruct Hs2 as (Hpp & _ & Hs2).
    apply (seg_app _ (nodes L1) _ base). split; [|simpl; split_and!].
    + eapply seg_ext; [|exact Hs1]. intros a m Ha. apply (Hoff a m), (elem_of_app (nodes L1)). by left.
    + unfold HDR in *. by rewrite Hf by lia.
    + unfold f, HDR in *. by rewrite fn_lookup_insert_ne, fn_lookup_insert by lia.
    + eapply seg_ext; [|exact Hs2]. intros a m Ha. apply (Hoff a m), (elem_of_app (nodes L1)). by right.
  - intros a m [(<- & [= <-])|(Hne & [(_ & ?)|(Hpa & Ha)]%lookup_insert_Some)]%lookup_insert_Some.
    + unfold f. by rewrite fn_lookup_insert.
    + done.
    + rewrite Hf by lia. by apply HH.
  - apply list_elem_of_fmap. exists (prevp, k). split; [done|apply prev_in].
Qed.

(** The words of live blocks are outside the block and the header before it. *)
Lemma take_off a m x :
  B !! a = Some (Live, m) → a ≤ x < a + m * HDR →
  x ≠ prevp ∧ (x < p ∨ p + size * HDR ≤ x).
Proof.
  intros Ha Hx. destruct (live_off _ _ _ _ _ x _ _ HH Ha Hx (prev_in _)) as [? _].
  pose proof take_block as Hp. assert (a ≠ p) by (intros ->; congruence).
  pose proof (tl_apart _ _ _ (h_tiles _ _ _ HH) _ _ _ _ _ _ Ha Hp).
  pose proof (tl_apart _ _ _ (h_tiles _ _ _ HH) _ _ _ _ _ _ Hp Ha). lia.
Qed.

Lemma took_whole s' :
  mem s' = <[prevp := hd base L2.*1]> (mem s) →
  allocated (p + 1 * HDR) size B (<[p := (Live, size)]> B) s s'.
Proof.
  intros Hs'. pose proof take_block as Hp. split.
  - intros a m. rewrite lookup_insert_Some. replace (p + 1 * HDR - HDR) with p by lia.
    naive_solver congruence.
  - intros m. replace (p + 1 * HDR - HDR) with p by lia. congruence.
  - intros a m x Ha Hx. rewrite Hs', fn_lookup_insert_ne; [done|]. by destruct (take_off _ _ _ Ha Hx).
Qed.

Lemma took_end q s' :
  nu < size → q = p + (size - nu) * HDR →
  mem s' = <[q + 4 := nu]> (<[p + 4 := size - nu]> (mem s)) →
  allocated (q + 1 * HDR) nu B (<[q := (Live, nu)]> (<[p := (Free, size - nu)]> B)) s s'.
Proof.
  intros Hlt Hq Hs'. pose proof take_block as Hp.
  assert (∀ m, B !! q ≠ Some (Live, m)) as Hfr.
  { intros m Ha. destruct (tl_in _ _ _ (h_tiles _ _ _ HH) _ _ _ Ha) as (? & _).
    destruct (take_off q m q Ha ltac:(unfold HDR; lia)). unfold HDR in *. lia. }
  split.
  - intros a m. rewrite !lookup_insert_Some. replace (q + 1 * HDR - HDR) with q by lia.
    destruct (decide (p = a)) as [<-|]; [unfold HDR in *; naive_solver (congruence || lia)|].
    specialize (Hfr m). naive_solver.
  - intros m. by replace (q + 1 * HDR - HDR) with q by lia.
  - intros a m x Ha Hx. destruct (take_off _ _ _ Ha Hx). unfold HDR in *.
    by rewrite Hs', !fn_lookup_insert_ne by lia.
Qed.

Lemma take_spec fuel :
  nu ≤ size →
  wpt (malloc_loop enough (S fuel) nu prevp p)
    (λ r s', ∃ L' B', heap L' B' s' ∧ allocated r nu B B' s s') s.
Proof.
  intros Hle. pose proof take_block as Hp. destruct (h_brk _ _ _ HH) as [Hb _].
  destruct (tl_in _ _ _ (h_tiles _ _ _ HH) _ _ _ Hp) as (? & ? & ? & _).
  destruct (node_in _ _ _ _ _ HH (prev_in _)) as (? & ? & ? & _).
  pose proof (h_ring _ _ _ HH) as [_ (Hptr & Hsz & _)]%(seg_app _ (nodes L1) _ base).
  simpl. unfold s_ptr, s_size, set_size, set_ptr. unfold HDR, KERNBASE in *.
  apply wpt_bind, wpt_load; [unfold KERNBASE; lia..|]. rewrite Hsz, bool_decide_eq_true_2 by done.
  apply wpt_bind. case_bool_decide as Hc.
  - apply wpt_bind, wpt_load; [unfold KERNBASE; lia..|]. rewrite Hptr.
    apply wpt_bind, wpt_store; [unfold KERNBASE; lia..|]. apply wpt_ret, wpt_bind, wpt_modify, wpt_ret.
    rewrite (hplus_small _ _ s) by (unfold HDR, KERNBASE; lia).
    do 2 eexists. split; [apply take_whole|]. rewrite <-Hc. by apply took_whole.
  - apply wpt_bind, wpt_store; [unfold KERNBASE; lia..|].
    rewrite (hplus_small _ _ s) by (unfold HDR, KERNBASE; lia). set (q := p + _).
    assert (p + 8 ≤ q ∧ q + nu * 8 = p + size * 8) by (unfold q, HDR; lia).
    apply wpt_bind, wpt_store; simpl; [unfold KERNBASE; lia..|].
    apply wpt_ret, wpt_bind, wpt_modify, wpt_ret.
    rewrite (hplus_small _ _ s) by (unfold HDR, KERNBASE; lia).
    do 2 eexists. split; [apply (take_end q); [lia|done..]|]. apply took_end; [lia|done..].
Qed.

End Take.

(** The header after the [i]-th of the ring. *)
Lemma ring_next L B s i a n :
  heap L B s → nodes L !! i = Some (a, n) →
  ∃ m, nodes L !! (S i mod length (nodes L))%nat = Some (mem s a, m) ∧ mem s (mem s a + 4) = m.
Proof.
  intros HH Hi. destruct (node_ptr _ _ _ _ _ _ HH Hi) as [Hp _]. rewrite Hp.
  assert (∃ m, nodes L !! (S i mod length (nodes L))%nat = Some (hd base (drop i L).*1, m)) as [m Hm].
  { destruct (next_cases _ _ _ _ Hi) as [[m Hm]|[Hl ->]].
    - exists m. rewrite Nat.mod_small; [done|]. by eapply lookup_lt_Some.
    - exists 0. rewrite Hl, Nat.Div0.mod_same. done. }
  exists m. split; [done|]. by destruct (node_ptr _ _ _ _ _ _ HH Hm).
Qed.

Lemma ring_split L i a n p m :
  nodes L !! i = Some (a, n) → nodes L !! (S i mod length (nodes L))%nat = Some (p, m) → 0 < m →
  ∃ L1 L2 N, L = L1 ++ (p, m) :: L2 ∧ nodes L1 = N ++ [(a, n)].
Proof.
  intros Hi Hj Hm. pose proof (lookup_lt_Some _ _ _ Hi).
  destruct (decide (S i = length (nodes L))) as [El|Hne].
  { rewrite El, Nat.Div0.mod_same in Hj. simpl in Hj. simplify_eq. lia. }
  rewrite Nat.mod_small in Hj by lia. simpl in Hj.
  exists (take i L), (drop (S i) L), (take i (nodes L)). split.
  - by rewrite take_drop_middle.
  - rewrite <-(take_S_r _ _ _ Hi). done.
Qed.

Section Walk.

Context (nu : Z).
Hypothesis Hnu : 0 < nu.
Hypothesis Hmax : nu * HDR < KERNBASE.

(** The walk of [malloc] from the [i]-th header, [d] headers before [freep]. *)
Record walking (L : list (Z * Z)) (B : blocks) (s : mst) (i d : nat) (prevp : Z) : Prop := Walking {
  wk_heap : heap L B s;
  wk_prev : ∃ n, nodes L !! i = Some (prevp, n);
  wk_end : ∃ n, nodes L !! ((i + d) mod length (nodes L))%nat = Some (freep s, n);
  wk_dist : (1 ≤ d ≤ length (nodes L))%nat;
}.

Lemma walk_step L B s i d prevp fuel :
  walking L B s i d prevp →
  ∃ p m, mem s prevp = p ∧ nodes L !! (S i mod length (nodes L))%nat = Some (p, m) ∧
  if decide (nu ≤ m) then
    wpt (malloc_loop enough (S fuel) nu prevp p)
      (λ r s', ∃ L' B', heap L' B' s' ∧ allocated r nu B B' s s') s
  else if decide (d = 1%nat) then
    malloc_loop enough (S fuel) nu prevp p s =
      (q ← morecore enough fuel nu;
       if bool_decide (q = 0) then mret 0 else
       next ← s_ptr q; malloc_loop enough fuel nu q next) s
  else malloc_loop enough (S fuel) nu prevp p s = malloc_loop enough fuel nu p (mem s p) s ∧
    walking L B s (S i mod length (nodes L)) (Nat.pred d) p.
Proof.
  intros [HH [n Hi] [n' Hend] Hd]. pose proof (lookup_lt_Some _ _ _ Hi) as Hlt.
  destruct (ring_next _ _ _ _ _ _ HH Hi) as (m & Hj & Hm).
  exists (mem s prevp), m. split; [done|]. split; [done|]. set (p := mem s prevp) in *.
  case_decide as Hfit.
  { destruct (ring_split _ _ _ _ _ _ Hi Hj ltac:(lia)) as (L1 & L2 & N & -> & HN).
    by eapply (take_spec L1 L2 N). }
  destruct (node_in _ _ _ p m HH) as (? & ? & ? & _); [by eapply list_elem_of_lookup_2|].
  destruct (h_brk _ _ _ HH) as [Hb _].
  assert (p = freep s ↔ d = 1%nat) as Hfp.
  { split.
    - intros E. rewrite E in Hj. pose proof (node_inj _ _ _ _ _ _ _ _ HH Hj Hend) as Ej.
      by apply (mod_step (length (nodes L)) i).
    - intros ->. rewrite Nat.add_1_r in Hend. congruence. }
  assert (malloc_loop enough (S fuel) nu prevp p s =
    (q ← (if bool_decide (p = freep s) then morecore enough fuel nu else mret p);
     if bool_decide (q = 0) then mret 0 else
     next ← s_ptr q; malloc_loop enough fuel nu q next) s) as ->.
  { cbn [malloc_loop]. unfold HDR in *.
    rewrite (bind_step _ _ _ m s) by (rewrite <-Hm; apply load_ok; lia).
    rewrite bool_decide_eq_false_2 by lia. done. }
  case_decide as Hd1.
  - rewrite bool_decide_eq_true_2 by tauto. done.
  - rewrite bool_decide_eq_false_2 by tauto. split.
    + rewrite (bind_step _ _ _ p s) by done. rewrite bool_decide_eq_false_2 by lia.
      unfold HDR in *. rewrite (bind_step _ _ _ (mem s p) s) by (apply load_ok; lia). done.
    + split; [done|by exists m| |lia]. exists n'. rewrite Nat.Div0.add_mod_idemp_l.
      by replace (S i + Nat.pred d)%nat with (i + d)%nat by lia.
Qed.

(** A walk that has a large enough block ahead of it takes one. *)
Lemma walk_fit L B s d fuel i prevp e a m :
  walking L B s i d prevp → (1 ≤ e ≤ d)%nat →
  nodes L !! ((i + e) mod length (nodes L))%nat = Some (a, m) → nu ≤ m → (d ≤ fuel)%nat →
  wpt (malloc_loop enough fuel nu prevp (mem s prevp))
    (λ r s', ∃ L' B', heap L' B' s' ∧ allocated r nu B B' s s') s.
Proof.
  revert fuel i prevp e. induction d as [|d IH]; intros [|fuel] i prevp e Hw He Ha Hm Hf; try lia.
  destruct (walk_step _ _ _ _ _ _ fuel Hw) as (p & k & Ep & Hj & Hstep). rewrite Ep.
  case_decide as Hfit; [done|].
  assert (e ≠ 1%nat) as Hne.
  { intros ->. rewrite Nat.add_1_r in Ha. rewrite Ha in Hj. simplify_eq. lia. }
  rewrite decide_False in Hstep by lia. destruct Hstep as [Heq Hw']. unfold wpt. rewrite Heq.
  apply (IH fuel _ _ (Nat.pred e) Hw'); [lia| |done|lia].
  rewrite Nat.Div0.add_mod_idemp_l. by replace (S i + Nat.pred e)%nat with (i + e)%nat by lia.
Qed.

(** A walk from [freep] meets every header. *)
Lemma walk_start L B s n i :
  heap L B s → nodes L !! i = Some (freep s, n) → walking L B s i (length (nodes L)) (freep s).
Proof.
  intros HH Hi. pose proof (lookup_lt_Some _ _ _ Hi). split; [done|by exists n| |lia].
  exists n. rewrite <-(Nat.Div0.add_mod_idemp_r i), Nat.Div0.mod_same, Nat.add_0_r.
  by rewrite Nat.mod_small.
Qed.

Lemma ring_ahead N i j : (i < N)%nat → (j < N)%nat → ∃ e, (1 ≤ e ≤ N)%nat ∧ ((i + e) mod N = j)%nat.
Proof.
  intros Hi Hj. destruct (decide (i < j)%nat).
  - exists (j - i)%nat. split; [lia|]. rewrite Nat.mod_small; lia.
  - exists (N + j - i)%nat. split; [lia|]. symmetry. apply (Nat.mod_unique _ _ 1); lia.
Qed.

Definition malloc_post (L : list (Z * Z)) (B : blocks) (s : mst) (r : Z) (s' : mst) : Prop :=
  (r = 0 ∧ s' = s) ∨ ∃ L' B', heap L' B' s' ∧ allocated r nu B B' s s'.

Lemma grow_fit L B s fuel :
  heap L B s → (length L + 2 ≤ fuel)%nat →
  wpt (q ← morecore enough fuel nu;
       if bool_decide (q = 0) then mret 0 else
       next ← s_ptr q; malloc_loop enough fuel nu q next) (malloc_post L B s) s.
Proof.
  intros HH Hf. apply wpt_bind. eapply wpt_mono; [apply (morecore_spec _ L B); [done..|lia]|].
  intros r s1 [[-> ->]|(-> & L1 & B1 & HH1 & [Hl1 Hw1] & Hlen & a & m & Ha & Hm)].
  { rewrite bool_decide_eq_true_2 by done. by left. }
  pose proof (h_freep _ _ _ HH1) as ([f n] & Ef & [i Hi]%list_elem_of_lookup_1)%list_elem_of_fmap.
  simpl in Ef. subst f. destruct (h_brk _ _ _ HH1) as [Hb _].
  destruct (node_in _ _ _ (freep s1) n HH1) as (? & _ & ? & _); [by eapply list_elem_of_lookup_2|].
  rewrite bool_decide_eq_false_2 by lia. unfold s_ptr, HDR in *. apply wpt_bind, wpt_load; [lia..|].
  assert ((a, m) ∈ nodes L1) as [j Hj]%list_elem_of_lookup_1 by by right.
  destruct (ring_ahead (length (nodes L1)) i j) as (e & He & Ej).
  { by eapply lookup_lt_Some. } { by eapply lookup_lt_Some. }
  eapply wpt_mono.
  { eapply (walk_fit _ _ _ _ _ i _ e a m); [by eapply walk_start|done|by rewrite Ej|done|simpl; lia]. }
  intros r s' (L' & B' & HH' & [Hal Hfr Hw]). right. exists L', B'. split; [done|].
  split.
  - intros b k. by rewrite Hal, Hl1.
  - intros k. rewrite <-Hl1. apply Hfr.
  - intros b k x Hb' Hx. rewrite (Hw b k) by by try apply Hl1. by eapply Hw1.
Qed.

Lemma walk_all L B s d fuel i prevp :
  walking L B s i d prevp → (d + length L + 2 ≤ fuel)%nat →
  wpt (malloc_loop enough fuel nu prevp (mem s prevp)) (malloc_post L B s) s.
Proof.
  revert fuel i prevp. induction d as [|d IH]; intros [|fuel] i prevp Hw Hf; try lia.
  { destruct (wk_dist _ _ _ _ _ _ Hw). lia. }
  destruct (walk_step _ _ _ _ _ _ fuel Hw) as (p & k & Ep & Hj & Hstep). rewrite Ep.
  case_decide as Hfit; [eapply wpt_mono; [done|by right]|].
  case_decide as Hd.
  - unfold wpt. rewrite Hstep. apply grow_fit; [apply Hw|lia].
  - destruct Hstep as [Heq Hw']. unfold wpt. rewrite Heq. apply (IH fuel _ _ Hw'). lia.
Qed.

End Walk.

(** The allocator before its first use, or with its blocks. *)
Definition uheap (B : blocks) (s : mst) : Prop :=
  (freep s = 0 ∧ B = ∅ ∧ brk s = lo ∧ lo < KERNBASE) ∨ ∃ L, heap L B s.

Lemma heap_init s :
  freep s = 0 → brk s = lo → lo < KERNBASE →
  heap [] ∅ (Mst (<[base + 4 := 0]> (<[base := base]> (mem s))) base (brk s)).
Proof.
  intros Hf Hb Hm. unfold HDR in *. split; cbn [mem brk freep].
  - split; [done|intros; lia|done].
  - rewrite Hb. split; [lia|]. exists 0. lia.
  - intros a n. rewrite lookup_empty. split; [by intros ?%not_elem_of_nil|done].
  - done.
  - simpl. rewrite fn_lookup_insert_ne, !fn_lookup_insert by lia. done.
  - done.
  - by left.
Qed.

Lemma nunits_pos nbytes : 0 < nunits_of nbytes.
Proof. unfold nunits_of, HDR. pose proof (u32_range (nbytes + 8 - 1)). Z.div_mod_to_equations. lia. Qed.

Lemma heap_length L B s : heap L B s → Z.of_nat (length L) ≤ (brk s - lo) / HDR.
Proof.
  intros HH. apply Z.div_le_lower_bound; [done|].
  assert (asc (lo - 1) L) as Hasc.
  { destruct L as [|[a n] L]; [done|]. destruct (h_asc _ _ _ HH) as (_ & ? & ?).
    assert (B !! a = Some (Free, n)) as Ha by (apply (h_free _ _ _ HH); left).
    destruct (tl_in _ _ _ (h_tiles _ _ _ HH) _ _ _ Ha). simpl. split_and!; [lia|done..]. }
  pose proof (asc_length _ _ Hasc). destruct (h_brk _ _ _ HH) as [? [q ?]].
  assert (fin (lo - 1) L ≤ brk s); [|unfold HDR in *; lia].
  destruct (exists_last_or L) as [->|(M & [a n] & ->)].
  - simpl. destruct (h_brk _ _ _ HH). lia.
  - rewrite fin_app. simpl. apply (tl_in _ _ _ (h_tiles _ _ _ HH) a Free n), (h_free _ _ _ HH).
    apply elem_of_app. right. left.
Qed.

(** Turns of the loops that are enough for a heap of this size. *)
Definition turns (s : mst) : Z := 2 * ((brk s - lo) / HDR) + 3.

Lemma malloc_returns fuel nbytes B s :
  uheap B s → nunits_of nbytes * HDR < KERNBASE → turns s ≤ Z.of_nat fuel →
  wpt (malloc base enough fuel nbytes) (λ r s',
    (r = 0 ∧ uheap B s' ∧ kept B B s s') ∨
    ∃ B', uheap B' s' ∧ allocated r (nunits_of nbytes) B B' s s') s.
Proof.
  intros HU Hmax Hf. unfold malloc. apply wpt_bind, wpt_gets, wpt_bind.
  assert (wpt (if bool_decide (freep s = 0) then
      set_ptr base base ;; modify (set_freep base) ;; set_size base 0 ;; mret base
    else mret (freep s))
    (λ p s1, p = freep s1 ∧ brk s1 = brk s ∧ kept B B s s1 ∧ ∃ L, heap L B s1) s) as Hinit.
  { destruct HU as [(Hf0 & -> & Hb & Hlt)|[L HH]].
    - rewrite bool_decide_eq_true_2 by done. unfold set_ptr, set_size, HDR in *.
      apply wpt_bind, wpt_store; [lia..|]. apply wpt_bind, wpt_modify, wpt_bind, wpt_store; simpl; [lia..|].
      apply wpt_ret. split_and!; [done..| |].
      + split; [done|]. intros a m x Ha. by rewrite lookup_empty in Ha.
      + exists []. exact (heap_init s Hf0 Hb Hlt).
    - rewrite bool_decide_eq_false_2; [apply wpt_ret; split_and!; try done; eauto|].
      pose proof (h_freep _ _ _ HH) as ([f n] & Ef & Hin)%list_elem_of_fmap. simpl in Ef. subst f.
      destruct (node_in _ _ _ _ _ HH Hin). lia. }
  eapply wpt_mono; [exact Hinit|]. clear Hinit. intros p s1 (-> & Eb & [_ Hk] & L & HH).
  pose proof (heap_length _ _ _ HH) as Hlen. rewrite Eb in Hlen. unfold turns in Hf.
  pose proof (h_freep _ _ _ HH) as ([f n] & Ef & Hin)%list_elem_of_fmap. simpl in Ef. subst f.
  destruct (node_in _ _ _ _ _ HH Hin) as (? & _ & ? & _). destruct (h_brk _ _ _ HH) as [? _].
  unfold s_ptr. unfold HDR in *. apply wpt_bind, wpt_load; [lia..|].
  apply list_elem_of_lookup_1 in Hin as [i Hi].
  eapply wpt_mono; [eapply walk_all; [apply nunits_pos|done|by eapply walk_start|simpl; lia]|].
  intros r s' [[-> ->]|(L' & B' & HH' & [Hal Hfr Hw])].
  - left. split; [done|]. split; [by right; exists L|]. by split.
  - right. exists B'. split; [by right; exists L'|]. split; [done..|].
    intros a m x Ha Hx. rewrite (Hw a m) by done. by eapply Hk.
Qed.

Lemma free_returns fuel B s bp n :
  uheap B s → B !! bp = Some (Live, n) → turns s ≤ Z.of_nat fuel →
  wpt (free fuel (bp + HDR)) (λ _ s', ∃ B', uheap B' s' ∧
    (∀ a m, B' !! a = Some (Live, m) ↔ a ≠ bp ∧ B !! a = Some (Live, m)) ∧
    (∀ a m x, B !! a = Some (Live, m) → a ≠ bp → a ≤ x < a + m * HDR → mem s' x = mem s x)) s.
Proof.
  intros [(_ & -> & _)|[L HH]] Hbp Hf; [by rewrite lookup_empty in Hbp|].
  pose proof (heap_length _ _ _ HH). unfold turns in Hf.
  eapply wpt_mono; [by eapply (free_spec _ L); [..|lia]|].
  intros _ s' (L' & B' & HH' & [_ Hl Hw _]). exists B'. split; [by right; exists L'|done].
Qed.

(** A store of the program into the payload of a live block. *)
Lemma uheap_write B s a n x v :
  uheap B s → B !! a = Some (Live, n) → a + HDR ≤ x → x < a + n * HDR →
  uheap B (set_mem (<[x := v]> (mem s)) s).
Proof.
  intros [(? & -> & _)|[L HH]] Ha Hlo Hhi; [by rewrite lookup_empty in Ha|].
  right. exists L. split; cbn [mem brk freep set_mem]; try apply HH.
  - eapply seg_ext; [|apply HH]. intros b m Hb.
    destruct (live_off _ _ _ _ _ x _ _ HH Ha ltac:(unfold HDR in *; lia) Hb).
    by rewrite !fn_lookup_insert_ne by done.
  - intros b m Hb. rewrite fn_lookup_insert_ne; [by apply HH|].
    destruct (decide (a = b)) as [<-|Hne]; [unfold HDR in *; lia|].
    by destruct (tiles_off _ _ _ _ _ _ _ _ _ x (h_tiles _ _ _ HH) Ha Hb Hne ltac:(unfold HDR in *; lia)).
Qed.

(** With no live block the free list is one block. *)
Lemma heap_coalesced L B s :
  heap L B s → (∀ a n, B !! a ≠ Some (Live, n)) → lo < brk s →
  L = [(lo, (brk s - lo) / HDR)].
Proof.
  intros HH Hnone Hlt. pose proof (h_tiles _ _ _ HH) as HT.
  assert (∀ x, lo ≤ x < brk s → ∃ a n, (a, n) ∈ L ∧ a ≤ x < a + n * HDR) as Hcov.
  { intros x Hx. destruct (tl_cover _ _ _ HT x Hx) as (a & [] & n & Ha & Hr); [|by apply Hnone in Ha].
    exists a, n. by rewrite (h_free _ _ _ HH). }
  assert (∀ a n, (a, n) ∈ L → lo ≤ a ∧ a + n * HDR ≤ brk s) as Hin.
  { intros a n Ha%(h_free _ _ _ HH). by destruct (tl_in _ _ _ HT _ _ _ Ha) as (_ & ? & ? & _). }
  pose proof (h_asc _ _ _ HH) as Hasc. destruct L as [|[a n] L].
  { destruct (Hcov lo) as (? & ? & ?%not_elem_of_nil & _); [lia|done]. }
  destruct Hasc as (_ & Hn & Hasc). destruct (Hin a n) as [? ?]; [left|].
  assert (a = lo) as ->.
  { destruct (Hcov lo) as (b & m & [[= -> ->]|Hb]%elem_of_cons & Hr); [lia|lia|].
    destruct (asc_elem _ _ _ _ Hasc Hb). unfold HDR in *. lia. }
  assert (lo + n * HDR = brk s) as Hend.
  { destruct (decide (lo + n * HDR < brk s)); [|lia]. exfalso.
    destruct (Hcov (lo + n * HDR)) as (b & m & [[= -> ->]|Hb]%elem_of_cons & Hr);
      [unfold HDR in *; lia|lia|]. destruct (asc_elem _ _ _ _ Hasc Hb). lia. }
  destruct L as [|[b m] L].
  - rewrite <-Hend. replace (lo + n * HDR - lo) with (n * HDR) by lia. by rewrite Z.div_mul.
  - destruct Hasc as (? & ? & _). destruct (Hin b m) as [_ ?]; [right; left|]. unfold HDR in *. lia.
Qed.

End Heap.

End Umalloc.
