(* ===== verification/UmallocThm.v ===== *)
(** * What the user memory allocator promises

    The program that uses [src/umalloc.c] sees the blocks it was given and has
    not freed.  A step is a call of [malloc], a call of [free] on one of those
    blocks, or a store into one of them. *)

From S2P Require Import Prelude Spinlock Kalloc Umalloc.

Module UmallocThm.
Import Umalloc.

Section Program.

Context (base : Z) (enough : Z → bool) (lo : Z).

(** Sizes for which [nunits * sizeof(Header)] is a positive [int]. *)
Definition request (nbytes : Z) : Prop := 0 ≤ nbytes < KERNBASE - 2 * HDR.

(** The blocks the program holds, by the pointer it was given, with the size it
    asked for. *)
Abbreviation held := (gmap Z Z).

Inductive ustep : mst * held → mst * held → Prop :=
| U_malloc fuel nbytes r s s' A :
    request nbytes → turns lo s ≤ Z.of_nat fuel →
    malloc base enough fuel nbytes s = Ok r s' → r ≠ 0 →
    ustep (s, A) (s', <[r := nbytes]> A)
| U_null fuel nbytes s s' A :
    request nbytes → turns lo s ≤ Z.of_nat fuel →
    malloc base enough fuel nbytes s = Ok 0 s' → ustep (s, A) (s', A)
| U_free fuel ap n s s' A :
    A !! ap = Some n → turns lo s ≤ Z.of_nat fuel → free fuel ap s = Ok tt s' → ustep (s, A) (s', delete ap A)
| U_store ap n x v s A :
    A !! ap = Some n → ap ≤ x → x + 4 ≤ ap + n →
    ustep (s, A) (set_mem (<[x := v]> (mem s)) s, A).

(** The process after [exec]: nothing allocated, the heap empty. *)
Definition fresh (s : mst) : Prop :=
  0 < base ∧ base + HDR ≤ lo ∧ lo < KERNBASE ∧ freep s = 0 ∧ brk s = lo.

(** The live blocks are the ones the program holds, each large enough. *)
Definition serves (B : gmap Z (status * Z)) (A : held) : Prop :=
  (∀ ap nb, A !! ap = Some nb →
     0 ≤ nb ∧ ∃ n, B !! (ap - HDR) = Some (Live, n) ∧ nb + HDR ≤ n * HDR) ∧
  (∀ a n, B !! a = Some (Live, n) → is_Some (A !! (a + HDR))).

Definition sound (x : mst * held) : Prop :=
  ∃ B, uheap base lo B x.1 ∧ serves B x.2.

Lemma request_units nbytes :
  request nbytes → nbytes + HDR ≤ nunits_of nbytes * HDR ∧ nunits_of nbytes * HDR < KERNBASE.
Proof.
  unfold request, nunits_of, HDR, KERNBASE. intros ?. rewrite u32_small by lia.
  Z.div_mod_to_equations. lia.
Qed.

Hypothesis Hbase : 0 < base ∧ base + HDR ≤ lo.

Lemma malloc_sound fuel nbytes s A :
  sound (s, A) → request nbytes → turns lo s ≤ Z.of_nat fuel →
  wpt (malloc base enough fuel nbytes)
    (λ r s', sound (s', if decide (r = 0) then A else <[r := nbytes]> A)) s.
Proof.
  intros (B & HU & HA & HB) Hrq Hf. destruct (request_units _ Hrq) as [Hle Hmax].
  eapply wpt_mono; [by apply malloc_returns|].
  intros r s' [(-> & HU' & _)|(B' & HU' & [Hal Hfr _])].
  { rewrite decide_True by done. by exists B. }
  assert (B' !! (r - HDR) = Some (Live, nunits_of nbytes)) as Hr by (apply Hal; by left).
  assert (r ≠ 0) as Hr0.
  { destruct HU' as [(_ & -> & _)|[L HH]]; [by rewrite lookup_empty in Hr|].
    destruct (tl_in _ _ _ (h_tiles _ _ _ _ _ HH) _ _ _ Hr) as (_ & ? & _). unfold HDR in *. lia. }
  rewrite decide_False by done. exists B'. split; [done|]. split; simpl.
  - intros ap nb [[<- <-]|[Hne Hap]]%lookup_insert_Some.
    + unfold request in Hrq. split; [lia|]. eauto.
    + destruct (HA _ _ Hap) as (? & n & Hn & ?). split; [done|]. exists n. split; [|done].
      apply Hal. by right.
  - intros a n [[-> ->]|Ha]%Hal; simpl.
    + replace (r - HDR + HDR) with r by lia. by rewrite lookup_insert_eq.
    + apply HB in Ha. destruct (decide (r = a + HDR)) as [->|]; [by rewrite lookup_insert_eq|].
      by rewrite lookup_insert_ne.
Qed.

Lemma free_sound fuel ap n s A :
  sound (s, A) → A !! ap = Some n → turns lo s ≤ Z.of_nat fuel →
  wpt (free fuel ap) (λ _ s', sound (s', delete ap A)) s.
Proof.
  intros (B & HU & HA & HB) Hap Hf. destruct (HA _ _ Hap) as (_ & m & Hm & _).
  replace ap with (ap - HDR + HDR) at 1 by lia.
  eapply wpt_mono; [by eapply free_returns|]. intros _ s' (B' & HU' & Hl & _).
  exists B'. split; [done|]. split; simpl.
  - intros bp nb [Hne Hbp]%lookup_delete_Some. destruct (HA _ _ Hbp) as (? & k & Hk & ?).
    split; [done|]. exists k. split; [|done]. apply Hl. split; [lia|done].
  - intros a k [Hne Ha]%Hl. rewrite lookup_delete_ne by lia. by eapply HB.
Qed.

Lemma ustep_sound x y : ustep x y → sound x → sound y.
Proof.
  intros [fuel nbytes r s s' A Hrq Hf E Hr|fuel nbytes s s' A Hrq Hf E|fuel ap n s s' A Hap Hf E|
    ap n x' v s A Hap Hlo Hhi] HS.
  - pose proof (malloc_sound _ _ _ _ HS Hrq Hf) as Hw. unfold wpt in Hw. rewrite E in Hw.
    by rewrite decide_False in Hw.
  - pose proof (malloc_sound _ _ _ _ HS Hrq Hf) as Hw. unfold wpt in Hw. by rewrite E in Hw.
  - pose proof (free_sound _ _ _ _ _ HS Hap Hf) as Hw. unfold wpt in Hw. by rewrite E in Hw.
  - destruct HS as (B & HU & HA & HB). destruct (HA _ _ Hap) as (_ & m & Hm & ?).
    exists B. split; [|done]. eapply uheap_write; [done..| |]; unfold HDR in *; lia.
Qed.

Lemma fresh_sound s : lo < KERNBASE → freep s = 0 → brk s = lo → sound (s, ∅).
Proof.
  intros. exists ∅. split; [by left|]. split; intros ??; by rewrite lookup_empty.
Qed.

Lemma reach_sound s0 x :
  lo < KERNBASE → freep s0 = 0 → brk s0 = lo → rtc ustep (s0, ∅) x → sound x.
Proof. intros ??? Hr. apply (rtc_invariant _ _ _ _ ustep_sound Hr). by apply fresh_sound. Qed.

End Program.

(** C13: Whatever a program does with [malloc] of less than [KERNBASE] - 16 bytes at a
    time, [free] of blocks it holds and stores into them, the blocks it holds are
    aligned, inside the heap and disjoint.  For larger sizes the number of units wraps
    around: see [malloc_huge_faults]. *)
Theorem malloc_blocks_disjoint base enough lo s0 s A :
  fresh base lo s0 → rtc (ustep base enough lo) (s0, ∅) (s, A) →
  (∀ ap n, A !! ap = Some n → lo + HDR ≤ ap ∧ ap + n ≤ brk s ∧ brk s < KERNBASE ∧ (HDR | ap - lo)) ∧
  (∀ ap n bp m, A !! ap = Some n → A !! bp = Some m → ap < bp → ap + n + HDR ≤ bp).
Proof.
  intros (? & ? & ? & ? & ?) Hr.
  destruct (reach_sound base enough lo ltac:(done) s0 _ ltac:(done) ltac:(done) ltac:(done) Hr)
    as (B & [(_ & -> & _)|[L HH]] & HA & _); simpl in *.
  { split; intros *; [intros (_ & k & Hk & _)%HA|intros (_ & k & Hk & _)%HA];
      by rewrite lookup_empty in Hk. }
  destruct (h_brk _ _ _ _ _ HH) as [? _]. split.
  - intros ap n (_ & k & Hk & Hle)%HA.
    destruct (tl_in _ _ _ (h_tiles _ _ _ _ _ HH) _ _ _ Hk) as (? & ? & ? & [q ?]).
    unfold HDR in *. split_and!; [lia..|]. exists (q + 1). lia.
  - intros ap n bp m (_ & k & Hk & Hle)%HA (_ & j & Hj & _)%HA Hlt.
    pose proof (tl_apart _ _ _ (h_tiles _ _ _ _ _ HH) _ _ _ _ _ _ Hk Hj). unfold HDR in *. lia.
Qed.

(** C36: In every state a program can reach by requests of less than [KERNBASE] - 16
    bytes, a further such request to [malloc], and [free] of a held block, return:
    their loops end and no access leaves the process's memory.  A larger request
    faults: see [malloc_huge_faults]. *)
Theorem allocator_returns base enough lo s0 s A fuel :
  fresh base lo s0 → rtc (ustep base enough lo) (s0, ∅) (s, A) → turns lo s ≤ Z.of_nat fuel →
  (∀ nbytes, request nbytes → ∃ r s', malloc base enough fuel nbytes s = Ok r s') ∧
  (∀ ap n, A !! ap = Some n → ∃ s', free fuel ap s = Ok tt s').
Proof.
  intros (? & ? & ? & ? & ?) Hr Hf.
  pose proof (reach_sound base enough lo ltac:(done) s0 _ ltac:(done) ltac:(done) ltac:(done) Hr) as HS.
  split.
  - intros nbytes Hrq. pose proof (malloc_sound base enough lo ltac:(done) _ _ _ _ HS Hrq Hf) as Hw.
    apply wpt_Ok in Hw as (r & s' & ? & _). eauto.
  - intros ap n Hap. pose proof (free_sound base enough lo ltac:(done) _ _ _ _ _ HS Hap Hf) as Hw.
    apply wpt_Ok in Hw as ([] & s' & ? & _). eauto.
Qed.

(** No memory is lost: when everything has been freed the free list is one
    block that spans the heap. *)
Theorem free_all_coalesces base enough lo s0 s :
  fresh base lo s0 → rtc (ustep base enough lo) (s0, ∅) (s, ∅) → lo < brk s →
  mem s base = lo ∧ mem s lo = base ∧ mem s (lo + 4) = (brk s - lo) / HDR.
Proof.
  intros (? & ? & ? & ? & ?) Hr Hlt.
  destruct (reach_sound base enough lo ltac:(done) s0 _ ltac:(done) ltac:(done) ltac:(done) Hr)
    as (B & [(_ & _ & ? & _)|[L HH]] & _ & HB); simpl in *; [lia|].
  rewrite (heap_coalesced base lo L B s HH) in HH; [|intros a n Ha|done].
  - destruct (h_ring _ _ _ _ _ HH) as (? & _ & ? & ? & _). simpl in *. auto.
  - destruct (HB _ _ Ha) as [? E]. by rewrite lookup_empty in E.
Qed.

Lemma bind_undef {S A B} (m : M S A) (f : A → M S B) s why s1 :
  m s = Undef why s1 → (m ≫= f) s = Undef why s1.
Proof. intros E. unfold mbind, M_bind. by rewrite E. Qed.

Lemma sbrk_huge enough lo s nu :
  0 < lo < KERNBASE → brk s = lo → KERNBASE ≤ nu * HDR ≤ 2 ^ 32 → nu * HDR ≠ 2 ^ 32 - lo →
  ∃ s', sbrk enough (u32 (nu * HDR)) s = Ok lo s' ∧ 0 ≤ brk s' ≤ lo.
Proof.
  intros Hlo Hb Hnu Hne. set (w := nu * HDR) in *. unfold KERNBASE in *.
  assert (s32 (u32 w) = w - 2 ^ 32) as Hs.
  { destruct (decide (w = 2 ^ 32)) as [->|]; [done|]. rewrite u32_small by lia.
    unfold s32. replace (w + 2 ^ 31) with (w - 2 ^ 31 + 1 * 2 ^ 32) by lia.
    rewrite Z_mod_plus_full, Z.mod_small by lia. lia. }
  unfold sbrk. erewrite bind_step by reflexivity. rewrite Hs, Hb, bool_decide_eq_false_2 by lia.
  case_bool_decide as Hneg; [|exists s; split; [done|lia]].
  destruct (decide (lo + (w - 2 ^ 32) < 0)) as [Hlt|Hge].
  - rewrite bool_decide_eq_true_2; [exists s; split; [done|lia]|].
    unfold u32. replace (lo + (w - 2 ^ 32)) with (lo + w + (-1) * 2 ^ 32) by lia.
    rewrite Z_mod_plus_full, Z.mod_small by lia. lia.
  - rewrite u32_small by lia. rewrite !bool_decide_eq_false_2 by lia.
    eexists. split; [reflexivity|]. simpl. lia.
Qed.

Lemma store_beyond lo s v :
  lo mod PGSIZE = 0 → 0 < lo < KERNBASE → 0 ≤ brk s ≤ lo →
  ∃ s', set_size lo v s = Undef "page fault" s'.
Proof.
  intros Hpg Hlo Hb. exists s. unfold set_size, store. erewrite bind_step by reflexivity.
  unfold mapped. destruct (PGROUNDUP_spec (brk s)) as (Hm & _ & Hr).
  { lia. } { unfold PGSIZE, KERNBASE in *. lia. }
  rewrite bool_decide_eq_false_2; [done|].
  unfold PGSIZE in *. Z.div_mod_to_equations. lia.
Qed.

(** A request whose size in bytes, rounded up, is no positive [int] does not
    get the null pointer: [sbrk] is asked for no memory or to give some back, and
    [morecore] writes the header of the block past the end of the process.  The
    largest requests wrap around and get a block of one header. *)
Theorem malloc_huge_faults base enough lo s fuel nbytes :
  fresh base lo s → lo mod PGSIZE = 0 → KERNBASE - HDR ≤ nbytes < 2 ^ 32 →
  if bool_decide (nbytes < 2 ^ 32 - 7) then
    nunits_of nbytes * HDR ≠ 2 ^ 32 - lo →
    ∃ s', malloc base enough (S fuel) nbytes s = Undef "page fault" s'
  else nunits_of nbytes = 1.
Proof.
  intros (? & ? & ? & Hf & Hb) Hpg Hn. case_bool_decide as Hc.
  2: { unfold nunits_of, HDR, u32. replace (nbytes + 8 - 1) with (nbytes - (2 ^ 32 - 7) + 1 * 2 ^ 32) by lia.
       rewrite Z_mod_plus_full, Z.mod_small by lia. rewrite Z.div_small by lia. done. }
  intros Hne. set (nu := nunits_of nbytes) in *.
  assert (KERNBASE ≤ nu * HDR ≤ 2 ^ 32) as Hnu.
  { unfold nu, nunits_of, HDR, KERNBASE in *. rewrite u32_small by lia. Z.div_mod_to_equations. lia. }
  assert (0 < lo < KERNBASE) as Hlo by (unfold HDR in *; lia).
  set (s1 := Mst (<[base + 4 := 0]> (<[base := base]> (mem s))) base (brk s)).
  destruct (sbrk_huge enough lo s1 nu Hlo Hb Hnu Hne) as (s2 & Hs2 & Hb2).
  destruct (store_beyond lo s2 nu Hpg Hlo Hb2) as [s3 Hst].
  exists s3. unfold malloc. fold nu. erewrite bind_step by reflexivity. rewrite bool_decide_eq_true_2 by done.
  erewrite (bind_step _ _ s base s1).
  2: { unfold set_ptr, set_size, HDR, KERNBASE in *.
       erewrite bind_step by (apply store_mapped; unfold KERNBASE; lia).
       erewrite bind_step by reflexivity.
       erewrite bind_step by (apply store_mapped; simpl; unfold KERNBASE; lia). reflexivity. }
  erewrite (bind_step _ _ s1 base s1).
  2: { unfold s_ptr, HDR in *. rewrite load_ok by (simpl; lia). simpl.
       by rewrite fn_lookup_insert_ne, fn_lookup_insert by lia. }
  cbn [malloc_loop]. erewrite (bind_step _ _ s1 0 s1).
  2: { unfold s_size, HDR in *. rewrite load_ok by (simpl; lia). simpl. by rewrite fn_lookup_insert. }
  unfold HDR, KERNBASE in Hnu.
  rewrite bool_decide_eq_false_2 by lia. erewrite bind_step by reflexivity.
  rewrite bool_decide_eq_true_2 by done. apply bind_undef. unfold morecore.
  rewrite bool_decide_eq_false_2 by lia. cbv zeta.
  erewrite bind_step by exact Hs2. rewrite bool_decide_eq_false_2 by (unfold HDR in *; lia).
  by apply bind_undef.
Qed.

(** *** A program at work *)

Definition demo_enough (sz : Z) : bool := bool_decide (sz ≤ 0x40000).
Definition demo_start : mst := Mst (λ _, 0) 0 0x4000.
Definition demo_fuel : nat := Z.to_nat 9000.
Definition result {A} (m : M mst A) (s : mst) : option A :=
  match m s with Ok a _ => Some a | _ => None end.
Definition after {A} (m : M mst A) (s : mst) : mst :=
  match m s with Ok _ s' => s' | _ => s end.

Lemma heap_result_Ok {A} (m : M mst A) s a : result m s = Some a → m s = Ok a (after m s).
Proof. unfold result, after. destruct (m s); naive_solver. Qed.

Definition demo1 : mst := after (malloc 0x2000 demo_enough demo_fuel 100) demo_start.
Definition demo2 : mst := after (malloc 0x2000 demo_enough demo_fuel 200) demo1.
Definition demo3 : mst := after (free demo_fuel 0xbf98) demo2.
Definition demo4 : mst := after (free demo_fuel 0xbec8) demo3.

Lemma demo_fresh : fresh 0x2000 0x4000 demo_start.
Proof. done. Qed.

Lemma demo_heap_run :
  rtc (ustep 0x2000 demo_enough 0x4000) (demo_start, ∅)
    (demo2, <[0xbec8 := 200]> (<[0xbf98 := 100]> ∅)).
Proof.
  eapply rtc_l; [|apply rtc_once].
  - apply (U_malloc _ _ _ demo_fuel 100 0xbf98); [done|by vm_compute| |done].
    apply heap_result_Ok. vm_compute. reflexivity.
  - apply (U_malloc _ _ _ demo_fuel 200 0xbec8); [done|by vm_compute| |done].
    apply heap_result_Ok. vm_compute. reflexivity.
Qed.

Lemma demo_freed : rtc (ustep 0x2000 demo_enough 0x4000) (demo_start, ∅) (demo4, ∅).
Proof.
  etransitivity; [exact demo_heap_run|].
  eapply rtc_l; [|eapply rtc_once].
  - apply (U_free _ _ _ demo_fuel 0xbf98 100); [done|by vm_compute|].
    apply heap_result_Ok. vm_compute. reflexivity.
  - replace ∅ with (delete 0xbec8 (delete 0xbf98 (<[0xbec8 := 200]> (<[0xbf98 := 100]> (∅ : gmap Z Z))))).
    + apply (U_free _ _ _ demo_fuel 0xbec8 200); [done|by vm_compute|].
      apply heap_result_Ok. vm_compute. reflexivity.
    + vm_compute. reflexivity.
Qed.

Lemma malloc_blocks_disjoint_witness : 0xbec8 + 200 + HDR ≤ 0xbf98.
Proof.
  exact (proj2 (malloc_blocks_disjoint 0x2000 demo_enough 0x4000 demo_start demo2 _
    demo_fresh demo_heap_run) 0xbec8 200 0xbf98 100 eq_refl eq_refl eq_refl).
Defined.

Lemma allocator_returns_witness :
  ∃ r s', malloc 0x2000 demo_enough demo_fuel 5000 demo2 = Ok r s'.
Proof.
  refine (proj1 (allocator_returns 0x2000 demo_enough 0x4000 demo_start demo2 _ demo_fuel
    demo_fresh demo_heap_run _) 5000 _); [by vm_compute|done].
Defined.

Lemma free_all_coalesces_witness :
  mem demo4 0x2000 = 0x4000 ∧ mem demo4 0x4000 = 0x2000 ∧
  mem demo4 (0x4000 + 4) = (brk demo4 - 0x4000) / HDR.
Proof.
  refine (free_all_coalesces 0x2000 demo_enough 0x4000 demo_start demo4 demo_fresh demo_freed _).
  by vm_compute.
Defined.

Lemma malloc_huge_faults_witness :
  ∃ s', malloc 0x2000 demo_enough 10 (2 ^ 31) demo_start = Undef "page fault" s'.
Proof.
  refine (malloc_huge_faults 0x2000 demo_enough 0x4000 demo_start 9 (2 ^ 31) demo_fresh _ _ _);
    by vm_compute.
Defined.

End UmallocThm.
