(* ===== verification/Console.v ===== *)
(** * The console

    The screen, the line discipline and the device functions of
    [src/console.c].  [consoleintr] and [consolewrite] hold [cons.lock] from
    beginning to end; [consoleread] gives it up only while it sleeps, so a call is
    a sequence of segments from one point where it has the lock to the next point
    where it returns or sleeps. *)

From S2P Require Import Prelude.

Module Console.

Definition BACKSPACE : Z := 0x100.
Definition INPUT_BUF : Z := 128.

(** [C(x)], and the characters of the switch of [consoleintr]. *)
Definition ctrl (x : Z) : Z := x - 64.
Definition ctrl_P : Z := ctrl 80.
Definition ctrl_U : Z := ctrl 85.
Definition ctrl_H : Z := ctrl 72.
Definition ctrl_D : Z := ctrl 68.
Definition DEL : Z := 0x7f.
Definition NL : Z := 10.
Definition CR : Z := 13.

(** The input buffer with its read, write and edit indices; the words of video
    memory and the two bytes of the cursor's position; the bytes sent to the
    serial port; [panicked]. *)
Record cons : Type := Cons {
  buf : list Z;
  rd : Z;
  wr : Z;
  ed : Z;
  crt : Z → Z;
  cur_hi : Z;
  cur_lo : Z;
  serial : list Z;
  panicked : bool;
}.

Definition set_buf (b : list Z) (s : cons) : cons :=
  Cons b (rd s) (wr s) (ed s) (crt s) (cur_hi s) (cur_lo s) (serial s) (panicked s).
Definition set_rd (x : Z) (s : cons) : cons :=
  Cons (buf s) x (wr s) (ed s) (crt s) (cur_hi s) (cur_lo s) (serial s) (panicked s).
Definition set_wr (x : Z) (s : cons) : cons :=
  Cons (buf s) (rd s) x (ed s) (crt s) (cur_hi s) (cur_lo s) (serial s) (panicked s).
Definition set_ed (x : Z) (s : cons) : cons :=
  Cons (buf s) (rd s) (wr s) x (crt s) (cur_hi s) (cur_lo s) (serial s) (panicked s).
Definition set_crt (f : Z → Z) (s : cons) : cons :=
  Cons (buf s) (rd s) (wr s) (ed s) f (cur_hi s) (cur_lo s) (serial s) (panicked s).
Definition set_cursor (hi lo : Z) (s : cons) : cons :=
  Cons (buf s) (rd s) (wr s) (ed s) (crt s) hi lo (serial s) (panicked s).
Definition set_serial (l : list Z) (s : cons) : cons :=
  Cons (buf s) (rd s) (wr s) (ed s) (crt s) (cur_hi s) (cur_lo s) l (panicked s).

(** ** The screen *)

Definition blank : Z := Z.lor 32 0x0700.

(** [memmove(crt, crt+80, sizeof(crt[0])*23*80)], then [memset(crt+pos, 0, ...)]
    up to cell [24*80]. *)
Definition scroll (f : Z → Z) : Z → Z :=
  λ i, if bool_decide (0 ≤ i < 23 * 80) then f (i + 80) else f i.
Definition clear (pos : Z) (f : Z → Z) : Z → Z :=
  λ i, if bool_decide (pos ≤ i < 24 * 80) then 0 else f i.

Definition cgaputc (c : Z) : M cons unit :=
  s ← get;
  let pos := Z.lor (Z.shiftl (cur_hi s) 8) (cur_lo s) in
  pos ← (if bool_decide (c = NL) then mret (pos + (80 - Z.rem pos 80))
         else if bool_decide (c = BACKSPACE) then
           mret (if bool_decide (0 < pos) then pos - 1 else pos)
         else modify (set_crt (<[pos := Z.lor (Z.land c 0xff) 0x0700]> (crt s))) ;; mret (pos + 1));
  if bool_decide (pos < 0) || bool_decide (25 * 80 < pos) then panic "pos under/overflow" else
  pos ← (if bool_decide (24 ≤ Z.quot pos 80) then
           modify (λ s, set_crt (scroll (crt s)) s) ;;
           modify (λ s, set_crt (clear (pos - 80) (crt s)) s) ;;
           mret (pos - 80)
         else mret pos);
  modify (set_cursor (u8 (Z.shiftr pos 8)) (u8 pos)) ;;
  modify (λ s, set_crt (<[pos := blank]> (crt s)) s).

Definition uartputc (c : Z) : M cons unit :=
  modify (λ s, set_serial (serial s ++ [u8 c]) s).

Definition consputc (c : Z) : M cons unit :=
  p ← gets panicked;
  if (p : bool) then spin else
  (if bool_decide (c = BACKSPACE) then uartputc 8 ;; uartputc 32 ;; uartputc 8
   else uartputc c) ;;
  cgaputc c.

(** ** The line discipline *)

Definition cell (s : cons) (i : Z) : Z := default 0 (buf s !! Z.to_nat (i mod INPUT_BUF)).

(** The loop of [C('U')]. *)
Fixpoint kill_line (fuel : nat) : M cons unit :=
  match fuel with
  | O => spin
  | S fuel =>
      s ← get;
      if bool_decide (ed s ≠ wr s) && bool_decide (cell s (u32 (ed s - 1)) ≠ NL) then
        modify (λ s, set_ed (u32 (ed s - 1)) s) ;; consputc BACKSPACE ;; kill_line fuel
      else mret tt
  end.

Definition KILL_FUEL : nat := 129.

(** One turn of the loop of [consoleintr]; the result says whether the readers
    are woken and whether [doprocdump] is set. *)
Definition intr_char (c : Z) : M cons (bool * bool) :=
  s ← get;
  if bool_decide (c = ctrl_P) then mret (false, true)
  else if bool_decide (c = ctrl_U) then kill_line KILL_FUEL ;; mret (false, false)
  else if bool_decide (c = ctrl_H) || bool_decide (c = DEL) then
    if bool_decide (ed s ≠ wr s) then
      modify (λ s, set_ed (u32 (ed s - 1)) s) ;; consputc BACKSPACE ;; mret (false, false)
    else mret (false, false)
  else if bool_decide (c ≠ 0) && bool_decide (u32 (ed s - rd s) < INPUT_BUF) then
    let c := if bool_decide (c = CR) then NL else c in
    modify (set_buf (<[Z.to_nat (ed s mod INPUT_BUF) := u8 c]> (buf s))) ;;
    modify (λ s, set_ed (u32 (ed s + 1)) s) ;;
    consputc c ;;
    s ← get;
    if bool_decide (c = NL) || bool_decide (c = ctrl_D) ||
       bool_decide (ed s = u32 (rd s + INPUT_BUF)) then
      modify (λ s, set_wr (ed s) s) ;; mret (true, false)
    else mret (false, false)
  else mret (false, false).

(** [consoleintr(getc)], where [getc] gives the characters of the list and then a
    negative value. *)
Fixpoint consoleintr (cs : list Z) : M cons (bool * bool) :=
  match cs with
  | [] => mret (false, false)
  | c :: cs =>
      if bool_decide (0 ≤ c) then
        x ← intr_char c;
        y ← consoleintr cs;
        mret (x.1 || y.1, x.2 || y.2)
      else mret (false, false)
  end.

Inductive rres : Type :=
| RReturn (r : Z) (got : list Z)
| RSleep (n : nat) (got : list Z).

(** [consoleread] from a point where it has the lock, with [n] bytes still to
    read and [got] already copied; [target] is their number together. *)
Fixpoint consoleread (killed : bool) (target : nat) (n : nat) (got : list Z) : M cons rres :=
  match n with
  | O => mret (RReturn (Z.of_nat target) got)
  | S n' =>
      s ← get;
      if bool_decide (rd s = wr s) then
        mret (if killed then RReturn (-1) got else RSleep n got)
      else
        let c := cell s (rd s) in
        modify (λ s, set_rd (u32 (rd s + 1)) s) ;;
        if bool_decide (c = ctrl_D) then
          (if bool_decide (n < target)%nat then modify (λ s, set_rd (u32 (rd s - 1)) s) else mret tt) ;;
          mret (RReturn (Z.of_nat target - Z.of_nat n) got)
        else
          if bool_decide (c = NL) then mret (RReturn (Z.of_nat target - Z.of_nat n') (got ++ [c]))
          else consoleread killed target n' (got ++ [c])
  end.

Fixpoint write_loop (bs : list Z) : M cons unit :=
  match bs with
  | [] => mret tt
  | b :: bs => consputc (Z.land b 0xff) ;; write_loop bs
  end.

Definition consolewrite (bs : list Z) : M cons Z :=
  write_loop bs ;; mret (Z.of_nat (length bs)).

(** ** The screen shows the text *)

Definition cursor (s : cons) : Z := Z.lor (Z.shiftl (cur_hi s) 8) (cur_lo s).

(** The cursor is on the screen. *)
Definition screen_ok (s : cons) : Prop := 0 ≤ cursor s < 24 * 80.

Lemma cursor_bytes pos : 0 ≤ pos < 2 ^ 16 → Z.lor (Z.shiftl (u8 (Z.shiftr pos 8)) 8) (u8 pos) = pos.
Proof.
  intros Hp. unfold u8. rewrite Z.shiftr_div_pow2, (Z.mod_small (pos / 2 ^ 8)) by (Z.div_mod_to_equations; lia).
  rewrite <-Z.add_nocarry_lor.
  - rewrite Z.shiftl_mul_pow2 by lia. Z.div_mod_to_equations. lia.
  - apply Z.bits_inj'. intros n Hn. rewrite Z.land_spec, Z.shiftl_spec, Z.bits_0 by lia.
    rewrite <-Z.land_ones, Z.land_spec, Z.testbit_ones by lia. destruct (decide (n < 8)).
    + by rewrite (Z.testbit_neg_r _ (n - 8)) by lia.
    + rewrite (proj2 (Z.ltb_ge n 8)) by lia. by rewrite !andb_false_r.
Qed.

(** The screen after a character, with the cursor as a number. *)
Definition put_pos (c pos : Z) : Z :=
  if bool_decide (c = NL) then pos + (80 - pos mod 80)
  else if bool_decide (c = BACKSPACE) then Z.max 0 (pos - 1) else pos + 1.
Definition put_cell (c pos : Z) (f : Z → Z) : Z → Z :=
  if bool_decide (c = NL) || bool_decide (c = BACKSPACE) then f
  else <[pos := Z.lor (Z.land c 0xff) 0x0700]> f.
Definition put_screen (c pos : Z) (f : Z → Z) : Z * (Z → Z) :=
  let p := put_pos c pos in
  let f := put_cell c pos f in
  if bool_decide (24 * 80 ≤ p) then (p - 80, <[p - 80 := blank]> (clear (p - 80) (scroll f)))
  else (p, <[p := blank]> f).

Lemma put_pos_range c pos : 0 ≤ pos < 24 * 80 → 0 ≤ put_pos c pos ≤ 24 * 80.
Proof.
  intros Hp. unfold put_pos. repeat case_bool_decide; [|lia..].
  Z.div_mod_to_equations. lia.
Qed.

Lemma put_screen_range c pos f : 0 ≤ pos < 24 * 80 → 0 ≤ (put_screen c pos f).1 < 24 * 80.
Proof.
  intros Hp. pose proof (put_pos_range c pos Hp). unfold put_screen. case_bool_decide; simpl; lia.
Qed.

(** [cgaputc] never panics and changes the screen and the cursor only. *)
Lemma cgaputc_spec c s :
  screen_ok s →
  wpt (cgaputc c) (λ _ s', ∃ hi lo, s' = set_cursor hi lo (set_crt (put_screen c (cursor s) (crt s)).2 s) ∧
    cursor s' = (put_screen c (cursor s) (crt s)).1) s.
Proof.
  intros Hs. unfold screen_ok in Hs. unfold cgaputc. apply wpt_bind, wpt_get. cbv zeta.
  fold (cursor s). set (pos := cursor s) in *.
  assert (wpt (if bool_decide (c = NL) then mret (pos + (80 - Z.rem pos 80))
     else if bool_decide (c = BACKSPACE) then
       mret (if bool_decide (0 < pos) then pos - 1 else pos)
     else modify (set_crt (<[pos := Z.lor (Z.land c 0xff) 0x0700]> (crt s))) ;; mret (pos + 1))
     (λ p s', p = put_pos c pos ∧ s' = set_crt (put_cell c pos (crt s)) s) s) as Hput.
  { unfold put_pos, put_cell. case_bool_decide; simpl.
    - apply wpt_ret. rewrite Z.rem_mod_nonneg by lia. by destruct s.
    - case_bool_decide; simpl.
      + apply wpt_ret. split; [case_bool_decide; lia|by destruct s].
      + done. }
  apply wpt_bind. eapply wpt_mono; [exact Hput|]. clear Hput. intros p s1 [-> ->].
  pose proof (put_pos_range c pos Hs) as Hr. unfold put_screen.
  set (p := put_pos c pos) in *. rewrite !bool_decide_eq_false_2 by lia. simpl.
  rewrite Z.quot_div_nonneg by lia.
  assert (bool_decide (24 ≤ p / 80) = bool_decide (24 * 80 ≤ p)) as ->.
  { apply bool_decide_ext. Z.div_mod_to_equations. lia. }
  case_bool_decide; simpl.
  - unfold wpt, mbind, M_bind, modify, mret, M_ret. simpl. do 2 eexists. split; [reflexivity|].
    unfold cursor. simpl. rewrite cursor_bytes; lia.
  - unfold wpt, mbind, M_bind, modify, mret, M_ret. simpl. do 2 eexists. split; [reflexivity|].
    unfold cursor. simpl. rewrite cursor_bytes; lia.
Qed.

(** The text as rows of at most 80 characters: the rows that are complete and the
    row of the cursor. *)
Definition type_char (x : list (list Z) * list Z) (c : Z) : list (list Z) * list Z :=
  let '(d, l) := x in
  if bool_decide (c = NL) then (d ++ [l], [])
  else if bool_decide (length l = 79%nat) then (d ++ [l ++ [c]], []) else (d, l ++ [c]).

Definition type_text (x : list (list Z) * list Z) (cs : list Z) : list (list Z) * list Z :=
  foldl type_char x cs.

(** The first row on the screen, and the row of the cursor. *)
Definition top (d : list (list Z)) : nat := (length d - 23)%nat.
Definition row (d : list (list Z)) : nat := (length d - top d)%nat.

(** What a word of video memory shows. *)
Definition shown (v : Z) (c : option Z) : Prop :=
  match c with
  | Some c => v = Z.lor (Z.land c 0xff) 0x0700
  | None => v = 0 ∨ v = blank
  end.

Definition cell_at (f : Z → Z) (i j : nat) : Z := f (80 * Z.of_nat i + Z.of_nat j).

Definition rows_shown (t : nat) (d : list (list Z)) (l : list Z) (f : Z → Z) : Prop :=
  ∀ i j, (i < 24)%nat → (j < 80)%nat → shown (cell_at f i j) ((d ++ [l]) !! (t + i)%nat ≫= (.!! j)).

Lemma cell_at_insert f i j i' j' v :
  (j < 80)%nat → (j' < 80)%nat →
  cell_at (<[80 * Z.of_nat i + Z.of_nat j := v]> f) i' j' =
  if decide (i' = i ∧ j' = j) then v else cell_at f i' j'.
Proof.
  intros Hj Hj'. unfold cell_at. case_decide as Hd.
  - destruct Hd as [-> ->]. by rewrite fn_lookup_insert.
  - rewrite fn_lookup_insert_ne; [done|]. intros E. apply Hd. lia.
Qed.

Lemma rows_write d l f c :
  (length l < 80)%nat → rows_shown (top d) d l f →
  rows_shown (top d) d (l ++ [c])
    (<[80 * Z.of_nat (row d) + Z.of_nat (length l) := Z.lor (Z.land c 0xff) 0x0700]> f).
Proof.
  intros Hl Hf i j Hi Hj. rewrite cell_at_insert by done. specialize (Hf i j Hi Hj).
  unfold row, top in *. case_decide as Hd.
  - destruct Hd as [-> ->].
    replace (length d - 23 + (length d - (length d - 23)))%nat with (length d) by lia.
    rewrite list_lookup_middle by done. simpl. by rewrite list_lookup_middle by done.
  - destruct (decide (length d - 23 + i = length d)%nat) as [E|Hne].
    + rewrite E in Hf |- *. rewrite !list_lookup_middle in * by done. simpl in *.
      rewrite lookup_app. destruct (l !! j) eqn:El; [done|]. simpl in Hf.
      apply lookup_ge_None in El. assert (j ≠ length l) by (intros ->; apply Hd; lia).
      rewrite lookup_ge_None_2; [done|simpl; lia].
    + destruct (decide (length d - 23 + i < length d)%nat).
      * rewrite !lookup_app_l in * by done. done.
      * rewrite !(lookup_ge_None_2 (d ++ _)) in * by (rewrite length_app; simpl; lia). done.
Qed.

Lemma rows_blank d l f :
  (length l < 80)%nat → rows_shown (top d) d l f →
  rows_shown (top d) d l (<[80 * Z.of_nat (row d) + Z.of_nat (length l) := blank]> f).
Proof.
  intros Hl Hf i j Hi Hj. rewrite cell_at_insert by done. case_decide as Hd; [|by apply Hf].
  destruct Hd as [-> ->]. unfold row, top in *.
  replace (length d - 23 + (length d - (length d - 23)))%nat with (length d) by lia.
  rewrite list_lookup_middle by done. simpl. rewrite lookup_ge_None_2 by done. by right.
Qed.

(** A new row, which scrolls the screen when the cursor is on its last row. *)
Lemma rows_newline d l f :
  rows_shown (top d) d l f →
  rows_shown (top (d ++ [l])) (d ++ [l]) []
    (if bool_decide (row d = 23%nat) then clear (23 * 80) (scroll f) else f).
Proof.
  intros Hf i j Hi Hj.
  assert (∀ k, ((d ++ [l]) ++ [[]]) !! k ≫= (.!! j) = (d ++ [l]) !! k ≫= (.!! j)) as Hnil.
  { intros k. rewrite (lookup_app _ [[]]). destruct ((d ++ [l]) !! k) eqn:E; [done|]. simpl.
    by destruct (k - length (d ++ [l]))%nat. }
  rewrite Hnil. unfold row, top in *. rewrite length_app. simpl.
  case_bool_decide as Hr.
  - replace (length d + 1 - 23 + i)%nat with (length d - 23 + S i)%nat by lia.
    unfold cell_at, clear, scroll. destruct (decide (i = 23%nat)) as [->|Hne].
    + rewrite bool_decide_eq_true_2 by lia.
      rewrite lookup_ge_None_2 by (rewrite length_app; simpl; lia). by left.
    + rewrite bool_decide_eq_false_2, bool_decide_eq_true_2 by lia.
      replace (80 * Z.of_nat i + Z.of_nat j + 80) with (80 * Z.of_nat (S i) + Z.of_nat j) by lia.
      apply Hf; lia.
  - replace (length d + 1 - 23)%nat with (length d - 23)%nat by lia. by apply Hf.
Qed.

(** The screen shows the last rows of the text and the cursor is at its end. *)
Definition displays (x : list (list Z) * list Z) (pos : Z) (f : Z → Z) : Prop :=
  (length x.2 < 80)%nat ∧ pos = 80 * Z.of_nat (row x.1) + Z.of_nat (length x.2) ∧
  rows_shown (top x.1) x.1 x.2 f.

Lemma displays_newline d l f pos :
  (length l ≤ 80)%nat → rows_shown (top d) d l f → pos = 80 * (Z.of_nat (row d) + 1) →
  let x := if bool_decide (24 * 80 ≤ pos)
           then (pos - 80, <[pos - 80 := blank]> (clear (pos - 80) (scroll f)))
           else (pos, <[pos := blank]> f) in
  displays (d ++ [l], []) x.1 x.2.
Proof.
  intros Hl Hf ->. pose proof (rows_newline d l f Hf) as Hn. unfold displays. cbn [fst snd].
  assert (row (d ++ [l]) = Nat.min (row d + 1) 23 ∧ (row d ≤ 23)%nat) as [Er Hr].
  { unfold row, top. rewrite length_app. simpl. lia. }
  pose proof (rows_blank (d ++ [l]) [] _ ltac:(simpl; lia) Hn) as Hb. rewrite Er in Hb |- *.
  destruct (decide (row d = 23%nat)) as [E|Hne].
  - rewrite bool_decide_eq_true_2 in Hb by lia. rewrite bool_decide_eq_true_2 by lia. simpl.
    replace (80 * (Z.of_nat (row d) + 1) - 80) with (23 * 80) by lia. split_and!; [lia..|].
    replace (80 * Z.of_nat (Nat.min (row d + 1) 23) + Z.of_nat (length [])) with (23 * 80) in Hb
      by (simpl; lia). exact Hb.
  - rewrite bool_decide_eq_false_2 in Hb by lia. rewrite bool_decide_eq_false_2 by lia. simpl.
    split_and!; [lia..|].
    replace (80 * Z.of_nat (Nat.min (row d + 1) 23) + Z.of_nat (length []))
      with (80 * (Z.of_nat (row d) + 1)) in Hb by (simpl; lia). exact Hb.
Qed.

Lemma displays_put x pos f c :
  c ≠ BACKSPACE → displays x pos f →
  displays (type_char x c) (put_screen c pos f).1 (put_screen c pos f).2.
Proof.
  destruct x as [d l]. intros Hc (Hl & -> & Hf). simpl in *. unfold put_screen, put_pos, put_cell.
  rewrite (bool_decide_eq_false_2 (c = BACKSPACE)) by done. case_bool_decide as Hnl; simpl.
  - apply (displays_newline d l f); [lia|done|]. 
    replace ((80 * Z.of_nat (row d) + Z.of_nat (length l)) mod 80) with (Z.of_nat (length l)); [lia|].
    rewrite Z.add_comm, Z.mul_comm, Z_mod_plus_full, Z.mod_small; lia.
  - pose proof (rows_write d l f c Hl Hf) as Hw. set (g := <[_ := _]> f) in *.
    case_bool_decide as H79.
    + apply (displays_newline d (l ++ [c]) g); [rewrite length_app; simpl; lia|done|lia].
    + assert (row d ≤ 23)%nat by (unfold row, top; lia).
      rewrite bool_decide_eq_false_2 by lia. unfold displays. cbn [fst snd].
      rewrite length_app. simpl length. split; [lia|]. split; [lia|].
      pose proof (rows_blank d (l ++ [c]) g) as Hb. rewrite length_app in Hb. simpl length in Hb.
      replace (80 * Z.of_nat (row d) + Z.of_nat (length l) + 1)
        with (80 * Z.of_nat (row d) + Z.of_nat (length l + 1)) by lia.
      apply Hb; [lia|done].
Qed.

Lemma displays_ok x s : displays x (cursor s) (crt s) → screen_ok s.
Proof.
  intros (Hl & Hpos & _). unfold screen_ok. rewrite Hpos. destruct x as [d l].
  assert (row d ≤ 23)%nat by (unfold row, top; lia). simpl in *. lia.
Qed.

(** Everything but the screen and the serial port. *)
Definition input_of (s : cons) := (buf s, rd s, wr s, ed s, panicked s).

Lemma consputc_spec c s :
  screen_ok s → panicked s = false →
  wpt (consputc c) (λ _ s', input_of s' = input_of s ∧
    cursor s' = (put_screen c (cursor s) (crt s)).1 ∧ crt s' = (put_screen c (cursor s) (crt s)).2 ∧
    screen_ok s') s.
Proof.
  intros Hs Hp. unfold consputc. apply wpt_bind, wpt_gets. rewrite Hp. apply wpt_bind.
  assert (wpt (if bool_decide (c = BACKSPACE) then uartputc 8 ;; uartputc 32 ;; uartputc 8
    else uartputc c) (λ _ s1, ∃ l, s1 = set_serial l s) s) as Hu.
  { case_bool_decide; eexists; reflexivity. }
  eapply wpt_mono; [exact Hu|]. intros [] s1 [l ->].
  eapply wpt_mono; [by apply cgaputc_spec|]. intros [] s' (hi & lo & -> & Hc).
  split_and!; [done|exact Hc|done|]. unfold screen_ok. rewrite Hc.
  apply put_screen_range, Hs.
Qed.

(** What is written to the console appears on the screen: its last rows of at
    most 80 characters, the cursor after the last one. *)
Theorem consolewrite_shows x bs s :
  displays x (cursor s) (crt s) → panicked s = false →
  wpt (consolewrite bs) (λ n s', n = Z.of_nat (length bs) ∧ input_of s' = input_of s ∧
    displays (type_text x (map (λ b, Z.land b 0xff) bs)) (cursor s') (crt s')) s.
Proof.
  intros Hd Hp. unfold consolewrite. apply wpt_bind.
  assert (wpt (write_loop bs) (λ _ s', input_of s' = input_of s ∧
    displays (type_text x (map (λ b, Z.land b 0xff) bs)) (cursor s') (crt s')) s) as Hw.
  { revert x s Hd Hp. induction bs as [|b bs IH]; intros x s Hd Hp; simpl; [by apply wpt_ret|].
    apply wpt_bind. eapply wpt_mono; [apply consputc_spec; [by eapply displays_ok|done]|].
    intros [] s1 (Hi & Hc & Hf & _). eapply wpt_mono; [apply IH|].
    - rewrite Hc, Hf. apply displays_put; [|done].
      change 0xff with (Z.ones 8). rewrite Z.land_ones by lia. unfold BACKSPACE.
      pose proof (Z.mod_pos_bound b (2 ^ 8)). lia.
    - unfold input_of in Hi. congruence.
    - intros [] s' [Hi' Hd']. split; [congruence|done]. }
  eapply wpt_mono; [exact Hw|]. intros [] s' ?. by apply wpt_ret.
Qed.

(** ** The line discipline as two lists

    The bytes the readers can have, oldest first, and the line being edited. *)

Definition lines : Type := list Z * list Z.

Definition spec_char (c : Z) (x : lines) : (bool * bool) * lines :=
  let '(ready, line) := x in
  if bool_decide (c = ctrl_P) then ((false, true), (ready, line))
  else if bool_decide (c = ctrl_U) then ((false, false), (ready, []))
  else if bool_decide (c = ctrl_H) || bool_decide (c = DEL) then
    ((false, false), (ready, removelast line))
  else if bool_decide (c ≠ 0) && bool_decide (length (ready ++ line) < 128)%nat then
    let c := if bool_decide (c = CR) then NL else c in
    let line := line ++ [c] in
    if bool_decide (c = NL) || bool_decide (c = ctrl_D) ||
       bool_decide (length (ready ++ line) = 128%nat)
    then ((true, false), (ready ++ line, []))
    else ((false, false), (ready, line))
  else ((false, false), (ready, line)).

Fixpoint spec_intr (cs : list Z) (x : lines) : (bool * bool) * lines :=
  match cs with
  | [] => ((false, false), x)
  | c :: cs =>
      if bool_decide (0 ≤ c) then
        let '(o1, x1) := spec_char c x in
        let '(o2, x2) := spec_intr cs x1 in ((o1.1 || o2.1, o1.2 || o2.2), x2)
      else ((false, false), x)
  end.

(** A read takes the bytes up to a newline; [C('D')] ends it, and stays for the
    next read when there are bytes before it. *)
Fixpoint spec_read (killed : bool) (target n : nat) (got ready : list Z) : rres * list Z :=
  match n with
  | O => (RReturn (Z.of_nat target) got, ready)
  | S n' =>
      match ready with
      | [] => (if killed then RReturn (-1) got else RSleep n got, [])
      | c :: rest =>
          if bool_decide (c = ctrl_D) then
            (RReturn (Z.of_nat target - Z.of_nat n) got,
             if bool_decide (n < target)%nat then ready else rest)
          else if bool_decide (c = NL) then
            (RReturn (Z.of_nat target - Z.of_nat n') (got ++ [c]), rest)
          else spec_read killed target n' (got ++ [c]) rest
      end
  end.

(** The bytes of the buffer between two indices, which count without bound. *)
Definition window (s : cons) (a b : Z) : list Z := cell s <$> seqZ a (b - a).

Record holds (s : cons) (x : lines) : Prop := Holds {
  ho_index : ∃ R W E, 0 ≤ R ∧ R ≤ W ∧ W ≤ E ∧ E ≤ R + INPUT_BUF ∧
    rd s = u32 R ∧ wr s = u32 W ∧ ed s = u32 E ∧ x = (window s R W, window s W E);
  ho_buf : length (buf s) = 128%nat;
  ho_screen : screen_ok s;
  ho_live : panicked s = false;
}.

Lemma cell_u32 s x : cell s (u32 x) = cell s x.
Proof.
  unfold cell, u32, INPUT_BUF. do 3 f_equal. change (2 ^ 32) with (128 * 33554432).
  rewrite Z.rem_mul_r by lia. rewrite (Z.mul_comm 128), Z_mod_plus_full. by rewrite Zmod_mod.
Qed.

Lemma window_app s a b c : a ≤ b → b ≤ c → window s a c = window s a b ++ window s b c.
Proof.
  intros. unfold window. rewrite <-fmap_app. f_equal.
  replace (c - a) with ((b - a) + (c - b)) by lia. rewrite seqZ_app by lia.
  by replace (a + (b - a)) with b by lia.
Qed.

Lemma window_nil s a : window s a a = [].
Proof. unfold window. by rewrite Z.sub_diag. Qed.

Lemma window_one s a b : b = a + 1 → window s a b = [cell s a].
Proof. intros ->. unfold window. by replace (a + 1 - a) with 1 by lia. Qed.

Lemma window_cons s a b : a < b → window s a b = cell s a :: window s (a + 1) b.
Proof. intros. rewrite (window_app s a (a + 1) b), (window_one s a) by lia. done. Qed.

Lemma window_snoc s a b : a < b → window s a b = window s a (b - 1) ++ [cell s (b - 1)].
Proof. intros. rewrite (window_app s a (b - 1) b), (window_one s (b - 1)) by lia. done. Qed.

Lemma length_window s a b : a ≤ b → Z.of_nat (length (window s a b)) = b - a.
Proof. intros. unfold window. rewrite length_fmap, length_seqZ. lia. Qed.

Lemma window_same s s' a b : buf s' = buf s → window s' a b = window s a b.
Proof. intros E. unfold window, cell. by rewrite E. Qed.

(** A byte stored at index [E] is not in the window before it. *)
Lemma window_store s E v a b :
  0 ≤ a → b ≤ E → E < a + INPUT_BUF →
  window (set_buf (<[Z.to_nat (E mod INPUT_BUF) := v]> (buf s)) s) a b = window s a b.
Proof.
  intros Ha Hb HE. unfold window. apply list_fmap_ext. intros i x Hx%list_elem_of_lookup_2%elem_of_seqZ.
  unfold cell, INPUT_BUF in *. simpl. rewrite list_lookup_insert_ne; [done|].
  intros Eq. apply Z2Nat.inj in Eq; [|apply Z.mod_pos_bound; lia..].
  Z.div_mod_to_equations. lia.
Qed.

Lemma cell_store s E v :
  length (buf s) = 128%nat → cell (set_buf (<[Z.to_nat (E mod INPUT_BUF) := v]> (buf s)) s) E = v.
Proof.
  intros Hl. unfold cell. simpl. rewrite list_lookup_insert_eq; [done|].
  rewrite Hl. unfold INPUT_BUF. pose proof (Z.mod_pos_bound E 128). lia.
Qed.

(** The state after [consputc]. *)
Lemma holds_putc x s c (Q : unit → cons → Prop) :
  holds s x → (∀ s', holds s' x → input_of s' = input_of s → Q tt s') → wpt (consputc c) Q s.
Proof.
  intros [(R & W & E & ? & ? & ? & ? & ? & ? & ? & Hx) Hb Hs Hp] HQ.
  eapply wpt_mono; [by apply consputc_spec|]. intros [] s' (Hi & _ & _ & Hs').
  apply HQ; [|done]. unfold input_of in Hi. injection Hi as E1 E2 E3 E4 E5.
  split; [|congruence|done|congruence].
  exists R, W, E. rewrite !(window_same s s') by done. split_and!; congruence || done.
Qed.

Lemma u32_inj a b : u32 a = u32 b → a ≤ b < a + 2 ^ 32 → a = b.
Proof.
  unfold u32. intros E Hr. Z.div_mod_to_equations. lia.
Qed.

Lemma holds_line_empty s x : holds s x → (ed s = wr s ↔ x.2 = []).
Proof.
  intros [(R & W & E & ? & ? & ? & ? & _ & Hw & He & ->) _ _ _]. unfold INPUT_BUF in *. simpl.
  pose proof (length_window s W E ltac:(lia)) as Hlen. split; intros Heq.
  - assert (W = E) as ->; [|apply window_nil]. apply u32_inj; [congruence|lia].
  - rewrite Heq in Hlen. simpl in Hlen. assert (E = W) by lia. congruence.
Qed.

Lemma holds_ready_empty s x : holds s x → (rd s = wr s ↔ x.1 = []).
Proof.
  intros [(R & W & E & ? & ? & ? & ? & Hr & Hw & _ & ->) _ _ _]. unfold INPUT_BUF in *. simpl.
  pose proof (length_window s R W ltac:(lia)) as Hlen. split; intros Heq.
  - assert (R = W) as ->; [|apply window_nil]. apply u32_inj; [congruence|lia].
  - rewrite Heq in Hlen. simpl in Hlen. assert (R = W) by lia. congruence.
Qed.

Lemma holds_length s x : holds s x → (length (x.1 ++ x.2) ≤ 128)%nat.
Proof.
  intros [(R & W & E & ? & ? & ? & ? & _ & _ & _ & ->) _ _ _]. unfold INPUT_BUF in *. simpl.
  rewrite length_app. pose proof (length_window s R W). pose proof (length_window s W E). lia.
Qed.

(** Erase the last character of the line. *)
Lemma holds_erase s x :
  holds s x → x.2 ≠ [] →
  cell s (u32 (ed s - 1)) ∈ x.2 ∧ holds (set_ed (u32 (ed s - 1)) s) (x.1, removelast x.2).
Proof.
  intros [(R & W & E & ? & ? & ? & ? & Hr & Hw & He & ->) Hb Hs Hp] Hne. simpl in *.
  assert (W < E).
  { destruct (decide (W = E)) as [->|]; [by rewrite window_nil in Hne|lia]. }
  rewrite He, u32_sub_l, cell_u32. rewrite (window_snoc s W E) in * by lia.
  rewrite removelast_last. split; [apply elem_of_app; right; left|]. split; simpl; [|done..].
  exists R, W, (E - 1). split_and!; [lia..|done|done|done|].
  by rewrite !(window_same s (set_ed _ s)).
Qed.

Lemma kill_line_spec fuel s x :
  holds s x → NL ∉ x.2 → (length x.2 < fuel)%nat →
  wpt (kill_line fuel) (λ _ s', holds s' (x.1, [])) s.
Proof.
  revert s x. induction fuel as [|fuel IH]; intros s [ready line] Hh Hnl Hf; [lia|]. simpl in *.
  apply wpt_bind, wpt_get. pose proof (holds_line_empty _ _ Hh) as He. simpl in He.
  destruct (decide (line = [])) as [->|Hne].
  - rewrite bool_decide_eq_false_2 by tauto. by apply wpt_ret.
  - destruct (holds_erase _ _ Hh Hne) as [Hc Hh']. simpl in *.
    rewrite !bool_decide_eq_true_2 by (tauto || (intros E; by rewrite E in Hc)). simpl.
    apply wpt_bind, wpt_modify, wpt_bind.
    apply (holds_putc _ _ _ _ Hh'). intros s' Hs' _. destruct (exists_last Hne) as (l & c & ->).
    rewrite removelast_last in Hs'. apply (IH s' _ Hs'); simpl.
    + rewrite not_elem_of_app in Hnl. tauto.
    + rewrite length_app in Hf. simpl in Hf. lia.
Qed.

(** Append a character to the line. *)
Lemma holds_append s x c :
  holds s x → (length (x.1 ++ x.2) < 128)%nat → 0 ≤ c < 256 →
  holds (set_ed (u32 (ed s + 1)) (set_buf (<[Z.to_nat (ed s mod INPUT_BUF) := u8 c]> (buf s)) s))
    (x.1, x.2 ++ [c]).
Proof.
  intros [(R & W & E & ? & ? & ? & ? & Hr & Hw & He & ->) Hb Hs Hp] Hlen Hc. simpl in *.
  rewrite length_app in Hlen. unfold INPUT_BUF in *.
  pose proof (length_window s R W ltac:(lia)). pose proof (length_window s W E ltac:(lia)).
  assert (ed s mod INPUT_BUF = E mod INPUT_BUF) as Hm.
  { rewrite He. unfold u32, INPUT_BUF. change (2 ^ 32) with (128 * 33554432).
    rewrite Z.rem_mul_r by lia. rewrite (Z.mul_comm 128), Z_mod_plus_full. by rewrite Zmod_mod. }
  unfold INPUT_BUF in Hm. rewrite Hm.
  assert (u8 c = c) as -> by (unfold u8; rewrite Z.mod_small; lia).
  split; simpl; [|by rewrite length_insert|done..].
  exists R, W, (E + 1). unfold INPUT_BUF. split_and!; [lia..|done|done| |].
  - rewrite He. autorewrite with u32. done.
  - set (s' := set_buf _ s). rewrite !(window_same s' (set_ed _ s')) by done.
    f_equal; [symmetry; apply (window_store s E); unfold INPUT_BUF; lia|].
    rewrite (window_snoc s' W (E + 1)) by lia. replace (E + 1 - 1) with E by lia. f_equal.
    + symmetry. apply (window_store s E); unfold INPUT_BUF; lia.
    + f_equal. symmetry. by apply cell_store.
Qed.

(** Give the line to the readers. *)
Lemma holds_commit s x : holds s x → holds (set_wr (ed s) s) (x.1 ++ x.2, []).
Proof.
  intros [(R & W & E & ? & ? & ? & ? & Hr & Hw & He & ->) Hb Hs Hp]. simpl.
  split; simpl; [|done..]. exists R, E, E. split_and!; [lia..|done|done|done|].
  rewrite !(window_same s (set_wr _ s)), window_nil, <-window_app by done. done.
Qed.

(** Take the first byte a reader can have, and put it back. *)
Lemma holds_take s c rest line :
  holds s (c :: rest, line) →
  cell s (rd s) = c ∧ holds (set_rd (u32 (rd s + 1)) s) (rest, line) ∧ u32 (rd s + 1 - 1) = rd s.
Proof.
  intros [(R & W & E & ? & ? & ? & ? & Hr & Hw & He & Hx) Hb Hs Hp]. simpl in *.
  assert (R < W) as Hlt.
  { destruct (decide (R = W)) as [->|]; [by rewrite window_nil in Hx|lia]. }
  rewrite (window_cons s R W Hlt) in Hx. injection Hx as -> -> ->.
  rewrite Hr, cell_u32. split; [done|]. split.
  - split; simpl; [|done..]. exists (R + 1), W, E. rewrite u32_add_l.
    unfold INPUT_BUF in *. split_and!; [lia..|done|done|done|]. by rewrite !(window_same s (set_rd _ s)).
  - replace (u32 R + 1 - 1) with (u32 R) by lia. apply u32_idemp.
Qed.

Lemma holds_used s x :
  holds s x →
  u32 (ed s - rd s) = Z.of_nat (length (x.1 ++ x.2)) ∧
  (ed s = u32 (rd s + INPUT_BUF) ↔ length (x.1 ++ x.2) = 128%nat).
Proof.
  intros [(R & W & E & ? & ? & ? & ? & Hr & Hw & He & ->) Hb Hs Hp]. simpl.
  rewrite length_app. unfold INPUT_BUF in *.
  pose proof (length_window s R W ltac:(lia)). pose proof (length_window s W E ltac:(lia)).
  rewrite Hr, He. autorewrite with u32. split; [rewrite u32_small; lia|]. split; intros Heq.
  - assert (E = R + 128); [|lia]. apply u32_inj; [done|lia].
  - f_equal. lia.
Qed.

(** A state of the console and the two lists it stands for. *)
Definition console (s : cons) (x : lines) : Prop := holds s x ∧ NL ∉ x.2.

Lemma not_in_removelast (l : list Z) c : c ∉ l → c ∉ removelast l.
Proof.
  destruct (decide (l = [])) as [->|Hne]; [done|]. destruct (exists_last Hne) as (l' & d & ->).
  rewrite removelast_last, not_elem_of_app. tauto.
Qed.

Lemma intr_char_spec c s x :
  console s x → 0 ≤ c < 256 →
  wpt (intr_char c) (λ o s', o = (spec_char c x).1 ∧ console s' (spec_char c x).2) s.
Proof.
  destruct x as [ready line]. intros [Hh Hnl] Hc. simpl in Hnl. unfold intr_char, spec_char.
  apply wpt_bind, wpt_get. pose proof (holds_length _ _ Hh) as Hlen. simpl in Hlen.
  case_bool_decide; [by apply wpt_ret|].
  case_bool_decide.
  { apply wpt_bind. eapply wpt_mono; [apply (kill_line_spec _ _ _ Hh Hnl)|].
    - simpl. unfold KILL_FUEL. rewrite length_app in Hlen. lia.
    - intros [] s' Hh'. apply wpt_ret. split; [done|]. split; [done|apply not_elem_of_nil]. }
  destruct (bool_decide (c = ctrl_H) || bool_decide (c = DEL)).
  { pose proof (holds_line_empty _ _ Hh) as He. simpl in He.
    destruct (decide (line = [])) as [->|Hne].
    - rewrite bool_decide_eq_false_2 by tauto. by apply wpt_ret.
    - rewrite bool_decide_eq_true_2 by tauto. destruct (holds_erase _ _ Hh Hne) as [_ Hh'].
      apply wpt_bind, wpt_modify, wpt_bind, (holds_putc _ _ _ _ Hh'). intros s' Hs' _.
      apply wpt_ret. split; [done|]. split; [done|]. by apply not_in_removelast. }
  destruct (holds_used _ _ Hh) as [Hu _]. simpl in Hu. rewrite Hu.
  assert (bool_decide (Z.of_nat (length (ready ++ line)) < INPUT_BUF) =
    bool_decide (length (ready ++ line) < 128)%nat) as ->.
  { apply bool_decide_ext. unfold INPUT_BUF. lia. }
  destruct (bool_decide (c ≠ 0) && bool_decide (length (ready ++ line) < 128)%nat) eqn:Ebr;
    [|by apply wpt_ret].
  apply andb_prop in Ebr as [_ Hlt%bool_decide_eq_true].
  set (c' := if bool_decide (c = CR) then NL else c). cbv zeta. fold c'.
  assert (0 ≤ c' < 256) as Hc' by (unfold c'; case_bool_decide; [done|lia]).
  pose proof (holds_append _ _ _ Hh Hlt Hc') as Ha. simpl in Ha.
  apply wpt_bind, wpt_modify, wpt_bind, wpt_modify, wpt_bind. apply (holds_putc _ _ _ _ Ha).
  intros s' Hs' Hi. apply wpt_bind, wpt_get. destruct (holds_used _ _ Hs') as [_ Hfull]. simpl in Hfull.
  assert (bool_decide (ed s' = u32 (rd s' + INPUT_BUF)) =
    bool_decide (length (ready ++ line ++ [c']) = 128%nat)) as -> by by apply bool_decide_ext.
  destruct (bool_decide (c' = NL)) eqn:E1; simpl.
  { apply wpt_bind, wpt_modify, wpt_ret. split; [done|].
    split; [by apply (holds_commit _ _ Hs')|apply not_elem_of_nil]. }
  apply bool_decide_eq_false in E1.
  destruct (bool_decide (c' = ctrl_D) || bool_decide (length (ready ++ line ++ [c']) = 128%nat)).
  - apply wpt_bind, wpt_modify, wpt_ret. split; [done|].
    split; [by apply (holds_commit _ _ Hs')|apply not_elem_of_nil].
  - apply wpt_ret. split; [done|]. split; [done|]. simpl.
    rewrite not_elem_of_app, list_elem_of_singleton. split; [done|congruence].
Qed.

Lemma consoleintr_spec cs s x :
  console s x → Forall (λ c, c < 256) cs →
  wpt (consoleintr cs) (λ o s', o = (spec_intr cs x).1 ∧ console s' (spec_intr cs x).2) s.
Proof.
  revert s x. induction cs as [|c cs IH]; intros s x Hs Hcs; simpl; [by apply wpt_ret|].
  apply Forall_cons in Hcs as [Hc Hcs]. case_bool_decide; [|by apply wpt_ret].
  apply wpt_bind. eapply wpt_mono; [by apply intr_char_spec|].
  destruct (spec_char c x) as [o1 x1]. simpl. intros o s1 [-> Hs1].
  apply wpt_bind. eapply wpt_mono; [by apply IH|].
  destruct (spec_intr cs x1) as [o2 x2]. simpl. intros o s2 [-> Hs2]. by apply wpt_ret.
Qed.

Lemma consoleread_spec killed target n got s ready line :
  console s (ready, line) →
  wpt (consoleread killed target n got)
    (λ o s', o = (spec_read killed target n got ready).1 ∧
      console s' ((spec_read killed target n got ready).2, line)) s.
Proof.
  revert got s ready. induction n as [|n IH]; intros got s ready [Hh Hnl]; [by apply wpt_ret|].
  cbn [consoleread spec_read]. apply wpt_bind, wpt_get.
  pose proof (holds_ready_empty _ _ Hh) as He. simpl in He. destruct ready as [|c rest].
  { rewrite bool_decide_eq_true_2 by tauto. by apply wpt_ret. }
  rewrite bool_decide_eq_false_2 by (intros E; by apply He in E).
  destruct (holds_take _ _ _ _ Hh) as (Hc & Ht & Hback). rewrite Hc.
  apply wpt_bind, wpt_modify. case_bool_decide.
  - apply wpt_bind. case_bool_decide.
    + apply wpt_modify, wpt_ret. split; [done|]. split; [|done]. simpl.
      rewrite u32_sub_l, Hback. by destruct s.
    + apply wpt_ret, wpt_ret. by split.
  - case_bool_decide; [by apply wpt_ret|]. by apply IH.
Qed.

(** *** Interrupts and reads in any order *)

Inductive op : Type :=
| OIntr (cs : list Z)
| ORead (killed : bool) (target n : nat) (got : list Z).

Inductive out : Type :=
| OutIntr (wake dump : bool)
| OutRead (r : rres).

Definition do_op (o : op) : M cons out :=
  match o with
  | OIntr cs => r ← consoleintr cs; mret (OutIntr r.1 r.2)
  | ORead killed target n got => r ← consoleread killed target n got; mret (OutRead r)
  end.

Definition spec_op (o : op) (x : lines) : out * lines :=
  match o with
  | OIntr cs => let '(r, x) := spec_intr cs x in (OutIntr r.1 r.2, x)
  | ORead killed target n got =>
      let '(r, ready) := spec_read killed target n got x.1 in (OutRead r, (ready, x.2))
  end.

Fixpoint do_ops (os : list op) : M cons (list out) :=
  match os with
  | [] => mret []
  | o :: os => r ← do_op o; rs ← do_ops os; mret (r :: rs)
  end.

Fixpoint spec_ops (os : list op) (x : lines) : list out * lines :=
  match os with
  | [] => ([], x)
  | o :: os => let '(r, x) := spec_op o x in let '(rs, x) := spec_ops os x in (r :: rs, x)
  end.

Definition op_ok (o : op) : Prop :=
  match o with OIntr cs => Forall (λ c, c < 256) cs | ORead _ _ _ _ => True end.

Lemma do_op_spec o s x :
  console s x → op_ok o →
  wpt (do_op o) (λ r s', r = (spec_op o x).1 ∧ console s' (spec_op o x).2) s.
Proof.
  intros Hs Ho. destruct o as [cs|killed target n got]; simpl; apply wpt_bind.
  - eapply wpt_mono; [by apply consoleintr_spec|]. destruct (spec_intr cs x) as [r x'].
    intros o s' [-> Hs']. by apply wpt_ret.
  - destruct x as [ready line]. eapply wpt_mono; [by apply consoleread_spec|]. simpl.
    destruct (spec_read _ _ _ _ _) as [r ready']. intros o s' [-> Hs']. by apply wpt_ret.
Qed.

(** C28: The ring buffer with its three wrapping indices is a line discipline: for
    every sequence of interrupts and reads, what the reads return, when they sleep
    and when they are woken is what the two lists say, and nothing panics or
    loops. *)
Theorem console_refines_lines os s x :
  console s x → Forall op_ok os →
  wpt (do_ops os) (λ rs s', rs = (spec_ops os x).1 ∧ console s' (spec_ops os x).2) s.
Proof.
  revert s x. induction os as [|o os IH]; intros s x Hs Hos; simpl; [by apply wpt_ret|].
  apply Forall_cons in Hos as [Ho Hos]. apply wpt_bind.
  eapply wpt_mono; [by apply do_op_spec|]. destruct (spec_op o x) as [r1 x1]. simpl.
  intros r s1 [-> Hs1]. apply wpt_bind. eapply wpt_mono; [by apply IH|].
  destruct (spec_ops os x1) as [rs x2]. simpl. intros rs' s2 [-> Hs2]. by apply wpt_ret.
Qed.

(** *** A typed line *)

Definition plain (c : Z) : Prop :=
  0 < c < 256 ∧ c ∉ [ctrl_P; ctrl_U; ctrl_H; ctrl_D; DEL; NL; CR].

#[global] Instance plain_dec c : Decision (plain c).
Proof. unfold plain. apply _. Defined.

Lemma spec_char_plain c ready line :
  plain c → (S (length (ready ++ line)) < 128)%nat →
  spec_char c (ready, line) = ((false, false), (ready, line ++ [c])).
Proof.
  intros [Hr Hc] Hl. rewrite !not_elem_of_cons in Hc. destruct_and! Hc. unfold spec_char.
  rewrite !length_app in *. simpl. 
  rewrite !(bool_decide_eq_false_2 (c = _)) by done. simpl.
  rewrite !bool_decide_eq_true_2 by lia. simpl.
  rewrite ?(bool_decide_eq_false_2 (c = _)) by done. simpl. by rewrite bool_decide_eq_false_2 by lia.
Qed.

Lemma spec_intr_plain l cs ready line :
  Forall plain l → (length (ready ++ line ++ l) < 128)%nat →
  spec_intr (l ++ cs) (ready, line) = spec_intr cs (ready, line ++ l).
Proof.
  revert line. induction l as [|c l IH]; intros line Hl Hlen; [by rewrite app_nil_r|].
  cbn [spec_intr app]. apply Forall_cons in Hl as [Hc Hl]. rewrite !length_app in Hlen. simpl in Hlen.
  rewrite bool_decide_eq_true_2 by (destruct Hc; lia).
  rewrite spec_char_plain by (rewrite ?length_app; done || lia). simpl.
  rewrite IH by (rewrite ?length_app; simpl; done || lia). rewrite <-app_assoc. simpl.
  by destruct (spec_intr cs _) as [[] ?].
Qed.

Lemma spec_read_line target n got l rest :
  Forall plain l → (length l < n)%nat →
  spec_read false target n got (l ++ NL :: rest) =
  (RReturn (Z.of_nat target - Z.of_nat (n - S (length l))) (got ++ l ++ [NL]), rest).
Proof.
  revert n got. induction l as [|c l IH]; intros [|n] got Hl Hn; simpl in *; try lia.
  - by rewrite Nat.sub_0_r.
  - apply Forall_cons in Hl as [[_ Hc] Hl]. rewrite !not_elem_of_cons in Hc. destruct_and! Hc.
    rewrite !bool_decide_eq_false_2 by done. rewrite IH by (done || lia). by rewrite <-app_assoc.
Qed.

(** A line of ordinary characters typed on the keyboard, a backspace after
    any wrong one, and ended by return, is what the next large enough read
    returns, with a newline at its end. *)
Theorem console_line_roundtrip s l wrong n :
  console s ([], []) → Forall plain l → plain wrong → (length l < 126)%nat → (length l < n)%nat →
  wpt (do_ops [OIntr (l ++ [wrong; ctrl_H; CR]); ORead false n n []])
    (λ rs s', rs = [OutIntr true false; OutRead (RReturn (Z.of_nat (length l) + 1) (l ++ [NL]))] ∧
      console s' ([], [])) s.
Proof.
  intros Hs Hl Hw Hlen Hn.
  assert (spec_intr (l ++ [wrong; ctrl_H; CR]) ([], []) = ((true, false), (l ++ [NL], []))) as Hi.
  { rewrite spec_intr_plain by (rewrite ?length_app; simpl; done || lia).
    change [wrong; ctrl_H; CR] with ([wrong] ++ [ctrl_H; CR]).
    rewrite spec_intr_plain by (rewrite ?length_app; simpl; (by constructor) || lia).
    simpl. rewrite removelast_last. simpl. by rewrite bool_decide_eq_true_2 by lia. }
  assert (op_ok (OIntr (l ++ [wrong; ctrl_H; CR]))) as Hok.
  { simpl. apply Forall_app. split; [|repeat constructor; by destruct Hw as [[? ?] ?]].
    eapply Forall_impl; [exact Hl|]. intros c [? _]. lia. }
  cbn [do_ops]. apply wpt_bind. eapply wpt_mono; [by apply do_op_spec|].
  unfold spec_op. rewrite Hi. simpl. intros r s1 [-> Hs1].
  apply wpt_bind, wpt_bind. eapply wpt_mono; [apply (do_op_spec (ORead false n n []) _ _ Hs1 I)|].
  unfold spec_op. cbn [fst snd]. rewrite (spec_read_line n n [] l []) by done. simpl. intros r s2 [-> Hs2].
  apply wpt_bind, wpt_ret, wpt_ret, wpt_ret. split; [|done]. do 4 f_equal. lia.
Qed.

(** *** A console at work *)

Definition demo : cons :=
  Cons (replicate 128 0) 0xfffffffe 0xfffffffe 0xfffffffe (λ _, 0) 0 0 [] false.

Lemma demo_console : console demo ([], []).
Proof.
  split; [|apply not_elem_of_nil]. split; [|done..].
  exists 0xfffffffe, 0xfffffffe, 0xfffffffe. split_and!; done.
Qed.

Lemma demo_displays : displays ([], []) (cursor demo) (crt demo).
Proof. split_and!; [simpl; lia|done|]. intros i j Hi Hj. destruct i; [|destruct i]; by left. Qed.

Lemma consolewrite_shows_witness :
  wpt (consolewrite [104; 105; 10; 36]) (λ n s', n = 4 ∧ input_of s' = input_of demo ∧
    displays ([[104; 105]], [36]) (cursor s') (crt s')) demo.
Proof. exact (consolewrite_shows ([], []) [104; 105; 10; 36] demo demo_displays eq_refl). Defined.

Lemma console_refines_lines_witness :
  wpt (do_ops [ORead false 5 5 []; OIntr [104; 105; 21; 111; 107; 10]; ORead false 5 5 []])
    (λ rs s', rs = [OutRead (RSleep 5 []); OutIntr true false; OutRead (RReturn 3 [111; 107; 10])] ∧
      console s' ([], [])) demo.
Proof.
  refine (console_refines_lines
    [ORead false 5 5 []; OIntr [104; 105; 21; 111; 107; 10]; ORead false 5 5 []] demo ([], [])
    demo_console _).
  repeat constructor.
Defined.

Lemma console_line_roundtrip_witness :
  wpt (do_ops [OIntr ([104; 105] ++ [120; ctrl_H; CR]); ORead false 10 10 []])
    (λ rs s', rs = [OutIntr true false; OutRead (RReturn 3 ([104; 105] ++ [NL]))] ∧
      console s' ([], [])) demo.
Proof.
  apply (console_line_roundtrip demo [104; 105] 120 10 demo_console);
    [apply (bool_decide_unpack _); by vm_compute..|simpl; lia|simpl; lia].
Defined.

End Console.
