(* ===== verification/Kbd.v ===== *)
(** * The keyboard

    [src/kbd.c] and [src/kbd.h]: the bytes of the keyboard controller become the
    characters that [consoleintr] of [Console] gets. *)

From S2P Require Import Prelude Console.

Module Kbd.

Definition KBSTATP : Z := 0x64.
Definition KBS_DIB : Z := 0x01.
Definition KBDATAP : Z := 0x60.
Definition NO : Z := 0.
Definition SHIFT : Z := Z.shiftl 1 0.
Definition CTL : Z := Z.shiftl 1 1.
Definition ALT : Z := Z.shiftl 1 2.
Definition CAPSLOCK : Z := Z.shiftl 1 3.
Definition NUMLOCK : Z := Z.shiftl 1 4.
Definition SCROLLLOCK : Z := Z.shiftl 1 5.
Definition E0ESC : Z := Z.shiftl 1 6.
Definition KEY_HOME : Z := 0xE0.
Definition KEY_END : Z := 0xE1.
Definition KEY_UP : Z := 0xE2.
Definition KEY_DN : Z := 0xE3.
Definition KEY_LF : Z := 0xE4.
Definition KEY_RT : Z := 0xE5.
Definition KEY_PGUP : Z := 0xE6.
Definition KEY_PGDN : Z := 0xE7.
Definition KEY_INS : Z := 0xE8.
Definition KEY_DEL : Z := 0xE9.

(** [C(x)], as a [uchar]. *)
Definition C (x : Z) : Z := u8 (x - 64).

(** An array of 256 [uchar] with the first elements given in order and some others
    by their index. *)
Definition table (l : list Z) (o : list (Z * Z)) : list Z :=
  foldl (λ t x, <[Z.to_nat x.1 := x.2]> t) (l ++ replicate (256 - length l) 0) o.

Definition shiftcode : list Z :=
  table [] [(0x1D, CTL); (0x2A, SHIFT); (0x36, SHIFT); (0x38, ALT); (0x9D, CTL); (0xB8, ALT)].

Definition togglecode : list Z :=
  table [] [(0x3A, CAPSLOCK); (0x45, NUMLOCK); (0x46, SCROLLLOCK)].

Definition normalmap : list Z :=
  table
    [NO; 0x1b; 49; 50; 51; 52; 53; 54; 55; 56; 57; 48; 45; 61; 8; 9;
     113; 119; 101; 114; 116; 121; 117; 105; 111; 112; 91; 93; 10; NO; 97; 115;
     100; 102; 103; 104; 106; 107; 108; 59; 39; 96; NO; 92; 122; 120; 99; 118;
     98; 110; 109; 44; 46; 47; NO; 42; NO; 32; NO; NO; NO; NO; NO; NO;
     NO; NO; NO; NO; NO; NO; NO; 55; 56; 57; 45; 52; 53; 54; 43; 49;
     50; 51; 48; 46; NO; NO; NO; NO]
    [(0x9C, 10); (0xB5, 47); (0xC8, KEY_UP); (0xD0, KEY_DN); (0xC9, KEY_PGUP); (0xD1, KEY_PGDN); (0xCB, KEY_LF); (0xCD, KEY_RT); (0x97, KEY_HOME); (0xCF, KEY_END); (0xD2, KEY_INS); (0xD3, KEY_DEL)].

Definition shiftmap : list Z :=
  table
    [NO; 27; 33; 64; 35; 36; 37; 94; 38; 42; 40; 41; 95; 43; 8; 9;
     81; 87; 69; 82; 84; 89; 85; 73; 79; 80; 123; 125; 10; NO; 65; 83;
     68; 70; 71; 72; 74; 75; 76; 58; 34; 126; NO; 124; 90; 88; 67; 86;
     66; 78; 77; 60; 62; 63; NO; 42; NO; 32; NO; NO; NO; NO; NO; NO;
     NO; NO; NO; NO; NO; NO; NO; 55; 56; 57; 45; 52; 53; 54; 43; 49;
     50; 51; 48; 46; NO; NO; NO; NO]
    [(0x9C, 10); (0xB5, 47); (0xC8, KEY_UP); (0xD0, KEY_DN); (0xC9, KEY_PGUP); (0xD1, KEY_PGDN); (0xCB, KEY_LF); (0xCD, KEY_RT); (0x97, KEY_HOME); (0xCF, KEY_END); (0xD2, KEY_INS); (0xD3, KEY_DEL)].

Definition ctlmap : list Z :=
  table
    [NO; NO; NO; NO; NO; NO; NO; NO; NO; NO; NO; NO; NO; NO; NO; NO;
     C 81; C 87; C 69; C 82; C 84; C 89; C 85; C 73; C 79; C 80; NO; NO; 13; NO; C 65; C 83;
     C 68; C 70; C 71; C 72; C 74; C 75; C 76; NO; NO; NO; NO; C 92; C 90; C 88; C 67; C 86;
     C 66; C 78; C 77; NO; NO; C 47; NO; NO]
    [(0x9C, 13); (0xB5, C 47); (0xC8, KEY_UP); (0xD0, KEY_DN); (0xC9, KEY_PGUP); (0xD1, KEY_PGDN); (0xCB, KEY_LF); (0xCD, KEY_RT); (0x97, KEY_HOME); (0xCF, KEY_END); (0xD2, KEY_INS); (0xD3, KEY_DEL)].

Definition charcode : list (list Z) := [normalmap; shiftmap; ctlmap; ctlmap].

(** The bytes that the controller has received, oldest first, and [shift]. *)
Record kbd : Type := mkKbd { codes : list Z; shift : Z }.

Definition set_codes (l : list Z) (k : kbd) : kbd := mkKbd l (shift k).
Definition set_shift (x : Z) (k : kbd) : kbd := mkKbd (codes k) x.

(** The ports of the controller. *)
Definition inb (port : Z) : M kbd Z := λ k,
  if bool_decide (port = KBSTATP) then Ok (if bool_decide (codes k = []) then 0 else KBS_DIB) k else
  if bool_decide (port = KBDATAP) then
    match codes k with
    | [] => Ok 0 k
    | c :: l => Ok c (set_codes l k)
    end
  else Ok 0 k.

Definition lookup_table (t : list Z) (i : Z) : M kbd Z := λ k,
  match t !! Z.to_nat i with
  | Some x => if bool_decide (0 ≤ i) then Ok x k else Undef "index" k
  | None => Undef "index" k
  end.

Definition has (x bit : Z) : bool := bool_decide (Z.land x bit ≠ 0).

(** From the key's code on: the new [shift] and the character. *)
Definition press (data : Z) : M kbd Z :=
  a ← lookup_table shiftcode data;
  modify (λ k, set_shift (Z.lor (shift k) a) k) ;;
  b ← lookup_table togglecode data;
  modify (λ k, set_shift (Z.lxor (shift k) b) k) ;;
  sh ← gets shift;
  match charcode !! Z.to_nat (Z.land sh (Z.lor CTL SHIFT)) with
  | None => undefined "charcode[]"
  | Some t =>
      c ← lookup_table t data;
      mret (if has sh CAPSLOCK then
              if bool_decide (97 ≤ c ≤ 122) then c + (65 - 97)
              else if bool_decide (65 ≤ c ≤ 90) then c + (97 - 65) else c
            else c)
  end.

Definition kbdgetc : M kbd Z :=
  st ← inb KBSTATP;
  if bool_decide (Z.land st KBS_DIB = 0) then mret (-1) else
  data ← inb KBDATAP;
  sh ← gets shift;
  if bool_decide (data = 0xE0) then
    modify (set_shift (Z.lor sh E0ESC)) ;; mret 0
  else if has data 0x80 then
    let data := if has sh E0ESC then data else Z.land data 0x7F in
    a ← lookup_table shiftcode data;
    modify (set_shift (Z.land sh (Z.lnot (Z.lor a E0ESC)))) ;; mret 0
  else if has sh E0ESC then
    modify (set_shift (Z.land sh (Z.lnot E0ESC))) ;; press (Z.lor data 0x80)
  else press data.

(** The values [getc] returns to the loop of [consoleintr] until one is negative. *)
Fixpoint getcs (fuel : nat) : M kbd (list Z) :=
  match fuel with
  | O => spin
  | S fuel =>
      c ← kbdgetc;
      if bool_decide (0 ≤ c) then cs ← getcs fuel; mret (c :: cs) else mret []
  end.

(** [kbdintr]: the keyboard and the console. *)
Definition kbdintr : M (kbd * Console.cons) (bool * bool) :=
  n ← gets (λ s, length (codes s.1));
  cs ← zoom fst (λ k s, (k, s.2)) (getcs (S n));
  zoom snd (λ x s, (s.1, x)) (Console.consoleintr cs).

(** Interrupts that find the bytes [bs], each with those that have come since the one
    before it. *)
Fixpoint kbdintrs (bs : list (list Z)) : M (kbd * Console.cons) (bool * bool) :=
  match bs with
  | [] => mret (false, false)
  | b :: bs =>
      modify (λ s, (set_codes (codes s.1 ++ b) s.1, s.2)) ;;
      o1 ← kbdintr;
      o2 ← kbdintrs bs;
      mret (o1.1 || o2.1, o1.2 || o2.2)
  end.

(** ** What the tables say *)

Definition tab (t : list Z) (i : Z) : Z := nth (Z.to_nat i) t 0.

Definition all_codes : list Z := seqZ 0 256.

Lemma all_codes_spec (P : Z → Prop) : Forall P all_codes → ∀ i, 0 ≤ i < 256 → P i.
Proof. intros H i Hi. rewrite Forall_forall in H. apply H, elem_of_seqZ. lia. Qed.

Definition byte (x : Z) : Prop := 0 ≤ x < 256.

Lemma lookup_table_eq t i k : length t = 256%nat → byte i → lookup_table t i k = Ok (tab t i) k.
Proof.
  intros Hl [H1 H2]. unfold lookup_table, tab. destruct (t !! Z.to_nat i) as [x|] eqn:E.
  - rewrite bool_decide_eq_true_2 by done. by rewrite (nth_lookup_Some _ _ _ _ E).
  - apply lookup_ge_None in E. lia.
Qed.

Lemma tables_length :
  length shiftcode = 256%nat ∧ length togglecode = 256%nat ∧ Forall (λ t, length t = 256%nat) charcode.
Proof. split_and!; [done|done|repeat constructor]. Qed.

(** ** Keys *)

(** A key has a code below 256; the controller sends the codes from 0x80 on with
    the prefix 0xE0. *)
Inductive key_event : Type :=
| Press (k : Z)
| Release (k : Z).

Definition event_key (e : key_event) : Z := match e with Press k | Release k => k end.

(** The bytes of an event. *)
Definition scan (e : key_event) : list Z :=
  match e with
  | Press k => if bool_decide (k < 0x80) then [k] else [0xE0; k - 0x80]
  | Release k => if bool_decide (k < 0x80) then [k + 0x80] else [0xE0; k]
  end.

(** No key has a code whose byte would be taken for the prefix. *)
Definition key_ok (e : key_event) : Prop :=
  byte (event_key e) ∧ match e with Press _ => True | Release k => k ≠ 0x60 ∧ k ≠ 0xE0 end.

(** [shift] after an event, by the tables, and the character of a key. *)
Definition key_shift (e : key_event) (sh : Z) : Z :=
  match e with
  | Press k => Z.lxor (Z.lor sh (tab shiftcode k)) (tab togglecode k)
  | Release k => Z.land sh (Z.lnot (tab shiftcode k))
  end.

Definition swap_case (c : Z) : Z :=
  if bool_decide (97 ≤ c ≤ 122) then c - 32 else if bool_decide (65 ≤ c ≤ 90) then c + 32 else c.

Definition key_char (sh k : Z) : Z :=
  let c := if has sh CTL then tab ctlmap k else if has sh SHIFT then tab shiftmap k else tab normalmap k in
  if has sh CAPSLOCK then swap_case c else c.

(** The keys on the board: those that are down, and the locks that are on. *)
Record keys : Type := Keys { down : list Z; locks : Z }.

(** The two keys of each modifier, and the keys of the locks. *)
Definition modifier (k : Z) : Z :=
  if bool_decide (k = 0x2A ∨ k = 0x36) then SHIFT
  else if bool_decide (k = 0x1D ∨ k = 0x9D) then CTL
  else if bool_decide (k = 0x38 ∨ k = 0xB8) then ALT else 0.
Definition lock_key (k : Z) : Z :=
  if bool_decide (k = 0x3A) then CAPSLOCK
  else if bool_decide (k = 0x45) then NUMLOCK
  else if bool_decide (k = 0x46) then SCROLLLOCK else 0.

(** The modifiers held down, and with them the locks. *)
Definition held (l : list Z) : Z := foldr (λ k h, Z.lor (modifier k) h) 0 l.
Definition mods (x : keys) : Z := Z.lor (held (down x)) (locks x).

Definition other_keys (k : Z) (l : list Z) : list Z := filter (λ j, j ≠ k) l.

Definition key_step (e : key_event) (x : keys) : keys :=
  match e with
  | Press k => Keys (k :: other_keys k (down x)) (Z.lxor (locks x) (lock_key k))
  | Release k => Keys (other_keys k (down x)) (locks x)
  end.

(** What is typed: the characters of the keys that have one, under the modifiers held
    and the locks on at that time. *)
Fixpoint typed (es : list key_event) (x : keys) : list Z * keys :=
  match es with
  | [] => ([], x)
  | e :: es =>
      let x := key_step e x in
      let '(cs, x') := typed es x in
      (match e with
       | Press k => if bool_decide (key_char (mods x) k = 0) then cs else key_char (mods x) k :: cs
       | Release _ => cs
       end, x')
  end.

(** The other key of the same modifier is not down. *)
Definition alone (e : key_event) (x : keys) : Prop :=
  Forall (λ j, j = event_key e ∨ modifier (event_key e) = 0 ∨ modifier j ≠ modifier (event_key e)) (down x).

(** At no time are both keys of a modifier down. *)
Fixpoint sensible (es : list key_event) (x : keys) : Prop :=
  match es with
  | [] => True
  | e :: es => key_ok e ∧ alone e x ∧ sensible es (key_step e x)
  end.

Definition keys_ok (x : keys) : Prop := locks x ∈ [0; 8; 16; 24; 32; 40; 48; 56].

(** ** Decoding *)

(** [shift] between two keys: the prefix has been dealt with. *)
Definition calm (sh : Z) : Prop := 0 ≤ sh < 64.

(** What a key does to [shift]: the bits that it holds down and toggles. *)
Definition kinds : list (Z * Z) :=
  [(0, 0); (SHIFT, 0); (CTL, 0); (ALT, 0); (0, CAPSLOCK); (0, NUMLOCK); (0, SCROLLLOCK)].

Lemma key_kind k : byte k → (tab shiftcode k, tab togglecode k) ∈ kinds.
Proof. intros Hk. pattern k. apply all_codes_spec; [|done]. apply (bool_decide_unpack _). vm_compute. exact I. Qed.

(** Facts about [shift] and a key, by trying all values. *)
Definition everywhere (P : Z → Z → Z → Prop) : Prop := Forall (λ sh, Forall (λ x, P sh x.1 x.2) kinds) (seqZ 0 64).

Lemma everywhere_elim P sh k : everywhere P → calm sh → byte k → P sh (tab shiftcode k) (tab togglecode k).
Proof.
  intros H Hsh Hk%key_kind. unfold everywhere in H. rewrite Forall_forall in H.
  assert (Hin : sh ∈ seqZ 0 64) by (apply elem_of_seqZ; unfold calm in Hsh; lia).
  specialize (H sh Hin). rewrite Forall_forall in H. exact (H _ Hk).
Qed.

Definition calm_step (sh a b : Z) : Prop :=
  calm (Z.lxor (Z.lor sh a) b) ∧ calm (Z.land sh (Z.lnot a)) ∧
  Z.land sh (Z.lnot (Z.lor a E0ESC)) = Z.land sh (Z.lnot a) ∧
  Z.land (Z.lor sh E0ESC) (Z.lnot (Z.lor a E0ESC)) = Z.land sh (Z.lnot a) ∧
  Z.land (Z.lor sh E0ESC) (Z.lnot E0ESC) = sh ∧ has sh E0ESC = false ∧ has (Z.lor sh E0ESC) E0ESC = true.

Lemma calm_steps sh k : calm sh → byte k → calm_step sh (tab shiftcode k) (tab togglecode k).
Proof. intros ??. apply everywhere_elim; [|done|done]. apply (bool_decide_unpack _). vm_compute. exact I. Qed.

Lemma key_shift_calm e sh : calm sh → byte (event_key e) → calm (key_shift e sh).
Proof. intros Hsh Hk. destruct (calm_steps sh _ Hsh Hk) as (H1 & H2 & _). by destruct e. Qed.

(** *** The modifiers *)

Lemma modifier_table k : byte k → modifier k = tab shiftcode k ∧ lock_key k = tab togglecode k.
Proof. intros Hk. pattern k. apply all_codes_spec; [|done]. apply (bool_decide_unpack _). vm_compute. exact I. Qed.

Lemma modifier_cases k : modifier k ∈ [0; SHIFT; CTL; ALT].
Proof. unfold modifier. repeat case_bool_decide; set_solver. Qed.

Lemma modifier_disjoint j k : modifier j ≠ modifier k → Z.land (modifier j) (modifier k) = 0.
Proof.
  intros Hne. pose proof (modifier_cases j) as Hj. pose proof (modifier_cases k) as Hk. rewrite !elem_of_cons, elem_of_nil in Hj, Hk.
  destruct Hj as [Hj|[Hj|[Hj|[Hj|[]]]]], Hk as [Hk|[Hk|[Hk|[Hk|[]]]]]; rewrite Hj, Hk in *; reflexivity || by destruct Hne.
Qed.

Lemma held_range l : held l ∈ seqZ 0 8.
Proof.
  assert (Hall : Forall (λ h, Forall (λ a, Z.lor a h ∈ seqZ 0 8) [0; SHIFT; CTL; ALT]) (seqZ 0 8)) by (apply (bool_decide_unpack _); vm_compute; exact I).
  induction l as [|k l IH]; [by apply elem_of_seqZ|]. cbn [held foldr]. rewrite Forall_forall in Hall. specialize (Hall _ IH).
  rewrite Forall_forall in Hall. exact (Hall _ (modifier_cases k)).
Qed.

Lemma others_notin k l : k ∉ l → other_keys k l = l.
Proof.
  unfold other_keys. induction l as [|j l IH]; [done|]. intros [Hne Hl]%not_elem_of_cons. rewrite filter_cons, decide_True by done. by rewrite IH.
Qed.

(** The key itself and the other ones. *)
Lemma held_others k l : held l = held (other_keys k l) ∨ held l = Z.lor (modifier k) (held (other_keys k l)).
Proof.
  assert (Hor : Z.lor (modifier k) (held l) = Z.lor (modifier k) (held (other_keys k l))).
  { unfold other_keys. induction l as [|j l IH]; [done|]. rewrite filter_cons. cbn [held foldr]. destruct (decide (j ≠ k)) as [Hne|Heq].
    - cbn [held foldr]. rewrite !Z.lor_assoc, !(Z.lor_comm (modifier k)), <- !Z.lor_assoc. f_equal. exact IH.
    - assert (j = k) as -> by (destruct (decide (j = k)); [done|by destruct Heq]). rewrite Z.lor_assoc, Z.lor_diag. exact IH. }
  destruct (decide (k ∈ l)) as [Hin|Hnot]; [right|left; by rewrite others_notin]. rewrite <- Hor. clear Hor.
  induction l as [|j l IH]; [by apply elem_of_nil in Hin|]. cbn [held foldr]. apply elem_of_cons in Hin as [->|Hin].
  - by rewrite Z.lor_assoc, Z.lor_diag.
  - rewrite Z.lor_assoc, (Z.lor_comm (modifier k)), <- Z.lor_assoc. f_equal. by apply IH.
Qed.

Lemma held_alone e x : alone e x → Z.land (held (other_keys (event_key e) (down x))) (modifier (event_key e)) = 0.
Proof.
  unfold alone, other_keys. induction 1 as [|j l Hj _ IH]; [done|]. rewrite filter_cons. destruct (decide (j ≠ event_key e)) as [Hne|]; [|done].
  cbn [held foldr]. rewrite Z.land_lor_distr_l. destruct Hj as [?|[Hz|Hj]]; [done| |].
  - by rewrite Hz, !Z.land_0_r.
  - rewrite modifier_disjoint by done. exact IH.
Qed.

(** The bits, by trying all values. *)
Definition mods_step (h l a b : Z) : Prop :=
  Z.land h a = 0 →
  Z.lxor (Z.lor (Z.lor h l) a) b = Z.lor (Z.lor a h) (Z.lxor l b) ∧
  Z.lxor (Z.lor (Z.lor (Z.lor a h) l) a) b = Z.lor (Z.lor a h) (Z.lxor l b) ∧
  Z.land (Z.lor h l) (Z.lnot a) = Z.lor h l ∧ Z.land (Z.lor (Z.lor a h) l) (Z.lnot a) = Z.lor h l ∧
  Z.lxor l b ∈ [0; 8; 16; 24; 32; 40; 48; 56] ∧ calm (Z.lor h l).

Lemma mods_steps h l k : h ∈ seqZ 0 8 → l ∈ [0; 8; 16; 24; 32; 40; 48; 56] → byte k → mods_step h l (tab shiftcode k) (tab togglecode k).
Proof.
  intros Hh Hl Hk%key_kind. assert (Hall : Forall (λ h, Forall (λ l, Forall (λ x, mods_step h l x.1 x.2) kinds)
    [0; 8; 16; 24; 32; 40; 48; 56]) (seqZ 0 8)) by (apply (bool_decide_unpack _); vm_compute; exact I).
  rewrite Forall_forall in Hall. specialize (Hall _ Hh). rewrite Forall_forall in Hall. specialize (Hall _ Hl).
  rewrite Forall_forall in Hall. exact (Hall _ Hk).
Qed.

Lemma mods_calm x : keys_ok x → calm (mods x).
Proof. intros Hx. by destruct (mods_steps (held (down x)) (locks x) 0 (held_range _) Hx ltac:(done) (Z.land_0_r _)) as (_ & _ & _ & _ & _ & ?). Qed.

(** As long as the keys of a modifier are not down together, [shift] has the modifiers
    held and the locks. *)
Lemma key_shift_mods e x :
  keys_ok x → byte (event_key e) → alone e x → key_shift e (mods x) = mods (key_step e x) ∧ keys_ok (key_step e x).
Proof.
  intros Hx Hk Ha. pose proof (held_alone e x Ha) as Hd. destruct (modifier_table _ Hk) as [Em El]. rewrite Em in Hd.
  destruct (mods_steps (held (other_keys (event_key e) (down x))) (locks x) _ (held_range _) Hx Hk Hd) as (H1 & H2 & H3 & H4 & H5 & _).
  pose proof (held_others (event_key e) (down x)) as Hor. rewrite Em in Hor.
  destruct e as [k|k]; cbn [event_key key_shift key_step] in *; unfold mods, keys_ok; cbn [down locks held foldr]; rewrite ?Em, ?El; (split; [|done]);
    fold (held (other_keys k (down x))); by destruct Hor as [->| ->].
Qed.

Lemma charcode_calm sh : calm sh →
  charcode !! Z.to_nat (Z.land sh (Z.lor CTL SHIFT)) =
    Some (if has sh CTL then ctlmap else if has sh SHIFT then shiftmap else normalmap).
Proof.
  intros Hsh. assert (Hall : Forall (λ sh, Z.land sh (Z.lor CTL SHIFT) =
    if has sh CTL then if has sh SHIFT then 3 else 2 else if has sh SHIFT then 1 else 0) (seqZ 0 64))
    by (apply (bool_decide_unpack _); vm_compute; exact I).
  rewrite Forall_forall in Hall. rewrite Hall by (apply elem_of_seqZ; unfold calm in Hsh; lia).
  by destruct (has sh CTL), (has sh SHIFT).
Qed.

Lemma press_eq k l sh :
  calm sh → byte k →
  press k (mkKbd l sh) = Ok (key_char (key_shift (Press k) sh) k) (mkKbd l (key_shift (Press k) sh)).
Proof.
  intros Hsh Hk. destruct tables_length as (H1 & H2 & H3). unfold press.
  rewrite (bind_step _ _ _ _ _ (lookup_table_eq shiftcode k _ H1 Hk)).
  rewrite (bind_step _ _ _ tt (mkKbd l (Z.lor sh (tab shiftcode k)))) by done.
  rewrite (bind_step _ _ _ _ _ (lookup_table_eq togglecode k _ H2 Hk)).
  set (sh' := key_shift (Press k) sh). rewrite (bind_step _ _ _ tt (mkKbd l sh')) by done.
  rewrite (bind_step _ _ _ sh' (mkKbd l sh')) by done.
  rewrite charcode_calm by (by apply key_shift_calm). set (t := if has sh' CTL then _ else _).
  assert (Ht : length t = 256%nat) by (unfold t; destruct (has sh' CTL), (has sh' SHIFT); done).
  rewrite (bind_step _ _ _ _ _ (lookup_table_eq t k _ Ht Hk)). unfold mret, M_ret, key_char. f_equal.
  assert (Hc : tab t k = if has sh' CTL then tab ctlmap k else if has sh' SHIFT then tab shiftmap k else tab normalmap k)
    by (unfold t; destruct (has sh' CTL), (has sh' SHIFT); done).
  rewrite Hc. unfold swap_case. destruct (has sh' CAPSLOCK); [|done]. repeat case_bool_decide; lia.
Qed.

(** The first byte of the controller. *)
Lemma kbdgetc_byte c l sh :
  kbdgetc (mkKbd (c :: l) sh) =
    (if bool_decide (c = 0xE0) then modify (set_shift (Z.lor sh E0ESC)) ;; mret 0
     else if has c 0x80 then
       a ← lookup_table shiftcode (if has sh E0ESC then c else Z.land c 0x7F);
       modify (set_shift (Z.land sh (Z.lnot (Z.lor a E0ESC)))) ;; mret 0
     else if has sh E0ESC then
       modify (set_shift (Z.land sh (Z.lnot E0ESC))) ;; press (Z.lor c 0x80)
     else press c) (mkKbd l sh).
Proof. done. Qed.

Lemma has_low c : byte c → has c 0x80 = bool_decide (0x80 ≤ c) ∧ (0x80 ≤ c → Z.land c 0x7F = c - 0x80) ∧
  (c < 0x80 → Z.lor c 0x80 = c + 0x80).
Proof. intros Hc. pattern c. apply all_codes_spec; [|done]. apply (bool_decide_unpack _). vm_compute. exact I. Qed.

(** A single byte, without and after the prefix. *)
Lemma kbdgetc_plain c l sh :
  calm sh → byte c → c ≠ 0xE0 →
  kbdgetc (mkKbd (c :: l) sh) =
    if bool_decide (c < 0x80) then Ok (key_char (key_shift (Press c) sh) c) (mkKbd l (key_shift (Press c) sh))
    else Ok 0 (mkKbd l (key_shift (Release (c - 0x80)) sh)).
Proof.
  intros Hsh Hc Hne. rewrite kbdgetc_byte, bool_decide_eq_false_2 by done. destruct (has_low c Hc) as (-> & H7 & _).
  destruct (calm_steps sh 0 Hsh ltac:(done)) as (_ & _ & _ & _ & _ & -> & _). unfold byte in Hc.
  destruct (decide (c < 0x80)) as [Hlt|Hge].
  - rewrite (bool_decide_eq_false_2 (0x80 ≤ c)), (bool_decide_eq_true_2 (c < 0x80)) by lia. by apply press_eq.
  - rewrite (bool_decide_eq_true_2 (0x80 ≤ c)), (bool_decide_eq_false_2 (c < 0x80)), H7 by lia.
    assert (Hb : byte (c - 0x80)) by (unfold byte; lia). destruct tables_length as (H1 & _).
    rewrite (bind_step _ _ _ _ _ (lookup_table_eq shiftcode _ _ H1 Hb)).
    destruct (calm_steps sh _ Hsh Hb) as (_ & _ & -> & _). done.
Qed.

Lemma kbdgetc_escaped c l sh :
  calm sh → byte c → c ≠ 0xE0 →
  kbdgetc (mkKbd (c :: l) (Z.lor sh E0ESC)) =
    if bool_decide (c < 0x80) then
      Ok (key_char (key_shift (Press (c + 0x80)) sh) (c + 0x80)) (mkKbd l (key_shift (Press (c + 0x80)) sh))
    else Ok 0 (mkKbd l (key_shift (Release c) sh)).
Proof.
  intros Hsh Hc Hne. rewrite kbdgetc_byte, bool_decide_eq_false_2 by done. destruct (has_low c Hc) as (-> & _ & H8).
  destruct (calm_steps sh 0 Hsh ltac:(done)) as (_ & _ & _ & _ & E1 & _ & ->). unfold byte in Hc.
  destruct (decide (c < 0x80)) as [Hlt|Hge].
  - rewrite (bool_decide_eq_false_2 (0x80 ≤ c)), (bool_decide_eq_true_2 (c < 0x80)), H8, E1 by lia.
    rewrite (bind_step _ _ _ tt (mkKbd l sh)) by done. apply press_eq; [done|unfold byte; lia].
  - rewrite (bool_decide_eq_true_2 (0x80 ≤ c)), (bool_decide_eq_false_2 (c < 0x80)) by lia. destruct tables_length as (H1 & _).
    rewrite (bind_step _ _ _ _ _ (lookup_table_eq shiftcode c _ H1 Hc)).
    destruct (calm_steps sh c Hsh Hc) as (_ & _ & _ & -> & _). done.
Qed.

Lemma kbdgetc_prefix l sh : kbdgetc (mkKbd (0xE0 :: l) sh) = Ok 0 (mkKbd l (Z.lor sh E0ESC)).
Proof. done. Qed.

Lemma key_char_byte sh k : byte k → byte (key_char sh k).
Proof.
  intros Hk. assert (Hall : Forall (λ k, byte (tab ctlmap k) ∧ byte (tab shiftmap k) ∧ byte (tab normalmap k)) all_codes)
    by (apply (bool_decide_unpack _); vm_compute; exact I).
  destruct (all_codes_spec _ Hall k Hk) as (H1 & H2 & H3). unfold key_char, swap_case, byte in *.
  destruct (has sh CTL), (has sh SHIFT), (has sh CAPSLOCK); repeat case_bool_decide; lia.
Qed.

(** A byte is decoded whatever comes after it. *)
Lemma kbdgetc_one c sh :
  byte c → 0 ≤ sh < 128 → ∃ x sh', byte x ∧ 0 ≤ sh' < 128 ∧ ∀ l, kbdgetc (mkKbd (c :: l) sh) = Ok x (mkKbd l sh').
Proof.
  intros Hc Hsh.
  assert (Hup : ∀ x, calm x → 0 ≤ Z.lor x E0ESC < 128 ∧ Z.lor x E0ESC = x + 64).
  { intros x Hx. assert (Hall : Forall (λ x, 0 ≤ Z.lor x E0ESC < 128 ∧ Z.lor x E0ESC = x + 64) (seqZ 0 64)) by (apply (bool_decide_unpack _); vm_compute; exact I).
    rewrite Forall_forall in Hall. apply Hall, elem_of_seqZ. unfold calm in Hx. lia. }
  assert (Hsplit : calm sh ∨ ∃ sh0, calm sh0 ∧ sh = Z.lor sh0 E0ESC).
  { destruct (decide (sh < 64)); [left; unfold calm; lia|right]. exists (sh - 64). assert (calm (sh - 64)) as Hcalm by (unfold calm; lia).
    split; [done|]. destruct (Hup _ Hcalm). lia. }
  assert (Hin : ∀ x, calm x → 0 ≤ x < 128) by (unfold calm; lia). destruct (decide (c = 0xE0)) as [->|Hne].
  { exists 0, (Z.lor sh E0ESC). split; [done|]. split; [|intros l; apply kbdgetc_prefix].
    destruct Hsplit as [Hcalm|(sh0 & H0 & ->)]; [by apply Hup|]. rewrite <- Z.lor_assoc. by apply Hup. }
  assert (Hb : c < 0x80 → byte (c + 0x80)) by (unfold byte in *; lia). assert (Hb' : ¬ c < 0x80 → byte (c - 0x80)) by (unfold byte in *; lia).
  destruct Hsplit as [Hcalm|(sh0 & H0 & ->)], (decide (c < 0x80)) as [Hlt|Hge]; do 2 eexists;
    (split; [|split; [|intros l; (rewrite kbdgetc_plain by done) || (rewrite kbdgetc_escaped by done);
      (rewrite (bool_decide_eq_true_2 _ Hlt) || rewrite (bool_decide_eq_false_2 _ Hge)); reflexivity]]);
    first [by apply Hin, key_shift_calm; [|auto] | by apply key_char_byte; auto | done].
Qed.

(** C29: [kbdgetc] on any bytes never reads outside its tables; it returns -1 exactly
    when the controller has no byte, and a character otherwise; and [shift] keeps
    to its seven bits. *)
Theorem kbdgetc_type l sh :
  Forall byte l → 0 ≤ sh < 128 →
  ∃ c l' sh', kbdgetc (mkKbd l sh) = Ok c (mkKbd l' sh') ∧ Forall byte l' ∧ 0 ≤ sh' < 128 ∧
    (if bool_decide (l = []) then c = -1 ∧ l' = [] else byte c ∧ l' = tail l).
Proof.
  intros Hl Hsh. destruct l as [|c l]; [by exists (-1), [], sh|]. apply Forall_cons in Hl as [Hc Hl].
  rewrite bool_decide_eq_false_2 by done. destruct (kbdgetc_one c sh Hc Hsh) as (x & sh' & Hx & Hsh' & E). by exists x, l, sh'.
Qed.

(** ** From keys to lines *)

(** What [kbdgetc] returns for the bytes of an event. *)
Definition event_codes (e : key_event) (sh : Z) : list Z :=
  (if bool_decide (event_key e < 0x80) then [] else [0]) ++
  [match e with Press k => key_char (key_shift e sh) k | Release _ => 0 end].

Lemma getcs_cons n c k k' :
  kbdgetc k = Ok c k' → 0 ≤ c → getcs (S n) k = (cs ← getcs n; mret (c :: cs)) k'.
Proof. intros E Hc. cbn [getcs]. rewrite (bind_step _ _ _ _ _ E). by rewrite bool_decide_eq_true_2. Qed.

Lemma getcs_event e l sh n cs k :
  calm sh → key_ok e → getcs n (mkKbd l (key_shift e sh)) = Ok cs k →
  getcs (length (scan e) + n) (mkKbd (scan e ++ l) sh) = Ok (event_codes e sh ++ cs) k.
Proof.
  intros Hsh [Hk He] E. unfold event_codes. destruct e as [q|q]; cbn [event_key scan] in *.
  - assert (Hc : 0 ≤ key_char (key_shift (Press q) sh) q) by by apply key_char_byte.
    case_bool_decide as Hlt; cbn [length app Nat.add].
    + erewrite getcs_cons; [|rewrite kbdgetc_plain by (done || lia); by rewrite bool_decide_eq_true_2|done].
      by rewrite (bind_step _ _ _ _ _ E).
    + rewrite (getcs_cons _ 0 _ _ (kbdgetc_prefix _ _)) by done.
      rewrite (bind_step _ _ _ (key_char (key_shift (Press q) sh) q :: cs) k); [done|]. unfold byte in Hk.
      erewrite getcs_cons; [|rewrite kbdgetc_escaped by (done || unfold byte; lia); rewrite bool_decide_eq_true_2 by lia;
        replace (q - 0x80 + 0x80) with q by lia; reflexivity|done].
      by rewrite (bind_step _ _ _ _ _ E).
  - unfold byte in Hk. case_bool_decide as Hlt; cbn [length app Nat.add].
    + erewrite getcs_cons; [|rewrite kbdgetc_plain by (done || unfold byte; lia); rewrite bool_decide_eq_false_2 by lia;
        replace (q + 0x80 - 0x80) with q by lia; reflexivity|done].
      by rewrite (bind_step _ _ _ _ _ E).
    + rewrite (getcs_cons _ 0 _ _ (kbdgetc_prefix _ _)) by done.
      rewrite (bind_step _ _ _ (0 :: cs) k); [done|].
      erewrite getcs_cons; [|rewrite kbdgetc_escaped by (done || unfold byte; lia); rewrite bool_decide_eq_false_2 by lia; reflexivity|done].
      by rewrite (bind_step _ _ _ _ _ E).
Qed.

Lemma event_codes_ok e sh : byte (event_key e) → Forall byte (event_codes e sh).
Proof.
  intros Hk. unfold event_codes. apply Forall_app. split; [case_bool_decide; repeat constructor; unfold byte; lia|].
  constructor; [|constructor]. destruct e; [by apply key_char_byte|unfold byte; lia].
Qed.

Lemma getcs_events es : ∀ x, keys_ok x → sensible es x →
  ∃ cs, getcs (S (length (es ≫= scan))) (mkKbd (es ≫= scan) (mods x)) = Ok cs (mkKbd [] (mods (typed es x).2)) ∧
    Forall byte cs ∧ filter (λ c, c ≠ 0) cs = (typed es x).1.
Proof.
  induction es as [|e es IH]; intros x Hx Hes; [by exists []|]. destruct Hes as (He & Ha & Hes).
  destruct (key_shift_mods e x Hx (proj1 He) Ha) as [Em Hx']. destruct (IH (key_step e x) Hx' Hes) as (cs & E & Hcs & Hf).
  exists (event_codes e (mods x) ++ cs). split_and!.
  - cbn [mbind list_bind]. rewrite length_app, plus_n_Sm. cbn [typed]. destruct (typed es (key_step e x)) as [c2 s2].
    apply getcs_event; [by apply mods_calm|done|by rewrite Em].
  - apply Forall_app. split; [apply event_codes_ok, He|done].
  - rewrite filter_app, Hf. cbn [typed]. destruct (typed es (key_step e x)) as [c2 s2]. unfold event_codes. rewrite filter_app, Em.
    assert (Hz : filter (λ c : Z, c ≠ 0) (if bool_decide (event_key e < 128) then [] else [0]) = []) by by case_bool_decide.
    rewrite Hz. destruct e as [q|q]; [|done]. cbn [app]. rewrite filter_cons, filter_nil. set (c := key_char _ q).
    destruct (decide (c ≠ 0)) as [Hne|Heq]; [by rewrite bool_decide_eq_false_2|].
    rewrite bool_decide_eq_true_2; [done|]. destruct (decide (c = 0)); [done|by destruct Heq].
Qed.

(** *** Bytes that come in parts *)

Lemma getcs_app l1 l2 : ∀ sh, Forall byte l1 → 0 ≤ sh < 128 →
  ∃ cs1 sh1, getcs (S (length l1)) (mkKbd l1 sh) = Ok cs1 (mkKbd [] sh1) ∧ Forall byte cs1 ∧ 0 ≤ sh1 < 128 ∧
    ∀ cs k, getcs (S (length (l1 ++ l2))) (mkKbd (l1 ++ l2) sh) = Ok cs k →
      ∃ cs2, cs = cs1 ++ cs2 ∧ getcs (S (length l2)) (mkKbd l2 sh1) = Ok cs2 k.
Proof.
  induction l1 as [|c l1 IH]; intros sh Hl Hsh.
  { exists [], sh. split_and!; [done|constructor|lia|lia|]. intros cs k E. by exists cs. }
  apply Forall_cons in Hl as [Hc Hl]. destruct (kbdgetc_one c sh Hc Hsh) as (x & sh' & Hx & Hsh' & E).
  destruct (IH sh' Hl Hsh') as (cs1 & sh1 & E1 & Hcs1 & Hsh1 & Happ). exists (x :: cs1), sh1.
  pose proof (proj1 Hx) as Hx0. split_and!; [|by constructor|lia|lia|].
  - cbn [length]. rewrite (getcs_cons _ _ _ _ (E _) Hx0). by rewrite (bind_step _ _ _ _ _ E1).
  - intros cs k. cbn [app length]. rewrite (getcs_cons _ _ _ _ (E _) Hx0). unfold mbind, M_bind.
    destruct (getcs (S (length (l1 ++ l2))) (mkKbd (l1 ++ l2) sh')) as [cs' k'| | |] eqn:E2; [|done..]. intros [= <- <-].
    destruct (Happ cs' k' eq_refl) as (cs2 & -> & H2). by exists cs2.
Qed.

Lemma spec_intr_app cs1 cs2 : ∀ x, Forall byte cs1 →
  Console.spec_intr (cs1 ++ cs2) x =
    let '(o1, x1) := Console.spec_intr cs1 x in
    let '(o2, x2) := Console.spec_intr cs2 x1 in ((o1.1 || o2.1, o1.2 || o2.2), x2).
Proof.
  induction cs1 as [|c cs1 IH]; intros x Hcs; cbn [app Console.spec_intr]; [by destruct (Console.spec_intr cs2 x) as [[] ?]|].
  apply Forall_cons in Hcs as [[Hc _] Hcs]. rewrite bool_decide_eq_true_2 by done. destruct (Console.spec_char c x) as [o1 x1].
  rewrite IH by done. destruct (Console.spec_intr cs1 x1) as [o2 x2]. destruct (Console.spec_intr cs2 x2) as [o3 x3]. cbn.
  by rewrite !orb_assoc.
Qed.

Lemma kbdintr_ok l sh s x cs k :
  Console.console s x → Forall byte cs → getcs (S (length l)) (mkKbd l sh) = Ok cs k →
  wpt kbdintr (λ o st, st.1 = k ∧ o = (Console.spec_intr cs x).1 ∧ Console.console st.2 (Console.spec_intr cs x).2) (mkKbd l sh, s).
Proof.
  intros Hs Hcs E. assert (Hi := Console.consoleintr_spec cs s x Hs ltac:(eapply Forall_impl; [exact Hcs|]; by intros c [_ ?])).
  unfold wpt in *. unfold kbdintr. rewrite (bind_step _ _ _ (length l) (mkKbd l sh, s)) by done.
  unfold mbind at 1, M_bind at 1, zoom at 1. cbn [fst snd]. rewrite E. unfold zoom. cbn [fst snd].
  destruct (Console.consoleintr cs s) as [o s'| | |]; [|done..]. by destruct Hi.
Qed.

Lemma kbdintrs_ok bs : ∀ sh s x cs sh',
  Forall byte (concat bs) → 0 ≤ sh < 128 → Console.console s x →
  getcs (S (length (concat bs))) (mkKbd (concat bs) sh) = Ok cs (mkKbd [] sh') →
  wpt (kbdintrs bs) (λ o st, st.1 = mkKbd [] sh' ∧ o = (Console.spec_intr cs x).1 ∧ Console.console st.2 (Console.spec_intr cs x).2)
    (mkKbd [] sh, s).
Proof.
  induction bs as [|b bs IH]; intros sh s x cs sh' Hb Hsh Hs E; cbn [concat kbdintrs] in *.
  { injection E as <- <-. by apply wpt_ret. }
  apply Forall_app in Hb as [Hb Hbs]. destruct (getcs_app b (concat bs) sh Hb Hsh) as (cs1 & sh1 & E1 & Hcs1 & Hsh1 & Happ).
  destruct (Happ _ _ E) as (cs2 & -> & E2). apply wpt_bind, wpt_modify. cbn [fst snd codes set_codes app shift].
  apply wpt_bind. eapply wpt_mono; [by apply (kbdintr_ok b sh s x cs1 _ Hs Hcs1 E1)|]. intros o1 [k s1] (Ek & -> & Hs1). cbn [fst snd] in *. subst k.
  apply wpt_bind. eapply wpt_mono; [by apply (IH sh1 s1 _ cs2 sh' Hbs Hsh1 Hs1 E2)|]. intros o2 [k s2] (Ek & -> & Hs2). cbn [fst snd] in *. subst k.
  apply wpt_ret. rewrite spec_intr_app by done. destruct (Console.spec_intr cs1 x) as [o1 x1]. cbn [fst snd] in *.
  by destruct (Console.spec_intr cs2 x1) as [o2 x2].
Qed.

Lemma scan_bytes es x : sensible es x → Forall byte (es ≫= scan).
Proof.
  revert x. induction es as [|e es IH]; intros x; [constructor|]. intros ([Hk He] & _ & Hes). cbn [mbind list_bind]. apply Forall_app.
  split; [|by eapply IH]. unfold byte in Hk. destruct e as [k|k]; cbn [scan event_key] in *; case_bool_decide; repeat constructor; unfold byte; lia.
Qed.

Lemma spec_char_zero x : Console.spec_char 0 x = ((false, false), x).
Proof. by destruct x. Qed.

(** The console ignores zeros. *)
Lemma spec_intr_filter cs : ∀ x, Forall byte cs → Console.spec_intr cs x = Console.spec_intr (filter (λ c, c ≠ 0) cs) x.
Proof.
  induction cs as [|c cs IH]; intros x Hcs; [done|]. apply Forall_cons in Hcs as [[Hc _] Hcs]. rewrite filter_cons.
  destruct (decide (c ≠ 0)) as [Hne|Hz]; cbn [Console.spec_intr]; rewrite bool_decide_eq_true_2 by done.
  - destruct (Console.spec_char c x) as [o1 x1]. by rewrite IH.
  - assert (c = 0) as -> by (destruct (decide (c = 0)); [done|by destruct Hz]). rewrite spec_char_zero, IH by done.
    by destruct (Console.spec_intr _ x) as [[] ?].
Qed.

(** C30: From the keys to the lines: for keys that are pressed and released, but for both
    keys of a modifier (the two shift keys, say) held at the same time, and however
    their bytes are spread over interrupts, also between the prefix of a key and its
    code, the interrupts have given the console what was typed, with the modifiers
    held and the locks on at each key, and nothing else. *)
Theorem keyboard_types_lines bs es x s c :
  keys_ok x → sensible es x → Console.console s c → concat bs = es ≫= scan →
  wpt (kbdintrs bs) (λ o st, st.1 = mkKbd [] (mods (typed es x).2) ∧ o = (Console.spec_intr (typed es x).1 c).1 ∧
    Console.console st.2 (Console.spec_intr (typed es x).1 c).2) (mkKbd [] (mods x), s).
Proof.
  intros Hx Hes Hs Hbs. destruct (getcs_events es x Hx Hes) as (cs & E & Hcs & Hf). pose proof (mods_calm x Hx) as Hm. unfold calm in Hm.
  rewrite <- Hf, <- spec_intr_filter by done. rewrite <- Hbs in E. apply kbdintrs_ok; [|lia|done|done].
  rewrite Hbs. by eapply scan_bytes.
Qed.

(** With both shift keys down, the release of one ends the shift, although the other
    is still held. *)
Theorem shift_release_clears :
  let x := Keys [0x2A; 0x36] 0 in
  mods x = SHIFT ∧ mods (key_step (Release 0x36) x) = SHIFT ∧
  kbdgetc (mkKbd (scan (Release 0x36)) (mods x)) = Ok 0 (mkKbd [] 0).
Proof. split_and!; reflexivity. Qed.

(** The letters: a key that has a letter gives the control character when control
    is down, and otherwise the capital one when one of shift and caps lock is on
    but not both. *)
Theorem letter_keys sh k :
  calm sh → byte k → 97 ≤ tab normalmap k ≤ 122 →
  key_char sh k =
    if has sh CTL then tab normalmap k - 96
    else if xorb (has sh SHIFT) (has sh CAPSLOCK) then tab normalmap k - 32 else tab normalmap k.
Proof.
  intros _ Hk Hl. assert (Hall : Forall (λ k, 97 ≤ tab normalmap k ≤ 122 →
    tab ctlmap k = tab normalmap k - 96 ∧ tab shiftmap k = tab normalmap k - 32) all_codes)
    by (apply (bool_decide_unpack _); vm_compute; exact I).
  destruct (all_codes_spec _ Hall k Hk Hl) as [H1 H2]. unfold key_char, swap_case. rewrite H1, H2.
  destruct (has sh CTL), (has sh SHIFT), (has sh CAPSLOCK); cbn [xorb]; repeat case_bool_decide; lia.
Qed.

(** ** Examples *)

Lemma kbdgetc_type_witness :
  ∃ c l' sh', kbdgetc (mkKbd [0x1e; 0x9e] 0) = Ok c (mkKbd l' sh') ∧ byte c ∧ l' = [0x9e].
Proof.
  destruct (kbdgetc_type [0x1e; 0x9e] 0) as (c & l' & sh' & E & _ & _ & H).
  - repeat constructor; unfold byte; lia.
  - lia.
  - exists c, l', sh'. split; [exact E|exact H].
Defined.

(** Shift is held for the first letter of "Hi", then enter. *)
Definition hi_keys : list key_event :=
  [Press 0x2A; Press 0x23; Release 0x23; Release 0x2A; Press 0x17; Release 0x17; Press 0x9C; Release 0x9C].

(** The bytes in three interrupts, the last of them between the prefix and the code of
    the enter key of the keypad. *)
Definition hi_bytes : list (list Z) := [[0x2A; 0x23]; [0xA3; 0xAA; 0x17; 0x97; 0xE0]; [0x1C; 0xE0; 0x9C]].

Lemma keyboard_types_lines_witness :
  wpt (kbdintrs hi_bytes) (λ o st, st.1 = mkKbd [] 0 ∧ o = (true, false) ∧ Console.console st.2 ([72; 105; 10], []))
    (mkKbd [] 0, Console.demo).
Proof.
  apply (keyboard_types_lines hi_bytes hi_keys (Keys [] 0) Console.demo ([], [])).
  - left.
  - repeat split; (apply (bool_decide_unpack _); vm_compute; exact I) || (unfold byte; simpl; lia).
  - exact Console.demo_console.
  - vm_compute. reflexivity.
Defined.

Lemma letter_keys_witness : key_char SHIFT 0x1e = 65.
Proof.
  refine (eq_trans (letter_keys SHIFT 0x1e _ _ _) _).
  - split; vm_compute; congruence.
  - split; vm_compute; congruence.
  - split; vm_compute; congruence.
  - vm_compute. reflexivity.
Defined.

End Kbd.
