(* ===== verification/Syscall.v ===== *)
(** * Traps, system calls and their arguments

    [src/syscall.c], [src/sysproc.c] and [trap] of [src/trap.c].  The arguments of
    a system call are words of the memory of the process; the functions of the
    rest of the kernel that the handlers call are the operations of a class. *)

From S2P Require Import Prelude Spinlock.

Module Syscall.

(** ** Arguments *)

(** The bytes and the size of the memory of the process, and the registers [esp]
    and [eax] of the trap frame. *)
Record user : Type := User { umem : Z → Z; sz : Z; esp : Z; eax : Z }.

(** The [int] at an address. *)
Definition int_at (u : user) (a : Z) : Z :=
  s32 (umem u a + 2 ^ 8 * umem u (a + 1) + 2 ^ 16 * umem u (a + 2) + 2 ^ 24 * umem u (a + 3)).

Definition fetchint (addr : Z) (u : user) : option Z :=
  if bool_decide (sz u ≤ addr) || bool_decide (sz u < u32 (addr + 4)) then None
  else Some (int_at u addr).

Fixpoint str_loop (n : nat) (s pp ep : Z) (u : user) : option Z :=
  match n with
  | O => None
  | S n =>
      if bool_decide (s < ep) then
        if bool_decide (umem u s = 0) then Some (s - pp) else str_loop n (s + 1) pp ep u
      else None
  end.

(** The length of the string at [addr]; the pointer is [addr] itself. *)
Definition fetchstr (addr : Z) (u : user) : option (Z * Z) :=
  if bool_decide (sz u ≤ addr) then None
  else (λ len, (addr, len)) <$> str_loop (Z.to_nat (sz u - addr)) addr addr (sz u) u.

Definition argint (n : Z) (u : user) : option Z := fetchint (u32 (esp u + 4 + 4 * n)) u.

Definition argptr (n size : Z) (u : user) : option Z :=
  i ← argint n u;
  if bool_decide (size < 0) || bool_decide (sz u ≤ u32 i) || bool_decide (sz u < u32 (u32 i + u32 size))
  then None else Some (u32 i).

Definition argstr (n : Z) (u : user) : option (Z * Z) :=
  addr ← argint n u; fetchstr (u32 addr) u.

(** ** Handlers *)

(** The entries of [syscalls], in the order of their numbers in [syscall.h]. *)
Inductive sysname : Type :=
| Sfork | Sexit | Swait | Spipe | Sread | Skill | Sexec | Sfstat | Schdir | Sdup | Sgetpid
| Ssbrk | Ssleep | Suptime | Sopen | Swrite | Smknod | Sunlink | Slink | Smkdir | Sclose
| Skthread_create | Skthread_id | Skthread_exit | Skthread_join
| Smutex_alloc | Smutex_dealloc | Smutex_lock | Smutex_unlock.

#[global] Instance sysname_eq_dec : EqDecision sysname.
Proof. solve_decision. Defined.

Definition syscalls : list (option sysname) :=
  [None; Some Sfork; Some Sexit; Some Swait; Some Spipe; Some Sread; Some Skill; Some Sexec;
   Some Sfstat; Some Schdir; Some Sdup; Some Sgetpid; Some Ssbrk; Some Ssleep; Some Suptime;
   Some Sopen; Some Swrite; Some Smknod; Some Sunlink; Some Slink; Some Smkdir; Some Sclose;
   Some Skthread_create; Some Skthread_id; Some Skthread_exit; Some Skthread_join;
   Some Smutex_alloc; Some Smutex_dealloc; Some Smutex_lock; Some Smutex_unlock].

(** A handler returns a value or, for the ones that end the thread, does not. *)
Inductive sysres : Type := Ret (r : Z) | NoReturn.

(** What the handlers of [sysproc.c] call, on a state [K] of the rest of the
    kernel; the handlers of [sysfile.c] are one operation. *)
Class Kernel (K : Type) : Type := {
  k_fork : K → Z * K;
  k_exit : K → K;
  k_wait : K → Z * K;
  k_kill : Z → K → Z * K;
  k_getpid : K → Z;
  k_sz : K → Z;
  k_growproc : Z → K → Z * K;
  k_sleep : Z → K → Z * K;
  k_ticks : K → Z;
  k_kthread_create : Z → Z → K → Z * K;
  k_kthread_id : K → Z;
  k_kthread_exit : K → K;
  k_kthread_join : Z → K → Z * K;
  k_mutex_alloc : K → Z * K;
  k_mutex_dealloc : Z → K → Z * K;
  k_mutex_lock : Z → K → Z * K;
  k_mutex_unlock : Z → K → Z * K;
  k_sysfile : sysname → user → K → Z * K;
}.

Section Handlers.

Context {K : Type} `{!Kernel K}.

Definition ret (x : Z * K) : sysres * K := (Ret x.1, x.2).

(** The pattern of the handlers with one [int] argument. *)
Definition with_int (u : user) (f : Z → K → Z * K) (k : K) : sysres * K :=
  match argint 0 u with None => (Ret (-1), k) | Some n => ret (f n k) end.

Definition sys_fork (k : K) : sysres * K := ret (k_fork k).
Definition sys_exit (k : K) : sysres * K := (NoReturn, k_exit k).
Definition sys_wait (k : K) : sysres * K := ret (k_wait k).
Definition sys_kill (u : user) (k : K) : sysres * K := with_int u k_kill k.
Definition sys_getpid (k : K) : sysres * K := (Ret (k_getpid k), k).

Definition sys_sbrk (u : user) (k : K) : sysres * K :=
  match argint 0 u with
  | None => (Ret (-1), k)
  | Some n =>
      let addr := k_sz k in
      let '(r, k') := k_growproc n k in
      if bool_decide (r < 0) then (Ret (-1), k') else (Ret addr, k')
  end.

Definition sys_sleep (u : user) (k : K) : sysres * K := with_int u k_sleep k.
Definition sys_uptime (k : K) : sysres * K := (Ret (k_ticks k), k).

Definition sys_kthread_create (u : user) (k : K) : sysres * K :=
  match argptr 0 4 u with
  | None => (Ret (-1), k)
  | Some start_func =>
      match argptr 1 4 u with
      | None => (Ret (-1), k)
      | Some stack => ret (k_kthread_create start_func stack k)
      end
  end.

Definition sys_kthread_id (k : K) : sysres * K := (Ret (k_kthread_id k), k).
Definition sys_kthread_exit (k : K) : sysres * K := (NoReturn, k_kthread_exit k).
Definition sys_kthread_join (u : user) (k : K) : sysres * K := with_int u k_kthread_join k.
Definition sys_kthread_mutex_alloc (k : K) : sysres * K := ret (k_mutex_alloc k).
Definition sys_kthread_mutex_dealloc (u : user) (k : K) : sysres * K := with_int u k_mutex_dealloc k.
Definition sys_kthread_mutex_lock (u : user) (k : K) : sysres * K := with_int u k_mutex_lock k.
Definition sys_kthread_mutex_unlock (u : user) (k : K) : sysres * K := with_int u k_mutex_unlock k.

Definition handler (c : sysname) (u : user) (k : K) : sysres * K :=
  match c with
  | Sfork => sys_fork k
  | Sexit => sys_exit k
  | Swait => sys_wait k
  | Skill => sys_kill u k
  | Sgetpid => sys_getpid k
  | Ssbrk => sys_sbrk u k
  | Ssleep => sys_sleep u k
  | Suptime => sys_uptime k
  | Skthread_create => sys_kthread_create u k
  | Skthread_id => sys_kthread_id k
  | Skthread_exit => sys_kthread_exit k
  | Skthread_join => sys_kthread_join u k
  | Smutex_alloc => sys_kthread_mutex_alloc k
  | Smutex_dealloc => sys_kthread_mutex_dealloc u k
  | Smutex_lock => sys_kthread_mutex_lock u k
  | Smutex_unlock => sys_kthread_mutex_unlock u k
  | Spipe | Sread | Sexec | Sfstat | Schdir | Sdup | Sopen | Swrite | Smknod | Sunlink | Slink
  | Smkdir | Sclose => ret (k_sysfile c u k)
  end.

Definition set_eax (v : Z) (u : user) : user := User (umem u) (sz u) (esp u) (u32 v).

(** [syscall]; nothing is left of the trap frame when the handler does not
    return. *)
Definition syscall (u : user) (k : K) : option user * K :=
  let num := s32 (eax u) in
  match (if bool_decide (0 < num) && bool_decide (num < Z.of_nat (length syscalls))
         then mjoin (syscalls !! Z.to_nat num) else None) with
  | Some c =>
      match handler c u k with
      | (Ret r, k') => (Some (set_eax r u), k')
      | (NoReturn, k') => (None, k')
      end
  | None => (Some (set_eax (-1) u), k)
  end.

End Handlers.

(** [while (ticks - ticks0 < n)] of [sys_sleep]: [None] when the thread sleeps. *)
Definition sleep_check (n ticks0 ticks : Z) (killed : bool) : option Z :=
  if bool_decide (u32 (ticks - ticks0) < u32 n) then if killed then Some (-1) else None
  else Some 0.

(** ** Traps *)

(** [tf->trapno] and whether the trap is from user mode. *)
Record trapframe : Type := Trapframe { trapno : Z; from_user : bool }.

Definition T_SYSCALL : Z := 64.
Definition T_IRQ0 : Z := 32.
Definition IRQ_TIMER : Z := 0.
Definition IRQ_KBD : Z := 1.
Definition IRQ_COM1 : Z := 4.
Definition IRQ_IDE : Z := 14.
Definition IRQ_SPURIOUS : Z := 31.

(** What [trap] asks of the rest of the kernel. *)
Class Traps (K : Type) : Type := {
  t_cpu0 : K → bool;
  t_thread : K → bool;
  t_proc : K → bool;
  t_killed : K → bool;
  t_running : K → bool;
  t_syscall : K → option K;
  t_tick : K → K;
  t_device : Z → K → K;
  t_eoi : K → K;
  t_kill_proc : K → K;
  t_yield : K → K;
}.

Inductive tres (K : Type) : Type := Returned (k : K) | Exited (k : K) | TrapPanic.
Arguments Returned {K} k.
Arguments Exited {K} k.
Arguments TrapPanic {K}.

Section Trap.

Context {K : Type} `{!Traps K}.

(** [if(mythread() && mythread()->killed && user mode) exit();] *)
Definition check_killed (tf : trapframe) (k : K) (cont : K → tres K) : tres K :=
  if t_thread k && t_killed k && from_user tf then Exited k else cont k.

(** The switch of [trap]. *)
Definition trap_switch (tf : trapframe) (k : K) : option K :=
  let n := trapno tf in
  if bool_decide (n = T_IRQ0 + IRQ_TIMER) then Some (t_eoi (if t_cpu0 k then t_tick k else k))
  else if bool_decide (n = T_IRQ0 + IRQ_IDE) then Some (t_eoi (t_device IRQ_IDE k))
  else if bool_decide (n = T_IRQ0 + IRQ_IDE + 1) then Some k
  else if bool_decide (n = T_IRQ0 + IRQ_KBD) then Some (t_eoi (t_device IRQ_KBD k))
  else if bool_decide (n = T_IRQ0 + IRQ_COM1) then Some (t_eoi (t_device IRQ_COM1 k))
  else if bool_decide (n = T_IRQ0 + 7) || bool_decide (n = T_IRQ0 + IRQ_SPURIOUS) then Some (t_eoi k)
  else if negb (t_proc k) || negb (from_user tf) then None
  else Some (t_kill_proc k).

Definition trap (tf : trapframe) (k : K) : tres K :=
  if bool_decide (trapno tf = T_SYSCALL) then
    if t_killed k then Exited k else
    match t_syscall k with
    | None => Exited k
    | Some k1 => if t_killed k1 then Exited k1 else Returned k1
    end
  else
    match trap_switch tf k with
    | None => TrapPanic
    | Some k1 =>
        check_killed tf k1 (λ k1,
          let k2 := if t_thread k1 && t_running k1 && bool_decide (trapno tf = T_IRQ0 + IRQ_TIMER)
                    then t_yield k1 else k1 in
          check_killed tf k2 Returned)
    end.

End Trap.

(** ** Correctness *)

(** A process: its memory is below the kernel's. *)
Definition user_ok (u : user) : Prop := 0 ≤ sz u ≤ KERNBASE ∧ 0 ≤ esp u < 2 ^ 32.

Lemma fetchint_Some addr u i :
  user_ok u → 0 ≤ addr →
  fetchint addr u = Some i ↔ addr + 4 ≤ sz u ∧ i = int_at u addr.
Proof.
  intros [Hsz _] Ha. unfold KERNBASE in Hsz. unfold fetchint. repeat case_bool_decide; simpl.
  - split; [done|lia].
  - split; [done|lia].
  - rewrite u32_small in * by lia. split; [done|lia].
  - rewrite u32_small in * by lia. split; [intros [= <-]; split; [lia|done]|by intros [_ ->]].
Qed.

(** C37: [argptr] accepts a block exactly when its argument is in the memory of the
    process and the whole block is, although the additions are done in 32 bits. *)
Theorem argptr_inside n size u p :
  user_ok u → - 2 ^ 31 ≤ size < 2 ^ 31 →
  argptr n size u = Some p ↔
  let arg := u32 (esp u + 4 + 4 * n) in
  arg + 4 ≤ sz u ∧ p = u32 (int_at u arg) ∧ 0 ≤ size ∧ p < sz u ∧ p + size ≤ sz u.
Proof.
  intros Hu Hs. unfold argptr, argint. cbv zeta. set (arg := u32 (esp u + 4 + 4 * n)).
  assert (0 ≤ arg) as Ha by apply u32_range. destruct (fetchint arg u) as [i|] eqn:E.
  - apply fetchint_Some in E as [E ->]; [|done..]. simpl. set (q := u32 (int_at u arg)).
    assert (0 ≤ q) as Hq by apply u32_range. destruct Hu as [Hsz _]. unfold KERNBASE in Hsz.
    destruct (decide (size < 0)); [rewrite (bool_decide_eq_true_2 (size < 0)) by done; simpl; split; [done|lia]|].
    rewrite (bool_decide_eq_false_2 (size < 0)) by done. simpl.
    case_bool_decide; simpl; [split; [done|lia]|].
    rewrite (u32_small size), (u32_small (q + size)) by lia. case_bool_decide; [split; [done|lia]|].
    split; [intros [= <-]; lia|by intros (_ & -> & _)].
  - simpl. split; [done|]. intros (E' & _).
    assert (fetchint arg u = Some (int_at u arg)) by (by apply fetchint_Some). congruence.
Qed.

Lemma str_loop_Some k s pp u len :
  Z.of_nat k = sz u - s →
  str_loop k s pp (sz u) u = Some len ↔
  s ≤ pp + len < sz u ∧ umem u (pp + len) = 0 ∧ ∀ i, s ≤ i < pp + len → umem u i ≠ 0.
Proof.
  revert s. induction k as [|k IH]; intros s Hk; simpl; [split; [done|lia]|].
  rewrite bool_decide_eq_true_2 by lia. case_bool_decide as H0.
  - split.
    + intros [= <-]. replace (pp + (s - pp)) with s by lia. split_and!; [lia..|done|lia].
    + intros (? & ? & Hne). f_equal. destruct (decide (s = pp + len)); [lia|].
      exfalso. apply (Hne s); [lia|done].
  - rewrite IH by lia. split; intros (? & ? & Hne).
    + split_and!; [lia..|done|]. intros i Hi. destruct (decide (i = s)) as [->|]; [done|]. apply Hne. lia.
    + destruct (decide (s = pp + len)) as [->|]; [done|].
      split_and!; [lia..|done|]. intros i Hi. apply Hne. lia.
Qed.

(** [argstr] accepts a string exactly when it ends with a zero byte inside the
    memory of the process, and returns its length. *)
Theorem argstr_spec n u p len :
  user_ok u →
  argstr n u = Some (p, len) ↔
  let arg := u32 (esp u + 4 + 4 * n) in
  arg + 4 ≤ sz u ∧ p = u32 (int_at u arg) ∧ 0 ≤ len ∧ p + len < sz u ∧
  umem u (p + len) = 0 ∧ ∀ i, p ≤ i < p + len → umem u i ≠ 0.
Proof.
  intros Hu. unfold argstr, argint. cbv zeta. set (arg := u32 (esp u + 4 + 4 * n)).
  assert (0 ≤ arg) as Ha by apply u32_range. destruct (fetchint arg u) as [i|] eqn:E; simpl.
  - apply fetchint_Some in E as [E ->]; [|done..]. set (q := u32 (int_at u arg)).
    unfold fetchstr. case_bool_decide; simpl.
    + split; [done|lia].
    + rewrite fmap_Some. setoid_rewrite str_loop_Some; [|lia]. split.
      * intros (l & (? & ? & ?) & [= -> ->]). split_and!; try done; lia.
      * intros (_ & -> & ? & ? & ? & ?). exists len. split_and!; try done; lia.
  - split; [done|]. intros (E' & _).
    assert (fetchint arg u = Some (int_at u arg)) by (by apply fetchint_Some). congruence.
Qed.

(** The other threads of a process share its memory: what [argstr] accepted can
    change before the kernel uses it. *)
Definition other_thread (u u' : user) : Prop :=
  sz u' = sz u ∧ esp u' = esp u ∧ ∀ a, umem u' a ≠ umem u a → 0 ≤ a < sz u.

(** A string that [argstr] has accepted is not safe from the other threads of
    the process: one of them can overwrite it so that it has no end in the memory
    of the process. *)
Theorem argstr_not_stable n u p len :
  user_ok u → argstr n u = Some (p, len) →
  ∃ u', other_thread u u' ∧ fetchstr p u' = None.
Proof.
  intros Hu Hs. exists (User (λ a, if bool_decide (0 ≤ a < sz u) then 1 else umem u a) (sz u) (esp u) (eax u)).
  assert (0 ≤ p) as Hp.
  { unfold argstr in Hs. destruct (argint n u) as [i|]; [|done]. simpl in Hs. unfold fetchstr in Hs.
    case_bool_decide; [done|]. apply fmap_Some in Hs as (? & _ & [= -> _]). apply u32_range. }
  split; [split_and!; [done..|]; simpl; intros a; by case_bool_decide|].
  unfold fetchstr. simpl. case_bool_decide; [done|]. apply fmap_None.
  set (u' := User _ _ _ _). destruct (str_loop _ p p (sz u) u') as [l|] eqn:E; [|done].
  apply (str_loop_Some _ p p u' l) in E as (? & H0 & _); [|simpl; lia].
  simpl in *. rewrite bool_decide_eq_true_2 in H0 by lia. done.
Qed.

(** The calls whose handler in [sysproc.c] reads an argument first. *)
Definition takes_args (c : sysname) : bool :=
  match c with
  | Skill | Ssbrk | Ssleep | Skthread_create | Skthread_join
  | Smutex_dealloc | Smutex_lock | Smutex_unlock => true
  | _ => false
  end.

(** A system call that the kernel does not know, or whose argument is not in
    the memory of the process, returns -1 and changes nothing else. *)
Theorem syscall_rejects {K} `{!Kernel K} u (k : K) :
  user_ok u →
  (∀ c, syscalls !! Z.to_nat (s32 (eax u)) = Some (Some c) → 0 < s32 (eax u) →
     takes_args c = true ∧ sz u < u32 (esp u + 4) + 4) →
  syscall u k = (Some (set_eax (-1) u), k).
Proof.
  intros Hu Hc. unfold syscall.
  destruct (bool_decide (0 < s32 (eax u)) && bool_decide (s32 (eax u) < Z.of_nat (length syscalls)))
    eqn:E; [|done].
  apply andb_prop in E as [E%bool_decide_eq_true _].
  destruct (syscalls !! Z.to_nat (s32 (eax u))) as [[c|]|] eqn:El; simpl; [|done..].
  destruct (Hc c eq_refl E) as [Ht Hbad].
  assert (argint 0 u = None) as Hnone.
  { unfold argint. destruct (fetchint _ u) as [i|] eqn:Ei; [|done].
    apply fetchint_Some in Ei as [? _]; [|done|apply u32_range].
    rewrite Z.mul_0_r, Z.add_0_r in *. lia. }
  assert (argptr 0 4 u = None) as Hnone' by (unfold argptr; by rewrite Hnone).
  destruct c; try done; simpl;
    unfold sys_kill, sys_sbrk, sys_sleep, sys_kthread_create, sys_kthread_join, sys_kthread_mutex_dealloc,
      sys_kthread_mutex_lock, sys_kthread_mutex_unlock, with_int; by rewrite ?Hnone, ?Hnone'.
Qed.

(** [sys_sleep] of [n] ticks returns at the [n]-th tick and not before, also
    when the counter wraps around; a negative [n] is taken as a number of ticks
    close to [2 ^ 32]. *)
Theorem sys_sleep_ticks n ticks0 j :
  - 2 ^ 31 ≤ n < 2 ^ 31 → 0 ≤ ticks0 < 2 ^ 32 → 0 ≤ j < 2 ^ 32 →
  sleep_check n ticks0 (u32 (ticks0 + j)) false =
  if bool_decide (j < (if bool_decide (0 ≤ n) then n else 2 ^ 32 + n)) then None else Some 0.
Proof.
  intros Hn Ht Hj. unfold sleep_check. autorewrite with u32.
  replace (ticks0 + j - ticks0) with j by lia. rewrite (u32_small j) by lia.
  assert (u32 n = if bool_decide (0 ≤ n) then n else 2 ^ 32 + n) as ->; [|done].
  case_bool_decide; [apply u32_small; lia|]. unfold u32.
  replace n with (2 ^ 32 + n + (-1) * 2 ^ 32) at 1 by lia. rewrite Z_mod_plus_full, Z.mod_small; lia.
Qed.

(** What [trap] relies on: marking the threads of the process marks the current
    one, which stays current. *)
Class TrapLaws (K : Type) `{!Traps K} : Prop := {
  t_kill_killed k : t_proc k = true → t_killed (t_kill_proc k) = true;
  t_kill_thread k : t_thread (t_kill_proc k) = t_thread k;
}.

Definition known_irq (n : Z) : Prop :=
  n ∈ [T_SYSCALL; T_IRQ0 + IRQ_TIMER; T_IRQ0 + IRQ_IDE; T_IRQ0 + IRQ_IDE + 1; T_IRQ0 + IRQ_KBD;
       T_IRQ0 + IRQ_COM1; T_IRQ0 + 7; T_IRQ0 + IRQ_SPURIOUS].

(** A thread that faults in user mode ends, and no thread that has been killed
    goes back to user mode. *)
Theorem trap_ends_killed {K} `{!Traps K} `{!TrapLaws K} tf (k : K) :
  from_user tf = true → t_thread k = true → t_proc k = true →
  (¬ known_irq (trapno tf) → trap tf k = Exited (t_kill_proc k)) ∧
  (∀ k', trap tf k = Returned k' → t_killed k' = true → t_thread k' = false).
Proof.
  intros Hu Hth Hpr. split.
  - intros Hn. unfold known_irq in Hn. rewrite !not_elem_of_cons in Hn. destruct_and! Hn.
    unfold trap, trap_switch, check_killed. rewrite !bool_decide_eq_false_2 by done.
    rewrite Hpr, Hu. simpl. by rewrite t_kill_thread, t_kill_killed, Hth by done.
  - intros k'. unfold trap, check_killed. rewrite Hu. case_bool_decide as Hs.
    + destruct (t_killed k); [done|]. destruct (t_syscall k) as [k1|]; [|done].
      destruct (t_killed k1) eqn:E; [done|]. intros [= <-]. congruence.
    + destruct (trap_switch tf k) as [k1|]; [|done].
      destruct (t_thread k1 && t_killed k1 && true); [done|].
      set (k2 := if _ : bool then t_yield k1 else k1). destruct (t_thread k2) eqn:E2; simpl.
      * destruct (t_killed k2) eqn:E3; simpl; [done|]. intros [= <-]. congruence.
      * by intros [= <-].
Qed.

(** *** A process and a kernel *)

(** The string [hi] at 100, and the words 100 and 8 above [esp]. *)
Definition demo_user : user :=
  User (λ a, if bool_decide (a = 100) then 104 else if bool_decide (a = 101) then 105
             else if bool_decide (a = 204) then 100 else if bool_decide (a = 208) then 8 else 0)
       4096 200 6.

Lemma demo_user_ok : user_ok demo_user.
Proof. done. Qed.

Lemma argptr_inside_witness : argptr 0 64 demo_user = Some 100.
Proof. apply (argptr_inside 0 64 demo_user 100 demo_user_ok); by vm_compute. Defined.

Lemma argstr_spec_witness : argstr 0 demo_user = Some (100, 2).
Proof.
  apply (argstr_spec 0 demo_user 100 2 demo_user_ok). cbv zeta. split_and!; [by vm_compute..|].
  intros i Hi. assert (i = 100 ∨ i = 101) as [->| ->] by lia; done.
Defined.

Lemma argstr_not_stable_witness : ∃ u', other_thread demo_user u' ∧ fetchstr 100 u' = None.
Proof. exact (argstr_not_stable 0 demo_user 100 2 demo_user_ok eq_refl). Defined.

(** A kernel that counts the calls it gets. *)
#[global] Instance demo_kernel : Kernel Z := {|
  k_fork k := (1, k + 1); k_exit k := k + 1; k_wait k := (1, k + 1); k_kill _ k := (0, k + 1);
  k_getpid _ := 1; k_sz _ := 4096; k_growproc _ k := (0, k + 1); k_sleep _ k := (0, k + 1);
  k_ticks k := k; k_kthread_create _ _ k := (2, k + 1); k_kthread_id _ := 1;
  k_kthread_exit k := k + 1; k_kthread_join _ k := (0, k + 1); k_mutex_alloc k := (0, k + 1);
  k_mutex_dealloc _ k := (0, k + 1); k_mutex_lock _ k := (0, k + 1);
  k_mutex_unlock _ k := (0, k + 1); k_sysfile _ _ k := (0, k + 1) |}.

Lemma syscall_rejects_witness :
  syscall (User (umem demo_user) 4096 4095 6) 7 = (Some (set_eax (-1) (User (umem demo_user) 4096 4095 6)), 7).
Proof.
  apply (syscall_rejects (User (umem demo_user) 4096 4095 6) 7); [done|].
  intros c Hc _. vm_compute in Hc. injection Hc as <-. by vm_compute.
Defined.

Lemma sys_sleep_ticks_witness :
  sleep_check 5 0xfffffffe (u32 (0xfffffffe + 4)) false = None.
Proof. exact (sys_sleep_ticks 5 0xfffffffe 4 ltac:(done) ltac:(done) ltac:(done)). Defined.

(** A kernel of one thread, which is or is not killed. *)
#[global] Instance demo_traps : Traps bool := {|
  t_cpu0 _ := true; t_thread _ := true; t_proc _ := true; t_killed k := k; t_running _ := true;
  t_syscall k := Some k; t_tick k := k; t_device _ k := k; t_eoi k := k; t_kill_proc _ := true;
  t_yield k := k |}.

#[global] Instance demo_trap_laws : TrapLaws bool.
Proof. by split. Qed.

Lemma trap_ends_killed_witness : trap (Trapframe 14 true) false = Exited true.
Proof.
  refine (proj1 (trap_ends_killed (Trapframe 14 true) false eq_refl eq_refl eq_refl) _).
  unfold known_irq. rewrite !not_elem_of_cons. split_and!; try done. apply not_elem_of_nil.
Defined.

End Syscall.
