(* ===== verification/Bio.v ===== *)
(** * The buffer cache, its sleep locks and the memory disk

    [src/bio.c], [src/sleeplock.c] and [src/memide.c].  The buffers are numbered;
    the doubly linked list of [bcache] goes through them and through the number
    of [bcache.head].  The part of an operation between taking and giving up
    [bcache.lock], or the lock of a sleep lock, is one definition, so that
    operations of several processes can be interleaved. *)

From S2P Require Import Prelude.

Module Bio.

Definition NBUF : nat := 30.
Definition HEAD : nat := NBUF.
Definition B_VALID : Z := 0x2.
Definition B_DIRTY : Z := 0x4.

(** [struct buf] with its [struct sleeplock]; the links are in [bst]. *)
Record bufr : Type := Buf {
  flags : Z;
  dev : Z;
  blockno : Z;
  locked : Z;
  lpid : Z;
  refcnt : Z;
  data : list Z;
}.

Definition set_flags (f : Z) (b : bufr) : bufr :=
  Buf f (dev b) (blockno b) (locked b) (lpid b) (refcnt b) (data b).
Definition set_lock (l p : Z) (b : bufr) : bufr :=
  Buf (flags b) (dev b) (blockno b) l p (refcnt b) (data b).
Definition set_refcnt (n : Z) (b : bufr) : bufr :=
  Buf (flags b) (dev b) (blockno b) (locked b) (lpid b) n (data b).
Definition set_data (x : list Z) (b : bufr) : bufr :=
  Buf (flags b) (dev b) (blockno b) (locked b) (lpid b) (refcnt b) x.

(** The buffers, the links between them, and the blocks of the disk. *)
Record bst : Type := Bst {
  bufs : list bufr;
  next : nat → nat;
  prev : nat → nat;
  memdisk : Z → list Z;
  disksize : Z;
}.

Definition set_bufs (l : list bufr) (s : bst) : bst :=
  Bst l (next s) (prev s) (memdisk s) (disksize s).
Definition set_next (i j : nat) (s : bst) : bst :=
  Bst (bufs s) (<[i := j]> (next s)) (prev s) (memdisk s) (disksize s).
Definition set_prev (i j : nat) (s : bst) : bst :=
  Bst (bufs s) (next s) (<[i := j]> (prev s)) (memdisk s) (disksize s).
Definition set_memdisk (d : Z → list Z) (s : bst) : bst :=
  Bst (bufs s) (next s) (prev s) d (disksize s).

(** [&bcache.buf[i]] *)
Definition buf_at (i : nat) : M bst bufr := λ s,
  match bufs s !! i with Some b => Ok b s | None => Undef "bcache.buf[] out of bounds" s end.
Definition upd_buf (i : nat) (f : bufr → bufr) : M bst unit :=
  modify (λ s, set_bufs (upd i f (bufs s)) s).

Definition has (f bit : Z) : bool := bool_decide (Z.land f bit ≠ 0).

(** ** Sleep locks *)

Definition initsleeplock (i : nat) : M bst unit := upd_buf i (set_lock 0 0).

(** One turn of the loop of [acquiresleep]: [false] when it sleeps. *)
Definition acquiresleep_turn (pid : Z) (i : nat) : M bst bool :=
  b ← buf_at i;
  if bool_decide (locked b ≠ 0) then mret false
  else upd_buf i (set_lock 1 pid) ;; mret true.

Definition releasesleep (i : nat) : M bst unit := upd_buf i (set_lock 0 0).

Definition holdingsleep (pid : Z) (i : nat) : M bst bool :=
  b ← buf_at i;
  mret (bool_decide (locked b ≠ 0) && bool_decide (lpid b = pid)).

(** ** The memory disk *)

Definition iderw (pid : Z) (i : nat) : M bst unit :=
  h ← holdingsleep pid i;
  if negb h then panic "iderw: buf not locked" else
  b ← buf_at i;
  if bool_decide (Z.land (flags b) (Z.lor B_VALID B_DIRTY) = B_VALID)
  then panic "iderw: nothing to do" else
  if bool_decide (dev b ≠ 1) then panic "iderw: request not for disk 1" else
  s ← get;
  if bool_decide (disksize s ≤ blockno b) then panic "iderw: block out of range" else
  (if has (flags b) B_DIRTY then
     upd_buf i (set_flags (Z.land (flags b) (Z.lnot B_DIRTY))) ;;
     modify (set_memdisk (<[blockno b := data b]> (memdisk s)))
   else upd_buf i (set_data (memdisk s (blockno b)))) ;;
  b ← buf_at i;
  upd_buf i (set_flags (Z.lor (flags b) B_VALID)).

(** ** The cache *)

Definition init_buf (i : nat) : M bst unit :=
  s ← get;
  modify (set_next i (next s HEAD)) ;;
  modify (set_prev i HEAD) ;;
  initsleeplock i ;;
  s ← get;
  modify (set_prev (next s HEAD) i) ;;
  modify (set_next HEAD i).

Definition binit : M bst unit :=
  modify (set_prev HEAD HEAD) ;;
  modify (set_next HEAD HEAD) ;;
  for_range 0 NBUF init_buf.

(** The two loops of [bget], over [b->next] and over [b->prev]. *)
Fixpoint scan (fuel : nat) (step : bst → nat → nat) (p : bufr → bool) (b : nat) : M bst (option nat) :=
  match fuel with
  | O => spin
  | S fuel =>
      if bool_decide (b = HEAD) then mret None else
      x ← buf_at b;
      if p x then mret (Some b)
      else nb ← gets (λ s, step s b); scan fuel step p nb
  end.

Definition SCAN_FUEL : nat := S NBUF.

Definition is_block (d n : Z) (b : bufr) : bool := bool_decide (dev b = d) && bool_decide (blockno b = n).
Definition unused (b : bufr) : bool := bool_decide (refcnt b = 0) && negb (has (flags b) B_DIRTY).

(** [bget] until it waits for the lock of the buffer. *)
Definition bget (d n : Z) : M bst nat :=
  b0 ← gets (λ s, next s HEAD);
  r ← scan SCAN_FUEL next (is_block d n) b0;
  match r with
  | Some b => upd_buf b (λ x, set_refcnt (u32 (refcnt x + 1)) x) ;; mret b
  | None =>
      b0 ← gets (λ s, prev s HEAD);
      r ← scan SCAN_FUEL prev unused b0;
      match r with
      | Some b =>
          upd_buf b (λ x, Buf 0 d n (locked x) (lpid x) 1 (data x)) ;; mret b
      | None => panic "bget: no buffers"
      end
  end.

(** [bread] once [bget] has the lock of the buffer. *)
Definition bread_locked (pid : Z) (b : nat) : M bst unit :=
  x ← buf_at b;
  if has (flags x) B_VALID then mret tt else iderw pid b.

(** [bread] when no other process has the buffer. *)
Definition bread (pid d n : Z) : M bst nat :=
  b ← bget d n;
  got ← acquiresleep_turn pid b;
  if (got : bool) then bread_locked pid b ;; mret b else spin.

Definition bwrite (pid : Z) (b : nat) : M bst unit :=
  h ← holdingsleep pid b;
  if negb h then panic "bwrite" else
  upd_buf b (λ x, set_flags (Z.lor (flags x) B_DIRTY) x) ;;
  iderw pid b.

(** [brelse]: giving up the sleep lock, then the critical section. *)
Definition brelse_lock (pid : Z) (b : nat) : M bst unit :=
  h ← holdingsleep pid b;
  if negb h then panic "brelse" else releasesleep b.

Definition brelse_ref (b : nat) : M bst unit :=
  upd_buf b (λ x, set_refcnt (u32 (refcnt x - 1)) x) ;;
  x ← buf_at b;
  if bool_decide (refcnt x = 0) then
    s ← get; modify (set_prev (next s b) (prev s b)) ;;
    s ← get; modify (set_next (prev s b) (next s b)) ;;
    s ← get; modify (set_next b (next s HEAD)) ;;
    modify (set_prev b HEAD) ;;
    s ← get; modify (set_prev (next s HEAD) b) ;;
    modify (set_next HEAD b)
  else mret tt.

Definition brelse (pid : Z) (b : nat) : M bst unit := brelse_lock pid b ;; brelse_ref b.

(** ** The list of buffers

    [chain x l y]: from [x] the links go through [l] to [y], in both directions. *)
Fixpoint chain (nx pv : nat → nat) (x : nat) (l : list nat) (y : nat) : Prop :=
  match l with
  | [] => nx x = y ∧ pv y = x
  | a :: l => nx x = a ∧ pv a = x ∧ chain nx pv a l y
  end.

Lemma chain_app nx pv x l1 a l2 y :
  chain nx pv x (l1 ++ a :: l2) y ↔ chain nx pv x l1 a ∧ chain nx pv a l2 y.
Proof. revert x. induction l1 as [|b l1 IH]; intros x; simpl; [tauto|]. rewrite IH. tauto. Qed.

(** The links a chain reads. *)
Lemma links_ext nx pv nx' pv' x l y :
  (∀ a, a ∈ x :: l → nx' a = nx a) → (∀ a, a ∈ l ++ [y] → pv' a = pv a) →
  chain nx pv x l y → chain nx' pv' x l y.
Proof.
  revert x. induction l as [|b l IH]; intros x Hn Hp; simpl.
  - rewrite (Hn x), (Hp y); [done|left|left].
  - intros (? & ? & ?). rewrite (Hn x), (Hp b) by (simpl; left). split_and!; [done..|].
    apply IH; [| |done].
    + intros a Ha. apply Hn. by right.
    + intros a Ha. apply Hp. by right.
Qed.

Lemma chain_first nx pv x l y : chain nx pv x l y → nx x = hd y l.
Proof. destruct l; simpl; tauto. Qed.

(** The list of [bcache] is [L]. *)
Definition dll (s : bst) (L : list nat) : Prop :=
  chain (next s) (prev s) HEAD L HEAD ∧ NoDup (HEAD :: L).

(** [b] leaves the list. *)
Definition unlink (b : nat) (nx pv : nat → nat) : (nat → nat) * (nat → nat) :=
  (<[pv b := nx b]> nx, <[nx b := pv b]> pv).

Lemma chain_pred nx pv x l y : chain nx pv x l y → pv y ∈ x :: l.
Proof.
  revert x. induction l as [|b l IH]; intros x; simpl.
  - intros [_ ->]. left.
  - intros (_ & _ & ?%IH). by right.
Qed.

(** A new end of a chain. *)
Lemma chain_retarget nx pv nx' pv' x l b c :
  chain nx pv x l b → NoDup (x :: l) →
  (∀ a, a ∈ x :: l → a ≠ pv b → nx' a = nx a) → (∀ a, a ∈ l → pv' a = pv a) →
  nx' (pv b) = c → pv' c = pv b → chain nx' pv' x l c.
Proof.
  revert x. induction l as [|d l IH]; intros x Hc Hnd Hn Hp Hnc Hpc; simpl in *.
  - destruct Hc as [_ Hb]. by rewrite Hb in Hnc, Hpc.
  - destruct Hc as (H1 & H2 & Hc). apply NoDup_cons in Hnd as [Hx Hnd].
    pose proof (chain_pred _ _ _ _ _ Hc) as Hin.
    rewrite (Hn x), (Hp d) by (try (left); intros ->; done). split_and!; [done..|].
    apply IH; [done|done| | |done|done].
    + intros a Ha. apply Hn. by right.
    + intros a Ha. apply Hp. by right.
Qed.

(** Joining two chains end to end after a node has gone. *)
Lemma chain_unlink nx pv x l1 b l2 y :
  chain nx pv x l1 b → chain nx pv b l2 y →
  NoDup (x :: l1 ++ b :: l2) → NoDup (l1 ++ b :: l2 ++ [y]) →
  chain (unlink b nx pv).1 (unlink b nx pv).2 x (l1 ++ l2) y.
Proof.
  intros H1 H2 Hnd1 Hnd2. pose proof (chain_first _ _ _ _ _ H2) as Hc.
  pose proof (chain_pred _ _ _ _ _ H1) as Hp. simpl.
  assert (chain (<[pv b := nx b]> nx) (<[nx b := pv b]> pv) x l1 (nx b)) as Hleft.
  { eapply chain_retarget; [exact H1| | | | |].
    - rewrite (app_comm_cons l1) in Hnd1. by apply NoDup_app in Hnd1 as [? _].
    - intros a _ Hne. by rewrite fn_lookup_insert_ne.
    - intros a Ha. rewrite fn_lookup_insert_ne; [done|]. intros <-.
      apply NoDup_app in Hnd2 as (_ & Hd & _). apply (Hd _ Ha). rewrite Hc. right.
      destruct l2; simpl; [left|left].
    - by rewrite fn_lookup_insert.
    - by rewrite fn_lookup_insert. }
  destruct l2 as [|c l2]; simpl in *.
  - rewrite app_nil_r. by rewrite Hc in Hleft at 3.
  - destruct H2 as (Hbc & _ & H2). apply chain_app. split; [by rewrite Hc in Hleft at 3|].
    eapply links_ext; [| |exact H2].
    + intros a Ha. rewrite fn_lookup_insert_ne; [done|]. intros <-.
      rewrite (app_comm_cons l1) in Hnd1. apply NoDup_app in Hnd1 as (_ & Hd & _).
      apply (Hd _ Hp). by right.
    + intros a Ha. rewrite fn_lookup_insert_ne; [done|]. rewrite Hbc. intros ->.
      apply NoDup_app in Hnd2 as (_ & _ & Hnd2). apply NoDup_cons in Hnd2 as [_ Hnd2].
      by apply NoDup_cons in Hnd2 as [Hni _].
Qed.

(** [b] becomes the first of the list. *)
Lemma chain_push nx pv h b l y :
  chain nx pv h l y → b ∉ h :: l ++ [y] →
  NoDup (h :: l) →  NoDup (l ++ [y]) →
  let pv1 := <[b := h]> pv in
  chain (<[h := b]> (<[b := nx h]> nx)) (<[nx h := b]> pv1) h (b :: l) y.
Proof.
  intros Hc Hb Hnd1 Hnd2. pose proof (chain_first _ _ _ _ _ Hc) as Hf. simpl.
  rewrite not_elem_of_cons in Hb. destruct Hb as [Hbh Hb].
  assert (nx h ∈ l ++ [y]) as Hin by (rewrite Hf; destruct l; simpl; left).
  split; [by rewrite fn_lookup_insert|]. split.
  { rewrite fn_lookup_insert_ne by (intros E; by rewrite E in Hin). by rewrite fn_lookup_insert. }
  destruct l as [|c l]; simpl in *.
  - rewrite Hf. rewrite fn_lookup_insert_ne, !fn_lookup_insert by done. done.
  - rewrite Hf. split; [by rewrite fn_lookup_insert_ne, fn_lookup_insert by done|].
    split; [by rewrite fn_lookup_insert|]. destruct Hc as (_ & _ & Hc).
    eapply links_ext; [| |exact Hc].
    + intros a Ha. rewrite !fn_lookup_insert_ne; [done| |].
      * intros ->. apply Hb. apply elem_of_cons in Ha as [->|Ha]; [left|right]. apply elem_of_app. by left.
      * intros ->. apply NoDup_cons in Hnd1 as [Hni _]. done.
    + intros a Ha. apply NoDup_cons in Hnd2 as [Hni _].
      rewrite !fn_lookup_insert_ne; [done| |]; intros ->; [|done]. apply Hb. by right.
Qed.

(** *** Walks along the list *)

Fixpoint walks (f : nat → nat) (x : nat) (l : list nat) (e : nat) : Prop :=
  match l with [] => f x = e | a :: l => f x = a ∧ walks f a l e end.

Lemma walks_app f x l1 a l2 e : walks f x (l1 ++ a :: l2) e ↔ walks f x l1 a ∧ walks f a l2 e.
Proof. revert x. induction l1 as [|b l1 IH]; intros x; simpl; [tauto|]. rewrite IH. tauto. Qed.

Lemma chain_walks nx pv x l y : chain nx pv x l y → walks nx x l y ∧ walks pv y (reverse l) x.
Proof.
  revert x. induction l as [|b l IH]; intros x; [simpl; tauto|]. rewrite reverse_cons. simpl.
  intros (? & ? & [? ?]%IH). split; [done|]. by apply walks_app.
Qed.

(** The first buffer of a list that satisfies a condition. *)
Fixpoint first (s : bst) (p : bufr → bool) (l : list nat) : option nat :=
  match l with
  | [] => None
  | i :: l =>
      match bufs s !! i with
      | Some b => if p b then Some i else first s p l
      | None => None
      end
  end.

Lemma buf_at_Ok i s b : bufs s !! i = Some b → buf_at i s = Ok b s.
Proof. unfold buf_at. by intros ->. Qed.

Lemma scan_walk fuel step p s x l :
  walks (step s) x l HEAD → HEAD ∉ l → (∀ i, i ∈ l → is_Some (bufs s !! i)) → (length l < fuel)%nat →
  scan fuel step p (step s x) s = Ok (first s p l) s.
Proof.
  revert fuel x. induction l as [|b l IH]; intros [|fuel] x Hw Hh Hi Hf; simpl in *; try lia.
  - by rewrite bool_decide_eq_true_2.
  - destruct Hw as [-> Hw]. rewrite not_elem_of_cons in Hh. destruct Hh as [Hb Hh].
    rewrite bool_decide_eq_false_2 by done. destruct (Hi b) as [y Hy]; [left|].
    rewrite (bind_step _ _ _ y s) by by apply buf_at_Ok. rewrite Hy. destruct (p y); [done|].
    rewrite (bind_step _ _ _ (step s b) s) by done. apply IH; [done..| |lia].
    intros i Hin. apply Hi. by right.
Qed.

Lemma first_Some s p l i : first s p l = Some i → i ∈ l ∧ ∃ b, bufs s !! i = Some b ∧ p b = true.
Proof.
  induction l as [|j l IH]; simpl; [done|]. destruct (bufs s !! j) as [b|] eqn:E; [|done].
  destruct (p b) eqn:Ep; [intros [= ->]; split; [left|eauto]|].
  intros [Hin ?]%IH. split; [by right|done].
Qed.

Lemma first_None s p l i b :
  first s p l = None → (∀ i, i ∈ l → is_Some (bufs s !! i)) → i ∈ l → bufs s !! i = Some b → p b = false.
Proof.
  induction l as [|j l IH]; simpl; [by intros _ _ ?%not_elem_of_nil|]. intros Hf Hs.
  destruct (Hs j) as [c Hc]; [left|]. rewrite Hc in Hf. destruct (p c) eqn:Ep; [done|].
  intros [->|Hin]%elem_of_cons Hb; [congruence|]. apply IH; try done. intros k Hk. apply Hs. by right.
Qed.

(** ** Processes that use the cache *)

(** What a process does with a buffer it has a reference to: it waits for its
    lock, has it, or has given it up. *)
Inductive stage : Type := Waiting | Holding | Leaving.

#[global] Instance stage_eq_dec : EqDecision stage.
Proof. solve_decision. Defined.

Abbreviation refs := (list (Z * nat * stage)).

Definition count (i : nat) (rs : refs) : Z := Z.of_nat (length (filter (λ r, r.1.2 = i) rs)).
Definition holders (i : nat) (rs : refs) : refs := filter (λ r, r.1.2 = i ∧ r.2 = Holding) rs.

Record sound (b : bufr) (s : bst) : Prop := Sound {
  so_flags : flags b = 0 ∨ flags b = B_VALID ∨ flags b = Z.lor B_VALID B_DIRTY;
  so_dev : flags b ≠ 0 → dev b = 1;
  so_disk : flags b = B_VALID → data b = memdisk s (blockno b);
}.

(** The state of the cache: [L] is its list, the most recently used buffer first. *)
Record cache (s : bst) (L : list nat) (rs : refs) : Prop := Cache {
  ca_dll : dll s L;
  ca_all i : i ∈ L ↔ (i < NBUF)%nat;
  ca_len : length (bufs s) = NBUF;
  ca_ref i b : bufs s !! i = Some b → refcnt b = count i rs;
  ca_idx r : r ∈ rs → (r.1.2 < NBUF)%nat;
  ca_few : Z.of_nat (length rs) ≤ 2 ^ 31;
  ca_lock i b : bufs s !! i = Some b →
    (locked b = 0 ∧ holders i rs = []) ∨
    (locked b ≠ 0 ∧ holders i rs = [(lpid b, i, Holding)]);
  ca_unique i j b c : bufs s !! i = Some b → bufs s !! j = Some c → i ≠ j → dev b ≠ 0 →
    ¬ (dev b = dev c ∧ blockno b = blockno c);
  ca_used r b : r ∈ rs → bufs s !! r.1.2 = Some b → dev b ≠ 0;
  ca_sound i b : bufs s !! i = Some b → sound b s;
}.

Lemma cache_lookup s L rs i : cache s L rs → (i < NBUF)%nat → ∃ b, bufs s !! i = Some b.
Proof. intros Hc Hi. apply lookup_lt_is_Some_2. by rewrite (ca_len _ _ _ Hc). Qed.

(** One buffer changes, and the references to it. *)
Lemma cache_update s s' L L' rs rs' i b f :
  cache s L rs → bufs s !! i = Some b → bufs s' = upd i f (bufs s) → Z.of_nat (length rs') ≤ 2 ^ 31 →
  dll s' L' → (∀ j, j ∈ L' ↔ (j < NBUF)%nat) →
  (∀ j, j ≠ i → count j rs' = count j rs ∧ holders j rs' = holders j rs) →
  (∀ r, r ∈ rs' → r.1.2 = i ∨ ∃ r0, r0 ∈ rs ∧ r0.1.2 = r.1.2) →
  refcnt (f b) = count i rs' →
  (locked (f b) = 0 ∧ holders i rs' = []) ∨
    (locked (f b) ≠ 0 ∧ holders i rs' = [(lpid (f b), i, Holding)]) →
  (dev (f b) = dev b ∧ blockno (f b) = blockno b ∨
   ∀ j c, j ≠ i → bufs s !! j = Some c → ¬ (dev (f b) = dev c ∧ blockno (f b) = blockno c)) →
  (∀ r, r ∈ rs' → r.1.2 = i → dev (f b) ≠ 0) →
  sound (f b) s' → (∀ j c, j ≠ i → bufs s !! j = Some c → sound c s') →
  cache s' L' rs'.
Proof.
  intros [Hdll Hall Hlen Href Hidx Hfew Hlock Huniq Hused Hsound] Hb Hbufs Hfew' Hdll' Hall' Hother Hin Hcnt Hlk
    Hun Huse Hso Hsoo.
  assert (i < NBUF)%nat as Hi by (rewrite <-Hlen; by eapply lookup_lt_Some).
  assert (∀ j c, bufs s' !! j = Some c → (j = i ∧ c = f b) ∨ (j ≠ i ∧ bufs s !! j = Some c)) as Hlook.
  { intros j c. rewrite Hbufs, lookup_upd_Some. naive_solver. }
  split; [done|done| | | |done| | | |].
  - by rewrite Hbufs, length_upd.
  - intros j c [[-> ->]|[Hne Hc]]%Hlook; [done|]. destruct (Hother j Hne) as [-> _]. by apply Href.
  - intros r Hr. destruct (Hin r Hr) as [->|(r0 & Hr0 & <-)]; [done|]. by apply Hidx.
  - intros j c [[-> ->]|[Hne Hc]]%Hlook; [done|]. destruct (Hother j Hne) as [_ ->]. by apply Hlock.
  - intros j k c d [[-> ->]|[Hne Hc]]%Hlook [[-> ->]|[Hne' Hd]]%Hlook Hjk Hdev; [done| | |by eapply Huniq].
    + destruct Hun as [[E1 E2]|Hun]; [|by eapply Hun]. rewrite E1, E2 in *. by eapply Huniq.
    + intros [E1 E2]. destruct Hun as [[E3 E4]|Hun].
      * eapply (Huniq j i c b); [done..|split; congruence].
      * eapply (Hun j c); [done..|split; congruence].
  - intros r c Hr [[E ->]|[Hne Hc]]%Hlook; [by eapply Huse|].
    destruct (Hin r Hr) as [?|(r0 & Hr0 & E)]; [done|]. eapply (Hused r0); [done|]. by rewrite E.
  - intros j c [[-> ->]|[Hne Hc]]%Hlook; [done|]. by eapply Hsoo.
Qed.

Lemma count_cons i r rs : count i (r :: rs) = (if decide (r.1.2 = i) then 1 else 0) + count i rs.
Proof. unfold count. rewrite filter_cons. case_decide; simpl; lia. Qed.

Lemma count_app i rs1 rs2 : count i (rs1 ++ rs2) = count i rs1 + count i rs2.
Proof. unfold count. rewrite filter_app, length_app. lia. Qed.

Lemma count_le i rs : 0 ≤ count i rs ≤ Z.of_nat (length rs).
Proof. unfold count. pose proof (length_filter (λ r : Z * nat * stage, r.1.2 = i) rs). lia. Qed.

Lemma holders_app i rs1 rs2 : holders i (rs1 ++ rs2) = holders i rs1 ++ holders i rs2.
Proof. apply filter_app. Qed.

Lemma holders_cons i r rs :
  holders i (r :: rs) = if decide (r.1.2 = i ∧ r.2 = Holding) then r :: holders i rs else holders i rs.
Proof. unfold holders. rewrite filter_cons. by repeat case_decide. Qed.

(** A reference that moves to another stage. *)
Lemma stage_other (pid : Z) (i : nat) (st st' : stage) (rs1 rs2 : refs) j :
  j ≠ i →
  count j (rs1 ++ (pid, i, st') :: rs2) = count j (rs1 ++ (pid, i, st) :: rs2) ∧
  holders j (rs1 ++ (pid, i, st') :: rs2) = holders j (rs1 ++ (pid, i, st) :: rs2).
Proof.
  intros Hne. rewrite !count_app, !holders_app, !count_cons, !holders_cons. simpl.
  by rewrite !(decide_False (P := i = j)), !(decide_False (P := i = j ∧ _)) by naive_solver.
Qed.

Lemma stage_count (pid : Z) (i : nat) (st st' : stage) (rs1 rs2 : refs) :
  count i (rs1 ++ (pid, i, st') :: rs2) = count i (rs1 ++ (pid, i, st) :: rs2).
Proof. by rewrite !count_app, !count_cons. Qed.

Lemma stage_few (pid : Z) (i : nat) (st st' : stage) (rs1 rs2 : refs) n :
  Z.of_nat (length (rs1 ++ (pid, i, st) :: rs2)) ≤ n →
  Z.of_nat (length (rs1 ++ (pid, i, st') :: rs2)) ≤ n.
Proof. by rewrite !length_app. Qed.

Lemma stage_in (pid : Z) (i : nat) (st st' : stage) (rs1 rs2 : refs) r :
  r ∈ rs1 ++ (pid, i, st') :: rs2 →
  r.1.2 = i ∨ ∃ r0, r0 ∈ rs1 ++ (pid, i, st) :: rs2 ∧ r0.1.2 = r.1.2.
Proof.
  rewrite elem_of_app, elem_of_cons. intros [Hr|[->|Hr]]; [|by left|]; right; exists r;
    rewrite elem_of_app, elem_of_cons; auto.
Qed.

(** A new reference. *)
Lemma new_ref_other (pid : Z) (i : nat) (rs : refs) j :
  j ≠ i → count j ((pid, i, Waiting) :: rs) = count j rs ∧
          holders j ((pid, i, Waiting) :: rs) = holders j rs.
Proof.
  intros Hne. rewrite count_cons, holders_cons. simpl.
  rewrite decide_False by congruence. rewrite decide_False; [done|]. intros [_ ?]. done.
Qed.

Lemma new_ref_in (pid : Z) (i : nat) (rs : refs) r :
  r ∈ (pid, i, Waiting) :: rs → r.1.2 = i ∨ ∃ r0, r0 ∈ rs ∧ r0.1.2 = r.1.2.
Proof. intros [->|Hr]%elem_of_cons; [by left|right; eauto]. Qed.

Lemma new_ref_count (pid : Z) (i : nat) (rs : refs) : count i ((pid, i, Waiting) :: rs) = count i rs + 1.
Proof. rewrite count_cons. simpl. rewrite decide_True by done. lia. Qed.

Lemma new_ref_holders (pid : Z) (i : nat) (rs : refs) : holders i ((pid, i, Waiting) :: rs) = holders i rs.
Proof. rewrite holders_cons. simpl. rewrite decide_False; [done|]. intros [_ ?]. done. Qed.

Lemma holders_count (i : nat) (rs : refs) : count i rs = 0 → holders i rs = [].
Proof.
  unfold count, holders. intros E. apply (f_equal Z.to_nat) in E. rewrite Nat2Z.id in E. simpl in E.
  apply nil_length_inv in E. induction rs as [|r rs IH]; [done|]. rewrite filter_cons in *.
  case_decide; [done|]. rewrite decide_False by tauto. by apply IH.
Qed.

(** *** [bget] *)

Lemma cache_scan s L rs p :
  cache s L rs →
  scan SCAN_FUEL next p (next s HEAD) s = Ok (first s p L) s ∧
  scan SCAN_FUEL prev p (prev s HEAD) s = Ok (first s p (reverse L)) s.
Proof.
  intros Hc. destruct (ca_dll _ _ _ Hc) as [Hch [Hh Hnd]%NoDup_cons].
  destruct (chain_walks _ _ _ _ _ Hch) as [Hw1 Hw2].
  assert (length L ≤ NBUF)%nat as Hlen.
  { rewrite <-(length_seq NBUF 0). apply submseteq_length, NoDup_submseteq; [done|].
    intros i Hi%(ca_all _ _ _ Hc). apply elem_of_seq. lia. }
  assert (∀ i, i ∈ L → is_Some (bufs s !! i)) as Hi.
  { intros i Hi%(ca_all _ _ _ Hc). by eapply cache_lookup. }
  unfold SCAN_FUEL. split; apply (scan_walk _ _ _ s); try done; try lia.
  - by rewrite elem_of_reverse.
  - intros i. rewrite elem_of_reverse. apply Hi.
  - rewrite length_reverse. lia.
Qed.

Lemma bget_cached s L rs pid d n i :
  cache s L rs → first s (is_block d n) L = Some i → d ≠ 0 → Z.of_nat (length rs) < 2 ^ 31 →
  wpt (bget d n) (λ r s', r = i ∧ cache s' L ((pid, i, Waiting) :: rs) ∧
    s' = set_bufs (upd i (λ x, set_refcnt (u32 (refcnt x + 1)) x) (bufs s)) s) s.
Proof.
  intros Hc Hf Hd Hrs. unfold bget. apply wpt_bind, wpt_gets.
  destruct (cache_scan s L rs (is_block d n) Hc) as [Hs _].
  apply wpt_bind. eapply wpt_eq; [exact Hs|]. rewrite Hf.
  destruct (first_Some _ _ _ _ Hf) as (Hi & b & Hb & Hp). unfold is_block in Hp.
  apply andb_prop in Hp as [Hp1%bool_decide_eq_true Hp2%bool_decide_eq_true].
  apply wpt_bind, wpt_modify, wpt_ret. split; [done|]. split; [|done].
  pose proof (count_le i rs) as Hle.
  eapply (cache_update s _ L L rs _ i b); [done|done|reflexivity|simpl; lia|apply Hc|apply Hc| | | | | | | |].
  - apply new_ref_other.
  - apply new_ref_in.
  - simpl. rewrite new_ref_count, (ca_ref _ _ _ Hc _ _ Hb), u32_small by lia. done.
  - rewrite new_ref_holders. apply (ca_lock _ _ _ Hc _ _ Hb).
  - by left.
  - intros _ _ _. simpl. congruence.
  - destruct (ca_sound _ _ _ Hc _ _ Hb). by split.
  - intros j c _ Hj. destruct (ca_sound _ _ _ Hc _ _ Hj). by split.
Qed.

Lemma bget_recycled s L rs pid d n i :
  cache s L rs → first s (is_block d n) L = None → first s unused (reverse L) = Some i → d ≠ 0 →
  Z.of_nat (length rs) < 2 ^ 31 →
  wpt (bget d n) (λ r s', r = i ∧ cache s' L ((pid, i, Waiting) :: rs) ∧
    s' = set_bufs (upd i (λ x, Buf 0 d n (locked x) (lpid x) 1 (data x)) (bufs s)) s) s.
Proof.
  intros Hc Hf Hu Hd Hrs. unfold bget. apply wpt_bind, wpt_gets.
  destruct (cache_scan s L rs (is_block d n) Hc) as [Hs _].
  apply wpt_bind. eapply wpt_eq; [exact Hs|]. rewrite Hf.
  apply wpt_bind, wpt_gets. destruct (cache_scan s L rs unused Hc) as [_ Hs'].
  apply wpt_bind. eapply wpt_eq; [exact Hs'|]. rewrite Hu.
  destruct (first_Some _ _ _ _ Hu) as (Hi & b & Hb & Hp). unfold unused in Hp.
  apply andb_prop in Hp as [Hp1%bool_decide_eq_true _].
  apply wpt_bind, wpt_modify, wpt_ret. split; [done|]. split; [|done].
  assert (count i rs = 0) as H0 by (by rewrite <-(ca_ref _ _ _ Hc _ _ Hb)).
  eapply (cache_update s _ L L rs _ i b); [done|done|reflexivity|simpl; lia|apply Hc|apply Hc| | | | | | | |]; simpl.
  - apply new_ref_other.
  - apply new_ref_in.
  - by rewrite new_ref_count, H0.
  - rewrite new_ref_holders. apply (ca_lock _ _ _ Hc _ _ Hb).
  - right. intros j c Hne Hj [E1 E2].
    assert (is_block d n c = false) as Hno.
    { eapply (first_None s _ L j); [done| | |done].
      - intros k Hk%(ca_all _ _ _ Hc). by eapply cache_lookup.
      - apply (ca_all _ _ _ Hc). rewrite <-(ca_len _ _ _ Hc). by eapply lookup_lt_Some. }
    unfold is_block in Hno. rewrite !bool_decide_eq_true_2 in Hno by done. done.
  - done.
  - split; simpl; [by left|done|done].
  - intros j c _ Hj. destruct (ca_sound _ _ _ Hc _ _ Hj). by split.
Qed.

Lemma bget_full s L rs d n :
  cache s L rs → first s (is_block d n) L = None → first s unused (reverse L) = None →
  bget d n s = Panic "bget: no buffers" s.
Proof.
  intros Hc Hf Hu. unfold bget. rewrite (bind_step _ _ _ (next s HEAD) s) by done.
  destruct (cache_scan s L rs (is_block d n) Hc) as [Hs _].
  rewrite (bind_step _ _ _ _ _ Hs), Hf. rewrite (bind_step _ _ _ (prev s HEAD) s) by done.
  destruct (cache_scan s L rs unused Hc) as [_ Hs']. by rewrite (bind_step _ _ _ _ _ Hs'), Hu.
Qed.

(** *** The other steps *)

(** The references of a process that has the lock of a buffer. *)
Lemma holding s L rs pid i :
  cache s L rs → (pid, i, Holding) ∈ rs →
  ∃ b, bufs s !! i = Some b ∧ locked b ≠ 0 ∧ lpid b = pid ∧ dev b ≠ 0 ∧ holdingsleep pid i s = Ok true s.
Proof.
  intros Hc Hin. destruct (cache_lookup s L rs i Hc) as [b Hb]; [by apply (ca_idx _ _ _ Hc _ Hin)|].
  exists b. assert ((pid, i, Holding) ∈ holders i rs) as Hh.
  { unfold holders. by apply list_elem_of_filter. }
  destruct (ca_lock _ _ _ Hc _ _ Hb) as [[_ E]|[Hl E]]; rewrite E in Hh.
  { by apply not_elem_of_nil in Hh. }
  apply list_elem_of_singleton in Hh as [= ->]. split_and!; try done.
  - by apply (ca_used _ _ _ Hc _ _ Hin).
  - unfold holdingsleep. rewrite (bind_step _ _ _ _ _ (buf_at_Ok _ _ _ Hb)).
    by rewrite !bool_decide_eq_true_2.
Qed.

Lemma acquire_turn s L rs1 rs2 pid i :
  cache s L (rs1 ++ (pid, i, Waiting) :: rs2) →
  wpt (acquiresleep_turn pid i) (λ got s',
    if (got : bool) then cache s' L (rs1 ++ (pid, i, Holding) :: rs2) ∧
      s' = set_bufs (upd i (set_lock 1 pid) (bufs s)) s
    else s' = s ∧ ∃ pid', (pid', i, Holding) ∈ rs1 ++ (pid, i, Waiting) :: rs2) s.
Proof.
  intros Hc. set (rs := rs1 ++ (pid, i, Waiting) :: rs2) in *.
  assert ((pid, i, Waiting) ∈ rs) as Hin by (apply elem_of_app; right; left).
  destruct (cache_lookup s L rs i Hc) as [b Hb]; [by apply (ca_idx _ _ _ Hc _ Hin)|].
  unfold acquiresleep_turn. apply wpt_bind. eapply wpt_eq; [by apply buf_at_Ok|].
  destruct (ca_lock _ _ _ Hc _ _ Hb) as [[Hl E]|[Hl E]].
  - rewrite bool_decide_eq_false_2 by tauto. apply wpt_bind, wpt_modify, wpt_ret. split; [|done].
    eapply (cache_update s _ L L rs _ i b); [done|done|reflexivity|eapply stage_few, Hc|apply Hc|apply Hc| | | | | | | |]; simpl.
    + intros j. apply stage_other.
    + apply stage_in.
    + unfold rs in Hc. rewrite (ca_ref _ _ _ Hc _ _ Hb). apply stage_count.
    + right. split; [done|]. unfold rs in E. rewrite holders_app, holders_cons in E |- *. simpl in *.
      rewrite decide_False in E by (intros [_ ?]; done). rewrite decide_True by done.
      apply app_nil in E as [-> ->]. done.
    + by left.
    + intros _ _ _. apply (ca_used _ _ _ Hc _ _ Hin Hb).
    + destruct (ca_sound _ _ _ Hc _ _ Hb). by split.
    + intros j c _ Hj. destruct (ca_sound _ _ _ Hc _ _ Hj). by split.
  - rewrite bool_decide_eq_true_2 by done. apply wpt_ret. split; [done|].
    exists (lpid b). assert ((lpid b, i, Holding) ∈ holders i rs) as Hh by (rewrite E; left).
    by apply list_elem_of_filter in Hh as [_ ?].
Qed.

(** The holder of the lock changes the buffer and its block on the disk. *)
Lemma holder_update s s' L rs pid i b f :
  cache s L rs → (pid, i, Holding) ∈ rs → bufs s !! i = Some b →
  bufs s' = upd i f (bufs s) → next s' = next s → prev s' = prev s →
  dev (f b) = dev b → blockno (f b) = blockno b → refcnt (f b) = refcnt b →
  locked (f b) = locked b → lpid (f b) = lpid b → sound (f b) s' →
  (dev b = 1 ∧ (∀ n, n ≠ blockno b → memdisk s' n = memdisk s n) ∨ memdisk s' = memdisk s) →
  cache s' L rs.
Proof.
  intros Hc Hin Hb Hbufs Hn Hp Hd Hbn Hr Hl Hlp Hso Hdisk.
  eapply (cache_update s _ L L rs _ i b); [done|done|exact Hbufs|apply Hc| | | | | | | | | |].
  - destruct (ca_dll _ _ _ Hc). split; [|done]. by rewrite Hn, Hp.
  - apply Hc.
  - done.
  - eauto.
  - rewrite Hr. by apply (ca_ref _ _ _ Hc).
  - rewrite Hl, Hlp. by apply (ca_lock _ _ _ Hc).
  - by left.
  - intros r Hr' E. rewrite Hd. apply (ca_used _ _ _ Hc r b Hr'). by rewrite E.
  - done.
  - intros j c Hne Hj. destruct (ca_sound _ _ _ Hc _ _ Hj) as [S1 S2 S3]. split; [done|done|].
    intros E. rewrite (S3 E). destruct Hdisk as [[Hd1 Hdisk]| ->]; [|done].
    symmetry. apply Hdisk. intros E'.
    apply (ca_unique _ _ _ Hc j i c b Hj Hb Hne).
    + rewrite S2; [done|]. rewrite E. done.
    + rewrite S2, Hd1; [done|]. rewrite E. done.
Qed.

Lemma upd_twice {A} i (f g : A → A) (l : list A) : upd i g (upd i f l) = upd i (g ∘ f) l.
Proof.
  apply list_eq. intros j. destruct (decide (i = j)) as [<-|Hne]; [|by rewrite !lookup_upd_ne].
  rewrite !lookup_upd_eq. by destruct (l !! i).
Qed.

(** [iderw] on a buffer that is not valid, and on a dirty one. *)
Lemma iderw_reads s L rs pid i b :
  cache s L rs → (pid, i, Holding) ∈ rs → bufs s !! i = Some b → flags b = 0 →
  dev b = 1 → blockno b < disksize s →
  ∃ s', iderw pid i s = Ok tt s' ∧ cache s' L rs ∧
    s' = set_bufs (upd i (λ x, set_flags B_VALID (set_data (memdisk s (blockno b)) x)) (bufs s)) s.
Proof.
  intros Hc Hin Hb Hf Hd Hn. destruct (holding _ _ _ _ _ Hc Hin) as (b' & Hb' & _ & _ & _ & Hh).
  simplify_eq. eexists. split; [|split; [|reflexivity]].
  - unfold iderw. rewrite (bind_step _ _ _ _ _ Hh). simpl.
    rewrite (bind_step _ _ _ _ _ (buf_at_Ok _ _ _ Hb)). rewrite Hf.
    rewrite !bool_decide_eq_false_2 by (done || lia). rewrite (bind_step _ _ _ s s) by done.
    rewrite bool_decide_eq_false_2 by lia.
    change (has 0 B_DIRTY) with false. erewrite (bind_step _ _ s tt) by reflexivity.
    rewrite (bind_step _ _ _ (set_data (memdisk s (blockno b)) b)
      (set_bufs (upd i (set_data (memdisk s (blockno b))) (bufs s)) s)).
    2: { apply buf_at_Ok. simpl. by rewrite lookup_upd_eq, Hb. }
    unfold upd_buf, modify. simpl. rewrite upd_twice. unfold set_bufs. simpl. do 2 f_equal.
    eapply list_eq. intros j. destruct (decide (i = j)) as [<-|Hne].
    + rewrite !lookup_upd_eq, Hb. simpl. by rewrite Hf.
    + by rewrite !lookup_upd_ne.
  - eapply (holder_update s _ L rs pid i b); simpl; try done.
    + split; simpl; [by right; left|done|done].
    + by right.
Qed.

Lemma iderw_writes s rs L pid i b x :
  cache s L rs → (pid, i, Holding) ∈ rs → bufs s !! i = Some b → dev b = 1 → blockno b < disksize s →
  let s1 := set_bufs (upd i (λ y, set_flags (Z.lor (flags y) B_DIRTY) (set_data x y)) (bufs s)) s in
  ∃ s', iderw pid i s1 = Ok tt s' ∧ cache s' L rs ∧
    s' = set_memdisk (<[blockno b := x]> (memdisk s))
           (set_bufs (upd i (λ y, set_flags B_VALID (set_data x y)) (bufs s)) s).
Proof.
  intros Hc Hin Hb Hd Hn s1. destruct (holding _ _ _ _ _ Hc Hin) as (b' & Hb' & Hl & Hp & _ & _).
  simplify_eq. set (b1 := set_flags (Z.lor (flags b) B_DIRTY) (set_data x b)).
  assert (bufs s1 !! i = Some b1) as Hb1 by (simpl; by rewrite lookup_upd_eq, Hb).
  assert (Z.lor (flags b) B_DIRTY = B_DIRTY ∨ Z.lor (flags b) B_DIRTY = Z.lor B_VALID B_DIRTY) as Hfl.
  { destruct (so_flags _ _ (ca_sound _ _ _ Hc _ _ Hb)) as [->|[->| ->]]; auto. }
  eexists. split; [|split; [|reflexivity]].
  - unfold iderw. rewrite (bind_step _ _ _ true s1).
    2: { unfold holdingsleep. rewrite (bind_step _ _ _ _ _ (buf_at_Ok _ _ _ Hb1)). simpl.
         by rewrite !bool_decide_eq_true_2. }
    simpl. rewrite (bind_step _ _ _ _ _ (buf_at_Ok _ _ _ Hb1)).
    replace (bool_decide (Z.land (flags b1) (Z.lor B_VALID B_DIRTY) = B_VALID)) with false
      by (simpl; destruct Hfl as [-> | ->]; done).
    rewrite (bool_decide_eq_false_2 (dev b1 ≠ 1)) by (simpl; tauto).
    rewrite (bind_step _ _ _ s1 s1) by done. rewrite bool_decide_eq_false_2 by (simpl; lia).
    replace (has (flags b1) B_DIRTY) with true by (simpl; destruct Hfl as [-> | ->]; done).
    erewrite (bind_step _ _ s1 tt) by reflexivity.
    erewrite (bind_step (buf_at i)).
    2: { apply buf_at_Ok. simpl. by rewrite !lookup_upd_eq, Hb. }
    unfold upd_buf, modify, set_bufs, set_memdisk. simpl. rewrite !upd_twice. do 2 f_equal.
    eapply list_eq. intros j. destruct (decide (i = j)) as [<-|Hne].
    + rewrite !lookup_upd_eq, Hb. simpl. f_equal. unfold set_flags, set_data. simpl. f_equal. destruct Hfl as [-> | ->]; done.
    + by rewrite !lookup_upd_ne.
  - eapply (holder_update s _ L rs (lpid b) i b); simpl; try done.
    + split; simpl; [by right; left|done|]. intros _. by rewrite fn_lookup_insert.
    + left. split; [done|]. intros n Hne. by rewrite fn_lookup_insert_ne.
Qed.

(** The holder fills the buffer. *)
Lemma bread_locked_spec s L rs pid i b :
  cache s L rs → (pid, i, Holding) ∈ rs → bufs s !! i = Some b → dev b = 1 → blockno b < disksize s →
  wpt (bread_locked pid i) (λ _ s', cache s' L rs ∧ memdisk s' = memdisk s ∧
    s' = if has (flags b) B_VALID then s else
      set_bufs (upd i (λ x, set_flags B_VALID (set_data (memdisk s (blockno b)) x)) (bufs s)) s) s.
Proof.
  intros Hc Hin Hb Hd Hn. unfold bread_locked. apply wpt_bind. eapply wpt_eq; [by apply buf_at_Ok|].
  destruct (has (flags b) B_VALID) eqn:Hv; [by apply wpt_ret|].
  destruct (iderw_reads s L rs pid i b) as (s' & Hs' & Hc' & ->); try done.
  { destruct (so_flags _ _ (ca_sound _ _ _ Hc _ _ Hb)) as [E|[E|E]]; [done|..]; rewrite E in Hv; done. }
  eapply wpt_eq; [exact Hs'|]. done.
Qed.

(** The holder stores new contents and calls [bwrite]. *)
Definition bwrite_data (pid : Z) (i : nat) (x : list Z) : M bst unit :=
  upd_buf i (set_data x) ;; bwrite pid i.

Lemma bwrite_spec s L rs pid i b x :
  cache s L rs → (pid, i, Holding) ∈ rs → bufs s !! i = Some b → dev b = 1 → blockno b < disksize s →
  wpt (bwrite_data pid i x) (λ _ s', cache s' L rs ∧
    s' = set_memdisk (<[blockno b := x]> (memdisk s))
           (set_bufs (upd i (λ y, set_flags B_VALID (set_data x y)) (bufs s)) s)) s.
Proof.
  intros Hc Hin Hb Hd Hn. unfold bwrite_data. apply wpt_bind, wpt_modify. unfold bwrite.
  destruct (holding _ _ _ _ _ Hc Hin) as (b' & Hb' & Hl & Hp & _). simplify_eq.
  set (s1 := set_bufs (upd i (set_data x) (bufs s)) s). assert (bufs s1 !! i = Some (set_data x b)) as Hb1
    by (simpl; by rewrite lookup_upd_eq, Hb).
  apply wpt_bind. eapply wpt_eq.
  { unfold holdingsleep. rewrite (bind_step _ _ _ _ _ (buf_at_Ok _ _ _ Hb1)). simpl.
    rewrite !bool_decide_eq_true_2 by done. reflexivity. }
  simpl. apply wpt_bind, wpt_modify. unfold s1, set_bufs. simpl. rewrite upd_twice.
  destruct (iderw_writes s rs L (lpid b) i b x) as (s' & Hs' & Hc' & ->); try done.
  eapply wpt_eq; [exact Hs'|]. done.
Qed.

(** The holder stores new contents and marks the buffer dirty, as [log_write]
    does. *)
Definition log_dirty (i : nat) (x : list Z) : M bst unit :=
  upd_buf i (set_data x) ;; upd_buf i (λ b, set_flags (Z.lor (flags b) B_DIRTY) b).

Lemma log_dirty_spec s L rs pid i b x :
  cache s L rs → (pid, i, Holding) ∈ rs → bufs s !! i = Some b → has (flags b) B_VALID = true →
  wpt (log_dirty i x) (λ _ s', cache s' L rs ∧
    s' = set_bufs (upd i (λ y, set_flags (Z.lor B_VALID B_DIRTY) (set_data x y)) (bufs s)) s) s.
Proof.
  intros Hc Hin Hb Hv. unfold log_dirty. apply wpt_bind, wpt_modify, wpt_modify.
  assert (flags b = B_VALID ∨ flags b = Z.lor B_VALID B_DIRTY) as Hfl.
  { destruct (so_flags _ _ (ca_sound _ _ _ Hc _ _ Hb)) as [E|[E|E]]; [by rewrite E in Hv|auto..]. }
  assert (set_bufs (upd i (λ b, set_flags (Z.lor (flags b) B_DIRTY) b)
      (bufs (set_bufs (upd i (set_data x) (bufs s)) s))) (set_bufs (upd i (set_data x) (bufs s)) s) =
    set_bufs (upd i (λ y, set_flags (Z.lor B_VALID B_DIRTY) (set_data x y)) (bufs s)) s) as ->.
  { unfold set_bufs. simpl. rewrite upd_twice. f_equal. apply list_eq. intros j.
    destruct (decide (i = j)) as [<-|Hne]; [|by rewrite !lookup_upd_ne].
    rewrite !lookup_upd_eq, Hb. simpl. do 2 f_equal. destruct Hfl as [-> | ->]; done. }
  split; [|done]. eapply (holder_update s _ L rs pid i b); simpl; try done.
  - split; simpl; [by right; right| |done]. intros _. apply (so_dev _ _ (ca_sound _ _ _ Hc _ _ Hb)).
    destruct Hfl as [-> | ->]; done.
  - by right.
Qed.

Lemma brelse_lock_spec s L rs1 rs2 pid i :
  cache s L (rs1 ++ (pid, i, Holding) :: rs2) →
  wpt (brelse_lock pid i) (λ _ s', cache s' L (rs1 ++ (pid, i, Leaving) :: rs2) ∧
    s' = set_bufs (upd i (set_lock 0 0) (bufs s)) s) s.
Proof.
  intros Hc. set (rs := rs1 ++ (pid, i, Holding) :: rs2) in *.
  assert ((pid, i, Holding) ∈ rs) as Hin by (apply elem_of_app; right; left).
  destruct (holding _ _ _ _ _ Hc Hin) as (b & Hb & Hl & Hp & Hd & Hh).
  unfold brelse_lock. apply wpt_bind. eapply wpt_eq; [exact Hh|]. simpl.
  apply wpt_modify. split; [|done].
  eapply (cache_update s _ L L rs _ i b); [done|done|reflexivity|eapply stage_few, Hc|apply Hc|apply Hc| | | | | | | |]; simpl.
  - intros j. apply stage_other.
  - apply stage_in.
  - unfold rs in Hc. rewrite (ca_ref _ _ _ Hc _ _ Hb). apply stage_count.
  - left. split; [done|]. destruct (ca_lock _ _ _ Hc _ _ Hb) as [[? _]|[_ E]]; [done|].
    unfold rs in E. rewrite holders_app, holders_cons in E |- *. simpl in *.
    rewrite decide_True in E by done. rewrite decide_False by (intros [_ ?]; done).
    destruct (holders i rs1) as [|r h1]; simpl in *; [by injection E as _ ->|].
    injection E as _ E. by destruct h1.
  - by left.
  - done.
  - destruct (ca_sound _ _ _ Hc _ _ Hb). by split.
  - intros j c _ Hj. destruct (ca_sound _ _ _ Hc _ _ Hj). by split.
Qed.

(** The list with [i] moved to its front. *)
Definition touch (i : nat) (L : list nat) : list nat := i :: filter (λ j, j ≠ i) L.

Lemma filter_ne i (l : list nat) : i ∉ l → filter (λ j, j ≠ i) l = l.
Proof.
  induction l as [|j l IH]; [done|]. rewrite not_elem_of_cons, filter_cons. intros [Hne Hl].
  rewrite decide_True by congruence. by rewrite IH.
Qed.

Lemma touch_app i l1 l2 : i ∉ l1 → i ∉ l2 → touch i (l1 ++ i :: l2) = i :: l1 ++ l2.
Proof.
  intros H1 H2. unfold touch. rewrite filter_app, filter_cons, decide_False by tauto.
  by rewrite !filter_ne.
Qed.

(** The moves of [brelse] on the links. *)
Lemma dll_touch s L i :
  dll s L → i ∈ L →
  let nx := (unlink i (next s) (prev s)).1 in
  let pv := (unlink i (next s) (prev s)).2 in
  ∀ s', next s' = <[HEAD := i]> (<[i := nx HEAD]> nx) →
    prev s' = <[nx HEAD := i]> (<[i := HEAD]> pv) → dll s' (touch i L).
Proof.
  intros [Hch Hnd] (l1 & l2 & ->)%list_elem_of_split nx pv s' Hn Hp.
  pose proof Hnd as [Hh Hnd']%NoDup_cons. apply NoDup_app in Hnd' as (Hnd1 & Hdis & Hnd2).
  pose proof Hnd2 as [Hi2 _]%NoDup_cons.
  assert (i ∉ l1) as Hi1 by (intros Hi; apply (Hdis _ Hi); left).
  rewrite touch_app by done. apply chain_app in Hch as [Hc1 Hc2].
  rewrite elem_of_app, elem_of_cons in Hh.
  assert (NoDup (l1 ++ i :: l2 ++ [HEAD])) as Hnd3.
  { change (i :: l2 ++ [HEAD]) with ((i :: l2) ++ [HEAD]).
    rewrite app_assoc. apply NoDup_app. split; [by apply NoDup_cons in Hnd as [_ ?]|].
    split; [|by apply NoDup_singleton]. intros x Hx ->%list_elem_of_singleton.
    rewrite elem_of_app, elem_of_cons in Hx. tauto. }
  pose proof (chain_unlink _ _ _ _ _ _ _ Hc1 Hc2 Hnd Hnd3) as Hu. fold nx pv in Hu.
  assert (NoDup (HEAD :: l1 ++ l2)) as HndU.
  { apply NoDup_cons. split; [rewrite elem_of_app; tauto|]. apply NoDup_app.
    apply NoDup_cons in Hnd2 as [_ Hnd2]. split_and!; [done| |done].
    intros x Hx Hx'. apply (Hdis _ Hx). by right. }
  split.
  - rewrite Hn, Hp. apply chain_push; [done| |done|].
    + rewrite not_elem_of_cons, !not_elem_of_app, list_elem_of_singleton.
      split_and!; [|done|done|]; intros ->; tauto.
    + apply NoDup_app. apply NoDup_cons in HndU as [? ?]. split_and!; [done| |apply NoDup_singleton].
      intros x Hx ->%list_elem_of_singleton. done.
  - apply NoDup_cons in HndU as [Hh' HndU]. rewrite not_elem_of_app in Hh'.
    apply NoDup_cons. split; [rewrite elem_of_cons, elem_of_app; naive_solver|].
    apply NoDup_cons. split; [rewrite elem_of_app; tauto|done].
Qed.

Lemma drop_ref_other (pid : Z) (i : nat) (rs1 rs2 : refs) j :
  j ≠ i → count j (rs1 ++ rs2) = count j (rs1 ++ (pid, i, Leaving) :: rs2) ∧
          holders j (rs1 ++ rs2) = holders j (rs1 ++ (pid, i, Leaving) :: rs2).
Proof.
  intros Hne. rewrite !count_app, !holders_app, count_cons, holders_cons. simpl.
  rewrite decide_False by congruence. rewrite decide_False; [done|]. intros [_ ?]. done.
Qed.

Lemma drop_ref_holders (pid : Z) (i : nat) (rs1 rs2 : refs) :
  holders i (rs1 ++ (pid, i, Leaving) :: rs2) = holders i (rs1 ++ rs2).
Proof.
  rewrite !holders_app, holders_cons. simpl. rewrite decide_False; [done|]. intros [_ ?]. done.
Qed.

Lemma touch_all i L n : (∀ j, j ∈ L ↔ (j < n)%nat) → (i < n)%nat → ∀ j, j ∈ touch i L ↔ (j < n)%nat.
Proof.
  intros HL Hi j. unfold touch. rewrite elem_of_cons, list_elem_of_filter, HL.
  destruct (decide (j = i)); naive_solver.
Qed.

Lemma brelse_ref_spec s L rs1 rs2 pid i :
  cache s L (rs1 ++ (pid, i, Leaving) :: rs2) →
  wpt (brelse_ref i) (λ _ s',
    cache s' (if bool_decide (count i (rs1 ++ rs2) = 0) then touch i L else L) (rs1 ++ rs2) ∧
    bufs s' = upd i (λ x, set_refcnt (u32 (refcnt x - 1)) x) (bufs s) ∧ memdisk s' = memdisk s ∧
    disksize s' = disksize s) s.
Proof.
  intros Hc. set (rs := rs1 ++ (pid, i, Leaving) :: rs2) in *.
  assert ((pid, i, Leaving) ∈ rs) as Hin by (apply elem_of_app; right; left).
  pose proof (ca_idx _ _ _ Hc _ Hin) as Hlt. simpl in Hlt.
  destruct (cache_lookup s L rs i Hc Hlt) as [b Hb].
  assert (count i rs = count i (rs1 ++ rs2) + 1) as Hcnt.
  { unfold rs. rewrite !count_app, count_cons. simpl. rewrite decide_True by done. lia. }
  pose proof (ca_ref _ _ _ Hc _ _ Hb) as Href.
  pose proof (count_le i rs). pose proof (ca_few _ _ _ Hc).
  unfold brelse_ref. apply wpt_bind, wpt_modify. set (f := λ x, set_refcnt (u32 (refcnt x - 1)) x).
  set (s1 := set_bufs (upd i f (bufs s)) s). assert (bufs s1 !! i = Some (f b)) as Hb1.
  { simpl. by rewrite lookup_upd_eq, Hb. }
  assert (refcnt (f b) = count i (rs1 ++ rs2)) as Hf.
  { simpl. pose proof (count_le i (rs1 ++ rs2)). rewrite Href, u32_small by lia. lia. }
  assert (∀ s' L', dll s' L' → (∀ j, j ∈ L' ↔ (j < NBUF)%nat) → bufs s' = bufs s1 →
    memdisk s' = memdisk s → cache s' L' (rs1 ++ rs2)) as Hpost.
  { intros s' L' Hdll Hall Hbufs Hdisk.
    eapply (cache_update s _ L L' rs _ i b f); [done|done|exact Hbufs| |done|done| | |done| |by left| | |].
    - unfold rs in *. rewrite length_app in *. simpl in *. lia.
    - apply drop_ref_other.
    - intros r Hr. right. exists r. split; [|done]. unfold rs.
      rewrite elem_of_app, elem_of_cons in *. tauto.
    - unfold rs in Hc. pose proof (ca_lock _ _ _ Hc _ _ Hb) as Hlk.
      by rewrite drop_ref_holders in Hlk.
    - intros _ _ _. apply (ca_used _ _ _ Hc _ _ Hin Hb).
    - destruct (ca_sound _ _ _ Hc _ _ Hb). split; try done. by rewrite Hdisk.
    - intros j c _ Hj. destruct (ca_sound _ _ _ Hc _ _ Hj). split; try done. by rewrite Hdisk. }
  apply wpt_bind. eapply wpt_eq; [by apply buf_at_Ok|]. rewrite Hf. case_bool_decide as Hz.
  - assert (i ∈ L) as HiL by (by apply (ca_all _ _ _ Hc)).
    pose proof (dll_touch s L i (ca_dll _ _ _ Hc) HiL) as Hdll. cbv zeta in Hdll.
    assert (<[next s i := prev s i]> (prev s) i = prev s i) as Hpi.
    { destruct (decide (next s i = i)) as [E|Hne]; [|by rewrite fn_lookup_insert_ne].
      rewrite E. by rewrite fn_lookup_insert. }
    unfold wpt, mbind, M_bind, get, modify. simpl. split; [|done].
    apply Hpost; [|exact (touch_all i L NBUF (ca_all _ _ _ Hc) Hlt)|done|done].
    apply Hdll; simpl; unfold unlink; simpl.
    + by rewrite Hpi.
    + rewrite Hpi, (fn_lookup_insert_ne _ i HEAD); [done|]. unfold HEAD. lia.
  - apply wpt_ret. split; [|done]. by apply Hpost; [apply Hc|apply Hc|..].
Qed.

End Bio.
