(* ===== verification/BioThm.v ===== *)
(** * What the buffer cache promises

    Processes that use the cache of [src/bio.c] in any interleaving, and the proof
    that the cache is what the log of [src/log.c] takes it for: the blocks of the
    disk, overlaid by the contents of the dirty buffers. *)

From S2P Require Import Prelude Log Bio.

Module BioThm.
Import Bio.

(** The buffer is for a block of the disk. *)
Definition on_disk (s : bst) (i : nat) : Prop :=
  ∃ b, bufs s !! i = Some b ∧ dev b = 1 ∧ blockno b < disksize s.

(** One step of one process. *)
Inductive bstep : bst * refs → bst * refs → Prop :=
| B_get pid d n i s s' rs :
    d ≠ 0 → Z.of_nat (length rs) < 2 ^ 31 → bget d n s = Ok i s' →
    bstep (s, rs) (s', (pid, i, Waiting) :: rs)
| B_lock pid i s s' rs1 rs2 :
    acquiresleep_turn pid i s = Ok true s' →
    bstep (s, rs1 ++ (pid, i, Waiting) :: rs2) (s', rs1 ++ (pid, i, Holding) :: rs2)
| B_fill pid i s s' rs :
    (pid, i, Holding) ∈ rs → on_disk s i → bread_locked pid i s = Ok tt s' → bstep (s, rs) (s', rs)
| B_write pid i x s s' rs :
    (pid, i, Holding) ∈ rs → on_disk s i → bwrite_data pid i x s = Ok tt s' → bstep (s, rs) (s', rs)
| B_dirty pid i b x s s' rs :
    (pid, i, Holding) ∈ rs → bufs s !! i = Some b → has (flags b) B_VALID = true →
    log_dirty i x s = Ok tt s' → bstep (s, rs) (s', rs)
| B_unlock pid i s s' rs1 rs2 :
    brelse_lock pid i s = Ok tt s' →
    bstep (s, rs1 ++ (pid, i, Holding) :: rs2) (s', rs1 ++ (pid, i, Leaving) :: rs2)
| B_unref pid i s s' rs1 rs2 :
    brelse_ref i s = Ok tt s' →
    bstep (s, rs1 ++ (pid, i, Leaving) :: rs2) (s', rs1 ++ rs2).

Definition cached (x : bst * refs) : Prop := ∃ L, cache x.1 L x.2.

(** The two ways [bget] succeeds. *)
Lemma bget_spec s L rs pid d n i s' :
  cache s L rs → d ≠ 0 → Z.of_nat (length rs) < 2 ^ 31 → bget d n s = Ok i s' →
  cache s' L ((pid, i, Waiting) :: rs) ∧ memdisk s' = memdisk s ∧ disksize s' = disksize s ∧
  ∃ b b', bufs s !! i = Some b ∧ bufs s' = upd i (λ _, b') (bufs s) ∧ dev b' = d ∧ blockno b' = n ∧
    ((dev b = d ∧ blockno b = n ∧ flags b' = flags b ∧ data b' = data b) ∨
     (refcnt b = 0 ∧ has (flags b) B_DIRTY = false ∧ flags b' = 0 ∧
      ∀ j c, bufs s !! j = Some c → ¬ (dev c = d ∧ blockno c = n))).
Proof.
  intros Hc Hd Hrs E. destruct (first s (is_block d n) L) as [j|] eqn:Hf.
  - pose proof (bget_cached s L rs pid d n j Hc Hf Hd Hrs) as Hw. unfold wpt in Hw. rewrite E in Hw.
    destruct Hw as (-> & Hc' & ->). split; [done|]. split; [done|]. split; [done|].
    destruct (first_Some _ _ _ _ Hf) as (_ & b & Hb & Hp). unfold is_block in Hp.
    apply andb_prop in Hp as [Hp1%bool_decide_eq_true Hp2%bool_decide_eq_true].
    exists b, (set_refcnt (u32 (refcnt b + 1)) b). simpl. split_and!; try done; [|by left].
    apply list_eq. intros k. destruct (decide (j = k)) as [<-|Hne]; [|by rewrite !lookup_upd_ne].
    by rewrite !lookup_upd_eq, Hb.
  - destruct (first s unused (reverse L)) as [j|] eqn:Hu.
    2: { rewrite (bget_full s L rs d n Hc Hf Hu) in E. done. }
    pose proof (bget_recycled s L rs pid d n j Hc Hf Hu Hd Hrs) as Hw. unfold wpt in Hw. rewrite E in Hw.
    destruct Hw as (-> & Hc' & ->). split; [done|]. split; [done|]. split; [done|].
    destruct (first_Some _ _ _ _ Hu) as (_ & b & Hb & Hp). unfold unused in Hp.
    apply andb_prop in Hp as [Hp1%bool_decide_eq_true Hp2%negb_true_iff].
    exists b, (Buf 0 d n (locked b) (lpid b) 1 (data b)). simpl. split_and!; try done.
    + apply list_eq. intros k. destruct (decide (j = k)) as [<-|Hne]; [|by rewrite !lookup_upd_ne].
      by rewrite !lookup_upd_eq, Hb.
    + right. split_and!; [done..|]. intros k c Hk [E1 E2].
      assert (is_block d n c = false) as Hno.
      { eapply (first_None s _ L k); [done| | |done].
        - intros m Hm%(ca_all _ _ _ Hc). by eapply cache_lookup.
        - apply (ca_all _ _ _ Hc). rewrite <-(ca_len _ _ _ Hc). by eapply lookup_lt_Some. }
      unfold is_block in Hno. by rewrite !bool_decide_eq_true_2 in Hno.
Qed.

Ltac run_spec H E := unfold wpt in H; rewrite E in H.

Lemma bstep_cached x y : bstep x y → cached x → cached y.
Proof.
  intros Hst [L Hc]. destruct Hst as [pid d n i s s' rs Hd Hrs E|pid i s s' rs1 rs2 E|
    pid i s s' rs Hin (b & Hb & ? & ?) E|pid i x s s' rs Hin (b & Hb & ? & ?) E|
    pid i b x s s' rs Hin Hb Hv E|pid i s s' rs1 rs2 E|pid i s s' rs1 rs2 E]; simpl in Hc.
  - exists L. by eapply (bget_spec s L rs).
  - pose proof (acquire_turn _ _ _ _ _ _ Hc) as Hw. run_spec Hw E. exists L. apply Hw.
  - pose proof (bread_locked_spec _ _ _ _ _ _ Hc Hin Hb ltac:(done) ltac:(done)) as Hw. run_spec Hw E.
    exists L. apply Hw.
  - pose proof (bwrite_spec _ _ _ _ _ _ x Hc Hin Hb ltac:(done) ltac:(done)) as Hw. run_spec Hw E.
    exists L. apply Hw.
  - pose proof (log_dirty_spec _ _ _ _ _ _ x Hc Hin Hb Hv) as Hw. run_spec Hw E. exists L. apply Hw.
  - pose proof (brelse_lock_spec _ _ _ _ _ _ Hc) as Hw. run_spec Hw E. exists L. apply Hw.
  - pose proof (brelse_ref_spec _ _ _ _ _ _ Hc) as Hw. run_spec Hw E. eexists. apply Hw.
Qed.

(** The cache after [binit]: the static [bcache] is zero. *)
Definition zero_buf : bufr := Buf 0 0 0 0 0 0 [].
Definition boot (d : Z → list Z) (n : Z) : bst :=
  Bst (replicate NBUF zero_buf) (λ _, 0%nat) (λ _, 0%nat) d n.

(** [chain] as a computation. *)
Fixpoint chainb (nx pv : nat → nat) (x : nat) (l : list nat) (y : nat) : bool :=
  match l with
  | [] => Nat.eqb (nx x) y && Nat.eqb (pv y) x
  | a :: l => Nat.eqb (nx x) a && Nat.eqb (pv a) x && chainb nx pv a l y
  end.

Lemma chainb_chain nx pv x l y : chainb nx pv x l y = true → chain nx pv x l y.
Proof.
  revert x. induction l as [|a l IH]; intros x; simpl; rewrite ?andb_true_iff, ?Nat.eqb_eq; naive_solver.
Qed.

Definition state_of {A} (o : outcome bst A) (s : bst) : bst :=
  match o with Ok _ s' => s' | _ => s end.

Lemma binit_cached d n s : binit (boot d n) = Ok tt s → cached (s, []).
Proof.
  intros E. exists (reverse (seq 0 NBUF)).
  assert (bufs s = replicate NBUF zero_buf ∧ dll s (reverse (seq 0 NBUF))) as [Hb Hd].
  { replace s with (state_of (binit (boot d n)) (boot d n)) by (by rewrite E).
    split; [vm_compute; reflexivity|]. split.
    - apply chainb_chain. vm_compute. reflexivity.
    - apply (bool_decide_unpack _). vm_compute. exact I. }
  assert (∀ i b, bufs s !! i = Some b → b = zero_buf) as Hz.
  { intros i b. rewrite Hb. by intros [-> _]%lookup_replicate. }
  split; cbn [fst snd]; try done.
  - intros i. rewrite elem_of_reverse, elem_of_seq. lia.
  - by rewrite Hb, length_replicate.
  - intros i b Hi. by rewrite (Hz _ _ Hi).
  - intros r Hr. by apply not_elem_of_nil in Hr.
  - intros i b Hi. rewrite (Hz _ _ Hi). by left.
  - intros i j b c Hi _ _. by rewrite (Hz _ _ Hi).
  - intros r b Hr. by apply not_elem_of_nil in Hr.
  - intros i b Hi. rewrite (Hz _ _ Hi). split; [by left|done|done].
Qed.

(** However processes use the cache, a block is in at most one buffer, at most
    one process has the lock of a buffer, the reference count of a buffer is the
    number of processes that use it, and a valid buffer that is not dirty has the
    contents of its block on the disk. *)
Theorem bcache_consistent d n s0 s rs :
  binit (boot d n) = Ok tt s0 → rtc bstep (s0, []) (s, rs) →
  (∀ i j b c, bufs s !! i = Some b → bufs s !! j = Some c → dev b ≠ 0 →
     dev b = dev c → blockno b = blockno c → i = j) ∧
  (∀ i pid pid', (pid, i, Holding) ∈ rs → (pid', i, Holding) ∈ rs →
     pid = pid' ∧ holdingsleep pid i s = Ok true s) ∧
  (∀ i b, bufs s !! i = Some b → refcnt b = count i rs) ∧
  (∀ i b, bufs s !! i = Some b → flags b = B_VALID → dev b = 1 ∧ data b = memdisk s (blockno b)).
Proof.
  intros Hi Hr. destruct (rtc_invariant _ _ _ _ bstep_cached Hr (binit_cached _ _ _ Hi)) as [L Hc].
  simpl in Hc. split_and!.
  - intros i j b c Hb Hcj Hd E1 E2. destruct (decide (i = j)); [done|].
    exfalso. by eapply (ca_unique _ _ _ Hc i j b c).
  - intros i pid pid' H1 H2. destruct (holding _ _ _ _ _ Hc H1) as (b & Hb & _ & <- & _ & Hh).
    destruct (holding _ _ _ _ _ Hc H2) as (b' & Hb' & _ & <- & _). simplify_eq. done.
  - apply Hc.
  - intros i b Hb Hf. destruct (ca_sound _ _ _ Hc _ _ Hb) as [_ Hd Hdisk]. split; [|by apply Hdisk].
    apply Hd. by rewrite Hf.
Qed.

(** ** The cache and the log *)

(** The state of the log with the blocks of the cache. *)
Record backs (s : bst) (l : lst) : Prop := Backs {
  bk_disk n : disk l n = memdisk s n;
  bk_dirty n x : dirty l !! n = Some x ↔
    ∃ i b, bufs s !! i = Some b ∧ flags b = Z.lor B_VALID B_DIRTY ∧ blockno b = n ∧ data b = x;
}.

(** The buffer of a process that has read its block. *)
Lemma valid_view s L rs l i b :
  cache s L rs → backs s l → bufs s !! i = Some b → flags b ≠ 0 → data b = view l (blockno b).
Proof.
  intros Hc [Hk Hd] Hb Hf. destruct (ca_sound _ _ _ Hc _ _ Hb) as [Hfl Hdev Hdisk]. unfold view.
  destruct Hfl as [?|[E|E]]; [done| |].
  - destruct (dirty l !! blockno b) as [x|] eqn:Ed; simpl; [|by rewrite Hk, Hdisk].
    apply Hd in Ed as (j & c & Hj & Hcf & Hcb & _). exfalso.
    destruct (decide (i = j)) as [<-|Hne]; [simplify_eq; rewrite E in Hcf; done|].
    eapply (ca_unique _ _ _ Hc i j b c); [done..| |].
    + by rewrite Hdev.
    + split; [|done]. rewrite Hdev by done. symmetry.
      apply (so_dev _ _ (ca_sound _ _ _ Hc _ _ Hj)). by rewrite Hcf.
  - assert (dirty l !! blockno b = Some (data b)) as -> by (apply Hd; eauto 10). done.
Qed.

(** A change of one buffer that is not dirty before or after. *)
Lemma backs_clean s s' l i b b' :
  backs s l → bufs s !! i = Some b → bufs s' = upd i (λ _, b') (bufs s) → memdisk s' = memdisk s →
  (flags b' = flags b ∧ blockno b' = blockno b ∧ data b' = data b) ∨
    (flags b ≠ Z.lor B_VALID B_DIRTY ∧ flags b' ≠ Z.lor B_VALID B_DIRTY) →
  backs s' l.
Proof.
  intros [Hk Hd] Hb Hbufs Hm Hor. split; [intros n; by rewrite Hm|].
  intros n x. rewrite Hd, Hbufs. split; intros (j & c & Hj & Hf & Hn & Hx).
  - destruct (decide (i = j)) as [<-|Hne].
    + simplify_eq. destruct Hor as [(E1 & E2 & E3)|[? _]]; [|done].
      exists i, b'. rewrite lookup_upd_eq, Hb. split_and!; [done|congruence..].
    + exists j, c. by rewrite lookup_upd_ne.
  - apply lookup_upd_Some in Hj as [(<- & y & Hy & ->)|[Hne Hj]].
    + simplify_eq. destruct Hor as [(E1 & E2 & E3)|[_ ?]]; [|done].
      exists i, b. split_and!; congruence.
    + eauto 10.
Qed.

Lemma upd_const {A} i (f : A → A) (l : list A) b : l !! i = Some b → upd i f l = upd i (λ _, f b) l.
Proof.
  intros Hb. apply list_eq. intros j. destruct (decide (i = j)) as [<-|Hne]; [|by rewrite !lookup_upd_ne].
  by rewrite !lookup_upd_eq, Hb.
Qed.

Lemma bread_Ok s L rs l pid n i s' :
  cache s L rs → backs s l → Z.of_nat (length rs) < 2 ^ 31 → n < disksize s →
  bread pid 1 n s = Ok i s' →
  cached (s', (pid, i, Holding) :: rs) ∧ backs s' l ∧
  ∃ b, bufs s' !! i = Some b ∧ dev b = 1 ∧ blockno b = n ∧ Log.bread n l = Ok (data b) l.
Proof.
  intros Hc Hk Hrs Hn E.
  unfold bread in E. apply bind_Ok in E as (j & s1 & E1 & E).
  destruct (bget_spec s L rs pid 1 n j s1 Hc ltac:(done) Hrs E1)
    as (Hc1 & Hm1 & Hz1 & b & b1 & Hb & Hbufs1 & Hd1 & Hn1 & Hor).
  assert (backs s1 l) as Hk1.
  { eapply (backs_clean s s1 l j b b1 Hk Hb Hbufs1 Hm1).
    destruct Hor as [(? & ? & ? & ?)|(_ & Hnd & Hf0 & _)]; [left; split_and!; congruence|right].
    split; [intros Ef; by rewrite Ef in Hnd|by rewrite Hf0]. }
  assert (bufs s1 !! j = Some b1) as Hb1 by (rewrite Hbufs1, lookup_upd_eq, Hb; done).
  apply bind_Ok in E as (got & s2 & E2 & E).
  pose proof (acquire_turn s1 L [] rs pid j Hc1) as Hw. run_spec Hw E2. destruct got; [|done].
  destruct Hw as [Hc2 ->]. apply bind_Ok in E as ([] & s3 & E3 & E). injection E as -> ->.
  set (s2 := set_bufs _ s1) in *. assert (bufs s2 !! i = Some (set_lock 1 pid b1)) as Hb2.
  { simpl. by rewrite lookup_upd_eq, Hb1. }
  assert (backs s2 l) as Hk2.
  { eapply (backs_clean s1 s2 l i b1 (set_lock 1 pid b1) Hk1 Hb1); [by apply upd_const|done|by left]. }
  pose proof (bread_locked_spec s2 L ((pid, i, Holding) :: rs) pid i _ Hc2 ltac:(left) Hb2 Hd1) as Hw.
  simpl in Hw. rewrite Hn1 in Hw. specialize (Hw ltac:(lia)). run_spec Hw E3.
  destruct Hw as (Hc3 & Hm3 & Hs3). split; [by exists L|].
  assert (∃ b3, bufs s' !! i = Some b3 ∧ dev b3 = 1 ∧ blockno b3 = n ∧ flags b3 ≠ 0 ∧ backs s' l)
    as (b3 & Hb3 & ? & Hn3 & Hf3 & Hk3).
  { destruct (has (flags b1) B_VALID) eqn:Hv.
    - subst s'. eexists. split; [exact Hb2|]. split_and!; try done. simpl. intros Ef. by rewrite Ef in Hv.
    - eexists. rewrite Hs3. simpl. rewrite !lookup_upd_eq, Hb1. simpl. split_and!; try done.
      eapply (backs_clean s2 _ l i _ _ Hk2 Hb2); [by apply upd_const|done|right]. split; [|done].
      simpl. intros Ef. by rewrite Ef in Hv. }
  split; [done|]. exists b3. split_and!; try done. rewrite Log.bread_view.
  by rewrite <-Hn3, (valid_view s' L _ l i b3 Hc3 Hk3 Hb3 Hf3).
Qed.

(** [bget] fails only when every buffer is in use or dirty. *)
Lemma bget_total s L rs d n :
  cache s L rs → d ≠ 0 → Z.of_nat (length rs) < 2 ^ 31 →
  (∃ i s', bget d n s = Ok i s') ∨
  (bget d n s = Panic "bget: no buffers" s ∧
   ∀ i b, bufs s !! i = Some b → unused b = false ∧ is_block d n b = false).
Proof.
  intros Hc Hd Hrs.
  assert (∀ i, i ∈ L → is_Some (bufs s !! i)) as HS.
  { intros i Hi%(ca_all _ _ _ Hc). by eapply cache_lookup. }
  destruct (first s (is_block d n) L) as [j|] eqn:Hf.
  { pose proof (bget_cached s L rs 0 d n j Hc Hf Hd Hrs) as (i & s' & ? & _)%wpt_Ok. eauto. }
  destruct (first s unused (reverse L)) as [j|] eqn:Hu.
  { pose proof (bget_recycled s L rs 0 d n j Hc Hf Hu Hd Hrs) as (i & s' & ? & _)%wpt_Ok. eauto. }
  right. split; [by eapply bget_full|]. intros i b Hb.
  assert (i ∈ L) as Hi.
  { rewrite (ca_all _ _ _ Hc), <-(ca_len _ _ _ Hc). by eapply lookup_lt_Some. }
  split.
  - eapply (first_None s _ (reverse L) i); [done| |by apply elem_of_reverse|done].
    intros k. rewrite elem_of_reverse. apply HS.
  - by eapply (first_None s _ L i).
Qed.

Lemma ref_counted (r : Z * nat * stage) (rs : refs) : r ∈ rs → 0 < count r.1.2 rs.
Proof.
  intros (rs1 & rs2 & ->)%list_elem_of_split. rewrite count_app, count_cons, decide_True by done.
  pose proof (count_le r.1.2 rs1). pose proof (count_le r.1.2 rs2). lia.
Qed.

(** C11: A process that calls [bread] and gets the buffer finds in it what the log
    takes for the contents of the block, and the call changes nothing of that.  It
    waits only while another process has the buffer of the block, and panics only
    when every buffer is in use or dirty. *)
Theorem bread_gives_view d m s0 s rs l pid n :
  binit (boot d m) = Ok tt s0 → rtc bstep (s0, []) (s, rs) → backs s l →
  Z.of_nat (length rs) < 2 ^ 31 → n < disksize s →
  match bread pid 1 n s with
  | Ok i s' => cached (s', (pid, i, Holding) :: rs) ∧ backs s' l ∧
      ∃ b, bufs s' !! i = Some b ∧ dev b = 1 ∧ blockno b = n ∧ Log.bread n l = Ok (data b) l
  | Panic msg s' => msg = "bget: no buffers" ∧ s' = s ∧
      ∀ i b, bufs s !! i = Some b → unused b = false ∧ is_block 1 n b = false
  | Spin _ => ∃ pid' i b, (pid', i, Holding) ∈ rs ∧ bufs s !! i = Some b ∧ is_block 1 n b = true
  | Undef _ _ => False
  end.
Proof.
  intros Hi Hr Hk Hrs Hn.
  destruct (rtc_invariant _ _ _ _ bstep_cached Hr (binit_cached _ _ _ Hi)) as [L Hc]. simpl in Hc.
  destruct (bget_total s L rs 1 n Hc ltac:(done) Hrs) as [(i & s1 & E)|[E Hno]].
  2: { unfold bread. by rewrite (bind_panic _ _ _ _ _ E). }
  destruct (bget_spec s L rs pid 1 n i s1 Hc ltac:(done) Hrs E)
    as (Hc1 & Hm1 & Hz1 & b & b1 & Hb & Hbufs1 & Hd1 & Hn1 & Hor).
  assert (bufs s1 !! i = Some b1) as Hb1 by (rewrite Hbufs1, lookup_upd_eq, Hb; done).
  pose proof (acquire_turn s1 L [] rs pid i Hc1) as (got & s2 & E2 & Hw)%wpt_Ok. destruct got.
  - destruct Hw as [Hc2 Es2].
    pose proof (bread_locked_spec s2 L ((pid, i, Holding) :: rs) pid i (set_lock 1 pid b1) Hc2 ltac:(left)) as Hw.
    rewrite Es2 in Hw at 1 2. simpl in Hw. rewrite lookup_upd_eq, Hb1 in Hw.
    specialize (Hw eq_refl Hd1 ltac:(lia)). apply wpt_Ok in Hw as ([] & s3 & E3 & _).
    assert (bread pid 1 n s = Ok i s3) as ->; [|].
    { unfold bread. by rewrite (bind_step _ _ _ _ _ E), (bind_step _ _ _ _ _ E2), (bind_step _ _ _ _ _ E3). }
    eapply (bread_Ok s L rs l pid n i s3); [done..|].
    unfold bread. by rewrite (bind_step _ _ _ _ _ E), (bind_step _ _ _ _ _ E2), (bind_step _ _ _ _ _ E3).
  - destruct Hw as (-> & pid' & [?|Hin]%elem_of_cons); [done|].
    unfold bread. rewrite (bind_step _ _ _ _ _ E), (bind_step _ _ _ _ _ E2).
    exists pid', i, b. split; [done|]. split; [done|]. unfold is_block.
    destruct Hor as [(? & ? & _)|(H0 & _)]; [by rewrite !bool_decide_eq_true_2|].
    pose proof (ref_counted _ _ Hin) as Hpos. simpl in Hpos. rewrite (ca_ref _ _ _ Hc _ _ Hb) in H0. lia.
Qed.

(** No other dirty buffer is for the same block. *)
Lemma dirty_elsewhere s L rs i j b c :
  cache s L rs → bufs s !! i = Some b → dev b = 1 → bufs s !! j = Some c → j ≠ i →
  flags c = Z.lor B_VALID B_DIRTY → blockno c ≠ blockno b.
Proof.
  intros Hc Hb Hd Hj Hne Hf E. apply (ca_unique _ _ _ Hc i j b c Hb Hj); [done|by rewrite Hd|].
  split; [|done]. rewrite Hd. symmetry. apply (so_dev _ _ (ca_sound _ _ _ Hc _ _ Hj)). by rewrite Hf.
Qed.

Lemma backs_write s L rs l i b x :
  cache s L rs → backs s l → bufs s !! i = Some b → dev b = 1 →
  backs (set_memdisk (<[blockno b := x]> (memdisk s))
           (set_bufs (upd i (λ y, set_flags B_VALID (set_data x y)) (bufs s)) s))
    (do_writes [(blockno b, x)] l).
Proof.
  intros Hc [Hk Hd] Hb Hdev. split; simpl.
  - intros n. destruct (decide (blockno b = n)) as [<-|Hne].
    + by rewrite !fn_lookup_insert.
    + by rewrite !fn_lookup_insert_ne.
  - intros n z. rewrite lookup_delete_Some, Hd. split.
    + intros (Hne & j & c & Hj & Hf & Hn & Hz). exists j, c. rewrite lookup_upd_ne; [done|].
      intros <-. simplify_eq.
    + intros (j & c & Hj & Hf & Hn & Hz).
      apply lookup_upd_Some in Hj as [(<- & y & Hy & ->)|[Hne Hj]]; [done|].
      split; [|eauto 10]. rewrite <-Hn. intros E. by eapply (dirty_elsewhere s L rs i j b c).
Qed.

Lemma backs_dirty s L rs l i b x :
  cache s L rs → backs s l → bufs s !! i = Some b → dev b = 1 →
  backs (set_bufs (upd i (λ y, set_flags (Z.lor B_VALID B_DIRTY) (set_data x y)) (bufs s)) s)
    (Log.set_dirty (<[blockno b := x]> (dirty l)) l).
Proof.
  intros Hc [Hk Hd] Hb Hdev. split; simpl; [done|].
  intros n z. rewrite lookup_insert_Some, Hd. split.
  - intros [[<- <-]|(Hne & j & c & Hj & Hf & Hn & Hz)].
    + eexists i, _. rewrite lookup_upd_eq, Hb. done.
    + exists j, c. rewrite lookup_upd_ne; [done|]. intros <-. simplify_eq.
  - intros (j & c & Hj & Hf & Hn & Hz).
    apply lookup_upd_Some in Hj as [(<- & y & Hy & ->)|[Hne Hj]].
    + left. simplify_eq. done.
    + right. split; [|eauto 10]. rewrite <-Hn. intros E. by eapply (dirty_elsewhere s L rs i j b c).
Qed.

(** What the process that has a buffer does to it is what the log takes it
    for: [bwrite] puts the contents on the disk, a buffer marked dirty overlays the
    disk and stays, and [brelse] changes nothing. *)
Theorem bwrite_updates_view d m s0 s rs1 rs2 l pid i b x :
  binit (boot d m) = Ok tt s0 → rtc bstep (s0, []) (s, rs1 ++ (pid, i, Holding) :: rs2) → backs s l →
  bufs s !! i = Some b → dev b = 1 → blockno b < disksize s →
  (∃ s' l', bwrite_data pid i x s = Ok tt s' ∧ Log.bwrite (blockno b) x l = Ok tt l' ∧ backs s' l') ∧
  (has (flags b) B_VALID = true → ∃ s', log_dirty i x s = Ok tt s' ∧
     backs s' (Log.set_dirty (<[blockno b := x]> (dirty l)) l)) ∧
  (∃ s', brelse pid i s = Ok tt s' ∧ backs s' l ∧ cached (s', rs1 ++ rs2)).
Proof.
  intros Hi Hr Hk Hb Hd Hn.
  destruct (rtc_invariant _ _ _ _ bstep_cached Hr (binit_cached _ _ _ Hi)) as [L Hc]. simpl in Hc.
  assert ((pid, i, Holding) ∈ rs1 ++ (pid, i, Holding) :: rs2) as Hin by (apply elem_of_app; right; left).
  split_and!.
  - pose proof (bwrite_spec _ _ _ _ _ _ x Hc Hin Hb Hd Hn) as ([] & s' & E & _ & ->)%wpt_Ok.
    eexists _, _. split; [exact E|]. split; [reflexivity|]. by eapply (backs_write s).
  - intros Hv. pose proof (log_dirty_spec _ _ _ _ _ _ x Hc Hin Hb Hv) as ([] & s' & E & _ & ->)%wpt_Ok.
    eexists. split; [exact E|]. by eapply (backs_dirty s).
  - pose proof (brelse_lock_spec _ _ _ _ _ _ Hc) as ([] & s1 & E1 & Hc1 & Es1)%wpt_Ok.
    pose proof (brelse_ref_spec _ _ _ _ _ _ Hc1) as ([] & s2 & E2 & Hc2 & Hb2 & Hm2 & _)%wpt_Ok.
    exists s2. split; [unfold brelse; by rewrite (bind_step _ _ _ _ _ E1)|]. split; [|eexists; exact Hc2].
    rewrite Es1 in Hb2, Hm2. simpl in Hb2, Hm2. rewrite upd_twice in Hb2.
    eapply (backs_clean s s2 l i b _ Hk Hb); [rewrite Hb2; by apply upd_const|done|by left].
Qed.

(** *** A process at work *)

Definition result {A} (o : outcome bst A) : option A :=
  match o with Ok a _ => Some a | _ => None end.

Lemma read_result_Ok {A} (o : outcome bst A) s a : result o = Some a → o = Ok a (state_of o s).
Proof. destruct o; naive_solver. Qed.

Definition demo_disk : Z → list Z := λ n, [n].
Definition demo0 : bst := state_of (binit (boot demo_disk 100)) (boot demo_disk 100).
Definition demo1 : bst := state_of (bget 1 5 demo0) demo0.
Definition demo2 : bst := state_of (acquiresleep_turn 7 0 demo1) demo1.
Definition demo3 : bst := state_of (bread_locked 7 0 demo2) demo2.
Definition demo_log : lst := Lst demo_disk ∅ [] 0 [] 0 0 2 30.

Lemma demo_init : binit (boot demo_disk 100) = Ok tt demo0.
Proof. apply read_result_Ok. vm_compute. reflexivity. Qed.

Lemma demo_cache_run : rtc bstep (demo0, []) (demo3, [] ++ (7, 0%nat, Holding) :: []).
Proof.
  eapply rtc_l.
  { apply (B_get 7 1 5 0 demo0 demo1 []); [done|done|]. apply read_result_Ok. vm_compute. reflexivity. }
  eapply rtc_l.
  { apply (B_lock 7 0 demo1 demo2 [] []). apply read_result_Ok. vm_compute. reflexivity. }
  apply rtc_once. apply (B_fill 7 0 demo2 demo3); [left| |apply read_result_Ok; vm_compute; reflexivity].
  exists (Buf 0 1 5 1 7 1 []). split_and!; vm_compute; reflexivity.
Qed.

(** Buffers none of which is dirty. *)
Lemma backs_no_dirty s l :
  (∀ n, disk l n = memdisk s n) → dirty l = ∅ →
  Forall (λ b, flags b ≠ Z.lor B_VALID B_DIRTY) (bufs s) → backs s l.
Proof.
  intros Hd He Hf. split; [done|]. intros n x. rewrite He, lookup_empty. split; [done|].
  intros (i & b & Hb & Hfb & _). by apply (proj1 (Forall_lookup _ _) Hf i b Hb) in Hfb.
Qed.

Lemma bcache_consistent_witness : 7 = 7 ∧ holdingsleep 7 0 demo3 = Ok true demo3.
Proof.
  exact (proj1 (proj2 (bcache_consistent demo_disk 100 demo0 demo3 [(7, 0%nat, Holding)] demo_init demo_cache_run))
    0%nat 7 7 ltac:(left) ltac:(left)).
Defined.

Lemma demo0_backs : backs demo0 demo_log.
Proof. apply backs_no_dirty; [done|done|]. apply (bool_decide_unpack _). vm_compute. exact I. Qed.

Lemma demo3_backs : backs demo3 demo_log.
Proof. apply backs_no_dirty; [done|done|]. apply (bool_decide_unpack _). vm_compute. exact I. Qed.

Lemma bread_gives_view_witness :
  match bread 7 1 5 demo0 with
  | Ok i s' => cached (s', (7, i, Holding) :: []) ∧ backs s' demo_log ∧
      ∃ b, bufs s' !! i = Some b ∧ dev b = 1 ∧ blockno b = 5 ∧ Log.bread 5 demo_log = Ok (data b) demo_log
  | Panic msg s' => msg = "bget: no buffers" ∧ s' = demo0 ∧
      ∀ i b, bufs demo0 !! i = Some b → unused b = false ∧ is_block 1 5 b = false
  | Spin _ => ∃ pid' i b, (pid', i, Holding) ∈ ([] : refs) ∧ bufs demo0 !! i = Some b ∧ is_block 1 5 b = true
  | Undef _ _ => False
  end.
Proof.
  exact (bread_gives_view demo_disk 100 demo0 demo0 [] demo_log 7 5 demo_init (rtc_refl _ _) demo0_backs
    ltac:(done) ltac:(done)).
Defined.

Lemma bwrite_updates_view_witness :
  ∃ s' l', bwrite_data 7 0 [42] demo3 = Ok tt s' ∧ Log.bwrite 5 [42] demo_log = Ok tt l' ∧ backs s' l'.
Proof.
  refine (proj1 (bwrite_updates_view demo_disk 100 demo0 demo3 [] [] demo_log 7 0 (Buf 2 1 5 1 7 1 [5]) [42]
    demo_init demo_cache_run demo3_backs _ eq_refl _)); vm_compute; reflexivity.
Defined.

End BioThm.
