(* ===== verification/Ide.v ===== *)
(** * The disk driver

    [src/ide.c].  The disk is a device behind ports: the class [Ata] has the
    instructions that reach it, and [AtaLaws] what the interface of ATA disks
    documents about them.  The part of [iderw] up to its first [sleep], one turn of
    its loop after a wakeup, and [ideintr] run under [idelock] and are one
    definition each, so that several processes and interrupts can be
    interleaved. *)

From S2P Require Import Prelude Bio.

Module Ide.
Import Bio.

Definition SECTOR_SIZE : Z := 512.
Definition BSIZE : Z := 512.
Definition FSSIZE : Z := 1000.
Definition IDE_BSY : Z := 0x80.
Definition IDE_DRDY : Z := 0x40.
Definition IDE_DF : Z := 0x20.
Definition IDE_ERR : Z := 0x01.
Definition IDE_CMD_READ : Z := 0x20.
Definition IDE_CMD_WRITE : Z := 0x30.
Definition IDE_CMD_RDMUL : Z := 0xc4.
Definition IDE_CMD_WRMUL : Z := 0xc5.

(** ** The device *)

(** The instructions [in], [out], [rep insl] and [rep outsl] on a device in state [D]. *)
Class Ata (D : Type) := {
  port_in : Z → D → Z * D;
  port_out : Z → Z → D → D;
  port_insl : Z → nat → D → list Z * D;
  port_outsl : Z → list Z → D → D;
}.

(** What a disk controller is doing: nothing; a read whose data is not fetched; a
    write whose data has not come; a write. *)
Inductive command : Type :=
| CIdle
| CRead (drive sector : Z)
| CWrite (drive sector : Z)
| CData (drive sector : Z) (x : list Z).

(** The state of a controller that software can know of. *)
Record ata : Type := mkAta {
  a_regs : Z → Z;  (* the registers, by port *)
  a_cmd : command;
  a_disk : Z → Z → list Z;  (* the sectors of each drive *)
  a_fault : bool;  (* the last command failed *)
}.

Definition with_reg (p v : Z) (a : ata) : ata := mkAta (<[p := v]> (a_regs a)) (a_cmd a) (a_disk a) (a_fault a).
Definition with_cmd (c : command) (a : ata) : ata := mkAta (a_regs a) c (a_disk a) (a_fault a).
Definition with_fault (f : bool) (a : ata) : ata := mkAta (a_regs a) (a_cmd a) (a_disk a) f.
Definition with_sector (dr s : Z) (x : list Z) (a : ata) : ata :=
  mkAta (a_regs a) (a_cmd a) (<[dr := <[s := x]> (a_disk a dr)]> (a_disk a)) (a_fault a).

(** The drive and the sector that the registers select (28-bit addresses). *)
Definition drive (r : Z → Z) : Z := Z.land (Z.shiftr (r 0x1f6) 4) 1.
Definition lba (r : Z → Z) : Z :=
  r 0x1f3 + 2 ^ 8 * r 0x1f4 + 2 ^ 16 * r 0x1f5 + 2 ^ 24 * Z.land (r 0x1f6) 0x0f.

Definition is_ready (r : Z) : Prop := Z.land r (Z.lor IDE_BSY IDE_DRDY) = IDE_DRDY.
Definition is_error (r : Z) : Prop := Z.land r (Z.lor IDE_DF IDE_ERR) ≠ 0.

#[global] Instance is_ready_dec r : Decision (is_ready r).
Proof. unfold is_ready. apply _. Defined.
#[global] Instance is_error_dec r : Decision (is_error r).
Proof. unfold is_error. apply _. Defined.

(** What the documentation of ATA disks says of PIO transfers of one sector.  The
    registers, commands and reads of data need a drive that is not busy, and a drive
    that was seen ready stays so until the next command.  [outsl_data] is more than
    the documentation says: the data of a write is taken at once, although a drive
    asks for it only some time after the command; [idestart] does not wait. *)
Class AtaLaws (D : Type) `{Ata D} := {
  view : D → ata;
  present : Z → bool;  (* the drives that are there *)
  busy : D → nat;  (* the number of reads of the status that find it busy *)
  delay : nat;
  interrupt : D → D → Prop;  (* a command ends, and the controller raises its interrupt *)
  busy_delay d : (busy d ≤ delay)%nat;
  (* reading the status changes nothing else; a drive that is there becomes ready *)
  in_status d : view (port_in 0x1f7 d).2 = view d;
  in_absent d : present (drive (a_regs (view d))) = false → (port_in 0x1f7 d).1 = 0;
  in_present d : present (drive (a_regs (view d))) = true → (port_in 0x1f7 d).1 ≠ 0 ∧
    (if decide (is_ready (port_in 0x1f7 d).1)
     then (is_error (port_in 0x1f7 d).1 ↔ a_fault (view d) = true) ∧ busy (port_in 0x1f7 d).2 = 0%nat
     else (busy (port_in 0x1f7 d).2 < busy d)%nat);
  out_calm p v d : 0x1f2 ≤ p ≤ 0x1f6 ∨ p = 0x3f6 → busy d = 0%nat → busy (port_out p v d) = 0%nat;
  out_reg p v d : 0x1f2 ≤ p ≤ 0x1f6 → busy d = 0%nat → view (port_out p v d) = with_reg p v (view d);
  out_control v d : view (port_out 0x3f6 v d) = view d;
  out_read d : busy d = 0%nat → a_regs (view d) 0x1f2 = 1 →
    view (port_out 0x1f7 IDE_CMD_READ d) =
      with_cmd (CRead (drive (a_regs (view d))) (lba (a_regs (view d)))) (view d);
  out_write d : busy d = 0%nat → a_regs (view d) 0x1f2 = 1 →
    view (port_out 0x1f7 IDE_CMD_WRITE d) =
      with_cmd (CWrite (drive (a_regs (view d))) (lba (a_regs (view d)))) (view d);
  outsl_data dr s x d : a_cmd (view d) = CWrite dr s → length x = Z.to_nat SECTOR_SIZE →
    view (port_outsl 0x1f0 x d) = with_cmd (CData dr s x) (view d);
  insl_data dr s d : busy d = 0%nat → a_cmd (view d) = CRead dr s → a_fault (view d) = false →
    (port_insl 0x1f0 128 d).1 = a_disk (view d) dr s ∧ view (port_insl 0x1f0 128 d).2 = with_cmd CIdle (view d);
  (* only a command leads to an interrupt, and it does *)
  interrupt_ends d d' : interrupt d d' →
    match a_cmd (view d) with
    | CRead dr s => view d' = with_fault (a_fault (view d')) (view d)
    | CData dr s x =>
        if a_fault (view d') then a_cmd (view d') = CIdle
        else view d' = with_fault false (with_cmd CIdle (with_sector dr s x (view d)))
    | _ => False
    end;
  interrupt_comes d : match a_cmd (view d) with CRead _ _ | CData _ _ _ => True | _ => False end → ∃ d', interrupt d d';
}.

(** ** The driver *)

Section Driver.

Context {D : Type} `{Ata D}.

(** The globals of the driver, the buffers with their links, and the device;
    [asleep] has the buffers whose process is in the loop of [iderw], with [true]
    while it sleeps. *)
Record ist : Type := Ist {
  idev : D;
  idequeue : option nat;
  qnext : nat → option nat;
  havedisk1 : Z;
  ibufs : list bufr;
  asleep : gmap nat bool;
}.

Definition set_idev (d : D) (s : ist) : ist := Ist d (idequeue s) (qnext s) (havedisk1 s) (ibufs s) (asleep s).
Definition set_idequeue (q : option nat) (s : ist) : ist := Ist (idev s) q (qnext s) (havedisk1 s) (ibufs s) (asleep s).
Definition set_qnext (b : nat) (q : option nat) (s : ist) : ist :=
  Ist (idev s) (idequeue s) (<[b := q]> (qnext s)) (havedisk1 s) (ibufs s) (asleep s).
Definition set_havedisk1 (h : Z) (s : ist) : ist := Ist (idev s) (idequeue s) (qnext s) h (ibufs s) (asleep s).
Definition set_ibufs (l : list bufr) (s : ist) : ist := Ist (idev s) (idequeue s) (qnext s) (havedisk1 s) l (asleep s).
Definition set_asleep (m : gmap nat bool) (s : ist) : ist := Ist (idev s) (idequeue s) (qnext s) (havedisk1 s) (ibufs s) m.

Definition buf_of (b : nat) : M ist bufr := λ s,
  match ibufs s !! b with Some x => Ok x s | None => Undef "no buffer" s end.
Definition put_buf (b : nat) (f : bufr → bufr) : M ist unit := modify (λ s, set_ibufs (upd b f (ibufs s)) s).

(** The instructions of [x86.h]. *)
Definition inb (port : Z) : M ist Z := λ s,
  let x := port_in port (idev s) in Ok x.1 (set_idev x.2 s).
Definition outb (port data : Z) : M ist unit := modify (λ s, set_idev (port_out port data (idev s)) s).
Definition insl (port : Z) (cnt : nat) : M ist (list Z) := λ s,
  let x := port_insl port cnt (idev s) in Ok x.1 (set_idev x.2 s).
Definition outsl (port : Z) (data : list Z) : M ist unit := modify (λ s, set_idev (port_outsl port data (idev s)) s).

(** [fuel] bounds the number of times the status is read. *)
Fixpoint idewait (fuel : nat) (checkerr : bool) : M ist Z :=
  match fuel with
  | O => spin
  | S fuel =>
      r ← inb 0x1f7;
      if bool_decide (Z.land r (Z.lor IDE_BSY IDE_DRDY) ≠ IDE_DRDY) then idewait fuel checkerr else
      mret (if checkerr && bool_decide (Z.land r (Z.lor IDE_DF IDE_ERR) ≠ 0) then -1 else 0)
  end.

(** The loop that looks for disk 1. *)
Fixpoint probe (n : nat) : M ist unit :=
  match n with
  | O => mret tt
  | S n =>
      r ← inb 0x1f7;
      if bool_decide (r ≠ 0) then modify (set_havedisk1 1) else probe n
  end.

Definition ideinit (fuel : nat) : M ist unit :=
  idewait fuel false ;;
  outb 0x1f6 (Z.lor 0xe0 (Z.shiftl 1 4)) ;;
  probe 1000 ;;
  outb 0x1f6 (Z.lor 0xe0 (Z.shiftl 0 4)).

Definition idestart (fuel : nat) (b : option nat) : M ist unit :=
  match b with
  | None => panic "idestart"
  | Some b =>
      x ← buf_of b;
      if bool_decide (FSSIZE ≤ blockno x) then panic "incorrect blockno" else
      let sector_per_block := BSIZE / SECTOR_SIZE in
      let sector := blockno x * sector_per_block in
      let read_cmd := if bool_decide (sector_per_block = 1) then IDE_CMD_READ else IDE_CMD_RDMUL in
      let write_cmd := if bool_decide (sector_per_block = 1) then IDE_CMD_WRITE else IDE_CMD_WRMUL in
      if bool_decide (7 < sector_per_block) then panic "idestart" else
      idewait fuel false ;;
      outb 0x3f6 0 ;;
      outb 0x1f2 sector_per_block ;;
      outb 0x1f3 (Z.land sector 0xff) ;;
      outb 0x1f4 (Z.land (Z.shiftr sector 8) 0xff) ;;
      outb 0x1f5 (Z.land (Z.shiftr sector 16) 0xff) ;;
      outb 0x1f6 (Z.lor (Z.lor 0xe0 (Z.shiftl (Z.land (dev x) 1) 4)) (Z.land (Z.shiftr sector 24) 0x0f)) ;;
      if has (flags x) B_DIRTY then
        outb 0x1f7 write_cmd ;;
        outsl 0x1f0 (data x)
      else outb 0x1f7 read_cmd
  end.

(** [wakeup(b)]: the process that waits for [b] can go on. *)
Definition wakeup_buf (b : nat) : M ist unit :=
  modify (λ s, set_asleep (alter (λ _, false) b (asleep s)) s).

Definition ideintr (fuel : nat) : M ist unit :=
  q ← gets idequeue;
  match q with
  | None => mret tt
  | Some b =>
      n ← gets (λ s, qnext s b);
      modify (set_idequeue n) ;;
      x ← buf_of b;
      (if has (flags x) B_DIRTY then mret tt else
         r ← idewait fuel true;
         if bool_decide (0 ≤ r) then y ← insl 0x1f0 128; put_buf b (set_data y) else mret tt) ;;
      put_buf b (λ x, set_flags (Z.lor (flags x) B_VALID) x) ;;
      put_buf b (λ x, set_flags (Z.land (flags x) (Z.lnot B_DIRTY)) x) ;;
      wakeup_buf b ;;
      q ← gets idequeue;
      match q with
      | None => mret tt
      | Some b => idestart fuel (Some b)
      end
  end.

(** The loop that looks for the end of the queue, and the assignment there; the
    pointer [pp] is [None] for [&idequeue] and [Some c] for [&c->qnext]. *)
Fixpoint insert_queue (fuel : nat) (pp : option nat) (b : nat) : M ist unit :=
  match fuel with
  | O => spin
  | S fuel =>
      x ← gets (λ s, match pp with None => idequeue s | Some c => qnext s c end);
      match x with
      | Some c => insert_queue fuel (Some c) b
      | None => modify (match pp with None => set_idequeue (Some b) | Some c => set_qnext c (Some b) end)
      end
  end.

(** One test of the loop at the end of [iderw]: [false] when it sleeps. *)
Definition iderw_turn (b : nat) : M ist bool :=
  x ← buf_of b;
  if bool_decide (Z.land (flags x) (Z.lor B_VALID B_DIRTY) ≠ B_VALID)
  then modify (λ s, set_asleep (<[b := true]> (asleep s)) s) ;; mret false
  else modify (λ s, set_asleep (delete b (asleep s)) s) ;; mret true.

(** [iderw] up to its first [sleep]. *)
Definition iderw_begin (fuel : nat) (pid : Z) (b : nat) : M ist bool :=
  x ← buf_of b;
  if negb (bool_decide (locked x ≠ 0) && bool_decide (lpid x = pid)) then panic "iderw: buf not locked" else
  if bool_decide (Z.land (flags x) (Z.lor B_VALID B_DIRTY) = B_VALID) then panic "iderw: nothing to do" else
  h ← gets havedisk1;
  if bool_decide (dev x ≠ 0) && bool_decide (h = 0) then panic "iderw: ide disk 1 not present" else
  modify (set_qnext b None) ;;
  n ← gets (λ s, length (ibufs s));
  insert_queue (S n) None b ;;
  q ← gets idequeue;
  (if bool_decide (q = Some b) then idestart fuel (Some b) else mret tt) ;;
  iderw_turn b.

End Driver.

Arguments ist : clear implicits.

End Ide.
