(* ===== verification/IdeThm.v ===== *)
(** * What the disk driver promises

    Requests are served in the order in which they come, each with the effect of
    the memory disk of [Bio]; a process sleeps only while the device works on a
    request of the queue, and is woken when its own has been served. *)

From S2P Require Import Prelude Bio Ide.

Module IdeThm.
Import Bio Ide.

(** ** Registers *)

Lemma land_low s n : 0 ≤ n → Z.land s (Z.ones n) = s mod 2 ^ n.
Proof. apply Z.land_ones. Qed.

Lemma lba_sector (r : Z → Z) s :
  0 ≤ s < 2 ^ 24 → r 0x1f3 = Z.land s 0xff → r 0x1f4 = Z.land (Z.shiftr s 8) 0xff →
  r 0x1f5 = Z.land (Z.shiftr s 16) 0xff → Z.land (r 0x1f6) 0x0f = 0 → lba r = s.
Proof.
  intros Hs E1 E2 E3 E4. unfold lba. rewrite E1, E2, E3, E4. change 0xff with (Z.ones 8).
  rewrite !land_low, !Z.shiftr_div_pow2 by lia. Z.div_mod_to_equations. lia.
Qed.

Lemma flags_done f : Z.land (Z.lor f B_VALID) (Z.lnot B_DIRTY) = Z.lor (Z.land f (Z.lnot B_DIRTY)) B_VALID.
Proof.
  apply Z.bits_inj'. intros n Hn. rewrite !Z.land_spec, !Z.lor_spec, Z.land_spec, Z.lnot_spec by done.
  destruct (decide (n = 1)) as [->|H1]; [by destruct (Z.testbit f 1)|].
  replace (Z.testbit B_VALID n) with false; [by rewrite !orb_false_r|].
  unfold B_VALID. change 2 with (2 ^ 1). by rewrite Z.pow2_bits_false.
Qed.

Lemma flags_clean f : has f B_DIRTY = false → Z.land f (Z.lnot B_DIRTY) = f.
Proof.
  unfold has. intros H%bool_decide_eq_false_1. destruct (decide (Z.land f B_DIRTY = 0)) as [E|]; [|by destruct H].
  apply Z.bits_inj'. intros n Hn. rewrite Z.land_spec, Z.lnot_spec by done.
  assert (Hb := f_equal (λ z, Z.testbit z n) E). cbn beta in Hb. rewrite Z.land_spec, Z.bits_0 in Hb.
  destruct (Z.testbit f n), (Z.testbit B_DIRTY n); done.
Qed.

Lemma flags_valid f : Z.land (Z.lor (Z.land f (Z.lnot B_DIRTY)) B_VALID) (Z.lor B_VALID B_DIRTY) = B_VALID.
Proof.
  apply Z.bits_inj'. intros n Hn. rewrite !Z.land_spec, !Z.lor_spec, Z.land_spec, Z.lnot_spec by done.
  destruct (Z.testbit B_VALID n) eqn:E1, (Z.testbit B_DIRTY n) eqn:E2; try by destruct (Z.testbit f n).
Qed.

Section Thm.

Context {D : Type} {ATA : Ata D} {LAWS : AtaLaws D}.
Context (Hdrives : present 0 = true ∧ present 1 = true).

Implicit Types s : ist D.

Abbreviation dv s := (view (idev s)).

Lemma drive_present r : present (drive r) = true.
Proof using Hdrives.
  unfold drive. change 1 with (Z.ones 1). rewrite land_low by lia.
  destruct (Z.mod_pos_bound (Z.shiftr (r 0x1f6) 4) (2 ^ 1)) as [H1 H2]; [done|]. destruct Hdrives as [H0 H1'].
  assert (Z.shiftr (r 502) 4 mod 2 ^ 1 = 0 ∨ Z.shiftr (r 502) 4 mod 2 ^ 1 = 1) as [-> | ->] by lia; done.
Qed.

Lemma idewait_loop c n : ∀ s, (busy (idev s) < n)%nat →
  ∃ d, idewait n c s = Ok (if c && a_fault (dv s) then -1 else 0) (set_idev d s) ∧ view d = dv s ∧ busy d = 0%nat.
Proof using Hdrives.
  induction n as [|n IH]; intros s Hn; [lia|]. cbn [idewait]. unfold inb, mbind, M_bind.
  pose proof (in_status (idev s)) as Hv. pose proof (in_present (idev s) (drive_present _)) as [_ Hp].
  destruct (port_in 0x1f7 (idev s)) as [r d]. cbn [fst snd] in *. unfold is_ready in Hp.
  destruct (decide (Z.land r (Z.lor IDE_BSY IDE_DRDY) = IDE_DRDY)) as [E|E].
  - destruct Hp as [Hp H0]. rewrite bool_decide_eq_false_2 by tauto. exists d. split; [|done]. unfold mret, M_ret, is_error in *. f_equal.
    destruct c; [|done]. cbn [andb]. destruct (a_fault (dv s)).
    + rewrite bool_decide_eq_true_2; [done|]. by apply Hp.
    + rewrite bool_decide_eq_false_2; [done|]. by intros ?%Hp.
  - rewrite bool_decide_eq_true_2 by done. destruct (IH (set_idev d s)) as (d' & E' & Hd'); [cbn [idev set_idev]; lia|].
    cbn [idev set_idev] in *. rewrite Hv in *. by exists d'.
Qed.

(** The status is read often enough for the device to become ready. *)
Context (fuel : nat) (Hfuel : (delay < fuel)%nat).

Lemma idewait_ok c s :
  ∃ d, idewait fuel c s = Ok (if c && a_fault (dv s) then -1 else 0) (set_idev d s) ∧ view d = dv s ∧ busy d = 0%nat.
Proof using Hfuel Hdrives. apply idewait_loop. pose proof (busy_delay (idev s)). lia. Qed.

(** ** Requests *)

(** A buffer of device 1 that has to be read or written. *)
Record pending (x : bufr) : Prop := Pending {
  pd_todo : Z.land (flags x) (Z.lor B_VALID B_DIRTY) ≠ B_VALID;
  pd_block : 0 ≤ blockno x < FSSIZE;
  pd_dev : dev x = 1;
  pd_data : length (data x) = Z.to_nat SECTOR_SIZE;
  pd_locked : locked x ≠ 0;
}.

Definition synced (x : bufr) : Prop := Z.land (flags x) (Z.lor B_VALID B_DIRTY) = B_VALID.

(** The command for it. *)
Definition request (x : bufr) : command :=
  if has (flags x) B_DIRTY then CData 1 (blockno x) (data x) else CRead 1 (blockno x).

Lemma outb_eq p v s : outb p v s = Ok tt (set_idev (port_out p v (idev s)) s).
Proof. done. Qed.

(** The registers for sector [n] of drive 1. *)
Definition selected (n : Z) (a a' : ata) : Prop :=
  a_regs a' 0x1f2 = 1 ∧ drive (a_regs a') = 1 ∧ lba (a_regs a') = n ∧ a_disk a' = a_disk a ∧ a_fault a' = a_fault a.

Lemma idestart_ok s b x :
  ibufs s !! b = Some x → pending x →
  ∃ d, idestart fuel (Some b) s = Ok tt (set_idev d s) ∧ a_cmd (view d) = request x ∧ a_disk (view d) = a_disk (dv s).
Proof using Hfuel Hdrives.
  intros Hb [_ Hn Hdev Hlen _]. unfold idestart. rewrite (bind_step _ _ _ x s) by (unfold buf_of; by rewrite Hb).
  rewrite bool_decide_eq_false_2 by lia. change (BSIZE / SECTOR_SIZE) with 1. rewrite Z.mul_1_r, Hdev.
  rewrite (bool_decide_eq_false_2 (7 < 1)) by lia. rewrite (bool_decide_eq_true_2 (1 = 1)) by done.
  destruct (idewait_ok false s) as (d0 & E0 & Hv0 & Hb0). rewrite (bind_step _ _ _ _ _ E0).
  do 6 rewrite (bind_step _ _ _ _ _ (outb_eq _ _ _)). cbn [idev set_idev].
  set (d1 := port_out 0x1f6 _ _). assert (Hb1 : busy d1 = 0%nat) by (unfold d1; auto 10 using out_calm with lia).
  assert (Hsel : selected (blockno x) (dv s) (view d1)).
  { unfold d1. rewrite !out_reg, out_control, Hv0 by (lia || auto 10 using out_calm with lia). unfold FSSIZE in Hn.
    assert (Z.shiftr (blockno x) 24 = 0) as -> by (rewrite Z.shiftr_div_pow2 by lia; apply Z.div_small; lia).
    split_and!; [reflexivity|reflexivity| |done|done]. apply lba_sector; [lia|reflexivity..]. }
  destruct Hsel as (H1 & H2 & H3 & H4 & H5). unfold request. destruct (has (flags x) B_DIRTY).
  - rewrite (bind_step _ _ _ _ _ (outb_eq _ _ _)). cbn [idev set_idev]. unfold outsl, modify. cbn [idev set_idev].
    eexists. split; [reflexivity|].
    assert (E : view (port_out 0x1f7 IDE_CMD_WRITE d1) = with_cmd (CWrite 1 (blockno x)) (view d1))
      by (rewrite out_write, H2, H3 by done; done).
    rewrite (outsl_data 1 (blockno x)), E; [|by rewrite E|done]. by split.
  - rewrite outb_eq. cbn [idev set_idev]. eexists. split; [reflexivity|]. rewrite out_read, H2, H3 by done. by split.
Qed.

(** ** The queue *)

Fixpoint qchain (q : nat → option nat) (h : option nat) (l : list nat) : Prop :=
  match l with
  | [] => h = None
  | b :: l => h = Some b ∧ qchain q (q b) l
  end.

Lemma qchain_insert q h l c v : c ∉ l → qchain q h l → qchain (<[c := v]> q) h l.
Proof.
  revert h. induction l as [|b l IH]; intros h Hc; simpl; [done|]. apply not_elem_of_cons in Hc as [Hne Hc]. intros [-> Hq].
  split; [done|]. rewrite fn_lookup_insert_ne by congruence. by apply IH.
Qed.

(** The pointers of the loop of [iderw]: what is there, and an assignment. *)
Definition cell (pp : option nat) (s : ist D) : option nat := match pp with None => idequeue s | Some c => qnext s c end.
Definition assign (pp : option nat) (b : nat) : ist D → ist D :=
  match pp with None => set_idequeue (Some b) | Some c => set_qnext c (Some b) end.

Lemma insert_queue_ok b l n : ∀ pp s, (length l < n)%nat → qchain (qnext s) (cell pp s) l →
  insert_queue n pp b s = Ok tt (assign (default pp (Some <$> last l)) b s).
Proof.
  revert n. induction l as [|c l IH]; intros n pp s Hn Hq; (destruct n as [|n]; [simpl in Hn; lia|]);
    cbn [insert_queue]; rewrite (bind_step _ _ _ (cell pp s) s) by done.
  - simpl in Hq. by rewrite Hq.
  - destruct Hq as [-> Hq]. rewrite (IH n (Some c) s) by (simpl in *; (lia || done)). rewrite last_cons. by destruct (last l).
Qed.

Lemma qchain_snoc q h l b c :
  qchain q h l → NoDup l → b ∉ l → q b = None → last l = Some c → qchain (<[c := Some b]> q) h (l ++ [b]).
Proof.
  revert h. induction l as [|a l IH]; intros h Hq Hnd Hb Hqb Hl; [done|]. destruct Hq as [-> Hq].
  apply NoDup_cons in Hnd as [Ha Hnd]. apply not_elem_of_cons in Hb as [Hne Hb]. rewrite last_cons in Hl. split; [done|].
  destruct (last l) as [c'|] eqn:El.
  - injection Hl as ->. apply last_Some in El as [l' ->]. assert (a ≠ c) by (intros ->; apply Ha, elem_of_app; right; left).
    rewrite fn_lookup_insert_ne by done. by apply IH.
  - injection Hl as ->. apply last_None in El as ->. rewrite fn_lookup_insert. simpl. split; [done|].
    by rewrite fn_lookup_insert_ne.
Qed.

(** ** The invariant *)

(** [l] is the queue, the oldest request first. *)
Record driver (s : ist D) (l : list nat) : Prop := Driver {
  dr_chain : qchain (qnext s) (idequeue s) l;
  dr_nodup : NoDup l;
  dr_pending b : b ∈ l → ∃ x, ibufs s !! b = Some x ∧ pending x;
  (* the device works on the first request *)
  dr_device : match l with
    | [] => match a_cmd (dv s) with CIdle | CRead _ _ => True | _ => False end
    | b :: _ => request <$> ibufs s !! b = Some (a_cmd (dv s))
    end;
  (* the processes that sleep wait for a request of the queue *)
  dr_asleep b : asleep s !! b = Some true ↔ b ∈ l;
  dr_woken b : asleep s !! b = Some false → ∃ x, ibufs s !! b = Some x ∧ synced x;
  dr_disk1 : havedisk1 s ≠ 0;
}.

Lemma driver_length s l : driver s l → (length l ≤ length (ibufs s))%nat.
Proof.
  intros Hd. rewrite <- (length_seq (length (ibufs s)) 0). apply submseteq_length, NoDup_submseteq; [apply Hd|].
  intros b (x & Hx & _)%(dr_pending s l Hd). apply lookup_lt_Some in Hx. apply elem_of_seq. lia.
Qed.

(** A new request goes to the end of the queue, and its process sleeps. *)
Lemma iderw_begin_ok s l pid b x :
  driver s l → asleep s !! b = None → ibufs s !! b = Some x → lpid x = pid → pending x →
  ∃ s', iderw_begin fuel pid b s = Ok false s' ∧ driver s' (l ++ [b]) ∧ ibufs s' = ibufs s ∧
    a_disk (dv s') = a_disk (dv s) ∧ asleep s' = <[b := true]> (asleep s).
Proof using Hfuel Hdrives.
  intros Hd Hs Hx Hp Hpd. unfold iderw_begin. rewrite (bind_step _ _ _ x s) by (unfold buf_of; by rewrite Hx).
  rewrite (bool_decide_eq_true_2 (locked x ≠ 0)), (bool_decide_eq_true_2 (lpid x = pid)) by (done || apply Hpd). cbn [negb andb]. rewrite bool_decide_eq_false_2 by apply Hpd.
  rewrite (bind_step _ _ _ (havedisk1 s) s) by done. rewrite (bool_decide_eq_false_2 (havedisk1 s = 0)) by apply Hd.
  rewrite andb_false_r. set (s1 := set_qnext b None s). rewrite (bind_step _ _ _ tt s1) by done.
  rewrite (bind_step _ _ _ (length (ibufs s1)) s1) by done.
  assert (Hbl : b ∉ l) by (intros Hin%(dr_asleep s l Hd); congruence).
  assert (Hq1 : qchain (qnext s1) (idequeue s1) l) by (apply qchain_insert; [done|apply Hd]).
  assert (Hlen : (length l < S (length (ibufs s1)))%nat) by (pose proof (driver_length s l Hd); unfold s1; simpl; lia).
  rewrite (bind_step _ _ _ _ _ (insert_queue_ok b l _ None s1 Hlen Hq1)).
  set (s2 := assign _ b s1).
  assert (Hq2 : qchain (qnext s2) (idequeue s2) (l ++ [b])).
  { unfold s2. destruct (last l) as [c|] eqn:El; cbn [default fmap option_fmap option_map assign].
    - apply qchain_snoc; [done|apply Hd|done|apply fn_lookup_insert|done].
    - apply last_None in El as ->. split; [done|]. apply fn_lookup_insert. }
  assert (Hs2 : idev s2 = idev s ∧ ibufs s2 = ibufs s ∧ asleep s2 = asleep s ∧ havedisk1 s2 = havedisk1 s)
    by (unfold s2; destruct (default _ _); done).
  destruct Hs2 as (Hd2 & Hb2 & Ha2 & Hh2). rewrite (bind_step _ _ _ (idequeue s2) s2) by done.
  assert (Hst : ∃ d, (if bool_decide (idequeue s2 = Some b) then idestart fuel (Some b) else mret tt) s2 = Ok tt (set_idev d s2) ∧
    a_disk (view d) = a_disk (dv s) ∧ match l with [] => a_cmd (view d) = request x | _ :: _ => d = idev s end).
  { destruct l as [|c l]; cbn [app qchain] in Hq2; destruct Hq2 as [Hq2 _].
    - rewrite bool_decide_eq_true_2 by done. destruct (idestart_ok s2 b x) as (d & E & H1 & H2); [by rewrite Hb2|done|].
      exists d. split_and!; [exact E|by rewrite H2, Hd2|done].
    - rewrite bool_decide_eq_false_2 by (rewrite Hq2; intros [= ->]; apply Hbl; left).
      exists (idev s2). split_and!; [by destruct s2|by rewrite Hd2|done]. }
  destruct Hst as (d & E & Hdisk & Hcmd). rewrite (bind_step _ _ _ _ _ E). clear E.
  unfold iderw_turn. rewrite (bind_step _ _ _ x (set_idev d s2)) by (unfold buf_of; cbn [ibufs set_idev]; by rewrite Hb2, Hx).
  rewrite bool_decide_eq_true_2 by apply Hpd. eexists. split; [reflexivity|].
  split_and!; [|exact Hb2|exact Hdisk|by cbn [asleep set_asleep set_idev]; rewrite Ha2].
  split; cbn [qnext idequeue ibufs idev asleep havedisk1 set_asleep set_idev]; rewrite ?Hb2, ?Ha2, ?Hh2.
  - exact Hq2.
  - apply NoDup_app. split_and!; [apply Hd| |apply NoDup_singleton]. by intros c Hc ->%list_elem_of_singleton.
  - intros c [Hc| ->%list_elem_of_singleton]%elem_of_app; [by apply (dr_pending s l Hd)|by exists x].
  - destruct l as [|c l]; cbn [app]; [by rewrite Hx; simpl; rewrite Hcmd|]. rewrite Hcmd. apply (dr_device s _ Hd).
  - intros c. rewrite elem_of_app, list_elem_of_singleton, <- (dr_asleep s l Hd). destruct (decide (c = b)) as [->|Hne].
    + rewrite lookup_insert_eq. tauto.
    + rewrite lookup_insert_ne by done. tauto.
  - intros c. destruct (decide (c = b)) as [->|Hne]; [by rewrite lookup_insert_eq|]. rewrite lookup_insert_ne by done.
    apply (dr_woken s l Hd).
  - apply Hd.
Qed.

(** A process that was woken finds its request served. *)
Lemma iderw_turn_ok s l b :
  driver s l → asleep s !! b = Some false →
  iderw_turn b s = Ok true (set_asleep (delete b (asleep s)) s) ∧ driver (set_asleep (delete b (asleep s)) s) l.
Proof.
  intros Hd Hs. destruct (dr_woken s l Hd b Hs) as (x & Hx & Hsy). split.
  - unfold iderw_turn. rewrite (bind_step _ _ _ x s) by (unfold buf_of; by rewrite Hx).
    by rewrite bool_decide_eq_false_2 by tauto.
  - destruct Hd as [H1 H2 H3 H4 H5 H6 H7]. split; [done..| | |done]; cbn [asleep set_asleep].
    + intros c. rewrite <- H5. destruct (decide (c = b)) as [->|Hne]; [|by rewrite lookup_delete_ne].
      rewrite lookup_delete_eq. split; [done|congruence].
    + intros c. destruct (decide (c = b)) as [->|Hne]; [by rewrite lookup_delete_eq|]. rewrite lookup_delete_ne by done. apply H6.
Qed.

(** The owner of a buffer that is in no request changes it. *)
Lemma modify_ok s l b x : driver s l → asleep s !! b = None → driver (set_ibufs (<[b := x]> (ibufs s)) s) l.
Proof.
  intros [H1 H2 H3 H4 H5 H6 H7] Hs. assert (Hb : b ∉ l) by (intros Hin%H5; congruence).
  assert (Hl : ∀ c, c ≠ b → <[b := x]> (ibufs s) !! c = ibufs s !! c) by (intros c Hc; by apply list_lookup_insert_ne).
  split; cbn [qnext idequeue ibufs idev asleep havedisk1 set_ibufs]; [done|done| | |done| |done].
  - intros c Hc. rewrite Hl by congruence. by apply H3.
  - destruct l as [|c l]; [done|]. rewrite Hl; [done|]. intros ->. apply Hb. left.
  - intros c Hc. rewrite Hl by congruence. by apply H6.
Qed.

(** ** Interrupts *)

(** The buffer [x] when its request has been served. *)
Definition served (x : bufr) (a : ata) : bufr :=
  set_flags (Z.land (Z.lor (flags x) B_VALID) (Z.lnot B_DIRTY))
    (if has (flags x) B_DIRTY || a_fault a then x else set_data (a_disk a 1 (blockno x)) x).

Lemma served_flags x a : flags (served x a) = Z.lor (Z.land (flags x) (Z.lnot B_DIRTY)) B_VALID.
Proof. unfold served. by rewrite <- flags_done. Qed.

Lemma served_synced x a : synced (served x a).
Proof. unfold synced. rewrite served_flags. apply flags_valid. Qed.

(** The data of a read is fetched when there was no error. *)
Lemma fetch_ok s b x :
  ibufs s !! b = Some x → (∃ d0, interrupt d0 (idev s) ∧ a_cmd (view d0) = request x) →
  ∃ d, (if has (flags x) B_DIRTY then mret tt else
        r ← idewait fuel true;
        if bool_decide (0 ≤ r) then y ← insl 0x1f0 128; put_buf b (set_data y) else mret tt) s =
      Ok tt (set_ibufs (<[b := if has (flags x) B_DIRTY || a_fault (dv s) then x
                               else set_data (a_disk (dv s) 1 (blockno x)) x]> (ibufs s)) (set_idev d s)) ∧
    a_disk (view d) = a_disk (dv s) ∧ match a_cmd (view d) with CIdle | CRead _ _ => True | _ => False end.
Proof using Hfuel Hdrives.
  intros Hx (d0 & Hi & Hc). apply interrupt_ends in Hi. rewrite Hc in Hi. unfold request in Hi.
  assert (Hsame : ∀ d, set_idev d s = set_ibufs (<[b := x]> (ibufs s)) (set_idev d s)).
  { intros d. by rewrite list_insert_id. }
  destruct (has (flags x) B_DIRTY) eqn:Hdirty; cbn [orb].
  - exists (idev s). split_and!; [rewrite <- Hsame; by destruct s|done|].
    destruct (a_fault (dv s)); [by rewrite Hi|by rewrite Hi].
  - destruct (idewait_ok true s) as (d1 & E1 & Hv1 & Hb1). rewrite (bind_step _ _ _ _ _ E1). cbn [andb].
    assert (Hcmd : a_cmd (view d1) = CRead 1 (blockno x)) by (rewrite Hv1, Hi; cbn [a_cmd with_fault]; rewrite Hc; unfold request; by rewrite Hdirty).
    destruct (a_fault (dv s)) eqn:Hf.
    + rewrite bool_decide_eq_false_2 by lia. exists d1. rewrite <- Hsame, Hv1. split_and!; [done|done|]. rewrite <- Hv1. by rewrite Hcmd.
    + rewrite bool_decide_eq_true_2 by lia. destruct (insl_data 1 (blockno x) d1 Hb1 Hcmd) as [Hdat Hv2]; [by rewrite Hv1|].
      exists (port_insl 0x1f0 128 d1).2. rewrite Hv2. split_and!; [|by cbn [a_disk with_cmd]; rewrite Hv1|done].
      unfold insl, put_buf, modify, mbind, M_bind. cbn [idev set_idev ibufs]. rewrite Hdat, Hv1.
      by rewrite (upd_insert _ _ _ x).
Qed.

(** [ideintr] after the device has ended the first request. *)
Lemma ideintr_ok s b l x :
  driver s (b :: l) → ibufs s !! b = Some x → ∀ d, interrupt (idev s) d →
  ∃ s', ideintr fuel (set_idev d s) = Ok tt s' ∧ driver s' l ∧ ibufs s' = <[b := served x (view d)]> (ibufs s) ∧
    a_disk (dv s') = a_disk (view d) ∧ asleep s' = <[b := false]> (asleep s).
Proof using Hfuel Hdrives.
  intros Hd Hx d Hi. unfold ideintr. destruct (dr_chain s _ Hd) as [Hq Hch]. set (s0 := set_idev d s).
  rewrite (bind_step _ _ _ (Some b) s0) by (unfold gets; by rewrite <- Hq).
  rewrite (bind_step _ _ _ (qnext s b) s0) by done. set (s1 := set_idequeue (qnext s b) s0).
  rewrite (bind_step _ _ _ tt s1) by done. rewrite (bind_step _ _ _ x s1) by (unfold buf_of, s1; simpl; by rewrite Hx).
  assert (Hreq : a_cmd (dv s) = request x) by (pose proof (dr_device s _ Hd) as E; cbn beta iota in E; rewrite Hx in E; simpl in E; congruence).
  destruct (fetch_ok s1 b x Hx (ex_intro _ (idev s) (conj Hi Hreq))) as (d2 & E2 & Hdisk & Hidle).
  rewrite (bind_step _ _ _ _ _ E2). clear E2. set (x' := if has (flags x) B_DIRTY || a_fault (dv s1) then x else set_data (a_disk (dv s1) 1 (blockno x)) x).
  assert (Hblt : (b < length (ibufs s))%nat) by by eapply lookup_lt_Some.
  set (s2 := set_ibufs (<[b := served x (view d)]> (ibufs s)) (set_idev d2 s1)).
  assert (Hserved : let y := set_flags (Z.lor (flags x') B_VALID) x' in
    set_flags (Z.land (flags y) (Z.lnot B_DIRTY)) y = served x (view d)).
  { unfold served, x'. change (dv s1) with (view d). by destruct (has (flags x) B_DIRTY || a_fault (view d)). }
  rewrite (bind_step _ _ _ tt (set_ibufs (<[b := set_flags (Z.lor (flags x') B_VALID) x']> (ibufs s)) (set_idev d2 s1))).
  2:{ unfold put_buf, modify. cbn [ibufs set_ibufs]. by rewrite upd_insert_eq. }
  rewrite (bind_step _ _ _ tt s2).
  2:{ unfold put_buf, modify, s2. cbn [ibufs set_ibufs]. rewrite upd_insert_eq by done.
      cbn beta. by rewrite Hserved. }
  set (s3 := set_asleep (<[b := false]> (asleep s)) s2).
  rewrite (bind_step _ _ _ tt s3).
  2:{ unfold wakeup_buf, modify, s3. f_equal. cbn [asleep s2 set_ibufs set_idev s1 set_idequeue s0]. unfold set_asleep. f_equal.
      apply map_eq. intros c. destruct (decide (c = b)) as [->|Hne].
      - rewrite lookup_alter_eq, lookup_insert_eq. rewrite (proj2 (dr_asleep s _ Hd b)) by left. done.
      - by rewrite lookup_alter_ne, lookup_insert_ne. }
  rewrite (bind_step _ _ _ (qnext s b) s3) by done.
  pose proof (dr_nodup s _ Hd) as [Hbl Hnd]%NoDup_cons.
  assert (Hother : ∀ c, c ∈ l → <[b := served x (view d)]> (ibufs s) !! c = ibufs s !! c)
    by (intros c Hc; apply list_lookup_insert_ne; congruence).
  assert (Hdr : ∀ d', match l with [] => match a_cmd (view d') with CIdle | CRead _ _ => True | _ => False end
    | c :: _ => request <$> ibufs s !! c = Some (a_cmd (view d')) end → driver (set_idev d' s3) l).
  { intros d' Hdev. split; cbn [qnext idequeue ibufs idev asleep havedisk1 s3 s2 s1 s0 set_asleep set_idev set_ibufs set_idequeue].
    - exact Hch.
    - exact Hnd.
    - intros c Hc. rewrite Hother by done. apply (dr_pending s _ Hd). by right.
    - destruct l as [|c l]; [done|]. rewrite Hother by left. done.
    - intros c. destruct (decide (c = b)) as [->|Hne]; [by rewrite lookup_insert_eq|].
      rewrite lookup_insert_ne by done. rewrite (dr_asleep s _ Hd), elem_of_cons. naive_solver.
    - intros c. destruct (decide (c = b)) as [->|Hne].
      + intros _. exists (served x (view d)). rewrite list_lookup_insert_eq by done. split; [done|apply served_synced].
      + rewrite lookup_insert_ne by done. rewrite list_lookup_insert_ne by done. apply (dr_woken s _ Hd).
    - apply Hd. }
  destruct l as [|c l].
  - simpl in Hch. rewrite Hch. exists s3. split_and!; [done|exact (Hdr d2 Hidle)|done|exact Hdisk|done].
  - destruct Hch as [-> _]. destruct (dr_pending s _ Hd c) as (y & Hy & Hpy); [right; left|].
    destruct (idestart_ok s3 c y) as (d3 & E3 & Hc3 & Hd3); [|done|].
    { cbn [ibufs s3 s2 set_asleep set_ibufs]. rewrite Hother by left. done. }
    exists (set_idev d3 s3). split_and!; [exact E3| |done|exact (eq_trans Hd3 Hdisk)|done].
    apply Hdr. rewrite Hy, Hc3. done.
Qed.

(** An interrupt with an empty queue: a read that failed is still in the device. *)
Lemma ideintr_empty s d :
  driver s [] → interrupt (idev s) d →
  ideintr fuel (set_idev d s) = Ok tt (set_idev d s) ∧ driver (set_idev d s) [] ∧ a_disk (view d) = a_disk (dv s).
Proof.
  intros Hd Hi. apply interrupt_ends in Hi. pose proof (dr_device s _ Hd) as Hc. cbn beta iota in Hc.
  destruct (a_cmd (dv s)) eqn:Ec; [done| |done|done].
  assert (Ecmd : a_cmd (view d) = a_cmd (dv s)) by by rewrite Hi.
  split_and!; [|destruct Hd as [H1 H2 H3 H4 H5 H6 H7]; split; try done|by rewrite Hi].
  - unfold ideintr. rewrite (bind_step _ _ _ None (set_idev d s)); [done|]. unfold gets. f_equal. apply (dr_chain s _ Hd).
  - cbn [idev set_idev]. by rewrite Ecmd.
Qed.

Definition wakes (l : list nat) (m : gmap nat bool) : gmap nat bool :=
  match l with [] => m | b :: _ => <[b := false]> m end.

(** Any interrupt takes the first request off the queue and wakes its process. *)
Lemma ideintr_pops s l d :
  driver s l → interrupt (idev s) d →
  ∃ s', ideintr fuel (set_idev d s) = Ok tt s' ∧ driver s' (tail l) ∧ asleep s' = wakes l (asleep s).
Proof using Hfuel Hdrives.
  intros Hd Hi. destruct l as [|b l].
  - destruct (ideintr_empty s d Hd Hi) as (E & Hd' & _). by exists (set_idev d s).
  - destruct (dr_pending s _ Hd b) as (x & Hx & Hpd); [left|].
    destruct (ideintr_ok s b l x Hd Hx d Hi) as (s2 & E2 & Hd2 & _ & _ & Ha). by exists s2.
Qed.

(** ** Booting *)

(** The globals before [ideinit]. *)
Record fresh (s : ist D) : Prop := Fresh {
  fr_queue : idequeue s = None;
  fr_asleep : asleep s = ∅;
  fr_cmd : a_cmd (dv s) = CIdle;
}.

Lemma probe_ok n s :
  present (drive (a_regs (dv s))) = true → busy (idev s) = 0%nat → (0 < n)%nat →
  ∃ d, probe n s = Ok tt (set_havedisk1 1 (set_idev d s)) ∧ view d = dv s ∧ busy d = 0%nat.
Proof.
  intros Hp Hb Hn. destruct n as [|n]; [lia|]. cbn [probe]. unfold inb, mbind, M_bind.
  rewrite bool_decide_eq_true_2 by apply (in_present (idev s) Hp).
  eexists. split; [reflexivity|]. split; [apply in_status|]. destruct (in_present (idev s) Hp) as [_ H].
  destruct (decide _); [apply H|lia].
Qed.

Lemma ideinit_ok s :
  fresh s → ∃ s', ideinit fuel s = Ok tt s' ∧ driver s' [] ∧ ibufs s' = ibufs s ∧ a_disk (dv s') = a_disk (dv s) ∧ asleep s' = ∅.
Proof using Hfuel Hdrives.
  intros [Hq Ha Hc]. unfold ideinit. destruct (idewait_ok false s) as (d0 & E0 & Hv0 & Hb0). rewrite (bind_step _ _ _ _ _ E0).
  rewrite (bind_step _ _ _ _ _ (outb_eq _ _ _)). set (s1 := set_idev _ _).
  assert (Hb1 : busy (idev s1) = 0%nat) by (apply out_calm; [lia|done]).
  destruct (probe_ok 1000 s1 (drive_present _) Hb1 ltac:(lia)) as (d2 & E2 & Hv2 & Hb2). rewrite (bind_step _ _ _ _ _ E2), outb_eq.
  set (s3 := set_havedisk1 1 _).
  assert (Hv3 : dv (set_idev (port_out 0x1f6 (Z.lor 0xe0 (Z.shiftl 0 4)) (idev s3)) s3) = with_reg 0x1f6 0xe0 (with_reg 0x1f6 0xf0 (dv s))).
  { cbn [idev set_idev s3 set_havedisk1]. rewrite out_reg, Hv2 by (done || lia). cbn [idev s1 set_idev]. by rewrite out_reg, Hv0 by (done || lia). }
  eexists. split; [reflexivity|]. rewrite Hv3. split_and!; [|done|done|exact Ha]. split.
  - exact Hq.
  - apply NoDup_nil_2.
  - by intros b ?%elem_of_nil.
  - rewrite Hv3. cbn [a_cmd with_reg]. by rewrite Hc.
  - intros b. cbn [asleep set_idev s3 set_havedisk1]. rewrite elem_of_nil. unfold s1. cbn [asleep set_idev]. rewrite Ha. done.
  - intros b. cbn [asleep set_idev s3 set_havedisk1 s1]. rewrite Ha. done.
  - done.
Qed.

(** ** Executions *)

(** What can happen: process [pid] starts a request for a buffer it has the lock of;
    the one that waits for [b] and was woken goes on, out of [iderw] when [r] is
    true; the device ends a command; or the owner of a buffer changes it. *)
Inductive event : Type :=
| Request (pid : Z) (b : nat)
| Resume (b : nat) (r : bool)
| Interrupt
| Modify (b : nat) (x : bufr).

(** In a [healthy] execution no command fails. *)
Inductive istep (healthy : bool) (s s' : ist D) : event → Prop :=
| is_begin pid b x r : asleep s !! b = None → ibufs s !! b = Some x → lpid x = pid → pending x →
    iderw_begin fuel pid b s = Ok r s' → istep healthy s s' (Request pid b)
| is_turn b r : asleep s !! b = Some false → iderw_turn b s = Ok r s' → istep healthy s s' (Resume b r)
| is_interrupt d : interrupt (idev s) d → (healthy = true → a_fault (view d) = false) →
    ideintr fuel (set_idev d s) = Ok tt s' → istep healthy s s' Interrupt
| is_modify b x : asleep s !! b = None → s' = set_ibufs (<[b := x]> (ibufs s)) s → istep healthy s s' (Modify b x).

Inductive itrace (healthy : bool) : ist D → list event → ist D → Prop :=
| it_nil s : itrace healthy s [] s
| it_cons s1 s2 s3 e es : istep healthy s1 s2 e → itrace healthy s2 es s3 → itrace healthy s1 (e :: es) s3.

(** The buffers linked from [h]. *)
Fixpoint follow (n : nat) (h : option nat) (q : nat → option nat) : list nat :=
  match n, h with
  | S n, Some b => b :: follow n (q b) q
  | _, _ => []
  end.

(** The requests that have not been served, the oldest first. *)
Definition queue (s : ist D) : list nat := follow (length (ibufs s)) (idequeue s) (qnext s).

Lemma follow_chain q l : ∀ n h, (length l ≤ n)%nat → qchain q h l → follow n h q = l.
Proof.
  induction l as [|b l IH]; intros n h Hn Hq; cbn [qchain length] in *; [subst; by destruct n|].
  destruct Hq as [-> Hq]. destruct n as [|n]; [lia|]. cbn [follow]. by rewrite IH by (done || lia).
Qed.

Lemma driver_queue s l : driver s l → queue s = l.
Proof. intros Hd. apply follow_chain; [by apply driver_length|apply Hd]. Qed.

(** What an event does to the queue and to the processes. *)
Definition next_queue (e : event) (l : list nat) : list nat :=
  match e with Request _ b => l ++ [b] | Interrupt => tail l | _ => l end.
Definition next_asleep (e : event) (l : list nat) (m : gmap nat bool) : gmap nat bool :=
  match e with
  | Request _ b => <[b := true]> m
  | Resume b _ => delete b m
  | Interrupt => wakes l m
  | Modify _ _ => m
  end.

Lemma istep_next h s l s' e :
  driver s l → istep h s s' e →
  driver s' (next_queue e l) ∧ asleep s' = next_asleep e l (asleep s) ∧ match e with Resume _ r => r = true | _ => True end.
Proof using Hfuel Hdrives.
  intros Hd [pid b x r Ha Hx Hp Hpd E|b r Ha E|d Hi Hf E|b x Ha ->].
  - destruct (iderw_begin_ok s l pid b x Hd Ha Hx Hp Hpd) as (s2 & E2 & Hd2 & _ & _ & Ha2). rewrite E in E2. by injection E2 as -> ->.
  - destruct (iderw_turn_ok s l b Hd Ha) as [E2 Hd2]. rewrite E in E2. by injection E2 as -> ->.
  - destruct (ideintr_pops s l d Hd Hi) as (s2 & E2 & Hd2 & Ha2). rewrite E in E2. by injection E2 as ->.
  - split_and!; [by apply modify_ok|done|done].
Qed.

(** ** The memory disk *)

(** The memory disk of [Bio] with the sectors of drive 1. *)
Definition mem (s : ist D) : bst := Bst (ibufs s) id id (a_disk (dv s) 1) FSSIZE.

(** The same events on it: it serves the oldest of the requests [l] at an interrupt,
    by its own [iderw]; a process goes on when its request is among those served,
    [w].  No other event is possible. *)
Definition mstep (e : event) (st : bst * list nat * gset nat) : option (bst * list nat * gset nat) :=
  let '(a, l, w) := st in
  match e with
  | Request pid b =>
      x ← bufs a !! b;
      if bool_decide (b ∈ l) || bool_decide (b ∈ w) || bool_decide (lpid x ≠ pid) then None else Some (a, l ++ [b], w)
  | Resume b r => if r && bool_decide (b ∈ w) then Some (a, l, w ∖ {[b]}) else None
  | Interrupt =>
      match l with
      | [] => Some (a, [], w)
      | b :: l =>
          x ← bufs a !! b;
          match Bio.iderw (lpid x) b a with Ok _ a' => Some (a', l, {[b]} ∪ w) | _ => None end
      end
  | Modify b x => if bool_decide (b ∈ l) || bool_decide (b ∈ w) then None else Some (set_bufs (<[b := x]> (bufs a)) a, l, w)
  end.

Fixpoint mrun (es : list event) (st : bst * list nat * gset nat) : option (bst * list nat * gset nat) :=
  match es with
  | [] => Some st
  | e :: es => st' ← mstep e st; mrun es st'
  end.

(** The memory disk on a pending buffer. *)
Lemma mem_serves s b x d :
  ibufs s !! b = Some x → pending x → interrupt (idev s) d → a_cmd (dv s) = request x → a_fault (view d) = false →
  Bio.iderw (lpid x) b (mem s) =
    Ok tt (Bst (<[b := served x (view d)]> (ibufs s)) id id (a_disk (view d) 1) FSSIZE).
Proof.
  intros Hx [H1 H2 H3 H4 H5] Hi Hc Hf. apply interrupt_ends in Hi. rewrite Hc, Hf in Hi. unfold Bio.iderw, holdingsleep.
  assert (Hb : buf_at b (mem s) = Ok x (mem s)) by (unfold buf_at; cbn [bufs mem]; by rewrite Hx).
  rewrite (bind_step _ _ _ true (mem s)).
  2:{ rewrite (bind_step _ _ _ _ _ Hb). unfold mret, M_ret. rewrite !bool_decide_eq_true_2; done. }
  cbn [negb]. rewrite (bind_step _ _ _ _ _ Hb), bool_decide_eq_false_2 by done.
  rewrite bool_decide_eq_false_2 by lia. rewrite (bind_step _ _ _ (mem s) (mem s)) by done.
  rewrite bool_decide_eq_false_2 by (cbn [disksize mem]; lia). unfold served, request in *. rewrite Hf, orb_false_r, flags_done.
  assert (Hlt : (b < length (ibufs s))%nat) by by eapply lookup_lt_Some.
  unfold mbind, M_bind, upd_buf, modify, buf_at, set_bufs, set_memdisk. cbn [bufs mem next prev memdisk disksize].
  destruct (has (flags x) B_DIRTY) eqn:Hdirty; cbn [bufs next prev memdisk disksize];
    rewrite (upd_insert b _ (ibufs s) x Hx), list_lookup_insert_eq by done; cbn [bufs next prev memdisk disksize];
    rewrite upd_insert_eq by done.
  - rewrite Hi. cbn [a_disk with_fault with_cmd with_sector]. by rewrite fn_lookup_insert.
  - rewrite Hi. cbn [a_disk with_fault]. by rewrite flags_clean.
Qed.

(** The processes that have been woken and not yet gone on. *)
Definition woken (s : ist D) (w : gset nat) : Prop := ∀ b, asleep s !! b = Some false ↔ b ∈ w.

(** The queue and the processes that were woken, as seen from a buffer. *)
Lemma idle_buffer s l w b : driver s l → woken s w → asleep s !! b = None → (b ∉ l) ∧ (b ∉ w).
Proof. intros Hd Hw Ha. rewrite <- (dr_asleep s l Hd), <- (Hw b), Ha. by split. Qed.

Lemma woken_next h s l s' e w :
  driver s l → istep h s s' e → woken s w →
  woken s' (match e, l with Resume b _, _ => w ∖ {[b]} | Interrupt, b :: _ => {[b]} ∪ w | _, _ => w end).
Proof using Hfuel Hdrives.
  intros Hd Hst Hw b. destruct (istep_next h s l s' e Hd Hst) as (_ & -> & _).
  destruct Hst as [pid c x r Ha _ _ _ _|c r Ha _|d _ _ _|c x Ha ->]; cbn [next_asleep].
  - destruct (idle_buffer s l w c Hd Hw Ha) as [_ Hc]. destruct (decide (b = c)) as [->|Hne].
    + rewrite lookup_insert_eq. split; [done|by intros ?].
    + by rewrite lookup_insert_ne.
  - rewrite elem_of_difference, elem_of_singleton, <- (Hw b). destruct (decide (b = c)) as [->|Hne].
    + rewrite lookup_delete_eq. naive_solver.
    + rewrite lookup_delete_ne by done. naive_solver.
  - destruct l as [|c l]; cbn [wakes]; [apply Hw|]. rewrite elem_of_union, elem_of_singleton, <- (Hw b).
    destruct (decide (b = c)) as [->|Hne]; [rewrite lookup_insert_eq; tauto|rewrite lookup_insert_ne by done; naive_solver].
  - apply Hw.
Qed.

(** Every step of the driver is the step of the memory disk with the same event. *)
Lemma istep_mem s l s' e w :
  driver s l → woken s w → istep true s s' e →
  ∃ w', mstep e (mem s, l, w) = Some (mem s', next_queue e l, w') ∧ woken s' w'.
Proof using Hfuel Hdrives.
  intros Hd Hw Hst. pose proof (woken_next true s l s' e w Hd Hst Hw) as Hw'. eexists. split; [|exact Hw'].
  destruct Hst as [pid b x r Ha Hx Hp Hpd E|b r Ha E|d Hi Hf E|b x Ha ->]; unfold mstep.
  - destruct (iderw_begin_ok s l pid b x Hd Ha Hx Hp Hpd) as (s2 & E2 & _ & Hb2 & Hk2 & _). rewrite E in E2. injection E2 as -> ->.
    destruct (idle_buffer s l w b Hd Hw Ha). cbn [bufs mem]. rewrite Hx. cbn [mbind option_bind].
    rewrite !bool_decide_eq_false_2 by tauto. unfold mem. by rewrite Hb2, Hk2.
  - destruct (iderw_turn_ok s l b Hd Ha) as [E2 Hd2]. rewrite E in E2. injection E2 as -> ->.
    by rewrite bool_decide_eq_true_2 by (by apply Hw).
  - specialize (Hf eq_refl). destruct l as [|b l].
    + destruct (ideintr_empty s d Hd Hi) as (E2 & _ & Hk). rewrite E in E2. injection E2 as ->.
      unfold mem. cbn [ibufs idev set_idev]. by rewrite Hk.
    + destruct (dr_pending s _ Hd b) as (x & Hx & Hpd); [left|].
      assert (Hreq : a_cmd (dv s) = request x) by (pose proof (dr_device s _ Hd) as E'; cbn beta iota in E'; rewrite Hx in E'; simpl in E'; congruence).
      destruct (ideintr_ok s b l x Hd Hx d Hi) as (s2 & E2 & Hd2 & Hb2 & Hk2 & _). rewrite E in E2. injection E2 as ->.
      cbn [bufs mem]. rewrite Hx. cbn [mbind option_bind]. rewrite (mem_serves s b x d) by done. unfold mem. by rewrite Hb2, Hk2.
  - destruct (idle_buffer s l w b Hd Hw Ha). by rewrite !bool_decide_eq_false_2 by tauto.
Qed.

Lemma itrace_mem s es s' : itrace true s es s' → ∀ l w, driver s l → woken s w →
  ∃ l' w', mrun es (mem s, l, w) = Some (mem s', l', w') ∧ driver s' l' ∧ woken s' w'.
Proof using Hfuel Hdrives.
  induction 1 as [s|s1 s2 s3 e es Hst _ IH]; intros l w Hd Hw; [by exists l, w|].
  destruct (istep_mem s1 l s2 e w Hd Hw Hst) as (w' & E & Hw'). destruct (istep_next _ _ _ _ _ Hd Hst) as (Hd' & _).
  destruct (IH _ _ Hd' Hw') as (l2 & w2 & E2 & H2). exists l2, w2. split; [|done]. cbn [mrun]. by rewrite E.
Qed.


(** ** Progress *)

Definition is_interrupt_event (e : event) : bool := match e with Interrupt => true | _ => false end.

Fixpoint interrupts (es : list event) : nat :=
  match es with
  | [] => 0
  | e :: es => if is_interrupt_event e then S (interrupts es) else interrupts es
  end.

Lemma itrace_driver h s es s' : itrace h s es s' → ∀ l, driver s l → ∃ l', driver s' l'.
Proof using Hfuel Hdrives.
  induction 1 as [s|s1 s2 s3 e es Hst _ IH]; intros l Hd; [by exists l|].
  destruct (istep_next _ _ _ _ _ Hd Hst) as (Hd' & _). exact (IH _ Hd').
Qed.

(** A process that was woken stays so until it goes on. *)
Lemma stays_woken h s es s' b : itrace h s es s' → ∀ l, driver s l → asleep s !! b = Some false →
  asleep s' !! b = Some false ∨ Resume b true ∈ es.
Proof using Hfuel Hdrives.
  induction 1 as [s|s1 s2 s3 e es Hst _ IH]; intros l Hd Hb; [by left|].
  destruct (istep_next _ _ _ _ _ Hd Hst) as (Hd' & Ha & Hr). rewrite elem_of_cons.
  assert (Hcase : asleep s2 !! b = Some false ∨ e = Resume b true); [|destruct Hcase as [Hb2| ->]; [|by right; left]].
  2:{ destruct (IH _ Hd' Hb2) as [|]; [by left|by right; right]. }
  rewrite Ha. destruct Hst as [pid c x r Hc _ _ _ _|c r _ _|d _ _ _|c x _ _]; cbn [next_asleep]; [left| |left|by left].
  - by rewrite lookup_insert_ne by congruence.
  - subst r. destruct (decide (b = c)) as [->|]; [by right|left; by rewrite lookup_delete_ne].
  - destruct l as [|c l]; [done|]. cbn [wakes]. destruct (decide (b = c)) as [->|]; [apply lookup_insert_eq|by rewrite lookup_insert_ne].
Qed.

(** A request moves one place for every interrupt, whatever else happens. *)
Lemma moves_up h s es s' b : itrace h s es s' → ∀ l k, driver s l → l !! k = Some b →
  ((interrupts es ≤ k)%nat → ∃ l', driver s' l' ∧ l' !! (k - interrupts es)%nat = Some b) ∧
  ((k < interrupts es)%nat → asleep s' !! b = Some false ∨ Resume b true ∈ es).
Proof using Hfuel Hdrives.
  induction 1 as [s|s1 s2 s3 e es Hst Htr IH]; intros l k Hd Hk.
  { split; [|cbn; lia]. intros _. exists l. by rewrite Nat.sub_0_r. }
  destruct (istep_next _ _ _ _ _ Hd Hst) as (Hd' & Ha & _). cbn [interrupts].
  destruct (is_interrupt_event e) eqn:He; [destruct e; try done|].
  - destruct l as [|c l]; [done|]. destruct k as [|k]; cbn [next_queue tail] in Hd'.
    + injection Hk as ->. split; [lia|]. intros _.
      destruct (stays_woken _ _ _ _ b Htr l Hd') as [|]; [rewrite Ha; apply lookup_insert_eq|by left|by right; right].
    + destruct (IH l k Hd' Hk) as [H1 H2]. split; [intros Hle; apply H1; lia|].
      intros Hlt. destruct H2 as [|]; [lia|by left|by right; right].
  - destruct (IH (next_queue e l) k Hd') as [H1 H2].
    { destruct e; cbn [next_queue]; [by apply lookup_app_l_Some|done..]. }
    split; [done|]. intros Hlt. destruct (H2 Hlt) as [|]; [by left|by right; right].
Qed.


(** C38: Errors of the device are not reported: when a read fails, [ideintr] marks the
    buffer valid although it still has its old contents, and the process goes on
    with them. *)
Theorem ide_error_ignored s b l x d :
  driver s (b :: l) → ibufs s !! b = Some x → interrupt (idev s) d → a_fault (view d) = true →
  ∃ s' x', ideintr fuel (set_idev d s) = Ok tt s' ∧ ibufs s' !! b = Some x' ∧ synced x' ∧ data x' = data x ∧
    asleep s' !! b = Some false.
Proof using Hfuel Hdrives.
  intros Hd Hx Hi Hf. destruct (ideintr_ok s b l x Hd Hx d Hi) as (s' & E & _ & Hb & _ & Ha).
  exists s', (served x (view d)). split_and!; [done| |apply served_synced| |rewrite Ha; apply lookup_insert_eq].
  - rewrite Hb. apply list_lookup_insert_eq. by eapply lookup_lt_Some.
  - unfold served. by rewrite Hf, orb_true_r.
Qed.

End Thm.

(** ** A device *)

(** A controller with two drives that is busy for two reads of its status after
    each command. *)
Record pio : Type := Pio { p_ata : ata; p_busy : nat }.

Definition pio_in (p : Z) (d : pio) : Z * pio :=
  if bool_decide (p = 0x1f7) then
    match p_busy d with
    | O => (if a_fault (p_ata d) then Z.lor IDE_DRDY IDE_ERR else IDE_DRDY, d)
    | S n => (IDE_BSY, Pio (p_ata d) (Nat.min 1 n))
    end
  else (0, d).

Definition pio_out (p v : Z) (d : pio) : pio :=
  let a := p_ata d in
  if bool_decide (0x1f2 ≤ p ≤ 0x1f6) then Pio (with_reg p v a) (p_busy d)
  else if bool_decide (p = 0x1f7 ∧ v = IDE_CMD_READ) then Pio (with_cmd (CRead (drive (a_regs a)) (lba (a_regs a))) a) 2
  else if bool_decide (p = 0x1f7 ∧ v = IDE_CMD_WRITE) then Pio (with_cmd (CWrite (drive (a_regs a)) (lba (a_regs a))) a) 2
  else d.

Definition pio_insl (p : Z) (n : nat) (d : pio) : list Z * pio :=
  match a_cmd (p_ata d) with
  | CRead dr s => (a_disk (p_ata d) dr s, Pio (with_cmd CIdle (p_ata d)) (p_busy d))
  | _ => ([], d)
  end.

Definition pio_outsl (p : Z) (x : list Z) (d : pio) : pio :=
  match a_cmd (p_ata d) with
  | CWrite dr s => Pio (with_cmd (CData dr s x) (p_ata d)) (p_busy d)
  | _ => d
  end.

#[global] Instance pio_ata : Ata pio := {|
  port_in := pio_in; port_out := pio_out; port_insl := pio_insl; port_outsl := pio_outsl
|}.

(** Commands for sectors from 900 on fail. *)
Definition pio_end (d : pio) : option pio :=
  match a_cmd (p_ata d) with
  | CRead dr s => Some (Pio (with_fault (bool_decide (900 ≤ s)) (p_ata d)) 0)
  | CData dr s x =>
      Some (Pio (if bool_decide (900 ≤ s) then with_fault true (with_cmd CIdle (p_ata d))
                 else with_fault false (with_cmd CIdle (with_sector dr s x (p_ata d)))) 0)
  | _ => None
  end.

Definition pio_busy (d : pio) : nat := Nat.min 2 (p_busy d).

Lemma pio_in_status d : p_ata (pio_in 0x1f7 d).2 = p_ata d.
Proof. unfold pio_in. rewrite bool_decide_eq_true_2 by done. by destruct (p_busy d). Qed.

Lemma pio_in_present d : (pio_in 0x1f7 d).1 ≠ 0 ∧
  (if decide (is_ready (pio_in 0x1f7 d).1)
   then (is_error (pio_in 0x1f7 d).1 ↔ a_fault (p_ata d) = true) ∧ pio_busy (pio_in 0x1f7 d).2 = 0%nat
   else (pio_busy (pio_in 0x1f7 d).2 < pio_busy d)%nat).
Proof.
  unfold pio_in. rewrite bool_decide_eq_true_2 by done. unfold pio_busy. destruct (p_busy d) as [|n] eqn:Hb; cbn [fst snd].
  - assert (Hz : Nat.min 2 (p_busy d) = 0%nat) by lia. destruct (a_fault (p_ata d)); (split; [done|]); rewrite decide_True by done; by split.
  - split; [done|]. rewrite decide_False by done. cbn [p_busy]. lia.
Qed.

Lemma pio_ends d d' : pio_end d = Some d' →
  match a_cmd (p_ata d) with
  | CRead dr s => p_ata d' = with_fault (a_fault (p_ata d')) (p_ata d)
  | CData dr s x =>
      if a_fault (p_ata d') then a_cmd (p_ata d') = CIdle
      else p_ata d' = with_fault false (with_cmd CIdle (with_sector dr s x (p_ata d)))
  | _ => False
  end.
Proof.
  unfold pio_end. destruct (a_cmd (p_ata d)) as [|dr s|dr s|dr s x]; [done| |done|]; intros [= <-]; cbn [p_ata]; [done|].
  by case_bool_decide.
Qed.

#[global] Instance pio_laws : AtaLaws pio.
Proof.
  refine {| view := p_ata; present := λ _, true; busy := pio_busy; delay := 2; interrupt d d' := pio_end d = Some d' |}.
  - intros d. unfold pio_busy. lia.
  - exact pio_in_status.
  - done.
  - intros d _. exact (pio_in_present d).
  - intros p v d Hp Hb. cbn [port_out pio_ata]. unfold pio_out. destruct Hp as [Hp| ->]; [|done]. by rewrite bool_decide_eq_true_2.
  - intros p v d Hp _. cbn [port_out pio_ata]. unfold pio_out. by rewrite bool_decide_eq_true_2.
  - done.
  - done.
  - done.
  - intros dr s x d Hc _. cbn [port_outsl pio_ata]. unfold pio_outsl. by rewrite Hc.
  - intros dr s d _ Hc _. cbn [port_insl pio_ata]. unfold pio_insl. by rewrite Hc.
  - exact pio_ends.
  - intros d. unfold pio_end. destruct (a_cmd (p_ata d)); [done| |done|]; intros _; by eexists.
Defined.

(** Two buffers of device 1: one to be read, one to be written. *)
Definition sector_of (n : Z) : list Z := replicate 512 n.

Definition ide_start : ist pio :=
  Ist (Pio (mkAta (λ _, 0) CIdle (λ dr s, sector_of (dr + s)) false) 2) None (λ _, None) 0
    [Buf 0 1 10 1 7 1 (sector_of 0); Buf B_DIRTY 1 20 1 8 1 (sector_of 99); Buf 0 1 950 1 9 1 (sector_of 0)] ∅.

Definition run1 {A} (m : M (ist pio) A) (s : ist pio) : ist pio := match m s with Ok _ s' => s' | _ => s end.

Definition ide_up : ist pio := run1 (ideinit 3) ide_start.
(** Both start a request; then come two interrupts. *)
Definition ide_two : ist pio := run1 (iderw_begin 3 8 1) (run1 (iderw_begin 3 7 0) ide_up).
Definition end_cmd (s : ist pio) : pio := default (idev s) (pio_end (idev s)).
Definition ide_one : ist pio := run1 (ideintr 3) (set_idev (end_cmd ide_two) ide_two).
Definition ide_none : ist pio := run1 (ideintr 3) (set_idev (end_cmd ide_one) ide_one).

Lemma run1_Ok {A} (m : M (ist pio) A) s :
  match m s with Ok _ _ => true | _ => false end = true → ∃ a, m s = Ok a (run1 m s).
Proof. unfold run1. destruct (m s); [by eexists|done..]. Qed.

Lemma pio_drives : present (D := pio) 0 = true ∧ present (D := pio) 1 = true.
Proof. done. Qed.

Lemma end_cmd_ok s : match pio_end (idev s) with Some _ => true | None => false end = true → interrupt (idev s) (end_cmd s).
Proof. cbn [interrupt pio_laws]. unfold end_cmd. by destruct (pio_end (idev s)). Qed.

Lemma ide_start_fresh : fresh ide_start.
Proof. by split. Qed.

Lemma ide_up_ok : ideinit 3 ide_start = Ok tt ide_up.
Proof. destruct (run1_Ok (ideinit 3) ide_start) as [[] E]; [by vm_compute|exact E]. Qed.

(** Processes 7 and 8 make their requests. *)
Lemma ide_requests h : itrace 3 h ide_up [Request 7 0; Request 8 1] ide_two.
Proof.
  eapply it_cons; [|eapply it_cons; [|apply it_nil]].
  - destruct (run1_Ok (iderw_begin 3 7 0) ide_up) as [r E]; [by vm_compute|].
    eapply (is_begin _ _ _ _ 7 0 (Buf 0 1 10 1 7 1 (sector_of 0))); [reflexivity|reflexivity|reflexivity| |exact E].
    split; [done|unfold FSSIZE; cbn [blockno]; lia|done|done|done].
  - destruct (run1_Ok (iderw_begin 3 8 1) (run1 (iderw_begin 3 7 0) ide_up)) as [r E]; [by vm_compute|].
    eapply (is_begin _ _ _ _ 8 1 (Buf B_DIRTY 1 20 1 8 1 (sector_of 99))); [reflexivity|reflexivity|reflexivity| |exact E].
    split; [done|unfold FSSIZE; cbn [blockno]; lia|done|done|done].
Qed.

(** Two interrupts, and process 7 goes on. *)
Definition ide_last : ist pio := run1 (iderw_turn 0) ide_none.

Lemma ide_interrupts : itrace 3 true ide_two [Interrupt; Interrupt; Resume 0 true] ide_last.
Proof.
  apply (it_cons _ _ _ ide_one); [|apply (it_cons _ _ _ ide_none); [|eapply it_cons; [|apply it_nil]]].
  - destruct (run1_Ok (ideintr 3) (set_idev (end_cmd ide_two) ide_two)) as [[] E]; [by vm_compute|].
    apply (is_interrupt _ _ _ _ (end_cmd ide_two)); [apply end_cmd_ok; by vm_compute|by vm_compute|exact E].
  - destruct (run1_Ok (ideintr 3) (set_idev (end_cmd ide_one) ide_one)) as [[] E]; [by vm_compute|].
    apply (is_interrupt _ _ _ _ (end_cmd ide_one)); [apply end_cmd_ok; by vm_compute|by vm_compute|exact E].
  - apply is_turn; [vm_compute; reflexivity|]. vm_compute. reflexivity.
Qed.

Lemma itrace_app {D} `{AtaLaws D} fuel h s1 es1 s2 es2 s3 :
  itrace fuel h s1 es1 s2 → itrace fuel h s2 es2 s3 → itrace fuel h s1 (es1 ++ es2) s3.
Proof. induction 1; [done|]. intros ?. cbn [app]. eapply it_cons; eauto. Qed.



(** Sector 950 cannot be read. *)
Definition ide_bad : ist pio := run1 (iderw_begin 3 9 2) ide_up.

Lemma ide_bad_driver : driver ide_bad [2%nat].
Proof.
  destruct (ideinit_ok pio_drives 3 (le_n 3) ide_start ide_start_fresh) as (s & E & Hd & _).
  rewrite ide_up_ok in E. injection E as <-.
  destruct (iderw_begin_ok pio_drives 3 (le_n 3) ide_up [] 9 2 (Buf 0 1 950 1 9 1 (sector_of 0)) Hd)
    as (s' & E' & Hd' & _); [reflexivity|reflexivity|reflexivity|split; [done|unfold FSSIZE; cbn [blockno]; lia|done|done|done]|].
  unfold ide_bad, run1. by rewrite E'.
Qed.

Lemma ide_error_ignored_witness :
  ∃ s' x', ideintr 3 (set_idev (end_cmd ide_bad) ide_bad) = Ok tt s' ∧ ibufs s' !! 2%nat = Some x' ∧ synced x' ∧
    data x' = sector_of 0.
Proof.
  destruct (ide_error_ignored pio_drives 3 (le_n 3) ide_bad 2 [] (Buf 0 1 950 1 9 1 (sector_of 0)) (end_cmd ide_bad)
    ide_bad_driver ltac:(vm_compute; reflexivity) (end_cmd_ok ide_bad ltac:(vm_compute; reflexivity)) ltac:(vm_compute; reflexivity)) as (s' & x' & H1 & H2 & H3 & H4 & _).
  exists s', x'. split; [exact H1|]. split; [exact H2|]. split; [exact H3|exact H4].
Defined.

End IdeThm.
