(* ===== verification/Mp.v ===== *)
(** * Finding the processors

    [src/mp.c]: the search for the tables of the firmware that describe the
    processors, and [mpinit], which reads them.  Memory maps virtual addresses to
    bytes, as in [Strings]. *)

From S2P Require Import Prelude Strings Spinlock Kalloc.

Module Mp.

Definition NCPU : nat := 8.
Definition MPPROC : Z := 0x00.
Definition MPBUS : Z := 0x01.
Definition MPIOAPIC : Z := 0x02.
Definition MPIOINTR : Z := 0x03.
Definition MPLINTR : Z := 0x04.

(** The sizes of the structures of [mp.h]. *)
Definition SIZEOF_MP : Z := 16.
Definition SIZEOF_MPCONF : Z := 44.
Definition SIZEOF_MPPROC : Z := 20.
Definition SIZEOF_MPIOAPIC : Z := 8.

(** Numbers in memory. *)
Definition get16 (m : mem) (a : Z) : Z := m a + 2 ^ 8 * m (a + 1).
Definition get32 (m : mem) (a : Z) : Z := m a + 2 ^ 8 * m (a + 1) + 2 ^ 16 * m (a + 2) + 2 ^ 24 * m (a + 3).

Definition bytes (m : mem) (a : Z) (n : nat) : list Z := m <$> seqZ a (Z.of_nat n).

(** The memory, the [apicid] of the entries of [cpus], the other globals, what was
    written to ports, and what port 0x23 reads. *)
Record mpst : Type := Mpst {
  mmem : mem;
  cpus : list Z;
  ncpu : Z;
  ioapicid : Z;
  lapic : Z;
  outs : list (Z * Z);
  imcr : Z;
}.

Definition add_cpu (id : Z) (s : mpst) : mpst :=
  Mpst (mmem s) (<[Z.to_nat (ncpu s) := id]> (cpus s)) (ncpu s + 1) (ioapicid s) (lapic s) (outs s) (imcr s).
Definition set_ioapicid (id : Z) (s : mpst) : mpst := Mpst (mmem s) (cpus s) (ncpu s) id (lapic s) (outs s) (imcr s).
Definition set_lapic (a : Z) (s : mpst) : mpst := Mpst (mmem s) (cpus s) (ncpu s) (ioapicid s) a (outs s) (imcr s).

Definition outb (port data : Z) : M mpst unit :=
  modify (λ s, Mpst (mmem s) (cpus s) (ncpu s) (ioapicid s) (lapic s) (outs s ++ [(port, u8 data)]) (imcr s)).

(** [sum]; an [int] holds the sum of the bytes of a table. *)
Definition sum (addr len : Z) (m : mem) : Z := u8 (foldl (λ x i, s32 (x + m (addr + i))) 0 (seqZ 0 len)).

(** [memcmp(p, l, ...) == 0] for a string [l]. *)
Definition same (m : mem) (p : Z) (l : list Z) : bool := bool_decide (bytes m p (length l) = l).

Definition MP_SIG : list Z := [95; 77; 80; 95].
Definition PCMP_SIG : list Z := [80; 67; 77; 80].

Fixpoint mpsearch1_loop (fuel : nat) (p e : Z) : M mpst (option Z) :=
  match fuel with
  | O => spin
  | S fuel =>
      if bool_decide (p < e) then
        m ← gets mmem;
        if same m p MP_SIG && bool_decide (sum p SIZEOF_MP m = 0) then mret (Some p)
        else mpsearch1_loop fuel (p + SIZEOF_MP) e
      else mret None
  end.

(** [mpsearch1]; the pointer moves by 16, so that [len] turns are enough. *)
Definition mpsearch1 (a len : Z) : M mpst (option Z) :=
  let addr := P2V a in
  mpsearch1_loop (S (Z.to_nat len)) addr (addr + len).

Definition mpsearch : M mpst (option Z) :=
  m ← gets mmem;
  let bda := P2V 0x400 in
  let p := Z.shiftl (Z.lor (Z.shiftl (m (bda + 0x0F)) 8) (m (bda + 0x0E))) 4 in
  r ← (if bool_decide (p ≠ 0) then mpsearch1 p 1024
       else let p := Z.lor (Z.shiftl (m (bda + 0x14)) 8) (m (bda + 0x13)) * 1024 in
            mpsearch1 (u32 (p - 1024)) 1024);
  match r with
  | Some mp => mret (Some mp)
  | None => mpsearch1 0xF0000 0x10000
  end.

(** [mpconfig]: the floating pointer structure and the configuration table. *)
Definition mpconfig : M mpst (option (Z * Z)) :=
  r ← mpsearch;
  m ← gets mmem;
  match r with
  | None => mret None
  | Some mp =>
      if bool_decide (get32 m (mp + 4) = 0) then mret None else
      let conf := P2V (get32 m (mp + 4)) in
      if negb (same m conf PCMP_SIG) then mret None else
      if bool_decide (m (conf + 6) ≠ 1 ∧ m (conf + 6) ≠ 4) then mret None else
      if bool_decide (sum conf (get16 m (conf + 4)) m ≠ 0) then mret None else
      mret (Some (mp, conf))
  end.

(** The loop of [mpinit], with [ismp]; the [break] of the default case leaves the
    [switch] and not the loop. *)
Fixpoint mpinit_loop (fuel : nat) (p e : Z) (ismp : bool) : M mpst bool :=
  match fuel with
  | O => spin
  | S fuel =>
      if bool_decide (p < e) then
        m ← gets mmem;
        let t := m p in
        if bool_decide (t = MPPROC) then
          n ← gets ncpu;
          (if bool_decide (n < Z.of_nat NCPU) then modify (add_cpu (m (p + 1))) else mret tt) ;;
          mpinit_loop fuel (p + SIZEOF_MPPROC) e ismp
        else if bool_decide (t = MPIOAPIC) then
          modify (set_ioapicid (m (p + 1))) ;;
          mpinit_loop fuel (p + SIZEOF_MPIOAPIC) e ismp
        else if bool_decide (t = MPBUS) || bool_decide (t = MPIOINTR) || bool_decide (t = MPLINTR) then
          mpinit_loop fuel (p + 8) e ismp
        else mpinit_loop fuel p e false
      else mret ismp
  end.

Definition mpinit (fuel : nat) : M mpst unit :=
  r ← mpconfig;
  match r with
  | None => panic "Expect to run on an SMP"
  | Some (mp, conf) =>
      m ← gets mmem;
      modify (set_lapic (get32 m (conf + 36))) ;;
      ismp ← mpinit_loop fuel (conf + SIZEOF_MPCONF) (conf + get16 m (conf + 4)) true;
      if negb ismp then panic "Didn't find a suitable machine" else
      if bool_decide (m (mp + 12) ≠ 0) then
        outb 0x22 0x70 ;;
        v ← gets imcr;
        outb 0x23 (Z.lor v 1)
      else mret tt
  end.

(** ** The search *)

(** A floating pointer structure: its signature, and its bytes add up to zero. *)
Definition valid_mp (m : mem) (p : Z) : Prop := bytes m p 4 = MP_SIG ∧ sum p SIZEOF_MP m = 0.

Lemma valid_mp_check m p : same m p MP_SIG && bool_decide (sum p SIZEOF_MP m = 0) = true ↔ valid_mp m p.
Proof. unfold same. by rewrite andb_true_iff, !bool_decide_eq_true. Qed.

(** The result of a search of [len] bytes: the first structure at a multiple of 16
    from the start, if there is one. *)
Definition first_mp (m : mem) (a len : Z) (r : option Z) : Prop :=
  match r with
  | Some p => ∃ k, 0 ≤ k ∧ SIZEOF_MP * k < len ∧ p = a + SIZEOF_MP * k ∧ valid_mp m p ∧
                   ∀ j, 0 ≤ j < k → ¬ valid_mp m (a + SIZEOF_MP * j)
  | None => ∀ j, 0 ≤ j → SIZEOF_MP * j < len → ¬ valid_mp m (a + SIZEOF_MP * j)
  end.

Lemma mpsearch1_loop_spec fuel : ∀ p len s, (0 < fuel)%nat → len ≤ SIZEOF_MP * (Z.of_nat fuel - 1) →
  ∃ r, mpsearch1_loop fuel p (p + len) s = Ok r s ∧ first_mp (mmem s) p len r.
Proof.
  induction fuel as [|fuel IH]; intros p len s Hpos Hf; [lia|]. cbn [mpsearch1_loop].
  case_bool_decide as Hlt; [|exists None; split; [done|]; intros j Hj Hl; unfold SIZEOF_MP in *; lia].
  rewrite (bind_step (gets mmem) _ s _ _ eq_refl). pose proof (valid_mp_check (mmem s) p) as Hv. destruct (same _ _ _ && _).
  - exists (Some p). split; [done|]. exists 0. rewrite Z.mul_0_r, Z.add_0_r.
    split_and!; [lia..|done|by apply Hv|intros; lia].
  - destruct (IH (p + SIZEOF_MP) (len - SIZEOF_MP) s) as (r & E & Hr); [unfold SIZEOF_MP in *; lia..|].
    replace (p + SIZEOF_MP + (len - SIZEOF_MP)) with (p + len) in E by lia. exists r. split; [done|].
    assert (Hnot : ¬ valid_mp (mmem s) p) by (intros H; by apply Hv in H).
    assert (Hstep : ∀ j, p + SIZEOF_MP + SIZEOF_MP * j = p + SIZEOF_MP * (j + 1)) by (unfold SIZEOF_MP; lia).
    destruct r as [q|]; simpl in Hr |- *.
    + destruct Hr as (k & Hk & Hkl & -> & Hq & Hno). exists (k + 1). rewrite <- Hstep.
      split_and!; [lia|unfold SIZEOF_MP in *; lia|done|done|]. intros j Hj.
      destruct (decide (j = 0)) as [->|]; [by rewrite Z.mul_0_r, Z.add_0_r|].
      specialize (Hno (j - 1) ltac:(lia)). rewrite Hstep in Hno. by replace (j - 1 + 1) with j in Hno by lia.
    + intros j Hj Hl. destruct (decide (j = 0)) as [->|]; [by rewrite Z.mul_0_r, Z.add_0_r|].
      specialize (Hr (j - 1) ltac:(lia) ltac:(unfold SIZEOF_MP in *; lia)). rewrite Hstep in Hr.
      by replace (j - 1 + 1) with j in Hr by lia.
Qed.

Lemma mpsearch1_spec a len s : 0 ≤ len → ∃ r, mpsearch1 a len s = Ok r s ∧ first_mp (mmem s) (P2V a) len r.
Proof. intros Hl. apply mpsearch1_loop_spec; [lia|]. unfold SIZEOF_MP. lia. Qed.

(** The areas in which [mpsearch] looks, in their order: the extended BIOS data
    area or else the end of the base memory, and the BIOS itself. *)
Definition ebda (m : mem) : Z := Z.shiftl (Z.lor (Z.shiftl (m (P2V 0x400 + 0x0F)) 8) (m (P2V 0x400 + 0x0E))) 4.
Definition base_end (m : mem) : Z := Z.lor (Z.shiftl (m (P2V 0x400 + 0x14)) 8) (m (P2V 0x400 + 0x13)) * 1024.
Definition first_area (m : mem) : Z := P2V (if bool_decide (ebda m ≠ 0) then ebda m else u32 (base_end m - 1024)).

(** [mpsearch] returns the first structure of the first area, or else of the
    second. *)
Lemma mpsearch_spec s :
  ∃ r, mpsearch s = Ok r s ∧
    match r with
    | Some p => first_mp (mmem s) (first_area (mmem s)) 1024 (Some p) ∨
                first_mp (mmem s) (first_area (mmem s)) 1024 None ∧ first_mp (mmem s) (P2V 0xF0000) 0x10000 (Some p)
    | None => first_mp (mmem s) (first_area (mmem s)) 1024 None ∧ first_mp (mmem s) (P2V 0xF0000) 0x10000 None
    end.
Proof.
  unfold mpsearch. rewrite (bind_step (gets mmem) _ s _ _ eq_refl). fold (ebda (mmem s)) (base_end (mmem s)).
  assert (Hfirst : ∃ r, (if bool_decide (ebda (mmem s) ≠ 0) then mpsearch1 (ebda (mmem s)) 1024
    else mpsearch1 (u32 (base_end (mmem s) - 1024)) 1024) s = Ok r s ∧ first_mp (mmem s) (first_area (mmem s)) 1024 r).
  { unfold first_area. case_bool_decide; by apply mpsearch1_spec. }
  destruct Hfirst as (r & E & Hr). cbn zeta. rewrite (bind_step _ _ _ _ _ E). destruct r as [p|].
  - exists (Some p). split; [done|by left].
  - destruct (mpsearch1_spec 0xF0000 0x10000 s) as (r & E2 & Hr2); [done|]. exists r. split; [done|].
    destruct r; [by right|done].
Qed.

(** ** The table *)

(** An entry of the table: a processor, an I/O APIC, or another one of the kinds
    that [mpinit] skips, with the rest of its bytes. *)
Inductive entry : Type :=
| EProc (apicid : Z) (rest : list Z)
| EIoapic (apicno : Z) (rest : list Z)
| EOther (type : Z) (rest : list Z).

Definition entry_bytes (x : entry) : list Z :=
  match x with
  | EProc id l => [MPPROC; id] ++ l
  | EIoapic no l => [MPIOAPIC; no] ++ l
  | EOther t l => t :: l
  end.

Definition entry_ok (x : entry) : Prop :=
  match x with
  | EProc _ l => length l = 18%nat
  | EIoapic _ l => length l = 6%nat
  | EOther t l => (t = MPBUS ∨ t = MPIOINTR ∨ t = MPLINTR) ∧ length l = 7%nat
  end.

Definition table_bytes (es : list entry) : list Z := concat (entry_bytes <$> es).

(** The ids of the processors, and of the last I/O APIC. *)
Definition procs (es : list entry) : list Z := omap (λ x, match x with EProc id _ => Some id | _ => None end) es.
Definition ioapics (es : list entry) : list Z := omap (λ x, match x with EIoapic no _ => Some no | _ => None end) es.

(** The bytes [l] are in memory from [p] on. *)
Definition at_mem (m : mem) (p : Z) (l : list Z) : Prop := ∀ k b, l !! k = Some b → m (p + Z.of_nat k) = b.

Lemma at_mem_app m p l l' : at_mem m p (l ++ l') ↔ at_mem m p l ∧ at_mem m (p + Z.of_nat (length l)) l'.
Proof.
  split.
  - intros H. split; intros k b Hk.
    + apply H. by apply lookup_app_l_Some.
    + replace (p + Z.of_nat (length l) + Z.of_nat k) with (p + Z.of_nat (length l + k)) by lia. apply H.
      rewrite lookup_app_r by lia. by replace (length l + k - length l)%nat with k by lia.
  - intros [H H'] k b Hk. apply lookup_app_Some in Hk as [Hk|[Hle Hk]]; [by apply H|].
    replace (p + Z.of_nat k) with (p + Z.of_nat (length l) + Z.of_nat (k - length l)) by lia. by apply H'.
Qed.

(** The globals after entry [x]. *)
Definition see (x : entry) (s : mpst) : mpst :=
  match x with
  | EProc id _ => if bool_decide (ncpu s < Z.of_nat NCPU) then add_cpu id s else s
  | EIoapic no _ => set_ioapicid no s
  | EOther _ _ => s
  end.

Lemma see_mem x s : mmem (see x s) = mmem s.
Proof. destruct x; [|done|done]. cbn. by case_bool_decide. Qed.

Lemma mpinit_turn fuel p e x s :
  entry_ok x → at_mem (mmem s) p (entry_bytes x) → p < e →
  mpinit_loop (S fuel) p e true s = mpinit_loop fuel (p + Z.of_nat (length (entry_bytes x))) e true (see x s).
Proof.
  intros Hx Hm Hlt. cbn [mpinit_loop]. rewrite bool_decide_eq_true_2 by done. rewrite (bind_step (gets mmem) _ s _ _ eq_refl).
  assert (Ht : ∀ b l, entry_bytes x = b :: l → mmem s p = b).
  { intros b l E. rewrite E in Hm. specialize (Hm 0%nat b eq_refl). by rewrite Z.add_0_r in Hm. }
  assert (Hid : ∀ a b l, entry_bytes x = a :: b :: l → mmem s (p + 1) = b).
  { intros a b l E. rewrite E in Hm. by specialize (Hm 1%nat b eq_refl). }
  destruct x as [id l|no l|t l]; cbn [entry_ok entry_bytes app length] in *.
  - rewrite (Ht _ _ eq_refl), (Hid _ _ _ eq_refl), Hx. rewrite (bool_decide_eq_true_2 (MPPROC = MPPROC)) by done. unfold see.
    rewrite (bind_step (gets ncpu) _ s _ _ eq_refl). by case_bool_decide.
  - rewrite (Ht _ _ eq_refl), (Hid _ _ _ eq_refl), Hx. done.
  - rewrite (Ht _ _ eq_refl). destruct Hx as [Ho ->]. by destruct Ho as [->|[->| ->]].
Qed.

Lemma mpinit_loop_spec es : ∀ fuel p s,
  Forall entry_ok es → at_mem (mmem s) p (table_bytes es) → (length es < fuel)%nat →
  mpinit_loop fuel p (p + Z.of_nat (length (table_bytes es))) true s = Ok true (foldl (λ s x, see x s) s es).
Proof.
  induction es as [|x es IH]; intros fuel p s Hes Hm Hf; (destruct fuel as [|fuel]; [simpl in Hf; lia|]).
  - cbn. rewrite bool_decide_eq_false_2 by lia. done.
  - apply Forall_cons in Hes as [Hx Hes]. unfold table_bytes in *. cbn [fmap list_fmap concat] in *.
    rewrite length_app in *. apply at_mem_app in Hm as [Hm1 Hm2].
    assert (Hpos : (0 < length (entry_bytes x))%nat) by (destruct x; simpl; lia).
    rewrite (mpinit_turn _ _ _ x) by (done || lia). cbn [foldl].
    replace (p + Z.of_nat (length (entry_bytes x) + length (concat (entry_bytes <$> es)))) with
      (p + Z.of_nat (length (entry_bytes x)) + Z.of_nat (length (concat (entry_bytes <$> es)))) by lia.
    apply IH; [done|by rewrite see_mem|simpl in Hf; lia].
Qed.

(** The globals after all entries. *)
Definition room (s : mpst) : nat := NCPU - Z.to_nat (ncpu s).

Lemma see_all es : ∀ s, 0 ≤ ncpu s ≤ Z.of_nat NCPU → length (cpus s) = NCPU →
  let s' := foldl (λ s x, see x s) s es in
  let new := take (room s) (procs es) in
  ncpu s' = ncpu s + Z.of_nat (length new) ∧
  cpus s' = take (Z.to_nat (ncpu s)) (cpus s) ++ new ++ drop (Z.to_nat (ncpu s) + length new) (cpus s) ∧
  ioapicid s' = default (ioapicid s) (last (ioapics es)) ∧ lapic s' = lapic s ∧ mmem s' = mmem s ∧
  imcr s' = imcr s ∧ outs s' = outs s.
Proof.
  induction es as [|x es IH]; intros s Hn Hl; cbn [foldl].
  { unfold procs. cbn. rewrite take_nil. cbn. rewrite Nat.add_0_r, take_drop. split_and!; (done || lia). }
  destruct x as [id l|no l|t l]; cbn [see].
  - case_bool_decide as Hlt; cbn [procs ioapics omap list_omap].
    + destruct (IH (add_cpu id s)) as (E1 & E2 & E3 & E4 & E5 & E6 & E7); [cbn; lia|cbn; by rewrite length_insert|].
      fold (procs es) (ioapics es) in *.
      assert (Er : room s = S (room (add_cpu id s))) by (unfold room, NCPU in *; cbn; lia).
      rewrite E1, E2, E3, E4, E5, E6, E7, Er. cbn [add_cpu ncpu cpus ioapicid lapic mmem imcr outs take length].
      split_and!; [lia| |done..].
      replace (Z.to_nat (ncpu s + 1)) with (S (Z.to_nat (ncpu s))) by lia.
      rewrite (take_S_r _ _ id) by (apply list_lookup_insert_eq; rewrite Hl; lia). rewrite take_insert_ge by lia.
      rewrite drop_insert_lt by lia. rewrite <- !app_assoc. cbn [app]. do 4 f_equal. lia.
    + assert (Er : room s = 0%nat) by (unfold room; lia). destruct (IH s Hn Hl) as (E1 & E2 & E3 & E4).
      fold (procs es) (ioapics es). rewrite Er in *. by rewrite !take_0 in *.
  - destruct (IH (set_ioapicid no s)) as (E1 & E2 & E3 & E4 & E5 & E6 & E7); [done..|].
    cbn [procs ioapics omap list_omap]. fold (procs es) (ioapics es). split_and!; try done.
    rewrite E3. change (omap _ es) with (ioapics es). rewrite last_cons. by destruct (last (ioapics es)).
  - exact (IH s Hn Hl).
Qed.

(** ** [mpinit] *)

Lemma first_mp_unique m a len r r' : first_mp m a len r → first_mp m a len r' → r = r'.
Proof.
  destruct r as [p|], r' as [p'|]; simpl; [| | |done].
  - intros (k & Hk & Hl & -> & Hv & Hno) (k' & Hk' & Hl' & -> & Hv' & Hno').
    destruct (decide (k < k')); [by destruct (Hno' k ltac:(lia))|].
    destruct (decide (k' < k)); [by destruct (Hno k' ltac:(lia))|]. by replace k' with k by lia.
  - intros (k & Hk & Hl & -> & Hv & _) Hn. by destruct (Hn k Hk Hl).
  - intros Hn (k & Hk & Hl & -> & Hv & _). by destruct (Hn k Hk Hl).
Qed.

(** The floating pointer structure that [mpsearch] must find. *)
Definition mp_at (m : mem) (p : Z) : Prop :=
  first_mp m (first_area m) 1024 (Some p) ∨
  first_mp m (first_area m) 1024 None ∧ first_mp m (P2V 0xF0000) 0x10000 (Some p).

Lemma mpsearch_finds s p : mp_at (mmem s) p → mpsearch s = Ok (Some p) s.
Proof.
  intros Hp. destruct (mpsearch_spec s) as (r & -> & Hr). f_equal. destruct Hp as [Hp|[Hn Hp]].
  - destruct r as [q|]; [|by destruct Hr as [Hr _]; pose proof (first_mp_unique _ _ _ _ _ Hp Hr)].
    destruct Hr as [Hr|[Hr _]]; [by eapply first_mp_unique|by pose proof (first_mp_unique _ _ _ _ _ Hp Hr)].
  - destruct r as [q|]; [|by destruct Hr as [_ Hr]; pose proof (first_mp_unique _ _ _ _ _ Hp Hr)].
    destruct Hr as [Hr|[_ Hr]]; [by pose proof (first_mp_unique _ _ _ _ _ Hn Hr)|by eapply first_mp_unique].
Qed.

(** The tables in memory: the structure at [mp], the configuration table at [conf]
    and after its header the entries [es], and the bytes [rest]. *)
Record firmware (m : mem) (mp conf : Z) (es : list entry) (rest : list Z) : Prop := Firmware {
  fw_mp : mp_at m mp;
  fw_addr : get32 m (mp + 4) ≠ 0;
  fw_conf : conf = P2V (get32 m (mp + 4));
  fw_sig : bytes m conf 4 = PCMP_SIG;
  fw_length : get16 m (conf + 4) = SIZEOF_MPCONF + Z.of_nat (length (table_bytes es ++ rest));
  fw_version : m (conf + 6) = 1 ∨ m (conf + 6) = 4;
  fw_sum : sum conf (get16 m (conf + 4)) m = 0;
  fw_entries : Forall entry_ok es;
  fw_table : at_mem m (conf + SIZEOF_MPCONF) (table_bytes es ++ rest);
}.

Lemma mpconfig_finds s mp conf es rest : firmware (mmem s) mp conf es rest → mpconfig s = Ok (Some (mp, conf)) s.
Proof.
  intros []. unfold mpconfig. rewrite (bind_step _ _ _ _ _ (mpsearch_finds s mp fw_mp0)).
  rewrite (bind_step (gets mmem) _ s _ _ eq_refl). rewrite (bool_decide_eq_false_2 _ fw_addr0). cbn zeta. rewrite <- fw_conf0.
  unfold same. cbn [length PCMP_SIG]. rewrite (bool_decide_eq_true_2 _ fw_sig0). cbn [negb].
  rewrite bool_decide_eq_false_2 by tauto. rewrite bool_decide_eq_false_2 by naive_solver. done.
Qed.

(** C39: When the firmware has left its tables where [mpsearch] looks, in the first
    kilobyte of the extended BIOS data area or, without one, the last kilobyte of base
    memory, or else at 0xF0000 to 0xFFFFF, and there is a valid configuration table with
    entries of the five known types only, in any number and order, [mpinit] returns with the processors of the table in its order,
    at most [NCPU] of them, the last I/O APIC and the address of the local APIC.  With
    an entry of another type it does not return: see [mpinit_unknown_spins]. *)
Theorem mpinit_finds_processors fuel s mp conf es :
  firmware (mmem s) mp conf es [] → ncpu s = 0 → length (cpus s) = NCPU → (length es < fuel)%nat →
  ∃ s', mpinit fuel s = Ok tt s' ∧ ncpu s' = Z.min (Z.of_nat NCPU) (Z.of_nat (length (procs es))) ∧
    take (Z.to_nat (ncpu s')) (cpus s') = take NCPU (procs es) ∧ length (cpus s') = NCPU ∧
    ioapicid s' = default (ioapicid s) (last (ioapics es)) ∧ lapic s' = get32 (mmem s) (conf + 36).
Proof.
  intros Hfw Hn Hl Hf. set (s1 := set_lapic (get32 (mmem s) (conf + 36)) s).
  destruct (see_all es s1) as (E1 & E2 & E3 & E4 & E5 & E6 & E7); [cbn; lia|done|].
  set (s2 := foldl (λ s x, see x s) s1 es) in *. set (new := take (room s1) (procs es)) in *.
  assert (Hnew : new = take NCPU (procs es)) by (unfold new, room; cbn [s1 set_lapic ncpu]; by rewrite Hn).
  change (ncpu s1) with (ncpu s) in *. change (cpus s1) with (cpus s) in *. rewrite Hn in E1, E2. change (Z.to_nat 0) with 0%nat in *.
  rewrite take_0, Nat.add_0_l in E2. cbn [app] in E2. rewrite Z.add_0_l in E1.
  assert (Hlen : (length new ≤ NCPU)%nat) by (rewrite Hnew, length_take; lia).
  unfold mpinit. rewrite (bind_step _ _ _ _ _ (mpconfig_finds _ _ _ _ _ Hfw)), (bind_step (gets mmem) _ s _ _ eq_refl).
  rewrite (bind_step (modify (set_lapic (get32 (mmem s) (conf + 36)))) _ s tt s1 eq_refl).
  assert (El : mpinit_loop fuel (conf + SIZEOF_MPCONF) (conf + get16 (mmem s) (conf + 4)) true s1 = Ok true s2).
  { destruct Hfw. rewrite fw_length0. rewrite app_nil_r in *. rewrite Z.add_assoc. by apply mpinit_loop_spec. }
  rewrite (bind_step _ _ _ _ _ El). cbn [negb].
  assert (Hcpus : take (length new) (cpus s2) = take NCPU (procs es) ∧ length (cpus s2) = NCPU).
  { rewrite E2. split; [by rewrite take_app_length|]. rewrite length_app, length_drop. lia. }
  assert (Hmin : ncpu s2 = Z.min (Z.of_nat NCPU) (Z.of_nat (length (procs es)))) by (rewrite E1, Hnew, length_take; lia).
  case_bool_decide; eexists; (split; [reflexivity|]); cbn [ncpu cpus ioapicid lapic];
    rewrite E1, Nat2Z.id in *; split_and!; try done; apply Hcpus.
Qed.

(** An entry of an unknown type is never passed. *)
Lemma mpinit_loop_unknown fuel : ∀ p e b s, p < e → ¬ (0 ≤ mmem s p ≤ 4) → mpinit_loop fuel p e b s = Spin s.
Proof.
  induction fuel as [|fuel IH]; intros p e b s Hlt Ht; [done|]. cbn [mpinit_loop].
  rewrite bool_decide_eq_true_2 by done. rewrite (bind_step (gets mmem) _ s _ _ eq_refl).
  unfold MPPROC, MPIOAPIC, MPBUS, MPIOINTR, MPLINTR. rewrite !bool_decide_eq_false_2 by lia. cbn [orb]. by apply IH.
Qed.

Lemma mpinit_loop_stuck es : ∀ fuel p e t s,
  Forall entry_ok es → at_mem (mmem s) p (table_bytes es ++ [t]) → p + Z.of_nat (length (table_bytes es)) < e →
  ¬ (0 ≤ t ≤ 4) → ∃ s', mpinit_loop fuel p e true s = Spin s'.
Proof.
  induction es as [|x es IH]; intros fuel p e t s Hes Hm Hlt Ht.
  - exists s. apply mpinit_loop_unknown; [simpl in Hlt; lia|]. specialize (Hm 0%nat t eq_refl).
    rewrite Z.add_0_r in Hm. by rewrite Hm.
  - apply Forall_cons in Hes as [Hx Hes]. unfold table_bytes in *. cbn [fmap list_fmap concat] in *.
    rewrite length_app in Hlt. rewrite <- app_assoc in Hm. apply at_mem_app in Hm as [Hm1 Hm2].
    assert (Hpos : (0 < length (entry_bytes x))%nat) by (destruct x; simpl; lia).
    destruct fuel as [|fuel]; [by exists s|]. rewrite (mpinit_turn _ _ _ x) by (done || lia).
    apply (IH _ _ _ t); [done|by rewrite see_mem|lia|done].
Qed.

(** When the table has an entry of an unknown type, [mpinit] never returns,
    although it has a panic for this case. *)
Theorem mpinit_unknown_spins fuel s mp conf es t rest :
  firmware (mmem s) mp conf es (t :: rest) → ¬ (0 ≤ t ≤ 4) → ∃ s', mpinit fuel s = Spin s'.
Proof.
  intros Hfw Ht. unfold mpinit. rewrite (bind_step _ _ _ _ _ (mpconfig_finds _ _ _ _ _ Hfw)), (bind_step (gets mmem) _ s _ _ eq_refl).
  rewrite (bind_step (modify (set_lapic (get32 (mmem s) (conf + 36)))) _ s tt _ eq_refl). destruct Hfw.
  destruct (mpinit_loop_stuck es fuel (conf + SIZEOF_MPCONF) (conf + get16 (mmem s) (conf + 4)) t
    (set_lapic (get32 (mmem s) (conf + 36)) s)) as [s' E]; [done| | |done|].
  - cbn [set_lapic mmem]. replace (table_bytes es ++ t :: rest) with ((table_bytes es ++ [t]) ++ rest) in fw_table0 by (by rewrite <- app_assoc).
    by apply at_mem_app in fw_table0 as [? _].
  - rewrite fw_length0, length_app. simpl. lia.
  - exists s'. unfold mbind, M_bind. by rewrite E.
Qed.

(** ** A machine with two processors *)

Lemma at_mem_bytes m p l : bytes m p (length l) = l → at_mem m p l.
Proof.
  intros E k b Hk. rewrite <- E in Hk. unfold bytes in Hk. rewrite list_lookup_fmap in Hk.
  apply fmap_Some in Hk as (a & Ha & ->). apply lookup_seqZ in Ha as [-> _]. done.
Qed.

(** The bytes [l] at address [a]. *)
Definition load (a : Z) (l : list Z) (m : mem) : mem := λ x,
  if bool_decide (a ≤ x < a + Z.of_nat (length l)) then nth (Z.to_nat (x - a)) l 0 else m x.

Definition demo_mp : list Z := [95; 77; 80; 95; 0; 0; 16; 0; 1; 4; 144; 0; 0; 0; 0; 0].
Definition demo_header (n c : Z) : list Z :=
  [80; 67; 77; 80; n; 0; 4; c] ++ replicate 26 0 ++ [4; 0; 0; 0; 224; 254; 0; 0; 0; 0].
Definition demo_entries : list entry :=
  [EProc 0 (replicate 18 17); EProc 1 (replicate 18 17); EOther MPBUS (replicate 7 9); EIoapic 5 (replicate 6 3)].

(** The EBDA has the pointer structure, and 1 MB the table. *)
Definition demo_mem (header rest : list Z) : mem :=
  load (P2V 0x40E) [0xC0; 0x9F] (load (P2V 0x9FC00) demo_mp
    (load (P2V 0x100000) (header ++ table_bytes demo_entries ++ rest) (λ _, 0))).

Definition demo_mpst (m : mem) : mpst := Mpst m (replicate NCPU 0) 0 0 0 [] 0.

Lemma demo_firmware header rest :
  let m := demo_mem header rest in
  valid_mp m (P2V 0x9FC00) → first_area m = P2V 0x9FC00 → get32 m (P2V 0x9FC00 + 4) = 0x100000 →
  bytes m (P2V 0x100000) 4 = PCMP_SIG →
  get16 m (P2V 0x100000 + 4) = SIZEOF_MPCONF + Z.of_nat (length (table_bytes demo_entries ++ rest)) →
  m (P2V 0x100000 + 6) = 4 → sum (P2V 0x100000) (get16 m (P2V 0x100000 + 4)) m = 0 →
  bytes m (P2V 0x100000 + SIZEOF_MPCONF) (length (table_bytes demo_entries ++ rest)) = table_bytes demo_entries ++ rest →
  firmware m (P2V 0x9FC00) (P2V 0x100000) demo_entries rest.
Proof.
  intros m Hv Ha E4 Hs Hl H6 Hsum Hb. split; [| | |exact Hs|exact Hl|by right|exact Hsum| |by apply at_mem_bytes].
  - left. rewrite Ha. exists 0. rewrite Z.mul_0_r, Z.add_0_r. split_and!; [lia|lia|reflexivity|exact Hv|intros; lia].
  - rewrite E4. discriminate.
  - rewrite E4. reflexivity.
  - unfold demo_entries. repeat (apply Forall_cons; split); [done|done|split; [by left|done]|done|by apply Forall_nil].
Qed.

Definition smp_mem : mem := demo_mem (demo_header 100 200) [].
Definition odd_mem : mem := demo_mem (demo_header 101 192) [7].

Lemma smp_firmware : firmware smp_mem (P2V 0x9FC00) (P2V 0x100000) demo_entries [].
Proof. apply demo_firmware; [split|..]; vm_compute; reflexivity. Qed.

Lemma odd_firmware : firmware odd_mem (P2V 0x9FC00) (P2V 0x100000) demo_entries [7].
Proof. apply demo_firmware; [split|..]; vm_compute; reflexivity. Qed.

Lemma mpinit_finds_processors_witness :
  ∃ s', mpinit 10 (demo_mpst smp_mem) = Ok tt s' ∧ ncpu s' = 2 ∧ take 2 (cpus s') = [0; 1] ∧ ioapicid s' = 5.
Proof.
  destruct (mpinit_finds_processors 10 (demo_mpst smp_mem) _ _ _ smp_firmware eq_refl eq_refl) as (s' & E & En & Ec & _ & Ei & _).
  - cbn. lia.
  - exists s'. split; [exact E|]. split; [exact En|]. split; [|exact Ei]. rewrite En in Ec. exact Ec.
Defined.

Lemma mpinit_unknown_spins_witness : ∃ s', mpinit 1000 (demo_mpst odd_mem) = Spin s'.
Proof. apply (mpinit_unknown_spins 1000 (demo_mpst odd_mem) _ _ _ 7 [] odd_firmware). lia. Defined.

End Mp.
