(* ===== verification/Boot.v ===== *)
(** * The boot loader

    [src/bootmain.c]: reads the kernel, an ELF file, from the first disk and puts
    its segments where they belong.  The disk is the device of [Ide]; memory maps
    physical addresses to bytes. *)

From S2P Require Import Prelude Strings Bio Ide Mp.

Module Boot.
Import Ide.

Abbreviation get16 := Mp.get16.
Abbreviation get32 := Mp.get32.
Abbreviation load := Mp.load.

Definition SECTSIZE : Z := 512.
Definition ELF_MAGIC : Z := 0x464C457F.

(** The address of the ELF header, in memory that is not otherwise used. *)
Definition SCRATCH : Z := 0x10000.

Section Boot.

Context {D : Type} `{Ata D}.

Record bst : Type := Bst { bdev : D; bmem : mem }.

Definition set_bdev (d : D) (s : bst) : bst := Bst d (bmem s).
Definition set_bmem (m : mem) (s : bst) : bst := Bst (bdev s) m.

Definition inb (port : Z) : M bst Z := λ s, let x := port_in port (bdev s) in Ok x.1 (set_bdev x.2 s).
Definition outb (port data : Z) : M bst unit := modify (λ s, set_bdev (port_out port (u8 data) (bdev s)) s).
(** [insl] to address [addr]. *)
Definition insl (port addr : Z) (cnt : nat) : M bst unit := λ s,
  let x := port_insl port cnt (bdev s) in Ok tt (Bst x.2 (load addr x.1 (bmem s))).

(** [fuel] bounds the number of times the status is read. *)
Fixpoint waitdisk (fuel : nat) : M bst unit :=
  match fuel with
  | O => spin
  | S fuel =>
      r ← inb 0x1F7;
      if bool_decide (Z.land r 0xC0 ≠ 0x40) then waitdisk fuel else mret tt
  end.

Definition readsect (fuel : nat) (dst offset : Z) : M bst unit :=
  waitdisk fuel ;;
  outb 0x1F2 1 ;;
  outb 0x1F3 offset ;;
  outb 0x1F4 (Z.shiftr offset 8) ;;
  outb 0x1F5 (Z.shiftr offset 16) ;;
  outb 0x1F6 (Z.lor (Z.shiftr offset 24) 0xE0) ;;
  outb 0x1F7 0x20 ;;
  waitdisk fuel ;;
  insl 0x1F0 dst (Z.to_nat (SECTSIZE / 4)).

(** The loop of [readseg]: a turn for every sector. *)
Fixpoint readseg_loop (n fuel : nat) (pa epa offset : Z) : M bst unit :=
  match n with
  | O => spin
  | S n =>
      if bool_decide (pa < epa) then
        readsect fuel pa offset ;;
        readseg_loop n fuel (u32 (pa + SECTSIZE)) epa (u32 (offset + 1))
      else mret tt
  end.

(** [readseg]; the loop ends within that many turns unless a pointer wraps around. *)
Definition readseg (fuel : nat) (pa count offset : Z) : M bst unit :=
  let epa := u32 (pa + count) in
  let pa := u32 (pa - offset mod SECTSIZE) in
  let offset := u32 (offset / SECTSIZE + 1) in
  readseg_loop (S (Z.to_nat (epa - pa))) fuel pa epa offset.

(** The loop over the program headers, which are read where they are in memory; the
    pointer reaches [eph] after [phnum] turns. *)
Fixpoint load_segments (n fuel : nat) (ph eph : Z) : M bst unit :=
  match n with
  | O => mret tt
  | S n =>
      if bool_decide (eph ≤ ph) then mret tt else
      m ← gets bmem;
      let pa := get32 m (ph + 12) in
      let filesz := get32 m (ph + 16) in
      readseg fuel pa filesz (get32 m (ph + 4)) ;;
      m ← gets bmem;
      let memsz := get32 m (ph + 20) in
      let filesz := get32 m (ph + 16) in
      (if bool_decide (filesz < memsz)
       then modify (λ s, set_bmem (stosb (u32 (pa + filesz)) 0 (Z.to_nat (memsz - filesz)) (bmem s)) s) else mret tt) ;;
      load_segments n fuel (u32 (ph + 32)) eph
  end.

(** [bootmain]: the entry point of the kernel, where it goes on. *)
Definition bootmain (fuel : nat) : M bst (option Z) :=
  let elf := SCRATCH in
  readseg fuel elf 4096 0 ;;
  m ← gets bmem;
  if bool_decide (get32 m elf ≠ ELF_MAGIC) then mret None else
  let ph := u32 (elf + get32 m (elf + 28)) in
  let eph := u32 (ph + 32 * get16 m (elf + 44)) in
  load_segments (Z.to_nat (get16 m (elf + 44))) fuel ph eph ;;
  m ← gets bmem;
  mret (Some (get32 m (elf + 24))).

End Boot.

Arguments bst : clear implicits.

End Boot.
