(* ===== verification/BootThm.v ===== *)
(** * What the boot loader loads

    The segments of the kernel are in memory when [bootmain] jumps to its entry
    point, provided that no segment is overwritten by the whole sectors of the
    later ones: "we load in increasing order". *)

From Stdlib Require Import Sorting.Sorted.
From S2P Require Import Prelude Strings Bio Ide IdeThm Mp Boot.

Module BootThm.
Import Ide Boot.

(** ** The registers *)

Lemma lba_offset (r : Z → Z) n :
  0 ≤ n < 2 ^ 28 → r 0x1f3 = u8 n → r 0x1f4 = u8 (Z.shiftr n 8) → r 0x1f5 = u8 (Z.shiftr n 16) →
  r 0x1f6 = u8 (Z.lor (Z.shiftr n 24) 0xE0) → lba r = n ∧ drive r = 0.
Proof.
  intros Hn E3 E4 E5 E6. set (h := Z.shiftr n 24) in *.
  assert (Hh : 0 ≤ h < 16) by (unfold h; rewrite Z.shiftr_div_pow2 by lia; split; [apply Z.div_pos; lia|apply Z.div_lt_upper_bound; lia]).
  assert (Hlow : Z.land (u8 (Z.lor h 0xE0)) 0x0f = h ∧ Z.land (Z.shiftr (u8 (Z.lor h 0xE0)) 4) 1 = 0).
  { assert (Hall : Forall (λ h, Z.land (u8 (Z.lor h 0xE0)) 0x0f = h ∧ Z.land (Z.shiftr (u8 (Z.lor h 0xE0)) 4) 1 = 0) (seqZ 0 16)).
    { apply (bool_decide_unpack _). vm_compute. exact I. }
    rewrite Forall_forall in Hall. apply Hall, elem_of_seqZ. lia. }
  split; [|unfold drive; rewrite E6; apply Hlow]. unfold lba. rewrite E3, E4, E5, E6, (proj1 Hlow). unfold u8, h.
  rewrite !Z.shiftr_div_pow2 by lia.
  pose proof (Z.div_mod n (2 ^ 8) ltac:(lia)). pose proof (Z.div_mod (n / 2 ^ 8) (2 ^ 8) ltac:(lia)).
  pose proof (Z.div_mod (n / 2 ^ 16) (2 ^ 8) ltac:(lia)).
  rewrite (Z.div_div n (2 ^ 8) (2 ^ 8)) in * by lia. rewrite (Z.div_div n (2 ^ 16) (2 ^ 8)) in * by lia.
  change (2 ^ 8 * 2 ^ 8) with (2 ^ 16) in *. change (2 ^ 16 * 2 ^ 8) with (2 ^ 24) in *. lia.
Qed.

Section Thm.

Context {D : Type} {ATA : Ata D} {LAWS : AtaLaws D}.
Context (Hdrives : present 0 = true ∧ present 1 = true).
Implicit Types s : bst D.

Lemma waitdisk_loop n : ∀ s, (busy (bdev s) < n)%nat → ∃ d, waitdisk n s = Ok tt (set_bdev d s) ∧ view d = view (bdev s) ∧ busy d = 0%nat.
Proof using Hdrives.
  induction n as [|n IH]; intros s Hn; [lia|]. cbn [waitdisk]. unfold Boot.inb, mbind, M_bind.
  pose proof (in_status (bdev s)) as Hv. pose proof (in_present (bdev s) (IdeThm.drive_present Hdrives _)) as [_ Hp].
  destruct (port_in 0x1F7 (bdev s)) as [r d]. cbn [fst snd] in *. unfold is_ready in Hp.
  change (Z.lor IDE_BSY IDE_DRDY) with 0xC0 in Hp. change IDE_DRDY with 0x40 in Hp.
  destruct (decide (Z.land r 0xC0 = 0x40)) as [E|Hne].
  - rewrite bool_decide_eq_false_2 by tauto. exists d. by destruct Hp.
  - rewrite bool_decide_eq_true_2 by done. destruct (IH (set_bdev d s)) as (d' & E & Ev & Hb); [cbn; lia|].
    exists d'. by rewrite E, Ev.
Qed.

Context (fuel : nat) (Hfuel : (delay < fuel)%nat).

Lemma waitdisk_ok s : ∃ d, waitdisk fuel s = Ok tt (set_bdev d s) ∧ view d = view (bdev s) ∧ busy d = 0%nat.
Proof using Hdrives Hfuel. apply waitdisk_loop. pose proof (busy_delay (bdev s)). lia. Qed.

(** The disk is as before, and no command has failed. *)
Definition same_disk (d d' : D) : Prop := a_disk (view d') = a_disk (view d) ∧ a_fault (view d') = false.

Lemma readsect_ok s dst n :
  0 ≤ n < 2 ^ 28 → a_fault (view (bdev s)) = false →
  ∃ d, readsect fuel dst n s = Ok tt (Bst d (load dst (a_disk (view (bdev s)) 0 n) (bmem s))) ∧ same_disk (bdev s) d.
Proof using Hdrives Hfuel.
  intros Hn Hfault. unfold readsect. destruct (waitdisk_ok s) as (d0 & E0 & Ev0 & Hb0). rewrite (bind_step _ _ _ _ _ E0).
  unfold Boot.outb. unfold mbind at 1 2 3 4 5 6, M_bind at 1 2 3 4 5 6, modify at 1 2 3 4 5 6. cbn [bdev set_bdev].
  change (u8 32) with IDE_CMD_READ. change (u8 1) with 1.
  set (d1 := port_out 0x1f2 1 d0). set (d2 := port_out 0x1f3 (u8 n) d1). set (d3 := port_out 0x1f4 _ d2).
  set (d4 := port_out 0x1f5 _ d3). set (d5 := port_out 0x1f6 _ d4).
  assert (Hb5 : busy d5 = 0%nat) by (unfold d5, d4, d3, d2, d1; auto 10 using out_calm with lia).
  assert (Ev5 : view d5 = with_reg 0x1f6 (u8 (Z.lor (Z.shiftr n 24) 0xE0)) (with_reg 0x1f5 (u8 (Z.shiftr n 16))
    (with_reg 0x1f4 (u8 (Z.shiftr n 8)) (with_reg 0x1f3 (u8 n) (with_reg 0x1f2 1 (view (bdev s))))))).
  { unfold d5, d4, d3, d2, d1. rewrite !out_reg by (lia || auto 10 using out_calm with lia). by rewrite Ev0. }
  assert (Hr : a_regs (view d5) 0x1f2 = 1 ∧ lba (a_regs (view d5)) = n ∧ drive (a_regs (view d5)) = 0).
  { rewrite Ev5. split; [done|]. by apply lba_offset. }
  destruct Hr as (H1 & Hlba & Hdr). pose proof (out_read d5 Hb5 H1) as Er. rewrite Hlba, Hdr in Er.
  set (s6 := set_bdev _ _). destruct (waitdisk_ok s6) as (d7 & E7 & Ev7 & Hb7).
  change (bdev s6) with (port_out 0x1f7 IDE_CMD_READ d5) in Ev7. rewrite Er in Ev7.
  rewrite (bind_step _ _ _ _ _ E7). unfold Boot.insl. change (Z.to_nat (SECTSIZE / 4)) with 128%nat. cbn [bdev set_bdev].
  destruct (insl_data 0 n d7 Hb7) as [Ed Ev8]; [by rewrite Ev7|by rewrite Ev7, Ev5|].
  exists (port_insl 0x1f0 128 d7).2. split; [by rewrite Ed, Ev7, Ev5|]. unfold same_disk. by rewrite Ev8, Ev7, Ev5.
Qed.

(** ** Whole sectors *)

(** The bytes of the kernel, which begins at sector 1 of the disk. *)
Definition kbyte (disk : Z → list Z) : mem := λ o, nth (Z.to_nat (o mod SECTSIZE)) (disk (o / SECTSIZE + 1)) 0.

(** The number of sectors that [c] bytes take. *)
Definition sectors (c : Z) : Z := Z.max 0 ((c + SECTSIZE - 1) / SECTSIZE).

Lemma sectors_step c : 0 < c → sectors c = 1 + sectors (c - SECTSIZE).
Proof.
  unfold sectors, SECTSIZE. intros Hc. replace (c + 512 - 1) with (c - 512 + 512 - 1 + 1 * 512) by lia.
  rewrite Z.div_add by lia. assert (0 ≤ (c - 512 + 512 - 1) / 512) by (apply Z.div_pos; lia). lia.
Qed.

Lemma sectors_none c : c ≤ 0 → sectors c = 0.
Proof.
  unfold sectors, SECTSIZE. intros Hc. assert ((c + 512 - 1) / 512 < 1) by (apply Z.div_lt_upper_bound; lia). lia.
Qed.

Lemma sectors_enough c : c ≤ SECTSIZE * sectors c < Z.max 0 c + SECTSIZE.
Proof.
  unfold sectors, SECTSIZE. pose proof (Z.div_mod (c + 512 - 1) 512 ltac:(lia)). pose proof (Z.mod_pos_bound (c + 512 - 1) 512 eq_refl). lia.
Qed.

Definition disk_of (d : D) : Z → list Z := a_disk (view d) 0.

(** A disk whose commands succeed, with sectors of 512 bytes. *)
Definition good (d : D) : Prop := a_fault (view d) = false ∧ ∀ n, length (disk_of d n) = Z.to_nat SECTSIZE.

Lemma good_same d d' : good d → same_disk d d' → good d' ∧ disk_of d' = disk_of d.
Proof. intros [Hf Hl] [E Hf']. unfold good, disk_of in *. by rewrite E. Qed.

Lemma readseg_loop_ok n : ∀ s pa epa k,
  good (bdev s) → 0 ≤ k → k + sectors (epa - pa) < 2 ^ 28 - 1 → (0 < n)%nat → sectors (epa - pa) ≤ Z.of_nat n - 1 →
  0 ≤ pa → pa + SECTSIZE * sectors (epa - pa) < 2 ^ 32 →
  ∃ s', readseg_loop n fuel pa epa (k + 1) s = Ok tt s' ∧ good (bdev s') ∧ disk_of (bdev s') = disk_of (bdev s) ∧
    ∀ x, bmem s' x = if bool_decide (pa ≤ x < pa + SECTSIZE * sectors (epa - pa))
                     then kbyte (disk_of (bdev s)) (SECTSIZE * k + (x - pa)) else bmem s x.
Proof using Hdrives Hfuel.
  induction n as [|n IH]; intros s pa epa k Hg Hk Hmax Hpos Hn Hpa Htop; [lia|]. cbn [readseg_loop].
  case_bool_decide as Hlt.
  2: { exists s. split_and!; [done..|]. intros x. rewrite sectors_none by lia. by rewrite bool_decide_eq_false_2 by lia. }
  rewrite sectors_step in * by lia. replace (epa - pa - SECTSIZE) with (epa - (pa + SECTSIZE)) in * by lia.
  assert (0 ≤ sectors (epa - (pa + SECTSIZE))) by (unfold sectors; lia).
  destruct (readsect_ok s pa (k + 1)) as (d & E & Hs); [lia|apply Hg|].
  destruct (good_same _ _ Hg Hs) as [Hg1 Ed1]. rewrite (bind_step _ _ _ _ _ E). rewrite !u32_small by (unfold SECTSIZE in *; lia).
  destruct (IH (Bst d (load pa (disk_of (bdev s) (k + 1)) (bmem s))) (pa + SECTSIZE) epa (k + 1)) as (s' & E' & Hg' & Ed' & Hm);
    [done|unfold SECTSIZE in *; lia..|].
  exists s'. split_and!; [done|done|by rewrite Ed'|]. intros x. rewrite Hm. cbn [bdev bmem]. rewrite Ed1. unfold load, Mp.load.
  rewrite (proj2 Hg), Z2Nat.id by done. unfold SECTSIZE in *.
  destruct (decide (pa ≤ x < pa + 512)) as [Hin|Hout].
  - rewrite bool_decide_eq_false_2, !bool_decide_eq_true_2 by lia. unfold kbyte, SECTSIZE.
    replace (512 * k + (x - pa)) with (x - pa + k * 512) by lia.
    rewrite Z.mod_add, Z.div_add, Z.mod_small, Z.div_small by lia. by rewrite Z.add_0_l.
  - destruct (decide (pa ≤ x < pa + 512 * (1 + sectors (epa - (pa + 512))))) as [Hy|Hy].
    + rewrite !bool_decide_eq_true_2 by lia. f_equal. lia.
    + rewrite !bool_decide_eq_false_2 by lia. done.
Qed.

(** The first and the last address that [readseg] writes. *)
Definition seg_lo (pa off : Z) : Z := pa - off mod SECTSIZE.
Definition seg_hi (pa count off : Z) : Z := seg_lo pa off + SECTSIZE * sectors (pa + count - seg_lo pa off).

Lemma readseg_ok s pa count off :
  good (bdev s) → 0 ≤ off → 0 ≤ count → off + count < 2 ^ 32 → 0 ≤ seg_lo pa off → seg_hi pa count off < 2 ^ 32 →
  ∃ s', readseg fuel pa count off s = Ok tt s' ∧ good (bdev s') ∧ disk_of (bdev s') = disk_of (bdev s) ∧
    (∀ o, 0 ≤ o < count → bmem s' (pa + o) = kbyte (disk_of (bdev s)) (off + o)) ∧
    ∀ x, x < seg_lo pa off ∨ seg_hi pa count off ≤ x → bmem s' x = bmem s x.
Proof using Hdrives Hfuel.
  intros Hg Hoff Hc Hmax Hlo Htop. unfold readseg. fold (seg_lo pa off). unfold seg_hi in Htop.
  pose proof (Z.mod_pos_bound off SECTSIZE eq_refl) as Hm. pose proof (Z.div_mod off SECTSIZE ltac:(done)) as Hdm.
  pose proof (sectors_enough (pa + count - seg_lo pa off)) as Hs.
  assert (0 ≤ off / SECTSIZE) by (apply Z.div_pos; unfold SECTSIZE; lia).
  assert (0 ≤ sectors (pa + count - seg_lo pa off)) by (unfold sectors; lia).
  rewrite !u32_small by (unfold seg_lo, SECTSIZE in *; lia).
  destruct (readseg_loop_ok (S (Z.to_nat (pa + count - seg_lo pa off))) s (seg_lo pa off) (pa + count) (off / SECTSIZE))
    as (s' & E & Hg' & Ed & Hx); [done|done|unfold seg_lo, SECTSIZE in *; lia..|].
  exists s'. split_and!; [done..| |].
  - intros o Ho. rewrite Hx, bool_decide_eq_true_2 by (unfold seg_lo in *; lia). f_equal. unfold seg_lo. lia.
  - intros x Hor. rewrite Hx, bool_decide_eq_false_2; [done|]. unfold seg_hi in Hor. lia.
Qed.

(** ** Segments *)

(** The fields of a program header that are used. *)
Record segment : Type := Segment { g_off : Z; g_pa : Z; g_filesz : Z; g_memsz : Z }.

Definition header_at (m : mem) (ph : Z) (g : segment) : Prop :=
  get32 m (ph + 4) = g_off g ∧ get32 m (ph + 12) = g_pa g ∧ get32 m (ph + 16) = g_filesz g ∧ get32 m (ph + 20) = g_memsz g.

(** The addresses that loading a segment may write, and the end of the segment. *)
Definition g_lo (g : segment) : Z := seg_lo (g_pa g) (g_off g).
Definition g_hi (g : segment) : Z := Z.max (seg_hi (g_pa g) (g_filesz g) (g_off g)) (g_pa g + g_memsz g).
Definition g_end (g : segment) : Z := g_pa g + Z.max (g_filesz g) (g_memsz g).

(** The segment is in memory: its bytes of the file, and zeroes after them. *)
Definition loaded (disk : Z → list Z) (g : segment) (m : mem) : Prop :=
  (∀ o, 0 ≤ o < g_filesz g → m (g_pa g + o) = kbyte disk (g_off g + o)) ∧
  (∀ o, g_filesz g ≤ o < g_memsz g → m (g_pa g + o) = 0).

(** A segment leaves the scratch memory alone. *)
Record seg_ok (g : segment) : Prop := SegOk {
  so_nonneg : 0 ≤ g_off g ∧ 0 ≤ g_filesz g;
  so_disk : g_off g + g_filesz g < 2 ^ 32;
  so_addr : 0 ≤ g_lo g ∧ g_hi g < 2 ^ 32;
  so_scratch : g_hi g ≤ SCRATCH ∨ SCRATCH + 4096 ≤ g_lo g;
}.

Definition in_scratch (x : Z) : Prop := SCRATCH ≤ x < SCRATCH + 4096.

Lemma get32_ext m m' a : (∀ i, 0 ≤ i < 4 → m' (a + i) = m (a + i)) → get32 m' a = get32 m a.
Proof.
  intros E. unfold get32, Mp.get32. rewrite (E 1), (E 2), (E 3) by lia. pose proof (E 0 ltac:(lia)) as E0. rewrite Z.add_0_r in E0. by rewrite E0.
Qed.

Lemma header_ext m m' ph g :
  (∀ x, in_scratch x → m' x = m x) → SCRATCH ≤ ph → ph + 32 ≤ SCRATCH + 4096 → header_at m ph g → header_at m' ph g.
Proof.
  intros E H1 H2 (E1 & E2 & E3 & E4). unfold in_scratch in E.
  split_and!; (etrans; [|eassumption]); apply get32_ext; intros i Hi; apply E; lia.
Qed.

Lemma load_one s ph g :
  good (bdev s) → seg_ok g → header_at (bmem s) ph g → SCRATCH ≤ ph → ph + 32 ≤ SCRATCH + 4096 →
  ∃ s', (∀ n eph, ph < eph → load_segments (S n) fuel ph eph s = load_segments n fuel (ph + 32) eph s') ∧
    good (bdev s') ∧ disk_of (bdev s') = disk_of (bdev s) ∧ loaded (disk_of (bdev s)) g (bmem s') ∧
    ∀ x, x < g_lo g ∨ in_scratch x → bmem s' x = bmem s x.
Proof using Hdrives Hfuel.
  intros Hg [[Ho Hf] Hd [Hlo Hhi] Hsc] Hh H1 H2. pose proof Hh as (E1 & E2 & E3 & E4). unfold g_lo, g_hi in Hsc, Hlo, Hhi.
  destruct (readseg_ok s (g_pa g) (g_filesz g) (g_off g) Hg Ho Hf Hd Hlo ltac:(lia)) as (s1 & Er & Hg1 & Ed1 & Hb & Hx).
  assert (Hsame : ∀ x, in_scratch x → bmem s1 x = bmem s x) by (intros x Hin; apply Hx; unfold in_scratch in Hin; lia).
  pose proof (header_ext _ _ _ _ Hsame H1 H2 Hh) as (F1 & F2 & F3 & F4).
  set (s2 := if bool_decide (g_filesz g < g_memsz g)
             then set_bmem (stosb (g_pa g + g_filesz g) 0 (Z.to_nat (g_memsz g - g_filesz g)) (bmem s1)) s1 else s1).
  assert (Hm2 : ∀ x, bmem s2 x = if bool_decide (g_pa g + g_filesz g ≤ x < g_pa g + g_memsz g) then 0 else bmem s1 x).
  { intros x. unfold s2. case_bool_decide as Hlt.
    - cbn [set_bmem bmem]. rewrite stosb_spec. change (u8 0) with 0. by rewrite (bool_decide_ext _ (g_pa g + g_filesz g ≤ x < g_pa g + g_memsz g)) by lia.
    - by rewrite bool_decide_eq_false_2 by lia. }
  exists s2. assert (Ed2 : bdev s2 = bdev s1) by (unfold s2; by case_bool_decide).
  split_and!; [|by rewrite Ed2|by rewrite Ed2| |].
  - intros n eph Hlt. cbn [load_segments]. rewrite (bool_decide_eq_false_2 (eph ≤ ph)) by lia. rewrite (bind_step (gets bmem) _ s _ _ eq_refl). cbn zeta. rewrite E1, E2, E3.
    rewrite (bind_step _ _ _ _ _ Er), (bind_step (gets bmem) _ s1 _ _ eq_refl). cbn zeta. rewrite F3, F4.
    pose proof (Z.mod_pos_bound (g_off g) SECTSIZE eq_refl). rewrite (u32_small (ph + 32)) by (unfold SCRATCH in *; lia).
    unfold s2. case_bool_decide; [|done]. by rewrite u32_small by (unfold seg_lo in *; lia).
  - split; intros o Hor; rewrite Hm2.
    + rewrite bool_decide_eq_false_2 by lia. by apply Hb.
    + by rewrite bool_decide_eq_true_2 by lia.
  - intros x Hor. rewrite Hm2. pose proof (Z.mod_pos_bound (g_off g) SECTSIZE eq_refl).
    rewrite bool_decide_eq_false_2 by (unfold in_scratch, g_lo, seg_lo in *; lia).
    destruct Hor as [Hlt|Hin]; [apply Hx; by left|by apply Hsame].
Qed.

Lemma loaded_ext disk g m m' : (∀ x, x < g_end g → m' x = m x) → loaded disk g m → loaded disk g m'.
Proof. intros E [H1 H2]. split; intros o Ho; rewrite E by (unfold g_end; lia); [by apply H1|by apply H2]. Qed.

(** The headers [gs] are in memory from [ph] on. *)
Fixpoint headers_at (m : mem) (ph : Z) (gs : list segment) : Prop :=
  match gs with
  | [] => True
  | g :: gs => header_at m ph g ∧ headers_at m (ph + 32) gs
  end.

Lemma headers_ext m m' gs : ∀ ph,
  (∀ x, in_scratch x → m' x = m x) → SCRATCH ≤ ph → ph + 32 * Z.of_nat (length gs) ≤ SCRATCH + 4096 →
  headers_at m ph gs → headers_at m' ph gs.
Proof.
  induction gs as [|g gs IH]; intros ph E H1 H2; cbn [headers_at length] in *; [done|].
  intros [Hh Hr]. split; [eapply header_ext; [exact E|lia|lia|done]|]. apply IH; [done|lia|lia|done].
Qed.

(** The segments in the order in which they are loaded: a segment ends before the
    first sector of the next ones. *)
Definition increasing (gs : list segment) : Prop := StronglySorted (λ g h, g_end g ≤ g_lo h) gs.

Lemma load_segments_ok gs : ∀ s ph,
  good (bdev s) → Forall seg_ok gs → increasing gs → headers_at (bmem s) ph gs →
  SCRATCH ≤ ph → ph + 32 * Z.of_nat (length gs) ≤ SCRATCH + 4096 →
  ∃ s', load_segments (length gs) fuel ph (ph + 32 * Z.of_nat (length gs)) s = Ok tt s' ∧ Forall (λ g, loaded (disk_of (bdev s)) g (bmem s')) gs ∧
    ∀ x, Forall (λ g, x < g_lo g) gs ∨ in_scratch x → bmem s' x = bmem s x.
Proof using Hdrives Hfuel.
  induction gs as [|g gs IH]; intros s ph Hg Hok Hinc Hh H1 H2; cbn [length headers_at] in *.
  { exists s. split_and!; [done|by apply Forall_nil|done]. }
  apply Forall_cons in Hok as [Hgo Hok]. apply StronglySorted_inv in Hinc as [Hinc Hall]. destruct Hh as [Hh Hhs].
  destruct (load_one s ph g Hg Hgo Hh H1 ltac:(lia)) as (s1 & E1 & Hg1 & Ed1 & Hl1 & Hx1).
  destruct (IH s1 (ph + 32) Hg1 Hok Hinc) as (s2 & E2 & Hl2 & Hx2); [|lia|lia|].
  { apply (headers_ext (bmem s)); [|lia|lia|done]. intros x Hin. apply Hx1. by right. }
  exists s2. rewrite E1 by lia. replace (ph + 32 * Z.of_nat (S (length gs))) with (ph + 32 + 32 * Z.of_nat (length gs)) by lia. rewrite Ed1 in Hl2. split_and!; [done| |].
  - apply Forall_cons. split; [|done]. eapply loaded_ext; [|exact Hl1]. intros x Hlt. apply Hx2. left.
    eapply Forall_impl; [exact Hall|]. cbn. intros h Hle. lia.
  - intros x Hor. rewrite Hx2, Hx1; [done|..]; (destruct Hor as [Hlt|]; [left|by right]); by apply Forall_cons in Hlt as [??].
Qed.

(** ** [bootmain] *)

(** The kernel on the disk: an ELF file with the program headers [gs] in its first
    page. *)
Record kernel_file (k : mem) (gs : list segment) : Prop := KernelFile {
  kf_magic : get32 k 0 = ELF_MAGIC;
  kf_phnum : get16 k 44 = Z.of_nat (length gs);
  kf_page : 0 ≤ get32 k 28 ∧ get32 k 28 + 32 * Z.of_nat (length gs) ≤ 4096;
  kf_headers : headers_at k (get32 k 28) gs;
  kf_segments : Forall seg_ok gs;
  kf_order : increasing gs;
}.

Lemma get32_shift m k a o : (∀ i, 0 ≤ i < 4096 → m (a + i) = k i) → 0 ≤ o ≤ 4092 → get32 m (a + o) = get32 k o.
Proof. intros E Ho. unfold get32, Mp.get32. rewrite <- !Z.add_assoc. by rewrite !E by lia. Qed.

Lemma headers_shift m k a gs : ∀ o, (∀ i, 0 ≤ i < 4096 → m (a + i) = k i) → 0 ≤ o → o + 32 * Z.of_nat (length gs) ≤ 4096 →
  headers_at k o gs → headers_at m (a + o) gs.
Proof.
  induction gs as [|g gs IH]; intros o E H0 Hl; cbn [headers_at length] in *; [done|].
  intros [(E1 & E2 & E3 & E4) Hr]. split.
  - unfold header_at. rewrite <- !Z.add_assoc. rewrite !(get32_shift m k a) by (done || lia). done.
  - rewrite <- Z.add_assoc. apply IH; [done|lia|lia|done].
Qed.

(** C17: from a disk with the kernel, [bootmain] goes on at the entry point of the
    kernel with all its segments in memory, the part of a segment that is not in
    the file filled with zeroes. *)
Theorem bootmain_loads_kernel s gs (k := kbyte (disk_of (bdev s))) :
  good (bdev s) → kernel_file k gs →
  ∃ s', bootmain fuel s = Ok (Some (get32 k 24)) s' ∧ Forall (λ g, loaded (disk_of (bdev s)) g (bmem s')) gs.
Proof using Hdrives Hfuel.
  intros Hg [Hmagic Hnum [Hpo Hpe] Hhs Hsegs Hord]. unfold bootmain.
  destruct (readseg_ok s SCRATCH 4096 0 Hg) as (s1 & E1 & Hg1 & Ed1 & Hb & _); [done..|].
  rewrite (bind_step _ _ _ _ _ E1), (bind_step (gets bmem) _ s1 _ _ eq_refl).
  assert (Hk : ∀ i, 0 ≤ i < 4096 → bmem s1 (SCRATCH + i) = k i) by (intros i Hi; by rewrite Hb).
  assert (H16 : get16 (bmem s1) (SCRATCH + 44) = get16 k 44).
  { unfold get16, Mp.get16. rewrite <- Z.add_assoc. by rewrite !Hk. }
  assert (H0 : get32 (bmem s1) SCRATCH = ELF_MAGIC) by (rewrite <- (Z.add_0_r SCRATCH); by rewrite (get32_shift _ k)).
  rewrite H0, bool_decide_eq_false_2 by tauto. rewrite H16, Hnum, Nat2Z.id. rewrite (get32_shift _ k) by done. cbn zeta. rewrite (u32_small (SCRATCH + _)) by (unfold SCRATCH; lia).
  rewrite u32_small by (unfold SCRATCH; lia).
  destruct (load_segments_ok gs s1 (SCRATCH + get32 k 28) Hg1 Hsegs Hord) as (s2 & E2 & Hl & Hx); [by apply (headers_shift _ k)|lia|lia|].
  rewrite (bind_step _ _ _ _ _ E2), (bind_step (gets bmem) _ s2 _ _ eq_refl). exists s2. rewrite Ed1 in Hl. split; [|done].
  unfold mret, M_ret. do 2 f_equal. rewrite <- (get32_shift _ k SCRATCH 24 Hk) by lia. apply get32_ext. intros i Hi. apply Hx.
  right. unfold in_scratch. lia.
Qed.

(** A disk without an ELF file at sector 1 is not started. *)
Lemma bootmain_not_elf s :
  good (bdev s) → get32 (kbyte (disk_of (bdev s))) 0 ≠ ELF_MAGIC → ∃ s', bootmain fuel s = Ok None s'.
Proof using Hdrives Hfuel.
  intros Hg Hm. unfold bootmain. destruct (readseg_ok s SCRATCH 4096 0 Hg) as (s1 & E1 & Hg1 & Ed1 & Hb & _); [done..|].
  rewrite (bind_step _ _ _ _ _ E1), (bind_step (gets bmem) _ s1 _ _ eq_refl). exists s1.
  rewrite bool_decide_eq_true_2; [done|]. rewrite <- (Z.add_0_r SCRATCH).
  rewrite (get32_shift _ (kbyte (disk_of (bdev s)))); [done|done|lia].
Qed.

End Thm.

(** ** A kernel of two segments *)

Definition le32 (x : Z) : list Z := [u8 x; u8 (x / 2 ^ 8); u8 (x / 2 ^ 16); u8 (x / 2 ^ 24)].

Definition demo_segments : list segment := [Segment 4096 0x100000 700 1000; Segment 6000 0x102170 10 20].

Definition demo_phdr (g : segment) : list Z :=
  le32 1 ++ le32 (g_off g) ++ le32 (g_pa g + 0x80000000) ++ le32 (g_pa g) ++ le32 (g_filesz g) ++ le32 (g_memsz g) ++ le32 7 ++ le32 4096.

Definition demo_elf : list Z :=
  le32 ELF_MAGIC ++ replicate 20 0 ++ le32 0x10000c ++ le32 52 ++ le32 0 ++ le32 0 ++ [52; 0; 32; 0; 2; 0] ++ replicate 6 0 ++
  concat (demo_phdr <$> demo_segments).

Definition demo_sector (n : Z) : list Z :=
  if bool_decide (n = 1) then take 512 (demo_elf ++ replicate 512 0) else IdeThm.sector_of (u8 n).

Definition boot_start : bst IdeThm.pio :=
  Bst (IdeThm.Pio (mkAta (λ _, 0) CIdle (λ _, demo_sector) false) 2) (λ _, 0).

Lemma boot_start_good : good (bdev boot_start).
Proof.
  split; [done|]. intros n. change (length (demo_sector n) = 512%nat). unfold demo_sector. case_bool_decide; [by vm_compute|].
  apply length_replicate.
Qed.

Lemma demo_kernel : kernel_file (kbyte demo_sector) demo_segments.
Proof.
  split; [by vm_compute|by vm_compute|split; by vm_compute| | |].
  - split_and!; by vm_compute.
  - repeat apply Forall_cons_2; [..|by apply Forall_nil]; (split; [by vm_compute|by vm_compute|by vm_compute|right; by vm_compute]).
  - repeat constructor; by vm_compute.
Qed.

Lemma bootmain_loads_kernel_witness :
  ∃ s', bootmain 3 boot_start = Ok (Some 0x10000c) s' ∧
    bmem s' (0x100000 + 699) = 10 ∧ bmem s' (0x100000 + 700) = 0 ∧ bmem s' 0x102170 = 12.
Proof.
  destruct (bootmain_loads_kernel IdeThm.pio_drives 3 (le_n 3) boot_start demo_segments boot_start_good demo_kernel)
    as (s' & E & Hl).
  exists s'. apply Forall_cons in Hl as [[H1 H2] Hl]. apply Forall_cons in Hl as [[H3 _] _].
  split; [exact E|]. cbn [g_off g_pa g_filesz g_memsz] in H1, H2, H3.
  split; [rewrite (H1 699) by lia; vm_compute; reflexivity|].
  split; [rewrite (H2 700) by lia; reflexivity|].
  rewrite <- (Z.add_0_r 0x102170), (H3 0) by lia. vm_compute. reflexivity.
Defined.

End BootThm.
