(* ===== verification/Lapic.v ===== *)
(** * The local APIC and the clock

    [src/lapic.c]: the interrupt controller of a processor, with which the boot
    processor also starts the others, and the real-time clock.  The controller and
    the CMOS chip are devices: a class gives their accesses, and another class
    states what their documentation says of them. *)

From S2P Require Import Prelude Strings Mp.

Module Lapic.

(** ** The registers, by index *)

Definition ID : Z := 0x0020 / 4.
Definition VER : Z := 0x0030 / 4.
Definition TPR : Z := 0x0080 / 4.
Definition EOI : Z := 0x00B0 / 4.
Definition SVR : Z := 0x00F0 / 4.
Definition ENABLE : Z := 0x100.
Definition ESR : Z := 0x0280 / 4.
Definition ICRLO : Z := 0x0300 / 4.
Definition INIT : Z := 0x500.
Definition STARTUP : Z := 0x600.
Definition DELIVS : Z := 0x1000.
Definition ASSERT : Z := 0x4000.
Definition LEVEL : Z := 0x8000.
Definition BCAST : Z := 0x80000.
Definition ICRHI : Z := 0x0310 / 4.
Definition TIMER : Z := 0x0320 / 4.
Definition X1 : Z := 0xB.
Definition PERIODIC : Z := 0x20000.
Definition PCINT : Z := 0x0340 / 4.
Definition LINT0 : Z := 0x0350 / 4.
Definition LINT1 : Z := 0x0360 / 4.
Definition ERROR : Z := 0x0370 / 4.
Definition MASKED : Z := 0x10000.
Definition TICR : Z := 0x0380 / 4.
Definition TDCR : Z := 0x03E0 / 4.

Definition T_IRQ0 : Z := 32.
Definition IRQ_TIMER : Z := 0.
Definition IRQ_ERROR : Z := 19.
Definition IRQ_SPURIOUS : Z := 31.

Definition CMOS_PORT : Z := 0x70.
Definition CMOS_RETURN : Z := 0x71.
Definition CMOS_STATA : Z := 0x0a.
Definition CMOS_STATB : Z := 0x0b.
Definition CMOS_UIP : Z := Z.shiftl 1 7.
Definition SECS : Z := 0x00.
Definition MINS : Z := 0x02.
Definition HOURS : Z := 0x04.
Definition DAY : Z := 0x07.
Definition MONTH : Z := 0x08.
Definition YEAR : Z := 0x09.

Record rtcdate : Type := Rtcdate { second : Z; minute : Z; hour : Z; day : Z; month : Z; year : Z }.

#[global] Instance rtcdate_eq_dec : EqDecision rtcdate.
Proof. solve_decision. Defined.

(** ** The devices *)

(** The controller: the words of its registers. *)
Class LocalApic (D : Type) : Type := {
  reg_read : Z → D → Z * D;
  reg_write : Z → Z → D → D;
}.

(** The CMOS chip: two ports. *)
Class Cmos (C : Type) : Type := {
  cport_in : Z → C → Z * C;
  cport_out : Z → Z → C → C;
}.

Section Lapic.

Context {D C : Type} `{LocalApic D, Cmos C}.

(** [lapic] is the address of the registers, zero before they are found; [lmem]
    holds the bytes of memory. *)
Record lst : Type := Lst { lapic : Z; ldev : D; lcmos : C; lmem : mem }.

Definition set_ldev (d : D) (s : lst) : lst := Lst (lapic s) d (lcmos s) (lmem s).
Definition set_lcmos (c : C) (s : lst) : lst := Lst (lapic s) (ldev s) c (lmem s).
Definition set_lmem (m : mem) (s : lst) : lst := Lst (lapic s) (ldev s) (lcmos s) m.

(** [lapic[index]] *)
Definition lapicr (index : Z) : M lst Z := λ s, let x := reg_read index (ldev s) in Ok x.1 (set_ldev x.2 s).

Definition lapicw (index value : Z) : M lst unit :=
  modify (λ s, set_ldev (reg_write index (u32 value) (ldev s)) s) ;;
  _ ← lapicr ID;
  mret tt.

(** [while(lapic[ICRLO] & DELIVS);] *)
Fixpoint wait_delivery (fuel : nat) : M lst unit :=
  match fuel with
  | O => spin
  | S fuel =>
      v ← lapicr ICRLO;
      if bool_decide (Z.land v DELIVS ≠ 0) then wait_delivery fuel else mret tt
  end.

Definition lapicinit (fuel : nat) : M lst unit :=
  a ← gets lapic;
  if bool_decide (a = 0) then mret tt else
  lapicw SVR (Z.lor ENABLE (T_IRQ0 + IRQ_SPURIOUS)) ;;
  lapicw TDCR X1 ;;
  lapicw TIMER (Z.lor PERIODIC (T_IRQ0 + IRQ_TIMER)) ;;
  lapicw TICR 10000000 ;;
  lapicw LINT0 MASKED ;;
  lapicw LINT1 MASKED ;;
  v ← lapicr VER;
  (if bool_decide (4 ≤ Z.land (Z.shiftr v 16) 0xFF) then lapicw PCINT MASKED else mret tt) ;;
  lapicw ERROR (T_IRQ0 + IRQ_ERROR) ;;
  lapicw ESR 0 ;;
  lapicw ESR 0 ;;
  lapicw EOI 0 ;;
  lapicw ICRHI 0 ;;
  lapicw ICRLO (Z.lor BCAST (Z.lor INIT LEVEL)) ;;
  wait_delivery fuel ;;
  lapicw TPR 0.

Definition lapicid : M lst Z :=
  a ← gets lapic;
  if bool_decide (a = 0) then mret 0 else
  v ← lapicr ID;
  mret (Z.shiftr v 24).

Definition lapiceoi : M lst unit :=
  a ← gets lapic;
  if bool_decide (a ≠ 0) then lapicw EOI 0 else mret tt.

(** [microdelay] has an empty body. *)
Definition microdelay (us : Z) : M lst unit := mret tt.

Definition inb (port : Z) : M lst Z := λ s, let x := cport_in port (lcmos s) in Ok x.1 (set_lcmos x.2 s).
Definition outb (port data : Z) : M lst unit := modify (λ s, set_lcmos (cport_out port (u8 data) (lcmos s)) s).

(** [P2V((0x40<<4 | 0x67))]: the warm reset vector. *)
Definition WRV : Z := Z.lor (Z.shiftl 0x40 4) 0x67 + 0x80000000.

(** An assignment to an [ushort]. *)
Definition put16 (a v : Z) (m : mem) : mem := Mp.load a [u8 v; u8 (Z.shiftr v 8)] m.

Definition startup_ipi (apicid addr : Z) : M lst unit :=
  lapicw ICRHI (Z.shiftl apicid 24) ;;
  lapicw ICRLO (Z.lor STARTUP (Z.shiftr addr 12)) ;;
  microdelay 200.

Definition lapicstartap (apicid addr : Z) : M lst unit :=
  outb CMOS_PORT 0xF ;;
  outb (CMOS_PORT + 1) 0x0A ;;
  modify (λ s, set_lmem (put16 WRV 0 (lmem s)) s) ;;
  modify (λ s, set_lmem (put16 (WRV + 2) (Z.shiftr addr 4) (lmem s)) s) ;;
  lapicw ICRHI (Z.shiftl apicid 24) ;;
  lapicw ICRLO (Z.lor INIT (Z.lor LEVEL ASSERT)) ;;
  microdelay 200 ;;
  lapicw ICRLO (Z.lor INIT LEVEL) ;;
  microdelay 100 ;;
  startup_ipi apicid addr ;;
  startup_ipi apicid addr.

(** ** The clock *)

Definition cmos_read (reg : Z) : M lst Z :=
  outb CMOS_PORT reg ;;
  microdelay 200 ;;
  inb CMOS_RETURN.

Definition fill_rtcdate : M lst rtcdate :=
  s ← cmos_read SECS;
  m ← cmos_read MINS;
  h ← cmos_read HOURS;
  d ← cmos_read DAY;
  mo ← cmos_read MONTH;
  y ← cmos_read YEAR;
  mret (Rtcdate s m h d mo y).

(** A turn of the loop of [cmostime]: the date, or another turn. *)
Definition rtc_turn : M lst (option rtcdate) :=
  t1 ← fill_rtcdate;
  a ← cmos_read CMOS_STATA;
  if bool_decide (Z.land a CMOS_UIP ≠ 0) then mret None else
  t2 ← fill_rtcdate;
  mret (if bool_decide (t1 = t2) then Some t1 else None).

Fixpoint rtc_loop (fuel : nat) : M lst rtcdate :=
  match fuel with
  | O => spin
  | S fuel =>
      o ← rtc_turn;
      match o with Some t => mret t | None => rtc_loop fuel end
  end.

Definition CONV (x : Z) : Z := u32 (Z.shiftr x 4 * 10 + Z.land x 0xf).

Definition map_date (f : Z → Z) (t : rtcdate) : rtcdate :=
  Rtcdate (f (second t)) (f (minute t)) (f (hour t)) (f (day t)) (f (month t)) (f (year t)).

Definition add_century (t : rtcdate) : rtcdate :=
  Rtcdate (second t) (minute t) (hour t) (day t) (month t) (u32 (year t + 2000)).

Definition cmostime (fuel : nat) : M lst rtcdate :=
  sb ← cmos_read CMOS_STATB;
  let bcd := bool_decide (Z.land sb (Z.shiftl 1 2) = 0) in
  t1 ← rtc_loop fuel;
  let t1 := if bcd then map_date CONV t1 else t1 in
  mret (add_century t1).

End Lapic.

Arguments lst : clear implicits.

(** ** What the controller promises *)

(** The last value written to each register, and the messages sent to other
    processors: a write to [ICRLO] sends one to the destination in [ICRHI].  A
    message is on its way for at most [send_delay] reads. *)
Class LocalApicLaws (D : Type) `{LocalApic D} : Type := {
  lregs : D → Z → Z;
  ipis : D → list (Z * Z);
  apic_id : Z;
  version : Z;
  pending : D → nat;
  send_delay : nat;
  write_regs : ∀ i v d, lregs (reg_write i v d) = <[i := v]> (lregs d);
  write_ipis : ∀ i v d, ipis (reg_write i v d) =
    if bool_decide (i = ICRLO) then ipis d ++ [(lregs d ICRHI, v)] else ipis d;
  read_regs : ∀ i d, lregs (reg_read i d).2 = lregs d;
  read_ipis : ∀ i d, ipis (reg_read i d).2 = ipis d;
  read_id : ∀ d, (reg_read ID d).1 = Z.shiftl apic_id 24;
  read_version : ∀ d, (reg_read VER d).1 = version;
  read_delivs : ∀ d, Z.land (reg_read ICRLO d).1 DELIVS ≠ 0 → (pending (reg_read ICRLO d).2 < pending d)%nat;
  pending_delay : ∀ d, (pending d ≤ send_delay)%nat;
}.

(** What a message does to a processor.  An asserted [INIT] makes it wait for a
    [STARTUP], which names the page where it begins; otherwise [STARTUP] is
    ignored.  The [INIT] that is not asserted only synchronises the controllers. *)
Inductive ap : Type :=
| Halted
| Waiting
| Running (pc : Z).

Definition receive (lo : Z) (x : ap) : ap :=
  let mode := Z.land lo 0x700 in
  if bool_decide (mode = INIT) then (if bool_decide (Z.land lo ASSERT = 0) then x else Waiting)
  else if bool_decide (mode = STARTUP) then
    match x with Waiting => Running (Z.shiftl (Z.land lo 0xff) 12) | _ => x end
  else x.

Definition deliver (cs : Z → ap) (m : Z * Z) : Z → ap := λ i,
  if bool_decide (Z.land m.2 BCAST ≠ 0 ∨ i = Z.shiftr m.1 24) then receive m.2 (cs i) else cs i.

(** ** What the clock promises *)

(** [now] counts the seconds, and [calendar] gives the date, with two digits of the
    year, at each of them.  [quiet] is a number of accesses within which the chip
    does not begin to update its registers; outside of it their contents are not
    known.  When the chip says that no update is in progress, there is time for
    [WINDOW] more accesses. *)
Definition WINDOW : nat := 12.

Definition two_digits (x : Z) : Prop := 0 ≤ x < 100.

(** A number in the form of the chip. *)
Definition encode (binary : bool) (x : Z) : Z := if binary then x else 16 * (x / 10) + x mod 10.

(** The hour in its 12-hour form, from 1 to 12, with the bit for the afternoon. *)
Definition hour12 (h : Z) : Z := (h + 11) mod 12 + 1.
Definition encode_hour (binary h24 : bool) (h : Z) : Z :=
  if h24 then encode binary h
  else encode binary (hour12 h) + (if bool_decide (12 ≤ h) then 0x80 else 0).

Definition chip_date (binary h24 : bool) (t : rtcdate) : rtcdate :=
  Rtcdate (encode binary (second t)) (encode binary (minute t)) (encode_hour binary h24 (hour t))
    (encode binary (day t)) (encode binary (month t)) (encode binary (year t)).

(** The chip is set to one of two forms of the numbers and one of two forms of the
    hour, which its status register B tells. *)
Class CmosLaws (C : Type) `{Cmos C} : Type := {
  csel : C → Z;
  cram : C → Z → Z;
  now : C → Z;
  quiet : C → nat;
  binary : bool;
  h24 : bool;
  calendar : Z → rtcdate;
  out_select : ∀ v c, csel (cport_out CMOS_PORT v c) = v ∧ cram (cport_out CMOS_PORT v c) = cram c;
  out_data : ∀ v c, cram (cport_out CMOS_RETURN v c) = <[csel c := v]> (cram c);
  out_time : ∀ p v c, now c ≤ now (cport_out p v c) ∧
    ((0 < quiet c)%nat → now (cport_out p v c) = now c ∧ (quiet c ≤ S (quiet (cport_out p v c)))%nat);
  in_time : ∀ p c, now c ≤ now (cport_in p c).2 ∧
    ((0 < quiet c)%nat → now (cport_in p c).2 = now c ∧ (quiet c ≤ S (quiet (cport_in p c).2))%nat);
  in_date : ∀ c r f, (r, f) ∈ [(SECS, second); (MINS, minute); (HOURS, hour); (DAY, day); (MONTH, month); (YEAR, year)] →
    csel c = r → (0 < quiet c)%nat → (cport_in CMOS_RETURN c).1 = f (chip_date binary h24 (calendar (now c)));
  in_status_b : ∀ c, csel c = CMOS_STATB →
    (Z.land (cport_in CMOS_RETURN c).1 (Z.shiftl 1 2) = 0 ↔ binary = false) ∧
    (Z.land (cport_in CMOS_RETURN c).1 (Z.shiftl 1 1) = 0 ↔ h24 = false);
  in_status_a : ∀ c, csel c = CMOS_STATA →
    if decide (Z.land (cport_in CMOS_RETURN c).1 CMOS_UIP = 0) then (WINDOW ≤ quiet (cport_in CMOS_RETURN c).2)%nat
    else (quiet c ≤ WINDOW)%nat;
  calendar_digits : ∀ t, two_digits (second (calendar t)) ∧ two_digits (minute (calendar t)) ∧ 0 ≤ hour (calendar t) < 24 ∧
    two_digits (day (calendar t)) ∧ two_digits (month (calendar t)) ∧ two_digits (year (calendar t));
}.

End Lapic.
