(* ===== verification/LapicThm.v ===== *)
(** * The local APIC and the clock: what the code does with them

    [lapicinit] sets up the controller; [lapicstartap] makes one other processor
    run at the given address; [cmostime] gives the date at one instant. *)

From S2P Require Import Prelude Strings Mp Lapic.

Module LapicThm.
Import Lapic.

Section Thm.

Context {D C : Type} {DEV : LocalApic D} {LAWS : LocalApicLaws D} {CMOS : Cmos C} {CLAWS : CmosLaws C}.
Implicit Types s : lst D C.

(** ** The controller *)

Definition lview (d : D) : (Z → Z) * list (Z * Z) := (lregs d, ipis d).

(** A write of [w.2] to register [w.1]. *)
Definition view_write (x : (Z → Z) * list (Z * Z)) (w : Z * Z) : (Z → Z) * list (Z * Z) :=
  (<[w.1 := w.2]> x.1, if bool_decide (w.1 = ICRLO) then x.2 ++ [(x.1 ICRHI, w.2)] else x.2).

Lemma lapicr_ok i s : ∃ d, lapicr i s = Ok (reg_read i (ldev s)).1 (set_ldev d s) ∧ lview d = lview (ldev s).
Proof. exists (reg_read i (ldev s)).2. split; [done|]. unfold lview. by rewrite read_regs, read_ipis. Qed.

Lemma lapicw_ok i v s : ∃ d, lapicw i v s = Ok tt (set_ldev d s) ∧ lview d = view_write (lview (ldev s)) (i, u32 v).
Proof.
  unfold lapicw. rewrite (bind_step (modify _) _ s _ _ eq_refl). set (s1 := set_ldev _ s).
  destruct (lapicr_ok ID s1) as (d & E & Ev). rewrite (bind_step _ _ _ _ _ E). exists d. split; [done|]. rewrite Ev.
  unfold lview, view_write, s1. cbn [ldev set_ldev fst snd]. by rewrite write_regs, write_ipis.
Qed.

Lemma wait_delivery_ok n : ∀ s, (pending (ldev s) < n)%nat →
  ∃ d, wait_delivery n s = Ok tt (set_ldev d s) ∧ lview d = lview (ldev s).
Proof.
  induction n as [|n IH]; intros s Hn; [lia|]. cbn [wait_delivery].
  assert (E : lapicr ICRLO s = Ok (reg_read ICRLO (ldev s)).1 (set_ldev (reg_read ICRLO (ldev s)).2 s)) by done.
  rewrite (bind_step _ _ _ _ _ E).
  assert (Ev : lview (reg_read ICRLO (ldev s)).2 = lview (ldev s)) by (unfold lview; by rewrite read_regs, read_ipis).
  case_bool_decide as Hb; [|by eexists].
  destruct (IH (set_ldev (reg_read ICRLO (ldev s)).2 s)) as (d & E' & Ev').
  - pose proof (read_delivs _ Hb). cbn [ldev set_ldev]. lia.
  - exists d. split; [exact E'|]. by rewrite Ev'.
Qed.

(** [s] is [s0] but for the writes [ws] to the controller. *)
Definition shows s0 (ws : list (Z * Z)) s : Prop := ∃ d, s = set_ldev d s0 ∧ lview d = foldl view_write (lview (ldev s0)) ws.

Lemma shows_refl s : shows s [] s.
Proof. exists (ldev s). by destruct s. Qed.

Lemma lapicw_shows_end i v s0 ws s (P : unit → lst D C → Prop) :
  shows s0 ws s → (∀ s', shows s0 (ws ++ [(i, u32 v)]) s' → P tt s') → wpt (lapicw i v) P s.
Proof.
  intros (d & -> & Ed) Hk. destruct (lapicw_ok i v (set_ldev d s0)) as (d' & E & Ev). unfold wpt.
  rewrite E. apply Hk. exists d'. by rewrite foldl_app, <- Ed.
Qed.

Lemma lapicw_shows i v s0 ws s {A} (k : M (lst D C) A) P :
  shows s0 ws s → (∀ s', shows s0 (ws ++ [(i, u32 v)]) s' → wpt k P s') → wpt (lapicw i v ;; k) P s.
Proof. intros Hs Hk. apply wpt_bind. by eapply lapicw_shows_end. Qed.

Lemma shows_same s0 ws d d' : lview d' = lview d → shows s0 ws (set_ldev d s0) → shows s0 ws (set_ldev d' s0).
Proof.
  intros E (d1 & E1 & Ed). exists d'. split; [done|]. rewrite E. by injection E1 as ->.
Qed.

Ltac write :=
  lazymatch goal with
  | H : shows ?s0 _ ?s |- wpt (_ ≫= _) _ ?s =>
      eapply lapicw_shows; [exact H|]; clear H; let s' := fresh "s" in let H' := fresh "Hs" in intros s' H'
  | H : shows ?s0 _ ?s |- wpt (lapicw _ _) _ ?s =>
      eapply lapicw_shows_end; [exact H|]; clear H; let s' := fresh "s" in let H' := fresh "Hs" in intros s' H'
  end.

(** The registers after [lapicinit]: the controller is enabled, the timer is
    periodic with the vector of its interrupt, the lines are masked, the errors have
    a vector, and interrupts of every priority are accepted. *)
Definition settings : list (Z * Z) :=
  [(SVR, 0x13f); (TDCR, X1); (TIMER, 0x20020); (TICR, 10000000); (LINT0, MASKED); (LINT1, MASKED); (ERROR, 51); (TPR, 0)].

Lemma ver_shows s0 ws s {A} (k : Z → M (lst D C) A) P :
  shows s0 ws s → (∀ s', shows s0 ws s' → wpt (k version) P s') → wpt (v ← lapicr VER; k v) P s.
Proof.
  intros Hs Hk. pose proof Hs as (d & -> & _). destruct (lapicr_ok VER (set_ldev d s0)) as (d' & E & Ed'). rewrite read_version in E.
  apply wpt_bind. eapply wpt_eq; [exact E|]. apply Hk. by eapply (shows_same s0 ws d d').
Qed.

Lemma wait_shows fuel s0 ws s {A} (k : M (lst D C) A) P :
  (send_delay < fuel)%nat → shows s0 ws s → (∀ s', shows s0 ws s' → wpt k P s') → wpt (wait_delivery fuel ;; k) P s.
Proof.
  intros Hf Hs Hk. pose proof Hs as (d & -> & _). destruct (wait_delivery_ok fuel (set_ldev d s0)) as (d' & E & Ed').
  { pose proof (pending_delay d). cbn [ldev set_ldev]. lia. }
  apply wpt_bind. eapply wpt_eq; [exact E|]. apply Hk. by eapply (shows_same s0 ws d d').
Qed.

(** [lapicinit] leaves the controller with these settings and starts no processor. *)
Lemma lapicinit_ok fuel s0 :
  lapic s0 ≠ 0 → (send_delay < fuel)%nat →
  wpt (lapicinit fuel) (λ _ s', ∃ d, s' = set_ldev d s0 ∧
    Forall (λ x, lregs d x.1 = x.2) settings ∧
    (4 ≤ Z.land (Z.shiftr version 16) 0xFF → lregs d PCINT = MASKED) ∧
    ∃ l, ipis d = ipis (ldev s0) ++ l ∧ ∀ cs i, foldl deliver cs l i = cs i) s0.
Proof.
  intros Hl Hfuel. apply wpt_bind, wpt_gets. rewrite bool_decide_eq_false_2 by done.
  pose proof (shows_refl s0) as Hs. do 6 write. eapply ver_shows; [exact Hs|]. clear Hs. intros s6 Hs. apply wpt_bind.
  set (b := bool_decide _). set (ws := _ ++ [_]) in Hs.
  eapply (wpt_mono _ (λ _ s', shows s0 (ws ++ if b then [(PCINT, u32 MASKED)] else []) s')).
  { destruct b; [write; done|apply wpt_ret; by rewrite app_nil_r]. }
  clear Hs s6. intros [] s6 Hs. do 6 write. eapply wait_shows; [done|exact Hs|]. clear Hs. intros s13 Hs. write.
  destruct Hs as (d & -> & Ed). exists d. split; [reflexivity|]. unfold lview at 2 in Ed. generalize (ipis (ldev s0)), (lregs (ldev s0)), Ed.
  clear Ed. intros l r Ed. pose proof (f_equal fst Ed) as Er. pose proof (f_equal snd Ed) as Ei. cbn [lview fst snd] in Er, Ei.
  rewrite Er, Ei. unfold ws. split_and!.
  - destruct b; repeat apply Forall_cons_2; try apply Forall_nil_2; vm_compute; reflexivity.
  - intros Hv. unfold b. rewrite bool_decide_eq_true_2 by done. vm_compute. reflexivity.
  - exists [(0, 0x88500)]. split; [destruct b; vm_compute; reflexivity|]. intros cs i. by destruct i.
Qed.

(** ** Starting a processor *)

(** The messages of [lapicstartap]. *)
Lemma startup_message k : 0 ≤ k < 256 →
  Z.land (u32 (Z.lor STARTUP k)) 0x700 = STARTUP ∧ Z.land (u32 (Z.lor STARTUP k)) 0xff = k ∧
  Z.land (u32 (Z.lor STARTUP k)) BCAST = 0.
Proof.
  intros Hk. assert (Hall : Forall (λ k, Z.land (u32 (Z.lor STARTUP k)) 0x700 = STARTUP ∧
    Z.land (u32 (Z.lor STARTUP k)) 0xff = k ∧ Z.land (u32 (Z.lor STARTUP k)) BCAST = 0) (seqZ 0 256))
    by (apply (bool_decide_unpack _); vm_compute; exact I).
  rewrite Forall_forall in Hall. apply Hall, elem_of_seqZ. lia.
Qed.

Lemma destination apicid : 0 ≤ apicid < 256 → Z.shiftr (u32 (Z.shiftl apicid 24)) 24 = apicid.
Proof. intros Ha. rewrite Z.shiftl_mul_pow2, u32_small, Z.shiftr_div_pow2 by lia. by rewrite Z.div_mul. Qed.

Lemma messages_start apicid addr cs i (hi := u32 (Z.shiftl apicid 24)) (v := u32 (Z.lor STARTUP (Z.shiftr addr 12))) :
  0 ≤ apicid < 256 → 0 ≤ addr < 2 ^ 20 → addr mod 4096 = 0 →
  foldl deliver cs [(hi, 0xC500); (hi, 0x8500); (hi, v); (hi, v)] i = <[apicid := Running addr]> cs i.
Proof.
  intros Ha Hr Hm. assert (Hk : 0 ≤ Z.shiftr addr 12 < 256) by (rewrite Z.shiftr_div_pow2 by lia; Z.div_mod_to_equations; lia).
  destruct (startup_message _ Hk) as (E1 & E2 & E3). fold v in E1, E2, E3. cbn [foldl]. unfold deliver. cbn [fst snd].
  unfold hi. rewrite destination, E3 by done. change (Z.land 0xC500 BCAST) with 0. change (Z.land 0x8500 BCAST) with 0.
  destruct (decide (i = apicid)) as [->|Hne].
  - rewrite !bool_decide_eq_true_2 by tauto. rewrite fn_lookup_insert. change (receive 0xC500 (cs apicid)) with Waiting.
    change (receive 0x8500 Waiting) with Waiting. unfold receive. rewrite E1, E2. cbn. f_equal.
    rewrite Z.shiftl_mul_pow2, Z.shiftr_div_pow2 by lia. Z.div_mod_to_equations. lia.
  - rewrite !bool_decide_eq_false_2 by tauto. by rewrite fn_lookup_insert_ne by done.
Qed.

Lemma lapicstartap_ok s0 apicid addr :
  0 ≤ apicid < 256 → 0 ≤ addr < 2 ^ 20 → addr mod 4096 = 0 →
  wpt (lapicstartap apicid addr) (λ _ s',
    (∃ l, ipis (ldev s') = ipis (ldev s0) ++ l ∧ ∀ cs i, foldl deliver cs l i = <[apicid := Running addr]> cs i) ∧
    cram (lcmos s') 0xF = 0x0A ∧ lmem s' = put16 (WRV + 2) (Z.shiftr addr 4) (put16 WRV 0 (lmem s0))) s0.
Proof.
  intros Ha Hr Hm. unfold lapicstartap, outb. do 4 (apply wpt_bind, wpt_modify).
  set (s := set_lmem (put16 (WRV + 2) _ _) _). pose proof (shows_refl s) as Hs.
  do 2 write. apply wpt_bind, wpt_ret. write. apply wpt_bind, wpt_ret. apply wpt_bind. unfold startup_ipi. do 2 write.
  apply wpt_ret. do 2 write. apply wpt_ret. destruct Hs as (d & -> & Ed). cbn [ldev lcmos lmem set_ldev]. split_and!; [| |reflexivity].
  - pose proof (f_equal snd Ed) as Ei. cbn [lview snd] in Ei. rewrite Ei.
    set (hi := u32 (Z.shiftl apicid 24)). set (v := u32 (Z.lor STARTUP (Z.shiftr addr 12))).
    exists [(hi, 0xC500); (hi, 0x8500); (hi, v); (hi, v)]. split; [|intros cs i; by apply messages_start].
    transitivity ((((ipis (ldev s0) ++ [(hi, 0xC500)]) ++ [(hi, 0x8500)]) ++ [(hi, v)]) ++ [(hi, v)]); [reflexivity|by rewrite <- !app_assoc].
  - unfold s. cbn [lcmos set_lcmos set_lmem]. rewrite out_data. destruct (out_select (u8 0xF) (lcmos s0)) as [-> _]. by rewrite fn_lookup_insert.
Qed.

(** The other processor [apicid] runs at [addr] after the messages of
    [lapicstartap], whatever it and the others did before, and no other processor is
    disturbed; the code for a warm reset and its vector, the older way to start a
    processor, lead to the same address. *)
Theorem lapicstartap_starts s0 apicid addr :
  0 ≤ apicid < 256 → 0 ≤ addr < 2 ^ 20 → addr mod 4096 = 0 →
  wpt (lapicstartap apicid addr) (λ _ s',
    (∃ l, ipis (ldev s') = ipis (ldev s0) ++ l ∧ ∀ cs i, foldl deliver cs l i = <[apicid := Running addr]> cs i) ∧
    cram (lcmos s') 0xF = 0x0A ∧ Mp.get16 (lmem s') WRV = 0 ∧ 16 * Mp.get16 (lmem s') (WRV + 2) = addr) s0.
Proof.
  intros Ha Hr Hm. eapply wpt_mono; [by apply lapicstartap_ok|]. intros [] s' (H1 & H2 & ->). split_and!; [done|done|reflexivity|].
  change (16 * (u8 (Z.shiftr addr 4) + 256 * u8 (Z.shiftr (Z.shiftr addr 4) 8)) = addr).
  rewrite Z.shiftr_shiftr, !Z.shiftr_div_pow2 by lia. unfold u8. Z.div_mod_to_equations. lia.
Qed.

(** ** The clock *)

Definition cread (r : Z) (c : C) : Z * C := cport_in CMOS_RETURN (cport_out CMOS_PORT r c).

Lemma cmos_read_eq r s : cmos_read r s = Ok (cread (u8 r) (lcmos s)).1 (set_lcmos (cread (u8 r) (lcmos s)).2 s).
Proof. done. Qed.

(** From [c] to [c'] there are [n] accesses. *)
Definition accesses (n : nat) (c c' : C) : Prop :=
  now c ≤ now c' ∧ ((n ≤ quiet c)%nat → now c' = now c ∧ (quiet c ≤ n + quiet c')%nat).

Lemma accesses_trans n m c c1 c2 : accesses n c c1 → accesses m c1 c2 → accesses (n + m) c c2.
Proof. intros [H1 H2] [H3 H4]. split; [lia|]. intros Hq. destruct H2; [lia|]. destruct H4; lia. Qed.

Lemma cread_accesses r c : accesses 2 c (cread r c).2.
Proof.
  destruct (out_time CMOS_PORT r c) as [H1 H2]. destruct (in_time CMOS_RETURN (cport_out CMOS_PORT r c)) as [H3 H4].
  unfold cread. split; [lia|]. intros Hq. destruct H2; [lia|]. destruct H4; lia.
Qed.

Lemma cread_date r f c :
  (r, f) ∈ [(SECS, second); (MINS, minute); (HOURS, hour); (DAY, day); (MONTH, month); (YEAR, year)] →
  (2 ≤ quiet c)%nat → (cread r c).1 = f (chip_date binary h24 (calendar (now c))).
Proof.
  intros Hin Hq. destruct (out_time CMOS_PORT r c) as [_ H2]. destruct H2 as [E Hq']; [lia|]. unfold cread. rewrite <- E.
  apply (in_date _ r); [done|by destruct (out_select r c)|lia].
Qed.

Lemma read_field r f s {A} (k : Z → M (lst D C) A) P c n t :
  accesses n c (lcmos s) → u8 r = r →
  (r, f) ∈ [(SECS, second); (MINS, minute); (HOURS, hour); (DAY, day); (MONTH, month); (YEAR, year)] →
  (∀ v c', accesses (n + 2) c c' → ((n + 2 ≤ quiet c)%nat → t = now c → v = f (chip_date binary h24 (calendar t))) →
    wpt (k v) P (set_lcmos c' s)) →
  wpt (v ← cmos_read r; k v) P s.
Proof.
  intros Ha Hr Hin Hk. apply wpt_bind. eapply wpt_eq; [apply cmos_read_eq|]. rewrite Hr. apply Hk.
  - eapply accesses_trans; [exact Ha|apply cread_accesses].
  - intros Hq ->. destruct Ha as [_ Ha]. destruct Ha as [<- Hq']; [lia|]. apply cread_date; [done|lia].
Qed.

Lemma fill_rtcdate_ok s :
  wpt fill_rtcdate (λ t s', ∃ c', s' = set_lcmos c' s ∧ accesses 12 (lcmos s) c' ∧
    ((12 ≤ quiet (lcmos s))%nat → t = chip_date binary h24 (calendar (now (lcmos s))))) s.
Proof.
  unfold fill_rtcdate. set (c := lcmos s).
  assert (H0 : accesses 0 c (lcmos s)) by (unfold c; split; [done|]; intros _; split; [done|lia]).
  eapply (read_field SECS second s _ _ c 0 (now c)); [done|done|set_solver|]. intros v1 c1 H1 E1.
  eapply (read_field MINS minute (set_lcmos c1 s) _ _ c 2 (now c)); [done|done|set_solver|]. intros v2 c2 H2 E2.
  eapply (read_field HOURS hour (set_lcmos c2 s) _ _ c 4 (now c)); [done|done|set_solver|]. intros v3 c3 H3 E3.
  eapply (read_field DAY day (set_lcmos c3 s) _ _ c 6 (now c)); [done|done|set_solver|]. intros v4 c4 H4 E4.
  eapply (read_field MONTH month (set_lcmos c4 s) _ _ c 8 (now c)); [done|done|set_solver|]. intros v5 c5 H5 E5.
  eapply (read_field YEAR year (set_lcmos c5 s) _ _ c 10 (now c)); [done|done|set_solver|]. intros v6 c6 H6 E6.
  apply wpt_ret. exists c6. split; [done|]. split; [exact H6|]. intros Hq.
  rewrite E1, E2, E3, E4, E5, E6 by (done || lia). done.
Qed.

(** A date in the form of the chip, of an instant between two states of it. *)
Definition dated (c c' : C) (t : rtcdate) : Prop :=
  ∃ τ, now c ≤ τ ≤ now c' ∧ t = chip_date binary h24 (calendar τ).

Lemma rtc_turn_ok s :
  wpt rtc_turn (λ o s', ∃ c', s' = set_lcmos c' s ∧ now (lcmos s) ≤ now c' ∧
    (∀ t, o = Some t → dated (lcmos s) c' t) ∧ ((26 ≤ quiet (lcmos s))%nat → o ≠ None)) s.
Proof.
  unfold rtc_turn. apply wpt_bind. eapply wpt_mono; [apply fill_rtcdate_ok|]. intros t1 s1 (c1 & -> & H1 & E1).
  apply wpt_bind. eapply wpt_eq; [apply cmos_read_eq|]. cbn [lcmos set_lcmos]. change (u8 CMOS_STATA) with CMOS_STATA.
  pose proof (cread_accesses CMOS_STATA c1) as H2.
  pose proof (in_status_a (cport_out CMOS_PORT CMOS_STATA c1) (proj1 (out_select _ _))) as Hu.
  fold (cread CMOS_STATA c1) in Hu. set (c2 := (cread CMOS_STATA c1).2) in *.
  destruct (out_time CMOS_PORT CMOS_STATA c1) as [_ Ho]. pose proof (accesses_trans _ _ _ _ _ H1 H2) as H12.
  destruct (decide (Z.land (cread CMOS_STATA c1).1 CMOS_UIP = 0)) as [Hz|Hnz].
  2: { rewrite bool_decide_eq_true_2 by done. apply wpt_ret. exists c2. split_and!; [done|apply H12|done|].
       intros Hq. destruct H1 as [_ H1]. destruct H1; [lia|]. destruct Ho; [lia|]. unfold WINDOW in Hu. lia. }
  rewrite bool_decide_eq_false_2 by tauto. apply wpt_bind. eapply wpt_mono; [apply fill_rtcdate_ok|].
  intros t2 s2 (c3 & -> & H3 & E3). cbn [lcmos set_lcmos] in *. apply wpt_ret. exists c3. specialize (E3 Hu). destruct H3 as [Hle H3].
  split_and!; [done|destruct H12; lia| |].
  - intros t. case_bool_decide as Heq; [|done]. intros [= <-]. exists (now c2). split; [destruct H12; lia|]. by rewrite Heq.
  - intros Hq. destruct H12 as [_ H12]. destruct H12 as [En Hq2]; [lia|]. rewrite E1, E3, En by lia.
    by rewrite bool_decide_eq_true_2.
Qed.

(** The state after [n] turns of the loop. *)
Fixpoint turns (n : nat) s : lst D C :=
  match n with
  | O => s
  | S n => turns n (match rtc_turn s with Ok _ s' => s' | _ => s end)
  end.

Lemma dated_later c c1 c' t : now c ≤ now c1 → dated c1 c' t → dated c c' t.
Proof. intros Hle (τ & Hr & E). exists τ. split; [lia|done]. Qed.

Lemma rtc_loop_correct fuel : ∀ s t s', rtc_loop fuel s = Ok t s' → dated (lcmos s) (lcmos s') t.
Proof.
  induction fuel as [|fuel IH]; intros s t s' E; [done|]. cbn [rtc_loop] in E.
  pose proof (proj1 (wpt_Ok _ _ _) (rtc_turn_ok s)) as (o & s1 & E1 & c1 & -> & Hle & Ht & _).
  rewrite (bind_step _ _ _ _ _ E1) in E. destruct o as [t1|].
  - injection E as <- <-. by apply Ht.
  - apply IH in E. by eapply dated_later.
Qed.

Lemma rtc_loop_returns n : ∀ fuel s, (n < fuel)%nat → (26 ≤ quiet (lcmos (turns n s)))%nat → ∃ t s', rtc_loop fuel s = Ok t s'.
Proof.
  induction n as [|n IH]; intros [|fuel] s Hf Hq; try lia; cbn [turns rtc_loop] in *;
    pose proof (proj1 (wpt_Ok _ _ _) (rtc_turn_ok s)) as (o & s1 & E1 & c1 & -> & Hle & Ht & Hn);
    rewrite (bind_step _ _ _ _ _ E1).
  - destruct o as [t|]; [by do 2 eexists|]. by destruct (Hn Hq).
  - destruct o as [t|]; [by do 2 eexists|]. rewrite E1 in Hq. apply IH; [lia|done].
Qed.

Lemma CONV_encode x : two_digits x → CONV (encode false x) = x.
Proof.
  intros Hx. assert (Hall : Forall (λ x, CONV (encode false x) = x) (seqZ 0 100)) by (apply (bool_decide_unpack _); vm_compute; exact I).
  rewrite Forall_forall in Hall. apply Hall, elem_of_seqZ. unfold two_digits in Hx. lia.
Qed.

Lemma CONV_afternoon x : two_digits x → CONV (encode false x + 0x80) = x + 80.
Proof.
  intros Hx. assert (Hall : Forall (λ x, CONV (encode false x + 0x80) = x + 80) (seqZ 0 100)) by (apply (bool_decide_unpack _); vm_compute; exact I).
  rewrite Forall_forall in Hall. apply Hall, elem_of_seqZ. unfold two_digits in Hx. lia.
Qed.

(** What becomes of a date that the chip has in 12-hour form: the hour stays in that
    form, and the bit for the afternoon is taken for a part of the number. *)
Definition twelve_hour (t : rtcdate) : rtcdate :=
  let pm := if bool_decide (12 ≤ hour t) then (if binary then 128 else 80) else 0 in
  Rtcdate (second t) (minute t) (hour12 (hour t) + pm) (day t) (month t) (year t).

Lemma decode_date t :
  map_date (λ x, if binary then x else CONV x) (chip_date binary h24 (calendar t)) = if h24 then calendar t else twelve_hour (calendar t).
Proof.
  destruct (calendar_digits t) as (H1 & H2 & H3 & H4 & H5 & H6). destruct (calendar t) as [se mi ho da mo ye].
  unfold twelve_hour, chip_date, encode_hour, map_date. cbn in *.
  assert (two_digits ho) by (unfold two_digits; lia). assert (two_digits (hour12 ho)) by (unfold two_digits, hour12; Z.div_mod_to_equations; lia).
  destruct binary, h24; try case_bool_decide; rewrite ?CONV_encode, ?CONV_afternoon, ?Z.add_0_r, ?CONV_encode by done; done.
Qed.

(** The state in which the loop of [cmostime] begins. *)
Definition loop_start s : lst D C := set_lcmos (cread CMOS_STATB (lcmos s)).2 s.

(** C23: [cmostime] gives the date at an instant of the call, in plain numbers
    whether the chip has them in binary or in BCD, although the registers are read one
    at a time and cannot be relied on while the chip updates them.  This is for a chip
    set to the 24-hour form; for one set to the 12-hour form all but the hour is right.
    It returns once a turn of its loop finds the chip quiet for the 26 accesses of the
    turn. *)
Theorem cmostime_gives_date fuel s :
  (∀ r s', cmostime fuel s = Ok r s' → ∃ τ, now (lcmos s) ≤ τ ≤ now (lcmos s') ∧
    r = add_century (if h24 then calendar τ else twelve_hour (calendar τ))) ∧
  (∀ n, (n < fuel)%nat → (26 ≤ quiet (lcmos (turns n (loop_start s))))%nat → ∃ r s', cmostime fuel s = Ok r s').
Proof.
  unfold cmostime. rewrite (bind_step _ _ _ _ _ (cmos_read_eq CMOS_STATB s)). change (u8 CMOS_STATB) with CMOS_STATB.
  fold (loop_start s). pose proof (in_status_b _ (proj1 (out_select CMOS_STATB (lcmos s)))) as [Hb _]. fold (cread CMOS_STATB (lcmos s)) in Hb.
  destruct (cread_accesses CMOS_STATB (lcmos s)) as [Hle _]. cbn zeta. split.
  - intros r s' E. unfold mbind, M_bind in E. destruct (rtc_loop fuel (loop_start s)) as [t s1| | |] eqn:El; [|done..].
    injection E as <- <-. destruct (rtc_loop_correct _ _ _ _ El) as (τ & Hr & ->). cbn [lcmos loop_start set_lcmos] in Hr.
    exists τ. split; [lia|]. f_equal. etrans; [|apply decode_date]. destruct binary eqn:Hbin.
    + by rewrite bool_decide_eq_false_2 by (intros E; by apply Hb in E).
    + by rewrite bool_decide_eq_true_2 by by apply Hb.
  - intros n Hn Hq. destruct (rtc_loop_returns n fuel (loop_start s) Hn Hq) as (t & s1 & E).
    rewrite (bind_step _ _ _ _ _ E). by do 2 eexists.
Qed.

End Thm.

(** ** Devices *)

(** A controller whose messages take two reads. *)
Record demo_apic : Type := DemoApic { da_regs : Z → Z; da_ipis : list (Z * Z); da_busy : nat }.

#[global] Instance demo_local_apic : LocalApic demo_apic := {|
  reg_read i d :=
    if bool_decide (i = ID) then (Z.shiftl 3 24, d)
    else if bool_decide (i = VER) then (0x50014, d)
    else if bool_decide (i = ICRLO) then
      match da_busy d with
      | O => (Z.ldiff (da_regs d ICRLO) DELIVS, d)
      | S n => (DELIVS, DemoApic (da_regs d) (da_ipis d) (Nat.min 1 n))
      end
    else (da_regs d i, d);
  reg_write i v d :=
    DemoApic (<[i := v]> (da_regs d)) (if bool_decide (i = ICRLO) then da_ipis d ++ [(da_regs d ICRHI, v)] else da_ipis d)
      (if bool_decide (i = ICRLO) then 2 else da_busy d)
|}.

Lemma demo_delivs x : Z.land (Z.ldiff x DELIVS) DELIVS = 0.
Proof.
  apply Z.bits_inj'. intros n Hn. rewrite Z.land_spec, Z.ldiff_spec, Z.bits_0. by destruct (Z.testbit x n), (Z.testbit DELIVS n).
Qed.

#[global] Instance demo_apic_laws : LocalApicLaws demo_apic.
Proof.
  refine {| lregs := da_regs; ipis := da_ipis; apic_id := 3; version := 0x50014; pending d := Nat.min 2 (da_busy d); send_delay := 2 |}.
  - done.
  - done.
  - intros i d. cbn. repeat case_bool_decide; try done. by destruct (da_busy d).
  - intros i d. cbn. repeat case_bool_decide; try done. by destruct (da_busy d).
  - done.
  - done.
  - intros d. cbn [reg_read demo_local_apic]. change (bool_decide (ICRLO = ID)) with false. change (bool_decide (ICRLO = VER)) with false.
    change (bool_decide (ICRLO = ICRLO)) with true. cbn match. destruct (da_busy d); cbn [fst snd da_busy]; [by rewrite demo_delivs|lia].
  - intros d. lia.
Defined.

(** A clock with 64 accesses to the second, whose registers cannot be read during
    the last of them. *)
Record demo_rtc : Type := DemoRtc { dr_sel : Z; dr_ram : Z → Z; dr_ticks : Z }.

Definition dr_quiet (c : demo_rtc) : nat := Z.to_nat (63 - dr_ticks c mod 64).

Definition dr_calendar (t : Z) : rtcdate := Rtcdate (t mod 60) (t / 60 mod 60) (t / 3600 mod 24) 14 3 24.

Definition dr_reg (c : demo_rtc) : Z :=
  let t := dr_calendar (dr_ticks c / 64) in
  let r := dr_sel c in
  if bool_decide (r = CMOS_STATA) then (if bool_decide (dr_quiet c ≤ 12)%nat then CMOS_UIP else 0)
  else if bool_decide (r = CMOS_STATB) then 2
  else if bool_decide (dr_quiet c = 0%nat) then 255
  else if bool_decide (r = SECS) then encode false (second t)
  else if bool_decide (r = MINS) then encode false (minute t)
  else if bool_decide (r = HOURS) then encode false (hour t)
  else if bool_decide (r = DAY) then encode false (day t)
  else if bool_decide (r = MONTH) then encode false (month t)
  else if bool_decide (r = YEAR) then encode false (year t)
  else dr_ram c r.

#[global] Instance demo_cmos : Cmos demo_rtc := {|
  cport_in p c := (dr_reg c, DemoRtc (dr_sel c) (dr_ram c) (dr_ticks c + 1));
  cport_out p v c :=
    if bool_decide (p = CMOS_PORT) then DemoRtc v (dr_ram c) (dr_ticks c + 1)
    else DemoRtc (dr_sel c) (<[dr_sel c := v]> (dr_ram c)) (dr_ticks c + 1)
|}.

Lemma dr_tick t : t / 64 ≤ (t + 1) / 64 ∧
  ((0 < Z.to_nat (63 - t mod 64))%nat → (t + 1) / 64 = t / 64 ∧ (Z.to_nat (63 - t mod 64) ≤ S (Z.to_nat (63 - (t + 1) mod 64)))%nat).
Proof. Z.div_mod_to_equations. lia. Qed.

#[global] Instance demo_cmos_laws : CmosLaws demo_rtc.
Proof.
  refine {| csel := dr_sel; cram := dr_ram; now c := dr_ticks c / 64; quiet := dr_quiet; binary := false; h24 := true; calendar := dr_calendar |}.
  - done.
  - done.
  - intros p v c. unfold dr_quiet. cbn. case_bool_decide; apply dr_tick.
  - intros p c. apply dr_tick.
  - intros c r f Hin Hr Hq. cbn [cport_in demo_cmos fst]. unfold dr_reg. rewrite Hr.
    rewrite (bool_decide_eq_false_2 (dr_quiet c = 0%nat)) by lia.
    repeat (apply elem_of_cons in Hin as [[= -> ->]|Hin]; [done|]). by apply elem_of_nil in Hin.
  - intros c Hc. cbn [cport_in demo_cmos fst]. unfold dr_reg. rewrite Hc. by repeat split.
  - intros c Hc. cbn [cport_in demo_cmos fst snd]. unfold dr_reg. rewrite Hc. change (bool_decide (CMOS_STATA = CMOS_STATA)) with true.
    cbn match. destruct (decide (dr_quiet c ≤ 12)%nat) as [Hq|Hq].
    + rewrite bool_decide_eq_true_2 by done. by rewrite decide_False by done.
    + rewrite bool_decide_eq_false_2 by done. rewrite decide_True by done. revert Hq. unfold dr_quiet, WINDOW. cbn [dr_ticks].
      Z.div_mod_to_equations. lia.
  - intros t. unfold dr_calendar, two_digits. cbn. Z.div_mod_to_equations. lia.
Defined.

Definition demo_lst (t : Z) : lst demo_apic demo_rtc :=
  Lst 0xFEE00000 (DemoApic (λ _, 0) [] 0) (DemoRtc 0 (λ _, 0) t) (λ _, 0).

(** Processor 1 is started at the page of [entryother.S]. *)
Lemma lapicstartap_starts_witness :
  wpt (lapicstartap 1 0x7000) (λ _ s', (∃ l, ipis (ldev s') = l ∧ ∀ cs, foldl deliver cs l 1 = Running 0x7000) ∧
    16 * Mp.get16 (lmem s') (WRV + 2) = 0x7000) (demo_lst 0).
Proof.
  eapply wpt_mono; [apply (lapicstartap_starts (demo_lst 0) 1 0x7000); [lia|lia|reflexivity]|].
  intros [] s' ((l & E & H) & _ & _ & H4). split; [|exact H4]. exists l. split; [exact E|]. intros cs. exact (H cs 1).
Defined.

(** 12:34:56, shortly before the registers change: the first turn of the loop finds the
    update in progress, and the second one two different dates. *)
Lemma cmostime_gives_date_witness :
  ∃ r s', cmostime 3 (demo_lst (45296 * 64 + 40)) = Ok r s' ∧ hour r = 12 ∧ minute r = 34 ∧ year r = 2024 ∧
    ∃ τ, r = add_century (calendar τ).
Proof.
  destruct (cmostime_gives_date 3 (demo_lst (45296 * 64 + 40))) as [H1 _].
  assert (E : match cmostime 3 (demo_lst (45296 * 64 + 40)) with
    | Ok r _ => bool_decide (hour r = 12 ∧ minute r = 34 ∧ year r = 2024) | _ => false end = true) by (vm_compute; reflexivity).
  destruct (cmostime 3 (demo_lst (45296 * 64 + 40))) as [r s'| | |]; [|discriminate..].
  exists r, s'. apply bool_decide_eq_true in E as (E1 & E2 & E3). split; [reflexivity|]. split; [exact E1|]. split; [exact E2|].
  split; [exact E3|]. destruct (H1 r s' eq_refl) as (τ & _ & Hτ). exists τ. exact Hτ.
Defined.

End LapicThm.
