(* ===== verification/Main.v ===== *)
(** * Starting the other processors

    [startothers] and [entrypgdir] of [src/main.c].  The other processors run while
    the boot processor waits for them; what they do is a parameter. *)

From S2P Require Import Prelude Strings Spinlock Kalloc Vm VmInv VmThm Gates Mp Lapic LapicThm.

Module Main.
Import Lapic LapicThm.

(** ** The first page table *)

Definition PTE_PS : Z := 0x080.
Definition PDXSHIFT : Z := 22.

(** The entries of [entrypgdir]. *)
Definition entrypgdir (i : Z) : Z :=
  if bool_decide (i = 0) then Z.lor (Z.lor (Z.lor 0 PTE_P) PTE_W) PTE_PS
  else if bool_decide (i = Z.shiftr KERNBASE PDXSHIFT) then Z.lor (Z.lor (Z.lor 0 PTE_P) PTE_W) PTE_PS
  else 0.

(** The translation of the processor for pages of 4 megabytes. *)
Definition big_page (pgdir : Z → Z) (va : Z) : option Z :=
  let e := pgdir (PDX va) in
  if bool_decide (Z.land e PTE_P = 0 ∨ Z.land e PTE_PS = 0) then None
  else Some (Z.land e 0xFFC00000 + va mod 2 ^ 22).

Lemma PDX_shift22 va : 0 ≤ va < 2 ^ 32 → PDX va = va / 2 ^ 22.
Proof.
  intros Hv. unfold PDX. change 0x3FF with (Z.ones 10). rewrite Z.land_ones, Z.shiftr_div_pow2 by lia.
  apply Z.mod_small. split; [apply Z.div_pos; lia|apply Z.div_lt_upper_bound; lia].
Qed.

(** Both the low addresses and those from [KERNBASE] on are the first 4 megabytes of
    memory, so that the kernel goes on when it begins to use its own addresses; no
    other address is mapped. *)
Theorem entrypgdir_maps va :
  0 ≤ va < 2 ^ 32 →
  big_page entrypgdir va =
    if bool_decide (va < 2 ^ 22) then Some va
    else if bool_decide (KERNBASE ≤ va < KERNBASE + 2 ^ 22) then Some (va - KERNBASE) else None.
Proof.
  intros Hv. unfold big_page, entrypgdir. rewrite PDX_shift22 by done. change (Z.shiftr KERNBASE PDXSHIFT) with 512.
  change (Z.lor (Z.lor (Z.lor 0 PTE_P) PTE_W) PTE_PS) with 131.
  assert (Hbits : bool_decide (Z.land 131 PTE_P = 0 ∨ Z.land 131 PTE_PS = 0) = false) by done.
  pose proof (Z.div_mod va (2 ^ 22) ltac:(lia)) as Hd. pose proof (Z.mod_pos_bound va (2 ^ 22) ltac:(lia)).
  unfold KERNBASE. destruct (decide (va < 2 ^ 22)) as [Hlo|Hhi].
  - rewrite (bool_decide_eq_true_2 (va < 2 ^ 22)) by done. rewrite (Z.div_small va) by lia.
    rewrite (bool_decide_eq_true_2 (0 = 0)) by done. rewrite Hbits, Z.mod_small by lia. done.
  - rewrite (bool_decide_eq_false_2 (va < 2 ^ 22)) by done.
    rewrite (bool_decide_eq_false_2 (va / 2 ^ 22 = 0)) by (intros E; rewrite E in Hd; lia).
    destruct (decide (va / 2 ^ 22 = 512)) as [E|Hne].
    + rewrite E in Hd. rewrite (bool_decide_eq_true_2 (va / 2 ^ 22 = 512)) by done.
      rewrite (bool_decide_eq_true_2 (2147483648 ≤ va < 2147483648 + 2 ^ 22)) by lia.
      rewrite Hbits. change (Z.land 131 0xFFC00000) with 0. f_equal. lia.
    + rewrite (bool_decide_eq_false_2 (va / 2 ^ 22 = 512)) by done. rewrite (bool_decide_eq_true_2 (_ ∨ _)) by (by left).
      rewrite bool_decide_eq_false_2; [done|]. intros Hk. apply Hne. symmetry. apply (Z.div_unique _ _ _ (va - 0x80000000)); lia.
Qed.

(** ** The kernel's page table *)

(** The allocator, [kpgdir], and the registers of the processor. *)
Record kvm : Type := Kvm { kv_km : kmem; kpgdir : Z; kv_regs : Gates.sysregs }.

Definition set_kv_km (k : kmem) (s : kvm) : kvm := Kvm k (kpgdir s) (kv_regs s).
Definition set_kpgdir (d : Z) (s : kvm) : kvm := Kvm (kv_km s) d (kv_regs s).

(** [lcr3(V2P(kpgdir))] *)
Definition switchkvm : M kvm unit :=
  modify (λ s, let c := kv_regs s in Kvm (kv_km s) (kpgdir s) (Gates.Sysregs (Gates.gdt c) (Gates.ss0 c) (Gates.esp0 c) (Gates.iomb c)
    (Gates.gdtr c) (Gates.idtr c) (Gates.tr c) (V2P (kpgdir s)))).

Definition kvmalloc (kend data : Z) (me : nat) : M kvm unit :=
  d ← zoom kv_km set_kv_km (setupkvm kend data me);
  modify (set_kpgdir d) ;;
  switchkvm.

(** With enough free pages, the processor uses a page table with exactly the entries
    of the kernel after [kvmalloc]. *)
Lemma kvmalloc_ok kend me all data O s L :
  0 < kend → NoDup all → Forall (vpage kend) all → data_ok data → pool kend me all O (kv_km s) L → (1025 < length L)%nat →
  wpt (kvmalloc kend data me) (λ _ s', Gates.cr3 (kv_regs s') = V2P (kpgdir s') ∧
    ∃ L' T', vm kend me all O (kv_km s') L' (kpgdir s') T' (kernel_entries data)) s.
Proof.
  intros Hk Hnd Hall Hdata Hpool Hl. destruct (setupkvm_spec kend me all Hk Hnd Hall data O (kv_km s) L Hdata Hpool) as (k' & _ & Hres).
  destruct Hres as [(d & L' & T' & E & _ & Hvm & _)|(_ & Hle & _)]; [|lia].
  apply wpt_bind, wpt_zoom. eapply wpt_eq; [exact E|]. apply wpt_bind, wpt_modify, wpt_modify. split; [done|]. by exists L', T'.
Qed.

(** ** [startothers] *)

(** The address of the entry code. *)
Definition CODE : Z := P2V 0x7000.
Definition KSTACKSIZE : Z := 4096.

Definition put32 (a v : Z) (m : mem) : mem :=
  Mp.load a [u8 v; u8 (Z.shiftr v 8); u8 (Z.shiftr v 16); u8 (Z.shiftr v 24)] m.

Section Main.

Context {D C : Type} {DEV : LocalApic D} {CMOS : Cmos C}.

(** The boot processor's controller, with memory; the page allocator; and for each
    of [cpus] its [apicid] and [started]. *)
Record sst : Type := Sst { slap : lst D C; skm : kmem; scpus : list (Z * bool) }.

Definition set_slap (l : lst D C) (s : sst) : sst := Sst l (skm s) (scpus s).
Definition set_skm (k : kmem) (s : sst) : sst := Sst (slap s) k (scpus s).

Definition poke (f : mem → mem) : M sst unit := modify (λ s, set_slap (set_lmem (f (lmem (slap s))) (slap s)) s).

(** What the other processors do while the boot processor waits for number [i]. *)
Context (env : nat → sst → sst).

(** The image of [entryother.S], and the addresses of [mpenter] and [entrypgdir]. *)
Context (entryother : list Z) (mpenter entrypgdir_addr : Z).

(** [while(c->started == 0);] *)
Fixpoint wait_started (fuel : nat) (i : nat) : M sst unit :=
  match fuel with
  | O => spin
  | S fuel =>
      c ← gets (λ s, scpus s !! i);
      if bool_decide (snd <$> c = Some true) then mret tt else modify (env i) ;; wait_started fuel i
  end.

Definition start_one (me fuel i : nat) : M sst unit :=
  stack ← zoom skm set_skm (kalloc me);
  poke (put32 (CODE - 4) (u32 (stack + KSTACKSIZE))) ;;
  poke (put32 (CODE - 8) mpenter) ;;
  poke (put32 (CODE - 12) (V2P entrypgdir_addr)) ;;
  c ← gets (λ s, scpus s !! i);
  zoom slap set_slap (lapicstartap (default 0 (fst <$> c)) (V2P CODE)) ;;
  wait_started fuel i.

Definition startothers (me fuel : nat) : M sst unit :=
  poke (Mp.load CODE entryother) ;;
  n ← gets (λ s, length (scpus s));
  for_range 0 n (λ i, if bool_decide (i = me) then mret tt else start_one me fuel i).

(** ** What they do *)

Context {LAWS : LocalApicLaws D} {CLAWS : CmosLaws C}.

(** The state of processor [a], when the processors were as in [cs] at first. *)
Definition processor (cs : Z → ap) (s : sst) (a : Z) : ap := foldl deliver cs (ipis (ldev (slap s))) a.

(** What a processor that begins at the entry code reads there: its stack, the
    function to call and the page table. *)
Definition told (s : sst) (stack : Z) : Prop :=
  Mp.get32 (lmem (slap s)) (CODE - 4) = u32 (stack + KSTACKSIZE) ∧ Mp.get32 (lmem (slap s)) (CODE - 8) = mpenter ∧
  Mp.get32 (lmem (slap s)) (CODE - 12) = V2P entrypgdir_addr.

(** A processor that runs at the entry code, and has been told what to do, sets
    [started] within [delay] turns; the others are quiet. *)
Record env_ok (cs : Z → ap) (delay : nat) : Prop := EnvOk {
  eo_quiet : ∀ i s, slap (env i s) = slap s ∧ skm (env i s) = skm s ∧ length (scpus (env i s)) = length (scpus s) ∧
    ∀ j, j ≠ i → scpus (env i s) !! j = scpus s !! j;
  eo_start : ∀ i s a stack, scpus s !! i = Some (a, false) → processor cs s a = Running 0x7000 → told s stack →
    ∃ n, (n ≤ delay)%nat ∧ scpus (Nat.iter n (env i) s) !! i = Some (a, true) ∧
      ∀ m, (m < n)%nat → scpus (Nat.iter m (env i) s) !! i = Some (a, false);
}.

Lemma iter_quiet cs delay n : ∀ i s, env_ok cs delay →
  slap (Nat.iter n (env i) s) = slap s ∧ skm (Nat.iter n (env i) s) = skm s ∧
  length (scpus (Nat.iter n (env i) s)) = length (scpus s) ∧ ∀ j, j ≠ i → scpus (Nat.iter n (env i) s) !! j = scpus s !! j.
Proof.
  induction n as [|n IH]; intros i s He; [done|]. destruct (IH i s He) as (E1 & E2 & E3 & E4). change (Nat.iter (S n) (env i) s) with (env i (Nat.iter n (env i) s)).
  destruct (eo_quiet _ _ He i (Nat.iter n (env i) s)) as (F1 & F2 & F3 & F4). rewrite F1, F2, F3. split_and!; [done..|].
  intros j Hj. by rewrite F4, E4.
Qed.

Lemma wait_started_ok n : ∀ fuel i s a, (n < fuel)%nat → scpus (Nat.iter n (env i) s) !! i = Some (a, true) →
  (∀ m, (m < n)%nat → scpus (Nat.iter m (env i) s) !! i = Some (a, false)) →
  wait_started fuel i s = Ok tt (Nat.iter n (env i) s).
Proof.
  induction n as [|n IH]; intros [|fuel] i s a Hf H1 H2; try lia; cbn [wait_started]; rewrite (bind_step (gets _) _ s _ _ eq_refl).
  - change (Nat.iter 0 (env i) s) with s in *. rewrite H1. done.
  - pose proof (H2 0%nat ltac:(lia)) as E0. change (Nat.iter 0 (env i) s) with s in E0. rewrite E0. cbn [fmap option_fmap option_map snd].
    rewrite bool_decide_eq_false_2 by done. rewrite (bind_step (modify _) _ s tt (env i s) eq_refl).
    rewrite (IH fuel i (env i s) a); [by rewrite Nat.iter_succ_r|lia|by rewrite <- Nat.iter_succ_r|].
    intros m Hm. rewrite <- Nat.iter_succ_r. apply H2. lia.
Qed.

Lemma get32_put32 a v m : 0 ≤ v < 2 ^ 32 → Mp.get32 (put32 a v m) a = v.
Proof.
  intros Hv. unfold Mp.get32, put32, Mp.load. cbn [length]. rewrite !bool_decide_eq_true_2 by lia.
  replace (a - a) with 0 by lia. replace (a + 1 - a) with 1 by lia. replace (a + 2 - a) with 2 by lia. replace (a + 3 - a) with 3 by lia.
  change (Z.to_nat 0) with 0%nat. change (Z.to_nat 1) with 1%nat. change (Z.to_nat 2) with 2%nat. change (Z.to_nat 3) with 3%nat.
  cbn [nth]. unfold u8. rewrite !Z.shiftr_div_pow2 by lia. Z.div_mod_to_equations. lia.
Qed.

Lemma mem_get32_put32_ne a b v m : b + 4 ≤ a ∨ a + 4 ≤ b → Mp.get32 (put32 b v m) a = Mp.get32 m a.
Proof. intros Hab. unfold Mp.get32, put32, Mp.load. cbn [length]. by rewrite !bool_decide_eq_false_2 by lia. Qed.

Lemma get32_put16_ne a b v m : b + 2 ≤ a ∨ a + 4 ≤ b → Mp.get32 (put16 b v m) a = Mp.get32 m a.
Proof. intros Hab. unfold Mp.get32, put16, Mp.load. cbn [length]. by rewrite !bool_decide_eq_false_2 by lia. Qed.

Section Start.

Context (cs : Z → ap) (delay : nat) (Henv : env_ok cs delay).
Context (kend : Z) (Hkend : 0 < kend) (Hmp : 0 ≤ mpenter < 2 ^ 32).

(** Pages can be allocated. *)
Definition pages_free (me : nat) (s : sst) (l : list Z) : Prop := km_ready me (skm s) ∧ free_pages kend (skm s) l.

Lemma start_one_ok me fuel i s a v l :
  (delay < fuel)%nat → scpus s !! i = Some (a, false) → 0 ≤ a < 256 → pages_free me s (v :: l) →
  wpt (start_one me fuel i) (λ _ s', pages_free me s' l ∧ scpus s' !! i = Some (a, true) ∧
    (∀ j, j ≠ i → scpus s' !! j = scpus s !! j) ∧ length (scpus s') = length (scpus s) ∧
    ∀ b, processor cs s' b = <[a := Running 0x7000]> (processor cs s) b) s.
Proof using Henv Hkend Hmp CLAWS.
  intros Hf Hi Ha [Hr Hp]. destruct (kalloc_spec kend me (skm s) (v :: l) Hr Hp) as (k & Ek & Hp' & Hfr & _). cbn [hd tl] in *.
  unfold start_one. apply wpt_bind, wpt_zoom. eapply wpt_eq; [exact Ek|]. do 3 (apply wpt_bind, wpt_modify).
  set (s1 := set_slap _ _). apply wpt_bind, wpt_gets. change (scpus s1) with (scpus s). rewrite Hi. cbn [fmap option_fmap option_map fst default].
  apply wpt_bind, wpt_zoom. change (V2P CODE) with 0x7000.
  eapply wpt_mono; [apply (lapicstartap_ok (slap s1) a 0x7000); [done|lia|reflexivity]|].
  intros [] lp ((ms & Ems & Hms) & _ & Hmem). set (s2 := set_slap lp s1).
  assert (Ht : told s2 v).
  { unfold told. change (lmem (slap s2)) with (lmem lp). rewrite Hmem, !get32_put16_ne by (change CODE with 0x80007000; change WRV with 0x80000467; lia).
    unfold s1. cbn [lmem slap set_lmem set_slap]. split_and!.
    - rewrite !mem_get32_put32_ne by lia. apply get32_put32, u32_range.
    - rewrite mem_get32_put32_ne by lia. by apply get32_put32.
    - apply get32_put32, u32_range. }
  assert (Hpr : ∀ b, processor cs s2 b = <[a := Running 0x7000]> (processor cs s) b).
  { intros b. unfold processor. change (slap s2) with lp. rewrite Ems, foldl_app. apply Hms. }
  destruct (eo_start _ _ Henv i s2 a v) as (n & Hn & Hon & Hoff); [done|rewrite Hpr; apply fn_lookup_insert|done|].
  eapply wpt_eq; [apply (wait_started_ok n fuel i s2 a); [lia|done|done]|].
  destruct (iter_quiet cs delay n i s2 Henv) as (E1 & E2 & E3 & E4).
  split_and!; [|done|done|done|intros b; unfold processor; rewrite E1; apply Hpr].
  unfold pages_free. rewrite E2. split; [by eapply km_frame_ready|done].
Qed.

(** All the other processors, with different numbers, none of them started. *)
Record others_off (me : nat) (s : sst) : Prop := OthersOff {
  oo_me : (me < length (scpus s))%nat;
  oo_ids : ∀ i a b, scpus s !! i = Some (a, b) → 0 ≤ a < 256 ∧ (i ≠ me → b = false);
  oo_nodup : NoDup (scpus s).*1;
}.

(** C18: [startothers] returns, and then every other processor runs at the entry code
    and has said that it is up; one page of the allocator per processor has been taken
    for its stack, and the boot processor has not been reset. *)
Theorem startothers_starts_all me fuel s l :
  (delay < fuel)%nat → others_off me s → pages_free me s l → (length (scpus s) ≤ S (length l))%nat →
  wpt (startothers me fuel) (λ _ s',
    (∀ i a b, scpus s !! i = Some (a, b) → i ≠ me → scpus s' !! i = Some (a, true) ∧ processor cs s' a = Running 0x7000) ∧
    (∀ a b, scpus s !! me = Some (a, b) → processor cs s' a = processor cs s a) ∧
    pages_free me s' (drop (length (scpus s) - 1) l)) s.
Proof using Henv Hkend Hmp CLAWS.
  intros Hf [Hme Hids Hnd] Hp Hl. unfold startothers. apply wpt_bind, wpt_modify, wpt_bind, wpt_gets.
  set (s0 := set_slap _ s). change (scpus s0) with (scpus s). set (N := length (scpus s)) in *.
  eapply wpt_mono.
  - apply (wpt_for_range (λ n s', length (scpus s') = N ∧
      (∀ i a b, scpus s !! i = Some (a, b) → (i < n)%nat → i ≠ me → scpus s' !! i = Some (a, true) ∧ processor cs s' a = Running 0x7000) ∧
      (∀ i, (n ≤ i)%nat → scpus s' !! i = scpus s !! i) ∧
      (∀ a b, scpus s !! me = Some (a, b) → processor cs s' a = processor cs s a) ∧
      pages_free me s' (drop (n - if bool_decide (me < n)%nat then 1 else 0) l))).
    + split_and!; [done|lia|done|done|]. rewrite bool_decide_eq_false_2 by lia. exact Hp.
    + intros n s1 Hn (HN & Hdone & Hrest & Hboot & Hpg). destruct (decide (n = me)) as [->|Hb].
      * rewrite (bool_decide_eq_true_2 (me = me)) by done. apply wpt_ret. split_and!; [done| | |done|].
        -- intros i a b Hi Hlt Hne. apply (Hdone i a b); [done|lia|done].
        -- intros i Hle. apply Hrest. lia.
        -- rewrite (bool_decide_eq_true_2 (me < S me)%nat) by lia. rewrite bool_decide_eq_false_2 in Hpg by lia.
           by replace (S me - 1)%nat with (me - 0)%nat by lia.
      * rewrite (bool_decide_eq_false_2 (n = me)) by done. destruct (lookup_lt_is_Some_2 (scpus s) n) as [[a b] Hi]; [lia|]. destruct (Hids n a b Hi) as [Ha Hoff]. rewrite Hoff in Hi by done.
        set (q := (n - if bool_decide (me < n)%nat then 1 else 0)%nat) in *.
        destruct (drop q l) as [|v l'] eqn:Ed.
        { exfalso. apply (f_equal length) in Ed. rewrite length_drop in Ed. cbn in Ed. unfold q in Ed. case_bool_decide; lia. }
        eapply wpt_mono; [apply (start_one_ok me fuel n s1 a v l'); [done|by rewrite Hrest|done|done]|].
        intros [] s2 (Hp2 & Hon & Hoth & HN2 & Hpr).
        assert (Hdist : ∀ i a' b', scpus s !! i = Some (a', b') → i ≠ n → a' ≠ a).
        { intros i a' b' Hi' Hne ->. apply Hne. eapply (NoDup_lookup _ _ _ a Hnd); by rewrite list_lookup_fmap, ?Hi', ?Hi. }
        split_and!; [by rewrite HN2| | | |].
        -- intros i a' b' Hi' Hlt Hne. destruct (decide (i = n)) as [->|Hin].
           ++ rewrite Hi in Hi'. injection Hi' as <- <-. split; [done|]. rewrite Hpr. apply fn_lookup_insert.
           ++ rewrite Hoth by done. rewrite Hpr, fn_lookup_insert_ne by (by eapply not_eq_sym, Hdist). apply (Hdone i a' b'); [done|lia|done].
        -- intros i Hle. rewrite Hoth by lia. apply Hrest. lia.
        -- intros a' b' Hi'. rewrite Hpr, fn_lookup_insert_ne by (eapply not_eq_sym, Hdist; [exact Hi'|done]). by eapply Hboot.
        -- assert (E : drop (S q) l = l') by (rewrite <- Nat.add_1_r, <- drop_drop, Ed; done).
           replace (S n - _)%nat with (S q); [by rewrite E|]. unfold q. repeat case_bool_decide; lia.
  - cbn beta. intros [] s1 (HN & Hdone & _ & Hboot & Hpg). split_and!; [|done|].
    + intros i a b Hi Hne. apply (Hdone i a b); [done|apply lookup_lt_Some in Hi; unfold N; lia|done].
    + rewrite bool_decide_eq_true_2 in Hpg by lia. exact Hpg.
Qed.

End Start.

End Main.

(** ** Three processors *)

(** A processor that sets [started] at once. *)
Definition demo_env (i : nat) (s : sst (D := demo_apic) (C := demo_rtc)) : sst :=
  Sst (slap s) (skm s) (alter (λ c, (c.1, true)) i (scpus s)).

Lemma demo_env_ok mpenter pg : env_ok demo_env mpenter pg (λ _, Halted) 1.
Proof.
  split.
  - intros i s. cbn. split_and!; [done|done|by rewrite length_alter|]. intros j Hj. by rewrite list_lookup_alter_ne.
  - intros i s a stack Hi _ _. exists 1%nat. split; [lia|]. split.
    + cbn. by rewrite list_lookup_alter_eq, Hi.
    + intros m Hm. by replace m with 0%nat by lia.
Qed.

Definition demo_start : sst (D := demo_apic) (C := demo_rtc) := Sst (demo_lst 0) demo_kmem [(0, true); (1, false); (5, false)].

Lemma demo_start_off : others_off 0 demo_start.
Proof.
  split; [cbn; lia| |].
  - intros [|[|[|i]]] a b E; try discriminate; injection E as <- <-; split; (done || lia).
  - apply (bool_decide_unpack _). vm_compute. exact I.
Qed.

Lemma startothers_starts_all_witness :
  wpt (startothers demo_env [] 0x80103000 0x8010a000 0 2) (λ _ s',
    scpus s' !! 2%nat = Some (5, true) ∧ processor (λ _, Halted) s' 5 = Running 0x7000 ∧ processor (λ _, Halted) s' 0 = Halted) demo_start.
Proof.
  eapply wpt_mono.
  - apply (startothers_starts_all demo_env [] 0x80103000 0x8010a000 (λ _, Halted) 1 (demo_env_ok _ _) demo_kend ltac:(vm_compute; reflexivity)
      ltac:(lia) 0 2 demo_start [0x80112000; 0x80111000]).
    + lia.
    + exact demo_start_off.
    + split; [exact demo_kmem_ready|exact demo_kmem_pages].
    + cbn. lia.
  - intros [] s' (H1 & H2 & _). destruct (H1 2%nat 5 false eq_refl ltac:(discriminate)) as [H3 H4]. split; [exact H3|]. split; [exact H4|].
    exact (H2 0 true eq_refl).
Defined.

End Main.
