(* ===== verification/Ioapic.v ===== *)
(** * The interrupt controllers of the board

    [src/ioapic.c] routes the interrupts of the devices to the processors;
    [src/picirq.c] disables the older controllers.  The I/O APIC is a device with
    two words: the number of a register and its contents. *)

From S2P Require Import Prelude Lapic.

Module Ioapic.

Definition REG_ID : Z := 0x00.
Definition REG_VER : Z := 0x01.
Definition REG_TABLE : Z := 0x10.
Definition INT_DISABLED : Z := 0x10000.

Abbreviation T_IRQ0 := Lapic.T_IRQ0.

(** The offsets of the fields of [struct ioapic]. *)
Definition IO_REG : Z := 0.
Definition IO_DATA : Z := 16.

Class IoApic (D : Type) : Type := {
  mmio_read : Z → D → Z * D;
  mmio_write : Z → Z → D → D;
}.

Section Ioapic.

Context {D : Type} `{IoApic D}.

(** [ioapicid] is set by [mpinit]; [said] are the lines printed by [cprintf]. *)
Record iost : Type := Iost { iodev : D; ioapicid : Z; said : list string }.

Definition set_iodev (d : D) (s : iost) : iost := Iost d (ioapicid s) (said s).
Definition say (x : string) (s : iost) : iost := Iost (iodev s) (ioapicid s) (said s ++ [x]).

(** [ioapic->data] *)
Definition io_data : M iost Z := λ s, let x := mmio_read IO_DATA (iodev s) in Ok x.1 (set_iodev x.2 s).

Definition ioapicread (reg : Z) : M iost Z :=
  modify (λ s, set_iodev (mmio_write IO_REG (u32 reg) (iodev s)) s) ;;
  io_data.

Definition ioapicwrite (reg data : Z) : M iost unit :=
  modify (λ s, set_iodev (mmio_write IO_REG (u32 reg) (iodev s)) s) ;;
  modify (λ s, set_iodev (mmio_write IO_DATA (u32 data) (iodev s)) s).

Definition ioapicinit : M iost unit :=
  v ← ioapicread REG_VER;
  let maxintr := Z.land (Z.shiftr v 16) 0xFF in
  w ← ioapicread REG_ID;
  let id := Z.shiftr w 24 in
  n ← gets ioapicid;
  (if bool_decide (id ≠ n) then modify (say "ioapicinit: id isn't equal to ioapicid; not a MP") else mret tt) ;;
  for_range 0 (S (Z.to_nat maxintr)) (λ i,
    ioapicwrite (REG_TABLE + 2 * Z.of_nat i) (Z.lor INT_DISABLED (T_IRQ0 + Z.of_nat i)) ;;
    ioapicwrite (REG_TABLE + 2 * Z.of_nat i + 1) 0).

Definition ioapicenable (irq cpunum : Z) : M iost unit :=
  ioapicwrite (REG_TABLE + 2 * irq) (T_IRQ0 + irq) ;;
  ioapicwrite (REG_TABLE + 2 * irq + 1) (Z.shiftl cpunum 24).

End Ioapic.

Arguments iost : clear implicits.

(** ** The older controllers *)

Definition IO_PIC1 : Z := 0x20.
Definition IO_PIC2 : Z := 0xA0.

(** The last byte written to each port. *)
Definition outb (port data : Z) : M (Z → Z) unit := modify <[port := u8 data]>.

Definition picinit : M (Z → Z) unit :=
  outb (IO_PIC1 + 1) 0xFF ;;
  outb (IO_PIC2 + 1) 0xFF.

(** ** What the I/O APIC promises *)

(** [io_regs] are the registers, by number, and [io_sel] the one selected.  Only the
    table of [io_pins] pins is written. *)
Class IoApicLaws (D : Type) `{IoApic D} : Type := {
  io_sel : D → Z;
  io_regs : D → Z → Z;
  io_pins : nat;
  write_sel : ∀ v d, io_sel (mmio_write IO_REG v d) = v ∧ io_regs (mmio_write IO_REG v d) = io_regs d;
  write_table : ∀ v d, REG_TABLE ≤ io_sel d < REG_TABLE + 2 * Z.of_nat io_pins →
    ∀ r, io_regs (mmio_write IO_DATA v d) r = (<[io_sel d := v]> (io_regs d)) r;
  read_data : ∀ d, (mmio_read IO_DATA d).1 = io_regs d (io_sel d) ∧ io_regs (mmio_read IO_DATA d).2 = io_regs d;
  ver_pins : ∀ d, Z.land (Z.shiftr (io_regs d REG_VER) 16) 0xFF = Z.of_nat io_pins - 1;
}.

(** What happens to interrupt [i]: nothing, or its vector, its mode and the
    processor. *)
Definition route (r : Z → Z) (i : Z) : option (Z * Z * Z) :=
  let lo := r (REG_TABLE + 2 * i) in
  if bool_decide (Z.land lo INT_DISABLED = 0)
  then Some (Z.land lo 0xff, Z.land lo 0xff00, Z.shiftr (r (REG_TABLE + 2 * i + 1)) 24) else None.

Section Thm.

Context {D : Type} {DEV : IoApic D} {LAWS : IoApicLaws D}.
Implicit Types s : iost D.

Definition regs s : Z → Z := io_regs (iodev s).

(** A register of the table. *)
Definition in_table (reg : Z) : Prop := REG_TABLE ≤ reg < REG_TABLE + 2 * Z.of_nat io_pins.

Lemma pins_small s : (1 ≤ io_pins ≤ 256)%nat.
Proof.
  pose proof (ver_pins (iodev s)) as Hv.
  pose proof (Z.land_ones (Z.shiftr (io_regs (iodev s) REG_VER) 16) 8 ltac:(lia)) as Ho. change (Z.ones 8) with 0xFF in Ho.
  pose proof (Z.mod_pos_bound (Z.shiftr (io_regs (iodev s) REG_VER) 16) (2 ^ 8) eq_refl). lia.
Qed.

Lemma ioapicread_ok reg s : 0 ≤ reg < 2 ^ 32 →
  ∃ s', ioapicread reg s = Ok (regs s reg) s' ∧ regs s' = regs s ∧ ioapicid s' = ioapicid s.
Proof.
  intros Hr. unfold ioapicread. rewrite u32_small by done. destruct (write_sel reg (iodev s)) as [E1 E2].
  destruct (read_data (mmio_write IO_REG reg (iodev s))) as [E3 E4]. rewrite E1, E2 in *. unfold regs.
  eexists. split; [unfold mbind, M_bind, modify, io_data; cbn [iodev set_iodev]; by rewrite E3|]. by cbn [iodev set_iodev ioapicid].
Qed.

Lemma ioapicwrite_ok reg v s : in_table reg →
  wpt (ioapicwrite reg v) (λ _ s', ∀ r, regs s' r = (<[reg := u32 v]> (regs s)) r) s.
Proof.
  intros Hr. pose proof (pins_small s). apply wpt_bind, wpt_modify, wpt_modify. intros r. unfold regs. cbn [iodev set_iodev].
  rewrite (u32_small reg) by (unfold in_table, REG_TABLE in Hr; lia). destruct (write_sel reg (iodev s)) as [E1 E2].
  rewrite write_table by (by rewrite E1). by rewrite E1, E2.
Qed.

(** The two registers of pin [i] are written, and with them only its route changes. *)
Lemma pin_ok lo hi s i : 0 ≤ i < Z.of_nat io_pins → 0 ≤ lo < 2 ^ 32 → 0 ≤ hi < 2 ^ 32 →
  wpt (ioapicwrite (REG_TABLE + 2 * i) lo ;; ioapicwrite (REG_TABLE + 2 * i + 1) hi) (λ _ s',
    route (regs s') i = (if bool_decide (Z.land lo INT_DISABLED = 0) then Some (Z.land lo 0xff, Z.land lo 0xff00, Z.shiftr hi 24) else None) ∧
    ∀ j, j ≠ i → route (regs s') j = route (regs s) j) s.
Proof.
  intros Hi Hlo Hhi. apply wpt_bind. eapply wpt_mono; [apply ioapicwrite_ok; unfold in_table; lia|]. intros [] s1 E1.
  eapply wpt_mono; [apply ioapicwrite_ok; unfold in_table; lia|]. intros [] s2 E2.
  unfold route. split.
  - rewrite !E2, fn_lookup_insert, fn_lookup_insert_ne, E1, fn_lookup_insert by lia. by rewrite !u32_small.
  - intros k Hk. by rewrite !E2, !fn_lookup_insert_ne, !E1, !fn_lookup_insert_ne by lia.
Qed.

(** ** Routing *)

(** The devices ask for their interrupts one after the other. *)
Fixpoint enable_all (es : list (Z * Z)) : M (iost D) unit :=
  match es with
  | [] => mret tt
  | (irq, cpunum) :: es => ioapicenable irq cpunum ;; enable_all es
  end.

(** The routes that result: the last request for an interrupt counts.  The mode 0
    is edge-triggered, active high, to a processor by its number. *)
Definition routes (es : list (Z * Z)) : Z → option (Z * Z * Z) :=
  foldl (λ m e, <[e.1 := Some (T_IRQ0 + e.1, 0, e.2)]> m) (λ _, None) es.

Definition request_ok (e : Z * Z) : Prop := 0 ≤ e.1 < Z.min 224 (Z.of_nat io_pins) ∧ 0 ≤ e.2 < 256.

Lemma vector_bits v : 0 ≤ v < 512 → Z.land v INT_DISABLED = 0 ∧ Z.land (Z.lor INT_DISABLED v) INT_DISABLED ≠ 0 ∧
  0 ≤ Z.lor INT_DISABLED v < 2 ^ 32 ∧ (v < 256 → Z.land v 0xff = v ∧ Z.land v 0xff00 = 0).
Proof.
  intros Hv. assert (Hall : Forall (λ v, Z.land v INT_DISABLED = 0 ∧ Z.land (Z.lor INT_DISABLED v) INT_DISABLED ≠ 0 ∧
    0 ≤ Z.lor INT_DISABLED v < 2 ^ 32 ∧ (v < 256 → Z.land v 0xff = v ∧ Z.land v 0xff00 = 0)) (seqZ 0 512))
    by (apply (bool_decide_unpack _); vm_compute; exact I).
  rewrite Forall_forall in Hall. apply Hall, elem_of_seqZ. lia.
Qed.

Lemma ioapicinit_ok s : wpt ioapicinit (λ _ s', ∀ i, 0 ≤ i < Z.of_nat io_pins → route (regs s') i = None) s.
Proof.
  unfold ioapicinit. pose proof (pins_small s). destruct (ioapicread_ok REG_VER s) as (s1 & E1 & _); [done|].
  apply wpt_bind. eapply wpt_eq; [exact E1|]. unfold regs. rewrite ver_pins.
  destruct (ioapicread_ok REG_ID s1) as (s2 & E2 & _); [done|]. apply wpt_bind. eapply wpt_eq; [exact E2|].
  apply wpt_bind, wpt_gets, wpt_bind. set (m := if bool_decide _ then _ else _).
  assert (Hm : wpt m (λ _ _, True) s2) by (unfold m; case_bool_decide; [by apply wpt_modify|by apply wpt_ret]).
  eapply wpt_mono; [exact Hm|]. intros [] s3 _. eapply wpt_mono.
  - apply (wpt_for_range (λ n s', ∀ i, 0 ≤ i < Z.of_nat n → route (regs s') i = None)); [lia|].
    intros n s4 Hn Hi. destruct (vector_bits (T_IRQ0 + Z.of_nat n)) as (_ & Hd & Hr & _); [unfold Lapic.T_IRQ0; lia|].
    eapply wpt_mono; [apply (pin_ok (Z.lor INT_DISABLED (T_IRQ0 + Z.of_nat n)) 0 s4 (Z.of_nat n)); [lia|exact Hr|lia]|]. intros [] s5 [H1 H2] i Hlt. rewrite bool_decide_eq_false_2 in H1 by done.
    destruct (decide (i = Z.of_nat n)) as [->|Hne]; [done|]. rewrite H2 by done. apply Hi. lia.
  - intros [] s4 Hall i Hi. apply Hall. lia.
Qed.

Lemma ioapicenable_ok irq cpunum s : request_ok (irq, cpunum) →
  wpt (ioapicenable irq cpunum) (λ _ s', route (regs s') irq = Some (T_IRQ0 + irq, 0, cpunum) ∧
    ∀ j, j ≠ irq → route (regs s') j = route (regs s) j) s.
Proof.
  intros [H1 H2]. cbn [fst snd] in *. destruct (vector_bits (T_IRQ0 + irq)) as (Hz & _ & _ & Hv); [unfold Lapic.T_IRQ0; lia|].
  destruct Hv as [E1 E2]; [unfold Lapic.T_IRQ0; lia|].
  assert (Hs : Z.shiftl cpunum 24 = cpunum * 2 ^ 24) by (by rewrite Z.shiftl_mul_pow2).
  eapply wpt_mono; [apply pin_ok; [lia|unfold Lapic.T_IRQ0; lia|rewrite Hs; lia]|].
  intros [] s' [Hr Ho]. split; [|done]. rewrite Hr, Hz, E1, E2, bool_decide_eq_true_2 by done.
  rewrite Hs, Z.shiftr_div_pow2, Z.div_mul by lia. done.
Qed.

Lemma enable_all_ok es : ∀ s m, Forall request_ok es → (∀ i, 0 ≤ i < Z.of_nat io_pins → route (regs s) i = m i) →
  wpt (enable_all es) (λ _ s', ∀ i, 0 ≤ i < Z.of_nat io_pins →
    route (regs s') i = foldl (λ m e, <[e.1 := Some (T_IRQ0 + e.1, 0, e.2)]> m) m es i) s.
Proof.
  induction es as [|[irq cpu] es IH]; intros s m Hes Hm; cbn [enable_all foldl]; [by apply wpt_ret|].
  apply Forall_cons in Hes as [He Hes]. apply wpt_bind. eapply wpt_mono; [by apply ioapicenable_ok|].
  intros [] s1 [H1 H2]. apply IH; [done|]. intros i Hi. cbn [fst snd].
  destruct (decide (i = irq)) as [->|Hne]; [by rewrite fn_lookup_insert|]. rewrite fn_lookup_insert_ne by done. rewrite H2 by done. by apply Hm.
Qed.

(** After [ioapicinit] and any sequence of [ioapicenable] an interrupt reaches a
    processor exactly when it has been asked for, with its own vector and at the
    processor of the last request; all others are disabled. *)
Theorem ioapic_routes_requests es s :
  Forall request_ok es →
  wpt (ioapicinit ;; enable_all es) (λ _ s', ∀ i, 0 ≤ i < Z.of_nat io_pins → route (regs s') i = routes es i) s.
Proof.
  intros Hes. apply wpt_bind. eapply wpt_mono; [apply ioapicinit_ok|]. intros [] s1 H1. by apply enable_all_ok.
Qed.

End Thm.

(** All the interrupts of the older controllers are masked. *)
Lemma picinit_masks r : picinit r = Ok tt (<[IO_PIC2 + 1 := 0xFF]> (<[IO_PIC1 + 1 := 0xFF]> r)).
Proof. done. Qed.

(** ** A device of 24 pins *)

Record demo_ioapic : Type := DemoIo { di_sel : Z; di_regs : Z → Z }.

Definition di_read (r : Z → Z) (i : Z) : Z := if bool_decide (i = REG_VER) then 0x170011 else r i.

#[global] Instance demo_io : IoApic demo_ioapic := {|
  mmio_read o d := (di_read (di_regs d) (di_sel d), d);
  mmio_write o v d := if bool_decide (o = IO_REG) then DemoIo v (di_regs d) else DemoIo (di_sel d) (<[di_sel d := v]> (di_regs d))
|}.

#[global] Instance demo_io_laws : IoApicLaws demo_ioapic.
Proof.
  refine {| io_sel := di_sel; io_regs d := di_read (di_regs d); io_pins := 24 |}.
  - done.
  - intros v d Hd r. cbn [mmio_write demo_io]. change (bool_decide (IO_DATA = IO_REG)) with false. cbn match. cbn [di_regs].
    unfold di_read. destruct (decide (r = di_sel d)) as [->|Hne].
    + rewrite !fn_lookup_insert. by rewrite bool_decide_eq_false_2 by (unfold REG_VER, REG_TABLE in *; lia).
    + by rewrite !fn_lookup_insert_ne by done.
  - done.
  - done.
Defined.

(** The keyboard, then the disk at processor 1. *)
Lemma ioapic_routes_requests_witness :
  wpt (ioapicinit ;; enable_all [(1, 0); (14, 1)]) (λ _ s', route (regs s') 14 = Some (46, 0, 1) ∧ route (regs s') 2 = None)
    (Iost (DemoIo 0 (λ _, 0)) 0 []).
Proof.
  eapply wpt_mono; [apply (ioapic_routes_requests [(1, 0); (14, 1)] (Iost (DemoIo 0 (λ _, 0)) 0 []))|].
  - repeat apply Forall_cons_2; [unfold request_ok; cbn; lia..|apply Forall_nil_2].
  - intros [] s' Hr. cbn [io_pins demo_io_laws] in Hr. split; [rewrite (Hr 14) by lia|rewrite (Hr 2) by lia]; reflexivity.
Defined.

End Ioapic.
