(* ===== verification/Uart.v ===== *)
(** * The serial port

    [src/uart.c]: output and input over the first serial port.  The port is a
    device; a class gives the accesses to its registers, and another class states
    what its documentation says of them. *)

From S2P Require Import Prelude Lapic Ioapic Console.

Module Uart.

Definition COM1 : Z := 0x3f8.
Definition IRQ_COM1 : Z := 4.

Class Com (D : Type) : Type := {
  com_in : Z → D → Z * D;
  com_out : Z → Z → D → D;
}.

Section Uart.

Context {D I : Type} `{Com D, Ioapic.IoApic I}.

(** [uart]: is there a serial port?  [uio] is the I/O APIC. *)
Record ust : Type := Ust { uart : bool; udev : D; uio : Ioapic.iost I }.

Definition set_uart (b : bool) (s : ust) : ust := Ust b (udev s) (uio s).
Definition set_udev (d : D) (s : ust) : ust := Ust (uart s) d (uio s).
Definition set_uio (o : Ioapic.iost I) (s : ust) : ust := Ust (uart s) (udev s) o.

Definition inb (port : Z) : M ust Z := λ s, let x := com_in port (udev s) in Ok x.1 (set_udev x.2 s).
Definition outb (port data : Z) : M ust unit := modify (λ s, set_udev (com_out port (u8 data) (udev s)) s).

(** [for(i = 0; i < 128 && !(inb(COM1+5) & 0x20); i++) microdelay(10);], where
    [microdelay] has an empty body. *)
Fixpoint poll (n : nat) : M ust unit :=
  match n with
  | O => mret tt
  | S n =>
      v ← inb (COM1 + 5);
      if bool_decide (Z.land v 0x20 = 0) then poll n else mret tt
  end.

Definition uartputc (c : Z) : M ust unit :=
  b ← gets uart;
  if negb b then mret tt else
  poll 128 ;;
  outb (COM1 + 0) c.

(** A string is passed to [uartputc]. *)
Fixpoint puts (l : list Z) : M ust unit :=
  match l with
  | [] => mret tt
  | c :: l => uartputc c ;; puts l
  end.

(** "xv6...", newline *)
Definition hello : list Z := [120; 118; 54; 46; 46; 46; 10].

Definition uartinit : M ust unit :=
  outb (COM1 + 2) 0 ;;
  outb (COM1 + 3) 0x80 ;;
  outb (COM1 + 0) (115200 / 9600) ;;
  outb (COM1 + 1) 0 ;;
  outb (COM1 + 3) 0x03 ;;
  outb (COM1 + 4) 0 ;;
  outb (COM1 + 1) 0x01 ;;
  v ← inb (COM1 + 5);
  if bool_decide (v = 0xFF) then mret tt else
  modify (set_uart true) ;;
  _ ← inb (COM1 + 2);
  _ ← inb (COM1 + 0);
  zoom uio set_uio (Ioapic.ioapicenable IRQ_COM1 0) ;;
  puts hello.

Definition uartgetc : M ust Z :=
  b ← gets uart;
  if negb b then mret (-1) else
  v ← inb (COM1 + 5);
  if bool_decide (Z.land v 0x01 = 0) then mret (-1) else
  inb (COM1 + 0).

(** The calls of [getc] in the loop of [consoleintr], up to the negative one. *)
Fixpoint getcs (n : nat) : M ust (list Z) :=
  match n with
  | O => spin
  | S n =>
      c ← uartgetc;
      if bool_decide (0 ≤ c) then cs ← getcs n; mret (c :: cs) else mret []
  end.

(** [consoleintr(uartgetc)]; [n] bounds the number of bytes received. *)
Definition uartintr (n : nat) : M (ust * Console.cons) (bool * bool) :=
  cs ← zoom fst (λ u st, (u, st.2)) (getcs n);
  zoom snd (λ c st, (st.1, c)) (Console.consoleintr cs).

End Uart.

Arguments ust : clear implicits.

(** ** What the port promises *)

(** [sent] are the bytes transmitted and [rx] those received and not yet read;
    [tx_wait] is the number of reads of the status until the transmitter is free
    again; [locked] is the bit that gives the access to the divisor, and then the
    first register is not data; [there] says whether the port exists. *)
Class ComLaws (D : Type) `{Com D} : Type := {
  sent : D → list Z;
  rx : D → list Z;
  tx_wait : D → nat;
  tx_delay : nat;
  divisor : D → Z;
  locked : D → bool;
  there : bool;
  out_line : ∀ v d, let d' := com_out (COM1 + 3) v d in locked d' = negb (Z.testbit v 7) ∧
    sent d' = sent d ∧ rx d' = rx d ∧ divisor d' = divisor d;
  out_data : ∀ v d, let d' := com_out (COM1 + 0) v d in locked d' = locked d ∧ rx d' = rx d ∧
    if locked d then divisor d' = divisor d ∧ (tx_wait d = 0%nat → sent d' = sent d ++ [v])
    else divisor d' = 256 * (divisor d / 256) + v ∧ sent d' = sent d;
  out_enable : ∀ v d, let d' := com_out (COM1 + 1) v d in locked d' = locked d ∧ rx d' = rx d ∧ sent d' = sent d ∧
    divisor d' = if locked d then divisor d else 256 * v + divisor d mod 256;
  out_other : ∀ o v d, o = 2 ∨ o = 4 → let d' := com_out (COM1 + o) v d in locked d' = locked d ∧ rx d' = rx d ∧
    sent d' = sent d ∧ divisor d' = divisor d;
  wait_delay : ∀ d, (tx_wait d ≤ tx_delay)%nat;
  in_keeps : ∀ p d, let d' := (com_in p d).2 in locked d' = locked d ∧ sent d' = sent d ∧ divisor d' = divisor d;
  in_status : ∀ d, let v := (com_in (COM1 + 5) d).1 in let d' := (com_in (COM1 + 5) d).2 in
    rx d' = rx d ∧ (v = 0xFF ↔ there = false) ∧
    (there = true → (Z.land v 1 = 0 ↔ rx d = []) ∧
      if decide (Z.land v 0x20 = 0) then (tx_wait d' < tx_wait d)%nat else tx_wait d' = 0%nat);
  in_ident : ∀ d, rx (com_in (COM1 + 2) d).2 = rx d;
  in_data : ∀ d, locked d = true → rx (com_in (COM1 + 0) d).2 = tail (rx d) ∧
    ∀ c l, rx d = c :: l → (com_in (COM1 + 0) d).1 = c;
  rx_bytes : ∀ d, Forall (λ c, 0 ≤ c < 256) (rx d);
}.

Section Thm.

Context {D I : Type} {DEV : Com D} {LAWS : ComLaws D} {IO : Ioapic.IoApic I}.
Context (Hthere : there = true) (Hdelay : (tx_delay < 128)%nat).
Implicit Types s : ust D I.

(** The port is in use: bytes can be sent and received. *)
Definition up s : Prop := uart s = true ∧ locked (udev s) = true.

(** [s'] differs from [s] in that the bytes [l] have been sent. *)
Definition sends (l : list Z) s s' : Prop :=
  up s' ∧ uio s' = uio s ∧ sent (udev s') = sent (udev s) ++ l ∧ rx (udev s') = rx (udev s) ∧ divisor (udev s') = divisor (udev s).

Lemma poll_ok n : ∀ s, (tx_wait (udev s) < n)%nat → up s → wpt (poll n) (λ _ s', sends [] s s' ∧ tx_wait (udev s') = 0%nat) s.
Proof using Hthere.
  clear Hdelay. induction n as [|n IH]; intros s Hn Hup; [lia|]. cbn [poll]. apply wpt_bind.
  destruct (in_status (udev s)) as (Hrx & _ & Hst). destruct (Hst Hthere) as [_ Htx]. destruct (in_keeps (COM1 + 5) (udev s)) as (H1 & H2 & H3).
  assert (Hs1 : sends [] s (set_udev (com_in (COM1 + 5) (udev s)).2 s)).
  { unfold sends, up in *. cbn [udev uart uio set_udev]. rewrite app_nil_r, H1. tauto. }
  eapply wpt_eq; [reflexivity|]. cbn beta. destruct (decide (Z.land (com_in (COM1 + 5) (udev s)).1 0x20 = 0)) as [Hz|Hnz].
  - rewrite bool_decide_eq_true_2 by done. eapply wpt_mono; [apply IH; [cbn [udev set_udev]; lia|apply Hs1]|].
    intros [] s' ((Hu & Ho & Hse & Hr & Hd) & Hw). split; [|done]. destruct Hs1 as (_ & _ & E1 & E2 & E3).
    unfold sends. split_and!; [done|by rewrite Ho|by rewrite Hse, E1, !app_nil_r|by rewrite Hr|by rewrite Hd].
  - rewrite bool_decide_eq_false_2 by done. by apply wpt_ret.
Qed.

(** [uartputc] sends the low byte of its argument. *)
Lemma uartputc_sends c s : up s → wpt (uartputc c) (λ _ s', sends [u8 c] s s') s.
Proof using Hthere Hdelay.
  intros Hup. apply wpt_bind, wpt_gets. rewrite (proj1 Hup). cbn match. apply wpt_bind.
  pose proof (wait_delay (udev s)). eapply wpt_mono; [apply poll_ok; [lia|done]|]. intros [] s1 ((Hu & Ho & Hse & Hr & Hd) & Hw).
  apply wpt_modify. destruct (out_data (u8 c) (udev s1)) as (E1 & E2 & E3). destruct Hu as [Hu1 Hu2]. rewrite Hu2 in E3. destruct E3 as [E3 E4].
  unfold sends, up. cbn [udev uart uio set_udev]. rewrite E1, E2, E3, E4, Hse, app_nil_r by done. tauto.
Qed.

Lemma puts_sends l : ∀ s, up s → wpt (puts l) (λ _ s', sends (u8 <$> l) s s') s.
Proof using Hthere Hdelay.
  induction l as [|c l IH]; intros s Hup; cbn [puts fmap list_fmap].
  - apply wpt_ret. unfold sends. rewrite app_nil_r. tauto.
  - apply wpt_bind. eapply wpt_mono; [by apply uartputc_sends|]. intros [] s1 (Hu & Ho & Hse & Hr & Hd).
    eapply wpt_mono; [by apply IH|]. intros [] s2 (Hu2 & Ho2 & Hse2 & Hr2 & Hd2). unfold sends.
    rewrite Ho2, Hse2, Hr2, Hd2, Ho, Hse, Hr, Hd, <- app_assoc. tauto.
Qed.

Lemma getcs_receives l : ∀ s n, up s → rx (udev s) = l → (length l < n)%nat →
  wpt (getcs n) (λ cs s', cs = l ∧ up s' ∧ rx (udev s') = [] ∧ sent (udev s') = sent (udev s)) s.
Proof using Hthere.
  clear Hdelay. induction l as [|c l IH]; intros s [|n] Hup Hrx Hn; try (cbn in Hn; lia); cbn [getcs]; apply wpt_bind; apply wpt_bind, wpt_gets;
    rewrite (proj1 Hup); cbn match; apply wpt_bind; (eapply wpt_eq; [reflexivity|]); cbn beta;
    destruct (in_status (udev s)) as (Hrx' & _ & Hst); destruct (Hst Hthere) as [Hz _];
    destruct (in_keeps (COM1 + 5) (udev s)) as (H1 & H2 & H3).
  - rewrite bool_decide_eq_true_2 by by apply Hz. apply wpt_ret. rewrite bool_decide_eq_false_2 by lia. apply wpt_ret.
    unfold up in *. cbn [udev uart set_udev]. rewrite H1, H2, Hrx'. tauto.
  - rewrite bool_decide_eq_false_2 by (intros E; apply Hz in E; congruence). eapply wpt_eq; [reflexivity|]. cbn beta. cbn [udev set_udev].
    set (d1 := (com_in (COM1 + 5) (udev s)).2) in *. destruct (in_data d1) as [Ht Hc]; [rewrite H1; apply Hup|].
    rewrite (Hc c l) by (by rewrite Hrx'). pose proof (rx_bytes (udev s)) as Hb. rewrite Hrx in Hb. apply Forall_cons in Hb as [Hb _].
    rewrite bool_decide_eq_true_2 by lia. destruct (in_keeps (COM1 + 0) d1) as (G1 & G2 & _). apply wpt_bind. eapply wpt_mono.
    + apply IH; [split; [apply Hup|cbn [udev set_udev]; rewrite G1, H1; apply Hup]|cbn [udev set_udev]; by rewrite Ht, Hrx', Hrx|cbn in Hn; lia].
    + intros cs s' (-> & Hu & Hr & Hs). apply wpt_ret. cbn [udev set_udev] in Hs. by rewrite Hs, G2, H2.
Qed.

(** What is received on the serial port is what the console is given, in order. *)
Theorem serial_types_lines s c x n :
  up s → (length (rx (udev s)) < n)%nat → Console.console c x →
  wpt (uartintr n) (λ o st, rx (udev st.1) = [] ∧ o = (Console.spec_intr (rx (udev s)) x).1 ∧
    Console.console st.2 (Console.spec_intr (rx (udev s)) x).2) (s, c).
Proof using Hthere.
  clear Hdelay. intros Hup Hn Hc. apply wpt_bind, wpt_zoom. cbn [fst]. eapply wpt_mono; [by apply getcs_receives|].
  intros cs s1 (-> & Hu & Hr & _). apply wpt_zoom. cbn [fst snd]. eapply wpt_mono.
  - apply (Console.consoleintr_spec _ c x Hc). eapply Forall_impl; [apply rx_bytes|]. cbn. lia.
  - cbn. tauto.
Qed.

Context {IOLAWS : Ioapic.IoApicLaws I} (Hpins : (4 < Ioapic.io_pins)%nat).

(** The device after the first seven writes of [uartinit]. *)
Definition set_up (d : D) : D :=
  com_out (COM1 + 1) 1 (com_out (COM1 + 4) 0 (com_out (COM1 + 3) 3 (com_out (COM1 + 1) 0
    (com_out (COM1 + 0) 12 (com_out (COM1 + 3) 0x80 (com_out (COM1 + 2) 0 d)))))).

Lemma set_up_ok d : locked (set_up d) = true ∧ sent (set_up d) = sent d ∧ rx (set_up d) = rx d ∧ divisor (set_up d) = 12.
Proof.
  unfold set_up. set (d1 := com_out (COM1 + 2) 0 d). set (d2 := com_out _ _ d1). set (d3 := com_out _ _ d2). set (d4 := com_out _ _ d3).
  set (d5 := com_out _ _ d4). set (d6 := com_out _ _ d5).
  destruct (out_other 2 0 d (or_introl eq_refl)) as (_ & R1 & S1 & _). fold d1 in R1, S1.
  destruct (out_line 0x80 d1) as (L2 & S2 & R2 & _). fold d2 in L2, R2, S2. change (negb (Z.testbit 128 7)) with false in L2.
  destruct (out_data 12 d2) as (L3 & R3 & E3). fold d3 in L3, R3, E3. rewrite L2 in L3, E3. destruct E3 as [V3 S3].
  destruct (out_enable 0 d3) as (L4 & R4 & S4 & V4). fold d4 in L4, R4, S4, V4. rewrite L3 in V4.
  destruct (out_line 3 d4) as (L5 & S5 & R5 & V5). fold d5 in L5, S5, R5, V5. change (negb (Z.testbit 3 7)) with true in L5.
  destruct (out_other 4 0 d5 (or_intror eq_refl)) as (L6 & R6 & S6 & V6). fold d6 in L6, R6, S6, V6.
  destruct (out_enable 1 d6) as (L7 & R7 & S7 & V7). rewrite L7, R7, S7, V7, L6, L5. split_and!; [done|congruence|congruence|].
  rewrite V6, V5, V4, V3. Z.div_mod_to_equations. lia.
Qed.

(** After [uartinit] the port sends and receives at 9600 baud (the divisor of its
    clock is 12), has announced the system, and its interrupt goes to processor 0. *)
Theorem uartinit_ok s :
  wpt uartinit (λ _ s', up s' ∧ divisor (udev s') = 12 ∧ sent (udev s') = sent (udev s) ++ hello ∧
    rx (udev s') = tail (rx (udev s)) ∧ Ioapic.route (Ioapic.regs (uio s')) IRQ_COM1 = Some (36, 0, 0)) s.
Proof using Hthere Hdelay Hpins.
  unfold uartinit, outb. do 7 (apply wpt_bind, wpt_modify). set (d7 := set_up (udev s)).
  change (set_udev _ _) with (set_udev d7 s). destruct (set_up_ok (udev s)) as (L & S & R & V). fold d7 in L, S, R, V.
  apply wpt_bind. eapply wpt_eq; [reflexivity|]. cbn beta. cbn [udev set_udev]. destruct (in_status d7) as (R8 & H8 & _).
  rewrite bool_decide_eq_false_2 by (rewrite H8, Hthere; done). destruct (in_keeps (COM1 + 5) d7) as (L8 & S8 & V8).
  set (d8 := (com_in (COM1 + 5) d7).2) in *. apply wpt_bind, wpt_modify, wpt_bind. eapply wpt_eq; [reflexivity|]. cbn beta. cbn [udev set_udev set_uart].
  destruct (in_keeps (COM1 + 2) d8) as (L9 & S9 & V9). pose proof (in_ident d8) as R9. set (d9 := (com_in (COM1 + 2) d8).2) in *.
  apply wpt_bind. eapply wpt_eq; [reflexivity|]. cbn beta. cbn [udev set_udev set_uart].
  destruct (in_keeps (COM1 + 0) d9) as (L10 & S10 & V10). destruct (in_data d9) as [R10 _]; [congruence|].
  set (d10 := (com_in (COM1 + 0) d9).2) in *. apply wpt_bind, wpt_zoom. eapply wpt_mono.
  { apply Ioapic.ioapicenable_ok. unfold Ioapic.request_ok, IRQ_COM1. cbn [fst snd]. lia. }
  intros [] io [Hroute _]. eapply wpt_mono; [apply puts_sends; split; [done|cbn [udev set_udev set_uio]; congruence]|].
  intros [] s' (Hu & Ho & Hse & Hr & Hd). cbn [udev uio set_udev set_uio] in *.
  split_and!; [done|congruence| |congruence|by rewrite Ho].
  rewrite Hse. change (u8 <$> hello) with hello. congruence.
Qed.

End Thm.

(** ** A port *)

(** The transmitter is busy for two reads of the status. *)
Record demo_com : Type := DemoCom { dc_lock : bool; dc_div : Z; dc_sent : list Z; dc_rx : list Z; dc_busy : nat }.

Definition dc_in (p : Z) (d : demo_com) : Z * demo_com :=
  if bool_decide (p = COM1 + 5) then
    ((if bool_decide (dc_rx d = []) then 0 else 1) + (match dc_busy d with O => 0x20 | _ => 0 end),
     DemoCom (dc_lock d) (dc_div d) (dc_sent d) (dc_rx d) (Nat.min 1 (dc_busy d - 1)))
  else if bool_decide (p = COM1 + 0) then
    (u8 (default 0 (head (dc_rx d))), DemoCom (dc_lock d) (dc_div d) (dc_sent d) (tail (dc_rx d)) (dc_busy d))
  else (0, d).

Definition dc_out (p v : Z) (d : demo_com) : demo_com :=
  if bool_decide (p = COM1 + 3) then DemoCom (negb (Z.testbit v 7)) (dc_div d) (dc_sent d) (dc_rx d) (dc_busy d)
  else if bool_decide (p = COM1 + 0) then
    if dc_lock d then DemoCom true (dc_div d) (dc_sent d ++ [v]) (dc_rx d) 2
    else DemoCom false (256 * (dc_div d / 256) + v) (dc_sent d) (dc_rx d) (dc_busy d)
  else if bool_decide (p = COM1 + 1) then
    if dc_lock d then d else DemoCom false (256 * v + dc_div d mod 256) (dc_sent d) (dc_rx d) (dc_busy d)
  else d.

#[global] Instance demo_com_dev : Com demo_com := {| com_in := dc_in; com_out := dc_out |}.

#[global] Instance demo_com_laws : ComLaws demo_com.
Proof.
  refine {| sent := dc_sent; rx d := u8 <$> dc_rx d; tx_wait d := Nat.min 2 (dc_busy d); tx_delay := 2;
            divisor := dc_div; locked := dc_lock; there := true |}.
  - done.
  - intros v [[] n l r b]; by split_and!.
  - intros v [[] n l r b]; by split_and!.
  - intros o v d [-> | ->]; by split_and!.
  - intros d. lia.
  - intros p d. cbn [com_in demo_com_dev]. unfold dc_in. repeat case_bool_decide; by split_and!.
  - intros [k n l r b]. cbn [com_in demo_com_dev]. unfold dc_in. change (bool_decide (COM1 + 5 = COM1 + 5)) with true. cbn [fst snd dc_rx dc_busy].
    split; [done|]. destruct r as [|c r], b as [|b]; (split; [done|]); intros _; (split; [done|]);
      first [rewrite decide_True by done; cbn [dc_busy]; lia|rewrite decide_False by done; done].
  - done.
  - intros [k n l r b] Hk. cbn in Hk |- *. split; [by destruct r|]. intros c l' E. destruct r; [done|]. by injection E.
  - intros d. apply Forall_fmap, Forall_forall. intros x _. cbn. unfold u8. apply Z.mod_pos_bound. lia.
Defined.

Definition demo_port : ust demo_com Ioapic.demo_ioapic :=
  Ust true (DemoCom true 12 [] [104; 105; 13] 0) (Ioapic.Iost (Ioapic.DemoIo 0 (λ _, 0)) 0 []).

Lemma serial_types_lines_witness :
  wpt (uartintr 4) (λ o st, rx (udev st.1) = [] ∧ o = (true, false) ∧ Console.console st.2 ([104; 105; 10], [])) (demo_port, Console.demo).
Proof. apply (serial_types_lines (LAWS := demo_com_laws) eq_refl demo_port Console.demo ([], []) 4); [split; reflexivity|cbn; lia|exact Console.demo_console]. Defined.

Lemma uartinit_ok_witness :
  wpt uartinit (λ _ s', up s' ∧ sent (udev s') = hello ∧ Ioapic.route (Ioapic.regs (uio s')) IRQ_COM1 = Some (36, 0, 0))
    (set_uart false demo_port).
Proof.
  eapply wpt_mono.
  - apply (uartinit_ok (LAWS := demo_com_laws) (IOLAWS := Ioapic.demo_io_laws) eq_refl ltac:(cbn; lia) ltac:(cbn; lia) (set_uart false demo_port)).
  - intros [] s' (H1 & _ & H2 & _ & H3). split; [exact H1|]. split; [exact H2|exact H3].
Defined.

End Uart.
