(* ===== verification/File.v ===== *)
(** * Open files

    [src/file.c] and [pipealloc] of [src/pipe.c], over the file system of [Fs] and
    the pipes of [Pipe].  The state has the table of open files, the descriptors of
    every process, the memory of the calling process and the transactions: the
    functions are run by one process at a time, so a transaction is the list of
    the blocks logged between [begin_op] and [end_op]. *)

From S2P Require Import Prelude Log Pipe Fs Syscall.

Module File.

Definition NFILE : nat := 100.
Definition NOFILE : nat := 16.

Inductive ftype : Type := FD_NONE | FD_PIPE | FD_INODE.

#[global] Instance ftype_eq_dec : EqDecision ftype.
Proof. solve_decision. Defined.

(** [struct file]; a pipe is named by a number and an inode by its place in the
    inode cache. *)
Record file : Type := Mkfile {
  ftyp : ftype;
  fref : Z;
  readable : bool;
  writable : bool;
  fpipe : nat;
  fip : nat;
  foff : Z;
}.

Definition set_fref (n : Z) (f : file) : file :=
  Mkfile (ftyp f) n (readable f) (writable f) (fpipe f) (fip f) (foff f).
Definition set_ftyp (t : ftype) (f : file) : file :=
  Mkfile t (fref f) (readable f) (writable f) (fpipe f) (fip f) (foff f).
Definition set_foff (n : Z) (f : file) : file :=
  Mkfile (ftyp f) (fref f) (readable f) (writable f) (fpipe f) (fip f) n.
Definition set_pipe_end (p : nat) (w : bool) (f : file) : file :=
  Mkfile FD_PIPE (fref f) (negb w) w p (fip f) (foff f).

(** A process, as far as its files go: [ofile] and [cwd]. *)
Record fproc : Type := Fproc { ofile : list (option nat); cwd : nat }.

Record kst : Type := Kst {
  fs : Fs.fss;
  ftable : list file;
  procs : list fproc;
  pipes : gmap nat pipe;
  trans : list (list Z);
  um : Syscall.user;
}.

Definition set_fs (x : Fs.fss) (k : kst) : kst := Kst x (ftable k) (procs k) (pipes k) (trans k) (um k).
Definition set_ftable (x : list file) (k : kst) : kst := Kst (fs k) x (procs k) (pipes k) (trans k) (um k).
Definition set_procs (x : list fproc) (k : kst) : kst := Kst (fs k) (ftable k) x (pipes k) (trans k) (um k).
Definition set_pipes (x : gmap nat pipe) (k : kst) : kst := Kst (fs k) (ftable k) (procs k) x (trans k) (um k).
Definition set_trans (x : list (list Z)) (k : kst) : kst := Kst (fs k) (ftable k) (procs k) (pipes k) x (um k).
Definition set_um (x : Syscall.user) (k : kst) : kst := Kst (fs k) (ftable k) (procs k) (pipes k) (trans k) x.

(** A call of the file system. *)
Definition in_fs {A} (m : M Fs.fss A) : M kst A := zoom fs set_fs m.

Definition begin_op : M kst unit :=
  modify (λ k, set_fs (Fs.Fss (Fs.blk (fs k)) [] (Fs.sb (fs k)) (Fs.icache (fs k))) k).
Definition end_op : M kst unit :=
  modify (λ k, set_trans (trans k ++ [Fs.logged (fs k)]) k).

(** [f] as a pointer into [ftable]. *)
Definition file_at (f : nat) : M kst file := λ k,
  match ftable k !! f with Some x => Ok x k | None => Undef "file pointer" k end.
Definition upd_file (f : nat) (g : file → file) : M kst unit :=
  modify (λ k, set_ftable (upd f g (ftable k)) k).

(** The first file that is not in use. *)
Fixpoint filealloc_loop (l : list file) (i : nat) : option nat :=
  match l with
  | [] => None
  | f :: l => if bool_decide (fref f = 0) then Some i else filealloc_loop l (S i)
  end.

Definition filealloc : M kst (option nat) :=
  k ← get;
  match filealloc_loop (ftable k) 0 with
  | Some f => upd_file f (set_fref 1) ;; mret (Some f)
  | None => mret None
  end.

Definition filedup (f : nat) : M kst nat :=
  x ← file_at f;
  if bool_decide (fref x < 1) then panic "filedup" else
  upd_file f (set_fref (fref x + 1)) ;; mret f.

(** [pipeclose] frees the page of the pipe with its last end. *)
Definition close_pipe (p : nat) (w : bool) : M kst unit :=
  k ← get;
  match pipes k !! p with
  | None => undefined "pipe pointer"
  | Some x =>
      let '(x', _, freed) := pipeclose w x in
      modify (set_pipes (if freed then delete p (pipes k) else <[p := x']> (pipes k)))
  end.

Definition fileclose (f : nat) : M kst unit :=
  x ← file_at f;
  if bool_decide (fref x < 1) then panic "fileclose" else
  upd_file f (set_fref (fref x - 1)) ;;
  if bool_decide (0 < fref x - 1) then mret tt else
  ff ← file_at f;
  upd_file f (λ y, set_ftyp FD_NONE (set_fref 0 y)) ;;
  match ftyp ff with
  | FD_PIPE => close_pipe (fpipe ff) (writable ff)
  | FD_INODE => begin_op ;; in_fs (Fs.iput (fip ff)) ;; end_op
  | FD_NONE => mret tt
  end.

(** The result, and the [struct stat] that is filled in. *)
Definition filestat (f : nat) : M kst (Z * option Fs.stat) :=
  x ← file_at f;
  match ftyp x with
  | FD_INODE =>
      in_fs (Fs.ilock (fip x)) ;;
      st ← in_fs (Fs.stati (fip x));
      in_fs (Fs.iunlock (fip x)) ;;
      mret (0, Some st)
  | _ => mret (-1, None)
  end.

Section Io.

Context (dev_read : Z → option (nat → Z → M Fs.fss (Z * list Z))).
Context (dev_write : Z → option (nat → list Z → M Fs.fss Z)).
(** [mythread()->killed], which the pipes look at. *)
Context (killed : bool).

(** [fileread]: the result, and the bytes copied to [addr]; a read of an empty
    pipe sleeps. *)
Definition fileread (f : nat) (n : Z) : M kst (Z * list Z) :=
  x ← file_at f;
  if negb (readable x) then mret (-1, []) else
  match ftyp x with
  | FD_PIPE =>
      k ← get;
      match pipes k !! fpipe x with
      | None => undefined "pipe pointer"
      | Some p =>
          let '(p', _, r) := piperead killed (Z.to_nat n) p in
          modify (set_pipes (<[fpipe x := p']> (pipes k))) ;;
          match r with RReturn r l => mret (r, l) | RSleep => spin end
      end
  | FD_INODE =>
      in_fs (Fs.ilock (fip x)) ;;
      r ← in_fs (Fs.readi dev_read (fip x) (foff x) (u32 n));
      (if bool_decide (0 < r.1) then upd_file f (λ y, set_foff (u32 (foff y + r.1)) y) else mret tt) ;;
      in_fs (Fs.iunlock (fip x)) ;;
      mret r
  | FD_NONE => panic "fileread"
  end.

(** [((MAXOPBLOCKS-1-1-2) / 2) * 512] *)
Definition max_chunk : Z := (MAXOPBLOCKS - 1 - 1 - 2) / 2 * 512.

(** One round of the loop of [filewrite], a transaction: the result of [writei]. *)
Definition write_chunk (f ip : nat) (src : list Z) : M kst Z :=
  begin_op ;;
  in_fs (Fs.ilock ip) ;;
  x ← file_at f;
  r ← in_fs (Fs.writei dev_write ip src (foff x));
  (if bool_decide (0 < r) then upd_file f (λ y, set_foff (u32 (foff y + r)) y) else mret tt) ;;
  in_fs (Fs.iunlock ip) ;;
  end_op ;;
  mret r.

(** The loop over the bytes still to write; the result is [i]. *)
Fixpoint filewrite_loop (fuel : nat) (f ip : nat) (i : Z) (rest : list Z) : M kst Z :=
  match fuel with
  | O => spin
  | S fuel =>
      if bool_decide (0 < length rest)%nat then
        let n1 := Z.min (Z.of_nat (length rest)) max_chunk in
        r ← write_chunk f ip (take (Z.to_nat n1) rest);
        if bool_decide (r < 0) then mret i else
        if bool_decide (r ≠ n1) then panic "short filewrite" else
        filewrite_loop fuel f ip (i + r) (drop (Z.to_nat n1) rest)
      else mret i
  end.

(** [filewrite] of the bytes [src]. *)
Definition filewrite (f : nat) (src : list Z) : M kst Z :=
  x ← file_at f;
  if negb (writable x) then mret (-1) else
  match ftyp x with
  | FD_PIPE =>
      k ← get;
      match pipes k !! fpipe x with
      | None => undefined "pipe pointer"
      | Some p =>
          let '(p', _, r) := pipewrite killed src 0 p in
          modify (set_pipes (<[fpipe x := p']> (pipes k))) ;;
          match r with WReturn r => mret r | WSleep _ => spin end
      end
  | FD_INODE =>
      let n := Z.of_nat (length src) in
      i ← filewrite_loop (S (length src)) f (fip x) 0 src;
      mret (if bool_decide (i = n) then n else -1)
  | FD_NONE => panic "filewrite"
  end.

End Io.

(** [pipealloc]; [page] is what [kalloc] returns. *)
Definition pipealloc (page : option (list Z)) : M kst (option (nat * nat)) :=
  f0 ← filealloc;
  match f0 with
  | None => mret None
  | Some f0 =>
      f1 ← filealloc;
      match f1 with
      | None => fileclose f0 ;; mret None
      | Some f1 =>
          match page with
          | None => fileclose f0 ;; fileclose f1 ;; mret None
          | Some l =>
              k ← get;
              let p := fresh (dom (pipes k)) in
              modify (set_pipes (<[p := pipe_init l]> (pipes k))) ;;
              upd_file f0 (set_pipe_end p false) ;;
              upd_file f1 (set_pipe_end p true) ;;
              mret (Some (f0, f1))
          end
      end
  end.

(** The files of [fork] and of [exit]: the loops over [ofile], and [cwd]. *)
Definition proc_at (p : nat) : M kst fproc := λ k,
  match procs k !! p with Some x => Ok x k | None => Undef "proc pointer" k end.
Definition upd_proc (p : nat) (g : fproc → fproc) : M kst unit :=
  modify (λ k, set_procs (upd p g (procs k)) k).
Definition set_ofile (fd : nat) (f : option nat) (x : fproc) : fproc :=
  Fproc (<[fd := f]> (ofile x)) (cwd x).
Definition set_cwd (ip : nat) (x : fproc) : fproc := Fproc (ofile x) ip.

Definition fork_files (p np : nat) : M kst unit :=
  for_range 0 NOFILE (λ fd,
    x ← proc_at p;
    match mjoin (ofile x !! fd) with
    | Some f => f ← filedup f; upd_proc np (set_ofile fd (Some f))
    | None => mret tt
    end) ;;
  x ← proc_at p;
  ip ← in_fs (Fs.idup (cwd x));
  upd_proc np (set_cwd ip).

(** The process is about to be a zombie: [cwd = 0] after the [iput] is left out. *)
Definition exit_files (p : nat) : M kst unit :=
  for_range 0 NOFILE (λ fd,
    x ← proc_at p;
    match mjoin (ofile x !! fd) with
    | Some f => fileclose f ;; upd_proc p (set_ofile fd None)
    | None => mret tt
    end) ;;
  x ← proc_at p;
  begin_op ;;
  in_fs (Fs.iput (cwd x)) ;;
  end_op.

End File.
