(* ===== verification/Exec.v ===== *)
(** * Running a program

    [exec] of [src/exec.c], which connects the process table of [Proc], the page
    tables of [Vm] and the file system behind [File].  The calling thread first
    gets rid of the other threads of its process; then the program is loaded into
    a new address space ([exec_image], on the allocator and the files), and the
    process is switched over to it ([exec_commit]). *)

From S2P Require Import Prelude Spinlock Kalloc ProcData Proc Vm Log Fs File.

Module Exec.

Definition ELF_MAGIC : Z := 0x464C457F.
Definition ELF_PROG_LOAD : Z := 1.
Definition MAXARG : nat := 32.

(** [struct elfhdr], as far as it is used. *)
Record elfhdr : Type := Elfhdr { magic : Z; entry : Z; phoff : Z; phnum : Z }.
Definition sizeof_elfhdr : Z := 52.
Definition elfhdr_of (b : list Z) : elfhdr :=
  Elfhdr (Fs.getu32 b 0) (Fs.getu32 b 24) (Fs.getu32 b 28) (Fs.get16 b 44).

(** [struct proghdr], as far as it is used. *)
Record proghdr : Type := Proghdr { ptype : Z; poff : Z; vaddr : Z; filesz : Z; memsz : Z }.
Definition sizeof_proghdr : Z := 32.
Definition proghdr_of (b : list Z) : proghdr :=
  Proghdr (Fs.getu32 b 0) (Fs.getu32 b 4) (Fs.getu32 b 8) (Fs.getu32 b 16) (Fs.getu32 b 20).

(** A program in memory, ready to run. *)
Record image : Type := Image { im_pgdir : Z; im_sz : Z; im_esp : Z; im_eip : Z }.

(** The bytes of an array of words. *)
Definition word_bytes (w : Z) : list Z := byte_in w <$> [0; 1; 2; 3].
Definition words_bytes (l : list Z) : list Z := l ≫= word_bytes.

Section Exec.

Context (kend data : Z) (me : nat).
Context (dev_read : Z → option (nat → Z → M Fs.fss (Z * list Z))).

(** ** Loading *)

Abbreviation E := (M (kmem * File.kst)).

Definition on_pages {A} (m : M kmem A) : E A := zoom fst (λ k s, (k, s.2)) m.
Definition on_files {A} (m : M File.kst A) : E A := zoom snd (λ f s, (s.1, f)) m.
Definition on_fs {A} (m : M Fs.fss A) : E A := on_files (File.in_fs m).

(** [readi(ip, dst, off, n)] for a kernel address. *)
Definition read_to (ip : nat) (dst off n : Z) : E Z :=
  r ← on_fs (Fs.readi dev_read ip off n);
  on_pages (modify (λ k, set_words (store_bytes dst r.2 (words k)) k)) ;;
  mret r.1.

(** The label [bad]; [pgdir] and [ip] may be null. *)
Definition bad (pgdir : Z) (ip : option nat) : E (option image) :=
  (if bool_decide (pgdir ≠ 0) then on_pages (Vm.freevm kend me pgdir) else mret tt) ;;
  match ip with
  | Some ip => on_fs (Fs.iunlockput ip) ;; on_files File.end_op
  | None => mret tt
  end ;;
  mret None.

(** The body of the loop over the program headers for a header to load: the new
    [sz], or [None] for a jump to [bad]. *)
Definition exec_segment (ip : nat) (pgdir : Z) (ph : proghdr) (sz : Z) : E (option Z) :=
  if bool_decide (memsz ph < filesz ph) then mret None else
  if bool_decide (u32 (vaddr ph + memsz ph) < vaddr ph) then mret None else
  sz ← on_pages (Vm.allocuvm kend me pgdir sz (u32 (vaddr ph + memsz ph)));
  if bool_decide (sz = 0) then mret None else
  if bool_decide (vaddr ph mod PGSIZE ≠ 0) then mret None else
  r ← loaduvm me fst (λ k s, (k, s.2)) (read_to ip) pgdir (vaddr ph) (poff ph) (filesz ph);
  mret (if bool_decide (r < 0) then None else Some sz).

(** The loop: [n] headers are left, the next is at [off], an [int];
    [off += sizeof(ph)] is computed in [uint]. *)
Fixpoint exec_load (n : nat) (ip : nat) (pgdir off sz : Z) : E (option Z) :=
  match n with
  | O => mret (Some sz)
  | S n =>
      r ← on_fs (Fs.readi dev_read ip (u32 off) sizeof_proghdr);
      if bool_decide (r.1 ≠ sizeof_proghdr) then mret None else
      let ph := proghdr_of r.2 in
      x ← (if bool_decide (ptype ph ≠ ELF_PROG_LOAD) then mret (Some sz) else exec_segment ip pgdir ph sz);
      match x with
      | None => mret None
      | Some sz =>
          exec_load n ip pgdir (s32 (off + sizeof_proghdr)) sz
      end
  end.

(** The loop over the arguments: the new [sp] and the part of [ustack] that was
    filled in. *)
Fixpoint exec_args (argv : list (list Z)) (argc : nat) (pgdir sp : Z) : M kmem (option (Z * list Z)) :=
  match argv with
  | [] => mret (Some (sp, []))
  | s :: argv =>
      if bool_decide (MAXARG ≤ argc)%nat then mret None else
      let sp := Z.land (u32 (sp - (Z.of_nat (length s) + 1))) (Z.lnot 3) in
      r ← copyout me pgdir sp (s ++ [0]);
      if bool_decide (r < 0) then mret None else
      x ← exec_args argv (S argc) pgdir sp;
      mret ((λ y : Z * list Z, (y.1, sp :: y.2)) <$> x)
  end.

(** The stack: the result is [sp]. *)
Definition exec_stack (argv : list (list Z)) (pgdir sz : Z) : M kmem (option Z) :=
  clearpteu me pgdir (u32 (sz - 2 * PGSIZE)) ;;
  x ← exec_args argv 0 pgdir sz;
  match x with
  | None => mret None
  | Some (sp, ptrs) =>
      let argc := Z.of_nat (length argv) in
      let ustack := [0xffffffff; argc; u32 (sp - (argc + 1) * 4)] ++ ptrs ++ [0] in
      let sp := u32 (sp - (3 + argc + 1) * 4) in
      r ← copyout me pgdir sp (words_bytes ustack);
      mret (if bool_decide (r < 0) then None else Some sp)
  end.

(** From [ilock] to the last jump to [bad]. *)
Definition exec_file (ip : nat) (argv : list (list Z)) : E (option image) :=
  on_fs (Fs.ilock ip) ;;
  r ← on_fs (Fs.readi dev_read ip 0 sizeof_elfhdr);
  if bool_decide (r.1 ≠ sizeof_elfhdr) then bad 0 (Some ip) else
  let elf := elfhdr_of r.2 in
  if bool_decide (magic elf ≠ ELF_MAGIC) then bad 0 (Some ip) else
  pgdir ← on_pages (Vm.setupkvm kend data me);
  if bool_decide (pgdir = 0) then bad 0 (Some ip) else
  x ← exec_load (Z.to_nat (phnum elf)) ip pgdir (s32 (phoff elf)) 0;
  match x with
  | None => bad pgdir (Some ip)
  | Some sz =>
      on_fs (Fs.iunlockput ip) ;;
      on_files File.end_op ;;
      let sz := PGROUNDUP sz in
      sz ← on_pages (Vm.allocuvm kend me pgdir sz (u32 (sz + 2 * PGSIZE)));
      if bool_decide (sz = 0) then bad pgdir None else
      x ← on_pages (exec_stack argv pgdir sz);
      match x with
      | None => bad pgdir None
      | Some sp => mret (Some (Image pgdir sz sp (entry elf)))
      end
  end.

(** From [begin_op] on, with the current directory [cw]. *)
Definition exec_image (cw : nat) (path : list Z) (argv : list (list Z)) : E (option image) :=
  on_files File.begin_op ;;
  x ← on_fs (Fs.namei dev_read cw path);
  match x with
  | None => on_files File.end_op ;; mret None
  | Some ip => exec_file ip argv
  end.

(** ** The process *)

Abbreviation K := (M (kst File.kst)).

(** The loops over the threads of [p] other than the caller, thread [i] of [q]. *)
Definition others (p q i : nat) (f : thread → thread) (pr : proc) : proc :=
  set_threads (imap (λ j t,
    if bool_decide ((j < t_num pr)%nat ∧ (p, j) ≠ (q, i)) then f t else t) (threads pr)) pr.

Definition exec_kill (t : thread) : thread :=
  if bool_decide (tstate t ≠ UNUSED_T) then set_tkilled 1 t else t.
Definition exec_wake (t : thread) : thread :=
  if bool_decide (tstate t = SLEEPING) then set_tstate RUNNABLE t else t.

(** [flag]: one of the other threads is still there. *)
Definition others_live (p q i : nat) (pr : proc) : Prop :=
  Exists (λ x, (p, x.1) ≠ (q, i) ∧ tstate x.2 ≠ ZOMBIE_T ∧ tstate x.2 ≠ UNUSED_T)
    (imap pair (take (t_num pr) (threads pr))).

#[global] Instance others_live_dec p q i pr : Decision (others_live p q i pr).
Proof. unfold others_live. apply _. Defined.

(** One turn of the [while] loop: the new [flag]. *)
Definition exec_turn (p q i : nat) : K bool :=
  acquire_ptable me ;;
  set_proc p (others p q i exec_wake) ;;
  release_ptable me ;;
  pr ← proc_at p;
  mret (bool_decide (others_live p q i pr)).

(** The loop; the other threads run between the turns, so that here it spins
    when one of them is left after [fuel] turns. *)
Fixpoint exec_wait (fuel : nat) (p q i : nat) : K unit :=
  match fuel with
  | O => spin
  | S fuel =>
      flag ← exec_turn p q i;
      if (flag : bool) then exec_wait fuel p q i else mret tt
  end.

(** [last]: what comes after the last slash. *)
Fixpoint last_elem (path : list Z) (last : list Z) : list Z :=
  match path with
  | [] => last
  | c :: path => last_elem path (if bool_decide (c = Fs.SLASH) then path else last)
  end.

Definition name_of (path : list Z) : string :=
  copy_name (String.string_of_list_ascii (Ascii.ascii_of_N ∘ Z.to_N <$> last_elem path path)).

(** From "Save program name" on. *)
Definition exec_commit (p : nat) (path : list Z) (im : image) : K unit :=
  set_proc p (set_name (name_of path)) ;;
  pr ← proc_at p;
  let oldpgdir := pgdir pr in
  set_proc p (set_pgdir (im_pgdir im)) ;;
  set_proc p (set_sz (im_sz im)) ;;
  '(q, i) ← curthread me;
  set_thread q i (λ t, set_tf (set_eip (im_eip im) (tf t)) t) ;;
  set_thread q i (λ t, set_tf (set_esp (im_esp im) (tf t)) t) ;;
  switchuvm me q i ;;
  on_kmem (Vm.freevm kend me oldpgdir).

(** [exec]: a killed thread does not come back from [exit_thread]. *)
Definition exec (fuel : nat) (path : list Z) (argv : list (list Z)) : K kres :=
  p ← curproc me;
  '(q, i) ← curthread me;
  t ← thread_at q i;
  if bool_decide (tkilled t = 1) then exit_thread me else
  set_proc p (others p q i exec_kill) ;;
  exec_wait fuel p q i ;;
  pr ← proc_at p;
  cw ← deref (cwd pr);
  x ← on_world (exec_image cw path argv);
  match x with
  | None => mret (Return (-1))
  | Some im => exec_commit p path im ;; mret (Return 0)
  end.

End Exec.

End Exec.
