(* ===== verification/ExecImage.v ===== *)
(** * Loading a program

    What an executable file means as a memory image ([elf_image]), and that
    [exec_load] and [exec_stack] of [Exec] build that image and the stack of the
    new program. *)

From S2P Require Import Prelude Spinlock Kalloc Vm VmInv VmThm VmUser Log Fs File Exec.

Module ExecImage.
Import Exec.

(** ** Images of files *)

Definition len (C : list Z) : Z := Z.of_nat (length C).

(** The headers of a file with the contents [C]. *)
Definition elf_header (C : list Z) : elfhdr := elfhdr_of (take 52 C).
Definition prog_header (C : list Z) (off : Z) : proghdr := proghdr_of (take 32 (drop (Z.to_nat off) C)).

(** A segment that can be loaded. *)
Definition segment_ok (C : list Z) (h : proghdr) : Prop :=
  filesz h ≤ memsz h ∧ vaddr h + memsz h < KERNBASE ∧ vaddr h mod PGSIZE = 0 ∧
  (0 < filesz h → poff h + filesz h ≤ len C).

#[global] Instance segment_ok_dec C h : Decision (segment_ok C h).
Proof. unfold segment_ok. apply _. Defined.

(** The memory [m] with the segment in it. *)
Definition with_segment (C : list Z) (h : proghdr) (m : Z → Z) : Z → Z := λ va,
  if bool_decide (vaddr h ≤ va < vaddr h + filesz h)
  then nth (Z.to_nat (poff h + (va - vaddr h))) C 0 else m va.

(** An image of size [sz] with one more segment. *)
Definition segment_image (C : list Z) (h : proghdr) (sz : Z) (m : Z → Z) : option (Z * (Z → Z)) :=
  let sz' := Z.max sz (vaddr h + memsz h) in
  if bool_decide (segment_ok C h ∧ 0 < sz') then Some (sz', with_segment C h m) else None.

(** The size and the bytes of the memory of the [n] program headers from [off] on,
    on top of an image [m] of size [sz]. *)
Fixpoint elf_load (C : list Z) (n : nat) (off sz : Z) (m : Z → Z) : option (Z * (Z → Z)) :=
  match n with
  | O => Some (sz, m)
  | S n =>
      let h := prog_header C off in
      if bool_decide (off < 0 ∨ len C < off + 32) then None else
      x ← (if bool_decide (ptype h ≠ ELF_PROG_LOAD) then Some (sz, m) else segment_image C h sz m);
      elf_load C n (off + 32) x.1 x.2
  end.

Definition elf_image (C : list Z) : option (Z * (Z → Z)) :=
  let h := elf_header C in
  if bool_decide (len C < 52 ∨ magic h ≠ ELF_MAGIC) then None
  else elf_load C (Z.to_nat (phnum h)) (s32 (phoff h)) 0 (λ _, 0).

Lemma header_field_range b o : 0 ≤ Fs.getu32 b o < 2 ^ 32.
Proof. apply u32_range. Qed.

Lemma prog_header_range C off :
  let h := prog_header C off in
  0 ≤ poff h < 2 ^ 32 ∧ 0 ≤ vaddr h < 2 ^ 32 ∧ 0 ≤ filesz h < 2 ^ 32 ∧ 0 ≤ memsz h < 2 ^ 32.
Proof. simpl. repeat split; apply header_field_range. Qed.

Section Image.

Context (kend : Z) (me : nat) (all : list Z).
Context (Hkend : 0 < kend) (Hnd : NoDup all) (Hall : Forall (vpage kend) all).

Abbreviation uvm := (uvm kend me all).

(** An address space with the user memory [m] of size [sz]. *)
Record image_at (sz : Z) (m : Z → Z) (U : gmap Z Z) (k : kmem) : Prop := ImageAt {
  ia_size : 0 ≤ sz < KERNBASE;
  ia_pages : ∀ n, 0 ≤ n → n * PGSIZE < sz → accessible U n;
  ia_none : ∀ n, n < USER → sz ≤ n * PGSIZE → U !! n = None;
  ia_mem : ∀ va, 0 ≤ va < pgup sz * PGSIZE → umem U k va = Some (m va);
  ia_zero : ∀ va, sz ≤ va → m va = 0;
}.

Lemma uvm_frames O k L d T U : uvm O k L d T U → ∀ n e, n < USER → U !! n = Some e → vpage kend (frame e).
Proof. intros Hvm n e Hn He. by apply (uvm_entry kend me all Hkend Hnd Hall _ _ _ _ _ _ _ _ Hvm Hn He). Qed.

(** The image has one page for each [PGSIZE] bytes. *)
Lemma image_frames sz m U k O L d T : uvm O k L d T U → image_at sz m U k → (length (frames U) ≤ Z.to_nat (pgup sz))%nat.
Proof.
  intros Hvm [Hs Hp Hn _ _]. unfold frames. rewrite length_fmap, length_map_to_list, <- size_dom.
  pose proof (pgup_bounds sz ltac:(lia)) as Hb.
  transitivity (size (list_to_set (Z.of_nat <$> seq 0 (Z.to_nat (pgup sz))) : gset Z)).
  - apply subseteq_size. intros i [e He]%elem_of_dom. apply map_lookup_filter_Some in He as [He Hi]. simpl in Hi.
    destruct (sp_U _ _ _ _ (vm_space _ _ _ _ _ _ _ _ _ Hvm) i e He) as (H0 & _).
    assert (i * PGSIZE < sz). { destruct (decide (i * PGSIZE < sz)); [done|]. rewrite Hn in He by lia. done. }
    apply elem_of_list_to_set, list_elem_of_fmap. exists (Z.to_nat i). split; [lia|]. apply elem_of_seq.
    unfold PGSIZE in *. lia.
  - rewrite size_list_to_set by (apply NoDup_fmap; [apply _|apply NoDup_seq]). by rewrite length_fmap, length_seq.
Qed.

Lemma image_empty U k : kernel_only U → image_at 0 (λ _, 0) U k.
Proof.
  intros HU. split; [unfold KERNBASE; lia| |intros n Hn _; by apply HU| |done].
  - intros n H0 Hn. unfold PGSIZE in Hn. lia.
  - intros va Hva. change (pgup 0) with 0 in Hva. lia.
Qed.

(** Rounding the size up to a page. *)
Lemma image_round sz m U k :
  image_at sz m U k → pgup sz * PGSIZE < KERNBASE → image_at (pgup sz * PGSIZE) m U k.
Proof.
  intros [Hs Hp Hn Hm Hz] Hlt. pose proof (pgup_bounds sz ltac:(lia)) as Hb.
  assert (Hpp : pgup (pgup sz * PGSIZE) = pgup sz).
  { generalize (pgup sz). intros x. unfold pgup, PGSIZE. Z.div_mod_to_equations. lia. }
  split; [lia| | | |].
  - intros n H0 Hlt'. apply Hp; [done|]. unfold PGSIZE in *. lia.
  - intros n H1 H2. apply Hn; [done|lia].
  - intros va Hva. rewrite Hpp in Hva. by apply Hm.
  - intros va Hva. apply Hz. lia.
Qed.

Lemma pte_of_user f : Z.land (pte_of f UPERM) PTE_U ≠ 0.
Proof.
  intros H. apply (f_equal (λ z, Z.testbit z 2)) in H. unfold pte_of in H.
  rewrite Z.land_spec, !Z.lor_spec in H. by rewrite !orb_true_r in H.
Qed.

Lemma umem_same U U' k va : U' !! (va / PGSIZE) = U !! (va / PGSIZE) → umem U' k va = umem U k va.
Proof. intros H. unfold umem. by rewrite H. Qed.

(** The image after [allocuvm] has grown it. *)
Lemma image_grown sz new m U U' O k k' L d T :
  uvm O k L d T U → image_at sz m U k → sz ≤ new < KERNBASE → grown kend (pgup sz) new U U' k' →
  keeps (frames U ++ O) k k' → image_at new m U' k'.
Proof.
  intros Hvm [Hs Hp Hn Hm Hz] Hnew [HU1 HU2] Hk. pose proof (pgup_bounds sz ltac:(lia)) as Hb.
  pose proof (pgup_bounds new ltac:(lia)) as Hbn.
  split; [lia| | | |intros va Hva; apply Hz; lia].
  - intros n H0 Hlt. destruct (decide (n < pgup sz)).
    + destruct (Hp n) as (e & He & Hu); [done|unfold PGSIZE in *; lia|]. exists e. split; [|done].
      rewrite HU1 by lia. done.
    + destruct (HU2 n) as (f & _ & He & _); [lia|done|]. exists (pte_of f UPERM). split; [done|]. apply pte_of_user.
  - intros n H1 H2. rewrite HU1 by lia. apply Hn; [done|lia].
  - intros va Hva. assert (Hpg : 0 ≤ va / PGSIZE < pgup new) by (unfold PGSIZE in *; Z.div_mod_to_equations; lia).
    assert (Hvk : va < KERNBASE) by (unfold KERNBASE, PGSIZE in *; lia).
    destruct (decide (va / PGSIZE < pgup sz)) as [Hlt|Hge].
    + rewrite (umem_same U) by (apply HU1; lia).
      rewrite (umem_keeps kend O k k' U va Hk) by (lia || by eapply uvm_frames).
      apply Hm. unfold PGSIZE in *. Z.div_mod_to_equations. lia.
    + destruct (HU2 (va / PGSIZE)) as (f & Hf & He & Hz'); [lia|unfold PGSIZE in *; lia|].
      unfold umem. rewrite He. simpl. rewrite (frame_pte_of kend) by (done || apply UPERM_bound).
      rewrite Hz by (unfold PGSIZE in *; Z.div_mod_to_equations; lia). f_equal. apply ldb_0, Hz'.
      pose proof (vpage_mod4 kend f Hf). unfold in_page, PGSIZE in *. Z.div_mod_to_equations. lia.
Qed.

(** [allocuvm] on an image. *)
Lemma allocuvm_image sz m new O k L d T U :
  uvm O k L d T U → image_at sz m U k → 0 ≤ new < 2 ^ 32 →
  ∃ r k' L' T' U', allocuvm kend me d sz new k = Ok r k' ∧ uvm O k' L' d T' U' ∧ keeps O k k' ∧
    ((r = Z.max sz new ∧ new < KERNBASE ∧ image_at r m U' k') ∨
     (r = 0 ∧ (KERNBASE ≤ new ∨ Z.of_nat (length L) < 2 * (pgup new - pgup sz)))).
Proof.
  intros Hvm Him Hnew. pose proof (ia_size _ _ _ _ Him) as Hs. unfold allocuvm.
  destruct (bool_decide_reflect (KERNBASE ≤ new)) as [Hge|Hlt].
  { exists 0, k, L, T, U. split_and!; [done|done|apply keeps_refl|right; auto]. }
  destruct (bool_decide_reflect (new < sz)) as [Hsm|Hbig].
  { exists sz, k, L, T, U. split_and!; [done|done|apply keeps_refl|]. left. split_and!; [lia|lia|done]. }
  pose proof (pgup_bounds sz ltac:(lia)) as Hb. rewrite PGROUNDUP_pgup by lia.
  destruct (allocuvm_loop_spec kend me all Hkend Hnd Hall
    (S (Z.to_nat ((new - pgup sz * PGSIZE + PGSIZE - 1) / PGSIZE))) (pgup sz) sz new O k L d T U Hvm)
    as (k' & L' & T' & U' & HT & Hvm' & Hres);
    [lia|lia|lia| |unfold PGSIZE in *; Z.div_mod_to_equations; lia|lia|].
  { intros n H1 H2. apply (ia_none _ _ _ _ Him); unfold USER, KERNBASE, PGSIZE in *; lia. }
  destruct Hres as [(E & Hg & Hk)|(E & -> & Hk & Hlen)].
  - exists new, k', L', T', U'. split_and!; [done|done|eapply keeps_subset; [exact Hk|set_solver]|]. left.
    split_and!; [lia|lia|]. eapply image_grown; [exact Hvm|exact Him|lia|done|done].
  - exists 0, k', L', T'. eexists. split_and!; [done|done|eapply keeps_subset; [exact Hk|set_solver]|]. right. auto.
Qed.

(** A segment that has been loaded into the image. *)
Lemma image_segment sz m U k k' C h :
  image_at sz m U k → 0 ≤ vaddr h → vaddr h + filesz h ≤ sz →
  (∀ va, 0 ≤ va < KERNBASE → umem U k' va =
    if bool_decide (vaddr h ≤ va < vaddr h + filesz h)
    then Some (nth (Z.to_nat (poff h + (va - vaddr h))) C 0) else umem U k va) →
  image_at sz (with_segment C h m) U k'.
Proof.
  intros [Hs Hp Hn Hm Hz] Hv Hle Hmem. pose proof (pgup_bounds sz ltac:(lia)) as Hb.
  split; [done|done|done| |].
  - intros va Hva. rewrite Hmem by (unfold KERNBASE, PGSIZE in *; lia). unfold with_segment.
    bool_cases; [done|]. by apply Hm.
  - intros va Hva. unfold with_segment. rewrite bool_decide_eq_false_2 by lia. by apply Hz.
Qed.

Lemma elf_load_mono C n : ∀ off sz m sz' m', elf_load C n off sz m = Some (sz', m') → sz ≤ sz'.
Proof.
  induction n as [|n IH]; intros off sz m sz' m'; cbn [elf_load]; cbn zeta; [intros [= -> _]; lia|].
  destruct (bool_decide (off < 0 ∨ _)); [done|]. set (h := prog_header C off).
  destruct (bool_decide (ptype h ≠ _)); cbn [mbind option_bind fst snd]; [apply IH|].
  unfold segment_image. destruct (bool_decide _); [|done]. cbn [mbind option_bind fst snd]. intros H. apply IH in H. lia.
Qed.

Lemma elf_image_size C sz m : elf_image C = Some (sz, m) → 0 ≤ sz.
Proof. unfold elf_image. destruct (bool_decide _); [done|]. apply elf_load_mono. Qed.

(** ** The loop over the program headers *)

Section Load.

Context (dev_read : Z → option (nat → Z → M Fs.fss (Z * list Z))).
Context (f : File.kst) (ip : nat) (C : list Z) (d : Z).
Context (HC : Forall byte_ok C) (HC30 : len C < 2 ^ 30).
Context (Hread : ∀ off n, 0 ≤ off < 2 ^ 32 → 0 ≤ n < 2 ^ 32 →
  Fs.readi dev_read ip off n (File.fs f) = Ok (read_at C off n) (File.fs f)).

Lemma set_fs_id : File.set_fs (File.fs f) f = f.
Proof. by destruct f. Qed.

Lemma on_fs_readi k off n : 0 ≤ off < 2 ^ 32 → 0 ≤ n < 2 ^ 32 →
  on_fs (Fs.readi dev_read ip off n) (k, f) = Ok (read_at C off n) (k, f).
Proof using Hread.
  intros Ho Hn. unfold on_fs, on_files, File.in_fs, zoom. cbn [fst snd]. by rewrite Hread, set_fs_id.
Qed.

Lemma read_to_eq k dst off n : 0 ≤ off < 2 ^ 32 → 0 ≤ n < 2 ^ 32 →
  read_to dev_read ip dst off n (k, f) =
    Ok (read_at C off n).1 (set_words (store_bytes dst (read_at C off n).2 (words k)) k, f).
Proof using Hread. intros Ho Hn. unfold read_to. by rewrite (bind_step _ _ _ _ _ (on_fs_readi k off n Ho Hn)). Qed.

Lemma on_pages_eq {A} (m : M kmem A) k a k' : m k = Ok a k' → on_pages m (k, f) = Ok a (k', f).
Proof. intros E. unfold on_pages, zoom. cbn [fst snd]. by rewrite E. Qed.

(** Loading a segment into an image that has room for it. *)
Lemma load_segment h sz m O k L T U :
  uvm O k L d T U → image_at sz m U k → 0 ≤ vaddr h → 0 ≤ filesz h → 0 ≤ poff h < 2 ^ 32 →
  vaddr h mod PGSIZE = 0 → vaddr h + filesz h ≤ sz →
  ∃ r k', loaduvm me fst (λ k s, (k, s.2)) (read_to dev_read ip) d (vaddr h) (poff h) (filesz h) (k, f) = Ok r (k', f) ∧
    uvm O k' L d T U ∧ keeps O k k' ∧
    ((r = 0 ∧ (0 < filesz h → poff h + filesz h ≤ len C) ∧ image_at sz (with_segment C h m) U k') ∨
     (r = -1 ∧ 0 < filesz h ∧ len C < poff h + filesz h)).
Proof using Hkend Hnd Hall HC HC30 Hread.
  intros Hvm Him Hv Hf Ho Ha Hle. pose proof (ia_size _ _ _ _ Him) as Hs.
  assert (Ev : vaddr h = vaddr h / PGSIZE * PGSIZE) by (unfold PGSIZE in *; Z.div_mod_to_equations; lia).
  destruct (loaduvm_spec kend me all Hkend Hnd Hall f C HC ltac:(unfold len in *; lia) (read_to dev_read ip)
    read_to_eq (vaddr h / PGSIZE) (poff h) (filesz h) O k L d T U Hvm) as (r & k' & E & Hvm' & Hk & Hres).
  - unfold PGSIZE. Z.div_mod_to_equations. lia.
  - done.
  - lia.
  - done.
  - intros n (_ & Hn & Hlt). rewrite <- Ev in Hn, Hlt. destruct (ia_pages _ _ _ _ Him n) as (e & He & _); [|lia|by exists e].
    unfold PGSIZE in *. Z.div_mod_to_equations. lia.
  - rewrite <- Ev in E, Hres. exists r, k'. split_and!; [done|done|done|].
    destruct Hres as [(-> & Hl & Hm)|Hr]; [left|by right]. split_and!; [done|done|]. by eapply image_segment.
Qed.

(** Pages that would have been enough for an image of size [sz]. *)
Definition few_pages (O : list Z) (sz : Z) : Prop :=
  Z.of_nat (length all) - Z.of_nat (length O) < 1025 + 2 * pgup sz.

Lemma pgup_mono a b : a ≤ b → pgup a ≤ pgup b.
Proof. intros H. unfold pgup, PGSIZE. Z.div_mod_to_equations. lia. Qed.

Lemma out_of_pages O k L T U sz m new :
  uvm O k L d T U → image_at sz m U k → Z.of_nat (length L) < 2 * (pgup new - pgup sz) → few_pages O new.
Proof.
  intros Hvm Him Hl. unfold few_pages. pose proof (vm_count kend me all _ _ _ _ _ _ Hvm) as Hc.
  pose proof (vm_tabs_le kend me all _ _ _ _ _ _ Hvm). pose proof (image_frames _ _ _ _ _ _ _ _ Hvm Him).
  rewrite length_app in Hc. pose proof (pgup_bounds sz ltac:(destruct Him; lia)). lia.
Qed.

(** An outcome of loading that agrees with the image [spec]: the image has been
    built, or it has not because there is none or because memory was short. *)
Definition loads (O : list Z) (k : kmem) (spec : option (Z * (Z → Z))) (o : outcome (kmem * File.kst) (option Z)) : Prop :=
  ∃ x k' L' T' U', o = Ok x (k', f) ∧ uvm O k' L' d T' U' ∧ keeps O k k' ∧
    match x with
    | Some sz' => ∃ m', spec = Some (sz', m') ∧ image_at sz' m' U' k'
    | None => ∀ sz' m', spec = Some (sz', m') → few_pages O sz'
    end.

Lemma loads_stop O k spec k' L' T' U' :
  uvm O k' L' d T' U' → keeps O k k' → (∀ sz' m', spec = Some (sz', m') → few_pages O sz') →
  loads O k spec (Ok None (k', f)).
Proof. intros. by exists None, k', L', T', U'. Qed.

Lemma loads_keeps O k k1 spec o : keeps O k k1 → loads O k1 spec o → loads O k spec o.
Proof.
  intros Hk (x & k' & L' & T' & U' & -> & Hvm & Hk' & Hx). exists x, k', L', T', U'.
  split_and!; [done|done|by eapply keeps_trans|done].
Qed.

Lemma exec_segment_spec O h sz m k L T U :
  uvm O k L d T U → image_at sz m U k →
  0 ≤ poff h < 2 ^ 32 → 0 ≤ vaddr h < 2 ^ 32 → 0 ≤ filesz h < 2 ^ 32 → 0 ≤ memsz h < 2 ^ 32 →
  loads O k (segment_image C h sz m) (exec_segment kend me dev_read ip d h sz (k, f)).
Proof using Hkend Hnd Hall HC HC30 Hread.
  intros Hvm Him Hpo Hva Hfs Hms. unfold exec_segment, segment_image.
  assert (Hno : ¬ (segment_ok C h ∧ 0 < Z.max sz (vaddr h + memsz h)) → ∀ k' L' T' U', uvm O k' L' d T' U' → keeps O k k' →
    loads O k (if bool_decide (segment_ok C h ∧ 0 < Z.max sz (vaddr h + memsz h))
      then Some (Z.max sz (vaddr h + memsz h), with_segment C h m) else None) (Ok None (k', f))).
  { intros Hno k' L' T' U' Hvm' Hk'. rewrite bool_decide_eq_false_2 by done. by eapply loads_stop. }
  pose proof (ia_size _ _ _ _ Him) as Hs.
  destruct (bool_decide_reflect (memsz h < filesz h)).
  { apply (Hno ltac:(intros [(? & _) _]; lia) k L T U); [done|apply keeps_refl]. }
  destruct (bool_decide_reflect (u32 (vaddr h + memsz h) < vaddr h)) as [Hov|Hov].
  { apply Hno with L T U; [|done|apply keeps_refl]. intros [(_ & Hlt & _) _].
    rewrite u32_small in Hov by (unfold KERNBASE in *; lia). lia. }
  assert (Hlt32 : vaddr h + memsz h < 2 ^ 32) by (unfold u32 in Hov; Z.div_mod_to_equations; lia).
  rewrite u32_small by lia.
  destruct (allocuvm_image sz m (vaddr h + memsz h) O k L d T U Hvm Him) as (r & k1 & L1 & T1 & U1 & E1 & Hvm1 & Hk1 & Hr);
    [lia|]. rewrite (bind_step _ _ _ _ _ (on_pages_eq _ _ _ _ E1)).
  destruct (bool_decide_reflect (r = 0)) as [->|Hr0].
  { destruct Hr as [(Hmax & _)|(_ & [Hge|Hlen])].
    - apply (Hno ltac:(lia) k1 L1 T1 U1); done.
    - apply (Hno ltac:(intros [(_ & Hlt & _) _]; lia) k1 L1 T1 U1); done.
    - eapply loads_stop; [done|done|]. intros sz' m'. bool_cases; [|done]. intros [= <- _].
      pose proof (out_of_pages _ _ _ _ _ _ _ _ Hvm Him Hlen) as Hfew. unfold few_pages in *.
      pose proof (pgup_mono (vaddr h + memsz h) (Z.max sz (vaddr h + memsz h))). lia. }
  destruct Hr as [(Hmax & Hlt & Him1)|(-> & _)]; [|done].
  destruct (bool_decide_reflect (vaddr h mod PGSIZE ≠ 0)) as [Hal|Hal].
  { apply (Hno ltac:(intros [(_ & _ & ? & _) _]; lia) k1 L1 T1 U1); done. }
  destruct (load_segment h r m O k1 L1 T1 U1 Hvm1 Him1) as (r2 & k2 & E2 & Hvm2 & Hk2 & Hr2); [lia|lia|lia|lia|lia|].
  rewrite (bind_step _ _ _ _ _ E2). assert (Hk12 : keeps O k k2) by (by eapply keeps_trans).
  destruct Hr2 as [(-> & Hfl & Him2)|(-> & Hpos & Hfl)].
  - rewrite (bool_decide_eq_true_2 (segment_ok C h ∧ _)) by (split; [split_and!; (done || lia)|lia]).
    rewrite <- Hmax. exists (Some r), k2, L1, T1, U1. split_and!; [done|done|done|]. by eexists.
  - apply Hno with L1 T1 U1; [|done|done]. intros [(_ & _ & _ & Hok) _]. lia.
Qed.

Lemma exec_load_spec O n : ∀ off sz m k L T U,
  uvm O k L d T U → image_at sz m U k → - 2 ^ 31 ≤ off < 2 ^ 31 →
  loads O k (elf_load C n off sz m) (exec_load kend me dev_read n ip d off sz (k, f)).
Proof using Hkend Hnd Hall HC HC30 Hread.
  induction n as [|n IH]; intros off sz m k L T U Hvm Him Hoff.
  { exists (Some sz), k, L, T, U. split_and!; [done|done|apply keeps_refl|]. by exists m. }
  cbn [exec_load elf_load]. cbn zeta.
  rewrite (bind_step _ _ _ _ _ (on_fs_readi k (u32 off) 32 (u32_range off) ltac:(lia))).
  pose proof (read_at_full C (u32 off) 32 ltac:(unfold len in *; lia) (u32_range off) ltac:(lia)) as Hfull.
  change sizeof_proghdr with 32.
  destruct (bool_decide_reflect (off < 0 ∨ len C < off + 32)) as [Hshort|Hlong].
  { rewrite (bool_decide_eq_true_2 ((read_at C (u32 off) 32).1 ≠ 32)); [by eapply loads_stop; [|apply keeps_refl|]|].
    intros Heq. apply Hfull in Heq. unfold len, u32 in *. Z.div_mod_to_equations. lia. }
  rewrite (u32_small off) in * by lia.
  rewrite (bool_decide_eq_false_2 ((read_at C off 32).1 ≠ 32)) by (intros H; apply H, Hfull; unfold len in *; lia).
  assert (Eh : proghdr_of (read_at C off 32).2 = prog_header C off).
  { unfold read_at, prog_header. rewrite u32_small by (unfold len in *; lia).
    by rewrite bool_decide_eq_false_2 by (unfold len in *; lia). }
  rewrite Eh. destruct (prog_header_range C off) as (Hpo & Hva & Hfs & Hms). set (h := prog_header C off) in *.
  assert (Hseg : loads O k (if bool_decide (ptype h ≠ ELF_PROG_LOAD) then Some (sz, m) else segment_image C h sz m)
    ((if bool_decide (ptype h ≠ ELF_PROG_LOAD) then mret (Some sz) else exec_segment kend me dev_read ip d h sz) (k, f))).
  { bool_cases; [|by eapply exec_segment_spec]. exists (Some sz), k, L, T, U.
    split_and!; [done|done|apply keeps_refl|by exists m]. }
  set (spec := if bool_decide (ptype h ≠ ELF_PROG_LOAD) then Some (sz, m) else segment_image C h sz m) in *.
  destruct Hseg as (x & k1 & L1 & T1 & U1 & E1 & Hvm1 & Hk1 & Hx). rewrite (bind_step _ _ _ _ _ E1).
  destruct x as [sz1|].
  - destruct Hx as (m1 & Es & Him1). rewrite Es, s32_small by lia. cbn [mbind option_bind fst snd].
    eapply loads_keeps; [exact Hk1|]. eapply IH; [done|done|lia].
  - eapply loads_stop; [done|done|]. intros sz' m' H.
    destruct spec as [[sz1 m1]|]; [|done]. cbn [mbind option_bind fst snd] in H.
    apply elf_load_mono in H. specialize (Hx _ _ eq_refl). unfold few_pages in *. pose proof (pgup_mono sz1 sz'). lia.
Qed.

End Load.

End Image.

End ExecImage.
