(* ===== verification/ExecStack.v ===== *)
(** * The stack of a new program

    [exec_args] and [exec_stack] of [Exec] lay out the arguments of a program: the
    strings, the vector of pointers to them, and the frame that [main] expects. *)

From S2P Require Import Prelude Spinlock Kalloc Vm VmInv VmThm VmUser Log Fs File Exec.

Module ExecStack.
Import Exec.

(** ** What is on a stack *)

(** A string, a word and an array of words, in the memory that [rd] reads. *)
Definition string_at (rd : Z → option Z) (a : Z) (s : list Z) : Prop :=
  ∀ j, 0 ≤ j ≤ Z.of_nat (length s) → rd (a + j) = Some (nth (Z.to_nat j) (s ++ [0]) 0).
Definition word_at (rd : Z → option Z) (a w : Z) : Prop :=
  ∀ j, 0 ≤ j < 4 → rd (a + j) = Some (byte_in w j).
Definition words_at (rd : Z → option Z) (a : Z) (l : list Z) : Prop :=
  ∀ i w, l !! i = Some w → word_at rd (a + 4 * Z.of_nat i) w.

(** The room that a string takes, and all of the stack. *)
Definition string_room (s : list Z) : Z := (Z.of_nat (length s) + 1 + 3) / 4 * 4.
Definition strings_room (argv : list (list Z)) : Z := foldr (λ s n, string_room s + n) 0 argv.
Definition stack_room (argv : list (list Z)) : Z := strings_room argv + 4 * (Z.of_nat (length argv) + 4).

Lemma string_room_bound s : Z.of_nat (length s) + 1 ≤ string_room s < Z.of_nat (length s) + 5 ∧ string_room s mod 4 = 0.
Proof. unfold string_room. Z.div_mod_to_equations. lia. Qed.

Lemma strings_room_bound argv : 0 ≤ strings_room argv ∧ strings_room argv mod 4 = 0.
Proof.
  induction argv as [|s argv IH]; simpl; [done|]. pose proof (string_room_bound s). Z.div_mod_to_equations. lia.
Qed.

Lemma land_not3 x : Z.land x (Z.lnot 3) = x / 4 * 4.
Proof.
  change 3 with (Z.ones 2). rewrite <- Z.ldiff_land, Z.ldiff_ones_r by lia.
  rewrite Z.shiftr_div_pow2, Z.shiftl_mul_pow2 by lia. done.
Qed.

(** What the loop over the arguments computes for [sp]. *)
Lemma push_address sp s :
  sp mod 4 = 0 → 0 ≤ sp - string_room s → sp < 2 ^ 32 →
  Z.land (u32 (sp - (Z.of_nat (length s) + 1))) (Z.lnot 3) = sp - string_room s.
Proof.
  intros Hsp H0 H1. pose proof (string_room_bound s). rewrite u32_small, land_not3 by lia. unfold string_room in *.
  Z.div_mod_to_equations. lia.
Qed.

Lemma length_words_bytes l : length (words_bytes l) = (4 * length l)%nat.
Proof. induction l as [|w l IH]; [done|]. cbn [words_bytes mbind list_bind]. rewrite length_app. unfold words_bytes in IH. rewrite IH. simpl. lia. Qed.

Lemma words_bytes_ok l : Forall byte_ok (words_bytes l).
Proof.
  induction l as [|w l IH]; [constructor|]. cbn [words_bytes mbind list_bind]. apply Forall_app. split; [|done].
  unfold word_bytes. apply Forall_fmap, Forall_forall. intros i _. unfold byte_ok, byte_in, compose.
  change 0xFF with (Z.ones 8). rewrite Z.land_ones by lia. by apply Z.mod_pos_bound.
Qed.

Lemma nth_words_bytes l : ∀ i w j, l !! i = Some w → 0 ≤ j < 4 →
  nth (4 * i + Z.to_nat j) (words_bytes l) 0 = byte_in w j.
Proof.
  induction l as [|w0 l IH]; intros i w j Hi Hj; [done|]. cbn [words_bytes mbind list_bind].
  destruct i as [|i]; simpl in Hi.
  - injection Hi as ->. rewrite app_nth1 by (simpl; lia).
    assert (j = 0 ∨ j = 1 ∨ j = 2 ∨ j = 3) as [->|[->|[->| ->]]] by lia; done.
  - rewrite app_nth2 by (simpl; lia). rewrite <- (IH i w j Hi Hj). f_equal. simpl. lia.
Qed.

Section Stack.

Context (kend : Z) (me : nat) (all : list Z).
Context (Hkend : 0 < kend) (Hnd : NoDup all) (Hall : Forall (vpage kend) all).
Context (O : list Z) (L : list Z) (d : Z) (T U : gmap Z Z) (b : Z).

(** The stack is page [b], and the page below is not accessible. *)
Context (Hb : 1 ≤ b) (Hbk : (b + 1) * PGSIZE ≤ KERNBASE).
Context (Hstack : accessible U b) (Hguard : ∃ e, U !! (b - 1) = Some e ∧ Z.land e PTE_U = 0).

Abbreviation uvm k := (uvm kend me all O k L d T U).

(** The user memory of [k'] is that of [k] with [buf] at [va]. *)
Definition copied_to (va : Z) (buf : list Z) (k k' : kmem) : Prop :=
  ∀ x, 0 ≤ x < KERNBASE → umem U k' x =
    if bool_decide (va ≤ x < va + Z.of_nat (length buf)) then Some (nth (Z.to_nat (x - va)) buf 0) else umem U k x.

(** [copyout] to the stack or to the page below. *)
Lemma push_spec k va buf :
  uvm k → (b - 1) * PGSIZE ≤ va → va + Z.of_nat (length buf) ≤ (b + 1) * PGSIZE → buf ≠ [] → Forall byte_ok buf →
  ∃ r k', copyout me d va buf k = Ok r k' ∧ uvm k' ∧ keeps O k k' ∧
    ((r = 0 ∧ b * PGSIZE ≤ va ∧ copied_to va buf k k') ∨ (r = -1 ∧ va < b * PGSIZE)).
Proof using Hkend Hnd Hall Hb Hbk Hstack Hguard.
  intros Hvm Hva Hend Hne Hbuf. destruct Hguard as (g & Hg & Hgu). destruct Hstack as (e & He & Heu).
  assert (Hlen : 0 < Z.of_nat (length buf)) by (destruct buf; [done|simpl; lia]).
  assert (Hpg : ∀ n, page_of va (Z.of_nat (length buf)) n → n = b - 1 ∨ n = b).
  { intros n (_ & H1 & H2). unfold PGSIZE in *. Z.div_mod_to_equations. lia. }
  destruct (copyout_loop_spec kend me all Hkend Hnd Hall (S (length buf)) va buf O k L d T U Hvm)
    as (r & k' & E & Hvm' & Hk & Hres); [unfold PGSIZE in *; lia|lia|done| |lia|].
  { intros n [->| ->]%Hpg; by eexists. }
  exists r, k'. split_and!; [done|done|done|]. destruct Hres as [(-> & Hacc & Hm)|(-> & n & Hn & Hna)]; [left|right].
  - split_and!; [done| |done]. destruct (decide (b * PGSIZE ≤ va)) as [|Hlt]; [done|]. exfalso.
    destruct (Hacc (b - 1)) as (g' & Hg' & Hgu'); [|congruence].
    split_and!; [done| |lia]. unfold PGSIZE in *. Z.div_mod_to_equations. lia.
  - split; [done|]. destruct (decide (va < b * PGSIZE)) as [|Hge]; [done|]. exfalso. apply Hna. exists e.
    destruct (Hpg n Hn) as [->| ->]; [|done]. destruct Hn as (_ & H1 & _). unfold PGSIZE in *. Z.div_mod_to_equations. lia.
Qed.

Lemma pushed_in va buf k k' i :
  copied_to va buf k k' → 0 ≤ va → va + Z.of_nat (length buf) ≤ KERNBASE → 0 ≤ i < Z.of_nat (length buf) →
  umem U k' (va + i) = Some (nth (Z.to_nat i) buf 0).
Proof. intros Hp Hva Hend Hi. rewrite Hp by lia. rewrite bool_decide_eq_true_2 by lia. do 2 f_equal. lia. Qed.

(** The strings are in place, below [sp]. *)
Definition placed (k : kmem) (lo hi : Z) (argv : list (list Z)) (ptrs : list Z) : Prop :=
  Forall2 (λ s a, a mod 4 = 0 ∧ lo ≤ a ∧ a + Z.of_nat (length s) < hi ∧ string_at (umem U k) a s) argv ptrs.

Lemma placed_mono k k' lo lo' hi hi' argv ptrs :
  placed k lo hi argv ptrs → lo' ≤ lo → hi ≤ hi' → (∀ x, lo ≤ x < hi → umem U k' x = umem U k x) → placed k' lo' hi' argv ptrs.
Proof.
  intros Hp Hlo Hhi Hm. eapply Forall2_impl; [exact Hp|]. intros s a (Ha & H1 & H2 & Hs). split_and!; [done|lia|lia|].
  intros j Hj. rewrite Hm by lia. by apply Hs.
Qed.

Lemma exec_args_spec argv : ∀ argc sp k,
  uvm k → b * PGSIZE ≤ sp ≤ (b + 1) * PGSIZE → sp mod 4 = 0 →
  Forall (λ s, Forall byte_ok s ∧ Z.of_nat (length s) < PGSIZE) argv →
  ∃ x k', exec_args me argv argc d sp k = Ok x k' ∧ uvm k' ∧ keeps O k k' ∧
    match x with
    | Some (sp', ptrs) => sp' = sp - strings_room argv ∧ b * PGSIZE ≤ sp' ∧ (argc ≤ MAXARG → argc + length argv ≤ MAXARG)%nat ∧
        placed k' sp' sp argv ptrs ∧ ∀ x, 0 ≤ x < KERNBASE → ¬ (sp' ≤ x < sp) → umem U k' x = umem U k x
    | None => (MAXARG < argc + length argv)%nat ∨ sp - strings_room argv < b * PGSIZE
    end.
Proof using Hkend Hnd Hall Hb Hbk Hstack Hguard.
  induction argv as [|s argv IH]; intros argc sp k Hvm Hsp H4 Hargv; cbn [exec_args].
  { exists (Some (sp, [])), k. simpl. split_and!; [done|done|apply keeps_refl|lia|lia|lia|constructor|done]. }
  apply Forall_cons in Hargv as [[Hs Hlen] Hargv]. simpl.
  pose proof (string_room_bound s) as Hroom. pose proof (strings_room_bound argv) as Hrooms.
  destruct (bool_decide_reflect (MAXARG ≤ argc)%nat).
  { exists None, k. split_and!; [done|done|apply keeps_refl|]. left. lia. }
  assert (Hr4 : string_room s ≤ PGSIZE) by (unfold string_room, PGSIZE in *; Z.div_mod_to_equations; lia).
  rewrite push_address by (done || unfold KERNBASE, PGSIZE in *; lia).
  set (sp1 := sp - string_room s). assert (Hsp1 : sp1 + string_room s = sp) by lia.
  assert (Hl1 : length (s ++ [0]) = S (length s)) by (rewrite length_app; simpl; lia).
  destruct (push_spec k sp1 (s ++ [0]) Hvm) as (r & k1 & E1 & Hvm1 & Hk1 & Hr).
  { unfold PGSIZE in *. lia. } { rewrite Hl1. lia. } { by destruct s. }
  { apply Forall_app. split; [done|]. repeat constructor; unfold byte_ok; lia. }
  rewrite (bind_step _ _ _ _ _ E1). destruct Hr as [(-> & Hge & Hpush)|(-> & Hlt)].
  2:{ rewrite bool_decide_eq_true_2 by lia. exists None, k1. split_and!; [done|done|done|]. right. lia. }
  rewrite bool_decide_eq_false_2 by lia. unfold copied_to in Hpush. rewrite Hl1 in Hpush.
  assert (Hsp14 : sp1 mod 4 = 0) by (unfold sp1; Z.div_mod_to_equations; lia).
  destruct (IH (S argc) sp1 k1 Hvm1) as (x & k' & E' & Hvm' & Hk' & Hx); [lia|done|done|].
  rewrite (bind_step _ _ _ _ _ E'). exists ((λ y : Z * list Z, (y.1, sp1 :: y.2)) <$> x), k'.
  split_and!; [done|done|by eapply keeps_trans|]. destruct x as [[sp' ptrs]|]; cbn [fmap option_fmap option_map fst snd].
  2:{ destruct Hx as [Hx|Hx]; [left; lia|right; lia]. }
  destruct Hx as (-> & Hge' & Hcount & Hplaced & Hsame). split_and!; [lia|lia|lia| |].
  - constructor.
    + split_and!; [done|lia|lia|]. intros j Hj. rewrite Hsame by (unfold PGSIZE in *; lia).
      rewrite Hpush by (unfold PGSIZE in *; lia). rewrite bool_decide_eq_true_2 by lia. do 2 f_equal. lia.
    + eapply placed_mono; [exact Hplaced|lia|lia|done].
  - intros y Hy Hout. rewrite Hsame by lia. rewrite Hpush by done. by rewrite bool_decide_eq_false_2 by lia.
Qed.

(** What [main] finds: a return address that is none, [argc], [argv] and the
    vector of pointers, ended by a null pointer. *)
Record stack_at (rd : Z → option Z) (lo hi esp : Z) (argv : list (list Z)) : Prop := StackAt {
  st_esp : lo ≤ esp ∧ esp + 4 * (Z.of_nat (length argv) + 4) ≤ hi ∧ esp mod 4 = 0;
  st_ret : word_at rd esp 0xffffffff;
  st_argc : word_at rd (esp + 4) (Z.of_nat (length argv));
  st_argv : word_at rd (esp + 8) (esp + 12);
  st_vector : ∃ ptrs, words_at rd (esp + 12) (ptrs ++ [0]) ∧
    Forall2 (λ s a, lo ≤ a ∧ a + Z.of_nat (length s) < hi ∧ string_at rd a s) argv ptrs;
}.

Lemma pushed_words va l k k' :
  copied_to va (words_bytes l) k k' → 0 ≤ va → va + 4 * Z.of_nat (length l) ≤ KERNBASE → words_at (umem U k') va l.
Proof.
  intros Hp Hva Hend i w Hi j Hj. pose proof (lookup_lt_Some _ _ _ Hi) as Hlt.
  replace (va + 4 * Z.of_nat i + j) with (va + (4 * Z.of_nat i + j)) by lia.
  rewrite (pushed_in _ _ _ _ _ Hp) by (rewrite ?length_words_bytes; lia).
  rewrite <- (nth_words_bytes l i w j Hi Hj). do 2 f_equal. lia.
Qed.

(** The loop and the frame after it. *)
Definition frame_words (argv : list (list Z)) (ptrs : list Z) (esp : Z) : list Z :=
  [0xffffffff; Z.of_nat (length argv); esp + 12] ++ ptrs ++ [0].

Lemma stack_of_words rd lo hi esp argv ptrs :
  lo ≤ esp → esp + 4 * (Z.of_nat (length argv) + 4) ≤ hi → esp mod 4 = 0 → words_at rd esp (frame_words argv ptrs esp) →
  Forall2 (λ s a, lo ≤ a ∧ a + Z.of_nat (length s) < hi ∧ string_at rd a s) argv ptrs →
  stack_at rd lo hi esp argv.
Proof.
  intros Hlo Hhi H4 Hw Hs. split; [done| | | |exists ptrs; split; [|done]].
  - rewrite <- (Z.add_0_r esp). by apply (Hw 0%nat).
  - by apply (Hw 1%nat).
  - by apply (Hw 2%nat).
  - intros i w Hi. replace (esp + 12 + 4 * Z.of_nat i) with (esp + 4 * Z.of_nat (3 + i)) by lia. by apply Hw.
Qed.

Lemma push_frame_spec k sp argv ptrs :
  uvm k → sp mod 4 = 0 → b * PGSIZE ≤ sp ≤ (b + 1) * PGSIZE → (length argv ≤ MAXARG)%nat →
  placed k sp ((b + 1) * PGSIZE) argv ptrs →
  let esp := sp - 4 * (Z.of_nat (length argv) + 4) in
  ∃ r k', copyout me d esp (words_bytes (frame_words argv ptrs esp)) k = Ok r k' ∧ uvm k' ∧ keeps O k k' ∧
    ((r = 0 ∧ b * PGSIZE ≤ esp ∧ stack_at (umem U k') (b * PGSIZE) ((b + 1) * PGSIZE) esp argv ∧
      ∀ x, 0 ≤ x < b * PGSIZE → umem U k' x = umem U k x) ∨ (r = -1 ∧ esp < b * PGSIZE)).
Proof using Hkend Hnd Hall Hb Hbk Hstack Hguard.
  intros Hvm H4 Hsp Hargc Hp esp. pose proof (Forall2_length _ _ _ Hp) as Hlp.
  set (ustack := frame_words argv ptrs esp).
  assert (Hlen : Z.of_nat (length ustack) = Z.of_nat (length argv) + 4).
  { unfold ustack, frame_words. rewrite !length_app. simpl. lia. }
  destruct (push_spec k esp (words_bytes ustack) Hvm) as (r & k' & E & Hvm' & Hk & Hr).
  { unfold MAXARG, PGSIZE in *. lia. } { rewrite length_words_bytes. lia. } { done. } { apply words_bytes_ok. }
  exists r, k'. split_and!; [done|done|done|]. destruct Hr as [(-> & Hge & Hpush)|Hr]; [left|by right].
  split_and!; [done|done| |].
  - eapply stack_of_words; [done|unfold esp; lia|unfold esp; Z.div_mod_to_equations; lia| |].
    + eapply pushed_words; [exact Hpush|unfold PGSIZE in *; lia|fold ustack; lia].
    + eapply Forall2_impl; [apply (placed_mono k k' sp (b * PGSIZE) ((b + 1) * PGSIZE) ((b + 1) * PGSIZE) argv ptrs Hp); [lia|lia|]|].
      * intros x Hx. rewrite Hpush by (unfold PGSIZE in *; lia). rewrite length_words_bytes.
        by rewrite bool_decide_eq_false_2 by lia.
      * intros s a (_ & ?). done.
  - intros x Hx. rewrite Hpush by lia. by rewrite bool_decide_eq_false_2 by lia.
Qed.

End Stack.

Lemma flags_user e : Z.land (PTE_FLAGS e) PTE_U = Z.land e PTE_U.
Proof. unfold PTE_FLAGS. by rewrite <- Z.land_assoc. Qed.

Lemma stack_at_ext rd rd' lo hi esp argv :
  stack_at rd lo hi esp argv → (∀ x v, lo ≤ x < hi → rd x = Some v → rd' x = Some v) →
  stack_at rd' lo hi esp argv.
Proof.
  intros [(Hlo & Hhi & H4) H1 H2 H3 (ptrs & Hw & Hs)] Hx. pose proof (Forall2_length _ _ _ Hs) as Hl.
  assert (Hword : ∀ a w, word_at rd a w → lo ≤ a → a + 4 ≤ hi → word_at rd' a w).
  { intros a w Ha Hla Hh j Hj. apply Hx; [lia|by apply Ha]. }
  split; [done|apply Hword; (done || lia)..|]. exists ptrs. split.
  - intros i w Hi. pose proof (lookup_lt_Some _ _ _ Hi) as Hlt. rewrite length_app in Hlt. simpl in Hlt.
    apply Hword; [by apply Hw|lia|lia].
  - eapply Forall2_impl; [exact Hs|]. intros s a (Ha1 & Ha2 & Hst). split_and!; [done|done|].
    intros j Hj. apply Hx; [lia|by apply Hst].
Qed.

End ExecStack.
