(* ===== verification/ExecThm.v ===== *)
(** * What [exec] promises

    [exec] builds the image of the file and the stack of the arguments in a new
    address space and switches the process to it, or it fails and leaves the
    process as it was; no page is lost either way. *)

From S2P Require Import Prelude Spinlock Kalloc Vm VmInv VmThm VmUser Log Fs.
From S2P Require Import FsInv FsAlloc FsFile FsWrite FsTrunc FsCache FsDir FsPath FsDemo FsThm.
From S2P Require Import File Exec ExecImage ExecStack.

Module ExecThm.
Import Exec ExecImage ExecStack.

Section Thm.

Context (kend : Z) (me : nat) (all : list Z).
Context (Hkend : 0 < kend) (Hnd : NoDup all) (Hall : Forall (vpage kend) all).

Abbreviation uvm := (uvm kend me all).

(** ** Memory *)

(** The memory of a program: [m] below [lo], the stack page at the top, and a page
    between them that is not accessible. *)
Record program_at (w : Z → Z) (d lo : Z) (m : Z → Z) (esp : Z) (argv : list (list Z)) : Prop := ProgramAt {
  pa_image : ∀ va, 0 ≤ va < lo → ubyte w d va = Some (m va);
  pa_guard : ∀ va, lo ≤ va < lo + PGSIZE → ubyte w d va = None;
  pa_stack : stack_at (ubyte w d) (lo + PGSIZE) (lo + 2 * PGSIZE) esp argv;
}.

Definition arguments_ok (argv : list (list Z)) : Prop :=
  Forall (λ s, Forall byte_ok s ∧ Z.of_nat (length s) < PGSIZE) argv.

Lemma ubyte_page O k L d T U va n e :
  uvm O k L d T U → 0 ≤ va < KERNBASE → va / PGSIZE = n → U !! n = Some e →
  ubyte (words k) d va = if bool_decide (Z.land e PTE_U = 0) then None else umem U k va.
Proof using Hkend Hnd Hall.
  intros Hvm Hva Hn He. rewrite (ubyte_umem kend me all Hkend Hnd Hall _ _ _ _ _ _ va Hvm Hva), Hn, He.
  cbn [mbind option_bind]. by rewrite flags_user.
Qed.

Lemma exec_stack_spec O k L d T U b m argv :
  uvm O k L d T U → image_at ((b + 1) * PGSIZE) m U k → 1 ≤ b → arguments_ok argv →
  ∃ x k' U', exec_stack me argv d ((b + 1) * PGSIZE) k = Ok x k' ∧ uvm O k' L d T U' ∧ keeps O k k' ∧
    match x with
    | Some esp => (length argv ≤ MAXARG)%nat ∧ stack_room argv ≤ PGSIZE ∧
        program_at (words k') d ((b - 1) * PGSIZE) m esp argv
    | None => (MAXARG < length argv)%nat ∨ PGSIZE < stack_room argv
    end.
Proof using Hkend Hnd Hall.
  intros Hvm Him Hb Hargv. pose proof (ia_size _ _ _ _ Him) as Hs.
  assert (Hb1 : 0 ≤ b - 1 < USER) by (unfold USER, KERNBASE, PGSIZE in *; lia).
  assert (Hpg : pgup ((b + 1) * PGSIZE) = b + 1) by (unfold pgup, PGSIZE; Z.div_mod_to_equations; lia).
  destruct (ia_pages _ _ _ _ Him (b - 1)) as (g & Hg & _); [lia|unfold PGSIZE; lia|].
  destruct (clearpteu_spec kend me all Hkend Hnd Hall _ _ _ _ _ _ _ _ Hvm Hb1 Hg) as (k1 & E1 & Hvm1 & Hk1).
  set (g' := Z.land g (Z.lnot PTE_U)) in *. set (U' := <[b - 1 := g']> U) in *.
  destruct (clear_user g) as (Hgf & _ & Hgu). fold g' in Hgf, Hgu.
  assert (Hacc : ∀ n, 0 ≤ n < b + 1 → n ≠ b - 1 → accessible U' n).
  { intros n Hn Hne. destruct (ia_pages _ _ _ _ Him n) as (e & He & Hu); [lia|unfold PGSIZE; lia|].
    exists e. split; [|done]. unfold U'. by rewrite lookup_insert_ne. }
  assert (Hmem : ∀ va, 0 ≤ va < (b + 1) * PGSIZE → umem U' k1 va = Some (m va)).
  { intros va Hva. rewrite <- (ia_mem _ _ _ _ Him va) by (rewrite Hpg; lia).
    transitivity (umem U k1 va).
    - unfold umem, U'. destruct (decide (va / PGSIZE = b - 1)) as [->|Hne]; [|by rewrite lookup_insert_ne].
      rewrite lookup_insert_eq, Hg. cbn [fmap option_fmap option_map]. by rewrite Hgf.
    - apply (umem_keeps kend O); [done|lia|by eapply uvm_frames]. }
  assert (HkO : keeps O k k1) by (eapply keeps_subset; [exact Hk1|set_solver]).
  unfold exec_stack. replace (u32 ((b + 1) * PGSIZE - 2 * PGSIZE)) with ((b - 1) * PGSIZE)
    by (rewrite u32_small; unfold KERNBASE, PGSIZE in *; lia).
  rewrite (bind_step _ _ _ _ _ E1).
  assert (Hstack : accessible U' b) by (apply Hacc; lia).
  assert (Hguard : ∃ e, U' !! (b - 1) = Some e ∧ Z.land e PTE_U = 0) by (exists g'; split; [apply lookup_insert_eq|done]).
  destruct (exec_args_spec kend me all Hkend Hnd Hall O L d T U' b Hb ltac:(lia) Hstack Hguard argv 0
    ((b + 1) * PGSIZE) k1 Hvm1) as (x & k2 & E2 & Hvm2 & Hk2 & Hx);
    [unfold PGSIZE; lia|unfold PGSIZE; Z.div_mod_to_equations; lia|done|].
  rewrite (bind_step _ _ _ _ _ E2). assert (HkO2 : keeps O k k2) by (by eapply keeps_trans). unfold stack_room.
  destruct x as [[sp ptrs]|].
  2:{ exists None, k2, U'. split_and!; [done|done|done|]. destruct Hx as [?|?]; [by left|right; unfold PGSIZE in *; lia]. }
  destruct Hx as (Esp & Hge & Hcount & Hplaced & Hsame). pose proof (strings_room_bound argv) as Hroom.
  destruct (push_frame_spec kend me all Hkend Hnd Hall O L d T U' b Hb ltac:(lia) Hstack Hguard k2 sp argv ptrs Hvm2)
    as (r & k3 & E3 & Hvm3 & Hk3 & Hr);
    [unfold PGSIZE in *; Z.div_mod_to_equations; lia|lia|lia|done|].
  set (esp := sp - 4 * (Z.of_nat (length argv) + 4)) in *.
  rewrite (u32_small (sp - (Z.of_nat (length argv) + 1) * 4)) by (unfold KERNBASE, MAXARG, PGSIZE in *; lia).
  rewrite (u32_small (sp - (3 + Z.of_nat (length argv) + 1) * 4)) by (unfold KERNBASE, MAXARG, PGSIZE in *; lia).
  replace (sp - (3 + Z.of_nat (length argv) + 1) * 4) with esp by lia.
  replace (sp - (Z.of_nat (length argv) + 1) * 4) with (esp + 12) by lia. fold (frame_words argv ptrs esp).
  rewrite (bind_step _ _ _ _ _ E3). assert (HkO3 : keeps O k k3) by (by eapply keeps_trans).
  destruct Hr as [(-> & Hesp & Hst & Hm3)|(-> & Hlt)].
  2:{ rewrite bool_decide_eq_true_2 by lia. exists None, k3, U'. split_and!; [done|done|done|]. right. unfold PGSIZE in *. lia. }
  rewrite bool_decide_eq_false_2 by lia. exists (Some esp), k3, U'. split_and!; [done|done|done|lia|unfold PGSIZE in *; lia|].
  assert (Hub : ∀ va, 0 ≤ va < (b + 1) * PGSIZE → va / PGSIZE ≠ b - 1 → ubyte (words k3) d va = umem U' k3 va).
  { intros va Hva Hne. destruct (Hacc (va / PGSIZE)) as (e & He & Hu);
      [unfold PGSIZE in *; Z.div_mod_to_equations; lia|done|].
    rewrite (ubyte_page _ _ _ _ _ _ va _ e Hvm3 ltac:(lia) eq_refl He). by rewrite bool_decide_eq_false_2. }
  split.
  - intros va Hva. rewrite Hub by (unfold PGSIZE in *; Z.div_mod_to_equations; lia).
    rewrite Hm3, Hsame by (unfold KERNBASE, PGSIZE in *; lia). apply Hmem. unfold PGSIZE in *. lia.
  - intros va Hva. rewrite (ubyte_page _ _ _ _ _ _ va (b - 1) g' Hvm3);
      [by rewrite bool_decide_eq_true_2|unfold KERNBASE, PGSIZE in *; lia| |apply lookup_insert_eq].
    unfold PGSIZE in *. Z.div_mod_to_equations. lia.
  - replace ((b - 1) * PGSIZE + PGSIZE) with (b * PGSIZE) by (unfold PGSIZE; lia).
    replace ((b - 1) * PGSIZE + 2 * PGSIZE) with ((b + 1) * PGSIZE) by (unfold PGSIZE; lia).
    eapply stack_at_ext; [exact Hst|]. intros x v Hx Hv. rewrite Hub; [done|unfold PGSIZE in *; lia|].
    unfold PGSIZE in *. Z.div_mod_to_equations. lia.
Qed.

(** ** Files *)

Import Fs FsInv FsAlloc FsFile FsWrite FsTrunc FsCache FsDir FsPath.

(** The file system is consistent and nothing is locked; [cw] is the place of the
    current directory, inode [c], in the inode cache. *)
Record fs_ready (ds : Z) (V : Z → dinode) (cw : nat) (c : Z) (s : fss) : Prop := FsReady {
  fr_inv : inv none none ds s V;
  fr_tree : tree_ok (sb s) (files s V);
  fr_unlocked : unlocked_but None s;
  fr_root : type (V ROOTINO) ≠ 0 ∧ nlink (V ROOTINO) ≠ 0;
  fr_cwd : type (V c) ≠ 0 ∧ nlink (V c) ≠ 0 ∧ ∃ e, held s cw c e;
}.

(** The file system is as it was, with the same references. *)
Definition fs_back (ds : Z) (V : Z → dinode) (s s' : fss) : Prop :=
  inv none none ds s' V ∧ same_disk s s' ∧ unlocked_but None s' ∧
  ∀ j, refs (icache s') j = refs (icache s) j.

(** The inode a path stands for. *)
Definition path_inode (V : Z → dinode) (c : Z) (s : fss) (path : list Z) : option Z :=
  walk (files s V) (if bool_decide (hd 0 path = SLASH) then ROOTINO else c) (names path).

Lemma walk_links x A l : ∀ i j,
  tree_ok x A → inode_no x i → a_type (A i) ≠ 0 ∧ a_nlink (A i) ≠ 0 →
  walk A i l = Some j → inode_no x j ∧ a_type (A j) ≠ 0 ∧ a_nlink (A j) ≠ 0.
Proof.
  induction l as [|name l IH]; intros i j Ht Hi Ha Hw; cbn [walk] in Hw; [by injection Hw as <-|].
  unfold lookup1 in Hw. case_bool_decide as Hd; [|done].
  destruct (dir_lookup _ name) as [n|] eqn:En; [|done]. cbn in Hw.
  destruct (Ht i Hi Hd) as [_ Hl]. destruct (Hl name n En) as (Hn & H1 & H2). by eapply IH.
Qed.


(** The bytes of a file. *)
Lemma contents_ok ds s V i :
  inv none none ds s V → inode_no (sb s) i →
  Forall byte_ok (contents (blk s) (V i)) ∧ len (contents (blk s) (V i)) = size (V i) ∧ 0 ≤ size (V i) ≤ MAXFILE * BSZ.
Proof.
  intros Hv Hi. destruct (dv_ok _ _ _ _ _ (inv_disk _ _ _ _ _ Hv) i Hi) as [[_ _ _ _ [H0 _] _] H1 _ _].
  split_and!; [|unfold len; rewrite contents_length; lia|lia|lia].
  unfold contents. apply Forall_fmap, Forall_forall. intros o _. apply byte_at_ok, (dv_blocks _ _ _ _ _ (inv_disk _ _ _ _ _ Hv)).
Qed.

(** [readi] of a locked inode reads its contents. *)
Lemma readi_contents dev_read ds s V ip i e off n :
  inv none none ds s V → cached s V ip i e → type (V i) ≠ T_DEV → 0 ≤ off < 2 ^ 32 → 0 ≤ n < 2 ^ 32 →
  readi dev_read ip off n s = Ok (read_at (contents (blk s) (V i)) off n) s.
Proof.
  intros Hv Hc Ht Ho Hn. destruct (held_no _ _ _ _ _ _ _ _ Hv (cached_held _ _ _ _ _ Hc)) as [Hi _].
  destruct (contents_ok _ _ _ _ Hv Hi) as (_ & Hl & Hs). unfold len in Hl. unfold read_at. rewrite Hl.
  destruct (bool_decide_reflect (size (V i) < off ∨ u32 (off + n) < off)) as [Hbad|Hgood].
  - by apply (readi_error _ _ _ _ _ Hc dev_read).
  - assert (off + n < 2 ^ 32) by (unfold u32 in Hgood; Z.div_mod_to_equations; lia).
    apply (readi_spec _ _ _ _ _ _ _ _ Hv Hc dev_read); unfold is_uint; (done || lia).
Qed.

(** *** From the open file on *)

Section File.

Context (data : Z) (dev_read : Z → option (nat → Z → M fss (Z * list Z))) (Hdata : data_ok data).
Context (ds : Z) (V : Z → dinode) (f : File.kst) (ip : nat) (j : Z) (e : inode).
Context (Hst : standing none ds V (File.fs f) ip j e) (Hdev : type (V j) ≠ T_DEV).

(** The inode is locked; then it is given back. *)
Definition locked_file : File.kst := File.set_fs (lock_st V (File.fs f) ip j e) f.

Definition file_left (f' : File.kst) : Prop :=
  inv none none ds (File.fs f') V ∧ same_disk (File.fs f) (File.fs f') ∧ unlocked_but None (File.fs f') ∧
  ∀ m, refs (icache (File.fs f')) m = refs (icache (File.fs f)) m - one j m.

Lemma leave_file k : ∃ f', (on_fs (iunlockput ip) ;; on_files File.end_op) (k, locked_file) = Ok tt (k, f') ∧ file_left f'.
Proof using dev_read Hst.
  pose proof (standing_leave dev_read none ds V _ _ _ _ Hst) as H. apply wpt_Ok in H as ([] & s' & E & H).
  eexists. split.
  - unfold on_fs, on_files, File.in_fs, File.end_op, modify, mbind, M_bind, zoom. cbn [fst snd].
    change (File.fs locked_file) with (lock_st V (File.fs f) ip j e). by rewrite E.
  - exact H.
Qed.

Lemma bad_null k : ∃ f', bad kend me 0 (Some ip) (k, locked_file) = Ok None (k, f') ∧ file_left f'.
Proof using dev_read Hst.
  destruct (leave_file k) as (f' & E & H). exists f'. split; [|done]. unfold bad.
  rewrite bool_decide_eq_false_2 by lia. rewrite (bind_step _ _ _ tt (k, locked_file) eq_refl). by rewrite (bind_step _ _ _ _ _ E).
Qed.

Lemma free_space O k L d T U :
  uvm O k L d T U → ∃ k' L', Vm.freevm kend me d k = Ok tt k' ∧ pool kend me all O k' L' ∧ keeps O k k' ∧ d ≠ 0.
Proof using Hkend Hnd Hall.
  intros Hvm. destruct (freevm_spec kend me all Hkend Hnd Hall O k L d T U Hvm) as (k' & L' & E & H1 & H2 & H3 & H4).
  exists k', L'. split_and!; [done|by split_and!|done|].
  assert (vpage kend d) as (_ & ? & _); [|lia]. apply (all_vpage kend all Hall), (vm_in_all kend me all Hkend Hnd Hall _ _ _ _ _ _ Hvm). auto.
Qed.

Lemma bad_space O k L d T U g :
  uvm O k L d T U → ∃ k' L', bad kend me d None (k, g) = Ok None (k', g) ∧ pool kend me all O k' L' ∧ keeps O k k'.
Proof using Hkend Hnd Hall.
  intros Hvm. destruct (free_space _ _ _ _ _ _ Hvm) as (k' & L' & E & Hp & Hk & Hd). exists k', L'. split_and!; [|done|done].
  unfold bad. rewrite bool_decide_eq_true_2 by done. by rewrite (bind_step _ _ _ _ _ (on_pages_eq g _ _ _ _ E)).
Qed.

Lemma bad_both O k L d T U :
  uvm O k L d T U → ∃ k' L' f', bad kend me d (Some ip) (k, locked_file) = Ok None (k', f') ∧
    pool kend me all O k' L' ∧ keeps O k k' ∧ file_left f'.
Proof using dev_read Hkend Hnd Hall Hst.
  intros Hvm. destruct (free_space _ _ _ _ _ _ Hvm) as (k' & L' & E & Hp & Hk & Hd).
  destruct (leave_file k') as (f' & E' & H). exists k', L', f'. split_and!; [|done..].
  unfold bad. rewrite bool_decide_eq_true_2 by done. rewrite (bind_step _ _ _ _ _ (on_pages_eq locked_file _ _ _ _ E)).
  by rewrite (bind_step _ _ _ _ _ E').
Qed.

(** The contents of the file, and what it takes to run it. *)
Abbreviation C := (contents (blk (File.fs f)) (V j)).

Definition image_top (sz : Z) : Z := pgup sz * PGSIZE + 2 * PGSIZE.

(** The image [im] of the contents [C] is in memory, in pages of its own. *)
Record runs_file (C : list Z) (argv : list (list Z)) (O : list Z) (k : kmem) (im : image) : Prop := RunsFile {
  rf_space : ∃ L T U, uvm O k L (im_pgdir im) T U;
  rf_eip : im_eip im = entry (elf_header C);
  rf_image : ∃ sz m, elf_image C = Some (sz, m) ∧ im_sz im = image_top sz ∧ 0 ≤ sz ∧ image_top sz < KERNBASE ∧
    program_at (words k) (im_pgdir im) (pgup sz * PGSIZE) m (im_esp im) argv;
}.

(** The reasons to fail: no image, too many or too long arguments, or not enough
    memory. *)
Definition cannot_run (C : list Z) (argv : list (list Z)) (O : list Z) : Prop :=
  match elf_image C with
  | None => True
  | Some (sz, _) => (MAXARG < length argv)%nat ∨ PGSIZE < stack_room argv ∨ KERNBASE ≤ image_top sz ∨
      few_pages all O (image_top sz)
  end.

Definition file_post (argv : list (list Z)) (O : list Z) (k : kmem) (x : option image) (k' : kmem) (f' : File.kst) : Prop :=
  keeps O k k' ∧ file_left f' ∧
  match x with
  | None => (∃ L', pool kend me all O k' L') ∧ cannot_run C argv O
  | Some im => runs_file C argv O k' im
  end.

Lemma pgup_top sz : 0 ≤ sz → pgup (image_top sz) = pgup sz + 2.
Proof. intros Hs. unfold image_top, pgup, PGSIZE. Z.div_mod_to_equations. lia. Qed.

(** The part after the program has been loaded. *)
Lemma exec_top_spec O k L d T U sz m argv g :
  uvm O k L d T U → image_at sz m U k → elf_image C = Some (sz, m) → arguments_ok argv →
  ∃ x k', (sz' ← on_pages (Vm.allocuvm kend me d (PGROUNDUP sz) (u32 (PGROUNDUP sz + 2 * PGSIZE)));
     if bool_decide (sz' = 0) then bad kend me d None else
     x ← on_pages (exec_stack me argv d sz');
     match x with
     | None => bad kend me d None
     | Some sp => mret (Some (Image d sz' sp (entry (elf_header C))))
     end) (k, g) = Ok x (k', g) ∧ keeps O k k' ∧
    match x with
    | None => (∃ L', pool kend me all O k' L') ∧ cannot_run C argv O
    | Some im => runs_file C argv O k' im
    end.
Proof using Hkend Hnd Hall.
  intros Hvm Him Hel Hargv. pose proof (ia_size _ _ _ _ Him) as Hs. pose proof (pgup_bounds sz ltac:(lia)) as Hb.
  rewrite PGROUNDUP_pgup by lia. fold (image_top sz). unfold cannot_run. rewrite Hel.
  assert (Hbad : ∀ k1 L1 T1 U1, uvm O k1 L1 d T1 U1 → keeps O k k1 → ∀ P : Prop, P →
    ∃ x k', bad kend me d None (k1, g) = Ok x (k', g) ∧ keeps O k k' ∧
      match x with None => (∃ L', pool kend me all O k' L') ∧ P | Some im => runs_file C argv O k' im end).
  { intros k1 L1 T1 U1 Hvm1 Hk1 P HP. destruct (bad_space O k1 L1 d T1 U1 g Hvm1) as (k' & L' & E & Hp & Hk').
    exists None, k'. split_and!; [done|by eapply keeps_trans|by exists L'|done]. }
  rewrite (u32_small (image_top sz)) by (unfold image_top, KERNBASE, PGSIZE in *; lia).
  destruct (decide (KERNBASE ≤ image_top sz)) as [Hge|Hlt].
  { assert (E : Vm.allocuvm kend me d (pgup sz * PGSIZE) (image_top sz) k = Ok 0 k)
      by (unfold Vm.allocuvm; by rewrite bool_decide_eq_true_2).
    rewrite (bind_step _ _ _ _ _ (on_pages_eq g _ _ _ _ E)), (bool_decide_eq_true_2 (0 = 0)) by done.
    eapply Hbad; [done|apply keeps_refl|auto]. }
  assert (Him0 : image_at (pgup sz * PGSIZE) m U k) by (apply image_round; [done|unfold image_top, PGSIZE in *; lia]).
  destruct (allocuvm_image kend me all Hkend Hnd Hall _ _ (image_top sz) _ _ _ _ _ _ Hvm Him0)
    as (r & k1 & L1 & T1 & U1 & E1 & Hvm1 & Hk1 & Hr); [unfold image_top, KERNBASE, PGSIZE in *; lia|].
  rewrite (bind_step _ _ _ _ _ (on_pages_eq g _ _ _ _ E1)). destruct Hr as [(-> & _ & Him1)|(-> & [?|Hfew])]; [|lia|].
  2:{ rewrite (bool_decide_eq_true_2 (0 = 0)) by done. eapply Hbad; [done|done|].
      do 3 right. exact (out_of_pages _ _ _ _ _ _ _ _ _ _ _ _ Hvm Him0 Hfew). }
  rewrite Z.max_r in * by (unfold image_top, PGSIZE in *; lia).
  rewrite (bool_decide_eq_false_2 (image_top sz = 0)) by (unfold image_top, PGSIZE in *; lia).
  assert (Eb : image_top sz = (pgup sz + 1 + 1) * PGSIZE) by (unfold image_top, PGSIZE; lia). rewrite Eb in Him1 |- *.
  destruct (exec_stack_spec O k1 L1 d T1 U1 (pgup sz + 1) m argv Hvm1 Him1) as (x & k2 & U2 & E2 & Hvm2 & Hk2 & Hx);
    [lia|done|].
  rewrite (bind_step _ _ _ _ _ (on_pages_eq g _ _ _ _ E2)). assert (Hk12 : keeps O k k2) by (by eapply keeps_trans).
  destruct x as [esp|].
  - destruct Hx as (_ & _ & Hx). replace (pgup sz + 1 - 1) with (pgup sz) in Hx by lia.
    eexists _, k2. split_and!; [reflexivity|done|]. split; [by exists L1, T1, U2|done|].
    exists sz, m. split_and!; [exact Hel|symmetry; exact Eb|lia|lia|exact Hx].
  - eapply Hbad; [done|done|]. destruct Hx; auto.
Qed.

Lemma exec_file_spec O k L argv :
  pool kend me all O k L → arguments_ok argv →
  ∃ x k' f', exec_file kend data me dev_read ip argv (k, f) = Ok x (k', f') ∧ file_post argv O k x k' f'.
Proof using Hkend Hnd Hall Hdata Hst Hdev.
  intros Hpool Hargv. destruct (standing_lock none ds V _ _ _ _ Hst) as (Elock & Hv1 & Hc1 & _ & _).
  destruct (held_no _ _ _ _ _ _ _ _ Hv1 (cached_held _ _ _ _ _ Hc1)) as [Hj _].
  destruct (contents_ok _ _ _ _ Hv1 Hj) as (HCb & HCl & HCs). change (blk (lock_st V (File.fs f) ip j e)) with (blk (File.fs f)) in *.
  assert (HC30 : len C < 2 ^ 30) by (rewrite HCl; unfold MAXFILE, BSZ in *; lia).
  assert (Hread : ∀ off n, 0 ≤ off < 2 ^ 32 → 0 ≤ n < 2 ^ 32 →
    readi dev_read ip off n (File.fs locked_file) = Ok (read_at C off n) (File.fs locked_file)).
  { intros off n Ho Hn. exact (readi_contents dev_read _ _ _ _ _ _ _ _ Hv1 Hc1 Hdev Ho Hn). }
  unfold exec_file. rewrite (bind_step _ _ _ tt (k, locked_file)).
  2:{ unfold on_fs, on_files, File.in_fs, zoom. cbn [fst snd]. by rewrite Elock. }
  rewrite (bind_step _ _ _ _ _ (on_fs_readi dev_read locked_file ip C Hread k 0 52 ltac:(lia) ltac:(lia))).
  assert (Hstop : cannot_run C argv O → ∀ k1 L1, pool kend me all O k1 L1 → keeps O k k1 →
    ∃ x k' f', bad kend me 0 (Some ip) (k1, locked_file) = Ok x (k', f') ∧ file_post argv O k x k' f').
  { intros Hno k1 L1 Hp Hk1. destruct (bad_null k1) as (f' & E & Hl). exists None, k1, f'. split; [done|]. unfold file_post. split_and!; [done|done|by exists L1|done]. }
  pose proof (read_at_full C 0 52 ltac:(unfold len in *; lia) ltac:(lia) ltac:(lia)) as Hfull. change sizeof_elfhdr with 52.
  destruct (bool_decide_reflect ((read_at C 0 52).1 ≠ 52)) as [Hs|Hs].
  { apply Hstop with L; [|done|apply keeps_refl]. unfold cannot_run, elf_image. rewrite bool_decide_eq_true_2; [done|].
    left. destruct (decide (len C < 52)); [done|]. exfalso. apply Hs, Hfull. unfold len in *. lia. }
  apply dec_stable, Hfull in Hs.
  assert (Eh : elfhdr_of (read_at C 0 52).2 = elf_header C).
  { unfold read_at, elf_header. rewrite u32_small, bool_decide_eq_false_2 by lia. simpl. by rewrite drop_0. }
  rewrite Eh. destruct (bool_decide_reflect (magic (elf_header C) ≠ ELF_MAGIC)) as [Hm|Hm].
  { apply Hstop with L; [|done|apply keeps_refl]. unfold cannot_run, elf_image. by rewrite bool_decide_eq_true_2 by auto. }
  assert (Eimg : elf_image C = elf_load C (Z.to_nat (phnum (elf_header C))) (s32 (phoff (elf_header C))) 0 (λ _, 0)).
  { unfold elf_image. rewrite bool_decide_eq_false_2; [done|]. unfold len in *. intros [?|?]; [lia|done]. }
  destruct (setupkvm_spec kend me all Hkend Hnd Hall data O k L Hdata Hpool) as (k1 & Hk1 & Hset).
  destruct Hset as [(d & L1 & T1 & E1 & Hd0 & Hvm1 & Hko & _)|(E1 & Hl & L1 & Hp1)];
    rewrite (bind_step _ _ _ _ _ (on_pages_eq locked_file _ _ _ _ E1)).
  2:{ rewrite (bool_decide_eq_true_2 (0 = 0)) by done. apply Hstop with L1; [|done|done].
      unfold cannot_run. destruct (elf_image C) as [[sz m]|] eqn:Ei; [|done]. do 3 right. unfold few_pages.
      pose proof (elf_image_size _ _ _ Ei) as Hsz. rewrite pgup_top by done.
      pose proof (pgup_bounds sz). destruct Hpool as (_ & _ & Hp). apply Permutation_length in Hp.
      rewrite length_app in Hp. lia. }
  rewrite (bool_decide_eq_false_2 (d = 0)) by done.
  assert (Hu1 : uvm O k1 L1 d T1 (kernel_entries data)) by (unfold VmInv.uvm; by rewrite (frames_kernel_only _ Hko)).
  destruct (exec_load_spec kend me all Hkend Hnd Hall dev_read locked_file ip C d HCb HC30 Hread O
    (Z.to_nat (phnum (elf_header C))) (s32 (phoff (elf_header C))) 0 (λ _, 0) k1 L1 T1 _ Hu1 (image_empty _ _ Hko))
    as (x & k2 & L2 & T2 & U2 & E2 & Hvm2 & Hk2 & Hx).
  { unfold s32. pose proof (Z.mod_pos_bound (phoff (elf_header C) + 2 ^ 31) (2 ^ 32)). lia. }
  rewrite <- Eimg in Hx. rewrite (bind_step _ _ _ _ _ E2). assert (Hk12 : keeps O k k2) by (by eapply keeps_trans).
  destruct x as [sz|].
  - destruct Hx as (m & Ei & Him). destruct (leave_file k2) as (f' & E3 & Hl).
    destruct (exec_top_spec O k2 L2 d T2 U2 sz m argv f' Hvm2 Him Ei Hargv) as (x & k' & E4 & Hk' & Hx).
    exists x, k', f'. split; [|unfold file_post; split_and!; [by eapply keeps_trans|done|done]].
    rewrite <- E4. clear E4. apply bind_Ok in E3 as ([] & s3 & E3 & E3').
    rewrite (bind_step _ _ _ _ _ E3), (bind_step _ _ _ _ _ E3'). done.
  - destruct (bad_both O k2 L2 d T2 U2 Hvm2) as (k' & L' & f' & E3 & Hp & Hk' & Hl).
    exists None, k', f'. split; [done|]. unfold file_post. split_and!; [by eapply keeps_trans|done|by exists L'|].
    unfold cannot_run. destruct (elf_image C) as [[sz m]|] eqn:Ei; [|done]. do 3 right.
    specialize (Hx _ _ eq_refl). unfold few_pages in *.
    pose proof (elf_image_size _ _ _ Ei) as Hsz. rewrite pgup_top by done. lia.
Qed.

End File.

(** *** From the path on *)

(** [wpx m Q s]: [m] returns from [s] with [Q], or panics because a resource of the
    file system is used up. *)
Definition wpx {A} (m : M (kmem * File.kst) A) (Q : A → kmem * File.kst → Prop) (s : kmem * File.kst) : Prop :=
  match m s with
  | Ok a s' => Q a s'
  | Panic msg s' => exhausted msg (File.fs s'.2)
  | _ => False
  end.

Lemma wpx_bind {A B} (m : M (kmem * File.kst) A) (g : A → M (kmem * File.kst) B) Q s :
  wpx m (λ a s', wpx (g a) Q s') s → wpx (m ≫= g) Q s.
Proof. unfold wpx, mbind, M_bind. by destruct (m s). Qed.

Lemma wpx_eq {A} (m : M (kmem * File.kst) A) (Q : A → kmem * File.kst → Prop) s a s' : m s = Ok a s' → Q a s' → wpx m Q s.
Proof. intros E HQ. unfold wpx. by rewrite E. Qed.

Lemma wpx_on_fs {A} (m : M fss A) (Q : A → kmem * File.kst → Prop) k f :
  wpf m (λ a s', Q a (k, File.set_fs s' f)) (File.fs f) → wpx (on_fs m) Q (k, f).
Proof. unfold wpx, wpf, on_fs, on_files, File.in_fs, zoom. cbn [fst snd]. by destruct (m (File.fs f)). Qed.

(** What [exec_image] leaves. *)
Definition image_post (ds : Z) (V : Z → dinode) (c : Z) (path : list Z) (argv : list (list Z)) (O : list Z)
    (k : kmem) (s : fss) (x : option image) (st : kmem * File.kst) : Prop :=
  keeps O k st.1 ∧ fs_back ds V s (File.fs st.2) ∧
  match x with
  | None => (∃ L', pool kend me all O st.1 L') ∧
      ∀ j, path_inode V c s path = Some j → cannot_run (contents (blk s) (V j)) argv O
  | Some im => ∃ j, path_inode V c s path = Some j ∧ runs_file (contents (blk s) (V j)) argv O st.1 im
  end.

Lemma exec_image_spec data dev_read ds V cw c path argv O k L f :
  data_ok data → fs_ready ds V cw c (File.fs f) → pool kend me all O k L → arguments_ok argv →
  (∀ j, path_inode V c (File.fs f) path = Some j → type (V j) ≠ T_DEV) →
  wpx (exec_image kend data me dev_read cw path argv) (image_post ds V c path argv O k (File.fs f)) (k, f).
Proof using Hkend Hnd Hall.
  intros Hdata [Hv Htree Hun [Hrt Hrn] (Hct & Hcn & ec & Hcw)] Hpool Hargv Hdev. unfold exec_image.
  apply wpx_bind. eapply wpx_eq; [reflexivity|]. cbn [fst snd].
  set (s0 := Fss (blk (File.fs f)) [] (sb (File.fs f)) (icache (File.fs f))).
  assert (Hv0 : inv none none ds s0 V) by (destruct Hv; by split).
  assert (Hcw0 : held s0 cw c ec) by (destruct Hcw; by split).
  apply wpx_bind, wpx_on_fs. unfold namei. apply wpf_bind.
  eapply wpf_mono; [by apply (namex_spec dev_read none ds V false s0 cw c ec path)|].
  intros r s1 (Hv1 & Hsd1 & Hun1 & Hw). apply wpf_ret. unfold target in Hw.
  change (files s0 V) with (files (File.fs f) V) in Hw. fold (path_inode V c (File.fs f) path) in Hw.
  destruct (path_inode V c (File.fs f) path) as [j|] eqn:Ej; cbn [fmap option_fmap option_map] in Hw.
  - destruct Hw as (ip & e & -> & Hh & Hrefs). cbn [fmap option_fmap option_map fst].
    set (f1 := File.set_fs s1 (File.set_fs s0 f)).
    assert (Hstart : inode_no (sb (File.fs f)) (if bool_decide (hd 0 path = SLASH) then ROOTINO else c) ∧
      a_type (files (File.fs f) V (if bool_decide (hd 0 path = SLASH) then ROOTINO else c)) ≠ 0 ∧
      a_nlink (files (File.fs f) V (if bool_decide (hd 0 path = SLASH) then ROOTINO else c)) ≠ 0).
    { destruct (held_no _ _ _ _ _ _ _ _ Hv Hcw) as [Hc _].
      pose proof (lay_ninodes _ _ (dv_layout _ _ _ _ _ (inv_disk _ _ _ _ _ Hv))).
      bool_cases; (split_and!; [|done|done]); [unfold inode_no, ROOTINO; lia|done]. }
    destruct (walk_links _ _ _ _ _ Htree (proj1 Hstart) (proj2 Hstart) Ej) as (Hj & Hjt & Hjn).
    assert (Hst : standing none ds V (File.fs f1) ip j e) by (split; [done|done|done|done|by left]).
    destruct (exec_file_spec data dev_read Hdata ds V f1 ip j e Hst (Hdev j eq_refl) O k L argv Hpool Hargv)
      as (x & k' & f' & E & Hk & (Hv' & [Eb' Esb'] & Hun' & Hrefs') & Hx).
    eapply wpx_eq; [exact E|]. destruct Hsd1 as [Eb1 Esb1]. cbn [File.fs f1 File.set_fs] in *.
    split; [done|]. split.
    { split_and!; [done|split; cbn [fst snd]; [by rewrite Eb', Eb1|by rewrite Esb', Esb1]|done|].
      intros m. cbn [fst snd]. rewrite Hrefs', Hrefs. cbn [icache s0]. lia. }
    cbn [fst snd]. change (blk s1) with (blk (File.fs f1)) in Hx. cbn [File.fs f1 File.set_fs] in Hx. rewrite Eb1 in Hx.
    destruct x as [im|]; [by exists j|]. destruct Hx as [Hp Hno]. split; [done|]. intros j' Hj'. rewrite Ej in Hj'. injection Hj' as <-. exact Hno.
  - destruct Hw as [-> Hrefs]. cbn [fmap option_fmap option_map]. apply wpx_bind. eapply wpx_eq; [reflexivity|].
    eapply wpx_eq; [reflexivity|]. cbn [fst snd File.fs File.set_fs File.set_trans]. split; [apply keeps_refl|].
    split; [by split_and!|]. split; [by exists L|]. intros j Hj. by rewrite Ej in Hj.
Qed.

End Thm.

End ExecThm.
