(* ===== verification/Kernel.v ===== *)
(** * The kernel put together

    The interface [World] of the process table, implemented by the page tables of
    [Vm] and the files of [File]: the laws that the theorems about processes
    assume are proved of them, so that these theorems hold of the whole, also
    when processes run [exec]. *)

From S2P Require Import Prelude Spinlock Kalloc ProcData Proc ProcInv ProcSafe ProcThm Syscall Vm Log Fs File Exec.

Module Kernel.
Import Exec.

(** ** What the page tables leave alone *)

Lemma kview_ret {A} (a : A) : keeps_kview (mret a).
Proof. done. Qed.
Lemma kview_panic {A} msg : keeps_kview (A:=A) (panic msg).
Proof. done. Qed.
Lemma kview_undefined {A} msg : keeps_kview (A:=A) (undefined msg).
Proof. done. Qed.
Lemma kview_spin {A} : keeps_kview (A:=A) spin.
Proof. done. Qed.
Lemma kview_ld a : keeps_kview (ld a).
Proof. done. Qed.
Lemma kview_st a v : keeps_kview (st a v).
Proof. done. Qed.
Lemma kview_words f : keeps_kview (modify (λ k, set_words (f (words k)) k)).
Proof. done. Qed.
Lemma kview_if {A} (b : bool) (m1 m2 : M kmem A) : keeps_kview m1 → keeps_kview m2 → keeps_kview (if b then m1 else m2).
Proof. by destruct b. Qed.

Create HintDb kview.
#[export] Hint Resolve kview_ret kview_panic kview_undefined kview_spin kview_ld kview_st kview_words kview_kalloc
  kview_kfree : kview.

(** Break an operation into its primitives. *)
Ltac kview :=
  repeat first
    [ solve [eauto with kview]
    | progress cbn zeta
    | apply kview_bind; [|intros ?]
    | apply kview_if
    | match goal with |- keeps_kview (match ?x with _ => _ end) => destruct x end ].

Section Vm.

Context (kend data : Z) (me : nat).

Lemma kview_for_range n : ∀ i body, (∀ j, keeps_kview (body j)) → keeps_kview (for_range i n body).
Proof. induction n as [|n IH]; intros i body Hb; simpl; kview. Qed.

Lemma kview_walkpgdir pd va alloc : keeps_kview (walkpgdir me pd va alloc).
Proof. unfold walkpgdir. kview. Qed.
#[local] Hint Resolve kview_walkpgdir : kview.

Lemma kview_mappages_loop fuel : ∀ pd a last pa perm, keeps_kview (mappages_loop me fuel pd a last pa perm).
Proof. induction fuel as [|fuel IH]; intros pd a last pa perm; cbn [mappages_loop]; kview. Qed.
#[local] Hint Resolve kview_mappages_loop : kview.

Lemma kview_mappages pd va n pa perm : keeps_kview (mappages me pd va n pa perm).
Proof. unfold mappages. kview. Qed.
#[local] Hint Resolve kview_mappages : kview.

Lemma kview_deallocuvm_loop fuel : ∀ pd a n, keeps_kview (deallocuvm_loop kend me fuel pd a n).
Proof. induction fuel as [|fuel IH]; intros pd a n; cbn [deallocuvm_loop]; kview. Qed.
#[local] Hint Resolve kview_deallocuvm_loop : kview.

Lemma kview_deallocuvm pd a b : keeps_kview (Vm.deallocuvm kend me pd a b).
Proof. unfold Vm.deallocuvm. kview. Qed.
#[local] Hint Resolve kview_deallocuvm : kview.

Lemma kview_allocuvm_loop fuel : ∀ pd a o n, keeps_kview (allocuvm_loop kend me fuel pd a o n).
Proof. induction fuel as [|fuel IH]; intros pd a o n; cbn [allocuvm_loop]; kview. Qed.
#[local] Hint Resolve kview_allocuvm_loop : kview.

Lemma kview_allocuvm pd a b : keeps_kview (Vm.allocuvm kend me pd a b).
Proof. unfold Vm.allocuvm. kview. Qed.
#[local] Hint Resolve kview_allocuvm : kview.

Lemma kview_freevm pd : keeps_kview (Vm.freevm kend me pd).
Proof.
  unfold Vm.freevm. apply kview_if; [kview|]. apply kview_bind; [kview|]. intros _. apply kview_bind; [|intros _; kview].
  apply kview_for_range. intros j. kview.
Qed.
#[local] Hint Resolve kview_freevm : kview.

Lemma kview_setupkvm_loop ks pd : keeps_kview (setupkvm_loop kend me ks pd).
Proof. induction ks as [|x ks IH]; cbn [setupkvm_loop]; kview. Qed.
#[local] Hint Resolve kview_setupkvm_loop : kview.

Lemma kview_setupkvm : keeps_kview (Vm.setupkvm kend data me).
Proof. unfold Vm.setupkvm. kview. Qed.
#[local] Hint Resolve kview_setupkvm : kview.

Lemma kview_inituvm pd code n : keeps_kview (Vm.inituvm me pd code n).
Proof. unfold Vm.inituvm. kview. Qed.

Lemma kview_copyuvm_loop fuel : ∀ pd d n i, keeps_kview (copyuvm_loop kend me fuel pd d n i).
Proof. induction fuel as [|fuel IH]; intros pd d n i; cbn [copyuvm_loop]; kview. Qed.
#[local] Hint Resolve kview_copyuvm_loop : kview.

Lemma kview_copyuvm pd n : keeps_kview (Vm.copyuvm kend data me pd n).
Proof. unfold Vm.copyuvm. kview. Qed.

Lemma kview_uva2ka pd va : keeps_kview (uva2ka me pd va).
Proof. unfold uva2ka. kview. Qed.
#[local] Hint Resolve kview_uva2ka : kview.

Lemma kview_copyout_loop fuel : ∀ pd va buf, keeps_kview (copyout_loop me fuel pd va buf).
Proof. induction fuel as [|fuel IH]; intros pd va buf; cbn [copyout_loop]; kview. Qed.
#[local] Hint Resolve kview_copyout_loop : kview.

Lemma kview_copyout pd va buf : keeps_kview (copyout me pd va buf).
Proof. unfold copyout. kview. Qed.
#[local] Hint Resolve kview_copyout : kview.

Lemma kview_exec_args argv : ∀ argc pd sp, keeps_kview (exec_args me argv argc pd sp).
Proof. induction argv as [|s argv IH]; intros argc pd sp; cbn [exec_args]; kview. Qed.
#[local] Hint Resolve kview_exec_args : kview.

Lemma kview_exec_stack argv pd n : keeps_kview (exec_stack me argv pd n).
Proof. unfold exec_stack, clearpteu. kview. Qed.

End Vm.

#[export] Hint Resolve kview_deallocuvm kview_allocuvm kview_freevm kview_setupkvm kview_inituvm kview_copyuvm
  kview_copyout kview_exec_stack kview_walkpgdir : kview.

(** ** The interface of the process table *)

Lemma cpus_pages {A} (m : M kmem A) : keeps_kview m → keeps_cpus (on_pages m).
Proof. intros Hm [k f]. unfold on_pages. apply wp_zoom. cbn [fst snd]. eapply wp_mono; [apply Hm|done]. Qed.

Lemma cpus_files {A} (m : M File.kst A) : keeps_cpus (on_files m).
Proof. intros [k f]. unfold on_files. apply wp_zoom. cbn [fst snd]. unfold wp. by destruct (m f). Qed.

Lemma cpus_bind {W A B} (m : M (kmem * W) A) (g : A → M (kmem * W) B) :
  keeps_cpus m → (∀ a, keeps_cpus (g a)) → keeps_cpus (m ≫= g).
Proof.
  intros Hm Hg x. apply wp_bind. eapply wp_mono; [apply Hm|]. cbn. intros a y Hy.
  eapply wp_mono; [apply Hg|]. cbn. intros b z Hz. by rewrite Hz.
Qed.

Lemma cpus_ret {W A} (a : A) : keeps_cpus (W:=W) (mret a).
Proof. done. Qed.
Lemma cpus_if {W A} (b : bool) (m1 m2 : M (kmem * W) A) : keeps_cpus m1 → keeps_cpus m2 → keeps_cpus (if b then m1 else m2).
Proof. by destruct b. Qed.

Section World.

Context (kend data : Z) (initcode : list Z).
Context (dev_read : Z → option (nat → Z → M Fs.fss (Z * list Z))).

(** [initlog] brings the disk up to date with the blocks that the file system
    sees, which are the state here. *)
#[local] Instance kernel_world : World File.kst := {
  setupkvm me := on_pages (Vm.setupkvm kend data me);
  inituvm me pd := on_pages (Vm.inituvm me pd initcode (Z.of_nat (length initcode)));
  copyuvm me pd n := on_pages (Vm.copyuvm kend data me pd n);
  freevm me pd := on_pages (Vm.freevm kend me pd);
  allocuvm me pd a b := on_pages (Vm.allocuvm kend me pd a b);
  deallocuvm me pd a b := on_pages (Vm.deallocuvm kend me pd a b);
  filedup _ f := on_files (File.filedup f);
  fileclose _ f := on_files (File.fileclose f);
  idup _ i := on_fs (Fs.idup i);
  iput _ i := on_fs (Fs.iput i);
  namei_root _ := on_fs (Fs.namei dev_read 0 [Fs.SLASH]);
  begin_op _ := on_files File.begin_op;
  end_op _ := on_files File.end_op;
  iinit_initlog _ := on_fs Fs.iinit;
}.

#[local] Instance kernel_world_laws : WorldLaws File.kst.
Proof. split; intros; first [apply cpus_files | apply cpus_pages; auto with kview]. Qed.

End World.

(** ** [exec] in the kernel *)

Create HintDb cpus.
#[export] Hint Resolve cpus_ret cpus_files : cpus.

Ltac cpus :=
  repeat first
    [ solve [eauto with cpus]
    | solve [apply cpus_pages; kview]
    | progress cbn zeta
    | apply cpus_bind; [|intros ?]
    | apply cpus_if
    | done
    | match goal with |- keeps_cpus (match ?x with _ => _ end) => destruct x end ].

Lemma mild_others p q i f pr : (∀ t, mild_thread t (f t)) → mild pr (others p q i f pr).
Proof.
  intros Hf. unfold mild. split_and!; try done. simpl. apply Forall2_same_length_lookup_2.
  - by rewrite length_imap.
  - intros j t t' Ht Ht'. rewrite list_lookup_imap, Ht in Ht'. simpl in Ht'.
    injection Ht' as <-. case_bool_decide; [apply Hf|apply mild_thread_refl].
Qed.

Lemma mild_exec_kill t : mild_thread t (exec_kill t).
Proof. unfold exec_kill. case_bool_decide; unfold mild_thread; simpl; auto. Qed.

Lemma mild_exec_wake t : mild_thread t (exec_wake t).
Proof. unfold exec_wake. case_bool_decide; unfold mild_thread; simpl; auto. Qed.

Section Steps.

Context (kend data : Z) (initcode : list Z).
Context (dev_read : Z → option (nat → Z → M Fs.fss (Z * list Z))).

#[local] Existing Instance kernel_world.
#[local] Instance steps_world : World File.kst := kernel_world kend data initcode dev_read.
#[local] Instance steps_world_laws : WorldLaws File.kst := kernel_world_laws kend data initcode dev_read.

Lemma cpus_read_to ip dst off n : keeps_cpus (read_to dev_read ip dst off n).
Proof. unfold read_to, on_fs. cpus. Qed.
#[local] Hint Resolve cpus_read_to : cpus.

Lemma cpus_zoom {A} (m : M kmem A) : keeps_kview m → keeps_cpus (zoom fst (λ k (s : kmem * File.kst), (k, s.2)) m).
Proof. apply cpus_pages. Qed.

Lemma cpus_loaduvm_loop me ip fuel : ∀ pd addr off n i,
  keeps_cpus (loaduvm_loop me fst (λ k s, (k, s.2)) (read_to dev_read ip) fuel pd addr off n i).
Proof.
  induction fuel as [|fuel IH]; intros pd addr off n i; cbn [loaduvm_loop]; [done|].
  apply cpus_if; [|done]. apply cpus_bind; [apply cpus_zoom; kview|]. intros pte. apply cpus_if; [done|].
  apply cpus_bind; [apply cpus_zoom; kview|]. intros e. cbn zeta. cpus.
Qed.
#[local] Hint Resolve cpus_loaduvm_loop : cpus.

Lemma cpus_exec_segment me ip pd ph n : keeps_cpus (exec_segment kend me dev_read ip pd ph n).
Proof. unfold exec_segment, loaduvm. cpus. Qed.
#[local] Hint Resolve cpus_exec_segment : cpus.

Lemma cpus_exec_load me ip pd n : ∀ off sz, keeps_cpus (exec_load kend me dev_read n ip pd off sz).
Proof. induction n as [|n IH]; intros off sz; cbn [exec_load]; unfold on_fs; cpus. Qed.
#[local] Hint Resolve cpus_exec_load : cpus.

Lemma cpus_bad me pd ip : keeps_cpus (bad kend me pd ip).
Proof. unfold bad, on_fs. cpus. Qed.
#[local] Hint Resolve cpus_bad : cpus.

Lemma cpus_exec_image me cw path argv : keeps_cpus (exec_image kend data me dev_read cw path argv).
Proof. unfold exec_image, exec_file, on_fs. cpus. Qed.

(** What thread [i] of process [p] on CPU [me] does in [exec] between points at
    which other CPUs may run: it marks the other threads, makes a turn of the
    waiting loop, builds the new image, or switches to it. *)
Inductive exec_step (me p i : nat) (s : kst File.kst) : kst File.kst → Prop :=
| xstep_mark s' : set_proc p (others p p i exec_kill) s = Ok tt s' → exec_step me p i s s'
| xstep_turn flag s' : exec_turn me p p i s = Ok flag s' → exec_step me p i s s'
| xstep_image cw path argv x s' :
    on_world (exec_image kend data me dev_read cw path argv) s = Ok x s' → exec_step me p i s s'
| xstep_commit path im s' : exec_commit kend me p path im s = Ok tt s' → exec_step me p i s s'.

(** A step of the kernel: an operation of the process table, or a part of an
    [exec] of a thread that is in the kernel. *)
Inductive kernel_step (s s' : kst File.kst) : Prop :=
| kernel_proc me : kstep kend me s s' → kernel_step s s'
| kernel_exec me p i t :
    cthread <$> cpus (kmach s) !! me = Some (Some (p, i)) → get_thread s p i = Some t → context t = InUser →
    exec_step me p i s s' → kernel_step s s'.

(** One operation that leaves the table alone, under a stable assertion. *)
Ltac tab st Hh L :=
  try apply wp_bind; eapply (keep_tab _ st); [apply L|exact Hh|]; clear Hh; intros ?r ?s Hh.

(** A change of a process or a thread that the invariant allows. *)
Ltac change_tab Hh L tac := apply wp_bind, wp_modify; apply L in Hh; [|tac].

Lemma exec_commit_here me p i path im s : here None me p i s → wp (exec_commit kend me p path im) (λ _ s', inv s') s.
Proof.
  intros Hh. pose proof (stable_here (W:=File.kst) None me p i) as st. unfold exec_commit.
  change_tab Hh (keep_proc _ st p (set_name (name_of path))) ltac:(by apply mild_fields).
  tab st Hh (keeps_proc_at (W:=File.kst)).
  change_tab Hh (keep_proc _ st p (set_pgdir (im_pgdir im))) ltac:(by apply mild_fields).
  change_tab Hh (keep_proc _ st p (set_sz (im_sz im))) ltac:(by apply mild_fields).
  apply wp_bind, (wp_cur_thread None None me p i); [apply Hh|apply Hh|]. intros s2 Hs2. apply (here_tab _ _ _ _ _ _ Hs2) in Hh.
  change_tab Hh (keep_thread _ st p i (λ t, set_tf (set_eip (im_eip im) (tf t)) t)) ltac:(intros t; unfold mild_thread; simpl; auto).
  change_tab Hh (keep_thread _ st p i (λ t, set_tf (set_esp (im_esp im) (tf t)) t)) ltac:(intros t; unfold mild_thread; simpl; auto).
  apply wp_bind. eapply wp_mono; [apply (stable_switchuvm _ me p i _ st Hh)|]. cbn beta. clear Hh. intros _ s3 Hh.
  eapply (keep_tab _ st); [apply keeps_on_kmem; kview|exact Hh|]. intros _ s4 Hh4. by eapply here_inv.
Qed.

Lemma exec_step_inv me p i s s' : here None me p i s → exec_step me p i s s' → inv s'.
Proof.
  intros Hh [s1 E|flag s1 E|cw path argv x s1 E|path im s1 E]; pose proof (stable_here (W:=File.kst) None me p i) as st;
    refine (wp_Ok _ (λ _ s', inv s') _ _ _ _ E); clear E.
  - apply wp_modify. eapply here_inv, (keep_proc _ st); [|exact Hh]. intros pr. apply mild_others, mild_exec_kill.
  - unfold exec_turn. tab st Hh (keeps_acquire_ptable (W:=File.kst)).
    change_tab Hh (keep_proc _ st p (others p p i exec_wake)) ltac:(intros pr; apply mild_others, mild_exec_wake).
    tab st Hh (keeps_release_ptable (W:=File.kst)). tab st Hh (keeps_proc_at (W:=File.kst)).
    apply wp_ret. by eapply here_inv.
  - eapply (keep_tab _ st); [apply keeps_on_world, cpus_exec_image|exact Hh|]. intros _ s2 Hh2. by eapply here_inv.
  - by apply (exec_commit_here me p i).
Qed.

Lemma kernel_step_inv s s' : kernel_step s s' → inv s → inv s'.
Proof.
  intros [me Hk|me p i t Hc Ht Hu Hx] Hinv; [by eapply kstep_inv|].
  eapply exec_step_inv; [|exact Hx]. split; [done|]. split; [by eapply runs_current|].
  intros pr t' Hpr Ht' Hctx. apply get_thread_Some in Ht as (pr0 & Hpr0 & Ht0). congruence.
Qed.

(** C10: Whatever the processes do, [exec] included, in the kernel put together from the
    process table, the page tables and the files: a thread is running exactly when
    some CPU has it as its current thread, no two CPUs have the same current
    thread, and [c->proc] of that CPU is its process. *)
Theorem kernel_running_once s s' :
  inv s → rtc kernel_step s s' →
  (∀ p i t, get_thread s' p i = Some t → (tstate t = RUNNING ↔ ∃ c, current s' c = Some (p, i))) ∧
  (∀ c1 c2 x, current s' c1 = Some x → current s' c2 = Some x → c1 = c2) ∧
  (∀ c x p i, cpus (kmach s') !! c = Some x → cthread x = Some (p, i) → cproc x = Some p).
Proof.
  intros Hinv Hs. apply inv_running. eapply (rtc_invariant kernel_step inv); [|exact Hs|exact Hinv].
  intros x y Hxy Hx. by eapply kernel_step_inv.
Qed.

(** The state after booting is such a state. *)
Lemma kernel_booted me s : booted me s → inv s.
Proof. intros Hb. apply (reachable_inv kend me s s Hb). apply rtc_refl. Qed.

End Steps.

(** ** Example *)

(** The two processes of [ProcThm.demo_state], with files. *)
Definition kernel_state : kst File.kst :=
  Kst (km demo_state) (procs demo_state) (nextpid demo_state) (initproc demo_state) (first_forkret demo_state)
    (File.Kst (Fs.Fss (λ _, []) [] (Fs.Superblock 0 0 0 0 0 0 0) []) [] [] ∅ [] (Syscall.User (λ _, 0) 0 0 0)).

Lemma inv_world {W W'} (s : kst W) (w : W') :
  inv s → inv (Kst (km s) (procs s) (nextpid s) (initproc s) (first_forkret s) w).
Proof. intros H. exact H. Qed.

Lemma kernel_state_inv : inv kernel_state.
Proof. apply inv_world. apply (reachable_inv demo_kend 0 demo_booted demo_state demo_booted_ok demo_reachable). Qed.

(** Thread 0 of process 1, on CPU 1, starts an [exec]. *)
Definition kernel_marked : kst File.kst := upd_proc 1 (others 1 1 0 exec_kill) kernel_state.

Lemma kernel_marks dev_read : rtc (kernel_step demo_kend 0x8010a000 [] dev_read) kernel_state kernel_marked.
Proof.
  apply rtc_once. assert (Ht : context <$> get_thread kernel_state 1 0 = Some InUser) by (vm_compute; reflexivity).
  destruct (get_thread kernel_state 1 0) as [t|] eqn:E; [|done]. injection Ht as Hu.
  apply (kernel_exec _ _ _ _ _ _ 1 1 0 t); [vm_compute; reflexivity|exact E|exact Hu|]. by apply xstep_mark.
Qed.

(** The second thread is marked, and the CPUs have not changed. *)
Lemma kernel_running_once_witness :
  (tkilled <$> get_thread kernel_marked 1 1) = Some 1 ∧ current kernel_marked 1 = Some (1%nat, 0%nat) ∧
  (∀ c1 c2 x, current kernel_marked c1 = Some x → current kernel_marked c2 = Some x → c1 = c2).
Proof.
  split; [vm_compute; reflexivity|]. split; [vm_compute; reflexivity|].
  apply (kernel_running_once demo_kend 0x8010a000 [] (λ _, None) kernel_state kernel_marked kernel_state_inv (kernel_marks _)).
Defined.

End Kernel.
