(* ===== verification/ExecProc.v ===== *)
(** * [exec] as a system call

    The whole of [exec] of [Exec]: getting rid of the other threads, loading the
    program, and switching the process over to it. *)

From S2P Require Import Prelude Spinlock Kalloc ProcData Proc ProcInv ProcSafe ProcThm ProcTotal.
From S2P Require Import Vm VmInv VmThm VmUser Log Fs FsInv FsAlloc FsFile FsWrite FsTrunc FsCache FsDir FsPath FsDemo FsThm.
From S2P Require Import File Exec ExecImage ExecStack ExecThm Kernel.

Module ExecProc.
Import Fs FsInv FsAlloc FsFile FsPath Exec ExecImage ExecStack ExecThm.

(** ** The machine *)

(** The machine after locks and interrupts were taken and given back. *)
Definition nudged (me : nat) (m m' : mach) : Prop :=
  ready me m' ∧ (∀ l, locked (locks m l) = 0 → locked (locks m' l) = 0) ∧ mview m' = mview m.

Lemma nudged_trans me m1 m2 m3 : nudged me m1 m2 → nudged me m2 m3 → nudged me m1 m3.
Proof. intros (_ & L1 & V1) (R2 & L2 & V2). split_and!; [done|auto|congruence]. Qed.

Lemma mview_with_cpu me c c' m : cpus m !! me = Some c → cview c' = cview c → mview (with_cpu me c' m) = mview m.
Proof.
  intros Hc Hv. unfold mview, with_cpu. cbn [cpus]. rewrite list_fmap_insert, Hv. apply list_insert_id.
  by rewrite list_lookup_fmap, Hc.
Qed.

Lemma nudge me c m : ready me m → cpus m !! me = Some c → nudged me m (with_cpu me (popped (pushed c)) m).
Proof.
  intros [Hwf (c' & Hc' & Hok)] Hc. assert (c' = c) as -> by congruence. split_and!.
  - split; [by eapply mach_wf_with_cpu|]. exists (popped (pushed c)). split; [by eapply with_cpu_lookup|].
    apply popped_ok; [by apply pushed_ok|]. destruct Hok. simpl. lia.
  - done.
  - by apply (mview_with_cpu me c).
Qed.

Lemma push_pop me c m :
  ready me m → cpus m !! me = Some c →
  pushcli me m = Ok tt (with_cpu me (pushed c) m) ∧
  popcli me (with_cpu me (pushed c) m) = Ok tt (with_cpu me (popped (pushed c)) m).
Proof.
  intros [Hwf (c' & Hc' & Hok)] Hc. assert (c' = c) as -> by congruence. split; [by apply pushcli_ok|].
  rewrite (popcli_ok me (pushed c)).
  - by rewrite with_cpu_twice.
  - by eapply mach_wf_with_cpu.
  - by eapply with_cpu_lookup.
  - done.
  - destruct Hok. simpl. lia.
Qed.

Lemma current_ready {A} me (f : cpu → A) c m :
  ready me m → cpus m !! me = Some c → f (pushed c) = f c →
  ∃ m', (pushcli me ;; i ← mycpu me; c ← this_cpu i; popcli me ;; mret (f c)) m = Ok (f c) m' ∧ nudged me m m'.
Proof.
  intros Hr Hc Hf. destruct (push_pop me c m Hr Hc) as [E1 E2]. exists (with_cpu me (popped (pushed c)) m).
  split; [|by apply nudge]. pose proof Hr as [Hwf _]. assert (Hc1 := with_cpu_lookup me (pushed c) c m Hc).
  assert (Hwf1 : mach_wf (with_cpu me (pushed c) m)) by by eapply mach_wf_with_cpu.
  rewrite (bind_step _ _ _ _ _ E1), (bind_step _ _ _ _ _ (mycpu_self me (pushed c) _ Hwf1 Hc1 eq_refl)).
  rewrite (bind_step _ _ _ _ _ (this_cpu_ok me _ _ Hc1)), (bind_step _ _ _ _ _ E2). unfold mret, M_ret. by rewrite Hf.
Qed.

Lemma on_cpu_view me p i m m' : on_cpu me p i m → mview m' = mview m → on_cpu me p i m'.
Proof.
  intros (c & Hc & H1 & H2) Hv. assert (Hm : mview m' !! me = Some (cview c)).
  { rewrite Hv. unfold mview. by rewrite list_lookup_fmap, Hc. }
  unfold mview in Hm. rewrite list_lookup_fmap in Hm. destruct (cpus m' !! me) as [c'|] eqn:Hc'; [|done].
  cbn [fmap option_fmap option_map] in Hm. injection Hm as _ E1 E2. exists c'. split_and!; congruence.
Qed.

Section Process.

Context {W : Type} (me : nat).

Lemma curproc_ready p i (s : kst W) :
  ready me (kmach s) → on_cpu me p i (kmach s) →
  ∃ m', curproc me s = Ok p (set_kmach m' s) ∧ nudged me (kmach s) m'.
Proof.
  intros Hr (c & Hc & H1 & H2). destruct (current_ready me cproc c (kmach s) Hr Hc eq_refl) as (m' & E & Hn).
  exists m'. split; [|done]. unfold curproc, myproc, on_mach, mbind, M_bind, zoom.
  unfold mbind, M_bind in E. rewrite E, H1. done.
Qed.

Lemma curthread_ready p i (s : kst W) :
  ready me (kmach s) → on_cpu me p i (kmach s) →
  ∃ m', curthread me s = Ok (p, i) (set_kmach m' s) ∧ nudged me (kmach s) m'.
Proof.
  intros Hr (c & Hc & H1 & H2). destruct (current_ready me cthread c (kmach s) Hr Hc eq_refl) as (m' & E & Hn).
  exists m'. split; [|done]. unfold curthread, mythread, on_mach, mbind, M_bind, zoom.
  unfold mbind, M_bind in E. rewrite E, H2. done.
Qed.

(** A section under [ptable.lock] that changes the table. *)
Lemma ptable_section {B} (f : kst W → kst W) (k : M (kst W) B) (s : kst W) :
  ready me (kmach s) → locked (locks (kmach s) Lptable) = 0 →
  (∀ m s, f (set_kmach m s) = set_kmach m (f s)) → kmach (f s) = kmach s →
  ∃ m', (acquire_ptable me ;; modify f ;; release_ptable me ;; k) s = k (set_kmach m' (f s)) ∧ nudged me (kmach s) m'.
Proof.
  intros Hr Hl Hf Hk. destruct (lock_pair me Lptable (kmach s) Hr Hl) as (m1 & m2 & E1 & E2 & Ha).
  exists m2. split.
  - unfold acquire_ptable, release_ptable, on_mach, mbind, M_bind, zoom, modify. rewrite E1, Hf.
    change (kmach (set_kmach m1 (f s))) with m1. rewrite E2. done.
  - pose proof (after_section_ready _ _ _ _ Hr Ha) as Hr2. destruct Ha as (H1 & H2 & H3 & H4). split_and!; [done| |].
    + intros l Hl'. destruct (decide (l = Lptable)) as [->|Hne]; [by rewrite H2|by rewrite H1].
    + unfold mview. apply list_eq. intros j. rewrite !list_lookup_fmap. destruct (decide (j = me)) as [->|Hne]; [|by rewrite H3].
      destruct (cpus (kmach s) !! me) as [c|] eqn:Hc; [|destruct Hr as [_ (c & Hc' & _)]; congruence].
      rewrite (H4 c eq_refl). cbn [fmap option_fmap option_map]. by destruct (bool_decide (ncli c = 0)).
Qed.

End Process.

(** ** The other threads *)

Lemma others_live_iff p q i pr :
  others_live p q i pr ↔ ∃ j t, (j < t_num pr)%nat ∧ threads pr !! j = Some t ∧ (p, j) ≠ (q, i) ∧
    tstate t ≠ ZOMBIE_T ∧ tstate t ≠ UNUSED_T.
Proof.
  unfold others_live. rewrite Exists_exists. split.
  - intros ([j t] & Hin & Hne & H1 & H2). apply list_elem_of_lookup in Hin as (n & Hn).
    rewrite list_lookup_imap in Hn. destruct (take (t_num pr) (threads pr) !! n) as [t'|] eqn:Ht; [|done].
    injection Hn as <- <-. apply lookup_take_Some in Ht as [Ht Hlt]. by exists n, t'.
  - intros (j & t & Hj & Ht & Hne & H1 & H2). exists (j, t). split; [|done]. apply list_elem_of_lookup. exists j.
    rewrite list_lookup_imap, lookup_take_lt, Ht by done. done.
Qed.

Lemma others_lookup p q i f pr j :
  threads (others p q i f pr) !! j =
    (λ t, if bool_decide ((j < t_num pr)%nat ∧ (p, j) ≠ (q, i)) then f t else t) <$> threads pr !! j.
Proof. unfold others. cbn [threads set_threads]. by rewrite list_lookup_imap. Qed.

Lemma exec_kill_state t : tstate (exec_kill t) = tstate t.
Proof. unfold exec_kill. by case_bool_decide. Qed.

(** The process in which only the caller is left: the others are marked. *)
Definition alone (p i : nat) (pr : proc) : proc := others p p i exec_kill pr.

Lemma alone_live p i pr : ¬ others_live p p i pr → ¬ others_live p p i (alone p i pr).
Proof.
  intros Hno (j & t & Hj & Ht & Hne & H1 & H2)%others_live_iff. apply Hno, others_live_iff.
  unfold alone in Ht. rewrite others_lookup in Ht. destruct (threads pr !! j) as [t0|] eqn:Ht0; [|done].
  injection Ht as <-. exists j, t0. split_and!; [done|done|done|..]; revert H1 H2; case_bool_decide; by rewrite ?exec_kill_state.
Qed.

(** Nobody is woken, because nobody sleeps. *)
Lemma alone_wake p i pr : ¬ others_live p p i pr → others p p i exec_wake (alone p i pr) = alone p i pr.
Proof.
  intros Hno%alone_live. set (pr1 := alone p i pr) in *.
  assert (E : threads (others p p i exec_wake pr1) = threads pr1).
  { apply list_eq. intros j. rewrite others_lookup. destruct (threads pr1 !! j) as [t|] eqn:Ht; [|done]. simpl. f_equal.
    case_bool_decide as Hj; [|done]. unfold exec_wake. case_bool_decide as Hs; [|done]. exfalso. apply Hno.
    apply others_live_iff. exists j, t. rewrite Hs. naive_solver. }
  unfold others in *. cbn [threads set_threads] in E. rewrite E. by destruct pr1.
Qed.

(** ** Switching over *)

Section Switch.

Context (kend : Z) (me : nat).

(** The process and its thread with the new image. *)
Definition switched (i : nat) (path : list Z) (im : image) (pr : proc) : proc :=
  set_threads (upd i (λ t, set_tf (set_esp (im_esp im) (set_eip (im_eip im) (tf t))) t) (threads pr))
    (set_sz (im_sz im) (set_pgdir (im_pgdir im) (set_name (name_of path) pr))).

Lemma exec_wait_alone fuel p i pr (s : kst File.kst) :
  ready me (kmach s) → locked (locks (kmach s) Lptable) = 0 → procs s !! p = Some (alone p i pr) →
  ¬ others_live p p i pr →
  ∃ m', exec_wait me (S fuel) p p i s = Ok tt (set_kmach m' s) ∧ nudged me (kmach s) m'.
Proof.
  intros Hr Hl Hp Hno. cbn [exec_wait]. unfold exec_turn.
  assert (Es : upd_proc p (others p p i exec_wake) s = s).
  { unfold upd_proc. replace (upd p (others p p i exec_wake) (procs s)) with (procs s) by
      (rewrite (upd_insert _ _ _ _ Hp), alone_wake by done; by rewrite list_insert_id).
    by destruct s. }
  destruct (ptable_section me (upd_proc p (others p p i exec_wake))
    (pr ← proc_at p; mret (bool_decide (others_live p p i pr))) s Hr Hl ltac:(done) ltac:(by rewrite Es)) as (m' & E & Hn).
  exists m'. split; [|done]. unfold set_proc. rewrite Es in E.
  rewrite (bind_step _ _ _ false (set_kmach m' s)); [done|]. rewrite E.
  unfold proc_at, mbind, M_bind. cbn [procs set_kmach set_km]. rewrite Hp.
  unfold mret, M_ret. rewrite bool_decide_eq_false_2; [done|by apply alone_live].
Qed.

Lemma set_kmach_upd m p f (s : kst File.kst) : set_kmach m (upd_proc p f s) = upd_proc p f (set_kmach m s).
Proof. done. Qed.

Lemma switched_eq p i path im pr m (s : kst File.kst) :
  procs s !! p = Some pr →
  upd_thread p i (λ t, set_tf (set_esp (im_esp im) (tf t)) t) (upd_thread p i (λ t, set_tf (set_eip (im_eip im) (tf t)) t)
    (set_kmach m (upd_proc p (set_sz (im_sz im)) (upd_proc p (set_pgdir (im_pgdir im)) (upd_proc p (set_name (name_of path)) s)))))
  = set_kmach m (upd_proc p (switched i path im) s).
Proof.
  intros Hp. unfold upd_thread. rewrite !set_kmach_upd, !upd_proc_upd_proc. unfold upd_proc. f_equal. cbn [procs set_kmach set_km]. rewrite !(upd_insert p _ (procs s) pr) by done. f_equal.
  unfold switched, compose. destruct pr as [? ? ? ? ? ? ? ths]. cbn -[upd]. by rewrite upd_upd.
Qed.

Lemma switchuvm_ready p i pr t (s : kst File.kst) :
  ready me (kmach s) → procs s !! p = Some pr → threads pr !! i = Some t → kstack t ≠ 0 → pgdir pr ≠ 0 →
  ∃ m', switchuvm me p i s = Ok tt (set_kmach m' s) ∧ nudged me (kmach s) m'.
Proof.
  intros Hr Hp Ht Hk Hd. pose proof Hr as [_ (c & Hc & _)]. destruct (push_pop me c (kmach s) Hr Hc) as [E1 E2].
  exists (with_cpu me (popped (pushed c)) (kmach s)). split; [|by apply nudge]. unfold switchuvm.
  rewrite (bind_step _ _ _ t s) by (unfold thread_at, proc_at, mbind, M_bind; by rewrite Hp, Ht).
  rewrite bool_decide_eq_false_2 by done. rewrite (bind_step _ _ _ pr s) by (unfold proc_at; by rewrite Hp).
  rewrite bool_decide_eq_false_2 by done. unfold on_mach, zoom, mbind, M_bind. rewrite E1.
  change (kmach (set_kmach ?m s)) with m. by rewrite E2.
Qed.

Lemma exec_commit_eq p i pr t path im (s : kst File.kst) :
  ready me (kmach s) → on_cpu me p i (kmach s) → procs s !! p = Some pr → threads pr !! i = Some t →
  kstack t ≠ 0 → im_pgdir im ≠ 0 →
  ∃ m', exec_commit kend me p path im s =
      on_kmem (Vm.freevm kend me (pgdir pr)) (set_kmach m' (upd_proc p (switched i path im) s)) ∧
    nudged me (kmach s) m'.
Proof.
  intros Hr Hcpu Hp Ht Hks Hpd. unfold exec_commit.
  set (s1 := upd_proc p (set_name (name_of path)) s). rewrite (bind_step _ _ _ tt s1) by reflexivity.
  rewrite (bind_step _ _ _ (set_name (name_of path) pr) s1).
  2:{ unfold proc_at, s1, upd_proc. cbn [procs set_procs]. by rewrite lookup_upd_eq, Hp. }
  rewrite (bind_step _ _ _ tt (upd_proc p (set_pgdir (im_pgdir im)) s1)) by reflexivity.
  set (s3 := upd_proc p (set_sz (im_sz im)) (upd_proc p (set_pgdir (im_pgdir im)) s1)).
  rewrite (bind_step _ _ _ tt s3) by reflexivity.
  destruct (curthread_ready me p i s3 Hr Hcpu) as (m1 & E1 & Hn1). rewrite (bind_step _ _ _ _ _ E1).
  rewrite (bind_step _ _ _ tt (upd_thread p i (λ t, set_tf (set_eip (im_eip im) (tf t)) t) (set_kmach m1 s3))) by reflexivity.
  rewrite (bind_step _ _ _ tt (set_kmach m1 (upd_proc p (switched i path im) s))).
  2:{ unfold set_thread, modify. f_equal. by apply (switched_eq p i path im pr m1 s). }
  set (s4 := set_kmach m1 _).
  destruct (switchuvm_ready p i (switched i path im pr) (set_tf (set_esp (im_esp im) (set_eip (im_eip im) (tf t))) t) s4)
    as (m2 & E2 & Hn2); [by destruct Hn1|..|done|done|].
  { unfold s4, upd_proc. cbn [procs set_kmach set_km set_procs]. by rewrite lookup_upd_eq, Hp. }
  { unfold switched. cbn [threads set_threads]. by rewrite lookup_upd_eq, Ht. }
  exists m2. rewrite (bind_step _ _ _ _ _ E2). split; [done|]. by eapply nudged_trans.
Qed.

End Switch.

(** ** The memory *)

Section Exec.

Context (kend : Z) (me : nat) (all : list Z) (Hkend : 0 < kend) (Hnd : NoDup all) (Hall : Forall (vpage kend) all).

Abbreviation uvm := (uvm kend me all).

Lemma km_ready_nudged k m' : km_ready me k → nudged me (km_mach k) m' → km_ready me (set_km_mach m' k).
Proof. intros [Hr Hl] (Hr' & Hl' & _). split; [done|]. intros Hu. by apply Hl', Hl. Qed.

Lemma uvm_nudged O k L d T U m' : uvm O k L d T U → nudged me (km_mach k) m' → uvm O (set_km_mach m' k) L d T U.
Proof. intros [Hr [Hc Hdup Hok] Hp Hs] Hn. split; [by apply km_ready_nudged|by split|done|done]. Qed.

Lemma uvm_pool O k L d T U : uvm O k L d T U → pool kend me all (pages d T U ++ O) k L.
Proof. intros [Hr Hf Hp Hs]. split_and!; [done|done|]. rewrite <- Hp. unfold pages. solve_Permutation. Qed.

Lemma pool_uvm O k L k0 d T U :
  pool kend me all (pages d T U ++ O) k L → space (words k0) d T U → keeps (pages d T U ++ O) k0 k → uvm O k L d T U.
Proof.
  intros (Hr & Hf & Hp) Hs Hk. split; [done|done| |by eapply parent_space].
  rewrite <- Hp. unfold pages. solve_Permutation.
Qed.

(** What the program sees does not change when other pages do. *)
Lemma ubyte_keeps O O' k k' L L' d T U va :
  uvm O' k L d T U → uvm O k' L' d T U → keeps (pages d T U ++ O) k k' → 0 ≤ va < KERNBASE →
  ubyte (words k') d va = ubyte (words k) d va.
Proof using Hkend Hnd Hall.
  intros Hvm Hvm' Hk Hva. rewrite (ubyte_umem kend me all Hkend Hnd Hall _ _ _ _ _ _ va Hvm Hva),
    (ubyte_umem kend me all Hkend Hnd Hall _ _ _ _ _ _ va Hvm' Hva).
  destruct (U !! (va / PGSIZE)) as [e|]; [|done]. cbn [mbind option_bind]. bool_cases; [done|].
  apply (umem_keeps kend O); [|done|].
  - intros q a Hq. apply (Hk q a). unfold pages. revert Hq. rewrite !elem_of_app, elem_of_cons, !elem_of_app. tauto.
  - intros j e' Hj He. by destruct (uvm_entry kend me all Hkend Hnd Hall _ _ _ _ _ _ _ _ Hvm Hj He).
Qed.

Lemma program_keeps O O' k k' L L' d T U lo m esp argv :
  uvm O' k L d T U → uvm O k' L' d T U → keeps (pages d T U ++ O) k k' → 0 ≤ lo → lo + 2 * PGSIZE < KERNBASE →
  program_at (words k) d lo m esp argv → program_at (words k') d lo m esp argv.
Proof using Hkend Hnd Hall.
  intros Hvm Hvm' Hk Hlo Hhi [H1 H2 H3].
  assert (Hub : ∀ va, 0 ≤ va < lo + 2 * PGSIZE → ubyte (words k') d va = ubyte (words k) d va).
  { intros va Hva. eapply ubyte_keeps; [done|done|done|lia]. }
  assert (0 < PGSIZE) by done. split.
  - intros va Hva. rewrite Hub by lia. by apply H1.
  - intros va Hva. rewrite Hub by lia. by apply H2.
  - eapply stack_at_ext; [done|]. intros x v Hx Hv. by rewrite Hub by lia.
Qed.

(** ** The whole call *)

(** A thread that runs on CPU [me] and is the last one of its process, with
    [pages d T U] the pages of its address space and [O] those of the others. *)
Record exec_pre (s : kst File.kst) (p i : nat) (pr : proc) (t : thread) (cw : nat) (c ds : Z) (V : Z → dinode)
    (O L : list Z) (T U : gmap Z Z) : Prop := ExecPre {
  xp_cpu : on_cpu me p i (kmach s);
  xp_lock : locked (locks (kmach s) Lptable) = 0;
  xp_proc : procs s !! p = Some pr;
  xp_thread : threads pr !! i = Some t;
  xp_live : tkilled t ≠ 1;
  xp_stack : kstack t ≠ 0;
  xp_alone : ¬ others_live p p i pr;
  xp_cwd : cwd pr = Some cw;
  xp_fs : fs_ready ds V cw c (File.fs (world s));
  xp_space : uvm O (km s) L (pgdir pr) T U;
}.

Lemma alone_thread p i pr t : threads pr !! i = Some t → threads (alone p i pr) !! i = Some t.
Proof. intros Ht. unfold alone. rewrite others_lookup, Ht. simpl. rewrite bool_decide_eq_false_2; [done|]. naive_solver. Qed.

(** Up to the new image. *)
Lemma exec_ready data dev_read fuel path argv s p i pr t cw c ds V O L T U :
  exec_pre s p i pr t cw c ds V O L T U →
  ∃ m', nudged me (kmach s) m' ∧ exec kend data me dev_read (S fuel) path argv s =
    (x ← on_world (exec_image kend data me dev_read cw path argv);
     match x with
     | None => mret (Return (-1))
     | Some im => exec_commit kend me p path im ;; mret (Return 0)
     end) (set_kmach m' (upd_proc p (alone p i) s)).
Proof.
  intros [Hcpu Hl Hp Ht Hk Hks Hno Hcw _ Hvm]. pose proof (vm_ready _ _ _ _ _ _ _ _ _ Hvm) as [Hr _]. unfold exec.
  destruct (curproc_ready me p i s Hr Hcpu) as (m1 & E1 & Hn1). rewrite (bind_step _ _ _ _ _ E1).
  assert (Hcpu1 : on_cpu me p i m1) by (eapply on_cpu_view; [exact Hcpu|apply Hn1]).
  destruct (curthread_ready me p i (set_kmach m1 s) (proj1 Hn1) Hcpu1) as (m2 & E2 & Hn2).
  rewrite (bind_step _ _ _ _ _ E2).
  rewrite (bind_step _ _ _ t (set_kmach m2 s)) by (unfold thread_at, proc_at, mbind, M_bind; cbn [procs set_kmach set_km]; by rewrite Hp, Ht).
  rewrite bool_decide_eq_false_2 by done.
  set (s2 := set_kmach m2 (upd_proc p (alone p i) s)). rewrite (bind_step _ _ _ tt s2) by reflexivity.
  assert (Hp2 : procs s2 !! p = Some (alone p i pr)).
  { unfold s2, upd_proc. cbn [procs set_kmach set_km set_procs]. by rewrite lookup_upd_eq, Hp. }
  destruct (exec_wait_alone me fuel p i pr s2) as (m3 & E3 & Hn3); [apply Hn2|by apply Hn2, Hn1|done|done|].
  exists m3. split; [eapply nudged_trans; [exact Hn1|]; by eapply nudged_trans|].
  rewrite (bind_step _ _ _ _ _ E3), (bind_step _ _ _ (alone p i pr) (set_kmach m3 s2)).
  - rewrite (bind_step _ _ _ cw (set_kmach m3 s2)); [done|]. unfold alone, others. cbn [cwd set_threads]. by rewrite Hcw.
  - unfold proc_at. cbn [procs set_kmach set_km]. by rewrite Hp2.
Qed.

(** The process table, apart from [p], is as before, and so are the CPUs. *)
Definition exec_rest (p : nat) (pr' : proc) (s s' : kst File.kst) : Prop :=
  procs s' = <[p := pr']> (procs s) ∧ nextpid s' = nextpid s ∧ initproc s' = initproc s ∧
  mview (kmach s') = mview (kmach s).

(** The call comes back with an error: the process keeps its memory. *)
Definition exec_failed (V : Z → dinode) (c : Z) (path : list Z) (argv : list (list Z)) (p i : nat) (pr : proc)
    (O : list Z) (T U : gmap Z Z) (s s' : kst File.kst) : Prop :=
  exec_rest p (alone p i pr) s s' ∧ (∃ L', uvm O (km s') L' (pgdir pr) T U) ∧
  keeps (pages (pgdir pr) T U ++ O) (km s) (km s') ∧
  ∀ j, path_inode V c (File.fs (world s)) path = Some j →
    cannot_run all (contents (blk (File.fs (world s))) (V j)) argv (pages (pgdir pr) T U ++ O).

(** The call comes back in the new program. *)
Definition exec_switched (V : Z → dinode) (c : Z) (path : list Z) (argv : list (list Z)) (p i : nat) (pr : proc)
    (O : list Z) (s s' : kst File.kst) : Prop :=
  ∃ im j, path_inode V c (File.fs (world s)) path = Some j ∧
    exec_rest p (switched i path im (alone p i pr)) s s' ∧ keeps O (km s) (km s') ∧
    runs_file kend me all (contents (blk (File.fs (world s))) (V j)) argv O (km s') im.

Lemma uvm_dir O k L d T U : uvm O k L d T U → d ≠ 0.
Proof using Hkend Hall.
  intros [_ _ Hp _] ->. assert (Hd : 0 ∈ all) by (rewrite <- Hp; apply elem_of_app; right; left).
  apply (all_vpage kend all Hall) in Hd. destruct Hd as (_ & H & _). unfold KERNBASE in *. lia.
Qed.

(** Switching over frees the old pages. *)
Lemma commit_switched p i pr t path argv C im s O T U :
  ready me (kmach s) → on_cpu me p i (kmach s) → procs s !! p = Some pr → threads pr !! i = Some t → kstack t ≠ 0 →
  space (words (km s)) (pgdir pr) T U → runs_file kend me all C argv (pages (pgdir pr) T U ++ O) (km s) im →
  ∃ k', exec_commit kend me p path im s = Ok tt (set_km k' (upd_proc p (switched i path im) s)) ∧
    mview (km_mach k') = mview (kmach s) ∧ keeps O (km s) k' ∧ runs_file kend me all C argv O k' im.
Proof using Hkend Hnd Hall.
  intros Hr Hcpu Hp Ht Hks Hsp [(L & Tn & Un & Hvm) Heip (sz & m & Him & Hsz & H0 & Htop & Hprog)].
  destruct (exec_commit_eq kend me p i pr t path im s Hr Hcpu Hp Ht Hks (uvm_dir _ _ _ _ _ _ Hvm)) as (m' & E & Hn).
  pose proof (uvm_nudged _ _ _ _ _ _ m' Hvm Hn) as Hvm1. set (k1 := set_km_mach m' (km s)) in *.
  pose proof (parent_vm kend me all O k1 L (im_pgdir im) Tn Un (pgdir pr) T U Hvm1 Hsp) as Hold.
  destruct (freevm_spec kend me all Hkend Hnd Hall _ _ _ _ _ _ Hold) as (k2 & L2 & E2 & Hr2 & Hf2 & Hp2 & Hk2).
  assert (Hvm2 : uvm O k2 L2 (im_pgdir im) Tn Un).
  { eapply (pool_uvm O k2 L2 k1); [by split_and!|apply (vm_space _ _ _ _ _ _ _ _ _ Hvm1)|exact Hk2]. }
  exists k2. split_and!.
  - rewrite E. unfold on_kmem, zoom. cbn [km set_kmach set_km upd_proc set_procs]. fold k1. by rewrite E2.
  - pose proof (Kernel.kview_freevm kend me (pgdir pr) k1) as Hv. unfold wp in Hv. rewrite E2 in Hv. rewrite Hv. apply Hn.
  - intros q a Hq Ha. apply (Hk2 q a); [|done]. apply elem_of_app. by right.
  - split; [by exists L2, Tn, Un|done|]. exists sz, m. split_and!; [done|done|done|done|].
    eapply (program_keeps O _ k1 k2); [exact Hvm1|exact Hvm2|exact Hk2| | |exact Hprog].
    + unfold pgup, PGSIZE in *. Z.div_mod_to_equations. lia.
    + exact Htop.
Qed.


End Exec.

(** ** Calls that do not come back *)

Lemma release_unlocked {W} me (s : kst W) :
  ready me (kmach s) → locked (locks (kmach s) Lptable) = 0 → ∃ s', release_ptable me s = Panic "release" s'.
Proof.
  intros [Hwf (c & Hc & Hok)] Hl. unfold release_ptable, on_mach, zoom, release, mbind, M_bind.
  rewrite (holding_ok me Lptable c _ Hwf Hc Hok), bool_decide_eq_false_2; [by eexists|].
  unfold held_by. intros [H _]. by rewrite Hl in H.
Qed.

Lemma sched_unlocked {W} me p i k (s : kst W) :
  ready me (kmach s) → on_cpu me p i (kmach s) → locked (locks (kmach s) Lptable) = 0 →
  ∃ s', sched me k s = Panic "sched ptable.lock" s'.
Proof.
  intros Hr Hcpu Hl. unfold sched. destruct (curthread_ready me p i s Hr Hcpu) as (m1 & E1 & [Hwf (c & Hc & Hok)] & Hl1 & _).
  rewrite (bind_step _ _ _ _ _ E1). unfold on_mach, zoom, mbind, M_bind. change (kmach (set_kmach m1 s)) with m1.
  rewrite (holding_ok me Lptable c m1 Hwf Hc Hok), bool_decide_eq_false_2; [by eexists|].
  unfold held_by. intros [H _]. by rewrite (Hl1 _ Hl) in H.
Qed.

Lemma exit_wakes {W} me p i (b : bool) (s : kst W) :
  ready me (kmach s) → on_cpu me p i (kmach s) → locked (locks (kmach s) Lptable) = 0 →
  ∃ s', (if b then q ← curproc me; wakeup1 (CProc q) else mret tt) s = Ok tt s' ∧
    ready me (kmach s') ∧ on_cpu me p i (kmach s') ∧ locked (locks (kmach s') Lptable) = 0.
Proof.
  intros Hr Hcpu Hl. destruct b; [|by exists s].
  destruct (curproc_ready me p i s Hr Hcpu) as (m2 & E2 & Hr2 & Hl2 & Hv2).
  rewrite (bind_step _ _ _ _ _ E2). eexists. split; [reflexivity|]. split_and!; [done|by eapply on_cpu_view|by apply Hl2].
Qed.

(** [exit_thread] expects its caller to hold [ptable.lock]. *)
Lemma exit_thread_unlocked {W} me p i pr (s : kst W) :
  ready me (kmach s) → on_cpu me p i (kmach s) → locked (locks (kmach s) Lptable) = 0 → procs s !! p = Some pr →
  ∃ s', exit_thread me s = Panic (if bool_decide (running_threads pr = 0)%nat then "No running thread!" else
    if bool_decide (running_threads pr = 1)%nat then "release" else "sched ptable.lock") s'.
Proof.
  intros Hr Hcpu Hl Hp. unfold exit_thread.
  destruct (curproc_ready me p i s Hr Hcpu) as (m1 & E1 & Hr1 & Hl1 & Hv1). rewrite (bind_step _ _ _ _ _ E1).
  rewrite (bind_step _ _ _ pr (set_kmach m1 s)) by (unfold proc_at; cbn [procs set_kmach set_km]; by rewrite Hp).
  destruct (bool_decide_reflect (running_threads pr = 0)%nat) as [_|_]; [by eexists|].
  destruct (exit_wakes me p i (bool_decide (running_threads pr = 2)%nat) (set_kmach m1 s)) as (s2 & E2 & Hr2 & Hcpu2 & Hl2);
    [done|by eapply on_cpu_view|by apply Hl1|].
  rewrite (bind_step _ _ _ _ _ E2). destruct (curthread_ready me p i s2 Hr2 Hcpu2) as (m3 & E3 & Hr3 & Hl3 & Hv3).
  destruct (bool_decide_reflect (running_threads pr = 1)%nat) as [_|_]; rewrite (bind_step _ _ _ _ _ E3).
  - destruct (release_unlocked me (set_kmach m3 s2) Hr3 (Hl3 _ Hl2)) as (s4 & E4). exists s4. by apply bind_panic.
  - rewrite (bind_step (wakeup1 (CThread p i)) _ _ tt _ eq_refl), (bind_step (set_thread p i _) _ _ tt _ eq_refl).
    apply (sched_unlocked me p i); [done|by eapply on_cpu_view|by apply Hl3].
Qed.

(** A thread that was killed before it called [exec] leaves by [exit_thread], which
    releases [ptable.lock] or switches with it: the kernel stops. *)
Theorem exec_killed_panics kend data me dev_read fuel path argv p i pr t (s : kst File.kst) :
  ready me (kmach s) → on_cpu me p i (kmach s) → locked (locks (kmach s) Lptable) = 0 →
  procs s !! p = Some pr → threads pr !! i = Some t → tkilled t = 1 →
  ∃ s', exec kend data me dev_read fuel path argv s =
    Panic (if bool_decide (running_threads pr = 0)%nat then "No running thread!" else
           if bool_decide (running_threads pr = 1)%nat then "release" else "sched ptable.lock") s'.
Proof.
  intros Hr Hcpu Hl Hp Ht Hk. unfold exec.
  destruct (curproc_ready me p i s Hr Hcpu) as (m1 & E1 & Hr1 & Hl1 & Hv1). rewrite (bind_step _ _ _ _ _ E1).
  assert (Hcpu1 : on_cpu me p i m1) by by eapply on_cpu_view.
  destruct (curthread_ready me p i (set_kmach m1 s) Hr1 Hcpu1) as (m2 & E2 & Hr2 & Hl2 & Hv2).
  rewrite (bind_step _ _ _ _ _ E2).
  rewrite (bind_step _ _ _ t (set_kmach m2 s)) by (unfold thread_at, proc_at, mbind, M_bind; cbn [procs set_kmach set_km]; by rewrite Hp, Ht).
  rewrite bool_decide_eq_true_2 by done.
  apply (exit_thread_unlocked me p i pr (set_kmach m2 s)); [done|by eapply on_cpu_view|by apply Hl2, Hl1|done].
Qed.

(** Thread [i] of process [p] exists and has not ended. *)
Definition thread_live (p i : nat) (s : kst File.kst) : Prop :=
  ∃ pr t, procs s !! p = Some pr ∧ (i < t_num pr)%nat ∧ threads pr !! i = Some t ∧
    tstate t ≠ ZOMBIE_T ∧ tstate t ≠ UNUSED_T.

(** A turn of the waiting loop by one of the two threads, on some CPU. *)
Definition pair_turn (p i j : nat) (s s' : kst File.kst) : Prop :=
  ∃ me k flag, (k = i ∨ k = j) ∧ exec_turn me p p k s = Ok flag s'.

Lemma exec_wake_live t : tstate t ≠ ZOMBIE_T ∧ tstate t ≠ UNUSED_T → tstate (exec_wake t) ≠ ZOMBIE_T ∧ tstate (exec_wake t) ≠ UNUSED_T.
Proof. unfold exec_wake. by case_bool_decide. Qed.

Lemma exec_turn_table me p k flag (s s' : kst File.kst) :
  exec_turn me p p k s = Ok flag s' → procs s' = upd p (others p p k exec_wake) (procs s) ∧
    ∃ pr, procs s' !! p = Some pr ∧ flag = bool_decide (others_live p p k pr).
Proof.
  unfold exec_turn, acquire_ptable, release_ptable, set_proc, modify, proc_at, on_mach, zoom, mret, M_ret, mbind, M_bind. intros E.
  destruct (acquire me Lptable (kmach s)) as [[] m1| | |]; [|done..]. cbn [kmach km set_kmach set_km upd_proc set_procs] in E.
  destruct (release me Lptable _) as [[] m2| | |]; [|done..].
  cbn [procs set_kmach set_km set_procs upd_proc] in E. destruct (upd p _ (procs s) !! p) as [pr|] eqn:Hp; [|done].
  injection E as <- <-. split; [done|]. by exists pr.
Qed.

Lemma exec_turn_live me p k i flag s s' :
  exec_turn me p p k s = Ok flag s' → thread_live p i s → thread_live p i s'.
Proof.
  intros [E _]%exec_turn_table (pr & t & Hp & Hi & Ht & Hs). exists (others p p k exec_wake pr).
  eexists. rewrite E, lookup_upd_eq, Hp, others_lookup, Ht. do 3 (split; [done|]).
  destruct (bool_decide _); [by apply exec_wake_live|done].
Qed.

(** When two threads of a process are in the loop of [exec], each waits for the
    other one: whatever the order of their turns, none leaves the loop. *)
Theorem exec_pair_waits p i j s s' :
  i ≠ j → thread_live p i s → thread_live p j s → rtc (pair_turn p i j) s s' →
  ∀ me k flag s'', k = i ∨ k = j → exec_turn me p p k s' = Ok flag s'' → flag = true.
Proof.
  intros Hij Hi Hj Hrtc me k flag s'' Hk E.
  assert (Hlive : thread_live p i s' ∧ thread_live p j s').
  { eapply (rtc_invariant (pair_turn p i j) (λ s, thread_live p i s ∧ thread_live p j s)); [|exact Hrtc|by split].
    intros x y (me' & k' & f' & _ & E') [H1 H2]. split; by eapply exec_turn_live. }
  pose proof E as [_ (pr & Hp & ->)]%exec_turn_table. apply bool_decide_eq_true_2, others_live_iff.
  assert (Ho : ∃ o, (o = i ∨ o = j) ∧ o ≠ k ∧ thread_live p o s'') by (destruct Hk as [->| ->], Hlive as [H1 H2];
    [exists j|exists i]; (split_and!; [by auto|done|by eapply exec_turn_live])).
  destruct Ho as (o & _ & Hne & pr' & t & Hp' & Ho & Ht & H1 & H2). rewrite Hp in Hp'. injection Hp' as <-.
  exists o, t. split_and!; try done. congruence.
Qed.

End ExecProc.
