(* ===== verification/ExecDemo.v ===== *)
(** * Examples for [exec]

    A kernel with a process of one page, 1100 free pages, and a file system with
    an executable file "/a": its one segment has four bytes and is loaded at 0. *)

From S2P Require Import Prelude Spinlock Kalloc ProcData Proc ProcInv ProcSafe ProcThm ProcTotal Syscall.
From S2P Require Import Vm VmInv VmThm VmUser Log Fs FsInv FsAlloc FsFile FsWrite FsTrunc FsCache FsDir FsPath FsDemo FsThm.
From S2P Require Import File Exec ExecImage ExecStack ExecThm Kernel ExecProc.

Module ExecDemo.
Import Fs FsInv FsAlloc FsFile FsWrite FsDir FsPath FsDemo FsThm Exec ExecImage ExecStack ExecThm ExecProc.

(** ** The file *)

Definition code : list Z := [0x31; 0xc0; 0xeb; 0xfe].

(** The header, one program header and the segment. *)
Definition elf_bytes : list Z :=
  words_bytes [0x464C457F; 0; 0; 0; 0x00030002; 1; 0; 52; 0; 0; 0x00200034; 1; 0] ++
  words_bytes [1; 84; 0; 0; 4; 8; 7; 4096] ++ code.

Definition program : dinode := Dinode T_FILE 0 0 1 88 (6 :: replicate 12 0).

Definition elf_blk : Z → block :=
  <[2 := dinode_put (dislot 2) program inode_block]> (<[6 := splice 0 elf_bytes zeros]> demo_blk).

Definition elf_fs : fss :=
  Fss elf_blk [] demo_sb (Inode ROOTDEV 1 1 false true root :: replicate (NINODE - 1) (Inode 0 0 0 false false zero_dinode)).

Definition elf_V : Z → dinode := λ i, disk_inode demo_sb elf_blk i.

Lemma elf_inv : inv none none 5 elf_fs elf_V.
Proof.
  apply (fine_inv 5 elf_fs).
  - split; vm_compute; (done || lia).
  - vm_compute. done.
  - intros b. unfold elf_fs, elf_blk. cbn [blk].
    apply blocks_ok_insert; [intros c; apply blocks_ok_insert; [intros c'; apply demo_blocks_ok|]|].
    + apply block_ok_splice; [vm_compute; lia|apply (bool_decide_eq_true_1 _); by vm_compute|apply zeros_ok].
    + unfold inode_block. repeat apply block_ok_dinode_put. apply zeros_ok.
  - apply (bool_decide_eq_true_1 _). vm_compute. done.
  - apply (bool_decide_eq_true_1 _). vm_compute. done.
Qed.

Lemma elf_V_root : elf_V 1 = root.
Proof. vm_compute. reflexivity. Qed.

Lemma elf_V_file : elf_V 2 = program.
Proof. vm_compute. reflexivity. Qed.

Lemma elf_contents : contents elf_blk (elf_V 2) = elf_bytes.
Proof. vm_compute. reflexivity. Qed.

Lemma elf_program : elf_image elf_bytes = Some (8, with_segment elf_bytes (Proghdr 1 84 0 4 8) (λ _, 0)).
Proof. vm_compute. reflexivity. Qed.

Lemma elf_root_live : inode_no demo_sb 1 ∧ type (elf_V 1) ≠ 0 ∧ nlink (elf_V 1) ≠ 0.
Proof. rewrite elf_V_root. done. Qed.

Lemma elf_file_live : inode_no demo_sb 2 ∧ type (elf_V 2) ≠ 0 ∧ nlink (elf_V 2) ≠ 0.
Proof. rewrite elf_V_file. done. Qed.

Lemma elf_tree : tree_ok demo_sb (files elf_fs elf_V).
Proof.
  apply (tree_ok_intro demo_sb elf_blk elf_V). intros i Hi Ht.
  assert (Hone : Forall (λ i, type (elf_V i) = T_DIR → i = 1) (seqZ 1 8)) by (apply (bool_decide_eq_true_1 _); by vm_compute).
  rewrite Forall_forall in Hone.
  assert (i = 1) as -> by (apply Hone; [apply elem_of_seqZ; unfold inode_no in Hi; exact Hi|exact Ht]).
  split_and!; [rewrite elf_V_root; reflexivity|rewrite elf_V_root; discriminate|].
  assert (Hd : Forall (λ n, n = 1 ∨ n = 2) (de_inum <$> dents (contents elf_blk (elf_V 1)))) by (apply (bool_decide_eq_true_1 _); by vm_compute).
  eapply Forall_impl; [exact Hd|]. intros n [->| ->]; [exact elf_root_live|exact elf_file_live].
Qed.

Lemma elf_fs_ready : fs_ready 5 elf_V 0 1 elf_fs.
Proof.
  split; [apply elf_inv|apply elf_tree| |change ROOTINO with 1; by rewrite elf_V_root|].
  - intros ip e He _. assert (Hall : Forall (λ e, ilocked e = false) (icache elf_fs)) by (apply (bool_decide_eq_true_1 _); by vm_compute).
    by eapply Forall_lookup_1 in Hall.
  - rewrite elf_V_root. split_and!; [done|done|]. eexists. by split.
Qed.

Lemma elf_path : path_inode elf_V 1 elf_fs [47; 97] = Some 2.
Proof. vm_compute. reflexivity. Qed.

(** ** The memory *)

(** The free pages, linked in order. *)
Definition base : Z := 0x80114000.
Definition free_list (k n : nat) : list Z := (λ i, base + PGSIZE * Z.of_nat i) <$> seq k n.

Definition link (a : Z) : Z :=
  if bool_decide (base ≤ a < base + PGSIZE * 1099 ∧ a mod PGSIZE = 0) then a + PGSIZE else 0.

Definition exec_words : Z → Z :=
  <[0x80111000 := pde_of 0x80112000]> (<[0x80112000 := pte_of 0x80113000 UPERM]> link).

Lemma exec_words_link a : base ≤ a → exec_words a = link a.
Proof. intros Ha. unfold exec_words, base in *. by rewrite !fn_lookup_insert_ne by lia. Qed.

Lemma link_chain n : ∀ k, (k + n = 1099)%nat → chain exec_words (base + PGSIZE * Z.of_nat k) (free_list k (S n)).
Proof.
  induction n as [|n IH]; intros k Hk.
  - simpl. split_and!; [done|unfold base, PGSIZE; lia|]. rewrite exec_words_link by (unfold base, PGSIZE; lia).
    unfold link. rewrite bool_decide_eq_false_2; [done|]. unfold base, PGSIZE. lia.
  - change (free_list k (S (S n))) with ((base + PGSIZE * Z.of_nat k) :: free_list (S k) (S n)).
    split_and!; [done|unfold base, PGSIZE; lia|]. rewrite exec_words_link by (unfold base, PGSIZE; lia).
    unfold link. rewrite bool_decide_eq_true_2.
    + replace (base + PGSIZE * Z.of_nat k + PGSIZE) with (base + PGSIZE * Z.of_nat (S k)) by lia. apply IH. lia.
    + unfold base, PGSIZE in *. split; [lia|]. Z.div_mod_to_equations. lia.
Qed.

Definition exec_all : list Z := free_list 0 1100 ++ [0x80111000; 0x80112000; 0x80113000].

Lemma exec_all_ok : NoDup exec_all ∧ Forall (vpage demo_kend) exec_all.
Proof.
  split.
  - apply NoDup_app. split_and!.
    + apply NoDup_fmap_2; [|apply NoDup_seq]. intros i j Hij. unfold PGSIZE in *. lia.
    + intros x Hx Hin. apply list_elem_of_fmap in Hx as (i & -> & _). unfold base, PGSIZE in *.
      rewrite !elem_of_cons in Hin. destruct Hin as [H|[H|[H|H]]]; [lia..|by apply elem_of_nil in H].
    + apply (bool_decide_unpack _). by vm_compute.
  - apply Forall_app. split; [|repeat constructor; by vm_compute]. apply Forall_fmap, Forall_forall.
    intros i Hi. apply elem_of_seq in Hi. unfold vpage, base, demo_kend, KERNBASE, PHYSTOP, PGSIZE. cbn [compose].
    split_and!; [|lia|lia|lia]. Z.div_mod_to_equations. lia.
Qed.

(** CPU 0 runs thread 0 of process 0. *)
Definition exec_mach : mach :=
  Mach [Cpu 0 0 false true (Some 0%nat) (Some (0%nat, 0%nat)) NotScanning] (λ _, Spinlock 0 "" None).

Definition exec_km : kmem := Kmem exec_mach 1 base exec_words.

Lemma exec_mach_ready : ready 0 exec_mach.
Proof. split; [unfold mach_wf; simpl; apply NoDup_singleton|]. eexists. split; [done|]. split; simpl; done. Qed.

Lemma exec_uvm : uvm demo_kend 0 exec_all [] exec_km (free_list 0 1100) 0x80111000 demo_T demo_U.
Proof.
  split.
  - split; [apply exec_mach_ready|done].
  - destruct exec_all_ok as [Hnd Hall]. apply NoDup_app in Hnd as [Hnd _]. apply Forall_app in Hall as [Hall _].
    split; [exact (link_chain 1099 0 eq_refl)|exact Hnd|]. eapply Forall_impl; [exact Hall|]. intros q. apply vpage_ok.
  - assert (Hf : frames demo_U = [0x80113000]) by (by vm_compute). rewrite Hf.
    assert (Ht : tabs demo_T = [0x80112000]) by (by vm_compute). rewrite Ht. unfold exec_all. apply Permutation_app_head. reflexivity.
  - assert (Hw : ∀ a, a < base → words exec_km a = if bool_decide (a = 0x80111000) then pde_of 0x80112000 else
      if bool_decide (a = 0x80112000) then pte_of 0x80113000 UPERM else 0).
    { intros a Ha. unfold exec_km. cbn [words]. unfold exec_words.
      repeat (case_bool_decide as H; [subst; reflexivity|rewrite fn_lookup_insert_ne by congruence; clear H]).
      unfold link. by rewrite bool_decide_eq_false_2 by lia. }
    unfold base in Hw. split.
    + intros i Hi. rewrite Hw by (unfold USER in *; lia). unfold demo_T. destruct (decide (i = 0)) as [->|Hne].
      * rewrite lookup_singleton_eq. reflexivity.
      * rewrite lookup_singleton_ne by done. repeat (rewrite bool_decide_eq_false_2 by lia). done.
    + intros n t Hn Ht. unfold demo_T in Ht. apply lookup_singleton_Some in Ht as [Hn0 <-].
      assert (n < 1024) by (Z.div_mod_to_equations; lia). rewrite Z.mod_small, Hw by lia. unfold demo_U.
      destruct (decide (n = 0)) as [->|Hne]; [reflexivity|]. rewrite lookup_singleton_ne by done.
      repeat (rewrite bool_decide_eq_false_2 by lia). done.
    + intros i t Ht. unfold demo_T in Ht. apply lookup_singleton_Some in Ht as [<- _]. lia.
    + intros n e He. unfold demo_U in He. apply lookup_singleton_Some in He as [<- <-]. split_and!; [lia|lia|by eexists|apply present_lor].
Qed.

(** ** The process *)

Definition exec_thread (killed : Z) : thread :=
  Thread 0x80117000 RUNNING killed 0 zero_tf CNull InUser 0 false (Some 0%nat) 1.

Definition exec_proc (killed : Z) : proc :=
  Proc 0 4096 0x80111000 7 None [] "old" [exec_thread killed] USED 1 (Some 0%nat).

Definition exec_state (killed : Z) : kst File.kst :=
  Kst exec_km [exec_proc killed] 8 None false
    (File.Kst elf_fs [] [] ∅ [] Syscall.demo_user).

Lemma exec_state_pre :
  exec_pre demo_kend 0 exec_all (exec_state 0) 0 0 (exec_proc 0) (exec_thread 0) 0 1 5 elf_V [] (free_list 0 1100) demo_T demo_U.
Proof.
  split.
  - eexists. split_and!; reflexivity.
  - reflexivity.
  - reflexivity.
  - reflexivity.
  - discriminate.
  - discriminate.
  - intros (j & t & Hj & _ & Hne & _)%others_live_iff. simpl in Hj. assert (j = 0)%nat by lia. by subst.
  - reflexivity.
  - apply elf_fs_ready.
  - apply exec_uvm.
Qed.

Definition no_dev : Z → option (nat → Z → M fss (Z * list Z)) := λ _, None.

Lemma elf_runnable : ¬ cannot_run exec_all (contents elf_blk (elf_V 2)) [[97]; [120]] (pages 0x80111000 demo_T demo_U ++ []).
Proof.
  unfold cannot_run. rewrite elf_contents, elf_program. vm_compute.
  intros [H|[H|[H|H]]]; [lia|discriminate|exact (H eq_refl)|discriminate].
Qed.

Lemma elf_running O k im :
  runs_file demo_kend 0 exec_all (contents elf_blk (elf_V 2)) [[97]; [120]] O k im →
  im_sz im = 12288 ∧ ubyte (words k) (im_pgdir im) 2 = Some 0xeb.
Proof.
  intros [_ _ (n & m & Him & Hsz & _ & _ & Hprog)]. rewrite elf_contents, elf_program in Him. injection Him as <- <-.
  split; [exact Hsz|]. exact (pa_image _ _ _ _ _ _ Hprog 2 ltac:(vm_compute; split; congruence)).
Qed.

Lemma elf_only j : path_inode elf_V 1 elf_fs [47; 97] = Some j → j = 2 ∧ type (elf_V j) ≠ T_DEV.
Proof. rewrite elf_path. intros [= <-]. rewrite elf_V_file. done. Qed.


Lemma exec_killed_panics_witness :
  ∃ s', exec demo_kend 0x8010a000 0 no_dev 1 [47; 97] [] (exec_state 1) = Panic "release" s'.
Proof.
  apply (exec_killed_panics demo_kend 0x8010a000 0 no_dev 1 [47; 97] [] 0 0 (exec_proc 1) (exec_thread 1) (exec_state 1)).
  - exact exec_mach_ready.
  - eexists. split; [reflexivity|]. split; reflexivity.
  - reflexivity.
  - reflexivity.
  - reflexivity.
  - reflexivity.
Defined.

(** Two threads of one process. *)
Definition pair_proc : proc :=
  Proc 0 4096 0x80111000 7 None [] "old" [exec_thread 1; exec_thread 1] USED 2 (Some 0%nat).

Definition pair_state : kst File.kst :=
  Kst exec_km [pair_proc] 8 None false (File.Kst elf_fs [] [] ∅ [] Syscall.demo_user).

Lemma exec_pair_waits_witness :
  ∃ s', exec_turn 0 0 0 1 pair_state = Ok true s'.
Proof.
  assert (Hl : ∀ k, k = 0%nat ∨ k = 1%nat → thread_live 0 k pair_state).
  { intros k [->| ->]; exists pair_proc, (exec_thread 1); split_and!; try reflexivity; try discriminate; simpl; lia. }
  assert (E : ∃ flag s', exec_turn 0 0 0 1 pair_state = Ok flag s') by (eexists _, _; reflexivity).
  destruct E as (flag & s' & E). exists s'. rewrite E. f_equal.
  exact (exec_pair_waits 0 0 1 pair_state pair_state ltac:(discriminate) (Hl _ (or_introl eq_refl)) (Hl _ (or_intror eq_refl))
    (rtc_refl _ _) 0 1 flag s' (or_intror eq_refl) E).
Defined.

End ExecDemo.
