(* ===== verification/Sysfile.v ===== *)
(** * The file-system calls

    [src/sysfile.c] over [File], [Fs] and the argument checks of [Syscall].  The
    calling process is a parameter; a call returns its result and leaves what it
    stores in the memory of the process in [um]. *)

From S2P Require Import Prelude Log Pipe Fs Syscall File.

Module Sysfile.
Import File.

Definition O_WRONLY : Z := 0x001.
Definition O_RDWR : Z := 0x002.
Definition O_CREATE : Z := 0x200.
Definition MAXARG : nat := 32.

Section Calls.

Context (dev_read : Z → option (nat → Z → M Fs.fss (Z * list Z))).
Context (dev_write : Z → option (nat → list Z → M Fs.fss Z)).
Context (killed : bool).
(** The calling process. *)
Context (me : nat).

(** *** Arguments *)

Definition argint (n : Z) : M kst (option Z) := gets (λ k, Syscall.argint n (um k)).
Definition argptr (n size : Z) : M kst (option Z) := gets (λ k, Syscall.argptr n size (um k)).

(** The bytes of the string argument. *)
Definition bytes_at (u : Syscall.user) (p : Z) (n : nat) : list Z :=
  (λ i, Syscall.umem u (p + Z.of_nat i)) <$> seq 0 n.
Definition argstr (n : Z) : M kst (option (list Z)) :=
  gets (λ k, (λ x, bytes_at (um k) x.1 (Z.to_nat x.2)) <$> Syscall.argstr n (um k)).

(** Bytes stored in the memory of the process. *)
Definition copy_out (p : Z) (l : list Z) : M kst unit :=
  modify (λ k, set_um (Syscall.User
    (λ a, if bool_decide (p ≤ a < p + Z.of_nat (length l)) then default 0 (l !! Z.to_nat (a - p))
          else Syscall.umem (um k) a) (Syscall.sz (um k)) (Syscall.esp (um k)) (Syscall.eax (um k))) k).

Definition argfd (n : Z) : M kst (option (nat * nat)) :=
  a ← argint n;
  match a with
  | None => mret None
  | Some fd =>
      if bool_decide (fd < 0) || bool_decide (Z.of_nat NOFILE ≤ fd) then mret None else
      x ← proc_at me;
      mret ((λ f, (Z.to_nat fd, f)) <$> mjoin (ofile x !! Z.to_nat fd))
  end.

Fixpoint fdalloc_loop (l : list (option nat)) (fd : nat) : option nat :=
  match l with
  | [] => None
  | None :: _ => Some fd
  | Some _ :: l => fdalloc_loop l (S fd)
  end.

Definition fdalloc (f : nat) : M kst (option nat) :=
  x ← proc_at me;
  match fdalloc_loop (ofile x) 0 with
  | Some fd => upd_proc me (set_ofile fd (Some f)) ;; mret (Some fd)
  | None => mret None
  end.

(** *** Files *)

Definition sys_dup : M kst Z :=
  a ← argfd 0;
  match a with
  | None => mret (-1)
  | Some (_, f) =>
      fd ← fdalloc f;
      match fd with
      | None => mret (-1)
      | Some fd => filedup f ;; mret (Z.of_nat fd)
      end
  end.

Definition sys_read : M kst Z :=
  a ← argfd 0;
  match a with
  | None => mret (-1)
  | Some (_, f) =>
      n ← argint 2;
      match n with
      | None => mret (-1)
      | Some n =>
          p ← argptr 1 n;
          match p with
          | None => mret (-1)
          | Some p => r ← fileread dev_read killed f n; copy_out p r.2 ;; mret r.1
          end
      end
  end.

Definition sys_write : M kst Z :=
  a ← argfd 0;
  match a with
  | None => mret (-1)
  | Some (_, f) =>
      n ← argint 2;
      match n with
      | None => mret (-1)
      | Some n =>
          p ← argptr 1 n;
          match p with
          | None => mret (-1)
          | Some p =>
              k ← get;
              filewrite dev_write killed f (bytes_at (um k) p (Z.to_nat n))
          end
      end
  end.

Definition sys_close : M kst Z :=
  a ← argfd 0;
  match a with
  | None => mret (-1)
  | Some (fd, f) => upd_proc me (set_ofile fd None) ;; fileclose f ;; mret 0
  end.

(** [struct stat] as bytes: [type], two bytes of padding, [dev], [ino], [nlink],
    padding, [size]. *)
Definition le (n : nat) (v : Z) : list Z := (λ i, u8 (Z.shiftr v (8 * Z.of_nat i))) <$> seq 0 n.
Definition stat_bytes (st : Fs.stat) (pad1 pad2 : list Z) : list Z :=
  le 2 (Fs.st_type st) ++ pad1 ++ le 4 (Fs.st_dev st) ++ le 4 (Fs.st_ino st) ++
  le 2 (Fs.st_nlink st) ++ pad2 ++ le 4 (Fs.st_size st).

Definition sys_fstat : M kst Z :=
  a ← argfd 0;
  match a with
  | None => mret (-1)
  | Some (_, f) =>
      p ← argptr 1 20;
      match p with
      | None => mret (-1)
      | Some p =>
          r ← filestat f;
          match r.2 with
          | Some st =>
              k ← get;
              copy_out p (stat_bytes st (bytes_at (um k) (p + 2) 2) (bytes_at (um k) (p + 14) 2)) ;;
              mret r.1
          | None => mret r.1
          end
      end
  end.

(** *** Links *)

Definition set_nlink (n : Z) (x : Fs.dinode) : Fs.dinode :=
  Fs.Dinode (Fs.type x) (Fs.major x) (Fs.minor x) n (Fs.size x) (Fs.addrs x).

(** [ip->nlink += d; iupdate(ip);], where [nlink] is a [short]. *)
Definition add_nlink (ip : nat) (d : Z) : M Fs.fss unit :=
  Fs.iset ip (λ i, Fs.set_di (set_nlink (Fs.s16 (Fs.nlink (Fs.di i) + d)) (Fs.di i)) i) ;;
  Fs.iupdate ip.

(** The label [bad] of [sys_link]. *)
Definition link_bad (ip : nat) : M Fs.fss Z :=
  Fs.ilock ip ;; add_nlink ip (-1) ;; Fs.iunlockput ip ;; mret (-1).

Definition link_dir (cw : nat) (new : list Z) (ip : nat) : M Fs.fss Z :=
  r ← Fs.nameiparent dev_read cw new;
  match r with
  | None => link_bad ip
  | Some (dp, name) =>
      Fs.ilock dp ;;
      d ← Fs.iget_at dp;
      i ← Fs.iget_at ip;
      l ← (if bool_decide (Fs.idev d ≠ Fs.idev i) then mret (-1)
           else Fs.dirlink dev_read dev_write dp name (Fs.inum i));
      if bool_decide (l < 0) then Fs.iunlockput dp ;; link_bad ip
      else Fs.iunlockput dp ;; Fs.iput ip ;; mret 0
  end.

Definition link_fs (cw : nat) (old new : list Z) : M Fs.fss Z :=
  r ← Fs.namei dev_read cw old;
  match r with
  | None => mret (-1)
  | Some ip =>
      Fs.ilock ip ;;
      i ← Fs.iget_at ip;
      if bool_decide (Fs.type (Fs.di i) = Fs.T_DIR) then Fs.iunlockput ip ;; mret (-1) else
      add_nlink ip 1 ;;
      Fs.iunlock ip ;;
      link_dir cw new ip
  end.

Definition sys_link : M kst Z :=
  old ← argstr 0;
  match old with
  | None => mret (-1)
  | Some old =>
      new ← argstr 1;
      match new with
      | None => mret (-1)
      | Some new =>
          x ← proc_at me;
          begin_op ;;
          r ← in_fs (link_fs (cwd x) old new);
          end_op ;;
          mret r
      end
  end.

(** [isdirempty] from offset [off] on. *)
Fixpoint isdirempty_loop (fuel : nat) (dp : nat) (off : Z) : M Fs.fss bool :=
  match fuel with
  | O => spin
  | S fuel =>
      d ← Fs.iget_at dp;
      if bool_decide (off < Fs.size (Fs.di d)) then
        r ← Fs.readi dev_read dp off Fs.DIRENT;
        if bool_decide (r.1 ≠ Fs.DIRENT) then panic "isdirempty: readi" else
        if bool_decide (Fs.de_inum r.2 ≠ 0) then mret false
        else isdirempty_loop fuel dp (off + Fs.DIRENT)
      else mret true
  end.

Definition isdirempty (dp : nat) : M Fs.fss bool :=
  d ← Fs.iget_at dp;
  isdirempty_loop (S (Z.to_nat (Fs.size (Fs.di d) / Fs.DIRENT + 1))) dp (2 * Fs.DIRENT).

Definition DOT : Z := 46.

(** [sys_unlink] of the entry of [ip] at [off], with both inodes locked. *)
Definition unlink_entry (dp ip : nat) (off : Z) : M Fs.fss Z :=
  i ← Fs.iget_at ip;
  w ← Fs.writei dev_write dp (replicate (Z.to_nat Fs.DIRENT) 0) off;
  if bool_decide (w ≠ Fs.DIRENT) then panic "unlink: writei" else
  (if bool_decide (Fs.type (Fs.di i) = Fs.T_DIR) then add_nlink dp (-1) else mret tt) ;;
  Fs.iunlockput dp ;;
  add_nlink ip (-1) ;;
  Fs.iunlockput ip ;;
  mret 0.

Definition unlink_fs (cw : nat) (path : list Z) : M Fs.fss Z :=
  r ← Fs.nameiparent dev_read cw path;
  match r with
  | None => mret (-1)
  | Some (dp, name) =>
      Fs.ilock dp ;;
      if bool_decide (Fs.namecmp name [DOT] = 0) || bool_decide (Fs.namecmp name [DOT; DOT] = 0)
      then Fs.iunlockput dp ;; mret (-1) else
      l ← Fs.dirlookup dev_read dp name;
      match l with
      | None => Fs.iunlockput dp ;; mret (-1)
      | Some (ip, off) =>
          Fs.ilock ip ;;
          i ← Fs.iget_at ip;
          if bool_decide (Fs.nlink (Fs.di i) < 1) then panic "unlink: nlink < 1" else
          e ← (if bool_decide (Fs.type (Fs.di i) = Fs.T_DIR) then isdirempty ip else mret true);
          if negb e then Fs.iunlockput ip ;; Fs.iunlockput dp ;; mret (-1)
          else unlink_entry dp ip off
      end
  end.

Definition sys_unlink : M kst Z :=
  path ← argstr 0;
  match path with
  | None => mret (-1)
  | Some path =>
      x ← proc_at me;
      begin_op ;;
      r ← in_fs (unlink_fs (cwd x) path);
      end_op ;;
      mret r
  end.

(** *** New files *)

Definition set_dev (mj mn : Z) (x : Fs.dinode) : Fs.dinode :=
  Fs.Dinode (Fs.type x) mj mn 1 (Fs.size x) (Fs.addrs x).

(** [create] of an inode in the locked directory [dp]. *)
Definition create_new (dp : nat) (name : list Z) (ty mj mn : Z) : M Fs.fss nat :=
  d ← Fs.iget_at dp;
  ip ← Fs.ialloc (Fs.idev d) ty;
  Fs.ilock ip ;;
  Fs.iset ip (λ i, Fs.set_di (set_dev mj mn (Fs.di i)) i) ;;
  Fs.iupdate ip ;;
  i ← Fs.iget_at ip;
  (if bool_decide (ty = Fs.T_DIR) then
     add_nlink dp 1 ;;
     a ← Fs.dirlink dev_read dev_write ip [DOT] (Fs.inum i);
     if bool_decide (a < 0) then panic "create dots" else
     b ← Fs.dirlink dev_read dev_write ip [DOT; DOT] (Fs.inum d);
     if bool_decide (b < 0) then panic "create dots" else mret tt
   else mret tt) ;;
  l ← Fs.dirlink dev_read dev_write dp name (Fs.inum i);
  if bool_decide (l < 0) then panic "create: dirlink" else
  Fs.iunlockput dp ;;
  mret ip.

Definition create (cw : nat) (path : list Z) (ty mj mn : Z) : M Fs.fss (option nat) :=
  r ← Fs.nameiparent dev_read cw path;
  match r with
  | None => mret None
  | Some (dp, name) =>
      Fs.ilock dp ;;
      l ← Fs.dirlookup dev_read dp name;
      match l with
      | Some (ip, _) =>
          Fs.iunlockput dp ;;
          Fs.ilock ip ;;
          i ← Fs.iget_at ip;
          if bool_decide (ty = Fs.T_FILE) && bool_decide (Fs.type (Fs.di i) = Fs.T_FILE)
          then mret (Some ip)
          else Fs.iunlockput ip ;; mret None
      | None => ip ← create_new dp name ty mj mn; mret (Some ip)
      end
  end.

(** The inode of [sys_open], locked. *)
Definition open_inode (cw : nat) (path : list Z) (omode : Z) : M Fs.fss (option nat) :=
  if bool_decide (Z.land omode O_CREATE ≠ 0) then create cw path Fs.T_FILE 0 0 else
  r ← Fs.namei dev_read cw path;
  match r with
  | None => mret None
  | Some ip =>
      Fs.ilock ip ;;
      i ← Fs.iget_at ip;
      if bool_decide (Fs.type (Fs.di i) = Fs.T_DIR) && bool_decide (omode ≠ 0)
      then Fs.iunlockput ip ;; mret None else mret (Some ip)
  end.

Definition open_file (ip : nat) (omode : Z) (f : file) : file :=
  Mkfile FD_INODE (fref f) (bool_decide (Z.land omode O_WRONLY = 0))
    (bool_decide (Z.land omode O_WRONLY ≠ 0) || bool_decide (Z.land omode O_RDWR ≠ 0)) (fpipe f) ip 0.

Definition sys_open : M kst Z :=
  path ← argstr 0;
  match path with
  | None => mret (-1)
  | Some path =>
      om ← argint 1;
      match om with
      | None => mret (-1)
      | Some omode =>
          x ← proc_at me;
          begin_op ;;
          r ← in_fs (open_inode (cwd x) path omode);
          match r with
          | None => end_op ;; mret (-1)
          | Some ip =>
              f ← filealloc;
              match f with
              | None => in_fs (Fs.iunlockput ip) ;; end_op ;; mret (-1)
              | Some f =>
                  fd ← fdalloc f;
                  match fd with
                  | None => fileclose f ;; in_fs (Fs.iunlockput ip) ;; end_op ;; mret (-1)
                  | Some fd =>
                      in_fs (Fs.iunlock ip) ;;
                      end_op ;;
                      upd_file f (open_file ip omode) ;;
                      mret (Z.of_nat fd)
                  end
              end
          end
      end
  end.

(** [create] in a transaction of its own, for [sys_mkdir] and [sys_mknod]. *)
Definition create_call (path : list Z) (ty mj mn : Z) : M kst Z :=
  x ← proc_at me;
  r ← in_fs (create (cwd x) path ty mj mn);
  match r with
  | None => end_op ;; mret (-1)
  | Some ip => in_fs (Fs.iunlockput ip) ;; end_op ;; mret 0
  end.

Definition sys_mkdir : M kst Z :=
  begin_op ;;
  path ← argstr 0;
  match path with
  | None => end_op ;; mret (-1)
  | Some path => create_call path Fs.T_DIR 0 0
  end.

Definition sys_mknod : M kst Z :=
  begin_op ;;
  path ← argstr 0;
  match path with
  | None => end_op ;; mret (-1)
  | Some path =>
      mj ← argint 1;
      match mj with
      | None => end_op ;; mret (-1)
      | Some mj =>
          mn ← argint 2;
          match mn with
          | None => end_op ;; mret (-1)
          | Some mn => create_call path Fs.T_DEV (Fs.s16 mj) (Fs.s16 mn)
          end
      end
  end.

Definition sys_chdir : M kst Z :=
  x ← proc_at me;
  begin_op ;;
  path ← argstr 0;
  match path with
  | None => end_op ;; mret (-1)
  | Some path =>
      r ← in_fs (Fs.namei dev_read (cwd x) path);
      match r with
      | None => end_op ;; mret (-1)
      | Some ip =>
          in_fs (Fs.ilock ip) ;;
          i ← in_fs (Fs.iget_at ip);
          if bool_decide (Fs.type (Fs.di i) ≠ Fs.T_DIR)
          then in_fs (Fs.iunlockput ip) ;; end_op ;; mret (-1) else
          in_fs (Fs.iunlock ip) ;;
          in_fs (Fs.iput (cwd x)) ;;
          end_op ;;
          upd_proc me (set_cwd ip) ;;
          mret 0
      end
  end.

(** The loop of [sys_exec]: the strings of [argv]. *)
Fixpoint exec_args (n : nat) (u : Syscall.user) (uargv : Z) (i : Z) : option (list (list Z)) :=
  match n with
  | O => None
  | S n =>
      uarg ← Syscall.fetchint (u32 (uargv + 4 * i)) u;
      if bool_decide (uarg = 0) then Some [] else
      x ← Syscall.fetchstr (u32 uarg) u;
      cons (bytes_at u x.1 (Z.to_nat x.2)) <$> exec_args n u uargv (i + 1)
  end.

(** [exec] is a parameter. *)
Definition sys_exec (exec : list Z → list (list Z) → M kst Z) : M kst Z :=
  path ← argstr 0;
  match path with
  | None => mret (-1)
  | Some path =>
      a ← argint 1;
      match a with
      | None => mret (-1)
      | Some uargv =>
          k ← get;
          match exec_args MAXARG (um k) (u32 uargv) 0 with
          | None => mret (-1)
          | Some argv => exec path argv
          end
      end
  end.

Definition sys_pipe (page : option (list Z)) : M kst Z :=
  p ← argptr 0 8;
  match p with
  | None => mret (-1)
  | Some p =>
      a ← pipealloc page;
      match a with
      | None => mret (-1)
      | Some (rf, wf) =>
          fd0 ← fdalloc rf;
          match fd0 with
          | None => fileclose rf ;; fileclose wf ;; mret (-1)
          | Some fd0 =>
              fd1 ← fdalloc wf;
              match fd1 with
              | None =>
                  upd_proc me (set_ofile fd0 None) ;; fileclose rf ;; fileclose wf ;; mret (-1)
              | Some fd1 =>
                  copy_out p (le 4 (Z.of_nat fd0) ++ le 4 (Z.of_nat fd1)) ;; mret 0
              end
          end
      end
  end.

End Calls.

End Sysfile.
