(* ===== verification/FileRefs.v ===== *)
(** * Reference counts of open files

    What [src/file.c] and [src/sysfile.c] keep about the table of open files: the
    count of a file is the number of descriptors that refer to it, a file in use
    has a type, and the two ends of a pipe belong to one file each.  A call that
    holds a file outside the descriptors, or has set a descriptor before it
    counts it, is between two states of the invariant: [h] is the difference
    and [U] are the files that have no type yet. *)

From S2P Require Import Prelude Log Pipe Fs Syscall File Sysfile.

Module FileRefs.
Import File Sysfile.

(** ** The invariant *)

Definition one (o : option nat) (f : nat) : nat := if decide (o = Some f) then 1%nat else 0%nat.
Definition nrefs (f : nat) (ps : list fproc) : nat :=
  sum_list_with (λ x, sum_list_with (λ o, one o f) (ofile x)) ps.

(** File [f] is the end of pipe [p]: the write end when [w]. *)
Definition end_of (ft : list file) (p : nat) (w : bool) (f : nat) : Prop :=
  ∃ x, ft !! f = Some x ∧ ftyp x = FD_PIPE ∧ fpipe x = p ∧ writable x = w.

Definition is_open (w : bool) (x : pipe) : Prop := (if w then writeopen x else readopen x) ≠ 0.

(** The ends of pipes: an end that is open belongs to one file, and a pipe has an
    open end. *)
Record ends_ok (ft : list file) (pp : gmap nat pipe) : Prop := {
  eo_end : ∀ p w f, end_of ft p w f → ∃ x, pp !! p = Some x ∧ is_open w x;
  eo_uniq : ∀ p w f g, end_of ft p w f → end_of ft p w g → f = g;
  eo_pipe : ∀ p x w, pp !! p = Some x → is_open w x → ∃ f, end_of ft p w f;
  eo_live : ∀ p x, pp !! p = Some x → ∃ w, is_open w x;
}.

Record counts (U : list nat) (h : nat → Z) (ft : list file) (ps : list fproc) : Prop := {
  fi_ref : ∀ f x, ft !! f = Some x → fref x = Z.of_nat (nrefs f ps) + h f;
  fi_slot : ∀ f, (0 < nrefs f ps)%nat → is_Some (ft !! f);
  fi_nonneg : ∀ f x, ft !! f = Some x → 0 ≤ fref x;
  fi_free : ∀ f x, ft !! f = Some x → fref x = 0 → ftyp x = FD_NONE;
  fi_used : ∀ f x, ft !! f = Some x → 0 < fref x → f ∉ U → ftyp x ≠ FD_NONE;
  fi_ofile : ∀ p x, ps !! p = Some x → length (ofile x) = NOFILE;
}.

Record finv (U : list nat) (h : nat → Z) (ft : list file) (ps : list fproc) (pp : gmap nat pipe) : Prop := {
  fi_counts : counts U h ft ps;
  fi_ends : ends_ok ft pp;
}.

Definition files_ok (k : kst) : Prop := finv [] (λ _, 0) (ftable k) (procs k) (pipes k).

(** *** Sums *)

Lemma sum_with_insert {A} (g : A → nat) (l : list A) i x y :
  l !! i = Some x → (sum_list_with g (<[i := y]> l) + g x = sum_list_with g l + g y)%nat.
Proof.
  revert i. induction l as [|a l IH]; intros [|i] Hi; simpl in *; try done.
  - injection Hi as ->. lia.
  - specialize (IH i Hi). lia.
Qed.

Lemma sum_lookup {A} (g : A → nat) (l : list A) i x : l !! i = Some x → (g x ≤ sum_list_with g l)%nat.
Proof.
  revert i. induction l as [|a l IH]; intros [|i] Hi; simpl in *; try done.
  - injection Hi as ->. lia.
  - specialize (IH i Hi). lia.
Qed.

Lemma one_eq f : one (Some f) f = 1%nat.
Proof. unfold one. by rewrite decide_True. Qed.

Lemma one_ne o f : o ≠ Some f → one o f = 0%nat.
Proof. intros. unfold one. by rewrite decide_False. Qed.

Lemma one_None f : one None f = 0%nat.
Proof. by apply one_ne. Qed.

Lemma one_split o f : (o = Some f ∧ one o f = 1%nat) ∨ (o ≠ Some f ∧ one o f = 0%nat).
Proof. unfold one. destruct (decide (o = Some f)); auto. Qed.

(** The counts after one descriptor changed. *)
Lemma nrefs_set f ps p x fd o o' :
  ps !! p = Some x → ofile x !! fd = Some o →
  (nrefs f (<[p := set_ofile fd o' x]> ps) + one o f = nrefs f ps + one o' f)%nat.
Proof.
  intros Hp Hfd. unfold nrefs.
  pose proof (sum_with_insert (λ x, sum_list_with (λ o, one o f) (ofile x)) ps p x (set_ofile fd o' x) Hp) as H1.
  pose proof (sum_with_insert (λ o, one o f) (ofile x) fd o o' Hfd) as H2.
  cbn beta in H1. cbn [ofile set_ofile] in H1. lia.
Qed.

Lemma nrefs_lookup f ps p x fd :
  ps !! p = Some x → ofile x !! fd = Some (Some f) → (0 < nrefs f ps)%nat.
Proof.
  intros Hp Hfd. unfold nrefs.
  pose proof (sum_lookup (λ x, sum_list_with (λ o, one o f) (ofile x)) ps p x Hp).
  pose proof (sum_lookup (λ o, one o f) (ofile x) fd _ Hfd). cbn beta in *. rewrite one_eq in *. lia.
Qed.

Lemma nrefs_cwd f ps p ip : nrefs f (upd p (set_cwd ip) ps) = nrefs f ps.
Proof.
  destruct (ps !! p) as [x|] eqn:Hp.
  - rewrite (upd_insert _ _ _ _ Hp). unfold nrefs.
    pose proof (sum_with_insert (λ x, sum_list_with (λ o, one o f) (ofile x)) ps p x (set_cwd ip x) Hp) as H.
    cbn beta in H. cbn [ofile set_cwd] in H. lia.
  - f_equal. unfold upd. apply list_eq. intros j. destruct (decide (p = j)) as [<-|Hne].
    + by rewrite list_lookup_alter_eq, Hp.
    + by rewrite list_lookup_alter_ne.
Qed.

(** *** Ends of pipes *)

Lemma end_of_insert ft f x y p w g :
  ft !! f = Some x → end_of (<[f := y]> ft) p w g ↔
  (g = f ∧ ftyp y = FD_PIPE ∧ fpipe y = p ∧ writable y = w) ∨ (g ≠ f ∧ end_of ft p w g).
Proof.
  intros Hf. unfold end_of. pose proof (lookup_lt_Some _ _ _ Hf) as Hlt. destruct (decide (g = f)) as [->|Hne].
  - rewrite list_lookup_insert_eq by done. naive_solver.
  - rewrite list_lookup_insert_ne by done. naive_solver.
Qed.

(** An entry that is no end, before and after, and one that is the same end. *)
Lemma ends_ok_none ft pp f x y :
  ends_ok ft pp → ft !! f = Some x → ftyp x ≠ FD_PIPE → ftyp y ≠ FD_PIPE → ends_ok (<[f := y]> ft) pp.
Proof.
  intros [He Hu Hp Hl] Hf Hx Hy.
  assert (E : ∀ p w g, end_of (<[f := y]> ft) p w g ↔ end_of ft p w g).
  { intros p w g. rewrite (end_of_insert _ _ _ _ _ _ _ Hf). split; [naive_solver|]. intros Hg. right. split; [|done].
    intros ->. destruct Hg as (z & Hz & Htz & _). congruence. }
  split; [|intros p w g g'; rewrite !E; eauto| |done].
  - intros p w g. rewrite E. eauto.
  - intros p z w Hz Ho. destruct (Hp p z w Hz Ho) as [g Hg]. exists g. by apply E.
Qed.

Lemma ends_ok_same ft pp f x y :
  ends_ok ft pp → ft !! f = Some x → ftyp y = ftyp x → fpipe y = fpipe x → writable y = writable x →
  ends_ok (<[f := y]> ft) pp.
Proof.
  intros [He Hu Hp Hl] Hf Ht Hpi Hw.
  assert (E : ∀ p w g, end_of (<[f := y]> ft) p w g ↔ end_of ft p w g).
  { intros p w g. rewrite (end_of_insert _ _ _ _ _ _ _ Hf), Ht, Hpi, Hw. unfold end_of.
    destruct (decide (g = f)) as [->|]; [rewrite Hf|]; naive_solver. }
  split; [|intros p w g g'; rewrite !E; eauto| |done].
  - intros p w g. rewrite E. eauto.
  - intros p z w Hz Ho. destruct (Hp p z w Hz Ho) as [g Hg]. exists g. by apply E.
Qed.

Lemma ends_ok_pipes ft pp p x y :
  ends_ok ft pp → pp !! p = Some x → readopen y = readopen x → writeopen y = writeopen x →
  ends_ok ft (<[p := y]> pp).
Proof.
  intros [He Hu Hp Hl] Hx Hr Hw.
  assert (E : ∀ w, is_open w y ↔ is_open w x) by (intros w; unfold is_open; by rewrite Hr, Hw).
  split; [|done| |].
  - intros q w f Hf. destruct (He q w f Hf) as (z & Hz & Ho). destruct (decide (q = p)) as [->|Hne].
    + rewrite Hx in Hz. injection Hz as <-. exists y. by rewrite lookup_insert_eq, E.
    + exists z. by rewrite lookup_insert_ne.
  - intros q z w Hz Ho. apply lookup_insert_Some in Hz as [[<- <-]|[_ Hz]]; [|eauto]. apply E in Ho. eauto.
  - intros q z Hz. apply lookup_insert_Some in Hz as [[<- <-]|[_ Hz]]; [|eauto].
    destruct (Hl p x Hx) as [w Ho]. exists w. by apply E.
Qed.

Lemma pipeclose_open w0 z w : is_open w (pipeclose w0 z).1.1 ↔ w ≠ w0 ∧ is_open w z.
Proof. unfold is_open. destruct w0, w; simpl; naive_solver lia. Qed.

Lemma pipeclose_freed w0 z : (pipeclose w0 z).2 = false ↔ ∃ w, is_open w (pipeclose w0 z).1.1.
Proof.
  unfold pipeclose. cbn [fst snd]. set (z' := if w0 then _ else _). unfold is_open. rewrite andb_false_iff, !bool_decide_eq_false.
  split; [intros [?|?]; [by exists false|by exists true]|]. intros [[] ?]; auto.
Qed.

(** The pipes after one end is closed. *)
Definition close_end (p : nat) (w : bool) (z : pipe) (pp : gmap nat pipe) : gmap nat pipe :=
  if (pipeclose w z).2 then delete p pp else <[p := (pipeclose w z).1.1]> pp.

Lemma lookup_close_end p w z pp q y :
  close_end p w z pp !! q = Some y ↔
  (q = p ∧ y = (pipeclose w z).1.1 ∧ ∃ w', is_open w' y) ∨ (q ≠ p ∧ pp !! q = Some y).
Proof.
  unfold close_end. pose proof (pipeclose_freed w z) as Hfr. destruct (_.2).
  - rewrite lookup_delete_Some. split; [naive_solver|]. intros [(-> & -> & Ho)|?]; [|naive_solver].
    by apply Hfr in Ho.
  - rewrite lookup_insert_Some. split; [|naive_solver]. intros [[<- <-]|?]; [left|naive_solver].
    split_and!; [done|done|by apply Hfr].
Qed.

Lemma ends_ok_close ft pp f x z y :
  ends_ok ft pp → ft !! f = Some x → ftyp x = FD_PIPE → pp !! fpipe x = Some z → ftyp y ≠ FD_PIPE →
  ends_ok (<[f := y]> ft) (close_end (fpipe x) (writable x) z pp).
Proof.
  intros [He Hu Hp Hl] Hf Ht Hz Hy. set (w0 := writable x). set (p0 := fpipe x) in *.
  assert (Hend : end_of ft p0 w0 f) by by exists x.
  assert (Hfe : ∀ p w, end_of ft p w f → p = p0 ∧ w = w0).
  { intros p w (x' & Hx' & _ & <- & <-). rewrite Hf in Hx'. by injection Hx' as <-. }
  assert (E : ∀ p w g, end_of (<[f := y]> ft) p w g ↔ g ≠ f ∧ end_of ft p w g).
  { intros p w g. rewrite (end_of_insert _ _ _ _ _ _ _ Hf). naive_solver. }
  split.
  - intros p w g [Hgf Hg]%E. destruct (He p w g Hg) as (z1 & Hz1 & Ho).
    destruct (decide (p = p0)) as [->|Hpne]; [|exists z1; rewrite lookup_close_end; auto].
    rewrite Hz in Hz1. injection Hz1 as <-.
    assert (is_open w (pipeclose w0 z).1.1).
    { apply pipeclose_open. split; [|done]. intros ->. destruct Hgf. by eapply Hu. }
    exists (pipeclose w0 z).1.1. rewrite lookup_close_end. eauto 10.
  - intros p w g g' [_ ?]%E [_ ?]%E. by eapply Hu.
  - intros p z1 w Hz1 Ho. apply lookup_close_end in Hz1 as [(-> & -> & _)|[Hpne Hz1]].
    + apply pipeclose_open in Ho as [Hw Ho]. destruct (Hp p0 z w Hz Ho) as [g Hg]. exists g. apply E.
      split; [|done]. intros ->. by destruct (Hfe _ _ Hg).
    + destruct (Hp p z1 w Hz1 Ho) as [g Hg]. exists g. apply E. split; [|done]. intros ->. by destruct (Hfe _ _ Hg).
  - intros p z1 Hz1. apply lookup_close_end in Hz1 as [(-> & -> & Ho)|[Hpne Hz1]]; eauto.
Qed.

Lemma ends_ok_new ft pp f0 f1 x0 x1 p z y0 y1 :
  ends_ok ft pp → ft !! f0 = Some x0 → ft !! f1 = Some x1 → f0 ≠ f1 → ftyp x0 ≠ FD_PIPE → ftyp x1 ≠ FD_PIPE →
  pp !! p = None → (∀ w, is_open w z) →
  ftyp y0 = FD_PIPE ∧ fpipe y0 = p ∧ writable y0 = false → ftyp y1 = FD_PIPE ∧ fpipe y1 = p ∧ writable y1 = true →
  ends_ok (<[f1 := y1]> (<[f0 := y0]> ft)) (<[p := z]> pp).
Proof.
  intros [He Hu Hp Hl] H0 H1 Hne Ht0 Ht1 Hnew Hz (Hy0 & Hp0 & Hw0) (Hy1 & Hp1 & Hw1).
  assert (E : ∀ q w g, end_of (<[f1 := y1]> (<[f0 := y0]> ft)) q w g ↔ (q = p ∧ g = if w then f1 else f0) ∨ (q ≠ p ∧ end_of ft q w g)).
  { intros q w g. rewrite (end_of_insert _ f1 x1) by by rewrite list_lookup_insert_ne.
    rewrite (end_of_insert _ f0 x0) by done. rewrite Hy0, Hp0, Hw0, Hy1, Hp1, Hw1. split.
    - intros [(-> & _ & <- & <-)|[Hg1 [(-> & _ & <- & <-)|[Hg0 Hg]]]]; [by left|by left|right].
      split; [|done]. intros ->. destruct (He _ _ _ Hg) as (? & ? & _). congruence.
    - intros [[-> ->]|[Hq Hg]]; [destruct w; naive_solver|]. right.
      destruct Hg as (y & Hy & Hty & Hg). split; [by intros ->; congruence|]. right. split; [by intros ->; congruence|]. by exists y. }
  split.
  - intros q w g [[-> ->]|[Hq Hg]]%E; [exists z; by rewrite lookup_insert_eq|]. rewrite lookup_insert_ne by done. eauto.
  - intros q w g g' [[-> ->]|[Hq Hg]]%E [[Hq' ->]|[Hq' Hg']]%E; try done. by eapply Hu.
  - intros q y w Hy Ho. apply lookup_insert_Some in Hy as [[<- <-]|[Hq Hy]]; [exists (if w then f1 else f0); apply E; auto|].
    destruct (Hp q y w Hy Ho) as [g Hg]. exists g. apply E. auto.
  - intros q y Hy. apply lookup_insert_Some in Hy as [[<- <-]|[Hq Hy]]; [by exists true|eauto].
Qed.

(** *** Changes of one file or one descriptor *)

Section Changes.

Context (U : list nat) (h : nat → Z) (ft : list file) (ps : list fproc).
Context (Hi : counts U h ft ps).

Lemma counts_ext U' h' : (∀ f, h' f = h f) → (∀ f, f ∈ U → f ∈ U') → counts U' h' ft ps.
Proof.
  intros Eh EU. destruct Hi. split; try done.
  - intros f x Hf. rewrite Eh. eauto.
  - intros f x Hf Hr Hnu. apply (fi_used0 f x Hf Hr). auto.
Qed.

(** A file leaves [U] when it is not in use. *)
Lemma counts_drop f x U' :
  ft !! f = Some x → fref x = 0 → (∀ g, g ∈ U → g = f ∨ g ∈ U') → counts U' h ft ps.
Proof.
  intros Hf Hx HU. destruct Hi. split; try done. intros g y Hg Hr Hnu Ht.
  destruct (decide (g = f)) as [->|Hne]; [rewrite Hf in Hg; injection Hg as ->; lia|].
  apply (fi_used0 g y Hg Hr); [|done]. intros HgU. by destruct (HU g HgU).
Qed.

Lemma counts_update f x y U' h' :
  ft !! f = Some x → 0 ≤ fref y → (fref y = 0 → ftyp y = FD_NONE) → (0 < fref y → f ∉ U' → ftyp y ≠ FD_NONE) →
  (∀ g, h' g = h g + (fref y - fref x) * Z.of_nat (one (Some f) g)) → (∀ g, g ∈ U → g = f ∨ g ∈ U') →
  counts U' h' (<[f := y]> ft) ps.
Proof.
  intros Hf H0 Hn Ht Hh HU. pose proof (lookup_lt_Some _ _ _ Hf) as Hlt. destruct Hi. split; try done.
  - intros g z Hg. rewrite Hh. apply list_lookup_insert_Some in Hg as [(<- & <- & _)|[Hne Hg]].
    + rewrite one_eq. specialize (fi_ref0 _ _ Hf). lia.
    + rewrite one_ne by congruence. specialize (fi_ref0 _ _ Hg). lia.
  - intros g Hg. apply lookup_lt_is_Some. rewrite length_insert. by apply lookup_lt_is_Some, fi_slot0.
  - intros g z Hg. apply list_lookup_insert_Some in Hg as [(<- & <- & _)|[Hne Hg]]; eauto.
  - intros g z Hg. apply list_lookup_insert_Some in Hg as [(<- & <- & _)|[Hne Hg]]; eauto.
  - intros g z Hg Hr HgU. apply list_lookup_insert_Some in Hg as [(<- & <- & _)|[Hne Hg]]; [auto|].
    apply (fi_used0 g z Hg Hr). intros HgU'. destruct (HU g HgU'); congruence.
Qed.

(** A descriptor changes. *)
Lemma counts_slot p x fd o o' h' :
  ps !! p = Some x → ofile x !! fd = Some o → (∀ f, o' = Some f → is_Some (ft !! f)) →
  (∀ g, h' g = h g + Z.of_nat (one o g) - Z.of_nat (one o' g)) →
  counts U h' ft (<[p := set_ofile fd o' x]> ps).
Proof.
  intros Hp Hfd Ho' Hh. pose proof (λ f, nrefs_set f ps p x fd o o' Hp Hfd) as Hn. destruct Hi. split; try done.
  - intros g y Hg. rewrite Hh. specialize (fi_ref0 _ _ Hg). specialize (Hn g). lia.
  - intros g Hg. destruct (one_split o' g) as [[-> _]|[_ E]]; [by apply Ho'|]. apply fi_slot0.
    specialize (Hn g). lia.
  - intros q y Hq. apply list_lookup_insert_Some in Hq as [(<- & <- & _)|[Hne Hq]]; [|eauto].
    cbn [ofile set_ofile]. rewrite length_insert. eauto.
Qed.

Lemma counts_cwd p ip : counts U h ft (upd p (set_cwd ip) ps).
Proof.
  destruct Hi. split; try done.
  - intros f x. rewrite nrefs_cwd. eauto.
  - intros f. rewrite nrefs_cwd. eauto.
  - intros q x Hq. apply lookup_upd_Some in Hq as [(<- & y & Hy & ->)|[_ Hq]]; [apply (fi_ofile0 _ _ Hy)|eauto].
Qed.


End Changes.

(** The same for the whole invariant. *)
Section Whole.

Context (U : list nat) (h : nat → Z) (ft : list file) (ps : list fproc) (pp : gmap nat pipe).
Context (Hi : finv U h ft ps pp).

Lemma finv_ext U' h' : (∀ f, h' f = h f) → (∀ f, f ∈ U → f ∈ U') → finv U' h' ft ps pp.
Proof. destruct Hi. intros. split; [by eapply counts_ext|done]. Qed.

Lemma finv_drop f x U' :
  ft !! f = Some x → fref x = 0 → (∀ g, g ∈ U → g = f ∨ g ∈ U') → finv U' h ft ps pp.
Proof. destruct Hi. intros. split; [by eapply counts_drop|done]. Qed.

Lemma finv_update f x y U' h' pp' :
  ft !! f = Some x → 0 ≤ fref y → (fref y = 0 → ftyp y = FD_NONE) → (0 < fref y → f ∉ U' → ftyp y ≠ FD_NONE) →
  (∀ g, h' g = h g + (fref y - fref x) * Z.of_nat (one (Some f) g)) → (∀ g, g ∈ U → g = f ∨ g ∈ U') →
  ends_ok (<[f := y]> ft) pp' → finv U' h' (<[f := y]> ft) ps pp'.
Proof. destruct Hi. intros. split; [by eapply counts_update|done]. Qed.

Lemma finv_slot p x fd o o' h' :
  ps !! p = Some x → ofile x !! fd = Some o → (∀ f, o' = Some f → is_Some (ft !! f)) →
  (∀ g, h' g = h g + Z.of_nat (one o g) - Z.of_nat (one o' g)) →
  finv U h' ft (<[p := set_ofile fd o' x]> ps) pp.
Proof. destruct Hi. intros. split; [by eapply counts_slot|done]. Qed.

Lemma finv_cwd p ip : finv U h ft (upd p (set_cwd ip) ps) pp.
Proof. destruct Hi. split; [by apply counts_cwd|done]. Qed.

(** Two new files become the ends of a new pipe. *)
Lemma finv_pipe f0 f1 x0 x1 p page U' :
  ft !! f0 = Some x0 → ft !! f1 = Some x1 → f0 ≠ f1 → ftyp x0 = FD_NONE → ftyp x1 = FD_NONE →
  0 < fref x0 → 0 < fref x1 → pp !! p = None → (∀ g, g ∈ U → g = f0 ∨ g = f1 ∨ g ∈ U') →
  finv U' h (<[f1 := set_pipe_end p true x1]> (<[f0 := set_pipe_end p false x0]> ft)) ps (<[p := pipe_init page]> pp).
Proof.
  intros H0 H1 Hne Ht0 Ht1 Hr0 Hr1 Hp HU. destruct Hi as [Hc He]. split.
  - eapply (counts_update (f1 :: U') h).
    + eapply (counts_update _ _ _ _ Hc f0 x0 _ (f1 :: U') h); try done; simpl; [lia|lia|lia|].
      intros g Hg. destruct (HU g Hg) as [?|[->|?]]; [by left|right; by left|right; by right].
    + by rewrite list_lookup_insert_ne.
    + simpl. lia.
    + simpl. lia.
    + done.
    + simpl. lia.
    + intros g [->|Hg]%elem_of_cons; auto.
  - eapply ends_ok_new; try done; [congruence|congruence|]. by intros [].
Qed.

End Whole.

End FileRefs.
