(* ===== verification/FileSafe.v ===== *)
(** * The calls keep the reference counts

    Every call of [src/sysfile.c], and the loops of [fork] and [exit] over the
    descriptors, from a state in which the counts of [FileRefs] are right: the
    counts are right afterwards, and the call does not run into the panics of
    [src/file.c] or use a file, a pipe or a process that is not there. *)

From S2P Require Import Prelude Log Pipe Fs Syscall File Sysfile FileRefs.

Module FileSafe.
Import File Sysfile FileRefs.

(** The panics of [file.c] and the bad pointers of [File]. *)
Definition file_faults : list string :=
  ["filedup"; "fileclose"; "fileread"; "filewrite"; "file pointer"; "pipe pointer"; "proc pointer"].

Definition fault {S A} (o : outcome S A) : option string :=
  match o with Panic e _ | Undef e _ => Some e | _ => None end.

(** ** Code without such a fault *)

Definition quiet {S A} (m : M S A) : Prop := ∀ s e, fault (m s) = Some e → e ∉ file_faults.

Create HintDb quiet.

Lemma quiet_ret {S A} (a : A) : quiet (S := S) (mret a).
Proof. done. Qed.

Lemma quiet_get {S} : quiet (S := S) get.
Proof. done. Qed.

Lemma quiet_gets {S A} (f : S → A) : quiet (gets f).
Proof. done. Qed.

Lemma quiet_modify {S} (f : S → S) : quiet (modify f).
Proof. done. Qed.

Lemma quiet_spin {S A} : quiet (S := S) (A := A) spin.
Proof. done. Qed.

Lemma quiet_panic {S A} e : bool_decide (e ∉ file_faults) = true → quiet (S := S) (A := A) (panic e).
Proof. intros He%bool_decide_eq_true_1 s e' [= <-]. done. Qed.

Lemma quiet_bind {S A B} (m : M S A) (f : A → M S B) : quiet m → (∀ a, quiet (f a)) → quiet (m ≫= f).
Proof.
  intros Hm Hf s e. unfold mbind, M_bind. specialize (Hm s). destruct (m s); simpl in *; try by auto. apply Hf.
Qed.

Lemma quiet_for {S} i n (body : nat → M S unit) : (∀ j, quiet (body j)) → quiet (for_range i n body).
Proof. intros Hb. revert i. induction n as [|n IH]; intros i; [done|]. simpl. apply quiet_bind; auto. Qed.

#[export] Hint Resolve quiet_ret quiet_get quiet_gets quiet_modify quiet_spin : quiet.
#[export] Hint Extern 1 (quiet (panic _)) => apply quiet_panic; vm_compute; reflexivity : quiet.

Ltac quiet :=
  repeat lazymatch goal with
  | |- quiet (mbind _ _) => apply quiet_bind; [|intros ?]
  | |- quiet (if _ then _ else _) => case_match
  | |- quiet (match ?x with _ => _ end) => destruct x eqn:?
  | |- quiet (for_range _ _ _) => apply quiet_for; intros ?
  | |- quiet (let x := _ in _) => cbv zeta
  | |- quiet _ => solve [eauto with quiet]
  end.

(** *** The file system *)

Lemma quiet_iget_at ip : quiet (Fs.iget_at ip).
Proof.
  intros s e. unfold Fs.iget_at. destruct (_ !! _); [done|]. intros [= <-].
  apply (bool_decide_unpack _). vm_compute. exact I.
Qed.
#[export] Hint Resolve quiet_iget_at : quiet.

Lemma quiet_bread b : quiet (Fs.bread b).
Proof. unfold Fs.bread. quiet. Qed.

Lemma quiet_log_write b x : quiet (Fs.log_write b x).
Proof. unfold Fs.log_write. quiet. Qed.

Lemma quiet_iset ip f : quiet (Fs.iset ip f).
Proof. unfold Fs.iset. quiet. Qed.
#[export] Hint Resolve quiet_bread quiet_log_write quiet_iset : quiet.

Lemma quiet_bzero b : quiet (Fs.bzero b).
Proof. unfold Fs.bzero. quiet. Qed.
#[export] Hint Resolve quiet_bzero : quiet.

Lemma quiet_balloc_loop fuel : ∀ b, quiet (Fs.balloc_loop fuel b).
Proof. induction fuel as [|fuel IH]; intros b; cbn [Fs.balloc_loop]; quiet. Qed.
#[export] Hint Resolve quiet_balloc_loop : quiet.

Lemma quiet_balloc : quiet Fs.balloc.
Proof. unfold Fs.balloc. quiet. Qed.

Lemma quiet_bfree b : quiet (Fs.bfree b).
Proof. unfold Fs.bfree. quiet. Qed.
#[export] Hint Resolve quiet_balloc quiet_bfree : quiet.

Lemma quiet_iget dev i : quiet (Fs.iget dev i).
Proof. unfold Fs.iget. quiet. Qed.
#[export] Hint Resolve quiet_iget : quiet.

Lemma quiet_ialloc_loop fuel dev ty : ∀ i, quiet (Fs.ialloc_loop fuel dev ty i).
Proof. induction fuel as [|fuel IH]; intros i; cbn [Fs.ialloc_loop]; quiet. Qed.
#[export] Hint Resolve quiet_ialloc_loop : quiet.

Lemma quiet_ialloc dev ty : quiet (Fs.ialloc dev ty).
Proof. unfold Fs.ialloc. quiet. Qed.

Lemma quiet_iupdate ip : quiet (Fs.iupdate ip).
Proof. unfold Fs.iupdate. quiet. Qed.

Lemma quiet_idup ip : quiet (Fs.idup ip).
Proof. unfold Fs.idup. quiet. Qed.

Lemma quiet_acquire ip : quiet (Fs.acquire_inode ip).
Proof. unfold Fs.acquire_inode. quiet. Qed.

Lemma quiet_release ip : quiet (Fs.release_inode ip).
Proof. unfold Fs.release_inode. quiet. Qed.
#[export] Hint Resolve quiet_ialloc quiet_iupdate quiet_idup quiet_acquire quiet_release : quiet.

Lemma quiet_ilock ip : quiet (Fs.ilock ip).
Proof. unfold Fs.ilock. quiet. Qed.

Lemma quiet_iunlock ip : quiet (Fs.iunlock ip).
Proof. unfold Fs.iunlock. quiet. Qed.

Lemma quiet_bmap ip bn : quiet (Fs.bmap ip bn).
Proof. unfold Fs.bmap. quiet. Qed.

Lemma quiet_itrunc ip : quiet (Fs.itrunc ip).
Proof. unfold Fs.itrunc, Fs.itrunc_direct. quiet. Qed.
#[export] Hint Resolve quiet_ilock quiet_iunlock quiet_bmap quiet_itrunc : quiet.

Lemma quiet_iput ip : quiet (Fs.iput ip).
Proof. unfold Fs.iput. quiet. Qed.

Lemma quiet_stati ip : quiet (Fs.stati ip).
Proof. unfold Fs.stati. quiet. Qed.
#[export] Hint Resolve quiet_iput quiet_stati : quiet.

Lemma quiet_iunlockput ip : quiet (Fs.iunlockput ip).
Proof. unfold Fs.iunlockput. quiet. Qed.
#[export] Hint Resolve quiet_iunlockput : quiet.

(** ** Calls from a state of the invariant

    [wps m Q k]: [m] has none of the faults from [k], and if it returns [Q] holds. *)

Definition wps {S A} (m : M S A) (Q : A → S → Prop) (k : S) : Prop :=
  match m k with Ok a k' => Q a k' | Panic e _ | Undef e _ => e ∉ file_faults | Spin _ => True end.

Lemma wps_ret {S A} (a : A) (Q : A → S → Prop) k : Q a k → wps (mret a) Q k.
Proof. done. Qed.

Lemma wps_bind {S A B} (m : M S A) (f : A → M S B) Q k : wps m (λ a k', wps (f a) Q k') k → wps (m ≫= f) Q k.
Proof. unfold wps, mbind, M_bind. by destruct (m k). Qed.

Lemma wps_mono {S A} (m : M S A) (P Q : A → S → Prop) k : wps m P k → (∀ a k', P a k' → Q a k') → wps m Q k.
Proof. unfold wps. destruct (m k); auto. Qed.

Lemma wps_quiet {S A} (m : M S A) (Q : A → S → Prop) k : quiet m → (∀ a k', m k = Ok a k' → Q a k') → wps m Q k.
Proof. unfold wps, quiet. intros Hm HQ. specialize (Hm k). destruct (m k); simpl in Hm; auto. Qed.

Lemma wps_in_fs {A} (m : M Fs.fss A) (Q : A → kst → Prop) k :
  quiet m → (∀ a s, Q a (set_fs s k)) → wps (in_fs m) Q k.
Proof. unfold wps, quiet, in_fs, zoom. intros Hm HQ. specialize (Hm (fs k)). destruct (m (fs k)); simpl in Hm; auto. Qed.

Lemma wps_for {S} (I : nat → S → Prop) (body : nat → M S unit) i n k :
  I i k → (∀ j k', (i ≤ j < i + n)%nat → I j k' → wps (body j) (λ _ k'', I (Datatypes.S j) k'') k') →
  wps (for_range i n body) (λ _ k', I (i + n)%nat k') k.
Proof.
  revert i k. induction n as [|n IH]; intros i k HI Hb; cbn [for_range].
  - apply wps_ret. by rewrite Nat.add_0_r.
  - apply wps_bind. eapply wps_mono; [apply Hb; [lia|done]|]. intros a k' HI'.
    replace (i + Datatypes.S n)%nat with (Datatypes.S i + n)%nat by lia.
    apply IH; [done|]. intros j k'' Hj. apply Hb. lia.
Qed.

Lemma wps_file_at f x (Q : file → kst → Prop) k : ftable k !! f = Some x → Q x k → wps (file_at f) Q k.
Proof. intros Hf HQ. unfold wps, file_at. by rewrite Hf. Qed.

Lemma wps_proc_at p y (Q : fproc → kst → Prop) k : procs k !! p = Some y → Q y k → wps (proc_at p) Q k.
Proof. intros Hp HQ. unfold wps, proc_at. by rewrite Hp. Qed.

Lemma wps_upd_file f g x (Q : unit → kst → Prop) k :
  ftable k !! f = Some x → Q tt (set_ftable (<[f := g x]> (ftable k)) k) → wps (upd_file f g) Q k.
Proof. intros Hf HQ. unfold wps, upd_file, modify. by rewrite (upd_insert _ _ _ _ Hf). Qed.

Lemma wps_upd_proc p g y (Q : unit → kst → Prop) k :
  procs k !! p = Some y → Q tt (set_procs (<[p := g y]> (procs k)) k) → wps (upd_proc p g) Q k.
Proof. intros Hf HQ. unfold wps, upd_proc, modify. by rewrite (upd_insert _ _ _ _ Hf). Qed.

Lemma wps_get {S} (Q : S → S → Prop) k : Q k k → wps get Q k.
Proof. done. Qed.

Lemma wps_gets {S A} (f : S → A) (Q : A → S → Prop) k : Q (f k) k → wps (gets f) Q k.
Proof. done. Qed.

Lemma wps_modify {S} (f : S → S) (Q : unit → S → Prop) k : Q tt (f k) → wps (modify f) Q k.
Proof. done. Qed.

Lemma wps_begin (Q : unit → kst → Prop) k : (∀ s, Q tt (set_fs s k)) → wps begin_op Q k.
Proof. intros HQ. apply HQ. Qed.

Lemma wps_end (Q : unit → kst → Prop) k : (∀ t, Q tt (set_trans t k)) → wps end_op Q k.
Proof. intros HQ. apply HQ. Qed.

Definition finvk (U : list nat) (h : nat → Z) (k : kst) : Prop := finv U h (ftable k) (procs k) (pipes k).

Definition plus1 (f : nat) (h : nat → Z) (g : nat) : Z := h g + Z.of_nat (one (Some f) g).
Definition minus1 (f : nat) (h : nat → Z) (g : nat) : Z := h g - Z.of_nat (one (Some f) g).

(** *** The operations of [file.c] *)

Lemma filealloc_loop_spec l : ∀ i f,
  filealloc_loop l i = Some f → ∃ x, (i ≤ f)%nat ∧ l !! (f - i)%nat = Some x ∧ fref x = 0.
Proof.
  induction l as [|y l IH]; intros i f; simpl; [done|]. case_bool_decide as Hy.
  - intros [= <-]. exists y. rewrite Nat.sub_diag. auto.
  - intros H. destruct (IH _ _ H) as (x & Hle & Hx & Hr). exists x.
    split_and!; [lia| |done]. by replace (f - i)%nat with (S (f - S i)) by lia.
Qed.

Lemma filealloc_spec U h k :
  finvk U h k →
  wps filealloc (λ r k', match r with
    | None => k' = k
    | Some f => ∃ x, ftable k !! f = Some x ∧ fref x = 0 ∧ ftyp x = FD_NONE ∧
        k' = set_ftable (<[f := set_fref 1 x]> (ftable k)) k ∧ finvk (f :: U) (plus1 f h) k'
    end) k.
Proof.
  intros Hi. unfold filealloc. apply wps_bind, wps_get.
  destruct (filealloc_loop (ftable k) 0) as [f|] eqn:E; [|by apply wps_ret].
  apply filealloc_loop_spec in E as (x & _ & Hx & Hr). rewrite Nat.sub_0_r in Hx.
  apply wps_bind. eapply wps_upd_file; [done|]. apply wps_ret. exists x.
  assert (Ht : ftyp x = FD_NONE) by (by apply (fi_free _ _ _ _ (fi_counts _ _ _ _ _ Hi) f)).
  split_and!; try done. eapply (finv_update _ _ _ _ _ Hi); try done; simpl.
  - intros _ []. by left.
  - intros g. unfold plus1. lia.
  - intros g Hg. right. by right.
  - by eapply ends_ok_same; [apply Hi|..].
Qed.

Lemma filedup_spec U h k f x :
  finvk U h k → ftable k !! f = Some x → 1 ≤ fref x →
  wps (filedup f) (λ r k', r = f ∧ k' = set_ftable (<[f := set_fref (fref x + 1) x]> (ftable k)) k ∧
    finvk U (plus1 f h) k') k.
Proof.
  intros Hi Hf Hr. unfold filedup. apply wps_bind. eapply wps_file_at; [done|].
  rewrite (bool_decide_eq_false_2 (fref x < 1)) by lia.
  apply wps_bind. eapply wps_upd_file; [done|]. apply wps_ret. split_and!; [done|done|].
  eapply (finv_update _ _ _ _ _ Hi); try done; simpl; [lia|lia| | |by auto|by eapply ends_ok_same; [apply Hi|..]].
  - intros _ Hu. apply (fi_used _ _ _ _ (fi_counts _ _ _ _ _ Hi) f x Hf); [lia|done].
  - intros g. unfold plus1. lia.
Qed.

(** What a call of [fileclose] leaves of the table. *)
Definition closed (f : nat) (x : file) (k k' : kst) : Prop :=
  procs k' = procs k ∧ (∃ x', ftable k' !! f = Some x' ∧ fref x' = fref x - 1) ∧
  ∀ g, g ≠ f → ftable k' !! g = ftable k !! g.

Lemma closed_intro f x y k k' :
  ftable k !! f = Some x → ftable k' = <[f := y]> (ftable k) → fref y = fref x - 1 → procs k' = procs k → closed f x k k'.
Proof.
  intros Hf Eft Ey Ep. split_and!; [done| |].
  - exists y. rewrite Eft. split; [|done]. apply list_lookup_insert_eq. by eapply lookup_lt_Some.
  - intros g Hg. by rewrite Eft, list_lookup_insert_ne.
Qed.

(** The end of [fileclose], for the last reference. *)
Lemma close_last U h k f x :
  finvk U h k → ftable k !! f = Some x → fref x = 1 →
  wps (match ftyp x with
       | FD_PIPE => close_pipe (fpipe x) (writable x)
       | FD_INODE => begin_op ;; in_fs (Fs.iput (fip x)) ;; end_op
       | FD_NONE => mret tt
       end) (λ _ k', finvk U (minus1 f h) k' ∧ closed f x k k')
    (set_ftable (<[f := set_ftyp FD_NONE (set_fref 0 x)]> (ftable k)) k).
Proof.
  intros Hi Hf Hr.
  assert (Hfin : ∀ pp', ends_ok (<[f := set_ftyp FD_NONE (set_fref 0 x)]> (ftable k)) pp' →
    finv U (minus1 f h) (<[f := set_ftyp FD_NONE (set_fref 0 x)]> (ftable k)) (procs k) pp').
  { intros pp' He. eapply (finv_update _ _ _ _ _ Hi); try done; simpl; [|by auto]. intros g. unfold minus1. lia. }
  destruct (ftyp x) eqn:Et.
  - apply wps_ret. split; [|eapply closed_intro; try done; simpl; lia].
    apply Hfin. eapply ends_ok_none; [apply Hi|done|congruence|done].
  - destruct (eo_end _ _ (fi_ends _ _ _ _ _ Hi) (fpipe x) (writable x) f) as (z & Hz & _); [by exists x|].
    unfold close_pipe. apply wps_bind, wps_get. cbn [pipes set_ftable]. rewrite Hz.
    destruct (pipeclose _ _) as [[z' w] freed] eqn:Ez.
    apply wps_modify.
    split; [|eapply closed_intro; try done; simpl; lia]. apply Hfin.
    pose proof (ends_ok_close _ _ _ _ _ (set_ftyp FD_NONE (set_fref 0 x)) (fi_ends _ _ _ _ _ Hi) Hf Et Hz) as Hc.
    unfold close_end in Hc. rewrite Ez in Hc. by apply Hc.
  - apply wps_bind, wps_begin. intros s. apply wps_bind, wps_in_fs; [auto with quiet|]. intros _ s'. apply wps_end. intros t.
    split; [|eapply closed_intro; try done; simpl; lia].
    apply Hfin. eapply ends_ok_none; [apply Hi|done|congruence|done].
Qed.

Lemma fileclose_spec U h k f x :
  finvk U h k → ftable k !! f = Some x → 1 ≤ fref x →
  wps (fileclose f) (λ _ k', finvk U (minus1 f h) k' ∧ closed f x k k') k.
Proof.
  intros Hi Hf Hr. pose proof (lookup_lt_Some _ _ _ Hf) as Hlt.
  unfold fileclose. apply wps_bind. eapply wps_file_at; [done|].
  rewrite (bool_decide_eq_false_2 (fref x < 1)) by lia.
  apply wps_bind. eapply wps_upd_file; [done|].
  destruct (decide (0 < fref x - 1)) as [Hpos|Hlast].
  - rewrite (bool_decide_eq_true_2 _ Hpos). apply wps_ret. split; [|by eapply closed_intro].
    eapply (finv_update _ _ _ _ _ Hi); try done; simpl; [lia|lia| | |by auto|by eapply ends_ok_same; [apply Hi|..]].
    + intros _ Hu. apply (fi_used _ _ _ _ (fi_counts _ _ _ _ _ Hi) f x Hf); [lia|done].
    + intros g. unfold minus1. lia.
  - rewrite (bool_decide_eq_false_2 _ Hlast).
    assert (Hf1 : ftable (set_ftable (<[f := set_fref (fref x - 1) x]> (ftable k)) k) !! f = Some (set_fref (fref x - 1) x)) by by apply list_lookup_insert_eq.
    apply wps_bind. eapply wps_file_at; [done|]. apply wps_bind. eapply wps_upd_file; [done|].
    cbn [ftable set_ftable]. rewrite list_insert_insert_eq. exact (close_last U h k f x Hi Hf ltac:(lia)).
Qed.

Definition zero : nat → Z := λ _, 0.

Lemma files_ok_finvk k : files_ok k ↔ finvk [] zero k.
Proof. done. Qed.

(** A new file that is closed again. *)
Lemma finvk_forget U h f x' k :
  finvk (f :: U) (minus1 f (plus1 f h)) k → ftable k !! f = Some x' → fref x' = 0 → finvk U h k.
Proof.
  intros Hi Hf Hr. eapply finv_ext; [eapply (finv_drop _ _ _ _ _ Hi f x' U Hf Hr)| |].
  - intros g [->|?]%elem_of_cons; auto.
  - intros g. unfold minus1, plus1. lia.
  - done.
Qed.

(** [pipealloc] of files that are not given back holds both. *)
Lemma pipealloc_spec k page :
  files_ok k →
  wps (pipealloc page) (λ r k', procs k' = procs k ∧ match r with
    | None => files_ok k'
    | Some (f0, f1) => f0 ≠ f1 ∧ finvk [] (plus1 f1 (plus1 f0 zero)) k' ∧
        ∃ x0 x1, ftable k' !! f0 = Some x0 ∧ ftable k' !! f1 = Some x1 ∧ fref x0 = 1 ∧ fref x1 = 1
    end) k.
Proof.
  intros Hi. unfold pipealloc. apply wps_bind. eapply wps_mono; [by eapply (filealloc_spec [] zero)|].
  intros [f0|] k1; [|intros ->; by apply wps_ret]. intros (x0 & Hf0 & Hr0 & Ht0 & -> & Hi1). cbn beta.
  pose proof (lookup_lt_Some _ _ _ Hf0) as Hlt0. set (k1 := set_ftable _ k) in *.
  assert (H0 : ftable k1 !! f0 = Some (set_fref 1 x0)) by by apply list_lookup_insert_eq.
  apply wps_bind. eapply wps_mono; [by eapply filealloc_spec|].
  intros [f1|] k2; cbn beta.
  2:{ intros ->. apply wps_bind. eapply wps_mono; [eapply (fileclose_spec _ _ k1 f0); [exact Hi1|exact H0|done]|].
      intros _ k3 (Hi3 & Hp3 & (x3 & Hf3 & Hr3) & _). apply wps_ret. split; [done|].
      apply files_ok_finvk. by eapply finvk_forget. }
  intros (x1 & Hf1 & Hr1 & Ht1 & -> & Hi2). pose proof (lookup_lt_Some _ _ _ Hf1) as Hlt1.
  assert (Hne : f0 ≠ f1) by (intros ->; rewrite H0 in Hf1; injection Hf1 as <-; done).
  set (k2 := set_ftable _ k1) in *.
  assert (H1 : ftable k2 !! f1 = Some (set_fref 1 x1)) by by apply list_lookup_insert_eq.
  assert (H0' : ftable k2 !! f0 = Some (set_fref 1 x0)) by by cbn; rewrite list_lookup_insert_ne.
  destruct page as [page|].
  - apply wps_bind, wps_get. apply wps_bind, wps_modify.
    apply wps_bind. eapply wps_upd_file; [exact H0'|].
    apply wps_bind. eapply wps_upd_file; [cbn [ftable set_ftable]; by rewrite list_lookup_insert_ne|].
    apply wps_ret. split; [done|]. split; [done|]. split.
    + eapply (finv_pipe _ _ _ _ _ Hi2); try done.
      * apply not_elem_of_dom, is_fresh.
      * intros g [->|[->|?]%elem_of_cons]%elem_of_cons; auto.
    + apply lookup_lt_Some in H0'. apply lookup_lt_Some in H1. do 2 eexists. cbn [ftable set_ftable set_pipes] in *.
      split_and!; [by rewrite list_lookup_insert_ne, list_lookup_insert_eq|by apply list_lookup_insert_eq; rewrite length_insert|done|done].
  - apply wps_bind. eapply wps_mono; [eapply (fileclose_spec _ _ k2 f0); [exact Hi2|exact H0'|done]|].
    intros _ k3 (Hi3 & Hp3 & (x3 & Hf3 & Hr3) & Ho3).
    apply wps_bind. eapply wps_mono; [eapply (fileclose_spec _ _ k3 f1); [exact Hi3|by rewrite Ho3|done]|].
    intros _ k4 (Hi4 & Hp4 & (x4 & Hf4 & Hr4) & Ho4). apply wps_ret. split; [by rewrite Hp4, Hp3|].
    apply files_ok_finvk. eapply (finvk_forget _ _ f0); [|by rewrite Ho4|done].
    eapply finvk_forget; [|done|done]. eapply finv_ext; [exact Hi4| |done].
    intros g. unfold minus1, plus1. lia.
Qed.

(** *** Descriptors *)

Lemma fdalloc_loop_spec l : ∀ i fd,
  fdalloc_loop l i = Some fd → (i ≤ fd)%nat ∧ l !! (fd - i)%nat = Some None.
Proof.
  induction l as [|[f|] l IH]; intros i fd; simpl; [done| |].
  - intros H. destruct (IH _ _ H) as [Hle Hx]. split; [lia|]. by replace (fd - i)%nat with (S (fd - S i)) by lia.
  - intros [= <-]. by rewrite Nat.sub_diag.
Qed.

Lemma fdalloc_spec me U h k y f :
  finvk U h k → procs k !! me = Some y → is_Some (ftable k !! f) →
  wps (fdalloc me f) (λ r k', match r with
    | None => k' = k
    | Some fd => ofile y !! fd = Some None ∧
        k' = set_procs (<[me := set_ofile fd (Some f) y]> (procs k)) k ∧ finvk U (minus1 f h) k'
    end) k.
Proof.
  intros Hi Hy Hf. unfold fdalloc. apply wps_bind. eapply wps_proc_at; [done|].
  destruct (fdalloc_loop (ofile y) 0) as [fd|] eqn:E; [|by apply wps_ret].
  apply fdalloc_loop_spec in E as [_ Hfd]. rewrite Nat.sub_0_r in Hfd.
  apply wps_bind. eapply wps_upd_proc; [done|]. apply wps_ret. split_and!; try done.
  eapply (finv_slot _ _ _ _ _ Hi); try done; [by intros ? [= <-]|]. intros g. unfold minus1. rewrite one_None. lia.
Qed.

Lemma argfd_spec me k n y :
  files_ok k → procs k !! me = Some y →
  wps (argfd me n) (λ r k', k' = k ∧ ∀ fd f, r = Some (fd, f) → ofile y !! fd = Some (Some f) ∧
    ∃ x, ftable k !! f = Some x ∧ 1 ≤ fref x ∧ ftyp x ≠ FD_NONE) k.
Proof.
  intros Hi Hy. unfold argfd, argint. apply wps_bind, wps_gets. destruct (Syscall.argint n (um k)) as [a|]; [|by apply wps_ret].
  case_match; [by apply wps_ret|]. apply wps_bind. eapply wps_proc_at; [done|]. apply wps_ret. split; [done|].
  intros fd f. destruct (ofile y !! Z.to_nat a) as [[f'|]|] eqn:E; simpl; try done. intros [= <- <-]. split; [done|].
  pose proof (nrefs_lookup _ _ _ _ _ Hy E) as Hn. pose proof (fi_counts _ _ _ _ _ Hi) as Hc.
  destruct (fi_slot _ _ _ _ Hc _ Hn) as [x Hx]. exists x. pose proof (fi_ref _ _ _ _ Hc _ _ Hx).
  split_and!; [done|lia|]. apply (fi_used _ _ _ _ Hc _ _ Hx); [lia|]. by apply not_elem_of_nil.
Qed.

(** *** Offsets and pipes *)

Lemma files_ok_foff k f x n :
  files_ok k → ftable k !! f = Some x → files_ok (set_ftable (<[f := set_foff n x]> (ftable k)) k).
Proof.
  intros Hi Hf. pose proof (fi_counts _ _ _ _ _ Hi) as Hc. eapply (finv_update _ _ _ _ _ Hi); try done; cbn [fref ftyp set_foff].
  - by eapply fi_nonneg.
  - by eapply fi_free.
  - by eapply fi_used.
  - intros g. lia.
  - by auto.
  - by eapply ends_ok_same; [apply Hi|..].
Qed.

Lemma files_ok_pipe k p x y :
  files_ok k → pipes k !! p = Some x → readopen y = readopen x → writeopen y = writeopen x →
  files_ok (set_pipes (<[p := y]> (pipes k)) k).
Proof. intros [Hc He] Hp Hr Hw. split; [done|]. by eapply ends_ok_pipes. Qed.

Lemma piperead_copy_open n : ∀ p, let p' := (piperead_copy n p).2 in readopen p' = readopen p ∧ writeopen p' = writeopen p.
Proof.
  induction n as [|n IH]; intros p; cbn [piperead_copy]; [done|]. destruct (pipe_empty p); [done|].
  destruct (take1 p) as [b p1] eqn:E. specialize (IH p1). destruct (piperead_copy n p1) as [l p2]. simpl in *.
  unfold take1 in E. injection E as <- <-. apply IH.
Qed.

Lemma piperead_open killed n p : let p' := (piperead killed n p).1.1 in readopen p' = readopen p ∧ writeopen p' = writeopen p.
Proof.
  unfold piperead. pose proof (piperead_copy_open n p) as H. destruct (_ && _); [by destruct killed|].
  by destruct (piperead_copy n p).
Qed.

Lemma pipewrite_loop_open killed n l : ∀ i p,
  let p' := (pipewrite_loop killed n l i p).1.1 in readopen p' = readopen p ∧ writeopen p' = writeopen p.
Proof.
  induction l as [|b l IH]; intros i p; cbn [pipewrite_loop]; [done|]. destruct (pipe_full p); [by destruct (_ || _)|].
  apply (IH (S i) (put b p)).
Qed.

(** The pipe of a file. *)
Lemma file_pipe k f x : files_ok k → ftable k !! f = Some x → ftyp x = FD_PIPE → ∃ z, pipes k !! fpipe x = Some z.
Proof.
  intros Hi Hf Ht. destruct (eo_end _ _ (fi_ends _ _ _ _ _ Hi) (fpipe x) (writable x) f) as (z & Hz & _); [by exists x|eauto].
Qed.

Section Dev.

Context (dev_read : Z → option (nat → Z → M Fs.fss (Z * list Z))).
Context (dev_write : Z → option (nat → list Z → M Fs.fss Z)).
(** The drivers raise none of the faults themselves. *)
Context (read_quiet : ∀ mj f, dev_read mj = Some f → ∀ ip n, quiet (f ip n)).
Context (write_quiet : ∀ mj f, dev_write mj = Some f → ∀ ip l, quiet (f ip l)).

Lemma quiet_readi_loop fuel ip : ∀ off n, quiet (Fs.readi_loop fuel ip off n).
Proof. induction fuel as [|fuel IH]; intros off n; cbn [Fs.readi_loop]; quiet. Qed.
#[local] Hint Resolve quiet_readi_loop : quiet.

Lemma quiet_readi ip off n : quiet (Fs.readi dev_read ip off n).
Proof using read_quiet. unfold Fs.readi. quiet. Qed.
#[local] Hint Resolve quiet_readi : quiet.

Lemma quiet_writei_loop fuel ip : ∀ off l, quiet (Fs.writei_loop fuel ip off l).
Proof. induction fuel as [|fuel IH]; intros off l; cbn [Fs.writei_loop]; quiet. Qed.
#[local] Hint Resolve quiet_writei_loop : quiet.

Lemma quiet_writei ip l off : quiet (Fs.writei dev_write ip l off).
Proof using write_quiet. unfold Fs.writei. quiet. Qed.
#[local] Hint Resolve quiet_writei : quiet.

Lemma quiet_dirlookup_loop fuel dp name : ∀ off, quiet (Fs.dirlookup_loop dev_read fuel dp name off).
Proof using read_quiet. induction fuel as [|fuel IH]; intros off; cbn [Fs.dirlookup_loop]; quiet. Qed.
#[local] Hint Resolve quiet_dirlookup_loop : quiet.

Lemma quiet_dirlookup dp name : quiet (Fs.dirlookup dev_read dp name).
Proof using read_quiet. unfold Fs.dirlookup. quiet. Qed.
#[local] Hint Resolve quiet_dirlookup : quiet.

Lemma quiet_dirlink_loop fuel dp : ∀ off, quiet (Fs.dirlink_loop dev_read fuel dp off).
Proof using read_quiet. induction fuel as [|fuel IH]; intros off; cbn [Fs.dirlink_loop]; quiet. Qed.
#[local] Hint Resolve quiet_dirlink_loop : quiet.

Lemma quiet_dirlink dp name n : quiet (Fs.dirlink dev_read dev_write dp name n).
Proof using read_quiet write_quiet. unfold Fs.dirlink. quiet. Qed.
#[local] Hint Resolve quiet_dirlink : quiet.

Lemma quiet_namex_loop fuel b : ∀ path name ip, quiet (Fs.namex_loop dev_read fuel b path name ip).
Proof using read_quiet. induction fuel as [|fuel IH]; intros path name ip; cbn [Fs.namex_loop]; quiet. Qed.
#[local] Hint Resolve quiet_namex_loop : quiet.

Lemma quiet_namex cw path b : quiet (Fs.namex dev_read cw path b).
Proof using read_quiet. unfold Fs.namex. quiet. Qed.
#[local] Hint Resolve quiet_namex : quiet.

Lemma quiet_namei cw path : quiet (Fs.namei dev_read cw path).
Proof using read_quiet. unfold Fs.namei. quiet. Qed.

Lemma quiet_nameiparent cw path : quiet (Fs.nameiparent dev_read cw path).
Proof using read_quiet. unfold Fs.nameiparent. quiet. Qed.
#[local] Hint Resolve quiet_namei quiet_nameiparent : quiet.

(** *** The parts of the calls that are in the file system *)

Lemma quiet_add_nlink ip d : quiet (add_nlink ip d).
Proof. unfold add_nlink. quiet. Qed.
#[local] Hint Resolve quiet_add_nlink : quiet.

Lemma quiet_link_fs cw old new : quiet (link_fs dev_read dev_write cw old new).
Proof using read_quiet write_quiet. unfold link_fs, link_dir, link_bad. quiet. Qed.

Lemma quiet_isdirempty_loop fuel dp : ∀ off, quiet (isdirempty_loop dev_read fuel dp off).
Proof using read_quiet. induction fuel as [|fuel IH]; intros off; cbn [isdirempty_loop]; quiet. Qed.
#[local] Hint Resolve quiet_isdirempty_loop : quiet.

Lemma quiet_unlink_fs cw path : quiet (unlink_fs dev_read dev_write cw path).
Proof using read_quiet write_quiet. unfold unlink_fs, unlink_entry, isdirempty. quiet. Qed.

Lemma quiet_create cw path ty mj mn : quiet (create dev_read dev_write cw path ty mj mn).
Proof using read_quiet write_quiet. unfold create, create_new. quiet. Qed.
#[local] Hint Resolve quiet_link_fs quiet_unlink_fs quiet_create : quiet.

Lemma quiet_open_inode cw path om : quiet (open_inode dev_read dev_write cw path om).
Proof using read_quiet write_quiet. unfold open_inode. quiet. Qed.
#[local] Hint Resolve quiet_open_inode : quiet.

(** *** The calls *)

Context (killed : bool) (me : nat).

Definition keeps {A} (m : M kst A) : Prop :=
  ∀ k, files_ok k → is_Some (procs k !! me) → wps m (λ _ k', files_ok k') k.

Lemma fileread_safe k f x n :
  files_ok k → ftable k !! f = Some x → ftyp x ≠ FD_NONE → wps (fileread dev_read killed f n) (λ _ k', files_ok k') k.
Proof using read_quiet.
  intros Hi Hf Ht. unfold fileread. apply wps_bind. eapply wps_file_at; [done|].
  destruct (negb (readable x)); [by apply wps_ret|]. destruct (ftyp x) eqn:Et; [done| |].
  - destruct (file_pipe k f x Hi Hf Et) as [z Hz]. apply wps_bind, wps_get. rewrite Hz.
    pose proof (piperead_open killed (Z.to_nat n) z) as [Hr Hw]. destruct (piperead _ _ _) as [[z' w] r]. simpl in Hr, Hw.
    apply wps_bind, wps_modify. destruct r; [|done]. apply wps_ret. by eapply files_ok_pipe.
  - apply wps_bind, wps_in_fs; [auto with quiet|]. intros _ s1.
    apply wps_bind, wps_in_fs; [auto with quiet|]. intros r s2.
    apply wps_bind. case_match.
    + eapply wps_upd_file; [exact Hf|]. apply wps_bind, wps_in_fs; [auto with quiet|]. intros _ s3. apply wps_ret.
      by apply (files_ok_foff k).
    + apply wps_ret. apply wps_bind, wps_in_fs; [auto with quiet|]. intros _ s3. by apply wps_ret.
Qed.

Lemma write_chunk_safe f ip l k x :
  files_ok k → ftable k !! f = Some x →
  wps (write_chunk dev_write f ip l) (λ _ k', files_ok k' ∧ is_Some (ftable k' !! f)) k.
Proof using write_quiet.
  intros Hi Hf. pose proof (lookup_lt_Some _ _ _ Hf) as Hlt. unfold write_chunk.
  apply wps_bind, wps_begin. intros s1. apply wps_bind, wps_in_fs; [auto with quiet|]. intros _ s2.
  apply wps_bind. eapply wps_file_at; [exact Hf|].
  apply wps_bind, wps_in_fs; [auto with quiet|]. intros r s3.
  apply wps_bind. case_match.
  - eapply wps_upd_file; [exact Hf|]. apply wps_bind, wps_in_fs; [auto with quiet|]. intros _ s4.
    apply wps_bind, wps_end. intros t. apply wps_ret. split; [by apply (files_ok_foff k)|].
    apply lookup_lt_is_Some. cbn [ftable set_ftable set_fs set_trans]. by rewrite length_insert.
  - apply wps_ret. apply wps_bind, wps_in_fs; [auto with quiet|]. intros _ s4.
    apply wps_bind, wps_end. intros t. apply wps_ret. split; [done|]. by exists x.
Qed.

Lemma filewrite_loop_safe fuel f ip : ∀ i l k,
  files_ok k → is_Some (ftable k !! f) → wps (filewrite_loop dev_write fuel f ip i l) (λ _ k', files_ok k') k.
Proof using write_quiet.
  induction fuel as [|fuel IH]; intros i l k Hi [x Hf]; cbn [filewrite_loop]; [done|].
  case_match; [|by apply wps_ret]. apply wps_bind. eapply wps_mono; [by eapply write_chunk_safe|].
  intros r k1 [Hi1 Hf1]. cbn beta. case_match; [by apply wps_ret|]. case_match.
  - apply wps_quiet; [auto with quiet|done].
  - by apply IH.
Qed.

Lemma filewrite_safe k f x l :
  files_ok k → ftable k !! f = Some x → ftyp x ≠ FD_NONE → wps (filewrite dev_write killed f l) (λ _ k', files_ok k') k.
Proof using write_quiet.
  intros Hi Hf Ht. unfold filewrite. apply wps_bind. eapply wps_file_at; [done|].
  destruct (negb (writable x)); [by apply wps_ret|]. destruct (ftyp x) eqn:Et; [done| |].
  - destruct (file_pipe k f x Hi Hf Et) as [z Hz]. apply wps_bind, wps_get. rewrite Hz. unfold pipewrite.
    pose proof (pipewrite_loop_open killed (Z.of_nat (length l)) (drop 0 l) 0 z) as [Hr Hw].
    destruct (pipewrite_loop _ _ _ _ _) as [[z' w] r]. simpl in Hr, Hw.
    apply wps_bind, wps_modify. destruct r; [|done]. apply wps_ret. by eapply files_ok_pipe.
  - apply wps_bind. eapply wps_mono; [eapply filewrite_loop_safe; eauto|]. intros r k' Hi'. by apply wps_ret.
Qed.

Lemma filestat_safe k f x :
  files_ok k → ftable k !! f = Some x → wps (filestat f) (λ _ k', files_ok k') k.
Proof.
  intros Hi Hf. unfold filestat. apply wps_bind. eapply wps_file_at; [done|].
  destruct (ftyp x); [by apply wps_ret|by apply wps_ret|].
  do 3 (apply wps_bind, wps_in_fs; [auto with quiet|]; intros ? ?). by apply wps_ret.
Qed.

(** Code that only calls the file system and reads its arguments. *)
Ltac frame :=
  repeat lazymatch goal with
  | |- wps (mbind _ _) _ _ => apply wps_bind
  | |- wps (in_fs _) _ _ => apply wps_in_fs; [eauto with quiet|intros ? ?]
  | |- wps begin_op _ _ => apply wps_begin; intros ?
  | |- wps end_op _ _ => apply wps_end; intros ?
  | |- wps (argint _) _ _ => apply wps_gets
  | |- wps (argptr _ _) _ _ => apply wps_gets
  | |- wps (argstr _) _ _ => apply wps_gets
  | |- wps get _ _ => apply wps_get
  | |- wps (copy_out _ _) _ _ => apply wps_modify
  | |- wps (mret _) _ _ => apply wps_ret
  | |- wps (proc_at _) _ _ => eapply wps_proc_at; [eassumption|]
  | |- wps (if _ then _ else _) _ _ => case_match
  | |- wps (match ?x with _ => _ end) _ _ => destruct x
  | |- wps _ (λ _ _, wps _ _ _) _ => fail
  end.

Ltac use_argfd Hi Hy :=
  apply wps_bind; eapply wps_mono; [exact (argfd_spec _ _ _ _ Hi Hy)|];
  intros [[fd f]|] ? [-> Hfd]; [|by apply wps_ret];
  destruct (Hfd fd f eq_refl) as (Hslot & x & Hf & Hr & Ht); clear Hfd; cbn beta.

Lemma sys_dup_keeps : keeps (sys_dup me).
Proof.
  intros k Hi [y Hy]. unfold sys_dup. use_argfd Hi Hy.
  apply wps_bind. eapply wps_mono; [eapply (fdalloc_spec me [] zero); [exact Hi|done|eauto]|].
  intros [fd'|] k1; [|intros ->; by apply wps_ret]. intros (Hnone & -> & Hi1).
  apply wps_bind. eapply wps_mono; [by eapply filedup_spec|]. intros _ k2 (_ & _ & Hi2). apply wps_ret.
  eapply finv_ext; [exact Hi2| |done]. intros g. unfold plus1, minus1, zero. lia.
Qed.

Lemma sys_read_keeps : keeps (sys_read dev_read killed me).
Proof using read_quiet.
  intros k Hi [y Hy]. unfold sys_read. use_argfd Hi Hy. frame; try done.
  eapply wps_mono; [by eapply fileread_safe|]. intros r k1 Hi1. by frame.
Qed.

Lemma sys_write_keeps : keeps (sys_write dev_write killed me).
Proof using write_quiet.
  intros k Hi [y Hy]. unfold sys_write. use_argfd Hi Hy. frame; try done. by eapply filewrite_safe.
Qed.

Lemma sys_close_keeps : keeps (sys_close me).
Proof.
  intros k Hi [y Hy]. unfold sys_close. use_argfd Hi Hy.
  apply wps_bind. eapply wps_upd_proc; [done|].
  apply wps_bind. eapply wps_mono; [eapply (fileclose_spec [] (plus1 f zero))|]; cbn [ftable set_procs]; [|exact Hf|done|].
  - eapply (finv_slot _ _ _ _ _ Hi); try done. intros g. unfold plus1, zero. rewrite one_None. lia.
  - intros _ k1 [Hi1 _]. apply wps_ret. eapply finv_ext; [exact Hi1| |done]. intros g. unfold plus1, minus1, zero. lia.
Qed.

Lemma sys_fstat_keeps : keeps (sys_fstat me).
Proof.
  intros k Hi [y Hy]. unfold sys_fstat. use_argfd Hi Hy. frame; try done.
  eapply wps_mono; [by eapply filestat_safe|]. intros r k1 Hi1. by frame.
Qed.

Lemma sys_link_keeps : keeps (sys_link dev_read dev_write me).
Proof using read_quiet write_quiet. intros k Hi [y Hy]. unfold sys_link. frame; try done. Qed.

Lemma sys_unlink_keeps : keeps (sys_unlink dev_read dev_write me).
Proof using read_quiet write_quiet. intros k Hi [y Hy]. unfold sys_unlink. frame; try done. Qed.

Lemma sys_mkdir_keeps : keeps (sys_mkdir dev_read dev_write me).
Proof using read_quiet write_quiet. intros k Hi [y Hy]. unfold sys_mkdir, create_call. frame; try done. Qed.

Lemma sys_mknod_keeps : keeps (sys_mknod dev_read dev_write me).
Proof using read_quiet write_quiet. intros k Hi [y Hy]. unfold sys_mknod, create_call. frame; try done. Qed.

Lemma sys_chdir_keeps : keeps (sys_chdir dev_read me).
Proof using read_quiet.
  intros k Hi [y Hy]. unfold sys_chdir. frame; try done.
  eapply wps_upd_proc; [done|]. apply wps_ret. rewrite <- (upd_insert me (set_cwd _) (procs k) y Hy). by apply finv_cwd.
Qed.

(** [sys_open] from the point where the inode is locked. *)
Lemma open_rest_spec k y ip om :
  files_ok k → procs k !! me = Some y →
  wps (f ← filealloc;
       match f with
       | None => in_fs (Fs.iunlockput ip) ;; end_op ;; mret (-1)
       | Some f =>
           fd ← fdalloc me f;
           match fd with
           | None => fileclose f ;; in_fs (Fs.iunlockput ip) ;; end_op ;; mret (-1)
           | Some fd => in_fs (Fs.iunlock ip) ;; end_op ;; upd_file f (open_file ip om) ;; mret (Z.of_nat fd)
           end
       end) (λ _ k', files_ok k') k.
Proof.
  intros Hi Hy. apply wps_bind. eapply wps_mono; [by eapply (filealloc_spec [] zero)|].
  intros [f|] k1; [|intros ->; by frame]. intros (x & Hf & Hr & Ht & -> & Hi1).
  pose proof (lookup_lt_Some _ _ _ Hf) as Hlt. set (k1 := set_ftable _ k) in *.
  assert (Hf1 : ftable k1 !! f = Some (set_fref 1 x)) by by apply list_lookup_insert_eq.
  apply wps_bind. eapply wps_mono; [eapply (fdalloc_spec me _ _ k1 y); [exact Hi1|exact Hy|eauto]|].
  intros [fd|] k2; cbn beta.
  - intros (Hfd & -> & Hi2). frame. eapply wps_upd_file; [exact Hf1|]. apply wps_ret.
    eapply (finv_update _ _ _ _ _ Hi2); try done; simpl.
    + intros g. unfold minus1, plus1, zero. lia.
    + intros g [->|?]%elem_of_cons; auto.
    + by eapply ends_ok_none; [apply Hi2|exact Hf1|simpl; congruence|].
  - intros ->. apply wps_bind. eapply wps_mono; [eapply (fileclose_spec _ _ k1 f); [exact Hi1|exact Hf1|done]|].
    intros _ k3 (Hi3 & _ & (x3 & Hf3 & Hr3) & _). frame. apply files_ok_finvk. by eapply finvk_forget.
Qed.

Lemma sys_open_keeps : keeps (sys_open dev_read dev_write me).
Proof using read_quiet write_quiet.
  intros k Hi [y Hy]. unfold sys_open.
  do 2 (apply wps_bind, wps_gets; case_match; [|by apply wps_ret]).
  apply wps_bind. eapply wps_proc_at; [done|]. apply wps_bind, wps_begin. intros s.
  apply wps_bind, wps_in_fs; [auto with quiet|]. intros [ip|] s'; [|by frame]. by eapply open_rest_spec.
Qed.

Lemma sys_pipe_keeps page : keeps (sys_pipe me page).
Proof.
  intros k Hi [y Hy]. unfold sys_pipe. apply wps_bind, wps_gets. case_match; [|by apply wps_ret].
  apply wps_bind. eapply wps_mono; [by apply pipealloc_spec|].
  intros [[rf wf]|] k1 [Hp1 H1]; [|by apply wps_ret]. destruct H1 as (Hne & Hi1 & x0 & x1 & Hf0 & Hf1 & Hr0 & Hr1).
  rewrite <- Hp1 in Hy.
  apply wps_bind. eapply wps_mono; [eapply (fdalloc_spec me _ _ k1 y rf); [exact Hi1|exact Hy|eauto]|].
  assert (Hclose : ∀ k, finvk [] (plus1 wf (plus1 rf zero)) k → ftable k = ftable k1 →
    wps (fileclose rf ;; fileclose wf ;; mret (-1)) (λ _ k', files_ok k') k).
  { intros k2 Hi2 Ef. apply wps_bind. eapply wps_mono; [eapply (fileclose_spec _ _ k2 rf); [exact Hi2|by rewrite Ef|lia]|].
    intros _ k3 (Hi3 & _ & _ & Ho3).
    apply wps_bind. eapply wps_mono; [eapply (fileclose_spec _ _ k3 wf); [exact Hi3|by rewrite Ho3, Ef|lia]|].
    intros _ k4 (Hi4 & _). apply wps_ret. eapply finv_ext; [exact Hi4| |done].
    intros g. unfold minus1, plus1, zero. lia. }
  intros [fd0|] k2; cbn beta; [|intros ->; by apply Hclose]. intros (Hfd0 & -> & Hi2).
  set (y2 := set_ofile fd0 (Some rf) y). set (k2 := set_procs _ k1) in *.
  pose proof (lookup_lt_Some _ _ _ Hy) as Hltp. pose proof (lookup_lt_Some _ _ _ Hfd0) as Hlt0.
  assert (Hy2 : procs k2 !! me = Some y2) by by apply list_lookup_insert_eq.
  apply wps_bind. eapply wps_mono; [eapply (fdalloc_spec me _ _ k2 y2 wf); [exact Hi2|exact Hy2|eauto]|].
  intros [fd1|] k3; cbn beta.
  - intros (_ & -> & Hi3). frame. eapply finv_ext; [exact Hi3| |done]. intros g. unfold minus1, plus1, zero. lia.
  - intros ->. apply wps_bind. eapply wps_upd_proc; [exact Hy2|]. apply Hclose; [|done].
    eapply (finv_slot _ _ _ _ _ Hi2); [exact Hy2|by apply list_lookup_insert_eq|done|].
    intros g. unfold minus1. rewrite one_None. lia.
Qed.

End Dev.

(** ** [fork] and [exit] *)

(** A file that a descriptor refers to is counted. *)
Lemma slot_file k p x fd f :
  files_ok k → procs k !! p = Some x → ofile x !! fd = Some (Some f) → ∃ z, ftable k !! f = Some z ∧ 1 ≤ fref z.
Proof.
  intros Hi Hp Ho. pose proof (nrefs_lookup _ _ _ _ _ Hp Ho) as Hn. pose proof (fi_counts _ _ _ _ _ Hi) as Hc.
  destruct (fi_slot _ _ _ _ Hc _ Hn) as [z Hz]. exists z. split; [done|]. pose proof (fi_ref _ _ _ _ Hc _ _ Hz). lia.
Qed.

(** The descriptors of the child [np] before descriptor [fd] is copied. *)
Definition forking (p np : nat) (x : fproc) (fd : nat) (k : kst) : Prop :=
  files_ok k ∧ procs k !! p = Some x ∧ ∃ y, procs k !! np = Some y ∧ length (ofile y) = NOFILE ∧
    (∀ j, (j < fd)%nat → ofile y !! j = ofile x !! j) ∧ (∀ j, (fd ≤ j < NOFILE)%nat → ofile y !! j = Some None).

Lemma fork_slot p np x fd k :
  p ≠ np → (fd < NOFILE)%nat → length (ofile x) = NOFILE → forking p np x fd k →
  wps (x ← proc_at p;
       match mjoin (ofile x !! fd) with
       | Some f => f ← filedup f; upd_proc np (set_ofile fd (Some f))
       | None => mret tt
       end) (λ _, forking p np x (S fd)) k.
Proof.
  intros Hne Hfd Hlx (Hi & Hp & y & Hy & Hl & Hlo & Hhi). pose proof (lookup_lt_Some _ _ _ Hy) as Hlt.
  destruct (lookup_lt_is_Some_2 (ofile x) fd) as [o Ho]; [lia|].
  apply wps_bind. eapply wps_proc_at; [done|]. rewrite Ho. cbn [mjoin option_join]. destruct o as [f|].
  - destruct (slot_file _ _ _ _ _ Hi Hp Ho) as (z & Hz & Hr).
    apply wps_bind. eapply wps_mono; [by apply (filedup_spec [] zero k f z Hi Hz)|].
    intros f' k1 (-> & -> & Hi1). eapply wps_upd_proc; [exact Hy|]. split_and!.
    + eapply (finv_slot _ _ _ _ _ Hi1); [exact Hy|by apply Hhi; lia| |].
      * intros ? [= <-]. cbn [ftable set_ftable]. apply lookup_lt_is_Some. rewrite length_insert. by eapply lookup_lt_Some.
      * intros g. unfold plus1, zero. rewrite one_None. lia.
    + cbn [procs set_procs set_ftable]. by rewrite list_lookup_insert_ne.
    + exists (set_ofile fd (Some f) y). cbn [procs set_procs set_ftable ofile set_ofile]. rewrite length_insert.
      split_and!; [by apply list_lookup_insert_eq|done| |].
      * intros j Hj. destruct (decide (j = fd)) as [->|]; [rewrite list_lookup_insert_eq by lia; done|].
        rewrite list_lookup_insert_ne by done. apply Hlo. lia.
      * intros j Hj. rewrite list_lookup_insert_ne by lia. apply Hhi. lia.
  - apply wps_ret. split_and!; [done|done|]. exists y. split_and!; [done|done| |].
    + intros j Hj. destruct (decide (j = fd)) as [->|]; [rewrite Ho; apply Hhi; lia|]. apply Hlo. lia.
    + intros j Hj. apply Hhi. lia.
Qed.

Lemma fork_files_spec k p np x y :
  files_ok k → p ≠ np → procs k !! p = Some x → procs k !! np = Some y → ofile y = replicate NOFILE None →
  wps (fork_files p np) (λ _ k', files_ok k' ∧ procs k' !! p = Some x ∧ ∃ y', procs k' !! np = Some y' ∧ ofile y' = ofile x) k.
Proof.
  intros Hi Hne Hp Hnp Hy. unfold fork_files. pose proof (fi_ofile _ _ _ _ (fi_counts _ _ _ _ _ Hi) _ _ Hp) as Hlx.
  apply wps_bind. eapply wps_mono; [eapply (wps_for (forking p np x))|].
  - split_and!; [done|done|]. exists y. rewrite Hy, length_replicate. split_and!; try done; [lia|].
    intros j Hj. apply lookup_replicate. naive_solver lia.
  - intros fd k1 Hfd H1. apply fork_slot; try done; lia.
  - clear k Hi Hp Hnp. intros _ k (Hi & Hp & y1 & Hy1 & Hl1 & Hlo & Hhi). cbn beta.
    apply wps_bind. eapply wps_proc_at; [done|]. apply wps_bind, wps_in_fs; [auto with quiet|]. intros ip s.
    pose proof (lookup_lt_Some _ _ _ Hy1) as Hlt.
    eapply wps_upd_proc; [exact Hy1|]. split_and!.
    + pose proof (finv_cwd _ _ _ _ _ Hi np ip) as H. by rewrite (upd_insert _ _ _ _ Hy1) in H.
    + cbn [procs set_procs set_fs]. by rewrite list_lookup_insert_ne.
    + exists (set_cwd ip y1). split; [by apply list_lookup_insert_eq|]. simpl. apply list_eq_same_length with NOFILE; [done|done|].
      intros j a b Hj Ha Hb. rewrite Hlo in Ha by lia. congruence.
Qed.

(** The descriptors of [p] below [fd] are closed. *)
Definition exiting (p fd : nat) (k : kst) : Prop :=
  files_ok k ∧ ∃ x, procs k !! p = Some x ∧ ∀ j, (j < fd)%nat → ofile x !! j = Some None.

Lemma exit_slot p fd k :
  (fd < NOFILE)%nat → exiting p fd k →
  wps (x ← proc_at p;
       match mjoin (ofile x !! fd) with
       | Some f => fileclose f ;; upd_proc p (set_ofile fd None)
       | None => mret tt
       end) (λ _, exiting p (S fd)) k.
Proof.
  intros Hfd (Hi & x & Hp & Hlo). pose proof (lookup_lt_Some _ _ _ Hp) as Hlt.
  pose proof (fi_ofile _ _ _ _ (fi_counts _ _ _ _ _ Hi) _ _ Hp) as Hlx.
  destruct (lookup_lt_is_Some_2 (ofile x) fd) as [o Ho]; [lia|].
  apply wps_bind. eapply wps_proc_at; [done|]. rewrite Ho. cbn [mjoin option_join]. destruct o as [f|].
  - destruct (slot_file _ _ _ _ _ Hi Hp Ho) as (z & Hz & Hr).
    apply wps_bind. eapply wps_mono; [by apply (fileclose_spec [] zero k f z)|].
    intros _ k1 (Hi1 & Hp1 & _). rewrite <- Hp1 in Hp, Hlt. eapply wps_upd_proc; [exact Hp|]. split.
    + eapply (finv_slot _ _ _ _ _ Hi1); [exact Hp|exact Ho|done|].
      intros g. unfold minus1, zero. rewrite one_None. lia.
    + exists (set_ofile fd None x). split; [by apply list_lookup_insert_eq|]. intros j Hj. cbn [ofile set_ofile].
      destruct (decide (j = fd)) as [->|]; [apply list_lookup_insert_eq; lia|]. rewrite list_lookup_insert_ne by done. apply Hlo. lia.
  - apply wps_ret. split; [done|]. exists x. split; [done|]. intros j Hj.
    destruct (decide (j = fd)) as [->|]; [done|]. apply Hlo. lia.
Qed.

Lemma exit_files_spec k p x :
  files_ok k → procs k !! p = Some x →
  wps (exit_files p) (λ _ k', files_ok k' ∧ ∃ x', procs k' !! p = Some x' ∧ ofile x' = replicate NOFILE None) k.
Proof.
  intros Hi Hp. unfold exit_files. apply wps_bind. eapply wps_mono; [eapply (wps_for (exiting p))|].
  - split; [done|]. exists x. split; [done|]. lia.
  - intros fd k1 Hfd H1. apply exit_slot; [lia|done].
  - clear k Hi Hp. intros _ k (Hi & x1 & Hx1 & Hlo). cbn beta.
    apply wps_bind. eapply wps_proc_at; [done|]. apply wps_bind, wps_begin. intros s.
    apply wps_bind, wps_in_fs; [auto with quiet|]. intros _ s'. apply wps_end. intros t. split; [done|].
    exists x1. split; [done|]. pose proof (fi_ofile _ _ _ _ (fi_counts _ _ _ _ _ Hi) _ _ Hx1) as Hlx.
    apply list_eq_same_length with NOFILE; [by rewrite length_replicate|done|].
    intros j a b Hj Ha Hb. rewrite Hlo in Ha by lia. apply lookup_replicate in Hb as [-> _]. congruence.
Qed.

End FileSafe.
