(* ===== verification/FileLog.v ===== *)
(** * The transactions of [filewrite]

    [filewrite] of [src/file.c] cuts a write in pieces because "the maximum log
    transaction size" is [MAXOPBLOCKS]: here the blocks that one piece logs are
    counted. *)

From S2P Require Import Prelude Log Pipe Fs Syscall File.

Module FileLog.
Import File.

(** ** Blocks logged by the file system *)

(** From [s] to [s'], only the blocks [X] were logged. *)
Definition logs (X : list Z) (s s' : Fs.fss) : Prop :=
  Fs.sb s' = Fs.sb s ∧ ∀ b, b ∈ Fs.logged s' → b ∈ Fs.logged s ∨ b ∈ X.

Lemma logs_refl X s : logs X s s.
Proof. split; auto. Qed.

Lemma logs_trans X Y Z s s1 s2 : logs X s s1 → logs Y s1 s2 → X ⊆ Z → Y ⊆ Z → logs Z s s2.
Proof.
  intros [E1 H1] [E2 H2] HX HY. split; [congruence|]. intros b Hb.
  destruct (H2 b Hb) as [Hb1|?]; [|by auto]. destruct (H1 b Hb1); auto.
Qed.

Lemma logs_icache X s s' c : logs X s s' → logs X s (Fs.set_icache c s').
Proof. by intros [E H]. Qed.

Lemma log_write_logs b x s : wp (Fs.log_write b x) (λ _ s', Fs.icache s' = Fs.icache s ∧ logs [b] s s') s.
Proof.
  apply wp_modify. split; [done|]. split; [done|]. cbn [Fs.logged]. intros c [?|?]%elem_of_app; auto.
Qed.

(** The only bitmap block of a disk of at most [BPB] blocks. *)
Definition bitmap (s : Fs.fss) : Z := Fs.sb_bmapstart (Fs.sb s).

Lemma balloc_logs s :
  Fs.sb_size (Fs.sb s) ≤ Fs.BPB →
  wp Fs.balloc (λ a s', Fs.icache s' = Fs.icache s ∧ logs [bitmap s; a] s s') s.
Proof.
  intros Hsz. unfold Fs.balloc. apply wp_bind, wp_get. cbn [Fs.balloc_loop].
  apply wp_bind, wp_get. apply wp_if; intros _; [|done]. apply wp_bind, wp_gets.
  destruct (Fs.balloc_scan _ _ _ _ _) as [bi|].
  - apply wp_bind. eapply wp_mono; [apply log_write_logs|]. intros _ s1 [Ec1 H1]. cbn beta.
    unfold Fs.bzero. apply wp_bind, wp_bind, wp_gets.
    eapply wp_mono; [apply log_write_logs|]. intros _ s2 [Ec2 H2]. cbn beta. apply wp_ret. split; [congruence|].
    assert (Eb : Fs.BBLOCK 0 (Fs.sb s) = bitmap s) by done. rewrite Eb in H1.
    eapply logs_trans; [exact H1|exact H2|..]; set_solver.
  - destruct (Z.to_nat _) as [|n]; [done|]. cbn [Fs.balloc_loop]. apply wp_bind, wp_get.
    rewrite bool_decide_eq_false_2 by lia. done.
Qed.

(** *** Inodes *)

Definition ind (x : Fs.dinode) : Z := Fs.addr_at x Fs.NDIRECT.
Definition addrs_ok (x : Fs.dinode) : Prop := length (Fs.addrs x) = S Fs.NDIRECT.

(** Entry [ip] is [e] with the disk inode [x]. *)
Definition entry (s : Fs.fss) (ip : nat) (e : Fs.inode) (x : Fs.dinode) (s' : Fs.fss) : Prop :=
  Fs.icache s' = <[ip := Fs.set_di x e]> (Fs.icache s).

(** The indirect block stays where it is once there is one. *)
Definition grown (x x' : Fs.dinode) : Prop := addrs_ok x' ∧ (ind x ≠ 0 → ind x' = ind x).

Lemma addr_at_set_eq x k a : (k < length (Fs.addrs x))%nat → Fs.addr_at (Fs.set_addr k a x) k = a.
Proof. intros Hk. unfold Fs.addr_at. cbn [Fs.addrs Fs.set_addr]. by rewrite list_lookup_insert_eq. Qed.

Lemma addr_at_set_ne x k j a : k ≠ j → Fs.addr_at (Fs.set_addr k a x) j = Fs.addr_at x j.
Proof. intros Hk. unfold Fs.addr_at. cbn [Fs.addrs Fs.set_addr]. by rewrite list_lookup_insert_ne. Qed.

Lemma addrs_ok_set k a x : addrs_ok x → addrs_ok (Fs.set_addr k a x).
Proof. unfold addrs_ok. cbn [Fs.addrs Fs.set_addr]. by rewrite length_insert. Qed.

Lemma wp_iget_at ip e (Q : Fs.inode → Fs.fss → Prop) s : Fs.icache s !! ip = Some e → Q e s → wp (Fs.iget_at ip) Q s.
Proof. intros He HQ. unfold wp, Fs.iget_at. by rewrite He. Qed.

Lemma wp_iset ip g e (Q : unit → Fs.fss → Prop) s :
  Fs.icache s !! ip = Some e → Q tt (Fs.set_icache (<[ip := g e]> (Fs.icache s)) s) → wp (Fs.iset ip g) Q s.
Proof. intros He HQ. unfold wp, Fs.iset, modify. fold (upd ip g (Fs.icache s)). by rewrite (upd_insert _ _ _ _ He). Qed.

Lemma entry_id s ip e : Fs.icache s !! ip = Some e → entry s ip e (Fs.di e) s.
Proof.
  intros He. unfold entry. assert (Fs.set_di (Fs.di e) e = e) as -> by by destruct e. by rewrite list_insert_id.
Qed.

Section Logged.

Context (ip : nat) (s : Fs.fss) (e : Fs.inode).
Context (Hsz : Fs.sb_size (Fs.sb s) ≤ Fs.BPB) (He : Fs.icache s !! ip = Some e) (Ha : addrs_ok (Fs.di e)).

(** The part of [bmap] that finds the indirect block. *)
Lemma indirect_logs :
  wp (if bool_decide (Fs.addr_at (Fs.di e) Fs.NDIRECT = 0) then
        a ← Fs.balloc; Fs.iset ip (λ i, Fs.set_di (Fs.set_addr Fs.NDIRECT a (Fs.di i)) i) ;; mret a
      else mret (Fs.addr_at (Fs.di e) Fs.NDIRECT))
    (λ b s', ∃ x', b = ind x' ∧ entry s ip e x' s' ∧ grown (Fs.di e) x' ∧ logs [bitmap s; ind x'] s s') s.
Proof.
  destruct (decide (Fs.addr_at (Fs.di e) Fs.NDIRECT = 0)) as [E0|E0].
  - rewrite (bool_decide_eq_true_2 _ E0). apply wp_bind. eapply wp_mono; [by apply balloc_logs|].
    intros a s1 [Ec H1]. cbn beta. apply wp_bind. eapply wp_iset; [by rewrite Ec|]. apply wp_ret.
    exists (Fs.set_addr Fs.NDIRECT a (Fs.di e)).
    assert (Ei : ind (Fs.set_addr Fs.NDIRECT a (Fs.di e)) = a) by (apply addr_at_set_eq; rewrite Ha; lia).
    rewrite Ei. split_and!; [done| | |by apply logs_icache].
    + unfold entry. cbn [Fs.icache Fs.set_icache]. by rewrite Ec.
    + split; [by apply addrs_ok_set|by intros].
  - rewrite (bool_decide_eq_false_2 _ E0). apply wp_ret. exists (Fs.di e).
    split_and!; [done|by apply entry_id|done|apply logs_refl].
Qed.

Lemma bmap_logs bn :
  wp (Fs.bmap ip bn) (λ a s', ∃ x', entry s ip e x' s' ∧ grown (Fs.di e) x' ∧ logs [bitmap s; a; ind x'] s s') s.
Proof.
  unfold Fs.bmap. apply wp_bind. eapply wp_iget_at; [done|].
  destruct (decide (bn < Z.of_nat Fs.NDIRECT)) as [Hd|Hd].
  - rewrite (bool_decide_eq_true_2 _ Hd). cbv zeta. apply wp_if; intros _.
    + apply wp_bind. eapply wp_mono; [by apply balloc_logs|]. intros a s1 [Ec H1]. cbn beta.
      apply wp_bind. eapply wp_iset; [by rewrite Ec|]. apply wp_ret.
      exists (Fs.set_addr (Z.to_nat bn) a (Fs.di e)). split_and!.
      * unfold entry. cbn [Fs.icache Fs.set_icache]. by rewrite Ec.
      * split; [by apply addrs_ok_set|]. intros _. apply addr_at_set_ne. unfold Fs.NDIRECT in *. lia.
      * apply logs_icache. eapply logs_trans; [exact H1|apply (logs_refl [])| |]; set_solver.
    + apply wp_ret. exists (Fs.di e). split_and!; [by apply entry_id|done|apply logs_refl].
  - rewrite (bool_decide_eq_false_2 _ Hd). cbv zeta. apply wp_if; intros _; [|done].
    apply wp_bind. eapply wp_mono; [exact indirect_logs|]. intros b s1 (x1 & -> & He1 & Hg1 & H1). cbn beta.
    apply wp_bind, wp_gets. apply wp_if; intros _.
    + apply wp_bind. eapply wp_mono; [apply balloc_logs; by rewrite (proj1 H1)|].
      intros a s2 [Ec2 H2]. cbn beta. apply wp_bind. eapply wp_mono; [apply log_write_logs|].
      intros _ s3 [Ec3 H3]. cbn beta. apply wp_ret. exists x1. split_and!; [|done|].
      * unfold entry. by rewrite Ec3, Ec2, He1.
      * assert (Eb : bitmap s1 = bitmap s) by (unfold bitmap; by rewrite (proj1 H1)). rewrite Eb in H2.
        assert (H23 : logs [bitmap s; a; ind x1] s1 s3) by (eapply logs_trans; [exact H2|exact H3|..]; set_solver).
        eapply logs_trans; [exact H1|exact H23|..]; set_solver.
    + apply wp_ret. exists x1. split_and!; [done|done|].
      eapply logs_trans; [exact H1|apply (logs_refl [])|..]; set_solver.
Qed.

End Logged.

Lemma grown_trans x y z : grown x y → grown y z → grown x z.
Proof. intros [Hy E1] [Hz E2]. split; [done|]. intros H. rewrite E2; [by apply E1|]. by rewrite E1. Qed.

Lemma iupdate_logs ip e s :
  Fs.icache s !! ip = Some e →
  wp (Fs.iupdate ip) (λ _ s', Fs.icache s' = Fs.icache s ∧ logs [Fs.IBLOCK (Fs.inum e) (Fs.sb s)] s s') s.
Proof.
  intros He. unfold Fs.iupdate. apply wp_bind. eapply wp_iget_at; [done|]. apply wp_bind, wp_get.
  apply wp_bind, wp_gets. apply log_write_logs.
Qed.

(** The number of blocks that [n] bytes from [off] on are in, at most. *)
Definition span (off n : Z) : Z := (off mod Fs.BSZ + n + (Fs.BSZ - 1)) / Fs.BSZ.

Lemma span_step off n m :
  0 < n → m = Z.min n (Fs.BSZ - off mod Fs.BSZ) →
  (n - m = 0 → 1 ≤ span off n) ∧ (0 < n - m → span (off + m) (n - m) + 1 ≤ span off n).
Proof.
  intros Hn ->. unfold span, Fs.BSZ in *. pose proof (Z.mod_pos_bound off 512 eq_refl). split; intros Hnm.
  - apply Z.div_le_lower_bound; lia.
  - rewrite Z.min_r by lia. assert ((off + (512 - off mod 512)) mod 512 = 0) as ->.
    { pose proof (Z.div_mod off 512 ltac:(lia)).
      replace (off + (512 - off mod 512)) with ((off / 512 + 1) * 512) by lia. by apply Z.mod_mul. }
    rewrite <- Z.div_add by lia. apply Z.div_le_mono; lia.
Qed.

Lemma writei_loop_logs ip fuel : ∀ off src s e,
  Fs.sb_size (Fs.sb s) ≤ Fs.BPB → Fs.icache s !! ip = Some e → addrs_ok (Fs.di e) →
  wp (Fs.writei_loop fuel ip off src) (λ _ s', ∃ x' l, entry s ip e x' s' ∧ grown (Fs.di e) x' ∧
    (length l ≤ Z.to_nat (if bool_decide (src = []) then 0 else span off (Z.of_nat (length src))))%nat ∧
    logs (bitmap s :: 0 :: ind x' :: l) s s') s.
Proof.
  induction fuel as [|fuel IH]; intros off src s e Hsz He Ha; cbn [Fs.writei_loop]; [done|].
  destruct (decide (src = [])) as [->|Hne].
  { apply wp_ret. exists (Fs.di e), []. split_and!; [by apply entry_id|done|simpl; lia|apply logs_refl]. }
  rewrite (bool_decide_eq_false_2 (src = [])) by done.
  assert (Hpos : (0 < length src)%nat) by (destruct src; simpl; [done|lia]).
  rewrite (bool_decide_eq_true_2 _ Hpos).
  apply wp_bind. eapply wp_mono; [by apply (bmap_logs ip s e Hsz He Ha)|].
  intros a s1 (x1 & He1 & Hg1 & H1). cbn beta. apply wp_bind, wp_gets. cbv zeta.
  set (m := Z.min _ _). pose proof (Z.mod_pos_bound off Fs.BSZ eq_refl) as Hmod.
  assert (Hm : 0 < m ≤ Z.of_nat (length src)) by (unfold m; lia).
  apply wp_bind. eapply wp_mono; [apply log_write_logs|]. intros _ s2 [Ec2 H2]. cbn beta.
  assert (He2 : Fs.icache s2 !! ip = Some (Fs.set_di x1 e)).
  { rewrite Ec2, He1. apply list_lookup_insert_eq. by eapply lookup_lt_Some. }
  assert (E12 : Fs.sb s2 = Fs.sb s) by (rewrite (proj1 H2); apply H1).
  eapply wp_mono; [apply (IH _ _ s2 (Fs.set_di x1 e)); [by rewrite E12|done|apply Hg1]|].
  intros _ s3 (x3 & l & He3 & Hg3 & Hl & H3). exists x3, (a :: l). split_and!.
  - unfold entry in *. rewrite He3, Ec2, He1. by rewrite list_insert_insert_eq.
  - by eapply grown_trans.
  - destruct (span_step off (Z.of_nat (length src)) m ltac:(lia) eq_refl) as [S1 S2].
    assert (El : Z.of_nat (length (drop (Z.to_nat m) src)) = Z.of_nat (length src) - m) by (rewrite length_drop; lia).
    cbn [length]. case_bool_decide as Hd.
    + rewrite Hd in El. simpl in El. specialize (S1 ltac:(lia)). lia.
    + rewrite El in Hl. destruct (drop (Z.to_nat m) src) eqn:Ed; [done|]. simpl in El. specialize (S2 ltac:(lia)).
      assert (0 ≤ span (off + m) (Z.of_nat (length src) - m)).
      { apply Z.div_pos; [|done]. pose proof (Z.mod_pos_bound (off + m) Fs.BSZ eq_refl). unfold Fs.BSZ in *. lia. }
      lia.
  - assert (Eb : bitmap s2 = bitmap s) by (unfold bitmap; by rewrite E12). rewrite Eb in H3. cbn [Fs.di Fs.set_di] in Hg3.
    assert (Hi : ind x1 = 0 ∨ ind x1 = ind x3) by (destruct (decide (ind x1 = 0)); [by left|right; symmetry; by apply Hg3]).
    assert (H12 : logs [bitmap s; a; ind x1] s s2) by (eapply logs_trans; [exact H1|exact H2|..]; set_solver).
    eapply logs_trans; [exact H12|exact H3|..]; [destruct Hi as [->| ->]|]; set_solver.
Qed.

(** *** [writei] *)

Definition cache_wf (s : Fs.fss) : Prop := ∀ ip e, Fs.icache s !! ip = Some e → addrs_ok (Fs.di e).

(** A transaction of at most [n] blocks. *)
Definition few (n : nat) (s s' : Fs.fss) : Prop := ∃ X, (length X ≤ n)%nat ∧ logs X s s'.

Lemma cache_wf_insert s s' ip e :
  cache_wf s → Fs.icache s' = <[ip := e]> (Fs.icache s) → addrs_ok (Fs.di e) → cache_wf s'.
Proof.
  intros Hw E He jp e' Hj. rewrite E in Hj. apply list_lookup_insert_Some in Hj as [(_ & <- & _)|[_ Hj]]; [done|].
  by eapply Hw.
Qed.

Section Write.

Context (dev_write : Z → option (nat → list Z → M Fs.fss Z)).
(** A driver writes to its device, not to the log. *)
Context (dev_unlogged : ∀ mj g, dev_write mj = Some g → ∀ ip l s, cache_wf s →
  wp (g ip l) (λ _ s', cache_wf s' ∧ logs [] s s') s).

Lemma span_chunk off n : 0 ≤ n ≤ max_chunk → (Z.to_nat (span off n) ≤ 4)%nat.
Proof.
  change max_chunk with 1536. change (span off n) with ((off mod 512 + n + 511) / 512). intros Hn. pose proof (Z.mod_pos_bound off 512 eq_refl).
  assert ((off mod 512 + n + 511) / 512 < 5) by (apply Z.div_lt_upper_bound; lia). lia.
Qed.

Lemma writei_logs ip src off s :
  cache_wf s → Fs.sb_size (Fs.sb s) ≤ Fs.BPB → Z.of_nat (length src) ≤ max_chunk →
  wp (Fs.writei dev_write ip src off) (λ _ s', cache_wf s' ∧ few 8 s s') s.
Proof using dev_unlogged.
  intros Hw Hsz Hlen. assert (Hsame : cache_wf s ∧ few 8 s s) by (split; [done|exists []; split; [simpl; lia|apply logs_refl]]).
  unfold Fs.writei. destruct (Fs.icache s !! ip) as [e|] eqn:He.
  2:{ unfold wp, mbind, M_bind, Fs.iget_at. by rewrite He. }
  apply wp_bind. eapply wp_iget_at; [done|]. cbv zeta. apply wp_if; intros _.
  { apply wp_if; intros _; [by apply wp_ret|]. destruct (dev_write _) as [g|] eqn:Eg; [|by apply wp_ret].
    eapply wp_mono; [by eapply dev_unlogged|]. intros r s' [Hw' Hl]. split; [done|]. exists []. split; [simpl; lia|done]. }
  apply wp_if; intros _; [by apply wp_ret|]. apply wp_if; intros _; [by apply wp_ret|].
  apply wp_bind. eapply wp_mono; [apply (writei_loop_logs ip _ _ _ s e Hsz He (Hw _ _ He))|].
  intros _ s1 (x1 & l & He1 & Hg1 & Hl & H1). cbn beta.
  assert (Hl4 : (length l ≤ 4)%nat).
  { pose proof (span_chunk off (Z.of_nat (length src)) ltac:(lia)). case_bool_decide; lia. }
  assert (Hw1 : cache_wf s1) by (eapply cache_wf_insert; [exact Hw|exact He1|apply Hg1]).
  assert (Hlk1 : Fs.icache s1 !! ip = Some (Fs.set_di x1 e)).
  { rewrite He1. apply list_lookup_insert_eq. by eapply lookup_lt_Some. }
  apply wp_bind. eapply wp_iget_at; [done|]. apply wp_bind. apply wp_if; intros _.
  - apply wp_bind. eapply wp_iset; [done|]. set (e2 := Fs.set_di _ _). set (s2 := Fs.set_icache _ s1).
    assert (Hlk2 : Fs.icache s2 !! ip = Some e2) by (apply list_lookup_insert_eq; by eapply lookup_lt_Some).
    eapply wp_mono; [by apply (iupdate_logs ip e2)|]. intros _ s3 [Ec3 H3]. cbn beta. apply wp_ret. split.
    + eapply cache_wf_insert; [exact Hw1|rewrite Ec3; reflexivity|apply Hg1].
    + exists (Fs.IBLOCK (Fs.inum e2) (Fs.sb s2) :: bitmap s :: 0 :: ind x1 :: l). split; [cbn [length]; lia|].
      eapply logs_trans; [apply logs_icache, H1|exact H3|..]; set_solver.
  - apply wp_ret. apply wp_ret. split; [done|]. eexists. split; [|exact H1]. cbn [length]. lia.
Qed.

Lemma dinode_get_addrs d o : addrs_ok (Fs.dinode_get d o).
Proof. unfold addrs_ok, Fs.dinode_get. simpl. reflexivity. Qed.

Lemma ilock_logs ip s : cache_wf s → wp (Fs.ilock ip) (λ _ s', cache_wf s' ∧ logs [] s s') s.
Proof.
  intros Hw. unfold Fs.ilock. destruct (Fs.icache s !! ip) as [e|] eqn:He.
  2:{ unfold wp, mbind, M_bind, Fs.iget_at. by rewrite He. }
  apply wp_bind. eapply wp_iget_at; [done|]. apply wp_if; intros _; [done|].
  apply wp_bind. unfold Fs.acquire_inode. apply wp_bind. eapply wp_iget_at; [done|]. apply wp_if; intros _; [done|].
  eapply wp_iset; [done|]. set (s1 := Fs.set_icache _ s).
  assert (Hw1 : cache_wf s1) by (eapply cache_wf_insert; [exact Hw|reflexivity|exact (Hw _ _ He)]).
  assert (He1 : Fs.icache s1 !! ip = Some (Fs.set_locked true e)) by (apply list_lookup_insert_eq; by eapply lookup_lt_Some).
  apply wp_bind. eapply wp_iget_at; [done|].
  apply wp_if; intros _; [apply wp_ret; split; [done|apply logs_icache, logs_refl]|].
  apply wp_bind, wp_get. apply wp_bind, wp_gets. cbv zeta. apply wp_bind. eapply wp_iset; [done|].
  apply wp_if; intros _; [done|]. apply wp_ret. split; [|apply logs_icache, logs_icache, logs_refl].
  eapply cache_wf_insert; [exact Hw1|reflexivity|apply dinode_get_addrs].
Qed.

Lemma iunlock_logs ip s : cache_wf s → wp (Fs.iunlock ip) (λ _ s', cache_wf s' ∧ logs [] s s') s.
Proof.
  intros Hw. unfold Fs.iunlock. destruct (Fs.icache s !! ip) as [e|] eqn:He.
  2:{ unfold wp, mbind, M_bind, Fs.iget_at. by rewrite He. }
  apply wp_bind. eapply wp_iget_at; [done|]. apply wp_if; intros _; [done|]. eapply wp_iset; [done|]. split; [|apply logs_icache, logs_refl].
  eapply cache_wf_insert; [exact Hw|reflexivity|exact (Hw _ _ He)].
Qed.

(** ** Transactions *)

Definition fits (t : list Z) : Prop := (size (list_to_set t : gset Z) ≤ Z.to_nat MAXOPBLOCKS)%nat.

Lemma fits_few s s' : Fs.logged s = [] → few 8 s s' → fits (Fs.logged s').
Proof.
  intros E (X & HX & _ & HL). unfold fits.
  assert (Hs : (size (list_to_set X : gset Z) ≤ length X)%nat).
  { clear. induction X as [|x X IH]; [done|]. cbn [list_to_set length]. rewrite size_union_alt.
    pose proof (size_singleton (C := gset Z) x). assert (size (list_to_set X ∖ {[x]} : gset Z) ≤ size (list_to_set X : gset Z))%nat by (apply subseteq_size; set_solver). lia. }
  assert (Hsub : (list_to_set (Fs.logged s') : gset Z) ⊆ list_to_set X).
  { intros b Hb%elem_of_list_to_set. apply elem_of_list_to_set. destruct (HL b Hb) as [H|]; [|done]. rewrite E in H. set_solver. }
  apply subseteq_size in Hsub. change (Z.to_nat MAXOPBLOCKS) with 10%nat. lia.
Qed.

(** The state a call ends in, whatever the outcome. *)
Definition final {S A} (o : outcome S A) : S := match o with Ok _ s | Panic _ s | Undef _ s | Spin s => s end.

Definition bounded (k k' : kst) : Prop := ∃ ts, trans k' = trans k ++ ts ∧ Forall fits ts.

(** [wpo m Q E k]: [Q] if [m] returns from [k], [E] if it does not. *)
Definition wpo {A} (m : M kst A) (Q : A → kst → Prop) (E : kst → Prop) (k : kst) : Prop :=
  match m k with Ok a k' => Q a k' | Panic _ k' | Undef _ k' | Spin k' => E k' end.

Lemma wpo_bind {A B} (m : M kst A) (g : A → M kst B) Q E k : wpo m (λ a k', wpo (g a) Q E k') E k → wpo (m ≫= g) Q E k.
Proof. unfold wpo, mbind, M_bind. by destruct (m k). Qed.

Lemma wpo_mono {A} (m : M kst A) (P Q : A → kst → Prop) E k : wpo m P E k → (∀ a k', P a k' → Q a k') → wpo m Q E k.
Proof. unfold wpo. destruct (m k); auto. Qed.

Lemma wpo_in_fs {A} (m : M Fs.fss A) (Q : A → kst → Prop) (E : kst → Prop) k :
  wp m (λ a s, Q a (set_fs s k)) (fs k) → (∀ s, E (set_fs s k)) → wpo (in_fs m) Q E k.
Proof. unfold wpo, wp, in_fs, zoom. destruct (m (fs k)); auto. Qed.

Lemma bounded_refl k k' : trans k' = trans k → bounded k k'.
Proof. intros E. exists []. by rewrite app_nil_r. Qed.

Lemma bounded_trans k k1 k2 : bounded k k1 → bounded k1 k2 → bounded k k2.
Proof.
  intros (t1 & E1 & F1) (t2 & E2 & F2). exists (t1 ++ t2). split; [by rewrite E2, E1, app_assoc|]. by apply Forall_app.
Qed.

Definition small_disk (k : kst) : Prop := cache_wf (fs k) ∧ Fs.sb_size (Fs.sb (fs k)) ≤ Fs.BPB.

Lemma write_chunk_logs f ip src k :
  small_disk k → Z.of_nat (length src) ≤ max_chunk →
  wpo (write_chunk dev_write f ip src) (λ _ k', small_disk k' ∧ bounded k k') (bounded k) k.
Proof using dev_unlogged.
  intros [Hw Hsz] Hlen. unfold write_chunk. apply wpo_bind. unfold wpo at 1, begin_op, modify.
  apply wpo_bind, wpo_in_fs; [|intros s; by apply bounded_refl].
  eapply wp_mono; [apply ilock_logs; exact Hw|]. intros _ s1 [Hw1 H1]. cbn beta.
  apply wpo_bind. unfold wpo at 1, file_at. cbn [ftable set_fs]. destruct (ftable k !! f) as [x|] eqn:Hf; [|by apply bounded_refl].
  apply wpo_bind, wpo_in_fs; [|intros s; by apply bounded_refl]. cbn [fs set_fs].
  eapply wp_mono; [apply writei_logs; [exact Hw1|by rewrite (proj1 H1)|done]|]. intros r s2 [Hw2 H2]. cbn beta.
  assert (Hrest : ∀ k2, fs k2 = s2 → trans k2 = trans k →
    wpo (in_fs (Fs.iunlock ip) ;; end_op ;; mret r) (λ _ k', small_disk k' ∧ bounded k k') (bounded k) k2).
  { intros k2 E2 Et. apply wpo_bind, wpo_in_fs; [|intros s; by apply bounded_refl]. rewrite E2.
    eapply wp_mono; [apply iunlock_logs; exact Hw2|]. intros _ s3 [Hw3 H3]. cbn beta.
    apply wpo_bind. unfold wpo at 1, end_op, modify, wpo, mret, M_ret. cbn [fs set_fs set_trans trans].
    destruct H2 as (X & HX & H2).
    assert (H13 : logs X (Fs.Fss (Fs.blk (fs k)) [] (Fs.sb (fs k)) (Fs.icache (fs k))) s3).
    { eapply logs_trans; [exact H1|eapply logs_trans; [exact H2|exact H3|..]|..]; set_solver. }
    split; [split; [exact Hw3|by cbn [fs set_fs set_trans]; rewrite (proj1 H13)]|].
    exists [Fs.logged s3]. split; [cbn; by rewrite Et|]. constructor; [|done]. eapply fits_few; [|by exists X]. done. }
  apply wpo_bind. destruct (bool_decide (0 < r)).
  - unfold wpo at 1, upd_file, modify. by apply Hrest.
  - unfold wpo at 1, mret, M_ret. by apply Hrest.
Qed.

Lemma filewrite_loop_logs fuel f ip : ∀ i rest k,
  small_disk k → wpo (filewrite_loop dev_write fuel f ip i rest) (λ _ k', bounded k k') (bounded k) k.
Proof using dev_unlogged.
  induction fuel as [|fuel IH]; intros i rest k Hd; cbn [filewrite_loop]; [by apply bounded_refl|].
  destruct (bool_decide _); [|by apply bounded_refl]. cbv zeta.
  apply wpo_bind. eapply wpo_mono; [apply write_chunk_logs; [done|rewrite length_take; change max_chunk with 1536; lia]|].
  intros r k1 [Hd1 Hb1]. cbn beta. destruct (bool_decide (r < 0)); [done|]. destruct (bool_decide (r ≠ _)); [done|].
  specialize (IH (i + r) (drop (Z.to_nat (Z.min (Z.of_nat (length rest)) max_chunk)) rest) k1 Hd1).
  unfold wpo in *. destruct (filewrite_loop _ _ _ _ _ _ _); by eapply bounded_trans.
Qed.

(** C20: On a disk with one bitmap block (at most [BPB] blocks), each transaction of
    [filewrite] logs at most [MAXOPBLOCKS] distinct blocks, whatever it writes,
    wherever the offset is, and also when it ends in a panic. *)
Theorem filewrite_fits_log killed f src k :
  cache_wf (fs k) → Fs.sb_size (Fs.sb (fs k)) ≤ Fs.BPB →
  ∃ ts, trans (final (filewrite dev_write killed f src k)) = trans k ++ ts ∧ Forall fits ts.
Proof using dev_unlogged.
  intros Hw Hsz. enough (H : wpo (filewrite dev_write killed f src) (λ _ k', bounded k k') (bounded k) k).
  { unfold wpo in H. by destruct (filewrite _ _ _ _ _). }
  unfold filewrite. apply wpo_bind. unfold wpo at 1, file_at. destruct (ftable k !! f) as [x|]; [|by apply bounded_refl].
  destruct (negb _); [by apply bounded_refl|]. destruct (ftyp x); [by apply bounded_refl| |].
  - apply wpo_bind. unfold wpo at 1, get. destruct (pipes k !! _) as [p|]; [|by apply bounded_refl].
    destruct (pipewrite _ _ _ _) as [[p' w] r]. apply wpo_bind. unfold wpo at 1, modify. destruct r; by apply bounded_refl.
  - apply wpo_bind. eapply wpo_mono; [by apply filewrite_loop_logs|]. intros r k' Hb. exact Hb.
Qed.

End Write.

End FileLog.
