(* ===== verification/FileThm.v ===== *)
(** * What open files promise

    The theorems about [File] and [Sysfile]: reference counts, the contents a
    [filewrite] leaves and a [fileread] finds, and the size of the transactions
    of [filewrite]. *)

From S2P Require Import Prelude Log Pipe Fs FsInv FsAlloc FsFile FsWrite FsTrunc FsCache FsDir FsPath FsDemo FsThm.
From S2P Require Import Syscall File Sysfile FileRefs FileSafe FileLog.

Module FileThm.
Import File Sysfile FileRefs FileSafe FileLog.

(** ** Contents *)

(** [wpk m Q k]: [m] returns from [k] with [Q], or panics because a resource of the
    file system is used up. *)
Definition wpk {A} (m : M kst A) (Q : A → kst → Prop) (k : kst) : Prop :=
  match m k with Ok a k' => Q a k' | Panic msg k' => FsAlloc.exhausted msg (fs k') | _ => False end.

Lemma wpk_bind {A B} (m : M kst A) (g : A → M kst B) Q k : wpk m (λ a k', wpk (g a) Q k') k → wpk (m ≫= g) Q k.
Proof. unfold wpk, mbind, M_bind. by destruct (m k). Qed.

Lemma wpk_mono {A} (m : M kst A) (P Q : A → kst → Prop) k : wpk m P k → (∀ a k', P a k' → Q a k') → wpk m Q k.
Proof. unfold wpk. destruct (m k); auto. Qed.

Lemma wpk_eq {A} (m : M kst A) (Q : A → kst → Prop) k a k' : m k = Ok a k' → Q a k' → wpk m Q k.
Proof. intros E HQ. unfold wpk. by rewrite E. Qed.

Lemma wpk_in_fs {A} (m : M Fs.fss A) (Q : A → kst → Prop) k :
  FsAlloc.wpf m (λ a s, Q a (set_fs s k)) (fs k) → wpk (in_fs m) Q k.
Proof. unfold wpk, FsAlloc.wpf, in_fs, zoom. by destruct (m (fs k)). Qed.

Lemma wpk_upd_file f g x (Q : unit → kst → Prop) k :
  ftable k !! f = Some x → Q tt (set_ftable (<[f := g x]> (ftable k)) k) → wpk (upd_file f g) Q k.
Proof. intros Hf HQ. unfold wpk, upd_file, modify. by rewrite (upd_insert _ _ _ _ Hf). Qed.

Lemma wpk_file_at f x (Q : file → kst → Prop) k : ftable k !! f = Some x → Q x k → wpk (file_at f) Q k.
Proof. intros Hf HQ. unfold wpk, file_at. by rewrite Hf. Qed.

Import FsInv FsAlloc FsFile FsWrite FsCache.

(** Open file [x], at place [f] of the table, is inode [i], which is no device. *)
Record opened (ds : Z) (V : Z → Fs.dinode) (f : nat) (x : file) (i : Z) (e : Fs.inode) (k : kst) : Prop := Opened {
  op_file : ftable k !! f = Some x;
  op_ftyp : ftyp x = FD_INODE;
  op_inv : inv none none ds (fs k) V;
  op_held : held (fs k) (fip x) i e;
  op_unlocked : Fs.ilocked e = false;
  op_type : Fs.type (V i) ≠ 0;
  op_dev : Fs.type (V i) ≠ Fs.T_DEV;
}.

(** From [k] to [k'], the bytes [src] were written at the offset of [x]. *)
Record wrote_file (ds : Z) (V : Z → Fs.dinode) (f : nat) (x : file) (i : Z) (src : list Z) (k k' : kst) : Prop := WroteFile {
  wf_table : ftable k' = <[f := set_foff (foff x + Z.of_nat (length src)) x]> (ftable k);
  wf_sb : Fs.sb (fs k') = Fs.sb (fs k);
  wf_view : ∃ V' e', opened ds V' f (set_foff (foff x + Z.of_nat (length src)) x) i e' k' ∧
    file_of (Fs.blk (fs k')) (V' i) =
      set_data (Fs.splice (Z.to_nat (foff x)) src (contents (Fs.blk (fs k)) (V i))) (file_of (Fs.blk (fs k)) (V i)) ∧
    ∀ j, inode_no (Fs.sb (fs k)) j → j ≠ i → file_of (Fs.blk (fs k')) (V' j) = file_of (Fs.blk (fs k)) (V j);
}.

Lemma splice_app o (a b l : list Z) :
  (o ≤ length l)%nat → Fs.splice (o + length a) b (Fs.splice o a l) = Fs.splice o (a ++ b) l.
Proof.
  intros Ho. unfold Fs.splice. rewrite length_app.
  rewrite (app_assoc (take o l) a), take_app_length' by (rewrite length_app, length_take; lia).
  rewrite <- !app_assoc. do 3 f_equal.
  rewrite (app_assoc (take o l) a), drop_app_ge by (rewrite length_app, length_take; lia).
  rewrite length_app, length_take, drop_drop. f_equal. lia.
Qed.

Lemma contents_size ds s V i data :
  inv none none ds s V → inode_no (Fs.sb s) i → contents (Fs.blk s) (V i) = data → Fs.size (V i) = Z.of_nat (length data).
Proof.
  intros Hv Hi <-. destruct (fits_size _ (dok_fits _ _ (dv_ok _ _ _ _ _ (inv_disk _ _ _ _ _ Hv) i Hi))) as [H0 _].
  rewrite contents_length. lia.
Qed.

Section Contents.

Context (dev_read : Z → option (nat → Z → M Fs.fss (Z * list Z))).
Context (dev_write : Z → option (nat → list Z → M Fs.fss Z)).
Context (killed : bool).
Context (ds : Z) (f : nat) (i : Z).

(** One transaction of [filewrite]. *)
Lemma write_chunk_spec V x e k src :
  opened ds V f x i e k → src ≠ [] → Forall is_byte src → 0 ≤ foff x ≤ Fs.size (V i) →
  foff x + Z.of_nat (length src) ≤ Fs.MAXFILE * Fs.BSZ →
  wpk (write_chunk dev_write f (fip x) src) (λ r k', r = Z.of_nat (length src) ∧ wrote_file ds V f x i src k k') k.
Proof.
  intros [Hf Hft Hv Hh Hlk Ht Hd] Hne Hsrc Hoff Hmax. unfold write_chunk. pose proof (lookup_lt_Some _ _ _ Hf) as Hltf.
  assert (Hlen : 0 < Z.of_nat (length src)) by (destruct src; simpl in *; [done|lia]).
  destruct (held_no _ _ _ _ _ _ _ _ Hv Hh) as [Hi _].
  apply wpk_bind. eapply wpk_eq; [reflexivity|].
  set (s0 := Fs.Fss (Fs.blk (fs k)) [] (Fs.sb (fs k)) (Fs.icache (fs k))).
  assert (Hv0 : inv none none ds s0 V) by (destruct Hv; by split).
  assert (Hh0 : held s0 (fip x) i e) by (destruct Hh; by split).
  destruct (ilock_spec none none ds s0 V (fip x) i e Hv0 ltac:(by intros []) Hh0 Hlk Ht) as (E1 & Hv1 & Hc1).
  apply wpk_bind, wpk_in_fs. eapply wpf_eq; [exact E1|]. set (s1 := Fs.set_icache _ s0) in *.
  apply wpk_bind. eapply wpk_file_at; [exact Hf|].
  apply wpk_bind, wpk_in_fs. eapply wpf_mono; [eapply (writei_spec none none ds (fip x) i dev_write _ s1 V); try done; by intros []|].
  intros r s2 [-> [V2 Hup]]. rewrite (bool_decide_eq_true_2 _ Hlen).
  apply wpk_bind. eapply wpk_upd_file; [exact Hf|].
  destruct (iunlock_spec none none ds s2 V2 (fip x) i _ (up_inv _ _ _ _ _ _ _ _ _ _ _ Hup) (up_cached _ _ _ _ _ _ _ _ _ _ _ Hup) eq_refl) as (E3 & Hv3 & Hc3).
  apply wpk_bind, wpk_in_fs. eapply wpf_eq; [exact E3|].
  apply wpk_bind. eapply wpk_eq; [reflexivity|]. eapply wpk_eq; [reflexivity|]. split; [done|].
  assert (Eu : u32 (foff x + Z.of_nat (length src)) = foff x + Z.of_nat (length src)).
  { apply u32_small. unfold Fs.MAXFILE, Fs.BSZ in *. lia. }
  destruct Hup as [Hv2 Hc2 Eic Esb Hfile Hoth]. cbn [fs ftable set_fs set_ftable set_trans]. rewrite Eu.
  split; [done|by cbn; rewrite Esb|]. exists V2. eexists. split_and!; [split| |]; cbn [fs ftable set_fs set_ftable set_trans].
  - by apply list_lookup_insert_eq.
  - done.
  - exact Hv3.
  - apply (cached_held _ _ _ _ _ Hc3).
  - done.
  - by apply (f_equal a_type) in Hfile; cbn in Hfile; rewrite Hfile.
  - by apply (f_equal a_type) in Hfile; cbn in Hfile; rewrite Hfile.
  - exact Hfile.
  - intros j Hj Hji. by apply Hoth.
Qed.

Lemma max_chunk_eq : max_chunk = 1536.
Proof. done. Qed.

Lemma wrote_file_nil V x e k : opened ds V f x i e k → wrote_file ds V f x i [] k k.
Proof.
  intros Hop. assert (Ex : set_foff (foff x + Z.of_nat (length (@nil Z))) x = x).
  { destruct x. unfold set_foff. cbn. by rewrite Z.add_0_r. }
  split; rewrite ?Ex.
  - symmetry. apply list_insert_id, Hop.
  - done.
  - exists V, e. split_and!; [done| |done]. unfold Fs.splice, set_data, file_of. cbn [length].
    by rewrite Nat.add_0_r, app_nil_l, take_drop.
Qed.

(** Two writes in a row are one. *)
Lemma wrote_file_app V x e k k1 k2 a b V1 e1 :
  opened ds V f x i e k → 0 ≤ foff x ≤ Fs.size (V i) →
  ftable k1 = <[f := set_foff (foff x + Z.of_nat (length a)) x]> (ftable k) →
  Fs.sb (fs k1) = Fs.sb (fs k) →
  opened ds V1 f (set_foff (foff x + Z.of_nat (length a)) x) i e1 k1 →
  file_of (Fs.blk (fs k1)) (V1 i) =
    set_data (Fs.splice (Z.to_nat (foff x)) a (contents (Fs.blk (fs k)) (V i))) (file_of (Fs.blk (fs k)) (V i)) →
  (∀ j, inode_no (Fs.sb (fs k)) j → j ≠ i → file_of (Fs.blk (fs k1)) (V1 j) = file_of (Fs.blk (fs k)) (V j)) →
  wrote_file ds V1 f (set_foff (foff x + Z.of_nat (length a)) x) i b k1 k2 →
  wrote_file ds V f x i (a ++ b) k k2.
Proof.
  intros Hop Hoff Etab Esb Hop1 Hf1 Ho1 [Etab2 Esb2 (V2 & e2 & Hop2 & Hf2 & Ho2)]. cbn [foff set_foff] in *.
  destruct (held_no _ _ _ _ _ _ _ _ (op_inv _ _ _ _ _ _ _ Hop) (op_held _ _ _ _ _ _ _ Hop)) as [Hi _].
  pose proof (contents_size _ _ _ _ _ (op_inv _ _ _ _ _ _ _ Hop) Hi eq_refl) as Hsz.
  assert (Hdata : contents (Fs.blk (fs k1)) (V1 i) = Fs.splice (Z.to_nat (foff x)) a (contents (Fs.blk (fs k)) (V i))) by
    by apply (f_equal a_data) in Hf1.
  assert (Ee : foff x + Z.of_nat (length a) + Z.of_nat (length b) = foff x + Z.of_nat (length (a ++ b))) by (rewrite length_app; lia).
  rewrite Ee in *. split; [|congruence|].
  - rewrite Etab2, Etab. by rewrite list_insert_insert_eq.
  - exists V2, e2. split_and!; [done| |].
    + rewrite Hf2, Hdata, Hf1. unfold set_data, file_of. cbn. f_equal.
      replace (Z.to_nat (foff x + Z.of_nat (length a))) with (Z.to_nat (foff x) + length a)%nat by lia.
      by rewrite splice_app by lia.
    + intros j Hj Hji. rewrite Ho2 by (rewrite ?Esb; done). by apply Ho1.
Qed.

Lemma filewrite_loop_spec fuel : ∀ rest r0 V x e k,
  (length rest < fuel)%nat →
  opened ds V f x i e k → Forall is_byte rest → 0 ≤ foff x ≤ Fs.size (V i) →
  foff x + Z.of_nat (length rest) ≤ Fs.MAXFILE * Fs.BSZ →
  wpk (filewrite_loop dev_write fuel f (fip x) r0 rest)
    (λ r k', r = r0 + Z.of_nat (length rest) ∧ wrote_file ds V f x i rest k k') k.
Proof.
  induction fuel as [|fuel IH]; intros rest r0 V x e k Hfuel Hop Hb Hoff Hmax; [lia|]. cbn [filewrite_loop].
  destruct (held_no _ _ _ _ _ _ _ _ (op_inv _ _ _ _ _ _ _ Hop) (op_held _ _ _ _ _ _ _ Hop)) as [Hi _].
  destruct (decide (rest = [])) as [->|Hne].
  { eapply wpk_eq; [reflexivity|]. split; [simpl; lia|]. by eapply wrote_file_nil. }
  assert (Hpos : (0 < length rest)%nat) by (destruct rest; simpl in *; [done|lia]).
  rewrite (bool_decide_eq_true_2 _ Hpos).
  cbv zeta. set (n1 := Z.min _ _). assert (Hl1 : length (take (Z.to_nat n1) rest) = Z.to_nat n1) by (rewrite length_take; lia).
  assert (Hn1 : 0 < n1 ≤ Z.of_nat (length rest)) by (unfold n1; rewrite max_chunk_eq; lia).
  apply wpk_bind. eapply wpk_mono; [eapply (write_chunk_spec V x e k (take (Z.to_nat n1) rest) Hop)|].
  - intros E. rewrite E in Hl1. simpl in Hl1. lia.
  - by apply Forall_take.
  - done.
  - rewrite Hl1. lia.
  - intros r k1 [-> [Etab Esb (V1 & e1 & Hop1 & Hf1 & Ho1)]].
    assert (En : Z.of_nat (length (take (Z.to_nat n1) rest)) = n1) by lia. rewrite En in *.
    rewrite (bool_decide_eq_false_2 (n1 < 0)) by lia. rewrite (bool_decide_eq_false_2 (n1 ≠ n1)) by auto.
    assert (Hsz1 : foff x + n1 ≤ Fs.size (V1 i)).
    { pose proof (contents_size _ _ _ _ _ (op_inv _ _ _ _ _ _ _ Hop) Hi eq_refl) as Hsz.
      rewrite (contents_size _ _ _ _ _ (op_inv _ _ _ _ _ _ _ Hop1) ltac:(by rewrite Esb) (f_equal a_data Hf1)).
      cbn [a_data set_data]. unfold Fs.splice. rewrite !length_app, length_take, Hl1. lia. }
    eapply wpk_mono; [eapply (IH _ _ V1 (set_foff (foff x + n1) x) e1 k1)|]; cbn [foff set_foff];
      rewrite ?length_drop; [lia|done|by apply Forall_drop|lia|lia|].
    intros r k2 [-> Hw]. split; [lia|]. rewrite <- (take_drop (Z.to_nat n1) rest).
    eapply (wrote_file_app V x e k k1 k2 (take (Z.to_nat n1) rest) _ V1 e1); rewrite ?En; done.
Qed.

Lemma filewrite_total V x e k src :
  opened ds V f x i e k → writable x = true → Forall is_byte src → 0 ≤ foff x ≤ Fs.size (V i) →
  foff x + Z.of_nat (length src) ≤ Fs.MAXFILE * Fs.BSZ →
  wpk (filewrite dev_write killed f src) (λ r k', r = Z.of_nat (length src) ∧ wrote_file ds V f x i src k k') k.
Proof.
  intros Hop Hw Hb Hoff Hmax. unfold filewrite. apply wpk_bind. eapply wpk_file_at; [apply Hop|].
  rewrite Hw. cbn [negb]. rewrite (op_ftyp _ _ _ _ _ _ _ Hop).
  apply wpk_bind. eapply wpk_mono; [by eapply (filewrite_loop_spec _ src 0 V x e); [lia|..]|].
  intros r k' [-> Hwr]. eapply wpk_eq; [reflexivity|]. rewrite bool_decide_eq_true_2 by lia. done.
Qed.

(** C16: [filewrite] of a file open for writing writes all of its bytes, however
    many transactions it takes: it returns their number, the contents of the file
    are the old ones with the bytes in place from the offset on, the offset is
    moved behind them, and the other files and the other open files are as they
    were.  The only other outcome is a panic on a full disk. *)
Theorem filewrite_writes V x e k src :
  opened ds V f x i e k → writable x = true → Forall is_byte src → 0 ≤ foff x ≤ Fs.size (V i) →
  foff x + Z.of_nat (length src) ≤ Fs.MAXFILE * Fs.BSZ →
  wpk (filewrite dev_write killed f src) (λ r k', r = Z.of_nat (length src) ∧ wrote_file ds V f x i src k k') k.
Proof. apply filewrite_total. Qed.

(** Another file open on the same inode sees the new contents. *)
Lemma opened_other V x e k g y eg (src : list Z) k' V' e' :
  opened ds V f x i e k → opened ds V g y i eg k → f ≠ g →
  ftable k' = <[f := set_foff (foff x + Z.of_nat (length src)) x]> (ftable k) →
  opened ds V' f (set_foff (foff x + Z.of_nat (length src)) x) i e' k' → opened ds V' g y i e' k'.
Proof.
  intros [] Hg Hne Etab Hop'.
  assert (Eip : fip y = fip x).
  { destruct (op_held _ _ _ _ _ _ _ Hg) as [Hy Ey Hry], op_held0 as [Hx Ex Hrx].
    eapply (cv_uniq _ _ _ _ (inv_cache _ _ _ _ _ op_inv0)); try done. congruence. }
  destruct Hop'. split; try done.
  - rewrite Etab, list_lookup_insert_ne by done. apply Hg.
  - apply Hg.
  - by rewrite Eip.
Qed.

Lemma fileread_spec g y V e k n :
  opened ds V g y i e k → readable y = true → 0 ≤ foff y ≤ Fs.size (V i) → 0 ≤ n → foff y + n < 2 ^ 32 →
  wpk (fileread dev_read killed g n) (λ r k',
    let l := take (Z.to_nat n) (drop (Z.to_nat (foff y)) (contents (Fs.blk (fs k)) (V i))) in
    r = (Z.of_nat (length l), l)) k.
Proof.
  intros [Hf Hft Hv Hh Hlk Ht Hd] Hr Hoff Hn Hov. unfold fileread. apply wpk_bind. eapply wpk_file_at; [done|].
  rewrite Hr. cbn [negb]. rewrite Hft.
  destruct (ilock_spec none none ds (fs k) V (fip y) i e Hv ltac:(by intros []) Hh Hlk Ht) as (E1 & Hv1 & Hc1).
  apply wpk_bind, wpk_in_fs. eapply wpf_eq; [exact E1|]. set (s1 := Fs.set_icache _ (fs k)) in *.
  apply wpk_bind, wpk_in_fs. rewrite (u32_small n) by lia.
  eapply wpf_eq; [apply (readi_spec none none ds s1 V (fip y) i _ Hv1 Hc1 dev_read (foff y) n Hd); unfold is_uint; lia|].
  set (l := take _ _). cbn [fst snd].
  destruct (iunlock_spec none none ds s1 V (fip y) i _ Hv1 Hc1 eq_refl) as (E3 & _ & _).
  apply wpk_bind. case_match.
  - eapply wpk_upd_file; [exact Hf|]. apply wpk_bind, wpk_in_fs. eapply wpf_eq; [exact E3|]. by eapply wpk_eq.
  - eapply wpk_eq; [reflexivity|]. apply wpk_bind, wpk_in_fs. eapply wpf_eq; [exact E3|]. by eapply wpk_eq.
Qed.

(** What one open file writes, another open file of the same inode reads at the
    same offset, byte for byte. *)
Theorem file_write_read_roundtrip V x e k g y eg src :
  opened ds V f x i e k → opened ds V g y i eg k → f ≠ g → writable x = true → readable y = true →
  foff y = foff x → Forall is_byte src → 0 ≤ foff x ≤ Fs.size (V i) →
  foff x + Z.of_nat (length src) ≤ Fs.MAXFILE * Fs.BSZ →
  wpk (filewrite dev_write killed f src ;; fileread dev_read killed g (Z.of_nat (length src)))
    (λ r _, r = (Z.of_nat (length src), src)) k.
Proof.
  intros Hop Hog Hne Hw Hr Eo Hb Hoff Hmax. apply wpk_bind.
  eapply wpk_mono; [by apply (filewrite_total V x e)|].
  intros _ k' [_ [Etab Esb (V' & e' & Hop' & Hf' & _)]].
  pose proof (opened_other _ _ _ _ _ _ _ _ _ _ _ Hop Hog Hne Etab Hop') as Hog'.
  destruct (held_no _ _ _ _ _ _ _ _ (op_inv _ _ _ _ _ _ _ Hop) (op_held _ _ _ _ _ _ _ Hop)) as [Hi _].
  assert (Hdata : contents (Fs.blk (fs k')) (V' i) = Fs.splice (Z.to_nat (foff x)) src (contents (Fs.blk (fs k)) (V i))) by
    by apply (f_equal a_data) in Hf'.
  pose proof (contents_size _ _ _ _ _ (op_inv _ _ _ _ _ _ _ Hop) Hi eq_refl) as Hsz.
  pose proof (contents_size _ _ _ _ _ (op_inv _ _ _ _ _ _ _ Hop') ltac:(by rewrite Esb) Hdata) as Hsz'.
  unfold Fs.splice in Hsz'. rewrite !length_app, length_take in Hsz'.
  eapply wpk_mono; [apply (fileread_spec g y V' e' k' _ Hog' Hr); unfold Fs.MAXFILE, Fs.BSZ in *; lia|].
  intros r k2. cbv zeta. rewrite Hdata, Eo, Nat2Z.id, FsThm.splice_slice by lia. done.
Qed.

End Contents.

(** ** Reference counts *)

Inductive call : Type :=
| Dup | Read | Write | Close | Fstat | Link | Unlink | Open | Mkdir | Mknod | Chdir
| MkPipe (page : option (list Z))
| Fork (np : nat)
| Exit.

Section Calls.

Context (dev_read : Z → option (nat → Z → M Fs.fss (Z * list Z))).
Context (dev_write : Z → option (nat → list Z → M Fs.fss Z)).
Context (read_quiet : ∀ mj f, dev_read mj = Some f → ∀ ip n, quiet (f ip n)).
Context (write_quiet : ∀ mj f, dev_write mj = Some f → ∀ ip l, quiet (f ip l)).
Context (killed : bool).

(** A call of process [me]. *)
Definition run (me : nat) (c : call) : M kst Z :=
  match c with
  | Dup => sys_dup me
  | Read => sys_read dev_read killed me
  | Write => sys_write dev_write killed me
  | Close => sys_close me
  | Fstat => sys_fstat me
  | Link => sys_link dev_read dev_write me
  | Unlink => sys_unlink dev_read dev_write me
  | Open => sys_open dev_read dev_write me
  | Mkdir => sys_mkdir dev_read dev_write me
  | Mknod => sys_mknod dev_read dev_write me
  | Chdir => sys_chdir dev_read me
  | MkPipe page => sys_pipe me page
  | Fork np => fork_files me np ;; mret 0
  | Exit => exit_files me ;; mret 0
  end.

(** The process exists, and a new process has no open files. *)
Definition callable (me : nat) (c : call) (k : kst) : Prop :=
  is_Some (procs k !! me) ∧
  match c with
  | Fork np => me ≠ np ∧ ∃ y, procs k !! np = Some y ∧ ofile y = replicate NOFILE None
  | _ => True
  end.

(** The memory of the process is whatever it made of it. *)
Inductive fstep : kst → kst → Prop :=
| fstep_call me c u r k k' : callable me c k → run me c (set_um u k) = Ok r k' → fstep k k'.

(** At boot. *)
Definition started (k : kst) : Prop :=
  Forall (λ x, fref x = 0 ∧ ftyp x = FD_NONE) (ftable k) ∧
  Forall (λ y, ofile y = replicate NOFILE None) (procs k) ∧ pipes k = ∅.

Lemma started_ok k : started k → files_ok k.
Proof.
  intros (Hft & Hps & Hpp). rewrite Forall_lookup in Hft. rewrite Forall_lookup in Hps.
  assert (Hn : ∀ f, nrefs f (procs k) = 0%nat).
  { intros f. unfold nrefs. clear Hft Hpp. induction (procs k) as [|y ps IH]; [done|]. cbn [sum_list_with].
    rewrite IH by (intros j z Hz; by apply (Hps (S j))). rewrite (Hps 0%nat y eq_refl).
    clear. induction NOFILE as [|n IHn]; [done|]. cbn [replicate sum_list_with]. by rewrite one_None. }
  split; split.
  - intros f x Hx. rewrite Hn. by destruct (Hft _ _ Hx).
  - intros f. rewrite Hn. lia.
  - intros f x Hx. destruct (Hft _ _ Hx). lia.
  - intros f x Hx _. by destruct (Hft _ _ Hx).
  - intros f x Hx. destruct (Hft _ _ Hx). lia.
  - intros p y Hy. by rewrite (Hps _ _ Hy), length_replicate.
  - intros p w f (x & Hx & Ht & _). destruct (Hft _ _ Hx). congruence.
  - intros p w f g (x & Hx & Ht & _). destruct (Hft _ _ Hx). congruence.
  - intros p x w. by rewrite Hpp, lookup_empty.
  - intros p x. by rewrite Hpp, lookup_empty.
Qed.

Lemma run_keeps me c k : files_ok k → callable me c k → wps (run me c) (λ _ k', files_ok k') k.
Proof using read_quiet write_quiet.
  intros Hi [Hme Hc]. destruct c; simpl.
  - by apply sys_dup_keeps.
  - by apply sys_read_keeps.
  - by apply sys_write_keeps.
  - by apply sys_close_keeps.
  - by apply sys_fstat_keeps.
  - by apply sys_link_keeps.
  - by apply sys_unlink_keeps.
  - by apply sys_open_keeps.
  - by apply sys_mkdir_keeps.
  - by apply sys_mknod_keeps.
  - by apply sys_chdir_keeps.
  - by apply sys_pipe_keeps.
  - destruct Hme as [x Hx], Hc as [Hne (y & Hy & Ey)]. apply wps_bind.
    eapply wps_mono; [by eapply fork_files_spec|]. intros ? k' [? _]. by apply wps_ret.
  - destruct Hme as [x Hx]. apply wps_bind.
    eapply wps_mono; [by eapply exit_files_spec|]. intros ? k' [? _]. by apply wps_ret.
Qed.

Lemma fstep_ok k k' : fstep k k' → files_ok k → files_ok k'.
Proof using read_quiet write_quiet.
  intros [me c u r k1 k1' Hc E] Hi. pose proof (run_keeps me c (set_um u k1) Hi Hc) as H. unfold wps in H. by rewrite E in H.
Qed.

(** C4: In every state that the calls of the processes reach from boot, the
    reference count of an open file is the number of descriptors, of all
    processes, that refer to it; a file has a type exactly when it is in use;
    each open end of a pipe is the end of one file, and a pipe is there as long
    as one of its ends is open and no longer. *)
Theorem file_counts k0 k :
  started k0 → rtc fstep k0 k →
  (∀ f x, ftable k !! f = Some x → fref x = Z.of_nat (nrefs f (procs k)) ∧ (ftyp x = FD_NONE ↔ fref x = 0)) ∧
  ends_ok (ftable k) (pipes k).
Proof using read_quiet write_quiet.
  intros H0 Hs. destruct (rtc_invariant _ files_ok _ _ fstep_ok Hs (started_ok _ H0)) as [Hc He].
  split; [|done]. intros f x Hf. pose proof (fi_ref _ _ _ _ Hc _ _ Hf). pose proof (fi_nonneg _ _ _ _ Hc _ _ Hf).
  split; [lia|]. split.
  - intros Ht. destruct (decide (fref x = 0)) as [|Hne]; [done|]. destruct (fi_used _ _ _ _ Hc _ _ Hf); [lia|set_solver|done].
  - by eapply fi_free.
Qed.

(** C22: When calls run one at a time, each to its end, no call that a process makes in
    a state reached from boot ends in a panic of [filedup], [fileclose], [fileread] or
    [filewrite], or uses a file or a pipe that has been freed.  With calls that overlap
    this fails: see [open_window_panics]. *)
Theorem file_calls_safe k0 k me c u :
  started k0 → rtc fstep k0 k → callable me c k →
  ∀ e, e ∈ file_faults → fault (run me c (set_um u k)) ≠ Some e.
Proof using read_quiet write_quiet.
  intros H0 Hs Hc e He E. pose proof (rtc_invariant _ files_ok _ _ fstep_ok Hs (started_ok _ H0)) as Hi.
  pose proof (run_keeps me c (set_um u k) Hi Hc) as H. unfold wps in H. destruct (run _ _ _); simpl in E; congruence.
Qed.

(** [sys_open] up to the point where the descriptor is in [ofile]. *)
Definition open_prefix (me : nat) : M kst (option nat) :=
  f ← filealloc;
  match f with
  | None => mret None
  | Some f => fdalloc me f
  end.

(** [sys_open] stores the descriptor before it gives the file a type.  When
    the entry of the table was open for reading before, another thread of the
    process that reads from the descriptor in between ends in
    [panic("fileread")]. *)
Theorem open_window_panics me k f x y fd p n :
  filealloc_loop (ftable k) 0 = Some f → ftable k !! f = Some x → ftyp x = FD_NONE → readable x = true →
  procs k !! me = Some y → length (ofile y) = NOFILE → fdalloc_loop (ofile y) 0 = Some fd →
  Syscall.argint 0 (um k) = Some (Z.of_nat fd) → Syscall.argint 2 (um k) = Some n →
  Syscall.argptr 1 n (um k) = Some p →
  ∃ k', open_prefix me k = Ok (Some fd) k' ∧ sys_read dev_read killed me k' = Panic "fileread" k'.
Proof.
  intros Hal Hf Ht Hr Hy Hlen Hfd Ha0 Ha2 Ha1.
  set (k1 := set_ftable (<[f := set_fref 1 x]> (ftable k)) k).
  set (k2 := set_procs (<[me := set_ofile fd (Some f) y]> (procs k)) k1). exists k2.
  pose proof (lookup_lt_Some _ _ _ Hf) as Hltf. pose proof (lookup_lt_Some _ _ _ Hy) as Hlty.
  apply fdalloc_loop_spec in Hfd as Hs. destruct Hs as [_ Hslot]. rewrite Nat.sub_0_r in Hslot.
  pose proof (lookup_lt_Some _ _ _ Hslot) as Hltd.
  assert (Ea : filealloc k = Ok (Some f) k1).
  { unfold filealloc, mbind, M_bind, get. rewrite Hal. unfold upd_file, modify, mret, M_ret. by rewrite (upd_insert _ _ _ _ Hf). }
  assert (Ed : fdalloc me f k1 = Ok (Some fd) k2).
  { unfold fdalloc, mbind, M_bind, proc_at. cbn [procs set_ftable k1]. rewrite Hy, Hfd.
    unfold upd_proc, modify, mret, M_ret. cbn [procs set_ftable]. by rewrite (upd_insert _ _ _ _ Hy). }
  assert (Ef : argfd me 0 k2 = Ok (Some (fd, f)) k2).
  { unfold argfd. rewrite (bind_step (argint 0) _ k2 (Some (Z.of_nat fd)) k2) by (unfold argint, gets; cbn; by rewrite Ha0).
    cbn beta iota. rewrite (bool_decide_eq_false_2 (Z.of_nat fd < 0)) by lia.
    rewrite (bool_decide_eq_false_2 (Z.of_nat NOFILE ≤ Z.of_nat fd)) by lia. cbn [orb].
    assert (Hp2 : proc_at me k2 = Ok (set_ofile fd (Some f) y) k2) by (unfold proc_at; cbn; by rewrite list_lookup_insert_eq).
    rewrite (bind_step _ _ _ _ _ Hp2), Nat2Z.id. cbn [ofile set_ofile]. by rewrite list_lookup_insert_eq. }
  split.
  - unfold open_prefix. by rewrite (bind_step _ _ _ _ _ Ea).
  - unfold sys_read. rewrite (bind_step _ _ _ _ _ Ef). cbn beta iota.
    rewrite (bind_step (argint 2) _ k2 (Some n) k2) by (unfold argint, gets; cbn; by rewrite Ha2). cbn beta iota.
    rewrite (bind_step (argptr 1 n) _ k2 (Some p) k2) by (unfold argptr, gets; cbn; by rewrite Ha1). cbn beta iota.
    apply bind_panic. unfold fileread.
    rewrite (bind_step (file_at f) _ k2 (set_fref 1 x) k2)
      by (unfold file_at; cbn [ftable set_procs set_ftable k2 k1]; by rewrite list_lookup_insert_eq).
    cbn [readable ftyp set_fref]. by rewrite Hr, Ht.
Qed.

End Calls.

(** ** The theorems on a small system *)

Import FsDemo.

(** Two files of the table are open on inode 2 of the small disk, both at offset 3. *)
Definition free_file : File.file := Mkfile FD_NONE 0 false false 0 0 0.
Definition demo_f (w : bool) : File.file := Mkfile FD_INODE 1 true w 0 1 3.
Definition demo_u : Syscall.user := Syscall.demo_user.
Definition demo_k : kst :=
  Kst (demo false) ([demo_f true; demo_f false] ++ replicate (NFILE - 2) free_file)
    [Fproc ([Some 0; Some 1]%nat ++ replicate (NOFILE - 2) None) 0; Fproc (replicate NOFILE None) 0] ∅ [] demo_u.

(** The same system before anything is open, and with a file that was closed. *)
Definition boot_k : kst :=
  Kst (demo false) (replicate NFILE free_file) [Fproc (replicate NOFILE None) 0; Fproc (replicate NOFILE None) 0] ∅ [] demo_u.
Definition closed_k : kst := set_ftable (Mkfile FD_NONE 0 true false 0 1 3 :: replicate (NFILE - 1) free_file) boot_k.

Definition demo_e : Fs.inode := Fs.Inode Fs.ROOTDEV 2 1 false true FsDemo.file.

Lemma demo_opened f w : ftable demo_k !! f = Some (demo_f w) → opened 5 demo_V f (demo_f w) 2 demo_e demo_k.
Proof.
  intros Hf. split; [done|done|apply demo_inv|by split|done| |]; rewrite FsThm.demo_V_file; done.
Qed.

Lemma filewrite_writes_witness :
  wpk (filewrite FsThm.no_write false 0 (replicate 1600 7)) (λ r _, r = 1600) demo_k.
Proof.
  eapply wpk_mono.
  - refine (filewrite_writes FsThm.no_write false 5 0 2 demo_V (demo_f true) demo_e demo_k (replicate 1600 7) (demo_opened 0 true eq_refl) eq_refl _ _ _).
    + by apply FsThm.bytes_ok_dec.
    + rewrite FsThm.demo_V_file. vm_compute. done.
    + vm_compute. done.
  - intros r k' [H _]. exact H.
Defined.

Lemma file_write_read_roundtrip_witness :
  wpk (filewrite FsThm.no_write false 0 (replicate 600 7) ;; fileread FsThm.no_read false 1 600)
    (λ r _, r = (600, replicate 600 7)) demo_k.
Proof.
  refine (file_write_read_roundtrip FsThm.no_read FsThm.no_write false 5 0 2 demo_V (demo_f true) demo_e demo_k 1 (demo_f false) demo_e
    (replicate 600 7) (demo_opened 0 true eq_refl) (demo_opened 1 false eq_refl) _ eq_refl eq_refl eq_refl _ _ _).
  - done.
  - by apply FsThm.bytes_ok_dec.
  - rewrite FsThm.demo_V_file. vm_compute. done.
  - vm_compute. done.
Defined.

Lemma demo_cache_wf : cache_wf (demo false).
Proof.
  intros ip e He. assert (Hall : Forall (λ e, length (Fs.addrs (Fs.di e)) = 13%nat) (demo_cache false)).
  { apply (bool_decide_eq_true_1 _). vm_compute. done. }
  by eapply Forall_lookup_1 in Hall.
Qed.

Lemma filewrite_fits_log_witness :
  ∃ ts, trans (final (filewrite FsThm.no_write false 0 (replicate 1600 7) demo_k)) = [] ++ ts ∧ Forall fits ts.
Proof. by refine (filewrite_fits_log FsThm.no_write _ false 0 (replicate 1600 7) demo_k demo_cache_wf _). Defined.

Lemma boot_started : started boot_k.
Proof. split_and!; [by apply Forall_replicate|by repeat constructor|done]. Qed.

Definition value {S A} (o : outcome S A) : option A := match o with Ok a _ => Some a | _ => None end.

Lemma value_Ok {S A} (o : outcome S A) a : value o = Some a → o = Ok a (final o).
Proof. destruct o; simpl; congruence. Qed.

(** The first process makes a pipe. *)
Abbreviation demo_pipe := (run FsThm.no_read FsThm.no_write false 0 (MkPipe (Some [])) (set_um demo_u boot_k)).

Lemma fstep_value dr dw kl me c u k r :
  callable me c k → value (run dr dw kl me c (set_um u k)) = Some r → fstep dr dw kl k (final (run dr dw kl me c (set_um u k))).
Proof. intros Hc Hv. by eapply fstep_call, value_Ok. Qed.

Lemma demo_pipe_value : value demo_pipe = Some 0.
Proof. vm_compute. reflexivity. Qed.

Lemma demo_callable : callable 0 (MkPipe (Some [])) boot_k.
Proof. by split. Qed.

Lemma demo_pipe_step : rtc (fstep FsThm.no_read FsThm.no_write false) boot_k (final demo_pipe).
Proof. exact (rtc_once _ _ (fstep_value _ _ _ _ _ _ _ _ demo_callable demo_pipe_value)). Qed.

(** The write end of the pipe is the second file. *)
Definition pipe_end : File.file := Mkfile FD_PIPE 1 false true 0 0 0.

Lemma demo_pipe_file : ftable (final demo_pipe) !! 1%nat = Some pipe_end.
Proof. vm_compute. reflexivity. Qed.

Lemma file_counts_witness : fref pipe_end = Z.of_nat (nrefs 1 (procs (final demo_pipe))).
Proof.
  exact (proj1 (proj1 (file_counts FsThm.no_read FsThm.no_write ltac:(done) ltac:(done) false boot_k (final demo_pipe)
    boot_started demo_pipe_step) 1%nat pipe_end demo_pipe_file)).
Defined.

Lemma close_fault : "fileclose"%string ∈ file_faults.
Proof. apply (bool_decide_unpack _). vm_compute. exact I. Qed.

(** A process that passes the descriptor 0. *)
Definition race_u : Syscall.user := Syscall.User (λ _, 0) 4096 200 5.

(** The process closes the read end of its pipe, the write end staying open. *)
Lemma file_calls_safe_witness :
  value (run FsThm.no_read FsThm.no_write false 0 Close (set_um race_u (final demo_pipe))) = Some 0 ∧
  fault (run FsThm.no_read FsThm.no_write false 0 Close (set_um race_u (final demo_pipe))) ≠ Some "fileclose"%string.
Proof.
  split; [vm_compute; reflexivity|].
  refine (file_calls_safe FsThm.no_read FsThm.no_write ltac:(done) ltac:(done) false boot_k (final demo_pipe) 0 Close race_u
    boot_started demo_pipe_step _ _ close_fault).
  split; [|exact I]. apply (bool_decide_unpack _). vm_compute. exact I.
Defined.

Lemma open_window_panics_witness :
  ∃ k', open_prefix 0 (set_um race_u closed_k) = Ok (Some 0%nat) k' ∧
    sys_read FsThm.no_read false 0 k' = Panic "fileread" k'.
Proof.
  refine (open_window_panics FsThm.no_read false 0 (set_um race_u closed_k) 0 _ _ 0 0 0 eq_refl eq_refl eq_refl eq_refl eq_refl eq_refl eq_refl _ _ _);
    vm_compute; reflexivity.
Defined.

End FileThm.
